(* ===== verification/_CoqProject ===== *)
-Q . S2P
Prelude.v
Utils.v
BitVector.v
SharerTracking.v
DirectoryEntry.v
BaseTheorems.v
CacheSet.v
Cache.v
CacheTheorems.v
Shmem.v
ShmemTheorems.v
DirectoryCache.v
DirectoryCacheProofs.v
MsiCaches.v
MsiCachesProofs.v
TileTheorems.v
MsiDirectory.v
MsiDirectoryProofs.v
DirectoryTheorems.v
ThreadManager.v
ThreadManagerProofs.v
Packetize.v
SyncServer.v
SyncServerProofs.v
SyncTheorems.v
ThreadScheduler.v
ThreadSchedulerProofs.v
ThreadTheorems.v
JoinTheorems.v
Syscalls.v
SyscallTheorems.v
Master.v
MasterTheorems.v
Double.v
QueueModels.v
IntervalTree.v
IntervalTreeProofs.v
IntervalTreeOps.v
HistoryTree.v
QueueProofs.v
QueueTheorems.v
NetPacket.v
NetworkModel.v
MeshModels.v
AtacModel.v
Network.v
NetworkProofs.v
DeliveryProofs.v
MeshProofs.v
AtacProofs.v
AtacScheme.v
NetworkInit.v
NetworkTheorems.v
Instruction.v
CoreModels.v
CoreProofs.v
CoreTables.v
CoreOrder.v
CoreTheorems.v
Messages.v
MessageProofs.v
MessageTheorems.v
MainCore.v
HostCalls.v
HostProofs.v
HostTheorems.v
