(* ===== verification/Prelude.v ===== *)
(** * Graphite (carbon_sim): a verification library

    Graphite simulates a many-core processor.  Every simulated tile has a core,
    private caches, a slice of the memory directory and a network port; the
    tiles are spread over host processes.  One tile runs the master control
    program (MCP), which owns the threads, the synchronisation objects and the
    virtual address space of the application.  Sources are named relative to
    src/carbon_sim_git/common.

    ** Method

    Every class is a record of its members and every method a function on that
    record, written with the source's early returns, assertions and order of
    effects.  Integers are [Z] with the conversions of the source's types
    ([u8] ... [u64], [s16], ...).  A function that can fail an assertion, index
    out of range or follow a null pointer returns [Fail] with the cause, in
    [res] or in the state monad [M] below; messages a component sends are
    collected in the order of sending.  Members the source reaches through
    pointers held in several places (directory entries) live in a heap.
    Floating-point arithmetic is that of IEEE 754 (Double.v); the C library's
    [pow], the values of the configuration file and the host system are
    arguments of the definitions that use them.

    ** The files

    Foundations.  This file: integers, the state monad, [runs] and [succeeds]
    (a computation ends without a failed assertion in a state that satisfies a
    postcondition), tactics and shared lemmas.  Utils.v (misc/utils, random.h,
    modulo_num), BitVector.v (misc/bit_vector), Packetize.v (misc/packetize).

    Memory system.  SharerTracking.v and DirectoryEntry.v: the sharer tracking
    schemes of tile/memory_subsystem/directory_schemes behind the interface
    [SharerTracker] with its contract [SharerTrackerSpec].  CacheSet.v and
    Cache.v: lines, replacement policies, sets and caches of
    tile/memory_subsystem/cache.  Shmem.v: messages, request queues, clocks,
    DRAM and home lookup.  DirectoryCache.v: the directory cache over a heap of
    entries.  MsiCaches.v: the private L1 and L2 controllers, MsiDirectory.v:
    the DRAM directory controller of pr_l1_pr_l2_dram_directory_msi.

    Master control program.  ThreadManager.v: the thread table
    (system/thread_manager.cc), the tile map (misc/config.cc) and the
    clock-skew barrier (lax_barrier_sync_server.cc).  ThreadScheduler.v:
    spawning, joining, yielding, migrating (thread_manager.cc,
    thread_scheduler.cc).  SyncServer.v: application mutexes, condition
    variables, barriers (sync_server.cc, sync_client.cc).  Syscalls.v: virtual
    memory and futexes (vm_manager.cc, syscall_server.cc).  Master.v: the
    message loop (mcp.cc) and the packets of its clients.  HostCalls.v: the calls
    the server forwards to the host, an interface, and the system call model of a
    core (tile/syscall_model.cc) with its copies from and to memory.

    Queue models.  QueueModels.v: the basic, M/G/1 and history-list models of
    shared_models/queue_models.  IntervalTree.v: the AVL tree of
    misc/interval_tree.cc over a heap of nodes.  HistoryTree.v: the history-tree
    model on it and the choice of a model.

    Networks.  NetPacket.v: packets, their buffers and clock conversion.
    NetworkModel.v: the base class of the models, routers and links.
    MeshModels.v: the magic, hop-counter and hop-by-hop mesh models.
    AtacModel.v: the optical network of clusters.  Network.v: the choice of a
    model, the network of a tile with its queue and callbacks, and [World], the
    networks of all tiles with the packets between them
    (network/network.cc, network_model.cc, models, components).

    Cores.  Instruction.v: instructions, branch prediction and the base class of
    the core models (tile/core); exceptions that keep the changes made before
    them are outcomes of the monad [X].  CoreModels.v: the simple and the
    out-of-order-memory model behind the interface [PerformanceModel], and the
    loop that runs queued instructions.  Messages.v: the messages of the
    application over the user networks: virtual channels, filters and buffers
    (user, atac, tile/core/core.cc).  MainCore.v: the accesses of a core to memory
    (tile/core/main_core.cc), over an interface [LineMemory] with its laws, and
    their theorem.

    A file named ...Proofs.v holds the invariant and the lemmas of a component,
    a file named ...Theorems.v its properties with instances at concrete
    inputs.

    ** What is proved

    BaseTheorems.v: a bit vector is a finite set and its word-wise search is a
    search by position; every directory scheme refines a set of tiles; sharer
    counts and broadcasts.  CacheTheorems.v: the structural invariant of a
    cache, insertion and lookup, store and load, miss classification, the
    least-recently-used policy against a recency list.  ShmemTheorems.v:
    message encoding, request queues as queues per address, memory contents.
    TileTheorems.v: no event of a tile fails an assertion and the L1 caches
    stay included in the L2 cache with equal bytes; what each handler does and
    sends.  DirectoryTheorems.v: the directory cache finds the entry of an
    address; over every sequence of messages the caches may send, the directory
    controller fails no assertion and stops only at a set whose ways all have
    requests waiting, keeps its entries in line with the ghost sets of sharers
    and exclusive holders and the ghost value of each line (all three computed
    from the messages), answers requests with that value, and leaves a request
    waiting only behind tiles that were asked for the line since they got it.
    SyncTheorems.v, ThreadTheorems.v, JoinTheorems.v: the server aborts on
    requests of running cores only where creating an object reallocates a vector
    somebody waits in, mutexes are first-in first-out,
    condition variables pass waiters to the mutex, barriers release all at the
    latest arrival, the clock-skew barrier bounds the skew by a quantum, the
    scheduler is fair and places spawned threads (with the two cases in which a
    spawn aborts), join and exit meet in either order.  SyscallTheorems.v:
    segments of the address space stay disjoint and in bounds for every length
    that does not wrap, futexes are first-in first-out queues.  MasterTheorems.v: the
    packets of the clients reach the handlers with their arguments, except that
    of setPid.  HostTheorems.v: a system call
    forwarded with its data is one call on the host with the bytes its arguments
    point to, and its results reach the program.
    QueueTheorems.v: the interval tree is a sorted sequence and stays balanced,
    the history models give packets disjoint slots (without interleaving), and
    tree and list agree.
    NetworkTheorems.v: every packet reaches each of its receivers exactly once
    over all four networks, whatever the order of sends and pulls.  The proof is
    in two halves: DeliveryProofs.v proves delivery for any network whose models
    follow a routing scheme (class [Scheme]: what a packet at a tile still has to
    reach, and a cost that decreases with every hop), MeshProofs.v and
    AtacScheme.v prove that the mesh and the optical network follow one, and
    NetworkInit.v that the constructors establish the states it starts from.
    CoreTheorems.v, CoreOrder.v, CoreTables.v: the out-of-order-memory model
    charges every cycle to one cause, its load buffer is a queue of units, an
    instruction indexes outside its tables only by a register it writes that does
    not exist; the branch predictor holds the last
    outcomes; over any core model with the laws of [PerformanceModelLaws]
    instructions run in program order.  MessageTheorems.v: the filter loses only
    packets that do not pass, a channel is first-in first-out and returns the
    message that was sent; the limit on waiting broadcasts stops a sender for its
    own copies only.  MainCore.v: an access of any size, split at the cache lines, reads or
    writes exactly its bytes.

    ** Bounds and fuel

    [BitVector] searches at most its number of words.  The set index of the
    directory cache folds the 64 bits of an address, at least one bit at a time:
    66 rounds are enough ([set_index_in_range]).  The request functions of the
    directory controller call each other once per queued request: [2 L + 4]
    levels for a queue of length [L] suffice ([directory_terminates]).
    [barrierRelease] advances by one quantum per round: [release_fuel] rounds
    reach the earliest waiting clock.  Clocks are 64-bit: where a theorem needs
    that they do not wrap it bounds them by 2^63; the counter of thread ids is
    bounded by 2^30.  One packet makes at most [8 n + 16] hops on [n] tiles
    ([World.hop_bound]), which the routing schemes prove to be enough.  A round
    of [iterate] takes a block off the queue and a round of the filter a packet
    off the network: their lengths are the fuel ([iterate_in_order],
    [filter_round]).  An access touches at most [line_bound] lines
    ([access_splits]).  The client of a system call looks for the end of a string
    in [max_string] rounds, an argument; [names] asks that they are enough.

    ** Not modelled

    The MOSI protocol and the protocols with a shared L2 cache; the printed
    summaries and traces; the socket transport (modelled as a queue per tile),
    host threads and locks (a handler runs as one step, as under the locks of the
    source); the configuration parser; the Pin front end; the power and area
    models, which are floating-point calls into external tools; the system calls
    of the IA32 target, and getcwd and sched_getaffinity, whose replies hold
    addresses of another process. *)
From stdpp Require Export base gmap list strings numbers sorting.
From Stdlib Require Export ZArith Lia.

#[global] Open Scope Z_scope.
#[export] Set Warnings "-clear-no-such-hyp".

(** ** Machine integers

    An integer of the source is a [Z]; the conversions below are C++'s
    conversions to the fixed-width types of common/misc/fixed_types.h. *)

Definition uint (w x : Z) : Z := x `mod` 2 ^ w.
Definition sint (w x : Z) : Z := (x + 2 ^ (w - 1)) `mod` 2 ^ w - 2 ^ (w - 1).

Definition u8 : Z → Z := uint 8.
Definition u16 : Z → Z := uint 16.
Definition u32 : Z → Z := uint 32.
Definition u64 : Z → Z := uint 64.
Definition s16 : Z → Z := sint 16.
Definition s32 : Z → Z := sint 32.

Definition INVALID_ADDRESS : Z := u64 (-1).
Definition INVALID_TILE_ID : Z := -1.

Lemma uint_range w x : 0 ≤ w → 0 ≤ uint w x < 2 ^ w.
Proof. intros Hw. apply Z.mod_pos_bound. lia. Qed.

Lemma uint_small w x : 0 ≤ x < 2 ^ w → uint w x = x.
Proof. intros H. by apply Z.mod_small. Qed.

Lemma sint_small w x : - 2 ^ (w - 1) ≤ x < 2 ^ (w - 1) → sint w x = x.
Proof.
  intros H. unfold sint. destruct (decide (0 < w)).
  - assert (2 ^ w = 2 ^ (w - 1) + 2 ^ (w - 1)) as E.
    { replace w with (Z.succ (w - 1)) at 1 by lia. rewrite Z.pow_succ_r by lia. lia. }
    rewrite Z.mod_small; lia.
  - rewrite Z.pow_neg_r in H by lia. lia.
Qed.

Lemma uint_add_idemp_l w x y : uint w (uint w x + y) = uint w (x + y).
Proof. unfold uint. destruct (decide (2 ^ w = 0)) as [->|].
  - by rewrite !Z.mod_0_r. - apply Zplus_mod_idemp_l. Qed.

Lemma uint_sub_idemp_l w x y : uint w (uint w x - y) = uint w (x - y).
Proof. rewrite <- !Z.add_opp_r. apply uint_add_idemp_l. Qed.

Lemma u8_small x : 0 ≤ x < 256 → u8 x = x.
Proof. intros. by apply uint_small. Qed.
Lemma u16_small x : 0 ≤ x < 65536 → u16 x = x.
Proof. intros. by apply uint_small. Qed.
Lemma u32_small x : 0 ≤ x < 4294967296 → u32 x = x.
Proof. intros. by apply uint_small. Qed.
Lemma u64_small x : 0 ≤ x < 18446744073709551616 → u64 x = x.
Proof. intros. by apply uint_small. Qed.
Lemma s16_small x : -32768 ≤ x < 32768 → s16 x = x.
Proof. intros. by apply sint_small. Qed.
Lemma s32_small x : -2147483648 ≤ x < 2147483648 → s32 x = x.
Proof. intros. by apply sint_small. Qed.

Lemma u8_range x : 0 ≤ u8 x < 256.
Proof. by apply (uint_range 8). Qed.
Lemma u32_range x : 0 ≤ u32 x < 4294967296.
Proof. by apply (uint_range 32). Qed.
Lemma u64_range x : 0 ≤ u64 x < 18446744073709551616.
Proof. by apply (uint_range 64). Qed.

(** ** Abnormal termination

    The ways in which the modelled code stops: a failed [assert] or
    [LOG_ASSERT_ERROR], a [LOG_PRINT_ERROR] (both abort the simulator), an
    access outside an array, a null pointer, a division by zero, and a bounded loop that
    used up its bound. *)

Inductive error : Type :=
  | EAssert (site : string)
  | ELog (site : string)
  | ERange (site : string)
  | ENull (site : string)
  | EDivZero (site : string)
  | EFuel (site : string).

Inductive res (A : Type) : Type :=
  | Ok (a : A)
  | Fail (e : error).
Arguments Ok {A} a.
Arguments Fail {A} e.

#[export] Instance res_ret : MRet res := @Ok.
#[export] Instance res_bind : MBind res := λ A B f m,
  match m with Ok a => f a | Fail e => Fail e end.

Definition is_Ok {A} (r : res A) : Prop := ∃ a, r = Ok a.

Definition check (b : bool) (e : error) : res unit := if b then Ok tt else Fail e.
Definition of_option {A} (o : option A) (e : error) : res A :=
  match o with Some a => Ok a | None => Fail e end.

(** Array accesses of the source: an index out of range is an error. *)
Definition zlookup {A} (l : list A) (i : Z) : option A :=
  if 0 <=? i then l !! Z.to_nat i else None.
Definition zinsert {A} (i : Z) (x : A) (l : list A) : list A :=
  if 0 <=? i then <[Z.to_nat i := x]> l else l.
Definition zlength {A} (l : list A) : Z := Z.of_nat (length l).

Definition vget {A} (site : string) (l : list A) (i : Z) : res A :=
  of_option (zlookup l i) (ERange site).
Definition vset {A} (site : string) (l : list A) (i : Z) (x : A) : res (list A) :=
  if (0 <=? i) && (i <? zlength l) then Ok (zinsert i x l) else Fail (ERange site).

(** ** The state and error monad of the stateful components *)

Definition M (S A : Type) : Type := S → res (A * S).

#[export] Instance M_ret S : MRet (M S) := λ A a s, Ok (a, s).
#[export] Instance M_bind S : MBind (M S) := λ A B f m s,
  match m s with Ok (a, s') => f a s' | Fail e => Fail e end.

Definition fail {S A} (e : error) : M S A := λ _, Fail e.
Definition assert {S} (b : bool) (site : string) : M S unit :=
  if b then mret tt else fail (EAssert site).
Definition gets {S A} (f : S → A) : M S A := λ s, Ok (f s, s).
Definition modify {S} (f : S → S) : M S unit := λ s, Ok (tt, f s).
Definition lift {S A} (r : res A) : M S A := λ s,
  match r with Ok a => Ok (a, s) | Fail e => Fail e end.
(** Run an operation of a component inside the state that holds it. *)
Definition zoom {S T A} (get : S → T) (put : T → S → S) (m : M T A) : M S A := λ s,
  match m (get s) with Ok (a, t) => Ok (a, put t s) | Fail e => Fail e end.
Definition skip {S} : M S unit := mret tt.

Definition when {S} (b : bool) (m : M S unit) : M S unit := if b then m else skip.

(** A [for] loop over a list of values, in order. *)
Fixpoint mfor {S A} (l : list A) (body : A → M S unit) : M S unit :=
  match l with
  | [] => skip
  | x :: l => body x ;; mfor l body
  end.

(** ** Field update of records

    [r <| f := v |>] is the record [r] whose field [f] is [v]; the setter of a
    projection is computed from the record's [Eta] expansion. *)

Class Eta (R : Type) : Type := eta : R → R.
Class Setter {R E : Type} (proj : R → E) : Type := over : (E → E) → R → R.
Arguments over {R E} proj {_} f r /.

Ltac setter_of proj :=
  match type of proj with
  | ?R → _ =>
    let i := constr:(_ : Eta R) in
    let body := eval hnf in i in
    let abs := eval pattern proj in body in
    lazymatch abs with
    | ?g proj => exact (λ f r, g (λ r', f (proj r')) r)
    end
  end.
#[export] Hint Extern 1 (Setter ?proj) => setter_of proj : typeclass_instances.

Declare Scope graphite_scope.
Notation "r <| f := v |>" := (over f (λ _, v) r)
  (at level 1, f at level 200, left associativity) : graphite_scope.
Notation "r <| f ::= g |>" := (over f g r)
  (at level 1, f at level 200, left associativity) : graphite_scope.
#[global] Open Scope graphite_scope.

(** ** Reasoning about the monads *)

Lemma res_bind_Ok {A B} (m : res A) (f : A → res B) b :
  (m ≫= f) = Ok b ↔ ∃ a, m = Ok a ∧ f a = Ok b.
Proof. destruct m; cbn; naive_solver. Qed.

Lemma M_bind_Ok {S A B} (m : M S A) (f : A → M S B) s b s' :
  (m ≫= f) s = Ok (b, s') ↔ ∃ a s1, m s = Ok (a, s1) ∧ f a s1 = Ok (b, s').
Proof.
  unfold mbind, M_bind. destruct (m s) as [[a s1]|e]; naive_solver.
Qed.

Lemma check_Ok b e u : check b e = Ok u ↔ b = true.
Proof. destruct b, u; cbn; naive_solver. Qed.

Lemma of_option_Ok {A} (o : option A) e a : of_option o e = Ok a ↔ o = Some a.
Proof. destruct o; cbn; naive_solver. Qed.

Lemma assert_Ok {S} b site (s s' : S) u :
  assert b site s = Ok (u, s') ↔ b = true ∧ s' = s.
Proof. unfold assert, fail, mret, M_ret. destruct b, u; naive_solver. Qed.

Lemma lift_Ok {S A} (r : res A) (s s' : S) a :
  lift r s = Ok (a, s') ↔ r = Ok a ∧ s' = s.
Proof. unfold lift. destruct r; naive_solver. Qed.

Lemma zoom_Ok {S T A} (g : S → T) p (m : M T A) s a s' :
  zoom g p m s = Ok (a, s') ↔ ∃ t, m (g s) = Ok (a, t) ∧ s' = p t s.
Proof. unfold zoom. destruct (m (g s)) as [[a' t]|e]; naive_solver. Qed.

Lemma mret_Ok {S A} (a b : A) (s s' : S) :
  (mret a : M S A) s = Ok (b, s') ↔ b = a ∧ s' = s.
Proof. unfold mret, M_ret. naive_solver. Qed.

Lemma gets_Ok {S A} (f : S → A) s a s' : gets f s = Ok (a, s') ↔ a = f s ∧ s' = s.
Proof. unfold gets. naive_solver. Qed.

Lemma modify_Ok {S} (f : S → S) s u s' : modify f s = Ok (u, s') ↔ s' = f s.
Proof. unfold modify. destruct u. naive_solver. Qed.

(** [run_inv] decomposes every hypothesis that says that a computation
    succeeded into the successes of its parts. *)
Ltac run_inv :=
  repeat match goal with
  | H : Ok _ = Ok _ |- _ => injection H; clear H; intros
  | H : Fail _ = Ok _ |- _ => discriminate H
  | H : fail _ _ = Ok _ |- _ => discriminate H
  | H : mbind _ _ _ = Ok (_, _) |- _ => rewrite M_bind_Ok in H
  | H : mbind _ _ = Ok _ |- _ => rewrite res_bind_Ok in H
  | H : check _ _ = Ok _ |- _ => rewrite check_Ok in H
  | H : of_option _ _ = Ok _ |- _ => rewrite of_option_Ok in H
  | H : assert _ _ _ = Ok _ |- _ => rewrite assert_Ok in H
  | H : lift _ _ = Ok _ |- _ => rewrite lift_Ok in H
  | H : zoom _ _ _ _ = Ok _ |- _ => rewrite zoom_Ok in H
  | H : gets _ _ = Ok _ |- _ => rewrite gets_Ok in H
  | H : modify _ _ = Ok _ |- _ => rewrite modify_Ok in H
  | H : skip _ = Ok _ |- _ => unfold skip in H
  | H : mret _ _ = Ok _ |- _ => rewrite mret_Ok in H
  | H : mret _ = Ok _ |- _ => injection H; clear H; intros
  | H : ∃ _, _ |- _ => destruct H
  | H : _ ∧ _ |- _ => destruct H
  | H : unit |- _ => destruct H
  | _ => progress subst
  end.

(** [runs E m s Q]: from [s] the computation [m] either succeeds with a result
    and a state that satisfy [Q], or stops with an error of [E]. *)
Definition runs {S A} (E : error → Prop) (m : M S A) (s : S) (Q : A → S → Prop) : Prop :=
  match m s with Ok (a, s') => Q a s' | Fail e => E e end.

Section runs.
Context {S : Type} (E : error → Prop).
Implicit Types s : S.

Lemma runs_Ok {A} (m : M S A) s Q a s' : m s = Ok (a, s') → Q a s' → runs E m s Q.
Proof. unfold runs. by intros ->. Qed.
Lemma runs_bind {A B} (m : M S A) (f : A → M S B) s Q :
  runs E m s (λ a s', runs E (f a) s' Q) → runs E (m ≫= f) s Q.
Proof. unfold runs, mbind, M_bind. by destruct (m s) as [[a s']|e]. Qed.
Lemma runs_mono {A} (m : M S A) s (P Q : A → S → Prop) :
  runs E m s P → (∀ a s', P a s' → Q a s') → runs E m s Q.
Proof. unfold runs. destruct (m s) as [[a s']|e]; naive_solver. Qed.
Lemma runs_ret {A} (a : A) s (Q : A → S → Prop) : Q a s → runs E (mret a) s Q.
Proof. done. Qed.
Lemma runs_gets {A} (f : S → A) s (Q : A → S → Prop) : Q (f s) s → runs E (gets f) s Q.
Proof. done. Qed.
Lemma runs_modify (f : S → S) s (Q : unit → S → Prop) : Q tt (f s) → runs E (modify f) s Q.
Proof. done. Qed.
Lemma runs_assert b site s (Q : unit → S → Prop) : b = true → Q tt s → runs E (assert b site) s Q.
Proof. by intros ->. Qed.
Lemma runs_lift {A} (r : res A) a s (Q : A → S → Prop) : r = Ok a → Q a s → runs E (lift r) s Q.
Proof. unfold runs, lift. by intros ->. Qed.
Lemma runs_fail {A} e s (Q : A → S → Prop) : E e → runs E (fail e) s Q.
Proof. done. Qed.
Lemma runs_when b (m : M S unit) s (Q : unit → S → Prop) :
  (b = true → runs E m s Q) → (b = false → Q tt s) → runs E (when b m) s Q.
Proof. destruct b; cbn; naive_solver. Qed.
Lemma runs_zoom {T A} (g : S → T) p (m : M T A) s (Q : A → S → Prop) :
  runs E m (g s) (λ a t, Q a (p t s)) → runs E (zoom g p m) s Q.
Proof. unfold runs, zoom. by destruct (m (g s)) as [[a t]|e]. Qed.
End runs.

Lemma runs_weaken {S A} (E E' : error → Prop) (m : M S A) s (P Q : A → S → Prop) :
  runs E m s P → (∀ e, E e → E' e) → (∀ a s', P a s' → Q a s') → runs E' m s Q.
Proof. unfold runs. destruct (m s) as [[a s']|e]; naive_solver. Qed.

(** [succeeds m s Q]: the computation fails no assertion and ends in [Q]. *)
Abbreviation succeeds := (runs (λ _, False)).

(** [run1] executes the first operation of a computation. *)
Ltac run1 :=
  match goal with
  | |- runs _ (mbind _ _) _ _ => apply runs_bind
  | |- runs _ (gets _) _ _ => apply runs_gets
  | |- runs _ (modify _) _ _ => apply runs_modify
  | |- runs _ (mret _) _ _ => apply runs_ret
  | |- runs _ skip _ _ => apply runs_ret
  | |- runs _ (assert _ _) _ _ => apply runs_assert
  end.

(** ** Integers and booleans *)

(** [breflect] turns the boolean tests of the code into propositions. *)
Ltac breflect :=
  repeat match goal with
  | H : negb _ = true |- _ => apply negb_true_iff in H
  | H : negb _ = false |- _ => apply negb_false_iff in H
  | H : (_ && _) = true |- _ => apply andb_true_iff in H as [? ?]
  | H : (_ || _) = false |- _ => apply orb_false_iff in H as [? ?]
  | H : (_ =? _) = true |- _ => apply Z.eqb_eq in H
  | H : (_ =? _) = false |- _ => apply Z.eqb_neq in H
  | H : (_ <? _) = true |- _ => apply Z.ltb_lt in H
  | H : (_ <? _) = false |- _ => apply Z.ltb_ge in H
  | H : (_ <=? _) = true |- _ => apply Z.leb_le in H
  | H : (_ <=? _) = false |- _ => apply Z.leb_gt in H
  | H : (_ >? _) = true |- _ => rewrite Z.gtb_ltb in H; apply Z.ltb_lt in H
  | H : (_ >? _) = false |- _ => rewrite Z.gtb_ltb in H; apply Z.ltb_ge in H
  | H : bool_decide _ = true |- _ => apply bool_decide_eq_true in H
  | H : bool_decide _ = false |- _ => apply bool_decide_eq_false in H
  end.

(** ** Arrays *)

Section arrays.
Context {A : Type}.
Implicit Types (l : list A) (x y : A) (i j : Z).

Lemma zlookup_nat l i : 0 ≤ i → zlookup l i = l !! Z.to_nat i.
Proof. intros H. unfold zlookup. by rewrite (proj2 (Z.leb_le 0 i)). Qed.

Lemma zlookup_Some l i x :
  zlookup l i = Some x → 0 ≤ i < zlength l ∧ l !! Z.to_nat i = Some x.
Proof.
  unfold zlookup, zlength. destruct (0 <=? i) eqn:E; [|done]. breflect.
  intros H. split; [|done]. apply lookup_lt_Some in H. lia.
Qed.

Lemma zlookup_is_Some l i : 0 ≤ i < zlength l → is_Some (zlookup l i).
Proof.
  unfold zlength. intros H. rewrite zlookup_nat by lia. apply lookup_lt_is_Some. lia.
Qed.

Lemma zlength_zinsert l i x : zlength (zinsert i x l) = zlength l.
Proof. unfold zlength, zinsert. case_match; by rewrite ?length_insert. Qed.

Lemma zlookup_zinsert_eq l i x : 0 ≤ i < zlength l → zlookup (zinsert i x l) i = Some x.
Proof.
  unfold zlength. intros H. unfold zinsert. rewrite (proj2 (Z.leb_le 0 i)) by lia.
  rewrite zlookup_nat by lia. apply list_lookup_insert_eq. lia.
Qed.

Lemma zlookup_zinsert_ne l i j x : i ≠ j → zlookup (zinsert i x l) j = zlookup l j.
Proof.
  intros H. unfold zlookup, zinsert. destruct (0 <=? j) eqn:Ej; [|done].
  destruct (0 <=? i) eqn:Ei; [|done]. breflect.
  apply list_lookup_insert_ne. lia.
Qed.

Lemma vget_Ok site l i x : vget site l i = Ok x ↔ zlookup l i = Some x.
Proof. apply of_option_Ok. Qed.

Lemma vget_ok site l i : 0 ≤ i < zlength l → is_Ok (vget site l i).
Proof.
  intros [x Hx]%zlookup_is_Some. exists x. unfold vget. by rewrite Hx.
Qed.

Lemma vset_Ok site l i x l' :
  vset site l i x = Ok l' ↔ 0 ≤ i < zlength l ∧ l' = zinsert i x l.
Proof.
  unfold vset. destruct (_ && _) eqn:E.
  - apply andb_true_iff in E as [E1 E2]. breflect. naive_solver.
  - split; [done|]. intros [H _]. apply andb_false_iff in E. destruct E; breflect; lia.
Qed.
Lemma zinsert_zinsert i x y l : zinsert i x (zinsert i y l) = zinsert i x l.
Proof. unfold zinsert. destruct (0 <=? i); [|done]. by rewrite list_insert_insert_eq. Qed.
End arrays.

(** ** Bits *)

Lemma land_pow2_eqb0 x n : 0 ≤ n → (Z.land x (2 ^ n) =? 0) = negb (Z.testbit x n).
Proof.
  intros Hn. destruct (Z.testbit x n) eqn:E; cbn.
  - apply Z.eqb_neq. intros H0.
    assert (Z.testbit (Z.land x (2 ^ n)) n = false) as H1 by (rewrite H0; apply Z.bits_0).
    rewrite Z.land_spec, E, Z.pow2_bits_true in H1 by done. done.
  - apply Z.eqb_eq, Z.bits_inj'. intros m Hm.
    rewrite Z.land_spec, Z.bits_0, Z.pow2_bits_eqb by done.
    destruct (Z.eqb_spec n m) as [->|]; [by rewrite E|by rewrite andb_false_r].
Qed.

Lemma testbit_uint w x n : 0 ≤ n < w → Z.testbit (uint w x) n = Z.testbit x n.
Proof. intros [??]. unfold uint. by apply Z.mod_pow2_bits_low. Qed.

Lemma testbit_land_ones w x n : 0 ≤ n < w → Z.testbit (Z.land x (Z.ones w)) n = Z.testbit x n.
Proof. intros [??]. rewrite Z.land_ones by lia. by apply Z.mod_pow2_bits_low. Qed.

Lemma bounded_of_testbit w x :
  0 ≤ w → 0 ≤ x → (∀ n, w ≤ n → Z.testbit x n = false) → 0 ≤ x < 2 ^ w.
Proof.
  intros Hw Hx H. split; [done|].
  destruct (decide (x = 0)) as [->|]; [lia|].
  apply Z.log2_lt_pow2; [lia|]. apply Z.nle_gt. intros Hle.
  apply H in Hle. rewrite Z.bit_log2 in Hle by lia. done.
Qed.

Lemma testbit_bounded w x n : 0 ≤ x < 2 ^ w → w ≤ n → Z.testbit x n = false.
Proof.
  intros [Hx Hlt] Hn. destruct (decide (x = 0)) as [->|]; [apply Z.bits_0|].
  apply Z.bits_above_log2; [done|].
  apply Z.log2_lt_pow2 in Hlt; lia.
Qed.

(** ** Lists of integers *)

Lemma filter_nil_iff {A} (P : A → Prop) `{∀ x, Decision (P x)} (l : list A) :
  (∀ x, x ∈ l → ¬ P x) → filter P l = [].
Proof.
  induction l as [|x l IH]; intros H0; [done|].
  rewrite filter_cons_False by (apply H0; set_solver). apply IH. set_solver.
Qed.

Lemma filter_all {A} (P : A → Prop) `{∀ x, Decision (P x)} (l : list A) :
  (∀ x, x ∈ l → P x) → filter P l = l.
Proof.
  induction l as [|x l IH]; intros H0; [done|].
  rewrite filter_cons_True by (apply H0; set_solver). f_equal. apply IH. set_solver.
Qed.

Lemma StronglySorted_filter {A} (R : relation A) (P : A → Prop) `{∀ x, Decision (P x)} l :
  StronglySorted R l → StronglySorted R (filter P l).
Proof.
  induction 1 as [|x l Hs IH Hx]; [constructor|]. rewrite filter_cons. case_decide; [|done].
  constructor; [done|]. rewrite Forall_forall in *. intros y Hy.
  apply Hx. by apply list_elem_of_filter in Hy as [_ ?].
Qed.

Lemma StronglySorted_seqZ m n : StronglySorted Z.lt (seqZ m n).
Proof.
  revert m. destruct (Z.le_gt_cases 0 n) as [Hn|Hn]; [|intros; rewrite seqZ_nil by lia; constructor].
  pattern n. apply natlike_ind; [intros; constructor| |done].
  clear n Hn. intros n Hn IH m. rewrite seqZ_cons by lia.
  constructor; [rewrite Z.pred_succ; apply IH|].
  apply Forall_forall. intros k Hk%elem_of_seqZ. lia.
Qed.

Lemma NoDup_zlength_size (l : list Z) :
  NoDup l → zlength l = Z.of_nat (size (list_to_set l : gset Z)).
Proof. intros H. unfold zlength. by rewrite size_list_to_set. Qed.

Lemma size_empty_iff_L (X : gset Z) : size X = 0%nat ↔ X = ∅.
Proof. rewrite size_empty_iff. apply leibniz_equiv_iff. Qed.
Lemma size_non_empty_iff_L (X : gset Z) : size X ≠ 0%nat ↔ X ≠ ∅.
Proof. by rewrite size_empty_iff_L. Qed.

Create HintDb graphite discriminated.
#[export] Hint Resolve u8_range u32_range u64_range : graphite.
