(* ===== verification/Utils.v ===== *)
(** * Utils: the arithmetic helpers of common/misc

    [floorLog2], [ceilLog2], [isPower2], [getBits] (utils.{h,cc}), the linear
    congruential generator [Random] (random.h), the ring counter [ModuloNum]
    (modulo_num.cc) and [computeLifetime] (cache_utils.cc). *)
From S2P Require Import Prelude.

Module Utils.

Definition k_KILO : Z := 1024.

Definition isPower2 (n : Z) : bool := Z.land n (u32 (n - 1)) =? 0.

(** One line [if (n & mask) { p += k; n >>= k; }] of [floorLog2]. *)
Definition log2_line (mask k : Z) (pn : Z * Z) : Z * Z :=
  let '(p, n) := pn in
  if negb (Z.land n mask =? 0) then (p + k, Z.shiftr n k) else (p, n).

Definition floorLog2 (n : Z) : Z :=
  if n =? 0 then -1 else
  let pn := (0, n) in
  let pn := log2_line 0xffff0000 16 pn in
  let pn := log2_line 0x0000ff00 8 pn in
  let pn := log2_line 0x000000f0 4 pn in
  let pn := log2_line 0x0000000c 2 pn in
  let '(p, n) := pn in
  if negb (Z.land n 0x00000002 =? 0) then p + 1 else p.

Definition ceilLog2 (n : Z) : Z := floorLog2 (u32 (n - 1)) + 1.

Definition isEven (n : Z) : bool := n `mod` 2 =? 0.
Definition isOdd (n : Z) : bool := negb (isEven n).

Definition convertBitsToBytes (num_bits : Z) : Z :=
  if num_bits `mod` 8 =? 0 then num_bits / 8 else num_bits / 8 + 1.

(** [getBits<IntPtr>]: the bits of [x] from [low] up to, not including, [high]. *)
Definition getBits (x high low : Z) : Z :=
  let bits := u8 (high - low) in
  let bitmask := u64 (u64 (Z.shiftl 1 bits) - 1) in
  Z.land (Z.shiftr x low) bitmask.

Definition getMin {A} (lt : A → A → bool) (v1 v2 : A) : A := if lt v1 v2 then v1 else v2.
Definition getMax {A} (lt : A → A → bool) (v1 v2 : A) : A := if lt v2 v1 then v1 else v2.

Definition computeLifetime (birth_time curr_time : Z) : Z :=
  if curr_time >? birth_time then curr_time - birth_time else 0.

(** ** [floorLog2] is the integer logarithm *)

(** A line of [floorLog2] keeps [p + log2 n] and halves the width of [n]. *)
Lemma log2_line_spec k p n :
  0 < k → 0 < n < 2 ^ (2 * k) →
  let mask := Z.shiftl (Z.ones k) k in
  let '(p', n') := log2_line mask k (p, n) in
  0 < n' < 2 ^ k ∧ p' + Z.log2 n' = p + Z.log2 n.
Proof.
  intros Hk Hn mask. unfold log2_line.
  assert (Z.land n mask = Z.shiftl (Z.shiftr n k) k) as ->.
  { apply Z.bits_inj'. intros i Hi. subst mask.
    rewrite Z.land_spec, !Z.shiftl_spec by done.
    destruct (decide (k ≤ i)) as [Hki|Hki].
    - rewrite Z.shiftr_spec by lia. replace (i - k + k) with i by lia.
      destruct (decide (i < 2 * k)).
      + rewrite Z.ones_spec_low by lia. apply andb_true_r.
      + rewrite (testbit_bounded (2 * k) n) by lia. done.
    - rewrite !(Z.testbit_neg_r _ (i - k)) by lia. apply andb_false_r. }
  rewrite Z.shiftl_mul_pow2, Z.shiftr_div_pow2 by lia.
  assert (0 < 2 ^ k) by lia.
  destruct (Z.eqb_spec (n / 2 ^ k * 2 ^ k) 0) as [E|E]; cbn [negb].
  - split; [|lia]. assert (n / 2 ^ k = 0) as E' by nia.
    apply Z.div_small_iff in E'; lia.
  - assert (n / 2 ^ k ≠ 0) by nia. assert (0 ≤ n / 2 ^ k) by (apply Z.div_pos; lia).
    split.
    + split; [lia|]. apply Z.div_lt_upper_bound; [lia|].
      rewrite <- Z.pow_add_r by lia. replace (k + k) with (2 * k) by lia. lia.
    + rewrite <- Z.shiftr_div_pow2, Z.log2_shiftr by lia.
      assert (2 ^ k ≤ n).
      { apply Z.nlt_ge. intros ?. rewrite Z.div_small in *; lia. }
      assert (k ≤ Z.log2 n) by (apply Z.log2_le_pow2; lia). lia.
Qed.

Lemma floorLog2_spec n : 0 < n < 2 ^ 32 → floorLog2 n = Z.log2 n.
Proof.
  intros Hn. unfold floorLog2. rewrite (proj2 (Z.eqb_neq n 0)) by lia.
  pose proof (log2_line_spec 16 0 n ltac:(lia) ltac:(lia)) as L. cbv zeta in L.
  change (Z.shiftl (Z.ones 16) 16) with 0xffff0000 in L.
  destruct (log2_line 0xffff0000 16 (0, n)) as [p1 n1].
  destruct L as [H1 E1].
  pose proof (log2_line_spec 8 p1 n1 ltac:(lia) ltac:(lia)) as L. cbv zeta in L.
  change (Z.shiftl (Z.ones 8) 8) with 0x0000ff00 in L.
  destruct (log2_line 0x0000ff00 8 (p1, n1)) as [p2 n2].
  destruct L as [H2 E2].
  pose proof (log2_line_spec 4 p2 n2 ltac:(lia) ltac:(lia)) as L. cbv zeta in L.
  change (Z.shiftl (Z.ones 4) 4) with 0x000000f0 in L.
  destruct (log2_line 0x000000f0 4 (p2, n2)) as [p3 n3].
  destruct L as [H3 E3].
  pose proof (log2_line_spec 2 p3 n3 ltac:(lia) ltac:(lia)) as L. cbv zeta in L.
  change (Z.shiftl (Z.ones 2) 2) with 0x0000000c in L.
  destruct (log2_line 0x0000000c 2 (p3, n3)) as [p4 n4].
  destruct L as [H4 E4].
  assert (Z.log2 n4 = if negb (Z.land n4 2 =? 0) then 1 else 0) as E5.
  { assert (n4 = 1 ∨ n4 = 2 ∨ n4 = 3) as [-> | [-> | ->]] by lia; done. }
  destruct (negb _); lia.
Qed.

Lemma isPower2_spec k : 0 ≤ k < 32 → isPower2 (2 ^ k) = true.
Proof.
  intros Hk. unfold isPower2. assert (0 < 2 ^ k) by lia.
  assert (2 ^ k < 2 ^ 32) by (apply Z.pow_lt_mono_r; lia).
  rewrite u32_small, Z.land_comm by lia.
  replace (2 ^ k - 1) with (Z.ones k) by (rewrite Z.ones_equiv; lia).
  rewrite land_pow2_eqb0, Z.ones_spec_high by lia. done.
Qed.

Lemma ceilLog2_spec n : 1 < n ≤ 2 ^ 32 → ceilLog2 n = Z.log2_up n.
Proof.
  intros Hn. unfold ceilLog2. rewrite u32_small by lia.
  rewrite floorLog2_spec by lia.
  pose proof (Z.log2_up_eqn n). rewrite Z.sub_1_r. lia.
Qed.

Lemma getBits_spec x low w :
  0 ≤ low → 0 ≤ w ≤ 63 → getBits x (low + w) low = (x / 2 ^ low) `mod` 2 ^ w.
Proof.
  intros Hl Hw. unfold getBits. replace (low + w - low) with w by lia.
  rewrite u8_small by lia. rewrite Z.shiftl_1_l.
  assert (0 < 2 ^ w) by lia. assert (2 ^ w < 2 ^ 64) by (apply Z.pow_lt_mono_r; lia).
  rewrite !u64_small by (rewrite ?u64_small; lia).
  replace (2 ^ w - 1) with (Z.ones w) by (rewrite Z.ones_equiv; lia).
  by rewrite Z.land_ones, Z.shiftr_div_pow2 by lia.
Qed.

End Utils.

Module Random.

(** [Random]: the seed is the generator's state. *)
Record Random := mkRandom { _seed : Z }.

Definition make : Random := mkRandom 1.

Definition next (r : Random) (limit : Z) : res (Z * Random) :=
  let seed := u32 (_seed r * 1103515245 + 12345) in
  if limit =? 0 then Fail (EDivZero "Random::next")
  else Ok ((seed / 65536) `mod` limit, mkRandom seed).

Lemma next_range r limit :
  0 < limit → ∃ v r', next r limit = Ok (v, r') ∧ 0 ≤ v < limit.
Proof.
  intros Hl. unfold next. rewrite (proj2 (Z.eqb_neq limit 0)) by lia.
  do 2 eexists. split; [done|]. apply Z.mod_pos_bound. lia.
Qed.

End Random.

Module ModuloNum.

Record ModuloNum := mkModuloNum { _value : Z; _max_value : Z }.

Definition add (a b : ModuloNum) : res ModuloNum :=
  check (_max_value a =? _max_value b) (EAssert "ModuloNum::operator+") ;;
  if _max_value a =? 0 then Fail (EDivZero "ModuloNum::operator+") else
  Ok (mkModuloNum (u32 (_value a + _value b) `mod` _max_value a) (_max_value a)).

Definition sub (a b : ModuloNum) : res ModuloNum :=
  check (_max_value a =? _max_value b) (EAssert "ModuloNum::operator-") ;;
  Ok (mkModuloNum
        (if _value a >=? _value b then u32 (_value a - _value b)
         else u32 (_value a + _max_value a - _value b)) (_max_value a)).

Definition of_int (max_value value : Z) : res ModuloNum :=
  if max_value =? 0 then Fail (EDivZero "ModuloNum") else
  Ok (mkModuloNum (value `mod` max_value) max_value).

Definition add_int (a : ModuloNum) (value : Z) : res ModuloNum :=
  num ← of_int (_max_value a) value ; add a num.
Definition sub_int (a : ModuloNum) (value : Z) : res ModuloNum :=
  num ← of_int (_max_value a) value ; sub a num.

Definition eqb (a b : ModuloNum) : bool :=
  (_value a =? _value b) && (_max_value a =? _max_value b).
Definition neqb (a b : ModuloNum) : bool := negb (eqb a b).

(** A counter below a modulus of at most 2^31, so that sums fit a [UInt32]. *)
Definition wf (a : ModuloNum) : Prop :=
  0 < _max_value a ≤ 2 ^ 31 ∧ 0 ≤ _value a < _max_value a.

(** Subtraction undoes addition on the ring counter, and both stay below the
    modulus. *)
Lemma add_sub a k :
  wf a → 0 ≤ k < 2 ^ 32 →
  ∃ b, add_int a k = Ok b ∧ wf b ∧ _value b = (_value a + k) `mod` _max_value a ∧
       sub_int b k = Ok a.
Proof.
  intros [Hm Hv] Hk. unfold add_int, sub_int, of_int, add, sub. cbn.
  rewrite (proj2 (Z.eqb_neq (_max_value a) 0)) by lia. cbn. rewrite Z.eqb_refl. cbn.
  pose proof (Z.mod_pos_bound k (_max_value a) ltac:(lia)).
  rewrite (u32_small (_value a + _)) by lia.
  eexists. split; [done|]. rewrite Zplus_mod_idemp_r. cbn.
  pose proof (Z.mod_pos_bound (_value a + k) (_max_value a) ltac:(lia)).
  split; [by split|]. split; [done|].
  rewrite (proj2 (Z.eqb_neq (_max_value a) 0)) by lia. cbn. rewrite Z.eqb_refl. cbn.
  f_equal. destruct a as [v m]; cbn in *. f_equal.
  assert ((v + k) `mod` m = v + k `mod` m ∨ (v + k) `mod` m = v + k `mod` m - m) as E.
  { rewrite <- (Zplus_mod_idemp_r k v m). destruct (decide (v + k `mod` m < m)).
    - left. apply Z.mod_small. lia.
    - right. symmetry. apply Z.mod_unique with 1; lia. }
  rewrite Z.geb_leb. destruct (_ <=? _) eqn:El; breflect; rewrite u32_small; lia.
Qed.

End ModuloNum.
