(* ===== verification/BitVector.v ===== *)
(** * BitVector: the bit set of common/misc/bit_vector.{h,cc}

    The state is the record of the class's members, the 64-bit words included;
    [find] is the source's nested search (word, half, quarter, byte, bit) with
    its early return.  The theorems relate the operations to the finite set
    [bits] of positions that are set. *)
From S2P Require Import Prelude.

Module BitVector.

Record BitVector := mkBitVector {
  m_capacity : Z;
  m_size : Z;
  m_last_pos : Z;
  VECTOR_SIZE : Z;
  m_words : list Z
}.
#[global] Instance eta_BitVector : Eta BitVector := λ b,
  mkBitVector (m_capacity b) (m_size b) (m_last_pos b) (VECTOR_SIZE b) (m_words b).

(** [BitVector::BitVector]; [m_words.resize] fills with zeroes. *)
Definition make (bits : Z) : BitVector :=
  let vector_size := Z.shiftr (u32 (bits + 64 - 1)) 6 in
  mkBitVector bits 0 (-1) vector_size (replicate (Z.to_nat vector_size) 0).

Definition reset (b : BitVector) : BitVector :=
  b <| m_words := replicate (length (m_words b)) 0 |> <| m_size := 0 |> <| m_last_pos := -1 |>.

Definition resetFind (b : BitVector) : BitVector := b <| m_last_pos := -1 |>.

Definition capacity (b : BitVector) : Z := m_capacity b.
Definition size (b : BitVector) : Z := m_size b.

(** [BitVector::bTestBit]. *)
Definition bTestBit (byte_word bit : Z) : bool :=
  let one := 1 in
  let mask := u8 (Z.shiftl one bit) in
  negb (Z.land byte_word mask =? 0).

Definition at_ (b : BitVector) (bit : Z) : res bool :=
  check (bit <? m_capacity b) (EAssert "BitVector::at") ;;
  let index := Z.shiftr bit 6 in
  let shift := Z.land bit 63 in
  let one := 1 in
  let mask := u64 (Z.shiftl one shift) in
  w ← vget "BitVector::at" (m_words b) index ;
  Ok (negb (Z.land w mask =? 0)).

Definition set (b : BitVector) (bit : Z) : res BitVector :=
  check (bit <? m_capacity b) (EAssert "BitVector::set") ;;
  let index := Z.shiftr bit 6 in
  let shift := Z.land bit 63 in
  let one := 1 in
  let mask := u64 (Z.shiftl one shift) in
  present ← at_ b bit ;
  if negb present then
    w ← vget "BitVector::set" (m_words b) index ;
    words ← vset "BitVector::set" (m_words b) index (Z.lor w mask) ;
    Ok (b <| m_words := words |> <| m_size := u32 (m_size b + 1) |>)
  else Ok b.

Definition clear (b : BitVector) (bit : Z) : res BitVector :=
  check (bit <? m_capacity b) (EAssert "BitVector::clear") ;;
  let index := Z.shiftr bit 6 in
  let shift := Z.land bit 63 in
  let one := 1 in
  let mask := u64 (Z.lnot (u64 (Z.shiftl one shift))) in
  present ← at_ b bit ;
  if (present : bool) then
    w ← vget "BitVector::clear" (m_words b) index ;
    words ← vset "BitVector::clear" (m_words b) index (Z.land w mask) ;
    Ok (b <| m_words := words |> <| m_size := u32 (m_size b - 1) |>)
  else Ok b.

(** The first result of a loop body that may return from the function. *)
Fixpoint for_return {A} (l : list Z) (body : Z → option A) : option A :=
  match l with
  | [] => None
  | x :: l => match body x with Some r => Some r | None => for_return l body end
  end.

(** The body of [find]'s [while] loop for one word: the three halving loops
    and the loop over the bits of a byte, each with its test for zero; [base]
    is the part of [return_pos] the enclosing loops have fixed. *)
Definition find_in_byte (last_pos base words8 : Z) : option Z :=
  if negb (words8 =? 0) then
    for_return [0; 1; 2; 3; 4; 5; 6; 7] (λ l,
      if bTestBit words8 l then
        let return_pos := base + l in
        if return_pos >? last_pos then Some return_pos else None
      else None)
  else None.

Definition find_in_word16 (last_pos base words16 : Z) : option Z :=
  if negb (words16 =? 0) then
    for_return [0; 1] (λ k,
      find_in_byte last_pos (base + 8 * k)
        (if k =? 1 then u8 (Z.shiftr words16 8) else Z.land words16 0xFF))
  else None.

Definition find_in_word32 (last_pos base words32 : Z) : option Z :=
  if negb (words32 =? 0) then
    for_return [0; 1] (λ j,
      find_in_word16 last_pos (base + 16 * j)
        (if j =? 1 then u16 (Z.shiftr words32 16) else Z.land words32 0xFFFF))
  else None.

Definition find_in_word (last_pos windex word64 : Z) : option Z :=
  if negb (word64 =? 0) then
    for_return [0; 1] (λ i,
      find_in_word32 last_pos (64 * windex + 32 * i)
        (if i =? 1 then u32 (Z.shiftr word64 32) else Z.land word64 0xFFFFFFFF))
  else None.

(** The [while (windex < word_count)] loop; the bound is the number of words
    left. *)
Fixpoint find_words (n : nat) (b : BitVector) (windex : Z) : res (option Z) :=
  match n with
  | O => Ok None
  | S n =>
    word64 ← vget "BitVector::find" (m_words b) windex ;
    match find_in_word (m_last_pos b) windex word64 with
    | Some p => Ok (Some p)
    | None => find_words n b (windex + 1)
    end
  end.

Definition find (b : BitVector) : res (Z * BitVector) :=
  let windex := if m_last_pos b =? -1 then 0 else Z.shiftr (m_last_pos b) 6 in
  let word_count := Z.shiftr (u32 (m_capacity b + 64 - 1)) 6 in
  r ← find_words (Z.to_nat (word_count - windex)) b windex ;
  match r with
  | Some p => Ok (p, b <| m_last_pos := p |>)
  | None => Ok (-1, b <| m_last_pos := -1 |>)
  end.

#[global] Arguments at_ : simpl never.
#[global] Arguments set : simpl never.
#[global] Arguments clear : simpl never.
#[global] Arguments find : simpl never.

(** ** The set of positions a bit vector holds *)

Definition bit_at (words : list Z) (p : Z) : bool :=
  match zlookup words (p / 64) with
  | Some w => Z.testbit w (p `mod` 64)
  | None => false
  end.

(** The set positions in increasing order, and as a finite set. *)
Definition positions (b : BitVector) : list Z :=
  filter (λ p, bit_at (m_words b) p = true) (seqZ 0 (m_capacity b)).
Definition bits (b : BitVector) : gset Z := list_to_set (positions b).

(** The class invariant.  The capacity is bounded by [SInt32], the type of the
    positions [find] returns. *)
Record wf (b : BitVector) : Prop := {
  wf_capacity : 0 ≤ m_capacity b < 2 ^ 31;
  wf_words : zlength (m_words b) = (m_capacity b + 63) / 64;
  wf_vector_size : VECTOR_SIZE b = zlength (m_words b);
  wf_range : Forall (λ w, 0 ≤ w < 2 ^ 64) (m_words b);
  wf_beyond : ∀ p, m_capacity b ≤ p → bit_at (m_words b) p = false;
  wf_size : m_size b = zlength (positions b);
  wf_last_pos : -1 ≤ m_last_pos b < m_capacity b
}.

(** ** Loops that return from the function *)

Lemma for_return_ext {A} l (f g : Z → option A) :
  (∀ x, x ∈ l → f x = g x) → for_return l f = for_return l g.
Proof.
  induction l as [|x l IH]; intros H; cbn; [done|].
  rewrite H by set_solver. rewrite IH by set_solver. done.
Qed.

Lemma for_return_app {A} l1 l2 (f : Z → option A) :
  for_return (l1 ++ l2) f =
  match for_return l1 f with Some r => Some r | None => for_return l2 f end.
Proof. induction l1 as [|x l IH]; cbn; [done|]. by destruct (f x). Qed.

Lemma for_return_None {A} l (f : Z → option A) :
  (∀ x, x ∈ l → f x = None) → for_return l f = None.
Proof.
  induction l as [|x l IH]; intros H; cbn; [done|].
  rewrite H by set_solver. apply IH. set_solver.
Qed.

Lemma for_return_filter l (P : Z → bool) :
  for_return l (λ p, if P p then Some p else None) = head (filter (λ p, P p = true) l).
Proof.
  induction l as [|x l IH]; [done|]. rewrite filter_cons. cbn [for_return].
  destruct (P x) eqn:E; case_decide; try congruence; done.
Qed.

(** One of [find]'s halving loops, over the two halves of [2 * w] bits. *)
Lemma for_return_halves {A} (w off : Z) (g F : Z → option A) :
  0 ≤ w →
  F 0 = for_return (seqZ off w) g →
  F 1 = for_return (seqZ (off + w) w) g →
  for_return [0; 1] F = for_return (seqZ off (w + w)) g.
Proof.
  intros Hw H0 H1. cbn. rewrite H0, H1, seqZ_app, for_return_app by done.
  repeat case_match; congruence.
Qed.

Lemma guard_zero {A} (x : Z) (r : option A) :
  (x = 0 → r = None) → (if negb (x =? 0) then r else None) = r.
Proof. intros H. destruct (Z.eqb_spec x 0) as [E|E]; cbn; [by rewrite H|done]. Qed.

(** ** [find] and its reference *)

(** What [find] looks for: a set bit after the last one found. *)
Definition find_ref (words : list Z) (last_pos p : Z) : option Z :=
  if bit_at words p && (p >? last_pos) then Some p else None.

Section find_in_word.
Context (last_pos windex word64 : Z).
Let g (p : Z) : option Z :=
  if Z.testbit word64 p && (64 * windex + p >? last_pos)
  then Some (64 * windex + p) else None.

(** The bits from [off] on are those of [x], which the code keeps in a word
    of [w] bits. *)
Let slice (w off x : Z) : Prop :=
  ∀ n, 0 ≤ n < w → Z.testbit x n = Z.testbit word64 (off + n).

Lemma slice_zero w off x : slice w off x → x = 0 → for_return (seqZ off w) g = None.
Proof.
  intros Hs ->. apply for_return_None. intros p [Hp1 Hp2]%elem_of_seqZ.
  unfold g. replace p with (off + (p - off)) at 1 by lia.
  rewrite <- Hs by lia. by rewrite Z.bits_0.
Qed.

Lemma slice_low w off x : 0 ≤ w → slice (w + w) off x → slice w off (Z.land x (Z.ones w)).
Proof. intros Hw Hs n Hn. rewrite testbit_land_ones by done. apply Hs. lia. Qed.

Lemma slice_high w off x :
  0 ≤ w → slice (w + w) off x → slice w (off + w) (uint w (Z.shiftr x w)).
Proof.
  intros Hw Hs n Hn. rewrite testbit_uint, Z.shiftr_spec by lia.
  rewrite Hs by lia. f_equal. lia.
Qed.

(** One halving level, its guard included. *)
Lemma level w off x (F : Z → Z → option Z) :
  0 ≤ w → slice (w + w) off x →
  (∀ i y, i = 0 ∨ i = 1 → slice w (off + w * i) y →
     F i y = for_return (seqZ (off + w * i) w) g) →
  (if negb (x =? 0) then
     for_return [0; 1] (λ i,
       F i (if i =? 1 then uint w (Z.shiftr x w) else Z.land x (Z.ones w)))
   else None) = for_return (seqZ off (w + w)) g.
Proof.
  intros Hw Hs HF. rewrite (for_return_halves w off g); [|done|..].
  - apply guard_zero. intros. by eapply slice_zero.
  - pose proof (HF 0) as HF0. rewrite Z.mul_0_r, Z.add_0_r in HF0.
    apply HF0; [by left|]. by apply slice_low.
  - pose proof (HF 1) as HF1. rewrite Z.mul_1_r in HF1.
    apply HF1; [by right|]. by apply slice_high.
Qed.

Lemma bTestBit_spec x n : 0 ≤ n < 8 → bTestBit x n = Z.testbit x n.
Proof.
  intros Hn. unfold bTestBit. rewrite Z.shiftl_1_l, u8_small.
  - rewrite land_pow2_eqb0, negb_involutive by lia. done.
  - split; [lia|]. change 256 with (2 ^ 8). apply Z.pow_lt_mono_r; lia.
Qed.

(** The innermost level: the loop over the bits of a byte. *)
Lemma level_byte off x :
  slice 8 off x → find_in_byte last_pos (64 * windex + off) x = for_return (seqZ off 8) g.
Proof.
  unfold find_in_byte.
  intros Hs. change [0; 1; 2; 3; 4; 5; 6; 7] with (seqZ 0 8).
  rewrite guard_zero.
  - assert (∀ n, n ∈ seqZ 0 8 → 0 ≤ n < 8) as Hr by (intros n; rewrite elem_of_seqZ; lia).
    replace (seqZ off 8) with (Z.add off <$> seqZ 0 8)
      by (rewrite fmap_add_seqZ, Z.add_0_r; done).
    induction (seqZ 0 8) as [|n l IH]; [done|]. cbn [for_return fmap list_fmap].
    rewrite IH by set_solver.
    rewrite bTestBit_spec, Hs by (apply Hr; set_solver).
    unfold g. rewrite Z.add_assoc. by destruct (Z.testbit _ _).
  - intros ->. apply for_return_None. intros n [Hn _]%elem_of_seqZ.
    unfold bTestBit. by rewrite Z.land_0_l.
Qed.

Lemma level_word16 off x :
  slice 16 off x → find_in_word16 last_pos (64 * windex + off) x = for_return (seqZ off 16) g.
Proof.
  intros Hs. apply (level 8 off x (λ k, find_in_byte last_pos (64 * windex + off + 8 * k)));
    [done..|]. intros k y _ ?. rewrite <- Z.add_assoc. by apply level_byte.
Qed.

Lemma level_word32 off x :
  slice 32 off x → find_in_word32 last_pos (64 * windex + off) x = for_return (seqZ off 32) g.
Proof.
  intros Hs. apply (level 16 off x (λ j, find_in_word16 last_pos (64 * windex + off + 16 * j)));
    [done..|]. intros j y _ ?. rewrite <- Z.add_assoc. by apply level_word16.
Qed.

Lemma find_in_word_ref :
  find_in_word last_pos windex word64 = for_return (seqZ 0 64) g.
Proof.
  apply (level 32 0 word64 (λ i, find_in_word32 last_pos (64 * windex + 32 * i))); [done..|].
  intros i y _ ?. by apply level_word32.
Qed.
End find_in_word.

Lemma bit_at_word words windex w n :
  zlookup words windex = Some w → 0 ≤ n < 64 →
  bit_at words (64 * windex + n) = Z.testbit w n.
Proof.
  intros Hw Hn. unfold bit_at.
  replace ((64 * windex + n) / 64) with windex by (apply Z.div_unique with n; lia).
  replace ((64 * windex + n) `mod` 64) with n by (apply Z.mod_unique with windex; lia).
  by rewrite Hw.
Qed.

Lemma find_words_ref n b windex :
  0 ≤ windex → windex + Z.of_nat n = zlength (m_words b) →
  find_words n b windex =
  Ok (for_return (seqZ (64 * windex) (64 * Z.of_nat n)) (find_ref (m_words b) (m_last_pos b))).
Proof.
  revert windex. induction n as [|n IH]; intros windex Hi Hn; [done|].
  cbn [find_words]. destruct (zlookup_is_Some (m_words b) windex) as [w Hw]; [lia|].
  unfold vget. rewrite Hw. cbn.
  rewrite find_in_word_ref, IH by lia.
  replace (64 * Z.of_nat (S n)) with (64 + 64 * Z.of_nat n) by lia.
  rewrite seqZ_app, for_return_app by lia.
  replace (for_return (seqZ (64 * windex) 64) (find_ref (m_words b) (m_last_pos b))) with
    (for_return (seqZ 0 64) (λ p, if Z.testbit w p && (64 * windex + p >? m_last_pos b)
                                  then Some (64 * windex + p) else None)).
  - replace (64 * windex + 64) with (64 * (windex + 1)) by lia. by case_match.
  - replace (64 * windex) with (64 * windex + 0) at 1 by lia.
    rewrite <- (fmap_add_seqZ (64 * windex) 0 64).
    assert (∀ p, p ∈ seqZ 0 64 → 0 ≤ p < 64) as Hr by (intros p; rewrite elem_of_seqZ; lia).
    induction (seqZ 0 64) as [|p l IHl]; [done|]. cbn [for_return fmap list_fmap].
    rewrite IHl by set_solver. unfold find_ref.
    by rewrite (bit_at_word _ windex w) by (done || apply Hr; set_solver).
Qed.

(** The position [find] returns: the first one after the last found. *)
Definition next_pos (b : BitVector) : option Z :=
  head (filter (λ p, m_last_pos b < p) (positions b)).

Lemma word_count_eq b :
  wf b → Z.shiftr (u32 (m_capacity b + 64 - 1)) 6 = zlength (m_words b).
Proof.
  intros []. rewrite u32_small by lia. rewrite Z.shiftr_div_pow2 by lia.
  rewrite wf_words0. f_equal. lia.
Qed.

Lemma next_pos_ref b n :
  m_capacity b ≤ n → (∀ p, m_capacity b ≤ p → bit_at (m_words b) p = false) → 0 ≤ m_capacity b →
  for_return (seqZ 0 n) (find_ref (m_words b) (m_last_pos b)) = next_pos b.
Proof.
  intros Hn Hb Hc. unfold find_ref. rewrite for_return_filter.
  replace n with (m_capacity b + (n - m_capacity b)) by lia.
  rewrite seqZ_app, filter_app by lia.
  rewrite (filter_nil_iff _ (seqZ (0 + _) _)), app_nil_r.
  - unfold next_pos, positions. f_equal.
    rewrite list_filter_filter. apply list_filter_iff. intros p.
    rewrite andb_true_iff, Z.gtb_ltb, Z.ltb_lt. tauto.
  - intros p Hp%elem_of_seqZ. rewrite Hb by lia. done.
Qed.

Lemma find_spec b :
  wf b →
  find b = Ok (default (-1) (next_pos b), b <| m_last_pos := default (-1) (next_pos b) |>).
Proof.
  intros Hwf. unfold find. rewrite (word_count_eq b Hwf).
  pose proof (wf_capacity b Hwf). pose proof (wf_words b Hwf). pose proof (wf_last_pos b Hwf).
  set (wi := if m_last_pos b =? -1 then 0 else Z.shiftr (m_last_pos b) 6).
  assert (0 ≤ wi ∧ wi ≤ zlength (m_words b) ∧ 64 * wi ≤ m_last_pos b + 1) as (Hw0 & Hw1 & Hw2).
  { subst wi. destruct (m_last_pos b =? -1) eqn:E; breflect; [unfold zlength; lia|].
    rewrite Z.shiftr_div_pow2 by lia. change (2 ^ 6) with 64.
    assert (0 ≤ m_last_pos b) by lia. repeat split; Z.to_euclidean_division_equations; lia. }
  rewrite find_words_ref by lia.
  replace (for_return _ _) with (next_pos b); [by destruct (next_pos b)|].
  rewrite <- (next_pos_ref b (64 * zlength (m_words b))).
  - rewrite Z2Nat.id by lia.
    replace (64 * zlength (m_words b)) with (64 * wi + 64 * (zlength (m_words b) - wi)) by lia.
    rewrite seqZ_app, for_return_app by lia.
    rewrite (for_return_None (seqZ 0 _)); [done|].
    intros p Hp%elem_of_seqZ. unfold find_ref.
    replace (p >? m_last_pos b) with false by (symmetry; rewrite Z.gtb_ltb; apply Z.ltb_ge; lia).
    by rewrite andb_false_r.
  - rewrite wf_words by done. Z.to_euclidean_division_equations. lia.
  - apply Hwf.
  - lia.
Qed.

(** ** [at], [set] and [clear] *)

Lemma elem_of_positions b p : p ∈ positions b ↔ 0 ≤ p < m_capacity b ∧ bit_at (m_words b) p = true.
Proof. unfold positions. rewrite list_elem_of_filter, elem_of_seqZ. intuition lia. Qed.

Lemma elem_of_bits b p : p ∈ bits b ↔ 0 ≤ p < m_capacity b ∧ bit_at (m_words b) p = true.
Proof. unfold bits. by rewrite elem_of_list_to_set, elem_of_positions. Qed.

Lemma NoDup_positions b : NoDup (positions b).
Proof. apply NoDup_filter, NoDup_seqZ. Qed.

Lemma wf_size_bits b : wf b → m_size b = Z.of_nat (base.size (bits b)).
Proof. intros H. rewrite (wf_size b H). apply NoDup_zlength_size, NoDup_positions. Qed.

Lemma size_bits_le b : 0 ≤ m_capacity b → Z.of_nat (base.size (bits b)) ≤ m_capacity b.
Proof.
  intros H. unfold bits. rewrite size_list_to_set by apply NoDup_positions.
  unfold positions. pose proof (length_filter (λ p, bit_at (m_words b) p = true) (seqZ 0 (m_capacity b))).
  rewrite length_seqZ in *. lia.
Qed.

(** The word and the mask the three operations compute for a position. *)
Lemma word_of b bit :
  wf b → 0 ≤ bit < m_capacity b →
  ∃ w, zlookup (m_words b) (Z.shiftr bit 6) = Some w ∧ 0 ≤ w < 2 ^ 64 ∧
       bit_at (m_words b) bit = Z.testbit w (Z.land bit 63).
Proof.
  intros Hwf Hb. pose proof (wf_words b Hwf).
  rewrite Z.shiftr_div_pow2 by lia. change 63 with (Z.ones 6). rewrite Z.land_ones by lia.
  change (2 ^ 6) with 64.
  destruct (zlookup_is_Some (m_words b) (bit / 64)) as [w Hw].
  { Z.to_euclidean_division_equations. lia. }
  exists w. split; [done|]. split; [|unfold bit_at; by rewrite Hw].
  apply zlookup_Some in Hw as [_ Hw]. by apply (Forall_lookup_1 _ _ _ _ (wf_range b Hwf) Hw).
Qed.

Lemma mask_eq bit : u64 (Z.shiftl 1 (Z.land bit 63)) = 2 ^ Z.land bit 63.
Proof.
  rewrite Z.shiftl_1_l. apply u64_small.
  change 63 with (Z.ones 6). rewrite Z.land_ones by lia.
  pose proof (Z.mod_pos_bound bit (2 ^ 6)). split; [lia|].
  change 18446744073709551616 with (2 ^ 64). apply Z.pow_lt_mono_r; lia.
Qed.

Lemma at_spec b bit :
  wf b → 0 ≤ bit < m_capacity b → at_ b bit = Ok (bool_decide (bit ∈ bits b)).
Proof.
  intros Hwf Hb. unfold at_. rewrite (proj2 (Z.ltb_lt _ _)) by lia. cbn.
  destruct (word_of b bit) as (w & Hw & _ & Hbit); [done..|].
  unfold vget. rewrite Hw. cbn. f_equal.
  rewrite mask_eq, land_pow2_eqb0, negb_involutive, <- Hbit
    by (change 63 with (Z.ones 6); rewrite Z.land_ones by lia; apply Z.mod_pos_bound; lia).
  destruct (bit_at _ _) eqn:E; symmetry; [apply bool_decide_eq_true|apply bool_decide_eq_false];
    rewrite elem_of_bits, E; naive_solver.
Qed.

(** The three operations check the position against the capacity. *)
Lemma out_of_range b bit :
  m_capacity b ≤ bit →
  at_ b bit = Fail (EAssert "BitVector::at") ∧
  set b bit = Fail (EAssert "BitVector::set") ∧
  clear b bit = Fail (EAssert "BitVector::clear").
Proof. intros H. unfold at_, set, clear. by rewrite (proj2 (Z.ltb_ge _ _)). Qed.

(** Writing one word: the effect of [set] and [clear] on the positions. *)
Lemma bit_at_write words bit w w' v p :
  0 ≤ bit → zlookup words (Z.shiftr bit 6) = Some w →
  (∀ n, 0 ≤ n < 64 → Z.testbit w' n = if n =? Z.land bit 63 then v else Z.testbit w n) →
  bit_at (zinsert (Z.shiftr bit 6) w' words) p = if p =? bit then v else bit_at words p.
Proof.
  intros Hb Hw Hw'. apply zlookup_Some in Hw as Hr. destruct Hr as [Hr _].
  revert Hw Hw' Hr. rewrite Z.shiftr_div_pow2 by lia.
  change 63 with (Z.ones 6). rewrite Z.land_ones by lia. change (2 ^ 6) with 64.
  intros Hw Hw' Hr. unfold bit_at. destruct (decide (p / 64 = bit / 64)) as [E|E].
  - rewrite E, zlookup_zinsert_eq, Hw by done.
    rewrite Hw' by (apply Z.mod_pos_bound; lia).
    destruct (Z.eqb_spec p bit) as [->|Hne]; [by rewrite Z.eqb_refl|].
    rewrite (proj2 (Z.eqb_neq _ _)); [done|].
    intros Hm. apply Hne. rewrite (Z.div_mod p 64), (Z.div_mod bit 64) by lia. congruence.
  - rewrite zlookup_zinsert_ne by congruence.
    rewrite (proj2 (Z.eqb_neq _ _)) by congruence. done.
Qed.

(** The state after one word has been written and the count adjusted. *)
Lemma write_wf b bit w w' (v : bool) :
  let b' := b <| m_words := zinsert (Z.shiftr bit 6) w' (m_words b) |>
              <| m_size := Z.of_nat (base.size (if v then {[bit]} ∪ bits b else bits b ∖ {[bit]} : gset Z)) |> in
  wf b → 0 ≤ bit < m_capacity b → zlookup (m_words b) (Z.shiftr bit 6) = Some w →
  0 ≤ w' < 2 ^ 64 →
  (∀ n, 0 ≤ n < 64 → Z.testbit w' n = if n =? Z.land bit 63 then v else Z.testbit w n) →
  wf b' ∧ bits b' = if v then {[bit]} ∪ bits b else bits b ∖ {[bit]}.
Proof.
  intros b' Hwf Hb Hw Hr Hw'.
  assert (∀ p, bit_at (m_words b') p = if p =? bit then v else bit_at (m_words b) p) as Hat.
  { intros p. eapply bit_at_write; [lia|done..]. }
  assert (bits b' = if v then {[bit]} ∪ bits b else bits b ∖ {[bit]}) as Hbits.
  { apply set_eq. intros p. rewrite elem_of_bits, Hat.
    destruct (Z.eqb_spec p bit) as [->|Hne]; destruct v;
      rewrite ?elem_of_union, ?elem_of_difference, ?elem_of_singleton, ?elem_of_bits; naive_solver. }
  split; [|done]. destruct Hwf. constructor; cbn; rewrite ?zlength_zinsert; try done.
  - unfold zinsert. destruct (0 <=? _); [|done]. by apply Forall_insert.
  - intros p Hp. specialize (Hat p). cbn in Hat. rewrite Hat, wf_beyond0 by done.
    by rewrite (proj2 (Z.eqb_neq _ _)) by lia.
  - rewrite (NoDup_zlength_size _ (NoDup_positions b')). fold (bits b'). by rewrite Hbits.
Qed.

Lemma set_spec b bit :
  wf b → 0 ≤ bit < m_capacity b →
  ∃ b', set b bit = Ok b' ∧ wf b' ∧ bits b' = {[bit]} ∪ bits b ∧
        m_capacity b' = m_capacity b.
Proof.
  intros Hwf Hb. unfold set. rewrite (proj2 (Z.ltb_lt _ _)) by lia. cbn.
  rewrite at_spec by done. cbn. case_bool_decide as Hin; cbn.
  { exists b. split_and!; [done..| |done]. set_solver. }
  destruct (word_of b bit) as (w & Hw & Hr & Hbit); [done..|].
  apply zlookup_Some in Hw as Hi. destruct Hi as [Hi _].
  unfold vget. rewrite Hw. cbn. unfold vset.
  rewrite (proj2 (Z.leb_le _ _)), (proj2 (Z.ltb_lt _ _)) by lia. cbn. rewrite mask_eq.
  replace (u32 (m_size b + 1)) with (Z.of_nat (base.size ({[bit]} ∪ bits b : gset Z))).
  - assert (0 ≤ Z.land bit 63) by (apply Z.land_nonneg; lia).
    eexists. split; [done|]. apply and_assoc. split; [|done].
    apply (write_wf b bit w _ true); [done..| |].
    + apply bounded_of_testbit; [lia| |].
      * apply Z.lor_nonneg. lia.
      * intros n Hn. rewrite Z.lor_spec, (testbit_bounded 64 w) by lia.
        rewrite Z.pow2_bits_eqb by done. apply Z.eqb_neq.
        change 63 with (Z.ones 6). rewrite Z.land_ones by lia.
        pose proof (Z.mod_pos_bound bit (2 ^ 6)). lia.
    + intros n Hn. rewrite Z.lor_spec, Z.pow2_bits_eqb, Z.eqb_sym by done.
      destruct (_ =? _); [apply orb_true_r|apply orb_false_r].
  - rewrite (wf_size_bits b Hwf), size_union by set_solver. rewrite size_singleton.
    pose proof (size_bits_le b). pose proof (wf_capacity b Hwf).
    rewrite u32_small; lia.
Qed.

Lemma clear_spec b bit :
  wf b → 0 ≤ bit < m_capacity b →
  ∃ b', clear b bit = Ok b' ∧ wf b' ∧ bits b' = bits b ∖ {[bit]} ∧
        m_capacity b' = m_capacity b.
Proof.
  intros Hwf Hb. unfold clear. rewrite (proj2 (Z.ltb_lt _ _)) by lia. cbn.
  rewrite at_spec by done. cbn. case_bool_decide as Hin; cbn.
  2: { exists b. split_and!; [done..| |done]. set_solver. }
  destruct (word_of b bit) as (w & Hw & Hr & Hbit); [done..|].
  apply zlookup_Some in Hw as Hi. destruct Hi as [Hi _].
  unfold vget. rewrite Hw. cbn. unfold vset.
  rewrite (proj2 (Z.leb_le _ _)), (proj2 (Z.ltb_lt _ _)) by lia. cbn. rewrite mask_eq.
  replace (u32 (m_size b - 1)) with (Z.of_nat (base.size (bits b ∖ {[bit]} : gset Z))).
  - assert (0 ≤ Z.land bit 63) by (apply Z.land_nonneg; lia).
    eexists. split; [done|]. apply and_assoc. split; [|done].
    apply (write_wf b bit w _ false); [done..| |].
    + apply bounded_of_testbit; [lia| |].
      * apply Z.land_nonneg. lia.
      * intros n Hn. rewrite Z.land_spec, (testbit_bounded 64 w) by lia. done.
    + intros n Hn. rewrite Z.land_spec. unfold u64. rewrite testbit_uint, Z.lnot_spec by lia.
      rewrite Z.pow2_bits_eqb, Z.eqb_sym by done.
      destruct (_ =? _); [apply andb_false_r|apply andb_true_r].
  - rewrite (wf_size_bits b Hwf), size_difference by set_solver. rewrite size_singleton.
    pose proof (size_bits_le b). pose proof (wf_capacity b Hwf).
    assert (base.size (bits b) ≠ 0%nat) by (apply size_non_empty_iff; set_solver).
    rewrite u32_small; lia.
Qed.

(** ** Construction, reset and iteration *)

Lemma bit_at_zeros n p : bit_at (replicate n 0) p = false.
Proof.
  unfold bit_at. destruct (zlookup _ _) as [w|] eqn:E; [|done].
  apply zlookup_Some in E as [_ E]. apply lookup_replicate in E as [-> _]. apply Z.bits_0.
Qed.

(** A vector whose words are all zero. *)
Lemma zeros_wf c vs :
  0 ≤ c < 2 ^ 31 → vs = (c + 63) / 64 →
  let b := mkBitVector c 0 (-1) vs (replicate (Z.to_nat vs) 0) in wf b ∧ bits b = ∅.
Proof.
  intros Hc Hn b. assert (0 ≤ vs) by (subst vs; apply Z.div_pos; lia).
  assert (positions b = []) as Hp.
  { apply filter_nil_iff. intros p _. cbn. by rewrite bit_at_zeros. }
  split; [|unfold bits; by rewrite Hp].
  constructor; cbn; unfold zlength; rewrite ?length_replicate, ?Z2Nat.id; try (done || lia).
  - apply Forall_replicate. lia.
  - intros p _. apply bit_at_zeros.
  - by rewrite Hp.
Qed.

Lemma make_wf c : 0 ≤ c < 2 ^ 31 → wf (make c) ∧ bits (make c) = ∅.
Proof.
  intros Hc. unfold make. rewrite u32_small, Z.shiftr_div_pow2 by lia.
  apply zeros_wf; [done|]. f_equal. lia.
Qed.

Lemma reset_wf b : wf b → wf (reset b) ∧ bits (reset b) = ∅.
Proof.
  intros []. unfold reset. cbn. rewrite wf_vector_size0.
  replace (length (m_words b)) with (Z.to_nat (zlength (m_words b))) by (unfold zlength; lia).
  by apply zeros_wf.
Qed.

Lemma set_last_pos_wf b q :
  wf b → -1 ≤ q < m_capacity b →
  wf (b <| m_last_pos := q |>) ∧ positions (b <| m_last_pos := q |>) = positions b.
Proof. intros []. split; [|done]. by constructor. Qed.

Lemma next_pos_range b p : next_pos b = Some p → p ∈ positions b ∧ m_last_pos b < p.
Proof.
  unfold next_pos. intros [l Hl]%head_Some.
  assert (p ∈ filter (λ p, m_last_pos b < p) (positions b)) as Hp by (rewrite Hl; set_solver).
  by apply list_elem_of_filter in Hp as [??].
Qed.

Lemma find_wf b p b' : wf b → find b = Ok (p, b') → wf b' ∧ positions b' = positions b.
Proof.
  intros Hwf. rewrite find_spec by done. intros [= <- <-].
  pose proof (wf_capacity b Hwf). apply set_last_pos_wf; [done|].
  destruct (next_pos b) as [p|] eqn:E; cbn; [|lia].
  apply next_pos_range in E as [Hp _]. apply elem_of_positions in Hp. lia.
Qed.

(** [find] moves along [positions]: with the positions of [pre] found, it
    finds the head of the rest, or wraps around at the end. *)
Lemma find_step b pre post :
  wf b → positions b = pre ++ post → m_last_pos b = default (-1) (last pre) →
  find b = Ok (default (-1) (head post), b <| m_last_pos := default (-1) (head post) |>).
Proof.
  intros Hwf Hpos Hlast. rewrite find_spec by done.
  replace (next_pos b) with (head post); [done|]. unfold next_pos. rewrite Hlast, Hpos.
  assert (StronglySorted Z.lt (pre ++ post)) as Hs.
  { rewrite <- Hpos. apply StronglySorted_filter, StronglySorted_seqZ. }
  assert (∀ p, p ∈ pre ++ post → 0 ≤ p) as H0.
  { intros p. rewrite <- Hpos, elem_of_positions. lia. }
  rewrite filter_app, (filter_nil_iff _ pre), app_nil_l.
  - destruct post as [|q post]; [done|]. rewrite filter_cons_True; [done|].
    destruct (last pre) as [l|] eqn:El; cbn.
    + apply (StronglySorted_app_1_elem_of Z.lt pre (q :: post)); [done| |set_solver].
      apply last_Some in El as [? ->]. set_solver.
    + specialize (H0 q). apply Z.lt_le_trans with 0; [lia|]. apply H0. set_solver.
  - intros p Hp. destruct (last pre) as [l|] eqn:El; cbn.
    + apply last_Some in El as [pre' ->]. apply elem_of_app in Hp as [Hp|Hp].
      * apply StronglySorted_app_1_l in Hs.
        pose proof (StronglySorted_app_1_elem_of Z.lt pre' [l] p l Hs Hp). set_solver by lia.
      * apply list_elem_of_singleton in Hp as ->. lia.
    + by apply last_None in El as ->; inversion Hp.
Qed.

End BitVector.
