(* ===== verification/SharerTracking.v ===== *)
(** * SharerTracking: the directory schemes

    The sharer sets of the directory entries of
    common/tile/memory_subsystem/directory_schemes: full map, limited (the base
    class of the other four), limited without broadcast, limited with
    broadcast, ACKwise and LimitLESS.  [SharerTracker] is the interface the
    directory controllers call ([DirectoryEntry]'s virtual functions);
    [SharerTrackerSpec] is its contract: a tracker stands for a finite set of
    tiles.  Full map, limited without broadcast, ACKwise and LimitLESS satisfy
    it; limited with broadcast counts acknowledgements instead and has
    theorems of its own. *)
From S2P Require Import Prelude Utils BitVector.

(** ** The interface: the virtual functions of [DirectoryEntry] *)

Class SharerTracker (T : Type) := {
  hasSharer : T → Z → res bool;
  addSharer : T → Z → res (bool * T);
  removeSharer : T → Z → bool → res T;
  inBroadcastMode : T → bool;
  getSharersList : T → res (bool * list Z * T);
  getOneSharer : T → res (Z * T);
  getNumSharers : T → res Z;
  getLatency : T → Z
}.

(** Draining a bit vector into [sharers_list], the loop
    [while ((new_sharer = find()) != -1)] of the full-map and LimitLESS
    schemes.  Each round finds one more position, so the capacity plus one
    bounds the rounds. *)
Fixpoint drain (fuel : nat) (b : BitVector.BitVector) (i : Z) (sharers_list : list Z)
    : res (list Z * BitVector.BitVector) :=
  match fuel with
  | O => Fail (EFuel "getSharersList")
  | S fuel =>
    r ← BitVector.find b ;
    let '(new_sharer, b') := r : Z * BitVector.BitVector in
    if new_sharer =? -1 then Ok (sharers_list, b') else
    sharers_list' ← vset "getSharersList" sharers_list i new_sharer ;
    check (i + 1 <=? s32 (BitVector.size b')) (EAssert "getSharersList") ;;
    drain fuel b' (i + 1) sharers_list'
  end.

Definition drain_bits (b : BitVector.BitVector) : res (list Z * BitVector.BitVector) :=
  let sharers_list := replicate (Z.to_nat (BitVector.size b)) 0 in
  drain (S (Z.to_nat (BitVector.capacity b))) (BitVector.resetFind b) 0 sharers_list.

#[global] Arguments drain_bits : simpl never.

(** ** Full map: directory_entry_full_map.cc *)
Module FullMap.

Record FullMap := mkFullMap {
  _sharers : BitVector.BitVector;
  _rand_num : Random.Random
}.
#[global] Instance eta_FullMap : Eta FullMap := λ t, mkFullMap (_sharers t) (_rand_num t).

Definition make (max_hw_sharers : Z) : FullMap :=
  mkFullMap (BitVector.make (u32 max_hw_sharers)) Random.make.

Definition hasSharer (t : FullMap) (sharer_id : Z) : res bool :=
  BitVector.at_ (_sharers t) (u32 sharer_id).

Definition addSharer (t : FullMap) (sharer_id : Z) : res (bool * FullMap) :=
  present ← BitVector.at_ (_sharers t) (u32 sharer_id) ;
  check (negb present) (ELog "Could not add sharer") ;;
  sharers ← BitVector.set (_sharers t) (u32 sharer_id) ;
  Ok (true, t <| _sharers := sharers |>).

Definition removeSharer (t : FullMap) (sharer_id : Z) (reply_expected : bool) : res FullMap :=
  check (negb reply_expected) (EAssert "DirectoryEntryFullMap::removeSharer") ;;
  present ← BitVector.at_ (_sharers t) (u32 sharer_id) ;
  check present (EAssert "DirectoryEntryFullMap::removeSharer") ;;
  sharers ← BitVector.clear (_sharers t) (u32 sharer_id) ;
  Ok (t <| _sharers := sharers |>).

Definition getSharersList (t : FullMap) : res (bool * list Z * FullMap) :=
  r ← drain_bits (_sharers t) ;
  let '(sharers_list, sharers) := r : list Z * BitVector.BitVector in
  Ok (false, sharers_list, t <| _sharers := sharers |>).

Definition getOneSharer (t : FullMap) : res (Z * FullMap) :=
  r ← getSharersList t ;
  let '(_, sharers_list, t) := r : bool * list Z * FullMap in
  nr ← Random.next (_rand_num t) (zlength sharers_list) ;
  let '(index, rand_num) := nr : Z * Random.Random in
  sharer ← vget "getOneSharer" sharers_list index ;
  Ok (sharer, t <| _rand_num := rand_num |>).

Definition getNumSharers (t : FullMap) : res Z := Ok (s32 (BitVector.size (_sharers t))).

Definition getLatency (t : FullMap) : Z := 0.

#[global] Instance tracker : SharerTracker FullMap := {|
  SharerTracking.hasSharer := hasSharer;
  SharerTracking.addSharer := addSharer;
  SharerTracking.removeSharer := removeSharer;
  SharerTracking.inBroadcastMode := λ _, false;
  SharerTracking.getSharersList := getSharersList;
  SharerTracking.getOneSharer := getOneSharer;
  SharerTracking.getNumSharers := getNumSharers;
  SharerTracking.getLatency := getLatency
|}.

End FullMap.

(** ** Limited: directory_entry_limited.cc, the base of the other schemes *)
Module Limited.

Record Limited := mkLimited {
  _max_hw_sharers : Z;
  _sharers : list Z;
  _num_tracked_sharers : Z;
  _rand_num : Random.Random
}.
#[global] Instance eta_Limited : Eta Limited := λ t,
  mkLimited (_max_hw_sharers t) (_sharers t) (_num_tracked_sharers t) (_rand_num t).

(** [static const SInt16 INVALID_SHARER = 0xffff]. *)
Definition INVALID_SHARER : Z := s16 0xffff.

Definition make (max_hw_sharers : Z) : Limited :=
  mkLimited max_hw_sharers (replicate (Z.to_nat max_hw_sharers) INVALID_SHARER) 0 Random.make.

(** The loops over [i < _max_hw_sharers]; [_sharers] has that many slots. *)
Definition hasSharer (t : Limited) (sharer_id : Z) : bool :=
  bool_decide (sharer_id ∈ _sharers t).

Definition addSharer (t : Limited) (sharer_id : Z) : res (bool * Limited) :=
  check (bool_decide (s16 sharer_id ∉ _sharers t)) (ELog "Sharer already present") ;;
  match list_find (λ s, s = INVALID_SHARER) (_sharers t) with
  | Some (i, _) =>
    Ok (true, t <| _sharers := <[i := s16 sharer_id]> (_sharers t) |>
                <| _num_tracked_sharers := s32 (_num_tracked_sharers t + 1) |>)
  | None => Ok (false, t)
  end.

Definition removeSharer (t : Limited) (sharer_id : Z) : res Limited :=
  match list_find (λ s, s = s16 sharer_id) (_sharers t) with
  | Some (i, _) =>
    Ok (t <| _sharers := <[i := INVALID_SHARER]> (_sharers t) |>
          <| _num_tracked_sharers := s32 (_num_tracked_sharers t - 1) |>)
  | None => Fail (ELog "Could not find sharer_id")
  end.

Definition tracked (t : Limited) : list Z := filter (λ s, s ≠ INVALID_SHARER) (_sharers t).

Definition getSharersList (t : Limited) : res (bool * list Z) :=
  let sharers_list := tracked t in
  check (_num_tracked_sharers t =? s32 (zlength sharers_list)) (ELog "Num Tracked Sharers") ;;
  Ok (true, sharers_list).

(** [getOneSharer] calls the virtual [getSharersList]: its list is an
    argument. *)
Definition pickSharer (t : Limited) (sharers_list : list Z) : res (Z * Limited) :=
  match sharers_list with
  | [] => Ok (INVALID_TILE_ID, t)
  | _ =>
    nr ← Random.next (_rand_num t) (zlength sharers_list) ;
    let '(index, rand_num) := nr : Z * Random.Random in
    sharer ← vget "getOneSharer" sharers_list index ;
    Ok (sharer, t <| _rand_num := rand_num |>)
  end.

Definition getOneSharer (t : Limited) : res (Z * Limited) :=
  r ← getSharersList t ; pickSharer t (r.2).

Definition getNumSharers (t : Limited) : Z := _num_tracked_sharers t.

End Limited.

(** ** Limited without broadcast: directory_entry_limited_no_broadcast.cc *)
Module LimitedNoBroadcast.
Import Limited.

Record LimitedNoBroadcast := mkLimitedNoBroadcast { base : Limited }.
#[global] Instance eta_LimitedNoBroadcast : Eta LimitedNoBroadcast := λ t,
  mkLimitedNoBroadcast (base t).

Definition make (max_hw_sharers : Z) : LimitedNoBroadcast :=
  mkLimitedNoBroadcast (Limited.make max_hw_sharers).

Definition removeSharer (t : LimitedNoBroadcast) (sharer_id : Z) (reply_expected : bool)
    : res LimitedNoBroadcast :=
  check (negb reply_expected) (ELog "reply_expected(true)") ;;
  b ← Limited.removeSharer (base t) sharer_id ;
  Ok (t <| base := b |>).

Definition getLatency (t : LimitedNoBroadcast) : Z := 0.

(** The functions it inherits from [Limited]. *)
#[global] Instance tracker : SharerTracker LimitedNoBroadcast := {|
  SharerTracking.hasSharer := λ t x, Ok (Limited.hasSharer (base t) x);
  SharerTracking.addSharer := λ t x,
    r ← Limited.addSharer (base t) x ; Ok (r.1, t <| base := r.2 |>);
  SharerTracking.removeSharer := removeSharer;
  SharerTracking.inBroadcastMode := λ _, false;
  SharerTracking.getSharersList := λ t, r ← Limited.getSharersList (base t) ; Ok (r, t);
  SharerTracking.getOneSharer := λ t,
    r ← Limited.getOneSharer (base t) ; Ok (r.1, t <| base := r.2 |>);
  SharerTracking.getNumSharers := λ t, Ok (Limited.getNumSharers (base t));
  SharerTracking.getLatency := getLatency
|}.

End LimitedNoBroadcast.

(** ** Limited with broadcast: directory_entry_limited_broadcast.cc *)
Module LimitedBroadcast.
Import Limited.

(** [_total_tiles] is [Config::getSingleton()->getTotalTiles()]. *)
Record LimitedBroadcast := mkLimitedBroadcast {
  base : Limited;
  _global_enabled : bool;
  _num_sharers : Z;
  _total_tiles : Z
}.
#[global] Instance eta_LimitedBroadcast : Eta LimitedBroadcast := λ t,
  mkLimitedBroadcast (base t) (_global_enabled t) (_num_sharers t) (_total_tiles t).

Definition make (max_hw_sharers total_tiles : Z) : LimitedBroadcast :=
  mkLimitedBroadcast (Limited.make max_hw_sharers) false 0 total_tiles.

Definition addSharer (t : LimitedBroadcast) (sharer_id : Z) : res (bool * LimitedBroadcast) :=
  if negb (_global_enabled t) then
    r ← Limited.addSharer (base t) sharer_id ;
    let '(added, b) := r : bool * Limited in
    let t := t <| base := b |> in
    if negb added then
      check ((_num_sharers t =? 0) && negb (_global_enabled t) &&
             (_num_tracked_sharers (base t) =? _max_hw_sharers (base t)))
            (ELog "DirectoryEntryLimitedBroadcast::addSharer") ;;
      Ok (true, t <| _global_enabled := true |> <| _num_sharers := u32 (_total_tiles t) |>)
    else Ok (true, t)
  else Ok (true, t).

Definition removeSharer (t : LimitedBroadcast) (sharer_id : Z) (reply_expected : bool)
    : res LimitedBroadcast :=
  b ← (if _global_enabled t then
         if Limited.hasSharer (base t) sharer_id
         then Limited.removeSharer (base t) sharer_id else Ok (base t)
       else Limited.removeSharer (base t) sharer_id) ;
  let t := t <| base := b |> in
  if reply_expected then
    check (_global_enabled t) (ELog "Global Enabled(false)") ;;
    let t := t <| _num_sharers := u32 (_num_sharers t - 1) |> in
    if _num_sharers t =? 0 then
      check (_num_tracked_sharers (base t) =? 0) (ELog "Num Tracked Sharers") ;;
      Ok (t <| _global_enabled := false |>)
    else Ok t
  else Ok t.

Definition getNumSharers (t : LimitedBroadcast) : Z :=
  s32 (if _global_enabled t then _num_sharers t else u32 (_num_tracked_sharers (base t))).

Definition inBroadcastMode (t : LimitedBroadcast) : bool := _global_enabled t.

Definition getSharersList (t : LimitedBroadcast) : res (bool * list Z * LimitedBroadcast) :=
  r ← Limited.getSharersList (base t) ;
  Ok (_global_enabled t, r.2, t).

Definition getLatency (t : LimitedBroadcast) : Z := 0.

#[global] Instance tracker : SharerTracker LimitedBroadcast := {|
  SharerTracking.hasSharer := λ t x, Ok (Limited.hasSharer (base t) x);
  SharerTracking.addSharer := addSharer;
  SharerTracking.removeSharer := removeSharer;
  SharerTracking.inBroadcastMode := inBroadcastMode;
  SharerTracking.getSharersList := getSharersList;
  SharerTracking.getOneSharer := λ t,
    l ← getSharersList t ;
    r ← Limited.pickSharer (base t) (l.1.2) ; Ok (r.1, t <| base := r.2 |>);
  SharerTracking.getNumSharers := λ t, Ok (getNumSharers t);
  SharerTracking.getLatency := getLatency
|}.

End LimitedBroadcast.

(** ** ACKwise: directory_entry_ackwise.cc *)
Module Ackwise.
Import Limited.

Record Ackwise := mkAckwise {
  base : Limited;
  _global_enabled : bool;
  _num_untracked_sharers : Z
}.
#[global] Instance eta_Ackwise : Eta Ackwise := λ t,
  mkAckwise (base t) (_global_enabled t) (_num_untracked_sharers t).

Definition make (max_hw_sharers : Z) : Ackwise :=
  mkAckwise (Limited.make max_hw_sharers) false 0.

Definition addSharer (t : Ackwise) (sharer_id : Z) : res (bool * Ackwise) :=
  if _global_enabled t then
    Ok (true, t <| _num_untracked_sharers := s32 (_num_untracked_sharers t + 1) |>)
  else
    r ← Limited.addSharer (base t) sharer_id ;
    let '(added, b) := r : bool * Limited in
    let t := t <| base := b |> in
    if negb added then
      check ((_num_untracked_sharers t =? 0) && negb (_global_enabled t) &&
             (_num_tracked_sharers (base t) =? _max_hw_sharers (base t)))
            (ELog "DirectoryEntryAckwise::addSharer") ;;
      Ok (true, t <| _global_enabled := true |> <| _num_untracked_sharers := 1 |>)
    else Ok (true, t).

Definition removeSharer (t : Ackwise) (sharer_id : Z) (reply_expected : bool) : res Ackwise :=
  check (negb reply_expected) (ELog "reply_expected(true)") ;;
  if _global_enabled t then
    check (_num_untracked_sharers t >? 0) (ELog "Num Untracked Sharers") ;;
    if Limited.hasSharer (base t) sharer_id then
      b ← Limited.removeSharer (base t) sharer_id ;
      Ok (t <| base := b |>)
    else
      let t := t <| _num_untracked_sharers := s32 (_num_untracked_sharers t - 1) |> in
      if _num_untracked_sharers t =? 0 then Ok (t <| _global_enabled := false |>) else Ok t
  else
    b ← Limited.removeSharer (base t) sharer_id ;
    Ok (t <| base := b |>).

Definition inBroadcastMode (t : Ackwise) : bool := _global_enabled t.

Definition getSharersList (t : Ackwise) : res (bool * list Z * Ackwise) :=
  r ← Limited.getSharersList (base t) ;
  Ok (_global_enabled t, r.2, t).

Definition getNumSharers (t : Ackwise) : Z :=
  s32 (_num_tracked_sharers (base t) + _num_untracked_sharers t).

Definition getLatency (t : Ackwise) : Z := 0.

#[global] Instance tracker : SharerTracker Ackwise := {|
  SharerTracking.hasSharer := λ t x, Ok (Limited.hasSharer (base t) x);
  SharerTracking.addSharer := addSharer;
  SharerTracking.removeSharer := removeSharer;
  SharerTracking.inBroadcastMode := inBroadcastMode;
  SharerTracking.getSharersList := getSharersList;
  SharerTracking.getOneSharer := λ t,
    l ← getSharersList t ;
    r ← Limited.pickSharer (base t) (l.1.2) ; Ok (r.1, t <| base := r.2 |>);
  SharerTracking.getNumSharers := λ t, Ok (getNumSharers t);
  SharerTracking.getLatency := getLatency
|}.

End Ackwise.

(** ** LimitLESS: directory_entry_limitless.cc *)
Module Limitless.
Import Limited.

(** [_software_trap_penalty] is the static member read from
    [dram_directory/limitless/software_trap_penalty]. *)
Record Limitless := mkLimitless {
  base : Limited;
  _software_sharers : option BitVector.BitVector;
  _max_num_sharers : Z;
  _software_trap_enabled : bool;
  _software_trap_penalty : Z
}.
#[global] Instance eta_Limitless : Eta Limitless := λ t,
  mkLimitless (base t) (_software_sharers t) (_max_num_sharers t)
              (_software_trap_enabled t) (_software_trap_penalty t).

Definition make (max_hw_sharers max_num_sharers penalty : Z) : Limitless :=
  mkLimitless (Limited.make max_hw_sharers) None max_num_sharers false penalty.

Definition software_sharers (t : Limitless) : res BitVector.BitVector :=
  of_option (_software_sharers t) (ENull "_software_sharers").

Definition hasSharer (t : Limitless) (sharer_id : Z) : res bool :=
  if _software_trap_enabled t then
    s ← software_sharers t ; BitVector.at_ s (u32 sharer_id)
  else Ok (Limited.hasSharer (base t) sharer_id).

(** The migration loop of [addSharer]: the slots left to visit, the bit vector
    and [_num_tracked_sharers]. *)
Fixpoint migrate (max_num_sharers : Z) (sharers : list Z) (b : BitVector.BitVector) (num : Z)
    : res (list Z * BitVector.BitVector * Z) :=
  match sharers with
  | [] => Ok ([], b, num)
  | s :: sharers =>
    r ← (if negb (s =? INVALID_SHARER) then
           check ((0 <=? s) && (s <? max_num_sharers)) (EAssert "DirectoryEntryLimitless::addSharer") ;;
           b' ← BitVector.set b (u32 s) ;
           Ok (INVALID_SHARER, b', s32 (num - 1))
         else Ok (s, b, num)) ;
    let '(s', b', num') := r : Z * BitVector.BitVector * Z in
    rest ← migrate max_num_sharers sharers b' num' ;
    let '(sharers', b'', num'') := rest : list Z * BitVector.BitVector * Z in
    Ok (s' :: sharers', b'', num'')
  end.

Definition addSharer (t : Limitless) (sharer_id : Z) : res (bool * Limitless) :=
  if _software_trap_enabled t then
    s ← software_sharers t ;
    present ← BitVector.at_ s (u32 sharer_id) ;
    check (negb present) (EAssert "DirectoryEntryLimitless::addSharer") ;;
    s' ← BitVector.set s (u32 sharer_id) ;
    Ok (true, t <| _software_sharers := Some s' |>)
  else
    r ← Limited.addSharer (base t) sharer_id ;
    let '(added, b) := r : bool * Limited in
    let t := t <| base := b |> in
    if negb added then
      m ← migrate (_max_num_sharers t) (_sharers (base t))
            (BitVector.make (u32 (_max_num_sharers t))) (_num_tracked_sharers (base t)) ;
      let '(sharers, s, num) := m : list Z * BitVector.BitVector * Z in
      s' ← BitVector.set s (u32 sharer_id) ;
      let t := t <| base := (base t) <| _sharers := sharers |> <| _num_tracked_sharers := num |> |>
                 <| _software_trap_enabled := true |> <| _software_sharers := Some s' |> in
      check (_num_tracked_sharers (base t) =? 0) (ELog "Num Tracked Sharers") ;;
      Ok (true, t)
    else Ok (true, t).

Definition removeSharer (t : Limitless) (sharer_id : Z) (reply_expected : bool) : res Limitless :=
  check (negb reply_expected) (EAssert "DirectoryEntryLimitless::removeSharer") ;;
  if _software_trap_enabled t then
    s ← software_sharers t ;
    present ← BitVector.at_ s (u32 sharer_id) ;
    check present (EAssert "DirectoryEntryLimitless::removeSharer") ;;
    s' ← BitVector.clear s (u32 sharer_id) ;
    Ok (t <| _software_sharers := Some s' |>)
  else
    b ← Limited.removeSharer (base t) sharer_id ;
    Ok (t <| base := b |>).

Definition getSharersList (t : Limitless) : res (bool * list Z * Limitless) :=
  if _software_trap_enabled t then
    s ← software_sharers t ;
    r ← drain_bits s ;
    let '(sharers_list, s') := r : list Z * BitVector.BitVector in
    Ok (false, sharers_list, t <| _software_sharers := Some s' |>)
  else
    r ← Limited.getSharersList (base t) ;
    Ok (false, r.2, t).

Definition getNumSharers (t : Limitless) : res Z :=
  if _software_trap_enabled t then
    s ← software_sharers t ; Ok (s32 (BitVector.size s))
  else Ok (_num_tracked_sharers (base t)).

Definition getLatency (t : Limitless) : Z :=
  if _software_trap_enabled t then _software_trap_penalty t else 0.

#[global] Instance tracker : SharerTracker Limitless := {|
  SharerTracking.hasSharer := hasSharer;
  SharerTracking.addSharer := addSharer;
  SharerTracking.removeSharer := removeSharer;
  SharerTracking.inBroadcastMode := λ _, false;
  SharerTracking.getSharersList := getSharersList;
  SharerTracking.getOneSharer := λ t,
    l ← getSharersList t ;
    let '(_, sharers_list, t) := l : bool * list Z * Limitless in
    r ← Limited.pickSharer (base t) sharers_list ; Ok (r.1, t <| base := r.2 |>);
  SharerTracking.getNumSharers := getNumSharers;
  SharerTracking.getLatency := getLatency
|}.

End Limitless.

(** ** The contract: a tracker stands for a finite set of tiles *)

(** The tile identifiers a tracker can hold: the limited schemes store an
    identifier in an [SInt16], the bit vectors are as wide as the number of
    sharers. *)
Definition tile_in (n x : Z) : Prop := 0 ≤ x < n.

Class SharerTrackerSpec (T : Type) `{SharerTracker T} := {
  (** [tracks n t S]: the tracker, built for tiles below [n], stands for [S]. *)
  tracks : Z → T → gset Z → Prop;
  tracks_range n t S x : tracks n t S → x ∈ S → tile_in n x;
  has_ok n t S x : tracks n t S → tile_in n x →
    ∃ b, hasSharer t x = Ok b ∧ (b = true → x ∈ S) ∧
         (inBroadcastMode t = false → b = bool_decide (x ∈ S));
  add_ok n t S x : tracks n t S → tile_in n x → x ∉ S →
    ∃ added t', addSharer t x = Ok (added, t') ∧
      tracks n t' (if added then {[x]} ∪ S else S) ∧
      (added = false → S ≠ ∅) ∧ (added = false ∨ S = ∅ → inBroadcastMode t' = false);
  remove_ok n t S x : tracks n t S → x ∈ S →
    ∃ t', removeSharer t x false = Ok t' ∧ tracks n t' (S ∖ {[x]});
  num_ok n t S : tracks n t S → getNumSharers t = Ok (Z.of_nat (size S));
  list_ok n t S : tracks n t S →
    ∃ all l t', getSharersList t = Ok (all, l, t') ∧ tracks n t' S ∧ NoDup l ∧
      list_to_set l ⊆ S ∧ (inBroadcastMode t = false → list_to_set l = S) ∧
      (inBroadcastMode t = true → all = true);
  one_ok n t S : tracks n t S → S ≠ ∅ →
    ∃ x t', getOneSharer t = Ok (x, t') ∧ tracks n t' S ∧
      (x ∈ S ∨ inBroadcastMode t = true ∧ x = INVALID_TILE_ID)
}.

Lemma size_tiles n (S : gset Z) :
  (∀ x, x ∈ S → tile_in n x) → Z.of_nat (size S) ≤ Z.max 0 n.
Proof.
  intros H. assert (S ⊆ list_to_set (seqZ 0 n)) as Hs.
  { intros x Hx. apply elem_of_list_to_set, elem_of_seqZ. unfold tile_in in H. apply H in Hx. lia. }
  apply subseteq_size in Hs. rewrite size_list_to_set in Hs by apply NoDup_seqZ.
  rewrite length_seqZ in Hs. lia.
Qed.

(** ** Bit-vector trackers *)

Lemma bitvector_size_range b :
  BitVector.wf b → 0 ≤ BitVector.m_size b < 2 ^ 31 ∧
  BitVector.m_size b = zlength (BitVector.positions b).
Proof.
  intros Hwf. rewrite BitVector.wf_size_bits by done.
  pose proof (BitVector.wf_capacity b Hwf).
  pose proof (BitVector.size_bits_le b). rewrite <- BitVector.wf_size_bits by done.
  split; [|by apply BitVector.wf_size]. rewrite BitVector.wf_size_bits by done. lia.
Qed.

Lemma drain_ok fuel b pre post z :
  BitVector.wf b → BitVector.positions b = pre ++ post →
  BitVector.m_last_pos b = default (-1) (last pre) →
  (length post < fuel)%nat →
  ∃ b', drain fuel b (zlength pre) (pre ++ replicate (length post) z) = Ok (pre ++ post, b') ∧
        BitVector.wf b' ∧ BitVector.positions b' = BitVector.positions b ∧
        BitVector.m_capacity b' = BitVector.m_capacity b.
Proof.
  revert b pre post. induction fuel as [|fuel IH]; intros b pre post Hwf Hp Hl Hf; [lia|].
  cbn [drain]. pose proof (BitVector.find_step b pre post Hwf Hp Hl) as Hfind.
  destruct (BitVector.find_wf _ _ _ Hwf Hfind) as [Hwf' Hp']. rewrite Hfind. clear Hfind.
  destruct post as [|q post]; cbn in Hwf', Hp' |- *.
  { eexists. split; [by rewrite app_nil_r|]. by rewrite Hp'. }
  assert (0 ≤ q) as Hq.
  { assert (q ∈ BitVector.positions b) as Hq by (rewrite Hp; set_solver).
    apply BitVector.elem_of_positions in Hq. lia. }
  rewrite (proj2 (Z.eqb_neq q (-1))) by lia. unfold vset, zlength.
  rewrite length_app, length_cons, length_replicate.
  rewrite (proj2 (Z.leb_le 0 _)), (proj2 (Z.ltb_lt _ _)) by lia. cbn.
  destruct (bitvector_size_range b Hwf) as [Hs1 Hs2].
  rewrite Hp in Hs2. unfold zlength in Hs2. rewrite length_app, length_cons in Hs2.
  unfold BitVector.size. cbn. rewrite s32_small by lia.
  rewrite (proj2 (Z.leb_le _ _)) by lia. cbn.
  destruct (IH _ (pre ++ [q]) post Hwf') as (b' & Hd & Hb' & Hpb' & Hc').
  - rewrite Hp', Hp. by rewrite <- app_assoc.
  - cbn. by rewrite last_snoc.
  - cbn in Hf. lia.
  - exists b'. rewrite <- !app_assoc in Hd. cbn in Hd.
    split; [|rewrite Hpb', Hp'; done].
    rewrite <- Hd. f_equal; [unfold zlength; rewrite length_app; cbn; lia|].
    unfold zinsert. rewrite (proj2 (Z.leb_le 0 _)) by lia. rewrite Nat2Z.id.
    rewrite insert_app_r_alt by lia. by rewrite Nat.sub_diag.
Qed.

Lemma drain_bits_ok b :
  BitVector.wf b →
  ∃ b', drain_bits b = Ok (BitVector.positions b, b') ∧ BitVector.wf b' ∧
        BitVector.positions b' = BitVector.positions b ∧
        BitVector.m_capacity b' = BitVector.m_capacity b.
Proof.
  intros Hwf. unfold drain_bits, BitVector.size, BitVector.resetFind.
  pose proof (BitVector.wf_capacity b Hwf).
  destruct (BitVector.set_last_pos_wf b (-1) Hwf) as [Hwf' Hp']; [lia|].
  destruct (bitvector_size_range b Hwf) as [_ ->]. unfold zlength. rewrite Nat2Z.id.
  pose proof (drain_ok (S (Z.to_nat (BitVector.capacity b)))
                _ [] (BitVector.positions b) 0 Hwf' Hp' eq_refl) as Hd.
  apply Hd. unfold BitVector.capacity.
  pose proof (BitVector.size_bits_le b) as Hle. rewrite <- BitVector.wf_size_bits in Hle by done.
  rewrite (BitVector.wf_size b Hwf) in Hle. unfold zlength in Hle. lia.
Qed.

(** The contract of a bit vector as a set of tiles below its capacity. *)
Record bv_tracks (n : Z) (b : BitVector.BitVector) (S : gset Z) : Prop := {
  bv_wf : BitVector.wf b;
  bv_cap : BitVector.m_capacity b = n;
  bv_bits : BitVector.bits b = S
}.

Section bv_tracks.
Context (n : Z) (b : BitVector.BitVector) (S : gset Z) (Ht : bv_tracks n b S).

Lemma bv_tile_u32 x : tile_in n x → u32 x = x.
Proof.
  intros Hx. destruct Ht as [Hwf <- _]. pose proof (BitVector.wf_capacity b Hwf).
  unfold tile_in in Hx. apply u32_small. lia.
Qed.

Lemma bv_in_range x : x ∈ S → tile_in n x.
Proof. destruct Ht as [_ <- <-]. rewrite BitVector.elem_of_bits. by intros [? _]. Qed.

Lemma bv_at x : tile_in n x → BitVector.at_ b (u32 x) = Ok (bool_decide (x ∈ S)).
Proof.
  intros Hx. rewrite bv_tile_u32 by done. destruct Ht as [Hwf <- <-].
  by apply BitVector.at_spec.
Qed.

Lemma bv_set x : tile_in n x →
  ∃ b', BitVector.set b (u32 x) = Ok b' ∧ bv_tracks n b' ({[x]} ∪ S).
Proof.
  intros Hx. rewrite bv_tile_u32 by done. destruct Ht as [Hwf <- <-].
  destruct (BitVector.set_spec b x Hwf Hx) as (b' & ? & ? & ? & ?). by exists b'.
Qed.

Lemma bv_clear x : tile_in n x →
  ∃ b', BitVector.clear b (u32 x) = Ok b' ∧ bv_tracks n b' (S ∖ {[x]}).
Proof.
  intros Hx. rewrite bv_tile_u32 by done. destruct Ht as [Hwf <- <-].
  destruct (BitVector.clear_spec b x Hwf Hx) as (b' & ? & ? & ? & ?). by exists b'.
Qed.

Lemma bv_num : s32 (BitVector.size b) = Z.of_nat (size S).
Proof.
  destruct Ht as [Hwf _ <-]. rewrite <- BitVector.wf_size_bits by done.
  apply s32_small. unfold BitVector.size. pose proof (bitvector_size_range b Hwf). lia.
Qed.

Lemma bv_list : ∃ l b', drain_bits b = Ok (l, b') ∧ bv_tracks n b' S ∧ NoDup l ∧ list_to_set l = S.
Proof.
  destruct Ht as [Hwf Hc Hb]. destruct (drain_bits_ok b Hwf) as (b' & Hd & Hwf' & Hp & Hc').
  exists (BitVector.positions b), b'. split; [done|]. split; [split; [done|congruence|]|].
  - rewrite <- Hb. unfold BitVector.bits. by rewrite Hp.
  - split; [apply BitVector.NoDup_positions|done].
Qed.
End bv_tracks.

Lemma bv_make n : 0 ≤ n < 2 ^ 31 → bv_tracks n (BitVector.make (u32 n)) ∅.
Proof.
  intros Hn. rewrite u32_small by lia. destruct (BitVector.make_wf n Hn). by split.
Qed.

(** Choosing an element of a nonempty list at a generated index. *)
Lemma pick_ok r (l : list Z) :
  l ≠ [] → ∃ i r' x, Random.next r (zlength l) = Ok (i, r') ∧
                     vget "getOneSharer" l i = Ok x ∧ x ∈ l.
Proof.
  intros Hl. destruct (Random.next_range r (zlength l)) as (i & r' & Hr & Hi).
  { unfold zlength. destruct l; [done|]. cbn. lia. }
  destruct (zlookup_is_Some l i Hi) as [x Hx]. exists i, r', x.
  split; [done|]. split; [by apply vget_Ok|].
  apply zlookup_Some in Hx as [_ Hx]. by eapply list_elem_of_lookup_2.
Qed.

#[global] Instance FullMap_spec : SharerTrackerSpec FullMap.FullMap.
Proof.
  unshelve econstructor; [exact (λ n t S, bv_tracks n (FullMap._sharers t) S)|..].
  - intros n t S x Ht. apply (bv_in_range n _ S Ht).
  - intros n t S x Ht Hx. exists (bool_decide (x ∈ S)). cbn. unfold FullMap.hasSharer.
    rewrite (bv_at n _ S Ht) by done. split; [done|]. by rewrite bool_decide_eq_true.
  - intros n t S x Ht Hx Hn. cbn. unfold FullMap.addSharer.
    rewrite (bv_at n _ S Ht) by done. cbn. rewrite bool_decide_eq_false_2 by done. cbn.
    destruct (bv_set n _ S Ht x Hx) as (b' & -> & Hb'). cbn. eexists true, _. by split_and!.
  - intros n t S x Ht Hx. cbn. unfold FullMap.removeSharer. cbn.
    pose proof (bv_in_range n _ S Ht x Hx) as Hr.
    rewrite (bv_at n _ S Ht) by done. cbn. rewrite bool_decide_eq_true_2 by done. cbn.
    destruct (bv_clear n _ S Ht x Hr) as (b' & -> & Hb'). cbn. eauto.
  - intros n t S Ht. cbn. unfold FullMap.getNumSharers. by rewrite (bv_num n _ S Ht).
  - intros n t S Ht. cbn. unfold FullMap.getSharersList.
    destruct (bv_list n _ S Ht) as (l & b' & -> & Hb' & Hl & HS). cbn.
    eexists _, _, _. split; [done|]. cbn. set_solver.
  - intros n t S Ht HS. cbn. unfold FullMap.getOneSharer, FullMap.getSharersList.
    destruct (bv_list n _ S Ht) as (l & b' & -> & Hb' & Hl & HlS). cbn.
    destruct (pick_ok (FullMap._rand_num t) l) as (i & r' & x & -> & Hx & Hin).
    { intros ->. set_solver. }
    cbn. rewrite Hx. cbn. eexists _, _. split; [done|]. cbn. set_solver.
Defined.

Lemma FullMap_make n : 0 ≤ n < 2 ^ 31 → tracks n (FullMap.make n) ∅.
Proof. apply bv_make. Qed.

(** ** Limited trackers *)

(** The hardware slots hold the tiles of [S], each once. *)
Record lim_tracks (n : Z) (t : Limited.Limited) (S : gset Z) : Prop := {
  lim_hw : Limited._max_hw_sharers t = zlength (Limited._sharers t);
  lim_room : 0 < Limited._max_hw_sharers t;
  lim_nodup : NoDup (Limited.tracked t);
  lim_set : list_to_set (Limited.tracked t) = S;
  lim_range x : x ∈ S → tile_in n x;
  lim_width : n ≤ 32768;
  lim_num : Limited._num_tracked_sharers t = Z.of_nat (size S)
}.

Lemma tile_s16 n x : n ≤ 32768 → tile_in n x → s16 x = x ∧ x ≠ Limited.INVALID_SHARER.
Proof.
  intros Hn Hx. unfold tile_in in Hx. split; [apply s16_small; lia|].
  change Limited.INVALID_SHARER with (-1). lia.
Qed.

Lemma lim_elem n t S x : lim_tracks n t S → tile_in n x → x ∈ Limited._sharers t ↔ x ∈ S.
Proof.
  intros Ht Hx. rewrite <- (lim_set n t S Ht), elem_of_list_to_set.
  unfold Limited.tracked. rewrite list_elem_of_filter.
  destruct (tile_s16 n x (lim_width n t S Ht) Hx). naive_solver.
Qed.

Lemma lim_has n t S x :
  lim_tracks n t S → tile_in n x → Limited.hasSharer t x = bool_decide (x ∈ S).
Proof.
  intros Ht Hx. unfold Limited.hasSharer. apply bool_decide_ext. by eapply lim_elem.
Qed.

Lemma lim_count n t S : lim_tracks n t S → zlength (Limited.tracked t) = Z.of_nat (size S).
Proof. intros []. rewrite NoDup_zlength_size by done. by rewrite lim_set0. Qed.

Lemma lim_size n t S : lim_tracks n t S → Z.of_nat (size S) ≤ 32768.
Proof. intros Ht. pose proof (size_tiles n S (lim_range n t S Ht)). destruct Ht. lia. Qed.

(** Overwriting the slot [i], which held [y], by [x]. *)
Lemma tracked_insert t i x y :
  Limited._sharers t !! i = Some y →
  ∃ l1 l2, Limited.tracked t = l1 ++ filter (λ s, s ≠ Limited.INVALID_SHARER) [y] ++ l2 ∧
    ∀ t', Limited._sharers t' = <[i := x]> (Limited._sharers t) →
      Limited.tracked t' = l1 ++ filter (λ s, s ≠ Limited.INVALID_SHARER) [x] ++ l2.
Proof.
  intros Hi. set (l := Limited._sharers t) in *.
  exists (filter (λ s, s ≠ Limited.INVALID_SHARER) (take i l)),
         (filter (λ s, s ≠ Limited.INVALID_SHARER) (drop (S i) l)).
  unfold Limited.tracked. fold l. split.
  - rewrite <- (take_drop_middle l i y Hi) at 1. by rewrite <- !filter_app.
  - intros t' ->. rewrite insert_take_drop by (by eapply lookup_lt_Some). by rewrite <- !filter_app.
Qed.

Lemma lim_add n t S x :
  lim_tracks n t S → tile_in n x → x ∉ S →
  ∃ added t', Limited.addSharer t x = Ok (added, t') ∧
    Limited._max_hw_sharers t' = Limited._max_hw_sharers t ∧
    lim_tracks n t' (if added then {[x]} ∪ S else S) ∧
    (added = false → t' = t ∧ Limited._num_tracked_sharers t = Limited._max_hw_sharers t).
Proof.
  intros Ht Hx Hn. destruct (tile_s16 n x (lim_width n t S Ht) Hx) as [Hs Hv].
  unfold Limited.addSharer. rewrite Hs.
  rewrite bool_decide_eq_true_2 by (rewrite (lim_elem n t S) by done; done). cbn.
  pose proof (lim_size n t S Ht) as Hsz.
  destruct (list_find _ _) as [[i y]|] eqn:Hf.
  - apply list_find_Some in Hf as (Hi & -> & _).
    destruct (tracked_insert t i x _ Hi) as (l1 & l2 & H1 & H2).
    rewrite filter_cons_False in H1 by tauto. rewrite filter_nil in H1. cbn [app] in H1.
    setoid_rewrite filter_cons_True in H2; [|done]. setoid_rewrite filter_nil in H2. cbn [app] in H2.
    eexists _, _. split; [done|]. split; [done|]. split; [|done].
    assert (x ∉ l1 ++ l2) as Hni.
    { rewrite <- H1. intros Hin. apply Hn. rewrite <- (lim_set n t S Ht). by apply elem_of_list_to_set. }
    pose proof (lim_nodup n t S Ht) as Hd. rewrite H1 in Hd.
    pose proof (lim_set n t S Ht) as HS. rewrite H1 in HS. destruct Ht. split.
    + cbn. unfold zlength. by rewrite length_insert.
    + done.
    + rewrite H2 by done. rewrite <- Permutation_middle. by constructor.
    + rewrite H2 by done. set_solver.
    + set_solver.
    + done.
    + cbn. rewrite lim_num0, size_union, size_singleton by set_solver. rewrite s32_small; lia.
  - apply list_find_None in Hf. eexists _, _. do 3 (split; [done|]). intros _. split; [done|].
    rewrite (lim_num n t S Ht), (lim_hw n t S Ht), <- (lim_count n t S Ht).
    f_equal. unfold Limited.tracked. apply filter_all. by rewrite Forall_forall in Hf.
Qed.

Lemma lim_full n t S :
  lim_tracks n t S → Limited._num_tracked_sharers t = Limited._max_hw_sharers t → S ≠ ∅.
Proof.
  intros Ht Hf ->. pose proof (lim_room n t _ Ht). rewrite (lim_num n t _ Ht), size_empty in Hf. lia.
Qed.

Lemma lim_remove n t S x :
  lim_tracks n t S → x ∈ S →
  ∃ t', Limited.removeSharer t x = Ok t' ∧ lim_tracks n t' (S ∖ {[x]}) ∧
        Limited._max_hw_sharers t' = Limited._max_hw_sharers t.
Proof.
  intros Ht Hx. pose proof (lim_range n t S Ht x Hx) as Hr.
  destruct (tile_s16 n x (lim_width n t S Ht) Hr) as [Hs Hv].
  unfold Limited.removeSharer. rewrite Hs. pose proof (lim_size n t S Ht) as Hsz.
  destruct (list_find _ _) as [[i y]|] eqn:Hf.
  2: { apply list_find_None in Hf. rewrite Forall_forall in Hf.
       exfalso. apply (Hf x); [|done]. by apply (lim_elem n t S). }
  apply list_find_Some in Hf as (Hi & -> & _).
  destruct (tracked_insert t i Limited.INVALID_SHARER _ Hi) as (l1 & l2 & H1 & H2).
  rewrite filter_cons_True in H1 by done. rewrite filter_nil in H1. cbn [app] in H1.
  setoid_rewrite filter_cons_False in H2; [|tauto]. setoid_rewrite filter_nil in H2. cbn [app] in H2.
  eexists. split; [done|]. split; [|done].
  pose proof (lim_nodup n t S Ht) as Hd. rewrite H1, <- Permutation_middle in Hd.
  apply NoDup_cons in Hd as [Hni Hd].
  pose proof (lim_set n t S Ht) as HS. rewrite H1 in HS.
  assert (size S ≠ 0%nat) by (apply size_non_empty_iff; set_solver).
  destruct Ht. split.
  + cbn. unfold zlength. by rewrite length_insert.
  + done.
  + by rewrite H2.
  + rewrite H2 by done. set_solver.
  + set_solver.
  + done.
  + cbn. rewrite lim_num0, size_difference, size_singleton by set_solver. rewrite s32_small; lia.
Qed.

Lemma lim_list n t S :
  lim_tracks n t S → Limited.getSharersList t = Ok (true, Limited.tracked t).
Proof.
  intros Ht. unfold Limited.getSharersList. pose proof (lim_size n t S Ht).
  rewrite (lim_count n t S), (lim_num n t S), s32_small, Z.eqb_refl by (done || lia). done.
Qed.

Lemma lim_pick n t S l :
  lim_tracks n t S → l ≠ [] →
  ∃ x t', Limited.pickSharer t l = Ok (x, t') ∧ lim_tracks n t' S ∧ x ∈ l.
Proof.
  intros Ht Hl. destruct (pick_ok (Limited._rand_num t) l Hl) as (i & r' & x & Hr & Hx & Hin).
  unfold Limited.pickSharer. destruct l; [done|]. rewrite Hr. cbn -[vget]. rewrite Hx. cbn.
  eexists _, _. split; [done|]. split; [|done]. by destruct Ht.
Qed.

Lemma lim_make n max_hw : 0 < max_hw → n ≤ 32768 → lim_tracks n (Limited.make max_hw) ∅.
Proof.
  intros Hm Hn. assert (Limited.tracked (Limited.make max_hw) = []) as Ht.
  { apply filter_nil_iff. intros x Hx. apply elem_of_replicate in Hx as [-> _]. by intros []. }
  split; rewrite ?Ht; try done; try constructor; try set_solver.
  cbn. unfold zlength. rewrite length_replicate. lia.
Qed.

#[global] Instance LimitedNoBroadcast_spec :
  SharerTrackerSpec LimitedNoBroadcast.LimitedNoBroadcast.
Proof.
  unshelve econstructor; [exact (λ n t S, lim_tracks n (LimitedNoBroadcast.base t) S)|..].
  - intros n t S x Ht. apply (lim_range n _ S Ht).
  - intros n t S x Ht Hx. eexists. split; [done|].
    rewrite (lim_has n _ S) by done. by rewrite bool_decide_eq_true.
  - intros n t S x Ht Hx Hn. destruct (lim_add n _ S x Ht Hx Hn) as (added & t' & Ha & _ & Ht' & Hf).
    cbn. rewrite Ha. cbn. eexists _, _. split_and!; [done|done| |done].
    intros ->. apply (lim_full n _ S Ht). by apply Hf.
  - intros n t S x Ht Hx. destruct (lim_remove n _ S x Ht Hx) as (t' & Hr & Ht' & _).
    cbn. unfold LimitedNoBroadcast.removeSharer. cbn. rewrite Hr. cbn. eauto.
  - intros n t S Ht. cbn. unfold Limited.getNumSharers. by rewrite (lim_num n _ S Ht).
  - intros n t S Ht. cbn -[Limited.getSharersList]. rewrite (lim_list n _ S) by done. cbn.
    eexists _, _, _. split; [done|]. split; [done|]. destruct Ht. set_solver.
  - intros n t S Ht HS. cbn -[Limited.getSharersList]. unfold Limited.getOneSharer.
    rewrite (lim_list n _ S) by done. cbn.
    destruct (lim_pick n _ S (Limited.tracked (LimitedNoBroadcast.base t)) Ht)
      as (x & t' & -> & Ht' & Hx).
    { intros E. pose proof (lim_set n _ S Ht). rewrite E in *. set_solver. }
    cbn. eexists _, _. split; [done|]. split; [done|]. left.
    rewrite <- (lim_set n _ S Ht). by apply elem_of_list_to_set.
Defined.

(** ** ACKwise *)

(** The slots hold a part [T] of the set; the rest is only counted. *)
Record ack_tracks (n : Z) (t : Ackwise.Ackwise) (S T : gset Z) : Prop := {
  ack_base : lim_tracks n (Ackwise.base t) T;
  ack_sub : T ⊆ S;
  ack_range x : x ∈ S → tile_in n x;
  ack_count : Ackwise._num_untracked_sharers t = Z.of_nat (size (S ∖ T));
  ack_global : Ackwise._global_enabled t = bool_decide (S ∖ T ≠ ∅)
}.

Lemma ack_exact n t S T :
  ack_tracks n t S T → Ackwise._global_enabled t = false → T = S.
Proof.
  intros Ht Hg. rewrite (ack_global n t S T Ht) in Hg. apply bool_decide_eq_false in Hg.
  pose proof (ack_sub n t S T Ht). apply set_eq. intros x. split; [set_solver|].
  intros Hx. destruct (decide (x ∈ T)); [done|]. exfalso. apply Hg. set_solver.
Qed.

Lemma ack_untracked_bound n t S T :
  ack_tracks n t S T → Z.of_nat (size (S ∖ T)) ≤ 32768 ∧ Z.of_nat (size S) ≤ 32768.
Proof.
  intros Ht. pose proof (size_tiles n (S ∖ T)) as H1. pose proof (size_tiles n S) as H2.
  pose proof (ack_range n t S T Ht) as Hr. pose proof (lim_width n _ T (ack_base n t S T Ht)).
  specialize (H2 Hr). assert (∀ x, x ∈ S ∖ T → tile_in n x) as H3 by set_solver.
  specialize (H1 H3). lia.
Qed.

Lemma ack_add n t S T x :
  ack_tracks n t S T → tile_in n x → x ∉ S →
  ∃ t' T', Ackwise.addSharer t x = Ok (true, t') ∧ ack_tracks n t' ({[x]} ∪ S) T' ∧
    (S = ∅ → Ackwise._global_enabled t' = false).
Proof.
  intros Ht Hx Hn. pose proof (lim_full n _ _ (ack_base n t S T Ht)) as Hroom. unfold Ackwise.addSharer.
  pose proof (ack_untracked_bound n t S T Ht) as [Hb _].
  pose proof (ack_sub n t S T Ht) as Hsub.
  destruct (Ackwise._global_enabled t) eqn:Hg.
  - assert (S ≠ ∅) as HS0.
    { intros ->. rewrite (ack_global n t ∅ T Ht) in Hg. by rewrite bool_decide_eq_true in Hg; set_solver. }
    eexists _, T. split; [done|]. split; [|done]. destruct Ht. split; cbn; [done|set_solver|set_solver| |].
    + replace (({[x]} ∪ S) ∖ T) with ({[x]} ∪ S ∖ T) by set_solver.
      rewrite size_union, size_singleton by set_solver. rewrite ack_count0, s32_small; lia.
    + rewrite ?Hg. symmetry. apply bool_decide_eq_true. set_solver.
  - pose proof (ack_exact n t S T Ht Hg) as ->. destruct Ht.
    destruct (lim_add n _ S x ack_base0 Hx Hn) as (added & b' & -> & Hm & Hb' & Hfull). cbn.
    destruct added; cbn.
    + eexists _, ({[x]} ∪ S). split; [done|]. split; [|done]. split; cbn; [done|set_solver|set_solver| |].
      * by rewrite ack_count0, !difference_diag_L.
      * by rewrite ?Hg, difference_diag_L.
    + destruct (Hfull eq_refl) as [-> Hf]. rewrite ack_count0, difference_diag_L, size_empty, Hf, Hg. cbn.
      rewrite !Z.eqb_refl. cbn. eexists _, S. split; [done|].
      assert (({[x]} ∪ S) ∖ S = {[x]}) as E by set_solver. specialize (Hroom Hf). split; [|done].
      split; cbn; [done|set_solver|set_solver| |].
      * by rewrite E, size_singleton.
      * rewrite E. symmetry. apply bool_decide_eq_true. set_solver.
Qed.

Lemma ack_remove n t S T x :
  ack_tracks n t S T → x ∈ S →
  ∃ t' T', Ackwise.removeSharer t x false = Ok t' ∧ ack_tracks n t' (S ∖ {[x]}) T'.
Proof.
  intros Ht Hx. unfold Ackwise.removeSharer. cbn.
  pose proof (ack_untracked_bound n t S T Ht) as [Hb _].
  pose proof (ack_range n t S T Ht x Hx) as Hr.
  destruct (Ackwise._global_enabled t) eqn:Hg.
  - pose proof Ht as []. rewrite Hg in ack_global0. symmetry in ack_global0.
    apply bool_decide_eq_true in ack_global0.
    assert (size (S ∖ T) ≠ 0%nat) by (by apply size_non_empty_iff_L).
    rewrite ack_count0, Z.gtb_ltb, (proj2 (Z.ltb_lt 0 _)) by lia. cbn.
    rewrite (lim_has n _ T) by done. case_bool_decide as HT.
    + destruct (lim_remove n _ T x ack_base0 HT) as (b' & -> & Hb' & _). cbn.
      eexists _, (T ∖ {[x]}). split; [done|].
      assert (S ∖ {[x]} ∖ (T ∖ {[x]}) = S ∖ T) as E by set_solver.
      split; cbn; [done|set_solver|set_solver|by rewrite E|].
      rewrite ?Hg, E. symmetry. by apply bool_decide_eq_true.
    + assert (S ∖ {[x]} ∖ T = (S ∖ T) ∖ {[x]}) as E by set_solver.
      assert (Z.of_nat (size (S ∖ T)) - 1 = Z.of_nat (size (S ∖ {[x]} ∖ T))) as Hs.
      { rewrite E, (size_difference (S ∖ T) {[x]}), size_singleton by set_solver. lia. }
      rewrite s32_small, Hs by lia.
      destruct (Z.of_nat (size (S ∖ {[x]} ∖ T)) =? 0) eqn:Hz; breflect.
      * assert (S ∖ {[x]} ∖ T = ∅) as E0 by (apply size_empty_iff_L; lia).
        eexists _, T. split; [done|]. split; cbn; [done|set_solver|set_solver|done|].
        by rewrite E0.
      * eexists _, T. split; [done|]. split; cbn; [done|set_solver|set_solver|done|].
        rewrite ?Hg. symmetry. apply bool_decide_eq_true. intros E0. rewrite E0 in Hz. done.
  - pose proof (ack_exact n t S T Ht Hg) as ->. destruct Ht.
    destruct (lim_remove n _ S x ack_base0 Hx) as (b' & -> & Hb' & _). cbn.
    eexists _, (S ∖ {[x]}). split; [done|]. split; cbn; [done|set_solver|set_solver| |].
    + by rewrite ack_count0, !difference_diag_L.
    + by rewrite ?Hg, difference_diag_L.
Qed.

Lemma ack_num n t S T :
  ack_tracks n t S T → Ackwise.getNumSharers t = Z.of_nat (size S).
Proof.
  intros Ht. unfold Ackwise.getNumSharers. pose proof (ack_untracked_bound n t S T Ht) as [_ Hb].
  destruct Ht. rewrite (lim_num n _ T ack_base0), ack_count0.
  rewrite size_difference by done. apply subseteq_size in ack_sub0. rewrite s32_small; lia.
Qed.

Lemma ack_list n t S T :
  ack_tracks n t S T →
  Ackwise.getSharersList t = Ok (Ackwise._global_enabled t, Limited.tracked (Ackwise.base t), t).
Proof.
  intros []. unfold Ackwise.getSharersList. by rewrite (lim_list n _ T).
Qed.

Lemma ack_one n t S T :
  ack_tracks n t S T → S ≠ ∅ →
  ∃ x t', getOneSharer t = Ok (x, t') ∧ ack_tracks n t' S T ∧
    (x ∈ S ∨ Ackwise._global_enabled t = true ∧ x = INVALID_TILE_ID).
Proof.
  intros Ht HS. cbn -[Ackwise.getSharersList]. rewrite (ack_list n t S T Ht). cbn -[Limited.pickSharer].
  pose proof (ack_exact n t S T Ht). destruct Ht.
  destruct (decide (Limited.tracked (Ackwise.base t) = [])) as [E|E].
  - rewrite E. cbn. eexists _, _. split; [done|]. split; [done|]. right. split; [|done].
    destruct (Ackwise._global_enabled t) eqn:Hg; [done|].
    pose proof (lim_set n _ T ack_base0) as HT. rewrite E in HT. set_solver.
  - destruct (lim_pick n _ T _ ack_base0 E) as (x & b' & -> & Hb' & Hx). cbn.
    eexists _, _. split; [done|]. split; [by split|]. left.
    apply ack_sub0. rewrite <- (lim_set n _ T ack_base0). by apply elem_of_list_to_set.
Qed.

#[global] Instance Ackwise_spec : SharerTrackerSpec Ackwise.Ackwise.
Proof.
  unshelve econstructor; [exact (λ n t S, ∃ T, ack_tracks n t S T)|..].
  - intros n t S x [T Ht]. apply (ack_range n t S T Ht).
  - intros n t S x [T Ht] Hx. eexists. split; [done|].
    rewrite (lim_has n _ T) by (by destruct Ht). pose proof (ack_sub n t S T Ht).
    rewrite bool_decide_eq_true. split; [set_solver|]. cbn. intros Hg.
    by rewrite (ack_exact n t S T Ht Hg).
  - intros n t S x [T Ht] Hx Hn.
    destruct (ack_add n t S T x Ht Hx Hn) as (t' & T' & Ha & Ht' & Hb). exists true, t'.
    split_and!; [done|by exists T'|done|]. intros [?|?]; [done|]. by apply Hb.
  - intros n t S x [T Ht] Hx.
    destruct (ack_remove n t S T x Ht Hx) as (t' & T' & Ha & Ht'). exists t'. eauto.
  - intros n t S [T Ht]. cbn. by rewrite (ack_num n t S T).
  - intros n t S [T Ht]. eexists _, _, _. split; [by apply (ack_list n t S T)|].
    split; [eauto|]. cbn. pose proof (ack_exact n t S T Ht). destruct Ht, ack_base0.
    split; [done|]. split; [set_solver|]. split; [|done]. intros Hg. by rewrite <- H.
  - intros n t S [T Ht] HS.
    destruct (ack_one n t S T Ht HS) as (x & t' & Ho & Ht' & Hx). exists x, t'. eauto.
Defined.

(** ** LimitLESS *)

Lemma migrate_ok n sharers b B num :
  bv_tracks n b B → NoDup (filter (λ s, s ≠ Limited.INVALID_SHARER) sharers) →
  (∀ s, s ∈ filter (λ s, s ≠ Limited.INVALID_SHARER) sharers → tile_in n s ∧ s ∉ B) →
  num = zlength (filter (λ s, s ≠ Limited.INVALID_SHARER) sharers) → num ≤ 32768 →
  ∃ b', Limitless.migrate n sharers b num
        = Ok (replicate (length sharers) Limited.INVALID_SHARER, b', 0) ∧
        bv_tracks n b' (list_to_set (filter (λ s, s ≠ Limited.INVALID_SHARER) sharers) ∪ B).
Proof.
  revert b B num. induction sharers as [|s l IH]; intros b B num Hb Hd Hr Hnum Hle.
  { exists b. subst num. split; [done|]. cbn. by rewrite union_empty_l_L. }
  cbn [Limitless.migrate]. rewrite filter_cons in Hd, Hr, Hnum |- *.
  case_decide as Hs.
  - rewrite (proj2 (Z.eqb_neq _ _)) by done. cbn [negb].
    destruct (Hr s) as [Hsn HsB]; [set_solver|].
    unfold tile_in in Hsn. rewrite (proj2 (Z.leb_le 0 s)), (proj2 (Z.ltb_lt s n)) by lia. cbn.
    destruct (bv_set n b B Hb s Hsn) as (b1 & -> & Hb1). cbn.
    apply NoDup_cons in Hd as [Hns Hd]. unfold zlength in Hnum. cbn in Hnum.
    destruct (IH b1 ({[s]} ∪ B) (s32 (num - 1)) Hb1 Hd) as (b' & -> & Hb').
    + intros y Hy. destruct (Hr y) as [? HyB]; [by apply list_elem_of_further|].
      split; [done|]. intros [->%elem_of_singleton|?]%elem_of_union; done.
    + rewrite s32_small by lia. unfold zlength. lia.
    + rewrite s32_small by lia. lia.
    + exists b'. split; [done|]. 
      assert (∀ A : gset Z, {[s]} ∪ A ∪ B = A ∪ ({[s]} ∪ B)) as E by (clear; set_solver).
      cbn. by rewrite E.
  - rewrite Hs. rewrite Z.eqb_refl. cbn.
    destruct (IH b B num Hb Hd Hr Hnum Hle) as (b' & -> & Hb'). cbn. by exists b'.
Qed.

(** Either the slots hold the set, or the trap has moved it to the bit
    vector and the slots are empty. *)
Record less_tracks (n : Z) (t : Limitless.Limitless) (S : gset Z) : Prop := {
  less_num : Limitless._max_num_sharers t = n;
  less_range : 0 ≤ n ≤ 32768;
  less_state :
    if Limitless._software_trap_enabled t
    then ∃ s, Limitless._software_sharers t = Some s ∧ bv_tracks n s S ∧
              lim_tracks n (Limitless.base t) ∅
    else lim_tracks n (Limitless.base t) S
}.

Lemma lim_emptied n t S k :
  lim_tracks n t S →
  lim_tracks n (t <| Limited._sharers := replicate (length (Limited._sharers t)) Limited.INVALID_SHARER |>
                  <| Limited._num_tracked_sharers := 0 |> <| Limited._rand_num := k |>) ∅.
Proof.
  intros []. set (t' := _ <| Limited._rand_num := k |>).
  assert (Limited.tracked t' = []) as Ht.
  { apply filter_nil_iff. intros x Hx. apply elem_of_replicate in Hx as [-> _]. by intros []. }
  split; rewrite ?Ht; try done; try constructor; try set_solver.
  cbn. unfold zlength. by rewrite length_replicate.
Qed.

Lemma less_add n t S x :
  less_tracks n t S → tile_in n x → x ∉ S →
  ∃ t', Limitless.addSharer t x = Ok (true, t') ∧ less_tracks n t' ({[x]} ∪ S).
Proof.
  intros [Hn Hr Hst] Hx HS. unfold Limitless.addSharer, Limitless.software_sharers.
  destruct (Limitless._software_trap_enabled t) eqn:He.
  - destruct Hst as (s & -> & Hs & Hb). cbn. rewrite (bv_at n s S Hs) by done. cbn.
    rewrite bool_decide_eq_false_2 by done. cbn.
    destruct (bv_set n s S Hs x Hx) as (s' & -> & Hs'). cbn.
    eexists. split; [done|]. split; cbn; [done..|]. rewrite ?He. eauto.
  - destruct (lim_add n _ S x Hst Hx HS) as (added & b' & -> & Hm & Hb' & Hfull). cbn.
    destruct added; cbn.
    { eexists. split; [done|]. split; cbn; [done..|]. by rewrite ?He. }
    destruct (Hfull eq_refl) as [-> _]. pose proof (lim_size n _ S Hst).
    assert (bv_tracks n (BitVector.make (u32 (Limitless._max_num_sharers t))) ∅) as Hbv.
    { rewrite Hn. apply bv_make. lia. }
    destruct (migrate_ok n (Limited._sharers (Limitless.base t)) _ ∅
                (Limited._num_tracked_sharers (Limitless.base t)) Hbv) as (s & Hm' & Hs).
    + apply (lim_nodup n _ S Hst).
    + intros y Hy. split; [|set_solver]. apply (lim_range n _ S Hst).
      rewrite <- (lim_set n _ S Hst). by apply elem_of_list_to_set.
    + rewrite (lim_num n _ S Hst). symmetry. apply (lim_count n _ S Hst).
    + rewrite (lim_num n _ S Hst). lia.
    + rewrite Hn in Hm' |- *. rewrite Hm'. cbn.
      destruct (bv_set n s _ Hs x Hx) as (s' & -> & Hs'). cbn.
      eexists. split; [done|]. split; cbn; [done..|]. exists s'. split; [done|].
      pose proof (lim_set n _ S Hst) as HE. unfold Limited.tracked in HE.
      rewrite HE, union_empty_r_L in Hs'. split; [done|].
      exact (lim_emptied n _ S (Limited._rand_num (Limitless.base t)) Hst).
Qed.

Lemma less_remove n t S x :
  less_tracks n t S → x ∈ S →
  ∃ t', Limitless.removeSharer t x false = Ok t' ∧ less_tracks n t' (S ∖ {[x]}).
Proof.
  intros [Hn Hr Hst] Hx. unfold Limitless.removeSharer, Limitless.software_sharers. cbn.
  destruct (Limitless._software_trap_enabled t) eqn:He.
  - destruct Hst as (s & -> & Hs & Hb). cbn. pose proof (bv_in_range n s S Hs x Hx) as Hrx.
    rewrite (bv_at n s S Hs) by done. cbn. rewrite bool_decide_eq_true_2 by done. cbn.
    destruct (bv_clear n s S Hs x Hrx) as (s' & -> & Hs'). cbn.
    eexists. split; [done|]. split; cbn; [done..|]. rewrite ?He. eauto.
  - destruct (lim_remove n _ S x Hst Hx) as (b' & -> & Hb' & _). cbn.
    eexists. split; [done|]. split; cbn; [done..|]. by rewrite ?He.
Qed.

Lemma less_list n t S :
  less_tracks n t S →
  ∃ l t', Limitless.getSharersList t = Ok (false, l, t') ∧ less_tracks n t' S ∧
          NoDup l ∧ list_to_set l = S.
Proof.
  intros [Hn Hr Hst]. unfold Limitless.getSharersList, Limitless.software_sharers.
  destruct (Limitless._software_trap_enabled t) eqn:He.
  - destruct Hst as (s & -> & Hs & Hb). cbn.
    destruct (bv_list n s S Hs) as (l & s' & -> & Hs' & Hl & HS). cbn.
    eexists _, _. split; [done|]. split; [|done]. split; cbn; [done..|]. rewrite ?He. eauto.
  - rewrite (lim_list n _ S) by done. cbn. eexists _, _. split; [done|].
    destruct Hst as [? ? ?]. split; [|done]. split; [done..|]. by rewrite He.
Qed.

Lemma less_base n t S :
  less_tracks n t S → ∃ T, lim_tracks n (Limitless.base t) T ∧
  ∀ b, lim_tracks n b T → less_tracks n (t <| Limitless.base := b |>) S.
Proof.
  intros [Hn Hr Hst]. destruct (Limitless._software_trap_enabled t) eqn:He.
  - destruct Hst as (s & Hs & Hb & Hl). exists ∅. split; [done|]. intros b ?.
    split; cbn; [done..|]. rewrite He. eauto.
  - exists S. split; [done|]. intros b ?. split; cbn; [done..|]. by rewrite He.
Qed.

#[global] Instance Limitless_spec : SharerTrackerSpec Limitless.Limitless.
Proof.
  unshelve econstructor; [exact less_tracks|..].
  - intros n t S x [Hn Hr Hst] Hx. destruct (Limitless._software_trap_enabled t).
    + destruct Hst as (s & _ & Hs & _). by apply (bv_in_range n s S Hs).
    + by apply (lim_range n _ S Hst).
  - intros n t S x [Hn Hr Hst] Hx. cbn. unfold Limitless.hasSharer, Limitless.software_sharers.
    exists (bool_decide (x ∈ S)). rewrite bool_decide_eq_true. split; [|done].
    destruct (Limitless._software_trap_enabled t).
    + destruct Hst as (s & -> & Hs & _). cbn. by apply (bv_at n s S Hs).
    + by rewrite (lim_has n _ S).
  - intros n t S x Ht Hx Hn. destruct (less_add n t S x Ht Hx Hn) as (t' & ? & ?).
    exists true, t'. by split_and!.
  - intros n t S x. apply less_remove.
  - intros n t S [Hn Hr Hst]. cbn. unfold Limitless.getNumSharers, Limitless.software_sharers.
    destruct (Limitless._software_trap_enabled t).
    + destruct Hst as (s & -> & Hs & _). cbn. by rewrite (bv_num n s S Hs).
    + by rewrite (lim_num n _ S Hst).
  - intros n t S Ht. destruct (less_list n t S Ht) as (l & t' & Hl & Ht' & Hd & HS).
    exists false, l, t'. split; [done|]. set_solver.
  - intros n t S Ht HS. destruct (less_list n t S Ht) as (l & t' & Hl & Ht' & Hd & HlS).
    cbn -[Limited.pickSharer]. rewrite Hl. cbn -[Limited.pickSharer].
    destruct (less_base n t' S Ht') as (T & HT & Hback).
    destruct (lim_pick n _ T l HT) as (x & b' & -> & Hb' & Hx).
    { intros ->. set_solver. }
    eexists _, _. split; [done|]. split; [by apply Hback|]. left. set_solver.
Defined.

(** ** Limited with broadcast: counting acknowledgements *)

(** The acknowledgements of the tiles [xs], in the order in which they
    arrive. *)
Fixpoint acknowledge (t : LimitedBroadcast.LimitedBroadcast) (xs : list Z)
    : res LimitedBroadcast.LimitedBroadcast :=
  match xs with
  | [] => Ok t
  | x :: xs => t' ← LimitedBroadcast.removeSharer t x true ; acknowledge t' xs
  end.

(** Broadcast mode with [k] acknowledgements outstanding and the tiles of [T]
    still in the slots. *)
Record bcast (n k : Z) (t : LimitedBroadcast.LimitedBroadcast) (T : gset Z) : Prop := {
  bc_base : lim_tracks n (LimitedBroadcast.base t) T;
  bc_global : LimitedBroadcast._global_enabled t = true;
  bc_num : LimitedBroadcast._num_sharers t = k
}.

Lemma lb_remove_base n k t T x :
  bcast n k t T → tile_in n x →
  ∃ b, (if LimitedBroadcast._global_enabled t then
          if Limited.hasSharer (LimitedBroadcast.base t) x
          then Limited.removeSharer (LimitedBroadcast.base t) x else Ok (LimitedBroadcast.base t)
        else Limited.removeSharer (LimitedBroadcast.base t) x) = Ok b ∧
       lim_tracks n b (T ∖ {[x]}).
Proof.
  intros [Hb -> _] Hx. rewrite (lim_has n _ T) by done. case_bool_decide as HT.
  - destruct (lim_remove n _ T x Hb HT) as (b & Hr & Hb' & _). eauto.
  - eexists. split; [done|]. by replace (T ∖ {[x]}) with T by set_solver.
Qed.

Lemma lb_acknowledge n xs t T :
  bcast n (zlength xs) t T → xs ≠ [] → zlength xs < 2 ^ 32 → NoDup xs →
  (∀ x, x ∈ xs → tile_in n x) → T ⊆ list_to_set xs →
  ∃ t', acknowledge t xs = Ok t' ∧ LimitedBroadcast.inBroadcastMode t' = false ∧
        LimitedBroadcast.getNumSharers t' = 0 ∧ lim_tracks n (LimitedBroadcast.base t') ∅.
Proof.
  revert t T. induction xs as [|x xs IH]; intros t T Ht Hne Hlen Hd Hr HT; [done|].
  apply NoDup_cons in Hd as [Hx Hd]. cbn [acknowledge].
  destruct (lb_remove_base n _ t T x Ht) as (b & Hb & Hb'); [apply Hr; set_solver|].
  unfold LimitedBroadcast.removeSharer. rewrite Hb. destruct Ht as [_ Hg Hn]. cbn -[acknowledge].
  rewrite Hg. cbn -[acknowledge]. unfold zlength in *. rewrite length_cons in Hn, Hlen.
  rewrite Hn. replace (Z.of_nat (S (length xs)) - 1) with (Z.of_nat (length xs)) by lia.
  rewrite u32_small by lia. destruct xs as [|y xs].
  - assert (T ∖ {[x]} = ∅) as E by set_solver. rewrite E in Hb'.
    rewrite (lim_num n _ _ Hb'). cbn. eexists. split; [done|]. split; [done|].
    unfold LimitedBroadcast.getNumSharers. cbn. by rewrite (lim_num n _ _ Hb').
  - rewrite (proj2 (Z.eqb_neq _ _)) by (cbn; lia). cbn -[acknowledge].
    apply (IH _ (T ∖ {[x]})); [by split| done | lia | done | | ].
    + intros z Hz. apply Hr. by right.
    + set_solver.
Qed.

(** A removal that is not an acknowledgement leaves broadcast mode and the
    number of sharers as they are. *)
Lemma lb_eviction_keeps n k t T x :
  bcast n k t T → tile_in n x →
  ∃ t', LimitedBroadcast.removeSharer t x false = Ok t' ∧ bcast n k t' (T ∖ {[x]}) ∧
        LimitedBroadcast.getNumSharers t' = LimitedBroadcast.getNumSharers t.
Proof.
  intros Ht Hx. destruct (lb_remove_base n k t T x Ht Hx) as (b & Hb & Hb').
  unfold LimitedBroadcast.removeSharer. rewrite Hb. destruct Ht as [_ Hg Hn]. cbn.
  eexists. split; [done|]. split; [by split|]. unfold LimitedBroadcast.getNumSharers. cbn.
  by rewrite Hg.
Qed.
