(* ===== verification/DirectoryEntry.v ===== *)
(** * DirectoryEntry: entries of the directory and the directory array

    [DirectoryEntry] (directory_entry.{h,cc}) is the record of the base class's
    members together with the scheme's sharer tracker; the virtual functions
    dispatch on the scheme.  [Directory] (directory.{h,cc}) keeps the histogram
    of sharer counts. *)
From S2P Require Import Prelude Utils BitVector SharerTracking.

Module DirectoryState.
Inductive Type_ : Type := UNCACHED | SHARED | OWNED | EXCLUSIVE | MODIFIED.
#[global] Instance Type_eq_dec : EqDecision Type_.
Proof. solve_decision. Defined.
End DirectoryState.

Module DirectoryType.

Inductive DirectoryType : Type :=
  | FULL_MAP | LIMITED_NO_BROADCAST | LIMITED_BROADCAST | ACKWISE | LIMITLESS.
#[global] Instance DirectoryType_eq_dec : EqDecision DirectoryType.
Proof. solve_decision. Defined.

Definition parseDirectoryType (directory_type : string) : res DirectoryType :=
  if bool_decide (directory_type = "full_map") then Ok FULL_MAP
  else if bool_decide (directory_type = "limited_no_broadcast") then Ok LIMITED_NO_BROADCAST
  else if bool_decide (directory_type = "limited_broadcast") then Ok LIMITED_BROADCAST
  else if bool_decide (directory_type = "ackwise") then Ok ACKWISE
  else if bool_decide (directory_type = "limitless") then Ok LIMITLESS
  else Fail (ELog "Unsupported Directory Type").

End DirectoryType.

(** ** Dynamic dispatch on the scheme *)
Module Tracker.

Inductive Tracker : Type :=
  | FullMap (t : FullMap.FullMap)
  | LimitedNoBroadcast (t : LimitedNoBroadcast.LimitedNoBroadcast)
  | LimitedBroadcast (t : LimitedBroadcast.LimitedBroadcast)
  | Ackwise (t : Ackwise.Ackwise)
  | Limitless (t : Limitless.Limitless).

Definition map_res {A B C} (f : B → C) (r : res (A * B)) : res (A * C) :=
  x ← r ; Ok (x.1, f x.2).

#[global] Instance tracker : SharerTracker Tracker := {|
  hasSharer t x :=
    match t with
    | FullMap t => hasSharer t x
    | LimitedNoBroadcast t => hasSharer t x
    | LimitedBroadcast t => hasSharer t x
    | Ackwise t => hasSharer t x
    | Limitless t => hasSharer t x
    end;
  addSharer t x :=
    match t with
    | FullMap t => map_res FullMap (addSharer t x)
    | LimitedNoBroadcast t => map_res LimitedNoBroadcast (addSharer t x)
    | LimitedBroadcast t => map_res LimitedBroadcast (addSharer t x)
    | Ackwise t => map_res Ackwise (addSharer t x)
    | Limitless t => map_res Limitless (addSharer t x)
    end;
  removeSharer t x reply_expected :=
    match t with
    | FullMap t => r ← removeSharer t x reply_expected ; Ok (FullMap r)
    | LimitedNoBroadcast t => r ← removeSharer t x reply_expected ; Ok (LimitedNoBroadcast r)
    | LimitedBroadcast t => r ← removeSharer t x reply_expected ; Ok (LimitedBroadcast r)
    | Ackwise t => r ← removeSharer t x reply_expected ; Ok (Ackwise r)
    | Limitless t => r ← removeSharer t x reply_expected ; Ok (Limitless r)
    end;
  inBroadcastMode t :=
    match t with
    | FullMap t => inBroadcastMode t
    | LimitedNoBroadcast t => inBroadcastMode t
    | LimitedBroadcast t => inBroadcastMode t
    | Ackwise t => inBroadcastMode t
    | Limitless t => inBroadcastMode t
    end;
  getSharersList t :=
    match t with
    | FullMap t => map_res FullMap (getSharersList t)
    | LimitedNoBroadcast t => map_res LimitedNoBroadcast (getSharersList t)
    | LimitedBroadcast t => map_res LimitedBroadcast (getSharersList t)
    | Ackwise t => map_res Ackwise (getSharersList t)
    | Limitless t => map_res Limitless (getSharersList t)
    end;
  getOneSharer t :=
    match t with
    | FullMap t => map_res FullMap (getOneSharer t)
    | LimitedNoBroadcast t => map_res LimitedNoBroadcast (getOneSharer t)
    | LimitedBroadcast t => map_res LimitedBroadcast (getOneSharer t)
    | Ackwise t => map_res Ackwise (getOneSharer t)
    | Limitless t => map_res Limitless (getOneSharer t)
    end;
  getNumSharers t :=
    match t with
    | FullMap t => getNumSharers t
    | LimitedNoBroadcast t => getNumSharers t
    | LimitedBroadcast t => getNumSharers t
    | Ackwise t => getNumSharers t
    | Limitless t => getNumSharers t
    end;
  getLatency t :=
    match t with
    | FullMap t => getLatency t
    | LimitedNoBroadcast t => getLatency t
    | LimitedBroadcast t => getLatency t
    | Ackwise t => getLatency t
    | Limitless t => getLatency t
    end
|}.

(** The configuration a tracker is built from: the scheme's hardware slots,
    the number of tiles, and the LimitLESS trap penalty. *)
Record Params := mkParams {
  directory_type : DirectoryType.DirectoryType;
  max_hw_sharers : Z;
  max_num_sharers : Z;
  total_tiles : Z;
  software_trap_penalty : Z
}.

(** [DirectoryEntry::create]. *)
Definition create (p : Params) : Tracker :=
  match directory_type p with
  | DirectoryType.FULL_MAP => FullMap (FullMap.make (max_num_sharers p))
  | DirectoryType.LIMITED_NO_BROADCAST =>
    LimitedNoBroadcast (LimitedNoBroadcast.make (max_hw_sharers p))
  | DirectoryType.LIMITED_BROADCAST =>
    LimitedBroadcast (LimitedBroadcast.make (max_hw_sharers p) (total_tiles p))
  | DirectoryType.ACKWISE => Ackwise (Ackwise.make (max_hw_sharers p))
  | DirectoryType.LIMITLESS =>
    Limitless (Limitless.make (max_hw_sharers p) (max_num_sharers p) (software_trap_penalty p))
  end.

(** [DirectoryEntry::getSize]: bits of an entry. *)
Definition getSize (p : Params) : Z :=
  match directory_type p with
  | DirectoryType.FULL_MAP => u32 (max_num_sharers p)
  | _ => u32 (max_hw_sharers p * Utils.ceilLog2 (u32 (max_num_sharers p)))
  end.

(** The contract of the schemes, by dispatch.  Limited with broadcast is left
    out: it does not maintain a set (the MSI memory manager refuses it). *)
Definition tracker_tracks (n : Z) (t : Tracker) (S : gset Z) : Prop :=
  match t with
  | FullMap t => tracks n t S
  | LimitedNoBroadcast t => tracks n t S
  | LimitedBroadcast _ => False
  | Ackwise t => tracks n t S
  | Limitless t => tracks n t S
  end.

Lemma map_res_Ok {A B C} (f : B → C) (r : res (A * B)) a b :
  r = Ok (a, b) → map_res f r = Ok (a, f b).
Proof. by intros ->. Qed.

#[global] Instance Tracker_spec : SharerTrackerSpec Tracker.
Proof.
  unshelve econstructor; [exact tracker_tracks|..].
  - intros n [t|t|t|t|t] S x; try exact (tracks_range n t S x). intros [].
  - intros n [t|t|t|t|t] S x; try exact (has_ok n t S x). intros [].
  - intros n [t|t|t|t|t] S x Ht Hx Hn; try done;
      destruct (add_ok n t S x Ht Hx Hn) as (added & t' & Ha & Ht');
      exists added; eexists; (split; [exact (map_res_Ok _ _ _ _ Ha)|]; by destruct added).
  - intros n [t|t|t|t|t] S x Ht Hx; try done;
      destruct (remove_ok n t S x Ht Hx) as (t' & Hr & Ht'); eexists;
      (split; [apply res_bind_Ok; exists t'; split; [exact Hr|done]|exact Ht']).
  - intros n [t|t|t|t|t] S; try exact (num_ok n t S). intros [].
  - intros n [t|t|t|t|t] S Ht; try done;
      destruct (list_ok n t S Ht) as (all & l & t' & Hl & Hrest);
      exists all, l; eexists; (split; [exact (map_res_Ok _ _ _ _ Hl)|exact Hrest]).
  - intros n [t|t|t|t|t] S Ht HS; try done;
      destruct (one_ok n t S Ht HS) as (x & t' & Ho & Hrest);
      exists x; eexists; (split; [exact (map_res_Ok _ _ _ _ Ho)|exact Hrest]).
Defined.

(** Parameters under which a fresh tracker stands for the empty set. *)
Definition good_params (p : Params) : Prop :=
  directory_type p ≠ DirectoryType.LIMITED_BROADCAST ∧
  0 < max_hw_sharers p ∧ 0 ≤ max_num_sharers p ≤ 32768.

Lemma create_tracks p : good_params p → tracks (max_num_sharers p) (create p) ∅.
Proof.
  intros (Ht & Hh & Hn). unfold create. destruct (directory_type p); cbn.
  - apply FullMap_make. lia.
  - apply lim_make; lia.
  - done.
  - exists ∅. split; cbn; [apply lim_make; lia|done|set_solver|done..].
  - split; cbn; [done|done|]. apply lim_make; lia.
Qed.

(** The uses of a tracker by a controller: a fresh one, additions of tiles that
    are not sharers, removals of sharers, and the two queries that change the
    state of the tracker; with the set of sharers. *)
Inductive reach (p : Params) : Tracker → gset Z → Prop :=
  | reach_create : reach p (create p) ∅
  | reach_add t S x added t' :
      reach p t S → tile_in (max_num_sharers p) x → x ∉ S → addSharer t x = Ok (added, t') →
      reach p t' (if added then {[x]} ∪ S else S)
  | reach_remove t S x t' :
      reach p t S → x ∈ S → removeSharer t x false = Ok t' → reach p t' (S ∖ {[x]})
  | reach_list t S all l t' :
      reach p t S → getSharersList t = Ok (all, l, t') → reach p t' S
  | reach_one t S x t' :
      reach p t S → S ≠ ∅ → getOneSharer t = Ok (x, t') → reach p t' S.

Lemma reach_tracks p t S : good_params p → reach p t S → tracks (max_num_sharers p) t S.
Proof.
  intros Hp. induction 1 as [|t S x added t' _ IH Hx Hn Hr|t S x t' _ IH Hx Hr|t S all l t' _ IH Hr|
    t S x t' _ IH HS Hr].
  - by apply create_tracks.
  - destruct (add_ok _ _ _ _ IH Hx Hn) as (? & ? & Hr' & ? & _). rewrite Hr in Hr'. by simplify_eq.
  - destruct (remove_ok _ _ _ _ IH Hx) as (? & Hr' & ?). rewrite Hr in Hr'. by simplify_eq.
  - destruct (list_ok _ _ _ IH) as (? & ? & ? & Hr' & ? & _). rewrite Hr in Hr'. by simplify_eq.
  - destruct (one_ok _ _ _ IH HS) as (? & ? & Hr' & ? & _). rewrite Hr in Hr'. by simplify_eq.
Qed.

End Tracker.

(** ** Directory entries *)
Module DirectoryEntry.

(** [_dstate] is the member of the entry's [DirectoryBlockInfo]. *)
Record DirectoryEntry := mkDirectoryEntry {
  _address : Z;
  _dstate : DirectoryState.Type_;
  _owner_id : Z;
  _utilization_vec : list Z;
  _tracker : Tracker.Tracker
}.
#[global] Instance eta_DirectoryEntry : Eta DirectoryEntry := λ e,
  mkDirectoryEntry (_address e) (_dstate e) (_owner_id e) (_utilization_vec e) (_tracker e).

Definition create (p : Tracker.Params) : DirectoryEntry :=
  mkDirectoryEntry INVALID_ADDRESS DirectoryState.UNCACHED INVALID_TILE_ID [] (Tracker.create p).

Definition getAddress (e : DirectoryEntry) : Z := _address e.
Definition setAddress (address : Z) (e : DirectoryEntry) : DirectoryEntry :=
  e <| _address := address |>.

Definition getDState (e : DirectoryEntry) : DirectoryState.Type_ := _dstate e.
Definition setDState (dstate : DirectoryState.Type_) (e : DirectoryEntry) : DirectoryEntry :=
  e <| _dstate := dstate |>.

Definition getOwner (e : DirectoryEntry) : Z := _owner_id e.
Definition setOwner (e : DirectoryEntry) (owner_id : Z) : res DirectoryEntry :=
  (if negb (owner_id =? INVALID_TILE_ID) then
     present ← hasSharer (_tracker e) owner_id ;
     check present (ELog "Owner Id not a sharer")
   else Ok tt) ;;
  Ok (e <| _owner_id := owner_id |>).

Definition setUtilization (utilization : Z) (e : DirectoryEntry) : DirectoryEntry :=
  e <| _utilization_vec := _utilization_vec e ++ [utilization] |>.
Definition getUtilizationVec (e : DirectoryEntry) : list Z := _utilization_vec e.
Definition resetUtilizationVec (e : DirectoryEntry) : DirectoryEntry :=
  e <| _utilization_vec := [] |>.

(** The virtual calls of the controllers on an entry. *)
Definition entry_addSharer (e : DirectoryEntry) (x : Z) : res (bool * DirectoryEntry) :=
  r ← addSharer (_tracker e) x ; Ok (r.1, e <| _tracker := r.2 |>).
Definition entry_removeSharer (e : DirectoryEntry) (x : Z) (reply_expected : bool)
    : res DirectoryEntry :=
  t ← removeSharer (_tracker e) x reply_expected ; Ok (e <| _tracker := t |>).
Definition entry_getSharersList (e : DirectoryEntry) : res (bool * list Z * DirectoryEntry) :=
  r ← getSharersList (_tracker e) ; Ok (r.1, e <| _tracker := r.2 |>).
Definition entry_getOneSharer (e : DirectoryEntry) : res (Z * DirectoryEntry) :=
  r ← getOneSharer (_tracker e) ; Ok (r.1, e <| _tracker := r.2 |>).

(** Setting an owner succeeds for a sharer and fails for a tile that a tracker
    outside broadcast mode does not hold. *)
Lemma setOwner_spec n e S x :
  tracks n (_tracker e) S → tile_in n x → inBroadcastMode (_tracker e) = false →
  setOwner e x = if bool_decide (x ∈ S) then Ok (e <| _owner_id := x |>)
                 else Fail (ELog "Owner Id not a sharer").
Proof.
  intros Ht Hx Hb. unfold setOwner.
  rewrite (proj2 (Z.eqb_neq _ _)) by (unfold tile_in, INVALID_TILE_ID in *; lia).
  destruct (has_ok n _ S x Ht Hx) as (b & -> & _ & Hh). rewrite (Hh Hb).
  by case_bool_decide.
Qed.

Lemma setOwner_none e : setOwner e INVALID_TILE_ID = Ok (e <| _owner_id := INVALID_TILE_ID |>).
Proof. done. Qed.

End DirectoryEntry.

(** ** The directory's sharer statistics *)
Module DirectoryStats.

(** [_sharer_count_vec[k]]: the number of entries with [k] sharers. *)
Definition initializeSharerStats (total_tiles : Z) : list Z :=
  replicate (Z.to_nat (total_tiles + 1)) 0.

(** [Directory::updateSharerStats]; the second assertion tests
    [old_sharer_count] again, as the source does. *)
Definition updateSharerStats (total_tiles : Z) (v : list Z)
    (old_sharer_count new_sharer_count : Z) : res (list Z) :=
  check ((old_sharer_count >=? 0) && (old_sharer_count <? total_tiles))
        (EAssert "Directory::updateSharerStats") ;;
  check ((new_sharer_count >=? 0) && (old_sharer_count <? total_tiles))
        (EAssert "Directory::updateSharerStats") ;;
  v ← (if old_sharer_count >? 0 then
         c ← vget "_sharer_count_vec" v old_sharer_count ;
         check (c >? 0) (EAssert "Directory::updateSharerStats") ;;
         vset "_sharer_count_vec" v old_sharer_count (u64 (c - 1))
       else Ok v) ;
  if new_sharer_count >? 0 then
    c ← vget "_sharer_count_vec" v new_sharer_count ;
    vset "_sharer_count_vec" v new_sharer_count (u64 (c + 1))
  else Ok v.

(** The histogram of a list of per-entry sharer counts: slot [k > 0] counts
    the entries with [k] sharers; slot 0 is not maintained. *)
Definition slots (v : list Z) (f : Z → Z) : Prop :=
  ∀ k c, 0 < k → zlookup v k = Some c → c = f k.
Definition entries_with (counts : list Z) (k : Z) : Z := zlength (filter (λ x, x = k) counts).
Definition histogram (v : list Z) (counts : list Z) : Prop := slots v (entries_with counts).

Lemma count_insert (counts : list Z) i old new k :
  counts !! i = Some old →
  entries_with (<[i := new]> counts) k =
  entries_with counts k - (if old =? k then 1 else 0) + (if new =? k then 1 else 0).
Proof.
  intros Hi. unfold entries_with. rewrite <- (take_drop_middle counts i old Hi) at 2.
  rewrite insert_take_drop by (by eapply lookup_lt_Some).
  unfold zlength. rewrite !filter_app, !filter_cons, !length_app.
  destruct (Z.eqb_spec old k), (Z.eqb_spec new k); repeat case_decide;
    rewrite ?length_cons; (done || lia).
Qed.

Lemma slots_update v f j d :
  slots v f → slots (zinsert j (f j + d) v) (λ k, f k + (if j =? k then d else 0)).
Proof.
  intros Hv k c Hk Hc. destruct (Z.eqb_spec j k) as [->|Hne].
  - destruct (decide (0 ≤ k < zlength v)) as [Hr|Hr].
    + rewrite zlookup_zinsert_eq in Hc by done. by simplify_eq.
    + apply zlookup_Some in Hc as [Hc _]. rewrite zlength_zinsert in Hc. lia.
  - rewrite zlookup_zinsert_ne in Hc by done. rewrite Z.add_0_r. by apply Hv.
Qed.

Lemma slots_ext v f g : (∀ k, f k = g k) → slots v f → slots v g.
Proof. intros H Hv k c Hk Hc. rewrite <- H. by apply Hv. Qed.

(** Updating the statistics when the count of entry [i] changes keeps the
    histogram, provided the old count is below the number of tiles (the
    assertion is strict). *)
Lemma updateSharerStats_histogram total v counts i old new :
  histogram v counts → counts !! i = Some old → 0 ≤ old < total → 0 ≤ new ≤ total →
  zlength v = total + 1 → zlength counts < 2 ^ 63 →
  ∃ v', updateSharerStats total v old new = Ok v' ∧ histogram v' (<[i := new]> counts) ∧
        zlength v' = zlength v.
Proof.
  intros Hh Hi Hold Hnew Hlen Hsmall. unfold updateSharerStats.
  rewrite !Z.geb_leb, !Z.gtb_ltb, !(proj2 (Z.leb_le _ _)), (proj2 (Z.ltb_lt old total)) by lia. cbn.
  set (f := entries_with counts) in *.
  assert (∀ k, 0 ≤ f k < 2 ^ 63) as Hrange.
  { intros k. subst f. unfold entries_with.
    pose proof (length_filter (λ x, x = k) counts). unfold zlength in *. lia. }
  assert (1 ≤ f old) as Hpos.
  { subst f. unfold entries_with.
    assert (old ∈ filter (λ x, x = old) counts) as Hin.
    { apply list_elem_of_filter. split; [done|]. by eapply list_elem_of_lookup_2. }
    unfold zlength. destruct (filter _ counts); [by inversion Hin|]. cbn. lia. }
  set (v1 := if 0 <? old then zinsert old (f old + -1) v else v).
  assert (zlength v1 = zlength v) as Hl1.
  { subst v1. case_match; [apply zlength_zinsert|done]. }
  assert (slots v1 (λ k, f k + (if old =? k then -1 else 0))) as Hv1.
  { subst v1. destruct (Z.ltb_spec 0 old); [by apply slots_update|].
    intros k c Hk Hc. rewrite (proj2 (Z.eqb_neq old k)), Z.add_0_r by lia. by apply Hh. }
  replace (if 0 <? old then _ else Ok v) with (Ok v1).
  2: { subst v1. destruct (Z.ltb_spec 0 old) as [Ho|]; [|done].
       destruct (zlookup_is_Some v old) as [c Hc]; [lia|]. unfold vget. rewrite Hc. cbn.
       pose proof (Hh old c Ho Hc) as ->. fold f.
       rewrite Z.gtb_ltb, (proj2 (Z.ltb_lt 0 (f old))) by lia. cbn. symmetry.
       apply vset_Ok. split; [lia|]. pose proof (Hrange old). rewrite u64_small by lia. done. }
  cbn. set (g := λ k, f k + (if old =? k then -1 else 0)) in *.
  destruct (Z.ltb_spec 0 new) as [Hn0|Hn0].
  - destruct (zlookup_is_Some v1 new) as [c Hc]; [lia|]. unfold vget. rewrite Hc. cbn.
    rewrite (Hv1 new c Hn0 Hc).
    assert (0 ≤ g new < 2 ^ 63) as Hg.
    { subst g. cbn. pose proof (Hrange new). destruct (Z.eqb_spec old new) as [<-|]; lia. }
    exists (zinsert new (g new + 1) v1). split.
    { apply vset_Ok. split; [lia|]. rewrite u64_small by lia. done. }
    split; [|by rewrite zlength_zinsert].
    eapply slots_ext; [|by apply slots_update]. intros k. cbn.
    rewrite (count_insert counts i old) by done. subst g f. cbn. repeat case_match; lia.
  - exists v1. split; [done|]. split; [|done]. intros k c Hk Hc.
    rewrite (Hv1 k c Hk Hc), (count_insert counts i old) by done. subst g f. cbn.
    rewrite (proj2 (Z.eqb_neq new k)) by lia. case_match; lia.
Qed.

End DirectoryStats.
