(* ===== verification/BaseTheorems.v ===== *)
(** * BaseTheorems: the properties of the utilities and of the directory schemes

    What Utils.v, BitVector.v, SharerTracking.v and DirectoryEntry.v promise to
    the rest of the simulator, each with an instance at concrete values. *)
From S2P Require Import Prelude Utils BitVector SharerTracking DirectoryEntry.

(** For every 32-bit [n], [floorLog2] returns the integer logarithm of a
    positive [n] and [ceilLog2] the least [k] with [n <= 2^k] for [n > 1];
    [isPower2] accepts the powers of two. *)
Lemma log2_correct n :
  0 < n < 2 ^ 32 →
  2 ^ Utils.floorLog2 n ≤ n < 2 ^ (Utils.floorLog2 n + 1) ∧
  (1 < n → 2 ^ (Utils.ceilLog2 n - 1) < n ≤ 2 ^ Utils.ceilLog2 n) ∧
  (n = 2 ^ Utils.floorLog2 n → Utils.isPower2 n = true).
Proof.
  intros Hn. rewrite Utils.floorLog2_spec by done. split_and!; [apply Z.log2_spec; lia|..].
  { pose proof (Z.log2_spec n). lia. }
  - intros H1. rewrite Utils.ceilLog2_spec by lia. pose proof (Z.log2_up_spec n).
    rewrite Z.sub_1_r. lia.
  - intros E. rewrite E. apply Utils.isPower2_spec. split; [apply Z.log2_nonneg|].
    apply Z.log2_lt_pow2; lia.
Qed.
Lemma log2_correct_witness : 0 < 4096 < 2 ^ 32 ∧
  2 ^ Utils.floorLog2 4096 ≤ 4096 < 2 ^ (Utils.floorLog2 4096 + 1) ∧
  (1 < 4096 → 2 ^ (Utils.ceilLog2 4096 - 1) < 4096 ≤ 2 ^ Utils.ceilLog2 4096) ∧
  (4096 = 2 ^ Utils.floorLog2 4096 → Utils.isPower2 4096 = true).
Proof. split; [lia|]. apply (log2_correct 4096). lia. Defined.

(** Adding an offset to a ring counter keeps it below its modulus and
    subtracting the same offset gives the counter back, for every modulus up to
    2^31 and every 32-bit offset. *)
Lemma ring_counter_roundtrip a k :
  ModuloNum.wf a → 0 ≤ k < 2 ^ 32 →
  ∃ b, ModuloNum.add_int a k = Ok b ∧ ModuloNum.wf b ∧ ModuloNum.sub_int b k = Ok a.
Proof.
  intros Ha Hk. destruct (ModuloNum.add_sub a k Ha Hk) as (b & H1 & H2 & _ & H3). eauto.
Qed.
Lemma ring_counter_roundtrip_witness :
  ∃ b, ModuloNum.add_int (ModuloNum.mkModuloNum 5 7) 100 = Ok b ∧ ModuloNum.wf b ∧
       ModuloNum.sub_int b 100 = Ok (ModuloNum.mkModuloNum 5 7).
Proof. apply (ring_counter_roundtrip (ModuloNum.mkModuloNum 5 7) 100); [split; cbn; lia|lia]. Defined.

(** The word-, half-word- and byte-wise search of [BitVector::find] is
    equivalent to the reference search bit by bit: it returns the first set
    position after the last one found, or -1, and remembers it. *)
Lemma find_equivalent b :
  BitVector.wf b →
  let next := head (filter (λ p, BitVector.m_last_pos b < p ∧
                                 BitVector.bit_at (BitVector.m_words b) p = true)
                      (seqZ 0 (BitVector.m_capacity b))) in
  BitVector.find b = Ok (default (-1) next, b <| BitVector.m_last_pos := default (-1) next |>).
Proof.
  intros Hwf next. rewrite BitVector.find_spec by done.
  replace (BitVector.next_pos b) with next; [done|]. unfold next, BitVector.next_pos, BitVector.positions.
  f_equal. rewrite list_filter_filter. apply list_filter_iff. intros p. tauto.
Qed.
Lemma find_equivalent_witness :
  ∃ b, BitVector.wf b ∧ BitVector.bits b = {[70]} ∪ ∅ ∧
       BitVector.find b = Ok (70, b <| BitVector.m_last_pos := 70 |>).
Proof.
  destruct (BitVector.make_wf 100) as [Hwf Hbits]; [lia|].
  destruct (BitVector.set_spec (BitVector.make 100) 70 Hwf) as (b & Hset & Hwf' & Hb & _); [done|].
  exists b. split; [done|]. split; [by rewrite Hb, Hbits|]. pose proof (find_equivalent b Hwf') as Hf.
  vm_compute in Hset. injection Hset as <-. cbv zeta in Hf. rewrite Hf. by vm_compute.
Defined.

(** The bit vector implements a finite set of positions below its
    capacity: [set] adds, [clear] removes, [at] tests, the size is the number of
    elements, and a position beyond the capacity is refused. *)
Lemma bitvector_is_set b bit :
  BitVector.wf b → 0 ≤ bit →
  if bit <? BitVector.m_capacity b then
    BitVector.at_ b bit = Ok (bool_decide (bit ∈ BitVector.bits b)) ∧
    (∃ b', BitVector.set b bit = Ok b' ∧ BitVector.wf b' ∧
           BitVector.bits b' = {[bit]} ∪ BitVector.bits b ∧
           BitVector.size b' = Z.of_nat (size ({[bit]} ∪ BitVector.bits b))) ∧
    (∃ b', BitVector.clear b bit = Ok b' ∧ BitVector.wf b' ∧
           BitVector.bits b' = BitVector.bits b ∖ {[bit]} ∧
           BitVector.size b' = Z.of_nat (size (BitVector.bits b ∖ {[bit]})))
  else BitVector.at_ b bit = Fail (EAssert "BitVector::at") ∧
       BitVector.set b bit = Fail (EAssert "BitVector::set") ∧
       BitVector.clear b bit = Fail (EAssert "BitVector::clear").
Proof.
  intros Hwf H0. destruct (Z.ltb_spec bit (BitVector.m_capacity b)) as [Hlt|Hge];
    [|by apply BitVector.out_of_range].
  split; [by apply BitVector.at_spec|]. split.
  - destruct (BitVector.set_spec b bit Hwf) as (b' & H1 & H2 & H3 & _); [lia|].
    exists b'. unfold BitVector.size. rewrite (BitVector.wf_size_bits b' H2), H3. done.
  - destruct (BitVector.clear_spec b bit Hwf) as (b' & H1 & H2 & H3 & _); [lia|].
    exists b'. unfold BitVector.size. rewrite (BitVector.wf_size_bits b' H2), H3. done.
Qed.
Lemma bitvector_is_set_witness :
  ∃ b', BitVector.set (BitVector.make 100) 70 = Ok b' ∧ BitVector.size b' = 1.
Proof.
  destruct (BitVector.make_wf 100) as [Hwf Hb]; [lia|].
  pose proof (bitvector_is_set (BitVector.make 100) 70 Hwf ltac:(lia)) as H. cbn in H.
  destruct H as (_ & (b' & H1 & _ & _ & H2) & _). exists b'. split; [exact H1|].
  rewrite H2, Hb. by vm_compute.
Defined.

(** C38: Every directory scheme of the MSI protocol (full map, limited without
    broadcast, ACKwise, LimitLESS) implements a set of sharers: after any
    sequence of the controllers' operations no operation on a legal tile aborts,
    the number of sharers is the size of the set, and outside broadcast mode
    membership and the list of sharers are exact; in broadcast mode the list is
    announced as incomplete. *)
Theorem schemes_refine_set p t S :
  Tracker.good_params p → Tracker.reach p t S →
  getNumSharers t = Ok (Z.of_nat (size S)) ∧
  (∀ x, tile_in (Tracker.max_num_sharers p) x → x ∉ S → is_Ok (addSharer t x)) ∧
  (∀ x, x ∈ S → is_Ok (removeSharer t x false)) ∧
  (∀ x, tile_in (Tracker.max_num_sharers p) x → inBroadcastMode t = false →
        hasSharer t x = Ok (bool_decide (x ∈ S))) ∧
  (∃ all l t', getSharersList t = Ok (all, l, t') ∧ NoDup l ∧ list_to_set l ⊆ S ∧
               (inBroadcastMode t = false → list_to_set l = S) ∧
               (inBroadcastMode t = true → all = true)) ∧
  (S ≠ ∅ → ∃ x t', getOneSharer t = Ok (x, t') ∧
                   (x ∈ S ∨ inBroadcastMode t = true ∧ x = INVALID_TILE_ID)).
Proof.
  intros Hp Hr. pose proof (Tracker.reach_tracks p t S Hp Hr) as Ht. split_and!.
  - by eapply num_ok.
  - intros x Hx Hn. destruct (add_ok _ _ _ _ Ht Hx Hn) as (? & ? & -> & _). by eexists.
  - intros x Hx. destruct (remove_ok _ _ _ _ Ht Hx) as (? & -> & _). by eexists.
  - intros x Hx Hb. destruct (has_ok _ _ _ _ Ht Hx) as (? & -> & _ & ->); done.
  - destruct (list_ok _ _ _ Ht) as (all & l & t' & H1 & _ & H2 & H3 & H4 & H5). eauto 10.
  - intros HS. destruct (one_ok _ _ _ Ht HS) as (x & t' & H1 & _ & H2). eauto.
Qed.
Lemma schemes_refine_set_witness :
  let p := Tracker.mkParams DirectoryType.LIMITLESS 1 4 4 200 in
  ∃ t, Tracker.reach p t ({[3]} ∪ ({[1]} ∪ ∅)) ∧ getNumSharers t = Ok 2.
Proof.
  intros p.
  set (add x t := match addSharer t x with Ok (_, t') => t' | Fail _ => t end).
  set (t1 := add 1 (Tracker.create p)). set (t2 := add 3 t1). exists t2.
  assert (Tracker.reach p t2 ({[3]} ∪ ({[1]} ∪ ∅))) as Hr.
  { apply (Tracker.reach_add p t1 ({[1]} ∪ ∅) 3 true t2);
      [apply (Tracker.reach_add p (Tracker.create p) ∅ 1 true t1); [constructor|..]|..];
      try (by vm_compute); try (unfold tile_in; cbn; lia); set_solver by lia. }
  split; [exact Hr|].
  destruct (schemes_refine_set p t2 _ ltac:(split; [done|cbn; lia]) Hr) as [Hn _]. exact Hn.
Defined.

(** Limited directories with broadcast count acknowledgements: when the
    acknowledgements that were counted have arrived, in any order, the entry
    leaves broadcast mode with no sharers; an eviction in between changes
    neither the mode nor the number of sharers. *)
Lemma broadcast_acknowledged n xs t T y :
  bcast n (zlength xs) t T → xs ≠ [] → zlength xs < 2 ^ 32 → NoDup xs →
  (∀ x, x ∈ xs → tile_in n x) → T ⊆ list_to_set xs → tile_in n y →
  (∃ t', acknowledge t xs = Ok t' ∧ LimitedBroadcast.inBroadcastMode t' = false ∧
         LimitedBroadcast.getNumSharers t' = 0) ∧
  (∃ t', LimitedBroadcast.removeSharer t y false = Ok t' ∧
         LimitedBroadcast.inBroadcastMode t' = true ∧
         LimitedBroadcast.getNumSharers t' = LimitedBroadcast.getNumSharers t).
Proof.
  intros Ht Hne Hl Hd Hx HT Hy. split.
  - destruct (lb_acknowledge n xs t T) as (t' & H1 & H2 & H3 & _); eauto.
  - destruct (lb_eviction_keeps n _ t T y Ht Hy) as (t' & H1 & H2 & H3). exists t'.
    split; [done|]. split; [apply H2|done].
Qed.
Lemma broadcast_acknowledged_witness :
  ∃ t t', addSharer (LimitedBroadcast.make 1 4) 2 = Ok (true, t) ∧
    addSharer t 0 = Ok (true, t') ∧
    (∃ t'', acknowledge t' [2; 0; 1; 3] = Ok t'' ∧ LimitedBroadcast.inBroadcastMode t'' = false ∧
            LimitedBroadcast.getNumSharers t'' = 0).
Proof.
  set (add x t := match LimitedBroadcast.addSharer t x with Ok (_, t') => t' | Fail _ => t end).
  set (t1 := add 2 (LimitedBroadcast.make 1 4)). set (t2 := add 0 t1). exists t1, t2.
  split; [by vm_compute|]. split; [by vm_compute|].
  eapply (broadcast_acknowledged 4 [2; 0; 1; 3] t2 {[2]} 1); try done.
  - split; [|by vm_compute..]. split; try by vm_compute.
    + apply NoDup_singleton.
    + intros x Hx%elem_of_singleton. subst. unfold tile_in. lia.
  - repeat (apply NoDup_cons; split; [set_solver by lia|]). constructor.
  - intros x Hx. unfold tile_in. set_solver by lia.
  - cbn. set_solver.
Defined.

(** The directory's histogram of sharer counts stays equal to the
    histogram of the entries when the count of one entry changes from a value
    below the number of tiles; when all tiles share the line the update
    aborts. *)
Lemma sharer_histogram total v counts i old new :
  DirectoryStats.histogram v counts → counts !! i = Some old → 0 ≤ old ≤ total → 0 ≤ new ≤ total →
  zlength v = total + 1 → zlength counts < 2 ^ 63 →
  if old <? total then
    ∃ v', DirectoryStats.updateSharerStats total v old new = Ok v' ∧
          DirectoryStats.histogram v' (<[i := new]> counts)
  else DirectoryStats.updateSharerStats total v old new =
       Fail (EAssert "Directory::updateSharerStats").
Proof.
  intros Hh Hi Ho Hn Hl Hc. destruct (Z.ltb_spec old total) as [Hlt|Hge].
  - destruct (DirectoryStats.updateSharerStats_histogram total v counts i old new) as (v' & H1 & H2 & _);
      try done; [lia|]. eauto.
  - unfold DirectoryStats.updateSharerStats.
    by rewrite (proj2 (Z.ltb_ge old total)), !andb_false_r by lia.
Qed.
Lemma sharer_histogram_witness :
  ∃ v', DirectoryStats.updateSharerStats 2 (DirectoryStats.initializeSharerStats 2) 0 1 = Ok v' ∧
        DirectoryStats.histogram v' [1].
Proof.
  refine (sharer_histogram 2 (DirectoryStats.initializeSharerStats 2) [0] 0 0 1 _ _ _ _ _ _); try (done || lia).
  intros k c Hk Hc. apply zlookup_Some in Hc as [Hr Hc]. cbn in Hr.
  apply lookup_replicate in Hc as [-> _]. unfold DirectoryStats.entries_with. cbn.
  rewrite decide_False by lia. done.
Defined.
