(* ===== verification/CacheSet.v ===== *)
(** * CacheSet: cache lines, replacement policies and cache sets

    Models common/tile/memory_subsystem/cache/{cache_state,cache_line_info,
    cache_replacement_policy,lru_replacement_policy,
    round_robin_replacement_policy,cache_hash_fn,cache_set}.  The line
    information is a type class, since each protocol extends [CacheLineInfo];
    the least-recently-used policy is proved to refine a recency list. *)
From S2P Require Import Prelude Utils.

Module CacheState.

Inductive Type_ : Type :=
  | INVALID | SHARED | OWNED | EXCLUSIVE | MODIFIED | DATA_INVALID | CLEAN | DIRTY.
#[global] Instance Type_eq_dec : EqDecision Type_.
Proof. solve_decision. Defined.

(** The value of the enumerator, used as an index of the state counters. *)
Definition to_Z (s : Type_) : Z :=
  match s with
  | INVALID => 0 | SHARED => 1 | OWNED => 2 | EXCLUSIVE => 3
  | MODIFIED => 4 | DATA_INVALID => 5 | CLEAN => 6 | DIRTY => 7
  end.
Definition NUM_STATES : Z := 8.

Definition readable (s : Type_) : bool :=
  match s with MODIFIED | EXCLUSIVE | OWNED | SHARED => true | _ => false end.
Definition writable (s : Type_) : bool :=
  match s with MODIFIED | EXCLUSIVE => true | _ => false end.

End CacheState.

(** The tag of an invalid line, [~0]. *)
Definition INVALID_TAG : Z := u64 (-1).

(** ** Line information *)

(** What the cache uses of [CacheLineInfo] and its subclasses: [assign]
    copies every member, so it is the value itself. *)
Class CacheLineInfo (L : Type) := {
  fresh : L;
  getTag : L → Z;
  getCState : L → CacheState.Type_;
  setTag : Z → L → L;
  setCState : CacheState.Type_ → L → L;
  invalidate : L → L
}.

Definition isValid {L} `{CacheLineInfo L} (l : L) : bool := negb (getTag l =? INVALID_TAG).

(** The laws the cache's theorems rely on. *)
Class CacheLineInfoLaws (L : Type) `{CacheLineInfo L} := {
  fresh_tag : getTag fresh = INVALID_TAG;
  fresh_cstate : getCState fresh = CacheState.INVALID;
  invalidate_tag l : getTag (invalidate l) = INVALID_TAG;
  invalidate_cstate l : getCState (invalidate l) = CacheState.INVALID;
  getTag_setTag t l : getTag (setTag t l) = t;
  getCState_setTag t l : getCState (setTag t l) = getCState l;
  getTag_setCState s l : getTag (setCState s l) = getTag l;
  getCState_setCState s l : getCState (setCState s l) = s
}.

(** The base class: a tag and a state. *)
Module LineInfo.
Record LineInfo := mkLineInfo { _tag : Z; _cstate : CacheState.Type_ }.
#[global] Instance eta_LineInfo : Eta LineInfo := λ l, mkLineInfo (_tag l) (_cstate l).

#[global] Instance LineInfo_ops : CacheLineInfo LineInfo := {
  fresh := mkLineInfo INVALID_TAG CacheState.INVALID;
  getTag := _tag;
  getCState := _cstate;
  setTag t l := l <| _tag := t |>;
  setCState s l := l <| _cstate := s |>;
  invalidate l := mkLineInfo INVALID_TAG CacheState.INVALID
}.
#[global] Instance LineInfo_laws : CacheLineInfoLaws LineInfo.
Proof. by split. Qed.
End LineInfo.

(** ** Replacement policies *)
Module Replacement.

Inductive Type_ : Type := ROUND_ROBIN | LRU.

Definition parse (policy_str : string) : res Type_ :=
  if bool_decide (policy_str = "round_robin") then Ok ROUND_ROBIN
  else if bool_decide (policy_str = "lru") then Ok LRU
  else Fail (ELog "Unrecognized Cache Replacement Policy").

(** The state of a policy object: one replacement index or one vector of
    [UInt8] recency bits per set. *)
Inductive State : Type :=
  | RoundRobinState (_replacement_index_vec : list Z)
  | LRUState (_lru_bits_vec : list (list Z)).

Record Policy := mkPolicy {
  _num_sets : Z;
  _associativity : Z;
  _state : State
}.
#[global] Instance eta_Policy : Eta Policy := λ p,
  mkPolicy (_num_sets p) (_associativity p) (_state p).

(** [CacheReplacementPolicy]'s constructor: [cache_size] is in kilobytes. *)
Definition num_sets_of (cache_size associativity cache_line_size : Z) : Z :=
  u32 (cache_size * Utils.k_KILO) / u32 (cache_line_size * associativity).

Definition create (policy : Type_) (cache_size associativity cache_line_size : Z) : Policy :=
  let num_sets := num_sets_of cache_size associativity cache_line_size in
  mkPolicy num_sets associativity
    match policy with
    | ROUND_ROBIN =>
      RoundRobinState (replicate (Z.to_nat num_sets) (u32 (associativity - 1)))
    | LRU => LRUState (replicate (Z.to_nat num_sets) (u8 <$> seqZ 0 associativity))
    end.

(** The loop of [LRUReplacementPolicy::getReplacementWay] from way [i] on:
    the first invalid line, else the last line whose bits are the maximum. *)
Fixpoint lru_scan {L} `{CacheLineInfo L} (associativity : Z) (lines : list L) (lru_bits : list Z)
    (i way : Z) : Z :=
  match lines, lru_bits with
  | l :: lines, b :: lru_bits =>
    if negb (isValid l) then i
    else lru_scan associativity lines lru_bits (i + 1)
           (if b =? associativity - 1 then i else way)
  | _, _ => way
  end.

Definition lru_update (lru_bits : list Z) (accessed_way : Z) : res (list Z) :=
  a ← vget "lru_bits" lru_bits accessed_way ;
  vset "lru_bits" ((λ b, if b <? a then u8 (b + 1) else b) <$> lru_bits) accessed_way 0.

Definition getReplacementWay {L} `{CacheLineInfo L} (p : Policy) (lines : list L) (set_num : Z)
    : res (Z * Policy) :=
  match _state p with
  | RoundRobinState v =>
    check (set_num <? _num_sets p) (EAssert "RoundRobinReplacementPolicy") ;;
    curr ← vget "_replacement_index_vec" v set_num ;
    v' ← vset "_replacement_index_vec" v set_num
           (if curr =? 0 then u32 (_associativity p - 1) else curr - 1) ;
    Ok (curr, p <| _state := RoundRobinState v' |>)
  | LRUState v =>
    lru_bits ← vget "_lru_bits_vec" v set_num ;
    let way := lru_scan (_associativity p) lines lru_bits 0 (_associativity p) in
    check (way <? _associativity p) (ELog "Error Finding LRU bits") ;;
    Ok (way, p)
  end.

Definition update (p : Policy) (set_num accessed_way : Z) : res Policy :=
  match _state p with
  | RoundRobinState v => Ok p
  | LRUState v =>
    lru_bits ← vget "_lru_bits_vec" v set_num ;
    lru_bits' ← lru_update lru_bits accessed_way ;
    v' ← vset "_lru_bits_vec" v set_num lru_bits' ;
    Ok (p <| _state := LRUState v' |>)
  end.

(** *** Least recently used: refinement of a recency list *)

(** The recency bits of a set describe the list of its ways from the most to
    the least recently used one: a way's bits are its index in the list. *)
Record lru_rep (order bits : list Z) : Prop := {
  lru_perm : order ≡ₚ seqZ 0 (zlength bits);
  lru_width : zlength bits ≤ 256;
  lru_index i w : order !! i = Some w → zlookup bits w = Some (Z.of_nat i)
}.

(** The abstract policy: an access moves the way to the front, the victim is
    the last way. *)
Definition move_to_front (w : Z) (order : list Z) : list Z := w :: filter (λ v, v ≠ w) order.

Lemma lru_order_range order bits w : lru_rep order bits → w ∈ order ↔ 0 ≤ w < zlength bits.
Proof. intros []. rewrite lru_perm0, elem_of_seqZ. lia. Qed.

Lemma lru_nodup order bits : lru_rep order bits → NoDup order.
Proof. intros []. rewrite lru_perm0. apply NoDup_seqZ. Qed.

Lemma lru_length order bits : lru_rep order bits → zlength order = zlength bits.
Proof.
  intros []. unfold zlength at 1. rewrite lru_perm0, length_seqZ. unfold zlength. lia.
Qed.

Lemma lru_init n : 0 ≤ n ≤ 256 → lru_rep (seqZ 0 n) (u8 <$> seqZ 0 n).
Proof.
  intros Hn. assert (zlength (u8 <$> seqZ 0 n) = n) as Hl.
  { unfold zlength. rewrite length_fmap, length_seqZ. lia. }
  split; rewrite ?Hl; [done|lia|]. intros i w Hi. apply lookup_seqZ in Hi as [-> Hi].
  rewrite zlookup_nat by lia. rewrite Z.add_0_l, Nat2Z.id, list_lookup_fmap, lookup_seqZ_lt by lia.
  cbn. f_equal. rewrite Z.add_0_l. apply u8_small. lia.
Qed.

Lemma filter_ne_middle (w : Z) l1 l2 :
  NoDup (l1 ++ w :: l2) → filter (λ v, v ≠ w) (l1 ++ w :: l2) = l1 ++ l2.
Proof.
  intros Hd. rewrite <- Permutation_middle in Hd. apply NoDup_cons in Hd as [Hw _].
  rewrite filter_app, filter_cons_False by tauto.
  f_equal; apply filter_all; set_solver.
Qed.

(** The bits after an access are those of the list with the way in front. *)
Lemma lru_update_spec order bits w :
  lru_rep order bits → 0 ≤ w < zlength bits →
  ∃ bits', lru_update bits w = Ok bits' ∧ lru_rep (move_to_front w order) bits' ∧
           zlength bits' = zlength bits.
Proof.
  intros Hr Hw. pose proof (lru_length _ _ Hr) as Hlen. pose proof (lru_width _ _ Hr) as H256.
  pose proof Hw as Hin. rewrite <- (lru_order_range _ _ w Hr) in Hin.
  apply list_elem_of_split in Hin as (l1 & l2 & ->).
  pose proof (lru_nodup _ _ Hr) as Hd. unfold move_to_front. rewrite filter_ne_middle by done.
  pose proof (lru_index _ _ Hr (length l1) w (list_lookup_middle l1 l2 w _ eq_refl)) as Ha.
  unfold lru_update, vget. rewrite Ha. cbn.
  set (f := λ b, if b <? Z.of_nat (length l1) then u8 (b + 1) else b).
  assert (zlength (f <$> bits) = zlength bits) as Hfl by (unfold zlength; by rewrite length_fmap).
  exists (zinsert w 0 (f <$> bits)). split; [apply vset_Ok; by rewrite Hfl|].
  rewrite zlength_zinsert, Hfl. split; [|done].
  split; rewrite ?zlength_zinsert, ?Hfl; [|done|].
  { rewrite <- (lru_perm _ _ Hr). by rewrite <- Permutation_middle. }
  intros i v Hi.
  assert (∀ k u, (l1 ++ w :: l2) !! k = Some u → u ≠ w →
    zlookup (zinsert w 0 (f <$> bits)) u = Some (f (Z.of_nat k))) as Hget.
  { intros k u Hk Hne. rewrite zlookup_zinsert_ne by done.
    pose proof (lru_index _ _ Hr k u Hk) as Hb. apply zlookup_Some in Hb as [? Hb].
    rewrite zlookup_nat, list_lookup_fmap, Hb by lia. done. }
  assert (w ∉ l1 ++ l2) as Hnw.
  { rewrite <- Permutation_middle in Hd. by apply NoDup_cons in Hd as [? _]. }
  unfold zlength in Hlen, H256. rewrite length_app, length_cons in Hlen.
  destruct i as [|i].
  { injection Hi as <-. by rewrite zlookup_zinsert_eq by (rewrite Hfl; lia). }
  change ((l1 ++ l2) !! i = Some v) in Hi.
  assert (v ≠ w) as Hne by (intros ->; apply Hnw; by eapply list_elem_of_lookup_2).
  destruct (decide (i < length l1)%nat) as [Hlt|Hge].
  - rewrite lookup_app_l in Hi by done. rewrite (Hget i v) by (done || by rewrite lookup_app_l).
    unfold f. rewrite (proj2 (Z.ltb_lt _ _)), u8_small by lia. f_equal. lia.
  - rewrite lookup_app_r in Hi by lia.
    rewrite (Hget (S i) v); [|rewrite lookup_app_r by lia|done].
    + unfold f. rewrite (proj2 (Z.ltb_ge _ _)) by lia. done.
    + by replace (S i - length l1)%nat with (S (i - length l1)) by lia.
Qed.

Section victim.
Context {L : Type} `{CacheLineInfo L}.
Implicit Types (lines : list L).

(** An invalid line is chosen before any valid one. *)
Lemma lru_scan_invalid assoc lines bits i way k l :
  length lines = length bits →
  list_find (λ l, isValid l = false) lines = Some (k, l) →
  lru_scan assoc lines bits i way = i + Z.of_nat k.
Proof.
  revert bits i way k. induction lines as [|x lines IH]; intros bits i way k Hlen Hf; [done|].
  destruct bits as [|b bits]; [done|]. cbn in Hf |- *.
  case_decide as Hx; [simplify_eq; rewrite Hx; cbn; lia|].
  destruct (isValid x) eqn:Ex; [|done]. cbn.
  apply fmap_Some in Hf as ([k' l'] & Hf & Heq). cbn in Heq. simplify_eq.
  rewrite (IH bits _ _ k') by (done || cbn in Hlen; lia). lia.
Qed.

(** With every line valid, the line whose bits are the maximum. *)
Lemma lru_scan_valid assoc lines bits i way k :
  length lines = length bits → Forall (λ l, isValid l = true) lines → NoDup bits →
  bits !! k = Some (assoc - 1) →
  lru_scan assoc lines bits i way = i + Z.of_nat k.
Proof.
  revert bits i way k. induction lines as [|x lines IH]; intros bits i way k Hlen Hv Hd Hk.
  { destruct bits; [|done]. done. }
  destruct bits as [|b bits]; [done|]. apply Forall_cons in Hv as [Hx Hv].
  apply NoDup_cons in Hd as [Hb Hd]. cbn in Hlen |- *. rewrite Hx. cbn.
  destruct k as [|k]; cbn in Hk.
  - injection Hk as ->. rewrite Z.eqb_refl, Z.add_0_r.
    assert (∀ j, lru_scan assoc lines bits j i = i) as Hskip; [|apply Hskip].
    clear IH Hd. revert bits Hlen Hb. induction lines as [|y lines IHl]; intros bits Hlen Hb j;
      destruct bits as [|c bits]; try done.
    apply Forall_cons in Hv as [Hy Hv]. cbn in Hlen |- *. rewrite Hy. cbn.
    rewrite (proj2 (Z.eqb_neq c _)) by set_solver. apply IHl; [done|lia|set_solver].
  - rewrite (IH bits _ _ k) by (done || lia). lia.
Qed.

Lemma lru_bits_nodup order bits : lru_rep order bits → NoDup bits.
Proof.
  intros Hr. apply NoDup_alt. intros i j b Hi Hj.
  pose proof (lookup_lt_Some _ _ _ Hi) as Hli. pose proof (lookup_lt_Some _ _ _ Hj) as Hlj.
  assert (∀ w, (w < length bits)%nat → ∃ k, order !! k = Some (Z.of_nat w)) as Hall.
  { intros w Hw. apply list_elem_of_lookup. rewrite (lru_order_range order bits) by done.
    unfold zlength. lia. }
  destruct (Hall i Hli) as [ki Hki], (Hall j Hlj) as [kj Hkj].
  pose proof (lru_index _ _ Hr _ _ Hki) as H1. pose proof (lru_index _ _ Hr _ _ Hkj) as H2.
  rewrite zlookup_nat, Nat2Z.id in H1, H2 by lia.
  assert (ki = kj) as -> by (apply Nat2Z.inj; congruence).
  rewrite Hki in Hkj. apply Nat2Z.inj. congruence.
Qed.

(** The victim of a full set is the least recently used way. *)
Lemma lru_victim order bits lines w :
  lru_rep order bits → length lines = length bits →
  Forall (λ l, isValid l = true) lines → last order = Some w →
  lru_scan (zlength bits) lines bits 0 (zlength bits) = w.
Proof.
  intros Hr Hlen Hv Hl. pose proof (lru_length _ _ Hr) as Hlo.
  rewrite last_lookup in Hl. pose proof (lru_index _ _ Hr _ _ Hl) as Hb.
  apply zlookup_Some in Hb as [Hw Hb].
  rewrite (lru_scan_valid _ lines bits 0 _ (Z.to_nat w)); [lia|done|done|by eapply lru_bits_nodup|].
  rewrite Hb. f_equal. unfold zlength in *. lia.
Qed.
End victim.

(** *** Well-formed policies *)

Definition state_wf (p : Policy) : Prop :=
  match _state p with
  | RoundRobinState v =>
    zlength v = _num_sets p ∧ Forall (λ i, 0 ≤ i < _associativity p) v
  | LRUState v =>
    zlength v = _num_sets p ∧
    Forall (λ bits, zlength bits = _associativity p ∧ ∃ order, lru_rep order bits) v
  end.
Definition wf (p : Policy) : Prop := 0 < _associativity p < 2 ^ 32 ∧ state_wf p.

Definition same_geometry (p p' : Policy) : Prop :=
  _num_sets p' = _num_sets p ∧ _associativity p' = _associativity p.

Lemma create_wf t size assoc line :
  0 < assoc ≤ 256 → 0 ≤ num_sets_of size assoc line → wf (create t size assoc line).
Proof.
  intros Ha Hn. split; [cbn; lia|]. unfold state_wf, create. cbn.
  destruct t; cbn; unfold zlength at 1; rewrite length_replicate; (split; [lia|]);
    apply Forall_replicate.
  - rewrite u32_small by lia. lia.
  - split; [unfold zlength; rewrite length_fmap, length_seqZ; lia|].
    exists (seqZ 0 assoc). apply lru_init. lia.
Qed.

(** Choosing a way: it is in range and the policy stays well formed. *)
Lemma getReplacementWay_ok {L} `{CacheLineInfo L} p (lines : list L) set :
  wf p → 0 ≤ set < _num_sets p → zlength lines = _associativity p →
  ∃ w p', getReplacementWay p lines set = Ok (w, p') ∧ 0 ≤ w < _associativity p ∧
          wf p' ∧ same_geometry p p'.
Proof.
  intros [Ha Hs] Hset Hlen. unfold getReplacementWay, wf, state_wf in *.
  destruct p as [ns assoc [v|v]]; cbn in *; destruct Hs as [Hv Hall].
  - rewrite (proj2 (Z.ltb_lt _ _)) by lia. cbn.
    destruct (zlookup_is_Some v set) as [cur Hc]; [lia|]. unfold vget. rewrite Hc. cbn.
    apply zlookup_Some in Hc as [_ Hc]. pose proof (Forall_lookup_1 _ _ _ _ Hall Hc) as Hcur.
    cbn in Hcur. unfold vset. rewrite (proj2 (Z.leb_le _ _)), (proj2 (Z.ltb_lt _ _)) by lia. cbn.
    eexists _, _. split; [done|]. cbn. repeat (split; [lia || done|]).
    split; [|done]. split; [done|]. split; [by rewrite zlength_zinsert|].
    unfold zinsert. rewrite (proj2 (Z.leb_le _ _)) by lia. apply Forall_insert; [done|].
    destruct (Z.eqb_spec cur 0); [rewrite u32_small; lia|lia].
  - destruct (zlookup_is_Some v set) as [bits Hb]; [lia|]. unfold vget. rewrite Hb. cbn.
    apply zlookup_Some in Hb as [_ Hb]. pose proof (Forall_lookup_1 _ _ _ _ Hall Hb) as [Hbl [order Hr]].
    assert (length lines = length bits) as Hll by (unfold zlength in *; lia).
    assert (0 ≤ lru_scan assoc lines bits 0 assoc < assoc) as Hw.
    { destruct (list_find (λ l, isValid l = false) lines) as [[k l]|] eqn:Hf.
      - rewrite (lru_scan_invalid assoc lines bits 0 assoc k l) by done.
        apply list_find_Some in Hf as (Hk & _ & _). apply lookup_lt_Some in Hk.
        unfold zlength in *. lia.
      - apply list_find_None in Hf.
        destruct (last order) as [w|] eqn:Hlast.
        + assert (lru_scan assoc lines bits 0 assoc = w) as ->.
          { rewrite <- Hbl. apply (lru_victim order); [done|done| |done].
            eapply Forall_impl; [done|]. intros ? ?. by apply not_false_is_true. }
          rewrite last_lookup in Hlast. apply (lru_index _ _ Hr), zlookup_Some in Hlast. lia.
        + apply last_None in Hlast as ->. pose proof (lru_length _ _ Hr). unfold zlength in *. cbn in *. lia. }
    rewrite (proj2 (Z.ltb_lt _ _)) by lia. cbn. eexists _, _. split; [done|]. cbn.
    split; [lia|]. done.
Qed.

Lemma update_ok p set w :
  wf p → 0 ≤ set < _num_sets p → 0 ≤ w < _associativity p →
  ∃ p', update p set w = Ok p' ∧ wf p' ∧ same_geometry p p'.
Proof.
  intros [Ha Hs] Hset Hw. unfold update, wf, state_wf in *.
  destruct p as [ns assoc [v|v]]; cbn in *; destruct Hs as [Hv Hall].
  - eexists. split; [done|]. done.
  - destruct (zlookup_is_Some v set) as [bits Hb]; [lia|]. unfold vget. rewrite Hb. cbn.
    apply zlookup_Some in Hb as [_ Hb]. pose proof (Forall_lookup_1 _ _ _ _ Hall Hb) as [Hbl [order Hr]].
    destruct (lru_update_spec order bits w Hr) as (bits' & -> & Hr' & Hl'); [lia|]. cbn.
    unfold vset. rewrite (proj2 (Z.leb_le _ _)), (proj2 (Z.ltb_lt _ _)) by lia. cbn.
    eexists. split; [done|]. cbn. split; [|done]. split; [done|].
    split; [by rewrite zlength_zinsert|]. unfold zinsert. rewrite (proj2 (Z.leb_le _ _)) by lia.
    apply Forall_insert; [done|]. split; [congruence|]. eauto.
Qed.

(** *** Round robin *)

(** [k] successive choices of a victim in one set. *)
Fixpoint rr_run {L} `{CacheLineInfo L} (k : nat) (p : Policy) (lines : list L) (set : Z)
    : res (list Z) :=
  match k with
  | O => Ok []
  | S k => r ← getReplacementWay p lines set ; ws ← rr_run k r.2 lines set ; Ok (r.1 :: ws)
  end.

Lemma rr_run_spec {L} `{CacheLineInfo L} k p (lines : list L) set v cur :
  wf p → _state p = RoundRobinState v → 0 ≤ set < _num_sets p → zlookup v set = Some cur →
  rr_run k p lines set = Ok ((λ j, (cur - j) `mod` _associativity p) <$> seqZ 0 (Z.of_nat k)).
Proof.
  revert p v cur. induction k as [|k IH]; intros p v cur Hp Hst Hset Hcur; [done|].
  cbn [rr_run]. destruct Hp as [Ha Hs]. unfold state_wf in Hs. rewrite Hst in Hs.
  destruct Hs as [Hv Hall]. unfold getReplacementWay. rewrite Hst.
  rewrite (proj2 (Z.ltb_lt _ _)) by lia. cbn. unfold vget. rewrite Hcur. cbn.
  apply zlookup_Some in Hcur as [_ Hc]. pose proof (Forall_lookup_1 _ _ _ _ Hall Hc) as Hr. cbn in Hr.
  unfold vset. rewrite (proj2 (Z.leb_le _ _)), (proj2 (Z.ltb_lt _ _)) by lia. cbn -[rr_run].
  set (nxt := if cur =? 0 then u32 (_associativity p - 1) else cur - 1).
  assert (nxt = (cur - 1) `mod` _associativity p ∧ 0 ≤ nxt < _associativity p) as [Hn Hnr].
  { subst nxt. destruct (Z.eqb_spec cur 0) as [->|Hne].
    - rewrite u32_small by lia. split; [|lia]. apply Z.mod_unique with (-1); lia.
    - rewrite Z.mod_small by lia. lia. }
  rewrite (IH _ (zinsert set nxt v) nxt); cbn; [|split; cbn; [done|]|done|done|].
  - f_equal. rewrite (seqZ_cons 0 (Z.of_nat (S k))) by lia.
    replace (Z.pred (Z.of_nat (S k))) with (Z.of_nat k) by lia.
    rewrite fmap_cons, Z.sub_0_r, (Z.mod_small cur) by lia. f_equal.
    change (Z.succ 0) with (1 + 0). rewrite <- (fmap_add_seqZ 1 0), <- list_fmap_compose. apply list_fmap_ext. intros _ j _. cbn.
    rewrite Hn, Zminus_mod_idemp_l. f_equal. lia.
  - split; [by rewrite zlength_zinsert|]. unfold zinsert. rewrite (proj2 (Z.leb_le _ _)) by lia.
    by apply Forall_insert.
  - apply zlookup_zinsert_eq. lia.
Qed.

End Replacement.

(** ** Hash function of a cache: cache_hash_fn.h *)
Definition cache_hash (num_sets log_cache_line_size address : Z) : Z :=
  u32 (Z.land (Z.shiftr address log_cache_line_size) (u32 (num_sets - 1))).

(** ** Byte buffers *)

(** [memcpy] out of and into a buffer at an offset; an access beyond the
    buffer is an error. *)
Definition mem_read (buf : list Z) (off n : Z) : res (list Z) :=
  if (0 <=? off) && (0 <=? n) && (off + n <=? zlength buf)
  then Ok (take (Z.to_nat n) (drop (Z.to_nat off) buf))
  else Fail (ERange "memcpy").
Definition mem_write (buf : list Z) (off : Z) (data : list Z) : res (list Z) :=
  if (0 <=? off) && (off + zlength data <=? zlength buf)
  then Ok (take (Z.to_nat off) buf ++ data ++ drop (Z.to_nat off + length data) buf)
  else Fail (ERange "memcpy").

(** [splice]: a buffer with some bytes overwritten from an offset on. *)
Definition splice (buf : list Z) (off : nat) (data : list Z) : list Z :=
  take off buf ++ data ++ drop (off + length data) buf.

Lemma lookup_splice buf off data k :
  (off + length data ≤ length buf)%nat →
  splice buf off data !! k =
  if decide (off ≤ k < off + length data)%nat then data !! (k - off)%nat else buf !! k.
Proof.
  intros Hl. unfold splice. destruct (decide (k < off)%nat) as [H1|H1].
  - rewrite lookup_app_l by (rewrite length_take; lia). rewrite lookup_take_lt by lia.
    by rewrite decide_False by lia.
  - rewrite lookup_app_r by (rewrite length_take; lia). rewrite length_take, Nat.min_l by lia.
    destruct (decide (k < off + length data)%nat) as [H2|H2].
    + rewrite lookup_app_l by lia. by rewrite decide_True by lia.
    + rewrite lookup_app_r by lia. rewrite lookup_drop, decide_False by lia. f_equal. lia.
Qed.

Lemma length_splice buf off data :
  (off + length data ≤ length buf)%nat → length (splice buf off data) = length buf.
Proof.
  intros Hl. unfold splice. rewrite !length_app, length_take, length_drop. lia.
Qed.

Lemma mem_write_ok buf off data :
  0 ≤ off → off + zlength data ≤ zlength buf →
  mem_write buf off data = Ok (splice buf (Z.to_nat off) data).
Proof.
  intros H1 H2. unfold mem_write. by rewrite !(proj2 (Z.leb_le _ _)) by lia.
Qed.

Lemma mem_read_ok buf off n :
  0 ≤ off → 0 ≤ n → off + n ≤ zlength buf →
  mem_read buf off n = Ok (take (Z.to_nat n) (drop (Z.to_nat off) buf)).
Proof.
  intros H1 H2 H3. unfold mem_read. by rewrite !(proj2 (Z.leb_le _ _)) by lia.
Qed.

(** The bytes of line [i] in a buffer of lines of [n] bytes. *)
Definition line_bytes (buf : list Z) (n i : nat) : list Z := take n (drop (i * n) buf).

Lemma length_line_bytes buf n i :
  (i * n + n ≤ length buf)%nat → length (line_bytes buf n i) = n.
Proof. intros. unfold line_bytes. rewrite length_take, length_drop. lia. Qed.

Lemma lookup_line_bytes buf n i k :
  line_bytes buf n i !! k = if decide (k < n)%nat then buf !! (i * n + k)%nat else None.
Proof.
  unfold line_bytes. case_decide as Hk.
  - by rewrite lookup_take_lt, lookup_drop by done.
  - apply lookup_ge_None. rewrite length_take. lia.
Qed.

(** Writing inside line [i] changes the bytes of that line only. *)
Lemma line_bytes_splice buf n i j off data :
  (off + length data ≤ n)%nat → (i * n + n ≤ length buf)%nat →
  line_bytes (splice buf (i * n + off) data) n j =
  if decide (j = i) then splice (line_bytes buf n i) off data else line_bytes buf n j.
Proof.
  intros Ho Hl. apply list_eq. intros k. rewrite lookup_line_bytes.
  rewrite lookup_splice by lia. destruct (decide (j = i)) as [->|Hji].
  - rewrite lookup_splice by (rewrite length_line_bytes; lia). rewrite lookup_line_bytes.
    repeat case_decide; try lia; try done. f_equal. lia.
  - rewrite lookup_line_bytes. destruct (decide (k < n)%nat); [|done].
    rewrite decide_False; [done|]. intros Hr.
    assert (j < i ∨ i < j)%nat as [Hlt|Hlt] by lia; nia.
Qed.

Lemma splice_nil buf off : splice buf off [] = buf.
Proof. unfold splice. cbn. by rewrite Nat.add_0_r, take_drop. Qed.

Lemma splice_all buf data : length data = length buf → splice buf 0 data = data.
Proof.
  intros Hl. unfold splice. cbn. rewrite drop_ge by lia. by rewrite app_nil_r.
Qed.

(** The bytes just written are read back. *)
Lemma read_splice buf off data :
  0 ≤ off → off + zlength data ≤ zlength buf →
  take (Z.to_nat (zlength data)) (drop (Z.to_nat off) (splice buf (Z.to_nat off) data)) = data.
Proof.
  unfold zlength. intros Ho Hl. rewrite Nat2Z.id. unfold splice.
  rewrite drop_app_length' by (rewrite length_take; lia). apply take_app_length.
Qed.

(** ** Cache sets: cache_set.cc *)
Module CacheSet.
Section CacheSet.
Context {L : Type} `{CacheLineInfo L}.

Record CacheSet := mkCacheSet {
_cache_line_info_array : list L;
_lines : list Z;
_set_num : Z;
_associativity : Z;
_line_size : Z
}.
#[global] Instance eta_CacheSet : Eta CacheSet := λ s,
mkCacheSet (_cache_line_info_array s) (_lines s) (_set_num s) (_associativity s) (_line_size s).

Definition make (set_num associativity line_size : Z) : CacheSet :=
mkCacheSet (replicate (Z.to_nat associativity) fresh)
  (replicate (Z.to_nat (u32 (associativity * line_size))) 0) set_num associativity line_size.

(** [read_line]: the bytes read when there is a buffer; [out_buf] says whether
  the caller passed one. *)
Definition read_line (s : CacheSet) (p : Replacement.Policy)
  (line_index offset : Z) (out_buf : bool) (bytes : Z)
  : res (option (list Z) * Replacement.Policy) :=
check (u32 (offset + bytes) <=? _line_size s) (EAssert "CacheSet::read_line") ;;
check (Bool.eqb (negb out_buf) (bytes =? 0)) (EAssert "CacheSet::read_line") ;;
data ← (if out_buf then
          d ← mem_read (_lines s) (u32 (line_index * _line_size s + offset)) bytes ;
          Ok (Some d)
        else Ok None) ;
p' ← Replacement.update p (_set_num s) line_index ;
Ok (data, p').

(** [write_line]: [in_buf] is the caller's buffer, of which [bytes] bytes are
  written. *)
Definition write_line (s : CacheSet) (p : Replacement.Policy)
  (line_index offset : Z) (in_buf : option (list Z)) (bytes : Z)
  : res (CacheSet * Replacement.Policy) :=
check (u32 (offset + bytes) <=? _line_size s) (EAssert "CacheSet::write_line") ;;
check (Bool.eqb (bool_decide (in_buf = None)) (bytes =? 0)) (EAssert "CacheSet::write_line") ;;
s' ← match in_buf with
     | Some buf =>
       data ← mem_read buf 0 bytes ;
       lines ← mem_write (_lines s) (u32 (line_index * _line_size s + offset)) data ;
       Ok (s <| _lines := lines |>)
     | None => Ok s
     end ;
p' ← Replacement.update p (_set_num s) line_index ;
Ok (s', p').

(** The loop of [find] from way [n - 1] down to 0. *)
Fixpoint find_from (n : nat) (lines : list L) (tag : Z) : res (option Z) :=
match n with
| O => Ok None
| S n =>
  l ← vget "_cache_line_info_array" lines (Z.of_nat n) ;
  if getTag l =? tag then Ok (Some (Z.of_nat n)) else find_from n lines tag
end.

Definition find (s : CacheSet) (tag : Z) : res (option Z) :=
find_from (Z.to_nat (_associativity s)) (_cache_line_info_array s) tag.

(** [insert]: whether a valid line was evicted, the information of the evicted
  line (the caller's object when there is none) and its bytes. *)
Definition insert (s : CacheSet) (p : Replacement.Policy)
  (inserted : L) (fill_buf : option (list Z)) (evicted : L) (writeback_buf : bool)
  : res ((bool * L * option (list Z)) * CacheSet * Replacement.Policy) :=
r ← Replacement.getReplacementWay p (_cache_line_info_array s) (_set_num s) ;
let '(index, p) := r : Z * Replacement.Policy in
check (index <? _associativity s) (EAssert "CacheSet::insert") ;;
old ← vget "_cache_line_info_array" (_cache_line_info_array s) index ;
out ← (if isValid old then
         wb ← (if writeback_buf then
                 d ← mem_read (_lines s) (u32 (index * _line_size s)) (_line_size s) ;
                 Ok (Some d)
               else Ok None) ;
         Ok (true, old, wb)
       else Ok (false, evicted, None)) ;
info ← vset "_cache_line_info_array" (_cache_line_info_array s) index inserted ;
lines ← match fill_buf with
        | Some buf =>
          data ← mem_read buf 0 (_line_size s) ;
          mem_write (_lines s) (u32 (index * _line_size s)) data
        | None => Ok (_lines s)
        end ;
p' ← Replacement.update p (_set_num s) index ;
Ok (out, s <| _cache_line_info_array := info |> <| _lines := lines |>, p').

(** *** The lines of a set as a map from tags *)

Record wf (s : CacheSet) : Prop := {
wf_assoc : 0 < _associativity s;
wf_size : 0 < _line_size s;
wf_bytes : _associativity s * _line_size s < 2 ^ 32;
wf_info : zlength (_cache_line_info_array s) = _associativity s;
wf_lines : zlength (_lines s) = _associativity s * _line_size s;
(** A valid tag occurs in one way only. *)
wf_unique i j li lj :
  _cache_line_info_array s !! i = Some li → _cache_line_info_array s !! j = Some lj →
  isValid li = true → getTag li = getTag lj → i = j
}.

Definition bytes_at (s : CacheSet) (i : nat) : list Z :=
line_bytes (_lines s) (Z.to_nat (_line_size s)) i.

(** The information and the bytes of the line with a tag. *)
Definition line (s : CacheSet) (tag : Z) : option (L * list Z) :=
match list_find (λ l, getTag l = tag) (_cache_line_info_array s) with
| Some (i, l) => Some (l, bytes_at s i)
| None => None
end.

Lemma isValid_tag (l : L) : isValid l = true ↔ getTag l ≠ INVALID_TAG.
Proof. unfold isValid. rewrite negb_true_iff. apply Z.eqb_neq. Qed.

Lemma line_Some s tag l d :
wf s → tag ≠ INVALID_TAG →
line s tag = Some (l, d) ↔
∃ i, _cache_line_info_array s !! i = Some l ∧ getTag l = tag ∧ bytes_at s i = d.
Proof.
intros Hwf Ht. unfold line. split.
- destruct (list_find _ _) as [[i l']|] eqn:Hf; [|done]. intros [= -> <-].
  apply list_find_Some in Hf as (Hi & Hl & _). eauto.
- intros (i & Hi & Hl & Hd). destruct (list_find _ _) as [[j l']|] eqn:Hf.
  + apply list_find_Some in Hf as (Hj & Hl' & _).
    assert (i = j) as ->.
    { apply (wf_unique s Hwf i j l l'); [done|done| |congruence]. apply isValid_tag. congruence. }
    by simplify_eq.
  + apply list_find_None in Hf. rewrite Forall_lookup in Hf. by destruct (Hf i l Hi).
Qed.

Lemma line_None s tag :
line s tag = None ↔ ∀ l, l ∈ _cache_line_info_array s → getTag l ≠ tag.
Proof.
unfold line. rewrite <- Forall_forall.
pose proof (list_find_None (λ l, getTag l = tag) (_cache_line_info_array s)) as [Hn1 Hn2].
split; intros Hl.
- apply Hn1. by destruct (list_find _ _) as [[i l]|].
- by rewrite Hn2.
Qed.

Lemma find_from_spec n lines tag :
(n ≤ length lines)%nat →
match find_from n lines tag with
| Ok (Some i) => ∃ k l, i = Z.of_nat k ∧ lines !! k = Some l ∧ getTag l = tag ∧ (k < n)%nat
| Ok None => ∀ k l, (k < n)%nat → lines !! k = Some l → getTag l ≠ tag
| Fail _ => False
end.
Proof.
induction n as [|n IH]; intros Hn; cbn [find_from]; [by intros; lia|].
destruct (lookup_lt_is_Some_2 lines n) as [l Hl]; [lia|].
unfold vget. rewrite zlookup_nat, Nat2Z.id, Hl by lia. cbn.
destruct (Z.eqb_spec (getTag l) tag) as [Ht|Ht]; [by eauto 10|].
specialize (IH ltac:(lia)). destruct (find_from n lines tag) as [[i|]|]; [|..|done].
- destruct IH as (k & l' & ? & ? & ? & ?). exists k, l'. split_and!; try done. lia.
- intros k l' Hk Hl'. destruct (decide (k = n)) as [->|]; [congruence|]. apply (IH k); [lia|done].
Qed.

(** [find] returns the way of the line with the tag, if there is one. *)
Lemma find_line_spec s tag :
wf s → tag ≠ INVALID_TAG →
∃ r, find s tag = Ok r ∧
  match r with
  | Some i => ∃ l, 0 ≤ i < _associativity s ∧ zlookup (_cache_line_info_array s) i = Some l ∧
                   getTag l = tag ∧ line s tag = Some (l, bytes_at s (Z.to_nat i))
  | None => line s tag = None
  end.
Proof.
intros Hwf Ht. unfold find. pose proof (wf_assoc s Hwf). pose proof (wf_info s Hwf) as Hi.
unfold zlength in Hi.
pose proof (find_from_spec (Z.to_nat (_associativity s)) (_cache_line_info_array s) tag) as Hf.
destruct (find_from _ _ _) as [[i|]|]; [| |exfalso; apply Hf; lia].
- destruct Hf as (k & l & -> & Hk & Hl & Hlt); [lia|]. eexists. split; [done|].
  exists l. rewrite zlookup_nat, Nat2Z.id by lia. split_and!; try lia; try done.
  apply line_Some; [done..|]. eauto.
- eexists. split; [done|]. apply line_None. intros l Hl.
  apply list_elem_of_lookup in Hl as [k Hk]. apply (Hf ltac:(lia) k); [|done].
  apply lookup_lt_Some in Hk. lia.
Qed.

(** Replacing the information of way [i] and overwriting bytes of its line. *)
Definition written (s : CacheSet) (i : nat) (l : L) (off : nat) (data : list Z) : CacheSet :=
s <| _cache_line_info_array := <[i := l]> (_cache_line_info_array s) |>
  <| _lines := splice (_lines s) (i * Z.to_nat (_line_size s) + off) data |>.

Section written.
Context (s : CacheSet) (i : nat) (old l : L) (off : nat) (data : list Z).
Hypothesis (Hwf : wf s).
Hypothesis (Hi : _cache_line_info_array s !! i = Some old).
Hypothesis (Hoff : (off + length data ≤ Z.to_nat (_line_size s))%nat).
(** The new tag does not occur in another way. *)
Hypothesis (Hnew : isValid l = true → ∀ j lj,
  _cache_line_info_array s !! j = Some lj → getTag lj = getTag l → j = i).

Lemma written_room : (i * Z.to_nat (_line_size s) + Z.to_nat (_line_size s) ≤ length (_lines s))%nat.
Proof.
  apply lookup_lt_Some in Hi. destruct Hwf. unfold zlength in *.
  assert (Z.of_nat i + 1 ≤ _associativity s) by lia. nia.
Qed.

Lemma written_wf : wf (written s i l off data).
Proof.
  pose proof written_room. destruct Hwf. split; cbn; try done.
  - unfold zlength in *. by rewrite length_insert.
  - unfold zlength in *. by rewrite length_splice by lia.
  - intros a b la lb Ha Hb Hv Ht.
    rewrite list_lookup_insert in Ha, Hb.
    destruct (decide (i = a ∧ (i < length (_cache_line_info_array s))%nat)) as [[<- _]|Hna];
      destruct (decide (i = b ∧ (i < length (_cache_line_info_array s))%nat)) as [[<- _]|Hnb];
      simplify_eq; try done.
    + symmetry. by apply (Hnew Hv b lb).
    + apply (Hnew) with la; [|done|done]. apply isValid_tag. rewrite <- Ht. by apply isValid_tag.
    + by apply (wf_unique0 a b la lb).
Qed.

Lemma written_bytes j :
  bytes_at (written s i l off data) j =
  if decide (j = i) then splice (bytes_at s i) off data else bytes_at s j.
Proof. apply line_bytes_splice; [done|apply written_room]. Qed.

(** The map of the new set. *)
Lemma written_line tag :
  tag ≠ INVALID_TAG →
  line (written s i l off data) tag =
  if decide (tag = getTag l) then Some (l, splice (bytes_at s i) off data)
  else if decide (tag = getTag old) then None else line s tag.
Proof.
  intros Ht. pose proof written_wf as Hwf'.
  pose proof (lookup_lt_Some _ _ _ Hi) as Hlt.
  case_decide as H1.
  { apply line_Some; [done..|]. exists i. cbn. rewrite list_lookup_insert_eq by done.
    by rewrite written_bytes, decide_True. }
  case_decide as H2.
  { subst tag. apply line_None. intros l' Hl'. cbn in Hl'.
    apply list_elem_of_lookup in Hl' as [j Hj]. destruct (decide (i = j)) as [<-|Hne].
    - rewrite list_lookup_insert_eq in Hj by done. congruence.
    - rewrite list_lookup_insert_ne in Hj by done. intros He. apply Hne.
      apply (wf_unique s Hwf i j old l'); try done. by apply isValid_tag. }
  destruct (line s tag) as [[l' d]|] eqn:El.
  - apply line_Some in El as (j & Hj & Hl' & Hd); [|done..].
    apply line_Some; [done..|]. exists j. assert (j ≠ i) as Hne by congruence.
    cbn. rewrite list_lookup_insert_ne by done. by rewrite written_bytes, decide_False.
  - rewrite line_None in El |- *. intros l' Hl'. cbn in Hl'.
    apply list_elem_of_lookup in Hl' as [j Hj]. destruct (decide (i = j)) as [<-|Hne].
    + rewrite list_lookup_insert_eq in Hj by done. congruence.
    + rewrite list_lookup_insert_ne in Hj by done. apply El. by eapply list_elem_of_lookup_2.
Qed.
End written.

(** *** The operations on well-formed sets *)

Definition policy_ok (s : CacheSet) (p : Replacement.Policy) : Prop :=
Replacement.wf p ∧ 0 ≤ _set_num s < Replacement._num_sets p ∧
Replacement._associativity p = _associativity s.

Lemma zlookup_info s i l :
wf s → zlookup (_cache_line_info_array s) i = Some l →
0 ≤ i < _associativity s ∧ _cache_line_info_array s !! Z.to_nat i = Some l.
Proof. intros Hwf [Hr Hl]%zlookup_Some. by rewrite (wf_info s Hwf) in Hr. Qed.

(** The byte offset of a line does not wrap around and stays in the buffer. *)
Lemma line_offset s i off n :
wf s → 0 ≤ i < _associativity s → 0 ≤ off → 0 ≤ n → off + n ≤ _line_size s →
u32 (i * _line_size s + off) = i * _line_size s + off ∧
0 ≤ i * _line_size s + off ∧ i * _line_size s + off + n ≤ zlength (_lines s).
Proof.
intros [] Hi Ho Hn Hle. assert (i * _line_size s + off + n ≤ _associativity s * _line_size s) by nia.
assert (0 ≤ i * _line_size s) by nia.
rewrite u32_small by lia. lia.
Qed.

Lemma read_bytes s i off n :
wf s → 0 ≤ i < _associativity s → 0 ≤ off → 0 ≤ n → off + n ≤ _line_size s →
mem_read (_lines s) (u32 (i * _line_size s + off)) n =
Ok (take (Z.to_nat n) (drop (Z.to_nat off) (bytes_at s (Z.to_nat i)))).
Proof.
intros Hwf Hi Ho Hn Hle. destruct (line_offset s i off n) as (-> & H1 & H2); [done..|].
rewrite mem_read_ok by done. f_equal. unfold bytes_at, line_bytes.
rewrite skipn_firstn_comm, drop_drop, take_take.
pose proof (wf_size s Hwf). f_equal; [lia|]. f_equal. nia.
Qed.

Lemma write_bytes s i off data :
wf s → 0 ≤ i < _associativity s → 0 ≤ off → off + zlength data ≤ _line_size s →
mem_write (_lines s) (u32 (i * _line_size s + off)) data =
Ok (splice (_lines s) (Z.to_nat i * Z.to_nat (_line_size s) + Z.to_nat off) data).
Proof.
intros Hwf Hi Ho Hle.
destruct (line_offset s i off (zlength data)) as (-> & H1 & H2); [done..|unfold zlength; lia|done|].
rewrite mem_write_ok by done. do 2 f_equal. pose proof (wf_size s Hwf). nia.
Qed.

(** [read_line] returns the requested bytes of the line. *)
Lemma read_line_ok s p i off n :
wf s → policy_ok s p → 0 ≤ i < _associativity s → 0 ≤ off → 0 < n → off + n ≤ _line_size s →
∃ p', read_line s p i off true n =
  Ok (Some (take (Z.to_nat n) (drop (Z.to_nat off) (bytes_at s (Z.to_nat i)))), p') ∧
  Replacement.wf p' ∧ Replacement.same_geometry p p'.
Proof.
intros Hwf (Hp & Hs & Ha) Hi Ho Hn Hle. unfold read_line.
assert (_line_size s < 2 ^ 32) by (destruct Hwf; nia).
rewrite (u32_small (off + n)), (proj2 (Z.leb_le _ _)), (proj2 (Z.eqb_neq n 0)) by lia. cbn.
rewrite read_bytes by (done || lia). cbn.
destruct (Replacement.update_ok p (_set_num s) i) as (p' & -> & Hp' & Hg); [done|done|lia|].
cbn. eauto.
Qed.

(** [write_line] overwrites the bytes of the line. *)
Lemma write_line_ok s p i l off data :
wf s → policy_ok s p → zlookup (_cache_line_info_array s) i = Some l →
0 ≤ off → 0 < zlength data → off + zlength data ≤ _line_size s →
∃ p', write_line s p i off (Some data) (zlength data) =
  Ok (written s (Z.to_nat i) l (Z.to_nat off) data, p') ∧
  Replacement.wf p' ∧ Replacement.same_geometry p p'.
Proof.
intros Hwf (Hp & Hs & Ha) Hl Ho Hn Hle. apply zlookup_info in Hl as [Hi Hl]; [|done].
unfold write_line. assert (_line_size s < 2 ^ 32) by (destruct Hwf; nia).
rewrite (u32_small (off + _)), (proj2 (Z.leb_le _ _)), (proj2 (Z.eqb_neq _ 0)) by lia.
rewrite bool_decide_false by done. cbn.
rewrite mem_read_ok by lia. cbn. rewrite drop_0, take_ge by (unfold zlength; lia).
rewrite write_bytes by done. cbn.
destruct (Replacement.update_ok p (_set_num s) i) as (p' & -> & Hp' & Hg); [done|done|lia|].
cbn. exists p'. split; [|done]. unfold written. cbn. by rewrite list_insert_id by done.
Qed.

(** [insert] replaces the line of one way by the new one and reports the line
  it held when that was valid. *)
Lemma insert_ok s p inserted fill evicted wb :
wf s → policy_ok s p →
match fill with Some d => zlength d = _line_size s | None => True end →
∃ i old p', insert s p inserted fill evicted wb =
  Ok (if isValid old
      then (true, old, if (wb : bool) then Some (bytes_at s i) else None)
      else (false, evicted, None),
      written s i inserted 0 (default [] fill), p') ∧
  _cache_line_info_array s !! i = Some old ∧
  Replacement.wf p' ∧ Replacement.same_geometry p p'.
Proof.
intros Hwf (Hp & Hs & Ha) Hfill. pose proof (wf_info s Hwf) as Hil. pose proof (wf_size s Hwf).
destruct (Replacement.getReplacementWay_ok p (_cache_line_info_array s) (_set_num s))
  as (i & p1 & Hw & Hi & Hp1 & [Hg1 Hg2]); [done|done|lia|].
destruct (zlookup_is_Some (_cache_line_info_array s) i) as [old Hold]; [lia|].
destruct (Replacement.update_ok p1 (_set_num s) i) as (p2 & Hu & Hp2 & [Hg3 Hg4]); [done|lia|lia|].
exists (Z.to_nat i), old, p2. unfold insert. rewrite Hw. cbn.
rewrite (proj2 (Z.ltb_lt _ _)) by lia. unfold vget. rewrite Hold. cbn.
assert (vset "_cache_line_info_array" (_cache_line_info_array s) i inserted =
        Ok (<[Z.to_nat i := inserted]> (_cache_line_info_array s))) as Hvs.
{ apply vset_Ok. split; [lia|]. unfold zinsert. by rewrite (proj2 (Z.leb_le _ _)) by lia. }
rewrite Hvs. apply zlookup_Some in Hold as [_ Hold].
pose proof (read_bytes s i 0 (_line_size s)) as Hrd. rewrite Z.add_0_r in Hrd.
rewrite Hrd by (done || lia). rewrite drop_0, take_ge.
2:{ unfold bytes_at, line_bytes. rewrite length_take. lia. }
assert ((match fill with
        | Some buf => data ← mem_read buf 0 (_line_size s);
                      mem_write (_lines s) (u32 (i * _line_size s)) data
        | None => Ok (_lines s)
        end) = Ok (splice (_lines s) (Z.to_nat i * Z.to_nat (_line_size s) + 0) (default [] fill))) as Hf.
{ destruct fill as [d|]; [|by rewrite splice_nil].
  rewrite mem_read_ok by lia. cbn. rewrite drop_0, take_ge by (unfold zlength in *; lia).
  pose proof (write_bytes s i 0 d) as Hwr. rewrite Z.add_0_r in Hwr. apply Hwr; (done || lia). }
rewrite Hf. split_and!; [|done|done|split; lia].
destruct (isValid old), wb; cbn; by rewrite Hu.
Qed.

End CacheSet.
Arguments CacheSet L : clear implicits.
End CacheSet.
