(* ===== verification/Cache.v ===== *)
(** * Cache: common/tile/memory_subsystem/cache/cache.{h,cc}

    A set-associative cache with its event counters, the counters of line
    states and the three address sets that classify misses.  The power and
    area models (McPAT) only read the parameters and are left out. *)
From S2P Require Import Prelude Utils CacheSet.

(** Memory operations of a core: [Core::mem_op_t] and [Core::lock_signal_t]. *)
Module MemOp.
Inductive mem_op_t : Type := READ | READ_EX | WRITE.
#[global] Instance mem_op_eq_dec : EqDecision mem_op_t.
Proof. solve_decision. Defined.
Inductive lock_signal_t : Type := NONE | LOCK | UNLOCK.
#[global] Instance lock_signal_eq_dec : EqDecision lock_signal_t.
Proof. solve_decision. Defined.
End MemOp.

Module Cache.

Inductive MissType : Type := COLD_MISS | CAPACITY_MISS | SHARING_MISS | INVALID_MISS_TYPE.
#[global] Instance MissType_eq_dec : EqDecision MissType.
Proof. solve_decision. Defined.

Inductive CacheCategory : Type := INSTRUCTION_CACHE | DATA_CACHE | UNIFIED_CACHE.
#[global] Instance CacheCategory_eq_dec : EqDecision CacheCategory.
Proof. solve_decision. Defined.

Inductive WritePolicy : Type := UNDEFINED_WRITE_POLICY | WRITE_THROUGH | WRITE_BACK.
#[global] Instance WritePolicy_eq_dec : EqDecision WritePolicy.
Proof. solve_decision. Defined.

(** The counters of the class, all [UInt64]. *)
Record Counters := mkCounters {
  _total_cache_accesses : Z;
  _total_cache_misses : Z;
  _total_read_accesses : Z;
  _total_read_misses : Z;
  _total_write_accesses : Z;
  _total_write_misses : Z;
  _total_cold_misses : Z;
  _total_capacity_misses : Z;
  _total_sharing_misses : Z;
  _total_evictions : Z;
  _total_dirty_evictions : Z;
  _tag_array_reads : Z;
  _tag_array_writes : Z;
  _data_array_reads : Z;
  _data_array_writes : Z
}.
#[global] Instance eta_Counters : Eta Counters := λ c, mkCounters
  (_total_cache_accesses c) (_total_cache_misses c) (_total_read_accesses c)
  (_total_read_misses c) (_total_write_accesses c) (_total_write_misses c)
  (_total_cold_misses c) (_total_capacity_misses c) (_total_sharing_misses c)
  (_total_evictions c) (_total_dirty_evictions c) (_tag_array_reads c)
  (_tag_array_writes c) (_data_array_reads c) (_data_array_writes c).

(** [initializeMissCounters], [initializeEvictionCounters] and
    [initializeTagAndDataArrayCounters]. *)
Definition initializeCounters : Counters := mkCounters 0 0 0 0 0 0 0 0 0 0 0 0 0 0 0.

(** [counter ++] on a [UInt64]. *)
Definition incr (c : Z) : Z := u64 (c + 1).

Section Cache.
Context {L : Type} `{CacheLineInfo L}.

Record Cache := mkCache {
  _enabled : bool;
  _cache_category : CacheCategory;
  _write_policy : WritePolicy;
  _sets : list (CacheSet.CacheSet L);
  _cache_size : Z;
  _associativity : Z;
  _line_size : Z;
  _num_sets : Z;
  _log_line_size : Z;
  _replacement_policy : Replacement.Policy;
  _counters : Counters;
  _fetched_address_set : gset Z;
  _evicted_address_set : gset Z;
  _invalidated_address_set : gset Z;
  _cache_line_state_counters : list Z;
  _track_miss_types : bool
}.
#[global] Instance eta_Cache : Eta Cache := λ c, mkCache
  (_enabled c) (_cache_category c) (_write_policy c) (_sets c) (_cache_size c)
  (_associativity c) (_line_size c) (_num_sets c) (_log_line_size c)
  (_replacement_policy c) (_counters c) (_fetched_address_set c) (_evicted_address_set c)
  (_invalidated_address_set c) (_cache_line_state_counters c) (_track_miss_types c).

(** [Cache::Cache]; [cache_size] is in kilobytes. *)
Definition make (category : CacheCategory) (write_policy : WritePolicy)
    (cache_size associativity line_size : Z) (policy : Replacement.Type_)
    (track_miss_types : bool) : Cache :=
  let size := u32 (Utils.k_KILO * cache_size) in
  let num_sets := size / u32 (associativity * line_size) in
  mkCache false category write_policy
    ((λ i, CacheSet.make i associativity line_size) <$> seqZ 0 num_sets)
    size associativity line_size num_sets (Utils.floorLog2 line_size)
    (Replacement.create policy cache_size associativity line_size)
    initializeCounters ∅ ∅ ∅ (replicate (Z.to_nat CacheState.NUM_STATES) 0) track_miss_types.

Definition enable (c : Cache) : Cache := c <| _enabled := true |>.
Definition disable (c : Cache) : Cache := c <| _enabled := false |>.

(** ** Addresses *)

Definition getTag_of (c : Cache) (address : Z) : Z := Z.shiftr address (_log_line_size c).
Definition set_index (c : Cache) (address : Z) : Z :=
  cache_hash (_num_sets c) (_log_line_size c) address.
Definition getLineOffset (c : Cache) (address : Z) : Z :=
  u32 (Z.land address (u32 (_line_size c - 1))).
Definition getAddressFromTag (c : Cache) (tag : Z) : Z := u64 (Z.shiftl tag (_log_line_size c)).

Definition getSet (address : Z) : M Cache (CacheSet.CacheSet L) :=
  c ← gets id ; lift (vget "_sets" (_sets c) (set_index c address)).
(** Storing back the set that [getSet] returned a pointer to. *)
Definition putSet (address : Z) (s : CacheSet.CacheSet L) : M Cache unit :=
  modify (λ c, c <| _sets := zinsert (set_index c address) s (_sets c) |>).

Definition count (f : Counters → Counters) : M Cache unit :=
  modify (λ c, c <| _counters := f (_counters c) |>).

(** ** Counters of line states and miss types *)

Definition updateCacheLineStateCounters (old_cstate new_cstate : CacheState.Type_)
    : M Cache unit :=
  modify (λ c,
    let v := _cache_line_state_counters c in
    let o := CacheState.to_Z old_cstate in
    let v := zinsert o (u64 (default 0 (zlookup v o) - 1)) v in
    let n := CacheState.to_Z new_cstate in
    let v := zinsert n (u64 (default 0 (zlookup v n) + 1)) v in
    c <| _cache_line_state_counters := v |>).

Definition getMissType (c : Cache) (address : Z) : MissType :=
  if bool_decide (address ∈ _evicted_address_set c) then CAPACITY_MISS
  else if bool_decide (address ∈ _invalidated_address_set c) then SHARING_MISS
  else if bool_decide (address ∈ _fetched_address_set c) then SHARING_MISS
  else COLD_MISS.

Definition updateMissTypeCounters (miss_type : MissType) : M Cache unit :=
  c ← gets id ;
  assert (_enabled c) "Cache::updateMissTypeCounters" ;;
  match miss_type with
  | COLD_MISS => count (λ k, k <| _total_cold_misses ::= incr |>)
  | CAPACITY_MISS => count (λ k, k <| _total_capacity_misses ::= incr |>)
  | SHARING_MISS => count (λ k, k <| _total_sharing_misses ::= incr |>)
  | INVALID_MISS_TYPE => fail (ELog "Unrecognized Cache Miss Type")
  end.

(** The chain of [erase] calls: the first set that holds the address loses
    it. *)
Definition clearMissTypeTrackingSets (address : Z) : M Cache unit :=
  modify (λ c,
    if bool_decide (address ∈ _evicted_address_set c)
    then c <| _evicted_address_set := _evicted_address_set c ∖ {[address]} |>
    else if bool_decide (address ∈ _invalidated_address_set c)
    then c <| _invalidated_address_set := _invalidated_address_set c ∖ {[address]} |>
    else if bool_decide (address ∈ _fetched_address_set c)
    then c <| _fetched_address_set := _fetched_address_set c ∖ {[address]} |>
    else c).

Definition updateMissCounters (address : Z) (mem_op_type : MemOp.mem_op_t) (cache_miss : bool)
    : M Cache MissType :=
  c ← gets id ;
  if _enabled c then
    count (λ k, k <| _total_cache_accesses ::= incr |>) ;;
    let is_read := match mem_op_type with MemOp.READ | MemOp.READ_EX => true | _ => false end in
    (if is_read then count (λ k, k <| _total_read_accesses ::= incr |>)
     else
       assert (bool_decide (_cache_category c ≠ INSTRUCTION_CACHE)) "Cache::updateMissCounters" ;;
       count (λ k, k <| _total_write_accesses ::= incr |>)) ;;
    if cache_miss then
      count (λ k, k <| _total_cache_misses ::= incr |>) ;;
      (if is_read then count (λ k, k <| _total_read_misses ::= incr |>)
       else count (λ k, k <| _total_write_misses ::= incr |>)) ;;
      if _track_miss_types c then
        let miss_type := getMissType c address in
        updateMissTypeCounters miss_type ;;
        mret miss_type
      else mret INVALID_MISS_TYPE
    else mret INVALID_MISS_TYPE
  else mret INVALID_MISS_TYPE.

Definition parseMissType (miss_type : string) : res MissType :=
  if bool_decide (miss_type = "cold") then Ok COLD_MISS
  else if bool_decide (miss_type = "capacity") then Ok CAPACITY_MISS
  else if bool_decide (miss_type = "sharing") then Ok SHARING_MISS
  else Fail (ELog "Unrecognized Miss Type").

(** ** Operations *)

(** An access and its buffer: a load says whether there is a buffer, a store
    carries it. *)
Inductive Access : Type :=
  | LOAD (buf : bool) (num_bytes : Z)
  | STORE (buf : option (list Z)) (num_bytes : Z).

Definition accessCacheLine (address : Z) (a : Access) : M Cache (option (list Z)) :=
  assert match a with
         | LOAD buf n => Bool.eqb (negb buf) (n =? 0)
         | STORE buf n => Bool.eqb (bool_decide (buf = None)) (n =? 0)
         end "Cache::accessCacheLine" ;;
  c ← gets id ;
  set ← getSet address ;
  let tag := getTag_of c address in
  let line_offset := getLineOffset c address in
  found ← lift (CacheSet.find set tag) ;
  line_index ← lift (of_option found (ELog "Cache::accessCacheLine")) ;
  out ← match a with
        | LOAD buf num_bytes =>
          r ← lift (CacheSet.read_line set (_replacement_policy c) line_index line_offset buf num_bytes) ;
          let '(data, p) := r : option (list Z) * Replacement.Policy in
          modify (λ c, c <| _replacement_policy := p |>) ;;
          mret data
        | STORE buf num_bytes =>
          r ← lift (CacheSet.write_line set (_replacement_policy c) line_index line_offset buf num_bytes) ;
          let '(set', p) := r : CacheSet.CacheSet L * Replacement.Policy in
          putSet address set' ;;
          modify (λ c, c <| _replacement_policy := p |>) ;;
          mret None
        end ;
  when (_enabled c)
    match a with
    | LOAD _ _ => count (λ k, k <| _data_array_reads ::= incr |>)
    | STORE _ _ => count (λ k, k <| _data_array_writes ::= incr |>)
    end ;;
  mret out.

(** What [insertCacheLine] hands back through its pointer arguments. *)
Record Eviction := mkEviction {
  eviction : bool;
  evicted_address : Z;
  evicted_cache_line_info : L;
  writeback : option (list Z)
}.

Definition insertCacheLine (inserted_address : Z) (inserted_cache_line_info : L)
    (fill_buf : option (list Z)) (evicted_info : L) (writeback_buf : bool) : M Cache Eviction :=
  c ← gets id ;
  set ← getSet inserted_address ;
  r ← lift (CacheSet.insert set (_replacement_policy c) inserted_cache_line_info fill_buf
              evicted_info writeback_buf) ;
  let '(ev, info, wb, set', p) :=
    r : (bool * L * option (list Z)) * CacheSet.CacheSet L * Replacement.Policy in
  putSet inserted_address set' ;;
  modify (λ c, c <| _replacement_policy := p |>) ;;
  let evicted_address := getAddressFromTag c (getTag info) in
  when ev (
    assert (negb (evicted_address =? INVALID_ADDRESS)) "Cache::insertCacheLine" ;;
    when (_track_miss_types c)
      (modify (λ c, c <| _evicted_address_set := {[evicted_address]} ∪ _evicted_address_set c |>)) ;;
    updateCacheLineStateCounters (getCState info) CacheState.INVALID) ;;
  when (_track_miss_types c) (clearMissTypeTrackingSets inserted_address) ;;
  when (_track_miss_types c)
    (modify (λ c, c <| _fetched_address_set := {[inserted_address]} ∪ _fetched_address_set c |>)) ;;
  updateCacheLineStateCounters CacheState.INVALID (getCState inserted_cache_line_info) ;;
  when (_enabled c) (
    (if ev then
       assert (bool_decide (getCState info ≠ CacheState.INVALID)) "Cache::insertCacheLine" ;;
       count (λ k, k <| _tag_array_reads ::= incr |> <| _data_array_reads ::= incr |>
                     <| _total_evictions ::= incr |>) ;;
       when (bool_decide (_write_policy c = WRITE_BACK) && CacheState.writable (getCState info))
         (count (λ k, k <| _total_dirty_evictions ::= incr |>))
     else
       assert (bool_decide (getCState info = CacheState.INVALID)) "Cache::insertCacheLine" ;;
       count (λ k, k <| _tag_array_reads ::= incr |>)) ;;
    count (λ k, k <| _tag_array_writes ::= incr |> <| _data_array_writes ::= incr |>)) ;;
  mret (mkEviction ev evicted_address info wb).

(** The private [getCacheLineInfo]: a pointer to the line, here its set and
    way. *)
Definition findCacheLineInfo (address : Z) : M Cache (option (Z * L)) :=
  c ← gets id ;
  set ← getSet address ;
  found ← lift (CacheSet.find set (getTag_of c address)) ;
  match found with
  | Some i =>
    l ← lift (vget "_cache_line_info_array" (CacheSet._cache_line_info_array set) i) ;
    mret (Some (i, l))
  | None => mret None
  end.

(** The public [getCacheLineInfo]: the line's information, or the caller's
    object [fresh] when the line is absent. *)
Definition getCacheLineInfo (address : Z) : M Cache L :=
  line_info ← findCacheLineInfo address ;
  c ← gets id ;
  when (_enabled c) (count (λ k, k <| _tag_array_reads ::= incr |>)) ;;
  mret match line_info with Some (_, l) => l | None => fresh end.

Definition setCacheLineInfo (address : Z) (updated : L) : M Cache unit :=
  line_info ← findCacheLineInfo address ;
  il ← lift (of_option line_info (ELog "Cache::setCacheLineInfo")) ;
  let '(i, cache_line_info) := il : Z * L in
  updateCacheLineStateCounters (getCState cache_line_info) (getCState updated) ;;
  c ← gets id ;
  when (bool_decide (getCState updated = CacheState.INVALID) && _track_miss_types c)
    (modify (λ c, c <| _invalidated_address_set := {[address]} ∪ _invalidated_address_set c |>)) ;;
  set ← getSet address ;
  info ← lift (vset "_cache_line_info_array" (CacheSet._cache_line_info_array set) i updated) ;
  putSet address (set <| CacheSet._cache_line_info_array := info |>) ;;
  when (_enabled c) (count (λ k, k <| _tag_array_writes ::= incr |>)).


(** ** The cache as a map from addresses to lines *)

Definition tag_index (c : Cache) (tag : Z) : Z := u32 (Z.land tag (u32 (_num_sets c - 1))).

Definition lookup (c : Cache) (address : Z) : option (L * list Z) :=
  match zlookup (_sets c) (set_index c address) with
  | Some s => CacheSet.line s (getTag_of c address)
  | None => None
  end.

(** What a well-formed cache says of the information of a line in set [i]:
    valid lines are in the set of their tag and have a state. *)
Definition line_ok (c : Cache) (i : Z) (l : L) : Prop :=
  if isValid l
  then tag_index c (getTag l) = i ∧ 0 ≤ getTag l < 2 ^ (64 - _log_line_size c) ∧
       getCState l ≠ CacheState.INVALID
  else getCState l = CacheState.INVALID.

Record set_ok (c : Cache) (i : Z) (s : CacheSet.CacheSet L) : Prop := {
  set_wf : CacheSet.wf s;
  set_number : CacheSet._set_num s = i;
  set_assoc : CacheSet._associativity s = _associativity c;
  set_line_size : CacheSet._line_size s = _line_size c;
  set_lines l : l ∈ CacheSet._cache_line_info_array s → line_ok c i l
}.

Record wf (c : Cache) : Prop := {
  wf_num_sets : 0 < _num_sets c < 2 ^ 32;
  wf_log : 0 < _log_line_size c < 32;
  wf_line_size : _line_size c = 2 ^ _log_line_size c;
  wf_sets : zlength (_sets c) = _num_sets c;
  wf_set i s : zlookup (_sets c) i = Some s → set_ok c i s;
  wf_policy : Replacement.wf (_replacement_policy c);
  wf_policy_sets : Replacement._num_sets (_replacement_policy c) = _num_sets c;
  wf_policy_assoc : Replacement._associativity (_replacement_policy c) = _associativity c
}.

(** The fields that [wf] and [lookup] depend on. *)
Definition core (c : Cache) :=
  (_sets c, _associativity c, _line_size c, _num_sets c, _log_line_size c, _replacement_policy c,
   _cache_category c).

Lemma wf_core c c' : core c' = core c → wf c → wf c'.
Proof.
  intros [= H1 H2 H3 H4 H5 H6 _] []. split; rewrite ?H1, ?H2, ?H3, ?H4, ?H5, ?H6; try done.
  intros i s Hs. destruct (wf_set0 i s Hs). split; rewrite ?H1, ?H2, ?H3, ?H4, ?H5, ?H6; try done.
  intros l Hl. specialize (set_lines0 l Hl). unfold line_ok, tag_index in *.
  by rewrite H4, H5.
Qed.

Lemma lookup_core c c' a : core c' = core c → lookup c' a = lookup c a.
Proof.
  intros [= H1 H2 H3 H4 H5 H6 _]. unfold lookup, set_index, getTag_of. by rewrite H1, H4, H5.
Qed.

(** The size of the lines and the category. *)
Definition shape (c : Cache) : Z * Z * CacheCategory :=
  (_line_size c, _log_line_size c, _cache_category c).

Lemma core_shape c c' : core c' = core c → shape c' = shape c.
Proof. unfold shape. by intros [= _ _ -> _ -> _ ->]. Qed.

Definition address_ok (a : Z) : Prop := 0 ≤ a < 2 ^ 64.

(** The line address of an address. *)
Definition aligned (c : Cache) (a : Z) : Prop :=
  address_ok a ∧ getAddressFromTag c (getTag_of c a) = a.

Lemma tag_index_range c tag : wf c → 0 ≤ tag → 0 ≤ tag_index c tag < _num_sets c.
Proof.
  intros [] Ht. unfold tag_index. rewrite (u32_small (_num_sets c - 1)) by lia.
  assert (0 ≤ Z.land tag (_num_sets c - 1)) by (apply Z.land_nonneg; lia).
  assert (Z.land tag (_num_sets c - 1) ≤ _num_sets c - 1).
  { apply Z.ldiff_le; [lia|]. apply Z.bits_inj'. intros n Hn.
    rewrite Z.ldiff_spec, Z.land_spec, Z.bits_0. by destruct (Z.testbit tag n), (Z.testbit _ n). }
  rewrite u32_small; lia.
Qed.

Lemma getTag_of_range c a :
  wf c → address_ok a → 0 ≤ getTag_of c a < 2 ^ (64 - _log_line_size c).
Proof.
  intros [] [Ha1 Ha2]. unfold getTag_of. rewrite Z.shiftr_div_pow2 by lia.
  split; [apply Z.div_pos; lia|]. apply Z.div_lt_upper_bound; [lia|].
  rewrite <- Z.pow_add_r by lia. by replace (_log_line_size c + (64 - _log_line_size c)) with 64 by lia.
Qed.

Lemma valid_tag_range c tag : wf c → 0 ≤ tag < 2 ^ (64 - _log_line_size c) → tag ≠ INVALID_TAG.
Proof.
  intros [] [H1 H2]. assert (2 ^ (64 - _log_line_size c) ≤ 2 ^ 63) by (apply Z.pow_le_mono_r; lia).
  change INVALID_TAG with (2 ^ 64 - 1). lia.
Qed.

Lemma getTag_of_valid c a : wf c → address_ok a → getTag_of c a ≠ INVALID_TAG.
Proof. intros Hwf Ha. by eapply valid_tag_range, getTag_of_range. Qed.

(** Every address has its set. *)
Lemma set_of_address c a :
  wf c → address_ok a →
  ∃ s, zlookup (_sets c) (set_index c a) = Some s ∧ set_ok c (set_index c a) s ∧
       lookup c a = CacheSet.line s (getTag_of c a) ∧
       CacheSet.policy_ok s (_replacement_policy c) ∧ 0 ≤ set_index c a < _num_sets c.
Proof.
  intros Hwf Ha. pose proof (getTag_of_range c a Hwf Ha).
  pose proof (tag_index_range c (getTag_of c a) Hwf ltac:(lia)) as Hr.
  change (tag_index c (getTag_of c a)) with (set_index c a) in Hr.
  destruct (zlookup_is_Some (_sets c) (set_index c a)) as [s Hs]; [by rewrite (wf_sets c Hwf)|].
  pose proof (wf_set c Hwf _ _ Hs) as Hok. exists s. split_and!; try done; try lia.
  - unfold lookup. by rewrite Hs.
  - destruct Hwf, Hok. split_and!; [done|lia|lia|lia].
Qed.

(** Replacing the set of an address. *)
Definition with_set (c : Cache) (i : Z) (s : CacheSet.CacheSet L) (p : Replacement.Policy) : Cache :=
  c <| _sets := zinsert i s (_sets c) |> <| _replacement_policy := p |>.

Lemma with_set_wf c i s p :
  wf c → 0 ≤ i < _num_sets c → set_ok c i s →
  Replacement.wf p → Replacement.same_geometry (_replacement_policy c) p →
  wf (with_set c i s p).
Proof.
  intros Hwf Hi Hs Hp [Hg1 Hg2]. pose proof (wf_sets c Hwf) as Hl.
  pose proof (wf_set c Hwf) as Hall. destruct Hwf. split; cbn; try done; try lia.
  - by rewrite zlength_zinsert.
  - intros j s' Hj. destruct (decide (i = j)) as [<-|Hne].
    + rewrite zlookup_zinsert_eq in Hj by lia. injection Hj as <-. by destruct Hs.
    + rewrite zlookup_zinsert_ne in Hj by done. by destruct (Hall j s' Hj).
Qed.

Lemma with_set_lookup c i s p a :
  wf c → address_ok a → 0 ≤ i < _num_sets c →
  lookup (with_set c i s p) a =
  if decide (set_index c a = i) then CacheSet.line s (getTag_of c a) else lookup c a.
Proof.
  intros Hwf Ha Hi. unfold lookup, with_set, set_index, getTag_of. cbn.
  pose proof (wf_sets c Hwf) as Hl. case_decide as Hd.
  - rewrite Hd, zlookup_zinsert_eq by lia. done.
  - by rewrite zlookup_zinsert_ne by done.
Qed.

(** Writing one way of the set of an address. *)
Lemma written_ok c a s i old l off data :
  wf c → address_ok a → set_ok c (set_index c a) s →
  CacheSet._cache_line_info_array s !! i = Some old →
  (off + length data ≤ Z.to_nat (_line_size c))%nat →
  (isValid l = true → ∀ j lj,
    CacheSet._cache_line_info_array s !! j = Some lj → getTag lj = getTag l → j = i) →
  line_ok c (set_index c a) l →
  set_ok c (set_index c a) (CacheSet.written s i l off data).
Proof.
  intros Hwf Ha [] Hi Hoff Hnew Hl. split; try done.
  - apply (CacheSet.written_wf s i old l off data); try done. by rewrite set_line_size0.
  - intros l' Hl'. cbn in Hl'. apply list_elem_of_lookup in Hl' as [j Hj].
    rewrite list_lookup_insert in Hj. case_decide; [by simplify_eq|].
    apply set_lines0. by eapply list_elem_of_lookup_2.
Qed.


Lemma line_ok_index c i l :
  line_ok c i l → getTag l ≠ INVALID_TAG → tag_index c (getTag l) = i.
Proof.
  unfold line_ok. intros Hl Hv. apply CacheSet.isValid_tag in Hv. rewrite Hv in Hl. by destruct Hl.
Qed.

Lemma written_lookup c a s i old l off data p b :
  wf c → address_ok a → address_ok b → set_ok c (set_index c a) s →
  zlookup (_sets c) (set_index c a) = Some s →
  CacheSet._cache_line_info_array s !! i = Some old →
  (off + length data ≤ Z.to_nat (_line_size c))%nat →
  (isValid l = true → ∀ j lj,
    CacheSet._cache_line_info_array s !! j = Some lj → getTag lj = getTag l → j = i) →
  line_ok c (set_index c a) l →
  lookup (with_set c (set_index c a) (CacheSet.written s i l off data) p) b =
  if decide (getTag_of c b = getTag l) then Some (l, splice (CacheSet.bytes_at s i) off data)
  else if decide (getTag_of c b = getTag old) then None else lookup c b.
Proof.
  intros Hwf Ha Hb Hs Hz Hi Hoff Hnew Hl.
  pose proof (getTag_of_valid c b Hwf Hb) as Hvb.
  pose proof (set_lines _ _ _ Hs old (list_elem_of_lookup_2 _ _ _ Hi)) as Hold.
  rewrite with_set_lookup; [|done|done|].
  2:{ apply zlookup_Some in Hz as [Hz _]. by rewrite (wf_sets c Hwf) in Hz. }
  case_decide as Hd.
  - rewrite (CacheSet.written_line s i old l off data); try done; try by apply Hs.
    + unfold lookup. by rewrite Hd, Hz.
    + by rewrite (set_line_size _ _ _ Hs).
  - rewrite !decide_False; [done| |]; intros Heq; apply Hd; rewrite Heq in Hvb;
      [pose proof (line_ok_index _ _ _ Hold Hvb) as Ht|pose proof (line_ok_index _ _ _ Hl Hvb) as Ht];
      rewrite <- Heq in Ht; exact Ht.
Qed.

(** ** The operations on well-formed caches *)

Lemma getSet_ok c a :
  wf c → address_ok a → ∀ s, zlookup (_sets c) (set_index c a) = Some s → getSet a c = Ok (s, c).
Proof. intros Hwf Ha s Hs. unfold getSet, gets, vget, mbind, M_bind. cbn. by rewrite Hs. Qed.

Lemma findCacheLineInfo_ok c a :
  wf c → address_ok a →
  ∃ s r, zlookup (_sets c) (set_index c a) = Some s ∧ set_ok c (set_index c a) s ∧
    CacheSet.find s (getTag_of c a) = Ok (fst <$> r) ∧
    findCacheLineInfo a c = Ok (r, c) ∧
    match r with
    | Some (i, l) => zlookup (CacheSet._cache_line_info_array s) i = Some l ∧ getTag l = getTag_of c a ∧
                     0 ≤ i < _associativity c ∧
                     lookup c a = Some (l, CacheSet.bytes_at s (Z.to_nat i))
    | None => lookup c a = None
    end.
Proof.
  intros Hwf Ha. destruct (set_of_address c a Hwf Ha) as (s & Hz & Hs & Hlk & Hp & Hr).
  destruct (CacheSet.find_line_spec s (getTag_of c a)) as (r & Hf & Hspec);
    [by apply Hs|by apply getTag_of_valid|].
  unfold findCacheLineInfo, mbind, M_bind, gets. cbn. rewrite (getSet_ok c a Hwf Ha s Hz).
  unfold id. rewrite Hf. cbn. destruct r as [i|].
  - destruct Hspec as (l & Hi & Hl & Ht & Hline). unfold vget. rewrite Hl. cbn.
    exists s, (Some (i, l)). rewrite Hlk. pose proof (set_assoc _ _ _ Hs). split_and!; try done; lia.
  - exists s, None. by rewrite Hlk.
Qed.

(** [getCacheLineInfo]: the information of the line, or a fresh one. *)
Lemma getCacheLineInfo_ok c a :
  wf c → address_ok a →
  ∃ k, getCacheLineInfo a c =
    Ok (match lookup c a with Some (l, _) => l | None => fresh end, c <| _counters := k |>).
Proof.
  intros Hwf Ha. destruct (findCacheLineInfo_ok c a Hwf Ha) as (s & r & _ & _ & _ & Hf & Hr).
  unfold getCacheLineInfo, mbind, M_bind. rewrite Hf. unfold gets, count, when.
  replace (match lookup c a with Some (l, _) => l | None => fresh end)
    with (match r with Some (_, l) => l | None => fresh end).
  2:{ destruct r as [[i l]|]; [destruct Hr as (_ & _ & _ & ->)|rewrite Hr]; done. }
  unfold id. destruct (_enabled c) eqn:He; cbn; [by eexists|]. exists (_counters c). by destruct c.
Qed.

Definition store_ok (c : Cache) (a n : Z) : Prop := 0 < n ∧ getLineOffset c a + n ≤ _line_size c.

Lemma getLineOffset_range c a : 0 ≤ getLineOffset c a.
Proof. unfold getLineOffset. pose proof (u32_range (Z.land a (u32 (_line_size c - 1)))). lia. Qed.

Definition all_lines (c : Cache) : list L :=
  concat (CacheSet._cache_line_info_array <$> _sets c).

(** Writing one way of one set replaces one line in the list of all lines. *)
Lemma all_lines_written c k s i old l off data p :
  zlookup (_sets c) k = Some s → CacheSet._cache_line_info_array s !! i = Some old →
  ∃ l1 l2, all_lines c = l1 ++ old :: l2 ∧
    all_lines (with_set c k (CacheSet.written s i l off data) p) = l1 ++ l :: l2.
Proof.
  intros [Hk Hs]%zlookup_Some Hi. unfold all_lines, with_set, zinsert. cbn.
  rewrite (proj2 (Z.leb_le 0 k)) by lia.
  pose proof (list_elem_of_split_length _ _ _ Hs) as (S1 & S2 & HS & HlS).
  pose proof (list_elem_of_split_length _ _ _ Hi) as (A & B & HA & HlA).
  rewrite HS, HlS, insert_app_r_alt, Nat.sub_diag by lia. cbn.
  rewrite !fmap_app, !fmap_cons, !concat_app. cbn.
  rewrite HA, HlA, insert_app_r_alt, Nat.sub_diag by lia. cbn.
  exists (concat (CacheSet._cache_line_info_array <$> S1) ++ A),
    (B ++ concat (CacheSet._cache_line_info_array <$> S2)).
  split; by rewrite <- !app_assoc.
Qed.

(** Everything but bytes, replacement state and event counters is unchanged. *)
Definition frame (c c' : Cache) : Prop :=
  all_lines c' = all_lines c ∧ _cache_line_state_counters c' = _cache_line_state_counters c ∧
  (_evicted_address_set c', _invalidated_address_set c', _fetched_address_set c') =
  (_evicted_address_set c, _invalidated_address_set c, _fetched_address_set c) ∧
  _track_miss_types c' = _track_miss_types c ∧ shape c' = shape c.

(** A load of a present line returns the bytes at the line offset. *)
Lemma load_ok c a n l d :
  wf c → address_ok a → store_ok c a n → lookup c a = Some (l, d) →
  ∃ c', accessCacheLine a (LOAD true n) c =
      Ok (Some (take (Z.to_nat n) (drop (Z.to_nat (getLineOffset c a)) d)), c') ∧
    wf c' ∧ frame c c' ∧ ∀ b, lookup c' b = lookup c b.
Proof.
  intros Hwf Ha [Hn Hle] Hl. pose proof (getLineOffset_range c a) as Ho.
  destruct (findCacheLineInfo_ok c a Hwf Ha) as (s & r & Hz & Hs & Hf & _ & Hr).
  destruct r as [[i l']|]; [|congruence]. destruct Hr as (Hi & Ht & Hir & Hlk).
  destruct (set_of_address c a Hwf Ha) as (s0 & Hz0 & _ & _ & Hp & Hrange). simplify_eq.
  destruct (CacheSet.read_line_ok s (_replacement_policy c) i (getLineOffset c a) n)
    as (p' & Hrd & Hp' & Hg); try done; try by apply Hs.
  { by rewrite (set_assoc _ _ _ Hs). } { by rewrite (set_line_size _ _ _ Hs). }
  unfold accessCacheLine, mbind, M_bind, gets, assert. rewrite (proj2 (Z.eqb_neq n 0)) by lia. cbn.
  rewrite (getSet_ok c a Hwf Ha s Hz). unfold id. rewrite Hf. cbn. rewrite Hrd. cbn.
  assert (wf (with_set c (set_index c a) s p')) as Hwf' by by apply with_set_wf.
  assert (∀ b k, lookup (c <| _replacement_policy := p' |> <| _counters := k |>) b = lookup c b) as Hlb
    by (intros; done).
  destruct (_enabled c) eqn:He; cbn; eexists; (split; [done|]); (split; [|done]);
    refine (wf_core (with_set c (set_index c a) s p') _ _ Hwf'); unfold core, with_set; cbn;
    repeat f_equal; symmetry; unfold zinsert; rewrite (proj2 (Z.leb_le _ _)) by lia;
    apply list_insert_id; by apply zlookup_Some in Hz as [_ ?].
Qed.

(** A store changes the bytes it writes, in the line of its address only. *)
Lemma store_line_ok c a data l d :
  wf c → address_ok a → store_ok c a (zlength data) → lookup c a = Some (l, d) →
  ∃ c', accessCacheLine a (STORE (Some data) (zlength data)) c = Ok (None, c') ∧ wf c' ∧ frame c c' ∧
    ∀ b, address_ok b → lookup c' b =
      if decide (getTag_of c b = getTag_of c a)
      then Some (l, splice d (Z.to_nat (getLineOffset c a)) data) else lookup c b.
Proof.
  intros Hwf Ha [Hn Hle] Hl. pose proof (getLineOffset_range c a) as Ho.
  destruct (findCacheLineInfo_ok c a Hwf Ha) as (s & r & Hz & Hs & Hf & _ & Hr).
  destruct r as [[i l']|]; [|congruence]. destruct Hr as (Hi & Ht & Hir & Hlk).
  destruct (set_of_address c a Hwf Ha) as (s0 & Hz0 & _ & _ & Hp & Hrange). simplify_eq.
  destruct (CacheSet.write_line_ok s (_replacement_policy c) i l (getLineOffset c a) data)
    as (p' & Hrd & Hp' & Hg); try done; try by apply Hs.
  { by rewrite (set_line_size _ _ _ Hs). }
  unfold accessCacheLine, mbind, M_bind, gets, assert. rewrite (proj2 (Z.eqb_neq _ 0)) by lia.
  rewrite bool_decide_false by done. cbn.
  rewrite (getSet_ok c a Hwf Ha s Hz). unfold id. rewrite Hf. cbn. rewrite Hrd. cbn.
  pose proof (CacheSet.zlookup_info s i l (set_wf _ _ _ Hs) Hi) as [_ Hi'].
  set (s' := CacheSet.written _ _ _ _ _).
  assert (∀ j lj, CacheSet._cache_line_info_array s !! j = Some lj → getTag lj = getTag l → j = Z.to_nat i) as Hu.
  { intros j lj Hj Htj. symmetry. apply (CacheSet.wf_unique s (set_wf _ _ _ Hs) _ _ l lj); try done.
    apply CacheSet.isValid_tag. rewrite Ht. by apply getTag_of_valid. }
  pose proof (set_lines _ _ _ Hs l (list_elem_of_lookup_2 _ _ _ Hi')) as Hlok.
  assert ((Z.to_nat (getLineOffset c a) + length data ≤ Z.to_nat (_line_size c))%nat) as Hoff
    by (unfold zlength in *; lia).
  assert (wf (with_set c (set_index c a) s' p')) as Hwf'.
  { apply with_set_wf; try done. by apply (written_ok c a s (Z.to_nat i) l). }
  assert (∀ b, address_ok b → lookup (with_set c (set_index c a) s' p') b =
      if decide (getTag_of c b = getTag_of c a)
      then Some (l, splice (CacheSet.bytes_at s (Z.to_nat i)) (Z.to_nat (getLineOffset c a)) data)
      else lookup c b) as Hlb.
  { intros b Hb. unfold s'. rewrite (written_lookup c a s (Z.to_nat i) l l) by done.
    rewrite Ht. by repeat case_decide. }
  assert (all_lines (with_set c (set_index c a) s' p') = all_lines c) as Hal.
  { destruct (all_lines_written c (set_index c a) s (Z.to_nat i) l l
      (Z.to_nat (getLineOffset c a)) data p' Hz Hi') as (l1 & l2 & -> & H2). exact H2. }
  destruct (_enabled c) eqn:He; cbn; eexists; (split; [done|]);
    (split; [by refine (wf_core (with_set c (set_index c a) s' p') _ _ Hwf')|split; [|exact Hlb]]);
    split_and!; try done; exact Hal.
Qed.


(** The line-state counters after a line went from state [o] to state [n]. *)
Definition bump (o n : CacheState.Type_) (v : list Z) : list Z :=
  let v := zinsert (CacheState.to_Z o) (u64 (default 0 (zlookup v (CacheState.to_Z o)) - 1)) v in
  zinsert (CacheState.to_Z n) (u64 (default 0 (zlookup v (CacheState.to_Z n)) + 1)) v.

(** The sets that classify misses: evicted, invalidated and fetched. *)
Definition miss_sets (c : Cache) : gset Z * gset Z * gset Z :=
  (_evicted_address_set c, _invalidated_address_set c, _fetched_address_set c).
Definition note_evict (e : Z) (m : gset Z * gset Z * gset Z) : gset Z * gset Z * gset Z :=
  let '(E, V, F) := m in ({[e]} ∪ E, V, F).
Definition note_invalidate (a : Z) (m : gset Z * gset Z * gset Z) : gset Z * gset Z * gset Z :=
  let '(E, V, F) := m in (E, {[a]} ∪ V, F).
Definition note_fetch (a : Z) (m : gset Z * gset Z * gset Z) : gset Z * gset Z * gset Z :=
  let '(E, V, F) := m in
  let '(E, V, F) :=
    if bool_decide (a ∈ E) then (E ∖ {[a]}, V, F)
    else if bool_decide (a ∈ V) then (E, V ∖ {[a]}, F)
    else if bool_decide (a ∈ F) then (E, V, F ∖ {[a]})
    else (E, V, F) in
  (E, V, {[a]} ∪ F).

(** The state after an operation, but for the event counters. *)
Record effect (c : Cache) (cr : Cache) (v : list Z) (m : gset Z * gset Z * gset Z) (c' : Cache)
    : Prop := {
  effect_core : core c' = core cr;
  effect_counters : _cache_line_state_counters c' = v;
  effect_miss : miss_sets c' = m;
  effect_flags : _enabled c' = _enabled c ∧ _track_miss_types c' = _track_miss_types c ∧
                 _write_policy c' = _write_policy c ∧ _cache_category c' = _cache_category c
}.

Lemma getAddressFromTag_valid c tag : wf c → getAddressFromTag c tag ≠ INVALID_ADDRESS.
Proof.
  intros [] He. unfold getAddressFromTag in He.
  assert (Z.testbit (u64 (Z.shiftl tag (_log_line_size c))) 0 = Z.testbit INVALID_ADDRESS 0) as Hb
    by by rewrite He.
  unfold u64 in Hb. rewrite testbit_uint, Z.shiftl_spec in Hb by lia.
  rewrite Z.testbit_neg_r in Hb by lia. done.
Qed.

(** What [insertCacheLine] needs of its arguments. *)
Definition insert_args_ok (c : Cache) (a : Z) (l : L) (fill : option (list Z)) (evicted : L) : Prop :=
  address_ok a ∧ getTag l = getTag_of c a ∧ getCState l ≠ CacheState.INVALID ∧
  getCState evicted = CacheState.INVALID ∧
  match fill with Some d => zlength d = _line_size c | None => True end.

Lemma inserted_ok c a l fill ev :
  wf c → insert_args_ok c a l fill ev → isValid l = true ∧ line_ok c (set_index c a) l.
Proof.
  intros Hwf (Ha & Ht & Hs & _). assert (isValid l = true) as Hv.
  { apply CacheSet.isValid_tag. rewrite Ht. by apply getTag_of_valid. }
  split; [done|]. unfold line_ok. rewrite Hv, Ht. split_and!; try done; by apply getTag_of_range.
Qed.

(** [insertCacheLine] writes the line into a way of its set; the way's line
    is reported when it was valid. *)
Lemma insertCacheLine_run c a l fill evicted wb :
  wf c → insert_args_ok c a l fill evicted →
  ∃ s i old p' c', zlookup (_sets c) (set_index c a) = Some s ∧
    CacheSet._cache_line_info_array s !! i = Some old ∧
    Replacement.wf p' ∧ Replacement.same_geometry (_replacement_policy c) p' ∧
    let info := if isValid old then old else evicted in
    let ea := getAddressFromTag c (getTag info) in
    insertCacheLine a l fill evicted wb c =
      Ok (mkEviction (isValid old) ea info
            (if isValid old && wb then Some (CacheSet.bytes_at s i) else None), c') ∧
    effect c (with_set c (set_index c a) (CacheSet.written s i l 0 (default [] fill)) p')
      (bump CacheState.INVALID (getCState l)
        (if isValid old then bump (getCState old) CacheState.INVALID (_cache_line_state_counters c)
         else _cache_line_state_counters c))
      (if _track_miss_types c
       then note_fetch a (if isValid old then note_evict ea (miss_sets c) else miss_sets c)
       else miss_sets c) c'.
Proof.
  intros Hwf (Ha & Ht & Hst & Hev & Hfill).
  destruct (set_of_address c a Hwf Ha) as (s & Hz & Hs & _ & Hp & Hr).
  destruct (CacheSet.insert_ok s (_replacement_policy c) l fill evicted wb)
    as (i & old & p' & Hins & Hi & Hp' & Hg); [by apply Hs|done| |].
  { rewrite (set_line_size _ _ _ Hs). done. }
  pose proof (set_lines _ _ _ Hs old (list_elem_of_lookup_2 _ _ _ Hi)) as Hold.
  exists s, i, old, p'. unfold line_ok in Hold.
  pose proof (getAddressFromTag_valid c (getTag old) Hwf) as Hadr. apply Z.eqb_neq in Hadr.
  unfold insertCacheLine, mbind, M_bind, gets. rewrite (getSet_ok c a Hwf Ha s Hz). unfold id, lift.
  rewrite Hins. unfold with_set, when, assert, count, clearMissTypeTrackingSets, miss_sets,
    note_fetch, note_evict.
  destruct (isValid old); cbn.
  - destruct Hold as (_ & _ & Hos). rewrite Hadr. cbn. rewrite bool_decide_true with (P := _ ≠ _) by done.
    destruct (_track_miss_types c) eqn:Htr, (_enabled c) eqn:Hen; cbn;
      repeat case_bool_decide; cbn;
      try (destruct (CacheState.writable (getCState old))); cbn;
      eexists; split_and!; try done; split; cbn; try done; by rewrite ?Htr, ?Hen.
  - rewrite (bool_decide_true (getCState evicted = _)) by done.
    destruct (_track_miss_types c) eqn:Htr, (_enabled c) eqn:Hen; cbn;
      repeat case_bool_decide; cbn;
      eexists; split_and!; try done; split; cbn; try done; by rewrite ?Htr, ?Hen.
Qed.


Lemma absent_unique c a s l :
  wf c → address_ok a → zlookup (_sets c) (set_index c a) = Some s →
  lookup c a = None → getTag l = getTag_of c a →
  ∀ j lj i, CacheSet._cache_line_info_array s !! j = Some lj → getTag lj = getTag l → j = (i : nat).
Proof.
  intros Hwf Ha Hz Hlk Ht j lj i Hj Htj. unfold lookup in Hlk. rewrite Hz in Hlk.
  rewrite CacheSet.line_None in Hlk. destruct (Hlk lj); [by eapply list_elem_of_lookup_2|congruence].
Qed.

(** [insertCacheLine] on an absent address: the map gains the line and loses
    at most the evicted one, whose information and bytes are handed back. *)
Lemma insertCacheLine_ok c a l fill evicted wb :
  wf c → insert_args_ok c a l (Some fill) evicted → lookup c a = None →
  ∃ e c', insertCacheLine a l (Some fill) evicted wb c = Ok (e, c') ∧ wf c' ∧ shape c' = shape c ∧
    (∀ b, address_ok b → lookup c' b =
      if decide (getTag_of c b = getTag_of c a) then Some (l, fill)
      else if decide (eviction e = true ∧ getTag_of c b = getTag (evicted_cache_line_info e))
           then None else lookup c b) ∧
    (if eviction e
     then ∃ d, lookup c (evicted_address e) = Some (evicted_cache_line_info e, d) ∧
               aligned c (evicted_address e) ∧
               getTag_of c (evicted_address e) = getTag (evicted_cache_line_info e) ∧
               writeback e = if (wb : bool) then Some d else None
     else evicted_cache_line_info e = evicted ∧ writeback e = None).
Proof.
  intros Hwf Hargs Hlk. pose proof Hargs as (Ha & Ht & Hst & Hev & Hfill).
  destruct (inserted_ok c a l _ _ Hwf Hargs) as [Hv Hlok].
  destruct (insertCacheLine_run c a l (Some fill) evicted wb Hwf Hargs)
    as (s & i & old & p' & c' & Hz & Hi & Hp' & Hg & Hrun & [Hcore _ _ _]).
  destruct (set_of_address c a Hwf Ha) as (s0 & Hz0 & Hs & _ & _ & Hr). rewrite Hz in Hz0.
  injection Hz0 as <-.
  assert (isValid l = true → ∀ j lj,
    CacheSet._cache_line_info_array s !! j = Some lj → getTag lj = getTag l → j = i) as Hu
    by (intros _ j lj; by apply (absent_unique c a s l)).
  assert ((0 + length fill ≤ Z.to_nat (_line_size c))%nat) as Hoff by (unfold zlength in *; lia).
  pose proof (set_lines _ _ _ Hs old (list_elem_of_lookup_2 _ _ _ Hi)) as Hold.
  eexists _, c'. split; [exact Hrun|]. cbn in Hcore |- *. split; [|split; [exact (core_shape _ _ Hcore)|split]].
  - refine (wf_core _ _ Hcore _). apply with_set_wf; try done. by apply (written_ok c a s i old).
  - intros b Hb. rewrite (lookup_core _ c' b Hcore).
    rewrite (written_lookup c a s i old l 0 fill p' b) by done. rewrite Ht.
    case_decide; [|].
    + rewrite splice_all; [done|].
      unfold CacheSet.bytes_at. rewrite length_line_bytes.
      * rewrite (set_line_size _ _ _ Hs). unfold zlength in *. lia.
      * eapply (CacheSet.written_room s i old 0 fill); [by apply Hs|done|by rewrite (set_line_size _ _ _ Hs)].
    + destruct (isValid old) eqn:Eo.
      * by repeat case_decide; naive_solver.
      * rewrite !decide_False; [done|naive_solver|]. intros Heq.
        assert (isValid old = true); [|congruence]. apply CacheSet.isValid_tag. rewrite <- Heq.
        by apply getTag_of_valid.
  - destruct (isValid old) eqn:Eo; [|done].
    unfold line_ok in Hold. rewrite Eo in Hold. destruct Hold as (Hidx & Htr & _).
    pose proof (wf_log c Hwf) as Hlog.
    set (ea := getAddressFromTag c (getTag old)).
    assert (ea = Z.shiftl (getTag old) (_log_line_size c) ∧ address_ok ea) as [Hea Hok].
    { subst ea. unfold getAddressFromTag. rewrite Z.shiftl_mul_pow2 by lia.
      assert (0 ≤ getTag old * 2 ^ _log_line_size c < 2 ^ 64).
      { replace 64 with ((64 - _log_line_size c) + _log_line_size c) by lia.
        rewrite Z.pow_add_r by lia. nia. }
      unfold address_ok. rewrite u64_small by done. lia. }
    assert (getTag_of c ea = getTag old) as Htag.
    { unfold getTag_of. rewrite Hea, Z.shiftr_shiftl_l by lia. by rewrite Z.sub_diag, Z.shiftl_0_r. }
    exists (CacheSet.bytes_at s i). split_and!; [|split; [done|by rewrite Htag]|done|done].
    unfold lookup. change (set_index c ea) with (tag_index c (getTag_of c ea)).
    rewrite Htag, Hidx, Hz. apply CacheSet.line_Some; [by apply Hs|by apply CacheSet.isValid_tag|].
    eauto.
Qed.

Definition update_args_ok (c : Cache) (a : Z) (l : L) : Prop :=
  address_ok a ∧
  (if isValid l then getTag l = getTag_of c a ∧ getCState l ≠ CacheState.INVALID
   else getCState l = CacheState.INVALID).

(** [setCacheLineInfo] on a present address. *)
Lemma setCacheLineInfo_run c a l old d :
  wf c → update_args_ok c a l → lookup c a = Some (old, d) →
  ∃ s i c', zlookup (_sets c) (set_index c a) = Some s ∧
    CacheSet._cache_line_info_array s !! i = Some old ∧ CacheSet.bytes_at s i = d ∧
    getTag old = getTag_of c a ∧
    setCacheLineInfo a l c = Ok (tt, c') ∧
    effect c (with_set c (set_index c a) (CacheSet.written s i l 0 []) (_replacement_policy c))
      (bump (getCState old) (getCState l) (_cache_line_state_counters c))
      (if bool_decide (getCState l = CacheState.INVALID) && _track_miss_types c
       then note_invalidate a (miss_sets c) else miss_sets c) c'.
Proof.
  intros Hwf [Ha Hl] Hlk.
  destruct (findCacheLineInfo_ok c a Hwf Ha) as (s & r & Hz & Hs & Hf & Hfind & Hr).
  destruct r as [[i old']|]; [|congruence]. destruct Hr as (Hi & Ht & Hir & Hlk').
  rewrite Hlk in Hlk'. simplify_eq.
  destruct (CacheSet.zlookup_info s i old' (set_wf _ _ _ Hs) Hi) as [Hi0 Hi'].
  exists s, (Z.to_nat i).
  unfold setCacheLineInfo, mbind, M_bind. rewrite Hfind. cbn.
  assert (vset "_cache_line_info_array" (CacheSet._cache_line_info_array s) i l =
          Ok (<[Z.to_nat i := l]> (CacheSet._cache_line_info_array s))) as Hvs.
  { apply vset_Ok. apply zlookup_Some in Hi as [? _]. split; [done|]. unfold zinsert.
    by rewrite (proj2 (Z.leb_le _ _)) by lia. }
  unfold getSet, gets, mbind, M_bind, when, count, with_set, CacheSet.written, set_index.
  destruct (bool_decide (getCState l = CacheState.INVALID)), (_track_miss_types c) eqn:Htr,
    (_enabled c) eqn:Hen; cbn; unfold lift, vget, id; unfold set_index in Hz;
    cbn; rewrite ?Hz; cbn; rewrite Hvs; cbn; rewrite ?Hen; cbn;
    eexists; split_and!; try done; split; cbn;
    unfold core; cbn; rewrite ?Htr, ?Hen; try done; by rewrite splice_nil.
Qed.

Lemma setCacheLineInfo_ok c a l old d :
  wf c → update_args_ok c a l → lookup c a = Some (old, d) →
  ∃ c', setCacheLineInfo a l c = Ok (tt, c') ∧ wf c' ∧ shape c' = shape c ∧
    ∀ b, address_ok b → lookup c' b =
      if decide (getTag_of c b = getTag_of c a)
      then (if isValid l then Some (l, d) else None) else lookup c b.
Proof.
  intros Hwf Hargs Hlk.
  destruct (setCacheLineInfo_run c a l old d Hwf Hargs Hlk)
    as (s & i & c' & Hz & Hi & Hd & Ht & Hrun & [Hcore _ _ _]).
  destruct Hargs as [Ha Hl].
  destruct (set_of_address c a Hwf Ha) as (s0 & Hz0 & Hs & _ & _ & Hr). rewrite Hz in Hz0.
  injection Hz0 as <-.
  assert (line_ok c (set_index c a) l) as Hlok.
  { unfold line_ok. destruct (isValid l); [|done]. destruct Hl as [-> ?].
    split_and!; try done; by apply getTag_of_range. }
  assert (isValid l = true → ∀ j lj,
    CacheSet._cache_line_info_array s !! j = Some lj → getTag lj = getTag l → j = i) as Hu.
  { intros Hv j lj Hj Htj. rewrite Hv in Hl. destruct Hl as [Hl _].
    symmetry. apply (CacheSet.wf_unique s (set_wf _ _ _ Hs) _ _ old lj); try done; [|congruence].
    apply CacheSet.isValid_tag. rewrite Ht. by apply getTag_of_valid. }
  exists c'. split; [done|]. split; [|split; [exact (core_shape _ _ Hcore)|]].
  - refine (wf_core _ _ Hcore _). apply with_set_wf; try done; [|by apply wf_policy].
    apply (written_ok c a s i old); try done. cbn. lia.
  - intros b Hb. rewrite (lookup_core _ c' b Hcore).
    rewrite (written_lookup c a s i old l 0 [] _ b); try done; [|cbn; lia].
    rewrite Ht, splice_nil, Hd. destruct (isValid l) eqn:Ev.
    + destruct Hl as [-> _]. by repeat case_decide.
    + rewrite decide_False; [done|]. intros Heq. assert (isValid l = true); [|congruence].
      apply CacheSet.isValid_tag. rewrite <- Heq. by apply getTag_of_valid.
Qed.


(** ** The counters of line states *)

Definition state_count (st : CacheState.Type_) (ls : list L) : Z :=
  zlength (filter (λ l, getCState l = st) ls).

(** The counter of a state holds the number of lines in it; the counter of
    [INVALID] starts at 0 and not at the number of lines, so it is behind by
    that number, modulo 2^64. *)
Definition states_ok (c : Cache) : Prop :=
  zlength (_cache_line_state_counters c) = CacheState.NUM_STATES ∧
  ∀ st, zlookup (_cache_line_state_counters c) (CacheState.to_Z st) =
    Some (u64 (state_count st (all_lines c) -
               if decide (st = CacheState.INVALID) then zlength (all_lines c) else 0)).

Lemma to_Z_inj s t : CacheState.to_Z s = CacheState.to_Z t → s = t.
Proof. by destruct s, t. Qed.
Lemma to_Z_range s : 0 ≤ CacheState.to_Z s < CacheState.NUM_STATES.
Proof. unfold CacheState.NUM_STATES. destruct s; cbn; lia. Qed.

Definition delta (b : bool) : Z := if b then 1 else 0.

(** [bump] moves one line from one counter to the other. *)
Lemma bump_spec o n v (f : CacheState.Type_ → Z) :
  zlength v = CacheState.NUM_STATES →
  (∀ st, zlookup v (CacheState.to_Z st) = Some (u64 (f st))) →
  zlength (bump o n v) = CacheState.NUM_STATES ∧
  ∀ st, zlookup (bump o n v) (CacheState.to_Z st) =
    Some (u64 (f st - delta (bool_decide (o = st)) + delta (bool_decide (n = st)))).
Proof.
  intros Hl Hf. unfold bump. rewrite !zlength_zinsert. split; [done|]. intros st.
  pose proof (to_Z_range st). pose proof (to_Z_range o). pose proof (to_Z_range n).
  assert (∀ s, zlookup (zinsert (CacheState.to_Z o)
      (u64 (default 0 (zlookup v (CacheState.to_Z o)) - 1)) v) (CacheState.to_Z s) =
    Some (u64 (f s - delta (bool_decide (o = s))))) as Ho.
  { intros s. case_bool_decide as Hs.
    - subst s. rewrite zlookup_zinsert_eq by (rewrite Hl; lia). rewrite Hf. cbn. f_equal.
      apply uint_sub_idemp_l.
    - rewrite zlookup_zinsert_ne by (intros ?%to_Z_inj; done). rewrite Hf. cbn. do 2 f_equal. lia. }
  destruct (decide (n = st)) as [<-|Hn].
  - rewrite bool_decide_true with (P := n = n) by done.
    rewrite zlookup_zinsert_eq by (rewrite zlength_zinsert, Hl; lia). rewrite Ho. cbn. f_equal.
    apply uint_add_idemp_l.
  - rewrite (bool_decide_false (n = st)) by done.
    rewrite zlookup_zinsert_ne by (intros ?%to_Z_inj; done). rewrite Ho. cbn. do 2 f_equal. lia.
Qed.

Lemma state_count_middle st (l1 l2 : list L) l :
  state_count st (l1 ++ l :: l2) =
  state_count st (l1 ++ l2) + delta (bool_decide (getCState l = st)).
Proof.
  unfold state_count, zlength. rewrite !filter_app, filter_cons, !length_app.
  case_decide; [rewrite bool_decide_true by done|rewrite bool_decide_false by done]; cbn; lia.
Qed.

(** A write of one way keeps the counters right when they are bumped from the
    old state of the way to the new one, possibly through [INVALID]. *)
Lemma written_states_ok c c' k s i old l off data p v m :
  states_ok c → zlookup (_sets c) k = Some s →
  CacheSet._cache_line_info_array s !! i = Some old →
  effect c (with_set c k (CacheSet.written s i l off data) p) v m c' →
  zlength v = CacheState.NUM_STATES →
  (∀ st f, (∀ st, zlookup (_cache_line_state_counters c) (CacheState.to_Z st) = Some (u64 (f st))) →
     zlookup v (CacheState.to_Z st) =
       Some (u64 (f st - delta (bool_decide (getCState old = st)) + delta (bool_decide (getCState l = st))))) →
  states_ok c'.
Proof.
  intros [Hlen Hst] Hz Hi [Hcore Hv _ _] Hvl Hvs.
  destruct (all_lines_written c k s i old l off data p Hz Hi) as (l1 & l2 & H1 & H2).
  assert (all_lines c' = l1 ++ l :: l2) as H2'.
  { rewrite <- H2. unfold all_lines. by injection Hcore as -> _ _ _ _ _ _. }
  split; [by rewrite Hv|]. intros st. rewrite Hv, (Hvs st _ Hst), H1, H2'.
  rewrite !state_count_middle. unfold zlength. rewrite !length_app. cbn. do 2 f_equal. lia.
Qed.

Lemma insertCacheLine_states_ok c a l fill evicted wb e c' :
  wf c → insert_args_ok c a l fill evicted → states_ok c →
  insertCacheLine a l fill evicted wb c = Ok (e, c') → states_ok c'.
Proof.
  intros Hwf Hargs Hst Hrun0.
  destruct (insertCacheLine_run c a l fill evicted wb Hwf Hargs)
    as (s & i & old & p' & c1 & Hz & Hi & _ & _ & Hrun & Heff).
  rewrite Hrun in Hrun0. injection Hrun0 as <- <-.
  pose proof (wf_set c Hwf _ _ Hz) as Hs.
  pose proof (set_lines _ _ _ Hs old (list_elem_of_lookup_2 _ _ _ Hi)) as Hold. unfold line_ok in Hold.
  eapply written_states_ok; try done; destruct Hst as [Hlen Hst].
  - destruct (isValid old).
    + destruct (bump_spec (getCState old) CacheState.INVALID _ _ Hlen Hst) as [H1 H2].
      apply (proj1 (bump_spec _ _ _ _ H1 H2)).
    + apply (proj1 (bump_spec _ _ _ _ Hlen Hst)).
  - intros st f Hf. destruct (isValid old).
    + destruct (bump_spec (getCState old) CacheState.INVALID _ _ Hlen Hf) as [H1 H2].
      rewrite (proj2 (bump_spec _ _ _ _ H1 H2)). do 2 f_equal. lia.
    + rewrite (proj2 (bump_spec _ _ _ _ Hlen Hf)). by rewrite Hold.
Qed.

Lemma setCacheLineInfo_states_ok c a l old d c' :
  wf c → update_args_ok c a l → lookup c a = Some (old, d) → states_ok c →
  setCacheLineInfo a l c = Ok (tt, c') → states_ok c'.
Proof.
  intros Hwf Hargs Hlk Hst Hrun0.
  destruct (setCacheLineInfo_run c a l old d Hwf Hargs Hlk)
    as (s & i & c1 & Hz & Hi & _ & _ & Hrun & Heff).
  rewrite Hrun in Hrun0. injection Hrun0 as <-.
  eapply written_states_ok; try done; destruct Hst as [Hlen Hst].
  - apply (proj1 (bump_spec _ _ _ _ Hlen Hst)).
  - intros st f Hf. apply (proj2 (bump_spec _ _ _ _ Hlen Hf)).
Qed.


(** ** Classification of misses *)

(** What became of a line address, as the history of the cache says. *)
Inductive status : Type := PRESENT | LEFT_EVICTED | LEFT_INVALIDATED.

(** The three sets against the history. *)
Definition miss_ok (m : gset Z * gset Z * gset Z) (g : gmap Z status) : Prop :=
  let '(E, V, F) := m in
  ∀ a, match g !! a with
       | None => (a ∉ E) ∧ (a ∉ V) ∧ (a ∉ F)
       | Some PRESENT => (a ∉ E) ∧ (a ∉ V) ∧ (a ∈ F)
       | Some LEFT_EVICTED => (a ∈ E) ∧ (a ∉ V) ∧ (a ∈ F)
       | Some LEFT_INVALIDATED => (a ∉ E) ∧ (a ∈ V) ∧ (a ∈ F)
       end.

Lemma miss_ok_evict e m g :
  miss_ok m g → g !! e = Some PRESENT → miss_ok (note_evict e m) (<[e := LEFT_EVICTED]> g).
Proof.
  destruct m as [[E V] F]. cbn. intros Hm He a. specialize (Hm a).
  destruct (decide (a = e)) as [->|Hne].
  - rewrite lookup_insert_eq. rewrite He in Hm. set_solver.
  - rewrite lookup_insert_ne by done. destruct (g !! a) as [[]|]; set_solver.
Qed.

Lemma miss_ok_invalidate e m g :
  miss_ok m g → g !! e = Some PRESENT → miss_ok (note_invalidate e m) (<[e := LEFT_INVALIDATED]> g).
Proof.
  destruct m as [[E V] F]. cbn. intros Hm He a. specialize (Hm a).
  destruct (decide (a = e)) as [->|Hne].
  - rewrite lookup_insert_eq. rewrite He in Hm. set_solver.
  - rewrite lookup_insert_ne by done. destruct (g !! a) as [[]|]; set_solver.
Qed.

Lemma miss_ok_fetch e m g : miss_ok m g → miss_ok (note_fetch e m) (<[e := PRESENT]> g).
Proof.
  destruct m as [[E V] F]. cbn. intros Hm. pose proof (Hm e) as He.
  repeat case_bool_decide; cbn; intros a; specialize (Hm a);
    (destruct (decide (a = e)) as [->|Hne];
     [rewrite lookup_insert_eq|rewrite lookup_insert_ne by done]);
    repeat case_match; set_solver.
Qed.

Lemma aligned_inj c a b : aligned c a → aligned c b → getTag_of c a = getTag_of c b → a = b.
Proof. intros [_ Ha] [_ Hb] He. rewrite <- Ha, <- Hb. by rewrite He. Qed.

(** The history agrees with the cache on which lines are present. *)
Definition present_ok (c : Cache) (g : gmap Z status) : Prop :=
  ∀ a, aligned c a → g !! a = Some PRESENT ↔ is_Some (lookup c a).

(** Sequences of operations on a cache from its construction, with the
    history they leave. *)
Inductive reach : Cache → gmap Z status → Prop :=
  | reach_start c : wf c → states_ok c → miss_sets c = (∅, ∅, ∅) →
      (∀ a, address_ok a → lookup c a = None) → reach c ∅
  | reach_insert c g a l fill evicted wb e c' :
      reach c g → aligned c a → insert_args_ok c a l (Some fill) evicted → lookup c a = None →
      insertCacheLine a l (Some fill) evicted wb c = Ok (e, c') →
      reach c' (<[a := PRESENT]> (if eviction e then <[evicted_address e := LEFT_EVICTED]> g else g))
  | reach_update c g a l old d c' :
      reach c g → aligned c a → update_args_ok c a l → lookup c a = Some (old, d) →
      setCacheLineInfo a l c = Ok (tt, c') →
      reach c' (if isValid l then g else <[a := LEFT_INVALIDATED]> g)
  | reach_load c g a n l d r c' :
      reach c g → address_ok a → store_ok c a n → lookup c a = Some (l, d) →
      accessCacheLine a (LOAD true n) c = Ok (r, c') → reach c' g
  | reach_store c g a data l d r c' :
      reach c g → address_ok a → store_ok c a (zlength data) → lookup c a = Some (l, d) →
      accessCacheLine a (STORE (Some data) (zlength data)) c = Ok (r, c') → reach c' g
  | reach_get c g a l c' :
      reach c g → address_ok a → getCacheLineInfo a c = Ok (l, c') → reach c' g
  | reach_miss c g a op miss t c' :
      reach c g → updateMissCounters a op miss c = Ok (t, c') → reach c' g
  | reach_enable c g b : reach c g → reach (c <| _enabled := b |>) g.

Record reach_inv (c : Cache) (g : gmap Z status) : Prop := {
  reach_wf : wf c;
  reach_states : states_ok c;
  reach_present : present_ok c g;
  reach_sets : _track_miss_types c = true → miss_ok (miss_sets c) g
}.

Lemma core_log c c' : core c' = core c → _log_line_size c' = _log_line_size c.
Proof. by intros [= _ _ _ _ -> _ _]. Qed.

Lemma reach_frame c c' g :
  reach_inv c g → wf c' → frame c c' →
  (∀ b, address_ok b → is_Some (lookup c' b) ↔ is_Some (lookup c b)) → reach_inv c' g.
Proof.
  intros [Hwf Hst Hp Hm] Hwf' (Hal & Hv & Hms & Ht & Hl) Hlk. split; [done|..].
  - unfold states_ok. by rewrite Hal, Hv.
  - intros a [Ha1 Ha2]. rewrite (Hlk a Ha1). apply Hp. split; [done|].
    unfold getAddressFromTag, getTag_of in *. injection Hl as _ Hl _. by rewrite Hl in Ha2.
  - intros Htr. unfold miss_sets. rewrite Hms. apply Hm. congruence.
Qed.

(** Computations that only move event counters. *)
Definition quiet {A} (m : M Cache A) : Prop :=
  ∀ c r c', m c = Ok (r, c') → core c' = core c ∧ frame c c'.

Lemma quiet_bind {A B} (m : M Cache A) (f : A → M Cache B) :
  quiet m → (∀ a, quiet (f a)) → quiet (m ≫= f).
Proof.
  intros Hm Hf c r c' (a & c1 & H1 & H2)%M_bind_Ok.
  destruct (Hm _ _ _ H1) as [Hc1 (? & ? & ? & ? & ?)].
  destruct (Hf _ _ _ _ H2) as [Hc2 (? & ? & ? & ? & ?)]. split; [congruence|split_and!; congruence].
Qed.
Lemma quiet_ret {A} (a : A) : quiet (mret a).
Proof. intros c r c' [-> ->]%mret_Ok. by split_and!. Qed.
Lemma quiet_gets {A} (f : Cache → A) : quiet (gets f).
Proof. intros c r c' [-> ->]%gets_Ok. by split_and!. Qed.
Lemma quiet_count f : quiet (count f).
Proof. intros c r c' ->%modify_Ok. by split_and!. Qed.
Lemma quiet_assert b site : quiet (assert b site).
Proof. intros c r c' [_ ->]%assert_Ok. by split_and!. Qed.
Lemma quiet_fail {A} e : quiet (fail e : M Cache A).
Proof. intros c r c' [=]. Qed.
Hint Resolve quiet_bind quiet_ret quiet_gets quiet_count quiet_assert quiet_fail : graphite.

Lemma updateMissCounters_quiet a op miss : quiet (updateMissCounters a op miss).
Proof.
  unfold updateMissCounters, updateMissTypeCounters.
  repeat first [apply quiet_bind; [|intros] | case_match | by auto with graphite].
Qed.

Lemma insert_reach c g a l fill evicted wb e c' :
  reach_inv c g → aligned c a → insert_args_ok c a l (Some fill) evicted → lookup c a = None →
  insertCacheLine a l (Some fill) evicted wb c = Ok (e, c') →
  reach_inv c' (<[a := PRESENT]> (if eviction e then <[evicted_address e := LEFT_EVICTED]> g else g)).
Proof.
  intros [Hwf Hst Hp Hm] Hal Hargs Hlk Hrun. pose proof Hargs as (Ha & Ht & _).
  pose proof (insertCacheLine_states_ok _ _ _ _ _ _ _ _ Hwf Hargs Hst Hrun) as Hst'.
  destruct (insertCacheLine_ok c a l fill evicted wb Hwf Hargs Hlk)
    as (e1 & c1 & Hrun1 & Hwf' & _ & Hlook & Hevict).
  rewrite Hrun1 in Hrun. injection Hrun as -> ->.
  destruct (insertCacheLine_run c a l (Some fill) evicted wb Hwf Hargs)
    as (s & i & old & p' & c2 & _ & _ & _ & _ & Hrun2 & [Hcore _ Hms (_ & Htr & _)]).
  rewrite Hrun1 in Hrun2. injection Hrun2 as He ->. cbv zeta in *.
  pose proof (core_log _ _ Hcore) as Hlog. cbn in Hlog.
  assert (eviction e = true → g !! evicted_address e = Some PRESENT ∧ aligned c (evicted_address e)) as Hev.
  { intros Hev. rewrite Hev in Hevict. destruct Hevict as (d & Hl & Hok & Htag & _).
    split; [|done]. apply Hp; [done|]. rewrite Hl. eauto. }
  split; [done|done|..].
  - intros b Hb. assert (aligned c b) as Hb'.
    { destruct Hb as [? Hb]. split; [done|]. unfold getAddressFromTag, getTag_of in *. by rewrite Hlog in Hb. }
    rewrite Hlook by apply Hb. destruct (decide (getTag_of c b = getTag_of c a)) as [Heq|Hne].
    { rewrite (aligned_inj c b a) by done. rewrite lookup_insert_eq. split; [eauto|done]. }
    rewrite lookup_insert_ne by congruence.
    destruct (eviction e) eqn:Ee.
    + destruct (Hev eq_refl) as [_ Hae]. destruct Hevict as (d & _ & _ & Htag & _).
      destruct (decide (true = true ∧ _)) as [[_ Hd]|Hd].
      * rewrite (aligned_inj c b (evicted_address e)); [|done|done|congruence].
        rewrite lookup_insert_eq. split; [done|]. by intros [].
      * rewrite lookup_insert_ne; [by apply Hp|]. intros <-. naive_solver.
    + rewrite decide_False by naive_solver. by apply Hp.
  - intros Htc. rewrite Htr in Htc. rewrite Hms, Htc. apply miss_ok_fetch. rewrite He in Hev. cbn in Hev.
    rewrite He. cbn [eviction evicted_address]. specialize (Hm Htc).
    destruct (isValid old); [|exact Hm]. apply miss_ok_evict; [exact Hm|by apply Hev].
Qed.

Lemma update_reach c g a l old d c' :
  reach_inv c g → aligned c a → update_args_ok c a l → lookup c a = Some (old, d) →
  setCacheLineInfo a l c = Ok (tt, c') →
  reach_inv c' (if isValid l then g else <[a := LEFT_INVALIDATED]> g).
Proof.
  intros [Hwf Hst Hp Hm] Hal Hargs Hlk Hrun. pose proof Hargs as [Ha Hl].
  pose proof (setCacheLineInfo_states_ok _ _ _ _ _ _ Hwf Hargs Hlk Hst Hrun) as Hst'.
  destruct (setCacheLineInfo_ok c a l old d Hwf Hargs Hlk) as (c1 & Hrun1 & Hwf' & _ & Hlook).
  rewrite Hrun1 in Hrun. injection Hrun as ->.
  destruct (setCacheLineInfo_run c a l old d Hwf Hargs Hlk)
    as (s & i & c2 & _ & _ & _ & _ & Hrun2 & [Hcore _ Hms (_ & Htr & _)]).
  rewrite Hrun1 in Hrun2. injection Hrun2 as ->.
  pose proof (core_log _ _ Hcore) as Hlog. cbn in Hlog.
  split; [done|done|..].
  - intros b Hb. assert (aligned c b) as Hb'.
    { destruct Hb as [? Hb]. split; [done|]. unfold getAddressFromTag, getTag_of in *. by rewrite Hlog in Hb. }
    rewrite Hlook by apply Hb. destruct (decide (getTag_of c b = getTag_of c a)) as [Heq|Hne].
    { rewrite (aligned_inj c b a) by done. destruct (isValid l).
      - rewrite (Hp a Hal), Hlk. split; eauto.
      - rewrite lookup_insert_eq. split; [done|]. by intros []. }
    destruct (isValid l); [by apply Hp|]. rewrite lookup_insert_ne by congruence. by apply Hp.
  - intros Htc. rewrite Htr in Htc. rewrite Hms, Htc, andb_true_r. destruct (isValid l).
    + rewrite bool_decide_false by naive_solver. exact (Hm Htc).
    + rewrite bool_decide_true by done. apply miss_ok_invalidate; [exact (Hm Htc)|].
      apply Hp; [done|]. rewrite Hlk. eauto.
Qed.

(** Every reachable cache satisfies the invariant. *)
Lemma reach_sound c g : reach c g → reach_inv c g.
Proof.
  induction 1 as [c Hwf Hst Hms Hno|c g a l fill evicted wb e c' _ IH Hal Hargs Hlk Hrun
    |c g a l old d c' _ IH Hal Hargs Hlk Hrun|c g a n l d r c' _ IH Ha Hs Hlk Hrun
    |c g a data l d r c' _ IH Ha Hs Hlk Hrun|c g a l c' _ IH Ha Hrun
    |c g a op miss t c' _ IH Hrun|c g b _ IH].
  - split; [done|done| |].
    + intros a [Ha _]. rewrite lookup_empty, Hno by done. split; [done|]. by intros [].
    + intros _. rewrite Hms. intros a. rewrite lookup_empty. set_solver.
  - by eapply insert_reach.
  - by eapply update_reach.
  - destruct (load_ok c a n l d (reach_wf _ _ IH) Ha Hs Hlk) as (c1 & Hr & Hwf' & Hf & Hl).
    rewrite Hr in Hrun. simplify_eq. apply (reach_frame c); try done. intros b _. by rewrite Hl.
  - destruct (store_line_ok c a data l d (reach_wf _ _ IH) Ha Hs Hlk) as (c1 & Hr & Hwf' & Hf & Hl).
    rewrite Hr in Hrun. simplify_eq. apply (reach_frame c); try done. intros b Hb. rewrite Hl by done.
    case_decide as Hd; [|done]. split; [|eauto]. intros _.
    assert (lookup c b = lookup c a) as ->.
    { unfold lookup. change (set_index c b) with (tag_index c (getTag_of c b)).
      by rewrite Hd. }
    rewrite Hlk. eauto.
  - destruct (getCacheLineInfo_ok c a (reach_wf _ _ IH) Ha) as [k Hr]. rewrite Hr in Hrun.
    injection Hrun as <- <-. apply (reach_frame c); [done| |done|done].
    by apply (wf_core c); [|apply IH].
  - destruct (updateMissCounters_quiet _ _ _ _ _ _ Hrun) as [Hc Hf].
    apply (reach_frame c); [done|by apply (wf_core c); [|apply IH]|done|].
    intros b _. by rewrite (lookup_core c c' b Hc).
  - apply (reach_frame c); [done|by apply (wf_core c); [|apply IH]|done|done].
Qed.



(** The address enters only through its tag. *)
Lemma lookup_tag c a b : getTag_of c a = getTag_of c b → lookup c a = lookup c b.
Proof.
  intros He. unfold lookup. change (set_index c a) with (tag_index c (getTag_of c a)).
  change (set_index c b) with (tag_index c (getTag_of c b)). by rewrite He.
Qed.

(** What is known of a line that is present. *)
Lemma lookup_line c a l d :
  wf c → address_ok a → lookup c a = Some (l, d) →
  isValid l = true ∧ getTag l = getTag_of c a ∧ getCState l ≠ CacheState.INVALID ∧
  zlength d = _line_size c.
Proof.
  intros Hwf Ha Hl. destruct (set_of_address c a Hwf Ha) as (s & Hz & Hs & Hlk & _).
  rewrite Hlk in Hl. pose proof (getTag_of_valid c a Hwf Ha) as Hv.
  apply CacheSet.line_Some in Hl as (i & Hi & Ht & <-); [|by apply Hs|done].
  assert (isValid l = true) as Hval by (apply CacheSet.isValid_tag; congruence).
  pose proof (set_lines _ _ _ Hs l (list_elem_of_lookup_2 _ _ _ Hi)) as Hok. unfold line_ok in Hok.
  rewrite Hval in Hok. destruct Hok as (_ & _ & Hst). split_and!; try done.
  unfold CacheSet.bytes_at, zlength. rewrite length_line_bytes.
  - rewrite (set_line_size _ _ _ Hs). pose proof (wf_line_size c Hwf). pose proof (wf_log c Hwf).
    assert (0 < 2 ^ _log_line_size c) by lia. lia.
  - eapply (CacheSet.written_room s i l 0 []); [by apply Hs|done|cbn; lia].
Qed.

(** Loading the whole line. *)
Lemma load_line_ok c a l d :
  wf c → address_ok a → getLineOffset c a = 0 → lookup c a = Some (l, d) →
  ∃ c', accessCacheLine a (LOAD true (_line_size c)) c = Ok (Some d, c') ∧
    wf c' ∧ frame c c' ∧ ∀ b, lookup c' b = lookup c b.
Proof.
  intros Hwf Ha Ho Hl. destruct (lookup_line c a l d Hwf Ha Hl) as (_ & _ & _ & Hd).
  destruct (load_ok c a (_line_size c) l d Hwf Ha) as (c' & Hrun & Hrest); [|done|].
  { split; [|lia]. rewrite (wf_line_size c Hwf). pose proof (wf_log c Hwf). lia. }
  exists c'. split; [|done]. rewrite Hrun, Ho. cbn.
  rewrite drop_0, take_ge by (unfold zlength in *; lia). done.
Qed.

Lemma aligned_offset c a : wf c → aligned c a → getLineOffset c a = 0.
Proof.
  intros Hwf [Ha1 Ha2]. pose proof (wf_log c Hwf) as Hlog. pose proof (wf_line_size c Hwf) as Hls.
  assert (_line_size c < 2 ^ 32) as Hlt by (rewrite Hls; apply Z.pow_lt_mono_r; lia).
  assert (0 < _line_size c) by lia.
  unfold getLineOffset. rewrite (u32_small (_line_size c - 1)) by lia.
  assert (Z.land a (_line_size c - 1) = 0) as ->; [|done].
  rewrite <- Ha2, Hls. change (2 ^ _log_line_size c - 1) with (Z.pred (2 ^ _log_line_size c)).
  rewrite <- Z.ones_equiv. apply Z.bits_inj'. intros n Hn. rewrite Z.land_spec, Z.bits_0.
  destruct (decide (n < _log_line_size c)) as [Hlo|Hhi].
  - unfold getAddressFromTag, u64. rewrite testbit_uint by lia.
    by rewrite Z.shiftl_spec_low by lia.
  - rewrite Z.ones_spec_high by lia. apply andb_false_r.
Qed.


(** An address inside an aligned line: its tag and its offset. *)
Lemma aligned_add c a off :
  wf c → aligned c a → 0 ≤ off < _line_size c →
  u64 (a + off) = a + off ∧ address_ok (a + off) ∧
  getTag_of c (a + off) = getTag_of c a ∧ getLineOffset c (a + off) = off.
Proof.
  intros Hwf Hal Hoff. pose proof (wf_log c Hwf) as Hlog. pose proof (wf_line_size c Hwf) as Hls.
  pose proof (aligned_offset c a Hwf Hal) as H0. destruct Hal as [Ha1 Ha2].
  assert (_line_size c < 2 ^ 32) as Hlt by (rewrite Hls; apply Z.pow_lt_mono_r; lia).
  assert (a = 2 ^ _log_line_size c * getTag_of c a) as Hdiv.
  { unfold getTag_of in *. unfold getAddressFromTag in Ha2. rewrite Z.shiftl_mul_pow2 in Ha2 by lia.
    rewrite Z.shiftr_div_pow2 in * by lia. unfold address_ok in Ha1.
    assert (0 ≤ a / 2 ^ _log_line_size c * 2 ^ _log_line_size c < 2 ^ 64).
    { pose proof (Z.mul_div_le a (2 ^ _log_line_size c) ltac:(lia)).
      pose proof (Z.div_pos a (2 ^ _log_line_size c) ltac:(lia) ltac:(lia)). nia. }
    rewrite u64_small in Ha2 by lia. lia. }
  assert ((a + off) / 2 ^ _log_line_size c = getTag_of c a) as Hq.
  { rewrite Hdiv at 1. rewrite (Z.mul_comm (2 ^ _)), Z.add_comm, Z.div_add by lia.
    rewrite Z.div_small by lia. lia. }
  assert (address_ok (a + off)) as Hok.
  { pose proof (getTag_of_range c a Hwf Ha1) as [Ht1 Ht2]. unfold address_ok in *. split; [lia|].
    replace 64 with (_log_line_size c + (64 - _log_line_size c)) by lia.
    rewrite Z.pow_add_r by lia. nia. }
  unfold address_ok in *. split_and!; [rewrite u64_small; lia|lia|lia|..].
  - unfold getTag_of at 1. rewrite Z.shiftr_div_pow2 by lia. done.
  - unfold getLineOffset. rewrite (u32_small (_line_size c - 1)) by lia.
    rewrite Hls. change (2 ^ _log_line_size c - 1) with (Z.pred (2 ^ _log_line_size c)).
    rewrite <- Z.ones_equiv, Z.land_ones by lia.
    assert ((a + off) `mod` 2 ^ _log_line_size c = off) as ->.
    { rewrite Hdiv. rewrite Z.add_comm, (Z.mul_comm (2 ^ _)), Z_mod_plus_full. apply Z.mod_small. lia. }
    apply u32_small. lia.
Qed.

(** Loads and stores inside an aligned line. *)
Lemma load_in_line_ok c a off n l d :
  wf c → aligned c a → 0 ≤ off → 0 < n → off + n ≤ _line_size c → lookup c a = Some (l, d) →
  ∃ c', accessCacheLine (u64 (a + off)) (LOAD true n) c =
      Ok (Some (take (Z.to_nat n) (drop (Z.to_nat off) d)), c') ∧
    wf c' ∧ frame c c' ∧ ∀ b, lookup c' b = lookup c b.
Proof.
  intros Hwf Hal Ho Hn Hle Hl.
  destruct (aligned_add c a off Hwf Hal) as (H1 & H2 & H3 & H4); [lia|]. rewrite H1.
  rewrite <- (lookup_tag c (a + off) a H3) in Hl.
  destruct (load_ok c (a + off) n l d) as (c' & Hrun & Hrest); [done|done|split; lia|done|].
  exists c'. rewrite Hrun, H4. done.
Qed.

Lemma store_in_line_ok c a off data l d :
  wf c → aligned c a → 0 ≤ off → 0 < zlength data → off + zlength data ≤ _line_size c →
  lookup c a = Some (l, d) →
  ∃ c', accessCacheLine (u64 (a + off)) (STORE (Some data) (zlength data)) c = Ok (None, c') ∧
    wf c' ∧ frame c c' ∧
    ∀ b, address_ok b → lookup c' b =
      if decide (getTag_of c b = getTag_of c a) then Some (l, splice d (Z.to_nat off) data)
      else lookup c b.
Proof.
  intros Hwf Hal Ho Hn Hle Hl.
  destruct (aligned_add c a off Hwf Hal) as (H1 & H2 & H3 & H4); [lia|]. rewrite H1.
  rewrite <- (lookup_tag c (a + off) a H3) in Hl.
  destruct (store_line_ok c (a + off) data l d) as (c' & Hrun & Hw & Hf & Hlk); [done|done|split; lia|done|].
  exists c'. rewrite H4, H3 in Hlk. done.
Qed.


(** [updateMissCounters] fails only for a write to an instruction cache. *)
Lemma updateMissTypeCounters_ok c a c0 :
  _enabled c0 = true → ∃ c', updateMissTypeCounters (getMissType c a) c0 = Ok (tt, c').
Proof.
  intros He. unfold updateMissTypeCounters, mbind, M_bind, gets, id, assert. rewrite He. cbn.
  unfold getMissType. repeat case_bool_decide; cbn; eauto.
Qed.

Lemma updateMissCounters_ok c a op miss :
  (op = MemOp.WRITE → _cache_category c ≠ INSTRUCTION_CACHE) →
  ∃ t c', updateMissCounters a op miss c = Ok (t, c').
Proof.
  intros Hop. unfold updateMissCounters, mbind, M_bind, gets, id, mret, M_ret.
  destruct (_enabled c) eqn:He; [|eauto].
  destruct op; cbn; try (rewrite bool_decide_true by auto; cbn);
    (destruct miss; [|eauto]); cbn; (destruct (_track_miss_types c) eqn:Ht; [|eauto]);
    match goal with |- context [updateMissTypeCounters _ ?c0] =>
      destruct (updateMissTypeCounters_ok c a c0) as [c' ->]; [done|eauto] end.
Qed.

(** ** A new cache *)
Section make.
Context `{!CacheLineInfoLaws L}.

Definition geometry_ok (cache_size assoc line : Z) : Prop :=
  0 < assoc ≤ 256 ∧ (∃ k, 0 < k < 32 ∧ line = 2 ^ k) ∧
  assoc * line < 2 ^ 32 ∧ assoc * line ≤ u32 (Utils.k_KILO * cache_size).

Lemma fresh_invalid : isValid (fresh : L) = false.
Proof. unfold isValid. by rewrite fresh_tag, Z.eqb_refl. Qed.

Lemma make_set_wf n assoc line :
  0 < assoc → 0 < line → assoc * line < 2 ^ 32 → CacheSet.wf (CacheSet.make n assoc line : CacheSet.CacheSet L).
Proof.
  intros Ha Hl Hp. split; cbn; try done; unfold zlength; rewrite ?length_replicate; try lia.
  - rewrite u32_small by nia. lia.
  - intros i j li lj Hi _ Hv. apply lookup_replicate in Hi as [-> _]. by rewrite fresh_invalid in Hv.
Qed.

Lemma make_lines cat wp cs assoc line pol tr :
  all_lines (make cat wp cs assoc line pol tr) =
  replicate (Z.to_nat (_num_sets (make cat wp cs assoc line pol tr)) * Z.to_nat assoc) fresh.
Proof.
  unfold all_lines, make. cbn. rewrite <- list_fmap_compose. unfold compose. cbn.
  generalize (u32 (Utils.k_KILO * cs) / u32 (assoc * line)). intros n.
  assert (∀ m k, concat ((λ _ : Z, replicate (Z.to_nat assoc) (fresh : L)) <$> seqZ m (Z.of_nat k)) =
                 replicate (k * Z.to_nat assoc) fresh) as Hk.
  { intros m k. revert m. induction k as [|k IH]; intros m; [done|].
    rewrite seqZ_cons by lia. replace (Z.pred (Z.of_nat (S k))) with (Z.of_nat k) by lia.
    rewrite fmap_cons. cbn [concat]. rewrite IH, <- replicate_add. done. }
  destruct (Z.le_gt_cases 0 n) as [Hn|Hn].
  - rewrite <- (Hk 0 (Z.to_nat n)), Z2Nat.id by lia. done.
  - rewrite seqZ_nil by lia. replace (Z.to_nat n) with 0%nat by lia. done.
Qed.

Lemma state_count_fresh st n :
  state_count st (replicate n (fresh : L)) = if decide (st = CacheState.INVALID) then Z.of_nat n else 0.
Proof.
  unfold state_count, zlength. induction n as [|n IH]; cbn [replicate]; [by case_decide|].
  rewrite filter_cons, fresh_cstate. repeat case_decide; subst; cbn; try lia; naive_solver.
Qed.

(** A cache of a sound geometry starts well formed, empty and with its
    line-state counters right. *)
Lemma make_ok cat wp cs assoc line pol tr :
  geometry_ok cs assoc line →
  let c := make cat wp cs assoc line pol tr in
  wf c ∧ states_ok c ∧ miss_sets c = (∅, ∅, ∅) ∧ (∀ a, address_ok a → lookup c a = None) ∧ reach c ∅.
Proof.
  intros (Ha & (k & Hk & Hline) & Hp & Hsz) c.
  assert (0 < line) as Hlp by (subst line; lia).
  assert (0 < assoc * line) as Hap by nia.
  assert (_num_sets c = u32 (Utils.k_KILO * cs) / (assoc * line)) as Hns
    by (subst c; cbn; by rewrite (u32_small (assoc * line)) by lia).
  pose proof (u32_range (Utils.k_KILO * cs)) as Hr.
  assert (0 < _num_sets c < 2 ^ 32) as Hn.
  { rewrite Hns. split; [by apply Z.div_str_pos|]. apply Z.div_lt_upper_bound; nia. }
  assert (_log_line_size c = k) as Hlog.
  { subst c. cbn. rewrite Utils.floorLog2_spec by nia. subst line. by apply Z.log2_pow2; lia. }
  assert (∀ i s, zlookup (_sets c) i = Some s → s = CacheSet.make i assoc line) as Hset.
  { intros i s [Hi Hs]%zlookup_Some. cbn in Hs. rewrite list_lookup_fmap in Hs.
    apply fmap_Some in Hs as (j & Hj & ->). apply lookup_seqZ in Hj as [-> Hj]. f_equal. lia. }
  assert (wf c) as Hwf.
  { split; try (by rewrite ?Hlog); try done.
    - unfold zlength. cbn. rewrite length_fmap, length_seqZ. change (u32 _ / _) with (_num_sets c). lia.
    - intros i s ->%Hset. split; try done; [by apply make_set_wf; lia|].
      intros l [j Hj]%list_elem_of_lookup. apply lookup_replicate in Hj as [-> _].
      unfold line_ok. rewrite fresh_invalid. apply fresh_cstate.
    - apply Replacement.create_wf; [done|].
      assert (Replacement.num_sets_of cs assoc line = _num_sets c) as ->; [|lia].
      unfold Replacement.num_sets_of. cbn. by rewrite (Z.mul_comm cs), (Z.mul_comm line).
    - cbn. unfold Replacement.num_sets_of. by rewrite (Z.mul_comm cs), (Z.mul_comm line). }
  assert (states_ok c) as Hst.
  { split; [done|]. intros st. unfold c at 2 3. rewrite make_lines, state_count_fresh.
    unfold zlength. rewrite length_replicate. destruct st; cbn -[u64]; try done.
    by rewrite Z.sub_diag. }
  assert (∀ a, address_ok a → lookup c a = None) as Hno.
  { intros a Hadr. unfold lookup. destruct (zlookup _ _) as [s|] eqn:Hs; [|done]. apply Hset in Hs as ->.
    apply CacheSet.line_None. intros l [j Hj]%list_elem_of_lookup. apply lookup_replicate in Hj as [-> _].
    rewrite fresh_tag. intros He. by apply (getTag_of_valid c a). }
  split_and!; try done. by constructor.
Qed.
End make.

End Cache.
Arguments Cache L : clear implicits.
Arguments Eviction L : clear implicits.
End Cache.
