(* ===== verification/CacheTheorems.v ===== *)
(** * CacheTheorems: the properties of the replacement policies and of the caches

    What CacheSet.v and Cache.v promise to the cache controllers, each with an
    instance at a concrete cache. *)
From S2P Require Import Prelude Utils CacheSet Cache.

(** ** Replacement *)

(** The accesses [ws] to one set, in order. *)
Fixpoint accesses (p : Replacement.Policy) (set : Z) (ws : list Z) : res Replacement.Policy :=
  match ws with
  | [] => Ok p
  | w :: ws => p' ← Replacement.update p set w ; accesses p' set ws
  end.

Lemma accesses_lru ws p set v bits order :
  Replacement.wf p → Replacement._state p = Replacement.LRUState v → zlookup v set = Some bits →
  Replacement.lru_rep order bits → Forall (λ w, 0 ≤ w < Replacement._associativity p) ws →
  ∃ p' v' bits', accesses p set ws = Ok p' ∧ Replacement.wf p' ∧
    Replacement._state p' = Replacement.LRUState v' ∧ zlookup v' set = Some bits' ∧
    Replacement.lru_rep (foldl (flip Replacement.move_to_front) order ws) bits' ∧
    Replacement._associativity p' = Replacement._associativity p.
Proof.
  revert p v bits order. induction ws as [|w ws IH]; intros p v bits order Hp Hs Hb Hr Hws.
  { by exists p, v, bits. }
  apply Forall_cons in Hws as [Hw Hws]. pose proof Hp as [Ha Hst].
  unfold Replacement.state_wf in Hst. rewrite Hs in Hst. destruct Hst as [Hv Hall].
  apply zlookup_Some in Hb as Hb'. destruct Hb' as [Hset Hbit].
  pose proof (Forall_lookup_1 _ _ _ _ Hall Hbit) as [Hbl _].
  destruct (Replacement.lru_update_spec order bits w Hr) as (bits' & Hu & Hr' & Hl'); [lia|].
  assert (∃ p1, Replacement.update p set w = Ok p1 ∧
    Replacement._state p1 = Replacement.LRUState (zinsert set bits' v) ∧
    Replacement._associativity p1 = Replacement._associativity p) as (p1 & Hup & Hs1 & Ha1).
  { unfold Replacement.update. rewrite Hs. unfold vget. rewrite Hb. cbn. rewrite Hu. cbn.
    unfold vset. rewrite (proj2 (Z.leb_le _ _)), (proj2 (Z.ltb_lt _ _)) by lia. cbn. by eexists. }
  destruct (Replacement.update_ok p set w) as (p1' & Hup' & Hp1 & _); [done|lia|done|].
  rewrite Hup in Hup'. injection Hup' as <-.
  destruct (IH p1 (zinsert set bits' v) bits' (Replacement.move_to_front w order))
    as (p' & v' & b' & H1 & H2 & H3 & H4 & H5 & H6); [done|done| |done|by rewrite Ha1|].
  { by apply zlookup_zinsert_eq. }
  exists p', v', b'. cbn. rewrite Hup. cbn. by rewrite H6, Ha1.
Qed.

(** C37: The LRU policy implements least-recently-used replacement: after any
    sequence of accesses to a set its recency bits describe the list in which
    each access moves the way to the front, and the victim of a set of valid
    lines is the last way of that list. *)
Theorem lru_evicts_least_recent {L} `{CacheLineInfo L} p set v bits order ws (lines : list L) w :
  Replacement.wf p → Replacement._state p = Replacement.LRUState v → zlookup v set = Some bits →
  Replacement.lru_rep order bits → Forall (λ w, 0 ≤ w < Replacement._associativity p) ws →
  zlength lines = Replacement._associativity p → Forall (λ l, isValid l = true) lines →
  last (foldl (flip Replacement.move_to_front) order ws) = Some w →
  ∃ p', accesses p set ws = Ok p' ∧ Replacement.getReplacementWay p' lines set = Ok (w, p').
Proof.
  intros Hp Hs Hb Hr Hws Hlen Hv Hlast.
  destruct (accesses_lru ws p set v bits order) as (p' & v' & b' & H1 & H2 & H3 & H4 & H5 & H6); try done.
  exists p'. split; [done|]. destruct H2 as [Ha Hst]. unfold Replacement.state_wf in Hst. rewrite H3 in Hst.
  destruct Hst as [_ Hall]. apply zlookup_Some in H4 as H4'. destruct H4' as [_ Hbit].
  pose proof (Forall_lookup_1 _ _ _ _ Hall Hbit) as [Hbl _].
  unfold Replacement.getReplacementWay. rewrite H3. unfold vget. rewrite H4. cbn.
  assert (length lines = length b') as Hll by (unfold zlength in *; lia).
  pose proof (Replacement.lru_victim _ b' lines w H5 Hll Hv Hlast) as Hvict. rewrite Hbl in Hvict.
  rewrite Hvict.
  assert (0 ≤ w < zlength b') as Hw.
  { rewrite <- (Replacement.lru_order_range _ _ w H5). rewrite last_lookup in Hlast.
    by eapply list_elem_of_lookup_2. }
  by rewrite (proj2 (Z.ltb_lt _ _)) by lia.
Qed.
Lemma lru_evicts_least_recent_witness :
  let p := Replacement.create Replacement.LRU 1 4 64 in
  let line := LineInfo.mkLineInfo 5 CacheState.SHARED in
  ∃ p', accesses p 1 [0; 3; 2; 0] = Ok p' ∧
        Replacement.getReplacementWay p' (replicate 4 line) 1 = Ok (1, p').
Proof.
  refine (lru_evicts_least_recent (Replacement.create Replacement.LRU 1 4 64) 1
    (replicate 4 [0; 1; 2; 3]) [0; 1; 2; 3] [0; 1; 2; 3] [0; 3; 2; 0]
    (replicate 4 (LineInfo.mkLineInfo 5 CacheState.SHARED)) 1 _ _ _ _ _ _ _ _);
    try by vm_compute.
  - apply Replacement.create_wf; vm_compute; done.
  - apply (Replacement.lru_init 4). lia.
  - cbn. repeat constructor; lia.
  - apply Forall_replicate. done.
Defined.

(** The round-robin policy visits the ways of a set cyclically downwards:
    the [j]-th of any number of choices is the start minus [j] modulo the
    associativity, so no way is chosen again before all others were. *)
Lemma round_robin_cycles {L} `{CacheLineInfo L} k p (lines : list L) set v cur :
  Replacement.wf p → Replacement._state p = Replacement.RoundRobinState v →
  0 ≤ set < Replacement._num_sets p → zlookup v set = Some cur →
  Replacement.rr_run k p lines set =
  Ok ((λ j, (cur - j) `mod` Replacement._associativity p) <$> seqZ 0 (Z.of_nat k)).
Proof. apply Replacement.rr_run_spec. Qed.
Lemma round_robin_cycles_witness :
  Replacement.rr_run 5 (Replacement.create Replacement.ROUND_ROBIN 1 4 64) ([] : list LineInfo.LineInfo) 2 =
  Ok [3; 2; 1; 0; 3].
Proof.
  rewrite (round_robin_cycles 5 _ _ 2 (replicate 4 3) 3); try (by vm_compute).
  apply Replacement.create_wf; vm_compute; done.
Defined.

(** ** Caches *)
Section caches.
Context {L : Type} `{CacheLineInfoLaws L}.
Implicit Types c : Cache.Cache L.

(** C32: Inserting an absent line succeeds; afterwards its address holds the
    inserted information and bytes, at most one other line is gone, and that
    line is reported with its address, information and bytes; every other
    address is unchanged. *)
Theorem insert_lookup c a l fill evicted wb :
  Cache.wf c → Cache.insert_args_ok c a l (Some fill) evicted → Cache.lookup c a = None →
  ∃ e c', Cache.insertCacheLine a l (Some fill) evicted wb c = Ok (e, c') ∧ Cache.wf c' ∧
    (∀ b, Cache.address_ok b → Cache.lookup c' b =
      if decide (Cache.getTag_of c b = Cache.getTag_of c a) then Some (l, fill)
      else if decide (Cache.eviction e = true ∧
                      Cache.getTag_of c b = getTag (Cache.evicted_cache_line_info e))
           then None else Cache.lookup c b) ∧
    (if Cache.eviction e
     then ∃ d, Cache.lookup c (Cache.evicted_address e) = Some (Cache.evicted_cache_line_info e, d) ∧
               Cache.writeback e = if (wb : bool) then Some d else None
     else Cache.writeback e = None).
Proof.
  intros Hwf Ha Hl. destruct (Cache.insertCacheLine_ok c a l fill evicted wb Hwf Ha Hl)
    as (e & c' & H1 & H2 & _ & H3 & H4). exists e, c'. split_and!; try done.
  destruct (Cache.eviction e); [|by destruct H4].
  destruct H4 as (d & H5 & _ & _ & H6). eauto.
Qed.

(** A load after a store to the same bytes of a present line returns the
    stored bytes, wherever in the line they are; both succeed. *)
Lemma store_load_roundtrip c a off data l d :
  Cache.wf c → Cache.aligned c a → 0 ≤ off → 0 < zlength data →
  off + zlength data ≤ Cache._line_size c → Cache.lookup c a = Some (l, d) →
  ∃ c' c'', Cache.accessCacheLine (u64 (a + off)) (Cache.STORE (Some data) (zlength data)) c = Ok (None, c') ∧
    Cache.accessCacheLine (u64 (a + off)) (Cache.LOAD true (zlength data)) c' = Ok (Some data, c'').
Proof.
  intros Hwf Hal Ho Hn Hle Hl.
  destruct (Cache.lookup_line c a l d Hwf (proj1 Hal) Hl) as (_ & _ & _ & Hd).
  destruct (Cache.store_in_line_ok c a off data l d) as (c' & H1 & H2 & Hf & H3); try done.
  pose proof Hf as (_ & _ & _ & _ & Hshape). injection Hshape as Hls Hlog _.
  destruct (Cache.load_in_line_ok c' a off (zlength data) l (splice d (Z.to_nat off) data))
    as (c'' & H4 & _); try done.
  - destruct Hal as [Ha Ht]. split; [done|]. unfold Cache.getAddressFromTag, Cache.getTag_of in *.
    by rewrite Hlog.
  - by rewrite Hls.
  - rewrite H3 by apply Hal. by rewrite decide_True.
  - exists c', c''. split; [done|]. rewrite H4. do 3 f_equal.
    apply read_splice; [done|]. by rewrite Hd.
Qed.

(** C31: A new cache whose geometry fits the types is well formed and empty, and
    whatever sequence of insertions, updates, loads, stores and queries follows,
    it stays well formed and the counters of line states hold the numbers of
    lines in each valid state. *)
Theorem cache_invariant cat wp cs assoc line pol tr :
  Cache.geometry_ok cs assoc line →
  let c0 := Cache.make cat wp cs assoc line pol tr : Cache.Cache L in
  (∀ a, Cache.address_ok a → Cache.lookup c0 a = None) ∧ Cache.reach c0 ∅ ∧
  ∀ c g, Cache.reach c g →
    Cache.wf c ∧
    ∀ st, st ≠ CacheState.INVALID →
      zlookup (Cache._cache_line_state_counters c) (CacheState.to_Z st) =
      Some (u64 (zlength (filter (λ l, getCState l = st) (Cache.all_lines c)))).
Proof.
  intros Hg. destruct (Cache.make_ok cat wp cs assoc line pol tr Hg) as (_ & _ & _ & H1 & H2).
  split; [done|]. split; [done|]. intros c g Hr.
  destruct (Cache.reach_sound c g Hr) as [Hwf [_ Hst] _ _]. split; [done|]. intros st Hne.
  rewrite Hst. rewrite decide_False by done. unfold Cache.state_count. by rewrite Z.sub_0_r.
Qed.

(** With miss tracking on, the class of a miss is what the history of the
    line says: cold if it was never in the cache, capacity if it last left by
    eviction, sharing if it last left by invalidation. *)
Lemma miss_classification c g a :
  Cache.reach c g → Cache._track_miss_types c = true → Cache.aligned c a → Cache.lookup c a = None →
  Cache.getMissType c a =
  match g !! a with
  | None => Cache.COLD_MISS
  | Some Cache.LEFT_EVICTED => Cache.CAPACITY_MISS
  | _ => Cache.SHARING_MISS
  end ∧ g !! a ≠ Some Cache.PRESENT.
Proof.
  intros Hr Ht Ha Hl. destruct (Cache.reach_sound c g Hr) as [_ _ Hp Hm].
  assert (g !! a ≠ Some Cache.PRESENT) as Hne.
  { intros Hg. apply (Hp a Ha) in Hg. rewrite Hl in Hg. by destruct Hg. }
  split; [|done]. specialize (Hm Ht a). unfold Cache.getMissType.
  destruct (g !! a) as [[]|]; try done; destruct Hm as (H1 & H2 & H3);
    repeat case_bool_decide; done.
Qed.
End caches.

(** ** Instances *)

Definition sample : Cache.Cache LineInfo.LineInfo :=
  Cache.make Cache.DATA_CACHE Cache.WRITE_BACK 1 4 64 Replacement.LRU true.
Definition sample_line (tag : Z) : LineInfo.LineInfo := LineInfo.mkLineInfo tag CacheState.SHARED.
Definition sample_fill : list Z := replicate 64 7.

Lemma sample_geometry : Cache.geometry_ok 1 4 64.
Proof. split; [lia|]. split; [exists 6; lia|]. split; [lia|]. vm_compute. done. Qed.

Lemma sample_ok :
  Cache.wf sample ∧ Cache.reach sample ∅ ∧ (∀ a, Cache.address_ok a → Cache.lookup sample a = None).
Proof.
  destruct (Cache.make_ok (L := LineInfo.LineInfo) Cache.DATA_CACHE Cache.WRITE_BACK 1 4 64 Replacement.LRU
    true sample_geometry) as (H1 & _ & _ & H2 & H3). done.
Qed.

Lemma sample_insert_args a c tag :
  Cache.address_ok a → Cache._line_size c = 64 → Cache.getTag_of c a = tag →
  Cache.insert_args_ok c a (sample_line tag) (Some sample_fill) fresh.
Proof. intros Ha Hl <-. by split_and!. Qed.

(** The cache after the line of address 64 was inserted. *)
Definition sample1 : Cache.Cache LineInfo.LineInfo :=
  match Cache.insertCacheLine 64 (sample_line 1) (Some sample_fill) fresh true sample with
  | Ok (_, c) => c
  | Fail _ => sample
  end.

Lemma sample1_ok : Cache.reach sample1 {[64 := Cache.PRESENT]} ∧
  Cache.lookup sample1 64 = Some (sample_line 1, sample_fill).
Proof.
  destruct sample_ok as (Hwf & Hr & Hno). split; [|by vm_compute].
  refine (Cache.reach_insert sample ∅ 64 (sample_line 1) sample_fill fresh true
    (Cache.mkEviction false (Cache.getAddressFromTag sample INVALID_TAG) fresh None) sample1 Hr _ _ _ _).
  - split; [done|by vm_compute].
  - by apply sample_insert_args.
  - by vm_compute.
  - by vm_compute.
Qed.

Lemma insert_lookup_witness :
  ∃ e c', Cache.insertCacheLine 64 (sample_line 1) (Some sample_fill) fresh true sample = Ok (e, c') ∧
    Cache.lookup c' 64 = Some (sample_line 1, sample_fill).
Proof.
  destruct sample_ok as (Hwf & _ & Hno).
  destruct (insert_lookup sample 64 (sample_line 1) sample_fill fresh true) as (e & c' & H1 & _ & H2 & _);
    [done|by apply sample_insert_args|by apply Hno|].
  exists e, c'. split; [exact H1|]. rewrite H2 by done. by rewrite decide_True.
Defined.

Lemma store_load_roundtrip_witness :
  ∃ c' c'', Cache.accessCacheLine (u64 (64 + 8)) (Cache.STORE (Some [1; 2; 3]) 3) sample1 = Ok (None, c') ∧
    Cache.accessCacheLine (u64 (64 + 8)) (Cache.LOAD true 3) c' = Ok (Some [1; 2; 3], c'').
Proof.
  destruct sample1_ok as [Hr Hl]. destruct (Cache.reach_sound _ _ Hr) as [Hwf _ _ _].
  apply (store_load_roundtrip sample1 64 8 [1; 2; 3] (sample_line 1) sample_fill); done.
Defined.

Lemma cache_invariant_witness :
  Cache.wf sample1 ∧ zlookup (Cache._cache_line_state_counters sample1) 1 = Some 1.
Proof.
  destruct sample1_ok as [Hr _].
  destruct (cache_invariant (L := LineInfo.LineInfo) Cache.DATA_CACHE Cache.WRITE_BACK 1 4 64
    Replacement.LRU true sample_geometry) as (_ & _ & Hinv).
  destruct (Hinv sample1 _ Hr) as [Hwf Hst]. split; [exact Hwf|].
  specialize (Hst CacheState.SHARED ltac:(done)).
  etransitivity; [exact Hst|by vm_compute].
Defined.

(** The line of address 64 is invalidated: the next miss is a sharing miss. *)
Lemma miss_classification_witness :
  ∃ c g, Cache.reach c g ∧ Cache.getMissType c 64 = Cache.SHARING_MISS ∧
         Cache.getMissType c 128 = Cache.COLD_MISS.
Proof.
  destruct sample1_ok as [Hr Hl].
  set (c := match Cache.setCacheLineInfo 64 (invalidate (sample_line 1)) sample1 with
            | Ok (_, c) => c | Fail _ => sample1 end).
  assert (Cache.reach c (<[64 := Cache.LEFT_INVALIDATED]> {[64 := Cache.PRESENT]})) as Hc.
  { refine (Cache.reach_update sample1 _ 64 (invalidate (sample_line 1)) (sample_line 1) sample_fill c
      Hr _ _ Hl _); [split; [done|by vm_compute]| |by vm_compute].
    split; [done|by vm_compute]. }
  exists c, (<[64 := Cache.LEFT_INVALIDATED]> {[64 := Cache.PRESENT]}). split; [exact Hc|].
  destruct (miss_classification c _ 64 Hc) as [H1 _]; [by vm_compute..|].
  destruct (miss_classification c _ 128 Hc) as [H2 _]; [by vm_compute..|].
  rewrite H1, H2. by vm_compute.
Defined.
