(* ===== verification/Shmem.v ===== *)
(** * Shmem: messages, requests, clocks, memory and homes of the MSI protocol

    Models common/tile/memory_subsystem/pr_l1_pr_l2_dram_directory_msi/
    {shmem_msg,shmem_req}, common/misc/hash_map_queue.h,
    common/tile/memory_subsystem/{mem_component,dram_cntlr,address_home_lookup}
    and the latency parts of performance_models/{shmem_perf_model,
    cache_perf_model*}. *)
From S2P Require Import Prelude Utils CacheSet Cache.

Module MemComponent.
Inductive Type_ : Type :=
  | INVALID | CORE | L1_ICACHE | L1_DCACHE | L2_CACHE | DRAM_DIRECTORY | DRAM_CNTLR.
#[global] Instance Type_eq_dec : EqDecision Type_.
Proof. solve_decision. Defined.
End MemComponent.

(** ** Messages *)
Module ShmemMsg.

Inductive Type_ : Type :=
  | INVALID_MSG_TYPE | EX_REQ | SH_REQ | INV_REQ | FLUSH_REQ | WB_REQ
  | EX_REP | SH_REP | UPGRADE_REP | INV_REP | FLUSH_REP | WB_REP | NULLIFY_REQ.
#[global] Instance Type_eq_dec : EqDecision Type_.
Proof. solve_decision. Defined.

Record ShmemMsg := mkShmemMsg {
  _msg_type : Type_;
  _sender_mem_component : MemComponent.Type_;
  _receiver_mem_component : MemComponent.Type_;
  _requester : Z;
  _address : Z;
  _data_buf : option (list Z);
  _data_length : Z;
  _modeled : bool
}.
#[global] Instance eta_ShmemMsg : Eta ShmemMsg := λ m, mkShmemMsg
  (_msg_type m) (_sender_mem_component m) (_receiver_mem_component m) (_requester m)
  (_address m) (_data_buf m) (_data_length m) (_modeled m).

(** The three constructors that build a message. *)
Definition empty : ShmemMsg :=
  mkShmemMsg INVALID_MSG_TYPE MemComponent.INVALID MemComponent.INVALID INVALID_TILE_ID
    INVALID_ADDRESS None 0 false.
Definition make (msg_type : Type_) (sender receiver : MemComponent.Type_) (requester address : Z)
    (modeled : bool) : ShmemMsg :=
  mkShmemMsg msg_type sender receiver requester address None 0 modeled.
Definition make_data (msg_type : Type_) (sender receiver : MemComponent.Type_) (requester address : Z)
    (data_buf : option (list Z)) (data_length : Z) (modeled : bool) : ShmemMsg :=
  mkShmemMsg msg_type sender receiver requester address data_buf data_length modeled.

(** A message on the wire: the bytes of the object, then its data. *)
Record MsgBuf := mkMsgBuf { object : ShmemMsg; payload : list Z }.

Definition makeMsgBuf (m : ShmemMsg) : res MsgBuf :=
  if 0 <? _data_length m then
    buf ← of_option (_data_buf m) (ELog "ShmemMsg::makeMsgBuf") ;
    data ← mem_read buf 0 (_data_length m) ;
    Ok (mkMsgBuf m data)
  else Ok (mkMsgBuf m []).

Definition getShmemMsg (b : MsgBuf) : res ShmemMsg :=
  let m := object b in
  if 0 <? _data_length m then
    data ← mem_read (payload b) 0 (_data_length m) ;
    Ok (m <| _data_buf := Some data |>)
  else Ok m.

(** Size of the modelled packet in bytes. *)
Definition getModeledLength (m : ShmemMsg) : res Z :=
  match _msg_type m with
  | EX_REQ | SH_REQ | INV_REQ | FLUSH_REQ | WB_REQ | UPGRADE_REP | INV_REP => Ok 9
  | EX_REP | SH_REP | FLUSH_REP | WB_REP => Ok (u32 (9 + _data_length m))
  | INVALID_MSG_TYPE | NULLIFY_REQ => Fail (ELog "ShmemMsg::getModeledLength")
  end.

(** A message whose buffer is as long as it says. *)
Definition wf (m : ShmemMsg) : Prop :=
  match _data_buf m with
  | Some d => 0 < _data_length m ∧ zlength d = _data_length m
  | None => _data_length m = 0
  end.

(** What is sent is what is received. *)
Lemma getShmemMsg_makeMsgBuf m : wf m → (b ← makeMsgBuf m ; getShmemMsg b) = Ok m.
Proof.
  unfold wf, makeMsgBuf, getShmemMsg. destruct m as [t s r q a buf n md]; cbn.
  destruct buf as [d|]; intros Hwf.
  - destruct Hwf as [Hn Hl]. rewrite (proj2 (Z.ltb_lt 0 n)) by lia. cbn.
    assert (mem_read d 0 n = Ok d) as Hd.
    { rewrite mem_read_ok by lia. cbn. by rewrite drop_0, take_ge by (unfold zlength in *; lia). }
    rewrite Hd. cbn. rewrite (proj2 (Z.ltb_lt 0 n)) by lia. by rewrite Hd.
  - subst n. done.
Qed.

End ShmemMsg.

(** ** Requests of the directory: shmem_req.{h,cc} *)
Module ShmemReq.

Record ShmemReq := mkShmemReq { m_shmem_msg : ShmemMsg.ShmemMsg; m_time : Z }.
#[global] Instance eta_ShmemReq : Eta ShmemReq := λ r, mkShmemReq (m_shmem_msg r) (m_time r).

Definition make (msg : ShmemMsg.ShmemMsg) (time : Z) : res ShmemReq :=
  check (bool_decide (ShmemMsg._data_buf msg = None)) (ELog "ShmemReq::ShmemReq") ;;
  Ok (mkShmemReq msg time).

Definition updateTime (time : Z) (r : ShmemReq) : ShmemReq :=
  if time >? m_time r then r <| m_time := time |> else r.

End ShmemReq.

(** ** Queues per key: hash_map_queue.h *)
Module HashMapQueue.
Section HashMapQueue.
Context {V : Type}.

(** [map<K, queue<V> >], with the front of a queue at the head of its list. *)
Local Abbreviation HashMapQueue := (gmap Z (list V)).

Definition enqueue (q : HashMapQueue) (key : Z) (value : V) : HashMapQueue :=
  match q !! key with
  | None => <[key := [value]]> q
  | Some value_queue => <[key := value_queue ++ [value]]> q
  end.

(** The value is [V()], here [None], when the key has no queue. *)
Definition dequeue (q : HashMapQueue) (key : Z) : option V * HashMapQueue :=
  match q !! key with
  | None => (None, q)
  | Some value_queue =>
    (head value_queue,
     match tail value_queue with
     | [] => delete key q
     | rest => <[key := rest]> q
     end)
  end.

Definition front (q : HashMapQueue) (key : Z) : option V :=
  match q !! key with None => None | Some value_queue => head value_queue end.

(** The front value is shared with the queue: a change of it is a change of
    the queue. *)
Definition set_front (q : HashMapQueue) (key : Z) (value : V) : HashMapQueue :=
  alter (λ vs, match vs with [] => [] | _ :: rest => value :: rest end) key q.

Definition count (q : HashMapQueue) (key : Z) : Z :=
  match q !! key with None => 0 | Some value_queue => zlength value_queue end.
Definition empty (q : HashMapQueue) (key : Z) : bool :=
  match q !! key with None => true | Some _ => false end.
Definition size (q : HashMapQueue) : Z := Z.of_nat (base.size q).

(** No queue in the map is empty. *)
Definition wf (q : HashMapQueue) : Prop := ∀ key vs, q !! key = Some vs → vs ≠ [].

(** The queue of a key as a list. *)
Definition contents (q : HashMapQueue) (key : Z) : list V := default [] (q !! key).

Lemma enqueue_wf q key v : wf q → wf (enqueue q key v).
Proof.
  intros Hq k vs. unfold enqueue. destruct (q !! key) as [l|] eqn:E;
    (destruct (decide (k = key)) as [->|Hne];
     [rewrite lookup_insert_eq|rewrite lookup_insert_ne by done; by apply Hq]);
    intros [= <-]; [by destruct l|done].
Qed.

Lemma dequeue_wf q key : wf q → wf (dequeue q key).2.
Proof.
  intros Hq k vs. unfold dequeue. destruct (q !! key) as [l|] eqn:E; [|by apply Hq].
  cbn. destruct (tail l) as [|x r].
  - rewrite lookup_delete_Some. intros [_ H]. by apply Hq in H.
  - destruct (decide (k = key)) as [->|Hne]; [rewrite lookup_insert_eq; by intros [= <-]|].
    rewrite lookup_insert_ne by done. apply Hq.
Qed.

Lemma contents_enqueue q key v k :
  contents (enqueue q key v) k = if decide (k = key) then contents q key ++ [v] else contents q k.
Proof.
  unfold contents, enqueue. destruct (q !! key) as [l|] eqn:E; case_decide as Hk; subst;
    rewrite ?lookup_insert_eq, ?lookup_insert_ne by done; done.
Qed.

Lemma contents_dequeue q key k :
  contents (dequeue q key).2 k = if decide (k = key) then tail (contents q key) else contents q k.
Proof.
  unfold contents, dequeue. destruct (q !! key) as [l|] eqn:E; cbn;
    [destruct (tail l) as [|x r] eqn:Et|]; case_decide as Hk; subst;
    rewrite ?lookup_insert_eq, ?lookup_insert_ne, ?lookup_delete_eq, ?lookup_delete_ne by done;
    try done; by rewrite E.
Qed.

Lemma dequeue_value q key : (dequeue q key).1 = head (contents q key).
Proof. unfold dequeue, contents. by destruct (q !! key). Qed.
Lemma front_value q key : front q key = head (contents q key).
Proof. unfold front, contents. by destruct (q !! key). Qed.
Lemma count_value q key : count q key = zlength (contents q key).
Proof. unfold count, contents. by destruct (q !! key). Qed.

Lemma empty_value q key : wf q → empty q key = bool_decide (contents q key = []).
Proof.
  intros Hq. unfold empty, contents. destruct (q !! key) as [l|] eqn:E; cbn; [|done].
  apply Hq in E. by rewrite bool_decide_false.
Qed.

Lemma contents_set_front q key v k :
  contents (set_front q key v) k =
  if decide (k = key) then match contents q key with [] => [] | _ :: r => v :: r end
  else contents q k.
Proof.
  unfold contents, set_front. case_decide as Hk.
  - subst. rewrite lookup_alter_eq. by destruct (q !! key).
  - by rewrite lookup_alter_ne by done.
Qed.

Lemma set_front_wf q key v : wf q → wf (set_front q key v).
Proof.
  intros Hq k vs. unfold set_front. destruct (decide (k = key)) as [->|Hne].
  - rewrite lookup_alter_eq. intros (l & Hl & ->)%fmap_Some. apply Hq in Hl. by destruct l.
  - rewrite lookup_alter_ne by done. apply Hq.
Qed.

End HashMapQueue.
Abbreviation HashMapQueue V := (gmap Z (list V)).
End HashMapQueue.

(** ** Clocks: shmem_perf_model.{h,cc} *)
Module ShmemPerfModel.

Inductive ThreadType : Type := APP_THREAD | SIM_THREAD.
#[global] Instance ThreadType_eq_dec : EqDecision ThreadType.
Proof. solve_decision. Defined.

Record ShmemPerfModel := mkShmemPerfModel {
  _app_cycle_count : Z;
  _sim_cycle_count : Z;
  _enabled : bool;
  _num_memory_accesses : Z;
  _total_memory_access_latency_in_clock_cycles : Z
}.
#[global] Instance eta_ShmemPerfModel : Eta ShmemPerfModel := λ p, mkShmemPerfModel
  (_app_cycle_count p) (_sim_cycle_count p) (_enabled p) (_num_memory_accesses p)
  (_total_memory_access_latency_in_clock_cycles p).

Definition make : ShmemPerfModel := mkShmemPerfModel 0 0 false 0 0.

Definition getCycleCount (t : ThreadType) (p : ShmemPerfModel) : Z :=
  match t with APP_THREAD => _app_cycle_count p | SIM_THREAD => _sim_cycle_count p end.
Definition setCycleCount (t : ThreadType) (count : Z) (p : ShmemPerfModel) : ShmemPerfModel :=
  match t with
  | APP_THREAD => p <| _app_cycle_count := count |>
  | SIM_THREAD => p <| _sim_cycle_count := count |>
  end.
Definition updateCycleCount (t : ThreadType) (cycle_count : Z) (p : ShmemPerfModel) : ShmemPerfModel :=
  if getCycleCount t p <? cycle_count then setCycleCount t cycle_count p else p.
Definition incrCycleCount (t : ThreadType) (count : Z) (p : ShmemPerfModel) : res ShmemPerfModel :=
  let i_cycle_count := getCycleCount t p in
  let f_cycle_count := u64 (i_cycle_count + count) in
  check (i_cycle_count <=? f_cycle_count) (ELog "ShmemPerfModel::incrCycleCount") ;;
  Ok (setCycleCount t f_cycle_count p).
Definition incrTotalMemoryAccessLatency (latency : Z) (p : ShmemPerfModel) : ShmemPerfModel :=
  if _enabled p then
    p <| _num_memory_accesses ::= λ n, u64 (n + 1) |>
      <| _total_memory_access_latency_in_clock_cycles ::= λ n, u64 (n + latency) |>
  else p.

(** The assertion of [incrCycleCount] detects exactly the wrap-around. *)
Lemma incrCycleCount_spec t count p :
  0 ≤ getCycleCount t p < 2 ^ 64 → 0 ≤ count < 2 ^ 64 →
  incrCycleCount t count p =
  if getCycleCount t p + count <? 2 ^ 64 then Ok (setCycleCount t (getCycleCount t p + count) p)
  else Fail (ELog "ShmemPerfModel::incrCycleCount").
Proof.
  intros Hc Hn. unfold incrCycleCount. destruct (Z.ltb_spec (getCycleCount t p + count) (2 ^ 64)).
  - rewrite u64_small by lia. by rewrite (proj2 (Z.leb_le _ _)) by lia.
  - assert (u64 (getCycleCount t p + count) = getCycleCount t p + count - 2 ^ 64) as ->.
    { unfold u64, uint. symmetry. apply Z.mod_unique with 1; lia. }
    by rewrite (proj2 (Z.leb_gt _ _)) by lia.
Qed.

End ShmemPerfModel.

(** ** Access times of a cache: cache_perf_model*.{h,cc} *)
Module CachePerfModel.

Inductive CacheAccess_t : Type := ACCESS_CACHE_DATA_AND_TAGS | ACCESS_CACHE_DATA | ACCESS_CACHE_TAGS.
Inductive PerfModel_t : Type := CACHE_PERF_MODEL_PARALLEL | CACHE_PERF_MODEL_SEQUENTIAL.

Record CachePerfModel := mkCachePerfModel {
  _model : PerfModel_t;
  _data_array_access_time : Z;
  _tag_array_access_time : Z;
  _enabled : bool
}.
#[global] Instance eta_CachePerfModel : Eta CachePerfModel := λ p, mkCachePerfModel
  (_model p) (_data_array_access_time p) (_tag_array_access_time p) (_enabled p).

Definition parseModelType (model_type : string) : res PerfModel_t :=
  if bool_decide (model_type = "parallel") then Ok CACHE_PERF_MODEL_PARALLEL
  else if bool_decide (model_type = "sequential") then Ok CACHE_PERF_MODEL_SEQUENTIAL
  else Fail (ELog "CachePerfModel::parseModelType").

Definition create (model_type : string) (data_time tag_time : Z) : res CachePerfModel :=
  perf_model ← parseModelType model_type ;
  Ok (mkCachePerfModel perf_model data_time tag_time false).

Definition getLatency (p : CachePerfModel) (access : CacheAccess_t) : Z :=
  if _enabled p then
    match _model p, access with
    | _, ACCESS_CACHE_TAGS => _tag_array_access_time p
    | _, ACCESS_CACHE_DATA => _data_array_access_time p
    | CACHE_PERF_MODEL_PARALLEL, ACCESS_CACHE_DATA_AND_TAGS => _data_array_access_time p
    | CACHE_PERF_MODEL_SEQUENTIAL, ACCESS_CACHE_DATA_AND_TAGS =>
      u64 (_data_array_access_time p + _tag_array_access_time p)
    end
  else 0.

End CachePerfModel.

(** ** Homes of addresses: address_home_lookup.cc *)
Module AddressHomeLookup.

Record AddressHomeLookup := mkAddressHomeLookup {
  _ahl_param : Z;
  _tile_list : list Z;
  _total_modules : Z
}.

Definition make (ahl_param : Z) (tile_list : list Z) (cache_line_size : Z) : res AddressHomeLookup :=
  check (s32 cache_line_size <=? Z.shiftl 1 ahl_param) (ELog "AddressHomeLookup") ;;
  Ok (mkAddressHomeLookup ahl_param tile_list (u32 (zlength tile_list))).

Definition getHome (h : AddressHomeLookup) (address : Z) : res Z :=
  check (negb (_total_modules h =? 0)) (EDivZero "AddressHomeLookup::getHome") ;;
  let module_num := s32 (Z.shiftr address (_ahl_param h) `mod` _total_modules h) in
  check ((0 <=? module_num) && (module_num <? s32 (_total_modules h)))
    (ELog "AddressHomeLookup::getHome") ;;
  vget "_tile_list" (_tile_list h) module_num.

(** Every address has one of the listed tiles as its home, and the addresses
    of one cache line have the same home. *)
Lemma home_lookup_ok h address :
  _total_modules h = zlength (_tile_list h) → 0 < zlength (_tile_list h) < 2 ^ 31 → 0 ≤ address →
  ∃ t, getHome h address = Ok t ∧ t ∈ _tile_list h.
Proof.
  intros Ht Hl Ha. unfold getHome. rewrite Ht, (proj2 (Z.eqb_neq _ 0)) by lia. cbn.
  set (m := Z.shiftr address (_ahl_param h) `mod` zlength (_tile_list h)).
  assert (0 ≤ m < zlength (_tile_list h)) as Hm by (apply Z.mod_pos_bound; lia).
  rewrite !s32_small by lia.
  rewrite (proj2 (Z.leb_le 0 m)), (proj2 (Z.ltb_lt m _)) by lia. cbn.
  destruct (zlookup_is_Some (_tile_list h) m Hm) as [t Hlk]. exists t.
  split; [by apply vget_Ok|]. apply zlookup_Some in Hlk as [_ Hlk]. by eapply list_elem_of_lookup_2.
Qed.

End AddressHomeLookup.

(** ** The memory: dram_cntlr.{h,cc} *)

(** The latency model of the memory ([DramPerfModel] with its queue model, in
    floating point): the latency of an access in cycles of the tile's clock,
    from the cycle of the access. *)
Class DramTiming := {
  dram_perf_state : Type;
  runDramPerfModel : dram_perf_state → Z → Z * dram_perf_state
}.

Module DramCntlr.
Section DramCntlr.
Context `{DramTiming}.

Record DramCntlr := mkDramCntlr {
  _cache_line_size : Z;
  _data_map : gmap Z (list Z);
  _dram_read_count : gmap Z Z;
  _dram_write_count : gmap Z Z;
  _dram_perf_model : dram_perf_state
}.
#[global] Instance eta_DramCntlr : Eta DramCntlr := λ d, mkDramCntlr
  (_cache_line_size d) (_data_map d) (_dram_read_count d) (_dram_write_count d) (_dram_perf_model d).

Definition make (cache_line_size : Z) (perf : dram_perf_state) : DramCntlr :=
  mkDramCntlr cache_line_size ∅ ∅ ∅ perf.

Definition addToDramAccessCount (address : Z) (m : gmap Z Z) : gmap Z Z :=
  partial_alter (λ n, Some (u64 (default 0 n + 1))) address m.

(** A line that was never written reads as zeroes and exists from then on. *)
Definition getDataFromDram (address : Z) (modeled : bool) (t : ShmemPerfModel.ThreadType)
    (d : DramCntlr) (clock : ShmemPerfModel.ShmemPerfModel)
    : res (list Z * DramCntlr * ShmemPerfModel.ShmemPerfModel) :=
  let line := default (replicate (Z.to_nat (_cache_line_size d)) 0) (_data_map d !! address) in
  let d := d <| _data_map := <[address := line]> (_data_map d) |> in
  let '(latency, perf) :=
    if modeled then runDramPerfModel (_dram_perf_model d) (ShmemPerfModel.getCycleCount t clock)
    else (0, _dram_perf_model d) in
  clock ← ShmemPerfModel.incrCycleCount t latency clock ;
  Ok (line, d <| _dram_perf_model := perf |>
              <| _dram_read_count ::= addToDramAccessCount address |>, clock).

(** Writing a line that was never read is an error.  The latency of a write
    is not added to the clock. *)
Definition putDataToDram (address : Z) (data_buf : option (list Z)) (modeled : bool)
    (t : ShmemPerfModel.ThreadType) (d : DramCntlr) (clock : ShmemPerfModel.ShmemPerfModel)
    : res DramCntlr :=
  check (bool_decide (is_Some (_data_map d !! address))) (ELog "Data Buffer does not exist") ;;
  buf ← of_option data_buf (ENull "putDataToDram") ;
  line ← mem_read buf 0 (_cache_line_size d) ;
  let perf :=
    if modeled then (runDramPerfModel (_dram_perf_model d) (ShmemPerfModel.getCycleCount t clock)).2
    else _dram_perf_model d in
  Ok (d <| _data_map := <[address := line]> (_data_map d) |>
        <| _dram_perf_model := perf |>
        <| _dram_write_count ::= addToDramAccessCount address |>).

(** The contents of memory: unwritten lines are zero. *)
Definition contents (d : DramCntlr) (address : Z) : list Z :=
  default (replicate (Z.to_nat (_cache_line_size d)) 0) (_data_map d !! address).

Lemma getDataFromDram_contents address modeled t d clock line d' clock' :
  getDataFromDram address modeled t d clock = Ok (line, d', clock') →
  line = contents d address ∧ (∀ b, contents d' b = contents d b) ∧
  is_Some (_data_map d' !! address) ∧
  (∀ b, is_Some (_data_map d !! b) → is_Some (_data_map d' !! b)) ∧
  _cache_line_size d' = _cache_line_size d.
Proof.
  unfold getDataFromDram. intros Hrun. destruct (if modeled then _ else _) as [lat perf].
  run_inv. cbn. split_and!; try done.
  - intros b. unfold contents. cbn. destruct (decide (b = address)) as [->|Hne].
    + by rewrite lookup_insert_eq.
    + by rewrite lookup_insert_ne.
  - rewrite lookup_insert_eq. eauto.
  - intros b Hb. destruct (decide (b = address)) as [->|Hne].
    + rewrite lookup_insert_eq. eauto.
    + by rewrite lookup_insert_ne.
Qed.

Lemma putDataToDram_contents address data modeled t d clock :
  is_Some (_data_map d !! address) → zlength data = _cache_line_size d →
  ∃ d', putDataToDram address (Some data) modeled t d clock = Ok d' ∧
    (∀ b, contents d' b = if decide (b = address) then data else contents d b) ∧
    (∀ b, is_Some (_data_map d !! b) → is_Some (_data_map d' !! b)) ∧
    _cache_line_size d' = _cache_line_size d.
Proof.
  intros Hd Hl. unfold putDataToDram. rewrite bool_decide_true by done. cbn.
  rewrite mem_read_ok by (unfold zlength in *; lia). cbn.
  rewrite drop_0, take_ge by (unfold zlength in *; lia).
  eexists. split; [done|]. cbn. split_and!; [| |done]; intros b.
  - unfold contents. cbn. case_decide; subst; by rewrite ?lookup_insert_eq, ?lookup_insert_ne.
  - intros Hb. destruct (decide (b = address)) as [->|Hne].
    + rewrite lookup_insert_eq. eauto.
    + by rewrite lookup_insert_ne.
Qed.

End DramCntlr.
Arguments DramCntlr {_}.
End DramCntlr.

(** ** Packets handed to the network *)
Module Packet.

(** [NetPacket], as the memory managers fill it; [receiver = None] is
    [NetPacket::BROADCAST]. *)
Record Packet := mkPacket {
  time : Z;
  sender : Z;
  receiver : option Z;
  data : ShmemMsg.MsgBuf
}.

(** [MemoryManager::sendMsg] and [broadcastMsg]: the packet they send. *)
Definition make (tile_id cycle_count : Z) (receiver : option Z) (msg : ShmemMsg.ShmemMsg)
    : res Packet :=
  check (Bool.eqb (bool_decide (ShmemMsg._data_buf msg = None)) (ShmemMsg._data_length msg =? 0))
    (EAssert "MemoryManager::sendMsg") ;;
  msg_buf ← ShmemMsg.makeMsgBuf msg ;
  Ok (mkPacket cycle_count tile_id receiver msg_buf).

Lemma packet_ok tile_id cycle receiver msg :
  ShmemMsg.wf msg →
  ∃ b, ShmemMsg.makeMsgBuf msg = Ok b ∧ ShmemMsg.getShmemMsg b = Ok msg ∧
       make tile_id cycle receiver msg = Ok (mkPacket cycle tile_id receiver b).
Proof.
  intros Hwf. pose proof (ShmemMsg.getShmemMsg_makeMsgBuf msg Hwf) as Hrt.
  apply res_bind_Ok in Hrt as (b & Hb & Hg). exists b. split_and!; [done|done|].
  unfold make. unfold ShmemMsg.wf in Hwf.
  assert (Bool.eqb (bool_decide (ShmemMsg._data_buf msg = None)) (ShmemMsg._data_length msg =? 0) = true) as ->.
  { destruct (ShmemMsg._data_buf msg).
    - rewrite bool_decide_false by done. by rewrite (proj2 (Z.eqb_neq _ _)) by lia.
    - by rewrite Hwf. }
  cbn. by rewrite Hb.
Qed.

End Packet.

(** ** Miss types that are modelled: memory_manager.{h,cc} *)
Module MissTypes.

(** [_miss_type_modeled] has one flag per miss type.  [INVALID_MISS_TYPE] is
    an index beyond the array; [beyond] is the value that lies there. *)
Record MissTypes := mkMissTypes {
  cold : bool; capacity : bool; sharing : bool; beyond : bool
}.
#[global] Instance eta_MissTypes : Eta MissTypes := λ m,
  mkMissTypes (cold m) (capacity m) (sharing m) (beyond m).

(** [initializeModeledMissTypes], from the words of
    [caching_protocol/unmodeled_miss_types]. *)
Definition initializeModeledMissTypes (tokens : list string) (beyond : bool) : res MissTypes :=
  foldl (λ acc s,
      m ← acc ; t ← Cache.parseMissType s ;
      Ok match t with
         | Cache.COLD_MISS => m <| cold := false |>
         | Cache.CAPACITY_MISS => m <| capacity := false |>
         | Cache.SHARING_MISS => m <| sharing := false |>
         | Cache.INVALID_MISS_TYPE => m
         end) (Ok (mkMissTypes true true true beyond)) tokens.

Definition isMissTypeModeled (m : MissTypes) (t : Cache.MissType) : bool :=
  match t with
  | Cache.COLD_MISS => cold m
  | Cache.CAPACITY_MISS => capacity m
  | Cache.SHARING_MISS => sharing m
  | Cache.INVALID_MISS_TYPE => beyond m
  end.

End MissTypes.
