(* ===== verification/ShmemTheorems.v ===== *)
(** * ShmemTheorems: the properties of the shared memory building blocks

    Messages, request queues, home lookup, clocks and memory: what Shmem.v
    promises to the controllers of the protocols. *)
From S2P Require Import Prelude Utils CacheSet Cache Shmem.

(** What a memory manager sends is what the receiver gets: every message
    whose buffer is as long as it says is packed, and unpacking the packet gives
    the message back, bytes included; its modelled length counts the type, the
    address and the bytes. *)
Lemma message_roundtrip id cycle receiver msg :
  ShmemMsg.wf msg → 0 ≤ ShmemMsg._data_length msg < 2 ^ 31 →
  ∃ p, Packet.make id cycle receiver msg = Ok p ∧ Packet.sender p = id ∧
    Packet.receiver p = receiver ∧ ShmemMsg.getShmemMsg (Packet.data p) = Ok msg ∧
    (ShmemMsg._msg_type msg ∈ [ShmemMsg.EX_REP; ShmemMsg.SH_REP; ShmemMsg.FLUSH_REP; ShmemMsg.WB_REP] →
     ShmemMsg.getModeledLength msg = Ok (9 + ShmemMsg._data_length msg)).
Proof.
  intros Hwf Hl. destruct (Packet.packet_ok id cycle receiver msg Hwf) as (b & _ & Hg & Hm).
  eexists. split; [exact Hm|]. cbn. split_and!; try done. intros Ht. unfold ShmemMsg.getModeledLength.
  destruct (ShmemMsg._msg_type msg); try set_solver; by rewrite u32_small by lia.
Qed.
Lemma message_roundtrip_witness :
  ∃ p, Packet.make 3 100 (Some 5)
         (ShmemMsg.make_data ShmemMsg.SH_REP MemComponent.DRAM_DIRECTORY MemComponent.L2_CACHE 5 64
            (Some [1; 2]) 2 true) = Ok p ∧ Packet.receiver p = Some 5.
Proof.
  destruct (message_roundtrip 3 100 (Some 5)
    (ShmemMsg.make_data ShmemMsg.SH_REP MemComponent.DRAM_DIRECTORY MemComponent.L2_CACHE 5 64
       (Some [1; 2]) 2 true)) as (p & H1 & _ & H2 & _); [done|cbn; lia|].
  exists p. split; [exact H1|exact H2].
Defined.

(** ** Queues per key *)

Inductive queue_op (V : Type) : Type :=
  | Enqueue (key : Z) (v : V)
  | Dequeue (key : Z)
  | Front (key : Z)
  | Count (key : Z).
Arguments Enqueue {V} key v.
Arguments Dequeue {V} key.
Arguments Front {V} key.
Arguments Count {V} key.

(** What an operation shows: a value, or a number. *)
Definition answer (V : Type) : Type := option V + Z.

(** The operations on the map of queues, and on one list per key. *)
Fixpoint run_queues {V} (q : HashMapQueue.HashMapQueue V) (ops : list (queue_op V)) : list (answer V) :=
  match ops with
  | [] => []
  | Enqueue k v :: ops => run_queues (HashMapQueue.enqueue q k v) ops
  | Dequeue k :: ops => inl (HashMapQueue.dequeue q k).1 :: run_queues (HashMapQueue.dequeue q k).2 ops
  | Front k :: ops => inl (HashMapQueue.front q k) :: run_queues q ops
  | Count k :: ops => inr (HashMapQueue.count q k) :: run_queues q ops
  end.
Definition set_key {V} (f : Z → list V) (k : Z) (l : list V) : Z → list V :=
  λ k', if decide (k' = k) then l else f k'.
Fixpoint run_lists {V} (f : Z → list V) (ops : list (queue_op V)) : list (answer V) :=
  match ops with
  | [] => []
  | Enqueue k v :: ops => run_lists (set_key f k (f k ++ [v])) ops
  | Dequeue k :: ops => inl (head (f k)) :: run_lists (set_key f k (tail (f k))) ops
  | Front k :: ops => inl (head (f k)) :: run_lists f ops
  | Count k :: ops => inr (zlength (f k)) :: run_lists f ops
  end.

(** The map of request queues refines one first-in-first-out list per key:
    every sequence of operations gives the answers of the lists, so requests for
    an address are served in the order of arrival whatever happens to other
    addresses. *)
Lemma queues_refine_fifo {V} (q : HashMapQueue.HashMapQueue V) (f : Z → list V) ops :
  (∀ k, HashMapQueue.contents q k = f k) → run_queues q ops = run_lists f ops.
Proof.
  revert q f. induction ops as [|[k v|k|k|k] ops IH]; intros q f Hq; cbn; [done|..].
  - apply IH. intros k'. unfold set_key. by rewrite HashMapQueue.contents_enqueue, !Hq.
  - rewrite HashMapQueue.dequeue_value, Hq. f_equal. apply IH. intros k'.
    unfold set_key. by rewrite HashMapQueue.contents_dequeue, !Hq.
  - rewrite HashMapQueue.front_value, Hq. f_equal. by apply IH.
  - rewrite HashMapQueue.count_value, Hq. f_equal. by apply IH.
Qed.
Lemma queues_refine_fifo_witness :
  run_queues (∅ : HashMapQueue.HashMapQueue Z) [Enqueue 8 1; Enqueue 9 5; Enqueue 8 2; Dequeue 8; Dequeue 8; Dequeue 8] =
  [inl (Some 1); inl (Some 2); inl None].
Proof. rewrite (queues_refine_fifo ∅ (λ _, [])); [by vm_compute|intros k; reflexivity]. Defined.

(** Every address has a home among the tiles with a memory controller, all
    the addresses of one block of [2^ahl_param] bytes have the same home, and
    consecutive blocks go to consecutive tiles of the list. *)
Lemma home_total h address :
  AddressHomeLookup._total_modules h = zlength (AddressHomeLookup._tile_list h) →
  0 < zlength (AddressHomeLookup._tile_list h) < 2 ^ 31 → 0 ≤ AddressHomeLookup._ahl_param h →
  0 ≤ address →
  ∃ t, AddressHomeLookup.getHome h address = Ok t ∧
    zlookup (AddressHomeLookup._tile_list h)
      ((address / 2 ^ AddressHomeLookup._ahl_param h) `mod` zlength (AddressHomeLookup._tile_list h)) = Some t ∧
    ∀ b, 0 ≤ b → b / 2 ^ AddressHomeLookup._ahl_param h = address / 2 ^ AddressHomeLookup._ahl_param h →
      AddressHomeLookup.getHome h b = Ok t.
Proof.
  intros Ht Hl Hp Ha.
  set (n := zlength (AddressHomeLookup._tile_list h)) in *.
  assert (∀ b, 0 ≤ b → AddressHomeLookup.getHome h b =
    vget "_tile_list" (AddressHomeLookup._tile_list h) ((b / 2 ^ AddressHomeLookup._ahl_param h) `mod` n)) as Hrun.
  { intros b Hb. unfold AddressHomeLookup.getHome. rewrite Ht, (proj2 (Z.eqb_neq _ 0)) by lia. cbn.
    rewrite Z.shiftr_div_pow2 by done.
    set (m := _ `mod` n). assert (0 ≤ m < n) as Hm by (apply Z.mod_pos_bound; lia).
    rewrite !s32_small by lia. by rewrite (proj2 (Z.leb_le 0 m)), (proj2 (Z.ltb_lt m _)) by lia. }
  set (m := (address / 2 ^ AddressHomeLookup._ahl_param h) `mod` n).
  assert (0 ≤ m < n) as Hm by (apply Z.mod_pos_bound; lia).
  destruct (zlookup_is_Some (AddressHomeLookup._tile_list h) m Hm) as [t Hlk]. exists t.
  rewrite Hrun by done. split; [by apply vget_Ok|]. split; [done|].
  intros b Hb He. rewrite Hrun, He by done. by apply vget_Ok.
Qed.
Lemma home_total_witness :
  ∃ t, AddressHomeLookup.getHome (AddressHomeLookup.mkAddressHomeLookup 6 [4; 7; 9] 3) 130 = Ok t ∧
       zlookup [4; 7; 9] ((130 / 2 ^ 6) `mod` 3) = Some t.
Proof.
  destruct (home_total (AddressHomeLookup.mkAddressHomeLookup 6 [4; 7; 9] 3) 130) as (t & H1 & H2 & _);
    [done|done|done|lia|].
  exists t. split; [exact H1|exact H2].
Defined.

(** The check of [incrCycleCount] detects exactly the wrap-around of the
    64-bit clock: without it the clock advances by the count, and the other
    thread's clock is unchanged. *)
Lemma clock_overflow_detected t count p :
  0 ≤ ShmemPerfModel.getCycleCount t p < 2 ^ 64 → 0 ≤ count < 2 ^ 64 →
  if ShmemPerfModel.getCycleCount t p + count <? 2 ^ 64 then
    ∃ p', ShmemPerfModel.incrCycleCount t count p = Ok p' ∧
      ShmemPerfModel.getCycleCount t p' = ShmemPerfModel.getCycleCount t p + count ∧
      ∀ t', t' ≠ t → ShmemPerfModel.getCycleCount t' p' = ShmemPerfModel.getCycleCount t' p
  else ShmemPerfModel.incrCycleCount t count p = Fail (ELog "ShmemPerfModel::incrCycleCount").
Proof.
  intros Hc Hn. rewrite ShmemPerfModel.incrCycleCount_spec by done.
  destruct (_ <? _); [|done]. eexists. split; [done|]. destruct t; cbn; (split; [done|]); by intros [].
Qed.
Lemma clock_overflow_detected_witness :
  ShmemPerfModel.incrCycleCount ShmemPerfModel.SIM_THREAD 1
    (ShmemPerfModel.mkShmemPerfModel 0 (2 ^ 64 - 1) true 0 0) =
  Fail (ELog "ShmemPerfModel::incrCycleCount").
Proof.
  refine (clock_overflow_detected ShmemPerfModel.SIM_THREAD 1
    (ShmemPerfModel.mkShmemPerfModel 0 (2 ^ 64 - 1) true 0 0) _ _); cbn; lia.
Defined.

(** ** Memory *)

(** Memory is a map of lines: a line reads as zeroes until it is written,
    a write of a line that was read changes that line only, and the next read
    returns the written bytes; writing a line never read aborts. *)
Lemma dram_read_write `{DramTiming} address b data modeled modeled' t d clock line d1 clock1 :
  DramCntlr.getDataFromDram address modeled t d clock = Ok (line, d1, clock1) →
  zlength data = DramCntlr._cache_line_size d →
  line = DramCntlr.contents d address ∧
  (∃ d2, DramCntlr.putDataToDram address (Some data) modeled' t d1 clock1 = Ok d2 ∧
    ∀ modeled'' clock2 line' d3 clock3,
      DramCntlr.getDataFromDram b modeled'' t d2 clock2 = Ok (line', d3, clock3) →
      line' = if decide (b = address) then data else DramCntlr.contents d b) ∧
  (DramCntlr._data_map d !! b = None →
   DramCntlr.contents d b = replicate (Z.to_nat (DramCntlr._cache_line_size d)) 0 ∧
   DramCntlr.putDataToDram b (Some data) modeled' t d clock = Fail (ELog "Data Buffer does not exist")).
Proof.
  intros Hr Hl. destruct (DramCntlr.getDataFromDram_contents _ _ _ _ _ _ _ _ Hr) as (H1 & H2 & H3 & _ & H4).
  split; [done|]. split.
  - destruct (DramCntlr.putDataToDram_contents address data modeled' t d1 clock1) as (d2 & P1 & P2 & _);
      [done|congruence|].
    exists d2. split; [done|]. intros modeled'' clock2 line' d3 clock3 Hr2.
    destruct (DramCntlr.getDataFromDram_contents _ _ _ _ _ _ _ _ Hr2) as (-> & _). rewrite P2.
    by destruct (decide (b = address)).
  - intros Hn. unfold DramCntlr.contents, DramCntlr.putDataToDram. rewrite Hn. split; [done|].
    by rewrite bool_decide_false by (by intros []).
Qed.

Definition sample_timing : DramTiming :=
  {| dram_perf_state := unit; runDramPerfModel := λ s _, (100, s) |}.
Lemma dram_read_write_witness :
  let d := @DramCntlr.make sample_timing 2 tt in
  ∃ line d1 clock1,
    @DramCntlr.getDataFromDram sample_timing 64 true ShmemPerfModel.SIM_THREAD d ShmemPerfModel.make =
      Ok (line, d1, clock1) ∧ line = [0; 0] ∧
    ∃ d2, @DramCntlr.putDataToDram sample_timing 64 (Some [5; 6]) true ShmemPerfModel.SIM_THREAD d1 clock1 = Ok d2.
Proof.
  intros d.
  destruct (@DramCntlr.getDataFromDram sample_timing 64 true ShmemPerfModel.SIM_THREAD d ShmemPerfModel.make)
    as [[[line d1] clock1]|e] eqn:E; [|by vm_compute in E].
  destruct (dram_read_write (H := sample_timing) 64 64 [5; 6] true true _ _ _ _ _ _ E)
    as (H1 & (d2 & H2 & _) & _); [done|].
  exists line, d1, clock1. split; [reflexivity|]. split; [exact H1|]. exists d2. exact H2.
Defined.
