(* ===== verification/DirectoryCache.v ===== *)
(** * DirectoryCache: common/tile/memory_subsystem/cache/directory_cache.{h,cc}

    The set-associative directory with the list of entries that are being
    replaced.  The source holds pointers to entries: the model has a heap of
    entries and the directory array and the list hold their addresses, so an
    entry changed through one pointer is changed for every holder.  The
    power and area models are left out. *)
From S2P Require Import Prelude Utils BitVector SharerTracking DirectoryEntry CacheSet Cache Shmem.

Module DirectoryCache.

(** A pointer to an entry. *)
Definition entry_ptr : Type := nat.

Record DirectoryCache := mkDirectoryCache {
  _heap : gmap entry_ptr DirectoryEntry.DirectoryEntry;
  _next_ptr : entry_ptr;
  _directory : list entry_ptr;
  _replaced_directory_entry_list : list entry_ptr;
  _address_map : gmap Z Z;
  _set_specific_address_map : list (gmap Z Z);
  _replaced_address_map : gmap Z Z;
  _set_replacement_histogram : list Z;
  _params : Tracker.Params;
  _total_entries : Z;
  _associativity : Z;
  _num_sets : Z;
  _log_num_sets : Z;
  _log_cache_line_size : Z;
  _log_num_directories : Z;
  _directory_access_delay_in_clock_cycles : Z;
  _total_directory_accesses : Z;
  _tag_array_reads : Z;
  _tag_array_writes : Z;
  _data_array_reads : Z;
  _data_array_writes : Z;
  _enabled : bool;
  (** The tile's clocks: [getShmemPerfModel()]. *)
  _shmem_perf_model : ShmemPerfModel.ShmemPerfModel
}.
#[global] Instance eta_DirectoryCache : Eta DirectoryCache := λ c, mkDirectoryCache
  (_heap c) (_next_ptr c) (_directory c) (_replaced_directory_entry_list c)
  (_address_map c) (_set_specific_address_map c) (_replaced_address_map c)
  (_set_replacement_histogram c) (_params c) (_total_entries c) (_associativity c)
  (_num_sets c) (_log_num_sets c) (_log_cache_line_size c) (_log_num_directories c)
  (_directory_access_delay_in_clock_cycles c) (_total_directory_accesses c)
  (_tag_array_reads c) (_tag_array_writes c) (_data_array_reads c) (_data_array_writes c)
  (_enabled c) (_shmem_perf_model c).

(** The constructor, with [Directory]'s constructor and
    [initializeParameters]. *)
Definition make (params : Tracker.Params) (total_entries associativity cache_line_size
    num_directories delay : Z) (perf : ShmemPerfModel.ShmemPerfModel) : DirectoryCache :=
  let num_sets := total_entries / associativity in
  let ptrs := seq 0 (Z.to_nat total_entries) in
  mkDirectoryCache
    (list_to_map ((λ i, (i, DirectoryEntry.create params)) <$> ptrs)) (Z.to_nat total_entries)
    ptrs [] ∅ (replicate (Z.to_nat num_sets) ∅) ∅ (replicate (Z.to_nat num_sets) 0)
    params total_entries associativity num_sets
    (Utils.floorLog2 num_sets) (Utils.floorLog2 cache_line_size) (Utils.ceilLog2 num_directories)
    delay 0 0 0 0 0 false perf.

Definition incr (n : Z) : Z := u64 (n + 1).

(** ** Access to the heap *)

Definition deref (p : entry_ptr) : M DirectoryCache DirectoryEntry.DirectoryEntry :=
  c ← gets id ; lift (of_option (_heap c !! p) (ENull "DirectoryEntry")).
Definition store (p : entry_ptr) (e : DirectoryEntry.DirectoryEntry) : M DirectoryCache unit :=
  modify (λ c, c <| _heap := <[p := e]> (_heap c) |>).
Definition new_entry : M DirectoryCache entry_ptr :=
  c ← gets id ;
  modify (λ c, c <| _heap := <[_next_ptr c := DirectoryEntry.create (_params c)]> (_heap c) |>
                 <| _next_ptr := S (_next_ptr c) |>) ;;
  mret (_next_ptr c).

(** [Directory::getDirectoryEntry] and [Directory::setDirectoryEntry]. *)
Definition directory_get (entry_num : Z) : M DirectoryCache entry_ptr :=
  c ← gets id ; lift (vget "_directory_entry_list" (_directory c) entry_num).
Definition directory_set (entry_num : Z) (p : entry_ptr) : M DirectoryCache unit :=
  c ← gets id ;
  l ← lift (vset "_directory_entry_list" (_directory c) entry_num p) ;
  modify (λ c, c <| _directory := l |>).

(** ** Set index *)

(** The loop of [computeSetIndex]: the bits of the address above the line and
    directory bits, folded with exclusive or in groups of [log_num_sets].  It
    runs at most 64 times when [log_num_sets] is positive. *)
Fixpoint fold_set_bits (fuel : nat) (address log_num_sets i set : Z) : res Z :=
  match fuel with
  | O => Fail (EFuel "DirectoryCache::computeSetIndex")
  | S fuel =>
    if i + log_num_sets <=? 64 then
      fold_set_bits fuel address log_num_sets (i + log_num_sets)
        (Z.lxor set (Utils.getBits address (i + log_num_sets) i))
    else Ok (u32 set)
  end.
Definition computeSetIndex (c : DirectoryCache) (address : Z) : res Z :=
  fold_set_bits 66 address (_log_num_sets c) (_log_cache_line_size c + _log_num_directories c) 0.

(** [splitAddress]: the set of an address, with the detailed tracking. *)
Definition splitAddress (address : Z) : M DirectoryCache Z :=
  c ← gets id ;
  set_index ← lift (computeSetIndex c address) ;
  modify (λ c, c <| _address_map := partial_alter (λ n, Some (incr (default 0 n))) address (_address_map c) |>) ;;
  m ← lift (vget "_set_specific_address_map" (_set_specific_address_map c) set_index) ;
  modify (λ c, c <| _set_specific_address_map :=
    zinsert set_index (partial_alter (λ n, Some (incr (default 0 n))) address m)
      (_set_specific_address_map c) |>) ;;
  mret set_index.

(** ** Operations *)

Definition updateCounters : M DirectoryCache unit :=
  modify (λ c, c <| _total_directory_accesses ::= incr |>
    <| _tag_array_reads ::= incr |> <| _tag_array_writes ::= incr |>
    <| _data_array_reads ::= incr |> <| _data_array_writes ::= incr |>).

Definition incrCycleCount (n : Z) : M DirectoryCache unit :=
  c ← gets id ;
  p ← lift (ShmemPerfModel.incrCycleCount ShmemPerfModel.SIM_THREAD n (_shmem_perf_model c)) ;
  modify (λ c, c <| _shmem_perf_model := p |>).

(** A loop over the ways of a set from way [i] on, which stops at the first
    entry that satisfies the condition. *)
Fixpoint scan (n : nat) (set_index i : Z) (cond : DirectoryEntry.DirectoryEntry → bool)
    : M DirectoryCache (option (Z * entry_ptr)) :=
  match n with
  | O => mret None
  | S n =>
    c ← gets id ;
    let entry_num := u32 (set_index * _associativity c + i) in
    p ← directory_get entry_num ;
    e ← deref p ;
    if (cond e : bool) then mret (Some (entry_num, p)) else scan n set_index (i + 1) cond
  end.

(** A loop over the replaced entries. *)
Fixpoint scan_replaced (l : list entry_ptr) (address : Z) : M DirectoryCache (option entry_ptr) :=
  match l with
  | [] => mret None
  | p :: l =>
    e ← deref p ;
    if DirectoryEntry.getAddress e =? address then mret (Some p) else scan_replaced l address
  end.

Definition getDirectoryEntry (address : Z) : M DirectoryCache (option entry_ptr) :=
  c ← gets id ;
  when (_enabled c)
    (incrCycleCount (_directory_access_delay_in_clock_cycles c) ;; updateCounters) ;;
  set_index ← splitAddress address ;
  let ways := Z.to_nat (_associativity c) in
  hit ← scan ways set_index 0 (λ e, DirectoryEntry.getAddress e =? address) ;
  match hit with
  | Some (_, p) =>
    e ← deref p ;
    incrCycleCount (getLatency (DirectoryEntry._tracker e)) ;;
    mret (Some p)
  | None =>
    free ← scan ways set_index 0 (λ e, DirectoryEntry.getAddress e =? INVALID_ADDRESS) ;
    match free with
    | Some (_, p) =>
      e ← deref p ;
      store p (DirectoryEntry.setAddress address e) ;;
      mret (Some p)
    | None =>
      c ← gets id ;
      scan_replaced (_replaced_directory_entry_list c) address
    end
  end.

(** The pointers of the ways of a set. *)
Fixpoint ways_of (n : nat) (set_index i : Z) : M DirectoryCache (list entry_ptr) :=
  match n with
  | O => mret []
  | S n =>
    c ← gets id ;
    p ← directory_get (u32 (set_index * _associativity c + i)) ;
    rest ← ways_of n set_index (i + 1) ;
    mret (p :: rest)
  end.

Definition getReplacementCandidates (address : Z) : M DirectoryCache (list entry_ptr) :=
  r ← getDirectoryEntry address ;
  assert (bool_decide (r = None)) "DirectoryCache::getReplacementCandidates" ;;
  set_index ← splitAddress address ;
  c ← gets id ;
  ways_of (Z.to_nat (_associativity c)) set_index 0.

Definition replaceDirectoryEntry (replaced_address address : Z) : M DirectoryCache entry_ptr :=
  c ← gets id ;
  when (_enabled c)
    (incrCycleCount (_directory_access_delay_in_clock_cycles c) ;; updateCounters) ;;
  set_index ← splitAddress replaced_address ;
  found ← scan (Z.to_nat (_associativity c)) set_index 0
            (λ e, DirectoryEntry.getAddress e =? replaced_address) ;
  match found with
  | Some (entry_num, p) =>
    modify (λ c, c <| _replaced_directory_entry_list := _replaced_directory_entry_list c ++ [p] |>) ;;
    q ← new_entry ;
    e ← deref q ;
    store q (DirectoryEntry.setAddress address e) ;;
    directory_set entry_num q ;;
    modify (λ c, c <| _replaced_address_map :=
      partial_alter (λ n, Some (incr (default 0 n))) replaced_address (_replaced_address_map c) |>) ;;
    c ← gets id ;
    n ← lift (vget "_set_replacement_histogram" (_set_replacement_histogram c) set_index) ;
    modify (λ c, c <| _set_replacement_histogram :=
      zinsert set_index (incr n) (_set_replacement_histogram c) |>) ;;
    mret q
  | None => fail (ELog "No directory entry found for replacment")
  end.

(** [delete] frees the entry and [erase] removes it from the list. *)
Fixpoint remove_replaced (l : list entry_ptr) (address : Z) : M DirectoryCache (list entry_ptr) :=
  match l with
  | [] => fail (ELog "Address not found for invalidation")
  | p :: l =>
    e ← deref p ;
    if DirectoryEntry.getAddress e =? address then
      modify (λ c, c <| _heap := delete p (_heap c) |>) ;;
      mret l
    else
      rest ← remove_replaced l address ;
      mret (p :: rest)
  end.

Definition invalidateDirectoryEntry (address : Z) : M DirectoryCache unit :=
  c ← gets id ;
  l ← remove_replaced (_replaced_directory_entry_list c) address ;
  modify (λ c, c <| _replaced_directory_entry_list := l |>).

End DirectoryCache.
