(* ===== verification/DirectoryCacheProofs.v ===== *)
(** * DirectoryCacheProofs: the directory cache as a map from addresses to entries

    The set index stays in range, the ways and the replaced list hold distinct
    entries with distinct addresses, a lookup finds the entry of an address or
    takes a free way of its set, and replacement moves an entry to the list.
    The only failure of a lookup is the wrap-around of the clock. *)
From S2P Require Import Prelude Utils BitVector SharerTracking DirectoryEntry CacheSet Cache Shmem.
From S2P Require Import DirectoryCache.

Module DirectoryCacheProofs.
Import DirectoryCache.

(** ** The set index *)

Lemma lxor_bounded w x y : 0 ≤ w → 0 ≤ x < 2 ^ w → 0 ≤ y < 2 ^ w → 0 ≤ Z.lxor x y < 2 ^ w.
Proof.
  intros Hw Hx Hy. apply bounded_of_testbit; [done|apply Z.lxor_nonneg; lia|].
  intros n Hn. by rewrite Z.lxor_spec, !(testbit_bounded w) by done.
Qed.

(** The fuel of [computeSetIndex] is enough: every round advances by at least
    one bit. *)
Lemma fold_set_bits_ok fuel a log i set :
  0 < log ≤ 31 → 0 ≤ i → 65 ≤ i + Z.of_nat fuel → 1 ≤ Z.of_nat fuel → 0 ≤ set < 2 ^ log →
  ∃ s, fold_set_bits fuel a log i set = Ok s ∧ 0 ≤ s < 2 ^ log.
Proof.
  intros Hlog. revert i set. induction fuel as [|fuel IH]; intros i set Hi Hf Hf1 Hs; [lia|]. cbn.
  destruct (i + log <=? 64) eqn:E; breflect.
  - apply IH; [lia..|]. apply lxor_bounded; [lia|done|].
    rewrite Utils.getBits_spec by lia. apply Z.mod_pos_bound. lia.
  - exists set. split; [|done]. f_equal. apply u32_small.
    assert (2 ^ log ≤ 2 ^ 31) by (apply Z.pow_le_mono_r; lia). lia.
Qed.

Record geometry_ok (c : DirectoryCache) : Prop := {
  gm_assoc : 0 < _associativity c;
  gm_log : 0 < _log_num_sets c ≤ 31;
  gm_sets : _num_sets c = 2 ^ _log_num_sets c;
  gm_shift : 0 ≤ _log_cache_line_size c + _log_num_directories c;
  gm_size : _num_sets c * _associativity c < 2 ^ 32;
  gm_directory : zlength (_directory c) = _num_sets c * _associativity c;
  gm_map : zlength (_set_specific_address_map c) = _num_sets c;
  gm_hist : zlength (_set_replacement_histogram c) = _num_sets c
}.

Definition set_of (c : DirectoryCache) (a : Z) : Z :=
  match computeSetIndex c a with Ok s => s | Fail _ => 0 end.

Lemma set_of_ok c a :
  geometry_ok c → computeSetIndex c a = Ok (set_of c a) ∧ 0 ≤ set_of c a < _num_sets c.
Proof.
  intros []. unfold set_of, computeSetIndex.
  destruct (fold_set_bits_ok 66 a (_log_num_sets c) (_log_cache_line_size c + _log_num_directories c) 0)
    as (s & Hs & Hr); [done|lia..|].
  rewrite Hs. split; [done|]. lia.
Qed.

(** ** What the invariant depends on *)

Definition core (c : DirectoryCache) :=
  (_heap c, _next_ptr c, _directory c, _replaced_directory_entry_list c, _params c,
   (_associativity c, _num_sets c, _log_num_sets c, _log_cache_line_size c, _log_num_directories c)).

(** The pointers to the ways of a set. *)
Definition ways (c : DirectoryCache) (s : Z) : list entry_ptr :=
  take (Z.to_nat (_associativity c)) (drop (Z.to_nat (s * _associativity c)) (_directory c)).
Definition live (c : DirectoryCache) : list entry_ptr :=
  _directory c ++ _replaced_directory_entry_list c.

(** The entry [e] of address [a] is live at [p]. *)
Definition holds (c : DirectoryCache) (a : Z) (p : entry_ptr) (e : DirectoryEntry.DirectoryEntry) : Prop :=
  p ∈ live c ∧ _heap c !! p = Some e ∧ DirectoryEntry.getAddress e = a.

Record wf (c : DirectoryCache) : Prop := {
  wf_geometry : geometry_ok c;
  wf_nodup : NoDup (live c);
  wf_heap p : p ∈ live c → is_Some (_heap c !! p);
  wf_next p : is_Some (_heap c !! p) → (p < _next_ptr c)%nat;
  (** An entry is in the set of its address. *)
  wf_place s p e : p ∈ ways c s → 0 ≤ s < _num_sets c → _heap c !! p = Some e →
    DirectoryEntry.getAddress e ≠ INVALID_ADDRESS → set_of c (DirectoryEntry.getAddress e) = s;
  wf_unique a p q e f : a ≠ INVALID_ADDRESS → holds c a p e → holds c a q f → p = q;
  (** Entries are replaced only in full sets. *)
  wf_replaced p e : p ∈ _replaced_directory_entry_list c → _heap c !! p = Some e →
    DirectoryEntry.getAddress e ≠ INVALID_ADDRESS ∧
    ∀ q f, q ∈ ways c (set_of c (DirectoryEntry.getAddress e)) → _heap c !! q = Some f →
      DirectoryEntry.getAddress f ≠ INVALID_ADDRESS
}.

Lemma core_set_of c c' a : core c' = core c → set_of c' a = set_of c a.
Proof.
  intros [= _ _ _ _ _ _ _ E1 E2 E3]. unfold set_of, computeSetIndex. by rewrite E1, E2, E3.
Qed.

Lemma directory_wf_core c c' : core c' = core c → geometry_ok c' → wf c → wf c'.
Proof.
  intros Hc Hg [_ H1 H2 H3 H4 H5 H6]. pose proof Hc as [= E1 E2 E3 E4 _ E5 E6 _ _ _].
  assert (live c' = live c) as Hl by (unfold live; congruence).
  assert (∀ s, ways c' s = ways c s) as Hw by (intros; unfold ways; congruence).
  assert (∀ a p e, holds c' a p e ↔ holds c a p e) as Hh by (intros; unfold holds; by rewrite Hl, E1).
  split; rewrite ?Hl, ?E1, ?E2, ?E4, ?E6; try done.
  - intros s p e. rewrite Hw, (core_set_of c c') by done. apply H4.
  - intros a p q e f Ha. rewrite !Hh. by apply H5.
  - intros p e Hp He. destruct (H6 p e Hp He) as [H7 H8]. split; [done|].
    intros q f. rewrite Hw, (core_set_of c c') by done. apply H8.
Qed.

Lemma ways_elem c s i p :
  0 ≤ i < _associativity c → 0 ≤ s →
  zlookup (_directory c) (s * _associativity c + i) = Some p → p ∈ ways c s.
Proof.
  intros Hi Hs [_ Hp]%zlookup_Some. unfold ways.
  assert (0 ≤ s * _associativity c) by nia.
  apply list_elem_of_lookup. exists (Z.to_nat i).
  rewrite lookup_take, lookup_drop, decide_True by lia. rewrite <- Hp. f_equal. lia.
Qed.

Lemma ways_index c s p :
  0 ≤ s → 0 < _associativity c → p ∈ ways c s →
  ∃ i, 0 ≤ i < _associativity c ∧ zlookup (_directory c) (s * _associativity c + i) = Some p.
Proof.
  intros Hs Ha (i & Hi)%list_elem_of_lookup. unfold ways in Hi.
  rewrite lookup_take in Hi. case_decide; [|done]. rewrite lookup_drop in Hi.
  assert (0 ≤ s * _associativity c) by nia.
  exists (Z.of_nat i). split; [lia|]. rewrite zlookup_nat by lia. rewrite <- Hi. f_equal. lia.
Qed.

Lemma ways_live c s p : p ∈ ways c s → p ∈ live c.
Proof.
  intros (i & Hi)%list_elem_of_lookup. unfold ways in Hi.
  rewrite lookup_take in Hi. case_decide; [|done]. rewrite lookup_drop in Hi.
  apply elem_of_app. left. by eapply list_elem_of_lookup_2.
Qed.

(** Every way belongs to some set. *)
Lemma way_of_index c k p :
  geometry_ok c → _directory c !! k = Some p →
  let s := Z.of_nat k / _associativity c in p ∈ ways c s ∧ 0 ≤ s < _num_sets c.
Proof.
  intros Hg Hk s. pose proof (gm_assoc c Hg). pose proof (gm_directory c Hg) as Hd.
  pose proof (lookup_lt_Some _ _ _ Hk) as Hlt. unfold zlength in Hd.
  assert (0 ≤ s < _num_sets c) as Hs.
  { split; [apply Z.div_pos; lia|]. apply Z.div_lt_upper_bound; lia. }
  split; [|done]. apply (ways_elem c s (Z.of_nat k - s * _associativity c)); [|lia|].
  - pose proof (Z.div_mod (Z.of_nat k) (_associativity c)). pose proof (Z.mod_pos_bound (Z.of_nat k) (_associativity c)).
    subst s. lia.
  - rewrite zlookup_nat by lia. rewrite <- Hk. f_equal. lia.
Qed.

(** ** Scans *)

Lemma deref_ok p e c : _heap c !! p = Some e → deref p c = Ok (e, c).
Proof. intros He. unfold deref, mbind, M_bind, gets, lift, id. by rewrite He. Qed.

Lemma way_ok c s i :
  wf c → 0 ≤ s < _num_sets c → 0 ≤ i < _associativity c →
  ∃ p e, u32 (s * _associativity c + i) = s * _associativity c + i ∧
    directory_get (s * _associativity c + i) c = Ok (p, c) ∧ p ∈ ways c s ∧ _heap c !! p = Some e ∧
    zlookup (_directory c) (s * _associativity c + i) = Some p.
Proof.
  intros Hwf Hs Hi. destruct (wf_geometry c Hwf).
  assert (0 ≤ s * _associativity c + i < _num_sets c * _associativity c) as Hr by nia.
  destruct (zlookup_is_Some (_directory c) (s * _associativity c + i)) as [p Hp]; [lia|].
  pose proof (ways_elem c s i p Hi (proj1 Hs) Hp) as Hw.
  destruct (wf_heap c Hwf p (ways_live c s p Hw)) as [e He].
  exists p, e. split; [apply u32_small; lia|]. split_and!; try done.
  unfold directory_get, mbind, M_bind, gets, lift, id, vget. by rewrite Hp.
Qed.

Lemma scan_ok n c s i cond :
  wf c → 0 ≤ s < _num_sets c → 0 ≤ i → i + Z.of_nat n = _associativity c →
  ∃ r, scan n s i cond c = Ok (r, c) ∧
    match r with
    | Some (num, p) => ∃ e, p ∈ ways c s ∧ _heap c !! p = Some e ∧ cond e = true ∧
        zlookup (_directory c) num = Some p ∧ num / _associativity c = s
    | None => ∀ j p e, i ≤ j < _associativity c →
        zlookup (_directory c) (s * _associativity c + j) = Some p → _heap c !! p = Some e → cond e = false
    end.
Proof.
  intros Hwf Hs. revert i. induction n as [|n IH]; intros i Hi Hn.
  { exists None. split; [done|]. intros j p e Hj. lia. }
  destruct (way_ok c s i Hwf Hs) as (p & e & Hu & Hg & Hw & He & Hz); [lia|].
  cbn [scan]. unfold mbind at 1, M_bind at 1, gets, id. cbn. rewrite Hu.
  unfold mbind at 1, M_bind at 1. rewrite Hg. unfold mbind at 1, M_bind at 1. rewrite (deref_ok p e) by done.
  destruct (cond e) eqn:Hc.
  - eexists. split; [done|]. exists e. split_and!; try done.
    rewrite Z.div_add_l by lia. rewrite Z.div_small by lia. lia.
  - destruct (IH (i + 1)) as (r & Hr & Hspec); [lia..|]. exists r. split; [exact Hr|].
    destruct r as [[num q]|]; [done|]. intros j q f Hj Hq Hf.
    destruct (decide (j = i)) as [->|]; [|by apply (Hspec j q); [lia|..]]. congruence.
Qed.

(** The scan of a whole set. *)
Lemma scan_set_ok c s cond :
  wf c → 0 ≤ s < _num_sets c →
  ∃ r, scan (Z.to_nat (_associativity c)) s 0 cond c = Ok (r, c) ∧
    match r with
    | Some (num, p) => ∃ e, p ∈ ways c s ∧ _heap c !! p = Some e ∧ cond e = true ∧
        zlookup (_directory c) num = Some p ∧ num / _associativity c = s
    | None => ∀ p e, p ∈ ways c s → _heap c !! p = Some e → cond e = false
    end.
Proof.
  intros Hwf Hs. pose proof (gm_assoc c (wf_geometry c Hwf)).
  destruct (scan_ok (Z.to_nat (_associativity c)) c s 0 cond Hwf Hs) as (r & Hr & Hspec); [lia..|].
  exists r. split; [done|]. destruct r as [[num p]|]; [done|]. intros p e Hp He.
  destruct (ways_index c s p) as (i & Hi & Hz); [lia|lia|done|]. by apply (Hspec i p).
Qed.

Lemma scan_replaced_ok l c a :
  (∀ p, p ∈ l → is_Some (_heap c !! p)) →
  ∃ r, scan_replaced l a c = Ok (r, c) ∧
    match r with
    | Some p => ∃ e, p ∈ l ∧ _heap c !! p = Some e ∧ DirectoryEntry.getAddress e = a
    | None => ∀ p e, p ∈ l → _heap c !! p = Some e → DirectoryEntry.getAddress e ≠ a
    end.
Proof.
  induction l as [|p l IH]; intros Hl.
  { exists None. split; [done|]. intros p e Hp. by inversion Hp. }
  destruct (Hl p) as [e He]; [by left|]. cbn [scan_replaced]. unfold mbind, M_bind.
  rewrite (deref_ok p e) by done. destruct (Z.eqb_spec (DirectoryEntry.getAddress e) a) as [Ha|Ha].
  - exists (Some p). split; [done|]. exists e. split; [by left|done].
  - destruct IH as (r & Hr & Hspec); [intros q Hq; apply Hl; by right|].
    exists r. split; [exact Hr|]. destruct r as [q|].
    + destruct Hspec as (f & ? & ?). exists f. split; [by right|done].
    + intros q f [->|Hq]%elem_of_cons Hf; [congruence|by eapply Hspec].
Qed.

(** ** Changing one entry *)

Definition updated (c : DirectoryCache) (p : entry_ptr) (e : DirectoryEntry.DirectoryEntry) : DirectoryCache :=
  c <| _heap := <[p := e]> (_heap c) |>.

Lemma updated_lookup c p e q f :
  _heap (updated c p e) !! q = Some f ↔ (q = p ∧ f = e) ∨ (q ≠ p ∧ _heap c !! q = Some f).
Proof. unfold updated. cbn. rewrite lookup_insert_Some. naive_solver. Qed.

(** The ways of different sets are different. *)
Lemma ways_disjoint c s t p :
  wf c → 0 ≤ s → 0 ≤ t → p ∈ ways c s → p ∈ ways c t → s = t.
Proof.
  intros [H0 H1 _ _ _ _ _] Hs Ht Hps Hpt. pose proof (gm_assoc c H0).
  destruct (ways_index c s p) as (i & Hi & Hz); [done..|].
  destruct (ways_index c t p) as (j & Hj & Hz'); [done..|].
  apply zlookup_Some in Hz as [Hr1 Hz], Hz' as [Hr2 Hz'].
  apply NoDup_app in H1 as (Hd & _ & _). pose proof (NoDup_lookup _ _ _ _ Hd Hz Hz') as He. nia.
Qed.

Lemma ways_not_replaced c s p : wf c → p ∈ ways c s → p ∉ _replaced_directory_entry_list c.
Proof.
  intros [_ H1 _ _ _ _ _] (i & Hi)%list_elem_of_lookup. unfold ways in Hi.
  rewrite lookup_take in Hi. case_decide; [|done]. rewrite lookup_drop in Hi.
  apply NoDup_app in H1 as (_ & Hd & _). apply Hd. by eapply list_elem_of_lookup_2.
Qed.

(** The new address is the old one, or it is the address of no live entry and
    the entry was a free way of its set. *)
Definition may_rename (c : DirectoryCache) (p : entry_ptr) (e e' : DirectoryEntry.DirectoryEntry) : Prop :=
  DirectoryEntry.getAddress e' = DirectoryEntry.getAddress e ∨
  p ∈ ways c (set_of c (DirectoryEntry.getAddress e')) ∧
  DirectoryEntry.getAddress e = INVALID_ADDRESS ∧
  ∀ q f, ¬ holds c (DirectoryEntry.getAddress e') q f.

Lemma updated_unique c p e e' a q r f g :
  wf c → p ∈ live c → _heap c !! p = Some e → may_rename c p e e' → a ≠ INVALID_ADDRESS →
  holds (updated c p e') a q f → holds (updated c p e') a r g → q = r.
Proof.
  intros Hwf Hp He Hch Ha (Hq & Hf & Haf) (Hr & Hg & Hag).
  assert (DirectoryEntry.getAddress e' = a → ∀ x y, holds c a x y → x = p) as Hx.
  { intros <- x y Hx. destruct Hch as [Heq|(_ & _ & Hno)]; [|by destruct (Hno x y)].
    by apply (wf_unique c Hwf (DirectoryEntry.getAddress e') x p y e). }
  apply updated_lookup in Hf, Hg.
  destruct Hf as [[-> ->]|[? Hf]], Hg as [[-> ->]|[? Hg]]; try done.
  - symmetry. by apply (Hx Haf r g).
  - by apply (Hx Hag q f).
  - by apply (wf_unique c Hwf a q r f g).
Qed.

Lemma wf_updated c p e e' :
  wf c → p ∈ live c → _heap c !! p = Some e → may_rename c p e e' → wf (updated c p e').
Proof.
  intros Hwf Hp He Hch. pose proof Hwf as [H0 H1 H2 H3 H4 H5 H6].
  split.
  - by destruct H0; split.
  - done.
  - intros q Hq. destruct (H2 q Hq) as [f Hf]. destruct (decide (q = p)) as [->|Hne].
    + exists e'. apply updated_lookup. by left.
    + exists f. apply updated_lookup. by right.
  - intros q [f [[-> _]|[_ Hf]]%updated_lookup]; apply H3; eauto.
  - intros s q f Hq Hs [[-> ->]|[_ Hf]]%updated_lookup Hne; [|by apply (H4 s q)].
    change (set_of c (DirectoryEntry.getAddress e') = s). destruct Hch as [Heq|(Hw & Ha & _)].
    + rewrite Heq in *. by apply (H4 s p).
    + pose proof (set_of_ok c (DirectoryEntry.getAddress e') H0) as [_ Hr].
      by apply (ways_disjoint c _ s p); [|lia|lia|..].
  - intros a q r f g. by apply (updated_unique c p e e').
  - intros q f Hq Hf. change (q ∈ _replaced_directory_entry_list c) in Hq.
    assert (∃ f0, _heap c !! q = Some f0 ∧ DirectoryEntry.getAddress f = DirectoryEntry.getAddress f0)
      as (f0 & Hf0 & Hfa).
    { apply updated_lookup in Hf as [[-> ->]|[_ Hf]]; [|by eauto]. destruct Hch as [Heq|(Hw & _ & _)]; [by eauto|].
      by destruct (ways_not_replaced c _ p Hwf Hw). }
    destruct (H6 q f0 Hq Hf0) as [H7 H8]. rewrite Hfa. split; [done|].
    intros r g Hr [[-> ->]|[_ Hg]]%updated_lookup; [|by apply (H8 r g Hr)].
    destruct Hch as [Heq|(Hw & Ha & _)]; [rewrite Heq|]; pose proof (H8 p e Hr He); congruence.
Qed.

(** ** The operations

    An operation may stop with an error that [E] tolerates: the assertion of
    the clock is one. *)

(** A change of the clock and of the counters only. *)
Definition quiet (c c' : DirectoryCache) : Prop :=
  core c' = core c ∧ (geometry_ok c → geometry_ok c').

Lemma quiet_refl c : quiet c c.
Proof. done. Qed.
Lemma quiet_trans c1 c2 c3 : quiet c1 c2 → quiet c2 c3 → quiet c1 c3.
Proof. intros [H1 H2] [H3 H4]. split; [congruence|auto]. Qed.
Lemma quiet_wf c c' : quiet c c' → wf c → wf c'.
Proof. intros [H1 H2] Hwf. apply (directory_wf_core c); [done|apply H2, Hwf|done]. Qed.
Lemma quiet_fields c c' :
  quiet c c' → _heap c' = _heap c ∧ live c' = live c ∧ _directory c' = _directory c ∧
    _replaced_directory_entry_list c' = _replaced_directory_entry_list c ∧ _params c' = _params c ∧
    _next_ptr c' = _next_ptr c.
Proof. intros [[= E1 E2 E3 E4 E5 _ _ _ _ _] _]. unfold live. by rewrite E1, E2, E3, E4, E5. Qed.
Lemma quiet_ways c c' s : quiet c c' → ways c' s = ways c s ∧ _associativity c' = _associativity c ∧ _num_sets c' = _num_sets c.
Proof. intros [[= E1 E2 E3 E4 E5 E6 E7 _ _ _] _]. unfold ways. by rewrite E3, E6, E7. Qed.
Lemma quiet_set_of c c' a : quiet c c' → set_of c' a = set_of c a.
Proof. intros [H1 _]. by apply core_set_of. Qed.
Lemma quiet_holds c c' a p e : quiet c c' → holds c' a p e ↔ holds c a p e.
Proof. intros Hq. destruct (quiet_fields c c' Hq) as (E1 & E2 & _). unfold holds. by rewrite E1, E2. Qed.
Lemma quiet_updated c c' p e : quiet c c' → quiet (updated c p e) (updated c' p e).
Proof.
  intros [Hc Hg]. split.
  - revert Hc. unfold core, updated. cbn. intros [= -> -> -> -> -> -> -> -> -> ->]. done.
  - intros Hu. assert (geometry_ok c') as [] by (apply Hg; destruct Hu; by split). by split.
Qed.

(** How a lookup of [a] can end. *)
Inductive lookup_result (c : DirectoryCache) (a : Z) : option entry_ptr → DirectoryCache → Prop :=
  | lookup_present p e c' : holds c a p e → quiet c c' → lookup_result c a (Some p) c'
  | lookup_free p e c' :
      (∀ q f, ¬ holds c a q f) → p ∈ ways c (set_of c a) → _heap c !! p = Some e →
      DirectoryEntry.getAddress e = INVALID_ADDRESS →
      quiet (updated c p (DirectoryEntry.setAddress a e)) c' → lookup_result c a (Some p) c'
  | lookup_full c' :
      (∀ q f, ¬ holds c a q f) →
      (∀ q f, q ∈ ways c (set_of c a) → _heap c !! q = Some f → DirectoryEntry.getAddress f ≠ INVALID_ADDRESS) →
      quiet c c' → lookup_result c a None c'.

Lemma lookup_wf c a o c' : wf c → a ≠ INVALID_ADDRESS → lookup_result c a o c' → wf c'.
Proof.
  intros Hwf Ha []; [by eapply quiet_wf| |by eapply quiet_wf].
  eapply quiet_wf; [done|]. apply (wf_updated c p e); [done|by eapply ways_live|done|]. by right.
Qed.

(** After a lookup that returns an entry, that entry is the one of the address. *)
Lemma lookup_holds c a p c' : wf c → lookup_result c a (Some p) c' → ∃ e, holds c' a p e.
Proof.
  intros Hwf H. inversion H as [p0 e c0 Hh Hq|p0 e c0 Hno Hp He Hinv Hq|]; subst.
  - exists e. by apply (quiet_holds c).
  - exists (DirectoryEntry.setAddress a e). apply (quiet_holds _ _ _ _ _ Hq). split; [by apply (ways_live c (set_of c a))|].
    split; [|done]. apply updated_lookup. by left.
Qed.

Section operations.
Context (E : error → Prop) (E_clock : E (ELog "ShmemPerfModel::incrCycleCount")).

Lemma incrCycleCount_runs n c (Q : unit → DirectoryCache → Prop) :
  (∀ c', quiet c c' → Q tt c') → runs E (incrCycleCount n) c Q.
Proof.
  intros HQ. unfold incrCycleCount. apply runs_bind, runs_gets, runs_bind.
  unfold ShmemPerfModel.incrCycleCount, id. unfold check. case_match; cbn; [|done].
  apply HQ. split; [done|]. by intros []; split.
Qed.

Lemma access_runs b n c (Q : unit → DirectoryCache → Prop) :
  (∀ c', quiet c c' → Q tt c') → runs E (when b (incrCycleCount n ;; updateCounters)) c Q.
Proof.
  intros HQ. apply runs_when; intros _; [|by apply HQ].
  apply runs_bind, incrCycleCount_runs. intros c1 H1. apply runs_modify, HQ.
  apply (quiet_trans _ c1); [done|]. split; [done|]. by intros []; split.
Qed.

Lemma splitAddress_runs a c (Q : Z → DirectoryCache → Prop) :
  geometry_ok c → (∀ c', quiet c c' → Q (set_of c a) c') → runs E (splitAddress a) c Q.
Proof.
  intros Hg HQ. destruct (set_of_ok c a Hg) as [Hs Hr]. unfold splitAddress.
  apply runs_bind, runs_gets, runs_bind. eapply runs_lift; [exact Hs|].
  apply runs_bind, runs_modify, runs_bind.
  destruct (vget_ok "_set_specific_address_map" (_set_specific_address_map c) (set_of c a)) as [m Hm].
  { rewrite (gm_map c Hg). done. }
  eapply runs_lift; [exact Hm|]. apply runs_bind, runs_modify, runs_ret, HQ. split; [done|].
  intros _. destruct Hg; split; try done. cbn. by rewrite zlength_zinsert.
Qed.

Lemma deref_runs p e c Q : _heap c !! p = Some e → Q e c → runs E (deref p) c Q.
Proof. intros He HQ. eapply runs_Ok; [by apply deref_ok|done]. Qed.

(** The two scans of the set of an address that has no entry in it. *)
Lemma scan_free_ok c a :
  wf c → let r := set_of c a in
  ∃ o, scan (Z.to_nat (_associativity c)) r 0 (λ e, DirectoryEntry.getAddress e =? INVALID_ADDRESS) c = Ok (o, c) ∧
    match o with
    | Some (_, p) => ∃ e, p ∈ ways c r ∧ _heap c !! p = Some e ∧ DirectoryEntry.getAddress e = INVALID_ADDRESS
    | None => ∀ p e, p ∈ ways c r → _heap c !! p = Some e → DirectoryEntry.getAddress e ≠ INVALID_ADDRESS
    end.
Proof.
  intros Hwf r. destruct (set_of_ok c a (wf_geometry c Hwf)) as [_ Hr].
  destruct (scan_set_ok c r (λ e, DirectoryEntry.getAddress e =? INVALID_ADDRESS) Hwf Hr) as (o & Ho & Hspec).
  exists o. split; [done|]. destruct o as [[num p]|].
  - destruct Hspec as (e & Hp & He & Ht & _). exists e. by breflect.
  - intros p e Hp He. specialize (Hspec p e Hp He). by breflect.
Qed.

(** A held address is in the ways of its set or in the replaced list. *)
Lemma holds_cases c a p e :
  wf c → a ≠ INVALID_ADDRESS → holds c a p e →
  p ∈ ways c (set_of c a) ∨ p ∈ _replaced_directory_entry_list c.
Proof.
  intros Hwf Ha ([(k & Hk)%list_elem_of_lookup|Hp]%elem_of_app & He & Hea); [left|by right].
  destruct (way_of_index c k p (wf_geometry c Hwf) Hk) as [Hw Hr].
  rewrite <- Hea in *. by rewrite (wf_place c Hwf _ p e Hw Hr He Ha).
Qed.

Lemma not_held c a :
  wf c → a ≠ INVALID_ADDRESS →
  (∀ p e, p ∈ ways c (set_of c a) → _heap c !! p = Some e → (DirectoryEntry.getAddress e =? a) = false) →
  (∀ p e, p ∈ _replaced_directory_entry_list c → _heap c !! p = Some e → DirectoryEntry.getAddress e ≠ a) →
  ∀ q f, ¬ holds c a q f.
Proof.
  intros Hwf Ha Hw Hl q f Hh. pose proof Hh as (_ & Hf & Hfa).
  destruct (holds_cases c a q f Hwf Ha Hh) as [Hq|Hq]; [|by apply (Hl q f)].
  pose proof (Hw q f Hq Hf). by breflect.
Qed.

Lemma getDirectoryEntry_runs a c (Q : option entry_ptr → DirectoryCache → Prop) :
  wf c → a ≠ INVALID_ADDRESS → (∀ o c', lookup_result c a o c' → Q o c') →
  runs E (getDirectoryEntry a) c Q.
Proof.
  intros Hwf Ha HQ. unfold getDirectoryEntry. apply runs_bind, runs_gets, runs_bind, access_runs.
  intros c1 Hq1. pose proof (quiet_wf _ _ Hq1 Hwf) as Hwf1.
  apply runs_bind, splitAddress_runs; [apply Hwf1|]. intros c2 Hq2. apply (quiet_trans _ _ _ Hq1) in Hq2.
  pose proof (quiet_wf _ _ Hq2 Hwf) as Hwf2.
  destruct (quiet_ways c c2 (set_of c a) Hq2) as (Hways & Hassoc & Hsets).
  destruct (quiet_fields c c2 Hq2) as (Hheap & Hlive & Hdir & Hrep & _ & _).
  rewrite (quiet_set_of c c1) by done. rewrite <- (quiet_set_of c c2) by done. unfold id. rewrite <- Hassoc.
  destruct (set_of_ok c2 a (wf_geometry _ Hwf2)) as [_ Hr].
  destruct (scan_set_ok c2 (set_of c2 a) (λ e, DirectoryEntry.getAddress e =? a) Hwf2 Hr) as (hit & Hhit & Hspec).
  apply runs_bind. eapply runs_Ok; [exact Hhit|]. destruct hit as [[num p]|].
  { destruct Hspec as (e & Hp & He & Heq & _). breflect.
    apply runs_bind. apply (deref_runs p e); [done|]. apply runs_bind, incrCycleCount_runs. intros c3 Hq3.
    apply runs_ret, HQ, (lookup_present _ _ _ e); [|by apply (quiet_trans _ c2)].
    apply (quiet_holds c c2); [done|]. split; [by eapply ways_live|done]. }
  destruct (scan_free_ok c2 a Hwf2) as (free & Hfree & Hfspec).
  apply runs_bind. eapply runs_Ok; [exact Hfree|].
  destruct free as [[num p]|].
  - destruct Hfspec as (e & Hp & He & Hinv).
    apply runs_bind. apply (deref_runs p e); [done|]. apply runs_bind, runs_modify, runs_ret, HQ.
    apply (lookup_free _ _ p e); rewrite <- ?(quiet_set_of c c2), <- ?Hways, <- ?Hheap; try done.
    + intros q f Hh%(quiet_holds c c2); [|done]. revert Hh. apply (not_held c2 a Hwf2 Ha Hspec).
      intros r g Hl Hg <-. destruct (wf_replaced c2 Hwf2 r g Hl Hg) as [_ Hfull]. by destruct (Hfull p e Hp He).
    + rewrite <- (quiet_set_of c c2) in Hways by done. by rewrite <- Hways.
    + by apply quiet_updated.
  - apply runs_bind, runs_gets. unfold id.
    destruct (scan_replaced_ok (_replaced_directory_entry_list c2) c2 a) as (o & Ho & Hos).
    { intros p Hp. apply (wf_heap c2 Hwf2), elem_of_app. by right. }
    eapply runs_Ok; [exact Ho|]. apply HQ. destruct o as [p|].
    + destruct Hos as (e & Hp & He & Hea). apply (lookup_present _ _ _ e); [|done].
      apply (quiet_holds c c2); [done|]. split; [apply elem_of_app; by right|done].
    + apply lookup_full; [| |done].
      * intros q f Hh%(quiet_holds c c2); [|done]. revert Hh. by apply (not_held c2 a Hwf2 Ha Hspec).
      * intros q f. rewrite <- Hways, <- Hheap, <- (quiet_set_of c c2) by done. apply Hfspec.
Qed.

(** ** Replacement *)

Lemma ways_of_ok n c s i :
  wf c → 0 ≤ s < _num_sets c → 0 ≤ i → i + Z.of_nat n ≤ _associativity c →
  ways_of n s i c = Ok (take n (drop (Z.to_nat (s * _associativity c + i)) (_directory c)), c).
Proof.
  intros Hwf Hs. revert i. induction n as [|n IH]; intros i Hi Hn; [done|].
  destruct (way_ok c s i Hwf Hs) as (p & e & Hu & Hg & Hw & He & Hz); [lia|].
  apply zlookup_Some in Hz as [Hr Hz].
  cbn [ways_of]. unfold mbind, M_bind, gets, id. rewrite Hu, Hg, IH by lia. unfold mret, M_ret.
  rewrite (drop_S _ p (Z.to_nat (s * _associativity c + i))) by done. cbn [take]. do 4 f_equal. f_equal. lia.
Qed.

(** The set of an address without an entry has no free way. *)
Definition full_without (c : DirectoryCache) (a : Z) : Prop :=
  (∀ q f, ¬ holds c a q f) ∧
  ∀ q f, q ∈ ways c (set_of c a) → _heap c !! q = Some f → DirectoryEntry.getAddress f ≠ INVALID_ADDRESS.

Lemma quiet_full_without c c' a : quiet c c' → full_without c a → full_without c' a.
Proof.
  intros Hq [H1 H2]. split.
  - intros q f Hh%(quiet_holds c c'); [by apply (H1 q f)|done].
  - intros q f. destruct (quiet_fields c c' Hq) as (-> & _).
    rewrite (quiet_set_of c c' a Hq), (proj1 (quiet_ways c c' _ Hq)). apply H2.
Qed.

Lemma getReplacementCandidates_runs a c (Q : list entry_ptr → DirectoryCache → Prop) :
  wf c → a ≠ INVALID_ADDRESS → full_without c a →
  (∀ c', quiet c c' → Q (ways c (set_of c a)) c') → runs E (getReplacementCandidates a) c Q.
Proof.
  intros Hwf Ha [Hno Hfull] HQ. unfold getReplacementCandidates.
  apply runs_bind, getDirectoryEntry_runs; [done..|]. intros o c1 [p e ? Hh|p e ? _ Hp He Hinv|? _ _ Hq1].
  { by destruct (Hno p e). }
  { by destruct (Hfull p e Hp He). }
  pose proof (quiet_wf _ _ Hq1 Hwf) as Hwf1.
  apply runs_bind, runs_assert; [done|]. apply runs_bind, splitAddress_runs; [apply Hwf1|].
  intros c2 Hq2. apply (quiet_trans _ _ _ Hq1) in Hq2. pose proof (quiet_wf _ _ Hq2 Hwf) as Hwf2.
  apply runs_bind, runs_gets. unfold id. rewrite (quiet_set_of c) by done. rewrite <- (quiet_set_of c c2) by done.
  destruct (set_of_ok c2 a (wf_geometry _ Hwf2)) as [_ Hr]. pose proof (gm_assoc _ (wf_geometry _ Hwf2)).
  eapply runs_Ok; [apply ways_of_ok; [done|done|lia|lia]|].
  rewrite Z.add_0_r. change (Q (ways c2 (set_of c2 a)) c2).
  rewrite (proj1 (quiet_ways c c2 _ Hq2)), (quiet_set_of c c2) by done. by apply HQ.
Qed.

(** The directory after the entry [p], at position [k], made room for [a]. *)
Definition with_replaced (c : DirectoryCache) (k : Z) (p : entry_ptr) (a : Z) : DirectoryCache :=
  c <| _heap := <[_next_ptr c := DirectoryEntry.setAddress a (DirectoryEntry.create (_params c))]> (_heap c) |>
    <| _next_ptr := S (_next_ptr c) |>
    <| _directory := zinsert k (_next_ptr c) (_directory c) |>
    <| _replaced_directory_entry_list := _replaced_directory_entry_list c ++ [p] |>.

Lemma next_fresh c p : wf c → p ∈ live c → p ≠ _next_ptr c.
Proof. intros Hwf Hp%(wf_heap c Hwf)%(wf_next c Hwf). unfold entry_ptr in *. lia. Qed.

Lemma with_replaced_live c k p a :
  zlookup (_directory c) k = Some p → live (with_replaced c k p a) ≡ₚ _next_ptr c :: live c.
Proof.
  intros [Hk Hp]%zlookup_Some. unfold live, with_replaced, zinsert. cbn.
  rewrite (proj2 (Z.leb_le 0 k)) by lia.
  rewrite <- (take_drop_middle (_directory c) (Z.to_nat k) p Hp) at 2.
  rewrite insert_take_drop by (unfold zlength in Hk; lia).
  solve_Permutation.
Qed.

Lemma with_replaced_ways c k p a s q :
  wf c → zlookup (_directory c) k = Some p → 0 ≤ s → q ∈ ways (with_replaced c k p a) s →
  q = _next_ptr c ∧ s = k / _associativity c ∨ q ∈ ways c s ∧ q ≠ _next_ptr c.
Proof.
  intros Hwf Hk Hs Hq. pose proof (gm_assoc c (wf_geometry c Hwf)).
  apply ways_index in Hq as (i & Hi & Hz); [|done|done]. cbn in Hz, Hi.
  destruct (decide (k = s * _associativity c + i)) as [->|Hne].
  - rewrite zlookup_zinsert_eq in Hz by (by apply zlookup_Some in Hk as [? _]). injection Hz as <-. left.
    split; [done|]. rewrite Z.div_add_l by lia. rewrite Z.div_small by lia. lia.
  - rewrite zlookup_zinsert_ne in Hz by done. right. assert (q ∈ ways c s) as Hw by by apply (ways_elem c s i).
    split; [done|]. apply next_fresh; [done|]. by eapply ways_live.
Qed.

Lemma with_replaced_holds c k p a b q f :
  wf c → zlookup (_directory c) k = Some p →
  holds (with_replaced c k p a) b q f ↔
  (q = _next_ptr c ∧ b = a ∧ f = DirectoryEntry.setAddress a (DirectoryEntry.create (_params c))) ∨ holds c b q f.
Proof.
  intros Hwf Hk. unfold holds. rewrite (with_replaced_live c k p a Hk), elem_of_cons. cbn. rewrite lookup_insert_Some.
  split.
  - intros (Hq & [[<- <-]|[Hne Hf]] & <-); [by left|right]. by destruct Hq.
  - intros [(-> & -> & ->)|(Hq & Hf & <-)]; [by auto|]. pose proof (next_fresh c q Hwf Hq). auto.
Qed.

Lemma wf_with_replaced c k p e a :
  wf c → zlookup (_directory c) k = Some p → _heap c !! p = Some e →
  DirectoryEntry.getAddress e ≠ INVALID_ADDRESS → a ≠ INVALID_ADDRESS →
  k / _associativity c = set_of c a → set_of c (DirectoryEntry.getAddress e) = set_of c a →
  full_without c a → wf (with_replaced c k p a).
Proof.
  intros Hwf Hk He Hea Ha Hka Hse [Hno Hfull]. pose proof Hwf as [H0 H1 H2 H3 H4 H5 H6].
  pose proof (with_replaced_live c k p a Hk) as Hlive.
  assert (∀ q f, q ≠ _next_ptr c → _heap (with_replaced c k p a) !! q = Some f → _heap c !! q = Some f) as Hold.
  { intros q f Hq. cbn. by rewrite lookup_insert_ne by congruence. }
  assert (∀ f, _heap (with_replaced c k p a) !! _next_ptr c = Some f → DirectoryEntry.getAddress f = a) as Hnew.
  { intros f. cbn. rewrite lookup_insert_eq. by intros [= <-]. }
  split.
  - destruct H0; split; try done. cbn. by rewrite zlength_zinsert.
  - rewrite Hlive. apply NoDup_cons. split; [|done]. intros Hn. by destruct (next_fresh c _ Hwf Hn).
  - intros q. rewrite Hlive, elem_of_cons. cbn. intros [->|Hq]; [rewrite lookup_insert_eq; eauto|].
    rewrite lookup_insert_ne by (apply not_eq_sym; by apply next_fresh). by apply H2.
  - intros q [f Hf]. cbn in *. apply lookup_insert_Some in Hf as [[<- _]|[_ Hf]]; [lia|].
    assert (q < _next_ptr c)%nat by (apply H3; eauto). lia.
  - intros s q f Hq Hs Hf Hfa. change (set_of c (DirectoryEntry.getAddress f) = s).
    destruct (with_replaced_ways c k p a s q Hwf Hk (proj1 Hs) Hq) as [[-> ->]|[Hw Hne]].
    + by rewrite (Hnew f Hf), Hka.
    + apply (H4 s q f); auto.
  - intros b q r f g Hb. rewrite !(with_replaced_holds c k p a) by done.
    intros [(-> & Hb1 & _)|Hq] [(-> & Hb2 & _)|Hr]; subst; [done|by destruct (Hno _ _ Hr)|by destruct (Hno _ _ Hq)|].
    by apply (H5 b q r f g).
  - assert (∀ q f, q ∈ _replaced_directory_entry_list c ++ [p] → _heap c !! q = Some f →
      DirectoryEntry.getAddress f ≠ INVALID_ADDRESS ∧
      ∀ r g, r ∈ ways c (set_of c (DirectoryEntry.getAddress f)) → _heap c !! r = Some g →
        DirectoryEntry.getAddress g ≠ INVALID_ADDRESS) as Hrep.
    { intros q f [Hq| ->%list_elem_of_singleton]%elem_of_app Hf; [by apply (H6 q)|].
      assert (f = e) as -> by congruence. split; [done|]. by rewrite Hse. }
    intros q f Hq Hf. assert (_heap c !! q = Some f) as Hf0.
    { apply Hold; [|done]. apply next_fresh; [done|].
      apply elem_of_app in Hq as [Hq| ->%list_elem_of_singleton]; apply elem_of_app; [by right|left].
      apply zlookup_Some in Hk as [_ Hk]. by eapply list_elem_of_lookup_2. }
    destruct (Hrep q f Hq Hf0) as [H7 H8]. split; [done|]. intros r g Hr Hg.
    destruct (set_of_ok c (DirectoryEntry.getAddress f) H0) as [_ Hr0].
    destruct (with_replaced_ways c k p a _ r Hwf Hk (proj1 Hr0) Hr) as [[-> _]|[Hw Hne]].
    + by rewrite (Hnew g Hg).
    + apply (H8 r g Hw). by apply Hold.
Qed.

Lemma quiet_with_replaced c c' k p a : quiet c c' → quiet (with_replaced c k p a) (with_replaced c' k p a).
Proof.
  intros [Hc Hg]. split.
  - revert Hc. unfold core, with_replaced. cbn. intros [= -> -> -> -> -> -> -> -> -> ->]. done.
  - intros Hu. assert (geometry_ok c') as [].
    { apply Hg. destruct Hu; split; try done. cbn in *. by rewrite zlength_zinsert in *. }
    split; try done. cbn. by rewrite zlength_zinsert.
Qed.

(** The entry of [r], a way of the set of [a], moves to the replaced list and
    a new entry of [a] takes its place. *)
Lemma replaceDirectoryEntry_runs r a p e c (Q : entry_ptr → DirectoryCache → Prop) :
  wf c → r ≠ INVALID_ADDRESS → a ≠ INVALID_ADDRESS → full_without c a →
  p ∈ ways c (set_of c a) → _heap c !! p = Some e → DirectoryEntry.getAddress e = r →
  (∀ k c', zlookup (_directory c) k = Some p → quiet (with_replaced c k p a) c' → wf c' → Q (_next_ptr c) c') →
  runs E (replaceDirectoryEntry r a) c Q.
Proof.
  intros Hwf Hr Ha Hfull Hp He Her HQ. unfold replaceDirectoryEntry.
  apply runs_bind, runs_gets, runs_bind, access_runs. intros c1 Hq1. pose proof (quiet_wf _ _ Hq1 Hwf) as Hwf1.
  apply runs_bind, splitAddress_runs; [apply Hwf1|]. intros c2 Hq2. apply (quiet_trans _ _ _ Hq1) in Hq2.
  pose proof (quiet_wf _ _ Hq2 Hwf) as Hwf2.
  destruct (quiet_fields c c2 Hq2) as (Hheap & Hlive & Hdir & Hrep & Hpar & Hnext).
  destruct (quiet_ways c c2 (set_of c a) Hq2) as (Hways & Hassoc & Hsets).
  destruct (set_of_ok c a (wf_geometry c Hwf)) as [_ Hsr].
  assert (set_of c r = set_of c a) as Hset by (rewrite <- Her; by apply (wf_place c Hwf _ p e); [..|congruence]).
  rewrite (quiet_set_of c c1), Hset by done. unfold id. rewrite <- Hassoc.
  destruct (scan_set_ok c2 (set_of c a) (λ e, DirectoryEntry.getAddress e =? r) Hwf2) as (o & Ho & Hspec); [lia|].
  apply runs_bind. eapply runs_Ok; [exact Ho|]. rewrite Hways, Hheap, Hdir, Hassoc in Hspec.
  destruct o as [[k p']|].
  2:{ specialize (Hspec p e Hp He). by breflect. }
  destruct Hspec as (e' & Hp' & He' & Hea & Hk & Hks). breflect.
  assert (p' = p) as ->.
  { apply (wf_unique c Hwf r p' p e' e Hr); split; eauto using ways_live. }
  assert (e' = e) as -> by congruence.
  assert (wf (with_replaced c2 k p a)) as Hwf3.
  { apply (wf_with_replaced c2 k p e); rewrite ?Hdir, ?Hheap, ?Hassoc, ?(quiet_set_of c c2), ?Her by done; try done.
    by apply (quiet_full_without c c2). }
  apply runs_bind, runs_modify, runs_bind, runs_bind, runs_gets, runs_bind, runs_modify, runs_ret, runs_bind.
  eapply deref_runs; [cbn; apply lookup_insert_eq|]. apply runs_bind, runs_modify, runs_bind, runs_bind, runs_gets, runs_bind.
  eapply runs_lift; [apply vset_Ok; split; [|done]|].
  { cbn. rewrite Hdir. by apply zlookup_Some in Hk as [? _]. }
  apply runs_modify, runs_bind, runs_modify, runs_bind, runs_gets, runs_bind.
  destruct (vget_ok "_set_replacement_histogram" (_set_replacement_histogram c2) (set_of c a)) as [n Hn].
  { rewrite (gm_hist _ (wf_geometry _ Hwf2)). lia. }
  eapply runs_lift; [exact Hn|]. apply runs_bind, runs_modify, runs_ret. cbn.
  rewrite Hnext.
  assert (∀ c', quiet (with_replaced c2 k p a) c' → Q (_next_ptr c) c') as HQ2.
  { intros c' Hq. apply (HQ k); [done| |by eapply quiet_wf].
    eapply quiet_trans; [|exact Hq]. by apply quiet_with_replaced. }
  apply HQ2. split; [unfold core, with_replaced; cbn; by rewrite insert_insert_eq, Hnext|].
  intros []; split; try done; cbn in *; rewrite ?zlength_zinsert in *; by rewrite <- ?Hnext.
Qed.

End operations.

(** ** Removal of a replaced entry *)

Lemma remove_replaced_ok l c a :
  (∀ p, p ∈ l → is_Some (_heap c !! p)) →
  (∃ p e, p ∈ l ∧ _heap c !! p = Some e ∧ DirectoryEntry.getAddress e = a) →
  ∃ l1 p e l2, l = l1 ++ p :: l2 ∧ _heap c !! p = Some e ∧ DirectoryEntry.getAddress e = a ∧
    remove_replaced l a c = Ok (l1 ++ l2, c <| _heap := delete p (_heap c) |>).
Proof.
  induction l as [|p l IH]; intros Hl (q & f & Hq & Hf & Hfa); [by inversion Hq|].
  destruct (Hl p) as [e He]; [by left|]. cbn [remove_replaced]. unfold mbind, M_bind. rewrite (deref_ok p e) by done.
  destruct (Z.eqb_spec (DirectoryEntry.getAddress e) a) as [Ha|Ha]; [by exists [], p, e, l|].
  destruct IH as (l1 & r & g & l2 & -> & Hg & Hga & Hr).
  { intros r Hr. apply Hl. by right. }
  { exists q, f. apply elem_of_cons in Hq as [->|Hq]; [congruence|done]. }
  exists (p :: l1), r, g, l2. split_and!; [done..|]. by rewrite Hr.
Qed.

(** The directory without the replaced entry [p]. *)
Definition without (c : DirectoryCache) (p : entry_ptr) (l : list entry_ptr) : DirectoryCache :=
  c <| _heap := delete p (_heap c) |> <| _replaced_directory_entry_list := l |>.

Lemma without_holds c p l1 l2 a q f :
  wf c → _replaced_directory_entry_list c = l1 ++ p :: l2 →
  holds (without c p (l1 ++ l2)) a q f ↔ holds c a q f ∧ q ≠ p.
Proof.
  intros Hwf Hl. pose proof (wf_nodup c Hwf) as Hnd. unfold holds, live, without in *. cbn. rewrite Hl in *.
  rewrite lookup_delete_Some. split; [|set_solver].
  intros (Hq & [Hne Hf] & Ha). split_and!; try done. set_solver.
Qed.

Lemma without_live c p l1 l2 q :
  wf c → _replaced_directory_entry_list c = l1 ++ p :: l2 → q ∈ live (without c p (l1 ++ l2)) ↔ q ∈ live c ∧ q ≠ p.
Proof.
  intros Hwf Hl. pose proof (wf_nodup c Hwf) as Hnd. unfold live, without in *. cbn. rewrite Hl in *.
  rewrite app_assoc in Hnd. apply NoDup_app in Hnd as (_ & Hd & [Hp _]%NoDup_cons).
  specialize (Hd p). set_solver.
Qed.

Lemma wf_without c p l1 l2 :
  wf c → _replaced_directory_entry_list c = l1 ++ p :: l2 → wf (without c p (l1 ++ l2)).
Proof.
  intros Hwf Hl. pose proof Hwf as [H0 H1 H2 H3 H4 H5 H6].
  assert (∀ q f, _heap (without c p (l1 ++ l2)) !! q = Some f → _heap c !! q = Some f) as Hold.
  { intros q f. cbn. by intros [_ ?]%lookup_delete_Some. }
  split.
  - by destruct H0; split.
  - unfold live in *. cbn. rewrite Hl in H1. rewrite <- Permutation_middle, <- Permutation_middle in H1.
    by apply NoDup_cons in H1 as [_ H1].
  - intros q [Hq Hne]%(without_live c p l1 l2); [|done..]. cbn. rewrite lookup_delete_ne by done. by apply H2.
  - intros q [f Hf%Hold]. apply H3. eauto.
  - intros s q f Hq Hs Hf%Hold. by apply (H4 s q f).
  - intros a q r f g Ha. rewrite !(without_holds c p l1 l2) by done. intros [Hq _] [Hr _]. by apply (H5 a q r f g).
  - intros q f Hq Hf%Hold. destruct (H6 q f) as [H7 H8]; [rewrite Hl; set_solver|done|].
    split; [done|]. intros r g Hr Hg%Hold. by apply (H8 r g).
Qed.

Lemma invalidateDirectoryEntry_runs E a p e c (Q : unit → DirectoryCache → Prop) :
  wf c → a ≠ INVALID_ADDRESS → p ∈ _replaced_directory_entry_list c → holds c a p e →
  (∀ l1 l2, _replaced_directory_entry_list c = l1 ++ p :: l2 → Q tt (without c p (l1 ++ l2))) →
  runs E (invalidateDirectoryEntry a) c Q.
Proof.
  intros Hwf Ha Hp Hh HQ. unfold invalidateDirectoryEntry. apply runs_bind, runs_gets, runs_bind. unfold id.
  destruct (remove_replaced_ok (_replaced_directory_entry_list c) c a) as (l1 & q & f & l2 & Hl & Hf & Hfa & Hr).
  { intros q Hq. apply (wf_heap c Hwf), elem_of_app. by right. }
  { exists p, e. by destruct Hh as (_ & ? & ?). }
  eapply runs_Ok; [exact Hr|]. apply runs_modify.
  assert (q = p) as ->; [|by apply (HQ l1 l2)].
  apply (wf_unique c Hwf a q p f e Ha); [|done]. split; [|done]. apply elem_of_app. right. rewrite Hl. set_solver.
Qed.

(** ** The initial directory *)

Lemma make_heap params total assoc line dirs delay perf p e :
  _heap (make params total assoc line dirs delay perf) !! p = Some e ↔
  (p < Z.to_nat total)%nat ∧ e = DirectoryEntry.create params.
Proof.
  unfold make. cbn [_heap]. rewrite <- elem_of_list_to_map.
  - rewrite list_elem_of_fmap. setoid_rewrite elem_of_seq. split.
    + intros (i & [= -> ->] & Hi). split; [lia|done].
    + intros [Hp ->]. exists p. split; [done|lia].
  - rewrite <- list_fmap_compose. cbn. rewrite list_fmap_id. apply NoDup_seq.
Qed.

Definition geometry_params (k assoc line dirs : Z) : Prop :=
  0 < k ≤ 31 ∧ 0 < assoc ∧ 2 ^ k * assoc < 2 ^ 32 ∧ 0 < line < 2 ^ 32 ∧ 1 ≤ dirs ≤ 2 ^ 32.

Lemma make_geometry params k assoc line dirs delay perf :
  geometry_params k assoc line dirs → geometry_ok (make params (2 ^ k * assoc) assoc line dirs delay perf).
Proof.
  intros (Hk & Ha & Ht & Hl & Hd).
  assert (2 ^ k * assoc / assoc = 2 ^ k) as Hn by (apply Z.div_mul; lia).
  assert (0 < 2 ^ k ≤ 2 ^ 31) as Hk2 by (split; [lia|apply Z.pow_le_mono_r; lia]).
  assert (Utils.floorLog2 (2 ^ k) = k) as Hf by (rewrite Utils.floorLog2_spec, Z.log2_pow2 by lia; done).
  split; cbn; rewrite ?Hn, ?Hf; try done; unfold zlength; rewrite ?length_replicate, ?length_seq; try lia.
  rewrite Utils.floorLog2_spec by lia. pose proof (Z.log2_nonneg line).
  enough (0 ≤ Utils.ceilLog2 dirs) by lia. destruct (decide (dirs = 1)) as [->|]; [by vm_compute|].
  rewrite Utils.ceilLog2_spec by lia. apply Z.log2_up_nonneg.
Qed.

Lemma directory_make_wf params k assoc line dirs delay perf :
  geometry_params k assoc line dirs → wf (make params (2 ^ k * assoc) assoc line dirs delay perf).
Proof.
  intros Hg. pose proof (make_heap params (2 ^ k * assoc) assoc line dirs delay perf) as Hh. split.
  - by apply make_geometry.
  - unfold live, make. cbn. rewrite app_nil_r. apply NoDup_seq.
  - intros p Hp. exists (DirectoryEntry.create params). apply Hh. split; [|done].
    unfold live, make in Hp. cbn in Hp. rewrite app_nil_r in Hp. apply elem_of_seq in Hp. lia.
  - intros p [e [Hp _]%Hh]. done.
  - intros s p e _ _ [_ ->]%Hh Hne. by destruct Hne.
  - intros a p q e f Ha (_ & [_ ->]%Hh & Hea). by destruct Ha.
  - intros p e Hp. by inversion Hp.
Qed.

End DirectoryCacheProofs.
