(* ===== verification/MsiCaches.v ===== *)
(** * MsiCaches: the private L1 and L2 caches of a tile under the MSI protocol

    Models common/tile/memory_subsystem/pr_l1_pr_l2_dram_directory_msi/
    {cache_line_info,l1_cache_cntlr,l2_cache_cntlr}.cc and the parts of
    memory_manager.cc they call.  The two controllers share the state of the
    tile; the packets they send are collected in the order of sending.  The
    lock and the semaphores of a blocked access are left out: a memory
    operation that has to wait returns [None] and is resumed by its second
    access. *)
From S2P Require Import Prelude Utils CacheSet Cache Shmem.

(** ** Line information of the L2 cache *)
Module PrL2.

Record LineInfo := mkLineInfo {
  _tag : Z;
  _cstate : CacheState.Type_;
  _cached_loc : MemComponent.Type_
}.
#[global] Instance eta_LineInfo : Eta LineInfo := λ l,
  mkLineInfo (_tag l) (_cstate l) (_cached_loc l).

#[global] Instance LineInfo_ops : CacheLineInfo LineInfo := {
  fresh := mkLineInfo INVALID_TAG CacheState.INVALID MemComponent.INVALID;
  getTag := _tag;
  getCState := _cstate;
  setTag t l := l <| _tag := t |>;
  setCState s l := l <| _cstate := s |>;
  invalidate l := mkLineInfo INVALID_TAG CacheState.INVALID MemComponent.INVALID
}.
#[global] Instance LineInfo_laws : CacheLineInfoLaws LineInfo.
Proof. by split. Qed.

Definition getCachedLoc (l : LineInfo) : MemComponent.Type_ := _cached_loc l.
Definition setCachedLoc (loc : MemComponent.Type_) (l : LineInfo) : res LineInfo :=
  check (bool_decide (loc ≠ MemComponent.INVALID)) (EAssert "PrL2CacheLineInfo::setCachedLoc") ;;
  check (bool_decide (_cached_loc l = MemComponent.INVALID)) (EAssert "PrL2CacheLineInfo::setCachedLoc") ;;
  Ok (l <| _cached_loc := loc |>).
Definition clearCachedLoc (loc : MemComponent.Type_) (l : LineInfo) : res LineInfo :=
  check (bool_decide (loc ≠ MemComponent.INVALID)) (EAssert "PrL2CacheLineInfo::clearCachedLoc") ;;
  check (bool_decide (_cached_loc l = loc)) (EAssert "PrL2CacheLineInfo::clearCachedLoc") ;;
  Ok (l <| _cached_loc := MemComponent.INVALID |>).

End PrL2.

Module Tile.

Record Tile := mkTile {
  _tile_id : Z;
  _is_application_tile : bool;
  _cache_line_size : Z;
  _home_lookup : AddressHomeLookup.AddressHomeLookup;
  _miss_types : MissTypes.MissTypes;
  _l1_icache : Cache.Cache LineInfo.LineInfo;
  _l1_dcache : Cache.Cache LineInfo.LineInfo;
  _l2_cache : Cache.Cache PrL2.LineInfo;
  _l1_icache_perf_model : CachePerfModel.CachePerfModel;
  _l1_dcache_perf_model : CachePerfModel.CachePerfModel;
  _l2_cache_perf_model : CachePerfModel.CachePerfModel;
  _outstanding_shmem_msg : ShmemMsg.ShmemMsg;
  _outstanding_shmem_msg_time : Z;
  _shmem_perf_model : ShmemPerfModel.ShmemPerfModel;
  (** The thread that runs: [ShmemPerfModel::getThreadType()]. *)
  _thread : ShmemPerfModel.ThreadType;
  _net : list Packet.Packet
}.
#[global] Instance eta_Tile : Eta Tile := λ t, mkTile
  (_tile_id t) (_is_application_tile t) (_cache_line_size t) (_home_lookup t) (_miss_types t)
  (_l1_icache t) (_l1_dcache t) (_l2_cache t) (_l1_icache_perf_model t) (_l1_dcache_perf_model t)
  (_l2_cache_perf_model t) (_outstanding_shmem_msg t) (_outstanding_shmem_msg_time t)
  (_shmem_perf_model t) (_thread t) (_net t).

(** ** The memory manager *)

Definition sendMsg (receiver : Z) (msg : ShmemMsg.ShmemMsg) : M Tile unit :=
  t ← gets id ;
  p ← lift (Packet.make (_tile_id t)
              (ShmemPerfModel.getCycleCount (_thread t) (_shmem_perf_model t)) (Some receiver) msg) ;
  modify (λ t, t <| _net := _net t ++ [p] |>).

Definition clock_incr (n : Z) : M Tile unit :=
  t ← gets id ;
  p ← lift (ShmemPerfModel.incrCycleCount (_thread t) n (_shmem_perf_model t)) ;
  modify (λ t, t <| _shmem_perf_model := p |>).

Definition incrCycleCount (mem_component : MemComponent.Type_)
    (access_type : CachePerfModel.CacheAccess_t) : M Tile unit :=
  t ← gets id ;
  match mem_component with
  | MemComponent.L1_ICACHE =>
    clock_incr (CachePerfModel.getLatency (_l1_icache_perf_model t) access_type)
  | MemComponent.L1_DCACHE =>
    clock_incr (CachePerfModel.getLatency (_l1_dcache_perf_model t) access_type)
  | MemComponent.L2_CACHE =>
    clock_incr (CachePerfModel.getLatency (_l2_cache_perf_model t) access_type)
  | MemComponent.INVALID => skip
  | _ => fail (ELog "Unrecognized mem component type")
  end.

(** ** L1 cache controller: helpers *)

(** The operations of [getL1Cache(mem_component)]. *)
Definition l1 {A} (mem_component : MemComponent.Type_) (m : M (Cache.Cache LineInfo.LineInfo) A)
    : M Tile A :=
  match mem_component with
  | MemComponent.L1_ICACHE => zoom _l1_icache (λ c t, t <| _l1_icache := c |>) m
  | MemComponent.L1_DCACHE => zoom _l1_dcache (λ c t, t <| _l1_dcache := c |>) m
  | _ => fail (ELog "Unrecognized Memory Component")
  end.
Definition l2 {A} (m : M (Cache.Cache PrL2.LineInfo) A) : M Tile A :=
  zoom _l2_cache (λ c t, t <| _l2_cache := c |>) m.

Definition l1_insertCacheLine (mem_component : MemComponent.Type_) (address : Z)
    (cstate : CacheState.Type_) (fill_buf : option (list Z))
    : M Tile (Cache.Eviction LineInfo.LineInfo) :=
  l1 mem_component (
    c ← gets id ;
    let info := setCState cstate (setTag (Cache.getTag_of c address) fresh) in
    Cache.insertCacheLine address info fill_buf fresh false).

Definition getCacheLineState (mem_component : MemComponent.Type_) (address : Z)
    : M Tile CacheState.Type_ :=
  info ← l1 mem_component (Cache.getCacheLineInfo address) ;
  mret (getCState info).

Definition setCacheLineState (mem_component : MemComponent.Type_) (address : Z)
    (cstate : CacheState.Type_) : M Tile unit :=
  info ← l1 mem_component (Cache.getCacheLineInfo address) ;
  assert (bool_decide (getCState info ≠ CacheState.INVALID)) "L1CacheCntlr::setCacheLineState" ;;
  l1 mem_component (Cache.setCacheLineInfo address (setCState cstate info)).

Definition l1_invalidateCacheLine (mem_component : MemComponent.Type_) (address : Z) : M Tile unit :=
  info ← l1 mem_component (Cache.getCacheLineInfo address) ;
  when (isValid info) (l1 mem_component (Cache.setCacheLineInfo address (invalidate info))).

Definition getShmemMsgType (mem_op_type : MemOp.mem_op_t) : ShmemMsg.Type_ :=
  match mem_op_type with
  | MemOp.READ => ShmemMsg.SH_REQ
  | MemOp.READ_EX | MemOp.WRITE => ShmemMsg.EX_REQ
  end.

Definition permitted (mem_op_type : MemOp.mem_op_t) (cstate : CacheState.Type_) : bool :=
  match mem_op_type with
  | MemOp.READ => CacheState.readable cstate
  | MemOp.READ_EX | MemOp.WRITE => CacheState.writable cstate
  end.

Definition operationPermissibleinL1Cache (mem_component : MemComponent.Type_) (address : Z)
    (mem_op_type : MemOp.mem_op_t) (access_num : Z) : M Tile bool :=
  cstate ← getCacheLineState mem_component address ;
  let cache_hit := permitted mem_op_type cstate in
  (if access_num =? 1 then
     _ ← l1 mem_component (Cache.updateMissCounters address mem_op_type (negb cache_hit)) ; skip
   else skip) ;;
  mret cache_hit.

(** ** L2 cache controller *)

Definition invalidateCacheLine (address : Z) (info : PrL2.LineInfo) : M Tile unit :=
  l2 (Cache.setCacheLineInfo address (invalidate info)).

Definition readCacheLine (address : Z) : M Tile (option (list Z)) :=
  t ← gets id ;
  l2 (Cache.accessCacheLine address (Cache.LOAD true (_cache_line_size t))).

Definition writeCacheLine (address offset : Z) (data_buf : option (list Z)) (data_length : Z)
    : M Tile unit :=
  _ ← l2 (Cache.accessCacheLine (u64 (address + offset)) (Cache.STORE data_buf data_length)) ; skip.

Definition invalidateCacheLineInL1 (mem_component : MemComponent.Type_) (address : Z) : M Tile unit :=
  when (bool_decide (mem_component ≠ MemComponent.INVALID))
    (l1_invalidateCacheLine mem_component address).

Definition setCacheLineStateInL1 (mem_component : MemComponent.Type_) (address : Z)
    (cstate : CacheState.Type_) : M Tile unit :=
  when (bool_decide (mem_component ≠ MemComponent.INVALID))
    (setCacheLineState mem_component address cstate).

Definition getHome (address : Z) : M Tile Z :=
  t ← gets id ; lift (AddressHomeLookup.getHome (_home_lookup t) address).

Definition insertCacheLine (address : Z) (cstate : CacheState.Type_) (fill_buf : option (list Z))
    (mem_component : MemComponent.Type_) : M Tile unit :=
  t ← gets id ;
  info ← lift (PrL2.setCachedLoc mem_component
                 (setCState cstate (setTag (Cache.getTag_of (_l2_cache t) address) fresh))) ;
  ev ← l2 (Cache.insertCacheLine address info fill_buf fresh true) ;
  when (Cache.eviction ev) (
    let evicted := Cache.evicted_cache_line_info ev in
    let evicted_address := Cache.evicted_address ev in
    invalidateCacheLineInL1 (PrL2.getCachedLoc evicted) evicted_address ;;
    home_node_id ← getHome evicted_address ;
    let eviction_msg_modeled := MissTypes.isMissTypeModeled (_miss_types t) Cache.CAPACITY_MISS in
    if bool_decide (getCState evicted = CacheState.MODIFIED) then
      sendMsg home_node_id
        (ShmemMsg.make_data ShmemMsg.FLUSH_REP MemComponent.L2_CACHE MemComponent.DRAM_DIRECTORY
           (_tile_id t) evicted_address (Cache.writeback ev) (_cache_line_size t)
           eviction_msg_modeled)
    else
      (if bool_decide (getCState evicted = CacheState.SHARED) then skip
       else fail (ELog "L2CacheCntlr::insertCacheLine")) ;;
      sendMsg home_node_id
        (ShmemMsg.make ShmemMsg.INV_REP MemComponent.L2_CACHE MemComponent.DRAM_DIRECTORY
           (_tile_id t) evicted_address eviction_msg_modeled)).

Definition insertCacheLineInL1 (mem_component : MemComponent.Type_) (address : Z)
    (cstate : CacheState.Type_) (fill_buf : option (list Z)) : M Tile unit :=
  assert (bool_decide (mem_component ≠ MemComponent.INVALID)) "L2CacheCntlr::insertCacheLineInL1" ;;
  ev ← l1_insertCacheLine mem_component address cstate fill_buf ;
  when (Cache.eviction ev) (
    info ← l2 (Cache.getCacheLineInfo (Cache.evicted_address ev)) ;
    info ← lift (PrL2.clearCachedLoc mem_component info) ;
    l2 (Cache.setCacheLineInfo (Cache.evicted_address ev) info)).

Definition insertCacheLineInHierarchy (address : Z) (cstate : CacheState.Type_)
    (fill_buf : option (list Z)) : M Tile unit :=
  t ← gets id ;
  assert (address =? ShmemMsg._address (_outstanding_shmem_msg t))
    "L2CacheCntlr::insertCacheLineInHierarchy" ;;
  let mem_component := ShmemMsg._sender_mem_component (_outstanding_shmem_msg t) in
  insertCacheLine address cstate fill_buf mem_component ;;
  insertCacheLineInL1 mem_component address cstate fill_buf.

Definition operationPermissibleinL2Cache (mem_op_type : MemOp.mem_op_t) (address : Z)
    (cstate : CacheState.Type_) : M Tile (bool * Cache.MissType) :=
  let cache_hit := permitted mem_op_type cstate in
  miss_type ← l2 (Cache.updateMissCounters address mem_op_type (negb cache_hit)) ;
  mret (negb cache_hit, miss_type).

Definition processShmemRequestFromL1Cache (mem_component : MemComponent.Type_)
    (mem_op_type : MemOp.mem_op_t) (address : Z) : M Tile (bool * Cache.MissType) :=
  info ← l2 (Cache.getCacheLineInfo address) ;
  let cstate := getCState info in
  status ← operationPermissibleinL2Cache mem_op_type address cstate ;
  when (negb status.1) (
    data_buf ← readCacheLine address ;
    insertCacheLineInL1 mem_component address cstate data_buf ;;
    info ← lift (PrL2.setCachedLoc mem_component info) ;
    l2 (Cache.setCacheLineInfo address info)) ;;
  mret status.

Definition processExReqFromL1Cache (shmem_msg : ShmemMsg.ShmemMsg) : M Tile unit :=
  let address := ShmemMsg._address shmem_msg in
  let modeled := ShmemMsg._modeled shmem_msg in
  t ← gets id ;
  info ← l2 (Cache.getCacheLineInfo address) ;
  let cstate := getCState info in
  assert (bool_decide (cstate = CacheState.INVALID) || bool_decide (cstate = CacheState.SHARED))
    "L2CacheCntlr::processExReqFromL1Cache" ;;
  when (bool_decide (cstate = CacheState.SHARED)) (
    invalidateCacheLine address info ;;
    home ← getHome address ;
    sendMsg home (ShmemMsg.make ShmemMsg.INV_REP MemComponent.L2_CACHE MemComponent.DRAM_DIRECTORY
                    (_tile_id t) address modeled)) ;;
  home ← getHome address ;
  sendMsg home (ShmemMsg.make ShmemMsg.EX_REQ MemComponent.L2_CACHE MemComponent.DRAM_DIRECTORY
                  (_tile_id t) address modeled).

Definition processShReqFromL1Cache (shmem_msg : ShmemMsg.ShmemMsg) : M Tile unit :=
  let address := ShmemMsg._address shmem_msg in
  t ← gets id ;
  home ← getHome address ;
  sendMsg home (ShmemMsg.make ShmemMsg.SH_REQ MemComponent.L2_CACHE MemComponent.DRAM_DIRECTORY
                  (_tile_id t) address (ShmemMsg._modeled shmem_msg)).

Definition handleMsgFromL1Cache (shmem_msg : ShmemMsg.ShmemMsg) : M Tile unit :=
  let address := ShmemMsg._address shmem_msg in
  assert (bool_decide (ShmemMsg._data_buf shmem_msg = None)) "L2CacheCntlr::handleMsgFromL1Cache" ;;
  assert (ShmemMsg._data_length shmem_msg =? 0) "L2CacheCntlr::handleMsgFromL1Cache" ;;
  t ← gets id ;
  assert (ShmemMsg._address (_outstanding_shmem_msg t) =? INVALID_ADDRESS)
    "L2CacheCntlr::handleMsgFromL1Cache" ;;
  modify (λ t, t <| _outstanding_shmem_msg :=
      (_outstanding_shmem_msg t) <| ShmemMsg._address := address |>
        <| ShmemMsg._sender_mem_component := ShmemMsg._sender_mem_component shmem_msg |> |>
    <| _outstanding_shmem_msg_time :=
      ShmemPerfModel.getCycleCount (_thread t) (_shmem_perf_model t) |>) ;;
  match ShmemMsg._msg_type shmem_msg with
  | ShmemMsg.EX_REQ => processExReqFromL1Cache shmem_msg
  | ShmemMsg.SH_REQ => processShReqFromL1Cache shmem_msg
  | _ => fail (ELog "Unrecognized shmem msg type")
  end.

Definition processExRepFromDramDirectory (shmem_msg : ShmemMsg.ShmemMsg) : M Tile unit :=
  insertCacheLineInHierarchy (ShmemMsg._address shmem_msg) CacheState.MODIFIED
    (ShmemMsg._data_buf shmem_msg).

Definition processShRepFromDramDirectory (shmem_msg : ShmemMsg.ShmemMsg) : M Tile unit :=
  insertCacheLineInHierarchy (ShmemMsg._address shmem_msg) CacheState.SHARED
    (ShmemMsg._data_buf shmem_msg).

Definition processInvReqFromDramDirectory (sender : Z) (shmem_msg : ShmemMsg.ShmemMsg) : M Tile unit :=
  let address := ShmemMsg._address shmem_msg in
  info ← l2 (Cache.getCacheLineInfo address) ;
  let cstate := getCState info in
  if bool_decide (cstate ≠ CacheState.INVALID) then
    assert (bool_decide (cstate = CacheState.SHARED)) "L2CacheCntlr::processInvReqFromDramDirectory" ;;
    incrCycleCount MemComponent.L2_CACHE CachePerfModel.ACCESS_CACHE_TAGS ;;
    incrCycleCount (PrL2.getCachedLoc info) CachePerfModel.ACCESS_CACHE_TAGS ;;
    invalidateCacheLineInL1 (PrL2.getCachedLoc info) address ;;
    invalidateCacheLine address info ;;
    sendMsg sender (ShmemMsg.make ShmemMsg.INV_REP MemComponent.L2_CACHE MemComponent.DRAM_DIRECTORY
                      (ShmemMsg._requester shmem_msg) address (ShmemMsg._modeled shmem_msg))
  else incrCycleCount MemComponent.L2_CACHE CachePerfModel.ACCESS_CACHE_TAGS.

Definition processFlushReqFromDramDirectory (sender : Z) (shmem_msg : ShmemMsg.ShmemMsg)
    : M Tile unit :=
  let address := ShmemMsg._address shmem_msg in
  t ← gets id ;
  info ← l2 (Cache.getCacheLineInfo address) ;
  let cstate := getCState info in
  if bool_decide (cstate ≠ CacheState.INVALID) then
    assert (bool_decide (cstate = CacheState.MODIFIED)) "L2CacheCntlr::processFlushReqFromDramDirectory" ;;
    incrCycleCount MemComponent.L2_CACHE CachePerfModel.ACCESS_CACHE_DATA_AND_TAGS ;;
    incrCycleCount (PrL2.getCachedLoc info) CachePerfModel.ACCESS_CACHE_TAGS ;;
    invalidateCacheLineInL1 (PrL2.getCachedLoc info) address ;;
    data_buf ← readCacheLine address ;
    invalidateCacheLine address info ;;
    sendMsg sender
      (ShmemMsg.make_data ShmemMsg.FLUSH_REP MemComponent.L2_CACHE MemComponent.DRAM_DIRECTORY
         (ShmemMsg._requester shmem_msg) address data_buf (_cache_line_size t)
         (ShmemMsg._modeled shmem_msg))
  else incrCycleCount MemComponent.L2_CACHE CachePerfModel.ACCESS_CACHE_TAGS.

Definition processWbReqFromDramDirectory (sender : Z) (shmem_msg : ShmemMsg.ShmemMsg) : M Tile unit :=
  let address := ShmemMsg._address shmem_msg in
  t ← gets id ;
  info ← l2 (Cache.getCacheLineInfo address) ;
  let cstate := getCState info in
  if bool_decide (cstate ≠ CacheState.INVALID) then
    assert (bool_decide (cstate = CacheState.MODIFIED)) "L2CacheCntlr::processWbReqFromDramDirectory" ;;
    incrCycleCount MemComponent.L2_CACHE CachePerfModel.ACCESS_CACHE_DATA_AND_TAGS ;;
    incrCycleCount (PrL2.getCachedLoc info) CachePerfModel.ACCESS_CACHE_TAGS ;;
    setCacheLineStateInL1 (PrL2.getCachedLoc info) address CacheState.SHARED ;;
    data_buf ← readCacheLine address ;
    l2 (Cache.setCacheLineInfo address (setCState CacheState.SHARED info)) ;;
    sendMsg sender
      (ShmemMsg.make_data ShmemMsg.WB_REP MemComponent.L2_CACHE MemComponent.DRAM_DIRECTORY
         (ShmemMsg._requester shmem_msg) address data_buf (_cache_line_size t)
         (ShmemMsg._modeled shmem_msg))
  else incrCycleCount MemComponent.L2_CACHE CachePerfModel.ACCESS_CACHE_TAGS.

(** The end of [handleMsgFromDramDirectory] for a reply: the clocks, and the
    outstanding request is closed; the hand-over to the application thread
    follows. *)
Definition completeRequest (shmem_msg : ShmemMsg.ShmemMsg) : M Tile unit :=
  t ← gets id ;
  (if _outstanding_shmem_msg_time t <=? ShmemPerfModel.getCycleCount (_thread t) (_shmem_perf_model t)
   then skip else fail (ELog "L2CacheCntlr::handleMsgFromDramDirectory")) ;;
  when (negb (ShmemMsg._modeled shmem_msg))
    (modify (λ t, t <| _shmem_perf_model :=
       ShmemPerfModel.setCycleCount (_thread t) (_outstanding_shmem_msg_time t) (_shmem_perf_model t) |>)) ;;
  incrCycleCount MemComponent.L2_CACHE CachePerfModel.ACCESS_CACHE_DATA_AND_TAGS ;;
  modify (λ t, t <| _shmem_perf_model :=
    ShmemPerfModel.setCycleCount ShmemPerfModel.APP_THREAD
      (ShmemPerfModel.getCycleCount (_thread t) (_shmem_perf_model t)) (_shmem_perf_model t) |>) ;;
  modify (λ t, t <| _outstanding_shmem_msg :=
    (_outstanding_shmem_msg t) <| ShmemMsg._address := INVALID_ADDRESS |> |>).

Definition handleMsgFromDramDirectory (sender : Z) (shmem_msg : ShmemMsg.ShmemMsg) : M Tile unit :=
  match ShmemMsg._msg_type shmem_msg with
  | ShmemMsg.EX_REP => processExRepFromDramDirectory shmem_msg ;; completeRequest shmem_msg
  | ShmemMsg.SH_REP => processShRepFromDramDirectory shmem_msg ;; completeRequest shmem_msg
  | ShmemMsg.INV_REQ => processInvReqFromDramDirectory sender shmem_msg
  | ShmemMsg.FLUSH_REQ => processFlushReqFromDramDirectory sender shmem_msg
  | ShmemMsg.WB_REQ => processWbReqFromDramDirectory sender shmem_msg
  | _ => fail (ELog "Unrecognized msg type")
  end.

(** ** L1 cache controller: memory operations of the core *)

(** An operation of the core with its buffer: reads return the bytes. *)
Definition accessCache (mem_component : MemComponent.Type_) (mem_op_type : MemOp.mem_op_t)
    (ca_address offset : Z) (data_buf : list Z) (data_length : Z) : M Tile (option (list Z)) :=
  match mem_op_type with
  | MemOp.READ | MemOp.READ_EX =>
    l1 mem_component
      (Cache.accessCacheLine (u64 (ca_address + offset)) (Cache.LOAD true data_length))
  | MemOp.WRITE =>
    _ ← l1 mem_component
      (Cache.accessCacheLine (u64 (ca_address + offset)) (Cache.STORE (Some data_buf) data_length)) ;
    writeCacheLine ca_address offset (Some data_buf) data_length ;;
    mret None
  end.

(** One iteration of the loop of [processMemOpFromTile]: [Some (hit, data)]
    when the operation is done, [None] when a request was sent and the
    application thread waits for the reply. *)
Definition processMemOpFromTile (access_num : Z) (l1_cache_hit : bool)
    (mem_component : MemComponent.Type_) (lock_signal : MemOp.lock_signal_t)
    (mem_op_type : MemOp.mem_op_t) (ca_address offset : Z) (data_buf : list Z) (data_length : Z)
    : M Tile (option (bool * option (list Z))) :=
  (if (access_num =? 1) || (access_num =? 2) then skip
   else fail (ELog "L1CacheCntlr::processMemOpFromTile")) ;;
  permissible ← operationPermissibleinL1Cache mem_component ca_address mem_op_type access_num ;
  if (permissible : bool) then
    incrCycleCount mem_component CachePerfModel.ACCESS_CACHE_DATA_AND_TAGS ;;
    data ← accessCache mem_component mem_op_type ca_address offset data_buf data_length ;
    mret (Some (l1_cache_hit, data))
  else
    incrCycleCount mem_component CachePerfModel.ACCESS_CACHE_TAGS ;;
    (if bool_decide (lock_signal ≠ MemOp.UNLOCK) then skip
     else fail (ELog "L1CacheCntlr::processMemOpFromTile")) ;;
    l1_invalidateCacheLine mem_component ca_address ;;
    miss_info ← processShmemRequestFromL1Cache mem_component mem_op_type ca_address ;
    let '(l2_cache_miss, l2_cache_miss_type) := miss_info : bool * Cache.MissType in
    if negb l2_cache_miss then
      incrCycleCount MemComponent.L2_CACHE CachePerfModel.ACCESS_CACHE_DATA_AND_TAGS ;;
      incrCycleCount mem_component CachePerfModel.ACCESS_CACHE_DATA_AND_TAGS ;;
      data ← accessCache mem_component mem_op_type ca_address offset data_buf data_length ;
      mret (Some (false, data))
    else
      incrCycleCount MemComponent.L2_CACHE CachePerfModel.ACCESS_CACHE_TAGS ;;
      t ← gets id ;
      let msg_modeled :=
        MissTypes.isMissTypeModeled (_miss_types t) l2_cache_miss_type && _is_application_tile t in
      sendMsg (_tile_id t)
        (ShmemMsg.make (getShmemMsgType mem_op_type) mem_component MemComponent.L2_CACHE
           (_tile_id t) ca_address msg_modeled) ;;
      mret None.

End Tile.
