(* ===== verification/MsiCachesProofs.v ===== *)
(** * MsiCachesProofs: the invariant of a tile and its handlers

    The caches of a tile are viewed as maps from addresses to lines; the
    invariant [tile_inv] is the inclusion of the L1 caches in the L2 cache with
    equal bytes and states.  Every handler of MsiCaches.v succeeds from a state
    that satisfies it (no assertion of the source fails), preserves it, changes
    the views as described and sends exactly the stated messages. *)
From S2P Require Import Prelude Utils CacheSet Cache Shmem MsiCaches.

Module TileProofs.
Import Tile.

(** ** Views of the caches of a tile *)

Definition is_l1 (m : MemComponent.Type_) : Prop :=
  m = MemComponent.L1_ICACHE ∨ m = MemComponent.L1_DCACHE.

Definition getL1 (m : MemComponent.Type_) (t : Tile) : Cache.Cache LineInfo.LineInfo :=
  if decide (m = MemComponent.L1_ICACHE) then _l1_icache t else _l1_dcache t.
Definition setL1 (m : MemComponent.Type_) (c : Cache.Cache LineInfo.LineInfo) (t : Tile) : Tile :=
  if decide (m = MemComponent.L1_ICACHE) then t <| _l1_icache := c |> else t <| _l1_dcache := c |>.

(** The lines of the L1 caches and of the L2 cache. *)
Definition v1 (t : Tile) (m : MemComponent.Type_) (a : Z) : option (LineInfo.LineInfo * list Z) :=
  Cache.lookup (getL1 m t) a.
Definition v2 (t : Tile) (a : Z) : option (PrL2.LineInfo * list Z) := Cache.lookup (_l2_cache t) a.

Definition line_of (t : Tile) (a : Z) : Z := Cache.getTag_of (_l2_cache t) a.

(** Everything but the caches. *)
Definition rest (t : Tile) :=
  (_tile_id t, _is_application_tile t, _cache_line_size t, _home_lookup t, _miss_types t,
   (_l1_icache_perf_model t, _l1_dcache_perf_model t, _l2_cache_perf_model t),
   _outstanding_shmem_msg t, _outstanding_shmem_msg_time t, _shmem_perf_model t, _thread t, _net t).

(** The size of the lines of a cache; what the caches of a tile share. *)
Definition line_shape {L} (c : Cache.Cache L) : Z * Z :=
  (Cache._line_size c, Cache._log_line_size c).
(** What no operation changes in the caches of a tile. *)
Definition shapes (t : Tile) :=
  (Cache.shape (_l2_cache t), Cache.shape (_l1_icache t), Cache.shape (_l1_dcache t)).

Lemma shape_line {L} (c c' : Cache.Cache L) : Cache.shape c' = Cache.shape c → line_shape c' = line_shape c.
Proof. unfold Cache.shape, line_shape. by intros [= -> -> _]. Qed.
Lemma shapes_l2 t t' : shapes t' = shapes t → Cache.shape (_l2_cache t') = Cache.shape (_l2_cache t).
Proof. intros H. exact (f_equal (λ x, x.1.1) H). Qed.
Lemma shapes_l1 t t' m : shapes t' = shapes t → Cache.shape (getL1 m t') = Cache.shape (getL1 m t).
Proof.
  intros H. unfold getL1. destruct (decide _);
    [exact (f_equal (λ x, x.1.2) H)|exact (f_equal (λ x, x.2) H)].
Qed.

Record caches_ok (t : Tile) : Prop := {
  co_l1 m : is_l1 m → Cache.wf (getL1 m t);
  co_l2 : Cache.wf (_l2_cache t);
  co_shape m : is_l1 m → line_shape (getL1 m t) = line_shape (_l2_cache t);
  co_size : _cache_line_size t = Cache._line_size (_l2_cache t)
}.

(** [t'] is [t] but for the caches, which are still well formed. *)
Record stepped (t t' : Tile) : Prop := {
  st_ok : caches_ok t';
  st_rest : rest t' = rest t;
  st_shape : shapes t' = shapes t
}.

Lemma l1_run {A} m (op : M (Cache.Cache LineInfo.LineInfo) A) t :
  is_l1 m →
  l1 m op t = match op (getL1 m t) with Ok (a, c) => Ok (a, setL1 m c t) | Fail e => Fail e end.
Proof. by intros [->| ->]. Qed.

Lemma getL1_setL1 m m' c t :
  is_l1 m → is_l1 m' → getL1 m' (setL1 m c t) = if decide (m' = m) then c else getL1 m' t.
Proof. by intros [->| ->] [->| ->]. Qed.
Lemma setL1_l2 m c t : _l2_cache (setL1 m c t) = _l2_cache t.
Proof. unfold setL1. by case_decide. Qed.
Lemma setL1_rest m c t : rest (setL1 m c t) = rest t.
Proof. unfold setL1. by case_decide. Qed.
Lemma setL1_size m c t : _cache_line_size (setL1 m c t) = _cache_line_size t.
Proof. unfold setL1. by case_decide. Qed.

Lemma stepped_trans t t1 t2 : stepped t t1 → stepped t1 t2 → stepped t t2.
Proof. intros [] []. split; [done|congruence..]. Qed.

Lemma setL1_stepped m c t :
  is_l1 m → caches_ok t → Cache.wf c → Cache.shape c = Cache.shape (getL1 m t) →
  stepped t (setL1 m c t).
Proof.
  intros Hm Hok Hc Hs. split; [|apply setL1_rest|].
  2:{ unfold shapes, setL1, getL1 in *. destruct (decide _); cbn; by rewrite Hs. }
  destruct Hok. split; rewrite ?setL1_l2, ?setL1_size; try done.
  - intros m' Hm'. rewrite getL1_setL1 by done. case_decide; [done|by apply co_l3].
  - intros m' Hm'. rewrite getL1_setL1 by done. case_decide; [subst|by apply co_shape0].
    rewrite (shape_line _ _ Hs). by apply co_shape0.
Qed.

Lemma setL2_stepped c t :
  caches_ok t → Cache.wf c → Cache.shape c = Cache.shape (_l2_cache t) →
  stepped t (t <| _l2_cache := c |>).
Proof.
  intros [] Hc Hs. split; [|done|unfold shapes; cbn; by rewrite Hs]. split; cbn; try done.
  - intros m Hm. rewrite (shape_line _ _ Hs). by apply co_shape0.
  - injection Hs as Hs _ _. by rewrite Hs.
Qed.

Lemma stepped_line t t' a : stepped t t' → line_of t' a = line_of t a.
Proof.
  intros [_ _ [= _ Hs _]%shapes_l2]. unfold line_of, Cache.getTag_of. by rewrite Hs.
Qed.

Lemma l1_line t m a : caches_ok t → is_l1 m → Cache.getTag_of (getL1 m t) a = line_of t a.
Proof.
  intros Hok Hm. pose proof (co_shape t Hok m Hm) as [= _ Hlog].
  unfold line_of, Cache.getTag_of. by rewrite Hlog.
Qed.

Lemma v1_line t m a b : caches_ok t → is_l1 m → line_of t a = line_of t b → v1 t m a = v1 t m b.
Proof. intros Hok Hm He. apply Cache.lookup_tag. by rewrite !l1_line. Qed.
Lemma v2_line t a b : line_of t a = line_of t b → v2 t a = v2 t b.
Proof. intros He. by apply Cache.lookup_tag. Qed.

Lemma setL1_v1 m c t m' b :
  is_l1 m → is_l1 m' → v1 (setL1 m c t) m' b = if decide (m' = m) then Cache.lookup c b else v1 t m' b.
Proof. intros Hm Hm'. unfold v1. rewrite getL1_setL1 by done. by case_decide. Qed.
Lemma setL1_v2 m c t b : v2 (setL1 m c t) b = v2 t b.
Proof. unfold v2. by rewrite setL1_l2. Qed.

(** A step that changes neither view. *)
Definition same_views (t t' : Tile) : Prop :=
  (∀ m b, is_l1 m → v1 t' m b = v1 t m b) ∧ (∀ b, v2 t' b = v2 t b).

(** *** The operations of the caches on the views *)

Lemma l1_get_ok m a t :
  is_l1 m → caches_ok t → Cache.address_ok a →
  ∃ t', l1 m (Cache.getCacheLineInfo a) t =
      Ok (match v1 t m a with Some (l, _) => l | None => fresh end, t') ∧
    stepped t t' ∧ same_views t t'.
Proof.
  intros Hm Hok Ha. destruct (Cache.getCacheLineInfo_ok (getL1 m t) a (co_l1 t Hok m Hm) Ha) as [k Hrun].
  rewrite (l1_run m _ t Hm), Hrun. eexists. split; [done|]. split; [|split].
  - apply setL1_stepped; try done. apply (Cache.wf_core (getL1 m t)); [done|by apply co_l1].
  - intros m' b Hm'. rewrite setL1_v1 by done. case_decide; by subst.
  - intros b. apply setL1_v2.
Qed.

Lemma l2_get_ok a t :
  caches_ok t → Cache.address_ok a →
  ∃ t', l2 (Cache.getCacheLineInfo a) t =
      Ok (match v2 t a with Some (l, _) => l | None => fresh end, t') ∧
    stepped t t' ∧ same_views t t'.
Proof.
  intros Hok Ha. destruct (Cache.getCacheLineInfo_ok (_l2_cache t) a (co_l2 t Hok) Ha) as [k Hrun].
  unfold l2, zoom. rewrite Hrun. eexists. split; [done|]. split; [|done].
  apply setL2_stepped; [done| |done]. apply (Cache.wf_core (_l2_cache t)); [done|by apply co_l2].
Qed.

Lemma l1_set_ok m a l old d t :
  is_l1 m → caches_ok t → Cache.update_args_ok (getL1 m t) a l → v1 t m a = Some (old, d) →
  ∃ t', l1 m (Cache.setCacheLineInfo a l) t = Ok (tt, t') ∧ stepped t t' ∧
    (∀ b, v2 t' b = v2 t b) ∧
    ∀ m' b, is_l1 m' → Cache.address_ok b → v1 t' m' b =
      if decide (m' = m ∧ line_of t b = line_of t a)
      then (if isValid l then Some (l, d) else None) else v1 t m' b.
Proof.
  intros Hm Hok Hargs Hl.
  destruct (Cache.setCacheLineInfo_ok (getL1 m t) a l old d (co_l1 t Hok m Hm) Hargs Hl)
    as (c' & Hrun & Hwf & Hsh & Hlk).
  rewrite (l1_run m _ t Hm), Hrun. eexists. split; [done|]. split; [|split].
  - by apply setL1_stepped.
  - intros b. apply setL1_v2.
  - intros m' b Hm' Hb. rewrite setL1_v1 by done. destruct (decide (m' = m)) as [->|Hne].
    + rewrite Hlk by done. rewrite !l1_line by done. by repeat case_decide; naive_solver.
    + by rewrite decide_False by naive_solver.
Qed.

Lemma l2_set_ok a l old d t :
  caches_ok t → Cache.update_args_ok (_l2_cache t) a l → v2 t a = Some (old, d) →
  ∃ t', l2 (Cache.setCacheLineInfo a l) t = Ok (tt, t') ∧ stepped t t' ∧
    (∀ m b, is_l1 m → v1 t' m b = v1 t m b) ∧
    ∀ b, Cache.address_ok b → v2 t' b =
      if decide (line_of t b = line_of t a)
      then (if isValid l then Some (l, d) else None) else v2 t b.
Proof.
  intros Hok Hargs Hl.
  destruct (Cache.setCacheLineInfo_ok (_l2_cache t) a l old d (co_l2 t Hok) Hargs Hl)
    as (c' & Hrun & Hwf & Hsh & Hlk).
  unfold l2, zoom. rewrite Hrun. eexists. split; [done|]. split; [|split].
  - by apply setL2_stepped.
  - intros m b [->| ->]; done.
  - intros b Hb. by apply Hlk.
Qed.

Lemma l2_load_ok a l d t :
  caches_ok t → Cache.aligned (_l2_cache t) a → v2 t a = Some (l, d) →
  ∃ t', readCacheLine a t = Ok (Some d, t') ∧ stepped t t' ∧ same_views t t'.
Proof.
  intros Hok Ha Hl. unfold readCacheLine, mbind, M_bind, gets, l2, zoom. unfold id.
  destruct (Cache.load_line_ok (_l2_cache t) a l d (co_l2 t Hok) (proj1 Ha)) as (c' & Hrun & Hwf & Hf & Hlk);
    [apply Cache.aligned_offset; [by apply co_l2|done]|done|].
  rewrite <- (co_size t Hok) in Hrun. rewrite Hrun. eexists. split; [done|]. split; [|split].
  - apply setL2_stepped; try done. by destruct Hf as (_ & _ & _ & _ & ?).
  - intros m b [->| ->]; done.
  - intros b. apply Hlk.
Qed.


Lemma l1_invalidate_ok m a t :
  is_l1 m → caches_ok t → Cache.address_ok a →
  ∃ t', l1_invalidateCacheLine m a t = Ok (tt, t') ∧ stepped t t' ∧
    (∀ b, v2 t' b = v2 t b) ∧
    ∀ m' b, is_l1 m' → Cache.address_ok b → v1 t' m' b =
      if decide (m' = m ∧ line_of t b = line_of t a) then None else v1 t m' b.
Proof.
  intros Hm Hok Ha. destruct (l1_get_ok m a t Hm Hok Ha) as (t1 & Hg & Hst & Hv1 & Hv2).
  unfold l1_invalidateCacheLine, mbind, M_bind. rewrite Hg.
  destruct (v1 t m a) as [[l d]|] eqn:El; cbn [fst].
  - destruct (Cache.lookup_line (getL1 m t) a l d (co_l1 t Hok m Hm) Ha El) as (Hval & _).
    rewrite Hval. cbn [when].
    destruct (l1_set_ok m a (invalidate l) l d t1) as (t2 & Hs & Hst2 & Hv2' & Hv1');
      [done|by apply Hst|by split|by rewrite Hv1|].
    exists t2. split; [exact Hs|]. split; [by eapply stepped_trans|]. split.
    + intros b. by rewrite Hv2', Hv2.
    + intros m' b Hm' Hb. rewrite Hv1', Hv1, !(stepped_line t t1) by done. done.
  - exists t1. split; [done|]. split; [done|]. split; [done|].
    intros m' b Hm' Hb. rewrite Hv1 by done. destruct (decide _) as [[-> He]|]; [|done].
    by rewrite (v1_line t m b a) by done.
Qed.

Lemma l1_setstate_ok m a cst l d t :
  is_l1 m → caches_ok t → Cache.address_ok a → v1 t m a = Some (l, d) → cst ≠ CacheState.INVALID →
  ∃ t', setCacheLineState m a cst t = Ok (tt, t') ∧ stepped t t' ∧
    (∀ b, v2 t' b = v2 t b) ∧
    ∀ m' b, is_l1 m' → Cache.address_ok b → v1 t' m' b =
      if decide (m' = m ∧ line_of t b = line_of t a) then Some (setCState cst l, d) else v1 t m' b.
Proof.
  intros Hm Hok Ha Hl Hc. destruct (l1_get_ok m a t Hm Hok Ha) as (t1 & Hg & Hst & Hv1 & Hv2).
  destruct (Cache.lookup_line (getL1 m t) a l d (co_l1 t Hok m Hm) Ha Hl) as (Hval & Htag & Hcs & _).
  assert (isValid (setCState cst l) = true) as Hval' by done.
  destruct (l1_set_ok m a (setCState cst l) l d t1) as (t2 & Hs & Hst2 & Hv2' & Hv1');
    [done|by apply Hst| |by rewrite Hv1|].
  { split; [done|]. rewrite Hval'. split; [|done]. rewrite l1_line by (done || apply Hst).
    rewrite (stepped_line t t1) by done. rewrite <- l1_line with (m := m) by done. exact Htag. }
  exists t2. unfold setCacheLineState, mbind, M_bind. rewrite Hg, Hl.
  unfold assert. rewrite bool_decide_true by done. split; [exact Hs|].
  split; [by eapply stepped_trans|]. split.
  - intros b. by rewrite Hv2', Hv2.
  - intros m' b Hm' Hb. rewrite Hv1', Hv1, !(stepped_line t t1), Hval' by done. done.
Qed.

Lemma l1_insert_ok m a cst fill t :
  is_l1 m → caches_ok t → Cache.address_ok a → cst ≠ CacheState.INVALID →
  zlength fill = _cache_line_size t → v1 t m a = None →
  ∃ e t', l1_insertCacheLine m a cst (Some fill) t = Ok (e, t') ∧ stepped t t' ∧
    (∀ b, v2 t' b = v2 t b) ∧
    (∀ m' b, is_l1 m' → Cache.address_ok b → v1 t' m' b =
      if decide (m' = m ∧ line_of t b = line_of t a)
      then Some (LineInfo.mkLineInfo (line_of t a) cst, fill)
      else if decide (m' = m ∧ Cache.eviction e = true ∧
                      line_of t b = line_of t (Cache.evicted_address e)) then None
      else v1 t m' b) ∧
    (Cache.eviction e = true →
      is_Some (v1 t m (Cache.evicted_address e)) ∧ Cache.address_ok (Cache.evicted_address e) ∧
      line_of t (Cache.evicted_address e) ≠ line_of t a).
Proof.
  intros Hm Hok Ha Hc Hfill Hno. unfold l1_insertCacheLine. rewrite (l1_run m _ t Hm).
  unfold mbind, M_bind, gets, id.
  set (info := setCState cst (setTag (Cache.getTag_of (getL1 m t) a) fresh)).
  assert (info = LineInfo.mkLineInfo (line_of t a) cst) as Hinfo.
  { subst info. cbn. by rewrite l1_line. }
  destruct (Cache.insertCacheLine_ok (getL1 m t) a info fill fresh false)
    as (e & c' & Hrun & Hwf & Hsh & Hlk & Hev); [by apply co_l1| |done|].
  { split_and!; try done. rewrite Hfill, (co_size t Hok).
    pose proof (co_shape t Hok m Hm) as [= Hls _]. by rewrite Hls. }
  rewrite Hrun. exists e. eexists. split; [done|].
  assert (Cache.eviction e = true →
      is_Some (v1 t m (Cache.evicted_address e)) ∧ Cache.aligned (getL1 m t) (Cache.evicted_address e) ∧
      line_of t (Cache.evicted_address e) = getTag (Cache.evicted_cache_line_info e)) as Hev'.
  { intros He. rewrite He in Hev. destruct Hev as (d & H1 & H2 & H3 & _).
    rewrite l1_line in H3 by done. by split_and!. }
  split; [by apply setL1_stepped|]. split; [intros b; apply setL1_v2|]. split.
  - intros m' b Hm' Hb. rewrite setL1_v1 by done. destruct (decide (m' = m)) as [->|Hne].
    + rewrite Hlk by done. rewrite !l1_line by done. rewrite Hinfo.
      destruct (decide (line_of t b = line_of t a)) as [He|He].
      { by rewrite decide_True. }
      rewrite (decide_False (P := m = m ∧ line_of t b = line_of t a)) by (intros [_ ?]; done).
      destruct (decide (Cache.eviction e = true ∧ _)) as [[H1 H2]|Hn].
      * destruct (Hev' H1) as (_ & _ & H3). by rewrite decide_True by (split_and!; congruence).
      * rewrite decide_False; [done|]. intros (_ & H1 & H2). destruct (Hev' H1) as (_ & _ & H3).
        apply Hn. split; congruence.
    + by rewrite !decide_False by (intros (? & _); done).
  - intros He. destruct (Hev' He) as (H1 & [H2 _] & _). split_and!; try done.
    intros Heq. rewrite (v1_line t m _ a) in H1 by done. rewrite Hno in H1. by destruct H1.
Qed.

Lemma l2_insert_ok a k fill t :
  caches_ok t → Cache.address_ok a → getTag k = line_of t a → getCState k ≠ CacheState.INVALID →
  zlength fill = _cache_line_size t → v2 t a = None →
  ∃ e t', l2 (Cache.insertCacheLine a k (Some fill) fresh true) t = Ok (e, t') ∧ stepped t t' ∧
    (∀ m b, is_l1 m → v1 t' m b = v1 t m b) ∧
    (∀ b, Cache.address_ok b → v2 t' b =
      if decide (line_of t b = line_of t a) then Some (k, fill)
      else if decide (Cache.eviction e = true ∧
                      line_of t b = line_of t (Cache.evicted_address e)) then None
      else v2 t b) ∧
    (Cache.eviction e = true →
      ∃ d, v2 t (Cache.evicted_address e) = Some (Cache.evicted_cache_line_info e, d) ∧
        Cache.writeback e = Some d ∧ Cache.aligned (_l2_cache t) (Cache.evicted_address e) ∧
        line_of t (Cache.evicted_address e) ≠ line_of t a).
Proof.
  intros Hok Ha Ht Hc Hfill Hno. unfold l2, zoom.
  destruct (Cache.insertCacheLine_ok (_l2_cache t) a k fill fresh true)
    as (e & c' & Hrun & Hwf & Hsh & Hlk & Hev); [by apply co_l2| |done|].
  { split_and!; try done. by rewrite Hfill, (co_size t Hok). }
  rewrite Hrun. exists e. eexists. split; [done|].
  split; [by apply setL2_stepped|]. split; [by intros m b [->| ->]|].
  assert (Cache.eviction e = true →
      line_of t (Cache.evicted_address e) = getTag (Cache.evicted_cache_line_info e)) as Htag.
  { intros He. rewrite He in Hev. by destruct Hev as (d & H1 & H2 & H3 & _). }
  split.
  - intros b Hb. unfold v2. cbn. rewrite Hlk by done. unfold line_of in *.
    destruct (decide (Cache.getTag_of (_l2_cache t) b = _)); [done|].
    destruct (decide (Cache.eviction e = true ∧ Cache.getTag_of (_l2_cache t) b = getTag _)) as [[H1 H2]|Hn].
    + by rewrite decide_True by (split; [done|by rewrite Htag]).
    + rewrite decide_False; [done|]. intros [H1 H2]. apply Hn. by rewrite <- Htag.
  - intros He. rewrite He in Hev. destruct Hev as (d & H1 & H2 & H3 & H4). exists d.
    split_and!; try done. intros Heq. unfold v2 in Hno.
    rewrite (Cache.lookup_tag _ _ _ Heq) in H1. congruence.
Qed.


(** ** The invariant of a tile *)

(** The L2 cache includes the L1 caches: a line of an L1 cache is in the L2
    cache with the same bytes and state, and the L2 line names that L1 cache.
    A modified L2 line that names an L1 cache is in it (a shared line may name
    an L1 cache that dropped it, while an upgrade is under way). *)
Record tile_inv (t : Tile) : Prop := {
  ti_ok : caches_ok t;
  ti_incl m a l d : is_l1 m → Cache.address_ok a → v1 t m a = Some (l, d) →
    ∃ k, v2 t a = Some (k, d) ∧ getCState k = getCState l ∧ PrL2._cached_loc k = m;
  ti_state a k d : Cache.address_ok a → v2 t a = Some (k, d) →
    getCState k = CacheState.SHARED ∨ getCState k = CacheState.MODIFIED;
  ti_loc a k d : Cache.address_ok a → v2 t a = Some (k, d) →
    PrL2._cached_loc k = MemComponent.INVALID ∨ is_l1 (PrL2._cached_loc k);
  ti_back a k d : Cache.address_ok a → v2 t a = Some (k, d) → getCState k = CacheState.MODIFIED →
    is_l1 (PrL2._cached_loc k) → is_Some (v1 t (PrL2._cached_loc k) a)
}.

(** The configuration of a tile, which no operation changes. *)
Definition cfg (t : Tile) :=
  (_tile_id t, _is_application_tile t, _cache_line_size t, _home_lookup t, _miss_types t,
   (_l1_icache_perf_model t, _l1_dcache_perf_model t, _l2_cache_perf_model t), _thread t).

Definition latency_ok (p : CachePerfModel.CachePerfModel) : Prop :=
  ∀ acc, 0 ≤ CachePerfModel.getLatency p acc ≤ 2 ^ 40.

Record config_ok (t : Tile) : Prop := {
  cf_home : AddressHomeLookup._total_modules (_home_lookup t) =
            zlength (AddressHomeLookup._tile_list (_home_lookup t));
  cf_tiles : 0 < zlength (AddressHomeLookup._tile_list (_home_lookup t)) < 2 ^ 31;
  cf_l1i : latency_ok (_l1_icache_perf_model t);
  cf_l1d : latency_ok (_l1_dcache_perf_model t);
  cf_l2 : latency_ok (_l2_cache_perf_model t)
}.

(** The clocks are at most [n]. *)
Definition clock_le (n : Z) (t : Tile) : Prop :=
  ∀ th, 0 ≤ ShmemPerfModel.getCycleCount th (_shmem_perf_model t) ≤ n.

Lemma config_ok_cfg t t' : cfg t' = cfg t → config_ok t → config_ok t'.
Proof. intros [= _ _ _ H1 _ H2 H3 H4 _] []. split; by rewrite ?H1, ?H2, ?H3, ?H4. Qed.

(** [t'] shows the same lines, packets and outstanding request as [t]. *)
Record quietly (t t' : Tile) : Prop := {
  qu_ok : caches_ok t';
  qu_cfg : cfg t' = cfg t;
  qu_net : _net t' = _net t;
  qu_out : _outstanding_shmem_msg t' = _outstanding_shmem_msg t;
  qu_time : _outstanding_shmem_msg_time t' = _outstanding_shmem_msg_time t;
  qu_shape : shapes t' = shapes t;
  qu_views : same_views t t'
}.

Lemma stepped_fields t t' :
  stepped t t' → cfg t' = cfg t ∧ _net t' = _net t ∧
  _outstanding_shmem_msg t' = _outstanding_shmem_msg t ∧
  _outstanding_shmem_msg_time t' = _outstanding_shmem_msg_time t ∧
  _shmem_perf_model t' = _shmem_perf_model t.
Proof. intros [_ [= ] _]. unfold cfg. split_and!; congruence. Qed.

Lemma stepped_quietly t t' : stepped t t' → same_views t t' → quietly t t'.
Proof.
  intros Hs Hv. destruct (stepped_fields t t' Hs) as (? & ? & ? & ? & ?). by split; try apply Hs.
Qed.

Lemma quietly_trans t t1 t2 : quietly t t1 → quietly t1 t2 → quietly t t2.
Proof.
  intros [? ? ? ? ? ? [H1 H2]] [? ? ? ? ? ? [H3 H4]]. split; try congruence.
  split; [intros m b Hm; by rewrite H3, H1|intros b; by rewrite H4, H2].
Qed.

Lemma stepped_clock t t' n : stepped t t' → clock_le n t → clock_le n t'.
Proof.
  intros (_ & _ & _ & _ & Hc)%stepped_fields Hn th. rewrite Hc. apply Hn.
Qed.

Lemma clock_incr_ok d n t :
  caches_ok t → clock_le n t → 0 ≤ d ≤ 2 ^ 40 → n + 2 ^ 40 < 2 ^ 64 →
  ∃ t', clock_incr d t = Ok (tt, t') ∧ quietly t t' ∧ clock_le (n + 2 ^ 40) t'.
Proof.
  intros Hok Hn Hd Hb. unfold clock_incr, mbind, M_bind, gets, id.
  pose proof (Hn (_thread t)) as Hc.
  rewrite ShmemPerfModel.incrCycleCount_spec by lia. rewrite (proj2 (Z.ltb_lt _ _)) by lia.
  cbn. eexists. split; [done|]. split.
  - by split; [destruct Hok; split|..].
  - intros th. pose proof (Hn th). destruct (_thread t), th; cbn in *; lia.
Qed.

Lemma incrCycleCount_ok m acc n t :
  caches_ok t → config_ok t → clock_le n t → n + 2 ^ 40 < 2 ^ 64 →
  m = MemComponent.INVALID ∨ m = MemComponent.L2_CACHE ∨ is_l1 m →
  ∃ t', incrCycleCount m acc t = Ok (tt, t') ∧ quietly t t' ∧ clock_le (n + 2 ^ 40) t'.
Proof.
  intros Hok Hc Hn Hb Hm. unfold incrCycleCount, mbind, M_bind, gets, id.
  destruct Hm as [->|[->|[->| ->]]]; cbn.
  - exists t. split; [done|]. split; [by split|]. intros th. pose proof (Hn th). lia.
  - apply clock_incr_ok; try done. apply (cf_l2 t Hc).
  - apply clock_incr_ok; try done. apply (cf_l1i t Hc).
  - apply clock_incr_ok; try done. apply (cf_l1d t Hc).
Qed.

(** The packets sent between two states, as receivers and messages. *)
Definition carries (id : Z) (p : Packet.Packet) (rm : Z * ShmemMsg.ShmemMsg) : Prop :=
  Packet.sender p = id ∧ Packet.receiver p = Some rm.1 ∧
  ShmemMsg.getShmemMsg (Packet.data p) = Ok rm.2.
Definition sent (t t' : Tile) (l : list (Z * ShmemMsg.ShmemMsg)) : Prop :=
  ∃ ps, _net t' = _net t ++ ps ∧ Forall2 (carries (_tile_id t)) ps l.

Lemma sent_nil t t' : _net t' = _net t → sent t t' [].
Proof. intros H. exists []. rewrite app_nil_r. by split; [|constructor]. Qed.

Lemma sent_app t t1 t2 l1 l2 :
  _tile_id t1 = _tile_id t → sent t t1 l1 → sent t1 t2 l2 → sent t t2 (l1 ++ l2).
Proof.
  intros Hid (p1 & H1 & F1) (p2 & H2 & F2). exists (p1 ++ p2). rewrite Hid in F2.
  split; [by rewrite H2, H1, app_assoc|by apply Forall2_app].
Qed.

Lemma sendMsg_ok r msg t :
  caches_ok t → ShmemMsg.wf msg →
  ∃ t', sendMsg r msg t = Ok (tt, t') ∧ sent t t' [(r, msg)] ∧ caches_ok t' ∧
    same_views t t' ∧ cfg t' = cfg t ∧ shapes t' = shapes t ∧
    _outstanding_shmem_msg t' = _outstanding_shmem_msg t ∧
    _outstanding_shmem_msg_time t' = _outstanding_shmem_msg_time t ∧
    _shmem_perf_model t' = _shmem_perf_model t.
Proof.
  intros Hok Hwf. unfold sendMsg, mbind, M_bind, gets, id.
  destruct (Packet.packet_ok (_tile_id t)
    (ShmemPerfModel.getCycleCount (_thread t) (_shmem_perf_model t)) (Some r) msg Hwf)
    as (b & _ & Hg & Hmk).
  rewrite Hmk. cbn. eexists. split; [done|]. split_and!; try done.
  - eexists. split; [done|]. constructor; [|constructor]. done.
  - by destruct Hok; split.
Qed.

Lemma getHome_ok a t :
  config_ok t → 0 ≤ a →
  ∃ h, AddressHomeLookup.getHome (_home_lookup t) a = Ok h ∧ getHome a t = Ok (h, t).
Proof.
  intros Hc Ha. destruct (AddressHomeLookup.home_lookup_ok (_home_lookup t) a) as (h & Hh & _);
    [by apply Hc|by apply Hc|done|].
  exists h. split; [done|]. unfold getHome, mbind, M_bind, gets, id. by rewrite Hh.
Qed.


Lemma quietly_line t t' a : quietly t t' → line_of t' a = line_of t a.
Proof.
  intros [_ _ _ _ _ [= _ Hs _]%shapes_l2 _]. unfold line_of, Cache.getTag_of. by rewrite Hs.
Qed.

Lemma quietly_inv t t' : quietly t t' → tile_inv t → tile_inv t'.
Proof.
  intros [Hok _ _ _ _ _ [Hv1 Hv2]] [_ H1 H2 H3 H4]. split; [done|..].
  - intros m a l d Hm Ha. rewrite Hv1, Hv2 by done. by apply H1.
  - intros a k d Ha. rewrite Hv2. by apply H2.
  - intros a k d Ha. rewrite Hv2. by apply H3.
  - intros a k d Ha Hk Hs Hl. rewrite Hv2 in Hk. rewrite Hv1 by done. by eapply H4.
Qed.

(** The line of [a] is dropped from every cache of the tile. *)
Definition gone (t t' : Tile) (a : Z) : Prop :=
  (∀ m b, is_l1 m → Cache.address_ok b →
     v1 t' m b = if decide (line_of t b = line_of t a) then None else v1 t m b) ∧
  (∀ b, Cache.address_ok b →
     v2 t' b = if decide (line_of t b = line_of t a) then None else v2 t b).

Lemma gone_inv t t' a : tile_inv t → caches_ok t' → gone t t' a → tile_inv t'.
Proof.
  intros [_ H1 H2 H3 H4] Hok [G1 G2]. split; [done|..].
  - intros m b l d Hm Hb. rewrite G1, G2 by done. case_decide; [done|]. by apply H1.
  - intros b k d Hb. rewrite G2 by done. case_decide; [done|]. by apply H2.
  - intros b k d Hb. rewrite G2 by done. case_decide; [done|]. by apply H3.
  - intros b k d Hb. rewrite G2 by done. case_decide as Hd; [done|]. intros Hk Hs Hl.
    rewrite G1 by done. rewrite decide_False by done. by eapply H4.
Qed.

(** An L1 cache that the L2 line does not name does not hold the line. *)
Lemma l1_elsewhere a k d t :
  tile_inv t → v2 t a = Some (k, d) →
  ∀ m b, is_l1 m → Cache.address_ok b → line_of t b = line_of t a →
    m ≠ PrL2._cached_loc k → v1 t m b = None.
Proof.
  intros Hinv Hk m b Hm Hb He Hne. destruct (v1 t m b) as [[l d']|] eqn:El; [|done].
  destruct (ti_incl t Hinv m b l d' Hm Hb El) as (k' & Hk' & _ & Hloc).
  rewrite (v2_line t b a He), Hk in Hk'. congruence.
Qed.

(** Dropping the L1 copy of a line of the L2 cache, which may have left it already. *)
Lemma drop_evicted_ok x k d t t1 :
  tile_inv t → Cache.address_ok x → v2 t x = Some (k, d) → stepped t t1 →
  (∀ m b, is_l1 m → Cache.address_ok b → v1 t1 m b = v1 t m b) →
  ∃ t2, invalidateCacheLineInL1 (PrL2._cached_loc k) x t1 = Ok (tt, t2) ∧ stepped t1 t2 ∧
    (∀ b, v2 t2 b = v2 t1 b) ∧
    ∀ m b, is_l1 m → Cache.address_ok b →
      v1 t2 m b = if decide (line_of t b = line_of t x) then None else v1 t m b.
Proof.
  intros Hinv Hx Hk S1 V1. pose proof (ti_ok t Hinv) as Hok.
  pose proof (l1_elsewhere x k d t Hinv Hk) as Hnone.
  unfold invalidateCacheLineInL1. destruct (ti_loc t Hinv x k d Hx Hk) as [Hl|Hl].
  - rewrite Hl. rewrite bool_decide_false by naive_solver. exists t1. split; [done|].
    split; [split; [apply S1|done..]|]. split; [done|]. intros m b Hm Hb. rewrite V1 by done.
    case_decide as He; [|done]. apply Hnone; try done. rewrite Hl. by destruct Hm as [->| ->].
  - rewrite bool_decide_true by (by destruct Hl as [->| ->]). cbn [when].
    destruct (l1_invalidate_ok (PrL2._cached_loc k) x t1 Hl (st_ok _ _ S1) Hx) as (t' & Hrun & Hst & Hv2 & Hv1).
    exists t'. split_and!; try done. intros m b Hm Hb. rewrite Hv1, !(stepped_line t t1), V1 by done.
    destruct (decide (line_of t b = line_of t x)) as [He|He].
    + destruct (decide (m = PrL2._cached_loc k)) as [->|Hne]; [by rewrite decide_True|].
      rewrite decide_False by naive_solver. by apply Hnone.
    + by rewrite decide_False by (intros [_ ?]; done).
Qed.

Lemma invalidateL1_ok a k d t :
  tile_inv t → Cache.address_ok a → v2 t a = Some (k, d) →
  ∃ t', invalidateCacheLineInL1 (PrL2._cached_loc k) a t = Ok (tt, t') ∧ stepped t t' ∧
    (∀ b, v2 t' b = v2 t b) ∧
    ∀ m b, is_l1 m → Cache.address_ok b →
      v1 t' m b = if decide (line_of t b = line_of t a) then None else v1 t m b.
Proof.
  intros Hinv Ha Hk. apply (drop_evicted_ok a k d t t); try done. by split; [apply Hinv|..].
Qed.

Lemma invalidateL2_ok a k d t :
  caches_ok t → Cache.address_ok a → v2 t a = Some (k, d) →
  ∃ t', invalidateCacheLine a k t = Ok (tt, t') ∧ stepped t t' ∧
    (∀ m b, is_l1 m → v1 t' m b = v1 t m b) ∧
    ∀ b, Cache.address_ok b →
      v2 t' b = if decide (line_of t b = line_of t a) then None else v2 t b.
Proof.
  intros Hok Ha Hk. destruct (l2_set_ok a (invalidate k) k d t) as (t' & ? & ? & ? & ?);
    [done|by split|done|]. by exists t'.
Qed.

(** What a handler of a directory request does not touch. *)
Record kept (t t' : Tile) : Prop := {
  kp_cfg : cfg t' = cfg t;
  kp_out : _outstanding_shmem_msg t' = _outstanding_shmem_msg t;
  kp_time : _outstanding_shmem_msg_time t' = _outstanding_shmem_msg_time t;
  kp_shape : shapes t' = shapes t
}.
Lemma kept_trans t t1 t2 : kept t t1 → kept t1 t2 → kept t t2.
Proof. intros [] []. split; congruence. Qed.
Lemma kept_line t t' a : kept t t' → line_of t' a = line_of t a.
Proof. intros [_ _ _ [= _ Hs _]]. unfold line_of, Cache.getTag_of. by rewrite Hs. Qed.
Lemma quietly_kept t t' : quietly t t' → kept t t'.
Proof. by intros []. Qed.
Lemma stepped_kept t t' : stepped t t' → kept t t'.
Proof. intros Hs. destruct (stepped_fields t t' Hs) as (? & ? & ? & ? & ?). split; try done. apply Hs. Qed.

(** The checks and clock updates with which the three handlers begin, when
    the line is present: the tags of the L2 and of the L1 cache. *)
Lemma access_clocks_ok acc k n t :
  caches_ok t → config_ok t → clock_le n t → n + 2 ^ 41 < 2 ^ 64 →
  PrL2._cached_loc k = MemComponent.INVALID ∨ is_l1 (PrL2._cached_loc k) →
  ∃ t', (∀ A (f : M Tile A),
           (incrCycleCount MemComponent.L2_CACHE acc ;;
            incrCycleCount (PrL2.getCachedLoc k) CachePerfModel.ACCESS_CACHE_TAGS ;; f) t = f t') ∧
    quietly t t' ∧ clock_le (n + 2 ^ 41) t'.
Proof.
  intros Hok Hc Hn Hb Hl.
  destruct (incrCycleCount_ok MemComponent.L2_CACHE acc n t) as (t1 & H1 & Q1 & C1);
    [done|done|done|lia|by auto|].
  destruct (incrCycleCount_ok (PrL2._cached_loc k) CachePerfModel.ACCESS_CACHE_TAGS (n + 2 ^ 40) t1)
    as (t2 & H2 & Q2 & C2);
    [apply Q1|by eapply config_ok_cfg; [apply Q1|]|done|lia|by naive_solver|].
  exists t2. split; [|split; [by eapply quietly_trans|]].
  - intros A f. unfold mbind, M_bind. rewrite H1. unfold PrL2.getCachedLoc. by rewrite H2.
  - replace (n + 2 ^ 41) with (n + 2 ^ 40 + 2 ^ 40) by lia. done.
Qed.


(** Alignment depends on the shape of the caches only. *)
Lemma shape_aligned t t' a :
  shapes t' = shapes t →
  Cache.aligned (_l2_cache t) a → Cache.aligned (_l2_cache t') a.
Proof.
  intros [= _ Hs _]%shapes_l2 [H1 H2]. split; [done|]. unfold Cache.getAddressFromTag, Cache.getTag_of in *.
  by rewrite Hs.
Qed.

(** A line is as long as the messages say. *)
Lemma data_msg_wf t a k d ty r q md :
  caches_ok t → Cache.address_ok a → v2 t a = Some (k, d) →
  ShmemMsg.wf (ShmemMsg.make_data ty MemComponent.L2_CACHE MemComponent.DRAM_DIRECTORY r q (Some d)
                 (_cache_line_size t) md).
Proof.
  intros Hok Ha Hk. destruct (Cache.lookup_line _ a k d (co_l2 t Hok) Ha Hk) as (_ & _ & _ & Hd).
  rewrite (co_size t Hok). split; [|done].
  pose proof (Cache.wf_line_size _ (co_l2 t Hok)). pose proof (Cache.wf_log _ (co_l2 t Hok)). cbn. lia.
Qed.

(** A request for a line the tile does not have. *)
Lemma absent_request_ok a n t t1 :
  tile_inv t → config_ok t → clock_le n t → n + 2 ^ 41 < 2 ^ 64 → v2 t a = None →
  stepped t t1 → same_views t t1 →
  ∃ t', incrCycleCount MemComponent.L2_CACHE CachePerfModel.ACCESS_CACHE_TAGS t1 = Ok (tt, t') ∧
    tile_inv t' ∧ gone t t' a ∧ kept t t' ∧ clock_le (n + 2 ^ 41) t' ∧ sent t t' [].
Proof.
  intros Hinv Hc Hn Hb Hk S1 V1. pose proof (stepped_quietly _ _ S1 V1) as Q1.
  destruct (incrCycleCount_ok MemComponent.L2_CACHE CachePerfModel.ACCESS_CACHE_TAGS n t1)
    as (t2 & H2 & Q2 & N2);
    [by apply Q1|by eapply config_ok_cfg; [apply Q1|]|by eapply stepped_clock|lia|by auto|].
  pose proof (quietly_trans _ _ _ Q1 Q2) as Q. exists t2. split; [done|].
  split; [by eapply quietly_inv|]. split; [|split; [by apply quietly_kept|split]].
  - destruct Q as [_ _ _ _ _ _ [V W]]. split.
    + intros m b Hm Hb'. rewrite V by done. case_decide as He; [|done].
      destruct (v1 t m b) as [[l d]|] eqn:El; [|done].
      destruct (ti_incl t Hinv m b l d Hm Hb' El) as (k & Hk' & _).
      by rewrite (v2_line t b a He), Hk in Hk'.
    + intros b Hb'. rewrite W. case_decide as He; [|done]. by rewrite (v2_line t b a He).
  - intros th. pose proof (N2 th). lia.
  - apply sent_nil. apply Q.
Qed.

(** A reply after a change of the caches: the packet is the only one sent. *)
Lemma reply_ok r msg n t t2 t3 :
  quietly t t2 → clock_le n t2 → stepped t2 t3 → ShmemMsg.wf msg →
  ∃ t', sendMsg r msg t3 = Ok (tt, t') ∧ caches_ok t' ∧ kept t t' ∧ clock_le n t' ∧
    same_views t3 t' ∧ sent t t' [(r, msg)].
Proof.
  intros Q N S W. destruct (sendMsg_ok r msg t3) as (t5 & H5 & P5 & O5 & V5 & G5 & Sh5 & Out5 & Time5 & Cl5);
    [by apply S|done|].
  destruct (stepped_fields _ _ S) as (F1 & F2 & F3 & F4 & F5). destruct Q as [_ Qc Qn Qo Qt Qs _].
  exists t5. split_and!; try done.
  - split; try congruence. rewrite Sh5, (st_shape _ _ S). done.
  - intros th. rewrite Cl5, F5. apply N.
  - change [(r, msg)] with ([] ++ [(r, msg)]).
    eapply sent_app; [|apply sent_nil; by rewrite F2, Qn|done].
    injection F1 as -> _. by injection Qc as -> _.
Qed.

Lemma gone_compose t t2 t3 t' a :
  quietly t t2 → gone t2 t3 a → same_views t3 t' → gone t t' a.
Proof.
  intros Q [G1 G2] [V W]. destruct (qu_views _ _ Q) as [Qv Qw]. split.
  - intros m b Hm Hb. by rewrite V, G1, !(quietly_line t t2), Qv by done.
  - intros b Hb. by rewrite W, G2, !(quietly_line t t2), Qw by done.
Qed.

(** [INV_REQ]: a shared line is dropped from the tile and acknowledged; a
    request for an absent line is ignored. *)
Lemma processInvReq_ok sender msg n t :
  let a := ShmemMsg._address msg in
  tile_inv t → config_ok t → clock_le n t → n + 2 ^ 41 < 2 ^ 64 → Cache.address_ok a →
  (∀ k d, v2 t a = Some (k, d) → getCState k = CacheState.SHARED) →
  ∃ t', processInvReqFromDramDirectory sender msg t = Ok (tt, t') ∧
    tile_inv t' ∧ gone t t' a ∧ kept t t' ∧ clock_le (n + 2 ^ 41) t' ∧
    sent t t' (match v2 t a with
               | Some _ => [(sender, ShmemMsg.make ShmemMsg.INV_REP MemComponent.L2_CACHE
                              MemComponent.DRAM_DIRECTORY (ShmemMsg._requester msg) a (ShmemMsg._modeled msg))]
               | None => []
               end).
Proof.
  intros a Hinv Hc Hn Hb Ha Hsh. pose proof (ti_ok t Hinv) as Hok.
  destruct (l2_get_ok a t Hok Ha) as (t1 & Hg & S1 & V1).
  unfold processInvReqFromDramDirectory. fold a. unfold mbind at 1, M_bind at 1. rewrite Hg.
  destruct (v2 t a) as [[k d]|] eqn:Hk.
  2:{ rewrite bool_decide_false by (intros Hne; by apply Hne). by apply absent_request_ok. }
  pose proof (stepped_quietly _ _ S1 V1) as Q1.
  rewrite (Hsh k d eq_refl). rewrite bool_decide_true by done. unfold mbind at 1, M_bind at 1, assert.
  rewrite bool_decide_true by done. unfold mret, M_ret.
  destruct (access_clocks_ok CachePerfModel.ACCESS_CACHE_TAGS k n t1) as (t2 & H2 & Q2 & N2);
    [by apply Q1|by eapply config_ok_cfg; [apply Q1|]|by eapply stepped_clock|done|
     by apply (ti_loc t Hinv a k d)|].
  rewrite H2. pose proof (quietly_trans _ _ _ Q1 Q2) as Q. pose proof (quietly_inv _ _ Q Hinv) as I2.
  assert (v2 t2 a = Some (k, d)) as Hk2 by (rewrite <- Hk; apply Q).
  destruct (invalidateL1_ok a k d t2 I2 Ha Hk2) as (t3 & H3 & S3 & W3 & V3).
  destruct (invalidateL2_ok a k d t3) as (t4 & H4 & S4 & V4 & W4); [by apply S3|done|by rewrite W3|].
  destruct (reply_ok sender (ShmemMsg.make ShmemMsg.INV_REP MemComponent.L2_CACHE
      MemComponent.DRAM_DIRECTORY (ShmemMsg._requester msg) a (ShmemMsg._modeled msg))
      (n + 2 ^ 41) t t2 t4)
    as (t5 & H5 & O5 & K5 & C5 & V5 & P5); [done|done|by eapply stepped_trans|done|].
  exists t5. unfold mbind, M_bind, PrL2.getCachedLoc. rewrite H3, H4, H5. split; [done|].
  assert (gone t t5 a) as Hgone.
  { apply (gone_compose t t2 t4); [done| |done]. split.
    - intros m b Hm Hb'. by rewrite V4, V3.
    - intros b Hb'. by rewrite W4, W3, !(stepped_line t2 t3). }
  split_and!; try done. by apply (gone_inv t t5 a).
Qed.

(** [FLUSH_REQ]: a modified line is dropped and its bytes are sent back. *)
Lemma processFlushReq_ok sender msg n t :
  let a := ShmemMsg._address msg in
  tile_inv t → config_ok t → clock_le n t → n + 2 ^ 41 < 2 ^ 64 → Cache.aligned (_l2_cache t) a →
  (∀ k d, v2 t a = Some (k, d) → getCState k = CacheState.MODIFIED) →
  ∃ t', processFlushReqFromDramDirectory sender msg t = Ok (tt, t') ∧
    tile_inv t' ∧ gone t t' a ∧ kept t t' ∧ clock_le (n + 2 ^ 41) t' ∧
    sent t t' (match v2 t a with
               | Some (_, d) => [(sender, ShmemMsg.make_data ShmemMsg.FLUSH_REP MemComponent.L2_CACHE
                                    MemComponent.DRAM_DIRECTORY (ShmemMsg._requester msg) a (Some d)
                                    (_cache_line_size t) (ShmemMsg._modeled msg))]
               | None => []
               end).
Proof.
  intros a Hinv Hc Hn Hb Hal Hsh. pose proof (ti_ok t Hinv) as Hok. pose proof (proj1 Hal) as Ha.
  destruct (l2_get_ok a t Hok Ha) as (t1 & Hg & S1 & V1).
  unfold processFlushReqFromDramDirectory. fold a.
  unfold mbind at 1, M_bind at 1, gets, id. unfold mbind at 1, M_bind at 1. rewrite Hg.
  destruct (v2 t a) as [[k d]|] eqn:Hk.
  2:{ rewrite bool_decide_false by (intros Hne; by apply Hne). by apply absent_request_ok. }
  pose proof (stepped_quietly _ _ S1 V1) as Q1.
  rewrite (Hsh k d eq_refl). rewrite bool_decide_true by done. unfold mbind at 1, M_bind at 1, assert.
  rewrite bool_decide_true by done. unfold mret, M_ret.
  destruct (access_clocks_ok CachePerfModel.ACCESS_CACHE_DATA_AND_TAGS k n t1) as (t2 & H2 & Q2 & N2);
    [by apply Q1|by eapply config_ok_cfg; [apply Q1|]|by eapply stepped_clock|done|
     by apply (ti_loc t Hinv a k d)|].
  rewrite H2. pose proof (quietly_trans _ _ _ Q1 Q2) as Q. pose proof (quietly_inv _ _ Q Hinv) as I2.
  assert (v2 t2 a = Some (k, d)) as Hk2 by (rewrite <- Hk; apply Q).
  destruct (invalidateL1_ok a k d t2 I2 Ha Hk2) as (t3 & H3 & S3 & W3 & V3).
  pose proof (shape_aligned t t3 a (eq_trans (st_shape _ _ S3) (qu_shape _ _ Q)) Hal) as Hal3.
  destruct (l2_load_ok a k d t3) as (t4 & H4 & S4 & V4 & W4); [by apply S3|done|by rewrite W3|].
  destruct (invalidateL2_ok a k d t4) as (t5 & H5 & S5 & V5 & W5);
    [by apply S4|done|by rewrite W4, W3|].
  pose proof (stepped_trans _ _ _ S3 (stepped_trans _ _ _ S4 S5)) as S.
  destruct (reply_ok sender (ShmemMsg.make_data ShmemMsg.FLUSH_REP MemComponent.L2_CACHE
      MemComponent.DRAM_DIRECTORY (ShmemMsg._requester msg) a (Some d) (_cache_line_size t)
      (ShmemMsg._modeled msg)) (n + 2 ^ 41) t t2 t5)
    as (t6 & H6 & O6 & K6 & C6 & V6 & P6); [done|done|done|by apply (data_msg_wf t a k)|].
  exists t6. unfold mbind, M_bind, PrL2.getCachedLoc. rewrite H3, H4, H5, H6. split; [done|].
  assert (gone t t6 a) as Hgone.
  { apply (gone_compose t t2 t5); [done| |done]. split.
    - intros m b Hm Hb'. by rewrite V5, V4, V3.
    - intros b Hb'.
      by rewrite W5, W4, W3, !(stepped_line t3 t4), !(stepped_line t2 t3). }
  split_and!; try done. by apply (gone_inv t t6 a).
Qed.

(** [WB_REQ]: a modified line becomes shared in every cache of the tile and
    its bytes are sent back. *)
Lemma share_L1_ok a k d t :
  tile_inv t → Cache.address_ok a → v2 t a = Some (k, d) → getCState k = CacheState.MODIFIED →
  ∃ t', setCacheLineStateInL1 (PrL2._cached_loc k) a CacheState.SHARED t = Ok (tt, t') ∧ stepped t t' ∧
    (∀ b, v2 t' b = v2 t b) ∧
    ∀ m b, is_l1 m → Cache.address_ok b → v1 t' m b =
      if decide (line_of t b = line_of t a)
      then prod_map (setCState CacheState.SHARED) id <$> v1 t m b else v1 t m b.
Proof.
  intros Hinv Ha Hk Hs. pose proof (ti_ok t Hinv) as Hok.
  pose proof (l1_elsewhere a k d t Hinv Hk) as Hnone.
  unfold setCacheLineStateInL1. destruct (ti_loc t Hinv a k d Ha Hk) as [Hl|Hl].
  - rewrite Hl. rewrite bool_decide_false by naive_solver. exists t. split; [done|].
    split; [by split|]. split; [done|]. intros m b Hm Hb. case_decide as He; [|done].
    rewrite Hnone; try done. rewrite Hl. by destruct Hm as [->| ->].
  - rewrite bool_decide_true by (by destruct Hl as [->| ->]). cbn [when].
    destruct (ti_back t Hinv a k d Ha Hk Hs Hl) as [[l d'] Hv].
    destruct (l1_setstate_ok (PrL2._cached_loc k) a CacheState.SHARED l d' t)
      as (t' & Hrun & Hst & Hv2 & Hv1); [done..|].
    exists t'. split_and!; try done. intros m b Hm Hb. rewrite Hv1 by done.
    destruct (decide (line_of t b = line_of t a)) as [He|He].
    + destruct (decide (m = PrL2._cached_loc k)) as [->|Hne].
      * rewrite decide_True by done. by rewrite (v1_line t _ b a), Hv by done.
      * rewrite decide_False by naive_solver. by rewrite Hnone.
    + by rewrite decide_False by (intros [_ ?]; done).
Qed.

(** The line of [a] is demoted to [SHARED] in every cache of the tile. *)
Definition shared_now (t t' : Tile) (a : Z) : Prop :=
  (∀ m b, is_l1 m → Cache.address_ok b → v1 t' m b =
     if decide (line_of t b = line_of t a)
     then prod_map (setCState CacheState.SHARED) id <$> v1 t m b else v1 t m b) ∧
  (∀ b, Cache.address_ok b → v2 t' b =
     if decide (line_of t b = line_of t a)
     then prod_map (setCState CacheState.SHARED) id <$> v2 t b else v2 t b).

Lemma shared_now_inv t t' a : tile_inv t → caches_ok t' → shared_now t t' a → tile_inv t'.
Proof.
  intros [_ H1 H2 H3 H4] Hok [G1 G2]. split; [done|..].
  - intros m b l d Hm Hb. rewrite G1, G2 by done. case_decide; [|by apply H1].
    destruct (v1 t m b) as [[l0 d0]|] eqn:El; [|done]. intros [= <- <-].
    destruct (H1 m b l0 d0 Hm Hb El) as (k & -> & Hs & Hloc). eexists. split; [done|]. done.
  - intros b k d Hb. rewrite G2 by done. case_decide; [|by apply H2].
    destruct (v2 t b) as [[k0 d0]|]; [|done]. intros [= <- <-]. by left.
  - intros b k d Hb. rewrite G2 by done. case_decide; [|by apply H3].
    destruct (v2 t b) as [[k0 d0]|] eqn:Ek; [|done]. intros [= <- <-]. by apply (H3 b k0 d0).
  - intros b k d Hb. rewrite G2 by done. case_decide as Hd.
    + destruct (v2 t b) as [[k0 d0]|]; [|done]. by intros [= <- <-].
    + intros Hk Hs Hl. rewrite G1 by done. rewrite decide_False by done. by eapply H4.
Qed.

Lemma processWbReq_ok sender msg n t :
  let a := ShmemMsg._address msg in
  tile_inv t → config_ok t → clock_le n t → n + 2 ^ 41 < 2 ^ 64 → Cache.aligned (_l2_cache t) a →
  (∀ k d, v2 t a = Some (k, d) → getCState k = CacheState.MODIFIED) →
  ∃ t', processWbReqFromDramDirectory sender msg t = Ok (tt, t') ∧
    tile_inv t' ∧ shared_now t t' a ∧ kept t t' ∧ clock_le (n + 2 ^ 41) t' ∧
    sent t t' (match v2 t a with
               | Some (_, d) => [(sender, ShmemMsg.make_data ShmemMsg.WB_REP MemComponent.L2_CACHE
                                    MemComponent.DRAM_DIRECTORY (ShmemMsg._requester msg) a (Some d)
                                    (_cache_line_size t) (ShmemMsg._modeled msg))]
               | None => []
               end).
Proof.
  intros a Hinv Hc Hn Hb Hal Hsh. pose proof (ti_ok t Hinv) as Hok. pose proof (proj1 Hal) as Ha.
  destruct (l2_get_ok a t Hok Ha) as (t1 & Hg & S1 & V1).
  unfold processWbReqFromDramDirectory. fold a.
  unfold mbind at 1, M_bind at 1, gets, id. unfold mbind at 1, M_bind at 1. rewrite Hg.
  destruct (v2 t a) as [[k d]|] eqn:Hk.
  2:{ rewrite bool_decide_false by (intros Hne; by apply Hne).
      destruct (absent_request_ok a n t t1) as (t' & H1 & H2 & [G1 G2] & H4); try done.
      exists t'. split_and!; try done; try apply H4. split; [intros m b Hm Hb'|intros b Hb'];
        rewrite ?G1, ?G2 by done; case_decide as He; try done.
      - destruct (v1 t m b) as [[l d]|] eqn:El; [|done].
        destruct (ti_incl t Hinv m b l d Hm Hb' El) as (k & Hk' & _).
        by rewrite (v2_line t b a He), Hk in Hk'.
      - by rewrite (v2_line t b a He), Hk. }
  pose proof (stepped_quietly _ _ S1 V1) as Q1. pose proof (Hsh k d eq_refl) as Hmod.
  rewrite Hmod. rewrite bool_decide_true by done. unfold mbind at 1, M_bind at 1, assert.
  rewrite bool_decide_true by done. unfold mret, M_ret.
  destruct (access_clocks_ok CachePerfModel.ACCESS_CACHE_DATA_AND_TAGS k n t1) as (t2 & H2 & Q2 & N2);
    [by apply Q1|by eapply config_ok_cfg; [apply Q1|]|by eapply stepped_clock|done|
     by apply (ti_loc t Hinv a k d)|].
  rewrite H2. pose proof (quietly_trans _ _ _ Q1 Q2) as Q. pose proof (quietly_inv _ _ Q Hinv) as I2.
  assert (v2 t2 a = Some (k, d)) as Hk2 by (rewrite <- Hk; apply Q).
  destruct (share_L1_ok a k d t2 I2 Ha Hk2 Hmod) as (t3 & H3 & S3 & W3 & V3).
  pose proof (shape_aligned t t3 a (eq_trans (st_shape _ _ S3) (qu_shape _ _ Q)) Hal) as Hal3.
  destruct (l2_load_ok a k d t3) as (t4 & H4 & S4 & V4 & W4); [by apply S3|done|by rewrite W3|].
  destruct (Cache.lookup_line _ a k d (co_l2 t Hok) Ha Hk) as (Hval & Htag & _ & _).
  pose proof (stepped_trans _ _ _ S3 S4) as S34.
  destruct (l2_set_ok a (setCState CacheState.SHARED k) k d t4) as (t5 & H5 & S5 & V5 & W5);
    [by apply S4| |by rewrite W4, W3|].
  { split; [done|]. change (isValid (setCState CacheState.SHARED k)) with (isValid k). rewrite Hval.
    split; [|done]. change (getTag k = line_of t4 a).
    rewrite (stepped_line t2 t4), (quietly_line t t2) by done. done. }
  destruct (reply_ok sender (ShmemMsg.make_data ShmemMsg.WB_REP MemComponent.L2_CACHE
      MemComponent.DRAM_DIRECTORY (ShmemMsg._requester msg) a (Some d) (_cache_line_size t)
      (ShmemMsg._modeled msg)) (n + 2 ^ 41) t t2 t5)
    as (t6 & H6 & O6 & K6 & C6 & [V6 W6] & P6);
    [done|done|by eapply stepped_trans|by apply (data_msg_wf t a k)|].
  exists t6. unfold mbind, M_bind, PrL2.getCachedLoc. rewrite H3, H4, H5, H6. split; [done|].
  destruct (qu_views _ _ Q) as [Qv Qw].
  assert (shared_now t t6 a) as Hshared.
  { split.
    - intros m b Hm Hb'. by rewrite V6, V5, V4, V3, !(quietly_line t t2), Qv by done.
    - intros b Hb'. rewrite W6, W5 by done. change (isValid (setCState CacheState.SHARED k)) with (isValid k).
      rewrite Hval, !(stepped_line t2 t4), !(quietly_line t t2), W4, W3, Qw by done.
      case_decide as He; [|done]. by rewrite (v2_line t b a He), Hk. }
  split_and!; try done. by apply (shared_now_inv t t6 a).
Qed.

(** *** Filling a line *)

(** [b] is on the line of the optional evicted address. *)
Definition on_line (t : Tile) (ev : option Z) (b : Z) : bool :=
  match ev with Some x => bool_decide (line_of t b = line_of t x) | None => false end.

Lemma on_line_Some {A} t x b (u v : A) :
  (if on_line t (Some x) b then u else v) = if decide (line_of t b = line_of t x) then u else v.
Proof. unfold on_line. by destruct (decide _); [rewrite bool_decide_true|rewrite bool_decide_false]. Qed.

Definition uncached (kd : PrL2.LineInfo * list Z) : PrL2.LineInfo * list Z :=
  (kd.1 <| PrL2._cached_loc := MemComponent.INVALID |>, kd.2).

(** Inserting a line in an L1 cache clears the location of the L2 line of the
    L1 line that is evicted. *)
Lemma insertCacheLineInL1_ok m a cst fill t :
  is_l1 m → caches_ok t → Cache.address_ok a → cst ≠ CacheState.INVALID →
  zlength fill = _cache_line_size t → v1 t m a = None →
  (∀ b l d, Cache.address_ok b → v1 t m b = Some (l, d) →
     ∃ k, v2 t b = Some (k, d) ∧ PrL2._cached_loc k = m) →
  ∃ ev t', insertCacheLineInL1 m a cst (Some fill) t = Ok (tt, t') ∧ stepped t t' ∧
    (∀ x, ev = Some x → Cache.address_ok x ∧ is_Some (v1 t m x) ∧ line_of t x ≠ line_of t a) ∧
    (∀ m' b, is_l1 m' → Cache.address_ok b → v1 t' m' b =
      if decide (m' = m ∧ line_of t b = line_of t a)
      then Some (LineInfo.mkLineInfo (line_of t a) cst, fill)
      else if decide (m' = m ∧ on_line t ev b = true) then None else v1 t m' b) ∧
    (∀ b, Cache.address_ok b → v2 t' b = if on_line t ev b then uncached <$> v2 t b else v2 t b).
Proof.
  intros Hm Hok Ha Hc Hfill Hno Hincl.
  destruct (l1_insert_ok m a cst fill t Hm Hok Ha Hc Hfill Hno) as (e & t1 & H1 & S1 & W1 & V1 & E1).
  unfold insertCacheLineInL1, assert. rewrite bool_decide_true by (by destruct Hm as [->| ->]).
  unfold mbind, M_bind, mret, M_ret. rewrite H1.
  destruct (Cache.eviction e) eqn:Ee.
  2:{ exists None, t1. split_and!; try done. intros m' b Hm' Hb. rewrite V1 by done.
      destruct (decide (m' = m ∧ line_of t b = line_of t a)); [done|].
      rewrite decide_False by (intros (_ & ? & _); done).
      by rewrite decide_False by (intros [_ ?]; done). }
  destruct (E1 eq_refl) as ([[l d] Hv] & Hx & Hne). set (x := Cache.evicted_address e) in *.
  destruct (Hincl x l d Hx Hv) as (k & Hk & Hloc).
  destruct (l2_get_ok x t1) as (t2 & H2 & S2 & V2 & W2); [by apply S1|done|].
  assert (v2 t2 x = Some (k, d)) as Hk2 by by rewrite W2, W1.
  destruct (Cache.lookup_line _ x k d (co_l2 t Hok) Hx Hk) as (Hval & Htag & Hcs & _).
  destruct (l2_set_ok x (k <| PrL2._cached_loc := MemComponent.INVALID |>) k d t2)
    as (t3 & H3 & S3 & V3 & W3); [by apply S2| |done|].
  { split; [done|]. change (isValid _) with (isValid k). rewrite Hval. split; [|done].
    change (getTag k = line_of t2 x). rewrite (stepped_line t1 t2), (stepped_line t t1) by done. done. }
  exists (Some x), t3. cbn [when]. rewrite H2. rewrite W1, Hk.
  unfold PrL2.clearCachedLoc. rewrite (bool_decide_true (m ≠ _)) by (by destruct Hm as [->| ->]).
  rewrite (bool_decide_true (PrL2._cached_loc k = m)) by done. cbn [check lift mbind res_bind].
  split; [exact H3|]. split; [by eapply stepped_trans, stepped_trans|]. split; [|split].
  - by intros ? [= <-].
  - intros m' b Hm' Hb. rewrite V3, V2, V1 by done.
    destruct (decide (m' = m ∧ line_of t b = line_of t a)); [done|]. cbn.
    destruct (decide (m' = m ∧ true = true ∧ _)) as [(? & _ & He)|Hn].
    + by rewrite decide_True by (split; [done|by apply bool_decide_eq_true]).
    + rewrite decide_False; [done|]. intros [? He%bool_decide_eq_true]. by apply Hn.
  - intros b Hb. rewrite W3, W2, W1 by done. rewrite !(stepped_line t1 t2), !(stepped_line t t1) by done.
    cbn. change (isValid _) with (isValid k). rewrite Hval.
    destruct (decide (line_of t b = line_of t x)) as [He|He].
    + rewrite bool_decide_true by done. by rewrite (v2_line t b x He), Hk.
    + by rewrite bool_decide_false.
Qed.

(** The message for an evicted L2 line. *)
Definition eviction_msg (t : Tile) (x : Z) (k : PrL2.LineInfo) (d : list Z) : ShmemMsg.ShmemMsg :=
  let modeled := MissTypes.isMissTypeModeled (_miss_types t) Cache.CAPACITY_MISS in
  if bool_decide (getCState k = CacheState.MODIFIED)
  then ShmemMsg.make_data ShmemMsg.FLUSH_REP MemComponent.L2_CACHE MemComponent.DRAM_DIRECTORY
         (_tile_id t) x (Some d) (_cache_line_size t) modeled
  else ShmemMsg.make ShmemMsg.INV_REP MemComponent.L2_CACHE MemComponent.DRAM_DIRECTORY
         (_tile_id t) x modeled.

(** Inserting a line in the L2 cache: an evicted line leaves the L1 caches too
    and its home is told, with the bytes if the line was modified. *)
Lemma l2_insertCacheLine_ok a cst fill m n t :
  tile_inv t → config_ok t → clock_le n t → is_l1 m → Cache.address_ok a →
  cst ≠ CacheState.INVALID → zlength fill = _cache_line_size t → v2 t a = None →
  ∃ ev t', insertCacheLine a cst (Some fill) m t = Ok (tt, t') ∧ caches_ok t' ∧ kept t t' ∧
    clock_le n t' ∧
    (∀ x, ev = Some x → line_of t x ≠ line_of t a) ∧
    (∀ m' b, is_l1 m' → Cache.address_ok b →
       v1 t' m' b = if on_line t ev b then None else v1 t m' b) ∧
    (∀ b, Cache.address_ok b → v2 t' b =
       if decide (line_of t b = line_of t a) then Some (PrL2.mkLineInfo (line_of t a) cst m, fill)
       else if on_line t ev b then None else v2 t b) ∧
    match ev with
    | Some x => ∃ k d h, v2 t x = Some (k, d) ∧ Cache.aligned (_l2_cache t) x ∧
        AddressHomeLookup.getHome (_home_lookup t) x = Ok h ∧ sent t t' [(h, eviction_msg t x k d)]
    | None => sent t t' []
    end.
Proof.
  intros Hinv Hc Hn Hm Ha Hcs Hfill Hno. pose proof (ti_ok t Hinv) as Hok.
  destruct (l2_insert_ok a (PrL2.mkLineInfo (line_of t a) cst m) fill t)
    as (e & t1 & H1 & S1 & V1 & W1 & E1); [done..|].
  assert (PrL2.setCachedLoc m (setCState cst (setTag (Cache.getTag_of (_l2_cache t) a) fresh)) =
          Ok (PrL2.mkLineInfo (line_of t a) cst m)) as Hinfo by (by destruct Hm as [->| ->]).
  unfold insertCacheLine, mbind, M_bind, gets, id. rewrite Hinfo. cbn [lift]. rewrite H1.
  pose proof (stepped_fields _ _ S1) as (F1 & F2 & F3 & F4 & F5).
  destruct (Cache.eviction e) eqn:Ee.
  2:{ exists None, t1. split; [done|]. split; [by apply S1|]. split; [by apply stepped_kept|].
      split; [by eapply stepped_clock|]. split; [done|]. split; [|split].
      - intros m' b Hm' Hb. by rewrite V1.
      - intros b Hb. rewrite W1 by done. destruct (decide (line_of t b = line_of t a)); [done|].
        by rewrite decide_False by (intros [? _]; done).
      - by apply sent_nil. }
  destruct (E1 eq_refl) as (d & Hv & Hwb & Hxal & Hne). pose proof (proj1 Hxal) as Hx.
  set (x := Cache.evicted_address e) in *. set (k := Cache.evicted_cache_line_info e) in *.
  assert (∀ m' b, is_l1 m' → Cache.address_ok b → v1 t1 m' b = v1 t m' b) as V1' by (intros; by apply V1).
  destruct (drop_evicted_ok x k d t t1) as (t2 & H2 & S2 & W2 & V2); try done.
  cbn [when]. unfold PrL2.getCachedLoc. rewrite H2.
  pose proof (stepped_trans _ _ _ S1 S2) as S. pose proof (stepped_fields _ _ S) as (G1 & G2 & G3 & G4 & G5).
  destruct (getHome_ok x t2) as (h & Hh & Hrun); [by eapply config_ok_cfg|apply Hx|].
  rewrite Hrun.
  destruct (reply_ok h (eviction_msg t x k d) n t t t2) as (t3 & H3 & O3 & K3 & C3 & [V3 W3] & P3);
    [by split|done|done|unfold eviction_msg; case_bool_decide; [by apply (data_msg_wf t x k d)|done]|].
  exists (Some x), t3. split.
  { rewrite Hwb. unfold eviction_msg in H3.
    destruct (ti_state t Hinv x k d Hx Hv) as [Hs|Hs]; rewrite Hs in H3 |- *; exact H3. }
  assert (_home_lookup t2 = _home_lookup t) as Hhl by by injection G1.
  split; [done|]. split; [done|]. split; [done|]. split; [by intros ? [= <-]|]. split; [|split].
  - intros m' b Hm' Hb. rewrite V3, V2, on_line_Some by done.
    by destruct (decide (line_of t b = line_of t x)).
  - intros b Hb. rewrite W3, W2, W1 by done. destruct (decide (line_of t b = line_of t a)); [done|].
    rewrite on_line_Some. destruct (decide (line_of t b = line_of t x)) as [He|He].
    + by rewrite decide_True.
    + by rewrite decide_False by (intros [_ ?]; done).
  - exists k, d, h. rewrite <- Hhl. by split_and!.
Qed.

(** The views after a fill of the line of [a] in the L1 cache [m] and in the
    L2 cache, which evicted [e2] from the L2 and [e1] from the L1 cache. *)
Record filled (t t' : Tile) (a : Z) (m : MemComponent.Type_) (cst : CacheState.Type_)
    (fill : list Z) (e2 e1 : option Z) : Prop := {
  fi_l1 m' b : is_l1 m' → Cache.address_ok b → v1 t' m' b =
    if decide (m' = m ∧ line_of t b = line_of t a)
    then Some (LineInfo.mkLineInfo (line_of t a) cst, fill)
    else if decide (m' = m ∧ on_line t e1 b = true) then None
    else if on_line t e2 b then None else v1 t m' b;
  fi_l2 b : Cache.address_ok b → v2 t' b =
    if decide (line_of t b = line_of t a) then Some (PrL2.mkLineInfo (line_of t a) cst m, fill)
    else if on_line t e2 b then None
    else if on_line t e1 b then uncached <$> v2 t b else v2 t b;
  fi_ev x : e1 = Some x → is_Some (v1 t m x) ∧ Cache.address_ok x
}.

Lemma on_line_line t ev b c : line_of t b = line_of t c → on_line t ev b = on_line t ev c.
Proof. intros He. unfold on_line. by rewrite He. Qed.

(** A fill preserves the invariant of the tile. *)
Lemma filled_inv t t' a m cst fill e2 e1 :
  tile_inv t → caches_ok t' → is_l1 m → Cache.address_ok a →
  (∀ m', is_l1 m' → v1 t m' a = None) →
  cst = CacheState.SHARED ∨ cst = CacheState.MODIFIED →
  filled t t' a m cst fill e2 e1 → tile_inv t'.
Proof.
  intros Hinv Hok Hm Ha Hno Hcs [F1 F2 F3]. split; [done|..].
  - intros m' b l d Hm' Hb. rewrite F1, F2 by done.
    destruct (decide (m' = m ∧ line_of t b = line_of t a)) as [[-> He]|Hn1].
    { rewrite decide_True by done. intros [= <- <-]. by eexists. }
    destruct (decide (m' = m ∧ on_line t e1 b = true)) as [|Hn2]; [done|].
    destruct (on_line t e2 b); [done|]. intros Hv.
    destruct (ti_incl t Hinv m' b l d Hm' Hb Hv) as (k & Hk & Hs & Hloc).
    rewrite decide_False by (intros He; rewrite (v1_line t m' b a), Hno in Hv; by (done || apply Hinv)).
    destruct (on_line t e1 b) eqn:E1; [|by exists k].
    destruct e1 as [x|]; [|done]. apply bool_decide_eq_true in E1.
    destruct (F3 x eq_refl) as [[[l' d'] Hl'] Hx].
    destruct (ti_incl t Hinv m x l' d' Hm Hx Hl') as (k' & Hk' & _ & Hloc').
    rewrite (v2_line t b x E1), Hk' in Hk. exfalso. apply Hn2. split; [congruence|done].
  - intros b k d Hb. rewrite F2 by done. case_decide; [by intros [= <- <-]|].
    destruct (on_line t e2 b); [done|]. destruct (on_line t e1 b).
    + destruct (v2 t b) as [[k' d']|] eqn:Ek; [|done]. intros [= <- <-].
      exact (ti_state t Hinv b k' d' Hb Ek).
    + by apply ti_state.
  - intros b k d Hb. rewrite F2 by done. case_decide; [intros [= <- <-]; by right|].
    destruct (on_line t e2 b); [done|]. destruct (on_line t e1 b).
    + destruct (v2 t b) as [[k' d']|] eqn:Ek; [|done]. intros [= <- <-]. by left.
    + by apply ti_loc.
  - intros b k d Hb. rewrite F2 by done. destruct (decide (line_of t b = line_of t a)) as [He|Hne].
    { intros [= <- <-] _ _. cbn. rewrite F1 by done. rewrite decide_True by done. eauto. }
    destruct (on_line t e2 b) eqn:E2; [done|]. destruct (on_line t e1 b) eqn:E1.
    + destruct (v2 t b) as [[k' d']|] eqn:Ek; [|done]. intros [= <- <-] _. by intros [].
    + intros Hk Hs Hl. rewrite F1 by done. rewrite decide_False by (intros [_ ?]; done).
      rewrite decide_False by (rewrite E1; intros [_ ?]; done). rewrite E2. by eapply ti_back.
Qed.

(** A reply fills the line of the outstanding request in both levels. *)
Lemma insertCacheLineInHierarchy_ok a cst fill n t :
  let m := ShmemMsg._sender_mem_component (_outstanding_shmem_msg t) in
  tile_inv t → config_ok t → clock_le n t → is_l1 m → Cache.address_ok a →
  ShmemMsg._address (_outstanding_shmem_msg t) = a →
  cst = CacheState.SHARED ∨ cst = CacheState.MODIFIED →
  zlength fill = _cache_line_size t → v2 t a = None →
  ∃ e2 e1 t', insertCacheLineInHierarchy a cst (Some fill) t = Ok (tt, t') ∧
    tile_inv t' ∧ kept t t' ∧ clock_le n t' ∧ filled t t' a m cst fill e2 e1 ∧
    match e2 with
    | Some x => ∃ k d h, v2 t x = Some (k, d) ∧ Cache.aligned (_l2_cache t) x ∧
        AddressHomeLookup.getHome (_home_lookup t) x = Ok h ∧ sent t t' [(h, eviction_msg t x k d)]
    | None => sent t t' []
    end.
Proof.
  intros m Hinv Hc Hn Hm Ha Hout Hcs Hfill Hno.
  assert (cst ≠ CacheState.INVALID) as Hci by (by destruct Hcs as [->| ->]).
  destruct (l2_insertCacheLine_ok a cst fill m n t) as (e2 & t1 & H1 & O1 & K1 & C1 & E2 & V1 & W1 & P1); try done.
  assert (∀ b, line_of t1 b = line_of t b) as L1 by (intros; by apply kept_line).
  assert (∀ m', is_l1 m' → v1 t m' a = None) as Hno1.
  { intros m' Hm'. destruct (v1 t m' a) as [[l d]|] eqn:El; [|done].
    destruct (ti_incl t Hinv m' a l d Hm' Ha El) as (k & Hk & _). congruence. }
  destruct (insertCacheLineInL1_ok m a cst fill t1) as (e1 & t2 & H2 & S2 & E1 & V2 & W2); try done.
  { destruct K1 as [[= _ _ -> _ _ _ _ _ _] _ _ _]. done. }
  { rewrite V1 by done. destruct (on_line t e2 a); [done|by apply Hno1]. }
  { intros b l d Hb. rewrite V1, W1 by done. destruct (on_line t e2 b) eqn:Ee; [done|]. intros Hv.
    destruct (ti_incl t Hinv m b l d Hm Hb Hv) as (k & Hk & _ & Hloc). exists k. split; [|done].
    rewrite decide_False by (intros He; rewrite (v2_line t b a He), Hno in Hk; done). done. }
  exists e2, e1, t2.
  assert (insertCacheLineInHierarchy a cst (Some fill) t = Ok (tt, t2)) as Hrun.
  { unfold insertCacheLineInHierarchy, mbind, M_bind, gets, id, assert.
    rewrite (proj2 (Z.eqb_eq _ _)) by done. unfold mret, M_ret. fold m. by rewrite H1, H2. }
  assert (∀ ev b, on_line t1 ev b = on_line t ev b) as OL by (intros [x|] b; cbn; by rewrite ?L1).
  assert (filled t t2 a m cst fill e2 e1) as Hf.
  { split.
    - intros m' b Hm' Hb. rewrite V2, V1, !L1, !OL by done. done.
    - intros b Hb. rewrite W2, W1, !OL by done.
      destruct (decide (line_of t b = line_of t a)) as [He|He].
      + destruct e1 as [x|]; [|done]. destruct (E1 x eq_refl) as (_ & _ & Hne). rewrite !L1 in Hne.
        rewrite on_line_Some. rewrite decide_False by congruence. done.
      + destruct (on_line t e2 b), (on_line t e1 b); done.
    - intros x Hx. destruct (E1 x Hx) as (Hok & Hv & _). rewrite V1 in Hv by done.
      destruct (on_line t e2 x); [by destruct Hv|done]. }
  pose proof (stepped_fields _ _ S2) as (G1 & G2 & G3 & G4 & G5).
  split; [done|]. split; [by eapply filled_inv; [| apply S2|..]|].
  split; [by eapply kept_trans; [|apply stepped_kept]|]. split; [by eapply stepped_clock|].
  split; [done|]. unfold sent in *. by rewrite G2.
Qed.

(** *** Memory operations of the core *)

(** The bytes a load returns and the bytes of the line after an operation. *)
Definition op_result (op : MemOp.mem_op_t) (offset n : Z) (d : list Z) : option (list Z) :=
  match op with
  | MemOp.WRITE => None
  | _ => Some (take (Z.to_nat n) (drop (Z.to_nat offset) d))
  end.
Definition op_bytes (op : MemOp.mem_op_t) (offset : Z) (buf d : list Z) : list Z :=
  match op with MemOp.WRITE => splice d (Z.to_nat offset) buf | _ => d end.

(** The bytes of the line of [a] are [d'] in the L1 cache [m] and in the L2
    cache, everything else is as before. *)
Definition accessed (t t' : Tile) (m : MemComponent.Type_) (a : Z) (d' : list Z) : Prop :=
  (∀ m' b, is_l1 m' → Cache.address_ok b → v1 t' m' b =
     if decide (m' = m ∧ line_of t b = line_of t a) then prod_map id (λ _, d') <$> v1 t m b
     else v1 t m' b) ∧
  (∀ b, Cache.address_ok b → v2 t' b =
     if decide (line_of t b = line_of t a) then prod_map id (λ _, d') <$> v2 t b else v2 t b).

Lemma accessed_inv t t' m a l d d' :
  tile_inv t → caches_ok t' → is_l1 m → Cache.address_ok a → v1 t m a = Some (l, d) →
  accessed t t' m a d' → tile_inv t'.
Proof.
  intros Hinv Hok Hm Ha Hl [G1 G2]. destruct (ti_incl t Hinv m a l d Hm Ha Hl) as (ka & Hka & _ & Hloc).
  split; [done|..].
  - intros m' b l' e Hm' Hb. rewrite G1, G2 by done.
    destruct (decide (m' = m ∧ line_of t b = line_of t a)) as [[-> He]|Hn].
    + rewrite decide_True by done. rewrite (v1_line t m b a), (v2_line t b a He), Hl, Hka by (done || apply Hinv).
      intros [= <- <-]. destruct (ti_incl t Hinv m a l d Hm Ha Hl) as (k & Hk & Hs & _).
      simplify_eq. by eexists.
    + intros Hv. destruct (ti_incl t Hinv m' b l' e Hm' Hb Hv) as (k & Hk & Hs & Hlk).
      rewrite decide_False; [by exists k|]. intros He. apply Hn. split; [|done].
      rewrite (v2_line t b a He), Hka in Hk. congruence.
  - intros b k e Hb. rewrite G2 by done. case_decide; [|by apply (ti_state t Hinv)].
    destruct (v2 t b) as [[k0 e0]|] eqn:Ek; [|done]. intros [= <- <-].
    exact (ti_state t Hinv b k0 e0 Hb Ek).
  - intros b k e Hb. rewrite G2 by done. case_decide; [|by apply (ti_loc t Hinv)].
    destruct (v2 t b) as [[k0 e0]|] eqn:Ek; [|done]. intros [= <- <-].
    exact (ti_loc t Hinv b k0 e0 Hb Ek).
  - intros b k e Hb. rewrite G2 by done. destruct (decide (line_of t b = line_of t a)) as [He|He].
    + rewrite (v2_line t b a He), Hka. intros [= <- <-] _ _. cbn. rewrite Hloc, G1 by done.
      rewrite decide_True by done. rewrite (v1_line t m b a), Hl by (done || apply Hinv). eauto.
    + intros Hk Hs Hlc. rewrite G1 by done. rewrite decide_False by (intros [_ ?]; done).
      by apply (ti_back t Hinv b k e).
Qed.

Lemma l1_aligned t m a :
  caches_ok t → is_l1 m → Cache.aligned (_l2_cache t) a → Cache.aligned (getL1 m t) a.
Proof.
  intros Hok Hm [H1 H2]. split; [done|]. pose proof (co_shape t Hok m Hm) as [= _ Hs].
  unfold Cache.getAddressFromTag, Cache.getTag_of in *. by rewrite Hs.
Qed.

Lemma l1_load_ok m a off n l d t :
  is_l1 m → caches_ok t → Cache.aligned (_l2_cache t) a → 0 ≤ off → 0 < n →
  off + n ≤ _cache_line_size t → v1 t m a = Some (l, d) →
  ∃ t', l1 m (Cache.accessCacheLine (u64 (a + off)) (Cache.LOAD true n)) t =
      Ok (Some (take (Z.to_nat n) (drop (Z.to_nat off) d)), t') ∧ stepped t t' ∧ same_views t t'.
Proof.
  intros Hm Hok Hal Ho Hn Hle Hl. pose proof (co_shape t Hok m Hm) as [= Hls _].
  destruct (Cache.load_in_line_ok (getL1 m t) a off n l d) as (c' & Hrun & Hw & Hf & Hlk); try done.
  { by apply co_l1. } { by apply l1_aligned. } { by rewrite Hls, <- (co_size t Hok). }
  rewrite (l1_run m _ t Hm), Hrun. eexists. split; [done|]. split; [|split].
  - apply setL1_stepped; try done. by destruct Hf as (_ & _ & _ & _ & ?).
  - intros m' b Hm'. rewrite setL1_v1 by done. destruct (decide (m' = m)) as [->|]; [apply Hlk|done].
  - intros b. apply setL1_v2.
Qed.

Lemma store_both_ok m a off data l k d t :
  is_l1 m → caches_ok t → Cache.aligned (_l2_cache t) a → 0 ≤ off → 0 < zlength data →
  off + zlength data ≤ _cache_line_size t → v1 t m a = Some (l, d) → v2 t a = Some (k, d) →
  ∃ t', accessCache m MemOp.WRITE a off data (zlength data) t = Ok (None, t') ∧ stepped t t' ∧
    accessed t t' m a (splice d (Z.to_nat off) data).
Proof.
  intros Hm Hok Hal Ho Hn Hle Hl Hk. pose proof (co_shape t Hok m Hm) as [= Hls _].
  destruct (Cache.store_in_line_ok (getL1 m t) a off data l d) as (c1 & R1 & W1 & F1 & L1); try done.
  { by apply co_l1. } { by apply l1_aligned. } { by rewrite Hls, <- (co_size t Hok). }
  set (t1 := setL1 m c1 t).
  assert (stepped t t1) as S1 by (apply setL1_stepped; try done; by destruct F1 as (_ & _ & _ & _ & ?)).
  destruct (Cache.store_in_line_ok (_l2_cache t1) a off data k d) as (c2 & R2 & W2 & F2 & L2).
  { apply S1. } { by apply (shape_aligned t t1), Hal; apply S1. } { done. } { done. }
  { by rewrite <- (co_size t1 (st_ok _ _ S1)); unfold t1; rewrite setL1_size. }
  { unfold t1. by rewrite setL1_l2. }
  exists (t1 <| _l2_cache := c2 |>).
  unfold accessCache, writeCacheLine, l2, zoom, mbind, M_bind. rewrite (l1_run m _ t Hm), R1. fold t1.
  rewrite R2. split; [done|]. split; [|split].
  - eapply stepped_trans; [done|]. apply setL2_stepped; [apply S1|done|].
    by destruct F2 as (_ & _ & _ & _ & ?).
  - intros m' b Hm' Hb. transitivity (v1 t1 m' b); [by destruct Hm' as [->| ->]|].
    unfold t1. rewrite setL1_v1 by done. destruct (decide (m' = m)) as [->|Hne].
    + rewrite L1, !l1_line by done. destruct (decide (line_of t b = line_of t a)) as [He|He].
      * rewrite decide_True by done. by rewrite (v1_line t m b a), Hl.
      * by rewrite decide_False by (intros [_ ?]; done).
    + by rewrite decide_False by (intros [? _]; done).
  - intros b Hb. unfold v2 at 1. cbn. rewrite L2 by done.
    change (Cache.getTag_of (_l2_cache t1)) with (line_of t1). rewrite !(stepped_line t t1) by done.
    destruct (decide (line_of t b = line_of t a)) as [He|He].
    + by rewrite (v2_line t b a He), Hk.
    + unfold t1. by rewrite setL1_l2.
Qed.

(** An operation on a line that the L1 cache holds. *)
Lemma accessCache_ok op m a off buf n l d t :
  tile_inv t → is_l1 m → Cache.aligned (_l2_cache t) a → 0 ≤ off → 0 < n →
  off + n ≤ _cache_line_size t → zlength buf = n → v1 t m a = Some (l, d) →
  ∃ t', accessCache m op a off buf n t = Ok (op_result op off n d, t') ∧ stepped t t' ∧
    accessed t t' m a (op_bytes op off buf d) ∧ tile_inv t'.
Proof.
  intros Hinv Hm Hal Ho Hn Hle Hbuf Hl. pose proof (proj1 Hal) as Ha.
  pose proof (ti_ok t Hinv) as Hok.
  destruct (ti_incl t Hinv m a l d Hm Ha Hl) as (k & Hk & _ & Hloc).
  assert (∃ t', accessCache m op a off buf n t = Ok (op_result op off n d, t') ∧ stepped t t' ∧
    accessed t t' m a (op_bytes op off buf d)) as (t' & H1 & H2 & H3).
  2:{ exists t'. split_and!; try done. by apply (accessed_inv t t' m a l d (op_bytes op off buf d)); try apply H2. }
  destruct op; [| |subst n; by apply (store_both_ok m a off buf l k d t)].
  all: destruct (l1_load_ok m a off n l d t) as (t' & H1 & H2 & V & W); [done..|];
    exists t'; split; [exact H1|]; split; [done|]; split; cbn.
  all: try (intros m' b Hm' Hb; rewrite V by done;
    destruct (decide (m' = m ∧ line_of t b = line_of t a)) as [[-> He]|]; [|done];
    by rewrite (v1_line t m b a), Hl).
  all: intros b Hb; rewrite W; destruct (decide (line_of t b = line_of t a)) as [He|]; [|done];
    by rewrite (v2_line t b a He), Hk.
Qed.

Lemma l1_miss_ok m a op miss t :
  is_l1 m → caches_ok t →
  (op = MemOp.WRITE → Cache._cache_category (getL1 m t) ≠ Cache.INSTRUCTION_CACHE) →
  ∃ ty t', l1 m (Cache.updateMissCounters a op miss) t = Ok (ty, t') ∧ stepped t t' ∧ same_views t t'.
Proof.
  intros Hm Hok Hcat. destruct (Cache.updateMissCounters_ok (getL1 m t) a op miss Hcat) as (ty & c' & Hrun).
  destruct (Cache.updateMissCounters_quiet a op miss _ _ _ Hrun) as [Hc Hf].
  rewrite (l1_run m _ t Hm), Hrun. eexists _, _. split; [done|]. split; [|split].
  - apply setL1_stepped; try done; [|by apply Cache.core_shape].
    apply (Cache.wf_core (getL1 m t)); [done|by apply co_l1].
  - intros m' b Hm'. rewrite setL1_v1 by done. destruct (decide (m' = m)) as [->|]; [|done].
    by apply Cache.lookup_core.
  - intros b. apply setL1_v2.
Qed.

Lemma l2_miss_ok a op miss t :
  caches_ok t → (op = MemOp.WRITE → Cache._cache_category (_l2_cache t) ≠ Cache.INSTRUCTION_CACHE) →
  ∃ ty t', l2 (Cache.updateMissCounters a op miss) t = Ok (ty, t') ∧ stepped t t' ∧ same_views t t'.
Proof.
  intros Hok Hcat. destruct (Cache.updateMissCounters_ok (_l2_cache t) a op miss Hcat) as (ty & c' & Hrun).
  destruct (Cache.updateMissCounters_quiet a op miss _ _ _ Hrun) as [Hc Hf].
  unfold l2, zoom. rewrite Hrun. eexists _, _. split; [done|]. split; [|split].
  - apply setL2_stepped; [done| |by apply Cache.core_shape].
    apply (Cache.wf_core (_l2_cache t)); [done|by apply co_l2].
  - by intros m b [->| ->].
  - intros b. by apply Cache.lookup_core.
Qed.

Definition l1_state (t : Tile) (m : MemComponent.Type_) (a : Z) : CacheState.Type_ :=
  match v1 t m a with Some (l, _) => getCState l | None => CacheState.INVALID end.
Definition l2_state (t : Tile) (a : Z) : CacheState.Type_ :=
  match v2 t a with Some (k, _) => getCState k | None => CacheState.INVALID end.

(** Writes go to data and unified caches only. *)
Definition writes_ok (t : Tile) (m : MemComponent.Type_) (op : MemOp.mem_op_t) : Prop :=
  op = MemOp.WRITE →
  Cache._cache_category (getL1 m t) ≠ Cache.INSTRUCTION_CACHE ∧
  Cache._cache_category (_l2_cache t) ≠ Cache.INSTRUCTION_CACHE.

Lemma stepped_size t t' : stepped t t' → _cache_line_size t = _cache_line_size t'.
Proof. by intros [_ [= ] _]. Qed.

Lemma stepped_shape_l1 t t' m :
  caches_ok t → stepped t t' → is_l1 m → Cache.shape (getL1 m t') = Cache.shape (getL1 m t).
Proof.
  intros Hok S Hm. by apply shapes_l1, S.
Qed.

Lemma permissible_ok m a op num t :
  is_l1 m → caches_ok t → Cache.address_ok a → writes_ok t m op →
  ∃ t', operationPermissibleinL1Cache m a op num t = Ok (permitted op (l1_state t m a), t') ∧
    stepped t t' ∧ same_views t t'.
Proof.
  intros Hm Hok Ha Hw. destruct (l1_get_ok m a t Hm Hok Ha) as (t1 & H1 & S1 & V1 & W1).
  unfold operationPermissibleinL1Cache, getCacheLineState, mbind, M_bind. rewrite H1.
  unfold mret, M_ret. replace (getCState _) with (l1_state t m a)
    by (unfold l1_state; by destruct (v1 t m a) as [[]|]).
  destruct (num =? 1); [|by exists t1].
  destruct (l1_miss_ok m a op (negb (permitted op (l1_state t m a))) t1) as (ty & t2 & H2 & S2 & V2 & W2);
    [done|apply S1| |].
  { intros Hop. pose proof (stepped_shape_l1 t t1 m Hok S1 Hm) as [= _ _ Hc]. rewrite Hc. by apply Hw. }
  rewrite H2. exists t2. split; [done|]. split; [by eapply stepped_trans|].
  split; [intros m' b Hm'; by rewrite V2, V1|intros b; by rewrite W2, W1].
Qed.

(** A request the L2 cache can serve: the line is copied to the L1 cache. *)
Lemma request_hit_ok m op a k d t :
  tile_inv t → is_l1 m → Cache.aligned (_l2_cache t) a → writes_ok t m op →
  v2 t a = Some (k, d) → permitted op (getCState k) = true →
  PrL2._cached_loc k = MemComponent.INVALID →
  ∃ ty e1 t', processShmemRequestFromL1Cache m op a t = Ok ((false, ty), t') ∧ stepped t t' ∧
    tile_inv t' ∧ filled t t' a m (getCState k) d None e1.
Proof.
  intros Hinv Hm Hal Hw Hk Hp Hloc. pose proof (ti_ok t Hinv) as Hok. pose proof (proj1 Hal) as Ha.
  destruct (Cache.lookup_line _ a k d (co_l2 t Hok) Ha Hk) as (Hval & Htag & Hcs & Hlen).
  assert (∀ m', is_l1 m' → v1 t m' a = None) as Hno1.
  { intros m' Hm'. apply (l1_elsewhere a k d t Hinv Hk); try done. rewrite Hloc.
    by destruct Hm' as [->| ->]. }
  destruct (l2_get_ok a t Hok Ha) as (t1 & H1 & S1 & V1 & W1).
  destruct (l2_miss_ok a op (negb (permitted op (getCState k))) t1) as (ty & t2 & H2 & S2 & V2 & W2);
    [apply S1| |].
  { intros Hop. pose proof (shapes_l2 _ _ (st_shape _ _ S1)) as [= _ _ Hc]. rewrite Hc.
    by apply Hw. }
  pose proof (stepped_trans _ _ _ S1 S2) as S12.
  destruct (l2_load_ok a k d t2) as (t3 & H3 & S3 & V3 & W3);
    [apply S2|by apply (shape_aligned t); [apply S12|]|by rewrite W2, W1|].
  pose proof (stepped_trans _ _ _ S12 S3) as S13.
  assert (∀ m' b, is_l1 m' → v1 t3 m' b = v1 t m' b) as V by (intros; by rewrite V3, V2, V1).
  assert (∀ b, v2 t3 b = v2 t b) as W by (intros; by rewrite W3, W2, W1).
  assert (∀ b, line_of t3 b = line_of t b) as L by (intros; by apply stepped_line).
  destruct (insertCacheLineInL1_ok m a (getCState k) d t3) as (e1 & t4 & H4 & S4 & E4 & V4 & W4);
    [done|apply S13|done|done| |by rewrite V, Hno1| |].
  { rewrite Hlen, <- (co_size t Hok). by apply stepped_size. }
  { intros b l e Hb. rewrite V, W by done. intros Hv.
    destruct (ti_incl t Hinv m b l e Hm Hb Hv) as (k' & Hk' & _ & Hl'). by exists k'. }
  assert (v2 t4 a = Some (k, d)) as Hk4.
  { rewrite W4 by done. destruct e1 as [x|]; [|by rewrite W]. rewrite on_line_Some.
    destruct (E4 x eq_refl) as (_ & _ & Hne). rewrite decide_False by congruence. by rewrite W. }
  assert (∀ b, line_of t4 b = line_of t b) as L4 by (intros; by rewrite (stepped_line t3 t4), L).
  destruct (l2_set_ok a (k <| PrL2._cached_loc := m |>) k d t4) as (t5 & H5 & S5 & V5 & W5);
    [apply S4| |done|].
  { split; [done|]. change (isValid _) with (isValid k). rewrite Hval. split; [|done].
    change (getTag k = line_of t4 a). by rewrite L4. }
  pose proof (stepped_trans _ _ _ (stepped_trans _ _ _ S13 S4) S5) as S.
  assert (filled t t5 a m (getCState k) d None e1) as Hf.
  { split.
    - intros m' b Hm' Hb. rewrite V5, V4, V, !L by done. cbn.
      destruct e1 as [x|]; cbn; by rewrite ?L.
    - intros b Hb. rewrite W5, W4, W, !L4 by done. change (isValid _) with (isValid k). rewrite Hval. cbn.
      destruct (decide (line_of t b = line_of t a)).
      + do 2 f_equal. destruct k. cbn in *. by rewrite Htag.
      + destruct e1 as [x|]; cbn; by rewrite ?L.
    - intros x Hx. destruct (E4 x Hx) as (? & Hv & _). rewrite V in Hv by done. done. }
  exists ty, e1, t5. split; [|split; [done|split; [|done]]].
  - assert (PrL2.setCachedLoc m k = Ok (k <| PrL2._cached_loc := m |>)) as Hset.
    { unfold PrL2.setCachedLoc. rewrite Hloc. by destruct Hm as [->| ->]. }
    unfold processShmemRequestFromL1Cache, operationPermissibleinL2Cache, mbind, M_bind.
    rewrite H1, Hk, H2, Hp. cbn [negb mret M_ret fst when]. rewrite H3, H4, Hset. cbn [lift].
    rewrite H5. done.
  - eapply filled_inv; [exact Hinv|apply S|done..| |done]. by apply (ti_state t Hinv a k d).
Qed.

(** The line is attributed to an L1 cache already: [setCachedLoc] aborts. *)
Lemma request_attributed_fails m op a k d t :
  tile_inv t → is_l1 m → Cache.aligned (_l2_cache t) a → writes_ok t m op →
  v2 t a = Some (k, d) → permitted op (getCState k) = true →
  PrL2._cached_loc k ≠ MemComponent.INVALID → v1 t m a = None →
  processShmemRequestFromL1Cache m op a t = Fail (EAssert "PrL2CacheLineInfo::setCachedLoc").
Proof.
  intros Hinv Hm Hal Hw Hk Hp Hloc Hno. pose proof (ti_ok t Hinv) as Hok. pose proof (proj1 Hal) as Ha.
  destruct (Cache.lookup_line _ a k d (co_l2 t Hok) Ha Hk) as (Hval & Htag & Hcs & Hlen).
  destruct (l2_get_ok a t Hok Ha) as (t1 & H1 & S1 & V1 & W1).
  destruct (l2_miss_ok a op (negb (permitted op (getCState k))) t1) as (ty & t2 & H2 & S2 & V2 & W2);
    [apply S1| |].
  { intros Hop. pose proof (shapes_l2 _ _ (st_shape _ _ S1)) as [= _ _ Hc]. rewrite Hc. by apply Hw. }
  pose proof (stepped_trans _ _ _ S1 S2) as S12.
  destruct (l2_load_ok a k d t2) as (t3 & H3 & S3 & V3 & W3);
    [apply S2|by apply (shape_aligned t); [apply S12|]|by rewrite W2, W1|].
  pose proof (stepped_trans _ _ _ S12 S3) as S13.
  assert (∀ m' b, is_l1 m' → v1 t3 m' b = v1 t m' b) as V by (intros; by rewrite V3, V2, V1).
  destruct (insertCacheLineInL1_ok m a (getCState k) d t3) as (e1 & t4 & H4 & _);
    [done|apply S13|done|done| |by rewrite V, Hno| |].
  { rewrite Hlen, <- (co_size t Hok). by apply stepped_size. }
  { intros b l e Hb. rewrite V, W3, W2, W1 by done. intros Hv.
    destruct (ti_incl t Hinv m b l e Hm Hb Hv) as (k' & Hk' & _ & Hl'). by exists k'. }
  assert (PrL2.setCachedLoc m k = Fail (EAssert "PrL2CacheLineInfo::setCachedLoc")) as Hset.
  { unfold PrL2.setCachedLoc. rewrite (bool_decide_false _ Hloc). by destruct Hm as [->| ->]. }
  unfold processShmemRequestFromL1Cache, operationPermissibleinL2Cache, mbind, M_bind.
  rewrite H1, Hk, H2, Hp. cbn [negb mret M_ret fst when]. by rewrite H3, H4, Hset.
Qed.

(** A request the L2 cache cannot serve. *)
Lemma request_miss_ok m op a t :
  caches_ok t → Cache.address_ok a → writes_ok t m op → permitted op (l2_state t a) = false →
  ∃ ty t', processShmemRequestFromL1Cache m op a t = Ok ((true, ty), t') ∧ stepped t t' ∧ same_views t t'.
Proof.
  intros Hok Ha Hw Hp. destruct (l2_get_ok a t Hok Ha) as (t1 & H1 & S1 & V1 & W1).
  destruct (l2_miss_ok a op true t1) as (ty & t2 & H2 & S2 & V2 & W2); [apply S1| |].
  { intros Hop. pose proof (shapes_l2 _ _ (st_shape _ _ S1)) as [= _ _ Hc]. rewrite Hc. by apply Hw. }
  exists ty, t2. split; [|split; [by eapply stepped_trans|]].
  - unfold processShmemRequestFromL1Cache, operationPermissibleinL2Cache, mbind, M_bind. rewrite H1.
    replace (getCState _) with (l2_state t a) by (unfold l2_state; by destruct (v2 t a) as [[]|]).
    rewrite Hp. cbn [negb]. rewrite H2. done.
  - split; [intros m' b Hm'; by rewrite V2, V1|intros b; by rewrite W2, W1].
Qed.

(** Dropping a line from one L1 cache keeps the invariant unless the line is
    modified. *)
Lemma l1_drop_inv t t' m a :
  tile_inv t → caches_ok t' → is_l1 m → Cache.address_ok a →
  v1 t m a = None ∨ l2_state t a ≠ CacheState.MODIFIED →
  (∀ b, v2 t' b = v2 t b) →
  (∀ m' b, is_l1 m' → Cache.address_ok b → v1 t' m' b =
     if decide (m' = m ∧ line_of t b = line_of t a) then None else v1 t m' b) →
  tile_inv t'.
Proof.
  intros Hinv Hok Hm Ha Hsafe W V. pose proof (ti_ok t Hinv) as Hok0. split; [done|..].
  - intros m' b l d Hm' Hb. rewrite V, W by done. destruct (decide _); [done|]. by apply (ti_incl t Hinv).
  - intros b k d Hb. rewrite W. by apply (ti_state t Hinv).
  - intros b k d Hb. rewrite W. by apply (ti_loc t Hinv).
  - intros b k d Hb Hk Hs Hl. rewrite W in Hk. rewrite V by done.
    pose proof (ti_back t Hinv b k d Hb Hk Hs Hl) as Hb'.
    destruct (decide _) as [[Hm' He]|]; [|done]. exfalso. destruct Hsafe as [Hn|Hn].
    + rewrite Hm', (v1_line t m b a), Hn in Hb' by done. by destruct Hb'.
    + apply Hn. unfold l2_state. by rewrite <- (v2_line t b a He), Hk.
Qed.

(** What an operation of the core does on the way to the network: a hit at
    either level performs it; otherwise the request goes to the tile's own L2
    cache controller and the L1 copy is gone. *)
Definition memop_post (t t' : Tile) (m : MemComponent.Type_) (op : MemOp.mem_op_t) (a off : Z)
    (buf : list Z) (r : option (bool * option (list Z))) : Prop :=
  match r with
  | Some (_, data) =>
    permitted op (l2_state t a) = true ∧ sent t t' [] ∧
    ∃ k d, v2 t a = Some (k, d) ∧ data = op_result op off (zlength buf) d ∧
      ∃ l' k', v1 t' m a = Some (l', op_bytes op off buf d) ∧
               v2 t' a = Some (k', op_bytes op off buf d) ∧ getCState k' = getCState k
  | None =>
    permitted op (l2_state t a) = false ∧ v1 t' m a = None ∧ (∀ b, v2 t' b = v2 t b) ∧
    ∃ modeled, sent t t' [(_tile_id t, ShmemMsg.make (getShmemMsgType op) m MemComponent.L2_CACHE
                                        (_tile_id t) a modeled)]
  end.

(** The line of [a] is not held by, or attributed to, the other L1 cache. *)
Definition mine (t : Tile) (m : MemComponent.Type_) (a : Z) : Prop :=
  ∀ k d, v2 t a = Some (k, d) → is_l1 (PrL2._cached_loc k) →
    PrL2._cached_loc k = m ∧ is_Some (v1 t m a).

Record memop_args (t : Tile) (m : MemComponent.Type_) (op : MemOp.mem_op_t) (a off : Z)
    (buf : list Z) : Prop := {
  ma_l1 : is_l1 m;
  ma_aligned : Cache.aligned (_l2_cache t) a;
  ma_off : 0 ≤ off;
  ma_len : 0 < zlength buf;
  ma_fits : off + zlength buf ≤ _cache_line_size t;
  ma_writes : writes_ok t m op;
  ma_mine : mine t m a
}.

Lemma quietly_args t t' m op a off buf :
  quietly t t' → caches_ok t → memop_args t m op a off buf → memop_args t' m op a off buf.
Proof.
  intros Q Hok []. destruct (qu_views _ _ Q) as [V W]. split; try done.
  - by apply (shape_aligned t); [apply Q|].
  - pose proof (qu_cfg _ _ Q) as [= _ _ -> _ _ _ _ _ _]. done.
  - intros Hop. destruct (ma_writes0 Hop) as [Hw1 Hw2].
    pose proof (shapes_l1 _ _ m (qu_shape _ _ Q)) as [= _ _ C1].
    pose proof (shapes_l2 _ _ (qu_shape _ _ Q)) as [= _ _ C3]. split; congruence.
  - intros k d. rewrite W, V by done. apply ma_mine0.
Qed.

(** Performing the operation on a line of the L1 cache. *)
Lemma perform_ok m op a off buf (h : bool) n l d t :
  tile_inv t → config_ok t → clock_le n t → n + 2 ^ 40 < 2 ^ 64 →
  memop_args t m op a off buf → v1 t m a = Some (l, d) →
  ∃ t', (incrCycleCount m CachePerfModel.ACCESS_CACHE_DATA_AND_TAGS ;;
         data ← accessCache m op a off buf (zlength buf) ;
         mret (Some (h, (data : option (list Z))))) t =
      Ok (Some (h, op_result op off (zlength buf) d), t') ∧
    tile_inv t' ∧ kept t t' ∧ clock_le (n + 2 ^ 40) t' ∧ sent t t' [] ∧
    ∃ k l' k', v2 t a = Some (k, d) ∧ v1 t' m a = Some (l', op_bytes op off buf d) ∧
      v2 t' a = Some (k', op_bytes op off buf d) ∧ getCState k' = getCState k.
Proof.
  intros Hinv Hc Hn Hb Hargs Hl. pose proof (ti_ok t Hinv) as Hok.
  destruct (incrCycleCount_ok m CachePerfModel.ACCESS_CACHE_DATA_AND_TAGS n t) as (t1 & H1 & Q1 & N1);
    [done..|right; right; by apply Hargs|].
  destruct (quietly_args t t1 m op a off buf Q1 Hok Hargs) as [Hm Hal Ho Hlen Hfit _ _].
  destruct (qu_views _ _ Q1) as [V1 W1].
  destruct (accessCache_ok op m a off buf (zlength buf) l d t1) as (t2 & H2 & S2 & [A1 A2] & I2);
    try done; [by eapply quietly_inv|by rewrite V1|].
  exists t2. unfold mbind, M_bind. rewrite H1, H2. split; [done|]. split; [done|].
  destruct (stepped_fields _ _ S2) as (F1 & F2 & F3 & F4 & F5).
  split; [by eapply kept_trans; [apply quietly_kept|apply stepped_kept]|].
  split; [by eapply stepped_clock|]. split; [apply sent_nil; by rewrite F2, (qu_net _ _ Q1)|].
  destruct (ti_incl t Hinv m a l d Hm (proj1 Hal) Hl) as (k & Hk & _ & _).
  exists k, l, k. split; [done|]. rewrite A1, A2 by (done || apply Hal).
  rewrite !decide_True by done. by rewrite V1, W1, Hl, Hk.
Qed.

Lemma l1_l2_state t m a l d :
  tile_inv t → is_l1 m → Cache.address_ok a → v1 t m a = Some (l, d) → l1_state t m a = l2_state t a.
Proof.
  intros Hinv Hm Ha Hl. destruct (ti_incl t Hinv m a l d Hm Ha Hl) as (k & Hk & Hs & _).
  unfold l1_state, l2_state. by rewrite Hl, Hk.
Qed.

Lemma permitted_present op st : permitted op st = true → st ≠ CacheState.INVALID.
Proof. by destruct op, st. Qed.

(** The L1 cache cannot serve the operation but the L2 cache can. *)
Lemma memop_l2_hit_ok m op a off buf n t :
  tile_inv t → config_ok t → clock_le n t → n + 2 ^ 41 < 2 ^ 64 →
  memop_args t m op a off buf → v1 t m a = None → permitted op (l2_state t a) = true →
  ∃ ty t1 t2 t', processShmemRequestFromL1Cache m op a t = Ok ((false, ty), t1) ∧
    incrCycleCount MemComponent.L2_CACHE CachePerfModel.ACCESS_CACHE_DATA_AND_TAGS t1 = Ok (tt, t2) ∧
    (incrCycleCount m CachePerfModel.ACCESS_CACHE_DATA_AND_TAGS ;;
     data ← accessCache m op a off buf (zlength buf) ;
     mret (Some (false, (data : option (list Z))))) t2 =
      Ok (Some (false, match v2 t a with Some (_, d) => op_result op off (zlength buf) d | None => None end), t') ∧
    tile_inv t' ∧ kept t t' ∧ clock_le (n + 2 ^ 41) t' ∧
    memop_post t t' m op a off buf
      (Some (false, match v2 t a with Some (_, d) => op_result op off (zlength buf) d | None => None end)).
Proof.
  intros Hinv Hc Hn Hb Hargs Hno Hp. pose proof (ti_ok t Hinv) as Hok.
  pose proof (ma_l1 _ _ _ _ _ _ Hargs) as Hm. pose proof (ma_aligned _ _ _ _ _ _ Hargs) as Hal.
  pose proof (proj1 Hal) as Ha.
  destruct (v2 t a) as [[k d]|] eqn:Hk; [|unfold l2_state in Hp; rewrite Hk in Hp; by destruct op].
  assert (permitted op (getCState k) = true) as Hpk by (unfold l2_state in Hp; by rewrite Hk in Hp).
  assert (PrL2._cached_loc k = MemComponent.INVALID) as Hloc.
  { destruct (ti_loc t Hinv a k d Ha Hk) as [|Hl]; [done|].
    destruct (ma_mine _ _ _ _ _ _ Hargs k d Hk Hl) as [_ Hv]. rewrite Hno in Hv. by destruct Hv. }
  destruct (request_hit_ok m op a k d t) as (ty & e1 & t1 & H1 & S1 & I1 & F1); try done.
  { by apply Hargs. }
  destruct (incrCycleCount_ok MemComponent.L2_CACHE CachePerfModel.ACCESS_CACHE_DATA_AND_TAGS n t1)
    as (t2 & H2 & Q2 & N2);
    [apply S1|by apply (config_ok_cfg t); [apply (stepped_fields _ _ S1)|]|by eapply stepped_clock|lia|by auto|].
  assert (v1 t1 m a = Some (LineInfo.mkLineInfo (line_of t a) (getCState k), d)) as Hv1
    by (rewrite (fi_l1 _ _ _ _ _ _ _ _ F1) by done; by rewrite decide_True).
  assert (v2 t1 a = Some (PrL2.mkLineInfo (line_of t a) (getCState k) m, d)) as Hv2
    by (rewrite (fi_l2 _ _ _ _ _ _ _ _ F1) by done; by rewrite decide_True).
  assert (memop_args t1 m op a off buf) as Hargs1.
  { destruct Hargs. split; try done.
    - by apply (shape_aligned t); [apply S1|].
    - by rewrite <- (stepped_size _ _ S1).
    - intros Hop. destruct (ma_writes0 Hop) as [Hw1 Hw2].
      pose proof (stepped_shape_l1 t t1 m Hok S1 Hm) as [= _ _ C1].
      pose proof (shapes_l2 _ _ (st_shape _ _ S1)) as [= _ _ C2]. split; congruence.
    - intros k' d' Hk' _. rewrite Hv1. rewrite Hv2 in Hk'. injection Hk' as <- <-. split; [done|eauto]. }
  destruct (qu_views _ _ Q2) as [V2 W2]. pose proof (kept_trans _ _ _ (stepped_kept _ _ S1) (quietly_kept _ _ Q2)) as K2.
  destruct (perform_ok m op a off buf false (n + 2 ^ 40)
              (LineInfo.mkLineInfo (line_of t a) (getCState k)) d t2)
    as (t3 & H3 & I3 & K3 & N3 & P3 & k2 & l' & k' & E1 & E2 & E3 & E4);
    [by eapply quietly_inv|by apply (config_ok_cfg t); [apply K2|]|done|lia|
     by apply (quietly_args t1 t2); [|apply S1|]|by rewrite V2|].
  exists ty, t1, t2, t3. split; [done|]. split; [done|]. split; [done|].
  split; [done|split; [by eapply kept_trans|split]].
  - intros th. pose proof (N3 th). lia.
  - split; [done|]. split.
    { destruct P3 as (ps & Hps & F). exists ps. split; [|by inversion F; constructor].
      rewrite Hps, (qu_net _ _ Q2). by destruct (stepped_fields _ _ S1) as (_ & -> & _). }
    exists k, d. split; [done|]. split; [done|]. exists l', k'. split; [done|]. split; [done|].
    rewrite W2, Hv2 in E1. injection E1 as <-. done.
Qed.

(** Neither level can serve the operation: the request is sent. *)
Lemma memop_miss_ok m op a off buf n t :
  tile_inv t → config_ok t → clock_le n t → n + 2 ^ 41 < 2 ^ 64 →
  is_l1 m → Cache.address_ok a → writes_ok t m op → v1 t m a = None →
  permitted op (l2_state t a) = false →
  ∃ ty t1 t2 modeled t', processShmemRequestFromL1Cache m op a t = Ok ((true, ty), t1) ∧
    incrCycleCount MemComponent.L2_CACHE CachePerfModel.ACCESS_CACHE_TAGS t1 = Ok (tt, t2) ∧
    modeled = MissTypes.isMissTypeModeled (_miss_types t2) ty && _is_application_tile t2 ∧
    sendMsg (_tile_id t2) (ShmemMsg.make (getShmemMsgType op) m MemComponent.L2_CACHE (_tile_id t2) a modeled)
      t2 = Ok (tt, t') ∧
    tile_inv t' ∧ kept t t' ∧ clock_le (n + 2 ^ 41) t' ∧ memop_post t t' m op a off buf None.
Proof.
  intros Hinv Hc Hn Hb Hm Ha Hw Hno Hp. pose proof (ti_ok t Hinv) as Hok.
  destruct (request_miss_ok m op a t Hok Ha Hw Hp) as (ty & t1 & H1 & S1 & V1).
  pose proof (stepped_quietly _ _ S1 V1) as Q1.
  destruct (incrCycleCount_ok MemComponent.L2_CACHE CachePerfModel.ACCESS_CACHE_TAGS n t1)
    as (t2 & H2 & Q2 & N2);
    [apply S1|by apply (config_ok_cfg t); [apply Q1|]|by eapply stepped_clock|lia|by auto|].
  pose proof (quietly_trans _ _ _ Q1 Q2) as Q.
  assert (_tile_id t2 = _tile_id t) as Hid by (by injection (qu_cfg _ _ Q)).
  set (modeled := MissTypes.isMissTypeModeled (_miss_types t2) ty && _is_application_tile t2).
  destruct (reply_ok (_tile_id t2) (ShmemMsg.make (getShmemMsgType op) m MemComponent.L2_CACHE
      (_tile_id t2) a modeled) (n + 2 ^ 40) t t2 t2) as (t3 & H3 & O3 & K3 & N3 & [V3 W3] & P3);
    [done|done|by split; [apply Q2|..]|done|].
  destruct (qu_views _ _ Q) as [V W].
  exists ty, t1, t2, modeled, t3. split; [done|]. split; [done|]. split; [done|]. split; [done|].
  assert (tile_inv t3) as I3.
  { apply (l1_drop_inv t t3 m a Hinv O3 Hm Ha (or_introl Hno)).
    - intros b. by rewrite W3, W.
    - intros m' b Hm' Hb'. rewrite V3, V by done. destruct (decide _) as [[-> He]|]; [|done].
      by rewrite (v1_line t m b a). }
  split; [done|]. split; [done|]. split; [intros th; pose proof (N3 th); lia|].
  split; [done|]. split; [by rewrite V3, V|]. split; [intros b; by rewrite W3, W|].
  exists modeled. rewrite <- Hid at 1. rewrite <- Hid. done.
Qed.

(** The rest of [processMemOpFromTile] after a miss in the L1 cache. *)
Definition l2_stage (m : MemComponent.Type_) (op : MemOp.mem_op_t) (a off : Z) (buf : list Z) (n : Z)
    : M Tile (option (bool * option (list Z))) :=
  miss_info ← processShmemRequestFromL1Cache m op a ;
  let '(l2_cache_miss, l2_cache_miss_type) := miss_info : bool * Cache.MissType in
  if negb l2_cache_miss then
    incrCycleCount MemComponent.L2_CACHE CachePerfModel.ACCESS_CACHE_DATA_AND_TAGS ;;
    incrCycleCount m CachePerfModel.ACCESS_CACHE_DATA_AND_TAGS ;;
    data ← accessCache m op a off buf n ;
    mret (Some (false, data))
  else
    incrCycleCount MemComponent.L2_CACHE CachePerfModel.ACCESS_CACHE_TAGS ;;
    t ← gets id ;
    sendMsg (_tile_id t)
      (ShmemMsg.make (getShmemMsgType op) m MemComponent.L2_CACHE (_tile_id t) a
         (MissTypes.isMissTypeModeled (_miss_types t) l2_cache_miss_type && _is_application_tile t)) ;;
    mret None.

Lemma sent_net t t3 t' l : _net t3 = _net t → _tile_id t3 = _tile_id t → sent t3 t' l → sent t t' l.
Proof. unfold sent. by intros -> ->. Qed.

(** [memop_post] from a state [t3] that differs from [t] in the L1 copy of the
    line only. *)
Lemma memop_post_from t t3 t' m op a off buf r :
  _net t3 = _net t → _tile_id t3 = _tile_id t → (∀ b, v2 t3 b = v2 t b) →
  memop_post t3 t' m op a off buf r → memop_post t t' m op a off buf r.
Proof.
  intros Hn Hid W. assert (l2_state t3 a = l2_state t a) as Hst by (unfold l2_state; by rewrite W).
  unfold memop_post. rewrite Hst. destruct r as [[h data]|].
  - intros (Hp & Hs & k & d & Hk & Hrest). split; [done|]. split; [by eapply sent_net|].
    exists k, d. by rewrite <- W.
  - intros (Hp & Hno & Hv & md & Hs). split; [done|]. split; [done|]. split; [intros b; by rewrite Hv, W|].
    exists md. rewrite <- Hid. by apply (sent_net t t3).
Qed.

Lemma l2_stage_ok m op a off buf n t :
  tile_inv t → config_ok t → clock_le n t → n + 2 ^ 41 < 2 ^ 64 → v1 t m a = None →
  is_l1 m → Cache.address_ok a → writes_ok t m op →
  (permitted op (l2_state t a) = true → memop_args t m op a off buf) →
  ∃ r t', l2_stage m op a off buf (zlength buf) t = Ok (r, t') ∧
    tile_inv t' ∧ kept t t' ∧ clock_le (n + 2 ^ 41) t' ∧ memop_post t t' m op a off buf r ∧
    (∀ h data, r = Some (h, data) → h = false).
Proof.
  intros Hinv Hc Hn Hb Hno Hm Ha Hw Hargs. unfold l2_stage.
  destruct (permitted op (l2_state t a)) eqn:Hp.
  - destruct (memop_l2_hit_ok m op a off buf n t) as (ty & t1 & t2 & t' & H1 & H2 & H3 & I & K & N & P);
      try done; [by apply Hargs|].
    eexists _, t'. unfold mbind at 1, M_bind at 1. rewrite H1. cbn [negb].
    unfold mbind at 1, M_bind at 1. rewrite H2. split; [exact H3|].
    split_and!; try done. by intros ? ? [= <- <-].
  - destruct (memop_miss_ok m op a off buf n t)
      as (ty & t1 & t2 & md & t' & H1 & H2 & Hmd & H3 & I & K & N & P); try done.
    eexists None, t'. unfold mbind at 1, M_bind at 1. rewrite H1. cbn [negb].
    unfold mbind, M_bind, gets, id. rewrite H2, <- Hmd, H3. by split_and!.
Qed.

Lemma kept_size t t' : kept t t' → _cache_line_size t' = _cache_line_size t.
Proof. by intros [[= ] _ _ _]. Qed.

Lemma writes_ok_kept t t' m op :
  caches_ok t → caches_ok t' → kept t t' → is_l1 m → writes_ok t m op → writes_ok t' m op.
Proof.
  intros Hok Hok' K Hm Hw Hop. destruct (Hw Hop) as [Hw1 Hw2].
  pose proof (shapes_l1 _ _ m (kp_shape _ _ K)) as [= _ _ C1].
  pose proof (shapes_l2 _ _ (kp_shape _ _ K)) as [= _ _ C3]. split; congruence.
Qed.

(** An operation inside one line, whatever the L1 caches hold. *)
Record op_args (t : Tile) (m : MemComponent.Type_) (op : MemOp.mem_op_t) (a off : Z)
    (buf : list Z) : Prop := {
  oa_l1 : is_l1 m;
  oa_aligned : Cache.aligned (_l2_cache t) a;
  oa_off : 0 ≤ off;
  oa_len : 0 < zlength buf;
  oa_fits : off + zlength buf ≤ _cache_line_size t;
  oa_writes : writes_ok t m op
}.

(** The L2 line names an L1 cache. *)
Definition attributed (t : Tile) (a : Z) : Prop :=
  ∃ k d, v2 t a = Some (k, d) ∧ PrL2._cached_loc k ≠ MemComponent.INVALID.

Lemma op_args_memop t m op a off buf :
  tile_inv t → op_args t m op a off buf → is_Some (v1 t m a) ∨ ¬ attributed t a → memop_args t m op a off buf.
Proof.
  intros Hinv [] Hor. split; try done. intros k d Hk Hl. destruct Hor as [[[l e] Hv]|Hno].
  - destruct (ti_incl t Hinv m a l e) as (k' & Hk' & _ & Hl'); [done|apply oa_aligned0|done|].
    rewrite Hk in Hk'. injection Hk' as <- _. rewrite Hv. by split.
  - destruct Hno. exists k, d. split; [done|]. by destruct Hl as [->| ->].
Qed.

#[global] Instance attributed_dec t a : Decision (attributed t a).
Proof.
  unfold attributed. destruct (v2 t a) as [[k d]|]; [destruct (decide (PrL2._cached_loc k = MemComponent.INVALID)) as [H|H]|].
  - right. intros (k' & d' & [= <- <-] & ?). done.
  - left. by exists k, d.
  - right. by intros (k' & d' & ? & _).
Defined.

(** An operation on a line that the other L1 cache does not hold. *)
Lemma memop_args_op t m op a off buf :
  tile_inv t → memop_args t m op a off buf → op_args t m op a off buf ∧
  (permitted op (l1_state t m a) = false → permitted op (l2_state t a) → ¬ attributed t a).
Proof.
  intros Hinv []. split; [done|]. intros Hp Hp2 (k & d & Hk & Hloc).
  assert (is_l1 (PrL2._cached_loc k)) as Hl1 by (destruct (ti_loc t Hinv a k d) as [?|?]; [apply ma_aligned0|done|done|done]).
  destruct (ma_mine0 k d Hk Hl1) as [_ [[l e] Hv]]. rewrite (l1_l2_state t m a l e) in Hp; [|done|done|apply ma_aligned0|done].
  by rewrite Hp in Hp2.
Qed.
Lemma memop_args_go (lock : MemOp.lock_signal_t) t m op a off buf :
  tile_inv t → lock ≠ MemOp.UNLOCK → memop_args t m op a off buf →
  permitted op (l1_state t m a) ∨ lock ≠ MemOp.UNLOCK ∧ (permitted op (l2_state t a) → ¬ attributed t a).
Proof.
  intros Hinv Hl Hargs. destruct (memop_args_op _ _ _ _ _ _ Hinv Hargs) as [_ H].
  destruct (permitted op (l1_state t m a)); [by left|right]. by split; [|apply H].
Qed.

(** An access of an operation of the core. *)
Lemma processMemOp_ok num hit lock m op a off buf n t :
  num = 1 ∨ num = 2 →
  tile_inv t → config_ok t → clock_le n t → n + 2 ^ 42 < 2 ^ 64 →
  op_args t m op a off buf →
  permitted op (l1_state t m a) ∨ lock ≠ MemOp.UNLOCK ∧ (permitted op (l2_state t a) → ¬ attributed t a) →
  ∃ r t', processMemOpFromTile num hit m lock op a off buf (zlength buf) t = Ok (r, t') ∧
    tile_inv t' ∧ kept t t' ∧ clock_le (n + 2 ^ 42) t' ∧ memop_post t t' m op a off buf r ∧
    (∀ h data, r = Some (h, data) → h = if permitted op (l1_state t m a) then hit else false).
Proof.
  intros Hnum Hinv Hc Hn Hb Hargs Hgo. pose proof (ti_ok t Hinv) as Hok.
  assert ((num =? 1) || (num =? 2) = true) as Hnum' by (by destruct Hnum as [->| ->]).
  pose proof (proj1 (oa_aligned _ _ _ _ _ _ Hargs)) as Ha. pose proof (oa_l1 _ _ _ _ _ _ Hargs) as Hm.
  destruct (permissible_ok m a op num t Hm Hok Ha (oa_writes _ _ _ _ _ _ Hargs)) as (t1 & H1 & S1 & V1).
  pose proof (stepped_quietly _ _ S1 V1) as Q1. pose proof (quietly_inv _ _ Q1 Hinv) as I1.
  pose proof (config_ok_cfg _ _ (qu_cfg _ _ Q1) Hc) as C1. pose proof (stepped_clock _ _ _ S1 Hn) as N1.
  destruct (qu_views _ _ Q1) as [E1 E2].
  unfold processMemOpFromTile. rewrite Hnum'. unfold mbind at 1, M_bind at 1, skip at 1, mret at 1, M_ret at 1.
  unfold mbind at 1, M_bind at 1. rewrite H1.
  destruct (permitted op (l1_state t m a)) eqn:Hp.
  - (* a hit in the L1 cache *)
    pose proof (permitted_present _ _ Hp) as Hpr.
    destruct (v1 t m a) as [[l d]|] eqn:Hl; [|by unfold l1_state in Hpr; rewrite Hl in Hpr].
    assert (memop_args t1 m op a off buf) as Hargs1.
    { apply (quietly_args t t1 m op a off buf Q1 Hok). apply op_args_memop; [done|done|]. left. by rewrite Hl. }
    destruct (perform_ok m op a off buf hit n l d t1)
      as (t2 & H2 & I2 & K2 & N2 & P2 & k & l' & k' & F1 & F2 & F3 & F4); try done; [lia|by rewrite E1|].
    eexists _, t2. split; [exact H2|]. split; [done|].
    split; [by eapply kept_trans; [apply quietly_kept|]|]. split; [intros th; pose proof (N2 th); lia|].
    split; [|by intros ? ? [= <- <-]].
    split; [by rewrite <- (l1_l2_state t m a l d)|]. split.
    { destruct P2 as (ps & Hps & F). exists ps. rewrite Hps, (qu_net _ _ Q1). by inversion F. }
    exists k, d. rewrite <- E2. split; [done|]. split; [done|]. by exists l', k'.
  - destruct (incrCycleCount_ok m CachePerfModel.ACCESS_CACHE_TAGS n t1) as (t2 & H2 & Q2 & N2);
      [apply S1|done|done|lia|by auto|].
    pose proof (quietly_trans _ _ _ Q1 Q2) as Q. pose proof (quietly_inv _ _ Q Hinv) as I2.
    destruct (l1_invalidate_ok m a t2 Hm (qu_ok _ _ Q2) Ha) as (t3 & H3 & S3 & W3 & V3).
    destruct (qu_views _ _ Q) as [V W].
    assert (v1 t m a = None ∨ l2_state t a ≠ CacheState.MODIFIED) as Hsafe.
    { destruct (v1 t m a) as [[l d]|] eqn:Hl; [right|by left].
      rewrite <- (l1_l2_state t m a l d) by done. intros Hmod. rewrite Hmod in Hp. by destruct op. }
    assert (∀ b, line_of t2 b = line_of t b) as L by (intros; by apply quietly_line).
    assert (tile_inv t3) as I3.
    { apply (l1_drop_inv t2 t3 m a I2 (st_ok _ _ S3) Hm Ha); [|done|done].
      unfold l2_state. by rewrite V, W. }
    assert (kept t t3) as K3 by (by eapply kept_trans; [apply quietly_kept|apply stepped_kept]).
    assert (v1 t3 m a = None) as Hno3 by (rewrite V3 by done; by rewrite decide_True).
    assert (l2_state t3 a = l2_state t a) as Hst by (unfold l2_state; by rewrite W3, W).
    assert (_net t3 = _net t) as Hnet
      by (destruct (stepped_fields _ _ S3) as (_ & -> & _); apply Q).
    assert (permitted op (l2_state t a) = true → v1 t m a = None) as Hno.
    { intros Hp2. destruct (v1 t m a) as [[l d]|] eqn:Hl; [|done].
      rewrite <- (l1_l2_state t m a l d) in Hp2 by done. congruence. }
    unfold mbind at 1, M_bind at 1. rewrite H2. rewrite bool_decide_true by by destruct Hgo as [?|[? _]].
    unfold mbind at 1, M_bind at 1. cbn. unfold mbind at 1, M_bind at 1. rewrite H3.
    assert (_tile_id t3 = _tile_id t) as Hid by (by injection (kp_cfg _ _ K3)).
    destruct (l2_stage_ok m op a off buf (n + 2 ^ 40) t3)
      as (r & t4 & H4 & I4 & K4 & N4 & P4 & R4); try done;
      [by apply (config_ok_cfg t); [apply K3|]|by eapply stepped_clock|lia| | |].
    { apply (writes_ok_kept t t3); [done|apply S3|done|done|by apply Hargs]. }
    { intros Hp3. rewrite Hst in Hp3. apply op_args_memop; [done| |].
      - destruct Hargs. split; try done; [by apply (shape_aligned t); [apply K3|]|by rewrite (kept_size t t3)|].
        apply (writes_ok_kept t t3); [done|apply S3|done|done|done].
      - right. unfold attributed. rewrite W3, W. destruct Hgo as [?|[_ Hgo]]; [done|]. apply Hgo. by apply Is_true_true. }
    exists r, t4. split; [exact H4|]. split; [done|]. split; [by eapply kept_trans|].
    split; [intros th; pose proof (N4 th); lia|].
    split; [|done]. apply (memop_post_from t t3); try done. intros b. by rewrite W3, W.
Qed.

Lemma processMemOp_mine num hit lock m op a off buf n t :
  num = 1 ∨ num = 2 →
  tile_inv t → config_ok t → clock_le n t → n + 2 ^ 42 < 2 ^ 64 → lock ≠ MemOp.UNLOCK →
  memop_args t m op a off buf →
  ∃ r t', processMemOpFromTile num hit m lock op a off buf (zlength buf) t = Ok (r, t') ∧
    tile_inv t' ∧ kept t t' ∧ clock_le (n + 2 ^ 42) t' ∧ memop_post t t' m op a off buf r ∧
    (∀ h data, r = Some (h, data) → h = if permitted op (l1_state t m a) then hit else false).
Proof.
  intros. eapply processMemOp_ok; try done; [by apply memop_args_op|by eapply memop_args_go].
Qed.

(** The prefix of an operation that misses in the L1 cache, up to the request to
    the L2 cache. *)
Lemma memop_fails num hit lock m op a off buf n t :
  num = 1 ∨ num = 2 → tile_inv t → config_ok t → clock_le n t → n + 2 ^ 42 < 2 ^ 64 →
  op_args t m op a off buf → permitted op (l1_state t m a) = false →
  (lock = MemOp.UNLOCK →
    processMemOpFromTile num hit m lock op a off buf (zlength buf) t = Fail (ELog "L1CacheCntlr::processMemOpFromTile")) ∧
  (lock ≠ MemOp.UNLOCK → permitted op (l2_state t a) = true → attributed t a →
    processMemOpFromTile num hit m lock op a off buf (zlength buf) t = Fail (EAssert "PrL2CacheLineInfo::setCachedLoc")).
Proof.
  intros Hnum Hinv Hc Hn Hb [Hm Hal Ho Hlen Hfit Hw] Hp. pose proof (ti_ok t Hinv) as Hok. pose proof (proj1 Hal) as Ha.
  assert ((num =? 1) || (num =? 2) = true) as Hnum' by (by destruct Hnum as [->| ->]).
  destruct (permissible_ok m a op num t Hm Hok Ha Hw) as (t1 & H1 & S1 & V1).
  pose proof (stepped_quietly _ _ S1 V1) as Q1. pose proof (stepped_clock _ _ _ S1 Hn) as N1.
  destruct (incrCycleCount_ok m CachePerfModel.ACCESS_CACHE_TAGS n t1) as (t2 & H2 & Q2 & N2);
    [apply S1|by apply (config_ok_cfg t); [apply Q1|]|done|lia|by auto|].
  split.
  { intros ->. unfold processMemOpFromTile. rewrite Hnum'. unfold mbind, M_bind. cbn. by rewrite H1, Hp, H2. }
  intros Hlock Hp2 (k & d & Hk & Hloc).
  pose proof (quietly_trans _ _ _ Q1 Q2) as Q. pose proof (quietly_inv _ _ Q Hinv) as I2. destruct (qu_views _ _ Q) as [V W].
  destruct (l1_invalidate_ok m a t2 Hm (qu_ok _ _ Q2) Ha) as (t3 & H3 & S3 & W3 & V3).
  assert (v1 t m a = None) as Hno.
  { destruct (v1 t m a) as [[l e]|] eqn:Hl; [|done]. rewrite <- (l1_l2_state t m a l e) in Hp2 by done. congruence. }
  assert (tile_inv t3) as I3.
  { apply (l1_drop_inv t2 t3 m a I2 (st_ok _ _ S3) Hm Ha); [left; by rewrite V|done|done]. }
  assert (kept t t3) as K3 by (by eapply kept_trans; [apply quietly_kept|apply stepped_kept]).
  unfold processMemOpFromTile. rewrite Hnum'. unfold mbind, M_bind. cbn. rewrite H1, Hp, H2, bool_decide_true by done. cbn. rewrite H3.
  rewrite (request_attributed_fails m op a k d t3); [done|done|done|..].
  - by apply (shape_aligned t); [apply K3|].
  - by apply (writes_ok_kept t t3); [|apply S3| | |].
  - by rewrite W3, W.
  - unfold l2_state in Hp2. by rewrite Hk in Hp2.
  - done.
  - rewrite V3 by done. by rewrite decide_True.
Qed.

(** *** Requests of the L1 caches and replies of the directory *)

Definition idle (t : Tile) : Prop := ShmemMsg._address (_outstanding_shmem_msg t) = INVALID_ADDRESS.

Lemma getHome_run a t :
  config_ok t → 0 ≤ a → ∃ h, AddressHomeLookup.getHome (_home_lookup t) a = Ok h ∧
    ∀ t', cfg t' = cfg t → getHome a t' = Ok (h, t').
Proof.
  intros Hc Ha. destruct (getHome_ok a t Hc Ha) as (h & Hh & _). exists h. split; [done|].
  intros t' Hcfg. unfold getHome, mbind, M_bind, gets, id.
  assert (_home_lookup t' = _home_lookup t) as -> by by injection Hcfg. by rewrite Hh.
Qed.

Definition to_home (ty : ShmemMsg.Type_) (t : Tile) (a : Z) (modeled : bool) : ShmemMsg.ShmemMsg :=
  ShmemMsg.make ty MemComponent.L2_CACHE MemComponent.DRAM_DIRECTORY (_tile_id t) a modeled.

(** An exclusive request: a shared copy is given up first, and the home is
    told of that before it gets the request. *)
Lemma processExReq_ok msg n t :
  let a := ShmemMsg._address msg in
  tile_inv t → config_ok t → clock_le n t → Cache.address_ok a →
  (∀ m, is_l1 m → v1 t m a = None) → l2_state t a ≠ CacheState.MODIFIED →
  ∃ h t', processExReqFromL1Cache msg t = Ok (tt, t') ∧
    AddressHomeLookup.getHome (_home_lookup t) a = Ok h ∧
    tile_inv t' ∧ gone t t' a ∧ kept t t' ∧ clock_le n t' ∧
    sent t t' ((match v2 t a with Some _ => [(h, to_home ShmemMsg.INV_REP t a (ShmemMsg._modeled msg))]
                | None => [] end) ++ [(h, to_home ShmemMsg.EX_REQ t a (ShmemMsg._modeled msg))]).
Proof.
  intros a Hinv Hc Hn Ha Hno1 Hst. pose proof (ti_ok t Hinv) as Hok.
  destruct (getHome_run a t Hc (proj1 Ha)) as (h & Hh & Hrun).
  destruct (l2_get_ok a t Hok Ha) as (t1 & H1 & S1 & V1). pose proof (stepped_quietly _ _ S1 V1) as Q1.
  destruct V1 as [V1 W1]. exists h.
  unfold processExReqFromL1Cache. fold a.
  unfold mbind at 1, M_bind at 1, gets, id. unfold mbind at 1, M_bind at 1. rewrite H1.
  destruct (v2 t a) as [[k d]|] eqn:Hk.
  - assert (getCState k = CacheState.SHARED) as Hs.
    { unfold l2_state in Hst. rewrite Hk in Hst. by destruct (ti_state t Hinv a k d Ha Hk). }
    rewrite Hs. change (bool_decide (CacheState.SHARED = CacheState.INVALID)) with false.
    change (bool_decide (CacheState.SHARED = CacheState.SHARED)) with true. cbn [orb when].
    unfold mbind at 1, M_bind at 1, assert, mret, M_ret.
    destruct (invalidateL2_ok a k d t1) as (t2 & H2 & S2 & V2 & W2); [apply S1|done|by rewrite W1|].
    destruct (reply_ok h (to_home ShmemMsg.INV_REP t a (ShmemMsg._modeled msg)) n t t1 t2)
      as (t3 & H3 & O3 & K3 & N3 & [V3 W3] & P3); [done|by eapply stepped_clock|done|done|].
    destruct (sendMsg_ok h (to_home ShmemMsg.EX_REQ t a (ShmemMsg._modeled msg)) t3)
      as (t4 & H4 & P4 & O4 & [V4 W4] & G4 & Sh4 & Out4 & Time4 & Cl4); [done|done|].
    destruct (stepped_fields _ _ S2) as (F1 & _).
    exists t4. split.
    { unfold mbind, M_bind. rewrite H2, Hrun by (rewrite F1; apply Q1). unfold to_home in *. rewrite H3.
      rewrite Hrun by apply K3. rewrite H4. done. }
    assert (gone t t4 a) as Hg.
    { split.
      - intros m b Hm Hb. rewrite V4, V3, V2, V1 by done. destruct (decide _) as [He|]; [|done].
        rewrite (v1_line t m b a) by done. by apply Hno1.
      - intros b Hb. rewrite W4, W3, W2, W1 by done. by rewrite !(stepped_line t t1). }
    split; [done|]. split; [by apply (gone_inv t t4 a)|]. split; [done|].
    split; [eapply kept_trans; [done|by split]|]. split; [intros th; rewrite Cl4; apply N3|].
    eapply sent_app; [|done|done]. by injection (kp_cfg _ _ K3).
  - change (getCState (fresh : PrL2.LineInfo)) with CacheState.INVALID.
    change (bool_decide (CacheState.INVALID = CacheState.INVALID)) with true.
    change (bool_decide (CacheState.INVALID = CacheState.SHARED)) with false. cbn [orb when].
    destruct (reply_ok h (to_home ShmemMsg.EX_REQ t a (ShmemMsg._modeled msg)) n t t1 t1)
      as (t3 & H3 & O3 & K3 & N3 & [V3 W3] & P3);
      [done|by eapply stepped_clock|by split; [apply S1|..]|done|].
    exists t3. split.
    { unfold mbind, M_bind, assert, skip, mret, M_ret. rewrite Hrun by apply Q1. unfold to_home in *.
      by rewrite H3. }
    assert (gone t t3 a) as Hg.
    { split.
      - intros m b Hm Hb. rewrite V3, V1 by done. destruct (decide _) as [He|]; [|done].
        rewrite (v1_line t m b a) by done. by apply Hno1.
      - intros b Hb. rewrite W3, W1. destruct (decide _) as [He|]; [|done]. by rewrite (v2_line t b a He). }
    split; [done|]. split; [by apply (gone_inv t t3 a)|]. split_and!; done.
Qed.

(** The invariant only speaks of the caches. *)
Lemma tile_inv_caches t t' :
  _l1_icache t' = _l1_icache t → _l1_dcache t' = _l1_dcache t → _l2_cache t' = _l2_cache t →
  _cache_line_size t' = _cache_line_size t → tile_inv t → tile_inv t'.
Proof.
  intros Hi Hd H2 Hs [[] I1 I2 I3 I4]. unfold v1, v2, getL1 in *.
  split; [split|..]; unfold v1, v2, getL1; rewrite ?Hi, ?Hd, ?H2, ?Hs; done.
Qed.

(** The tile with a request outstanding. *)
Definition with_request (t : Tile) (a : Z) (m : MemComponent.Type_) : Tile :=
  t <| _outstanding_shmem_msg :=
      (_outstanding_shmem_msg t) <| ShmemMsg._address := a |>
        <| ShmemMsg._sender_mem_component := m |> |>
    <| _outstanding_shmem_msg_time :=
      ShmemPerfModel.getCycleCount (_thread t) (_shmem_perf_model t) |>.

Lemma handleMsgFromL1Cache_run msg t :
  ShmemMsg._data_buf msg = None → ShmemMsg._data_length msg = 0 → idle t →
  handleMsgFromL1Cache msg t =
  match ShmemMsg._msg_type msg with
  | ShmemMsg.EX_REQ => processExReqFromL1Cache msg
  | ShmemMsg.SH_REQ => processShReqFromL1Cache msg
  | _ => fail (ELog "Unrecognized shmem msg type")
  end (with_request t (ShmemMsg._address msg) (ShmemMsg._sender_mem_component msg)).
Proof.
  intros Hb Hl Hi. unfold handleMsgFromL1Cache, assert. rewrite Hb, Hl. cbn.
  unfold mbind, M_bind, gets, id, mret, M_ret. rewrite Hi. cbn. done.
Qed.

Definition request_msgs (t : Tile) (h : Z) (msg : ShmemMsg.ShmemMsg) : list (Z * ShmemMsg.ShmemMsg) :=
  let a := ShmemMsg._address msg in
  let md := ShmemMsg._modeled msg in
  match ShmemMsg._msg_type msg with
  | ShmemMsg.EX_REQ =>
    match v2 t a with Some _ => [(h, to_home ShmemMsg.INV_REP t a md)] | None => [] end ++
    [(h, to_home ShmemMsg.EX_REQ t a md)]
  | _ => [(h, to_home ShmemMsg.SH_REQ t a md)]
  end.

(** A request of an L1 cache: it becomes the outstanding one, no cache of the
    tile holds the line, and the home gets the request. *)
Lemma handleMsgFromL1Cache_ok msg n t :
  let a := ShmemMsg._address msg in
  let m := ShmemMsg._sender_mem_component msg in
  tile_inv t → config_ok t → clock_le n t → idle t → Cache.address_ok a →
  ShmemMsg._data_buf msg = None → ShmemMsg._data_length msg = 0 →
  (∀ m, is_l1 m → v1 t m a = None) →
  (ShmemMsg._msg_type msg = ShmemMsg.EX_REQ ∧ l2_state t a ≠ CacheState.MODIFIED) ∨
  (ShmemMsg._msg_type msg = ShmemMsg.SH_REQ ∧ v2 t a = None) →
  ∃ h t', handleMsgFromL1Cache msg t = Ok (tt, t') ∧
    AddressHomeLookup.getHome (_home_lookup t) a = Ok h ∧
    tile_inv t' ∧ gone t t' a ∧ kept (with_request t a m) t' ∧ clock_le n t' ∧
    sent t t' (request_msgs t h msg).
Proof.
  intros a m Hinv Hc Hn Hidle Ha Hbuf Hlen Hno Hty. rewrite handleMsgFromL1Cache_run by done. fold a m.
  set (t0 := with_request t a m).
  assert (tile_inv t0) as Hinv0 by by apply (tile_inv_caches t).
  assert (∀ t', gone t0 t' a → gone t t' a) as Hg by done.
  assert (∀ t' l, sent t0 t' l → sent t t' l) as Hs by done.
  unfold request_msgs. fold a. destruct Hty as [[-> Hst]|[-> Hv]].
  - destruct (processExReq_ok msg n t0) as (h & t' & H1 & H2 & H3 & H4 & H5 & H6 & H7); try done.
    { by apply (config_ok_cfg t). }
    exists h, t'. by split_and!.
  - destruct (getHome_run a t0) as (h & Hh & Hrun); [by apply (config_ok_cfg t)|apply Ha|].
    destruct (reply_ok h (to_home ShmemMsg.SH_REQ t0 a (ShmemMsg._modeled msg)) n t0 t0 t0)
      as (t3 & H3 & O3 & K3 & N3 & [V3 W3] & P3); [by split; [apply Hinv0|..]|done|by split; [apply Hinv0|..]|done|].
    exists h, t3. split.
    { unfold processShReqFromL1Cache, mbind, M_bind, gets, id. fold a. rewrite Hrun by done. exact H3. }
    assert (gone t t3 a) as Hgone.
    { split.
      - intros m' b Hm' Hb. rewrite V3 by done. change (v1 t0 m' b) with (v1 t m' b).
        destruct (decide _) as [He|]; [|done]. rewrite (v1_line t m' b a) by (done || apply Hinv). by apply Hno.
      - intros b Hb. rewrite W3. change (v2 t0 b) with (v2 t b).
        destruct (decide _) as [He|]; [|done]. by rewrite (v2_line t b a He). }
    split; [done|]. split; [by apply (gone_inv t t3 a)|]. by split_and!.
Qed.

(** The state granted by a reply. *)
Definition granted (ty : ShmemMsg.Type_) : CacheState.Type_ :=
  match ty with ShmemMsg.EX_REP => CacheState.MODIFIED | _ => CacheState.SHARED end.

Lemma completeRequest_ok msg n t :
  caches_ok t → config_ok t → clock_le n t → n + 2 ^ 40 < 2 ^ 64 →
  0 ≤ _outstanding_shmem_msg_time t ≤ ShmemPerfModel.getCycleCount (_thread t) (_shmem_perf_model t) →
  ∃ t', completeRequest msg t = Ok (tt, t') ∧ idle t' ∧ cfg t' = cfg t ∧ _net t' = _net t ∧
    _l1_icache t' = _l1_icache t ∧ _l1_dcache t' = _l1_dcache t ∧ _l2_cache t' = _l2_cache t ∧
    clock_le (n + 2 ^ 40) t' ∧
    ShmemPerfModel._app_cycle_count (_shmem_perf_model t') =
    ShmemPerfModel.getCycleCount (_thread t') (_shmem_perf_model t').
Proof.
  intros Hok Hc Hn Hb Ht. unfold completeRequest, mbind, M_bind, gets, id.
  rewrite (proj2 (Z.leb_le _ _)) by lia. cbn.
  pose proof (cf_l2 t Hc CachePerfModel.ACCESS_CACHE_DATA_AND_TAGS) as Hlat.
  set (lat := CachePerfModel.getLatency _ _) in Hlat.
  pose proof (Hn ShmemPerfModel.APP_THREAD) as Happ. pose proof (Hn ShmemPerfModel.SIM_THREAD) as Hsim.
  unfold incrCycleCount, clock_incr, when, skip, mret, M_ret, modify, mbind, M_bind, gets, lift, id.
  destruct (negb (ShmemMsg._modeled msg)), (_thread t) eqn:Eth; cbn in *;
    rewrite ?Eth; fold lat; rewrite ShmemPerfModel.incrCycleCount_spec by (cbn in *; lia);
    rewrite (proj2 (Z.ltb_lt _ _)) by (cbn in *; lia); cbn in *; rewrite ?Eth; cbn;
    (eexists; split; [done|]); (split_and!; try done);
    try (by unfold cfg; cbn; rewrite ?Eth);
    try (intros []; cbn in *; lia).
Qed.

(** Computations that do not touch the clocks. *)
Definition keeps_clock {A} (m : M Tile A) : Prop :=
  ∀ t r t', m t = Ok (r, t') → _shmem_perf_model t' = _shmem_perf_model t.

Lemma keeps_bind {A B} (m : M Tile A) (f : A → M Tile B) :
  keeps_clock m → (∀ a, keeps_clock (f a)) → keeps_clock (m ≫= f).
Proof.
  intros Hm Hf t r t' (a & t1 & H1 & H2)%M_bind_Ok. rewrite (Hf _ _ _ _ H2). by apply (Hm _ _ _ H1).
Qed.
Lemma keeps_ret {A} (a : A) : keeps_clock (mret a).
Proof. by intros t r t' [-> ->]%mret_Ok. Qed.
Lemma keeps_skip : keeps_clock skip.
Proof. apply keeps_ret. Qed.
Lemma keeps_gets {A} (f : Tile → A) : keeps_clock (gets f).
Proof. by intros t r t' [-> ->]%gets_Ok. Qed.
Lemma keeps_assert b site : keeps_clock (assert b site).
Proof. by intros t r t' [_ ->]%assert_Ok. Qed.
Lemma keeps_fail {A} e : keeps_clock (fail e : M Tile A).
Proof. by intros t r t' [=]. Qed.
Lemma keeps_lift {A} (x : res A) : keeps_clock (lift x).
Proof. by intros t r t' [_ ->]%lift_Ok. Qed.
Lemma keeps_l1 {A} mc (m : M _ A) : keeps_clock (l1 mc m).
Proof.
  intros t r t'. unfold l1. destruct mc; try (intros [=]; done);
    by intros (c & _ & ->)%zoom_Ok.
Qed.
Lemma keeps_l2 {A} (m : M _ A) : keeps_clock (l2 m).
Proof. by intros t r t' (c & _ & ->)%zoom_Ok. Qed.
Lemma keeps_when b m : keeps_clock m → keeps_clock (when b m).
Proof. intros Hm. destruct b; [done|apply keeps_skip]. Qed.
Lemma keeps_modify_net f : keeps_clock (modify (λ t, t <| _net := f t |>)).
Proof. by intros t r t' ->%modify_Ok. Qed.
Hint Resolve keeps_ret keeps_skip keeps_gets keeps_assert keeps_fail keeps_lift keeps_l1 keeps_l2
  keeps_modify_net : graphite.

Lemma hierarchy_clock a cst fill : keeps_clock (insertCacheLineInHierarchy a cst fill).
Proof.
  unfold insertCacheLineInHierarchy, insertCacheLine, insertCacheLineInL1, l1_insertCacheLine,
    invalidateCacheLineInL1, l1_invalidateCacheLine, getHome, sendMsg.
  repeat first [apply keeps_bind; [|intros] | apply keeps_when | case_match | by auto with graphite].
Qed.

(** A reply fills the line in both levels in the granted state, closes the
    request and advances the clock of the application. *)
Lemma handleReply_ok sender msg fill n t :
  let a := ShmemMsg._address msg in
  let m := ShmemMsg._sender_mem_component (_outstanding_shmem_msg t) in
  let cst := granted (ShmemMsg._msg_type msg) in
  tile_inv t → config_ok t → clock_le n t → n + 2 ^ 40 < 2 ^ 64 → is_l1 m → Cache.address_ok a →
  ShmemMsg._msg_type msg = ShmemMsg.EX_REP ∨ ShmemMsg._msg_type msg = ShmemMsg.SH_REP →
  ShmemMsg._address (_outstanding_shmem_msg t) = a → ShmemMsg._data_buf msg = Some fill →
  zlength fill = _cache_line_size t → v2 t a = None →
  0 ≤ _outstanding_shmem_msg_time t ≤ ShmemPerfModel.getCycleCount (_thread t) (_shmem_perf_model t) →
  ∃ e2 e1 t', handleMsgFromDramDirectory sender msg t = Ok (tt, t') ∧
    tile_inv t' ∧ idle t' ∧ cfg t' = cfg t ∧ clock_le (n + 2 ^ 40) t' ∧
    filled t t' a m cst fill e2 e1 ∧
    ShmemPerfModel._app_cycle_count (_shmem_perf_model t') =
      ShmemPerfModel.getCycleCount (_thread t') (_shmem_perf_model t') ∧
    match e2 with
    | Some x => ∃ k d h, v2 t x = Some (k, d) ∧ Cache.aligned (_l2_cache t) x ∧
        AddressHomeLookup.getHome (_home_lookup t) x = Ok h ∧ sent t t' [(h, eviction_msg t x k d)]
    | None => sent t t' []
    end.
Proof.
  intros a m cst Hinv Hc Hn Hb Hm Ha Hty Hout Hdata Hfill Hno Htime.
  assert (cst = CacheState.SHARED ∨ cst = CacheState.MODIFIED) as Hcst
    by (subst cst; destruct Hty as [->| ->]; cbn; auto).
  destruct (insertCacheLineInHierarchy_ok a cst fill n t)
    as (e2 & e1 & t1 & H1 & I1 & K1 & N1 & F1 & P1); try done.
  assert (_shmem_perf_model t1 = _shmem_perf_model t ∧ _thread t1 = _thread t) as [Hp Hth].
  { split; [by eapply hierarchy_clock|by injection (kp_cfg _ _ K1)]. }
  destruct (completeRequest_ok msg n t1) as (t2 & H2 & D2 & C2 & Net2 & E1 & E2 & E3 & N2 & A2);
    [apply I1|by apply (config_ok_cfg t); [apply K1|]|done|done|by rewrite Hp, Hth, (kp_time _ _ K1)|].
  exists e2, e1, t2. split.
  { unfold handleMsgFromDramDirectory, processExRepFromDramDirectory, processShRepFromDramDirectory.
    subst cst. destruct Hty as [Hty|Hty]; rewrite Hty in *; cbn in H1;
      rewrite Hdata; fold a; unfold mbind, M_bind; by rewrite H1. }
  assert (∀ m' b, v1 t2 m' b = v1 t1 m' b) as V by (intros; unfold v1, getL1; by rewrite E1, E2).
  assert (∀ b, v2 t2 b = v2 t1 b) as W by (intros; unfold v2; by rewrite E3).
  split; [apply (tile_inv_caches t1); [done..| |done]; by injection C2|].
  split; [done|]. split; [by rewrite C2; apply K1|]. split; [done|]. split.
  { destruct F1 as [F1 F2 F3]. split; [intros; by rewrite V, F1|intros; by rewrite W, F2|done]. }
  split; [done|]. unfold sent in *. by rewrite Net2.
Qed.

End TileProofs.
