(* ===== verification/TileTheorems.v ===== *)
(** * TileTheorems: the properties of the private caches of a tile (MSI)

    The events of a tile as a transition system over the handlers of
    MsiCaches.v, its safety, and the behaviour of each handler. *)
From S2P Require Import Prelude Utils CacheSet Cache Shmem MsiCaches MsiCachesProofs.
Import Tile TileProofs.

(** ** The transition system of a tile *)

Inductive event : Type :=
  (** The core's operation (first or second access of its loop). *)
  | EvMemOp (num : Z) (hit : bool) (m : MemComponent.Type_) (lock : MemOp.lock_signal_t)
            (op : MemOp.mem_op_t) (a off : Z) (buf : list Z)
  (** A request of an L1 cache reaches the L2 cache controller. *)
  | EvFromL1 (msg : ShmemMsg.ShmemMsg)
  (** A message of the directory reaches the L2 cache controller. *)
  | EvFromDirectory (sender : Z) (msg : ShmemMsg.ShmemMsg)
  (** The application or the simulation thread goes on. *)
  | EvThread (th : ShmemPerfModel.ThreadType).

Definition handle (e : event) : M Tile unit :=
  match e with
  | EvMemOp num hit m lock op a off buf =>
    _ ← processMemOpFromTile num hit m lock op a off buf (zlength buf) ; skip
  | EvFromL1 msg => handleMsgFromL1Cache msg
  | EvFromDirectory sender msg => handleMsgFromDramDirectory sender msg
  | EvThread th => modify (λ t, t <| _thread := th |>)
  end.

(** What the rest of the system guarantees of an event: operations are inside
    a line that the other L1 cache does not hold; a tile has one request at a
    time; the directory invalidates shared lines and flushes or writes back
    modified ones; a reply answers the outstanding request with a full line. *)
Definition enabled (t : Tile) (e : event) : Prop :=
  match e with
  | EvMemOp num _ m lock op a off buf =>
    (num = 1 ∨ num = 2) ∧ lock ≠ MemOp.UNLOCK ∧ memop_args t m op a off buf
  | EvFromL1 msg =>
    let a := ShmemMsg._address msg in
    idle t ∧ Cache.address_ok a ∧ ShmemMsg._data_buf msg = None ∧ ShmemMsg._data_length msg = 0 ∧
    (∀ m, is_l1 m → v1 t m a = None) ∧
    ((ShmemMsg._msg_type msg = ShmemMsg.EX_REQ ∧ l2_state t a ≠ CacheState.MODIFIED) ∨
     (ShmemMsg._msg_type msg = ShmemMsg.SH_REQ ∧ v2 t a = None))
  | EvFromDirectory _ msg =>
    let a := ShmemMsg._address msg in
    Cache.aligned (_l2_cache t) a ∧
    match ShmemMsg._msg_type msg with
    | ShmemMsg.INV_REQ => ∀ k d, v2 t a = Some (k, d) → getCState k = CacheState.SHARED
    | ShmemMsg.FLUSH_REQ | ShmemMsg.WB_REQ =>
      ∀ k d, v2 t a = Some (k, d) → getCState k = CacheState.MODIFIED
    | ShmemMsg.EX_REP | ShmemMsg.SH_REP =>
      is_l1 (ShmemMsg._sender_mem_component (_outstanding_shmem_msg t)) ∧
      ShmemMsg._address (_outstanding_shmem_msg t) = a ∧ v2 t a = None ∧
      (∃ fill, ShmemMsg._data_buf msg = Some fill ∧ zlength fill = _cache_line_size t) ∧
      0 ≤ _outstanding_shmem_msg_time t ≤
        ShmemPerfModel.getCycleCount (_thread t) (_shmem_perf_model t)
    | _ => False
    end
  | EvThread _ => True
  end.

(** A tile with empty caches. *)
Record initial (t : Tile) : Prop := {
  in_ok : caches_ok t;
  in_config : config_ok t;
  in_clock : clock_le 0 t;
  in_l1 m a : is_l1 m → Cache.address_ok a → v1 t m a = None;
  in_l2 a : Cache.address_ok a → v2 t a = None
}.

(** The states after [k] events. *)
Inductive reachable : Z → Tile → Prop :=
  | reachable_initial t : initial t → reachable 0 t
  | reachable_step k t e t' :
      reachable k t → enabled t e → handle e t = Ok (tt, t') → reachable (k + 1) t'.

Record safe (k : Z) (t : Tile) : Prop := {
  sf_inv : tile_inv t;
  sf_config : config_ok t;
  sf_clock : clock_le (k * 2 ^ 42) t
}.

Lemma clock_le_weaken n n' t : n ≤ n' → clock_le n t → clock_le n' t.
Proof. intros H Hc th. specialize (Hc th). lia. Qed.

Lemma initial_safe t : initial t → safe 0 t.
Proof.
  intros []. split; [|done|done]. split; [done|..].
  - intros m a l d Hm Ha. by rewrite in_l3.
  - intros a k d Ha. by rewrite in_l4.
  - intros a k d Ha. by rewrite in_l4.
  - intros a k d Ha. by rewrite in_l4.
Qed.

Lemma safe_of_kept k t t' :
  config_ok t → cfg t' = cfg t → tile_inv t' → clock_le (k * 2 ^ 42 + 2 ^ 42) t' → safe (k + 1) t'.
Proof.
  intros Hc Hcfg Hi Hn. split; [done|by apply (config_ok_cfg t)|].
  by replace ((k + 1) * 2 ^ 42) with (k * 2 ^ 42 + 2 ^ 42) by lia.
Qed.

(** Every enabled event is handled without a failed assertion and leads to a
    safe state. *)
Lemma handle_safe k t e :
  safe k t → enabled t e → 0 ≤ k < 2 ^ 21 → ∃ t', handle e t = Ok (tt, t') ∧ safe (k + 1) t'.
Proof.
  intros [Hinv Hc Hn] He Hk.
  assert (∀ n t', clock_le (k * 2 ^ 42 + n) t' → n ≤ 2 ^ 42 → clock_le (k * 2 ^ 42 + 2 ^ 42) t') as Hw
    by (intros n t' Hcl Hle; apply (clock_le_weaken (k * 2 ^ 42 + n)); [lia|done]).
  destruct e as [num hit m lock op a off buf|msg|sender msg|th].
  - destruct He as (Hnum & Hlock & Hargs).
    destruct (processMemOp_mine num hit lock m op a off buf (k * 2 ^ 42) t)
      as (r & t' & H1 & H2 & H3 & H4 & _); try done; [lia|].
    exists t'. split; [by unfold handle, mbind, M_bind; rewrite H1|].
    apply (safe_of_kept k t); [done|apply H3|done|done].
  - destruct He as (H1 & H2 & H3 & H4 & H5 & H6).
    destruct (handleMsgFromL1Cache_ok msg (k * 2 ^ 42) t) as (h & t' & R & _ & I & _ & K & N & _); try done.
    exists t'. split; [done|]. apply (safe_of_kept k t); [done|apply K|done|].
    apply (Hw 0); [by rewrite Z.add_0_r|lia].
  - destruct He as [Ha He]. cbn [handle]. unfold handleMsgFromDramDirectory.
    destruct (ShmemMsg._msg_type msg) eqn:Hty; try done.
    4,5: destruct He as (Hm & Hout & Hno & (fill & Hf & Hfl) & Ht);
      destruct (handleReply_ok sender msg fill (k * 2 ^ 42) t)
        as (e2 & e1 & t' & R & I & _ & Hcfg & N & _); try done; try lia; try (by apply Ha);
      try (by rewrite Hty; auto);
      unfold handleMsgFromDramDirectory in R; rewrite Hty in R; exists t'; (split; [done|]);
      apply (safe_of_kept k t); try done; by apply (Hw (2 ^ 40)).
    + destruct (processInvReq_ok sender msg (k * 2 ^ 42) t) as (t' & R & I & _ & K & N & _);
        try done; [lia|apply Ha|].
      exists t'. split; [done|]. apply (safe_of_kept k t); [done|apply K|done|by apply (Hw (2 ^ 41))].
    + destruct (processFlushReq_ok sender msg (k * 2 ^ 42) t) as (t' & R & I & _ & K & N & _);
        try done; [lia|].
      exists t'. split; [done|]. apply (safe_of_kept k t); [done|apply K|done|by apply (Hw (2 ^ 41))].
    + destruct (processWbReq_ok sender msg (k * 2 ^ 42) t) as (t' & R & I & _ & K & N & _);
        try done; [lia|].
      exists t'. split; [done|]. apply (safe_of_kept k t); [done|apply K|done|by apply (Hw (2 ^ 41))].
  - eexists. split; [done|]. split; [by apply (tile_inv_caches t)| |].
    + by destruct Hc.
    + apply (clock_le_weaken (k * 2 ^ 42)); [lia|]. done.
Qed.

Lemma reachable_safe k t : reachable k t → 0 ≤ k ∧ (k ≤ 2 ^ 21 → safe k t).
Proof.
  induction 1 as [t Hi|k t e t' _ [Hk IH] He Hr]; [split; [lia|]; intros _; by apply initial_safe|].
  split; [lia|]. intros Hb. destruct (handle_safe k t e) as (t1 & Hr1 & Hs); [apply IH; lia|done|lia|].
  rewrite Hr in Hr1. by injection Hr1 as <-.
Qed.

(** ** A concrete tile

    Tile 0 of a one-tile system with caches of 1 kB, 4 ways and lines of 64
    bytes, all of one tile's data at home. *)

Definition sample_perf : CachePerfModel.CachePerfModel :=
  CachePerfModel.mkCachePerfModel CachePerfModel.CACHE_PERF_MODEL_PARALLEL 3 1 true.

Definition sample_tile : Tile :=
  mkTile 0 true 64 (AddressHomeLookup.mkAddressHomeLookup 6 [0] 1)
    (MissTypes.mkMissTypes true true true false)
    (Cache.make Cache.INSTRUCTION_CACHE Cache.UNDEFINED_WRITE_POLICY 1 4 64 Replacement.LRU true)
    (Cache.make Cache.DATA_CACHE Cache.WRITE_THROUGH 1 4 64 Replacement.LRU true)
    (Cache.make Cache.UNIFIED_CACHE Cache.WRITE_BACK 1 4 64 Replacement.LRU true)
    sample_perf sample_perf sample_perf ShmemMsg.empty 0 ShmemPerfModel.make
    ShmemPerfModel.APP_THREAD [].

Lemma sample_initial : initial sample_tile.
Proof.
  assert (Cache.geometry_ok 1 4 64) as Hg.
  { split; [lia|]. split; [exists 6; lia|]. split; [lia|]. vm_compute. done. }
  split.
  - split; [|by apply (Cache.make_ok (L := PrL2.LineInfo))| |done]; intros m [->| ->];
      first [by apply (Cache.make_ok (L := LineInfo.LineInfo))|done].
  - split; try done; intros []; done.
  - intros []; done.
  - intros m a [->| ->] Ha; by apply (Cache.make_ok (L := LineInfo.LineInfo)).
  - intros a Ha. by apply (Cache.make_ok (L := PrL2.LineInfo)).
Qed.

Definition after (e : event) (t : Tile) : Tile :=
  match handle e t with Ok (_, t') => t' | Fail _ => t end.

Definition op_event (m : MemComponent.Type_) (op : MemOp.mem_op_t) (num : Z) (buf : list Z) : event :=
  EvMemOp num true m MemOp.NONE op 64 8 buf.
Definition request_event (ty : ShmemMsg.Type_) (m : MemComponent.Type_) : event :=
  EvFromL1 (ShmemMsg.make ty m MemComponent.L2_CACHE 0 64 true).
Definition reply_event (ty : ShmemMsg.Type_) : event :=
  EvFromDirectory 0 (ShmemMsg.make_data ty MemComponent.DRAM_DIRECTORY MemComponent.L2_CACHE 0 64
                       (Some (replicate 64 7)) 64 true).
Definition directory_event (ty : ShmemMsg.Type_) : event :=
  EvFromDirectory 0 (ShmemMsg.make ty MemComponent.DRAM_DIRECTORY MemComponent.L2_CACHE 0 64 true).

(** A miss of [op] in the L1 cache [m], sent to the directory and answered. *)
Definition missed (m : MemComponent.Type_) (op : MemOp.mem_op_t) : Tile :=
  after (op_event m op 1 [1; 2; 3]) sample_tile.
Definition requested (m : MemComponent.Type_) (op : MemOp.mem_op_t) : Tile :=
  after (request_event (getShmemMsgType op) m) (missed m op).
Definition replied (m : MemComponent.Type_) (op : MemOp.mem_op_t) : Tile :=
  after (reply_event (if bool_decide (op = MemOp.READ) then ShmemMsg.SH_REP else ShmemMsg.EX_REP))
    (requested m op).

Definition DCACHE : MemComponent.Type_ := MemComponent.L1_DCACHE.

Lemma run_enabled k t e :
  reachable k t → enabled t e → handle e t = Ok (tt, after e t) → reachable (k + 1) (after e t).
Proof. intros H1 H2 H3. exact (reachable_step k t e _ H1 H2 H3). Qed.

Lemma sample_aligned t : Cache._log_line_size (_l2_cache t) = 6 → Cache.aligned (_l2_cache t) 64.
Proof.
  intros E. split; [done|]. unfold Cache.getAddressFromTag, Cache.getTag_of. by rewrite E.
Qed.

Lemma sample_memop t op :
  Cache._log_line_size (_l2_cache t) = 6 → _cache_line_size t = 64 →
  Cache._cache_category (_l1_dcache t) = Cache.DATA_CACHE →
  Cache._cache_category (_l2_cache t) = Cache.UNIFIED_CACHE → mine t DCACHE 64 →
  memop_args t DCACHE op 64 8 [1; 2; 3].
Proof.
  intros E1 E2 E3 E4 Hm. split; try done; [by right|by apply sample_aligned|by rewrite E2|].
  intros _. change (getL1 DCACHE t) with (_l1_dcache t). by rewrite E3, E4.
Qed.

(** The states of the run for a read and for a write. *)
Lemma sample_run op : op = MemOp.READ ∨ op = MemOp.WRITE →
  reachable 1 (missed DCACHE op) ∧ reachable 2 (requested DCACHE op) ∧ reachable 3 (replied DCACHE op).
Proof.
  intros Hop. assert (reachable 1 (missed DCACHE op)) as H1.
  { apply (run_enabled 0 sample_tile).
    - constructor. apply sample_initial.
    - split; [by left|]. split; [done|]. by apply sample_memop.
    - destruct Hop as [->| ->]; by vm_compute. }
  assert (reachable 2 (requested DCACHE op)) as H2.
  { apply (run_enabled 1 (missed DCACHE op)); [done| |destruct Hop as [->| ->]; by vm_compute].
    assert (v2 (missed DCACHE op) 64 = None ∧ idle (missed DCACHE op) ∧
      ∀ m, is_l1 m → v1 (missed DCACHE op) m 64 = None) as (E1 & E2 & E3).
    { destruct Hop as [->| ->]; (split; [by vm_compute|]); (split; [by vm_compute|]);
        intros m [->| ->]; by vm_compute. }
    split; [exact E2|]. split; [done|]. split; [done|]. split; [done|]. split; [exact E3|].
    destruct Hop as [->| ->]; [by right|left]. split; [done|].
    change (l2_state (missed DCACHE MemOp.WRITE) 64 ≠ CacheState.MODIFIED). unfold l2_state. by rewrite E1. }
  assert (reachable 3 (replied DCACHE op)) as H3; [|done].
  apply (run_enabled 2 (requested DCACHE op)); [done| |destruct Hop as [->| ->]; by vm_compute].
  assert (v2 (requested DCACHE op) 64 = None ∧
    ShmemMsg._sender_mem_component (_outstanding_shmem_msg (requested DCACHE op)) = DCACHE ∧
    ShmemMsg._address (_outstanding_shmem_msg (requested DCACHE op)) = 64 ∧
    _cache_line_size (requested DCACHE op) = 64 ∧ _outstanding_shmem_msg_time (requested DCACHE op) = 2 ∧
    ShmemPerfModel.getCycleCount (_thread (requested DCACHE op)) (_shmem_perf_model (requested DCACHE op)) = 2 ∧
    Cache._log_line_size (_l2_cache (requested DCACHE op)) = 6) as (E1 & E2 & E3 & E4 & E5 & E6 & E7)
    by (destruct Hop as [->| ->]; by vm_compute).
  split; [by apply sample_aligned|].
  assert (is_l1 (ShmemMsg._sender_mem_component (_outstanding_shmem_msg (requested DCACHE op)))) as E8
    by (rewrite E2; by right).
  assert (∃ fill, Some (replicate 64 7) = Some fill ∧ zlength fill = _cache_line_size (requested DCACHE op)) as E9
    by (rewrite E4; by eexists).
  destruct Hop as [->| ->]; cbn; rewrite E5, E6; (split_and!; [exact E8|exact E3|exact E1|exact E9|lia..]).
Qed.

(** ** Properties *)

(** C1: Safety of a tile under the MSI protocol: from empty caches, after any
    sequence of up to 2^21 core operations, L1 requests, directory requests and
    replies that respects the interface of the tile, the L2 cache includes the
    L1 caches with equal bytes and states, and the next event is handled without
    any assertion of the controllers failing. *)
Theorem tile_safe k t :
  reachable k t → k < 2 ^ 21 →
  tile_inv t ∧ ∀ e, enabled t e → ∃ t', handle e t = Ok (tt, t') ∧ tile_inv t'.
Proof.
  intros Hr Hk. destruct (reachable_safe k t Hr) as [H0 Hs]. specialize (Hs ltac:(lia)).
  split; [apply Hs|]. intros e He. destruct (handle_safe k t e Hs He) as (t' & H1 & H2); [lia|].
  exists t'. split; [done|apply H2].
Qed.
Lemma tile_safe_witness : tile_inv (replied DCACHE MemOp.WRITE) ∧
  ∃ t', handle (directory_event ShmemMsg.FLUSH_REQ) (replied DCACHE MemOp.WRITE) = Ok (tt, t') ∧ tile_inv t'.
Proof.
  destruct (sample_run MemOp.WRITE (or_intror eq_refl)) as (_ & _ & Hr).
  destruct (tile_safe 3 _ Hr ltac:(lia)) as [Hi He]. split; [exact Hi|].
  apply He. split; [by apply sample_aligned|]. cbn. intros k d Hk. vm_compute in Hk. by injection Hk as <- _.
Defined.

(** C7: An operation of the core inside a line, on any state of the tile's
    caches.  If the L1 state permits it, or the L2 state does and no L1 cache is
    named by the L2 line, it completes, returning the requested bytes of the line
    for a read and overwriting exactly the given bytes in the L1 and L2 caches for
    a write, without any message.  If neither state permits it, it waits: its L1
    copy is dropped, the L2 cache is unchanged and exactly one request of the right
    type goes to the L2 controller.  It aborts in the two cases left: an unlocking
    access must hit in the L1 cache, and a line of the L2 cache that names an L1
    cache already, which misses, is refused by [setCachedLoc]. *)
Theorem mem_op_correct num hit lock m op a off buf n t :
  num = 1 ∨ num = 2 →
  tile_inv t → config_ok t → clock_le n t → n + 2 ^ 42 < 2 ^ 64 →
  op_args t m op a off buf →
  let l1_hit := permitted op (l1_state t m a) in
  let l2_hit := permitted op (l2_state t a) in
  match processMemOpFromTile num hit m lock op a off buf (zlength buf) t with
  | Ok (r, t') =>
    tile_inv t' ∧ memop_post t t' m op a off buf r ∧
    (∀ h data, r = Some (h, data) → h = if l1_hit then hit else false) ∧
    (l1_hit ∨ lock ≠ MemOp.UNLOCK ∧ (l2_hit → ¬ attributed t a))
  | Fail e =>
    l1_hit = false ∧
    (lock = MemOp.UNLOCK ∧ e = ELog "L1CacheCntlr::processMemOpFromTile" ∨
     lock ≠ MemOp.UNLOCK ∧ l2_hit ∧ attributed t a ∧ e = EAssert "PrL2CacheLineInfo::setCachedLoc")
  end.
Proof.
  intros H1 H2 H3 H4 H5 H6 l1_hit l2_hit.
  destruct (decide (l1_hit ∨ lock ≠ MemOp.UNLOCK ∧ (l2_hit → ¬ attributed t a))) as [Hgo|Hstop].
  - destruct (processMemOp_ok num hit lock m op a off buf n t) as (r & t' & R1 & R2 & _ & _ & R3 & R4); try done.
    rewrite R1. by split_and!.
  - destruct (memop_fails num hit lock m op a off buf n t) as [F1 F2]; try done.
    { fold l1_hit. destruct l1_hit; [|done]. destruct Hstop. by left. }
    assert (l1_hit = false) as Hl1 by (destruct l1_hit; [destruct Hstop; by left|done]).
    destruct (decide (lock = MemOp.UNLOCK)) as [Hu|Hu]; [rewrite F1 by done; split; [done|by left]|].
    destruct (decide (l2_hit ∧ attributed t a)) as [[Hh Ha]|Hn]; [rewrite F2 by (done || by apply Is_true_true); split; [done|by right]|].
    destruct Hstop. right. split; [done|]. intros Hh Ha. by apply Hn.
Qed.

Lemma replied_safe op : op = MemOp.READ ∨ op = MemOp.WRITE → safe 3 (replied DCACHE op).
Proof. intros Hop. destruct (sample_run op Hop) as (_ & _ & Hr). by apply (reachable_safe 3 _ Hr). Qed.

Lemma replied_memop op op' : op = MemOp.READ ∨ op = MemOp.WRITE →
  memop_args (replied DCACHE op) DCACHE op' 64 8 [1; 2; 3].
Proof.
  intros Hop. apply sample_memop; try (destruct Hop as [->| ->]; by vm_compute).
  assert (∃ x, v1 (replied DCACHE op) DCACHE 64 = Some x) as [x Hx].
  { destruct Hop as [->| ->]; eexists; vm_compute; reflexivity. }
  destruct x as [l d]. intros k d' Hk _.
  destruct (ti_incl _ (sf_inv _ _ (replied_safe op Hop)) DCACHE 64 l d) as (k' & Hk' & _ & Hl);
    [by right|done|done|].
  rewrite Hk in Hk'. injection Hk' as <- _. rewrite Hx. by split.
Qed.

(** Tile 0 has fetched the line for writing: a write hits. *)
Lemma mem_op_correct_witness :
  match processMemOpFromTile 2 false DCACHE MemOp.NONE MemOp.WRITE 64 8 [1; 2; 3] 3 (replied DCACHE MemOp.WRITE) with
  | Ok (Some (h, None), t') => tile_inv t' ∧ ∃ k', v2 t' 64 = Some (k', splice (replicate 64 7) 8 [1; 2; 3])
  | _ => False
  end.
Proof.
  destruct (replied_safe MemOp.WRITE (or_intror eq_refl)) as [Hi Hc Hn].
  destruct (replied_memop MemOp.WRITE MemOp.WRITE (or_intror eq_refl)) as [A1 A2 A3 A4 A5 A6 _].
  pose proof (mem_op_correct 2 false MemOp.NONE DCACHE MemOp.WRITE 64 8 [1; 2; 3] (3 * 2 ^ 42) (replied DCACHE MemOp.WRITE)
    (or_intror eq_refl) Hi Hc Hn ltac:(lia) (Build_op_args _ _ _ _ _ _ A1 A2 A3 A4 A5 A6)) as H.
  assert (permitted MemOp.WRITE (l1_state (replied DCACHE MemOp.WRITE) DCACHE 64) = true) as Hp by (vm_compute; reflexivity).
  assert (permitted MemOp.WRITE (l2_state (replied DCACHE MemOp.WRITE) 64) = true) as Hp2 by (vm_compute; reflexivity).
  assert (match v2 (replied DCACHE MemOp.WRITE) 64 with Some (_, d) => d | None => [] end = replicate 64 7) as Hd by (vm_compute; reflexivity).
  change (zlength [1; 2; 3]) with 3 in H. cbv zeta in H. rewrite Hp in H.
  revert H Hd Hp2. clear. generalize (replied DCACHE MemOp.WRITE) as t. intros t H Hd Hp2.
  destruct (processMemOpFromTile 2 false DCACHE MemOp.NONE MemOp.WRITE 64 8 [1; 2; 3] 3 t) as [[[[h data]|] t']|e]; [| |by destruct H].
  - destruct H as (Hi' & (_ & _ & k & d & Hk & -> & l' & k' & _ & Hk' & _) & _). rewrite Hk in Hd. subst d.
    cbn. split; [exact Hi'|]. exists k'. exact Hk'.
  - destruct H as (_ & (H & _) & _). rewrite H in Hp2. discriminate.
Defined.

(** C29: A core reads back what it wrote: after a completed write, a read of
    the same bytes through the same L1 cache hits in it and returns them. *)
Theorem write_then_read num hit hit' lock m a off buf n t h t' :
  num = 1 ∨ num = 2 →
  tile_inv t → config_ok t → clock_le n t → n + 2 ^ 43 < 2 ^ 64 → lock ≠ MemOp.UNLOCK →
  memop_args t m MemOp.WRITE a off buf →
  processMemOpFromTile num hit m lock MemOp.WRITE a off buf (zlength buf) t = Ok (Some (h, None), t') →
  ∃ t'', processMemOpFromTile 1 hit' m lock MemOp.READ a off buf (zlength buf) t' =
         Ok (Some (hit', Some buf), t'').
Proof.
  intros Hnum Hi Hc Hn Hb Hlock Hargs Hrun.
  destruct (processMemOp_mine num hit lock m MemOp.WRITE a off buf n t)
    as (r & t1 & R1 & I1 & K1 & N1 & P1 & _); try done; [lia|].
  rewrite R1 in Hrun. injection Hrun as -> ->. cbn in P1.
  destruct P1 as (Hp & _ & k & d & Hk & _ & l' & k' & Hl' & Hk' & Hs).
  pose proof (ma_l1 _ _ _ _ _ _ Hargs) as Hm. pose proof (proj1 (ma_aligned _ _ _ _ _ _ Hargs)) as Ha.
  assert (memop_args t' m MemOp.READ a off buf) as Hargs'.
  { pose proof Hargs as []. split; try done.
    - by apply (shape_aligned t); [apply K1|].
    - by rewrite (kept_size t t').
    - intros q e Hq _. destruct (ti_incl t' I1 m a l' _ Hm Ha Hl') as (k2 & Hk2 & _ & Hloc).
      rewrite Hq in Hk2. injection Hk2 as <- _. rewrite Hl'. by split. }
  destruct (processMemOp_mine 1 hit' lock m MemOp.READ a off buf (n + 2 ^ 42) t')
    as (r & t'' & R2 & I2 & K2 & N2 & P2 & R3); try done; [by left|by apply (config_ok_cfg t); [apply K1|]|lia|].
  assert (permitted MemOp.READ (l2_state t' a) = true) as Hread.
  { unfold l2_state. rewrite Hk'. destruct (ti_state t' I1 a k' _ Ha Hk') as [->| ->]; done. }
  destruct r as [[h' data]|]; [|destruct P2 as [P2 _]; congruence].
  exists t''. rewrite R2. destruct P2 as (_ & _ & k2 & d2 & Hk2 & -> & _).
  rewrite Hk' in Hk2. injection Hk2 as <- <-.
  rewrite (R3 _ _ eq_refl), (l1_l2_state t' m a l' _ I1 Hm Ha Hl'), Hread.
  do 4 f_equal. cbn. f_equal. apply read_splice; [by apply Hargs|].
  destruct (Cache.lookup_line _ a k d (co_l2 t (ti_ok t Hi)) Ha Hk) as (_ & _ & _ & ->).
  rewrite <- (co_size t (ti_ok t Hi)). by apply Hargs.
Qed.
Lemma write_then_read_witness : ∃ t' t'',
  processMemOpFromTile 2 false DCACHE MemOp.NONE MemOp.WRITE 64 8 [1; 2; 3] 3 (replied DCACHE MemOp.WRITE) =
    Ok (Some (false, None), t') ∧
  processMemOpFromTile 1 true DCACHE MemOp.NONE MemOp.READ 64 8 [1; 2; 3] 3 t' =
    Ok (Some (true, Some [1; 2; 3]), t'').
Proof.
  destruct (replied_safe MemOp.WRITE (or_intror eq_refl)) as [Hi Hc Hn].
  set (t' := match processMemOpFromTile 2 false DCACHE MemOp.NONE MemOp.WRITE 64 8 [1; 2; 3] 3
                     (replied DCACHE MemOp.WRITE) with Ok (_, t) => t | Fail _ => sample_tile end).
  assert (processMemOpFromTile 2 false DCACHE MemOp.NONE MemOp.WRITE 64 8 [1; 2; 3] 3
            (replied DCACHE MemOp.WRITE) = Ok (Some (false, None), t')) as Hr by by vm_compute.
  destruct (write_then_read 2 false true MemOp.NONE DCACHE 64 8 [1; 2; 3] (3 * 2 ^ 42)
    (replied DCACHE MemOp.WRITE) false t') as (t'' & H1);
    [by right|done|done|done|lia|done|by apply replied_memop; right|exact Hr|].
  exists t', t''. split; [exact Hr|exact H1].
Defined.

(** An invalidation request drops a shared line from every cache of the
    tile and is acknowledged with exactly one [INV_REP] to the sender; for an
    absent line nothing is sent. *)
Lemma invalidation_correct sender msg n t :
  let a := ShmemMsg._address msg in
  tile_inv t → config_ok t → clock_le n t → n + 2 ^ 41 < 2 ^ 64 → Cache.address_ok a →
  (∀ k d, v2 t a = Some (k, d) → getCState k = CacheState.SHARED) →
  ∃ t', processInvReqFromDramDirectory sender msg t = Ok (tt, t') ∧ tile_inv t' ∧ gone t t' a ∧
    sent t t' (match v2 t a with
               | Some _ => [(sender, ShmemMsg.make ShmemMsg.INV_REP MemComponent.L2_CACHE
                              MemComponent.DRAM_DIRECTORY (ShmemMsg._requester msg) a (ShmemMsg._modeled msg))]
               | None => []
               end).
Proof.
  intros a H1 H2 H3 H4 H5 H6.
  destruct (processInvReq_ok sender msg n t) as (t' & R1 & R2 & R3 & _ & _ & R4); eauto 10.
Qed.

Definition inv_msg : ShmemMsg.ShmemMsg :=
  ShmemMsg.make ShmemMsg.INV_REQ MemComponent.DRAM_DIRECTORY MemComponent.L2_CACHE 5 64 true.

Lemma invalidation_correct_witness : ∃ t',
  processInvReqFromDramDirectory 0 inv_msg (replied DCACHE MemOp.READ) = Ok (tt, t') ∧ tile_inv t' ∧
  gone (replied DCACHE MemOp.READ) t' 64.
Proof.
  destruct (replied_safe MemOp.READ (or_introl eq_refl)) as [Hi Hc Hn].
  destruct (invalidation_correct 0 inv_msg (3 * 2 ^ 42) (replied DCACHE MemOp.READ)) as (t' & H1 & H2 & H3 & _);
    [done|done|done|lia|done| |exists t'; by split_and!].
  cbn. intros k d Hk. vm_compute in Hk. by injection Hk as <- _.
Defined.

(** C30: A flush request takes a modified line out of every cache of the tile
    and hands its bytes, as the L2 cache held them, to the sender in one
    [FLUSH_REP]. *)
Theorem flush_correct sender msg n t :
  let a := ShmemMsg._address msg in
  tile_inv t → config_ok t → clock_le n t → n + 2 ^ 41 < 2 ^ 64 → Cache.aligned (_l2_cache t) a →
  (∀ k d, v2 t a = Some (k, d) → getCState k = CacheState.MODIFIED) →
  ∃ t', processFlushReqFromDramDirectory sender msg t = Ok (tt, t') ∧ tile_inv t' ∧ gone t t' a ∧
    sent t t' (match v2 t a with
               | Some (_, d) => [(sender, ShmemMsg.make_data ShmemMsg.FLUSH_REP MemComponent.L2_CACHE
                                    MemComponent.DRAM_DIRECTORY (ShmemMsg._requester msg) a (Some d)
                                    (_cache_line_size t) (ShmemMsg._modeled msg))]
               | None => []
               end).
Proof.
  intros a H1 H2 H3 H4 H5 H6.
  destruct (processFlushReq_ok sender msg n t) as (t' & R1 & R2 & R3 & _ & _ & R4); eauto 10.
Qed.
Lemma flush_correct_witness : ∃ t',
  processFlushReqFromDramDirectory 0 inv_msg (replied DCACHE MemOp.WRITE) = Ok (tt, t') ∧ tile_inv t' ∧
  gone (replied DCACHE MemOp.WRITE) t' 64.
Proof.
  destruct (replied_safe MemOp.WRITE (or_intror eq_refl)) as [Hi Hc Hn].
  destruct (flush_correct 0 inv_msg (3 * 2 ^ 42) (replied DCACHE MemOp.WRITE)) as (t' & H1 & H2 & H3 & _);
    [done|done|done|lia|by apply sample_aligned| |exists t'; by split_and!].
  cbn. intros k d Hk. vm_compute in Hk. by injection Hk as <- _.
Defined.

(** A write-back request demotes a modified line to [SHARED] in every
    cache of the tile, keeping its bytes, and hands the bytes to the sender in
    one [WB_REP]. *)
Lemma writeback_correct sender msg n t :
  let a := ShmemMsg._address msg in
  tile_inv t → config_ok t → clock_le n t → n + 2 ^ 41 < 2 ^ 64 → Cache.aligned (_l2_cache t) a →
  (∀ k d, v2 t a = Some (k, d) → getCState k = CacheState.MODIFIED) →
  ∃ t', processWbReqFromDramDirectory sender msg t = Ok (tt, t') ∧ tile_inv t' ∧ shared_now t t' a ∧
    sent t t' (match v2 t a with
               | Some (_, d) => [(sender, ShmemMsg.make_data ShmemMsg.WB_REP MemComponent.L2_CACHE
                                    MemComponent.DRAM_DIRECTORY (ShmemMsg._requester msg) a (Some d)
                                    (_cache_line_size t) (ShmemMsg._modeled msg))]
               | None => []
               end).
Proof.
  intros a H1 H2 H3 H4 H5 H6.
  destruct (processWbReq_ok sender msg n t) as (t' & R1 & R2 & R3 & _ & _ & R4); eauto 10.
Qed.
Lemma writeback_correct_witness : ∃ t',
  processWbReqFromDramDirectory 0 inv_msg (replied DCACHE MemOp.WRITE) = Ok (tt, t') ∧ tile_inv t' ∧
  shared_now (replied DCACHE MemOp.WRITE) t' 64.
Proof.
  destruct (replied_safe MemOp.WRITE (or_intror eq_refl)) as [Hi Hc Hn].
  destruct (writeback_correct 0 inv_msg (3 * 2 ^ 42) (replied DCACHE MemOp.WRITE)) as (t' & H1 & H2 & H3 & _);
    [done|done|done|lia|by apply sample_aligned| |exists t'; by split_and!].
  cbn. intros k d Hk. vm_compute in Hk. by injection Hk as <- _.
Defined.

(** A request of an L1 cache becomes the outstanding request of the tile
    and goes to the home of its address, as [SH_REQ] or [EX_REQ]; a shared copy
    is given up first and announced by an [INV_REP] before the [EX_REQ], so the
    directory sees the requester without a copy. *)
Lemma request_correct msg n t :
  let a := ShmemMsg._address msg in
  tile_inv t → config_ok t → clock_le n t → idle t → Cache.address_ok a →
  ShmemMsg._data_buf msg = None → ShmemMsg._data_length msg = 0 →
  (∀ m, is_l1 m → v1 t m a = None) →
  (ShmemMsg._msg_type msg = ShmemMsg.EX_REQ ∧ l2_state t a ≠ CacheState.MODIFIED) ∨
  (ShmemMsg._msg_type msg = ShmemMsg.SH_REQ ∧ v2 t a = None) →
  ∃ h t', handleMsgFromL1Cache msg t = Ok (tt, t') ∧
    AddressHomeLookup.getHome (_home_lookup t) a = Ok h ∧ tile_inv t' ∧ gone t t' a ∧
    ShmemMsg._address (_outstanding_shmem_msg t') = a ∧ sent t t' (request_msgs t h msg).
Proof.
  intros a H1 H2 H3 H4 H5 H6 H7 H8 H9.
  destruct (handleMsgFromL1Cache_ok msg n t) as (h & t' & R1 & R2 & R3 & R4 & K & _ & R5); try done.
  exists h, t'. split_and!; try done. by rewrite (kp_out _ _ K).
Qed.
Definition ex_req_msg : ShmemMsg.ShmemMsg :=
  ShmemMsg.make ShmemMsg.EX_REQ DCACHE MemComponent.L2_CACHE 0 64 true.
Lemma request_correct_witness : ∃ h t',
  handleMsgFromL1Cache ex_req_msg (missed DCACHE MemOp.WRITE) = Ok (tt, t') ∧ tile_inv t' ∧
  sent (missed DCACHE MemOp.WRITE) t' (request_msgs (missed DCACHE MemOp.WRITE) h ex_req_msg).
Proof.
  destruct (sample_run MemOp.WRITE (or_intror eq_refl)) as (Hr & _ & _).
  destruct (reachable_safe 1 _ Hr) as [_ Hs]. destruct (Hs ltac:(lia)) as [Hi Hc Hn].
  destruct (request_correct ex_req_msg (1 * 2 ^ 42) (missed DCACHE MemOp.WRITE))
    as (h & t' & H1 & _ & H2 & _ & _ & H3);
    [exact Hi|exact Hc|exact Hn|by vm_compute|by vm_compute|by vm_compute|by vm_compute| | |].
  - intros m [->| ->]; by vm_compute.
  - left. by vm_compute.
  - exists h, t'. split; [exact H1|]. split; [exact H2|exact H3].
Defined.

(** C8: A reply of the directory fills the line with the bytes of the reply in
    the L1 cache that asked and in the L2 cache, [MODIFIED] for [EX_REP] and
    [SHARED] for [SH_REP]; a line evicted from the L2 cache leaves the L1
    caches and its home is told, with the bytes if it was modified; the request
    is closed and the application's clock set to the simulation's. *)
Theorem reply_correct sender msg fill n t :
  let a := ShmemMsg._address msg in
  let m := ShmemMsg._sender_mem_component (_outstanding_shmem_msg t) in
  tile_inv t → config_ok t → clock_le n t → n + 2 ^ 40 < 2 ^ 64 → is_l1 m → Cache.address_ok a →
  ShmemMsg._msg_type msg = ShmemMsg.EX_REP ∨ ShmemMsg._msg_type msg = ShmemMsg.SH_REP →
  ShmemMsg._address (_outstanding_shmem_msg t) = a → ShmemMsg._data_buf msg = Some fill →
  zlength fill = _cache_line_size t → v2 t a = None →
  0 ≤ _outstanding_shmem_msg_time t ≤ ShmemPerfModel.getCycleCount (_thread t) (_shmem_perf_model t) →
  ∃ e2 e1 t', handleMsgFromDramDirectory sender msg t = Ok (tt, t') ∧ tile_inv t' ∧ idle t' ∧
    filled t t' a m (granted (ShmemMsg._msg_type msg)) fill e2 e1 ∧
    ShmemPerfModel._app_cycle_count (_shmem_perf_model t') =
      ShmemPerfModel.getCycleCount (_thread t') (_shmem_perf_model t') ∧
    match e2 with
    | Some x => ∃ k d h, v2 t x = Some (k, d) ∧
        AddressHomeLookup.getHome (_home_lookup t) x = Ok h ∧ sent t t' [(h, eviction_msg t x k d)]
    | None => sent t t' []
    end.
Proof.
  intros a m H1 H2 H3 H4 H5 H6 H7 H8 H9 H10 H11 H12.
  destruct (handleReply_ok sender msg fill n t) as (e2 & e1 & t' & R1 & R2 & R3 & _ & _ & R4 & R5 & R6);
    try done.
  exists e2, e1, t'. split_and!; try done. destruct e2 as [x|]; [|done].
  destruct R6 as (k & d & h & Q1 & _ & Q2 & Q3). eauto 10.
Qed.
Definition ex_rep_msg : ShmemMsg.ShmemMsg :=
  ShmemMsg.make_data ShmemMsg.EX_REP MemComponent.DRAM_DIRECTORY MemComponent.L2_CACHE 0 64
    (Some (replicate 64 7)) 64 true.
Lemma reply_correct_witness : ∃ t',
  handleMsgFromDramDirectory 0 ex_rep_msg (requested DCACHE MemOp.WRITE) = Ok (tt, t') ∧
  tile_inv t' ∧ idle t'.
Proof.
  destruct (sample_run MemOp.WRITE (or_intror eq_refl)) as (_ & Hr & _).
  destruct (reachable_safe 2 _ Hr) as [_ Hs]. destruct (Hs ltac:(lia)) as [Hi Hc Hn].
  destruct (reply_correct 0 ex_rep_msg (replicate 64 7) (2 * 2 ^ 42) (requested DCACHE MemOp.WRITE))
    as (e2 & e1 & t' & H1 & H2 & H3 & _);
    [exact Hi|exact Hc|exact Hn|lia|right; by vm_compute|by vm_compute|by left|by vm_compute|
     by vm_compute|by vm_compute|by vm_compute|by vm_compute|].
  exists t'. split; [exact H1|]. split; [exact H2|exact H3].
Defined.

(** ** Lines shared between the two L1 caches *)

Definition ICACHE : MemComponent.Type_ := MemComponent.L1_ICACHE.

(** The line of address 64 was fetched through the L1 instruction cache, then
    written through the L1 data cache. *)
Definition fetched : Tile := replied ICACHE MemOp.READ.
Definition overwritten : Tile :=
  after (op_event DCACHE MemOp.WRITE 2 [1; 2; 3])
    (after (reply_event ShmemMsg.EX_REP)
       (after (request_event ShmemMsg.EX_REQ DCACHE)
          (after (op_event DCACHE MemOp.WRITE 1 [1; 2; 3]) fetched))).

(** A write through the L1 data cache to a line that the L1 instruction
    cache holds leaves a stale copy there: every controller call succeeds, the
    L2 cache has the new bytes and names the data cache, the instruction cache
    still holds the old ones and serves them as a hit. *)
Lemma stale_instruction_line :
  v1 overwritten ICACHE 64 = Some (LineInfo.mkLineInfo 1 CacheState.SHARED, replicate 64 7) ∧
  v2 overwritten 64 = Some (PrL2.mkLineInfo 1 CacheState.MODIFIED DCACHE,
                            splice (replicate 64 7) 8 [1; 2; 3]) ∧
  ∃ t, processMemOpFromTile 1 true ICACHE MemOp.NONE MemOp.READ 64 8 [0; 0; 0] 3 overwritten =
       Ok (Some (true, Some [7; 7; 7]), t).
Proof. split; [by vm_compute|]. split; [by vm_compute|]. eexists. vm_compute. reflexivity. Qed.

(** A read through the L1 data cache of a line that the L1 instruction
    cache holds finds it in the L2 cache and aborts the simulator: the L2 line
    can name one L1 cache only and [setCachedLoc] asserts that it names none. *)
Lemma read_of_fetched_line_aborts :
  v2 fetched 64 = Some (PrL2.mkLineInfo 1 CacheState.SHARED ICACHE, replicate 64 7) ∧
  processMemOpFromTile 1 true DCACHE MemOp.NONE MemOp.READ 64 8 [0; 0; 0] 3 fetched =
  Fail (EAssert "PrL2CacheLineInfo::setCachedLoc").
Proof. split; by vm_compute. Qed.
