(* ===== verification/MsiDirectory.v ===== *)
(** * MsiDirectory: the DRAM directory controller of the MSI protocol

    Models common/tile/memory_subsystem/pr_l1_pr_l2_dram_directory_msi/
    dram_directory_cntlr.cc.  The requests for an address are served one at a
    time, in the order of arrival: the request at the front of the queue of the
    address is the one under way.  The functions that process requests call
    each other (a request that completes starts the next one); they take a fuel
    argument, the depth of these calls. *)
From S2P Require Import Prelude Utils BitVector SharerTracking DirectoryEntry CacheSet Cache.
From S2P Require Import Shmem DirectoryCache.

Module DramDirectoryCntlr.
Section DramDirectoryCntlr.
Context `{DramTiming}.

Record DramDirectoryCntlr := mkDramDirectoryCntlr {
  _tile_id : Z;
  _cache_line_size : Z;
  _miss_types : MissTypes.MissTypes;
  (** Holds the tile's clocks, which the directory cache advances. *)
  _dram_directory_cache : DirectoryCache.DirectoryCache;
  _dram_directory_req_queue_list : HashMapQueue.HashMapQueue ShmemReq.ShmemReq;
  _dram_cntlr : DramCntlr.DramCntlr;
  _net : list Packet.Packet
}.
#[global] Instance eta_DramDirectoryCntlr : Eta DramDirectoryCntlr := λ c, mkDramDirectoryCntlr
  (_tile_id c) (_cache_line_size c) (_miss_types c) (_dram_directory_cache c)
  (_dram_directory_req_queue_list c) (_dram_cntlr c) (_net c).

(** ** Access to the parts *)

Definition clock (c : DramDirectoryCntlr) : ShmemPerfModel.ShmemPerfModel :=
  DirectoryCache._shmem_perf_model (_dram_directory_cache c).
Definition set_clock (p : ShmemPerfModel.ShmemPerfModel) (c : DramDirectoryCntlr) : DramDirectoryCntlr :=
  c <| _dram_directory_cache ::= λ d, d <| DirectoryCache._shmem_perf_model := p |> |>.
Definition getCycleCount (c : DramDirectoryCntlr) : Z :=
  ShmemPerfModel.getCycleCount ShmemPerfModel.SIM_THREAD (clock c).

Definition dir {A} (m : M DirectoryCache.DirectoryCache A) : M DramDirectoryCntlr A :=
  zoom _dram_directory_cache (λ d c, c <| _dram_directory_cache := d |>) m.

(** Reading and changing the entry behind a pointer. *)
Definition entry (p : DirectoryCache.entry_ptr) : M DramDirectoryCntlr DirectoryEntry.DirectoryEntry :=
  dir (DirectoryCache.deref p).
Definition set_entry (p : DirectoryCache.entry_ptr) (e : DirectoryEntry.DirectoryEntry)
    : M DramDirectoryCntlr unit := dir (DirectoryCache.store p e).

Definition queue_count (address : Z) : M DramDirectoryCntlr Z :=
  gets (λ c, HashMapQueue.count (_dram_directory_req_queue_list c) address).
Definition enqueue (address : Z) (r : ShmemReq.ShmemReq) : M DramDirectoryCntlr unit :=
  modify (λ c, c <| _dram_directory_req_queue_list ::= λ q, HashMapQueue.enqueue q address r |>).

(** [MemoryManager::sendMsg] and [broadcastMsg]. *)
Definition send (receiver : option Z) (msg : ShmemMsg.ShmemMsg) : M DramDirectoryCntlr unit :=
  c ← gets id ;
  p ← lift (Packet.make (_tile_id c) (getCycleCount c) receiver msg) ;
  modify (λ c, c <| _net := _net c ++ [p] |>).
Definition sendMsg (receiver : Z) (msg : ShmemMsg.ShmemMsg) : M DramDirectoryCntlr unit :=
  send (Some receiver) msg.
Definition broadcastMsg (msg : ShmemMsg.ShmemMsg) : M DramDirectoryCntlr unit := send None msg.

(** The request at the front of a queue, with the update of its time and of
    the clock that the handlers of replies begin with. *)
Definition front_request (address : Z) : M DramDirectoryCntlr ShmemReq.ShmemReq :=
  c ← gets id ;
  r ← lift (of_option (HashMapQueue.front (_dram_directory_req_queue_list c) address) (ENull "ShmemReq")) ;
  let r := ShmemReq.updateTime (getCycleCount c) r in
  modify (λ c, c <| _dram_directory_req_queue_list ::= λ q, HashMapQueue.set_front q address r |>) ;;
  modify (λ c, set_clock
    (ShmemPerfModel.updateCycleCount ShmemPerfModel.SIM_THREAD (ShmemReq.m_time r) (clock c)) c) ;;
  mret r.

(** ** Data *)

Definition retrieveDataAndSendToL2Cache (reply_msg_type : ShmemMsg.Type_) (receiver address : Z)
    (cached_data_buf : option (list Z)) (msg_modeled : bool) : M DramDirectoryCntlr unit :=
  c ← gets id ;
  match cached_data_buf with
  | Some _ =>
    sendMsg receiver
      (ShmemMsg.make_data reply_msg_type MemComponent.DRAM_DIRECTORY MemComponent.L2_CACHE receiver
         address cached_data_buf (_cache_line_size c) msg_modeled)
  | None =>
    r ← lift (DramCntlr.getDataFromDram address msg_modeled ShmemPerfModel.SIM_THREAD
                (_dram_cntlr c) (clock c)) ;
    let '(data_buf, dram, p) := r : list Z * DramCntlr.DramCntlr * ShmemPerfModel.ShmemPerfModel in
    modify (λ c, set_clock p (c <| _dram_cntlr := dram |>)) ;;
    sendMsg receiver
      (ShmemMsg.make_data reply_msg_type MemComponent.DRAM_DIRECTORY MemComponent.L2_CACHE receiver
         address (Some data_buf) (_cache_line_size c) msg_modeled)
  end.

Definition sendDataToDram (address : Z) (data_buf : option (list Z)) (modeled : bool)
    : M DramDirectoryCntlr unit :=
  c ← gets id ;
  dram ← lift (DramCntlr.putDataToDram address data_buf modeled ShmemPerfModel.SIM_THREAD
                 (_dram_cntlr c) (clock c)) ;
  modify (λ c, c <| _dram_cntlr := dram |>).

(** ** Requests *)

(** The loop of [processDirectoryEntryAllocationReq]: the candidate with the
    fewest sharers among those without pending requests. *)
Fixpoint choose_candidate (l : list DirectoryCache.entry_ptr)
    (candidate : option DirectoryCache.entry_ptr)
    : M DramDirectoryCntlr (option DirectoryCache.entry_ptr) :=
  match l with
  | [] => mret candidate
  | p :: l =>
    e ← entry p ;
    fewer ← match candidate with
            | None => mret true
            | Some q =>
              f ← entry q ;
              nq ← lift (getNumSharers (DirectoryEntry._tracker f)) ;
              np ← lift (getNumSharers (DirectoryEntry._tracker e)) ;
              mret (nq >? np)
            end ;
    n ← queue_count (DirectoryEntry.getAddress e) ;
    choose_candidate l (if (fewer : bool) && (n =? 0) then Some p else candidate)
  end.

(** The invalidations of the sharers of an entry. *)
Definition invalidate_sharers (p : DirectoryCache.entry_ptr) (msg : ShmemMsg.ShmemMsg)
    : M DramDirectoryCntlr unit :=
  e ← entry p ;
  r ← lift (DirectoryEntry.entry_getSharersList e) ;
  let '(all_tiles_sharers, sharers_list, e) := r : bool * list Z * DirectoryEntry.DirectoryEntry in
  set_entry p e ;;
  if all_tiles_sharers then broadcastMsg msg
  else mfor sharers_list (λ sharer, sendMsg sharer msg).

Definition to_L2 (ty : ShmemMsg.Type_) (requester address : Z) (modeled : bool) : ShmemMsg.ShmemMsg :=
  ShmemMsg.make ty MemComponent.DRAM_DIRECTORY MemComponent.L2_CACHE requester address modeled.

Fixpoint processNextReqFromL2Cache (fuel : nat) (address : Z) : M DramDirectoryCntlr unit :=
  match fuel with
  | O => fail (EFuel "processNextReqFromL2Cache")
  | S fuel =>
    n ← queue_count address ;
    assert (1 <=? n) "DramDirectoryCntlr::processNextReqFromL2Cache" ;;
    modify (λ c, c <| _dram_directory_req_queue_list ::= λ q, (HashMapQueue.dequeue q address).2 |>) ;;
    c ← gets id ;
    if HashMapQueue.empty (_dram_directory_req_queue_list c) address then skip
    else
      shmem_req ← front_request address ;
      match ShmemMsg._msg_type (ShmemReq.m_shmem_msg shmem_req) with
      | ShmemMsg.EX_REQ => processExReqFromL2Cache fuel shmem_req None
      | ShmemMsg.SH_REQ => processShReqFromL2Cache fuel shmem_req None
      | _ => fail (ELog "Unrecognized Request")
      end
  end

with processNullifyReq (fuel : nat) (shmem_req : ShmemReq.ShmemReq) : M DramDirectoryCntlr unit :=
  match fuel with
  | O => fail (EFuel "processNullifyReq")
  | S fuel =>
    let msg := ShmemReq.m_shmem_msg shmem_req in
    let address := ShmemMsg._address msg in
    found ← dir (DirectoryCache.getDirectoryEntry address) ;
    p ← (match found with
         | Some p => mret p
         | None => fail (EAssert "DramDirectoryCntlr::processNullifyReq")
         end) ;
    e ← entry p ;
    match DirectoryEntry.getDState e with
    | DirectoryState.MODIFIED =>
      sendMsg (DirectoryEntry.getOwner e)
        (to_L2 ShmemMsg.FLUSH_REQ (ShmemMsg._requester msg) address (ShmemMsg._modeled msg))
    | DirectoryState.SHARED =>
      invalidate_sharers p
        (to_L2 ShmemMsg.INV_REQ (ShmemMsg._requester msg) address (ShmemMsg._modeled msg))
    | DirectoryState.UNCACHED =>
      dir (DirectoryCache.invalidateDirectoryEntry address) ;;
      processNextReqFromL2Cache fuel address
    | _ => fail (ELog "Unsupported Directory State")
    end
  end

with processDirectoryEntryAllocationReq (fuel : nat) (shmem_req : ShmemReq.ShmemReq)
    : M DramDirectoryCntlr DirectoryCache.entry_ptr :=
  match fuel with
  | O => fail (EFuel "processDirectoryEntryAllocationReq")
  | S fuel =>
    let msg := ShmemReq.m_shmem_msg shmem_req in
    let address := ShmemMsg._address msg in
    msg_time ← gets getCycleCount ;
    candidates ← dir (DirectoryCache.getReplacementCandidates address) ;
    chosen ← choose_candidate candidates None ;
    candidate ← (match chosen with
                 | Some p => mret p
                 | None => fail (ELog "Cant find a directory entry to be replaced")
                 end) ;
    e ← entry candidate ;
    let replaced_address := DirectoryEntry.getAddress e in
    directory_entry ← dir (DirectoryCache.replaceDirectoryEntry replaced_address address) ;
    c ← gets id ;
    let nullify_msg :=
      ShmemMsg.make ShmemMsg.NULLIFY_REQ MemComponent.DRAM_DIRECTORY MemComponent.DRAM_DIRECTORY
        (ShmemMsg._requester msg) replaced_address
        (MissTypes.isMissTypeModeled (_miss_types c) Cache.CAPACITY_MISS) in
    nullify_req ← lift (ShmemReq.make nullify_msg msg_time) ;
    enqueue replaced_address nullify_req ;;
    n ← queue_count replaced_address ;
    assert (n =? 1) "DramDirectoryCntlr::processDirectoryEntryAllocationReq" ;;
    processNullifyReq fuel nullify_req ;;
    mret directory_entry
  end

with processExReqFromL2Cache (fuel : nat) (shmem_req : ShmemReq.ShmemReq)
    (cached_data_buf : option (list Z)) : M DramDirectoryCntlr unit :=
  match fuel with
  | O => fail (EFuel "processExReqFromL2Cache")
  | S fuel =>
    let msg := ShmemReq.m_shmem_msg shmem_req in
    let address := ShmemMsg._address msg in
    let requester := ShmemMsg._requester msg in
    let msg_modeled := ShmemMsg._modeled msg in
    found ← dir (DirectoryCache.getDirectoryEntry address) ;
    p ← (match found with
         | Some p => mret p
         | None => processDirectoryEntryAllocationReq fuel shmem_req
         end) ;
    e ← entry p ;
    match DirectoryEntry.getDState e with
    | DirectoryState.MODIFIED =>
      assert (bool_decide (cached_data_buf = None)) "DramDirectoryCntlr::processExReqFromL2Cache" ;;
      sendMsg (DirectoryEntry.getOwner e) (to_L2 ShmemMsg.FLUSH_REQ requester address msg_modeled)
    | DirectoryState.SHARED =>
      assert (bool_decide (cached_data_buf = None)) "DramDirectoryCntlr::processExReqFromL2Cache" ;;
      invalidate_sharers p (to_L2 ShmemMsg.INV_REQ requester address msg_modeled)
    | DirectoryState.UNCACHED =>
      r ← lift (DirectoryEntry.entry_addSharer e requester) ;
      let '(add_result, e) := r : bool * DirectoryEntry.DirectoryEntry in
      assert add_result "DramDirectoryCntlr::processExReqFromL2Cache" ;;
      e ← lift (DirectoryEntry.setOwner e requester) ;
      set_entry p (DirectoryEntry.setDState DirectoryState.MODIFIED e) ;;
      retrieveDataAndSendToL2Cache ShmemMsg.EX_REP requester address cached_data_buf msg_modeled ;;
      processNextReqFromL2Cache fuel address
    | _ => fail (ELog "Unsupported Directory State")
    end
  end

with processShReqFromL2Cache (fuel : nat) (shmem_req : ShmemReq.ShmemReq)
    (cached_data_buf : option (list Z)) : M DramDirectoryCntlr unit :=
  match fuel with
  | O => fail (EFuel "processShReqFromL2Cache")
  | S fuel =>
    let msg := ShmemReq.m_shmem_msg shmem_req in
    let address := ShmemMsg._address msg in
    let requester := ShmemMsg._requester msg in
    let msg_modeled := ShmemMsg._modeled msg in
    found ← dir (DirectoryCache.getDirectoryEntry address) ;
    p ← (match found with
         | Some p => mret p
         | None => processDirectoryEntryAllocationReq fuel shmem_req
         end) ;
    e ← entry p ;
    match DirectoryEntry.getDState e with
    | DirectoryState.MODIFIED =>
      assert (bool_decide (cached_data_buf = None)) "DramDirectoryCntlr::processShReqFromL2Cache" ;;
      sendMsg (DirectoryEntry.getOwner e) (to_L2 ShmemMsg.WB_REQ requester address msg_modeled)
    | DirectoryState.SHARED =>
      r ← lift (DirectoryEntry.entry_addSharer e requester) ;
      let '(add_result, e) := r : bool * DirectoryEntry.DirectoryEntry in
      set_entry p e ;;
      if negb add_result then
        r ← lift (DirectoryEntry.entry_getOneSharer e) ;
        let '(sharer_id, e) := r : Z * DirectoryEntry.DirectoryEntry in
        set_entry p e ;;
        sendMsg sharer_id (to_L2 ShmemMsg.INV_REQ requester address msg_modeled)
      else
        retrieveDataAndSendToL2Cache ShmemMsg.SH_REP requester address cached_data_buf msg_modeled ;;
        processNextReqFromL2Cache fuel address
    | DirectoryState.UNCACHED =>
      r ← lift (DirectoryEntry.entry_addSharer e requester) ;
      let '(add_result, e) := r : bool * DirectoryEntry.DirectoryEntry in
      assert add_result "DramDirectoryCntlr::processShReqFromL2Cache" ;;
      set_entry p (DirectoryEntry.setDState DirectoryState.SHARED e) ;;
      retrieveDataAndSendToL2Cache ShmemMsg.SH_REP requester address cached_data_buf msg_modeled ;;
      processNextReqFromL2Cache fuel address
    | _ => fail (ELog "Unsupported Directory State")
    end
  end.

(** ** Replies *)

(** The entry of an address that must exist. *)
Definition existing_entry (address : Z) (site : string) : M DramDirectoryCntlr DirectoryCache.entry_ptr :=
  found ← dir (DirectoryCache.getDirectoryEntry address) ;
  match found with
  | Some p => mret p
  | None => fail (EAssert site)
  end.

Definition processInvRepFromL2Cache (fuel : nat) (sender : Z) (shmem_msg : ShmemMsg.ShmemMsg)
    : M DramDirectoryCntlr unit :=
  let address := ShmemMsg._address shmem_msg in
  p ← existing_entry address "DramDirectoryCntlr::processInvRepFromL2Cache" ;
  e ← entry p ;
  assert (bool_decide (DirectoryEntry.getDState e = DirectoryState.SHARED))
    "DramDirectoryCntlr::processInvRepFromL2Cache" ;;
  e ← lift (DirectoryEntry.entry_removeSharer e sender false) ;
  n ← lift (getNumSharers (DirectoryEntry._tracker e)) ;
  let e := if n =? 0 then DirectoryEntry.setDState DirectoryState.UNCACHED e else e in
  set_entry p e ;;
  count ← queue_count address ;
  when (count >? 0) (
    shmem_req ← front_request address ;
    let uncached := bool_decide (DirectoryEntry.getDState e = DirectoryState.UNCACHED) in
    match ShmemMsg._msg_type (ShmemReq.m_shmem_msg shmem_req) with
    | ShmemMsg.EX_REQ => when uncached (processExReqFromL2Cache fuel shmem_req None)
    | ShmemMsg.SH_REQ => processShReqFromL2Cache fuel shmem_req None
    | _ => when uncached (processNullifyReq fuel shmem_req)
    end).

Definition processFlushRepFromL2Cache (fuel : nat) (sender : Z) (shmem_msg : ShmemMsg.ShmemMsg)
    : M DramDirectoryCntlr unit :=
  let address := ShmemMsg._address shmem_msg in
  let data_buf := ShmemMsg._data_buf shmem_msg in
  let modeled := ShmemMsg._modeled shmem_msg in
  p ← existing_entry address "DramDirectoryCntlr::processFlushRepFromL2Cache" ;
  e ← entry p ;
  assert (bool_decide (DirectoryEntry.getDState e = DirectoryState.MODIFIED))
    "DramDirectoryCntlr::processFlushRepFromL2Cache" ;;
  e ← lift (DirectoryEntry.entry_removeSharer e sender false) ;
  e ← lift (DirectoryEntry.setOwner e INVALID_TILE_ID) ;
  set_entry p (DirectoryEntry.setDState DirectoryState.UNCACHED e) ;;
  count ← queue_count address ;
  if negb (count =? 0) then
    shmem_req ← front_request address ;
    match ShmemMsg._msg_type (ShmemReq.m_shmem_msg shmem_req) with
    | ShmemMsg.EX_REQ => processExReqFromL2Cache fuel shmem_req data_buf
    | ShmemMsg.SH_REQ =>
      sendDataToDram address data_buf modeled ;;
      processShReqFromL2Cache fuel shmem_req data_buf
    | _ =>
      sendDataToDram address data_buf modeled ;;
      processNullifyReq fuel shmem_req
    end
  else sendDataToDram address data_buf modeled.

Definition processWbRepFromL2Cache (fuel : nat) (sender : Z) (shmem_msg : ShmemMsg.ShmemMsg)
    : M DramDirectoryCntlr unit :=
  let address := ShmemMsg._address shmem_msg in
  let data_buf := ShmemMsg._data_buf shmem_msg in
  p ← existing_entry address "DramDirectoryCntlr::processWbRepFromL2Cache" ;
  e ← entry p ;
  assert (bool_decide (DirectoryEntry.getDState e = DirectoryState.MODIFIED))
    "DramDirectoryCntlr::processWbRepFromL2Cache" ;;
  present ← lift (hasSharer (DirectoryEntry._tracker e) sender) ;
  assert present "DramDirectoryCntlr::processWbRepFromL2Cache" ;;
  e ← lift (DirectoryEntry.setOwner e INVALID_TILE_ID) ;
  set_entry p (DirectoryEntry.setDState DirectoryState.SHARED e) ;;
  count ← queue_count address ;
  if negb (count =? 0) then
    shmem_req ← front_request address ;
    sendDataToDram address data_buf (ShmemMsg._modeled shmem_msg) ;;
    (if bool_decide (ShmemMsg._msg_type (ShmemReq.m_shmem_msg shmem_req) = ShmemMsg.SH_REQ) then skip
     else fail (ELog "DramDirectoryCntlr::processWbRepFromL2Cache")) ;;
    processShReqFromL2Cache fuel shmem_req data_buf
  else fail (ELog "Should not reach here").

Definition handleMsgFromL2Cache (fuel : nat) (sender : Z) (shmem_msg : ShmemMsg.ShmemMsg)
    : M DramDirectoryCntlr unit :=
  msg_time ← gets getCycleCount ;
  let enqueue_request (process : ShmemReq.ShmemReq → M DramDirectoryCntlr unit) :=
    let address := ShmemMsg._address shmem_msg in
    shmem_req ← lift (ShmemReq.make shmem_msg msg_time) ;
    enqueue address shmem_req ;;
    count ← queue_count address ;
    when (count =? 1) (process shmem_req) in
  match ShmemMsg._msg_type shmem_msg with
  | ShmemMsg.EX_REQ => enqueue_request (λ r, processExReqFromL2Cache fuel r None)
  | ShmemMsg.SH_REQ => enqueue_request (λ r, processShReqFromL2Cache fuel r None)
  | ShmemMsg.INV_REP => processInvRepFromL2Cache fuel sender shmem_msg
  | ShmemMsg.FLUSH_REP => processFlushRepFromL2Cache fuel sender shmem_msg
  | ShmemMsg.WB_REP => processWbRepFromL2Cache fuel sender shmem_msg
  | _ => fail (ELog "Unrecognized Shmem Msg Type")
  end.

End DramDirectoryCntlr.
Arguments DramDirectoryCntlr {_}.
End DramDirectoryCntlr.
