(* ===== verification/MsiDirectoryProofs.v ===== *)
(** * MsiDirectoryProofs: the invariant of the MSI directory controller

    The controller is verified against ghost state: the set of sharers of every
    address, and the value of every line as last written back.  Between two
    messages a request waits only behind an entry that has sharers, which were
    asked for the line since they got it, and the owner of a line was asked to
    write it back only if a shared request is at the front.  The errors that a
    handler may stop with are an argument of the proofs.  The proof follows the
    calls of the request functions; the fuel is bounded by the length of the
    queue of the address. *)
From S2P Require Import Prelude Utils BitVector SharerTracking DirectoryEntry CacheSet Cache Shmem.
From S2P Require Import DirectoryCache DirectoryCacheProofs MsiDirectory.

Module DirectoryProofs.
Import DirectoryCache DirectoryCacheProofs DramDirectoryCntlr.

(** ** Ghost state *)

Definition sharers : Type := Z → gset Z.
Definition values : Type := Z → list Z.
Definition upd {A} (f : Z → A) (a : Z) (x : A) : Z → A := λ b, if decide (b = a) then x else f b.

Lemma upd_eq {A} (f : Z → A) a x : upd f a x a = x.
Proof. unfold upd. by rewrite decide_True. Qed.
Lemma upd_ne {A} (f : Z → A) a b x : b ≠ a → upd f a x b = f b.
Proof. intros H. unfold upd. by rewrite decide_False. Qed.

Lemma upd_same {A} (f : Z → A) a b : upd f a (f a) b = f b.
Proof. unfold upd. case_decide; by subst. Qed.

(** ** Entries *)

Definition entry_ok (n : Z) (S : gset Z) (e : DirectoryEntry.DirectoryEntry) : Prop :=
  tracks n (DirectoryEntry._tracker e) S ∧
  match DirectoryEntry.getDState e with
  | DirectoryState.UNCACHED => S = ∅ ∧ DirectoryEntry.getOwner e = INVALID_TILE_ID
  | DirectoryState.SHARED => S ≠ ∅ ∧ DirectoryEntry.getOwner e = INVALID_TILE_ID
  | DirectoryState.MODIFIED =>
    S = {[DirectoryEntry.getOwner e]} ∧ inBroadcastMode (DirectoryEntry._tracker e) = false
  | _ => False
  end.

Definition tiles (d : DirectoryCache) : Z := Tracker.max_num_sharers (_params d).

Record dir_ok (d : DirectoryCache) (G : sharers) : Prop := {
  dk_wf : wf d;
  dk_params : Tracker.good_params (_params d);
  dk_entry p e : p ∈ live d → _heap d !! p = Some e → entry_ok (tiles d) (G (DirectoryEntry.getAddress e)) e;
  dk_free : G INVALID_ADDRESS = ∅;
  dk_absent a : (∀ p e, ¬ holds d a p e) → G a = ∅
}.

Lemma holds_entry_ok d G a p e : dir_ok d G → holds d a p e → entry_ok (tiles d) (G a) e.
Proof. intros Hd (Hp & He & <-). by apply (dk_entry d G Hd p). Qed.

Lemma entry_ok_address n S e a : entry_ok n S e → entry_ok n S (DirectoryEntry.setAddress a e).
Proof. done. Qed.

Lemma create_entry_ok p a :
  Tracker.good_params p →
  entry_ok (Tracker.max_num_sharers p) ∅ (DirectoryEntry.setAddress a (DirectoryEntry.create p)).
Proof. intros Hp. split; [by apply Tracker.create_tracks|done]. Qed.

Lemma dir_ok_quiet d d' G : quiet d d' → dir_ok d G → dir_ok d' G.
Proof.
  intros Hq [H1 H2 H3 H4 H5]. destruct (quiet_fields d d' Hq) as (E1 & E2 & _ & _ & E3 & _).
  split; [by eapply quiet_wf|by rewrite E3| |done|].
  - intros p e. unfold tiles. rewrite E1, E2, E3. apply H3.
  - intros a Ha. apply H5. intros p e Hh. apply (Ha p e). by apply (quiet_holds d d').
Qed.

(** An entry changes: the address stays. *)
Lemma updated_holds d a p e e' b q f :
  wf d → a ≠ INVALID_ADDRESS → holds d a p e → DirectoryEntry.getAddress e' = a →
  holds (updated d p e') b q f ↔ (b = a ∧ q = p ∧ f = e') ∨ (b ≠ a ∧ holds d b q f).
Proof.
  intros Hwf Ha Hh He'. pose proof Hh as (Hp & He & Hea). unfold holds. rewrite updated_lookup.
  change (live (updated d p e')) with (live d). split.
  - intros (Hq & [[-> ->]|[Hne Hf]] & <-); [by left|right]. split; [|done]. intros Hfa. apply Hne.
    by apply (wf_unique d Hwf a q p f e).
  - intros [(-> & -> & ->)|(Hb & Hq & Hf & Hfa)]; [by auto|]. split; [done|]. split; [|done].
    right. split; [|done]. intros ->. congruence.
Qed.

Lemma dir_ok_updated d G a p e e' S :
  dir_ok d G → a ≠ INVALID_ADDRESS → holds d a p e → DirectoryEntry.getAddress e' = a →
  entry_ok (tiles d) S e' → dir_ok (updated d p e') (upd G a S).
Proof.
  intros Hd Ha Hh He' Hok. pose proof Hd as [H1 H2 H3 H4 H5]. pose proof Hh as (Hp & He & Hea). split.
  - apply (wf_updated d p e); [done..|]. left. congruence.
  - done.
  - intros q f Hq [[-> ->]|[Hne Hf]]%updated_lookup; [by rewrite He', upd_eq|].
    rewrite upd_ne; [by apply (H3 q)|]. intros Hfa. apply Hne. by apply (wf_unique d H1 a q p f e).
  - rewrite upd_ne by congruence. done.
  - intros b Hb. destruct (decide (b = a)) as [->|Hne].
    { destruct (Hb p e'). apply (updated_holds d a p e); auto. }
    rewrite upd_ne by done. apply H5. intros q f Hq. apply (Hb q f). apply (updated_holds d a p e); auto.
Qed.

(** A free way takes an address. *)
Lemma renamed_holds d a p e b q f :
  p ∈ live d → _heap d !! p = Some e → DirectoryEntry.getAddress e = INVALID_ADDRESS →
  (∀ q f, ¬ holds d a q f) → b ≠ INVALID_ADDRESS →
  holds (updated d p (DirectoryEntry.setAddress a e)) b q f ↔
  (b = a ∧ q = p ∧ f = DirectoryEntry.setAddress a e) ∨ holds d b q f.
Proof.
  intros Hp He Hinv Hno Hb. unfold holds at 1. rewrite updated_lookup.
  change (live (updated d p _)) with (live d). split.
  - intros (Hq & [[-> ->]|[Hne Hf]] & <-); [by left|by right].
  - intros [(-> & -> & ->)|(Hq & Hf & Hfa)]; [by auto|]. split; [done|]. split; [|done].
    right. split; [|done]. intros ->. congruence.
Qed.

Lemma dir_ok_renamed d G a p e :
  dir_ok d G → a ≠ INVALID_ADDRESS → p ∈ ways d (set_of d a) → _heap d !! p = Some e →
  DirectoryEntry.getAddress e = INVALID_ADDRESS → (∀ q f, ¬ holds d a q f) →
  dir_ok (updated d p (DirectoryEntry.setAddress a e)) G.
Proof.
  intros Hd Ha Hp He Hinv Hno. pose proof Hd as [H1 H2 H3 H4 H5].
  assert (p ∈ live d) as Hl by by eapply ways_live. split; [| done| |done|].
  - apply (wf_updated d p e); [done..|]. by right.
  - intros q f Hq [[-> ->]|[Hne Hf]]%updated_lookup; [|by apply (H3 q)].
    change (DirectoryEntry.getAddress _) with a. rewrite (H5 a) by done. apply entry_ok_address.
    specialize (H3 p e Hl He). by rewrite Hinv, H4 in H3.
  - intros b Hb. destruct (decide (b = INVALID_ADDRESS)) as [->|Hbi]; [done|].
    apply H5. intros q f Hq. apply (Hb q f). apply (renamed_holds d a p e); auto.
Qed.

(** An entry is replaced. *)
Lemma dir_ok_with_replaced d G k p a :
  dir_ok d G → zlookup (_directory d) k = Some p → wf (with_replaced d k p a) →
  (∀ q f, ¬ holds d a q f) → dir_ok (with_replaced d k p a) G.
Proof.
  intros [H1 H2 H3 H4 H5] Hk Hwf Hno. split; [done|done| |done|].
  - intros q f. rewrite (with_replaced_live d k p a Hk), elem_of_cons. cbn. intros Hq [[<- <-]|[Hne Hf]]%lookup_insert_Some.
    + cbn. rewrite (H5 a) by done. by apply create_entry_ok.
    + apply (H3 q); [by destruct Hq|done].
  - intros b Hb. apply H5. intros q f Hq. apply (Hb q f). apply with_replaced_holds; auto.
Qed.

(** A replaced entry without sharers is removed. *)
Lemma dir_ok_without d G a p e l1 l2 :
  dir_ok d G → holds d a p e → G a = ∅ → _replaced_directory_entry_list d = l1 ++ p :: l2 →
  dir_ok (without d p (l1 ++ l2)) G.
Proof.
  intros [H1 H2 H3 H4 H5] (Hp & He & Hea) HG Hl. split; [by apply wf_without|done| |done|].
  - intros q f [Hq _]%(without_live d p l1 l2) Hf; [|done..]. apply (H3 q f Hq).
    cbn in Hf. by apply lookup_delete_Some in Hf as [_ ?].
  - intros b Hb. destruct (decide (b = a)) as [->|Hne]; [done|]. apply H5. intros q f Hq.
    apply (Hb q f). apply without_holds; [done|done|]. split; [done|]. intros ->.
    destruct Hq as (_ & Hf & <-). congruence.
Qed.

(** ** Requests

    A queue is seen as the list of its messages: the times of the requests do
    not matter here. *)

Definition is_nullify (m : ShmemMsg.ShmemMsg) : bool :=
  bool_decide (ShmemMsg._msg_type m = ShmemMsg.NULLIFY_REQ).

(** Requests of the caches, from different tiles that are not sharers. *)
Definition requests_ok (n : Z) (S : gset Z) (a : Z) (l : list ShmemMsg.ShmemMsg) : Prop :=
  Forall (λ r, ShmemMsg._address r = a ∧ (ShmemMsg._msg_type r = ShmemMsg.EX_REQ ∨ ShmemMsg._msg_type r = ShmemMsg.SH_REQ) ∧
               tile_in n (ShmemMsg._requester r) ∧ ShmemMsg._requester r ∉ S) l ∧
  NoDup (ShmemMsg._requester <$> l).

(** A queue: the directory's own request can only be at the front. *)
Definition queue_ok (n : Z) (S : gset Z) (a : Z) (l : list ShmemMsg.ShmemMsg) : Prop :=
  match l with
  | [] => True
  | r :: l' => if is_nullify r then ShmemMsg._address r = a ∧ requests_ok n S a l' else requests_ok n S a l
  end.

Lemma requests_queue n S a l : requests_ok n S a l → queue_ok n S a l.
Proof.
  intros Hl. destruct l as [|r l]; [done|]. cbn. case_match eqn:E; [|done]. unfold is_nullify in E. breflect.
  destruct Hl as [[(_ & Ht & _) _]%Forall_cons_1 _]. destruct Ht; congruence.
Qed.

Lemma requests_not_nullify n S a r l : requests_ok n S a (r :: l) → is_nullify r = false.
Proof.
  intros [[(_ & Ht & _) _]%Forall_cons_1 _]. unfold is_nullify. apply bool_decide_eq_false_2.
  destruct Ht; congruence.
Qed.

Lemma requests_subset n S S' a l :
  requests_ok n S a l → (∀ r, r ∈ l → ShmemMsg._requester r ∉ S → ShmemMsg._requester r ∉ S') → requests_ok n S' a l.
Proof.
  intros [H1 H2] Hs. split; [|done]. rewrite Forall_forall in *. intros r Hr.
  destruct (H1 r Hr) as (?&?&?&?). auto.
Qed.

Lemma queue_subset n S S' a l : queue_ok n S a l → S' ⊆ S → queue_ok n S' a l.
Proof.
  intros Hl Hs. destruct l as [|r l]; [done|]. cbn in *. case_match.
  - destruct Hl as [Ha Hl]. split; [done|]. apply (requests_subset n S); [done|set_solver].
  - apply (requests_subset n S); [done|set_solver].
Qed.

(** Serving the first request makes its requester a sharer. *)
Lemma requests_served n S a r l :
  requests_ok n S a (r :: l) → requests_ok n ({[ShmemMsg._requester r]} ∪ S) a l.
Proof.
  intros [[_ H1]%Forall_cons_1 [H2 H3]%NoDup_cons]. split; [|done]. rewrite Forall_forall in *.
  intros q Hq. destruct (H1 q Hq) as (?&?&?&?). split_and!; [done..|].
  apply not_elem_of_union. split; [|done]. intros Heq%elem_of_singleton. apply H2.
  rewrite <- Heq. by apply list_elem_of_fmap_2.
Qed.

Lemma requests_tail n S a r l : requests_ok n S a (r :: l) → requests_ok n S a l.
Proof. intros [[_ ?]%Forall_cons_1 [_ ?]%NoDup_cons]. done. Qed.

Lemma queue_tail n S a r l : queue_ok n S a (r :: l) → requests_ok n S a l.
Proof. cbn. case_match; [by intros [_ ?]|apply requests_tail]. Qed.

(** A new request of a tile that is neither a sharer nor waiting. *)
Lemma queue_enqueue n S a l r :
  queue_ok n S a l → requests_ok n S a [r] → (∀ q, q ∈ l → is_nullify q = false → ShmemMsg._requester q ≠ ShmemMsg._requester r) →
  queue_ok n S a (l ++ [r]).
Proof.
  intros Hl Hr Hd.
  assert (∀ l0, requests_ok n S a l0 → (∀ q, q ∈ l0 → ShmemMsg._requester q ≠ ShmemMsg._requester r) → requests_ok n S a (l0 ++ [r])) as Happ.
  { intros l0 [H1 H2] H3. destruct Hr as [H4 _]. split; [by apply Forall_app|]. rewrite fmap_app.
    apply NoDup_app. split; [done|]. split; [|apply NoDup_singleton]. intros x Hx Hx'.
    apply list_elem_of_fmap in Hx as (q & -> & Hq). apply list_elem_of_singleton in Hx'. by apply (H3 q). }
  assert (∀ l0, requests_ok n S a l0 → ∀ q, q ∈ l0 → is_nullify q = false) as Hnn.
  { intros l0 [H1 _] q Hq. rewrite Forall_forall in H1. destruct (H1 q Hq) as (_ & Ht & _).
    unfold is_nullify. apply bool_decide_eq_false_2. destruct Ht; congruence. }
  destruct l as [|q l]; [by apply requests_queue|]. cbn in *. case_match eqn:E.
  - destruct Hl as [Ha Hl]. split; [done|]. apply Happ; [done|]. intros x Hx. apply Hd; [by right|by apply (Hnn l)].
  - apply (Happ (q :: l)); [done|]. intros x Hx. apply Hd; [done|by apply (Hnn (q :: l))].
Qed.

(** ** The messages sent *)

Definition is_reply (p : Packet.Packet) : bool :=
  match ShmemMsg._msg_type (ShmemMsg.object (Packet.data p)) with
  | ShmemMsg.EX_REP | ShmemMsg.SH_REP => true
  | _ => false
  end.

(** The tiles to which a list of packets brings the line of [a]. *)
Definition granted (l : list Packet.Packet) (a : Z) : gset Z :=
  list_to_set (omap (λ p, if is_reply p && (ShmemMsg._address (ShmemMsg.object (Packet.data p)) =? a)
                          then Packet.receiver p else None) l).

Lemma granted_app l1 l2 a : granted (l1 ++ l2) a = granted l1 a ∪ granted l2 a.
Proof. unfold granted. by rewrite omap_app, list_to_set_app_L. Qed.
Lemma granted_nil a : granted [] a = ∅.
Proof. done. Qed.

(** The tiles to which they bring it exclusively. *)
Definition is_exclusive (p : Packet.Packet) : bool :=
  match ShmemMsg._msg_type (ShmemMsg.object (Packet.data p)) with ShmemMsg.EX_REP => true | _ => false end.
Definition ex_granted (l : list Packet.Packet) (a : Z) : gset Z :=
  list_to_set (omap (λ p, if is_exclusive p && (ShmemMsg._address (ShmemMsg.object (Packet.data p)) =? a)
                          then Packet.receiver p else None) l).
Lemma ex_granted_app l1 l2 a : ex_granted (l1 ++ l2) a = ex_granted l1 a ∪ ex_granted l2 a.
Proof. unfold ex_granted. by rewrite omap_app, list_to_set_app_L. Qed.

(** A packet about the line of [a]; one that asks tile [x] something. *)
Definition addressed (a : Z) (p : Packet.Packet) : Prop :=
  ShmemMsg._address (ShmemMsg.object (Packet.data p)) = a.
Definition asks (a x : Z) (ty : ShmemMsg.Type_) (p : Packet.Packet) : Prop :=
  addressed a p ∧ ShmemMsg._msg_type (ShmemMsg.object (Packet.data p)) = ty ∧
  (Packet.receiver p = Some x ∨ Packet.receiver p = None).

(** Tile [x] was sent the request [ty] for the line of [a], by a message of its
    own or a broadcast, and has not been sent the line since. *)
Fixpoint asked (net : list Packet.Packet) (a x : Z) (ty : ShmemMsg.Type_) : Prop :=
  match net with
  | [] => False
  | p :: net => asked net a x ty ∨ (asks a x ty p ∧ x ∉ granted net a)
  end.

Lemma asked_app net l a x ty :
  asked (net ++ l) a x ty ↔ asked l a x ty ∨ (asked net a x ty ∧ x ∉ granted l a).
Proof.
  induction net as [|p net IH]; cbn; [naive_solver|]. rewrite IH, granted_app, not_elem_of_union. naive_solver.
Qed.
Lemma granted_other l a b : Forall (addressed a) l → b ≠ a → granted l b = ∅.
Proof.
  intros Hl Hb. induction Hl as [|p l Hp _ IH]; [done|]. change (p :: l) with ([p] ++ l). rewrite granted_app, IH.
  unfold granted. cbn. unfold addressed in Hp. rewrite Hp, (proj2 (Z.eqb_neq a b)), andb_false_r by congruence. done.
Qed.
Lemma ex_granted_reply l a : ex_granted l a ⊆ granted l a.
Proof.
  induction l as [|p l IH]; [done|]. change (p :: l) with ([p] ++ l). rewrite granted_app, ex_granted_app.
  apply union_mono; [|done]. unfold granted, ex_granted, is_exclusive, is_reply. cbn.
  by destruct (ShmemMsg._msg_type _).
Qed.
Lemma asked_about l a b x ty : Forall (addressed a) l → asked l b x ty → b = a.
Proof. induction 1 as [|p l Hp Hl IH]; cbn; [done|]. intros [?|[[Hb _] _]]; [by apply IH|]. unfold addressed in *. congruence. Qed.
Lemma asked_other net l a b x ty : Forall (addressed a) l → b ≠ a → asked (net ++ l) b x ty ↔ asked net b x ty.
Proof.
  intros Hl Hb. rewrite asked_app, (granted_other l a b) by done. split; [|set_solver].
  intros [Hx|[? _]]; [|done]. by destruct (Hb (asked_about l a b x ty Hl Hx)).
Qed.

(** What the request [m] at the front of a queue waits for: the owner was asked
    to write the line back or to flush it; one sharer, to make room for another,
    or all sharers were asked to drop it. *)
Definition asked_for (net : list Packet.Packet) (S : gset Z) (a : Z) (m : ShmemMsg.ShmemMsg)
    (e : DirectoryEntry.DirectoryEntry) : Prop :=
  let shared := bool_decide (ShmemMsg._msg_type m = ShmemMsg.SH_REQ) in
  match DirectoryEntry.getDState e with
  | DirectoryState.MODIFIED =>
    asked net a (DirectoryEntry.getOwner e) (if shared then ShmemMsg.WB_REQ else ShmemMsg.FLUSH_REQ)
  | DirectoryState.SHARED =>
    if shared then ∃ y, y ∈ S ∧ asked net a y ShmemMsg.INV_REQ else ∀ y, y ∈ S → asked net a y ShmemMsg.INV_REQ
  | _ => True
  end.
Lemma asked_for_ext net net' S a m e :
  (∀ x ty, asked net a x ty → asked net' a x ty) → asked_for net S a m e → asked_for net' S a m e.
Proof. intros Hn. unfold asked_for. destruct (DirectoryEntry.getDState e); try done; [|by apply Hn]. case_match; naive_solver. Qed.

(** ** The controller *)
Section DirectoryProofs.
Context `{DramTiming}.

(** The errors a handler may stop with. *)
Context (Err : error → Prop) (Err_clock : Err (ELog "ShmemPerfModel::incrCycleCount")).

Definition queue (c : DramDirectoryCntlr) (a : Z) : list ShmemMsg.ShmemMsg :=
  ShmemReq.m_shmem_msg <$> HashMapQueue.contents (_dram_directory_req_queue_list c) a.
Definition held (c : DramDirectoryCntlr) (a : Z) (p : entry_ptr) (e : DirectoryEntry.DirectoryEntry) : Prop :=
  holds (_dram_directory_cache c) a p e.
Definition replaced (c : DramDirectoryCntlr) (p : entry_ptr) : Prop :=
  p ∈ _replaced_directory_entry_list (_dram_directory_cache c).
Definition memory (c : DramDirectoryCntlr) : gmap Z (list Z) := DramCntlr._data_map (_dram_cntlr c).
Definition num_tiles (c : DramDirectoryCntlr) : Z := tiles (_dram_directory_cache c).

(** What does not concern one address. *)
Record base (c : DramDirectoryCntlr) (G : sharers) : Prop := {
  bs_dir : dir_ok (_dram_directory_cache c) G;
  bs_queues : HashMapQueue.wf (_dram_directory_req_queue_list c);
  bs_size : DramCntlr._cache_line_size (_dram_cntlr c) = _cache_line_size c;
  bs_line : 0 < _cache_line_size c;
  bs_length a l : memory c !! a = Some l → zlength l = _cache_line_size c
}.

Lemma base_ext c G G' : (∀ b, G b = G' b) → base c G → base c G'.
Proof.
  intros HG [[H1 H2 H3 H4 H5] B2 B3 B4 B5]. split; try done. split; try done.
  - intros p e Hp He. rewrite <- HG. by apply (H3 p e).
  - by rewrite <- HG.
  - intros a Ha. rewrite <- HG. by apply H5.
Qed.

(** The memory has the value of a line that no tile may modify. *)
Definition current (c : DramDirectoryCntlr) (V : values) (a : Z) : Prop :=
  (∀ p e, held c a p e → DirectoryEntry.getDState e ≠ DirectoryState.MODIFIED) →
  DramCntlr.contents (_dram_cntlr c) a = V a.

(** The requests of an address are of tiles that do not share it, and the
    memory knows the lines that are shared. *)
Definition addr_ok (c : DramDirectoryCntlr) (G : sharers) (a : Z) : Prop :=
  queue_ok (num_tiles c) (G a) a (queue c a) ∧ (G a ≠ ∅ → is_Some (memory c !! a)).

(** The owner of a line has not been asked to write it back since it got it. *)
Definition unasked (c : DramDirectoryCntlr) (a : Z) : Prop :=
  ∀ p e, held c a p e → DirectoryEntry.getDState e = DirectoryState.MODIFIED →
    ¬ asked (_net c) a (DirectoryEntry.getOwner e) ShmemMsg.WB_REQ.

(** No request function is working on the address: a request that waits does
    so for the sharers, which were asked for the line; an owner was asked to
    write its line back only if a shared request is at the front; the entry that is being replaced is the one whose queue
    starts with the directory's own request. *)
Definition settled (c : DramDirectoryCntlr) (G : sharers) (V : values) (a : Z) : Prop :=
  current c V a ∧
  match queue c a with
  | [] => (∀ p e, held c a p e → ¬ replaced c p) ∧ unasked c a
  | m :: _ => ∃ p e, held c a p e ∧ DirectoryEntry.getDState e ≠ DirectoryState.UNCACHED ∧
      (replaced c p ↔ is_nullify m = true) ∧ asked_for (_net c) (G a) a m e ∧
      (ShmemMsg._msg_type m ≠ ShmemMsg.SH_REQ → unasked c a)
  end.

Definition addr_inv (c : DramDirectoryCntlr) (G : sharers) (V : values) (a : Z) : Prop :=
  addr_ok c G a ∧ settled c G V a.

Record dir_inv (c : DramDirectoryCntlr) (G : sharers) (V : values) : Prop := {
  di_base : base c G;
  di_addr a : a ≠ INVALID_ADDRESS → addr_inv c G V a
}.

Record inv_except (c : DramDirectoryCntlr) (G : sharers) (V : values) (a : Z) : Prop := {
  ie_base : base c G;
  ie_addr b : b ≠ INVALID_ADDRESS → b ≠ a → addr_inv c G V b
}.

Lemma dir_inv_intro c G V a : inv_except c G V a → addr_inv c G V a → dir_inv c G V.
Proof. intros [H1 H2] H3. split; [done|]. intros b Hb. destruct (decide (b = a)) as [->|]; auto. Qed.
Lemma dir_inv_except c G V a : dir_inv c G V → inv_except c G V a.
Proof. intros [H1 H2]. split; auto. Qed.

Lemma contents_length c G a : base c G → zlength (DramCntlr.contents (_dram_cntlr c) a) = _cache_line_size c.
Proof.
  intros [_ _ H1 H2 H3]. unfold DramCntlr.contents. destruct (_ !! a) as [l|] eqn:E; cbn; [by apply (H3 a)|].
  unfold zlength. rewrite length_replicate. lia.
Qed.

(** ** Frames

    [c'] differs from [c] at the address [a] at most. *)

Record frame (a : Z) (c : DramDirectoryCntlr) (G : sharers) (c' : DramDirectoryCntlr) (G' : sharers) : Prop := {
  fr_tiles : num_tiles c' = num_tiles c;
  fr_line : _cache_line_size c' = _cache_line_size c;
  fr_size : DramCntlr._cache_line_size (_dram_cntlr c') = DramCntlr._cache_line_size (_dram_cntlr c);
  fr_sharers b : b ≠ a → G' b = G b;
  fr_queue b : b ≠ a → queue c' b = queue c b;
  fr_memory b : b ≠ a → memory c' !! b = memory c !! b;
  fr_held b p e : b ≠ INVALID_ADDRESS → b ≠ a → held c' b p e ↔ held c b p e;
  fr_replaced b p e : b ≠ INVALID_ADDRESS → b ≠ a → held c b p e → replaced c' p ↔ replaced c p;
  fr_net : ∃ l, _net c' = _net c ++ l ∧ Forall (addressed a) l
}.

Lemma frame_refl a c G : frame a c G c G.
Proof. split; try done. exists []. by rewrite app_nil_r. Qed.

Lemma frame_trans a c1 G1 c2 G2 c3 G3 :
  frame a c1 G1 c2 G2 → frame a c2 G2 c3 G3 → frame a c1 G1 c3 G3.
Proof.
  intros [A1 A2 A3 A4 A5 A6 A7 A8 (l1 & A9 & A10)] [B1 B2 B3 B4 B5 B6 B7 B8 (l2 & B9 & B10)]. split; try congruence.
  - intros b Hb. by rewrite B4, A4.
  - intros b Hb. by rewrite B5, A5.
  - intros b Hb. by rewrite B6, A6.
  - intros b p e Hi Hb. by rewrite B7, A7.
  - intros b p e Hi Hb Hh. rewrite (B8 b p e), (A8 b p e); [done|done..|by apply A7].
  - exists (l1 ++ l2). rewrite B9, A9, app_assoc. split; [done|]. by apply Forall_app.
Qed.

Lemma current_ext c c' V a :
  (∀ p e, held c' a p e ↔ held c a p e) → memory c' !! a = memory c !! a →
  DramCntlr._cache_line_size (_dram_cntlr c') = DramCntlr._cache_line_size (_dram_cntlr c) →
  current c V a → current c' V a.
Proof.
  intros Hh Hm Hs Hc Hnm. unfold DramCntlr.contents. fold (memory c'). rewrite Hm, Hs. apply Hc.
  intros p e Hp. apply (Hnm p e). by apply Hh.
Qed.

(** Two states agree at the address [b]. *)
Lemma addr_inv_agrees c G c' G' V b :
  num_tiles c' = num_tiles c → DramCntlr._cache_line_size (_dram_cntlr c') = DramCntlr._cache_line_size (_dram_cntlr c) →
  G' b = G b → queue c' b = queue c b → memory c' !! b = memory c !! b →
  (∀ p e, held c' b p e ↔ held c b p e) → (∀ p e, held c b p e → replaced c' p ↔ replaced c p) →
  (∀ x ty, asked (_net c') b x ty ↔ asked (_net c) b x ty) →
  addr_inv c G V b → addr_inv c' G' V b.
Proof.
  intros A1 A3 A4 A5 A6 A7 A8 A9 [[Hq Hm] [Hc Hs]].
  assert (unasked c b → unasked c' b) as Hu by (intros Hu p e Hh%A7 Hst; rewrite A9; by apply (Hu p e)).
  split; [split|split].
  - by rewrite A1, A4, A5.
  - by rewrite A4, A6.
  - apply (current_ext c); auto.
  - rewrite A5 by done. destruct (queue c b) as [|m l] eqn:Hqb.
    + destruct Hs as [Hs Hs2]. split; [|by apply Hu]. intros p e Hh%A7. rewrite (A8 p e) by done. by apply (Hs p e).
    + destruct Hs as (p & e & Hh & Hd & Hr & Hf & Hw). exists p, e. split_and!; [by apply A7|done|by rewrite (A8 p e)| |auto].
      rewrite A4. apply (asked_for_ext (_net c)); [|done]. intros x ty. by rewrite A9.
Qed.

Lemma frame_addr_inv a c G c' G' V b :
  frame a c G c' G' → b ≠ INVALID_ADDRESS → b ≠ a → addr_inv c G V b → addr_inv c' G' V b.
Proof.
  intros [] Hi Hb. apply addr_inv_agrees; auto.
  - intros p e. by apply (fr_replaced0 b p e).
  - intros x ty. destruct fr_net0 as (l & -> & Hl). by apply (asked_other _ l a).
Qed.

Lemma frame_except a c G c' G' V :
  frame a c G c' G' → base c' G' → inv_except c G V a → inv_except c' G' V a.
Proof. intros Hf Hb [_ H2]. split; [done|]. intros b Hi Hne. apply (frame_addr_inv a c G); auto. Qed.

(** ** Progress *)

(** A reply carries the value of its line. *)
Definition reply_ok (V : values) (p : Packet.Packet) : Prop :=
  is_reply p = true → ShmemMsg.payload (Packet.data p) = V (ShmemMsg._address (ShmemMsg.object (Packet.data p))).

(** Tile [x] may modify the line of [b]. *)
Definition modified (c : DramDirectoryCntlr) (b x : Z) : Prop :=
  b ≠ INVALID_ADDRESS ∧ ∃ p e, held c b p e ∧ DirectoryEntry.getDState e = DirectoryState.MODIFIED ∧ DirectoryEntry.getOwner e = x.

Lemma modified_ext c c' : (∀ b p e, b ≠ INVALID_ADDRESS → held c' b p e ↔ held c b p e) → ∀ b x, modified c' b x ↔ modified c b x.
Proof. intros Hh b x. unfold modified. split; intros (Hb & p & e & He & ?); (split; [done|]); exists p, e; (split; [by apply Hh|done]). Qed.

(** What a handler did since [net] had been sent and lines were modified as in
    [M]: it sent messages, the tiles it sent lines to are the new sharers, and
    those it sent them to exclusively may modify them. *)
Definition progress_from (V : values) (net : list Packet.Packet) (M : Z → Z → Prop) (G : sharers)
    (c' : DramDirectoryCntlr) (G' : sharers) : Prop :=
  ∃ new, _net c' = net ++ new ∧ (∀ a, G' a = G a ∪ granted new a) ∧ Forall (reply_ok V) new ∧
    ∀ b x, b ≠ INVALID_ADDRESS → modified c' b x ↔ M b x ∨ x ∈ ex_granted new b.
Definition progress (V : values) (c : DramDirectoryCntlr) (G : sharers) (c' : DramDirectoryCntlr) (G' : sharers) : Prop :=
  progress_from V (_net c) (modified c) G c' G'.

Lemma progress_from_refl V M c' G :
  (∀ b x, b ≠ INVALID_ADDRESS → modified c' b x ↔ M b x) → progress_from V (_net c') M G c' G.
Proof.
  intros HM. exists []. rewrite app_nil_r. split_and!; [done| |done|].
  - intros a. rewrite granted_nil. set_solver.
  - intros b x Hb. rewrite HM by done. set_solver.
Qed.
Lemma progress_refl V c c' G : _net c' = _net c → (∀ b x, modified c' b x ↔ modified c b x) → progress V c G c' G.
Proof. intros Hn HM. unfold progress. rewrite <- Hn. by apply progress_from_refl. Qed.

Lemma progress_from_trans V net M G1 c2 G2 c3 G3 :
  progress_from V net M G1 c2 G2 → progress V c2 G2 c3 G3 → progress_from V net M G1 c3 G3.
Proof.
  intros (n1 & E1 & H1 & F1 & M1) (n2 & E2 & H2 & F2 & M2). exists (n1 ++ n2). rewrite E2, E1, app_assoc.
  split_and!; [done| |by apply Forall_app|].
  - intros a. rewrite H2, H1, granted_app. set_solver.
  - intros b x Hb. rewrite M2, M1, ex_granted_app by done. set_solver.
Qed.
Lemma progress_trans V c1 G1 c2 G2 c3 G3 :
  progress V c1 G1 c2 G2 → progress V c2 G2 c3 G3 → progress V c1 G1 c3 G3.
Proof. apply progress_from_trans. Qed.

(** ** Steps that change clocks, counters and times only *)

Record calm (c c' : DramDirectoryCntlr) : Prop := {
  ca_dir : quiet (_dram_directory_cache c) (_dram_directory_cache c');
  ca_queue b : queue c' b = queue c b;
  ca_queues : HashMapQueue.wf (_dram_directory_req_queue_list c) → HashMapQueue.wf (_dram_directory_req_queue_list c');
  ca_dram : _dram_cntlr c' = _dram_cntlr c;
  ca_line : _cache_line_size c' = _cache_line_size c;
  ca_net : _net c' = _net c
}.

Lemma calm_refl c : calm c c.
Proof. by split. Qed.
Lemma calm_trans c1 c2 c3 : calm c1 c2 → calm c2 c3 → calm c1 c3.
Proof.
  intros [A1 A2 A3 A4 A5 A6] [B1 B2 B3 B4 B5 B6]. split; try congruence; [by eapply quiet_trans|auto].
Qed.
Lemma calm_held c c' b p e : calm c c' → held c' b p e ↔ held c b p e.
Proof. intros []. by apply quiet_holds. Qed.
Lemma calm_replaced c c' p : calm c c' → replaced c' p ↔ replaced c p.
Proof. intros []. unfold replaced. by destruct (quiet_fields _ _ ca_dir0) as (_ & _ & _ & -> & _). Qed.
Lemma calm_tiles c c' : calm c c' → num_tiles c' = num_tiles c.
Proof. intros []. unfold num_tiles, tiles. by destruct (quiet_fields _ _ ca_dir0) as (_ & _ & _ & _ & -> & _). Qed.
Lemma calm_memory c c' : calm c c' → memory c' = memory c.
Proof. intros []. unfold memory. by rewrite ca_dram0. Qed.

Lemma calm_base c c' G : calm c c' → base c G → base c' G.
Proof.
  intros Hc [H1 H2 H3 H4 H5]. pose proof (calm_memory c c' Hc) as Hm. destruct Hc as [A1 A2 A3 A4 A5 A6].
  split; rewrite ?A4, ?A5, ?Hm; auto. by eapply dir_ok_quiet.
Qed.

Lemma calm_frame c c' G a : calm c c' → frame a c G c' G.
Proof.
  intros Hc. split; try done; [by apply calm_tiles|by apply ca_line|by rewrite (ca_dram c c')|..];
    [| | | |exists []; by rewrite app_nil_r, (ca_net c c')]; intros.
  - by apply ca_queue.
  - by rewrite (calm_memory c).
  - by apply calm_held.
  - by apply calm_replaced.
Qed.

Lemma calm_current c c' V a : calm c c' → current c V a → current c' V a.
Proof.
  intros Hc. apply current_ext; [intros; by apply calm_held|by rewrite (calm_memory c)|by rewrite (ca_dram c c')].
Qed.
Lemma calm_addr_ok c c' G a : calm c c' → addr_ok c G a → addr_ok c' G a.
Proof.
  intros Hc [H1 H2]. unfold addr_ok. by rewrite (calm_tiles c c'), (ca_queue c c'), (calm_memory c c') by done.
Qed.
Lemma calm_progress V c c' G : calm c c' → progress V c G c' G.
Proof. intros Hc. apply progress_refl; [by apply ca_net|]. apply modified_ext. intros b p e _. by apply calm_held. Qed.
Lemma calm_asked c c' a x ty : calm c c' → asked (_net c') a x ty ↔ asked (_net c) a x ty.
Proof. intros Hc. by rewrite (ca_net c c'). Qed.
Lemma calm_unasked c c' a : calm c c' → unasked c a → unasked c' a.
Proof. intros Hc Hu p e Hh%(calm_held c c'); [|done]. rewrite (calm_asked c c') by done. by apply (Hu p e). Qed.

(** Every way of the set of [a] holds another line for which a request waits. *)
Definition set_full (c : DramDirectoryCntlr) (a : Z) : Prop :=
  let d := _dram_directory_cache c in
  ∀ p, p ∈ ways d (set_of d a) → ∃ b e, b ≠ INVALID_ADDRESS ∧ b ≠ a ∧ held c b p e ∧ queue c b ≠ [].

Lemma set_full_back a c c' :
  ways (_dram_directory_cache c') (set_of (_dram_directory_cache c') a) = ways (_dram_directory_cache c) (set_of (_dram_directory_cache c) a) →
  (∀ b p e, b ≠ INVALID_ADDRESS → b ≠ a → held c' b p e → held c b p e) → (∀ b, b ≠ a → queue c' b = queue c b) →
  set_full c' a → set_full c a.
Proof.
  intros Hw Hh Hq Hf p Hp. destruct (Hf p) as (b & e & Hb & Hba & He & Hn); [by rewrite Hw|].
  exists b, e. rewrite <- Hq by done. auto.
Qed.
Lemma quiet_set_full a c c' :
  quiet (_dram_directory_cache c) (_dram_directory_cache c') → (∀ b, b ≠ a → queue c' b = queue c b) → set_full c' a → set_full c a.
Proof.
  intros Hd Hq. apply set_full_back; [|intros b p e _ _ Hh; by apply (quiet_holds _ _ b p e Hd)|done].
  by rewrite (quiet_set_of _ _ a Hd), (proj1 (quiet_ways _ _ _ Hd)).
Qed.
Lemma calm_set_full c c' a : calm c c' → set_full c' a → set_full c a.
Proof. intros []. apply quiet_set_full; auto. Qed.

(** A set without a replaceable entry. *)
Definition no_candidate : error := ELog "Cant find a directory entry to be replaced".

Lemma entry_runs p e c a Q : held c a p e → Q e c → runs Err (entry p) c Q.
Proof.
  intros (_ & He & _) HQ. apply runs_zoom, (deref_runs Err p e); [done|]. by destruct c.
Qed.

(** The controller after the entry [p] changed. *)
Definition with_entry (c : DramDirectoryCntlr) (p : entry_ptr) (e : DirectoryEntry.DirectoryEntry) : DramDirectoryCntlr :=
  c <| _dram_directory_cache ::= λ d, updated d p e |>.

Lemma set_entry_runs p e c (Q : unit → DramDirectoryCntlr → Prop) :
  Q tt (with_entry c p e) → runs Err (set_entry p e) c Q.
Proof. done. Qed.

Lemma with_entry_held c G a p e e' b q f :
  base c G → a ≠ INVALID_ADDRESS → held c a p e → DirectoryEntry.getAddress e' = a →
  held (with_entry c p e') b q f ↔ (b = a ∧ q = p ∧ f = e') ∨ (b ≠ a ∧ held c b q f).
Proof. intros [[Hwf _ _ _ _] _ _ _ _] Ha Hh He'. by apply (updated_holds _ a p e). Qed.

Lemma with_entry_frame c G a p e e' S :
  base c G → a ≠ INVALID_ADDRESS → held c a p e → DirectoryEntry.getAddress e' = a →
  frame a c G (with_entry c p e') (upd G a S).
Proof.
  intros Hb Ha Hh He'. split; try done.
  - intros b Hne. by apply upd_ne.
  - intros b q f _ Hne. rewrite (with_entry_held c G a p e) by done. naive_solver.
  - exists []. by rewrite app_nil_r.
Qed.
Lemma with_entry_set_full c G a p e e' :
  base c G → a ≠ INVALID_ADDRESS → held c a p e → DirectoryEntry.getAddress e' = a →
  set_full (with_entry c p e') a → set_full c a.
Proof.
  intros Hb Ha Hh He'. apply set_full_back; try done.
  intros b q f _ Hne. rewrite (with_entry_held c G a p e) by done. naive_solver.
Qed.
Lemma modified_with_entry c G a p e e' b x :
  base c G → a ≠ INVALID_ADDRESS → held c a p e → DirectoryEntry.getAddress e' = a →
  modified (with_entry c p e') b x ↔
  (b = a ∧ DirectoryEntry.getDState e' = DirectoryState.MODIFIED ∧ DirectoryEntry.getOwner e' = x) ∨ (b ≠ a ∧ modified c b x).
Proof.
  intros Hb Ha Hh He'. unfold modified. split.
  - intros (Hbi & q & f & Hf & Hst & Ho). apply (with_entry_held c G a p e) in Hf as [(-> & -> & ->)|[Hba Hf]]; [by left|right|done..].
    split; [done|]. split; [done|]. by exists q, f.
  - intros [(-> & Hst & Ho)|(Hba & Hbi & q & f & Hf & Hst & Ho)]; (split; [done|]).
    + exists p, e'. split; [|done]. apply (with_entry_held c G a p e); auto.
    + exists q, f. split; [|done]. apply (with_entry_held c G a p e); auto.
Qed.
Lemma modified_with_same c G a p e e' :
  base c G → a ≠ INVALID_ADDRESS → held c a p e → DirectoryEntry.getAddress e' = a →
  DirectoryEntry.getDState e' = DirectoryEntry.getDState e → DirectoryEntry.getOwner e' = DirectoryEntry.getOwner e →
  ∀ b x, modified (with_entry c p e') b x ↔ modified c b x.
Proof.
  intros Hb Ha Hh He' Hst Ho b x. rewrite (modified_with_entry c G a p e) by done. rewrite Hst, Ho. split.
  - intros [(-> & Hs & Hx)|[_ Hm]]; [|done]. split; [done|]. by exists p, e.
  - intros Hm. destruct (decide (b = a)) as [->|Hba]; [left|by right]. destruct Hm as (_ & q & f & Hf & Hs & Hx).
    assert (f = e) as ->; [|done]. destruct Hf as (Hf1 & Hf2 & Hf3), Hh as (Hh1 & Hh2 & Hh3).
    assert (q = p) as -> by (apply (wf_unique _ (dk_wf _ _ (bs_dir _ _ Hb)) a q p f e); by repeat split). congruence.
Qed.

Lemma with_entry_base c G a p e e' S :
  base c G → a ≠ INVALID_ADDRESS → held c a p e → DirectoryEntry.getAddress e' = a →
  entry_ok (num_tiles c) S e' → base (with_entry c p e') (upd G a S).
Proof. intros [H1 H2 H3 H4 H5] Ha Hh He' Hok. split; [|done..]. by apply (dir_ok_updated _ _ a p e). Qed.

Lemma with_entry_same c G a p e e' :
  base c G → a ≠ INVALID_ADDRESS → held c a p e → DirectoryEntry.getAddress e' = a →
  entry_ok (num_tiles c) (G a) e' → base (with_entry c p e') G.
Proof.
  intros Hb Ha Hh He' Hok. apply (base_ext _ (upd G a (G a))); [|by apply (with_entry_base c G a p e)].
  intros b. apply upd_same.
Qed.

(** ** Messages *)

(** The controller after it sent packets. *)
Definition with_net (c : DramDirectoryCntlr) (l : list Packet.Packet) : DramDirectoryCntlr :=
  c <| _net := _net c ++ l |>.

Lemma send_runs receiver msg c (Q : unit → DramDirectoryCntlr → Prop) :
  ShmemMsg.wf msg →
  (∀ p, Packet.receiver p = receiver → ShmemMsg.object (Packet.data p) = msg →
     ShmemMsg.payload (Packet.data p) = default [] (ShmemMsg._data_buf msg) → Q tt (with_net c [p])) →
  runs Err (send receiver msg) c Q.
Proof.
  intros Hwf HQ. destruct (Packet.packet_ok (_tile_id c) (getCycleCount c) receiver msg Hwf) as (b & Hb & _ & Hp).
  apply runs_bind, runs_gets, runs_bind. eapply runs_lift; [exact Hp|]. apply runs_modify, HQ; cbn; [done|..].
  - unfold ShmemMsg.makeMsgBuf in Hb. case_match; run_inv; done.
  - unfold ShmemMsg.makeMsgBuf in Hb. unfold ShmemMsg.wf in Hwf. destruct (ShmemMsg._data_buf msg) as [d|].
    + destruct Hwf as [H1 H2]. rewrite (proj2 (Z.ltb_lt 0 _)) in Hb by lia. cbn in Hb.
      rewrite mem_read_ok in Hb by lia. cbn in Hb. injection Hb as <-. cbn.
      rewrite drop_0, take_ge; [done|]. unfold zlength in H2. lia.
    + rewrite Hwf in Hb. cbn in Hb. by injection Hb as <-.
Qed.

(** Requests to the caches: they grant nothing; those of one kind, about one
    line, to all tiles in [R]. *)
Definition requests_for (a : Z) (ty : ShmemMsg.Type_) (R : Z → Prop) (l : list Packet.Packet) : Prop :=
  Forall (λ p, addressed a p ∧ ShmemMsg._msg_type (ShmemMsg.object (Packet.data p)) = ty) l ∧
  ∀ x, R x → asked l a x ty.

Lemma requests_addressed a ty R l : requests_for a ty R l → Forall (addressed a) l.
Proof. intros [Hl _]. eapply Forall_impl; [exact Hl|]. by intros p [? _]. Qed.
Lemma requests_no_reply a ty R l :
  ty ≠ ShmemMsg.EX_REP → ty ≠ ShmemMsg.SH_REP → requests_for a ty R l → Forall (λ p, is_reply p = false) l.
Proof. intros H1 H2 [Hl _]. eapply Forall_impl; [exact Hl|]. intros p [_ Hp]. unfold is_reply. rewrite Hp. by destruct ty. Qed.
Lemma requests_other a ty R l b x ty' : requests_for a ty R l → asked l b x ty' → ty' = ty.
Proof.
  intros [Hl _]. induction Hl as [|p l [_ Hp] Hl IH]; cbn; [done|]. intros [?|[(_ & Ht & _) _]]; [by apply IH|congruence].
Qed.

Lemma no_reply_granted l a : Forall (λ p, is_reply p = false) l → granted l a = ∅.
Proof.
  induction 1 as [|p l Hp Hl IH]; [done|]. change (p :: l) with ([p] ++ l). rewrite granted_app, IH.
  unfold granted. cbn. rewrite Hp. done.
Qed.

Lemma send_request_runs receiver ty requester a modeled c (R : Z → Prop) (Q : unit → DramDirectoryCntlr → Prop) :
  (∀ x, R x → receiver = Some x ∨ receiver = None) →
  (∀ l, requests_for a ty R l → Q tt (with_net c l)) →
  runs Err (send receiver (to_L2 ty requester a modeled)) c Q.
Proof.
  intros HR HQ. apply send_runs; [done|]. intros p Hp Ho _. apply HQ. split.
  - apply Forall_singleton. unfold addressed. by rewrite Ho.
  - intros x Hx. right. split; [|done]. unfold asks, addressed. rewrite Ho, Hp. split_and!; [done|done|by apply HR].
Qed.

Lemma send_all_runs sharers ty requester a modeled c (Q : unit → DramDirectoryCntlr → Prop) :
  ty ≠ ShmemMsg.EX_REP → ty ≠ ShmemMsg.SH_REP →
  (∀ l, requests_for a ty (λ x, x ∈ sharers) l → Q tt (with_net c l)) →
  runs Err (mfor sharers (λ x, sendMsg x (to_L2 ty requester a modeled))) c Q.
Proof.
  intros H1 H2. revert c. induction sharers as [|x sharers IH]; intros c HQ; cbn.
  - assert (requests_for a ty (λ x, x ∈ []) []) as Hl by (split; [done|]; intros x Hx; by apply not_elem_of_nil in Hx).
    specialize (HQ [] Hl). unfold with_net in HQ. cbn in HQ. rewrite app_nil_r in HQ. by destruct c.
  - apply runs_bind, (send_request_runs _ _ _ _ _ _ (λ y, y = x)); [by intros y ->; left|]. intros l Hl. apply IH. intros l' Hl'.
    specialize (HQ (l ++ l')). unfold with_net in *. cbn in *. rewrite app_assoc in HQ. apply HQ.
    pose proof (requests_no_reply a ty _ l' H1 H2 Hl') as Hn. destruct Hl as [F1 R1], Hl' as [F2 R2].
    split; [by apply Forall_app|]. intros y [->|Hy]%elem_of_cons; apply asked_app.
    + right. split; [by apply R1|]. rewrite no_reply_granted by done. set_solver.
    + left. by apply R2.
Qed.

Lemma with_net_modified c l b x : modified (with_net c l) b x ↔ modified c b x.
Proof. by apply modified_ext. Qed.

Lemma no_reply_progress V c G l : Forall (λ p, is_reply p = false) l → progress V c G (with_net c l) G.
Proof.
  intros Hl. exists l. split; [done|]. split_and!.
  - intros a. rewrite no_reply_granted by done. set_solver.
  - eapply Forall_impl; [exact Hl|]. intros p Hp Hr. cbn in Hp. congruence.
  - intros b x _. rewrite with_net_modified. pose proof (ex_granted_reply l b) as He. rewrite no_reply_granted in He by done. set_solver.
Qed.

Lemma with_net_base c l G : base c G → base (with_net c l) G.
Proof. by intros []. Qed.

(** ** Lookups *)

(** The controller after a change of its directory cache. *)
Definition with_dir (c : DramDirectoryCntlr) (d : DirectoryCache) : DramDirectoryCntlr :=
  c <| _dram_directory_cache := d |>.

Lemma with_dir_calm c d : quiet (_dram_directory_cache c) d → calm c (with_dir c d).
Proof. by split. Qed.

(** The state in which a request of [a] is under way: the entry of [a], if
    there is one, has not been replaced; without one, the handler may stop at a
    full set. *)
Record req_pre (c : DramDirectoryCntlr) (G : sharers) (V : values) (a : Z)
    (m : ShmemMsg.ShmemMsg) (l : list ShmemMsg.ShmemMsg) : Prop := {
  rp_except : inv_except c G V a;
  rp_valid : a ≠ INVALID_ADDRESS;
  rp_queue : queue c a = m :: l;
  rp_requests : requests_ok (num_tiles c) (G a) a (m :: l);
  rp_present : G a ≠ ∅ → is_Some (memory c !! a);
  rp_replaced p e : held c a p e → ¬ replaced c p;
  rp_unasked : unasked c a;
  rp_full : (∀ p e, ¬ held c a p e) → set_full c a → Err no_candidate
}.

Lemma calm_req_pre c c' G V a m l : calm c c' → req_pre c G V a m l → req_pre c' G V a m l.
Proof.
  intros Hc [H1 H2 H3 H4 H5 H6 H7 H8]. split; try done.
  - apply (frame_except a c G); [by apply calm_frame|by apply (calm_base c), (ie_base _ _ _ _ H1)|done].
  - by rewrite (ca_queue c c').
  - by rewrite (calm_tiles c c').
  - by rewrite (calm_memory c c').
  - intros p e Hh%(calm_held c c'); [|done]. rewrite (calm_replaced c c') by done. by apply (H6 p e).
  - by apply (calm_unasked c).
  - intros Hno Hf. apply H8; [|by apply (calm_set_full c c')]. intros p e Hh. apply (Hno p e). by apply (calm_held c c').
Qed.

(** A free way is taken for [a]. *)
Lemma renamed_req_pre c G V a m l p e :
  req_pre c G V a m l → p ∈ ways (_dram_directory_cache c) (set_of (_dram_directory_cache c) a) →
  _heap (_dram_directory_cache c) !! p = Some e → DirectoryEntry.getAddress e = INVALID_ADDRESS →
  (∀ q f, ¬ held c a q f) →
  req_pre (with_entry c p (DirectoryEntry.setAddress a e)) G V a m l ∧
  held (with_entry c p (DirectoryEntry.setAddress a e)) a p (DirectoryEntry.setAddress a e) ∧
  (∀ q f, held (with_entry c p (DirectoryEntry.setAddress a e)) a q f → f = DirectoryEntry.setAddress a e) ∧
  DirectoryEntry.getDState e = DirectoryState.UNCACHED.
Proof.
  intros [H1 H2 H3 H4 H5 H6 H7 H8] Hp He Hinv Hno. pose proof (ie_base _ _ _ _ H1) as [B1 B2 B3 B4 B5].
  assert (p ∈ live (_dram_directory_cache c)) as Hl by by eapply ways_live.
  assert (∀ b q f, b ≠ INVALID_ADDRESS → held (with_entry c p (DirectoryEntry.setAddress a e)) b q f ↔
    (b = a ∧ q = p ∧ f = DirectoryEntry.setAddress a e) ∨ held c b q f) as Hheld.
  { intros b q f Hb. by apply renamed_holds. }
  assert (DirectoryEntry.getDState e = DirectoryState.UNCACHED) as Hun.
  { pose proof (dk_entry _ _ B1 p e Hl He) as [_ Hst]. rewrite Hinv, (dk_free _ _ B1) in Hst.
    destruct (DirectoryEntry.getDState e); destruct Hst; try done; set_solver. }
  split; [|split_and!].
  - split; try done.
    + apply (frame_except a c G); [|split; try done; by apply dir_ok_renamed|done].
      split; try done; [|exists []; by rewrite app_nil_r]. intros b q f Hb Hne. rewrite Hheld by done. naive_solver.
    + intros q f Hh. apply Hheld in Hh as [(_ & -> & _)|Hh]; [|by destruct (Hno q f)|done].
      by apply (ways_not_replaced _ _ _ (dk_wf _ _ B1) Hp).
    + intros q f Hh. apply Hheld in Hh as [(_ & -> & ->)|Hh]; [|by destruct (Hno q f)|done].
      change (DirectoryEntry.getDState e = DirectoryState.MODIFIED → ¬ asked (_net c) a (DirectoryEntry.getOwner e) ShmemMsg.WB_REQ). congruence.
    + intros Hn _. destruct (Hn p (DirectoryEntry.setAddress a e)). apply Hheld; auto.
  - apply Hheld; auto.
  - intros q f Hh. apply Hheld in Hh as [(_ & _ & ->)|Hh]; [done|by destruct (Hno q f)|done].
  - done.
Qed.

(** How the lookup of an address under way ends. *)
Lemma lookup_runs c G V a m l (Q : option entry_ptr → DramDirectoryCntlr → Prop) :
  req_pre c G V a m l →
  (∀ p e c', held c a p e → calm c c' → Q (Some p) c') →
  (∀ p e c', (∀ q f, ¬ held c a q f) → req_pre c' G V a m l → held c' a p e →
     (∀ q f, held c' a q f → f = e) → DirectoryEntry.getDState e = DirectoryState.UNCACHED →
     _dram_cntlr c' = _dram_cntlr c → progress V c G c' G → Q (Some p) c') →
  (∀ c', calm c c' → full_without (_dram_directory_cache c') a → Q None c') →
  runs Err (dir (getDirectoryEntry a)) c Q.
Proof.
  intros Hpre H1 H2 H3. pose proof (ie_base _ _ _ _ (rp_except _ _ _ _ _ _ Hpre)) as Hb.
  pose proof (dk_wf _ _ (bs_dir _ _ Hb)) as Hwf. pose proof (rp_valid _ _ _ _ _ _ Hpre) as Ha.
  apply runs_zoom, getDirectoryEntry_runs; [exact Err_clock|done|done|]. intros o _ [p e d' Hh Hq|p e d' Hno Hp He Hinv Hq|d' Hno Hfull Hq].
  - by apply (H1 p e); [|apply with_dir_calm].
  - destruct (renamed_req_pre c G V a m l p e Hpre Hp He Hinv Hno) as (Hr & Hh & Huniq & Hun).
    set (c1 := with_entry c p (DirectoryEntry.setAddress a e)) in *.
    assert (calm c1 (with_dir c d')) as Hc by by split.
    apply (H2 p (DirectoryEntry.setAddress a e)); try done.
    + by apply (calm_req_pre c1).
    + by apply (calm_held c1).
    + intros q f Hf. apply (Huniq q f). by apply (calm_held c1 (with_dir c d')).
    + apply (progress_trans V c G c1 G); [|by apply calm_progress]. apply progress_refl; [done|].
      assert (∀ b q f, b ≠ INVALID_ADDRESS → held c1 b q f ↔
        (b = a ∧ q = p ∧ f = DirectoryEntry.setAddress a e) ∨ held c b q f) as Hheld.
      { intros b q f Hbi. apply renamed_holds; try done. by eapply ways_live. }
      intros b x. unfold modified. split; intros (Hbi & q & f & Hf & Hst & Ho); (split; [done|]).
      * apply Hheld in Hf as [(_ & _ & ->)|Hf]; [|by exists q, f|done].
        change (DirectoryEntry.getDState e = DirectoryState.MODIFIED) in Hst. congruence.
      * exists q, f. split; [|done]. apply Hheld; auto.
  - apply H3; [by apply with_dir_calm|]. by apply (quiet_full_without (_dram_directory_cache c)).
Qed.

(** ** The front of a queue *)

Lemma clock_calm c p : calm c (set_clock p c).
Proof. split; try done. split; [done|]. by intros []; split. Qed.

Lemma front_request_runs c a m l (Q : ShmemReq.ShmemReq → DramDirectoryCntlr → Prop) :
  queue c a = m :: l →
  (∀ r c', ShmemReq.m_shmem_msg r = m → calm c c' → Q r c') →
  runs Err (front_request a) c Q.
Proof.
  intros Hq HQ. unfold front_request. unfold queue in Hq.
  destruct (HashMapQueue.contents (_dram_directory_req_queue_list c) a) as [|r rs] eqn:Hc; [done|].
  cbn in Hq. injection Hq as Hm Hl.
  apply runs_bind, runs_gets, runs_bind. eapply runs_lift.
  { apply of_option_Ok. unfold id. by rewrite HashMapQueue.front_value, Hc. }
  apply runs_bind, runs_modify, runs_bind, runs_modify, runs_ret. unfold id. set (r' := ShmemReq.updateTime _ r).
  assert (ShmemReq.m_shmem_msg r' = m) as Hr'.
  { subst r' m. unfold ShmemReq.updateTime. by case_match. }
  apply HQ; [done|]. eapply calm_trans; [|apply clock_calm]. split; try done.
  - intros b. unfold queue. cbn. rewrite HashMapQueue.contents_set_front.
    case_decide as Hb; [|done]. subst b. rewrite Hc. cbn. by rewrite Hr', Hm.
  - intros Hwf. by apply HashMapQueue.set_front_wf.
Qed.

(** ** Steps that change the memory at one address *)

Record memory_step (a : Z) (c c' : DramDirectoryCntlr) : Prop := {
  ms_dir : quiet (_dram_directory_cache c) (_dram_directory_cache c');
  ms_queue : _dram_directory_req_queue_list c' = _dram_directory_req_queue_list c;
  ms_line : _cache_line_size c' = _cache_line_size c;
  ms_size : DramCntlr._cache_line_size (_dram_cntlr c') = DramCntlr._cache_line_size (_dram_cntlr c);
  ms_other b : b ≠ a → memory c' !! b = memory c !! b;
  ms_present : is_Some (memory c' !! a);
  ms_length l : memory c' !! a = Some l → zlength l = _cache_line_size c;
  ms_net : ∃ l, _net c' = _net c ++ l ∧ Forall (addressed a) l ∧ ∀ x ty, ty ≠ ShmemMsg.EX_REP → ty ≠ ShmemMsg.SH_REP → ¬ asked l a x ty
}.

Lemma memory_step_held a c c' b p e : memory_step a c c' → held c' b p e ↔ held c b p e.
Proof. intros []. by apply quiet_holds. Qed.
Lemma memory_step_replaced a c c' p : memory_step a c c' → replaced c' p ↔ replaced c p.
Proof. intros []. unfold replaced. by destruct (quiet_fields _ _ ms_dir0) as (_ & _ & _ & -> & _). Qed.
Lemma memory_step_tiles a c c' : memory_step a c c' → num_tiles c' = num_tiles c.
Proof. intros []. unfold num_tiles, tiles. by destruct (quiet_fields _ _ ms_dir0) as (_ & _ & _ & _ & -> & _). Qed.
Lemma memory_step_queue a c c' b : memory_step a c c' → queue c' b = queue c b.
Proof. intros []. unfold queue. by rewrite ms_queue0. Qed.

Lemma memory_step_base a c c' G : memory_step a c c' → base c G → base c' G.
Proof.
  intros [A1 A2 A3 A4 A5 A6 A7 _] [H1 H2 H3 H4 H5]. split; rewrite ?A2, ?A3, ?A4; try done; [by eapply dir_ok_quiet|].
  intros b l. destruct (decide (b = a)) as [->|Hb]; [apply A7|]. rewrite A5 by done. apply H5.
Qed.
Lemma memory_step_frame a c c' G : memory_step a c c' → frame a c G c' G.
Proof.
  intros Hm. split; try done; [by eapply memory_step_tiles|by eapply ms_line|by eapply ms_size|..];
    [| | | |destruct (ms_net _ _ _ Hm) as (l & ? & ? & _); by exists l]; intros.
  - by eapply memory_step_queue.
  - by eapply ms_other.
  - by eapply memory_step_held.
  - by eapply memory_step_replaced.
Qed.

Lemma memory_step_set_full a c c' : memory_step a c c' → set_full c' a → set_full c a.
Proof. intros Hm. apply quiet_set_full; [by eapply ms_dir|]. intros b _. by eapply memory_step_queue. Qed.
Lemma memory_step_modified a c c' b x : memory_step a c c' → modified c' b x ↔ modified c b x.
Proof. intros Hm. apply modified_ext. intros ? p e _. by eapply memory_step_held. Qed.
(** An owner that was not asked to write the line back still was not. *)
Lemma memory_step_asked a c c' x ty :
  memory_step a c c' → ty ≠ ShmemMsg.EX_REP → ty ≠ ShmemMsg.SH_REP → asked (_net c') a x ty → asked (_net c) a x ty.
Proof.
  intros Hm H1 H2. destruct (ms_net _ _ _ Hm) as (l & -> & _ & Hl). rewrite asked_app. intros [Hx|[? _]]; [|done].
  by destruct (Hl x ty H1 H2).
Qed.
Lemma memory_step_unasked a c c' : memory_step a c c' → unasked c a → unasked c' a.
Proof.
  intros Hm Hu p e Hh%(memory_step_held a c c') Hst Hx; [|done]. apply (Hu p e); [done|done|].
  by apply (memory_step_asked a c c').
Qed.

Lemma data_wf ty receiver a d n modeled :
  0 < n → zlength d = n →
  ShmemMsg.wf (ShmemMsg.make_data ty MemComponent.DRAM_DIRECTORY MemComponent.L2_CACHE receiver a (Some d) n modeled).
Proof. done. Qed.

(** A reply: it carries the cached data or the contents of the memory. *)
Lemma retrieve_runs c G V ty receiver a cached modeled (Q : unit → DramDirectoryCntlr → Prop) :
  base c G → (ty = ShmemMsg.EX_REP ∨ ty = ShmemMsg.SH_REP) →
  match cached with
  | Some d => d = V a ∧ zlength d = _cache_line_size c ∧ is_Some (memory c !! a)
  | None => DramCntlr.contents (_dram_cntlr c) a = V a
  end →
  (∀ p c', memory_step a c c' → DramCntlr.contents (_dram_cntlr c') a = DramCntlr.contents (_dram_cntlr c) a →
     _net c' = _net c ++ [p] → (∀ b, granted [p] b = if decide (b = a) then {[receiver]} else ∅) →
     (∀ b, ex_granted [p] b = if decide (b = a ∧ ty = ShmemMsg.EX_REP) then {[receiver]} else ∅) → reply_ok V p → Q tt c') →
  runs Err (retrieveDataAndSendToL2Cache ty receiver a cached modeled) c Q.
Proof.
  intros Hb Hty Hd HQ. pose proof Hb as [B1 B2 B3 B4 B5].
  assert (∀ d p, d = V a → Packet.receiver p = Some receiver →
    ShmemMsg.object (Packet.data p) = ShmemMsg.make_data ty MemComponent.DRAM_DIRECTORY MemComponent.L2_CACHE receiver
      a (Some d) (_cache_line_size c) modeled → ShmemMsg.payload (Packet.data p) = d →
    (∀ b, granted [p] b = if decide (b = a) then {[receiver]} else ∅) ∧
    (∀ b, ex_granted [p] b = if decide (b = a ∧ ty = ShmemMsg.EX_REP) then {[receiver]} else ∅) ∧ reply_ok V p ∧
    (Forall (addressed a) [p] ∧ ∀ x ty, ty ≠ ShmemMsg.EX_REP → ty ≠ ShmemMsg.SH_REP → ¬ asked [p] a x ty)) as Hpkt.
  { intros d p -> Hr Ho Hp. assert (is_reply p = true) as Hrep.
    { unfold is_reply. rewrite Ho. by destruct Hty as [-> | ->]. }
    split_and!; [|..|by intros _; rewrite Hp, Ho|apply Forall_singleton; unfold addressed; by rewrite Ho|].
    - intros b. unfold granted. cbn. rewrite Hrep, Ho. cbn.
      destruct (Z.eqb_spec a b) as [->|Hne]; [|by rewrite decide_False].
      rewrite decide_True, Hr by done. cbn. set_solver.
    - intros b. unfold ex_granted, is_exclusive. cbn. rewrite Ho. cbn.
      destruct (Z.eqb_spec a b) as [->|Hne]; [|rewrite decide_False by naive_solver; by destruct Hty as [-> | ->]].
      destruct Hty as [-> | ->]; [rewrite decide_True, Hr by done; cbn; set_solver|by rewrite decide_False by naive_solver].
    - intros x ty' H1 H2 [[]|[(_ & Ht & _) _]]. rewrite Ho in Ht. cbn in Ht. by destruct Hty as [-> | ->]; subst ty'. }
  unfold retrieveDataAndSendToL2Cache. apply runs_bind, runs_gets. unfold id. destruct cached as [d|].
  - destruct Hd as (Hv & Hl & Hs). apply send_runs; [by apply data_wf|]. intros p Hr Ho Hp.
    destruct (Hpkt d p Hv Hr Ho Hp) as (Hg & Hx & Hok & Hadd).
    apply (HQ p); [|done..]. split; try done; [intros l; by apply B5|by exists [p]].
  - apply runs_bind. unfold runs, lift.
    destruct (DramCntlr.getDataFromDram _ _ _ _ _) as [[[line dram] clk]|err] eqn:Hget.
    2:{ assert (err = ELog "ShmemPerfModel::incrCycleCount") as ->; [|exact Err_clock].
        unfold DramCntlr.getDataFromDram in Hget. destruct (if modeled then _ else _) as [lat perf].
        unfold ShmemPerfModel.incrCycleCount, check in Hget. case_match; cbn in Hget; congruence. }
    pose proof (contents_length c G a Hb) as Hlen.
    destruct (DramCntlr.getDataFromDram_contents _ _ _ _ _ _ _ _ Hget) as (-> & Hc & Hs & _ & Hsz).
    assert (∀ b, b ≠ a → DramCntlr._data_map dram !! b = memory c !! b) as Hoth.
    { intros b Hne. unfold DramCntlr.getDataFromDram in Hget. destruct (if modeled then _ else _) as [lat perf].
      run_inv. cbn. by rewrite lookup_insert_ne. }
    apply runs_bind, runs_modify, send_runs; [by apply data_wf|]. intros p Hr Ho Hp.
    destruct (Hpkt _ p Hd Hr Ho Hp) as (Hg & Hx & Hok & Hadd).
    apply (HQ p); try done. split; try done.
    + split; [done|]. by intros []; split.
    + intros l Hl. specialize (Hc a). unfold DramCntlr.contents in Hc at 1. fold (memory c) in *. cbn in Hl. unfold memory in Hl. cbn in Hl.
      rewrite Hl in Hc. cbn in Hc. by rewrite Hc.
    + by exists [p].
Qed.

(** The data of a reply is written to the memory. *)
Lemma sendDataToDram_runs c G a d modeled (Q : unit → DramDirectoryCntlr → Prop) :
  base c G → zlength d = _cache_line_size c → is_Some (memory c !! a) →
  (∀ c', memory_step a c c' → DramCntlr.contents (_dram_cntlr c') a = d → _net c' = _net c → Q tt c') →
  runs Err (sendDataToDram a (Some d) modeled) c Q.
Proof.
  intros [B1 B2 B3 B4 B5] Hl Hs HQ. unfold sendDataToDram. apply runs_bind, runs_gets, runs_bind. unfold id.
  destruct (DramCntlr.putDataToDram_contents a d modeled ShmemPerfModel.SIM_THREAD (_dram_cntlr c) (clock c))
    as (dram & Hput & Hc & Hp & Hsz); [done|congruence|].
  eapply runs_lift; [exact Hput|]. apply runs_modify, HQ; [|cbn; by rewrite Hc, decide_True|done]. split; try done.
  - intros b Hne. unfold DramCntlr.putDataToDram in Hput. rewrite bool_decide_true in Hput by done. cbn in Hput.
    rewrite mem_read_ok in Hput by (rewrite ?Hl, ?B3; lia). cbn in Hput. injection Hput as <-.
    unfold memory. cbn. by rewrite lookup_insert_ne.
  - by apply Hp.
  - intros l Hla. specialize (Hc a). rewrite decide_True in Hc by done. unfold DramCntlr.contents in Hc.
    unfold memory in Hla. cbn in Hla. rewrite Hla in Hc. cbn in Hc. congruence.
  - exists []. cbn. rewrite app_nil_r. split_and!; [done|done|]. intros x ty _ _ [].
Qed.

(** ** Queues *)

Definition with_queues (c : DramDirectoryCntlr) (q : HashMapQueue.HashMapQueue ShmemReq.ShmemReq) : DramDirectoryCntlr :=
  c <| _dram_directory_req_queue_list := q |>.

Lemma queue_count_runs c a (Q : Z → DramDirectoryCntlr → Prop) :
  Q (zlength (queue c a)) c → runs Err (queue_count a) c Q.
Proof.
  intros HQ. apply runs_gets. rewrite HashMapQueue.count_value. unfold queue, zlength in *.
  by rewrite length_fmap in HQ.
Qed.

Definition enqueued (c : DramDirectoryCntlr) (a : Z) (r : ShmemReq.ShmemReq) : DramDirectoryCntlr :=
  with_queues c (HashMapQueue.enqueue (_dram_directory_req_queue_list c) a r).
Definition dequeued (c : DramDirectoryCntlr) (a : Z) : DramDirectoryCntlr :=
  with_queues c (HashMapQueue.dequeue (_dram_directory_req_queue_list c) a).2.

Lemma enqueued_queue c a r b :
  queue (enqueued c a r) b = if decide (b = a) then queue c a ++ [ShmemReq.m_shmem_msg r] else queue c b.
Proof. unfold queue. cbn. rewrite HashMapQueue.contents_enqueue. case_decide; [|done]. by rewrite fmap_app. Qed.
Lemma dequeued_queue c a b : queue (dequeued c a) b = if decide (b = a) then tail (queue c a) else queue c b.
Proof.
  unfold queue. cbn. rewrite HashMapQueue.contents_dequeue. case_decide; [|done].
  by destruct (HashMapQueue.contents _ a).
Qed.

Lemma enqueued_base c G a r : base c G → base (enqueued c a r) G.
Proof. intros []. split; try done. by apply HashMapQueue.enqueue_wf. Qed.
Lemma dequeued_base c G a : base c G → base (dequeued c a) G.
Proof. intros []. split; try done. by apply HashMapQueue.dequeue_wf. Qed.
Lemma enqueued_frame c G a r : frame a c G (enqueued c a r) G.
Proof. split; try done; [|exists []; by rewrite app_nil_r]. intros b Hb. by rewrite enqueued_queue, decide_False. Qed.
Lemma dequeued_frame c G a : frame a c G (dequeued c a) G.
Proof. split; try done; [|exists []; by rewrite app_nil_r]. intros b Hb. by rewrite dequeued_queue, decide_False. Qed.
Lemma enqueued_set_full c a r : set_full (enqueued c a r) a → set_full c a.
Proof. apply set_full_back; try done. intros b Hb. by rewrite enqueued_queue, decide_False. Qed.
Lemma dequeued_set_full c a : set_full (dequeued c a) a → set_full c a.
Proof. apply set_full_back; try done. intros b Hb. by rewrite dequeued_queue, decide_False. Qed.

(** ** Invalidations *)

(** Asking for the list of sharers changes the cursor of the tracker only. *)
Lemma sharers_list_ok n S e :
  entry_ok n S e → DirectoryEntry.getDState e = DirectoryState.SHARED →
  ∃ all l e', DirectoryEntry.entry_getSharersList e = Ok (all, l, e') ∧ entry_ok n S e' ∧
    DirectoryEntry.getAddress e' = DirectoryEntry.getAddress e ∧
    DirectoryEntry.getDState e' = DirectoryState.SHARED ∧ DirectoryEntry.getOwner e' = DirectoryEntry.getOwner e ∧
    (all = true ∨ list_to_set l = S).
Proof.
  intros [Ht Hs] Hst. destruct (list_ok n _ S Ht) as (all & l & t' & Hl & Ht' & _ & _ & Hin & Hbr).
  exists all, l, (e <| DirectoryEntry._tracker := t' |>). unfold DirectoryEntry.entry_getSharersList. rewrite Hl. cbn.
  rewrite Hst in Hs. split_and!; try done.
  - split; [done|]. unfold DirectoryEntry.getDState in *. cbn. by rewrite Hst.
  - destruct (inBroadcastMode (DirectoryEntry._tracker e)); auto.
Qed.

Lemma invalidate_sharers_runs c G a p e ty requester modeled (Q : unit → DramDirectoryCntlr → Prop) :
  base c G → held c a p e → DirectoryEntry.getDState e = DirectoryState.SHARED →
  ty ≠ ShmemMsg.EX_REP → ty ≠ ShmemMsg.SH_REP →
  (∀ e' l, entry_ok (num_tiles c) (G a) e' → DirectoryEntry.getAddress e' = a →
     DirectoryEntry.getDState e' = DirectoryState.SHARED → DirectoryEntry.getOwner e' = DirectoryEntry.getOwner e →
     requests_for a ty (λ x, x ∈ G a) l → Q tt (with_net (with_entry c p e') l)) →
  runs Err (invalidate_sharers p (to_L2 ty requester a modeled)) c Q.
Proof.
  intros Hb Hh Hst H1 H2 HQ. pose proof (holds_entry_ok _ _ a p e (bs_dir _ _ Hb) Hh) as Hok.
  destruct (sharers_list_ok _ _ e Hok Hst) as (all & l & e' & Hl & Hok' & Ha & Hst' & Ho' & Hall).
  apply runs_bind, (entry_runs p e c a); [done|]. apply runs_bind. eapply runs_lift; [exact Hl|]. cbn.
  apply runs_bind, set_entry_runs. assert (DirectoryEntry.getAddress e' = a) as Ha' by (destruct Hh as (_ & _ & <-); done).
  destruct all; [apply (send_request_runs _ _ _ _ _ _ (λ x, x ∈ G a)); auto|apply send_all_runs; [done..|]].
  intros net [Hn1 Hn2]. apply HQ; try done. split; [done|]. intros x Hx. apply Hn2.
  destruct Hall as [?|Hs]; [done|]. rewrite <- Hs in Hx. by apply elem_of_list_to_set in Hx.
Qed.

(** ** Ending with the request still at the front *)

(** The messages [net] ask the sharers for what the request [m] waits for; the
    owner of a line is asked to write it back for a shared request only. *)
Definition waits_with (net0 : list Packet.Packet) (S : gset Z) (a : Z) (m : ShmemMsg.ShmemMsg)
    (e : DirectoryEntry.DirectoryEntry) (net : list Packet.Packet) : Prop :=
  Forall (addressed a) net ∧ Forall (λ p, is_reply p = false) net ∧ asked_for (net0 ++ net) S a m e ∧
  (ShmemMsg._msg_type m ≠ ShmemMsg.SH_REQ → DirectoryEntry.getDState e = DirectoryState.MODIFIED →
   ¬ asked (net0 ++ net) a (DirectoryEntry.getOwner e) ShmemMsg.WB_REQ).

Lemma owner_waits net0 S a m e net ty :
  DirectoryEntry.getDState e = DirectoryState.MODIFIED → ¬ asked net0 a (DirectoryEntry.getOwner e) ShmemMsg.WB_REQ →
  ty = (if bool_decide (ShmemMsg._msg_type m = ShmemMsg.SH_REQ) then ShmemMsg.WB_REQ else ShmemMsg.FLUSH_REQ) →
  requests_for a ty (λ x, x = DirectoryEntry.getOwner e) net → waits_with net0 S a m e net.
Proof.
  intros Hst Hno Hty Hr. split_and!; [by eapply requests_addressed|by eapply (requests_no_reply a ty); try eapply Hr; subst ty; case_match| |].
  - unfold asked_for. rewrite Hst, <- Hty. apply asked_app. left. by apply Hr.
  - intros Hm _. rewrite asked_app. intros [Hx|[Hx _]]; [|done].
    rewrite bool_decide_false in Hty by done. apply (requests_other _ _ _ _ _ _ _ Hr) in Hx. congruence.
Qed.
Lemma sharers_wait net0 (S : gset Z) a m e net (R : Z → Prop) :
  DirectoryEntry.getDState e = DirectoryState.SHARED →
  (if bool_decide (ShmemMsg._msg_type m = ShmemMsg.SH_REQ) then ∃ y, y ∈ S ∧ R y else ∀ y, y ∈ S → R y) →
  requests_for a ShmemMsg.INV_REQ R net → waits_with net0 S a m e net.
Proof.
  intros Hst HR Hr. split_and!; [by eapply requests_addressed|by eapply (requests_no_reply a ShmemMsg.INV_REQ); try eapply Hr| |].
  - unfold asked_for. rewrite Hst. case_match.
    + destruct HR as (y & Hy & HR). exists y. split; [done|]. apply asked_app. left. by apply Hr.
    + intros y Hy. apply asked_app. left. by apply Hr, HR.
  - intros _. congruence.
Qed.

(** The entry changed without a change of its sharers, messages were sent, and
    the request waits for the sharers. *)
Lemma wait_inv c G V a m l p e e' net :
  inv_except c G V a → a ≠ INVALID_ADDRESS → addr_ok c G a → current c V a → queue c a = m :: l →
  held c a p e → (replaced c p ↔ is_nullify m = true) →
  entry_ok (num_tiles c) (G a) e' → DirectoryEntry.getAddress e' = a →
  DirectoryEntry.getDState e' = DirectoryEntry.getDState e → DirectoryEntry.getDState e ≠ DirectoryState.UNCACHED →
  waits_with (_net c) (G a) a m e' net →
  dir_inv (with_net (with_entry c p e') net) G V.
Proof.
  intros He Ha Hok Hcur Hq Hh Hr Hok' Hea Hds Hun (Hw1 & _ & Hw2 & Hw3). pose proof (ie_base _ _ _ _ He) as Hb.
  set (c1 := with_net (with_entry c p e') net).
  assert (∀ b q f, held c1 b q f ↔ (b = a ∧ q = p ∧ f = e') ∨ (b ≠ a ∧ held c b q f)) as Hheld.
  { intros b q f. by apply (with_entry_held c G a p e). }
  apply (dir_inv_intro _ _ _ a); [apply (frame_except a c G); [| |done]|].
  - split; try done; [|by exists net]. intros b q f _ Hne. rewrite Hheld. naive_solver.
  - by apply with_net_base, (with_entry_same c G a p e).
  - split; [done|]. split.
    + intros Hnm. change (DramCntlr.contents (_dram_cntlr c) a = V a). apply Hcur. intros q f Hf.
      assert (f = e) as ->.
      { destruct Hf as (Hf1 & Hf2 & Hf3). destruct Hh as (Hh1 & Hh2 & Hh3).
        assert (q = p) as -> by (apply (wf_unique _ (dk_wf _ _ (bs_dir _ _ Hb)) a q p f e); by repeat split). congruence. }
      rewrite <- Hds. apply (Hnm p e'), Hheld. auto.
    + change (queue c1 a) with (queue c a). rewrite Hq. exists p, e'. split_and!; [apply Hheld; auto|congruence|done|done|].
      intros Hm q f [(_ & _ & ->)|[? _]]%Hheld; [|done]. by apply Hw3.
Qed.

(** ** The directory's own request *)

Lemma held_unique c G a p e q f :
  base c G → a ≠ INVALID_ADDRESS → held c a p e → held c a q f → q = p ∧ f = e.
Proof.
  intros Hb Ha Hp Hq. assert (q = p) as ->.
  { by apply (wf_unique _ (dk_wf _ _ (bs_dir _ _ Hb)) a q p f e). }
  destruct Hp as (_ & Hp & _), Hq as (_ & Hq & _). split; [done|congruence].
Qed.

Lemma lookup_held_runs c G a p e (Q : option entry_ptr → DramDirectoryCntlr → Prop) :
  base c G → a ≠ INVALID_ADDRESS → held c a p e → (∀ c', calm c c' → Q (Some p) c') →
  runs Err (dir (getDirectoryEntry a)) c Q.
Proof.
  intros Hb Ha Hh HQ. apply runs_zoom, getDirectoryEntry_runs; [exact Err_clock|apply (dk_wf _ _ (bs_dir _ _ Hb))|done|].
  intros o _ [q f d' Hh' Hq|q f d' Hno _ _ _ _|d' Hno _ _]; [|by destruct (Hno p e)..].
  destruct (held_unique c G a p e q f Hb Ha Hh Hh') as [-> _]. by apply HQ, with_dir_calm.
Qed.

Lemma with_entry_id c a p e : held c a p e → with_entry c p e = c.
Proof.
  intros (_ & He & _). unfold with_entry, updated. destruct c as [? ? ? d ? ? ?]. cbn in *.
  by rewrite insert_id by done; destruct d.
Qed.

Lemma nullify_runs f r c G a m l p e (Q : unit → DramDirectoryCntlr → Prop) :
  base c G → a ≠ INVALID_ADDRESS → queue c a = m :: l → ShmemReq.m_shmem_msg r = m → ShmemMsg._address m = a →
  is_nullify m = true → unasked c a → held c a p e → replaced c p →
  (∀ c1 e' net, calm c c1 → DirectoryEntry.getDState e ≠ DirectoryState.UNCACHED →
     entry_ok (num_tiles c) (G a) e' → DirectoryEntry.getAddress e' = a →
     DirectoryEntry.getDState e' = DirectoryEntry.getDState e → DirectoryEntry.getOwner e' = DirectoryEntry.getOwner e →
     waits_with (_net c) (G a) a m e' net → Q tt (with_net (with_entry c1 p e') net)) →
  (∀ c1 l1 l2, calm c c1 → DirectoryEntry.getDState e = DirectoryState.UNCACHED →
     _replaced_directory_entry_list (_dram_directory_cache c1) = l1 ++ p :: l2 →
     runs Err (processNextReqFromL2Cache f a) (with_dir c1 (without (_dram_directory_cache c1) p (l1 ++ l2))) Q) →
  runs Err (processNullifyReq (S f) r) c Q.
Proof.
  intros Hb Ha Hq Hm Hma Hn Hu Hh Hr K1 K2. cbn [processNullifyReq]. rewrite Hm, Hma.
  assert (bool_decide (ShmemMsg._msg_type m = ShmemMsg.SH_REQ) = false) as Hsh.
  { unfold is_nullify in Hn. breflect. apply bool_decide_eq_false_2. congruence. }
  apply runs_bind, (lookup_held_runs c G a p e); [done..|]. intros c1 Hc1.
  assert (held c1 a p e) as Hh1 by by apply (calm_held c c1). pose proof (calm_base c c1 G Hc1 Hb) as Hb1.
  pose proof (holds_entry_ok _ _ a p e (bs_dir _ _ Hb) Hh) as Hok.
  apply runs_bind, runs_ret, runs_bind, (entry_runs p e c1 a); [done|].
  destruct (DirectoryEntry.getDState e) eqn:Hst.
  - apply runs_bind, runs_zoom, (invalidateDirectoryEntry_runs Err a p e); [|done| |done|].
    + apply (dk_wf _ _ (bs_dir _ _ Hb1)).
    + by apply (calm_replaced c c1).
    + intros l1 l2 Hl. by apply K2.
  - apply (invalidate_sharers_runs c1 G a p e); [done..|]. intros e' net Hok' Ha' Hst' Ho' Hnet.
    rewrite (calm_tiles c c1) in Hok' by done. apply K1; try done.
    apply (sharers_wait _ _ _ _ _ _ (λ x, x ∈ G a)); [done| |done]. by rewrite Hsh.
  - unfold entry_ok in Hok. rewrite Hst in Hok. by destruct Hok.
  - unfold entry_ok in Hok. rewrite Hst in Hok. by destruct Hok.
  - apply (send_request_runs _ _ _ _ _ _ (λ x, x = DirectoryEntry.getOwner e)); [intros x ->; by left|].
    intros net Hnet. rewrite <- (with_entry_id c1 a p e Hh1) by done.
    apply K1; try done; [by destruct Hh as (_ & _ & ?)|].
    apply (owner_waits _ _ _ _ _ _ ShmemMsg.FLUSH_REQ); [done|by apply (Hu p e)|by rewrite Hsh|done].
Qed.

(** The last request of an address completes. *)
Lemma next_last_runs f c G a m (Q : unit → DramDirectoryCntlr → Prop) :
  base c G → queue c a = [m] → Q tt (dequeued c a) → runs Err (processNextReqFromL2Cache (S f) a) c Q.
Proof.
  intros Hb Hq HQ. cbn [processNextReqFromL2Cache]. apply runs_bind, queue_count_runs. rewrite Hq.
  apply runs_bind, runs_assert; [done|]. apply runs_bind, runs_modify, runs_bind, runs_gets. unfold id.
  fold (dequeued c a). pose proof (dequeued_queue c a a) as Hd. rewrite decide_True, Hq in Hd by done. cbn in Hd.
  assert (HashMapQueue.empty (_dram_directory_req_queue_list (dequeued c a)) a = true) as He; [|by cbn in He |- *; rewrite He].
  rewrite HashMapQueue.empty_value by (by apply (bs_queues _ _ (dequeued_base c G a Hb))).
  apply bool_decide_eq_true_2. unfold queue in Hd. by apply fmap_nil_inv in Hd.
Qed.

(** ** Allocation of an entry *)

(** A way of the set whose address has no pending request. *)
Definition idle_way (c : DramDirectoryCntlr) (p : entry_ptr) : Prop :=
  ∃ e, _heap (_dram_directory_cache c) !! p = Some e ∧ queue c (DirectoryEntry.getAddress e) = [].

Lemma choose_candidate_runs l cand c G (Q : option entry_ptr → DramDirectoryCntlr → Prop) :
  base c G → (∀ p, p ∈ l → p ∈ live (_dram_directory_cache c)) →
  (∀ p, cand = Some p → p ∈ live (_dram_directory_cache c) ∧ idle_way c p) →
  (∀ o, (∀ p, o = Some p → (cand = Some p ∨ p ∈ l) ∧ idle_way c p) →
     (o = None → cand = None ∧ ∀ p, p ∈ l → ¬ idle_way c p) → Q o c) →
  runs Err (choose_candidate l cand) c Q.
Proof.
  intros Hb. revert cand. induction l as [|p l IH]; intros cand Hl Hcand HQ; cbn [choose_candidate].
  { apply runs_ret, HQ.
    - intros p ->. split; [by left|by apply Hcand].
    - intros ->. split; [done|]. intros p Hp. by apply not_elem_of_nil in Hp. }
  assert (∀ q, q ∈ live (_dram_directory_cache c) → ∃ f k, held c (DirectoryEntry.getAddress f) q f ∧
    getNumSharers (DirectoryEntry._tracker f) = Ok k) as Hlive.
  { intros q Hq. destruct (wf_heap _ (dk_wf _ _ (bs_dir _ _ Hb)) q Hq) as [f Hf]. exists f. eexists.
    split; [by repeat split|]. eapply num_ok. apply (dk_entry _ _ (bs_dir _ _ Hb) q f Hq Hf). }
  destruct (Hlive p) as (e & np & He & Hnp); [apply Hl; by left|].
  assert (∀ (b : bool), (cand = None → b = true) → runs Err (n ← queue_count (DirectoryEntry.getAddress e) ;
    choose_candidate l (if b && (n =? 0) then Some p else cand)) c Q) as Hrest.
  { intros b Hbt. apply runs_bind, queue_count_runs. apply IH; [intros q Hq; apply Hl; by right|..].
    - intros q. destruct (b && _) eqn:Ht; [|apply Hcand]. intros [= <-]. breflect. split; [apply Hl; by left|].
      exists e. split; [apply He|]. unfold zlength in *. by apply nil_length_inv; lia.
    - intros o Ho Hnone. apply HQ.
      + intros q Hq. destruct (Ho q Hq) as [[Hc|Hin] Hi]; split; auto; [|by right; right].
        destruct (b && _); [|by left]. injection Hc as <-. right. by left.
      + intros Hq. destruct (Hnone Hq) as [Hc Hall]. destruct (b && _) eqn:Ht; [done|]. split; [done|].
        rewrite (Hbt Hc) in Ht. cbn in Ht. intros q [->|Hin]%elem_of_cons; [|by apply Hall].
        intros (g & Hg & Hgq). destruct He as (_ & He & _). rewrite He in Hg. injection Hg as <-. rewrite Hgq in Ht. done. }
  apply runs_bind, (entry_runs p e c (DirectoryEntry.getAddress e)); [done|]. apply runs_bind. destruct cand as [q|].
  - destruct (Hcand q eq_refl) as [Hq _]. destruct (Hlive q Hq) as (f & nq & Hf & Hnq).
    apply runs_bind, (entry_runs q f c (DirectoryEntry.getAddress f)); [done|].
    apply runs_bind. eapply runs_lift; [done|]. apply runs_bind. eapply runs_lift; [done|]. by apply runs_ret, Hrest.
  - by apply runs_ret, Hrest.
Qed.

(** The state after the entry [p] of [b] made room for the new entry [nx] of
    [a], and the directory queued its own request for [b]. *)
Record made_room (c : DramDirectoryCntlr) (G : sharers) (a b : Z) (p nx : entry_ptr)
    (fresh : DirectoryEntry.DirectoryEntry) (nm : ShmemMsg.ShmemMsg) (c' : DramDirectoryCntlr) : Prop := {
  mr_base : base c' G;
  mr_tiles : num_tiles c' = num_tiles c;
  mr_dram : _dram_cntlr c' = _dram_cntlr c;
  mr_net : _net c' = _net c;
  mr_queue x : queue c' x = if decide (x = b) then [nm] else queue c x;
  mr_held x q f : held c' x q f ↔ (x = a ∧ q = nx ∧ f = fresh) ∨ held c x q f;
  mr_replaced q : replaced c' q ↔ replaced c q ∨ q = p;
  mr_fresh : ¬ replaced c nx ∧ nx ≠ p
}.

Lemma made_room_req_pre c G V a b p e nx fresh m l c4 :
  req_pre c G V a m l → b ≠ INVALID_ADDRESS → b ≠ a → held c b p e → ¬ replaced c nx → nx ≠ p →
  (∀ q f, ¬ held c a q f) → DirectoryEntry.getDState fresh = DirectoryState.UNCACHED →
  (∃ net, _net c4 = _net c ++ net ∧ Forall (addressed b) net) →
  base c4 G → num_tiles c4 = num_tiles c → _dram_cntlr c4 = _dram_cntlr c →
  (∀ x, x ≠ b → queue c4 x = queue c x) →
  (∀ x q f, x ≠ b → held c4 x q f ↔ (x = a ∧ q = nx ∧ f = fresh) ∨ held c x q f) →
  (∀ q, q ≠ p → replaced c4 q ↔ replaced c q) → addr_inv c4 G V b →
  req_pre c4 G V a m l.
Proof.
  intros [H1 H2 H3 H4 H5 H6 H7 H8] Hbi Hba Hp Hnx Hnp Hno Hfr (net & Hnet & Hadd) Hb4 Ht Hd Hq Hh Hr Hinv.
  assert (memory c4 = memory c) as Hm by (unfold memory; congruence). split; try done.
  - split; [done|]. intros x Hxi Hxa. destruct (decide (x = b)) as [->|Hxb]; [done|].
    apply (addr_inv_agrees c G); auto; [by rewrite Hd|by rewrite Hm|..].
    + intros q f. rewrite Hh by done. naive_solver.
    + intros q f Hqf. apply Hr. intros ->. apply Hxb. destruct Hp as (_ & Hp & <-), Hqf as (_ & Hqf & <-). congruence.
    + intros y ty. rewrite Hnet. by apply (asked_other _ net b).
    + by apply (ie_addr _ _ _ _ H1).
  - by rewrite Hq by congruence.
  - by rewrite Ht.
  - by rewrite Hm.
  - intros q f Hf. apply Hh in Hf as [(_ & -> & _)|Hf]; [|by destruct (Hno q f)|congruence]. by rewrite Hr.
  - intros q f Hf. apply Hh in Hf as [(_ & _ & ->)|Hf]; [|by destruct (Hno q f)|congruence]. congruence.
  - intros Hn _. destruct (Hn nx fresh). apply Hh; [congruence|by left].
Qed.

(** The replaced entry has sharers: they are asked for the line. *)
Lemma room_waits c G V a b p e nx fresh nm m l c3 c3' e' net :
  req_pre c G V a m l → b ≠ INVALID_ADDRESS → b ≠ a → held c b p e → (∀ q f, ¬ held c a q f) →
  DirectoryEntry.getDState fresh = DirectoryState.UNCACHED →
  made_room c G a b p nx fresh nm c3 → is_nullify nm = true → ShmemMsg._address nm = b →
  calm c3 c3' → DirectoryEntry.getDState e ≠ DirectoryState.UNCACHED →
  entry_ok (num_tiles c) (G b) e' → DirectoryEntry.getAddress e' = b →
  DirectoryEntry.getDState e' = DirectoryEntry.getDState e → DirectoryEntry.getOwner e' = DirectoryEntry.getOwner e →
  waits_with (_net c) (G b) b nm e' net →
  let c4 := with_net (with_entry c3' p e') net in
  req_pre c4 G V a m l ∧ (∀ q f, held c4 a q f ↔ q = nx ∧ f = fresh) ∧ progress V c G c4 G.
Proof.
  intros Hpre Hbi Hba Hh Hno Hfr [M1 M2 M3 M4 M5 M6 M7 [M8 M9]] Hn Hnb Hc Hun Hok' Hea Hds Hown (Hw1 & Hw0 & Hw2 & Hw3) c4.
  pose proof (ie_base _ _ _ _ (rp_except _ _ _ _ _ _ Hpre)) as Hb.
  pose proof (ie_addr _ _ _ _ (rp_except _ _ _ _ _ _ Hpre) b Hbi Hba) as [[_ Hmem] [Hcur _]].
  assert (held c3' b p e) as Hh3 by (apply (calm_held c3 c3'); [done|]; apply M6; by right).
  pose proof (calm_base c3 c3' G Hc M1) as Hb3.
  assert (∀ x q f, held c4 x q f ↔ (x = b ∧ q = p ∧ f = e') ∨ (x ≠ b ∧ held c3 x q f)) as Hheld.
  { intros x q f. unfold c4. rewrite <- (calm_held c3 c3' x q f Hc). by apply (with_entry_held c3' G b p e). }
  assert (_dram_cntlr c4 = _dram_cntlr c) as Hd by (cbn; by rewrite (ca_dram c3 c3'), M3).
  assert (∀ x, queue c4 x = if decide (x = b) then [nm] else queue c x) as Hq.
  { intros x. change (queue c4 x) with (queue c3' x). by rewrite (ca_queue c3 c3'), M5. }
  assert (∀ q, replaced c4 q ↔ replaced c q ∨ q = p) as Hr.
  { intros q. change (replaced c4 q) with (replaced c3' q). by rewrite (calm_replaced c3 c3'), M7. }
  assert (num_tiles c4 = num_tiles c) as Ht by (change (num_tiles c3' = num_tiles c); by rewrite (calm_tiles c3 c3'), M2).
  assert (_net c4 = _net c ++ net) as Hnet by (cbn; by rewrite (ca_net c3 c3'), M4).
  split; [|split].
  2:{ intros q f. rewrite Hheld, M6. split; [|naive_solver].
      intros [(? & _)|[_ [?|Hf]]]; [congruence|naive_solver|by destruct (Hno q f)]. }
  2:{ apply (progress_trans V c G c3 G); [apply progress_refl; [done|]|].
      - intros x y. unfold modified. split; intros (Hxi & q & f & Hf & Hst & Ho); (split; [done|]); exists q, f; (split; [|done]).
        + apply M6 in Hf as [(_ & _ & ->)|Hf]; [congruence|done].
        + apply M6. by right.
      - apply (progress_trans V c3 G c3' G); [by apply calm_progress|]. apply (progress_trans V c3' G (with_entry c3' p e') G).
        + apply progress_refl; [done|]. by apply (modified_with_same c3' G b p e e').
        + by apply no_reply_progress. }
  apply (made_room_req_pre c G V a b p e nx fresh); try done; [by exists net|..].
  - apply with_net_base, (with_entry_same c3' G b p e); try done.
    change (entry_ok (num_tiles c4) (G b) e'). by rewrite Ht.
  - intros x Hx. by rewrite Hq, decide_False.
  - intros x q f Hx. rewrite Hheld, M6. naive_solver.
  - intros q Hqp. rewrite Hr. naive_solver.
  - split; [split|split].
    + rewrite Hq, decide_True by done. cbn. rewrite Hn. split; [done|]. split; constructor.
    + unfold memory. rewrite Hd. apply Hmem.
    + intros Hnm. rewrite Hd. apply Hcur. intros q f Hf.
      destruct (held_unique c G b p e q f Hb Hbi Hh Hf) as [_ ->]. rewrite <- Hds. apply (Hnm p e'), Hheld. auto.
    + rewrite Hq, decide_True by done. exists p, e'. rewrite Hnet. split_and!; [apply Hheld; auto|congruence| |done|].
      * rewrite Hr, Hn. naive_solver.
      * intros Hm q f Hf%Hheld. rewrite Hnet. destruct Hf as [(_ & _ & ->)|[? _]]; [|done]. by apply Hw3.
Qed.

(** The replaced entry has no sharers: it is removed at once. *)
Lemma room_removed c G V a b p e nx fresh nm m l c3 c3' l1 l2 :
  req_pre c G V a m l → b ≠ INVALID_ADDRESS → b ≠ a → held c b p e → (∀ q f, ¬ held c a q f) →
  DirectoryEntry.getDState fresh = DirectoryState.UNCACHED →
  made_room c G a b p nx fresh nm c3 → calm c3 c3' → DirectoryEntry.getDState e = DirectoryState.UNCACHED →
  _replaced_directory_entry_list (_dram_directory_cache c3') = l1 ++ p :: l2 →
  let c4 := dequeued (with_dir c3' (without (_dram_directory_cache c3') p (l1 ++ l2))) b in
  req_pre c4 G V a m l ∧ (∀ q f, held c4 a q f ↔ q = nx ∧ f = fresh) ∧ progress V c G c4 G.
Proof.
  intros Hpre Hbi Hba Hh Hno Hfr [M1 M2 M3 M4 M5 M6 M7 [M8 M9]] Hc Hun Hl c4.
  pose proof (ie_base _ _ _ _ (rp_except _ _ _ _ _ _ Hpre)) as Hb.
  pose proof (ie_addr _ _ _ _ (rp_except _ _ _ _ _ _ Hpre) b Hbi Hba) as [_ [Hcur _]].
  assert (held c3' b p e) as Hh3 by (apply (calm_held c3 c3'); [done|]; apply M6; by right).
  pose proof (calm_base c3 c3' G Hc M1) as Hb3. pose proof (dk_wf _ _ (bs_dir _ _ Hb3)) as Hwf3.
  assert (G b = ∅) as HG.
  { pose proof (holds_entry_ok _ _ b p e (bs_dir _ _ Hb) Hh) as [_ Hs]. rewrite Hun in Hs. by destruct Hs. }
  assert (∀ x q f, held c4 x q f ↔ held c3 x q f ∧ q ≠ p) as Hheld.
  { intros x q f. rewrite <- (calm_held c3 c3' x q f Hc). unfold c4, held. cbn. by apply without_holds. }
  assert (_dram_cntlr c4 = _dram_cntlr c) as Hd by (cbn; by rewrite (ca_dram c3 c3'), M3).
  assert (∀ x, queue c4 x = if decide (x = b) then [] else queue c x) as Hq.
  { intros x. unfold c4. rewrite dequeued_queue. unfold queue. cbn. fold (queue c3' x) (queue c3' b).
    rewrite !(ca_queue c3 c3'), !M5 by done. case_decide; [by rewrite decide_True|done]. }
  assert (∀ q, q ≠ p → replaced c4 q ↔ replaced c q) as Hr.
  { intros q Hqp. transitivity (replaced c3' q); [|rewrite (calm_replaced c3 c3'), M7 by done; naive_solver].
    unfold c4, replaced. cbn. rewrite Hl. set_solver. }
  assert (_net c4 = _net c) as Hnet by (cbn; by rewrite (ca_net c3 c3'), M4).
  split; [|split].
  2:{ intros q f. rewrite Hheld, M6. split; [|naive_solver]. intros [[?|Hf] _]; [naive_solver|by destruct (Hno q f)]. }
  2:{ apply progress_refl; [done|]. intros x y. unfold modified.
      split; intros (Hxi & q & f & Hf & Hst & Ho); (split; [done|]); exists q, f; (split; [|done]).
      - apply Hheld in Hf as [[(_ & _ & ->)|Hf]%M6 _]; [congruence|done].
      - apply Hheld. split; [apply M6; by right|]. intros ->. destruct Hf as (_ & Hf & _), Hh as (_ & Hh & _). congruence. }
  apply (made_room_req_pre c G V a b p e nx fresh); try done; [by exists []; rewrite app_nil_r|..].
  - apply dequeued_base. destruct Hb3 as [B1 B2 B3 B4 B5]. split; try done. by apply (dir_ok_without _ _ b p e).
  - change (num_tiles c3' = num_tiles c). by rewrite (calm_tiles c3 c3'), M2.
  - intros x Hx. by rewrite Hq, decide_False.
  - intros x q f Hx. rewrite Hheld, M6. split; [naive_solver|]. intros [(-> & -> & ->)|Hf]; [by auto|].
    split; [by right|]. intros ->. destruct Hf as (_ & Hf & <-), Hh as (_ & Hh & <-). congruence.
  - assert (∀ q f, ¬ held c4 b q f) as Hnh.
    { intros q f [[(? & _)|Hf]%M6 Hne]%Hheld; [congruence|]. by destruct (held_unique c G b p e q f Hb Hbi Hh Hf). }
    split; [split|split].
    + by rewrite Hq, decide_True.
    + by rewrite HG.
    + intros _. rewrite Hd. apply Hcur. intros q f Hf. destruct (held_unique c G b p e q f Hb Hbi Hh Hf) as [_ ->]. congruence.
    + rewrite Hq, decide_True by done. split; intros q f Hf; by destruct (Hnh q f).
Qed.

(** [replaceDirectoryEntry], then the queueing of the directory's request. *)
Lemma made_room_intro c c1 G a b p e k d2 nreq :
  base c G → calm c c1 → a ≠ INVALID_ADDRESS → b ≠ a → held c b p e → ¬ replaced c p → queue c b = [] →
  (∀ q f, ¬ held c a q f) →
  zlookup (_directory (_dram_directory_cache c1)) k = Some p →
  quiet (with_replaced (_dram_directory_cache c1) k p a) d2 → wf d2 →
  made_room c G a b p (_next_ptr (_dram_directory_cache c1))
    (DirectoryEntry.setAddress a (DirectoryEntry.create (_params (_dram_directory_cache c))))
    (ShmemReq.m_shmem_msg nreq) (enqueued (with_dir c1 d2) b nreq).
Proof.
  intros Hb Hc Ha Hba Hh Hr Hq Hno Hk Hq2 Hwf2. pose proof (calm_base c c1 G Hc Hb) as Hb1.
  pose proof (dk_wf _ _ (bs_dir _ _ Hb1)) as Hwf1. pose proof (quiet_fields _ _ (ca_dir _ _ Hc)) as (_ & El & _ & Er & Ep & _).
  destruct (quiet_fields _ _ Hq2) as (_ & _ & _ & Erep & Epar & _).
  assert (wf (with_replaced (_dram_directory_cache c1) k p a)) as Hwf.
  { destruct Hq2 as [Hcore _]. apply (directory_wf_core d2); [done| |done].
    destruct (wf_geometry _ Hwf1); split; try done. cbn. by rewrite zlength_zinsert. }
  assert (p ∈ live (_dram_directory_cache c1)) as Hpl by (rewrite El; apply Hh).
  split.
  - apply enqueued_base. destruct Hb1 as [B1 B2 B3 B4 B5]. split; try done.
    apply (dir_ok_quiet _ _ _ Hq2), dir_ok_with_replaced; try done.
    intros q f Hf. apply (Hno q f). by apply (calm_held c c1).
  - unfold num_tiles, tiles. cbn. by rewrite Epar; cbn; rewrite Ep.
  - cbn. by apply ca_dram.
  - cbn. by apply ca_net.
  - intros x. rewrite enqueued_queue. change (queue (with_dir c1 d2)) with (queue c1). rewrite !(ca_queue c c1) by done.
    case_decide; [by rewrite Hq|done].
  - intros x q f. unfold held. cbn. rewrite (quiet_holds _ _ _ _ _ Hq2), with_replaced_holds by done.
    fold (held c1 x q f). rewrite (calm_held c c1) by done. rewrite Ep. naive_solver.
  - intros q. unfold replaced. cbn. rewrite Erep. cbn. rewrite elem_of_app, Er. set_solver.
  - split; [|by apply not_eq_sym, next_fresh]. unfold replaced. rewrite <- Er. intros Hin.
    assert (_next_ptr (_dram_directory_cache c1) ∈ live (_dram_directory_cache c1)) as Hn by (apply elem_of_app; by right).
    by apply (next_fresh _ _ Hwf1 Hn).
Qed.

Lemma alloc_runs f r c G V a m l (Q : entry_ptr → DramDirectoryCntlr → Prop) :
  req_pre c G V a m l → ShmemReq.m_shmem_msg r = m → full_without (_dram_directory_cache c) a →
  (∀ p e c', req_pre c' G V a m l → (∀ q g, held c' a q g ↔ q = p ∧ g = e) →
     DirectoryEntry.getDState e = DirectoryState.UNCACHED → _dram_cntlr c' = _dram_cntlr c →
     progress V c G c' G → Q p c') →
  runs Err (processDirectoryEntryAllocationReq (S (S (S f))) r) c Q.
Proof.
  intros Hpre Hm Hfull HQ. pose proof Hpre as [Hex Ha Hqa Hreq _ _ _ Hstop]. pose proof (ie_base _ _ _ _ Hex) as Hb.
  pose proof (dk_wf _ _ (bs_dir _ _ Hb)) as Hwf.
  assert (ShmemMsg._address m = a) as Hma by (destruct Hreq as [[(? & _) _]%Forall_cons_1 _]; done).
  cbn [processDirectoryEntryAllocationReq]. rewrite Hm, Hma.
  apply runs_bind, runs_gets, runs_bind, runs_zoom, getReplacementCandidates_runs; [exact Err_clock|done|done|done|].
  intros d1 Hq1. fold (with_dir c d1). set (c1 := with_dir c d1). assert (calm c c1) as Hc1 by by apply with_dir_calm.
  pose proof (calm_base c c1 G Hc1 Hb) as Hb1. pose proof (dk_wf _ _ (bs_dir _ _ Hb1)) as Hwf1.
  destruct (quiet_fields _ _ Hq1) as (Eh & El & _).
  apply runs_bind, (choose_candidate_runs _ None c1 G); [done|intros p Hp; cbn; rewrite El; by eapply ways_live|done|].
  intros o Ho Hnone. destruct o as [p|]; apply runs_bind; [apply runs_ret|].
  2:{ apply runs_fail, Hstop; [apply Hfull|]. destruct (Hnone eq_refl) as [_ Hbusy]. intros p Hp.
      destruct (wf_heap _ Hwf p) as [e He]; [by eapply ways_live|]. exists (DirectoryEntry.getAddress e), e.
      assert (held c (DirectoryEntry.getAddress e) p e) as Hh by (split; [by eapply ways_live|done]).
      split_and!; [by apply (proj2 Hfull p e)| |done|].
      - intros Hea. rewrite Hea in Hh. by apply (proj1 Hfull p e).
      - intros Hq0. apply (Hbusy p Hp). exists e. cbn. rewrite Eh. split; [done|]. by rewrite (ca_queue c c1). }
  destruct (Ho p eq_refl) as [[?|Hp] (e & He & Hqe)]; [done|]. set (b := DirectoryEntry.getAddress e) in *.
  assert (held c b p e) as Hh by (cbn in He; rewrite Eh in He; split; [by eapply ways_live|done]).
  assert (b ≠ INVALID_ADDRESS) as Hbi by (apply (proj2 Hfull p e Hp), Hh).
  assert (b ≠ a) as Hba by (intros Hbe; rewrite Hbe in Hh; by apply (proj1 Hfull p e)).
  apply runs_bind, (entry_runs p e c1 b); [by apply (calm_held c c1)|].
  apply runs_bind, runs_zoom, (replaceDirectoryEntry_runs Err Err_clock b a p e); try done.
  { by apply (quiet_full_without (_dram_directory_cache c)). }
  { cbn. by rewrite (quiet_set_of _ _ _ Hq1), (proj1 (quiet_ways _ _ _ Hq1)). }
  fold b. intros k d2 Hk Hq2 Hwf2. apply runs_bind, runs_gets, runs_bind. eapply runs_lift; [done|].
  set (nreq := ShmemReq.mkShmemReq _ _). apply runs_bind, runs_modify.
  pose proof (made_room_intro c c1 G a b p e k d2 nreq Hb Hc1 Ha Hba Hh (ways_not_replaced _ _ _ Hwf Hp)) as Hroom.
  assert (queue c b = []) as Hqb by by rewrite <- (ca_queue c c1 Hc1 b).
  specialize (Hroom Hqb (proj1 Hfull) Hk Hq2 Hwf2).
  match goal with |- runs _ _ ?s _ => change s with (enqueued (with_dir c1 d2) b nreq) end.
  set (c3 := enqueued (with_dir c1 d2) b nreq) in *.
  apply runs_bind, queue_count_runs, runs_bind.
  assert (queue c3 b = [ShmemReq.m_shmem_msg nreq]) as Hq3 by by rewrite (mr_queue _ _ _ _ _ _ _ _ _ Hroom), decide_True.
  fold b. rewrite Hq3. apply runs_assert; [done|]. apply runs_bind.
  assert (∀ c4, req_pre c4 G V a m l → (∀ q g, held c4 a q g ↔ q = _next_ptr d1 ∧
    g = DirectoryEntry.setAddress a (DirectoryEntry.create (_params (_dram_directory_cache c)))) →
    _dram_cntlr c4 = _dram_cntlr c → progress V c G c4 G → runs Err (mret (_next_ptr d1)) c4 Q) as Hfin.
  { intros c4 H1 H2 H3 H4. apply runs_ret. by eapply HQ. }
  assert (∀ x y, DirectoryEntry.getDState (DirectoryEntry.setAddress x (DirectoryEntry.create y)) = DirectoryState.UNCACHED) as Hfr0 by done.
  assert (unasked c b) as Hub.
  { pose proof (ie_addr _ _ _ _ Hex b Hbi Hba) as [_ [_ Hs]]. rewrite Hqb in Hs. apply Hs. }
  apply (nullify_runs (S f) nreq c3 G b (ShmemReq.m_shmem_msg nreq) [] p e); try done.
  - by apply (mr_base _ _ _ _ _ _ _ _ _ Hroom).
  - intros q g [(? & _)|Hg]%(mr_held _ _ _ _ _ _ _ _ _ Hroom); [congruence|].
    rewrite (mr_net _ _ _ _ _ _ _ _ _ Hroom). by apply (Hub q g).
  - apply (mr_held _ _ _ _ _ _ _ _ _ Hroom). by right.
  - apply (mr_replaced _ _ _ _ _ _ _ _ _ Hroom). by right.
  - intros c3' e' net Hc3 Hun Hok' Hea Hds Hown Hnet. rewrite (mr_tiles _ _ _ _ _ _ _ _ _ Hroom) in Hok'.
    rewrite (mr_net _ _ _ _ _ _ _ _ _ Hroom) in Hnet.
    destruct (room_waits c G V a b p e _ _ _ m l c3 c3' e' net Hpre Hbi Hba Hh (proj1 Hfull) (Hfr0 _ _) Hroom) as (H1 & H2 & H3); try done.
    apply Hfin; [done|exact H2|cbn; by rewrite (ca_dram c3 c3'), (mr_dram _ _ _ _ _ _ _ _ _ Hroom)|done].
  - intros c3' l1 l2 Hc3 Hun Hl.
    destruct (room_removed c G V a b p e _ _ _ m l c3 c3' l1 l2 Hpre Hbi Hba Hh (proj1 Hfull) (Hfr0 _ _) Hroom Hc3 Hun Hl) as (H1 & H2 & H3).
    assert (base (with_dir c3' (without (_dram_directory_cache c3') p (l1 ++ l2))) G) as Hb4.
    { pose proof (ie_base _ _ _ _ (rp_except _ _ _ _ _ _ H1)) as [B1 B2 B3 B4 B5]. split; try done.
      apply (ca_queues c3 c3' Hc3), (bs_queues _ _ (mr_base _ _ _ _ _ _ _ _ _ Hroom)). }
    apply (next_last_runs f _ G b (ShmemReq.m_shmem_msg nreq)); [done| |].
    + change (queue (with_dir c3' _)) with (queue c3'). by rewrite (ca_queue c3 c3').
    + apply Hfin; [done|exact H2|cbn; by rewrite (ca_dram c3 c3'), (mr_dram _ _ _ _ _ _ _ _ _ Hroom)|done].
Qed.

(** ** Serving a request *)

Lemma obtain_runs f r c G V a m l (Q : entry_ptr → DramDirectoryCntlr → Prop) :
  req_pre c G V a m l → ShmemReq.m_shmem_msg r = m →
  (∀ p e c', req_pre c' G V a m l → held c' a p e →
     (held c a p e ∨ DirectoryEntry.getDState e = DirectoryState.UNCACHED) →
     _dram_cntlr c' = _dram_cntlr c → (current c V a → current c' V a) → progress V c G c' G → Q p c') →
  runs Err (dir (getDirectoryEntry a)) c (λ found c1, runs Err
    (match found with Some p => mret p | None => processDirectoryEntryAllocationReq (S (S (S f))) r end) c1 Q).
Proof.
  intros Hpre Hm HQ. apply (lookup_runs c G V a m l); [done|..].
  - intros p e c' Hh Hc. apply runs_ret, (HQ p e); [by apply (calm_req_pre c)|by apply (calm_held c)|by left|by apply ca_dram|by apply calm_current|by apply calm_progress].
  - intros p e c' Hno Hpre' Hh Hu Hun Hd Hn. apply runs_ret, (HQ p e); try done; [by right|].
    intros Hcur _. rewrite Hd. apply Hcur. intros q g Hg. by destruct (Hno q g).
  - intros c1 Hc Hfull. assert (∀ q g, ¬ held c a q g) as Hno.
    { intros q g Hg. apply (proj1 Hfull q g). by apply (calm_held c c1). }
    apply (alloc_runs f r c1 G V a m l); [by apply (calm_req_pre c)|done|done|].
    intros p e c2 Hpre2 Hh2 Hun Hd Hp. apply (HQ p e); try done.
    + by apply Hh2.
    + by right.
    + by rewrite Hd, (ca_dram c c1).
    + intros Hcur _. rewrite Hd, (ca_dram c c1) by done. apply Hcur. intros q g Hg. by destruct (Hno q g).
    + apply (progress_trans V c G c1 G); [by apply calm_progress|done].
Qed.

(** The state in which the request at the front has been served. *)
Record next_pre (c : DramDirectoryCntlr) (G : sharers) (V : values) (a : Z)
    (m : ShmemMsg.ShmemMsg) (l : list ShmemMsg.ShmemMsg) : Prop := {
  np_except : inv_except c G V a;
  np_valid : a ≠ INVALID_ADDRESS;
  np_queue : queue c a = m :: l;
  np_requests : requests_ok (num_tiles c) (G a) a l;
  np_present : G a ≠ ∅ → is_Some (memory c !! a);
  np_current : current c V a;
  np_unasked : unasked c a;
  np_full : (∀ p e, ¬ held c a p e) → set_full c a → Err no_candidate;
  np_held p e : held c a p e → ¬ replaced c p ∧ DirectoryEntry.getDState e ≠ DirectoryState.UNCACHED
}.

Definition finished_from (V : values) (net : list Packet.Packet) (M : Z → Z → Prop) (G : sharers) (_ : unit)
    (c' : DramDirectoryCntlr) : Prop :=
  ∃ G', progress_from V net M G c' G' ∧ dir_inv c' G' V.
Definition finished (V : values) (c : DramDirectoryCntlr) (G : sharers) : unit → DramDirectoryCntlr → Prop :=
  finished_from V (_net c) (modified c) G.

Lemma finished_from_runs V net N G c1 G1 (op : M DramDirectoryCntlr unit) s :
  progress_from V net N G c1 G1 → runs Err op s (finished V c1 G1) → runs Err op s (finished_from V net N G).
Proof.
  intros Hp Hr. eapply runs_mono; [exact Hr|]. intros u c' (G' & Hp' & Hi). exists G'. split; [|done].
  by eapply progress_from_trans.
Qed.
Lemma finished_runs V c G c1 G1 (op : M DramDirectoryCntlr unit) s :
  progress V c G c1 G1 → runs Err op s (finished V c1 G1) → runs Err op s (finished V c G).
Proof. apply finished_from_runs. Qed.

(** The data a reply can carry. *)
Definition data_ok (c : DramDirectoryCntlr) (V : values) (a : Z) (cached : option (list Z)) : Prop :=
  match cached with
  | Some d => d = V a ∧ zlength d = _cache_line_size c ∧ is_Some (memory c !! a)
  | None => DramCntlr.contents (_dram_cntlr c) a = V a
  end.

(** The requester becomes a sharer and is sent the line. *)
Lemma serve_runs c G V a m l p e e' ty cached modeled f :
  req_pre c G V a m l → held c a p e → (ty = ShmemMsg.EX_REP ∨ ty = ShmemMsg.SH_REP) →
  entry_ok (num_tiles c) ({[ShmemMsg._requester m]} ∪ G a) e' → DirectoryEntry.getAddress e' = a →
  (if decide (ty = ShmemMsg.EX_REP)
   then DirectoryEntry.getDState e' = DirectoryState.MODIFIED ∧ DirectoryEntry.getOwner e' = ShmemMsg._requester m
   else DirectoryEntry.getDState e' = DirectoryState.SHARED) →
  DirectoryEntry.getDState e ≠ DirectoryState.MODIFIED → data_ok c V a cached →
  (ty = ShmemMsg.EX_REP ∨ DramCntlr.contents (_dram_cntlr c) a = V a) →
  (∀ c' G', next_pre c' G' V a m l → runs Err (processNextReqFromL2Cache f a) c' (finished V c' G')) →
  runs Err (retrieveDataAndSendToL2Cache ty (ShmemMsg._requester m) a cached modeled ;;
                  processNextReqFromL2Cache f a) (with_entry c p e') (finished V c G).
Proof.
  intros [H1 H2 H3 H4 H5 H6 H7 H8] Hh Hty Hok Hea Hst Hnm Hdata Hval Hnext. pose proof (ie_base _ _ _ _ H1) as Hb.
  set (x := ShmemMsg._requester m) in *. set (c1 := with_entry c p e'). set (G1 := upd G a ({[x]} ∪ G a)).
  pose proof (with_entry_base c G a p e e' _ Hb H2 Hh Hea Hok) as Hb1. fold c1 G1 in Hb1.
  pose proof (with_entry_frame c G a p e e' ({[x]} ∪ G a) Hb H2 Hh Hea) as Hf1. fold c1 G1 in Hf1.
  assert (∀ q g, held c1 a q g ↔ q = p ∧ g = e') as Hheld.
  { intros q g. unfold c1. rewrite (with_entry_held c G a p e) by done. naive_solver. }
  apply runs_bind, (retrieve_runs c1 G1 V); [done|done|by destruct cached|]. intros pkt c2 Hms Hcon Hnet Hg Hex Hrep.
  pose proof (memory_step_base a c1 c2 G1 Hms Hb1) as Hb2.
  pose proof (frame_trans a _ _ _ _ _ _ Hf1 (memory_step_frame a c1 c2 G1 Hms)) as Hf2.
  apply (finished_runs V c G c2 G1).
  - exists [pkt]. split; [by rewrite Hnet|]. split_and!; [|by apply Forall_singleton|].
    + intros b. rewrite Hg. unfold G1, upd. clear. destruct (decide (b = a)) as [->|]; set_solver.
    + intros b y Hbi. rewrite (memory_step_modified a c1 c2), Hex by done. unfold c1. rewrite (modified_with_entry c G a p e) by done.
      assert (modified c a y → False) as Hnot.
      { intros (_ & q & g & Hgq & Hgs & _). destruct (held_unique c G a p e q g Hb H2 Hh Hgq) as [_ ->]. done. }
      destruct (decide (ty = ShmemMsg.EX_REP)) as [->|Hne]; destruct (decide (b = a)) as [->|Hba].
      * rewrite decide_True by done. destruct Hst as [-> ->]. rewrite elem_of_singleton. clear -Hnot. naive_solver.
      * rewrite decide_False by (by intros [? _]). rewrite elem_of_empty. clear -Hba. naive_solver.
      * rewrite decide_False by (by intros [_ ?]). rewrite elem_of_empty, Hst. clear -Hnot. naive_solver.
      * rewrite decide_False by (by intros [? _]). rewrite elem_of_empty. clear -Hba. naive_solver.
  - assert (DirectoryEntry.getDState e' ≠ DirectoryState.UNCACHED) as Hun by (case_decide; [by destruct Hst as [-> _]|by rewrite Hst]).
    apply Hnext. split; try done.
    + by apply (frame_except a c G).
    + rewrite (memory_step_queue a c1 c2) by done. exact H3.
    + rewrite (fr_tiles _ _ _ _ _ Hf2). unfold G1. rewrite upd_eq. by apply requests_served.
    + intros _. apply (ms_present _ _ _ Hms).
    + intros Hnmod. rewrite Hcon. destruct Hval as [Hmod|Hv]; [|done]. rewrite decide_True in Hst by done. destruct Hst as [Hst _].
      destruct (Hnmod p e'); [|done]. apply (memory_step_held a c1 c2); [done|]. by apply Hheld.
    + intros q g Hq%(memory_step_held a c1 c2); [|done]. apply Hheld in Hq as [-> ->]. intros Hmod.
      destruct (decide (ty = ShmemMsg.EX_REP)) as [->|]; [|congruence]. destruct Hst as [_ ->]. rewrite Hnet.
      destruct (ms_net _ _ _ Hms) as (l' & Hl' & _ & Hno). rewrite Hnet in Hl'. apply app_inv_head in Hl' as <-.
      rewrite asked_app. intros [Hx|[_ Hx]]; [by apply (Hno x ShmemMsg.WB_REQ)|].
      apply Hx. rewrite Hg, decide_True by done. set_solver.
    + intros Hn _. destruct (Hn p e'). apply (memory_step_held a c1 c2); [done|]. by apply Hheld.
    + intros q g Hq%(memory_step_held a c1 c2); [|done]. apply Hheld in Hq as [-> ->]. split; [|done].
      rewrite (memory_step_replaced a c1 c2) by done. by apply (H6 p e).
Qed.

(** ** The request functions *)

Definition next_spec (f : nat) : Prop := ∀ c G V a m l,
  next_pre c G V a m l → (2 * length l + 3 ≤ f)%nat →
  runs Err (processNextReqFromL2Cache f a) c (finished V c G).

(** An exclusive request has data only when the entry has no sharers left. *)
Definition ex_data (c : DramDirectoryCntlr) (V : values) (a : Z) (cached : option (list Z)) : Prop :=
  match cached with
  | None => current c V a
  | Some _ => data_ok c V a cached ∧ ∀ p e, held c a p e → DirectoryEntry.getDState e = DirectoryState.UNCACHED
  end.
Definition ex_spec (f : nat) : Prop := ∀ r c G V a m l cached,
  req_pre c G V a m l → ShmemReq.m_shmem_msg r = m → ShmemMsg._msg_type m = ShmemMsg.EX_REQ → ex_data c V a cached → (2 * length l + 4 ≤ f)%nat →
  runs Err (processExReqFromL2Cache f r cached) c (finished V c G).

(** A shared request has data only when the memory has it too. *)
Definition sh_data (c : DramDirectoryCntlr) (V : values) (a : Z) (cached : option (list Z)) : Prop :=
  current c V a ∧
  match cached with
  | None => True
  | Some _ => data_ok c V a cached ∧ ∀ p e, held c a p e → DirectoryEntry.getDState e ≠ DirectoryState.MODIFIED
  end.
Definition sh_spec (f : nat) : Prop := ∀ r c G V a m l cached,
  req_pre c G V a m l → ShmemReq.m_shmem_msg r = m → ShmemMsg._msg_type m = ShmemMsg.SH_REQ → sh_data c V a cached → (2 * length l + 4 ≤ f)%nat →
  runs Err (processShReqFromL2Cache f r cached) c (finished V c G).

Definition nullify_spec (f : nat) : Prop := ∀ r c G V a m l p e,
  inv_except c G V a → a ≠ INVALID_ADDRESS → queue c a = m :: l → ShmemReq.m_shmem_msg r = m →
  is_nullify m = true → addr_ok c G a → current c V a → unasked c a → (set_full c a → Err no_candidate) →
  held c a p e → replaced c p → (2 * length l + 4 ≤ f)%nat → runs Err (processNullifyReq f r) c (finished V c G).

(** The first sharer of an entry. *)
Lemma add_first n e x :
  entry_ok n ∅ e → tile_in n x →
  ∃ t, DirectoryEntry.entry_addSharer e x = Ok (true, e <| DirectoryEntry._tracker := t |>) ∧
    tracks n t {[x]} ∧ inBroadcastMode t = false ∧
    DirectoryEntry.setOwner (e <| DirectoryEntry._tracker := t |>) x =
      Ok (e <| DirectoryEntry._tracker := t |> <| DirectoryEntry._owner_id := x |>).
Proof.
  intros [Ht _] Hx. destruct (add_ok n _ ∅ x Ht Hx) as (added & t & Ha & Ht' & Hf & Hb); [set_solver|].
  destruct added; [|by destruct Hf]. rewrite union_empty_r_L in Ht'. exists t.
  unfold DirectoryEntry.entry_addSharer. rewrite Ha. cbn. split_and!; [done|done|by apply Hb; right|].
  rewrite (DirectoryEntry.setOwner_spec n _ {[x]}); [|done|done|by apply Hb; right].
  by rewrite bool_decide_true by set_solver.
Qed.

(** The other fields of the precondition of a request in a state with the same memory. *)
Lemma data_ok_same c c' V a cached :
  _dram_cntlr c' = _dram_cntlr c → _cache_line_size c' = _cache_line_size c → data_ok c V a cached → data_ok c' V a cached.
Proof. intros Hd Hl. unfold data_ok, memory. by rewrite Hd, Hl. Qed.

Lemma current_unmodified c G V a p e :
  base c G → a ≠ INVALID_ADDRESS → current c V a → held c a p e →
  DirectoryEntry.getDState e ≠ DirectoryState.MODIFIED → DramCntlr.contents (_dram_cntlr c) a = V a.
Proof.
  intros Hb Ha Hc Hh Hst. apply Hc. intros q g Hg. by destruct (held_unique c G a p e q g Hb Ha Hh Hg) as [_ ->].
Qed.

(** A request waits for the sharers. *)
Lemma wait_finished V c0 G c a m l p e e' net :
  progress V c0 G c G → req_pre c G V a m l → current c V a → held c a p e →
  entry_ok (num_tiles c) (G a) e' → DirectoryEntry.getAddress e' = a →
  DirectoryEntry.getDState e' = DirectoryEntry.getDState e → DirectoryEntry.getOwner e' = DirectoryEntry.getOwner e →
  DirectoryEntry.getDState e ≠ DirectoryState.UNCACHED → waits_with (_net c) (G a) a m e' net →
  finished V c0 G tt (with_net (with_entry c p e') net).
Proof.
  intros Hp [H1 H2 H3 H4 H5 H6 H7 H8] Hc Hh Hok Hea Hds Hown Hun Hnet. exists G. split.
  { eapply progress_trans; [exact Hp|]. apply (progress_trans V c G (with_entry c p e') G).
    - apply progress_refl; [done|]. apply (modified_with_same c G a p e e'); try done. apply (ie_base _ _ _ _ H1).
    - apply no_reply_progress, Hnet. }
  apply (wait_inv c G V a m l p e); try done.
  - split; [|done]. rewrite H3. by apply requests_queue.
  - rewrite (requests_not_nullify _ _ _ _ _ H4). pose proof (H6 p e Hh). naive_solver.
Qed.

Lemma bad_state n S e :
  entry_ok n S e →
  DirectoryEntry.getDState e = DirectoryState.UNCACHED ∨ DirectoryEntry.getDState e = DirectoryState.SHARED ∨
  DirectoryEntry.getDState e = DirectoryState.MODIFIED.
Proof. intros [_ Hs]. destruct (DirectoryEntry.getDState e); by auto. Qed.

Lemma req_requester c G V a m l : req_pre c G V a m l →
  ShmemMsg._address m = a ∧ tile_in (num_tiles c) (ShmemMsg._requester m) ∧ ShmemMsg._requester m ∉ G a.
Proof. intros []. by destruct rp_requests0 as [[(? & _ & ? & ?) _]%Forall_cons_1 _]. Qed.

Lemma ex_step f : next_spec f → ex_spec (S f).
Proof.
  intros Hnext r c G V a m l cached Hpre Hm Hty Hdata Hf. destruct f as [|[|[|f]]]; [lia..|].
  destruct (req_requester _ _ _ _ _ _ Hpre) as (Hma & Hx & Hnx).
  cbn [processExReqFromL2Cache]. rewrite Hm, Hma. apply runs_bind.
  eapply runs_mono; [|intros o c' Hr; apply runs_bind, Hr].
  apply (obtain_runs f r c G V a m l); [done|done|]. intros p e c1 Hpre1 Hh Hor Hd Hcur Hprog.
  pose proof (ie_base _ _ _ _ (rp_except _ _ _ _ _ _ Hpre1)) as Hb1.
  pose proof (rp_valid _ _ _ _ _ _ Hpre1) as Ha.
  pose proof (holds_entry_ok _ _ a p e (bs_dir _ _ Hb1) Hh) as Hok.
  assert (_cache_line_size c1 = _cache_line_size c) as Hline.
  { pose proof (ie_base _ _ _ _ (rp_except _ _ _ _ _ _ Hpre)) as Hb. by rewrite <- (bs_size _ _ Hb1), <- (bs_size _ _ Hb), Hd. }
  assert (DirectoryEntry.getDState e ≠ DirectoryState.UNCACHED → cached = None ∧ current c1 V a) as Hnone.
  { intros Hun. destruct cached as [d|]; [|by split; [|apply Hcur]]. destruct Hdata as [_ Hdu].
    destruct Hor as [Ho|Ho]; [by destruct (Hun (Hdu p e Ho))|done]. }
  apply runs_bind, (entry_runs p e c1 a); [done|].
  destruct (bad_state _ _ _ Hok) as [Hst|[Hst|Hst]]; rewrite Hst.
  - assert (G a = ∅) as HG by (destruct Hok as [_ Hs]; rewrite Hst in Hs; by destruct Hs). rewrite HG in Hok.
    destruct (req_requester _ _ _ _ _ _ Hpre1) as (_ & Hx1 & _).
    destruct (add_first _ e (ShmemMsg._requester m) Hok Hx1) as (t & Hadd & Ht & Hbr & Hown).
    apply runs_bind. eapply runs_lift; [exact Hadd|]. apply runs_bind, runs_assert; [done|].
    apply runs_bind. eapply runs_lift; [exact Hown|]. apply runs_bind, set_entry_runs.
    apply (finished_runs V c G c1 G); [done|].
    apply (serve_runs c1 G V a m l p e); try done; [by left| | |congruence| |by left|].
    + rewrite HG, union_empty_r_L. by split.
    + by destruct Hh as (_ & _ & ?).
    + destruct cached as [d|]; [by apply (data_ok_same c); destruct Hdata|].
      apply (current_unmodified c1 G V a p e); try done; [by apply Hcur|congruence].
    + intros c' G' Hn. apply Hnext with m l; [done|lia].
  - destruct Hnone as [-> Hc1]; [congruence|]. apply runs_bind, runs_assert; [done|].
    apply (invalidate_sharers_runs c1 G a p e); try done. intros e' net Hok' Hea Hst' Ho' Hnet.
    apply (wait_finished V c G c1 a m l p e); try done; [congruence..|].
    apply (sharers_wait _ _ _ _ _ _ (λ x, x ∈ G a)); [done| |done]. by rewrite bool_decide_false by congruence.
  - destruct Hnone as [-> Hc1]; [congruence|]. apply runs_bind, runs_assert; [done|].
    apply (send_request_runs _ _ _ _ _ _ (λ x, x = DirectoryEntry.getOwner e)); [intros x ->; by left|].
    intros net Hnet. rewrite <- (with_entry_id c1 a p e Hh).
    apply (wait_finished V c G c1 a m l p e); try done; [by destruct Hh as (_ & _ & ?)|congruence|].
    apply (owner_waits _ _ _ _ _ _ ShmemMsg.FLUSH_REQ); [done| |by rewrite bool_decide_false by congruence|done].
    by apply (rp_unasked _ _ _ _ _ _ Hpre1 p e).
Qed.

Lemma with_entry_twice c p e e' : with_entry (with_entry c p e) p e' = with_entry c p e'.
Proof. unfold with_entry, updated. cbn. by rewrite insert_insert_eq. Qed.

(** One more sharer of an entry; a full tracker names one to be invalidated. *)
Lemma add_more n S e x :
  entry_ok n S e → DirectoryEntry.getDState e = DirectoryState.SHARED → tile_in n x → x ∉ S →
  ∃ added e', DirectoryEntry.entry_addSharer e x = Ok (added, e') ∧
    DirectoryEntry.getAddress e' = DirectoryEntry.getAddress e ∧ DirectoryEntry.getDState e' = DirectoryState.SHARED ∧
    if added then entry_ok n ({[x]} ∪ S) e'
    else ∃ y e'', DirectoryEntry.entry_getOneSharer e' = Ok (y, e'') ∧ y ∈ S ∧ entry_ok n S e'' ∧
           DirectoryEntry.getAddress e'' = DirectoryEntry.getAddress e ∧
           DirectoryEntry.getOwner e'' = DirectoryEntry.getOwner e ∧
           DirectoryEntry.getDState e'' = DirectoryState.SHARED.
Proof.
  intros [Ht Hs] Hst Hx Hnx. rewrite Hst in Hs. destruct Hs as [HS Ho].
  destruct (add_ok n _ S x Ht Hx Hnx) as (added & t & Ha & Ht' & Hf & Hb).
  assert (∀ t', entry_ok n S (e <| DirectoryEntry._tracker := t' |>) ↔ tracks n t' S) as Hok.
  { intros t'. unfold entry_ok, DirectoryEntry.getDState in *. cbn. rewrite Hst. naive_solver. }
  exists added, (e <| DirectoryEntry._tracker := t |>). unfold DirectoryEntry.entry_addSharer. rewrite Ha.
  split_and!; [done..|]. destruct added.
  - split; [done|]. unfold DirectoryEntry.getDState in *. cbn. rewrite Hst. split; [set_solver|done].
  - destruct (one_ok n t S Ht' HS) as (y & t'' & Hy & Ht'' & Hin).
    exists y, (e <| DirectoryEntry._tracker := t'' |>). unfold DirectoryEntry.entry_getOneSharer.
    change (DirectoryEntry._tracker (e <| DirectoryEntry._tracker := t |>)) with t. rewrite Hy.
    split_and!; [done| |by apply Hok|done|done|done].
    destruct Hin as [?|[Hbr _]]; [done|]. rewrite Hb in Hbr by auto. done.
Qed.

Lemma sh_step f : next_spec f → sh_spec (S f).
Proof.
  intros Hnext r c G V a m l cached Hpre Hm Hty [Hcur0 Hdata] Hf. destruct f as [|[|[|f]]]; [lia..|].
  destruct (req_requester _ _ _ _ _ _ Hpre) as (Hma & _ & _).
  cbn [processShReqFromL2Cache]. rewrite Hm, Hma. apply runs_bind.
  eapply runs_mono; [|intros o c' Hr; apply runs_bind, Hr].
  apply (obtain_runs f r c G V a m l); [done|done|]. intros p e c1 Hpre1 Hh Hor Hd Hcur Hprog. specialize (Hcur Hcur0).
  pose proof (ie_base _ _ _ _ (rp_except _ _ _ _ _ _ Hpre1)) as Hb1.
  pose proof (rp_valid _ _ _ _ _ _ Hpre1) as Ha.
  pose proof (holds_entry_ok _ _ a p e (bs_dir _ _ Hb1) Hh) as Hok.
  destruct (req_requester _ _ _ _ _ _ Hpre1) as (_ & Hx & Hnx).
  assert (DirectoryEntry.getAddress e = a) as Hea by by destruct Hh as (_ & _ & ?).
  assert (_cache_line_size c1 = _cache_line_size c) as Hline.
  { pose proof (ie_base _ _ _ _ (rp_except _ _ _ _ _ _ Hpre)) as Hb. by rewrite <- (bs_size _ _ Hb1), <- (bs_size _ _ Hb), Hd. }
  assert (DirectoryEntry.getDState e ≠ DirectoryState.MODIFIED →
    DramCntlr.contents (_dram_cntlr c1) a = V a ∧ data_ok c1 V a cached) as Hval.
  { intros Hnm. assert (DramCntlr.contents (_dram_cntlr c1) a = V a) as Hv by by apply (current_unmodified c1 G V a p e).
    split; [done|]. destruct cached as [d|]; [by apply (data_ok_same c); destruct Hdata|done]. }
  apply runs_bind, (entry_runs p e c1 a); [done|].
  destruct (bad_state _ _ _ Hok) as [Hst|[Hst|Hst]]; rewrite Hst.
  - destruct Hval as [Hv Hdk]; [congruence|].
    assert (G a = ∅) as HG by (destruct Hok as [_ Hs]; rewrite Hst in Hs; by destruct Hs).
    assert (DirectoryEntry.getOwner e = INVALID_TILE_ID) as Ho by (destruct Hok as [_ Hs]; rewrite Hst in Hs; by destruct Hs).
    rewrite HG in Hok. destruct (add_first _ e (ShmemMsg._requester m) Hok Hx) as (t & Hadd & Ht & Hbr & _).
    apply runs_bind. eapply runs_lift; [exact Hadd|]. apply runs_bind, runs_assert; [done|].
    apply runs_bind, set_entry_runs. apply (finished_runs V c G c1 G); [done|].
    apply (serve_runs c1 G V a m l p e); try done; [by right| |congruence|by right|].
    + rewrite HG, union_empty_r_L. split; [done|]. split; [set_solver|done].
    + intros c' G' Hn. apply Hnext with m l; [done|lia].
  - destruct Hval as [Hv Hdk]; [congruence|].
    destruct (add_more _ _ e _ Hok Hst Hx Hnx) as (added & e' & Hadd & Hea' & Hst' & Hres).
    apply runs_bind. eapply runs_lift; [exact Hadd|]. apply runs_bind, set_entry_runs. destruct added.
    + apply (finished_runs V c G c1 G); [done|].
      apply (serve_runs c1 G V a m l p e); try done; [by right|congruence|congruence|by right|].
      intros c' G' Hn. apply Hnext with m l; [done|lia].
    + destruct Hres as (y & e'' & Hone & Hy & Hok'' & Hea'' & Hown'' & Hst'').
      apply runs_bind. eapply runs_lift; [exact Hone|]. apply runs_bind, set_entry_runs. rewrite with_entry_twice.
      apply (send_request_runs _ _ _ _ _ _ (λ x, x = y)); [intros x ->; by left|]. intros net Hnet.
      apply (wait_finished V c G c1 a m l p e); try done; [congruence..|].
      apply (sharers_wait _ _ _ _ _ _ (λ x, x = y)); [done| |done]. rewrite bool_decide_true by done. by exists y.
  - assert (cached = None) as ->.
    { destruct cached as [d|]; [|done]. destruct Hdata as [_ Hdu].
      destruct Hor as [Ho|Ho]; [by destruct (Hdu p e Ho)|congruence]. }
    apply runs_bind, runs_assert; [done|].
    apply (send_request_runs _ _ _ _ _ _ (λ x, x = DirectoryEntry.getOwner e)); [intros x ->; by left|].
    intros net Hnet. rewrite <- (with_entry_id c1 a p e Hh).
    apply (wait_finished V c G c1 a m l p e); try done; [congruence|].
    apply (owner_waits _ _ _ _ _ _ ShmemMsg.WB_REQ); [done| |by rewrite bool_decide_true|done].
    by apply (rp_unasked _ _ _ _ _ _ Hpre1 p e).
Qed.

Lemma nullify_step f : next_spec f → nullify_spec (S f).
Proof.
  intros Hnext r c G V a m l p e He Ha Hq Hm Hn [Hqok Hpres] Hcur Hu Hfull Hh Hr Hf. pose proof (ie_base _ _ _ _ He) as Hb.
  assert (ShmemMsg._address m = a ∧ requests_ok (num_tiles c) (G a) a l) as [Hma Hreq].
  { rewrite Hq in Hqok. cbn in Hqok. by rewrite Hn in Hqok. }
  apply (nullify_runs f r c G a m l p e); try done.
  - intros c1 e' net Hc Hun Hok' Hea Hds Hown Hnet. exists G. split.
    { apply (progress_trans V c G c1 G); [by apply calm_progress|]. apply (progress_trans V c1 G (with_entry c1 p e') G).
      - apply progress_refl; [done|]. apply (modified_with_same c1 G a p e e'); try done; [by apply (calm_base c)|by apply (calm_held c)].
      - apply no_reply_progress, Hnet. }
    apply (wait_inv c1 G V a m l p e); try done.
    + apply (frame_except a c G); [by apply calm_frame|by apply (calm_base c)|done].
    + by apply (calm_addr_ok c).
    + by apply (calm_current c).
    + by rewrite (ca_queue c c1).
    + by apply (calm_held c).
    + rewrite (calm_replaced c c1) by done. naive_solver.
    + by rewrite (calm_tiles c c1).
    + by rewrite (ca_net c c1).
  - intros c1 l1 l2 Hc Hun Hl. pose proof (calm_base c c1 G Hc Hb) as Hb1.
    set (c2 := with_dir c1 (without (_dram_directory_cache c1) p (l1 ++ l2))).
    assert (G a = ∅) as HG.
    { pose proof (holds_entry_ok _ _ a p e (bs_dir _ _ Hb) Hh) as [_ Hs]. rewrite Hun in Hs. by destruct Hs. }
    assert (held c1 a p e) as Hh1 by by apply (calm_held c c1).
    assert (∀ x q g, held c2 x q g ↔ held c1 x q g ∧ q ≠ p) as Hheld.
    { intros x q g. apply without_holds; [apply (dk_wf _ _ (bs_dir _ _ Hb1))|done]. }
    assert (∀ q g, ¬ held c2 a q g) as Hno.
    { intros q g [Hg Hne]%Hheld. by destruct (held_unique c1 G a p e q g Hb1 Ha Hh1 Hg). }
    assert (base c2 G) as Hb2.
    { destruct Hb1 as [B1 B2 B3 B4 B5]. split; try done. by apply (dir_ok_without _ _ a p e). }
    apply (finished_runs V c G c2 G).
    { apply progress_refl; [cbn; by apply ca_net|]. intros b x. unfold modified.
      split; intros (Hbi & q & g & Hg & Hst & Ho); (split; [done|]); exists q, g; (split; [|done]).
      - apply Hheld in Hg as [Hg _]. by apply (calm_held c c1).
      - apply Hheld. split; [by apply (calm_held c c1)|]. intros ->. destruct Hg as (_ & Hg & _), Hh as (_ & Hh & _). congruence. }
    apply Hnext with m l; [|lia]. split; try done.
    + apply (frame_except a c1 G); [|done|].
      * split; try done; [| |exists []; by rewrite app_nil_r].
        -- intros b q g Hbi Hba. rewrite Hheld. split; [naive_solver|]. intros Hg. split; [done|]. intros ->.
           apply Hba. destruct Hg as (_ & Hg & <-), Hh1 as (_ & Hh1 & <-). congruence.
        -- intros b q g Hbi Hba Hg. assert (q ≠ p) as Hqp.
           { intros ->. apply Hba. destruct Hg as (_ & Hg & <-), Hh1 as (_ & Hh1 & <-). congruence. }
           unfold replaced, c2. cbn. rewrite Hl. set_solver.
      * apply (frame_except a c G); [by apply calm_frame|done|done].
    + change (queue c1 a = m :: l). by rewrite (ca_queue c c1).
    + change (requests_ok (num_tiles c1) (G a) a l). by rewrite (calm_tiles c c1).
    + intros _. change (DramCntlr.contents (_dram_cntlr c1) a = V a). rewrite (ca_dram c c1) by done.
      apply (current_unmodified c G V a p e); try done. congruence.
    + intros q g Hg. by destruct (Hno q g).
    + intros _ Hset. apply Hfull. apply (calm_set_full c c1); [done|]. revert Hset. apply set_full_back; try done.
      intros b q g _ _ Hg. by apply Hheld.
    + intros q g Hg. by destruct (Hno q g).
Qed.

(** The next request starts in a state like the one after the last. *)
Lemma dequeued_req_pre c G V a m m' l :
  next_pre c G V a m (m' :: l) → req_pre (dequeued c a) G V a m' l ∧ current (dequeued c a) V a.
Proof.
  intros [H1 H2 H3 H4 H5 H6 H7 H8 H9]. split; [|done]. split; try done.
  - apply (frame_except a c G); [apply dequeued_frame|apply dequeued_base, (ie_base _ _ _ _ H1)|done].
  - by rewrite dequeued_queue, decide_True, H3.
  - intros p e Hh. by apply (H9 p e).
  - intros Hno Hf. apply H8; [done|]. by apply dequeued_set_full.
Qed.

Lemma next_step f : ex_spec f → sh_spec f → next_spec (S f).
Proof.
  intros Hex Hsh c G V a m l Hpre Hf. pose proof Hpre as [H1 H2 H3 H4 H5 H6 H7 H8 H9]. pose proof (ie_base _ _ _ _ H1) as Hb.
  destruct l as [|m' l].
  { apply (next_last_runs f c G a m); [done|done|]. exists G. split; [by apply progress_refl|].
    apply (dir_inv_intro _ _ _ a).
    - apply (frame_except a c G); [apply dequeued_frame|by apply dequeued_base|done].
    - assert (queue (dequeued c a) a = []) as Hq by by rewrite dequeued_queue, decide_True, H3.
      split; (split; [|]); rewrite ?Hq; try done. split; [|done]. intros p e Hh. by apply (H9 p e). }
  destruct (dequeued_req_pre c G V a m m' l Hpre) as [Hreq Hcur].
  cbn [processNextReqFromL2Cache]. apply runs_bind, queue_count_runs. rewrite H3.
  apply runs_bind, runs_assert; [by apply Z.leb_le; unfold zlength; cbn; lia|].
  apply runs_bind, runs_modify, runs_bind, runs_gets. unfold id. fold (dequeued c a).
  match goal with |- runs _ _ ?s _ => change s with (dequeued c a) end.
  assert (HashMapQueue.empty (_dram_directory_req_queue_list (dequeued c a)) a = false) as Hne.
  { rewrite HashMapQueue.empty_value by (apply (bs_queues _ _ (dequeued_base c G a Hb))).
    apply bool_decide_eq_false_2. intros Hn. pose proof (rp_queue _ _ _ _ _ _ Hreq) as Hq. unfold queue in Hq. by rewrite Hn in Hq. }
  match goal with |- runs _ (if ?b then _ else _) _ _ => change b with (HashMapQueue.empty (_dram_directory_req_queue_list (dequeued c a)) a) end.
  rewrite Hne. apply runs_bind, (front_request_runs _ a m' l); [apply (rp_queue _ _ _ _ _ _ Hreq)|].
  intros r c1 Hr Hc. pose proof (calm_req_pre _ c1 _ _ _ _ _ Hc Hreq) as Hreq1.
  apply (calm_current _ c1) in Hcur; [|done].
  apply (finished_runs V c G c1 G); [by apply (progress_trans V c G (dequeued c a) G); [apply progress_refl|apply calm_progress]|].
  destruct H4 as [[(_ & Ht & _) _]%Forall_cons_1 _]. rewrite Hr. cbn in Hf. destruct Ht as [Ht|Ht]; rewrite Ht.
  - apply (Hex r c1 G V a m' l); [done|done|done|done|lia].
  - apply (Hsh r c1 G V a m' l); [done|done|done|by split|lia].
Qed.

Lemma specs f : next_spec f ∧ ex_spec f ∧ sh_spec f ∧ nullify_spec f.
Proof.
  induction f as [|f (IH1 & IH2 & IH3 & _)].
  - split_and!; intro; intros; lia.
  - split_and!; [by apply next_step|by apply ex_step|by apply sh_step|by apply nullify_step].
Qed.

(** ** Replies *)

Lemma calm_inv c c' G V : calm c c' → dir_inv c G V → dir_inv c' G V.
Proof.
  intros Hc [H1 H2]. split; [by apply (calm_base c)|]. intros a Ha.
  apply (addr_inv_agrees c G); auto.
  - by apply calm_tiles.
  - by rewrite (ca_dram c c').
  - by apply ca_queue.
  - by rewrite (calm_memory c c').
  - intros p e. by apply calm_held.
  - intros p e _. by apply calm_replaced.
  - intros x ty. by apply calm_asked.
Qed.

(** The state after the entry [p] of [a] became [e]: the queue has not been
    looked at yet. *)
Record replied (c : DramDirectoryCntlr) (G : sharers) (V : values) (a : Z) (p : entry_ptr)
    (e : DirectoryEntry.DirectoryEntry) : Prop := {
  re_except : inv_except c G V a;
  re_valid : a ≠ INVALID_ADDRESS;
  re_addr : addr_ok c G a;
  re_held q g : held c a q g ↔ q = p ∧ g = e;
  re_shape : match queue c a with [] => ¬ replaced c p | m :: _ => replaced c p ↔ is_nullify m = true end;
  re_state : DirectoryEntry.getDState e ≠ DirectoryState.MODIFIED;
  re_full : set_full c a → Err no_candidate
}.

Lemma replied_intro c G V V' a p e e' S :
  dir_inv c G V → a ≠ INVALID_ADDRESS → held c a p e → DirectoryEntry.getAddress e' = a →
  entry_ok (num_tiles c) S e' → S ⊆ G a → (∀ b, b ≠ a → V' b = V b) →
  DirectoryEntry.getDState e' ≠ DirectoryState.MODIFIED → (set_full c a → Err no_candidate) →
  replied (with_entry c p e') (upd G a S) V' a p e'.
Proof.
  intros Hinv Ha Hh Hea Hok HS HV Hst Hfull. pose proof Hinv as [Hb Haddr]. destruct (Haddr a Ha) as [[Hq Hm] [_ Hs]].
  split; try done.
  - apply (frame_except a c G); [by apply (with_entry_frame c G a p e)|by apply (with_entry_base c G a p e)|].
    split; [done|]. intros b Hbi Hba. destruct (Haddr b Hbi) as [H1 [H2 H3]]. split; [done|]. split; [|done].
    intros Hnm. rewrite HV by done. by apply H2.
  - split; rewrite upd_eq; [by apply (queue_subset _ (G a))|]. intros HS0. apply Hm. set_solver.
  - intros q g. rewrite (with_entry_held c G a p e) by done. naive_solver.
  - change (queue (with_entry c p e') a) with (queue c a). destruct (queue c a) as [|m l].
    + destruct Hs as [Hs _]. by apply (Hs p e).
    + destruct Hs as (q & g & Hg & _ & Hr & _). by destruct (held_unique c G a p e q g Hb Ha Hh Hg) as [-> _].
  - intros Hset. apply Hfull. by apply (with_entry_set_full c G a p e e').
Qed.

Lemma replied_unasked c G V a p e : replied c G V a p e → unasked c a.
Proof. intros Hre q g [-> ->]%(re_held _ _ _ _ _ _ Hre) Hst. by destruct (re_state _ _ _ _ _ _ Hre). Qed.

Lemma calm_replied c c' G V a p e : calm c c' → replied c G V a p e → replied c' G V a p e.
Proof.
  intros Hc [H1 H2 H3 H4 H5 H6 H7]. split; try done; [| | | |intros Hset; by apply H7, (calm_set_full c c')].
  - apply (frame_except a c G); [by apply calm_frame|by apply (calm_base c), (ie_base _ _ _ _ H1)|done].
  - by apply (calm_addr_ok c).
  - intros q g. rewrite (calm_held c c') by done. apply H4.
  - rewrite (ca_queue c c') by done. destruct (queue c a); by rewrite (calm_replaced c c').
Qed.

Lemma memory_step_replied c c' G V a p e : memory_step a c c' → replied c G V a p e → replied c' G V a p e.
Proof.
  intros Hc [H1 H2 [H3 H3'] H4 H5 H6 H7]. split; try done; [| | | |intros Hset; by apply H7, (memory_step_set_full a c c')].
  - apply (frame_except a c G); [by apply memory_step_frame|by apply (memory_step_base a c), (ie_base _ _ _ _ H1)|done].
  - split; [|intros _; apply (ms_present _ _ _ Hc)]. by rewrite (memory_step_tiles a c c'), (memory_step_queue a c c').
  - intros q g. rewrite (memory_step_held a c c') by done. apply H4.
  - rewrite (memory_step_queue a c c') by done. destruct (queue c a); by rewrite (memory_step_replaced a c c').
Qed.

Lemma replied_req_pre c G V a p e m l :
  replied c G V a p e → queue c a = m :: l → is_nullify m = false → req_pre c G V a m l.
Proof.
  intros Hre Hq Hn. pose proof (replied_unasked _ _ _ _ _ _ Hre) as Hu. destruct Hre as [H1 H2 [H3 H3'] H4 H5 H6 H7].
  rewrite Hq in H3, H5. cbn in H3. rewrite Hn in *. split; try done.
  intros q g [-> ->]%H4. naive_solver.
Qed.

Lemma replied_settled c G V a p e :
  replied c G V a p e → current c V a →
  match queue c a with
  | [] => True
  | m :: _ => DirectoryEntry.getDState e ≠ DirectoryState.UNCACHED ∧ asked_for (_net c) (G a) a m e
  end → dir_inv c G V.
Proof.
  intros Hre Hc Hor. pose proof (replied_unasked _ _ _ _ _ _ Hre) as Hu. destruct Hre as [H1 H2 H3 H4 H5 H6 H7]. apply (dir_inv_intro _ _ _ a); [done|]. split; [done|]. split; [done|].
  destruct (queue c a) as [|m l].
  - split; [|done]. by intros q g [-> _]%H4.
  - destruct Hor as [Hun Hasked]. exists p, e. by split_and!; [apply H4|..].
Qed.

(** The request at the front when a reply is in. *)
Lemma replied_front c G V a p e m l :
  replied c G V a p e → queue c a = m :: l →
  (is_nullify m = true ∧ replaced c p) ∨
  (is_nullify m = false ∧ (ShmemMsg._msg_type m = ShmemMsg.EX_REQ ∨ ShmemMsg._msg_type m = ShmemMsg.SH_REQ)).
Proof.
  intros [H1 H2 [H3 _] H4 H5 _ _] Hq. rewrite Hq in H3, H5. cbn in H3. destruct (is_nullify m).
  - left. naive_solver.
  - right. by destruct H3 as [[(_ & ? & _) _]%Forall_cons_1 _].
Qed.

Lemma nullify_type m : is_nullify m = true → ShmemMsg._msg_type m = ShmemMsg.NULLIFY_REQ.
Proof. unfold is_nullify. intros. by breflect. Qed.

Lemma replied_nullify c G V a p e m l r f :
  replied c G V a p e → current c V a → queue c a = m :: l → is_nullify m = true → replaced c p →
  ShmemReq.m_shmem_msg r = m → (2 * length (queue c a) + 2 ≤ f)%nat →
  runs Err (processNullifyReq f r) c (finished V c G).
Proof.
  intros Hre Hc Hq Hn Hr Hm Hf. pose proof (replied_unasked _ _ _ _ _ _ Hre) as Hu.
  destruct Hre as [H1 H2 H3 H4 H5 H6 H7]. rewrite Hq in Hf. cbn in Hf.
  apply (proj2 (proj2 (proj2 (specs f))) r c G V a m l p e); try done; [by apply H4|lia].
Qed.

(** The request at the front starts again after a reply. *)
Lemma replied_ex c G V a p e m l r f cached :
  replied c G V a p e → queue c a = m :: l → is_nullify m = false → ShmemReq.m_shmem_msg r = m →
  ShmemMsg._msg_type m = ShmemMsg.EX_REQ → ex_data c V a cached → (2 * length (queue c a) + 2 ≤ f)%nat →
  runs Err (processExReqFromL2Cache f r cached) c (finished V c G).
Proof.
  intros Hre Hq Hn Hm Hty Hd Hf. rewrite Hq in Hf. cbn in Hf.
  apply (proj1 (proj2 (specs f)) r c G V a m l); [by apply (replied_req_pre c G V a p e)|done..|lia].
Qed.
Lemma replied_sh c G V a p e m l r f cached :
  replied c G V a p e → queue c a = m :: l → is_nullify m = false → ShmemReq.m_shmem_msg r = m →
  ShmemMsg._msg_type m = ShmemMsg.SH_REQ → sh_data c V a cached → (2 * length (queue c a) + 2 ≤ f)%nat →
  runs Err (processShReqFromL2Cache f r cached) c (finished V c G).
Proof.
  intros Hre Hq Hn Hm Hty Hd Hf. rewrite Hq in Hf. cbn in Hf.
  apply (proj1 (proj2 (proj2 (specs f))) r c G V a m l); [by apply (replied_req_pre c G V a p e)|done..|lia].
Qed.

Lemma existing_entry_runs c G a p e site (Q : entry_ptr → DramDirectoryCntlr → Prop) :
  base c G → a ≠ INVALID_ADDRESS → held c a p e → (∀ c', calm c c' → Q p c') →
  runs Err (existing_entry a site) c Q.
Proof. intros Hb Ha Hh HQ. by apply runs_bind, (lookup_held_runs c G a p e). Qed.

Lemma remove_sharer_ok n S e x :
  tracks n (DirectoryEntry._tracker e) S → x ∈ S →
  ∃ t, DirectoryEntry.entry_removeSharer e x false = Ok (e <| DirectoryEntry._tracker := t |>) ∧
    tracks n t (S ∖ {[x]}) ∧ getNumSharers t = Ok (Z.of_nat (size (S ∖ {[x]}))).
Proof.
  intros Ht Hx. destruct (remove_ok n _ S x Ht Hx) as (t & Hr & Ht'). exists t.
  unfold DirectoryEntry.entry_removeSharer. rewrite Hr. split_and!; [done|done|]. by eapply num_ok.
Qed.

Lemma inv_rep_runs f sender msg c G V a p e :
  dir_inv c G V → ShmemMsg._address msg = a → a ≠ INVALID_ADDRESS → held c a p e →
  DirectoryEntry.getDState e = DirectoryState.SHARED → sender ∈ G a →
  (2 * length (queue c a) + 2 ≤ f)%nat → (set_full c a → Err no_candidate) →
  runs Err (processInvRepFromL2Cache f sender msg) c (finished V c (upd G a (G a ∖ {[sender]}))).
Proof.
  intros Hinv Hma Ha Hh Hst Hs Hf Hfull. unfold processInvRepFromL2Cache. rewrite Hma.
  apply runs_bind, (existing_entry_runs c G a p e); [apply Hinv|done|done|]. intros c1 Hc1.
  pose proof (calm_inv c c1 G V Hc1 Hinv) as Hinv1. pose proof (di_base _ _ _ Hinv1) as Hb1.
  assert (held c1 a p e) as Hh1 by by apply (calm_held c c1).
  pose proof (holds_entry_ok _ _ a p e (bs_dir _ _ Hb1) Hh1) as [Ht Hown]. rewrite Hst in Hown. destruct Hown as [_ Hown].
  destruct (remove_sharer_ok _ _ e sender Ht Hs) as (t & Hrem & Ht' & Hnum).
  apply runs_bind, (entry_runs p e c1 a); [done|]. apply runs_bind, runs_assert; [by apply bool_decide_eq_true_2|].
  apply runs_bind. eapply runs_lift; [exact Hrem|]. apply runs_bind. eapply runs_lift; [exact Hnum|].
  set (S := G a ∖ {[sender]}) in *. set (e' := if Z.of_nat (size S) =? 0 then _ else _).
  assert (DirectoryEntry.getAddress e' = a) as Hea by (subst e'; destruct Hh as (_ & _ & <-); by case_match).
  assert (if decide (S = ∅) then DirectoryEntry.getDState e' = DirectoryState.UNCACHED
          else DirectoryEntry.getDState e' = DirectoryState.SHARED) as Hst'.
  { subst e'. case_decide as HS; destruct (Z.eqb_spec (Z.of_nat (size S)) 0) as [Hz|Hz]; try done.
    - rewrite HS in Hz. by rewrite size_empty in Hz.
    - destruct HS. apply size_empty_iff_L. lia. }
  assert (entry_ok (num_tiles c1) S e') as Hok.
  { split; [subst e'; by destruct (Z.of_nat (size S) =? 0)|]. assert (DirectoryEntry.getOwner e' = INVALID_TILE_ID) as Ho
      by (subst e'; by destruct (Z.of_nat (size S) =? 0)).
    case_decide; rewrite Hst'; done. }
  assert (replied (with_entry c1 p e') (upd G a S) V a p e') as Hre.
  { apply (replied_intro c1 G V V a p e); try done; [set_solver|by case_decide; rewrite Hst'|].
    intros Hset. by apply Hfull, (calm_set_full c c1). }
  assert (current (with_entry c1 p e') V a) as Hcur.
  { intros _. change (DramCntlr.contents (_dram_cntlr c1) a = V a).
    apply (current_unmodified c1 G V a p e); try done; [apply (di_addr _ _ _ Hinv1 a Ha)|congruence]. }
  apply runs_bind, set_entry_runs. set (c2 := with_entry c1 p e') in *.
  assert (queue c2 a = queue c a) as Hq2 by (change (queue c1 a = queue c a); by rewrite (ca_queue c c1)).
  apply runs_bind, queue_count_runs.
  assert (∀ b x, modified c2 b x ↔ modified c b x) as Hmod.
  { intros b x. transitivity (modified c1 b x); [|apply modified_ext; intros; by apply calm_held].
    unfold c2. rewrite (modified_with_entry c1 G a p e) by done. split.
    - intros [(_ & Hm & _)|[_ ?]]; [|done]. case_decide; congruence.
    - intros Hm. right. split; [|done]. intros ->. destruct Hm as (_ & q & g & Hg & Hgs & _).
      destruct (held_unique c1 G a p e q g Hb1 Ha Hh1 Hg) as [_ ->]. congruence. }
  apply (finished_runs V c (upd G a S) c2 (upd G a S)); [apply progress_refl; [by apply (ca_net c c1)|done]|].
  destruct (queue c2 a) as [|m l] eqn:Hq.
  { apply runs_ret. exists (upd G a S). split; [by apply progress_refl|]. apply (replied_settled c2 _ _ a p e'); [done|done|by rewrite Hq]. }
  assert (asked_for (_net c) (G a) a m e) as Hasked.
  { pose proof (di_addr _ _ _ Hinv a Ha) as [_ [_ Hset]]. rewrite <- Hq2 in Hset.
    destruct Hset as (q & g & Hg & _ & _ & Has & _). by destruct (held_unique c G a p e q g (di_base _ _ _ Hinv) Ha Hh Hg) as [_ ->]. }
  apply runs_when; intros Hcnt; [|unfold zlength in Hcnt; cbn in Hcnt; breflect; lia].
  apply runs_bind, (front_request_runs c2 a m l); [done|]. intros r c3 Hr Hc3.
  apply (calm_replied c2 c3) in Hre; [|done]. apply (calm_current c2 c3) in Hcur; [|done].
  assert (queue c3 a = m :: l) as Hq3 by by rewrite (ca_queue c2 c3).
  assert ((2 * length (queue c3 a) + 2 ≤ f)%nat) as Hf3 by (rewrite Hq3, Hq2; done).
  apply (finished_runs V c2 _ c3 (upd G a S)); [by apply calm_progress|].
  assert (∀ op, ShmemMsg._msg_type m ≠ ShmemMsg.SH_REQ →
    (DirectoryEntry.getDState e' = DirectoryState.UNCACHED → runs Err op c3 (finished V c3 (upd G a S))) →
    runs Err (when (bool_decide (DirectoryEntry.getDState e' = DirectoryState.UNCACHED)) op) c3 (finished V c3 (upd G a S))) as Hwhen.
  { intros op Hty Hop. apply runs_when; intros Hu; breflect; [by apply Hop|]. exists (upd G a S). split; [by apply progress_refl|].
    apply (replied_settled c3 _ _ a p e'); [done|done|]. rewrite Hq3. split; [done|]. rewrite upd_eq, (ca_net c2 c3) by done.
    change (_net c2) with (_net c1). rewrite (ca_net c c1) by done. unfold asked_for in *. rewrite Hst in Hasked.
    rewrite bool_decide_false in Hasked |- * by done.
    case_decide as HS; [by rewrite Hst' in Hu|]. rewrite Hst'. intros y Hy. apply Hasked. set_solver. }
  rewrite Hr. destruct (replied_front c3 _ _ a p e' m l Hre Hq3) as [[Hn Hrep]|[Hn [Ht0|Ht0]]].
  - rewrite (nullify_type m Hn). apply Hwhen; [by rewrite (nullify_type m Hn)|]. intros _. by apply (replied_nullify c3 _ V a p e' m l).
  - rewrite Ht0. apply Hwhen; [by rewrite Ht0|]. intros _. by apply (replied_ex c3 _ V a p e' m l).
  - rewrite Ht0. by apply (replied_sh c3 _ V a p e' m l).
Qed.

(** The owner of a line gives it up. *)
Lemma give_up_ok n S e :
  entry_ok n S e → DirectoryEntry.getDState e = DirectoryState.MODIFIED →
  ∃ e1, DirectoryEntry.entry_removeSharer e (DirectoryEntry.getOwner e) false = Ok e1 ∧
    DirectoryEntry.setOwner e1 INVALID_TILE_ID = Ok (e1 <| DirectoryEntry._owner_id := INVALID_TILE_ID |>) ∧
    entry_ok n ∅ (DirectoryEntry.setDState DirectoryState.UNCACHED (e1 <| DirectoryEntry._owner_id := INVALID_TILE_ID |>)) ∧
    DirectoryEntry.getAddress e1 = DirectoryEntry.getAddress e.
Proof.
  intros [Ht Hs] Hst. rewrite Hst in Hs. destruct Hs as [-> _].
  destruct (remove_sharer_ok n _ e (DirectoryEntry.getOwner e) Ht) as (t & Hrem & Ht' & _); [set_solver|].
  eexists. split; [exact Hrem|]. rewrite difference_diag_L in Ht'. split_and!; [done| |done]. by split.
Qed.

(** The line of [a] is nobody's to modify any more. *)
Lemma modified_without c c1 G a p e e' b x :
  calm c c1 → base c1 G → a ≠ INVALID_ADDRESS → held c1 a p e → DirectoryEntry.getAddress e' = a →
  DirectoryEntry.getDState e' ≠ DirectoryState.MODIFIED →
  modified (with_entry c1 p e') b x ↔ modified c b x ∧ b ≠ a.
Proof.
  intros Hc Hb Ha Hh Hea Hst. rewrite (modified_with_entry c1 G a p e) by done.
  rewrite (modified_ext c c1) by (intros; by apply calm_held). naive_solver.
Qed.

Lemma flush_rep_runs f sender msg c G V a p e d :
  dir_inv c G V → ShmemMsg._address msg = a → a ≠ INVALID_ADDRESS → held c a p e →
  DirectoryEntry.getDState e = DirectoryState.MODIFIED → sender = DirectoryEntry.getOwner e →
  ShmemMsg._data_buf msg = Some d → zlength d = _cache_line_size c → (2 * length (queue c a) + 2 ≤ f)%nat →
  (set_full c a → Err no_candidate) →
  runs Err (processFlushRepFromL2Cache f sender msg) c
    (finished_from (upd V a d) (_net c) (λ b x, modified c b x ∧ b ≠ a) (upd G a ∅)).
Proof.
  intros Hinv Hma Ha Hh Hst -> Hd Hl Hf Hfull. unfold processFlushRepFromL2Cache. rewrite Hma, Hd.
  apply runs_bind, (existing_entry_runs c G a p e); [apply Hinv|done|done|]. intros c1 Hc1.
  pose proof (calm_inv c c1 G V Hc1 Hinv) as Hinv1. pose proof (di_base _ _ _ Hinv1) as Hb1.
  assert (held c1 a p e) as Hh1 by by apply (calm_held c c1).
  pose proof (holds_entry_ok _ _ a p e (bs_dir _ _ Hb1) Hh1) as Hok.
  assert (is_Some (memory c1 !! a)) as Hpres.
  { apply (di_addr _ _ _ Hinv1 a Ha). destruct Hok as [_ Hs]. rewrite Hst in Hs. destruct Hs as [-> _]. set_solver. }
  destruct (give_up_ok _ _ e Hok Hst) as (e1 & Hrem & Hown & Hok' & Hea).
  set (e' := DirectoryEntry.setDState _ _) in Hok'.
  apply runs_bind, (entry_runs p e c1 a); [done|]. apply runs_bind, runs_assert; [by apply bool_decide_eq_true_2|].
  apply runs_bind. eapply runs_lift; [exact Hrem|]. apply runs_bind. eapply runs_lift; [exact Hown|]. fold e'.
  set (V' := upd V a d). set (G' := upd G a ∅). set (c2 := with_entry c1 p e').
  assert (replied c2 G' V' a p e') as Hre.
  { apply (replied_intro c1 G V V' a p e); try done; [destruct Hh as (_ & _ & <-); exact Hea|intros b; apply upd_ne|].
    intros Hset. by apply Hfull, (calm_set_full c c1). }
  apply runs_bind, set_entry_runs. fold c2. apply runs_bind, queue_count_runs.
  assert (queue c2 a = queue c a) as Hq2 by (change (queue c1 a = queue c a); by rewrite (ca_queue c c1)).
  apply (finished_from_runs V' _ _ G' c2 G').
  { rewrite <- (ca_net c c1) by done. apply (progress_from_refl V' _ c2 G'). intros b x _.
    apply (modified_without c c1 G a p e); try done. destruct Hh as (_ & _ & <-); exact Hea. }
  assert (∀ c3, calm c2 c3 → base c3 G' ∧ zlength d = _cache_line_size c3 ∧ is_Some (memory c3 !! a)) as Hc3d.
  { intros c3 Hc. split; [by apply (calm_base c2), (ie_base _ _ _ _ (re_except _ _ _ _ _ _ Hre))|].
    rewrite (ca_line c2 c3), (calm_memory c2 c3) by done. split; [|done]. change (zlength d = _cache_line_size c1). by rewrite (ca_line c c1). }
  assert (∀ c3 modeled op, calm c2 c3 →
    (∀ c4, memory_step a c3 c4 → replied c4 G' V' a p e' → current c4 V' a → data_ok c4 V' a (Some d) → queue c4 a = queue c2 a →
       runs Err op c4 (finished V' c4 G')) →
    runs Err (sendDataToDram a (Some d) modeled ;; op) c3 (finished V' c2 G')) as Hdram.
  { intros c3 modeled op Hc Hop. destruct (Hc3d c3 Hc) as (Hb3 & Hl3 & Hp3).
    apply runs_bind, (sendDataToDram_runs c3 G'); [done..|]. intros c4 Hms Hcon Hnet.
    apply (finished_runs V' c2 G' c4 G').
    { apply progress_refl; [by rewrite Hnet, (ca_net c2 c3)|]. intros b x. rewrite (memory_step_modified a c3 c4) by done.
      apply modified_ext. intros; by apply calm_held. }
    apply Hop; [done|..].
    - by apply (memory_step_replied c3), (calm_replied c2).
    - intros _. unfold V'. by rewrite upd_eq.
    - split; [unfold V'; by rewrite upd_eq|]. split; [by rewrite (ms_line a c3 c4)|apply (ms_present _ _ _ Hms)].
    - by rewrite (memory_step_queue a c3 c4), (ca_queue c2 c3). }
  destruct (queue c2 a) as [|m l] eqn:Hq; unfold zlength; cbn.
  { destruct (Hc3d c2 (calm_refl c2)) as (Hb3 & Hl3 & Hp3).
    apply (sendDataToDram_runs c2 G'); [done..|]. intros c4 Hms Hcon Hnet. exists G'.
    split; [apply progress_refl; [done|]; intros b x; by apply (memory_step_modified a)|].
    apply (replied_settled c4 _ _ a p e'); [by apply (memory_step_replied c2)| |by rewrite (memory_step_queue a c2 c4), Hq].
    intros _. unfold V'. by rewrite upd_eq. }
  apply runs_bind, (front_request_runs c2 a m l); [done|]. intros r c3 Hr Hc3.
  pose proof (calm_replied c2 c3 _ _ _ _ _ Hc3 Hre) as Hre3.
  assert (queue c3 a = m :: l) as Hq3 by by rewrite (ca_queue c2 c3).
  rewrite Hr. destruct (replied_front c3 _ _ a p e' m l Hre3 Hq3) as [[Hn Hrep]|[Hn [Ht0|Ht0]]].
  - rewrite (nullify_type m Hn). apply Hdram; [done|]. intros c4 Hms Hre4 Hcur4 _ Hq4.
    apply (replied_nullify c4 _ V' a p e' m l); try done; [by apply (memory_step_replaced a c3)|rewrite Hq4; by rewrite Hq2].
  - rewrite Ht0. apply (finished_runs V' c2 G' c3 G'); [by apply calm_progress|].
    apply (replied_ex c3 _ V' a p e' m l); try done; [|by rewrite Hq3, Hq2].
    destruct (Hc3d c3 Hc3) as (_ & Hl3 & Hp3). split; [split; [unfold V'; by rewrite upd_eq|done]|].
    intros q g Hg. by apply (re_held _ _ _ _ _ _ Hre3) in Hg as [-> ->].
  - rewrite Ht0. apply Hdram; [done|]. intros c4 Hms Hre4 Hcur4 Hdk Hq4.
    apply (replied_sh c4 _ V' a p e' m l); try done; [|by rewrite Hq4, Hq2]. split; [done|]. split; [done|].
    intros q g Hg. by apply (re_held _ _ _ _ _ _ Hre4) in Hg as [-> ->].
Qed.

Lemma wb_rep_runs f sender msg c G V a p e d m l :
  dir_inv c G V → ShmemMsg._address msg = a → a ≠ INVALID_ADDRESS → held c a p e →
  DirectoryEntry.getDState e = DirectoryState.MODIFIED → sender = DirectoryEntry.getOwner e →
  ShmemMsg._data_buf msg = Some d → zlength d = _cache_line_size c →
  queue c a = m :: l → ShmemMsg._msg_type m = ShmemMsg.SH_REQ → (2 * length (queue c a) + 2 ≤ f)%nat →
  (set_full c a → Err no_candidate) →
  runs Err (processWbRepFromL2Cache f sender msg) c
    (finished_from (upd V a d) (_net c) (λ b x, modified c b x ∧ b ≠ a) G).
Proof.
  intros Hinv Hma Ha Hh Hst -> Hd Hl Hq Hty Hf Hfull. unfold processWbRepFromL2Cache. rewrite Hma, Hd.
  apply runs_bind, (existing_entry_runs c G a p e); [apply Hinv|done|done|]. intros c1 Hc1.
  pose proof (calm_inv c c1 G V Hc1 Hinv) as Hinv1. pose proof (di_base _ _ _ Hinv1) as Hb1.
  assert (held c1 a p e) as Hh1 by by apply (calm_held c c1).
  pose proof (holds_entry_ok _ _ a p e (bs_dir _ _ Hb1) Hh1) as [Ht Hs]. rewrite Hst in Hs. destruct Hs as [HG Hbr].
  assert (is_Some (memory c1 !! a)) as Hpres by (apply (di_addr _ _ _ Hinv1 a Ha); rewrite HG; set_solver).
  destruct (has_ok _ _ _ (DirectoryEntry.getOwner e) Ht) as (b & Hhas & _ & Hb).
  { apply (tracks_range _ _ _ _ Ht). rewrite HG. set_solver. }
  rewrite Hb, bool_decide_true in Hhas by (try done; rewrite HG; set_solver).
  set (e' := DirectoryEntry.setDState DirectoryState.SHARED (e <| DirectoryEntry._owner_id := INVALID_TILE_ID |>)).
  apply runs_bind, (entry_runs p e c1 a); [done|]. apply runs_bind, runs_assert; [by apply bool_decide_eq_true_2|].
  apply runs_bind. eapply runs_lift; [exact Hhas|]. apply runs_bind, runs_assert; [done|].
  apply runs_bind. eapply runs_lift; [apply DirectoryEntry.setOwner_none|]. fold e'.
  set (V' := upd V a d). set (c2 := with_entry c1 p e').
  assert (replied c2 (upd G a (G a)) V' a p e') as Hre.
  { apply (replied_intro c1 G V V' a p e); try done; [by destruct Hh as (_ & _ & <-)| |intros x; apply upd_ne|].
    - split; [done|]. split; [|done]. rewrite HG. set_solver.
    - intros Hset. by apply Hfull, (calm_set_full c c1). }
  set (G' := upd G a (G a)) in *.
  assert (∀ b, G' b = G b) as HGG by (intros x; apply upd_same).
  apply runs_bind, set_entry_runs. fold c2. apply runs_bind, queue_count_runs.
  assert (queue c2 a = m :: l) as Hq2 by (change (queue c1 a = m :: l); by rewrite (ca_queue c c1)).
  rewrite Hq2. unfold zlength. cbn. apply runs_bind, (front_request_runs c2 a m l); [done|]. intros r c3 Hr Hc3.
  pose proof (calm_replied c2 c3 _ _ _ _ _ Hc3 Hre) as Hre3.
  assert (queue c3 a = m :: l) as Hq3 by by rewrite (ca_queue c2 c3).
  assert (zlength d = _cache_line_size c3) as Hl3.
  { rewrite (ca_line c2 c3) by done. change (zlength d = _cache_line_size c1). by rewrite (ca_line c c1). }
  assert (is_Some (memory c3 !! a)) as Hp3 by by rewrite (calm_memory c2 c3).
  apply runs_bind, (sendDataToDram_runs c3 G'); [apply Hre3|done|done|]. intros c4 Hms Hcon Hnet.
  assert (progress_from V' (_net c) (λ b x, modified c b x ∧ b ≠ a) G c4 G') as Hprog.
  { exists []. rewrite Hnet, (ca_net c2 c3), app_nil_r by done. split; [by apply (ca_net c c1)|]. split_and!; [|done|].
    - intros b0. rewrite HGG, granted_nil. set_solver.
    - intros b0 x _. rewrite (memory_step_modified a c3 c4), (modified_ext c2 c3) by (done || (intros; by apply calm_held)).
      unfold c2. rewrite (modified_without c c1 G a p e) by (done || by destruct Hh as (_ & _ & <-)). set_solver. }
  apply (finished_from_runs V' _ _ G c4 G'); [done|]. rewrite Hr, bool_decide_true by done. apply runs_bind, runs_ret.
  pose proof (memory_step_replied c3 c4 _ _ _ _ _ Hms Hre3) as Hre4.
  assert (queue c4 a = m :: l) as Hq4 by by rewrite (memory_step_queue a c3 c4).
  assert (is_nullify m = false) as Hn by (unfold is_nullify; rewrite Hty; done).
  apply (replied_sh c4 _ V' a p e' m l); try done; [|by rewrite Hq4; rewrite Hq in Hf].
  assert (d = V' a) as Hdv by (unfold V'; by rewrite upd_eq).
  split; [|split; [split_and!; [done|by rewrite (ms_line a c3 c4)|apply (ms_present _ _ _ Hms)]|]].
  - intros _. by rewrite <- Hdv.
  - intros q g Hg. by apply (re_held _ _ _ _ _ _ Hre4) in Hg as [-> ->].
Qed.

(** ** Requests *)

Definition new_request (c : DramDirectoryCntlr) (G : sharers) (msg : ShmemMsg.ShmemMsg) : Prop :=
  let a := ShmemMsg._address msg in
  ShmemMsg._data_buf msg = None ∧ tile_in (num_tiles c) (ShmemMsg._requester msg) ∧
  (ShmemMsg._requester msg ∉ G a) ∧
  (∀ m, m ∈ queue c a → is_nullify m = false → ShmemMsg._requester m ≠ ShmemMsg._requester msg).

(** A request that finds others waiting is queued; the first one starts. *)
Lemma request_runs process msg c G V a time :
  dir_inv c G V → ShmemMsg._address msg = a → a ≠ INVALID_ADDRESS → new_request c G msg →
  (ShmemMsg._msg_type msg = ShmemMsg.EX_REQ ∨ ShmemMsg._msg_type msg = ShmemMsg.SH_REQ) → (set_full c a → Err no_candidate) →
  (∀ r c1, ShmemReq.m_shmem_msg r = msg → req_pre c1 G V a msg [] → current c1 V a →
     runs Err (process r) c1 (finished V c1 G)) →
  runs Err (shmem_req ← lift (ShmemReq.make msg time) ; enqueue a shmem_req ;;
                  count ← queue_count a ; when (count =? 1) (process shmem_req)) c (finished V c G).
Proof.
  intros Hinv Hma Ha (Hd & Hx & Hnx & Hdis) Hty Hfull Hproc. rewrite Hma in *. pose proof Hinv as [Hb Haddr].
  destruct (Haddr a Ha) as [[Hq Hm] [Hcur Hs]].
  assert (requests_ok (num_tiles c) (G a) a [msg]) as Hreq.
  { split; [by apply Forall_singleton|apply NoDup_singleton]. }
  apply runs_bind. eapply (runs_lift _ _ (ShmemReq.mkShmemReq msg time)).
  { unfold ShmemReq.make. by rewrite bool_decide_true. }
  set (r := ShmemReq.mkShmemReq msg time). apply runs_bind, runs_modify.
  match goal with |- runs _ _ ?s _ => change s with (enqueued c a r) end.
  assert (queue (enqueued c a r) a = queue c a ++ [msg]) as Hqe by by rewrite enqueued_queue, decide_True.
  assert (inv_except (enqueued c a r) G V a) as Hex.
  { apply (frame_except a c G); [apply enqueued_frame|by apply enqueued_base|by apply dir_inv_except]. }
  apply runs_bind, queue_count_runs. rewrite Hqe. apply (finished_runs V c G (enqueued c a r) G); [by apply progress_refl|].
  destruct (queue c a) as [|m l] eqn:Hqc.
  - apply Hproc; [done| |done]. destruct Hs as [Hs Hu]. split; try done.
    intros _ Hset. by apply Hfull, (enqueued_set_full c a r).
  - apply runs_when; [intros Hc; exfalso; breflect; unfold zlength in Hc; rewrite length_app in Hc; cbn in Hc; lia|].
    intros _. exists G. split; [by apply progress_refl|]. apply (dir_inv_intro _ _ _ a); [done|].
    split; [split; [rewrite Hqe; by apply queue_enqueue|done]|]. split; [done|]. by rewrite Hqe.
Qed.

(** ** Messages *)

(** What the caches guarantee of a message, from the messages they were sent and
    sent before.  The requester of a line does not have it and has no other
    request for it.  An invalidation is reported by a tile that has the line, not
    exclusively; a tile that has it exclusively flushes it, or, when it was asked
    to since it got it, writes it back; data is a whole line.  [X] are the tiles
    that have a line exclusively. *)
Definition enabled (c : DramDirectoryCntlr) (G X : sharers) (sender : Z) (msg : ShmemMsg.ShmemMsg) : Prop :=
  let a := ShmemMsg._address msg in
  a ≠ INVALID_ADDRESS ∧
  match ShmemMsg._msg_type msg with
  | ShmemMsg.EX_REQ | ShmemMsg.SH_REQ => new_request c G msg
  | ShmemMsg.INV_REP => sender ∈ G a ∧ sender ∉ X a
  | ShmemMsg.FLUSH_REP => sender ∈ X a ∧ ∃ d, ShmemMsg._data_buf msg = Some d ∧ zlength d = _cache_line_size c
  | ShmemMsg.WB_REP => sender ∈ X a ∧ asked (_net c) a sender ShmemMsg.WB_REQ ∧
    ∃ d, ShmemMsg._data_buf msg = Some d ∧ zlength d = _cache_line_size c
  | _ => False
  end.

(** The sharers without a tile that gave up its line. *)
Definition sharers_left (G : sharers) (sender : Z) (msg : ShmemMsg.ShmemMsg) : sharers :=
  match ShmemMsg._msg_type msg with
  | ShmemMsg.INV_REP | ShmemMsg.FLUSH_REP => upd G (ShmemMsg._address msg) (G (ShmemMsg._address msg) ∖ {[sender]})
  | _ => G
  end.
(** The exclusive tiles without one that gave up its line or wrote it back. *)
Definition exclusive_left (X : sharers) (sender : Z) (msg : ShmemMsg.ShmemMsg) : sharers :=
  match ShmemMsg._msg_type msg with
  | ShmemMsg.FLUSH_REP | ShmemMsg.WB_REP => upd X (ShmemMsg._address msg) (X (ShmemMsg._address msg) ∖ {[sender]})
  | _ => X
  end.
(** The values after a message that carries a line. *)
Definition values_after (V : values) (msg : ShmemMsg.ShmemMsg) : values :=
  match ShmemMsg._msg_type msg with
  | ShmemMsg.FLUSH_REP | ShmemMsg.WB_REP => upd V (ShmemMsg._address msg) (default [] (ShmemMsg._data_buf msg))
  | _ => V
  end.

(** The depth of calls that a message can cause. *)
Definition enough_fuel (c : DramDirectoryCntlr) (msg : ShmemMsg.ShmemMsg) (f : nat) : Prop :=
  (2 * length (queue c (ShmemMsg._address msg)) + 4 ≤ f)%nat.

Lemma dir_inv_ext c G G' V : (∀ a, G a = G' a) → dir_inv c G V → dir_inv c G' V.
Proof.
  intros HG [H1 H2]. split; [by apply (base_ext c G)|]. intros a Ha. destruct (H2 a Ha) as [[H3 H4] H5].
  split; [split; by rewrite <- HG|]. unfold settled. by rewrite <- HG.
Qed.

(** The tiles that have a line exclusively are the owners of modified entries. *)
Definition exclusive (c : DramDirectoryCntlr) (X : sharers) : Prop :=
  ∀ a x, a ≠ INVALID_ADDRESS → modified c a x ↔ x ∈ X a.

Lemma held_dec c G a : base c G → (∃ p e, held c a p e) ∨ ∀ p e, ¬ held c a p e.
Proof.
  intros Hb. set (d := _dram_directory_cache c).
  destruct (decide (Exists (λ p, DirectoryEntry.getAddress <$> _heap d !! p = Some a) (live d))) as [Hex|Hno].
  - left. apply Exists_exists in Hex as (p & Hp & Ha). destruct (_heap d !! p) as [e|] eqn:He; [|done].
    injection Ha as Ha. exists p, e. by repeat split.
  - right. intros p e (Hp & He & Ha). apply Hno, Exists_exists. exists p. split; [done|]. fold d in He. rewrite He. cbn. by rewrite Ha.
Qed.

(** The entry of a line that a tile has exclusively. *)
Lemma exclusive_entry c G X V a x :
  dir_inv c G V → exclusive c X → a ≠ INVALID_ADDRESS → x ∈ X a →
  ∃ p e, held c a p e ∧ DirectoryEntry.getDState e = DirectoryState.MODIFIED ∧ x = DirectoryEntry.getOwner e ∧
    G a = {[x]} ∧ X a = {[x]}.
Proof.
  intros Hinv HX Ha Hx. pose proof (di_base _ _ _ Hinv) as Hb. apply (HX a x Ha) in Hx as Hm.
  destruct Hm as (_ & p & e & Hh & Hst & Ho). pose proof (holds_entry_ok _ _ a p e (bs_dir _ _ Hb) Hh) as [_ Hok].
  rewrite Hst, Ho in Hok. exists p, e. split_and!; [done..|by destruct Hok|]. apply set_eq. intros y. rewrite elem_of_singleton.
  split; [|by intros ->]. intros (_ & q & g & Hg & _ & Hy)%(HX a y Ha).
  destruct (held_unique c G a p e q g Hb Ha Hh Hg) as [_ ->]. congruence.
Qed.
(** The entry of a line that tiles have, but not exclusively. *)
Lemma shared_entry c G X V a x :
  dir_inv c G V → exclusive c X → a ≠ INVALID_ADDRESS → x ∈ G a → x ∉ X a →
  ∃ p e, held c a p e ∧ DirectoryEntry.getDState e = DirectoryState.SHARED ∧ X a = ∅.
Proof using Type.
  clear dependent Err.
  intros Hinv HX Ha Hx Hnx. pose proof (di_base _ _ _ Hinv) as Hb.
  destruct (held_dec c G a Hb) as [(p & e & Hh)|Hno].
  2:{ rewrite (dk_absent _ _ (bs_dir _ _ Hb) a Hno) in Hx. set_solver. }
  exists p, e. split; [done|]. pose proof (holds_entry_ok _ _ a p e (bs_dir _ _ Hb) Hh) as [_ Hok].
  destruct (DirectoryEntry.getDState e) eqn:Hst; try done.
  - destruct Hok as [HG _]. rewrite HG in Hx. set_solver.
  - split; [done|]. apply set_eq. intros y. split; [|set_solver]. intros (_ & q & g & Hg & Hgs & _)%(HX a y Ha).
    destruct (held_unique c G a p e q g Hb Ha Hh Hg) as [_ ->]. congruence.
  - destruct Hok as [HG _]. rewrite HG in Hx. destruct Hnx. apply (HX a x Ha). split; [done|]. exists p, e.
    split_and!; [done..|]. set_solver.
Qed.

Lemma finished_from_ext V net (N N' : Z → Z → Prop) G G' (op : M DramDirectoryCntlr unit) s :
  (∀ b x, b ≠ INVALID_ADDRESS → N b x ↔ N' b x) → (∀ b, G b = G' b) →
  runs Err op s (finished_from V net N G) → runs Err op s (finished_from V net N' G').
Proof.
  intros HN HG Hr. eapply runs_mono; [exact Hr|]. intros u c' (G'' & (new & H1 & H2 & H3 & H4) & Hi). exists G''. split; [|done].
  exists new. split_and!; [done| |done|].
  - intros b. by rewrite H2, HG.
  - intros b x Hb. by rewrite H4, HN.
Qed.

Lemma handle_runs f sender msg c G X V :
  dir_inv c G V → exclusive c X → enabled c G X sender msg → enough_fuel c msg f →
  (set_full c (ShmemMsg._address msg) → Err no_candidate) →
  runs Err (handleMsgFromL2Cache f sender msg) c
    (finished_from (values_after V msg) (_net c) (λ b x, x ∈ exclusive_left X sender msg b) (sharers_left G sender msg)).
Proof.
  intros Hinv HX [Ha Hen] Hf Hfull. set (a := ShmemMsg._address msg) in *.
  assert (∀ d, sender ∈ X a → ShmemMsg._data_buf msg = Some d → ∀ b x, b ≠ INVALID_ADDRESS →
    modified c b x ∧ b ≠ a ↔ x ∈ upd X a (X a ∖ {[sender]}) b) as Hleft.
  { intros d Hs _ b x Hb. destruct (exclusive_entry c G X V a sender Hinv HX Ha Hs) as (_ & _ & _ & _ & _ & _ & ->).
    rewrite (HX b x Hb). destruct (decide (b = a)) as [->|Hba]; [rewrite upd_eq; set_solver|by rewrite upd_ne by done; naive_solver]. }
  unfold handleMsgFromL2Cache, values_after, sharers_left, exclusive_left, enough_fuel in *. fold a in Hf |- *.
  apply runs_bind, runs_gets. destruct (ShmemMsg._msg_type msg) eqn:Hty; try done.
  - apply (finished_from_ext V _ (modified c) _ G); [intros b x Hb; by apply HX|done|].
    apply (request_runs (λ r, processExReqFromL2Cache f r None)); auto. intros r c1 Hr Hpre Hcur.
    apply (proj1 (proj2 (specs f)) r c1 G V a msg []); try done. cbn. lia.
  - apply (finished_from_ext V _ (modified c) _ G); [intros b x Hb; by apply HX|done|].
    apply (request_runs (λ r, processShReqFromL2Cache f r None)); auto. intros r c1 Hr Hpre Hcur.
    apply (proj1 (proj2 (proj2 (specs f))) r c1 G V a msg []); try done. cbn. lia.
  - destruct Hen as [Hs Hns]. destruct (shared_entry c G X V a sender Hinv HX Ha Hs Hns) as (p & e & Hh & Hst & _).
    apply (finished_from_ext V _ (modified c) _ (upd G a (G a ∖ {[sender]}))); [intros b x Hb; by apply HX|done|].
    apply (inv_rep_runs f sender msg c G V a p e); try done. lia.
  - destruct Hen as (Hs & d & Hd & Hl). rewrite Hd.
    destruct (exclusive_entry c G X V a sender Hinv HX Ha Hs) as (p & e & Hh & Hst & Ho & HG & _).
    apply (finished_from_ext _ _ (λ b x, modified c b x ∧ b ≠ a) _ (upd G a ∅)); [by apply (Hleft d)|..].
    { intros b. unfold upd. case_decide; [|done]. rewrite HG. set_solver. }
    apply (flush_rep_runs f sender msg c G V a p e d); try done. lia.
  - destruct Hen as (Hs & Hask & d & Hd & Hl). rewrite Hd.
    destruct (exclusive_entry c G X V a sender Hinv HX Ha Hs) as (p & e & Hh & Hst & Ho & HG & _).
    apply (finished_from_ext _ _ (λ b x, modified c b x ∧ b ≠ a) _ G); [by apply (Hleft d)|done|].
    pose proof (di_addr _ _ _ Hinv a Ha) as [_ [_ Hset]]. rewrite Ho in Hask. destruct (queue c a) as [|m l] eqn:Hq.
    { destruct Hset as [_ Hu]. by destruct (Hu p e Hh Hst). }
    apply (wb_rep_runs f sender msg c G V a p e d m l); try done; [|rewrite Hq; lia].
    destruct (decide (ShmemMsg._msg_type m = ShmemMsg.SH_REQ)) as [|Hne]; [done|].
    destruct Hset as (_ & _ & _ & _ & _ & _ & Hu). by destruct (Hu Hne p e Hh Hst).
Qed.

End DirectoryProofs.
End DirectoryProofs.
