(* ===== verification/DirectoryTheorems.v ===== *)
(** * DirectoryTheorems: the properties of the directory cache and of the MSI
    directory controller

    The directory cache finds the entry of an address; the controller as a
    transition system over the messages of the caches, with the sharers and the
    values of lines computed from the messages. *)
From S2P Require Import Prelude Utils BitVector SharerTracking DirectoryEntry CacheSet Cache Shmem ShmemTheorems.
From S2P Require Import DirectoryCache DirectoryCacheProofs MsiDirectory MsiDirectoryProofs.
Import DirectoryCache DirectoryCacheProofs DramDirectoryCntlr DirectoryProofs.

(** ** The directory cache *)

Definition clock_error (e : error) : Prop := e = ELog "ShmemPerfModel::incrCycleCount".

(** The loop that folds an address into a set index returns, after at most
    66 rounds, an index of a set of the directory: for every directory with two
    sets or more and every address. *)
Lemma set_index_in_range params k assoc line dirs delay perf a :
  geometry_params k assoc line dirs →
  ∃ s, computeSetIndex (make params (2 ^ k * assoc) assoc line dirs delay perf) a = Ok s ∧ 0 ≤ s < 2 ^ k.
Proof.
  intros Hg. pose proof (make_geometry params k assoc line dirs delay perf Hg) as Hok.
  destruct (set_of_ok _ a Hok) as [Hs Hr]. eexists. split; [exact Hs|].
  destruct Hok as [_ _ Hsets _ _ _ _ _]. rewrite Hsets in Hr. destruct Hg as (Hk & Ha & Ht & _).
  cbn in Hr. rewrite Z.div_mul in Hr by lia. rewrite Utils.floorLog2_spec, Z.log2_pow2 in Hr; [done|lia|].
  assert (2 ^ k ≤ 2 ^ 31) by (apply Z.pow_le_mono_r; lia). lia.
Qed.
Lemma set_index_in_range_witness :
  geometry_params 3 2 64 4 ∧
  ∃ s, computeSetIndex (make (Tracker.mkParams DirectoryType.FULL_MAP 4 4 4 0) (2 ^ 3 * 2) 2 64 4 0 ShmemPerfModel.make) 123456 = Ok s ∧
    0 ≤ s < 2 ^ 3.
Proof.
  assert (geometry_params 3 2 64 4) as Hg by (unfold geometry_params; lia). split; [exact Hg|].
  exact (set_index_in_range _ 3 2 64 4 0 _ 123456 Hg).
Defined.

(** With a single set the loop of [computeSetIndex] makes no progress: no
    bound on its rounds lets it return, for any address. *)
Lemma set_index_diverges fuel a i set :
  i ≤ 64 → fold_set_bits fuel a 0 i set = Fail (EFuel "DirectoryCache::computeSetIndex").
Proof.
  intros Hi. revert set. induction fuel as [|fuel IH]; intros set; [done|]. cbn. rewrite Z.add_0_r.
  rewrite (proj2 (Z.leb_le i 64)) by done. apply IH.
Qed.
Lemma set_index_diverges_witness :
  6 ≤ 64 ∧ fold_set_bits 1000 4096 0 6 0 = Fail (EFuel "DirectoryCache::computeSetIndex").
Proof. split; [lia|]. apply (set_index_diverges 1000 4096 6 0). lia. Defined.

(** The states of a directory cache: the initial one, and those after lookups,
    replacements of an entry of a full set, and removals. *)
Inductive cache_reachable : DirectoryCache → Prop :=
  | cr_make params k assoc line dirs delay perf :
      geometry_params k assoc line dirs → cache_reachable (make params (2 ^ k * assoc) assoc line dirs delay perf)
  | cr_lookup c a o c' :
      cache_reachable c → a ≠ INVALID_ADDRESS → getDirectoryEntry a c = Ok (o, c') → cache_reachable c'
  | cr_replace c r a p e q c' :
      cache_reachable c → r ≠ INVALID_ADDRESS → a ≠ INVALID_ADDRESS → full_without c a →
      p ∈ ways c (set_of c a) → _heap c !! p = Some e → DirectoryEntry.getAddress e = r →
      replaceDirectoryEntry r a c = Ok (q, c') → cache_reachable c'
  | cr_invalidate c a p e c' :
      cache_reachable c → a ≠ INVALID_ADDRESS → p ∈ _replaced_directory_entry_list c → holds c a p e →
      invalidateDirectoryEntry a c = Ok (tt, c') → cache_reachable c'
  | cr_store c p e e' :
      cache_reachable c → p ∈ live c → _heap c !! p = Some e →
      DirectoryEntry.getAddress e' = DirectoryEntry.getAddress e → cache_reachable (updated c p e').

Lemma cache_reachable_wf c : cache_reachable c → wf c.
Proof.
  induction 1 as [|c a o c' _ IH Ha Hr|c r a p e q c' _ IH Hr Ha Hf Hp He Hea Hrun|c a p e c' _ IH Ha Hp Hh Hrun|c p e e' _ IH Hp He Hea].
  - by apply directory_make_wf.
  - pose proof (getDirectoryEntry_runs clock_error eq_refl a c (lookup_result c a) IH Ha) as H.
    unfold runs in H. rewrite Hr in H. by apply (lookup_wf c a o), H.
  - pose proof (replaceDirectoryEntry_runs clock_error eq_refl r a p e c (λ _ c', wf c') IH Hr Ha Hf Hp He Hea) as H.
    unfold runs in H. rewrite Hrun in H. by apply H.
  - pose proof (invalidateDirectoryEntry_runs clock_error a p e c (λ _ c', wf c') IH Ha Hp Hh) as H.
    unfold runs in H. rewrite Hrun in H. apply H. intros l1 l2 Hl. by apply wf_without.
  - apply (wf_updated c p e); [done..|]. by left.
Qed.

(** In every reachable state of the directory cache a lookup of an address
    either returns the one entry that holds it, wherever that is (a way of its
    set or the list of replaced entries), or gives a free way of its set to the
    address, or reports that the set is full; it changes nothing else, and the
    only failure is the wrap-around of the clock. *)
Lemma directory_lookup c a :
  cache_reachable c → a ≠ INVALID_ADDRESS →
  runs clock_error (getDirectoryEntry a) c (λ o c', lookup_result c a o c' ∧
    (∀ p, o = Some p → ∃ e, holds c' a p e ∧ ∀ q f, holds c' a q f → q = p)).
Proof.
  intros Hc Ha. pose proof (cache_reachable_wf c Hc) as Hwf.
  apply getDirectoryEntry_runs; [done..|]. intros o c' H. split; [done|].
  intros p ->. destruct (lookup_holds c a p c' Hwf H) as [e He]. exists e. split; [done|].
  intros q f Hq. by apply (wf_unique c' (lookup_wf c a (Some p) c' Hwf Ha H) a q p f e).
Qed.

Definition params0 : Tracker.Params := Tracker.mkParams DirectoryType.FULL_MAP 4 4 4 0.
Definition cache0 : DirectoryCache := make params0 (2 ^ 1 * 1) 1 8 1 0 ShmemPerfModel.make.
Lemma cache0_reachable : cache_reachable cache0.
Proof.
  assert (geometry_params 1 1 8 1) as Hg by (unfold geometry_params; lia).
  exact (cr_make params0 1 1 8 1 0 ShmemPerfModel.make Hg).
Qed.

Lemma directory_lookup_witness :
  cache_reachable cache0 ∧ 64 ≠ INVALID_ADDRESS ∧
  runs clock_error (getDirectoryEntry 64) cache0 (λ o c', lookup_result cache0 64 o c' ∧
    (∀ p, o = Some p → ∃ e, holds c' 64 p e ∧ ∀ q f, holds c' 64 q f → q = p)).
Proof.
  assert (64 ≠ INVALID_ADDRESS) as H by by vm_compute.
  exact (conj cache0_reachable (conj H (directory_lookup cache0 64 cache0_reachable H))).
Defined.

(** ** The directory controller *)

Section directory_controller.
Context `{DramTiming}.

(** A controller before the first message. *)
Definition initial (tile line : Z) (miss : MissTypes.MissTypes) (d : DirectoryCache) (perf : dram_perf_state)
    : DramDirectoryCntlr :=
  mkDramDirectoryCntlr tile line miss d ∅ (DramCntlr.make line perf) [].

Definition no_sharers : sharers := λ _, ∅.
Definition zeroes (line : Z) : values := λ _, replicate (Z.to_nat line) 0.

(** The reachable states.  The sharers of an address are the tiles that were
    sent its line and have not given it up; a tile has it exclusively that was
    sent it exclusively and has neither flushed nor written it back; the value of
    a line is the one last flushed or written back. *)
Inductive reachable : DramDirectoryCntlr → sharers → sharers → values → Prop :=
  | reachable_initial tile miss params k assoc line dirs delay clk perf :
      geometry_params k assoc line dirs → Tracker.good_params params →
      reachable (initial tile line miss (make params (2 ^ k * assoc) assoc line dirs delay clk) perf)
        no_sharers no_sharers (zeroes line)
  | reachable_message c G X V f sender msg c' new :
      reachable c G X V → enabled c G X sender msg → enough_fuel c msg f →
      handleMsgFromL2Cache f sender msg c = Ok (tt, c') → _net c' = _net c ++ new →
      reachable c' (λ a, sharers_left G sender msg a ∪ granted new a)
        (λ a, exclusive_left X sender msg a ∪ ex_granted new a) (values_after V msg).

(** How a handler may stop: the clock wraps around, or every way of the set of
    the address holds another line for which a request waits. *)
Definition stops (c : DramDirectoryCntlr) (a : Z) (e : error) : Prop :=
  e = ELog "ShmemPerfModel::incrCycleCount" ∨ (e = ELog "Cant find a directory entry to be replaced" ∧ set_full c a).

Lemma initial_inv tile miss params k assoc line dirs delay clk perf :
  geometry_params k assoc line dirs → Tracker.good_params params →
  dir_inv (initial tile line miss (make params (2 ^ k * assoc) assoc line dirs delay clk) perf) no_sharers (zeroes line) ∧
  exclusive (initial tile line miss (make params (2 ^ k * assoc) assoc line dirs delay clk) perf) no_sharers.
Proof.
  intros Hg Hp. pose proof (make_heap params (2 ^ k * assoc) assoc line dirs delay clk) as Hh.
  split; [split|intros a x Ha; unfold no_sharers; split; [|set_solver]; intros (_ & p & e & (_ & [_ ->]%Hh & _) & Hst & _); done].
  - split; try done; [|by destruct Hg as (_ & _ & _ & [? _] & _)]. split; try done; [by apply directory_make_wf|].
    intros p e _ [_ ->]%Hh. by apply (create_entry_ok params INVALID_ADDRESS).
  - intros a Ha. set (c := initial _ _ _ _ _). assert (queue c a = []) as Hq.
    { unfold queue, HashMapQueue.contents. cbn. by rewrite lookup_empty. }
    split; (split; [|]); rewrite ?Hq; try done.
    split; intros p e (_ & [_ ->]%Hh & <-); by destruct Ha.
Qed.

Lemma runs_stops c G X V f sender msg :
  dir_inv c G V → exclusive c X → enabled c G X sender msg → enough_fuel c msg f →
  runs (stops c (ShmemMsg._address msg)) (handleMsgFromL2Cache f sender msg) c
    (finished_from (values_after V msg) (_net c) (λ b x, x ∈ exclusive_left X sender msg b) (sharers_left G sender msg)).
Proof. intros. apply handle_runs; try done; [by left|by right]. Qed.

Lemma step_finished c G X V f sender msg c' :
  dir_inv c G V → exclusive c X → enabled c G X sender msg → enough_fuel c msg f →
  handleMsgFromL2Cache f sender msg c = Ok (tt, c') →
  finished_from (values_after V msg) (_net c) (λ b x, x ∈ exclusive_left X sender msg b) (sharers_left G sender msg) tt c'.
Proof.
  intros Hinv HX Hen Hf Hrun. pose proof (runs_stops c G X V f sender msg Hinv HX Hen Hf) as H0.
  unfold runs in H0. by rewrite Hrun in H0.
Qed.

Lemma reachable_inv c G X V : reachable c G X V → dir_inv c G V ∧ exclusive c X.
Proof.
  induction 1 as [|c G X V f sender msg c' new _ [IH HX] Hen Hf Hrun Hnet]; [by apply initial_inv|].
  destruct (step_finished c G X V f sender msg c' IH HX Hen Hf Hrun) as (G' & (new' & Hn & HG & _ & HM) & Hinv).
  rewrite Hnet in Hn. apply app_inv_head in Hn as ->. split; [by apply (dir_inv_ext c' G')|].
  intros a x Ha. rewrite HM by done. set_solver.
Qed.

(** C2: No message that the caches can send makes the directory controller fail
    an assertion, follow a null pointer, index an array out of range or run
    into an unknown request.  What the caches can send is told from the messages
    alone: a tile reports an invalidation of a line it has, not exclusively;
    flushes a line it has exclusively; writes it back if it was asked to since it
    got it; and asks for a line it does not have.  A handler returns, in a
    reachable state, or stops when the clock wraps around or, needing a new entry,
    when every way of its set holds another line for which a request waits. *)
Theorem directory_safe c G X V f sender msg :
  reachable c G X V → enabled c G X sender msg → enough_fuel c msg f →
  runs (stops c (ShmemMsg._address msg)) (handleMsgFromL2Cache f sender msg) c
    (λ _ c', ∃ new, _net c' = _net c ++ new ∧
       reachable c' (λ a, sharers_left G sender msg a ∪ granted new a)
         (λ a, exclusive_left X sender msg a ∪ ex_granted new a) (values_after V msg)).
Proof.
  intros Hr Hen Hf. destruct (reachable_inv c G X V Hr) as [Hinv HX].
  pose proof (runs_stops c G X V f sender msg Hinv HX Hen Hf) as H0.
  unfold runs in *. destruct (handleMsgFromL2Cache f sender msg c) as [[[] c']|e] eqn:Hrun; [|done].
  destruct H0 as (G' & (new & Hn & _) & _). exists new. split; [done|]. by eapply reachable_message.
Qed.

(** C6: The calls between the request functions end: the depth of calls that a
    message causes is at most twice the number of requests that wait for its
    address plus four, so the handler returns (or stops with one of the two
    errors above). *)
Theorem directory_terminates c G X V f sender msg site :
  reachable c G X V → enabled c G X sender msg → enough_fuel c msg f →
  handleMsgFromL2Cache f sender msg c ≠ Fail (EFuel site).
Proof.
  intros Hr Hen Hf Hfail. destruct (reachable_inv c G X V Hr) as [Hinv HX].
  pose proof (runs_stops c G X V f sender msg Hinv HX Hen Hf) as H0.
  unfold runs in H0. rewrite Hfail in H0. by destruct H0 as [|[? _]].
Qed.

(** C3: Coherence at the directory.  In every reachable state the directory
    entry of a line tells who has it: a modified line is with its owner alone,
    a shared line with at least one tile, an uncached line (and a line without
    an entry) with nobody; and when the line is not modified the memory holds
    the value last written back. *)
Theorem directory_coherent c G X V a :
  reachable c G X V → a ≠ INVALID_ADDRESS →
  (∀ p e, held c a p e →
     match DirectoryEntry.getDState e with
     | DirectoryState.UNCACHED => G a = ∅
     | DirectoryState.SHARED => G a ≠ ∅
     | DirectoryState.MODIFIED => G a = {[DirectoryEntry.getOwner e]}
     | _ => False
     end) ∧
  ((∀ p e, ¬ held c a p e) → G a = ∅) ∧
  ((∀ p e, held c a p e → DirectoryEntry.getDState e ≠ DirectoryState.MODIFIED) →
     DramCntlr.contents (_dram_cntlr c) a = V a).
Proof.
  intros Hr Ha. destruct (reachable_inv c G X V Hr) as [[Hb Haddr] _]. split_and!.
  - intros p e Hh. pose proof (holds_entry_ok _ _ a p e (bs_dir _ _ Hb) Hh) as [_ Hs].
    by destruct (DirectoryEntry.getDState e); destruct Hs.
  - apply (dk_absent _ _ (bs_dir _ _ Hb)).
  - apply (Haddr a Ha).
Qed.

(** C5: A request that waits at the directory waits for somebody who was told:
    whenever the queue of an address is not empty, no waiting tile has its line,
    and either a tile has it exclusively, alone, and was asked since it got it to
    write it back (for a shared request at the front) or to flush it (for another),
    or tiles share it and, since they got it, one of them (for a shared request,
    which needs room for one more sharer) or all of them (for another) were asked
    to drop it.  So when the last sharer has given the line up, the queue has
    moved on. *)
Theorem waiting_has_cause c G X V a m l :
  reachable c G X V → a ≠ INVALID_ADDRESS → queue c a = m :: l →
  let shared := bool_decide (ShmemMsg._msg_type m = ShmemMsg.SH_REQ) in
  ((∃ x, X a = {[x]} ∧ G a = {[x]} ∧ asked (_net c) a x (if shared then ShmemMsg.WB_REQ else ShmemMsg.FLUSH_REQ)) ∨
   (X a = ∅ ∧ G a ≠ ∅ ∧
    if shared then ∃ y, y ∈ G a ∧ asked (_net c) a y ShmemMsg.INV_REQ
    else ∀ y, y ∈ G a → asked (_net c) a y ShmemMsg.INV_REQ)) ∧
  ∀ r, r ∈ m :: l → is_nullify r = false → ShmemMsg._requester r ∉ G a.
Proof.
  intros Hr Ha Hq shared. destruct (reachable_inv c G X V Hr) as [Hinv HX]. pose proof Hinv as [Hb Haddr].
  destruct (Haddr a Ha) as [[Hok _] [_ Hs]]. rewrite Hq in Hok, Hs. destruct Hs as (p & e & Hh & Hun & _ & Hasked & _). split.
  - pose proof (holds_entry_ok _ _ a p e (bs_dir _ _ Hb) Hh) as [_ He]. unfold asked_for in Hasked. fold shared in Hasked.
    destruct (DirectoryEntry.getDState e) eqn:Hst; try done.
    + right. destruct He as [HG _]. destruct (set_choose_L _ HG) as [x Hx].
      destruct (decide (x ∈ X a)) as [Hxx|Hxx].
      * destruct (exclusive_entry c G X V a x Hinv HX Ha Hxx) as (q & g & Hg & Hgs & _).
        destruct (held_unique c G a p e q g Hb Ha Hh Hg) as [_ ->]. congruence.
      * by destruct (shared_entry c G X V a x Hinv HX Ha Hx Hxx) as (_ & _ & _ & _ & ?).
    + left. exists (DirectoryEntry.getOwner e).
      assert (DirectoryEntry.getOwner e ∈ X a) as Hx by (apply (HX a _ Ha); split; [done|]; by exists p, e).
      by destruct (exclusive_entry c G X V a _ Hinv HX Ha Hx) as (_ & _ & _ & _ & _ & ? & ?).
  - intros x Hx Hn. cbn in Hok.
    assert (∃ l', x ∈ l' ∧ requests_ok (num_tiles c) (G a) a l') as (l' & Hin & [Hall _]).
    { destruct (is_nullify m) eqn:Em; [|by exists (m :: l)]. exists l. split; [|by destruct Hok].
      apply elem_of_cons in Hx as [->|Hx]; [congruence|done]. }
    rewrite Forall_forall in Hall. by apply (Hall x Hin).
Qed.

(** C4: The data of replies.  Every line that a handler sends to a tile is the
    value last flushed or written back by a tile (zeroes at first), the one
    that the message being handled brings included, and the tile becomes a
    sharer of the line. *)
Theorem directory_replies c G X V f sender msg c' new pkt :
  reachable c G X V → enabled c G X sender msg → enough_fuel c msg f →
  handleMsgFromL2Cache f sender msg c = Ok (tt, c') → _net c' = _net c ++ new → pkt ∈ new → is_reply pkt = true →
  let a := ShmemMsg._address (ShmemMsg.object (Packet.data pkt)) in
  ShmemMsg.payload (Packet.data pkt) = values_after V msg a ∧
  ∀ x, Packet.receiver pkt = Some x → x ∈ granted new a.
Proof.
  intros Hr Hen Hf Hrun Hnet Hin Hrep a.
  destruct (reachable_inv c G X V Hr) as [Hinv HX].
  destruct (step_finished c G X V f sender msg c' Hinv HX Hen Hf Hrun) as (G' & (new' & Hn & _ & Hall & _) & _).
  rewrite Hnet in Hn. apply app_inv_head in Hn as ->. rewrite Forall_forall in Hall. split; [by apply Hall|].
  intros x Hx. unfold granted. apply elem_of_list_to_set, list_elem_of_omap. exists pkt. split; [done|].
  rewrite Hrep, Z.eqb_refl. done.
Qed.

End directory_controller.

(** ** Instances

    A directory with two sets of one way for four tiles.  Tile 2 asks for an
    exclusive copy of the line at 64 and gets it; then tile 1 asks for it and
    waits for tile 2. *)

Definition miss0 : MissTypes.MissTypes := MissTypes.mkMissTypes true true true true.
Definition dir0 : @DramDirectoryCntlr sample_timing := @initial sample_timing 0 8 miss0 cache0 tt.
Definition exclusive_request (x a : Z) : ShmemMsg.ShmemMsg :=
  ShmemMsg.make ShmemMsg.EX_REQ MemComponent.L2_CACHE MemComponent.DRAM_DIRECTORY x a true.
Definition after_message (c : @DramDirectoryCntlr sample_timing) (sender : Z) (msg : ShmemMsg.ShmemMsg)
    : @DramDirectoryCntlr sample_timing :=
  match handleMsgFromL2Cache 10 sender msg c with Ok (_, c') => c' | Fail _ => c end.
Definition dir1 := after_message dir0 2 (exclusive_request 2 64).
Definition sharers1 : sharers := λ a, sharers_left no_sharers 2 (exclusive_request 2 64) a ∪ granted (_net dir1) a.
Definition exclusive1 : sharers := λ a, exclusive_left no_sharers 2 (exclusive_request 2 64) a ∪ ex_granted (_net dir1) a.
Definition dir2 := after_message dir1 1 (exclusive_request 1 64).
Definition sharers2 : sharers :=
  λ a, sharers_left sharers1 1 (exclusive_request 1 64) a ∪ granted (drop 1 (_net dir2)) a.
Definition exclusive2 : sharers :=
  λ a, exclusive_left exclusive1 1 (exclusive_request 1 64) a ∪ ex_granted (drop 1 (_net dir2)) a.

Lemma valid64 : 64 ≠ INVALID_ADDRESS.
Proof. by vm_compute. Qed.
Lemma dir0_reachable : reachable dir0 no_sharers no_sharers (zeroes 8).
Proof.
  assert (geometry_params 1 1 8 1) as Hg by (unfold geometry_params; lia).
  assert (Tracker.good_params params0) as Hp by (split; [done|cbn; lia]).
  exact (@reachable_initial sample_timing 0 miss0 params0 1 1 8 1 0 ShmemPerfModel.make tt Hg Hp).
Qed.
Lemma queue_enabled (c : @DramDirectoryCntlr sample_timing) G X x :
  queue c 64 = [] → num_tiles c = 4 → 0 ≤ x < 4 → x ∉ G 64 → enabled c G X x (exclusive_request x 64).
Proof.
  intros Hq Hn Hx HG. split; [exact valid64|]. split; [done|]. split; [by rewrite Hn|]. split; [done|].
  intros m Hm. cbn in Hm. rewrite Hq in Hm. by inversion Hm.
Qed.
Lemma dir0_enabled : enabled dir0 no_sharers no_sharers 2 (exclusive_request 2 64).
Proof. apply queue_enabled; [by vm_compute|by vm_compute|lia|unfold no_sharers; set_solver]. Qed.
Lemma dir0_fuel : enough_fuel dir0 (exclusive_request 2 64) 10.
Proof. vm_compute. lia. Qed.
Lemma dir0_step : handleMsgFromL2Cache 10 2 (exclusive_request 2 64) dir0 = Ok (tt, dir1).
Proof. vm_compute. reflexivity. Qed.
Lemma dir1_reachable : reachable dir1 sharers1 exclusive1 (values_after (zeroes 8) (exclusive_request 2 64)).
Proof.
  exact (reachable_message dir0 no_sharers no_sharers (zeroes 8) 10 2 (exclusive_request 2 64) dir1 (_net dir1)
    dir0_reachable dir0_enabled dir0_fuel dir0_step eq_refl).
Qed.
Lemma dir1_enabled : enabled dir1 sharers1 exclusive1 1 (exclusive_request 1 64).
Proof. apply queue_enabled; [by vm_compute|by vm_compute|lia|]. apply (bool_decide_unpack _). vm_compute. exact I. Qed.
Lemma dir1_fuel : enough_fuel dir1 (exclusive_request 1 64) 10.
Proof. vm_compute. lia. Qed.
Lemma dir1_step : handleMsgFromL2Cache 10 1 (exclusive_request 1 64) dir1 = Ok (tt, dir2).
Proof. vm_compute. reflexivity. Qed.
Lemma dir2_net : _net dir2 = _net dir1 ++ drop 1 (_net dir2).
Proof. vm_compute. reflexivity. Qed.
Definition values2 : values := values_after (values_after (zeroes 8) (exclusive_request 2 64)) (exclusive_request 1 64).
Lemma dir2_reachable : reachable dir2 sharers2 exclusive2 values2.
Proof.
  exact (reachable_message dir1 sharers1 exclusive1 _ 10 1 (exclusive_request 1 64) dir2 (drop 1 (_net dir2))
    dir1_reachable dir1_enabled dir1_fuel dir1_step dir2_net).
Qed.

Lemma directory_safe_witness :
  reachable dir1 sharers1 exclusive1 (values_after (zeroes 8) (exclusive_request 2 64)) ∧
  runs (stops dir1 64) (handleMsgFromL2Cache 10 1 (exclusive_request 1 64)) dir1
    (λ _ c', ∃ new, _net c' = _net dir1 ++ new ∧
       reachable c' (λ a, sharers_left sharers1 1 (exclusive_request 1 64) a ∪ granted new a)
         (λ a, exclusive_left exclusive1 1 (exclusive_request 1 64) a ∪ ex_granted new a) values2).
Proof.
  split; [exact dir1_reachable|].
  exact (directory_safe dir1 sharers1 exclusive1 _ 10 1 (exclusive_request 1 64) dir1_reachable dir1_enabled dir1_fuel).
Defined.

Lemma directory_terminates_witness :
  enough_fuel dir1 (exclusive_request 1 64) 10 ∧
  handleMsgFromL2Cache 10 1 (exclusive_request 1 64) dir1 ≠ Fail (EFuel "processExReqFromL2Cache").
Proof.
  split; [exact dir1_fuel|].
  exact (directory_terminates dir1 sharers1 exclusive1 _ 10 1 (exclusive_request 1 64) _ dir1_reachable dir1_enabled dir1_fuel).
Defined.

(** The line is modified, with tile 2. *)
Lemma directory_coherent_witness :
  reachable dir1 sharers1 exclusive1 (values_after (zeroes 8) (exclusive_request 2 64)) ∧
  ∃ p e, held dir1 64 p e ∧ DirectoryEntry.getDState e = DirectoryState.MODIFIED ∧
    DirectoryEntry.getOwner e = 2 ∧ sharers1 64 = {[2]}.
Proof.
  split; [exact dir1_reachable|].
  destruct (directory_coherent dir1 sharers1 exclusive1 _ 64 dir1_reachable valid64) as (H1 & _ & _).
  assert (∃ p e, held dir1 64 p e ∧ DirectoryEntry.getDState e = DirectoryState.MODIFIED ∧ DirectoryEntry.getOwner e = 2)
    as (p & e & Hh & Hst & Ho).
  { set (d := _dram_directory_cache dir1). exists 1%nat.
    destruct (_heap d !! 1%nat) as [e|] eqn:He; [|vm_compute in He; discriminate He]. exists e.
    assert (DirectoryEntry.getAddress <$> _heap d !! 1%nat = Some 64) as Ha by (vm_compute; reflexivity).
    assert (DirectoryEntry.getDState <$> _heap d !! 1%nat = Some DirectoryState.MODIFIED) as Hs by (vm_compute; reflexivity).
    assert (DirectoryEntry.getOwner <$> _heap d !! 1%nat = Some 2) as Ho by (vm_compute; reflexivity).
    rewrite He in Ha, Hs, Ho. injection Ha as Ha. injection Hs as Hs. injection Ho as Ho.
    split; [|split; [exact Hs|exact Ho]]. split; [|split; [exact He|exact Ha]].
    apply (bool_decide_unpack _). vm_compute. exact I. }
  exists p, e. specialize (H1 p e Hh). rewrite Hst, Ho in H1. exact (conj Hh (conj Hst (conj Ho H1))).
Defined.

(** Tile 1 waits, and tile 2 was asked to flush the line. *)
Lemma waiting_has_cause_witness :
  queue dir2 64 = [exclusive_request 1 64] ∧
  (∃ x, exclusive2 64 = {[x]} ∧ asked (_net dir2) 64 x ShmemMsg.FLUSH_REQ) ∧
  ∀ m, m ∈ queue dir2 64 → is_nullify m = false → ShmemMsg._requester m ∉ sharers2 64.
Proof.
  assert (queue dir2 64 = [exclusive_request 1 64]) as Hq by (vm_compute; reflexivity).
  split; [exact Hq|].
  destruct (waiting_has_cause dir2 sharers2 exclusive2 values2 64 _ _ dir2_reachable valid64 Hq) as [[(x & H1 & _ & H3)|(H1 & _)] H2].
  - rewrite Hq. split; [exists x; split; [exact H1|exact H3]|exact H2].
  - exfalso. assert (2 ∈ exclusive2 64) as H3 by (apply (bool_decide_unpack _); vm_compute; exact I).
    rewrite H1 in H3. exact (not_elem_of_empty _ H3).
Defined.

(** The reply to tile 2 carries a line of zeroes. *)
Lemma directory_replies_witness :
  ∃ pkt, _net dir1 = [pkt] ∧ Packet.receiver pkt = Some 2 ∧
    ShmemMsg.payload (Packet.data pkt) = zeroes 8 64 ∧ 2 ∈ granted [pkt] 64.
Proof.
  destruct (_net dir1) as [|pkt [|]] eqn:Hn; [vm_compute in Hn; discriminate Hn| |vm_compute in Hn; discriminate Hn].
  assert (Packet.receiver <$> _net dir1 = [Some 2]) as Hr by (vm_compute; reflexivity).
  assert (is_reply <$> _net dir1 = [true]) as Hi by (vm_compute; reflexivity).
  assert ((λ p, ShmemMsg._address (ShmemMsg.object (Packet.data p))) <$> _net dir1 = [64]) as Ha by (vm_compute; reflexivity).
  rewrite Hn in Hr, Hi, Ha. injection Hr as Hr. injection Hi as Hi. injection Ha as Ha.
  destruct (directory_replies dir0 no_sharers no_sharers (zeroes 8) 10 2 (exclusive_request 2 64) dir1 [pkt] pkt
    dir0_reachable dir0_enabled dir0_fuel dir0_step Hn (list_elem_of_here pkt []) Hi) as [H1 H2].
  rewrite Ha in H1, H2. exists pkt. split; [reflexivity|]. split; [exact Hr|]. split; [exact H1|exact (H2 2 Hr)].
Defined.
