(* ===== verification/ThreadManager.v ===== *)
(** * ThreadManager: thread states and clock-skew barrier of the master process

    Models the master's side of common/system/thread_manager.cc and
    common/system/clock_skew_minimization_schemes/lax_barrier_sync_server.cc.
    They call each other: a thread that stalls may complete the barrier, and the
    barrier asks which cores run.  Both work on the state of the master control
    process ([Mcp]); the messages they send are collected in order. *)
From S2P Require Import Prelude.

(** ** Identifiers *)

Record core_id_t := mkCoreId { tile_id : Z; core_type : Z }.
#[global] Instance eta_core_id_t : Eta core_id_t := λ c, mkCoreId (tile_id c) (core_type c).
#[global] Instance core_id_t_eq_dec : EqDecision core_id_t.
Proof. solve_decision. Defined.

Definition MAIN_CORE_TYPE : Z := 0.
Definition INVALID_CORE_ID : core_id_t := mkCoreId (-1) 0.
Definition INVALID_THREAD_ID : Z := -1.

(** [Tile::getMainCoreId] and [Tile::isMainCore]. *)
Definition getMainCoreId (id : Z) : core_id_t := mkCoreId id MAIN_CORE_TYPE.
Definition isMainCore (core_id : core_id_t) : bool := core_type core_id =? MAIN_CORE_TYPE.

Module Core.
Inductive State : Type := RUNNING | INITIALIZING | STALLED | SLEEPING | WAKING_UP | IDLE.
#[global] Instance State_eq_dec : EqDecision State.
Proof. solve_decision. Defined.
End Core.

(** ** Configuration: misc/config.{h,cc} *)
Module SysConfig.

Inductive SimulationMode : Type := FULL | LITE.
#[global] Instance SimulationMode_eq_dec : EqDecision SimulationMode.
Proof. solve_decision. Defined.

Record Config := mkConfig {
  m_simulation_mode : SimulationMode;
  m_num_processes : Z;
  m_application_tiles : Z;
  m_max_threads_per_core : Z;
  m_tile_to_proc_map : list Z
}.

(** The constructor adds the MCP and, in full mode, one thread spawner for
    each process. *)
Definition getTotalTiles (c : Config) : Z :=
  m_application_tiles c + 1 + (match m_simulation_mode c with FULL => m_num_processes c | LITE => 0 end).
Definition getMCPTileNum (c : Config) : Z := getTotalTiles c - 1.
Definition getThreadSpawnerTileNum (c : Config) (proc_num : Z) : Z :=
  match m_simulation_mode c with
  | FULL => getTotalTiles c - (1 + m_num_processes c - proc_num)
  | LITE => INVALID_TILE_ID
  end.
(** The master is process 0. *)
Definition getCurrentThreadSpawnerTileNum (c : Config) : Z := getThreadSpawnerTileNum c 0.
Definition getProcessNumForTile (c : Config) (tile : Z) : res Z :=
  vget "m_tile_to_proc_map" (m_tile_to_proc_map c) tile.

(** [GenerateTileMap]: the process of each tile, from the tiles of each
    process. *)
Definition GenerateTileMap (mode : SimulationMode) (num_processes application_tiles : Z)
    (process_to_tile_mapping : list (list Z)) : res (list Z) :=
  let total := getTotalTiles (mkConfig mode num_processes application_tiles 0 []) in
  check (zlength process_to_tile_mapping =? num_processes) (EAssert "Config::GenerateTileMap") ;;
  m ← foldl (λ acc '(i, tiles),
        foldl (λ acc tile,
          m ← acc ;
          if tile <? s32 (total - num_processes - 1) then vset "m_tile_to_proc_map" m tile i else Ok m) acc tiles)
      (Ok (replicate (Z.to_nat total) 0)) (zip (seqZ 0 num_processes) process_to_tile_mapping) ;
  m ← foldl (λ acc '(proc, i), m ← acc ; vset "m_tile_to_proc_map" m i proc)
      (Ok m) (zip (seqZ 0 num_processes) (seqZ (total - num_processes - 1) num_processes)) ;
  vset "m_tile_to_proc_map" m (total - 1) 0.

(** [computeProcessToTileMapping], when no network model has a mapping of its
    own: tiles are dealt to the processes in turn. *)
Definition computeProcessToTileMapping (num_processes total_tiles : Z) : list (list Z) :=
  (λ p, filter (λ t, t `mod` num_processes = p) (seqZ 0 total_tiles)) <$> seqZ 0 num_processes.

End SysConfig.

(** ** Requests and messages: system/message_types.h, user/thread_support.h *)

Inductive McpMessage : Type :=
  | MCP_MESSAGE_QUIT
  | MCP_MESSAGE_SYS_CALL
  | MCP_MESSAGE_MUTEX_INIT
  | MCP_MESSAGE_MUTEX_LOCK
  | MCP_MESSAGE_MUTEX_UNLOCK
  | MCP_MESSAGE_COND_INIT
  | MCP_MESSAGE_COND_WAIT
  | MCP_MESSAGE_COND_SIGNAL
  | MCP_MESSAGE_COND_BROADCAST
  | MCP_MESSAGE_BARRIER_INIT
  | MCP_MESSAGE_BARRIER_WAIT
  | MCP_MESSAGE_UTILIZATION_UPDATE
  | MCP_MESSAGE_THREAD_SPAWN_REQUEST_FROM_REQUESTER
  | MCP_MESSAGE_THREAD_SPAWN_REPLY_FROM_SLAVE
  | MCP_MESSAGE_THREAD_YIELD_REQUEST
  | MCP_MESSAGE_THREAD_MIGRATE_REQUEST_FROM_REQUESTER
  | MCP_MESSAGE_THREAD_SETAFFINITY_REQUEST
  | MCP_MESSAGE_THREAD_GETAFFINITY_REQUEST
  | MCP_MESSAGE_THREAD_GETAFFINITY_REPLY
  | MCP_MESSAGE_THREAD_STATE_REQUEST
  | MCP_MESSAGE_THREAD_SET_PID
  | MCP_MESSAGE_QUERY_THREAD_INDEX
  | MCP_MESSAGE_THREAD_START
  | MCP_MESSAGE_THREAD_EXIT
  | MCP_MESSAGE_THREAD_JOIN_REQUEST
  | MCP_MESSAGE_CLOCK_SKEW_MINIMIZATION
  | MCP_MESSAGE_RESET_CACHE_COUNTERS
  | MCP_MESSAGE_DISABLE_CACHE_COUNTERS.
#[global] Instance McpMessage_eq_dec : EqDecision McpMessage.
Proof. solve_decision. Defined.

(** The constants, in the order of their values. *)
Definition mcp_messages : list McpMessage :=
  [MCP_MESSAGE_QUIT; MCP_MESSAGE_SYS_CALL; MCP_MESSAGE_MUTEX_INIT; MCP_MESSAGE_MUTEX_LOCK;
   MCP_MESSAGE_MUTEX_UNLOCK; MCP_MESSAGE_COND_INIT; MCP_MESSAGE_COND_WAIT; MCP_MESSAGE_COND_SIGNAL;
   MCP_MESSAGE_COND_BROADCAST; MCP_MESSAGE_BARRIER_INIT; MCP_MESSAGE_BARRIER_WAIT;
   MCP_MESSAGE_UTILIZATION_UPDATE; MCP_MESSAGE_THREAD_SPAWN_REQUEST_FROM_REQUESTER;
   MCP_MESSAGE_THREAD_SPAWN_REPLY_FROM_SLAVE; MCP_MESSAGE_THREAD_YIELD_REQUEST;
   MCP_MESSAGE_THREAD_MIGRATE_REQUEST_FROM_REQUESTER; MCP_MESSAGE_THREAD_SETAFFINITY_REQUEST;
   MCP_MESSAGE_THREAD_GETAFFINITY_REQUEST; MCP_MESSAGE_THREAD_GETAFFINITY_REPLY;
   MCP_MESSAGE_THREAD_STATE_REQUEST; MCP_MESSAGE_THREAD_SET_PID; MCP_MESSAGE_QUERY_THREAD_INDEX;
   MCP_MESSAGE_THREAD_START; MCP_MESSAGE_THREAD_EXIT; MCP_MESSAGE_THREAD_JOIN_REQUEST;
   MCP_MESSAGE_CLOCK_SKEW_MINIMIZATION; MCP_MESSAGE_RESET_CACHE_COUNTERS;
   MCP_MESSAGE_DISABLE_CACHE_COUNTERS].
Definition code_of (m : McpMessage) : Z :=
  match list_find (λ x, x = m) mcp_messages with Some (i, _) => Z.of_nat i | None => 0 end.
Definition message_of (code : Z) : option McpMessage := zlookup mcp_messages code.

Inductive SpawnMsg : Type := MCP_SPAWN_REQUEST_FROM_REQUESTER | LCP_SPAWN_REQUEST_FROM_MASTER | LCP_QUIT_THREAD_SPAWNER.

Record ThreadSpawnRequest := mkThreadSpawnRequest {
  msg_type : SpawnMsg;
  func : Z;
  arg : Z;
  requester : core_id_t;
  requester_tidx : Z;
  destination : core_id_t;
  destination_tidx : Z;
  destination_tid : Z;
  spawn_time : Z
}.
#[global] Instance eta_ThreadSpawnRequest : Eta ThreadSpawnRequest := λ r, mkThreadSpawnRequest
  (msg_type r) (func r) (arg r) (requester r) (requester_tidx r) (destination r)
  (destination_tidx r) (destination_tid r) (spawn_time r).

Record ThreadJoinRequest := mkThreadJoinRequest {
  sender : core_id_t; sender_tidx : Z; receiver_tid : Z
}.

Record ThreadYieldRequest := mkThreadYieldRequest {
  yield_requester : core_id_t;
  yield_requester_tidx : Z;
  requester_next_tidx : Z;
  yield_destination : core_id_t;
  yield_destination_tidx : Z;
  destination_next_tidx : Z
}.

Record ThreadIndexRequest := mkThreadIndexRequest {
  index_requester : core_id_t; index_thread_id : Z; index_core_id : core_id_t;
  index_thread_idx : Z; index_next_tidx : Z
}.

(** What the master sends: packets to cores, and global messages to the
    processes. *)
Inductive Message : Type :=
  | ThreadSpawnReply (core : core_id_t) (tidx : Z)
  | ThreadJoinReply (time : Z)
  | ThreadExitReply (core : core_id_t) (tidx : Z)
  | ThreadYieldReply (r : ThreadYieldRequest)
  | ThreadQueryIndexReply (r : ThreadIndexRequest)
  | ThreadAffinityReply (tid : Z) (set : gset Z)
  | SimBarrierRelease
  | SyncReply (response time : Z)
  | SyncAck (response : Z)
  | SyncId (id : Z).
Inductive Sent : Type :=
  | ToCore (receiver : core_id_t) (m : Message)
  | ToProcess (process : Z) (r : ThreadSpawnRequest)
  | QuitSpawnerAck
  | SetCoreState (core : core_id_t) (st : Core.State).

(** ** State *)
Module Mcp.

Record ThreadState := mkThreadState {
  status : Core.State;
  waiter_core : core_id_t;
  waiter_tid : Z;
  thread_id : Z;
  pid : Z;
  (** The address of a mask of [m_cpu_sets]. *)
  cpu_set : Z
}.
#[global] Instance eta_ThreadState : Eta ThreadState := λ t, mkThreadState
  (status t) (waiter_core t) (waiter_tid t) (thread_id t) (pid t) (cpu_set t).
Definition idle_thread : ThreadState :=
  mkThreadState Core.IDLE INVALID_CORE_ID INVALID_THREAD_ID INVALID_THREAD_ID 0 0.

(** [LaxBarrierSyncServer]. *)
Record LaxBarrierSyncServer := mkLaxBarrierSyncServer {
  m_barrier_interval : Z;
  m_next_barrier_time : Z;
  m_local_clock_list : list Z;
  m_barrier_acquire_list : list bool;
  m_num_application_tiles : Z
}.
#[global] Instance eta_LaxBarrierSyncServer : Eta LaxBarrierSyncServer := λ b, mkLaxBarrierSyncServer
  (m_barrier_interval b) (m_next_barrier_time b) (m_local_clock_list b) (m_barrier_acquire_list b)
  (m_num_application_tiles b).

Record Mcp := mkMcp {
  config : SysConfig.Config;
  (** [ThreadManager] *)
  m_thread_state : list (list ThreadState);
  (** The affinity masks, allocated once for each thread. *)
  m_cpu_sets : list (gset Z);
  m_last_stalled_thread : list Z;
  m_tid_counter : Z;
  m_tid_to_core_map : list (core_id_t * Z);
  m_thread_spawn_list : list ThreadSpawnRequest;
  m_thread_spawn_sem : Z;
  m_thread_spawners_terminated : Z;
  (** [ThreadScheduler] *)
  m_round_robin : bool;
  m_local_next_tidx : list Z;
  m_core_lock : list bool;
  m_waiter_queue : list (list ThreadSpawnRequest);
  m_last_start_time : list (list Z);
  (** [ClockSkewMinimizationServer], when the scheme has one. *)
  m_clock_skew_minimization_server : option LaxBarrierSyncServer;
  (** The times given to the statistics thread, when there is one. *)
  m_statistics : option (list Z);
  (** The host's clock, [time(NULL)]. *)
  wall_clock : Z;
  m_sent : list Sent
}.
#[global] Instance eta_Mcp : Eta Mcp := λ s, mkMcp
  (config s) (m_thread_state s) (m_cpu_sets s) (m_last_stalled_thread s) (m_tid_counter s) (m_tid_to_core_map s)
  (m_thread_spawn_list s) (m_thread_spawn_sem s) (m_thread_spawners_terminated s) (m_round_robin s)
  (m_local_next_tidx s) (m_core_lock s) (m_waiter_queue s) (m_last_start_time s)
  (m_clock_skew_minimization_server s) (m_statistics s) (wall_clock s) (m_sent s).

(** The constructors.  The thread table starts idle but for the main thread,
    the thread spawners and the master itself. *)
Definition make_barrier (quantum application_tiles : Z) : LaxBarrierSyncServer :=
  mkLaxBarrierSyncServer (u64 quantum) (u64 quantum) (replicate (Z.to_nat application_tiles) 0)
    (replicate (Z.to_nat application_tiles) false) application_tiles.

Definition start_first_thread (table : list (list ThreadState)) (tile : Z) : res (list (list ThreadState)) :=
  row ← vget "m_thread_state" table tile ;
  t ← vget "m_thread_state" row 0 ;
  Ok (zinsert tile (zinsert 0 (t <| status := Core.RUNNING |>) row) table).

Definition make (c : SysConfig.Config) (round_robin : bool) (server : option LaxBarrierSyncServer)
    (statistics : option (list Z)) : res Mcp :=
  let total_tiles := SysConfig.getTotalTiles c in
  let threads_per_core := SysConfig.m_max_threads_per_core c in
  let n := Z.to_nat total_tiles in
  let spawners :=
    match SysConfig.m_simulation_mode c with
    | SysConfig.FULL => seqZ (total_tiles - SysConfig.m_num_processes c - 1) (SysConfig.m_num_processes c)
    | SysConfig.LITE => []
    end in
  table ← foldl (λ acc tile, acc ≫= λ table, start_first_thread table tile)
            (Ok ((λ i, (λ j, idle_thread <| cpu_set := i * threads_per_core + j |>) <$> seqZ 0 threads_per_core)
                   <$> seqZ 0 total_tiles))
            (0 :: spawners ++ [SysConfig.getMCPTileNum c]) ;
  Ok (mkMcp c table (replicate (Z.to_nat (total_tiles * threads_per_core)) ∅)
        (replicate n INVALID_THREAD_ID) 0 [] [] 0 0 round_robin
        (replicate n INVALID_THREAD_ID) (replicate n false) (replicate n [])
        (replicate n (replicate (Z.to_nat threads_per_core) 0)) server statistics 0 []).

Definition netSend (receiver : core_id_t) (m : Message) : M Mcp unit :=
  modify (λ s, s <| m_sent := m_sent s ++ [ToCore receiver m] |>).

(** ** Thread states *)

Definition thread_at (tile tidx : Z) : M Mcp ThreadState :=
  s ← gets id ;
  row ← lift (vget "m_thread_state" (m_thread_state s) tile) ;
  lift (vget "m_thread_state" row tidx).
Definition set_thread (tile tidx : Z) (f : ThreadState → ThreadState) : M Mcp unit :=
  s ← gets id ;
  row ← lift (vget "m_thread_state" (m_thread_state s) tile) ;
  t ← lift (vget "m_thread_state" row tidx) ;
  modify (λ s, s <| m_thread_state := zinsert tile (zinsert tidx (f t) row) (m_thread_state s) |>).

Definition isThreadRunning (tile tidx : Z) : M Mcp bool :=
  t ← thread_at tile tidx ; mret (bool_decide (status t = Core.RUNNING)).
Definition isThreadInitializing (tile tidx : Z) : M Mcp bool :=
  t ← thread_at tile tidx ; mret (bool_decide (status t = Core.INITIALIZING)).

Definition isCoreInitializing (tile : Z) : M Mcp bool :=
  s ← gets id ;
  row ← lift (vget "m_thread_state" (m_thread_state s) tile) ;
  mret (existsb (λ t, bool_decide (status t = Core.INITIALIZING)) row).

(** The loop of [isCoreRunning]: the index of the running thread, which must
    be the only one. *)
Fixpoint running_from (row : list ThreadState) (j found : Z) : res Z :=
  match row with
  | [] => Ok found
  | t :: row =>
    if bool_decide (status t = Core.RUNNING) then
      if found =? INVALID_THREAD_ID then running_from row (j + 1) j
      else Fail (ELog "Two threads are running simultaneously")
    else running_from row (j + 1) found
  end.
Definition isCoreRunning (tile : Z) : M Mcp Z :=
  s ← gets id ;
  row ← lift (vget "m_thread_state" (m_thread_state s) tile) ;
  lift (running_from row 0 INVALID_THREAD_ID).
Definition isCoreRunning_core (core_id : core_id_t) : M Mcp Z :=
  if isMainCore core_id then isCoreRunning (tile_id core_id) else fail (ELog "Invalid core type!").

(** [areAllCoresRunning]: the loop stops at the first core that does not run. *)
Fixpoint all_running_from (n : nat) (i : Z) : M Mcp bool :=
  match n with
  | O => mret true
  | S n => r ← isCoreRunning i ; if r =? INVALID_THREAD_ID then mret false else all_running_from n (i + 1)
  end.
Definition areAllCoresRunning : M Mcp bool :=
  s ← gets id ; all_running_from (length (m_thread_state s)) 0.

(** ** The clock-skew barrier *)

(** The condition of the assertions of the barrier.  [isCoreInitializing]
    returns a [bool], which is never [INVALID_THREAD_ID]. *)
Definition running_or_initializing (tile : Z) : M Mcp bool :=
  r ← isCoreRunning tile ;
  if negb (r =? INVALID_THREAD_ID) then mret true
  else b ← isCoreInitializing tile ; mret (negb (Z.b2z b =? INVALID_THREAD_ID)).

Definition barrier : M Mcp LaxBarrierSyncServer :=
  s ← gets id ; lift (of_option (m_clock_skew_minimization_server s) (ENull "ClockSkewMinimizationServer")).
Definition set_barrier (f : LaxBarrierSyncServer → LaxBarrierSyncServer) : M Mcp unit :=
  modify (λ s, s <| m_clock_skew_minimization_server ::= fmap f |>).

(** [isBarrierReached], from tile [tile] on. *)
Fixpoint reached_from (n : nat) (tile : Z) (single : bool) : M Mcp bool :=
  match n with
  | O => mret single
  | S n =>
    b ← barrier ;
    clock ← lift (vget "m_local_clock_list" (m_local_clock_list b) tile) ;
    if clock <? m_next_barrier_time b then
      r ← isCoreRunning tile ;
      if negb (r =? INVALID_THREAD_ID) then mret false else reached_from n (tile + 1) single
    else
      ok ← running_or_initializing tile ;
      (if (ok : bool) then skip else fail (ELog "LaxBarrierSyncServer::isBarrierReached")) ;;
      reached_from n (tile + 1) true
  end.
Definition isBarrierReached : M Mcp bool :=
  b ← barrier ; reached_from (Z.to_nat (m_num_application_tiles b)) 0 false.

(** One round of the loop of [barrierRelease] over the tiles: the tiles that
    wait with a clock below the barrier are released. *)
Fixpoint release_from (n : nat) (tile : Z) (resumed : bool) : M Mcp bool :=
  match n with
  | O => mret resumed
  | S n =>
    b ← barrier ;
    clock ← lift (vget "m_local_clock_list" (m_local_clock_list b) tile) ;
    acquired ← lift (vget "m_barrier_acquire_list" (m_barrier_acquire_list b) tile) ;
    if (clock <? m_next_barrier_time b) && (acquired : bool) then
      ok ← running_or_initializing tile ;
      (if (ok : bool) then skip else fail (ELog "LaxBarrierSyncServer::barrierRelease")) ;;
      netSend (getMainCoreId tile) SimBarrierRelease ;;
      set_barrier (λ b, b <| m_barrier_acquire_list ::= zinsert tile false |>) ;;
      release_from n (tile + 1) true
    else release_from n (tile + 1) resumed
  end.

(** The [while] loop of [barrierRelease]. *)
Fixpoint release_rounds (fuel : nat) : M Mcp unit :=
  match fuel with
  | O => fail (EFuel "LaxBarrierSyncServer::barrierRelease")
  | S fuel =>
    set_barrier (λ b, b <| m_next_barrier_time := u64 (m_next_barrier_time b + m_barrier_interval b) |>) ;;
    b ← barrier ;
    resumed ← release_from (Z.to_nat (m_num_application_tiles b)) 0 false ;
    if (resumed : bool) then skip else release_rounds fuel
  end.

(** Rounds that bring the barrier past every local clock. *)
Definition release_fuel (b : LaxBarrierSyncServer) : nat :=
  S (Z.to_nat ((foldr Z.max 0 (m_local_clock_list b) - m_next_barrier_time b) `div` m_barrier_interval b + 1)).

Definition barrierRelease : M Mcp unit :=
  b ← barrier ;
  release_rounds (release_fuel b) ;;
  b ← barrier ;
  modify (λ s, s <| m_statistics ::= fmap (λ l, l ++ [m_next_barrier_time b]) |>).

Definition barrier_signal : M Mcp unit :=
  reached ← isBarrierReached ;
  when reached barrierRelease.

(** [barrierWait], the handler of the tiles' messages. *)
Definition sim_barrierWait (core_id : core_id_t) (time : Z) : M Mcp unit :=
  r ← isCoreRunning_core core_id ;
  (if negb (r =? INVALID_THREAD_ID) then skip
   else b ← isCoreInitializing (tile_id core_id) ;
        if negb (Z.b2z b =? INVALID_THREAD_ID) then skip else fail (ELog "LaxBarrierSyncServer::barrierWait")) ;;
  b ← barrier ;
  if time <? m_next_barrier_time b then netSend core_id SimBarrierRelease
  else
    (if isMainCore core_id then skip else fail (ELog "Invalid core type!")) ;;
    clocks ← lift (vset "m_local_clock_list" (m_local_clock_list b) (tile_id core_id) time) ;
    acquired ← lift (vset "m_barrier_acquire_list" (m_barrier_acquire_list b) (tile_id core_id) true) ;
    set_barrier (λ b, b <| m_local_clock_list := clocks |> <| m_barrier_acquire_list := acquired |>) ;;
    barrier_signal.

(** The call of the server, when there is one. *)
Definition signal_server : M Mcp unit :=
  s ← gets id ;
  when (bool_decide (is_Some (m_clock_skew_minimization_server s))) barrier_signal.

(** ** Stalling and resuming threads *)

Definition stallThread_at (tile tidx : Z) : M Mcp unit :=
  set_thread tile tidx (λ t, t <| status := Core.STALLED |>) ;;
  s ← gets id ;
  l ← lift (vset "m_last_stalled_thread" (m_last_stalled_thread s) tile tidx) ;
  modify (λ s, s <| m_last_stalled_thread := l |>) ;;
  signal_server.
Definition stallThread_core (core_id : core_id_t) (tidx : Z) : M Mcp unit :=
  if isMainCore core_id then stallThread_at (tile_id core_id) tidx else fail (ELog "Invalid core type!").
(** Stalls the running thread of a core. *)
Definition stallThread (core_id : core_id_t) : M Mcp unit :=
  tidx ← isCoreRunning_core core_id ;
  if tidx =? INVALID_THREAD_ID then fail (ELog "Can't stall Core because it has no running threads!")
  else stallThread_core core_id tidx.

Definition resumeThread_at (tile tidx : Z) : M Mcp unit :=
  t ← thread_at tile tidx ;
  (if bool_decide (status t ≠ Core.RUNNING) then skip
   else fail (ELog "resumeThread() called on already running thread")) ;;
  set_thread tile tidx (λ t, t <| status := Core.RUNNING |>).
Definition resumeThread_core (core_id : core_id_t) (tidx : Z) : M Mcp unit :=
  if isMainCore core_id then resumeThread_at (tile_id core_id) tidx else fail (ELog "Invalid core type!").
(** Resumes the thread that stalled last on a core. *)
Definition resumeThread (core_id : core_id_t) : M Mcp unit :=
  if isMainCore core_id then
    s ← gets id ;
    tidx ← lift (vget "m_last_stalled_thread" (m_last_stalled_thread s) (tile_id core_id)) ;
    assert (negb (tidx =? INVALID_THREAD_ID)) "ThreadManager::resumeThread" ;;
    resumeThread_at (tile_id core_id) tidx
  else fail (ELog "Invalid core type!").

End Mcp.
