(* ===== verification/ThreadManagerProofs.v ===== *)
(** * ThreadManagerProofs: lemmas on thread states and the clock-skew barrier

    The invariants of the master's thread table and of the barrier server, and
    what their operations do from a state that satisfies them. *)
From S2P Require Import Prelude ThreadManager.
Import Mcp.

(** ** Thread table *)

Definition running (t : ThreadState) : Prop := status t = Core.RUNNING.
#[global] Instance running_dec t : Decision (running t) := decide (status t = Core.RUNNING).

Definition one_running (row : list ThreadState) : Prop :=
  ∀ i j t u, row !! i = Some t → row !! j = Some u → running t → running u → i = j.

(** At most one thread of each core runs. *)
Record threads_wf (s : Mcp) : Prop := {
  wf_rows : ∀ tile row, zlookup (m_thread_state s) tile = Some row → one_running row;
  wf_stalled : zlength (m_last_stalled_thread s) = zlength (m_thread_state s)
}.

(** Thread [tidx] of a tile runs; no thread of a tile runs. *)
Definition runs_on (s : Mcp) (tile tidx : Z) : Prop :=
  ∃ row t, zlookup (m_thread_state s) tile = Some row ∧ zlookup row tidx = Some t ∧ running t.
Definition quiet (s : Mcp) (tile : Z) : Prop :=
  ∃ row, zlookup (m_thread_state s) tile = Some row ∧ Forall (λ t, ¬ running t) row.

Lemma one_running_cons t row :
  one_running (t :: row) → one_running row ∧ (running t → Forall (λ t, ¬ running t) row).
Proof.
  intros H. split.
  - intros i j u v Hi Hj. intros. enough (S i = S j) by lia. by eapply H.
  - intros Ht. apply Forall_lookup. intros i u Hu Hr.
    assert (0 = S i)%nat; [|lia]. by eapply H.
Qed.

Lemma running_from_none row j found :
  Forall (λ t, ¬ running t) row → running_from row j found = Ok found.
Proof.
  intros H. revert j. induction H as [|t row Ht _ IH]; intros j; [done|]. cbn.
  by rewrite bool_decide_eq_false_2.
Qed.

Lemma running_from_spec row j :
  0 ≤ j → one_running row →
  (Forall (λ t, ¬ running t) row ∧ running_from row j INVALID_THREAD_ID = Ok INVALID_THREAD_ID) ∨
  (∃ i t, row !! i = Some t ∧ running t ∧ running_from row j INVALID_THREAD_ID = Ok (j + Z.of_nat i)).
Proof.
  revert j. induction row as [|t row IH]; intros j Hj H.
  1: { left. by split. }
  apply one_running_cons in H as [H1 H2]. cbn [running_from].
  case_bool_decide as Ht.
  - right. exists 0%nat, t. split_and!; [done..|]. cbn. rewrite running_from_none by auto.
    f_equal. lia.
  - destruct (IH (j + 1)) as [[? E]|(i & u & ? & ? & E)]; [lia|done|left|right].
    + split; [by constructor|done].
    + exists (S i), u. split_and!; [done..|]. rewrite E. f_equal. lia.
Qed.

Lemma isCoreRunning_spec s tile :
  threads_wf s → 0 ≤ tile < zlength (m_thread_state s) →
  (quiet s tile ∧ isCoreRunning tile s = Ok (INVALID_THREAD_ID, s)) ∨
  (∃ j, 0 ≤ j ∧ runs_on s tile j ∧ isCoreRunning tile s = Ok (j, s)).
Proof.
  intros W Ht. apply zlookup_is_Some in Ht as [row Hrow].
  unfold isCoreRunning, gets, lift, mbind, M_bind, vget. cbn. rewrite Hrow. cbn.
  destruct (running_from_spec row 0) as [[Hq ->]|(i & t & Hi & Hr & ->)];
    [done|by eapply wf_rows|left|right].
  - split; [by exists row|done].
  - exists (0 + Z.of_nat i). split_and!; [lia| |done]. exists row, t. split_and!; [done| |done].
    rewrite zlookup_nat by lia. by replace (Z.to_nat (0 + Z.of_nat i)) with i by lia.
Qed.

Lemma quiet_not_running s tile j : quiet s tile → ¬ runs_on s tile j.
Proof.
  intros (row & H & Hq) (row' & t & H' & Hj & Hr). simplify_eq.
  apply zlookup_Some in Hj as [_ Hj]. rewrite Forall_lookup in Hq. by eapply Hq.
Qed.

(** The assertions of the barrier hold whatever the threads do. *)
Lemma running_or_initializing_true s tile :
  threads_wf s → 0 ≤ tile < zlength (m_thread_state s) →
  running_or_initializing tile s = Ok (true, s).
Proof.
  intros W Ht. unfold running_or_initializing, mbind, M_bind.
  destruct (isCoreRunning_spec s tile W Ht) as [[_ ->]|(j & Hj & _ & ->)].
  - cbn. unfold isCoreInitializing, gets, lift, mbind, M_bind, vget. cbn.
    apply zlookup_is_Some in Ht as [row ->]. cbn. by destruct (existsb _ row).
  - replace (j =? INVALID_THREAD_ID) with false; [done|]. symmetry. apply Z.eqb_neq.
    unfold INVALID_THREAD_ID. lia.
Qed.

(** ** The clock-skew barrier *)

(** The clock of a tile at the barrier, and whether the tile waits. *)
Definition clock_of (b : LaxBarrierSyncServer) (tile : Z) : option Z := zlookup (m_local_clock_list b) tile.
Definition waits (b : LaxBarrierSyncServer) (tile : Z) : Prop :=
  zlookup (m_barrier_acquire_list b) tile = Some true.
#[global] Instance waits_dec b tile : Decision (waits b tile) := decide (_ = _).

(** The largest clock for which the barrier does not wrap around. *)
Definition clock_bound : Z := 2 ^ 63.

(** The tiles that wait are those whose clock has reached the barrier. *)
Record barrier_wf (tiles : Z) (b : LaxBarrierSyncServer) : Prop := {
  wf_interval : 0 < m_barrier_interval b ≤ clock_bound;
  wf_next : 0 < m_next_barrier_time b;
  wf_tiles : 0 ≤ m_num_application_tiles b ≤ tiles;
  wf_clocks : zlength (m_local_clock_list b) = m_num_application_tiles b;
  wf_acquired : zlength (m_barrier_acquire_list b) = m_num_application_tiles b;
  wf_clock : ∀ i c, clock_of b i = Some c → 0 ≤ c < clock_bound;
  wf_waits : ∀ i c, clock_of b i = Some c → waits b i ↔ m_next_barrier_time b ≤ c
}.

Record mcp_wf (s : Mcp) : Prop := {
  wf_threads : threads_wf s;
  wf_barrier : ∀ b, m_clock_skew_minimization_server s = Some b →
    barrier_wf (zlength (m_thread_state s)) b
}.

(** The tiles among [n] from [tile] on that wait with a clock below the
    barrier. *)
Definition due (b : LaxBarrierSyncServer) (i : Z) : Prop :=
  waits b i ∧ ∃ c, clock_of b i = Some c ∧ c < m_next_barrier_time b.
#[global] Instance due_dec b i : Decision (due b i).
Proof.
  unfold due. apply and_dec; [apply _|]. destruct (clock_of b i) as [c|].
  - destruct (decide (c < m_next_barrier_time b)); [left; by exists c|right; by intros (? & [= ->] & ?)].
  - right. by intros (? & ? & ?).
Defined.
Definition due_from (b : LaxBarrierSyncServer) (tile : Z) (n : nat) : list Z :=
  filter (due b) (seqZ tile (Z.of_nat n)).

Definition clear_waits (l : list Z) (b : LaxBarrierSyncServer) : LaxBarrierSyncServer :=
  b <| m_barrier_acquire_list := foldl (λ a i, zinsert i false a) (m_barrier_acquire_list b) l |>.
Definition release_message (tile : Z) : Sent := ToCore (getMainCoreId tile) SimBarrierRelease.
(** The master with a new barrier server that has released the tiles [l]. *)
Definition with_barrier (b : LaxBarrierSyncServer) (l : list Z) (s : Mcp) : Mcp :=
  s <| m_clock_skew_minimization_server := Some b |> <| m_sent := m_sent s ++ (release_message <$> l) |>.

Lemma with_barrier_nil s b :
  m_clock_skew_minimization_server s = Some b → with_barrier b [] s = s.
Proof. intros H. destruct s; cbn in *; subst. unfold with_barrier. cbn. by rewrite app_nil_r. Qed.

Lemma with_barrier_app s b b' l l' :
  with_barrier b' l' (with_barrier b l s) = with_barrier b' (l ++ l') s.
Proof. unfold with_barrier. cbn. by rewrite fmap_app, app_assoc. Qed.

Lemma seqZ_S tile n : seqZ tile (Z.of_nat (S n)) = tile :: seqZ (tile + 1) (Z.of_nat n).
Proof. rewrite seqZ_cons by lia. f_equal. f_equal; lia. Qed.

Lemma due_from_S b tile n :
  due_from b tile (S n) = (if decide (due b tile) then [tile] else []) ++ due_from b (tile + 1) n.
Proof. unfold due_from. rewrite seqZ_S, filter_cons. by case_decide. Qed.

Lemma waits_clear_ne b i j : i ≠ j → waits (clear_waits [i] b) j ↔ waits b j.
Proof. intros H. unfold waits, clear_waits. cbn. by rewrite zlookup_zinsert_ne. Qed.

Lemma filter_ext_in {A} (P Q : A → Prop) `{∀ x, Decision (P x)} `{∀ x, Decision (Q x)} (l : list A) :
  (∀ x, x ∈ l → P x ↔ Q x) → filter P l = filter Q l.
Proof.
  induction l as [|x l IH]; intros E; [done|]. rewrite !filter_cons, IH by set_solver.
  destruct (E x ltac:(set_solver)). repeat case_decide; naive_solver.
Qed.

Lemma due_from_clear b tile i n : i < tile → due_from (clear_waits [i] b) tile n = due_from b tile n.
Proof.
  intros H. unfold due_from. apply filter_ext_in. intros j Hj%elem_of_seqZ.
  unfold due. by rewrite waits_clear_ne by lia.
Qed.

Lemma barrier_get s b : m_clock_skew_minimization_server s = Some b → barrier s = Ok (b, s).
Proof. intros H. unfold barrier, gets, lift, mbind, M_bind. cbn. by rewrite H. Qed.

(** One round of the release. *)
Lemma release_from_spec n : ∀ s b tile resumed,
  threads_wf s → m_clock_skew_minimization_server s = Some b →
  zlength (m_barrier_acquire_list b) = zlength (m_local_clock_list b) →
  zlength (m_local_clock_list b) ≤ zlength (m_thread_state s) →
  0 ≤ tile → tile + Z.of_nat n ≤ zlength (m_local_clock_list b) →
  release_from n tile resumed s =
    Ok (resumed || negb (bool_decide (due_from b tile n = [])),
        with_barrier (clear_waits (due_from b tile n) b) (due_from b tile n) s).
Proof.
  induction n as [|n IH]; intros s b tile resumed W Hb Hacq Hrows Ht Hlen.
  - change (due_from b tile 0) with (@nil Z). cbn. rewrite orb_false_r.
    replace (clear_waits [] b) with b by (by destruct b). by rewrite with_barrier_nil.
  - destruct (zlookup_is_Some (m_local_clock_list b) tile) as [c Hc]; [lia|].
    destruct (zlookup_is_Some (m_barrier_acquire_list b) tile) as [a Ha]; [lia|].
    cbn [release_from]. unfold mbind at 1, M_bind at 1. rewrite (barrier_get _ _ Hb).
    unfold mbind at 1, M_bind at 1, lift at 1, vget at 1. rewrite Hc. cbn [of_option].
    unfold mbind at 1, M_bind at 1, lift at 1, vget at 1. rewrite Ha. cbn [of_option].
    rewrite due_from_S.
    assert (due b tile ↔ (c <? m_next_barrier_time b) && a = true) as Hdue.
    { unfold due, waits, clock_of. rewrite Hc, Ha, andb_true_iff, Z.ltb_lt.
      naive_solver. }
    destruct ((c <? m_next_barrier_time b) && a) eqn:E.
    + rewrite decide_True by by apply Hdue.
      unfold mbind at 1, M_bind at 1. rewrite running_or_initializing_true by (done || lia).
      unfold mbind, M_bind. cbn [skip mret M_ret].
      unfold netSend, set_barrier, modify. cbn -[release_from].
      rewrite (IH _ (clear_waits [tile] b)); cbn;
        [|by destruct W; constructor|by rewrite Hb|by rewrite zlength_zinsert|done|lia|lia].
      rewrite due_from_clear by lia. f_equal. f_equal.
      * by rewrite orb_true_r.
      * unfold with_barrier, clear_waits, release_message. cbn.
        by rewrite <- app_assoc.
    + rewrite decide_False by (rewrite Hdue; done). cbn [app].
      rewrite (IH s b) by (done || lia). done.
Qed.

Definition advance (next : Z) (b : LaxBarrierSyncServer) : LaxBarrierSyncServer :=
  b <| m_next_barrier_time := next |>.
Definition all_due (b : LaxBarrierSyncServer) : list Z :=
  due_from b 0 (Z.to_nat (m_num_application_tiles b)).

(** The barrier moves by whole intervals, no further than needed to release a
    tile, and releases every tile it passes. *)
Record advances (b b' : LaxBarrierSyncServer) (released : list Z) : Prop := {
  adv_state : ∃ next, released = all_due (advance next b) ∧ b' = clear_waits released (advance next b);
  adv_next : ∃ k, 1 ≤ k ∧ m_next_barrier_time b' = m_next_barrier_time b + k * m_barrier_interval b;
  adv_progress : released ≠ [];
  adv_tight : ∀ i c, waits b i → clock_of b i = Some c → m_next_barrier_time b' - m_barrier_interval b ≤ c
}.

Lemma elem_of_all_due b i :
  zlength (m_barrier_acquire_list b) = m_num_application_tiles b → i ∈ all_due b ↔ due b i.
Proof.
  intros H. unfold all_due, due_from. rewrite list_elem_of_filter, elem_of_seqZ.
  split; [naive_solver|]. intros D. split; [done|].
  destruct D as [[? _]%zlookup_Some _]. lia.
Qed.

Lemma release_rounds_spec fuel : ∀ s b i c,
  mcp_wf s → m_clock_skew_minimization_server s = Some b →
  waits b i → clock_of b i = Some c →
  c < m_next_barrier_time b + Z.of_nat fuel * m_barrier_interval b →
  ∃ b' released, release_rounds fuel s = Ok (tt, with_barrier b' released s) ∧ advances b b' released.
Proof.
  induction fuel as [|fuel IH]; intros s b i c W Hb Hi Hc Hfuel.
  { destruct W as [_ W]. apply W in Hb. apply (wf_waits _ _ Hb _ _ Hc) in Hi. lia. }
  pose proof W as [WT WB]. destruct (WB _ Hb) as [HI Hn HT HC HA HV HW].
  assert (m_next_barrier_time b ≤ c) by (by eapply HW).
  assert (u64 (m_next_barrier_time b + m_barrier_interval b)
          = m_next_barrier_time b + m_barrier_interval b) as Hu.
  { specialize (HV _ _ Hc). apply u64_small. unfold clock_bound in *. lia. }
  set (n1 := m_next_barrier_time b + m_barrier_interval b) in *.
  assert (release_from (Z.to_nat (m_num_application_tiles b)) 0 false (with_barrier (advance n1 b) [] s)
          = Ok (negb (bool_decide (all_due (advance n1 b) = [])),
                with_barrier (clear_waits (all_due (advance n1 b)) (advance n1 b))
                  (all_due (advance n1 b)) s)) as Hround.
  { rewrite (release_from_spec _ _ (advance n1 b)); [|by destruct WT; constructor|done|cbn; lia..].
    by rewrite with_barrier_app. }
  assert (release_rounds (S fuel) s
          = (resumed ← release_from (Z.to_nat (m_num_application_tiles b)) 0 false ;
             if (resumed : bool) then skip else release_rounds fuel) (with_barrier (advance n1 b) [] s)) as ->.
  { cbn [release_rounds]. unfold set_barrier, modify, mbind, M_bind. cbn -[release_from release_rounds].
    rewrite Hb. unfold barrier, gets, lift, mbind, M_bind. cbn -[release_from release_rounds].
    unfold with_barrier, advance. cbn -[release_from release_rounds]. fold n1. by rewrite Hu, app_nil_r. }
  unfold mbind, M_bind. rewrite Hround. case_bool_decide as Hdue; cbn [negb].
  - assert (∀ j cj, waits b j → clock_of b j = Some cj → n1 ≤ cj) as Hpast.
    { intros j cj Hj Hcj. apply Z.nlt_ge. intros Hlt.
      assert (j ∈ all_due (advance n1 b)) as Hin; [|rewrite Hdue in Hin; set_solver].
      apply elem_of_all_due; [done|]. split; [done|]. by exists cj. }
    rewrite Hdue. replace (clear_waits [] (advance n1 b)) with (advance n1 b) by done.
    destruct (IH (with_barrier (advance n1 b) [] s) (advance n1 b) i c) as (b' & l & E & A);
      [ |done|done|done|cbn; lia|].
    { split; [by destruct WT; constructor|]. cbn. intros ? [= <-].
      constructor; cbn; [done|lia|done|done|done|done|]. intros j cj Hj.
      split; [intros; by eapply Hpast|intros; apply (HW j cj Hj); lia]. }
    rewrite E, with_barrier_app. exists b', l. split; [done|].
    destruct A as [(nx & -> & ->) (k & ? & Hk) ? Ht]. constructor.
    + by exists nx.
    + exists (k + 1). split; [lia|]. rewrite Hk. cbn. lia.
    + done.
    + done.
  - exists (clear_waits (all_due (advance n1 b)) (advance n1 b)), (all_due (advance n1 b)).
    split; [done|]. constructor.
    + by exists n1.
    + exists 1. cbn. lia.
    + done.
    + cbn. intros j cj Hj Hcj. apply (HW j cj Hcj) in Hj. lia.
Qed.

Lemma zlength_clear l : ∀ a : list bool, zlength (foldl (λ a i, zinsert i false a) a l) = zlength a.
Proof. induction l as [|x l IH]; intros a; [done|]. cbn. by rewrite IH, zlength_zinsert. Qed.

Lemma zlookup_clear l i : ∀ a : list bool,
  zlookup (foldl (λ a i, zinsert i false a) a l) i = Some true ↔ zlookup a i = Some true ∧ i ∉ l.
Proof.
  induction l as [|x l IH]; intros a; [cbn; set_solver|]. cbn. rewrite IH, elem_of_cons.
  destruct (decide (x = i)) as [->|].
  - split; [|naive_solver]. intros [H _]. pose proof H as [Hr _]%zlookup_Some.
    rewrite zlength_zinsert in Hr. by rewrite zlookup_zinsert_eq in H.
  - rewrite zlookup_zinsert_ne by done. naive_solver.
Qed.

Lemma waits_clear l b i : waits (clear_waits l b) i ↔ waits b i ∧ i ∉ l.
Proof. apply zlookup_clear. Qed.

Lemma advances_wf tiles b b' l : barrier_wf tiles b → advances b b' l → barrier_wf tiles b'.
Proof.
  intros [HI Hn HT HC HA HV HW] [(n & -> & ->) (k & Hk & Hn') _ _]. cbn in Hn'.
  constructor; cbn; [done|nia|done|done|by rewrite zlength_clear|done|].
  intros i c Hc. rewrite waits_clear, elem_of_all_due by done. unfold due. cbn.
  split.
  - intros [Hw Hd]. apply Z.nlt_ge. intros Hlt. apply Hd. split; [done|]. by exists c.
  - intros Hle. split; [apply (HW i c Hc); nia|]. intros (_ & c' & Hc' & ?).
    assert (Some c' = Some c) as [= ->] by (rewrite <- Hc, <- Hc'; done). lia.
Qed.

(** Every tile at the barrier keeps its clock, and only released tiles stop
    waiting. *)
Lemma advances_released b b' l i :
  zlength (m_barrier_acquire_list b) = m_num_application_tiles b → advances b b' l →
  i ∈ l ↔ waits b i ∧ ∃ c, clock_of b i = Some c ∧ c < m_next_barrier_time b'.
Proof. intros HA [(n & -> & ->) _ _ _]. by rewrite elem_of_all_due. Qed.
Lemma advances_waits b b' l i : advances b b' l → waits b' i ↔ waits b i ∧ i ∉ l.
Proof. intros [(n & -> & ->) _ _ _]. by rewrite waits_clear. Qed.
Lemma advances_clock b b' l i : advances b b' l → clock_of b' i = clock_of b i.
Proof. by intros [(n & -> & ->) _ _ _]. Qed.

(** All running tiles are at the barrier, and some tile is. *)
Definition reached (s : Mcp) (b : LaxBarrierSyncServer) : Prop :=
  (∀ i c, clock_of b i = Some c → c < m_next_barrier_time b → quiet s i) ∧
  (∃ i c, clock_of b i = Some c ∧ m_next_barrier_time b ≤ c).

Lemma reached_from_spec n : ∀ s b tile single,
  threads_wf s → m_clock_skew_minimization_server s = Some b →
  zlength (m_local_clock_list b) ≤ zlength (m_thread_state s) →
  0 ≤ tile → tile + Z.of_nat n ≤ zlength (m_local_clock_list b) →
  ∃ r, reached_from n tile single s = Ok (r, s) ∧
    (r = true ↔
     (∀ i c, tile ≤ i < tile + Z.of_nat n → clock_of b i = Some c → c < m_next_barrier_time b → quiet s i) ∧
     (single = true ∨ ∃ i c, tile ≤ i < tile + Z.of_nat n ∧ clock_of b i = Some c ∧ m_next_barrier_time b ≤ c)).
Proof.
  induction n as [|n IH]; intros s b tile single W Hb Hrows Ht Hlen.
  { exists single. split; [done|]. split; [intros ->; split; [lia|by left]|].
    intros [_ [?|(? & ? & ? & _)]]; [done|lia]. }
  destruct (zlookup_is_Some (m_local_clock_list b) tile) as [c Hc]; [lia|].
  cbn [reached_from]. unfold mbind at 1, M_bind at 1. rewrite (barrier_get _ _ Hb).
  unfold mbind at 1, M_bind at 1, lift at 1, vget at 1. rewrite Hc. cbn [of_option].
  assert (∀ i, tile ≤ i < tile + Z.of_nat (S n) → i = tile ∨ tile + 1 ≤ i < tile + 1 + Z.of_nat n)
    as Hsplit by lia.
  assert (∀ ci, clock_of b tile = Some ci → ci = c) as Hclock.
  { unfold clock_of. intros ci. rewrite Hc. naive_solver. }
  destruct (c <? m_next_barrier_time b) eqn:E; breflect.
  - unfold mbind at 1, M_bind at 1.
    destruct (isCoreRunning_spec s tile) as [[Hq ->]|(j & Hj & Hr & ->)]; [done|lia| |].
    + cbn. destruct (IH s b (tile + 1) single) as (r & -> & Hr); [done|done|lia..|].
      exists r. split; [done|]. rewrite Hr. split.
      * intros [H1 H2]. split.
        -- intros i ci [->|Hi]%Hsplit Hci Hlt; [done|by eapply H1].
        -- destruct H2 as [?|(i & ci & ? & ? & ?)]; [by left|right]. exists i, ci. split_and!; (done || lia).
      * intros [H1 H2]. split.
        -- intros i ci Hi. apply H1. lia.
        -- destruct H2 as [?|(i & ci & [->|Hi]%Hsplit & Hci & ?)]; [by left| |right; by exists i, ci].
           apply Hclock in Hci. lia.
    + replace (j =? INVALID_THREAD_ID) with false by (symmetry; apply Z.eqb_neq; unfold INVALID_THREAD_ID; lia).
      exists false. split; [done|]. split; [done|]. intros [H1 _].
      destruct (quiet_not_running s tile j); [|done]. apply (H1 _ c); (done || lia).
  - unfold mbind at 1, M_bind at 1. rewrite running_or_initializing_true by (done || lia). cbn.
    unfold mbind, M_bind. cbn.
    destruct (IH s b (tile + 1) true) as (r & -> & Hr); [done|done|lia..|].
    exists r. split; [done|]. rewrite Hr. split.
    + intros [H1 _]. split.
      * intros i ci [->|Hi]%Hsplit Hci Hlt; [apply Hclock in Hci; lia|by eapply H1].
      * right. exists tile, c. split_and!; (done || lia).
    + intros [H1 _]. split; [|by left]. intros i ci Hi. apply H1. lia.
Qed.

Lemma isBarrierReached_spec s b :
  mcp_wf s → m_clock_skew_minimization_server s = Some b →
  ∃ r, isBarrierReached s = Ok (r, s) ∧ (r = true ↔ reached s b).
Proof.
  intros [WT WB] Hb. destruct (WB _ Hb) as [HI Hn HT HC HA HV HW].
  unfold isBarrierReached, mbind, M_bind. rewrite (barrier_get _ _ Hb).
  destruct (reached_from_spec (Z.to_nat (m_num_application_tiles b)) s b 0 false) as (r & -> & Hr);
    [done|done|lia..|].
  exists r. split; [done|]. rewrite Hr.
  assert (∀ i c, clock_of b i = Some c → 0 ≤ i < 0 + Z.of_nat (Z.to_nat (m_num_application_tiles b))) as Hrange.
  { intros i c [? _]%zlookup_Some. lia. }
  split; intros [H1 H2]; split.
  - intros i c Hc. eapply H1; [by eapply Hrange|done].
  - destruct H2 as [?|(i & c & ? & ? & ?)]; [done|by exists i, c].
  - intros i c _. apply H1.
  - right. destruct H2 as (i & c & Hc & ?). exists i, c. split; [by eapply Hrange|done].
Qed.

Lemma clock_le_max l i c : zlookup l i = Some c → c ≤ foldr Z.max 0 l.
Proof.
  intros [_ H]%zlookup_Some. revert H. generalize (Z.to_nat i). induction l as [|x l IH]; intros [|n] [=].
  - subst. cbn. lia.
  - cbn. specialize (IH n ltac:(done)). lia.
Qed.

Lemma release_fuel_enough b i c :
  0 < m_barrier_interval b → clock_of b i = Some c →
  c < m_next_barrier_time b + Z.of_nat (release_fuel b) * m_barrier_interval b.
Proof.
  intros HI Hc%clock_le_max. unfold release_fuel.
  set (m := foldr Z.max 0 (m_local_clock_list b)) in *.
  pose proof (Z.mul_succ_div_gt (m - m_next_barrier_time b) (m_barrier_interval b) HI) as Hd.
  set (q := (m - m_next_barrier_time b) `div` m_barrier_interval b) in *.
  rewrite Nat2Z.inj_succ. destruct (decide (0 ≤ q + 1)).
  - rewrite Z2Nat.id by done. nia.
  - replace (Z.to_nat (q + 1)) with 0%nat by lia. nia.
Qed.

(** ** The effect of a signal *)

Definition notified (b : LaxBarrierSyncServer) (s : Mcp) : Mcp :=
  s <| m_statistics ::= fmap (λ l, l ++ [m_next_barrier_time b]) |>.

Inductive signal_effect (s : Mcp) : Mcp → Prop :=
  | signal_none : m_clock_skew_minimization_server s = None → signal_effect s s
  | signal_unreached b :
      m_clock_skew_minimization_server s = Some b → ¬ reached s b → signal_effect s s
  | signal_release b b' l :
      m_clock_skew_minimization_server s = Some b → reached s b → advances b b' l →
      signal_effect s (notified b' (with_barrier b' l s)).

Lemma barrier_signal_spec s b :
  mcp_wf s → m_clock_skew_minimization_server s = Some b →
  ∃ s', barrier_signal s = Ok (tt, s') ∧ signal_effect s s'.
Proof.
  intros W Hb. unfold barrier_signal, mbind, M_bind.
  destruct (isBarrierReached_spec s b W Hb) as ([|] & -> & Hr); cbn [when].
  - assert (reached s b) as Hreach by (by apply Hr). pose proof Hreach as [_ (i & c & Hc & Hle)].
    destruct W as [WT WB]. destruct (WB _ Hb) as [HI Hn HT HC HA HV HW].
    destruct (release_rounds_spec (release_fuel b) s b i c) as (b' & l & E & A);
      [done|done|by eapply HW|done|eapply release_fuel_enough; [lia|done]|].
    exists (notified b' (with_barrier b' l s)). split; [|by eapply signal_release].
    unfold barrierRelease, mbind, M_bind. rewrite (barrier_get _ _ Hb), E. done.
  - exists s. split; [done|]. eapply signal_unreached; [done|]. intros ?%Hr. done.
Qed.

Lemma signal_server_spec s :
  mcp_wf s → ∃ s', signal_server s = Ok (tt, s') ∧ signal_effect s s'.
Proof.
  intros W. unfold signal_server, gets, mbind, M_bind. cbn.
  destruct (m_clock_skew_minimization_server s) as [b|] eqn:Hb.
  - rewrite bool_decide_eq_true_2 by done. by eapply barrier_signal_spec.
  - exists s. split; [done|by constructor].
Qed.

(** A signal touches only the barrier, the messages and the statistics. *)
Lemma signal_effect_frame s s' :
  signal_effect s s' → ∃ srv l st,
    s' = s <| m_clock_skew_minimization_server := srv |>
           <| m_sent := m_sent s ++ (release_message <$> l) |> <| m_statistics := st |>.
Proof.
  intros [Hb|b Hb _|b b' l Hb _ _].
  - exists None, [], (m_statistics s). destruct s; cbn in *; subst. by rewrite app_nil_r.
  - exists (Some b), [], (m_statistics s). destruct s; cbn in *; subst. by rewrite app_nil_r.
  - exists (Some b'), l, ((λ l, l ++ [m_next_barrier_time b']) <$> m_statistics s). done.
Qed.

Lemma signal_effect_wf s s' : mcp_wf s → signal_effect s s' → mcp_wf s'.
Proof.
  intros W [Hb|b Hb _|b b' l Hb _ A]; [done..|]. destruct W as [[W1 W2] WB].
  split; [by split|]. cbn. intros ? [= <-]. by eapply advances_wf; [apply WB|].
Qed.

(** ** Stalling and resuming *)

(** The core of a tile waits: its last stalled thread is stalled and none runs. *)
Definition blocked (s : Mcp) (tile : Z) : Prop :=
  quiet s tile ∧ ∃ j row t, zlookup (m_last_stalled_thread s) tile = Some j ∧ 0 ≤ j ∧
    zlookup (m_thread_state s) tile = Some row ∧ zlookup row j = Some t ∧ status t = Core.STALLED.

(** The parts of the master that neither threads that stall or resume nor
    signals of the barrier touch. *)
Definition rest (s : Mcp) :=
  (config s, m_cpu_sets s, (m_tid_counter s, m_tid_to_core_map s, m_thread_spawn_list s),
   (m_thread_spawn_sem s, m_thread_spawners_terminated s, m_round_robin s),
   (m_local_next_tidx s, m_core_lock s, m_waiter_queue s, m_last_start_time s, wall_clock s)).

(** [s'] differs from [s] in the thread table of [tile] and in the barrier. *)
Record only_tile (tile : Z) (s s' : Mcp) : Prop := {
  only_rows : ∀ i, i ≠ tile → zlookup (m_thread_state s') i = zlookup (m_thread_state s) i;
  only_stalled : ∀ i, i ≠ tile → zlookup (m_last_stalled_thread s') i = zlookup (m_last_stalled_thread s) i;
  only_length : zlength (m_thread_state s') = zlength (m_thread_state s);
  only_rest : rest s' = rest s;
  only_sent : ∃ l, m_sent s' = m_sent s ++ (release_message <$> l)
}.

Lemma only_tile_runs tile s s' i j : only_tile tile s s' → i ≠ tile → runs_on s' i j ↔ runs_on s i j.
Proof. intros H Hi. unfold runs_on. by rewrite (only_rows _ _ _ H). Qed.
Lemma only_tile_quiet tile s s' i : only_tile tile s s' → i ≠ tile → quiet s' i ↔ quiet s i.
Proof. intros H Hi. unfold quiet. by rewrite (only_rows _ _ _ H). Qed.
Lemma only_tile_blocked tile s s' i : only_tile tile s s' → i ≠ tile → blocked s' i ↔ blocked s i.
Proof.
  intros H Hi. unfold blocked, quiet. by rewrite (only_rows _ _ _ H), (only_stalled _ _ _ H).
Qed.

(** The master whose thread [j] of [tile] has status [st]. *)
Definition with_status (tile j : Z) (st : Core.State) (row : list ThreadState) (t : ThreadState) (s : Mcp) : Mcp :=
  s <| m_thread_state := zinsert tile (zinsert j (t <| status := st |>) row) (m_thread_state s) |>.

Lemma set_thread_spec s tile j row t f :
  zlookup (m_thread_state s) tile = Some row → zlookup row j = Some t →
  set_thread tile j f s
  = Ok (tt, s <| m_thread_state := zinsert tile (zinsert j (f t) row) (m_thread_state s) |>).
Proof.
  intros H1 H2. unfold set_thread, gets, lift, modify, mbind, M_bind, vget. cbn.
  rewrite H1. cbn. by rewrite H2.
Qed.

Lemma thread_at_spec s tile j row t :
  zlookup (m_thread_state s) tile = Some row → zlookup row j = Some t →
  thread_at tile j s = Ok (t, s).
Proof.
  intros H1 H2. unfold thread_at, gets, lift, mbind, M_bind, vget. cbn.
  rewrite H1. cbn. by rewrite H2.
Qed.

Lemma zlookup_zinsert {A} (l : list A) i x k y :
  zlookup (zinsert i x l) k = Some y →
  (k = i ∧ y = x ∧ 0 ≤ i < zlength l) ∨ (k ≠ i ∧ zlookup l k = Some y).
Proof.
  intros H. destruct (decide (k = i)) as [->|]; [left|right].
  - pose proof H as [Hr _]%zlookup_Some. rewrite zlength_zinsert in Hr.
    rewrite zlookup_zinsert_eq in H by done. naive_solver.
  - by rewrite zlookup_zinsert_ne in H.
Qed.

Lemma one_running_zinsert row j t :
  one_running row → (running t → ∀ k u, k ≠ j → zlookup row k = Some u → ¬ running u) →
  one_running (zinsert j t row).
Proof.
  intros H1 H2 i k u v Hi Hk Hu Hv.
  assert (zlookup (zinsert j t row) (Z.of_nat i) = Some u) as Hi' by (rewrite zlookup_nat by lia; by rewrite Nat2Z.id).
  assert (zlookup (zinsert j t row) (Z.of_nat k) = Some v) as Hk' by (rewrite zlookup_nat by lia; by rewrite Nat2Z.id).
  destruct (zlookup_zinsert _ _ _ _ _ Hi') as [(Ei & -> & _)|[Ei Li]];
    destruct (zlookup_zinsert _ _ _ _ _ Hk') as [(Ek & -> & _)|[Ek Lk]].
  - lia.
  - by destruct (H2 Hu _ _ Ek Lk).
  - by destruct (H2 Hv _ _ Ei Li).
  - apply zlookup_Some in Li as [_ Li], Lk as [_ Lk]. rewrite Nat2Z.id in Li, Lk. by eapply H1.
Qed.

Lemma threads_wf_status s tile j st row t :
  threads_wf s → zlookup (m_thread_state s) tile = Some row → zlookup row j = Some t →
  (st = Core.RUNNING → quiet s tile) →
  threads_wf (with_status tile j st row t s).
Proof.
  intros [W1 W2] H1 H2 Hq. split; [|cbn; by rewrite zlength_zinsert].
  cbn. intros i r [(-> & -> & _)|[_ Hr]]%zlookup_zinsert; [|by eapply W1].
  apply one_running_zinsert; [by eapply W1|]. unfold running at 1. cbn. intros ->.
  destruct (Hq eq_refl) as (row' & Hr' & HF). simplify_eq.
  intros k u _ [_ Hk]%zlookup_Some. rewrite Forall_lookup in HF. by eapply HF.
Qed.

Lemma only_tile_signal tile s s1 s' :
  only_tile tile s s1 → m_sent s1 = m_sent s → signal_effect s1 s' → only_tile tile s s'.
Proof.
  intros [H1 H2 H3 H4 _] Hsent (srv & l & st & ->)%signal_effect_frame.
  constructor; [done..|]. exists l. cbn. by rewrite Hsent.
Qed.

Lemma signal_effect_threads s s' :
  signal_effect s s' →
  m_thread_state s' = m_thread_state s ∧ m_last_stalled_thread s' = m_last_stalled_thread s.
Proof. by intros (srv & l & st & ->)%signal_effect_frame. Qed.

Lemma stallThread_at_spec s tile j row t :
  mcp_wf s → zlookup (m_thread_state s) tile = Some row → zlookup row j = Some t →
  ∃ s', stallThread_at tile j s = Ok (tt, s') ∧ mcp_wf s' ∧ only_tile tile s s' ∧
    zlookup (m_thread_state s') tile = Some (zinsert j (t <| status := Core.STALLED |>) row) ∧
    zlookup (m_last_stalled_thread s') tile = Some j ∧
    signal_effect (with_status tile j Core.STALLED row t s
                     <| m_last_stalled_thread := zinsert tile j (m_last_stalled_thread s) |>) s'.
Proof.
  intros [WT WB] H1 H2.
  pose proof (zlookup_Some _ _ _ H1) as [Ht _]. pose proof (zlookup_Some _ _ _ H2) as [Hj _].
  set (s1 := with_status tile j Core.STALLED row t s
               <| m_last_stalled_thread := zinsert tile j (m_last_stalled_thread s) |>).
  pose proof (wf_stalled _ WT) as Hst.
  assert (mcp_wf s1) as W1.
  { split.
    - destruct (threads_wf_status s tile j Core.STALLED row t WT H1 H2) as [W1 W2]; [done|].
      split; [done|]. cbn in *. by rewrite !zlength_zinsert in *.
    - cbn. rewrite zlength_zinsert. done. }
  destruct (signal_server_spec s1 W1) as (s' & E & Heff).
  destruct (signal_effect_threads _ _ Heff) as [Ets Els].
  exists s'. split_and!.
  - unfold stallThread_at, mbind at 1, M_bind at 1. rewrite (set_thread_spec _ _ _ _ _ _ H1 H2).
    unfold gets, lift, mbind at 1 2, M_bind at 1 2, vset. cbn -[signal_server].
    replace ((0 <=? tile) && (tile <? zlength (m_last_stalled_thread s))) with true; [exact E|].
    symmetry. apply andb_true_iff. rewrite Z.leb_le, Z.ltb_lt. lia.
  - by eapply signal_effect_wf.
  - apply (only_tile_signal tile s s1); [|done|exact Heff]. constructor; cbn.
    + intros i Hi. by rewrite zlookup_zinsert_ne.
    + intros i Hi. by rewrite zlookup_zinsert_ne.
    + by rewrite zlength_zinsert.
    + done.
    + exists []. by rewrite app_nil_r.
  - rewrite Ets. cbn. by rewrite zlookup_zinsert_eq.
  - rewrite Els. cbn. rewrite zlookup_zinsert_eq; [done|lia].
  - exact Heff.
Qed.

Lemma quiet_after_stall s tile j row t :
  threads_wf s → zlookup (m_thread_state s) tile = Some row → zlookup row j = Some t → running t →
  Forall (λ t, ¬ running t) (zinsert j (t <| status := Core.STALLED |>) row).
Proof.
  intros WT H1 H2 Hr. apply Forall_lookup. intros i u Hu Hru.
  assert (zlookup (zinsert j (t <| status := Core.STALLED |>) row) (Z.of_nat i) = Some u) as Hu'
    by (rewrite zlookup_nat by lia; by rewrite Nat2Z.id).
  apply zlookup_zinsert in Hu' as [(_ & -> & _)|[Hne Hi]]; [done|].
  apply zlookup_Some in Hi as [_ Hi], H2 as [Hj0 H2]. rewrite Nat2Z.id in Hi.
  pose proof (wf_rows _ WT _ _ H1 i (Z.to_nat j) u t Hi H2 Hru Hr). lia.
Qed.

(** A running core stalls its thread. *)
Lemma stallThread_spec s core j :
  mcp_wf s → isMainCore core = true → runs_on s (tile_id core) j →
  ∃ s', stallThread core s = Ok (tt, s') ∧ mcp_wf s' ∧ only_tile (tile_id core) s s' ∧
    blocked s' (tile_id core).
Proof.
  intros W Hm Hr. pose proof W as [WT _]. pose proof Hr as (row & t & H1 & H2 & Ht).
  pose proof (zlookup_Some _ _ _ H1) as [Hlen _]. pose proof (zlookup_Some _ _ _ H2) as [Hj0 _].
  unfold stallThread, isCoreRunning_core, stallThread_core. rewrite Hm.
  unfold mbind, M_bind. destruct (isCoreRunning_spec s (tile_id core) WT Hlen) as [[Hq _]|(k & Hk & Hrk & ->)].
  { by destruct (quiet_not_running _ _ _ Hq Hr). }
  replace (k =? INVALID_THREAD_ID) with false by (symmetry; apply Z.eqb_neq; unfold INVALID_THREAD_ID; lia).
  destruct Hrk as (row' & u & ? & H2' & Hu). simplify_eq.
  destruct (stallThread_at_spec s (tile_id core) k row u W H1 H2') as (s' & -> & W' & Ho & Hrow & Hlast & _).
  pose proof (zlookup_Some _ _ _ H2') as [Hk' _].
  exists s'. split_and!; [done..|]. split.
  - eexists. split; [done|]. by eapply quiet_after_stall.
  - exists k, (zinsert k (u <| status := Core.STALLED |>) row), (u <| status := Core.STALLED |>).
    split_and!; [done|lia|done|by apply zlookup_zinsert_eq|done].
Qed.

Lemma resumeThread_at_spec s tile j row t :
  mcp_wf s → zlookup (m_thread_state s) tile = Some row → zlookup row j = Some t → quiet s tile →
  resumeThread_at tile j s = Ok (tt, with_status tile j Core.RUNNING row t s) ∧
  mcp_wf (with_status tile j Core.RUNNING row t s) ∧
  only_tile tile s (with_status tile j Core.RUNNING row t s) ∧
  runs_on (with_status tile j Core.RUNNING row t s) tile j.
Proof.
  intros [WT WB] H1 H2 Hq.
  pose proof (zlookup_Some _ _ _ H1) as [Hlen _]. pose proof (zlookup_Some _ _ _ H2) as [Hj0 _].
  split_and!.
  - unfold resumeThread_at, mbind, M_bind. rewrite (thread_at_spec _ _ _ _ _ H1 H2).
    rewrite bool_decide_eq_true_2.
    + cbn -[set_thread]. by rewrite (set_thread_spec _ _ _ _ _ _ H1 H2).
    + intros Hr. apply (quiet_not_running s tile j Hq). by exists row, t.
  - split; [by apply threads_wf_status|]. cbn. by rewrite zlength_zinsert.
  - constructor; cbn; [|done|by rewrite zlength_zinsert|done|exists []; by rewrite app_nil_r].
    intros i Hi. by rewrite zlookup_zinsert_ne.
  - exists (zinsert j (t <| status := Core.RUNNING |>) row), (t <| status := Core.RUNNING |>).
    split_and!; [by apply zlookup_zinsert_eq..|done].
Qed.

(** A waiting core resumes its thread. *)
Lemma resumeThread_spec s core :
  mcp_wf s → isMainCore core = true → blocked s (tile_id core) →
  ∃ s' j, resumeThread core s = Ok (tt, s') ∧ mcp_wf s' ∧ only_tile (tile_id core) s s' ∧
    runs_on s' (tile_id core) j ∧ m_sent s' = m_sent s.
Proof.
  intros W Hm [Hq (j & row & t & Hl & Hj & H1 & H2 & _)].
  destruct (resumeThread_at_spec s (tile_id core) j row t W H1 H2 Hq) as (E & W' & Ho & Hr).
  eexists _, j. split_and!; [|done..]. unfold resumeThread. rewrite Hm.
  unfold gets, lift, assert, mbind, M_bind, vget. cbn -[resumeThread_at]. rewrite Hl. cbn -[resumeThread_at].
  replace (j =? INVALID_THREAD_ID) with false by (symmetry; apply Z.eqb_neq; unfold INVALID_THREAD_ID; lia).
  exact E.
Qed.

(** ** The initial state *)

Lemma zlookup_replicate {A} n (x y : A) i : zlookup (replicate n x) i = Some y → y = x.
Proof. intros [_ H]%zlookup_Some. by apply lookup_replicate in H as [? _]. Qed.

Lemma make_barrier_wf quantum tiles n :
  0 < quantum ≤ clock_bound → 0 ≤ n ≤ tiles → barrier_wf tiles (make_barrier quantum n).
Proof.
  intros Hq Hn. assert (u64 quantum = quantum) as E by (apply u64_small; unfold clock_bound in *; lia).
  assert (∀ A (x : A), zlength (replicate (Z.to_nat n) x) = n) as Hlen.
  { intros A x. unfold zlength. rewrite length_replicate. lia. }
  constructor; cbn; rewrite ?E, ?Hlen; [done|lia|lia|done|done| |].
  - intros i c Hc. apply zlookup_replicate in Hc as ->. unfold clock_bound. lia.
  - intros i c Hc. apply zlookup_replicate in Hc as ->. unfold waits. cbn.
    split; [|lia]. intros Hw. by apply zlookup_replicate in Hw.
Qed.

(** At the start only first threads run. *)
Definition first_only (table : list (list ThreadState)) : Prop :=
  ∀ tile row i t, zlookup table tile = Some row → row !! i = Some t → running t → i = 0%nat.

Lemma start_first_thread_spec table tile table' :
  start_first_thread table tile = Ok table' → first_only table → first_only table' ∧ zlength table' = zlength table.
Proof.
  unfold start_first_thread. intros H HF. run_inv.
  apply (vget_Ok "m_thread_state" table) in H. split; [|by rewrite zlength_zinsert].
  intros i row j t [(-> & -> & _)|[_ Hr]]%zlookup_zinsert Hj Hrun; [|by eapply HF].
  assert (zlookup (zinsert 0 (x0 <| status := Core.RUNNING |>) x) (Z.of_nat j) = Some t) as Hz
    by (rewrite zlookup_nat by lia; by rewrite Nat2Z.id).
  apply zlookup_zinsert in Hz as [(Hj0 & _)|[_ Hz]]; [lia|].
  apply zlookup_Some in Hz as [_ Hz]. rewrite Nat2Z.id in Hz. by eapply HF.
Qed.

Lemma start_all_spec l : ∀ (r : res (list (list ThreadState))) table,
  foldl (λ acc tile, acc ≫= λ table, start_first_thread table tile) r l = Ok table →
  ∃ t, r = Ok t ∧ (first_only t → first_only table ∧ zlength table = zlength t).
Proof.
  induction l as [|tile l IH]; intros r table Hr; [by exists table|].
  apply IH in Hr as (t1 & H1 & Ht1). run_inv. exists x. split; [done|]. intros HF.
  destruct (start_first_thread_spec _ _ _ H0 HF) as [HF1 HL1].
  destruct (Ht1 HF1) as [HF2 HL2]. by rewrite HL2.
Qed.

Lemma mcp_make_wf c rr server st s :
  make c rr server st = Ok s →
  (∀ b, server = Some b → barrier_wf (SysConfig.getTotalTiles c) b) → 0 ≤ SysConfig.getTotalTiles c → mcp_wf s.
Proof.
  unfold make. intros H Hb Hn. run_inv.
  set (n := Z.to_nat (SysConfig.getTotalTiles c)) in *.
  apply start_all_spec in H as (t & Et & Ht). injection Et as <-. destruct Ht as [HF HL].
  { intros tile row i u [_ Hrow]%zlookup_Some Hi Hr. apply list_lookup_fmap_Some in Hrow as (k & -> & _).
    by apply list_lookup_fmap_Some in Hi as (k' & -> & _). }
  assert (zlength x = SysConfig.getTotalTiles c) as Hx.
  { rewrite HL. unfold zlength. rewrite length_fmap, length_seqZ. lia. }
  split; [split|]; cbn.
  - intros tile row Hrow i j u v Hi Hj Hu Hv. rewrite (HF _ _ _ _ Hrow Hi Hu), (HF _ _ _ _ Hrow Hj Hv). done.
  - rewrite Hx. unfold zlength. rewrite length_replicate. unfold n. lia.
  - intros b Hs. rewrite Hx. by apply Hb.
Qed.
