(* ===== verification/Packetize.v ===== *)
(** * Packetize: the buffers of requests and replies

    Models misc/packetize.{h,cc}: values are appended to a string of bytes and
    taken from its front.  Scalars are stored least significant byte first, as
    on the x86 targets of the simulator. *)
From S2P Require Import Prelude.

Module UnstructuredBuffer.

(** [m_chars]. *)
Definition UnstructuredBuffer : Type := list Z.

Fixpoint bytes_of (n : nat) (x : Z) : list Z :=
  match n with O => [] | S n => x `mod` 256 :: bytes_of n (x `div` 256) end.
Fixpoint of_bytes (l : list Z) : Z :=
  match l with [] => 0 | b :: l => b + 256 * of_bytes l end.

Definition clear : UnstructuredBuffer := [].
Definition size (b : UnstructuredBuffer) : Z := s32 (zlength b).

(** [put] and [get] of [num] bytes. *)
Definition put_bytes (data : list Z) (b : UnstructuredBuffer) : UnstructuredBuffer := b ++ data.
Definition get_bytes (num : Z) (b : UnstructuredBuffer) : option (list Z * UnstructuredBuffer) :=
  if zlength b <? num then None else Some (take (Z.to_nat num) b, drop (Z.to_nat num) b).

(** Of a scalar of [n] bytes. *)
Definition put (n : nat) (x : Z) (b : UnstructuredBuffer) : UnstructuredBuffer := put_bytes (bytes_of n x) b.
Definition get (n : nat) (b : UnstructuredBuffer) : option (Z * UnstructuredBuffer) :=
  r ← get_bytes (Z.of_nat n) b ; Some (of_bytes (fst r), snd r).

(** [operator>>] asserts that the buffer holds the value. *)
Definition read {A} (convert : Z → A) (n : nat) (b : UnstructuredBuffer) : res (A * UnstructuredBuffer) :=
  match get n b with
  | Some (x, b) => Ok (convert x, b)
  | None => Fail (EAssert "UnstructuredBuffer::operator>>")
  end.
Definition read_s32 : UnstructuredBuffer → res (Z * UnstructuredBuffer) := read s32 4.
Definition read_u32 : UnstructuredBuffer → res (Z * UnstructuredBuffer) := read id 4.
Definition read_u64 : UnstructuredBuffer → res (Z * UnstructuredBuffer) := read id 8.
Definition read_buffer (size : Z) (b : UnstructuredBuffer) : res (list Z * UnstructuredBuffer) :=
  check (0 <=? size) (EAssert "UnstructuredBuffer::operator>>") ;;
  of_option (get_bytes size b) (EAssert "UnstructuredBuffer::operator>>").

(** ** Lemmas *)

Lemma length_bytes_of n x : length (bytes_of n x) = n.
Proof. revert x. induction n as [|n IH]; intros x; [done|]. cbn. by rewrite IH. Qed.

Lemma of_bytes_of n : ∀ x, of_bytes (bytes_of n x) = x `mod` 256 ^ Z.of_nat n.
Proof.
  induction n as [|n IH]; intros x; [cbn; by rewrite Z.mod_1_r|].
  cbn [bytes_of of_bytes]. rewrite IH, Nat2Z.inj_succ, Z.pow_succ_r by lia.
  rewrite Z.rem_mul_r by (try apply Z.pow_nonzero; lia). lia.
Qed.

Lemma get_put n x l : get n (bytes_of n x ++ l) = Some (x `mod` 256 ^ Z.of_nat n, l).
Proof.
  unfold get, get_bytes. pose proof (length_bytes_of n x) as Hn.
  replace (zlength (bytes_of n x ++ l) <? Z.of_nat n) with false.
  - cbn. rewrite Nat2Z.id, take_app_length', drop_app_length' by done. by rewrite of_bytes_of.
  - symmetry. apply Z.ltb_ge. unfold zlength. rewrite length_app. lia.
Qed.

(** A value that fits its type is read back. *)
Lemma read_s32_put x l :
  -2147483648 ≤ x < 2147483648 → read_s32 (bytes_of 4 x ++ l) = Ok (x, l).
Proof.
  intros H. unfold read_s32, read. rewrite get_put. do 2 f_equal.
  change (256 ^ Z.of_nat 4) with (2 ^ 32). unfold s32, sint.
  rewrite Zplus_mod_idemp_l. by apply (sint_small 32).
Qed.
Lemma read_u32_put x l : 0 ≤ x < 4294967296 → read_u32 (bytes_of 4 x ++ l) = Ok (x, l).
Proof. intros H. unfold read_u32, read. rewrite get_put. do 2 f_equal. by apply Z.mod_small. Qed.
Lemma read_u64_put x l : 0 ≤ x < 18446744073709551616 → read_u64 (bytes_of 8 x ++ l) = Ok (x, l).
Proof. intros H. unfold read_u64, read. rewrite get_put. do 2 f_equal. by apply Z.mod_small. Qed.

End UnstructuredBuffer.
