(* ===== verification/SyncServer.v ===== *)
(** * SyncServer: mutexes, condition variables and barriers of the application

    Models system/sync_server.{h,cc} and the requests of system/sync_client.cc.
    The server runs in the master control process: it stalls and resumes the
    threads of the cores that wait. *)
From S2P Require Import Prelude ThreadManager Packetize.

(** ** Vectors that destroy their elements

    [push_back] on a full [std::vector] copies the elements to new storage and
    runs the destructors of the old ones. *)
Record vector (A : Type) := mkVector { elems : list A; capacity : Z }.
Arguments mkVector {A}.
Arguments elems {A}.
Arguments capacity {A}.

Definition empty_vector {A} : vector A := mkVector [] 0.
Definition push_back {A} (destroy : A → res unit) (x : A) (v : vector A) : res (vector A) :=
  if zlength (elems v) <? capacity v then Ok (mkVector (elems v ++ [x]) (capacity v))
  else
    foldl (λ done e, done ;; destroy e) (Ok tt) (elems v) ;;
    Ok (mkVector (elems v ++ [x]) (zlength (elems v) + Z.max (zlength (elems v)) 1)).

Module SyncServer.

Record SimMutex := mkSimMutex { mutex_waiting : list core_id_t; m_owner : core_id_t }.
#[global] Instance eta_SimMutex : Eta SimMutex := λ m, mkSimMutex (mutex_waiting m) (m_owner m).

(** [m_mutex] is a [StableIterator]: the index of the mutex. *)
Record CondWaiter := mkCondWaiter { m_core_id : core_id_t; m_mutex : Z; m_arrival_time : Z }.
Record SimCond := mkSimCond { cond_waiting : list CondWaiter }.

Record SimBarrier := mkSimBarrier { barrier_waiting : list core_id_t; m_count : Z; m_max_time : Z }.
#[global] Instance eta_SimBarrier : Eta SimBarrier := λ b,
  mkSimBarrier (barrier_waiting b) (m_count b) (m_max_time b).

Record SyncServer := mkSyncServer {
  m_mcp : Mcp.Mcp;
  m_mutexes : vector SimMutex;
  m_conds : vector SimCond;
  m_barriers : vector SimBarrier;
  m_recv_buffer : UnstructuredBuffer.UnstructuredBuffer
}.
#[global] Instance eta_SyncServer : Eta SyncServer := λ s, mkSyncServer
  (m_mcp s) (m_mutexes s) (m_conds s) (m_barriers s) (m_recv_buffer s).

Definition make (mcp : Mcp.Mcp) : SyncServer :=
  mkSyncServer mcp empty_vector empty_vector empty_vector UnstructuredBuffer.clear.

Definition new_mutex : SimMutex := mkSimMutex [] INVALID_CORE_ID.
Definition destroy_mutex (m : SimMutex) : res unit :=
  check (bool_decide (mutex_waiting m = [])) (EAssert "SimMutex::~SimMutex").
Definition new_cond : SimCond := mkSimCond [].
Definition destroy_cond (c : SimCond) : res unit :=
  match cond_waiting c with [] => Ok tt | _ => Fail (EAssert "SimCond::~SimCond") end.
Definition new_barrier (count : Z) : SimBarrier := mkSimBarrier [] count 0.
Definition destroy_barrier (b : SimBarrier) : res unit :=
  check (bool_decide (barrier_waiting b = [])) (EAssert "SimBarrier::~SimBarrier").

(** ** Access to the parts of the state *)

Definition thread_manager {A} (m : M Mcp.Mcp A) : M SyncServer A :=
  zoom m_mcp (λ t s, s <| m_mcp := t |>) m.
Definition netSend (receiver : core_id_t) (msg : Message) : M SyncServer unit :=
  thread_manager (Mcp.netSend receiver msg).

(** [m_recv_buffer >> x]. *)
Definition recv {A} (rd : UnstructuredBuffer.UnstructuredBuffer → res (A * UnstructuredBuffer.UnstructuredBuffer))
    : M SyncServer A := λ s,
  match rd (m_recv_buffer s) with
  | Ok (x, b) => Ok (x, s <| m_recv_buffer := b |>)
  | Fail e => Fail e
  end.

Definition mutex_at (mux : Z) : M SyncServer SimMutex :=
  s ← gets id ; lift (vget "m_mutexes" (elems (m_mutexes s)) mux).
Definition set_mutex (mux : Z) (m : SimMutex) : M SyncServer unit :=
  modify (λ s, s <| m_mutexes := mkVector (zinsert mux m (elems (m_mutexes s))) (capacity (m_mutexes s)) |>).
Definition cond_at (cond : Z) : M SyncServer SimCond :=
  s ← gets id ; lift (vget "m_conds" (elems (m_conds s)) cond).
Definition set_cond (cond : Z) (c : SimCond) : M SyncServer unit :=
  modify (λ s, s <| m_conds := mkVector (zinsert cond c (elems (m_conds s))) (capacity (m_conds s)) |>).
Definition barrier_at (barrier : Z) : M SyncServer SimBarrier :=
  s ← gets id ; lift (vget "m_barriers" (elems (m_barriers s)) barrier).
Definition set_barrier (barrier : Z) (b : SimBarrier) : M SyncServer unit :=
  modify (λ s, s <| m_barriers := mkVector (zinsert barrier b (elems (m_barriers s))) (capacity (m_barriers s)) |>).

(** ** The objects *)

(** [SimMutex::lock]: whether the core owns the lock now. *)
Definition lock (mux : Z) (core_id : core_id_t) : M SyncServer bool :=
  m ← mutex_at mux ;
  if tile_id (m_owner m) =? INVALID_TILE_ID then
    set_mutex mux (m <| m_owner := core_id |>) ;;
    mret true
  else
    thread_manager (Mcp.stallThread core_id) ;;
    set_mutex mux (m <| mutex_waiting := mutex_waiting m ++ [core_id] |>) ;;
    mret false.

(** [SimMutex::unlock]: the next owner. *)
Definition unlock (mux : Z) (core_id : core_id_t) : M SyncServer core_id_t :=
  m ← mutex_at mux ;
  assert ((tile_id (m_owner m) =? tile_id core_id) && (core_type (m_owner m) =? core_type core_id))
    "SimMutex::unlock" ;;
  match mutex_waiting m with
  | [] => set_mutex mux (m <| m_owner := INVALID_CORE_ID |>) ;; mret INVALID_CORE_ID
  | next :: waiting =>
    set_mutex mux (mkSimMutex waiting next) ;;
    thread_manager (Mcp.resumeThread next) ;;
    mret next
  end.

(** [SimCond::wait]. *)
Definition wait_on (cond mux : Z) (core_id : core_id_t) (time : Z) : M SyncServer core_id_t :=
  thread_manager (Mcp.stallThread core_id) ;;
  c ← cond_at cond ;
  set_cond cond (mkSimCond (cond_waiting c ++ [mkCondWaiter core_id mux time])) ;;
  unlock mux core_id.

(** [SimCond::signal]: the woken core that has its mutex. *)
Definition signal (cond : Z) : M SyncServer core_id_t :=
  c ← cond_at cond ;
  match cond_waiting c with
  | [] => mret INVALID_CORE_ID
  | woken :: waiting =>
    set_cond cond (mkSimCond waiting) ;;
    thread_manager (Mcp.resumeThread (m_core_id woken)) ;;
    got ← lock (m_mutex woken) (m_core_id woken) ;
    mret (if (got : bool) then m_core_id woken else INVALID_CORE_ID)
  end.

(** [SimCond::broadcast]: the woken cores that have their mutex. *)
Fixpoint wake_all (l : list CondWaiter) (woken_list : list core_id_t) : M SyncServer (list core_id_t) :=
  match l with
  | [] => mret woken_list
  | woken :: l =>
    thread_manager (Mcp.resumeThread (m_core_id woken)) ;;
    got ← lock (m_mutex woken) (m_core_id woken) ;
    wake_all l (if (got : bool) then woken_list ++ [m_core_id woken] else woken_list)
  end.
Definition broadcast (cond : Z) : M SyncServer (list core_id_t) :=
  c ← cond_at cond ;
  woken_list ← wake_all (cond_waiting c) [] ;
  set_cond cond (mkSimCond []) ;;
  mret woken_list.

(** [SimBarrier::wait]: the cores to wake up, when all have arrived. *)
Definition barrier_wait (barrier : Z) (core_id : core_id_t) (time : Z) : M SyncServer (list core_id_t) :=
  b ← barrier_at barrier ;
  let waiting := barrier_waiting b ++ [core_id] in
  set_barrier barrier (b <| barrier_waiting := waiting |>) ;;
  thread_manager (Mcp.stallThread core_id) ;;
  assert (zlength waiting <=? m_count b) "SimBarrier::wait" ;;
  let max_time := if (zlength waiting =? 1) || (time >? m_max_time b) then time else m_max_time b in
  set_barrier barrier (mkSimBarrier waiting (m_count b) max_time) ;;
  if zlength waiting =? m_count b then
    mfor waiting (λ c, thread_manager (Mcp.resumeThread c)) ;;
    set_barrier barrier (mkSimBarrier [] (m_count b) max_time) ;;
    mret waiting
  else mret [].

(** ** The handlers of the server

    Each unpacks its arguments; [_with] is the rest of the handler. *)

Definition MUTEX_LOCK_RESPONSE : Z := 3735928559.
Definition MUTEX_UNLOCK_RESPONSE : Z := 3133065982.
Definition COND_WAIT_RESPONSE : Z := MUTEX_LOCK_RESPONSE.
Definition COND_SIGNAL_RESPONSE : Z := 3203386110.
Definition COND_BROADCAST_RESPONSE : Z := 3735931646.
Definition BARRIER_WAIT_RESPONSE : Z := 3402287870.

Definition valid (core_id : core_id_t) : bool := negb (tile_id core_id =? INVALID_TILE_ID).

Definition mutexInit (core_id : core_id_t) : M SyncServer unit :=
  s ← gets id ;
  v ← lift (push_back destroy_mutex new_mutex (m_mutexes s)) ;
  modify (λ s, s <| m_mutexes := v |>) ;;
  netSend core_id (SyncId (u32 (zlength (elems v) - 1))).

Definition mutexLock_with (core_id : core_id_t) (mux time : Z) : M SyncServer unit :=
  s ← gets id ;
  (if u64 mux <? zlength (elems (m_mutexes s)) then skip else fail (ELog "SyncServer::mutexLock")) ;;
  got ← lock mux core_id ;
  when got (netSend core_id (SyncReply MUTEX_LOCK_RESPONSE time)).
Definition mutexLock (core_id : core_id_t) : M SyncServer unit :=
  mux ← recv UnstructuredBuffer.read_s32 ;
  time ← recv UnstructuredBuffer.read_u64 ;
  mutexLock_with core_id mux time.

Definition mutexUnlock_with (core_id : core_id_t) (mux time : Z) : M SyncServer unit :=
  s ← gets id ;
  assert (u64 mux <? zlength (elems (m_mutexes s))) "SyncServer::mutexUnlock" ;;
  new_owner ← unlock mux core_id ;
  when (valid new_owner) (netSend new_owner (SyncReply MUTEX_LOCK_RESPONSE time)) ;;
  netSend core_id (SyncAck MUTEX_UNLOCK_RESPONSE).
Definition mutexUnlock (core_id : core_id_t) : M SyncServer unit :=
  mux ← recv UnstructuredBuffer.read_s32 ;
  time ← recv UnstructuredBuffer.read_u64 ;
  mutexUnlock_with core_id mux time.

Definition condInit (core_id : core_id_t) : M SyncServer unit :=
  s ← gets id ;
  v ← lift (push_back destroy_cond new_cond (m_conds s)) ;
  modify (λ s, s <| m_conds := v |>) ;;
  netSend core_id (SyncId (u32 (zlength (elems v) - 1))).

Definition condWait_with (core_id : core_id_t) (cond mux time : Z) : M SyncServer unit :=
  s ← gets id ;
  assert (u64 mux <? zlength (elems (m_mutexes s))) "SyncServer::condWait" ;;
  assert (u64 cond <? zlength (elems (m_conds s))) "SyncServer::condWait" ;;
  new_mutex_owner ← wait_on cond mux core_id time ;
  when (valid new_mutex_owner) (netSend new_mutex_owner (SyncReply MUTEX_LOCK_RESPONSE time)).
Definition condWait (core_id : core_id_t) : M SyncServer unit :=
  cond ← recv UnstructuredBuffer.read_s32 ;
  mux ← recv UnstructuredBuffer.read_s32 ;
  time ← recv UnstructuredBuffer.read_u64 ;
  condWait_with core_id cond mux time.

Definition condSignal_with (core_id : core_id_t) (cond time : Z) : M SyncServer unit :=
  s ← gets id ;
  assert (u64 cond <? zlength (elems (m_conds s))) "SyncServer::condSignal" ;;
  woken ← signal cond ;
  when (valid woken) (netSend woken (SyncReply MUTEX_LOCK_RESPONSE time)) ;;
  netSend core_id (SyncAck COND_SIGNAL_RESPONSE).
Definition condSignal (core_id : core_id_t) : M SyncServer unit :=
  cond ← recv UnstructuredBuffer.read_s32 ;
  time ← recv UnstructuredBuffer.read_u64 ;
  condSignal_with core_id cond time.

Definition condBroadcast_with (core_id : core_id_t) (cond time : Z) : M SyncServer unit :=
  s ← gets id ;
  assert (u64 cond <? zlength (elems (m_conds s))) "SyncServer::condBroadcast" ;;
  woken_list ← broadcast cond ;
  mfor woken_list (λ c,
    assert (valid c) "SyncServer::condBroadcast" ;;
    netSend c (SyncReply MUTEX_LOCK_RESPONSE time)) ;;
  netSend core_id (SyncAck COND_BROADCAST_RESPONSE).
Definition condBroadcast (core_id : core_id_t) : M SyncServer unit :=
  cond ← recv UnstructuredBuffer.read_s32 ;
  time ← recv UnstructuredBuffer.read_u64 ;
  condBroadcast_with core_id cond time.

Definition barrierInit_with (core_id : core_id_t) (count : Z) : M SyncServer unit :=
  s ← gets id ;
  v ← lift (push_back destroy_barrier (new_barrier count) (m_barriers s)) ;
  modify (λ s, s <| m_barriers := v |>) ;;
  netSend core_id (SyncId (u32 (zlength (elems v) - 1))).
Definition barrierInit (core_id : core_id_t) : M SyncServer unit :=
  count ← recv UnstructuredBuffer.read_u32 ;
  barrierInit_with core_id count.

Definition barrierWait_with (core_id : core_id_t) (barrier time : Z) : M SyncServer unit :=
  s ← gets id ;
  (if barrier <? s32 (zlength (elems (m_barriers s))) then skip else fail (ELog "SyncServer::barrierWait")) ;;
  woken_list ← barrier_wait barrier core_id time ;
  b ← barrier_at barrier ;
  mfor woken_list (λ c,
    assert (valid c) "SyncServer::barrierWait" ;;
    netSend c (SyncReply BARRIER_WAIT_RESPONSE (m_max_time b))).
Definition barrierWait (core_id : core_id_t) : M SyncServer unit :=
  barrier ← recv UnstructuredBuffer.read_s32 ;
  time ← recv UnstructuredBuffer.read_u64 ;
  barrierWait_with core_id barrier time.

(** ** Packets *)

(** The cases of [MCP::processPacket] that call the server. *)
Definition dispatch (m : McpMessage) (sender : core_id_t) : option (M SyncServer unit) :=
  match m with
  | MCP_MESSAGE_MUTEX_INIT => Some (mutexInit sender)
  | MCP_MESSAGE_MUTEX_LOCK => Some (mutexLock sender)
  | MCP_MESSAGE_MUTEX_UNLOCK => Some (mutexUnlock sender)
  | MCP_MESSAGE_COND_INIT => Some (condInit sender)
  | MCP_MESSAGE_COND_WAIT => Some (condWait sender)
  | MCP_MESSAGE_COND_SIGNAL => Some (condSignal sender)
  | MCP_MESSAGE_COND_BROADCAST => Some (condBroadcast sender)
  | MCP_MESSAGE_BARRIER_INIT => Some (barrierInit sender)
  | MCP_MESSAGE_BARRIER_WAIT => Some (barrierWait sender)
  | _ => None
  end.

(** The buffer of the master holds the packet; its type selects the handler. *)
Definition serve (sender : core_id_t) (data : list Z) : M SyncServer unit :=
  modify (λ s, s <| m_recv_buffer := UnstructuredBuffer.put_bytes data UnstructuredBuffer.clear |>) ;;
  msg_type ← recv UnstructuredBuffer.read_s32 ;
  match message_of msg_type ≫= λ m, dispatch m sender with
  | Some handler => handler
  | None => fail (ELog "Unhandled MCP message type")
  end.

End SyncServer.

(** ** The client: system/sync_client.cc *)
Module SyncClient.

(** The calls of the client; [start_time] is the core's clock in global
    cycles. *)
Inductive Request : Type :=
  | MutexInit
  | MutexLock (mux start_time : Z)
  | MutexUnlock (mux start_time : Z)
  | CondInit (cond start_time : Z)
  | CondWait (cond mux start_time : Z)
  | CondSignal (cond start_time : Z)
  | CondBroadcast (cond start_time : Z)
  | BarrierInit (count start_time : Z)
  | BarrierWait (barrier start_time : Z).

Definition msg_type (r : Request) : McpMessage :=
  match r with
  | MutexInit => MCP_MESSAGE_MUTEX_INIT
  | MutexLock _ _ => MCP_MESSAGE_MUTEX_LOCK
  | MutexUnlock _ _ => MCP_MESSAGE_MUTEX_UNLOCK
  | CondInit _ _ => MCP_MESSAGE_COND_INIT
  | CondWait _ _ _ => MCP_MESSAGE_COND_WAIT
  | CondSignal _ _ => MCP_MESSAGE_COND_SIGNAL
  | CondBroadcast _ _ => MCP_MESSAGE_COND_BROADCAST
  | BarrierInit _ _ => MCP_MESSAGE_BARRIER_INIT
  | BarrierWait _ _ => MCP_MESSAGE_BARRIER_WAIT
  end.

(** The bytes of [m_send_buff]. *)
Definition packet (r : Request) : list Z :=
  let put_s32 := UnstructuredBuffer.put 4 in
  let put_u64 := UnstructuredBuffer.put 8 in
  let head := put_s32 (code_of (msg_type r)) UnstructuredBuffer.clear in
  match r with
  | MutexInit => head
  | MutexLock x time | MutexUnlock x time | CondInit x time | CondSignal x time
  | CondBroadcast x time | BarrierInit x time | BarrierWait x time => put_u64 time (put_s32 x head)
  | CondWait cond mux time => put_u64 time (put_s32 mux (put_s32 cond head))
  end.

(** The bytes of the server's replies: an identifier, a response code, or the
    packed [Reply]. *)
Definition wire (m : Message) : list Z :=
  match m with
  | SyncId n | SyncAck n => UnstructuredBuffer.bytes_of 4 n
  | SyncReply dummy time => UnstructuredBuffer.bytes_of 4 dummy ++ UnstructuredBuffer.bytes_of 8 time
  | _ => []
  end.

(** What the client does with the reply to [mutexLock], [condWait] and
    [barrierWait]: the global cycles that the core has waited, if any, which
    become a [SyncInstruction]. *)
Definition timed_reply (expected start_time : Z) (pkt : list Z) : res (option Z) :=
  check (zlength pkt =? 12) (EAssert "SyncClient") ;;
  r ← UnstructuredBuffer.read_u32 (UnstructuredBuffer.put_bytes pkt UnstructuredBuffer.clear) ;
  check (fst r =? expected) (EAssert "SyncClient") ;;
  t ← UnstructuredBuffer.read_u64 (snd r) ;
  Ok (if fst t >? start_time then Some (fst t - start_time) else None).
(** The reply to [mutexUnlock], [condSignal] and [condBroadcast]. *)
Definition ack_reply (expected : Z) (pkt : list Z) : res unit :=
  check (zlength pkt =? 4) (EAssert "SyncClient") ;;
  r ← UnstructuredBuffer.read_u32 (UnstructuredBuffer.put_bytes pkt UnstructuredBuffer.clear) ;
  check (fst r =? expected) (EAssert "SyncClient").
(** The reply to the initialisations: the identifier of the object. *)
Definition id_reply (pkt : list Z) : res Z :=
  check (zlength pkt =? 4) (EAssert "SyncClient") ;;
  r ← UnstructuredBuffer.read_s32 pkt ;
  Ok (fst r).

End SyncClient.
