(* ===== verification/SyncServerProofs.v ===== *)
(** * SyncServerProofs: the invariant of the synchronisation server

    Every waiting core is in one queue and its thread is stalled; the operations
    of mutexes, condition variables and barriers keep this. *)
From S2P Require Import Prelude ThreadManager ThreadManagerProofs Packetize SyncServer.
Import SyncServer.

(** ** Queues *)

Inductive place : Type := PMutex (i : Z) | PCond (i : Z) | PBarrier (i : Z).
#[global] Instance place_eq_dec : EqDecision place.
Proof. solve_decision. Defined.

Definition queue_of (s : SyncServer) (p : place) : list core_id_t :=
  match p with
  | PMutex i => default [] (mutex_waiting <$> zlookup (elems (m_mutexes s)) i)
  | PCond i => default [] ((λ c, m_core_id <$> cond_waiting c) <$> zlookup (elems (m_conds s)) i)
  | PBarrier i => default [] (barrier_waiting <$> zlookup (elems (m_barriers s)) i)
  end.

Definition exclusive {P : Type} (q : P → list core_id_t) : Prop :=
  (∀ p, NoDup (q p)) ∧ (∀ p1 p2 c, c ∈ q p1 → c ∈ q p2 → p1 = p2).

Definition core_runs (s : Mcp.Mcp) (c : core_id_t) : Prop := ∃ j, runs_on s (tile_id c) j.
Definition core_blocked (s : Mcp.Mcp) (c : core_id_t) : Prop := blocked s (tile_id c).
Definition queued (s : SyncServer) (c : core_id_t) : Prop := ∃ p, c ∈ queue_of s p.

(** The cores that hold or want a mutex, in order: the owner first. *)
Definition holders (m : SimMutex) : list core_id_t :=
  if tile_id (m_owner m) =? INVALID_TILE_ID then [] else m_owner m :: mutex_waiting m.

Record sync_inv (s : SyncServer) : Prop := {
  inv_mcp : mcp_wf (m_mcp s);
  inv_exclusive : exclusive (queue_of s);
  inv_blocked : ∀ p c, c ∈ queue_of s p → isMainCore c = true ∧ core_blocked (m_mcp s) c;
  inv_free : ∀ i m, zlookup (elems (m_mutexes s)) i = Some m →
    tile_id (m_owner m) = INVALID_TILE_ID → mutex_waiting m = [];
  inv_cond : ∀ i c w, zlookup (elems (m_conds s)) i = Some c → w ∈ cond_waiting c →
    0 ≤ m_mutex w < zlength (elems (m_mutexes s));
  inv_barrier : ∀ i b, zlookup (elems (m_barriers s)) i = Some b →
    barrier_waiting b = [] ∨ zlength (barrier_waiting b) < m_count b;
  inv_sizes : zlength (elems (m_mutexes s)) < 2 ^ 31 ∧ zlength (elems (m_conds s)) < 2 ^ 31 ∧
    zlength (elems (m_barriers s)) < 2 ^ 31
}.

Lemma main_core_eq c d :
  isMainCore c = true → isMainCore d = true → tile_id c = tile_id d → c = d.
Proof.
  unfold isMainCore. intros Hc Hd E. breflect. destruct c, d; cbn in *. by subst.
Qed.

Lemma runs_not_blocked s c : core_runs s c → ¬ core_blocked s c.
Proof. intros [j H] [Hq _]. by eapply quiet_not_running. Qed.

Lemma running_not_queued s c : sync_inv s → core_runs (m_mcp s) c → ¬ queued s c.
Proof.
  intros I Hr [p Hp]. destruct (inv_blocked _ I _ _ Hp) as [_ Hb]. by destruct (runs_not_blocked _ _ Hr).
Qed.

Lemma runs_valid s c : core_runs s c → valid c = true.
Proof.
  intros [j (row & t & [? _]%zlookup_Some & _)]. unfold valid. apply negb_true_iff, Z.eqb_neq.
  unfold INVALID_TILE_ID. lia.
Qed.
Lemma blocked_valid s c : core_blocked s c → valid c = true.
Proof.
  intros [(row & [? _]%zlookup_Some & _) _]. unfold valid. apply negb_true_iff, Z.eqb_neq.
  unfold INVALID_TILE_ID. lia.
Qed.

Lemma exclusive_sublist {P : Type} (q q' : P → list core_id_t) :
  exclusive q → (∀ p, sublist (q' p) (q p)) → exclusive q'.
Proof.
  intros [H1 H2] Hs. split.
  - intros p. by eapply sublist_NoDup.
  - intros p1 p2 c Hc1 Hc2. apply (H2 p1 p2 c); [apply (elem_of_sublist _ _ _ Hc1 (Hs p1))|apply (elem_of_sublist _ _ _ Hc2 (Hs p2))].
Qed.

Lemma exclusive_enqueue `{EqDecision P} (q q' : P → list core_id_t) p c :
  exclusive q → (∀ p, c ∉ q p) → q' p = q p ++ [c] → (∀ p', p' ≠ p → q' p' = q p') → exclusive q'.
Proof.
  intros [H1 H2] Hc Hp Hne.
  assert (∀ p' d, d ∈ q' p' → d ∈ q p' ∨ (p' = p ∧ d = c)) as Hin.
  { intros p' d Hd. destruct (decide (p' = p)) as [->|Hn]; [|left; by rewrite <- Hne].
    rewrite Hp, elem_of_app, list_elem_of_singleton in Hd. naive_solver. }
  split.
  - intros p'. destruct (decide (p' = p)) as [->|Hn]; [|by rewrite Hne].
    rewrite Hp. apply NoDup_app. split_and!; [done| |apply NoDup_singleton].
    intros d Hd ->%list_elem_of_singleton. by destruct (Hc p).
  - intros p1 p2 d [Hd1|[-> ->]]%Hin [Hd2|[-> Ed]]%Hin; [by eapply H2| | |done].
    + subst. by destruct (Hc p1).
    + by destruct (Hc p2).
Qed.

(** ** Updates of the state *)

Definition with_mutex (mux : Z) (m : SimMutex) (s : SyncServer) : SyncServer :=
  s <| m_mutexes := mkVector (zinsert mux m (elems (m_mutexes s))) (capacity (m_mutexes s)) |>.
Definition with_cond (cond : Z) (c : SimCond) (s : SyncServer) : SyncServer :=
  s <| m_conds := mkVector (zinsert cond c (elems (m_conds s))) (capacity (m_conds s)) |>.
Definition with_sync_barrier (barrier : Z) (b : SimBarrier) (s : SyncServer) : SyncServer :=
  s <| m_barriers := mkVector (zinsert barrier b (elems (m_barriers s))) (capacity (m_barriers s)) |>.

Lemma default_zinsert {A B} (f : A → list B) l i x k y :
  zlookup l i = Some y →
  default [] (f <$> zlookup (zinsert i x l) k) = if decide (k = i) then f x else default [] (f <$> zlookup l k).
Proof.
  intros [Hi _]%zlookup_Some. case_decide as E; [subst|].
  - by rewrite zlookup_zinsert_eq.
  - by rewrite zlookup_zinsert_ne.
Qed.

Lemma queue_of_with_mutex s mux m m' p :
  zlookup (elems (m_mutexes s)) mux = Some m →
  queue_of (with_mutex mux m' s) p = if decide (p = PMutex mux) then mutex_waiting m' else queue_of s p.
Proof.
  intros H. destruct p as [i|i|i]; cbn; [|done..].
  rewrite (default_zinsert _ _ _ _ _ _ H). repeat case_decide; naive_solver.
Qed.
Lemma queue_of_with_cond s cond c c' p :
  zlookup (elems (m_conds s)) cond = Some c →
  queue_of (with_cond cond c' s) p
  = if decide (p = PCond cond) then m_core_id <$> cond_waiting c' else queue_of s p.
Proof.
  intros H. destruct p as [i|i|i]; cbn; [done| |done].
  rewrite (default_zinsert _ _ _ _ _ _ H). repeat case_decide; naive_solver.
Qed.
Lemma queue_of_with_barrier s barrier b b' p :
  zlookup (elems (m_barriers s)) barrier = Some b →
  queue_of (with_sync_barrier barrier b' s) p
  = if decide (p = PBarrier barrier) then barrier_waiting b' else queue_of s p.
Proof.
  intros H. destruct p as [i|i|i]; cbn; [done..|].
  rewrite (default_zinsert _ _ _ _ _ _ H). repeat case_decide; naive_solver.
Qed.

(** A queue that loses cores, or gains one whose thread is stalled. *)
Definition queue_change (s : SyncServer) (l l' : list core_id_t) : Prop :=
  sublist l' l ∨
  ∃ c, l' = l ++ [c] ∧ ¬ queued s c ∧ isMainCore c = true ∧ core_blocked (m_mcp s) c.

Lemma queue_change_inv s s' p l' :
  sync_inv s → m_mcp s' = m_mcp s → queue_change s (queue_of s p) l' →
  (∀ p', queue_of s' p' = if decide (p' = p) then l' else queue_of s p') →
  exclusive (queue_of s') ∧
  (∀ p c, c ∈ queue_of s' p → isMainCore c = true ∧ core_blocked (m_mcp s') c).
Proof.
  intros I Hm Hl Hq. pose proof (inv_blocked _ I) as Hb. rewrite Hm. destruct Hl as [Hs|(c & -> & Hc & Hmain & Hcb)].
  - assert (∀ p', sublist (queue_of s' p') (queue_of s p')) as Hsub.
    { intros p'. rewrite Hq. by case_decide; subst. }
    split; [by eapply exclusive_sublist; [apply inv_exclusive|]|].
    intros p' c Hc. eapply Hb, elem_of_sublist; [done|apply Hsub].
  - split.
    + eapply (exclusive_enqueue _ _ p c); [by apply inv_exclusive| | |].
      * intros p' ?. apply Hc. by exists p'.
      * by rewrite Hq, decide_True.
      * intros p' ?. by rewrite Hq, decide_False.
    + intros p' d. rewrite Hq. case_decide; [|by apply Hb].
      rewrite elem_of_app, list_elem_of_singleton. intros [?| ->]; [by eapply Hb|done].
Qed.

Lemma inv_with_mutex s mux m m' :
  sync_inv s → zlookup (elems (m_mutexes s)) mux = Some m →
  (tile_id (m_owner m') = INVALID_TILE_ID → mutex_waiting m' = []) →
  queue_change s (mutex_waiting m) (mutex_waiting m') →
  sync_inv (with_mutex mux m' s).
Proof.
  intros I Hm Hfree Hq.
  destruct (queue_change_inv s (with_mutex mux m' s) (PMutex mux) (mutex_waiting m') I) as [H1 H2]; [done| | |].
  { cbn. by rewrite Hm. }
  { intros p'. by rewrite (queue_of_with_mutex _ _ m). }
  destruct I as [? ? ? I4 I5 I6 I7]. constructor; [done..| | |done|]; cbn; rewrite ?zlength_zinsert; [|done..].
  intros i n [(-> & -> & _)|[_ Hn]]%zlookup_zinsert; [done|by apply (I4 i)].
Qed.

Lemma inv_with_cond s cond c c' :
  sync_inv s → zlookup (elems (m_conds s)) cond = Some c →
  (∀ w, w ∈ cond_waiting c' → 0 ≤ m_mutex w < zlength (elems (m_mutexes s))) →
  queue_change s (m_core_id <$> cond_waiting c) (m_core_id <$> cond_waiting c') →
  sync_inv (with_cond cond c' s).
Proof.
  intros I Hc Hw Hq.
  destruct (queue_change_inv s (with_cond cond c' s) (PCond cond) (m_core_id <$> cond_waiting c') I)
    as [H1 H2]; [done| | |].
  { cbn. by rewrite Hc. }
  { intros p'. by rewrite (queue_of_with_cond _ _ c). }
  destruct I as [? ? ? I4 I5 I6 I7]. constructor; [done..| |done|]; cbn; rewrite ?zlength_zinsert; [|done].
  intros i d w [(-> & -> & _)|[_ Hd]]%zlookup_zinsert; [apply Hw|by apply (I5 i)].
Qed.

Lemma inv_with_barrier s barrier b b' :
  sync_inv s → zlookup (elems (m_barriers s)) barrier = Some b →
  (barrier_waiting b' = [] ∨ zlength (barrier_waiting b') < m_count b') →
  queue_change s (barrier_waiting b) (barrier_waiting b') →
  sync_inv (with_sync_barrier barrier b' s).
Proof.
  intros I Hb Hw Hq.
  destruct (queue_change_inv s (with_sync_barrier barrier b' s) (PBarrier barrier) (barrier_waiting b') I)
    as [H1 H2]; [done| | |].
  { cbn. by rewrite Hb. }
  { intros p'. by rewrite (queue_of_with_barrier _ _ b). }
  destruct I as [? ? ? I4 I5 I6 I7]. constructor; [done..| |]; cbn; rewrite ?zlength_zinsert; [|done].
  intros i d [(-> & -> & _)|[_ Hd]]%zlookup_zinsert; [done|by apply (I6 i)].
Qed.

(** The thread of a core that is in no queue stalls or resumes. *)
Lemma inv_with_mcp s c mcp' :
  sync_inv s → isMainCore c = true → ¬ queued s c → mcp_wf mcp' →
  only_tile (tile_id c) (m_mcp s) mcp' → sync_inv (s <| m_mcp := mcp' |>).
Proof.
  intros [? I2 I3 I4 I5 I6 I7] Hm Hc W Ho. constructor; [done|exact I2| |done..].
  intros p d Hd. destruct (I3 p d Hd) as [Hdm Hdb]. split; [done|].
  unfold core_blocked. cbn. rewrite (only_tile_blocked _ _ _ _ Ho); [done|].
  intros E. apply Hc. exists p. by rewrite (main_core_eq c d Hm Hdm).
Qed.

(** ** The objects *)

Lemma run_bind {S A B} (m : M S A) (f : A → M S B) s a s1 :
  m s = Ok (a, s1) → (m ≫= f) s = f a s1.
Proof. unfold mbind, M_bind. by intros ->. Qed.

Lemma thread_manager_run {A} (m : M Mcp.Mcp A) s a mcp' :
  m (m_mcp s) = Ok (a, mcp') → thread_manager m s = Ok (a, s <| m_mcp := mcp' |>).
Proof. unfold thread_manager, zoom. by intros ->. Qed.

Lemma mutex_at_run s mux m : zlookup (elems (m_mutexes s)) mux = Some m → mutex_at mux s = Ok (m, s).
Proof. intros H. unfold mutex_at, gets, lift, vget, mbind, M_bind. cbn. by rewrite H. Qed.
Lemma cond_at_run s cond c : zlookup (elems (m_conds s)) cond = Some c → cond_at cond s = Ok (c, s).
Proof. intros H. unfold cond_at, gets, lift, vget, mbind, M_bind. cbn. by rewrite H. Qed.
Lemma barrier_at_run s i b : zlookup (elems (m_barriers s)) i = Some b → barrier_at i s = Ok (b, s).
Proof. intros H. unfold barrier_at, gets, lift, vget, mbind, M_bind. cbn. by rewrite H. Qed.

(** How the thread of one core changed. *)
Definition core_change (c : core_id_t) (s s' : Mcp.Mcp) : Prop := mcp_wf s' ∧ only_tile (tile_id c) s s'.

Lemma only_tile_refl tile s : only_tile tile s s.
Proof. constructor; [done..|]. exists []. by rewrite app_nil_r. Qed.

Lemma core_runs_other c d s s' :
  core_change c s s' → isMainCore c = true → isMainCore d = true → c ≠ d → core_runs s' d ↔ core_runs s d.
Proof.
  intros [_ Ho] Hc Hd Hne. unfold core_runs.
  assert (tile_id d ≠ tile_id c) by (intros E; apply Hne; symmetry; by apply main_core_eq).
  split; intros [j Hj]; exists j; by apply (only_tile_runs _ _ _ _ _ Ho).
Qed.

Lemma lock_spec s mux c m :
  sync_inv s → isMainCore c = true → core_runs (m_mcp s) c →
  zlookup (elems (m_mutexes s)) mux = Some m →
  ∃ mcp' m', lock mux c s = Ok (bool_decide (holders m = []), with_mutex mux m' (s <| m_mcp := mcp' |>)) ∧
    sync_inv (with_mutex mux m' (s <| m_mcp := mcp' |>)) ∧
    holders m' = holders m ++ [c] ∧ core_change c (m_mcp s) mcp' ∧
    (if bool_decide (holders m = []) then core_runs mcp' c
     else core_blocked mcp' c ∧ c ∈ mutex_waiting m').
Proof.
  intros I Hc Hr Hm. pose proof (running_not_queued _ _ I Hr) as Hnq.
  pose proof (runs_valid _ _ Hr) as Hv. unfold lock. rewrite (run_bind _ _ _ _ _ (mutex_at_run _ _ _ Hm)).
  destruct (tile_id (m_owner m) =? INVALID_TILE_ID) eqn:E.
  - assert (holders m = []) as Hh by (unfold holders; by rewrite E).
    rewrite bool_decide_eq_true_2, Hh by done. breflect. pose proof (inv_free _ I _ _ Hm E) as Hw.
    exists (m_mcp s), (m <| m_owner := c |>). split_and!.
    + unfold set_mutex, modify, mbind, M_bind. cbn. by destruct s.
    + replace (s <| m_mcp := m_mcp s |>) with s by (by destruct s).
      apply (inv_with_mutex s mux m); [done|done|by cbn|]. left. cbn. done.
    + unfold holders, valid in *. cbn. apply negb_true_iff in Hv. by rewrite Hv, Hw.
    + split; [apply I|apply only_tile_refl].
    + by cbn.
  - rewrite bool_decide_eq_false_2 by (unfold holders; by rewrite E).
    destruct Hr as [j Hj]. destruct (stallThread_spec (m_mcp s) c j) as (mcp' & Es & W & Ho & Hb); [apply I|done..|].
    exists mcp', (m <| mutex_waiting := mutex_waiting m ++ [c] |>).
    assert (sync_inv (s <| m_mcp := mcp' |>)) as I' by (by apply (inv_with_mcp s c)).
    split_and!.
    + by rewrite (run_bind _ _ _ _ _ (thread_manager_run _ _ _ _ Es)).
    + apply (inv_with_mutex _ mux m); [done|done|cbn; breflect; lia|]. right. by exists c.
    + unfold holders. cbn. by rewrite E.
    + by split.
    + done.
    + cbn. apply elem_of_app. right. by apply list_elem_of_singleton.
Qed.

Lemma unlock_spec s mux c m rest :
  sync_inv s → zlookup (elems (m_mutexes s)) mux = Some m → holders m = c :: rest →
  ∃ mcp' m', unlock mux c s = Ok (hd INVALID_CORE_ID rest, with_mutex mux m' (s <| m_mcp := mcp' |>)) ∧
    sync_inv (with_mutex mux m' (s <| m_mcp := mcp' |>)) ∧ holders m' = rest ∧
    match rest with
    | [] => mcp' = m_mcp s
    | next :: _ => isMainCore next = true ∧ core_change next (m_mcp s) mcp' ∧ core_runs mcp' next ∧
        Mcp.m_sent mcp' = Mcp.m_sent (m_mcp s)
    end.
Proof.
  intros I Hm Hh. unfold unlock. rewrite (run_bind _ _ _ _ _ (mutex_at_run _ _ _ Hm)).
  unfold holders in Hh. destruct (tile_id (m_owner m) =? INVALID_TILE_ID) eqn:E; [done|].
  injection Hh as Ho Hw. unfold assert. rewrite Ho, !Z.eqb_refl. cbn [andb]. rewrite Hw.
  destruct rest as [|next rest].
  - exists (m_mcp s), (m <| m_owner := INVALID_CORE_ID |>). split_and!; [| | |done].
    + unfold set_mutex, modify, mbind, M_bind. cbn. by destruct s.
    + replace (s <| m_mcp := m_mcp s |>) with s by (by destruct s).
      apply (inv_with_mutex s mux m); [done|done|by cbn|]. left. cbn. done.
    + done.
  - assert (next ∈ queue_of s (PMutex mux)) as Hq.
    { cbn. rewrite Hm. cbn. rewrite Hw. apply list_elem_of_here. }
    destruct (inv_blocked _ I _ _ Hq) as [Hmain Hb].
    assert (sync_inv (with_mutex mux (mkSimMutex rest next) s)) as I1.
    { apply (inv_with_mutex s mux m); [done|done| |].
      - cbn. intros Et. pose proof (blocked_valid _ _ Hb) as Hv. unfold valid in Hv.
        apply negb_true_iff in Hv. breflect. done.
      - left. cbn. rewrite Hw. apply sublist_cons. done. }
    destruct (resumeThread_spec (m_mcp s) next) as (mcp' & j & Er & W & Hot & Hr & Hs); [apply I|done..|].
    assert (¬ queued (with_mutex mux (mkSimMutex rest next) s) next) as Hnq.
    { intros [p Hp]. rewrite (queue_of_with_mutex _ _ m) in Hp by done. destruct (inv_exclusive _ I) as [Hnd Hex].
      case_decide as Ep.
      - specialize (Hnd (PMutex mux)). cbn in Hnd. rewrite Hm in Hnd. cbn in Hnd. rewrite Hw in Hnd.
        apply NoDup_cons in Hnd as [Hni _]. done.
      - apply Ep. by eapply Hex. }
    exists mcp', (mkSimMutex rest next). split_and!.
    + unfold mbind, M_bind. cbn -[Mcp.resumeThread]. rewrite (thread_manager_run _ _ tt mcp'); [done|exact Er].
    + apply (inv_with_mcp (with_mutex mux (mkSimMutex rest next) s) next mcp'); done.
    + unfold holders. cbn. pose proof (blocked_valid _ _ Hb) as Hv. unfold valid in Hv.
      apply negb_true_iff in Hv. by rewrite Hv.
    + done.
    + by split.
    + by exists j.
    + done.
Qed.

(** ** No core is lost *)

Definition accounted (s : SyncServer) (d : core_id_t) : Prop := core_runs (m_mcp s) d ∨ queued s d.
Definition accounts (s s' : SyncServer) : Prop :=
  ∀ d, isMainCore d = true → accounted s d → accounted s' d.

#[global] Instance accounts_preorder : PreOrder accounts.
Proof. split; [by intros s d|]. intros s1 s2 s3 H12 H23 d Hd H. auto. Qed.

Lemma holders_waiting s mux m :
  sync_inv s → zlookup (elems (m_mutexes s)) mux = Some m → mutex_waiting m = tail (holders m).
Proof.
  intros I Hm. unfold holders. destruct (_ =? _) eqn:E; [|done]. breflect. by apply (inv_free _ I mux).
Qed.

(** The thread of [c] changes, and so does the queue at [p]. *)
Lemma accounts_change s s' c p :
  isMainCore c = true → core_change c (m_mcp s) (m_mcp s') →
  core_runs (m_mcp s') c ∨ c ∈ queue_of s' p →
  (∀ p', p' ≠ p → queue_of s' p' = queue_of s p') →
  (∀ d, d ∈ queue_of s p → d = c ∨ d ∈ queue_of s' p) →
  accounts s s'.
Proof.
  intros Hc Hch Hok Hne Hp d Hd Hacc. destruct (decide (c = d)) as [<-|Hcd].
  { destruct Hok; [by left|right; by exists p]. }
  destruct Hacc as [Hr|[p' Hp']].
  - left. by apply (core_runs_other c d _ _ Hch).
  - right. destruct (decide (p' = p)) as [->|Hn].
    + exists p. destruct (Hp _ Hp'); [congruence|done].
    + exists p'. by rewrite Hne.
Qed.

Lemma lock_accounts s mux c m mcp' m' :
  sync_inv s → zlookup (elems (m_mutexes s)) mux = Some m → isMainCore c = true →
  core_change c (m_mcp s) mcp' → sync_inv (with_mutex mux m' (s <| m_mcp := mcp' |>)) →
  holders m' = holders m ++ [c] → core_runs mcp' c ∨ c ∈ mutex_waiting m' →
  accounts s (with_mutex mux m' (s <| m_mcp := mcp' |>)).
Proof.
  intros I Hm Hc Hch I' Hh Hok.
  assert (queue_of (with_mutex mux m' (s <| m_mcp := mcp' |>)) (PMutex mux) = mutex_waiting m') as Hq.
  { by rewrite (queue_of_with_mutex _ _ m), decide_True. }
  apply (accounts_change _ _ c (PMutex mux)); [done|done|by rewrite Hq| |].
  - intros p' Hp'. by rewrite (queue_of_with_mutex _ _ m), decide_False.
  - rewrite Hq. intros d Hd. right. cbn in Hd. rewrite Hm in Hd. cbn in Hd.
    rewrite (holders_waiting _ _ _ I Hm) in Hd.
    assert (mutex_waiting m' = tail (holders m')) as ->.
    { apply (holders_waiting _ mux _ I'). cbn. apply zlookup_zinsert_eq. by apply zlookup_Some in Hm as [? _]. }
    rewrite Hh. destruct (holders m); [cbn in Hd; set_solver|]. cbn in *. set_solver.
Qed.

Lemma unlock_accounts s mux c m mcp' m' rest :
  sync_inv s → zlookup (elems (m_mutexes s)) mux = Some m → holders m = c :: rest → holders m' = rest →
  sync_inv (with_mutex mux m' (s <| m_mcp := mcp' |>)) →
  match rest with
  | [] => mcp' = m_mcp s
  | next :: _ => isMainCore next = true ∧ core_change next (m_mcp s) mcp' ∧ core_runs mcp' next ∧
      Mcp.m_sent mcp' = Mcp.m_sent (m_mcp s)
  end →
  accounts s (with_mutex mux m' (s <| m_mcp := mcp' |>)).
Proof.
  intros I Hm Hh Hh' I' Hrest.
  assert (queue_of s (PMutex mux) = rest) as Hq.
  { cbn. rewrite Hm. cbn. by rewrite (holders_waiting _ _ _ I Hm), Hh. }
  assert (mutex_waiting m' = tail rest) as Hq'.
  { rewrite <- Hh'. apply (holders_waiting _ mux _ I'). cbn. apply zlookup_zinsert_eq.
    by apply zlookup_Some in Hm as [? _]. }
  destruct rest as [|next rest].
  - subst mcp'. intros d Hd [Hr|[p Hp]]; [by left|right]. exists p.
    rewrite (queue_of_with_mutex _ _ m) by done. case_decide; [|done]. subst. rewrite Hq in Hp. set_solver.
  - destruct Hrest as (Hmain & Hch & Hr & _). apply (accounts_change _ _ next (PMutex mux)); [done|done|by left| |].
    + intros p' Hp'. by rewrite (queue_of_with_mutex _ _ m), decide_False.
    + intros d. rewrite Hq, (queue_of_with_mutex _ _ m), decide_True, Hq' by done. cbn. set_solver.
Qed.

(** ** Condition variables *)

Lemma wait_on_spec s cond mux c time m k rest :
  sync_inv s → isMainCore c = true → core_runs (m_mcp s) c →
  zlookup (elems (m_conds s)) cond = Some k → zlookup (elems (m_mutexes s)) mux = Some m →
  holders m = c :: rest →
  ∃ mcp' m', let s' := with_mutex mux m' (with_cond cond (mkSimCond (cond_waiting k ++ [mkCondWaiter c mux time]))
                         (s <| m_mcp := mcp' |>)) in
    wait_on cond mux c time s = Ok (hd INVALID_CORE_ID rest, s') ∧
    sync_inv s' ∧ accounts s s' ∧ holders m' = rest ∧ core_blocked mcp' c ∧
    (∃ l, Mcp.m_sent mcp' = Mcp.m_sent (m_mcp s) ++ (release_message <$> l)) ∧
    match rest with [] => True | next :: _ => core_runs mcp' next end.
Proof.
  intros I Hc Hr Hk Hm Hh. pose proof (running_not_queued _ _ I Hr) as Hnq. pose proof Hr as [j Hj].
  destruct (stallThread_spec (m_mcp s) c j) as (mcp1 & Es & W & Ho & Hb); [apply I|done..|].
  assert (sync_inv (s <| m_mcp := mcp1 |>)) as I1 by (by apply (inv_with_mcp s c)).
  pose proof (zlookup_Some _ _ _ Hm) as [Hmux _].
  set (k' := mkSimCond (cond_waiting k ++ [mkCondWaiter c mux time])).
  set (s2 := with_cond cond k' (s <| m_mcp := mcp1 |>)).
  assert (sync_inv s2) as I2.
  { apply (inv_with_cond _ cond k); [done|done| |].
    - intros w. cbn. rewrite elem_of_app, list_elem_of_singleton. intros [Hw| ->]; [by eapply (inv_cond _ I)|done].
    - right. exists c. split_and!; [by cbn; rewrite fmap_app|exact Hnq|done|done]. }
  destruct (unlock_spec s2 mux c m rest I2 Hm Hh) as (mcp' & m' & Eu & I' & Hh' & Hrest).
  assert (accounts s s2) as Hacc.
  { apply (accounts_change _ _ c (PCond cond)); [done|by split| | |].
    - right. unfold s2. rewrite (queue_of_with_cond _ _ k), decide_True by done. cbn. rewrite fmap_app. set_solver.
    - intros p' Hp'. unfold s2. by rewrite (queue_of_with_cond _ _ k), decide_False.
    - intros d. unfold s2. rewrite (queue_of_with_cond _ _ k), decide_True by done. cbn. rewrite Hk, fmap_app.
      cbn. set_solver. }
  exists mcp', m'. split_and!.
  - unfold wait_on. rewrite (run_bind _ _ _ _ _ (thread_manager_run _ _ _ _ Es)).
    rewrite (run_bind _ _ _ k (s <| m_mcp := mcp1 |>)) by (by apply cond_at_run). exact Eu.
  - exact I'.
  - etrans; [exact Hacc|]. by eapply unlock_accounts.
  - done.
  - destruct rest as [|next rest]; [by subst mcp'|]. destruct Hrest as (Hn & [W' Ho'] & Hrn & _).
    unfold core_blocked. rewrite (only_tile_blocked _ _ _ _ Ho'); [done|].
    intros Et. apply (main_core_eq c next) in Et; [subst next|done|done].
    apply Hnq. exists (PMutex mux). cbn. rewrite Hm. cbn. rewrite (holders_waiting _ _ _ I Hm), Hh. cbn. set_solver.
  - destruct Ho as [_ _ _ _ [l Hl]]. exists l. destruct rest as [|next rest]; [by subst mcp'|].
    destruct Hrest as (_ & _ & _ & Hs). by rewrite Hs.
  - destruct rest; [done|]. naive_solver.
Qed.

(** A waiter that has left the condition variable gets its mutex, or waits for
    it behind the others. *)
Lemma wake_spec s w m :
  sync_inv s → isMainCore (m_core_id w) = true → core_blocked (m_mcp s) (m_core_id w) →
  ¬ queued s (m_core_id w) → zlookup (elems (m_mutexes s)) (m_mutex w) = Some m →
  ∃ mcp' m', let s' := with_mutex (m_mutex w) m' (s <| m_mcp := mcp' |>) in
    (thread_manager (Mcp.resumeThread (m_core_id w)) ;; lock (m_mutex w) (m_core_id w)) s
      = Ok (bool_decide (holders m = []), s') ∧
    sync_inv s' ∧ holders m' = holders m ++ [m_core_id w] ∧
    core_change (m_core_id w) (m_mcp s) mcp' ∧
    (if bool_decide (holders m = []) then core_runs mcp' (m_core_id w)
     else core_blocked mcp' (m_core_id w) ∧ m_core_id w ∈ mutex_waiting m') ∧
    accounts s s' ∧ accounted s' (m_core_id w).
Proof.
  intros I Hc Hb Hnq Hm.
  destruct (resumeThread_spec (m_mcp s) (m_core_id w)) as (mcp1 & j & Er & W & Ho & Hr & Hs); [apply I|done..|].
  set (s1 := s <| m_mcp := mcp1 |>).
  assert (sync_inv s1) as I1 by (by apply (inv_with_mcp s (m_core_id w))).
  assert (core_runs (m_mcp s1) (m_core_id w)) as Hr1 by (by exists j).
  destruct (lock_spec s1 (m_mutex w) (m_core_id w) m I1 Hc Hr1 Hm) as (mcp' & m' & El & I' & Hh & [W' Ho'] & Hif).
  assert (only_tile (tile_id (m_core_id w)) (m_mcp s) mcp') as Hot.
  { destruct Ho as [A1 A2 A3 A4 [l1 A5]], Ho' as [B1 B2 B3 B4 [l2 B5]]. cbn in *. constructor; [| | | |].
    - intros i Hi. by rewrite B1, A1.
    - intros i Hi. by rewrite B2, A2.
    - by rewrite B3.
    - by rewrite B4.
    - exists l2. by rewrite B5, Hs. }
  exists mcp', m'. split_and!; [|exact I'|done|by split|done| |].
  - rewrite (run_bind _ _ _ tt s1) by (by apply thread_manager_run). exact El.
  - assert (core_runs mcp' (m_core_id w) ∨ m_core_id w ∈ mutex_waiting m') by (case_bool_decide; naive_solver).
    by apply (lock_accounts s (m_mutex w) (m_core_id w) m).
  - case_bool_decide; [by left|]. right. exists (PMutex (m_mutex w)).
    rewrite (queue_of_with_mutex _ _ m), decide_True by done. naive_solver.
Qed.

Lemma dequeue_not_queued s cond k w ws :
  sync_inv s → zlookup (elems (m_conds s)) cond = Some k → cond_waiting k = w :: ws →
  ¬ queued (with_cond cond (mkSimCond ws) s) (m_core_id w).
Proof.
  intros I Hk Hw [p Hp]. rewrite (queue_of_with_cond _ _ k) in Hp by done.
  destruct (inv_exclusive _ I) as [Hnd Hex].
  assert (queue_of s (PCond cond) = m_core_id w :: (m_core_id <$> ws)) as Hq by (cbn; rewrite Hk; cbn; by rewrite Hw).
  case_decide as Ep.
  - specialize (Hnd (PCond cond)). rewrite Hq in Hnd. by apply NoDup_cons in Hnd as [? _].
  - apply Ep. eapply Hex; [exact Hp|]. rewrite Hq. apply list_elem_of_here.
Qed.

(** A signal passes the first waiter on to its mutex. *)
Lemma signal_spec s cond k w ws :
  sync_inv s → zlookup (elems (m_conds s)) cond = Some k → cond_waiting k = w :: ws →
  ∃ mcp' m m', let s' := with_mutex (m_mutex w) m' (with_cond cond (mkSimCond ws) s <| m_mcp := mcp' |>) in
    zlookup (elems (m_mutexes s)) (m_mutex w) = Some m ∧
    signal cond s = Ok (if bool_decide (holders m = []) then m_core_id w else INVALID_CORE_ID, s') ∧
    sync_inv s' ∧ accounts s s' ∧ holders m' = holders m ++ [m_core_id w] ∧
    core_change (m_core_id w) (m_mcp s) mcp' ∧
    (if bool_decide (holders m = []) then core_runs mcp' (m_core_id w)
     else core_blocked mcp' (m_core_id w)).
Proof.
  intros I Hk Hw.
  assert (m_core_id w ∈ queue_of s (PCond cond)) as Hq.
  { cbn. rewrite Hk. cbn. rewrite Hw. apply list_elem_of_here. }
  destruct (inv_blocked _ I _ _ Hq) as [Hmain Hb].
  destruct (zlookup_is_Some (elems (m_mutexes s)) (m_mutex w)) as [m Hm].
  { eapply (inv_cond _ I); [exact Hk|]. rewrite Hw. apply list_elem_of_here. }
  assert (sync_inv (with_cond cond (mkSimCond ws) s)) as I1.
  { apply (inv_with_cond s cond k); [done|done| |].
    - intros v Hv. eapply (inv_cond _ I); [exact Hk|]. rewrite Hw. by apply list_elem_of_further.
    - left. cbn. rewrite Hw. apply sublist_cons. done. }
  destruct (wake_spec (with_cond cond (mkSimCond ws) s) w m) as (mcp' & m' & E & I' & Hh & Hch & Hif & Hacc & Hw');
    [done|done|done|by eapply dequeue_not_queued|done|].
  exists mcp', m, m'. split_and!; [done| |exact I'| |done|done|].
  - unfold signal. rewrite (run_bind _ _ _ _ _ (cond_at_run _ _ _ Hk)), Hw.
    rewrite (run_bind _ _ _ tt (with_cond cond (mkSimCond ws) s)) by done.
    unfold mbind, M_bind in E |- *. cbn in E |- *.
    destruct (thread_manager (Mcp.resumeThread (m_core_id w)) (with_cond cond (mkSimCond ws) s)) as [[? s1]|e]; [|done].
    by rewrite E.
  - intros d Hd Hacc0. destruct (decide (d = m_core_id w)) as [->|Hne]; [done|].
    apply Hacc; [done|]. destruct Hacc0 as [Hr|[p Hp]]; [by left|right]. exists p.
    rewrite (queue_of_with_cond _ _ k) by done. case_decide; [subst|done].
    cbn in Hp. rewrite Hk in Hp. cbn in Hp. rewrite Hw in Hp. set_solver.
  - case_bool_decide; naive_solver.
Qed.

Lemma signal_none_spec s cond k :
  zlookup (elems (m_conds s)) cond = Some k → cond_waiting k = [] →
  signal cond s = Ok (INVALID_CORE_ID, s).
Proof. intros Hk Hw. unfold signal. by rewrite (run_bind _ _ _ _ _ (cond_at_run _ _ _ Hk)), Hw. Qed.

(** The waiters of [l] are in no queue any more: each is passed on to its
    mutex, in order. *)
Record woken (s s' : SyncServer) (l : list CondWaiter) (granted : list core_id_t) : Prop := {
  woken_inv : sync_inv s';
  woken_accounts : accounts s s';
  woken_accounted : ∀ w, w ∈ l → accounted s' (m_core_id w);
  woken_conds : m_conds s' = m_conds s;
  woken_barriers : m_barriers s' = m_barriers s;
  woken_holders : ∀ i m, zlookup (elems (m_mutexes s)) i = Some m →
    ∃ m', zlookup (elems (m_mutexes s')) i = Some m' ∧
      holders m' = holders m ++ (m_core_id <$> filter (λ w, m_mutex w = i) l);
  woken_others : ∀ d, isMainCore d = true → d ∉ (m_core_id <$> l) →
    core_runs (m_mcp s') d ↔ core_runs (m_mcp s) d;
  woken_granted : ∀ c, c ∈ granted → core_runs (m_mcp s') c;
  woken_sent : ∃ r, Mcp.m_sent (m_mcp s') = Mcp.m_sent (m_mcp s) ++ (release_message <$> r)
}.

Lemma wake_all_spec l : ∀ s acc,
  sync_inv s → NoDup (m_core_id <$> l) →
  (∀ w, w ∈ l → isMainCore (m_core_id w) = true ∧ core_blocked (m_mcp s) (m_core_id w) ∧
     ¬ queued s (m_core_id w) ∧ 0 ≤ m_mutex w < zlength (elems (m_mutexes s))) →
  ∃ s' granted, wake_all l acc s = Ok (acc ++ granted, s') ∧ woken s s' l granted ∧
    sublist granted (m_core_id <$> l).
Proof.
  induction l as [|w l IH]; intros s acc I Hnd Hl.
  { exists s, []. split_and!; [by cbn; rewrite app_nil_r| |done]. constructor; [done|done|set_solver|done|done| |done|set_solver|].
    - intros i m Hm. exists m. by rewrite app_nil_r.
    - exists []. by rewrite app_nil_r. }
  apply NoDup_cons in Hnd as [Hni Hnd].
  destruct (Hl w) as (Hmain & Hb & Hnq & Hmux); [apply list_elem_of_here|].
  destruct (zlookup_is_Some _ _ Hmux) as [m Hm].
  destruct (wake_spec s w m I Hmain Hb Hnq Hm) as (mcp1 & m1 & E & I1 & Hh1 & [W1 Ho1] & Hif & Hacc1 & Hw1).
  set (s1 := with_mutex (m_mutex w) m1 (s <| m_mcp := mcp1 |>)) in *.
  assert (∀ v, v ∈ l → m_core_id v ≠ m_core_id w) as Hne.
  { intros v Hv Ev. apply Hni. rewrite <- Ev. by apply list_elem_of_fmap_2. }
  set (granted_w := if bool_decide (holders m = []) then [m_core_id w] else []).
  destruct (IH s1 (acc ++ granted_w)) as (s' & granted & E' & [V1 V2 V3 V4 V5 V6 V9 V7 V8] & Hsub); [done|done| |].
  { intros v Hv. destruct (Hl v) as (Hvm & Hvb & Hvq & Hvx); [by apply list_elem_of_further|].
    split_and!; [done| | |cbn; rewrite ?zlength_zinsert; lia..].
    - unfold core_blocked. cbn. rewrite (only_tile_blocked _ _ _ _ Ho1); [done|].
      intros Et. by apply (Hne v Hv), main_core_eq.
    - intros [p Hp]. unfold s1 in Hp. rewrite (queue_of_with_mutex _ _ m) in Hp by done. case_decide; [subst|].
      + assert (zlookup (elems (m_mutexes s1)) (m_mutex w) = Some m1) as Hm1.
        { cbn. apply zlookup_zinsert_eq. done. }
        rewrite (holders_waiting _ _ _ I1 Hm1), Hh1 in Hp.
        apply Hvq. exists (PMutex (m_mutex w)). cbn. rewrite Hm. cbn. rewrite (holders_waiting _ _ _ I Hm).
        specialize (Hne v Hv). destruct (holders m); cbn in *; set_solver.
      + apply Hvq. by exists p. }
  exists s', (granted_w ++ granted). split_and!.
  - cbn [wake_all]. unfold mbind, M_bind in E |- *. cbn in E |- *.
    destruct (thread_manager (Mcp.resumeThread (m_core_id w)) s) as [[? s0]|e]; [|done].
    rewrite E. fold s1. rewrite app_assoc, <- E'. unfold granted_w. by case_bool_decide; rewrite ?app_nil_r.
  - constructor.
    + done.
    + by etrans.
    + intros v [->|Hv]%elem_of_cons; [by apply V2|by apply V3].
    + by rewrite V4.
    + by rewrite V5.
    + intros i n Hn. destruct (decide (i = m_mutex w)) as [->|Hi].
      * assert (n = m) as -> by congruence.
        destruct (V6 (m_mutex w) m1) as (m' & Hm' & Hh'); [cbn; by apply zlookup_zinsert_eq|].
        exists m'. split; [done|]. rewrite Hh', Hh1, filter_cons_True by done. cbn. by rewrite <- app_assoc.
      * destruct (V6 i n) as (m' & Hm' & Hh'); [cbn; by rewrite zlookup_zinsert_ne|].
        exists m'. split; [done|]. by rewrite Hh', filter_cons_False.
    + intros d Hd Hdl. rewrite fmap_cons, not_elem_of_cons in Hdl. destruct Hdl as [Hdw Hdl].
      rewrite V9 by done. apply (core_runs_other (m_core_id w)); [by split|done..|congruence].
    + intros c [Hc|Hc]%elem_of_app; [|by apply V7]. unfold granted_w in Hc.
      case_bool_decide; [|set_solver]. apply list_elem_of_singleton in Hc as ->.
      by apply V9.
    + destruct Ho1 as [_ _ _ _ [l1 Hl1]], V8 as [l2 Hl2]. exists (l1 ++ l2).
      rewrite Hl2. cbn. rewrite Hl1, fmap_app. by rewrite app_assoc.
  - cbn. unfold granted_w. case_bool_decide; cbn; [by apply sublist_skip|by apply sublist_cons].
Qed.

(** Computations that neither read nor write the condition variables. *)
Definition ignores_conds {A} (m : M SyncServer A) : Prop := ∀ s v,
  m (s <| m_conds := v |>)
  = match m s with Ok (a, s') => Ok (a, s' <| m_conds := v |>) | Fail e => Fail e end.

Lemma ignores_conds_bind {A B} (m : M SyncServer A) (f : A → M SyncServer B) :
  ignores_conds m → (∀ a, ignores_conds (f a)) → ignores_conds (m ≫= f).
Proof.
  intros Hm Hf s v. unfold mbind, M_bind. rewrite Hm. destruct (m s) as [[a s']|e]; [apply Hf|done].
Qed.
Lemma ignores_conds_zoom {A} (m : M Mcp.Mcp A) : ignores_conds (thread_manager m).
Proof. intros s v. unfold thread_manager, zoom. cbn. by destruct (m (m_mcp s)) as [[a t]|e]. Qed.
Lemma ignores_conds_mutex_at mux : ignores_conds (mutex_at mux).
Proof. intros s v. unfold mutex_at, gets, lift, mbind, M_bind. cbn. by destruct (vget _ _ _). Qed.
Lemma ignores_conds_set_mutex mux m : ignores_conds (set_mutex mux m).
Proof. by intros s v. Qed.
Lemma ignores_conds_ret {A} (a : A) : ignores_conds (mret a).
Proof. by intros s v. Qed.
#[local] Hint Resolve ignores_conds_bind ignores_conds_zoom ignores_conds_mutex_at ignores_conds_set_mutex
  ignores_conds_ret : graphite.

Lemma ignores_conds_wake_all l : ∀ acc, ignores_conds (wake_all l acc).
Proof.
  assert (∀ mux c, ignores_conds (lock mux c)) as Hlock.
  { intros mux c. apply ignores_conds_bind; [auto with graphite|]. intros m.
    case_match; auto with graphite. }
  induction l as [|w l IH]; intros acc; cbn [wake_all]; auto with graphite.
Qed.

Lemma broadcast_spec s cond k :
  sync_inv s → zlookup (elems (m_conds s)) cond = Some k →
  ∃ s' granted, broadcast cond s = Ok (granted, s') ∧ accounts s s' ∧
    woken (with_cond cond (mkSimCond []) s) s' (cond_waiting k) granted ∧
    sublist granted (m_core_id <$> cond_waiting k).
Proof.
  intros I Hk. set (s0 := with_cond cond (mkSimCond []) s).
  assert (queue_of s (PCond cond) = m_core_id <$> cond_waiting k) as Hq by (cbn; by rewrite Hk).
  destruct (inv_exclusive _ I) as [Hnd Hex].
  assert (sync_inv s0) as I0.
  { apply (inv_with_cond s cond k); [done|done|set_solver|]. left. cbn. apply sublist_nil_l. }
  destruct (wake_all_spec (cond_waiting k) s0 []) as (s' & granted & E & Hw & Hsub); [done| | |].
  { specialize (Hnd (PCond cond)). by rewrite Hq in Hnd. }
  { intros w Hw. assert (m_core_id w ∈ queue_of s (PCond cond)) as Hwq.
    { rewrite Hq. by apply list_elem_of_fmap_2. }
    destruct (inv_blocked _ I _ _ Hwq) as [Hm Hb]. split; [done|]. split; [done|]. split.
    - intros [p Hp]. unfold s0 in Hp. rewrite (queue_of_with_cond _ _ k) in Hp by done.
      case_decide as Ep; [cbn in Hp; set_solver|]. apply Ep. by eapply Hex.
    - by eapply (inv_cond _ I). }
  exists s', granted. split; [|split; [|by split]].
  - unfold broadcast. rewrite (run_bind _ _ _ _ _ (cond_at_run _ _ _ Hk)).
    pose proof (ignores_conds_wake_all (cond_waiting k) [] s) as Hig.
    pose proof (Hig (m_conds s0)) as H0. pose proof (Hig (m_conds s)) as H1.
    change (s <| m_conds := m_conds s0 |>) with s0 in H0. rewrite E in H0.
    replace (s <| m_conds := m_conds s |>) with s in H1 by (by destruct s).
    unfold mbind, M_bind. destruct (wake_all (cond_waiting k) [] s) as [[g s1]|e]; [|done].
    injection H0 as -> ->. injection H1 as H1.
    unfold set_cond, modify. cbn. rewrite H1. done.
  - intros d Hd Hacc. destruct Hw as [_ Wa Ww _ _ _ _ _ _].
    destruct (decide (d ∈ (m_core_id <$> cond_waiting k))) as [(w & -> & Hw)%list_elem_of_fmap|Hnot]; [by apply Ww|].
    apply Wa; [done|]. destruct Hacc as [?|[p Hp]]; [by left|right]. exists p. unfold s0.
    rewrite (queue_of_with_cond _ _ k) by done. case_decide; [subst|done]. by rewrite Hq in Hp.
Qed.

(** ** Barriers *)

Lemma resume_all_spec l : ∀ s,
  mcp_wf (m_mcp s) → NoDup l → (∀ c, c ∈ l → isMainCore c = true ∧ core_blocked (m_mcp s) c) →
  ∃ mcp', mfor l (λ c, thread_manager (Mcp.resumeThread c)) s = Ok (tt, s <| m_mcp := mcp' |>) ∧
    mcp_wf mcp' ∧ Mcp.m_sent mcp' = Mcp.m_sent (m_mcp s) ∧
    (∀ c, c ∈ l → core_runs mcp' c) ∧
    (∀ d, isMainCore d = true → d ∉ l →
      (core_runs mcp' d ↔ core_runs (m_mcp s) d) ∧ (core_blocked mcp' d ↔ core_blocked (m_mcp s) d)).
Proof.
  induction l as [|c l IH]; intros s W Hnd Hl.
  { exists (m_mcp s). split_and!; [by destruct s|done|done|set_solver|done]. }
  apply NoDup_cons in Hnd as [Hni Hnd]. destruct (Hl c) as [Hc Hb]; [apply list_elem_of_here|].
  destruct (resumeThread_spec (m_mcp s) c W Hc Hb) as (mcp1 & j & Er & W1 & Ho & Hr & Hs).
  assert (∀ d, isMainCore d = true → d ≠ c → tile_id d ≠ tile_id c) as Hne.
  { intros d Hd Hdc Et. by apply Hdc, main_core_eq. }
  destruct (IH (s <| m_mcp := mcp1 |>)) as (mcp' & E & W' & Hs' & Hrun & Hoth); [done|done| |].
  { intros d Hd. destruct (Hl d) as [Hdm Hdb]; [by apply list_elem_of_further|]. split; [done|].
    unfold core_blocked. cbn. rewrite (only_tile_blocked _ _ _ _ Ho); [done|]. apply Hne; [done|].
    by intros ->. }
  exists mcp'. split_and!; [|done|by rewrite Hs'| |].
  - cbn [mfor]. rewrite (run_bind _ _ _ tt (s <| m_mcp := mcp1 |>)) by (by apply thread_manager_run). exact E.
  - intros d [->|Hd]%elem_of_cons; [|by apply Hrun]. apply Hoth; [done..|]. by exists j.
  - intros d Hd Hdl. rewrite not_elem_of_cons in Hdl. destruct Hdl as [Hdc Hdl].
    destruct (Hoth d Hd Hdl) as [H1 H2]. cbn in H1, H2. rewrite H1, H2. split.
    + apply (core_runs_other c); [by split|done..|congruence].
    + by apply (only_tile_blocked (tile_id c)), Hne.
Qed.

Definition arrival_time (b : SimBarrier) (time : Z) : Z :=
  if (zlength (barrier_waiting b) + 1 =? 1) || (time >? m_max_time b) then time else m_max_time b.

Lemma zlength_snoc {A} (l : list A) x : zlength (l ++ [x]) = zlength l + 1.
Proof. unfold zlength. rewrite length_app. cbn. lia. Qed.

(** An arrival that is not the last. *)
Lemma barrier_wait_early s i c time b :
  sync_inv s → isMainCore c = true → core_runs (m_mcp s) c →
  zlookup (elems (m_barriers s)) i = Some b → zlength (barrier_waiting b) + 1 < m_count b →
  ∃ mcp', let b' := mkSimBarrier (barrier_waiting b ++ [c]) (m_count b) (arrival_time b time) in
    let s' := with_sync_barrier i b' (s <| m_mcp := mcp' |>) in
    barrier_wait i c time s = Ok ([], s') ∧ sync_inv s' ∧ accounts s s' ∧ core_blocked mcp' c ∧
    core_change c (m_mcp s) mcp'.
Proof.
  intros I Hc Hr Hb Hn. pose proof (running_not_queued _ _ I Hr) as Hnq. destruct Hr as [j Hj].
  destruct (stallThread_spec (m_mcp s) c j) as (mcp' & Es & W & Ho & Hbl); [apply I|done..|].
  pose proof (zlookup_Some _ _ _ Hb) as [Hi _].
  exists mcp'. set (b' := mkSimBarrier (barrier_waiting b ++ [c]) (m_count b) (arrival_time b time)).
  assert (sync_inv (s <| m_mcp := mcp' |>)) as I1 by (by apply (inv_with_mcp s c)).
  split_and!; [| | |done|by split].
  - unfold barrier_wait. rewrite (run_bind _ _ _ _ _ (barrier_at_run _ _ _ Hb)).
    rewrite (run_bind _ _ _ tt (with_sync_barrier i (b <| barrier_waiting := barrier_waiting b ++ [c] |>) s)) by done.
    rewrite (run_bind _ _ _ tt ((with_sync_barrier i (b <| barrier_waiting := barrier_waiting b ++ [c] |>) s)
      <| m_mcp := mcp' |>)) by (by apply thread_manager_run).
    unfold assert. rewrite zlength_snoc, (proj2 (Z.leb_le _ _)) by lia.
    unfold set_barrier, modify, mbind, M_bind. cbn.
    rewrite (proj2 (Z.eqb_neq (_ + 1) (m_count b))) by lia. unfold with_sync_barrier, b', arrival_time. cbn.
    by rewrite zinsert_zinsert.
  - apply (inv_with_barrier _ i b); [done|done|right; cbn; rewrite zlength_snoc; lia|].
    right. exists c. by split_and!.
  - apply (accounts_change _ _ c (PBarrier i)); [done|by split| | |].
    + right. rewrite (queue_of_with_barrier _ _ b), decide_True by done. cbn. set_solver.
    + intros p' Hp'. by rewrite (queue_of_with_barrier _ _ b), decide_False.
    + intros d. rewrite (queue_of_with_barrier _ _ b), decide_True by done. cbn. rewrite Hb. cbn. set_solver.
Qed.

(** The last arrival: every waiting core is resumed. *)
Lemma barrier_wait_last s i c time b :
  sync_inv s → isMainCore c = true → core_runs (m_mcp s) c →
  zlookup (elems (m_barriers s)) i = Some b → zlength (barrier_waiting b) + 1 = m_count b →
  ∃ mcp', let b' := mkSimBarrier [] (m_count b) (arrival_time b time) in
    let s' := with_sync_barrier i b' (s <| m_mcp := mcp' |>) in
    barrier_wait i c time s = Ok (barrier_waiting b ++ [c], s') ∧ sync_inv s' ∧ accounts s s' ∧
    (∀ d, d ∈ barrier_waiting b ++ [c] → core_runs mcp' d) ∧
    (∃ l, Mcp.m_sent mcp' = Mcp.m_sent (m_mcp s) ++ (release_message <$> l)).
Proof.
  intros I Hc Hr Hb Hn. pose proof (running_not_queued _ _ I Hr) as Hnq. pose proof Hr as [j Hj].
  destruct (stallThread_spec (m_mcp s) c j) as (mcp1 & Es & W & Ho & Hbl); [apply I|done..|].
  pose proof (zlookup_Some _ _ _ Hb) as [Hi _].
  set (l := barrier_waiting b ++ [c]).
  assert (queue_of s (PBarrier i) = barrier_waiting b) as Hq by (cbn; by rewrite Hb).
  assert (∀ d, d ∈ barrier_waiting b → isMainCore d = true ∧ core_blocked (m_mcp s) d ∧ d ≠ c) as Hwait.
  { intros d Hd. rewrite <- Hq in Hd. destruct (inv_blocked _ I _ _ Hd). split_and!; [done..|].
    intros ->. apply Hnq. by exists (PBarrier i). }
  assert (NoDup l) as Hnd.
  { apply NoDup_app. split_and!; [|set_solver|apply NoDup_singleton].
    rewrite <- Hq. apply (inv_exclusive _ I). }
  set (s2 := with_sync_barrier i (mkSimBarrier l (m_count b) (arrival_time b time)) (s <| m_mcp := mcp1 |>)).
  destruct (resume_all_spec l s2) as (mcp' & Em & W' & Hs' & Hrun & Hoth); [done|done| |].
  { intros d [Hd|Hd]%elem_of_app.
    - destruct (Hwait d Hd) as (Hm & Hdb & Hne). split; [done|]. unfold core_blocked. cbn.
      rewrite (only_tile_blocked _ _ _ _ Ho); [done|]. intros Et. by apply Hne, main_core_eq.
    - apply list_elem_of_singleton in Hd as ->. done. }
  assert (∀ d, isMainCore d = true → d ∉ l →
    (core_runs mcp' d ↔ core_runs (m_mcp s) d) ∧ (core_blocked mcp' d ↔ core_blocked (m_mcp s) d)) as Hoth'.
  { intros d Hd Hdl. destruct (Hoth d Hd Hdl) as [-> ->]. cbn. assert (d ≠ c) by set_solver.
    split; [apply (core_runs_other c); [by split|done..|congruence]|].
    unfold core_blocked. apply (only_tile_blocked (tile_id c)); [done|]. intros Et. by apply H, main_core_eq. }
  set (b' := mkSimBarrier [] (m_count b) (arrival_time b time)).
  assert (∀ p', queue_of (with_sync_barrier i b' (s <| m_mcp := mcp' |>)) p'
                = if decide (p' = PBarrier i) then [] else queue_of s p') as Hq'.
  { intros p'. by rewrite (queue_of_with_barrier _ _ b). }
  exists mcp'. split_and!.
  - unfold barrier_wait. rewrite (run_bind _ _ _ _ _ (barrier_at_run _ _ _ Hb)). fold l.
    rewrite (run_bind _ _ _ tt (with_sync_barrier i (b <| barrier_waiting := l |>) s)) by done.
    rewrite (run_bind _ _ _ tt ((with_sync_barrier i (b <| barrier_waiting := l |>) s)
      <| m_mcp := mcp1 |>)) by (by apply thread_manager_run).
    assert (zlength l = m_count b) as Hl by (unfold l; rewrite zlength_snoc; lia).
    unfold assert. rewrite Hl, Z.leb_refl.
    unfold set_barrier, modify, mbind at 1 2, M_bind at 1 2. cbn -[mfor]. rewrite Z.eqb_refl.
    match goal with |- ?f ?x = _ => assert (x = s2) as -> end.
    { unfold s2, with_sync_barrier, arrival_time. cbn.
      replace (zlength (barrier_waiting b) + 1) with (m_count b) by lia.
      by rewrite zinsert_zinsert. }
    rewrite (run_bind _ _ _ _ _ Em). unfold s2, with_sync_barrier, b', arrival_time. cbn.
    replace (zlength (barrier_waiting b) + 1) with (m_count b) by lia.
    unfold set_barrier, modify, mbind, M_bind. cbn. by rewrite zinsert_zinsert.
  - destruct I as [J1 J2 J3 J4 J5 J6 J7]. constructor; [done| | |done|done| |].
    + eapply exclusive_sublist; [exact J2|]. intros p. rewrite Hq'. case_decide; [apply sublist_nil_l|done].
    + intros p d. rewrite Hq'. case_decide as Ep; [set_solver|]. intros Hd. destruct (J3 p d Hd) as [Hm Hdb].
      split; [done|]. apply Hoth'; [done| |done]. intros [Hd'|Hd']%elem_of_app.
      * apply Ep. rewrite <- Hq in Hd'. by eapply J2.
      * apply list_elem_of_singleton in Hd' as ->. apply Hnq. by exists p.
    + cbn. intros k d [(-> & -> & _)|[_ Hd]]%zlookup_zinsert; [by left|by apply (J6 k)].
    + cbn. by rewrite zlength_zinsert.
  - intros d Hd Hacc. destruct (decide (d ∈ l)) as [Hdl|Hdl]; [left; by apply Hrun|].
    destruct Hacc as [?|[p Hp]]; [left; by apply Hoth'|right]. exists p. rewrite Hq'.
    case_decide; [subst; rewrite Hq in Hp; set_solver|done].
  - exact Hrun.
  - destruct Ho as [_ _ _ _ [r Hr']]. exists r. by rewrite Hs'.
Qed.

(** ** Messages and buffers *)

Definition is_sync (m : Sent) : Prop :=
  match m with ToCore _ (SyncReply _ _) | ToCore _ (SyncAck _) | ToCore _ (SyncId _) => True | _ => False end.
#[global] Instance is_sync_dec m : Decision (is_sync m).
Proof. destruct m as [? []| | |]; cbn; apply _. Defined.
(** The replies of the server so far. *)
Definition replies (s : SyncServer) : list Sent := filter is_sync (Mcp.m_sent (m_mcp s)).

Definition sending (l : list Sent) (s : SyncServer) : SyncServer :=
  s <| m_mcp ::= λ mcp, mcp <| Mcp.m_sent := Mcp.m_sent mcp ++ l |> |>.

Lemma netSend_run s c m : netSend c m s = Ok (tt, sending [ToCore c m] s).
Proof. done. Qed.

Lemma mcp_wf_sent mcp l : mcp_wf mcp → mcp_wf (mcp <| Mcp.m_sent := l |>).
Proof. intros [[W1 W2] WB]. split; [by split|done]. Qed.

Lemma inv_sending s l : sync_inv s → sync_inv (sending l s).
Proof. intros []. constructor; try assumption. by apply (mcp_wf_sent (m_mcp s)). Qed.
Lemma accounts_sending s l : accounts s (sending l s).
Proof. by intros d Hd. Qed.
Lemma inv_recv s l : sync_inv s → sync_inv (s <| m_recv_buffer := l |>).
Proof. intros []. by constructor. Qed.

Lemma replies_sending s l : replies (sending l s) = replies s ++ filter is_sync l.
Proof. unfold replies. cbn. by rewrite filter_app. Qed.
Lemma filter_release l : filter is_sync (release_message <$> l) = [].
Proof. apply filter_nil_iff. intros x (t & -> & _)%list_elem_of_fmap []. Qed.
Lemma replies_change s s' l :
  Mcp.m_sent (m_mcp s') = Mcp.m_sent (m_mcp s) ++ (release_message <$> l) → replies s' = replies s.
Proof. intros H. unfold replies. by rewrite H, filter_app, filter_release, app_nil_r. Qed.

Lemma mfor_netSend s l msg :
  (∀ c, c ∈ l → valid c = true) →
  ∀ site, mfor l (λ c, assert (valid c) site ;; netSend c msg) s = Ok (tt, sending ((λ c, ToCore c msg) <$> l) s).
Proof.
  intros Hl site. revert s. induction l as [|c l IH]; intros s.
  - destruct s as [mcp ? ? ? ?]. unfold sending. cbn. destruct mcp. cbn. by rewrite app_nil_r.
  - cbn [mfor]. unfold mbind, M_bind, assert. rewrite (Hl c) by apply list_elem_of_here. cbn -[netSend mfor].
    rewrite netSend_run, IH by (intros d Hd; apply Hl; by apply list_elem_of_further).
    unfold sending. cbn. by rewrite <- app_assoc.
Qed.

Definition buffer (l : list Z) (s : SyncServer) : SyncServer := s <| m_recv_buffer := l |>.

Lemma recv_run {A} rd (x : A) l l' s :
  rd l = Ok (x, l') → recv rd (buffer l s) = Ok (x, buffer l' s).
Proof. intros H. unfold recv. cbn. by rewrite H. Qed.

Lemma message_of_code m : message_of (code_of m) = Some m ∧ 0 ≤ code_of m < 28.
Proof. by destruct m. Qed.

(** The packet of a request reaches its handler, with the rest in the buffer. *)
Lemma serve_run s c r rest handler :
  SyncClient.packet r = UnstructuredBuffer.bytes_of 4 (code_of (SyncClient.msg_type r)) ++ rest →
  dispatch (SyncClient.msg_type r) c = Some handler →
  serve c (SyncClient.packet r) s = handler (buffer rest s).
Proof.
  intros Hp Hd. unfold serve. rewrite Hp.
  destruct (message_of_code (SyncClient.msg_type r)) as [Hm Hr].
  rewrite (run_bind _ _ _ tt (buffer (UnstructuredBuffer.bytes_of 4 (code_of (SyncClient.msg_type r)) ++ rest) s))
    by done.
  erewrite run_bind; [|apply recv_run, UnstructuredBuffer.read_s32_put; lia].
  rewrite Hm. cbn. by rewrite Hd.
Qed.

Lemma packet_arg x time code rest :
  rest = UnstructuredBuffer.bytes_of 4 x ++ UnstructuredBuffer.bytes_of 8 time →
  UnstructuredBuffer.put 8 time (UnstructuredBuffer.put 4 x
    (UnstructuredBuffer.put 4 code UnstructuredBuffer.clear)) = UnstructuredBuffer.bytes_of 4 code ++ rest.
Proof. intros ->. unfold UnstructuredBuffer.put, UnstructuredBuffer.put_bytes. cbn. done. Qed.

(** The two arguments that most handlers read. *)
Lemma read_args {B} x time (f : Z → Z → M SyncServer B) s :
  0 ≤ x < 2 ^ 31 → 0 ≤ time < 2 ^ 64 →
  (a ← recv UnstructuredBuffer.read_s32 ; t ← recv UnstructuredBuffer.read_u64 ; f a t)
    (buffer (UnstructuredBuffer.bytes_of 4 x ++ UnstructuredBuffer.bytes_of 8 time) s)
  = f x time (buffer [] s).
Proof.
  intros Hx Ht. erewrite run_bind; [|apply recv_run, UnstructuredBuffer.read_s32_put; lia].
  rewrite <- (app_nil_r (UnstructuredBuffer.bytes_of 8 time)).
  erewrite run_bind; [|apply recv_run, UnstructuredBuffer.read_u64_put; lia]. done.
Qed.

(** ** The handlers *)

(** What every request keeps. *)
Definition kept (s s' : SyncServer) : Prop := sync_inv s' ∧ accounts s s'.

Lemma kept_sending s s' l : kept s s' → kept s (sending l s').
Proof. intros [I A]. split; [by apply inv_sending|]. etrans; [exact A|apply accounts_sending]. Qed.

Lemma buffer_inv s l : sync_inv s → sync_inv (buffer l s).
Proof. apply inv_recv. Qed.

Lemma index_ok {A} (v : vector A) x : 0 ≤ x < zlength (elems v) → zlength (elems v) < 2 ^ 31 →
  (u64 x <? zlength (elems v)) = true.
Proof. intros H Hv. rewrite u64_small by lia. apply Z.ltb_lt; lia. Qed.

(** The replies of [lock] and [unlock] are those of a first-in first-out lock. *)
Lemma mutexLock_spec s c mux time m :
  sync_inv s → isMainCore c = true → core_runs (m_mcp s) c → 0 ≤ time < 2 ^ 64 →
  zlookup (elems (m_mutexes s)) mux = Some m →
  ∃ s' m', serve c (SyncClient.packet (SyncClient.MutexLock mux time)) s = Ok (tt, s') ∧ kept s s' ∧
    elems (m_mutexes s') = zinsert mux m' (elems (m_mutexes s)) ∧ holders m' = holders m ++ [c] ∧
    replies s' = replies s ++
      (if bool_decide (holders m = []) then [ToCore c (SyncReply MUTEX_LOCK_RESPONSE time)] else []) ∧
    m_conds s' = m_conds s ∧ m_barriers s' = m_barriers s.
Proof.
  intros I Hc Hr Ht Hm. pose proof (zlookup_Some _ _ _ Hm) as [Hx _].
  pose proof (inv_sizes _ I) as (Hs & _ & _).
  erewrite serve_run; [|by apply packet_arg|done]. unfold mutexLock. rewrite read_args by lia. unfold mutexLock_with.
  unfold gets, mbind at 1 2, M_bind at 1 2. cbn -[lock sending]. rewrite index_ok by done.
  destruct (lock_spec (buffer [] s) mux c m) as (mcp' & m' & E & I' & Hh & Hch & Hif); [by apply buffer_inv|done..|].
  unfold skip, mret, M_ret. rewrite (run_bind _ _ _ _ _ E).
  set (s1 := with_mutex mux m' ((buffer [] s) <| m_mcp := mcp' |>)) in *.
  assert (kept s s1) as K.
  { split; [done|]. apply (lock_accounts (buffer [] s) mux c m); [by apply buffer_inv|done|done|done|done|done|].
    case_bool_decide; naive_solver. }
  assert (replies s1 = replies s) as Hrep.
  { destruct Hch as [_ [_ _ _ _ [l Hl]]]. by apply (replies_change _ _ l). }
  case_bool_decide; cbn [when].
  - exists (sending [ToCore c (SyncReply MUTEX_LOCK_RESPONSE time)] s1), m'.
    split_and!; [done|by apply kept_sending|done|done| |done|done].
    rewrite replies_sending, Hrep. done.
  - exists s1, m'. split_and!; [done..|by rewrite app_nil_r|done|done].
Qed.

Lemma mutexUnlock_spec s c mux time m rest :
  sync_inv s → 0 ≤ time < 2 ^ 64 →
  zlookup (elems (m_mutexes s)) mux = Some m → holders m = c :: rest →
  ∃ s' m', serve c (SyncClient.packet (SyncClient.MutexUnlock mux time)) s = Ok (tt, s') ∧ kept s s' ∧
    elems (m_mutexes s') = zinsert mux m' (elems (m_mutexes s)) ∧ holders m' = rest ∧
    replies s' = replies s ++ ((λ next, ToCore next (SyncReply MUTEX_LOCK_RESPONSE time)) <$> take 1 rest)
                   ++ [ToCore c (SyncAck MUTEX_UNLOCK_RESPONSE)] ∧
    m_conds s' = m_conds s ∧ m_barriers s' = m_barriers s.
Proof.
  intros I Ht Hm Hh. pose proof (zlookup_Some _ _ _ Hm) as [Hx _].
  pose proof (inv_sizes _ I) as (Hs & _ & _).
  erewrite serve_run; [|by apply packet_arg|done]. unfold mutexUnlock. rewrite read_args by lia. unfold mutexUnlock_with.
  unfold gets, mbind at 1 2, M_bind at 1 2. cbn -[unlock sending]. unfold assert. rewrite index_ok by done.
  destruct (unlock_spec (buffer [] s) mux c m rest) as (mcp' & m' & E & I' & Hh' & Hrest); [by apply buffer_inv|done..|].
  unfold mret, M_ret. rewrite (run_bind _ _ _ _ _ E).
  set (s1 := with_mutex mux m' ((buffer [] s) <| m_mcp := mcp' |>)) in *.
  assert (kept s s1) as K.
  { split; [done|]. by apply (unlock_accounts (buffer [] s) mux c m _ _ rest); [apply buffer_inv|..]. }
  destruct rest as [|next rest]; cbn [hd].
  - subst mcp'. cbn [valid INVALID_CORE_ID tile_id].
    exists (sending [ToCore c (SyncAck MUTEX_UNLOCK_RESPONSE)] s1), m'.
    split_and!; [done|by apply kept_sending|done|done| |done|done]. by rewrite replies_sending.
  - destruct Hrest as (_ & _ & Hrn & Hsent). rewrite (runs_valid _ _ Hrn). cbn [when].
    rewrite (run_bind _ _ _ _ _ (netSend_run _ _ _)), netSend_run.
    eexists _, m'. split_and!; [done|by apply kept_sending, kept_sending|done|done| |done|done].
    rewrite !replies_sending, <- app_assoc.
    rewrite (replies_change s s1 []); [done|]. cbn. by rewrite Hsent, app_nil_r.
Qed.

Lemma condWait_spec s c cond mux time k m rest :
  sync_inv s → isMainCore c = true → core_runs (m_mcp s) c → 0 ≤ time < 2 ^ 64 →
  zlookup (elems (m_conds s)) cond = Some k → zlookup (elems (m_mutexes s)) mux = Some m →
  holders m = c :: rest →
  ∃ s' m', serve c (SyncClient.packet (SyncClient.CondWait cond mux time)) s = Ok (tt, s') ∧ kept s s' ∧
    elems (m_conds s') = zinsert cond (mkSimCond (cond_waiting k ++ [mkCondWaiter c mux time])) (elems (m_conds s)) ∧
    elems (m_mutexes s') = zinsert mux m' (elems (m_mutexes s)) ∧ holders m' = rest ∧
    replies s' = replies s ++ ((λ next, ToCore next (SyncReply MUTEX_LOCK_RESPONSE time)) <$> take 1 rest) ∧
    m_barriers s' = m_barriers s.
Proof.
  intros I Hc Hr Ht Hk Hm Hh. pose proof (zlookup_Some _ _ _ Hm) as [Hx _]. pose proof (zlookup_Some _ _ _ Hk) as [Hy _].
  pose proof (inv_sizes _ I) as (Hs & Hs' & _).
  erewrite serve_run;
    [|instantiate (1 := UnstructuredBuffer.bytes_of 4 cond ++ (UnstructuredBuffer.bytes_of 4 mux
        ++ UnstructuredBuffer.bytes_of 8 time)); reflexivity|done].
  unfold condWait. erewrite run_bind; [|apply recv_run, UnstructuredBuffer.read_s32_put; lia].
  rewrite read_args by lia. unfold condWait_with.
  unfold gets, mbind at 1 2 3, M_bind at 1 2 3. cbn -[wait_on sending]. unfold assert. rewrite !index_ok by done.
  destruct (wait_on_spec (buffer [] s) cond mux c time m k rest) as (mcp' & m' & E & I' & A & Hh' & Hb & (l & Hl) & Hrest);
    [by apply buffer_inv|done..|].
  unfold mret, M_ret. rewrite (run_bind _ _ _ _ _ E).
  match type of I' with sync_inv ?x => set (s1 := x) in * end.
  assert (kept s s1) as K by (by split).
  assert (replies s1 = replies s) as Hrep by (by apply (replies_change _ _ l)).
  destruct rest as [|next rest]; cbn [hd].
  - cbn [valid INVALID_CORE_ID tile_id when]. exists s1, m'. split_and!; [done..| |done]. by rewrite app_nil_r.
  - rewrite (runs_valid _ _ Hrest). cbn [when]. rewrite netSend_run.
    eexists _, m'. split_and!; [done|by apply kept_sending|done|done|done| |done].
    by rewrite replies_sending, Hrep.
Qed.

Lemma condSignal_none_spec s c cond time k :
  sync_inv s → 0 ≤ time < 2 ^ 64 →
  zlookup (elems (m_conds s)) cond = Some k → cond_waiting k = [] →
  ∃ s', serve c (SyncClient.packet (SyncClient.CondSignal cond time)) s = Ok (tt, s') ∧ kept s s' ∧
    m_mutexes s' = m_mutexes s ∧ m_conds s' = m_conds s ∧ m_barriers s' = m_barriers s ∧
    replies s' = replies s ++ [ToCore c (SyncAck COND_SIGNAL_RESPONSE)].
Proof.
  intros I Ht Hk Hw. pose proof (zlookup_Some _ _ _ Hk) as [Hy _]. pose proof (inv_sizes _ I) as (_ & Hs' & _).
  erewrite serve_run; [|by apply packet_arg|done]. unfold condSignal. rewrite read_args by lia. unfold condSignal_with.
  unfold gets, mbind at 1 2, M_bind at 1 2. cbn -[signal sending]. unfold assert. rewrite index_ok by done.
  unfold mret, M_ret. rewrite (run_bind _ _ _ INVALID_CORE_ID (buffer [] s)) by (by eapply signal_none_spec).
  exists (sending [ToCore c (SyncAck COND_SIGNAL_RESPONSE)] (buffer [] s)).
  split_and!; [done| |done..|by rewrite replies_sending].
  apply kept_sending. split; [by apply buffer_inv|by intros d Hd].
Qed.

Lemma condSignal_spec s c cond time k w ws :
  sync_inv s → 0 ≤ time < 2 ^ 64 →
  zlookup (elems (m_conds s)) cond = Some k → cond_waiting k = w :: ws →
  ∃ s' m m', serve c (SyncClient.packet (SyncClient.CondSignal cond time)) s = Ok (tt, s') ∧ kept s s' ∧
    elems (m_conds s') = zinsert cond (mkSimCond ws) (elems (m_conds s)) ∧
    zlookup (elems (m_mutexes s)) (m_mutex w) = Some m ∧
    elems (m_mutexes s') = zinsert (m_mutex w) m' (elems (m_mutexes s)) ∧
    holders m' = holders m ++ [m_core_id w] ∧ m_barriers s' = m_barriers s ∧
    replies s' = replies s
      ++ (if bool_decide (holders m = []) then [ToCore (m_core_id w) (SyncReply MUTEX_LOCK_RESPONSE time)] else [])
      ++ [ToCore c (SyncAck COND_SIGNAL_RESPONSE)].
Proof.
  intros I Ht Hk Hw. pose proof (zlookup_Some _ _ _ Hk) as [Hy _]. pose proof (inv_sizes _ I) as (_ & Hs' & _).
  erewrite serve_run; [|by apply packet_arg|done]. unfold condSignal. rewrite read_args by lia. unfold condSignal_with.
  unfold gets, mbind at 1 2, M_bind at 1 2. cbn -[signal sending]. unfold assert. rewrite index_ok by done.
  destruct (signal_spec (buffer [] s) cond k w ws) as (mcp' & m & m' & Hm & E & I' & A & Hh & Hch & Hif);
    [by apply buffer_inv|done..|].
  unfold mret, M_ret. rewrite (run_bind _ _ _ _ _ E).
  match type of I' with sync_inv ?x => set (s1 := x) in * end.
  assert (kept s s1) as K by (by split).
  assert (replies s1 = replies s) as Hrep.
  { destruct Hch as [_ [_ _ _ _ [l Hl]]]. by apply (replies_change _ _ l). }
  case_bool_decide.
  - rewrite (runs_valid _ _ Hif). cbn [when]. rewrite (run_bind _ _ _ _ _ (netSend_run _ _ _)), netSend_run.
    eexists _, m, m'. split_and!; [done|by apply kept_sending, kept_sending|done..|].
    rewrite !replies_sending, Hrep, <- (app_assoc (replies s)). by rewrite bool_decide_eq_true_2.
  - exists (sending [ToCore c (SyncAck COND_SIGNAL_RESPONSE)] s1), m, m'.
    split_and!; [done|by apply kept_sending|done..|].
    rewrite replies_sending, Hrep. by rewrite bool_decide_eq_false_2.
Qed.

Lemma condBroadcast_spec s c cond time k :
  sync_inv s → 0 ≤ time < 2 ^ 64 → zlookup (elems (m_conds s)) cond = Some k →
  ∃ s' granted, serve c (SyncClient.packet (SyncClient.CondBroadcast cond time)) s = Ok (tt, s') ∧ kept s s' ∧
    elems (m_conds s') = zinsert cond (mkSimCond []) (elems (m_conds s)) ∧
    (∀ i m, zlookup (elems (m_mutexes s)) i = Some m → ∃ m', zlookup (elems (m_mutexes s')) i = Some m' ∧
       holders m' = holders m ++ (m_core_id <$> filter (λ w, m_mutex w = i) (cond_waiting k))) ∧
    m_barriers s' = m_barriers s ∧ sublist granted (m_core_id <$> cond_waiting k) ∧
    (∀ d, d ∈ granted → core_runs (m_mcp s') d) ∧
    replies s' = replies s ++ ((λ d, ToCore d (SyncReply MUTEX_LOCK_RESPONSE time)) <$> granted)
      ++ [ToCore c (SyncAck COND_BROADCAST_RESPONSE)].
Proof.
  intros I Ht Hk. pose proof (zlookup_Some _ _ _ Hk) as [Hy _]. pose proof (inv_sizes _ I) as (_ & Hs' & _).
  erewrite serve_run; [|by apply packet_arg|done]. unfold condBroadcast. rewrite read_args by lia. unfold condBroadcast_with.
  unfold gets, mbind at 1 2, M_bind at 1 2. cbn -[broadcast sending]. unfold assert at 1. rewrite index_ok by done.
  destruct (broadcast_spec (buffer [] s) cond k) as (s1 & granted & E & A & [V1 V2 V3 V4 V5 V6 V7 V8 [l V9]] & Hsub);
    [by apply buffer_inv|done|].
  unfold mret, M_ret. rewrite (run_bind _ _ _ _ _ E).
  rewrite (run_bind _ _ _ tt (sending ((λ d, ToCore d (SyncReply MUTEX_LOCK_RESPONSE time)) <$> granted) s1)).
  - rewrite netSend_run. eexists _, granted. split_and!; [done| |cbn; by rewrite V4|exact V6|done|done|exact V8|].
    + apply kept_sending, kept_sending. by split.
    + rewrite !replies_sending, <- app_assoc. f_equal; [by apply (replies_change _ _ l)|]. f_equal.
      rewrite filter_all; [done|]. by intros x (d & -> & _)%list_elem_of_fmap.
  - apply (mfor_netSend s1 granted (SyncReply MUTEX_LOCK_RESPONSE time)). intros d Hd. by eapply runs_valid, V8.
Qed.

Lemma barrierWait_early_spec s c i time b :
  sync_inv s → isMainCore c = true → core_runs (m_mcp s) c → 0 ≤ time < 2 ^ 64 →
  zlookup (elems (m_barriers s)) i = Some b → zlength (barrier_waiting b) + 1 < m_count b →
  ∃ s', serve c (SyncClient.packet (SyncClient.BarrierWait i time)) s = Ok (tt, s') ∧ kept s s' ∧
    elems (m_barriers s') = zinsert i (mkSimBarrier (barrier_waiting b ++ [c]) (m_count b) (arrival_time b time))
      (elems (m_barriers s)) ∧
    m_mutexes s' = m_mutexes s ∧ m_conds s' = m_conds s ∧ replies s' = replies s ∧
    core_change c (m_mcp s) (m_mcp s').
Proof.
  intros I Hc Hr Ht Hb Hn. pose proof (zlookup_Some _ _ _ Hb) as [Hx _]. pose proof (inv_sizes _ I) as (_ & _ & Hs).
  erewrite serve_run; [|by apply packet_arg|done]. unfold barrierWait. rewrite read_args by lia. unfold barrierWait_with.
  unfold gets, mbind at 1 2, M_bind at 1 2. cbn -[barrier_wait sending].
  rewrite s32_small, (proj2 (Z.ltb_lt _ _)) by lia.
  destruct (barrier_wait_early (buffer [] s) i c time b) as (mcp' & E & I' & A & Hbl & Hch);
    [by apply buffer_inv|done..|].
  unfold skip, mret, M_ret. rewrite (run_bind _ _ _ _ _ E).
  match type of I' with sync_inv ?x => set (s1 := x) in * end.
  erewrite run_bind; [|apply barrier_at_run; cbn; by apply zlookup_zinsert_eq].
  exists s1. split_and!; [done|by split|done..| |done].
  destruct Hch as [_ [_ _ _ _ [l Hl]]]. by apply (replies_change _ _ l).
Qed.

Lemma barrierWait_last_spec s c i time b :
  sync_inv s → isMainCore c = true → core_runs (m_mcp s) c → 0 ≤ time < 2 ^ 64 →
  zlookup (elems (m_barriers s)) i = Some b → zlength (barrier_waiting b) + 1 = m_count b →
  ∃ s', serve c (SyncClient.packet (SyncClient.BarrierWait i time)) s = Ok (tt, s') ∧ kept s s' ∧
    elems (m_barriers s') = zinsert i (mkSimBarrier [] (m_count b) (arrival_time b time)) (elems (m_barriers s)) ∧
    m_mutexes s' = m_mutexes s ∧ m_conds s' = m_conds s ∧
    (∀ d, d ∈ barrier_waiting b ++ [c] → core_runs (m_mcp s') d) ∧
    replies s' = replies s
      ++ ((λ d, ToCore d (SyncReply BARRIER_WAIT_RESPONSE (arrival_time b time))) <$> (barrier_waiting b ++ [c])).
Proof.
  intros I Hc Hr Ht Hb Hn. pose proof (zlookup_Some _ _ _ Hb) as [Hx _]. pose proof (inv_sizes _ I) as (_ & _ & Hs).
  erewrite serve_run; [|by apply packet_arg|done]. unfold barrierWait. rewrite read_args by lia. unfold barrierWait_with.
  unfold gets, mbind at 1 2, M_bind at 1 2. cbn -[barrier_wait sending].
  rewrite s32_small, (proj2 (Z.ltb_lt _ _)) by lia.
  destruct (barrier_wait_last (buffer [] s) i c time b) as (mcp' & E & I' & A & Hrun & [l Hl]);
    [by apply buffer_inv|done..|].
  unfold skip, mret, M_ret. rewrite (run_bind _ _ _ _ _ E).
  match type of I' with sync_inv ?x => set (s1 := x) in * end.
  erewrite run_bind; [|apply barrier_at_run; cbn; by apply zlookup_zinsert_eq].
  rewrite mfor_netSend by (intros d Hd; by eapply runs_valid, Hrun).
  eexists. split_and!; [done|apply kept_sending; by split|done..|].
  rewrite replies_sending. f_equal; [by apply (replies_change _ _ l)|].
  rewrite filter_all; [done|]. by intros x (d & -> & _)%list_elem_of_fmap.
Qed.

(** ** Initialisation *)

Lemma push_back_run {A} (destroy : A → res unit) x v :
  zlength (elems v) < capacity v ∨ (∀ e, e ∈ elems v → destroy e = Ok tt) →
  ∃ v', push_back destroy x v = Ok v' ∧ elems v' = elems v ++ [x].
Proof.
  intros H. unfold push_back. destruct (_ <? _) eqn:E; [by eexists|]. breflect.
  destruct H as [H|H]; [lia|].
  assert (foldl (λ done e, done ;; destroy e) (Ok tt) (elems v) = Ok tt) as ->; [|by eexists].
  revert H. generalize (elems v) as l. induction l as [|e l IH]; intros Hd; [done|]. cbn.
  rewrite (Hd e) by apply list_elem_of_here. apply IH. intros f Hf. apply Hd. by apply list_elem_of_further.
Qed.

Lemma zlookup_snoc {A} (l : list A) x i y :
  zlookup (l ++ [x]) i = Some y → zlookup l i = Some y ∨ (i = zlength l ∧ y = x).
Proof.
  intros [Hi H]%zlookup_Some. rewrite zlookup_nat by lia. unfold zlength in *.
  apply lookup_app_Some in H as [?|[Hle H]]; [by left|right].
  apply list_lookup_singleton_Some in H as [? ->]. split; [lia|done].
Qed.

Lemma default_snoc {A B} (f : A → list B) l x k :
  f x = [] → default [] (f <$> zlookup (l ++ [x]) k) = default [] (f <$> zlookup l k).
Proof.
  intros Hx. destruct (zlookup (l ++ [x]) k) as [y|] eqn:E.
  - pose proof E as [H|[-> ->]]%zlookup_snoc; [by rewrite H|]. cbn. rewrite Hx.
    destruct (zlookup l (zlength l)) as [z|] eqn:E'; [|done]. apply zlookup_Some in E' as [? _]. lia.
  - destruct (zlookup l k) as [z|] eqn:E'; [|done]. apply zlookup_Some in E' as [Hr Hz].
    rewrite zlookup_nat in E by lia. rewrite lookup_app_l in E; [congruence|]. unfold zlength in Hr. lia.
Qed.

(** A new object with an empty queue changes nothing else. *)
Lemma inv_same_queues s s' :
  sync_inv s → m_mcp s' = m_mcp s → (∀ p, queue_of s' p = queue_of s p) →
  (∀ i m, zlookup (elems (m_mutexes s')) i = Some m → tile_id (m_owner m) = INVALID_TILE_ID → mutex_waiting m = []) →
  (∀ i c w, zlookup (elems (m_conds s')) i = Some c → w ∈ cond_waiting c → 0 ≤ m_mutex w < zlength (elems (m_mutexes s'))) →
  (∀ i b, zlookup (elems (m_barriers s')) i = Some b → barrier_waiting b = [] ∨ zlength (barrier_waiting b) < m_count b) →
  zlength (elems (m_mutexes s')) < 2 ^ 31 ∧ zlength (elems (m_conds s')) < 2 ^ 31 ∧ zlength (elems (m_barriers s')) < 2 ^ 31 →
  kept s s'.
Proof.
  intros [? I2 I3 _ _ _ _] Hm Hq H4 H5 H6 H7. split.
  - constructor; [by rewrite Hm| | |done..].
    + destruct I2 as [Hnd Hex]. split; [intros p; by rewrite Hq|]. intros p1 p2 c. rewrite !Hq. apply Hex.
    + intros p c. rewrite Hq, Hm. apply I3.
  - intros d Hd [Hr|[p Hp]]; [left; by rewrite Hm|right]. exists p. by rewrite Hq.
Qed.

Lemma mutexInit_spec s c :
  sync_inv s → zlength (elems (m_mutexes s)) + 1 < 2 ^ 31 →
  zlength (elems (m_mutexes s)) < capacity (m_mutexes s) ∨ (∀ m, m ∈ elems (m_mutexes s) → mutex_waiting m = []) →
  ∃ s', serve c (SyncClient.packet SyncClient.MutexInit) s = Ok (tt, s') ∧ kept s s' ∧
    elems (m_mutexes s') = elems (m_mutexes s) ++ [new_mutex] ∧
    replies s' = replies s ++ [ToCore c (SyncId (zlength (elems (m_mutexes s))))].
Proof.
  intros I Hl Hp. destruct (push_back_run destroy_mutex new_mutex (m_mutexes s)) as (v & E & Hv).
  { destruct Hp as [?|Hp]; [by left|right]. intros m Hm. unfold destroy_mutex. by rewrite bool_decide_eq_true_2 by auto. }
  erewrite serve_run; [|instantiate (1 := []); reflexivity|done].
  unfold mutexInit, gets, lift, modify, mbind, M_bind. cbn -[sending netSend]. rewrite E, netSend_run.
  assert (u32 (zlength (elems v) - 1) = zlength (elems (m_mutexes s))) as ->.
  { rewrite Hv, zlength_snoc, u32_small; [lia|]. unfold zlength in *. lia. }
  eexists. split_and!; [done| |done|by rewrite replies_sending]. apply kept_sending.
  pose proof I as [_ _ _ I4 I5 I6 (I7 & I8 & I9)]. apply inv_same_queues; cbn; [done|done| |..|].
  - intros [i|i|i]; cbn; [|done..]. rewrite Hv. by apply default_snoc.
  - rewrite Hv. intros i m [Hm|[_ ->]]%zlookup_snoc; [by apply (I4 i)|done].
  - rewrite Hv, zlength_snoc. intros i k w Hk Hw. specialize (I5 i k w Hk Hw). lia.
  - done.
  - rewrite Hv, zlength_snoc. lia.
Qed.

Lemma condInit_spec s c x time :
  sync_inv s → zlength (elems (m_conds s)) + 1 < 2 ^ 31 →
  zlength (elems (m_conds s)) < capacity (m_conds s) ∨ (∀ k, k ∈ elems (m_conds s) → cond_waiting k = []) →
  ∃ s', serve c (SyncClient.packet (SyncClient.CondInit x time)) s = Ok (tt, s') ∧ kept s s' ∧
    elems (m_conds s') = elems (m_conds s) ++ [new_cond] ∧
    replies s' = replies s ++ [ToCore c (SyncId (zlength (elems (m_conds s))))].
Proof.
  intros I Hl Hp. destruct (push_back_run destroy_cond new_cond (m_conds s)) as (v & E & Hv).
  { destruct Hp as [?|Hp]; [by left|right]. intros m Hm. unfold destroy_cond. by rewrite Hp. }
  erewrite serve_run; [|by apply packet_arg|done].
  unfold condInit, gets, lift, modify, mbind, M_bind. cbn -[sending netSend]. rewrite E, netSend_run.
  assert (u32 (zlength (elems v) - 1) = zlength (elems (m_conds s))) as ->.
  { rewrite Hv, zlength_snoc, u32_small; [lia|]. unfold zlength in *. lia. }
  eexists. split_and!; [done| |done|by rewrite replies_sending]. apply kept_sending.
  pose proof I as [_ _ _ I4 I5 I6 (I7 & I8 & I9)]. apply inv_same_queues; cbn; [done|done| |..|].
  - intros [i|i|i]; cbn; [done| |done]. rewrite Hv. by apply default_snoc.
  - done.
  - rewrite Hv. intros i k w [Hk|[_ ->]]%zlookup_snoc Hw; [by apply (I5 i k)|cbn in Hw; set_solver].
  - done.
  - rewrite Hv, zlength_snoc. lia.
Qed.

Lemma barrierInit_spec s c count time :
  sync_inv s → 0 ≤ count < 2 ^ 32 → zlength (elems (m_barriers s)) + 1 < 2 ^ 31 →
  zlength (elems (m_barriers s)) < capacity (m_barriers s) ∨ (∀ b, b ∈ elems (m_barriers s) → barrier_waiting b = []) →
  ∃ s', serve c (SyncClient.packet (SyncClient.BarrierInit count time)) s = Ok (tt, s') ∧ kept s s' ∧
    elems (m_barriers s') = elems (m_barriers s) ++ [new_barrier count] ∧
    replies s' = replies s ++ [ToCore c (SyncId (zlength (elems (m_barriers s))))].
Proof.
  intros I Hc Hl Hp. destruct (push_back_run destroy_barrier (new_barrier count) (m_barriers s)) as (v & E & Hv).
  { destruct Hp as [?|Hp]; [by left|right]. intros m Hm. unfold destroy_barrier. by rewrite bool_decide_eq_true_2 by auto. }
  erewrite serve_run; [|by apply packet_arg|done]. unfold barrierInit.
  erewrite run_bind; [|apply recv_run, UnstructuredBuffer.read_u32_put; lia].
  unfold barrierInit_with, gets, lift, modify, mbind, M_bind. cbn -[sending netSend]. rewrite E, netSend_run.
  assert (u32 (zlength (elems v) - 1) = zlength (elems (m_barriers s))) as ->.
  { rewrite Hv, zlength_snoc, u32_small; [lia|]. unfold zlength in *. lia. }
  eexists. split_and!; [done| |done|by rewrite replies_sending]. apply kept_sending.
  pose proof I as [_ _ _ I4 I5 I6 (I7 & I8 & I9)]. apply inv_same_queues; cbn; [done|done| |..|].
  - intros [i|i|i]; cbn; [done..|]. rewrite Hv. by apply default_snoc.
  - done.
  - done.
  - rewrite Hv. intros i b [Hb|[_ ->]]%zlookup_snoc; [by apply (I6 i)|by left].
  - rewrite Hv, zlength_snoc. lia.
Qed.

Lemma make_inv mcp : mcp_wf mcp → sync_inv (make mcp).
Proof.
  intros W. assert (∀ p, queue_of (make mcp) p = []) as Hq.
  { intros [i|i|i]; cbn; unfold zlookup; by destruct (0 <=? i). }
  assert (∀ A i (x : A), zlookup [] i ≠ Some x) as Hn by (intros A i x H; by apply zlookup_Some in H as [_ ?]).
  constructor; [done| | |..|done].
  - split; [intros p; rewrite Hq; constructor|]. intros p1 p2 c. rewrite Hq. set_solver.
  - intros p c. rewrite Hq. set_solver.
  - cbn. intros i m H. by apply Hn in H.
  - cbn. intros i m w H. by apply Hn in H.
  - cbn. intros i m H. by apply Hn in H.
Qed.
