(* ===== verification/SyncTheorems.v ===== *)
(** * SyncTheorems: the synchronisation server and the clock-skew barrier

    What the master promises to the application's cores: requests of running
    cores never abort the server and lose no core, mutexes are first-in
    first-out, condition variables pass their waiters on to the mutex, barriers
    release everyone at the latest arrival time, and the clock-skew barrier
    keeps the clocks of the released tiles within one quantum. *)
From S2P Require Import Prelude ThreadManager ThreadManagerProofs Packetize SyncServer SyncServerProofs.
Import SyncServer.

(** ** Clients *)

(** The request of a core whose thread runs, for an object that exists; a
    mutex is released, by [mutexUnlock] or [condWait], only by its owner, and
    nobody waits at a barrier for no cores. *)
Definition client_ok (s : SyncServer) (c : core_id_t) (r : SyncClient.Request) : Prop :=
  isMainCore c = true ∧ core_runs (m_mcp s) c ∧
  match r with
  | SyncClient.MutexInit => zlength (elems (m_mutexes s)) + 1 < 2 ^ 31
  | SyncClient.MutexLock mux time =>
    0 ≤ time < 2 ^ 64 ∧ ∃ m, zlookup (elems (m_mutexes s)) mux = Some m
  | SyncClient.MutexUnlock mux time =>
    0 ≤ time < 2 ^ 64 ∧ ∃ m rest, zlookup (elems (m_mutexes s)) mux = Some m ∧ holders m = c :: rest
  | SyncClient.CondInit _ _ => zlength (elems (m_conds s)) + 1 < 2 ^ 31
  | SyncClient.CondWait cond mux time =>
    0 ≤ time < 2 ^ 64 ∧ (∃ k, zlookup (elems (m_conds s)) cond = Some k) ∧
    ∃ m rest, zlookup (elems (m_mutexes s)) mux = Some m ∧ holders m = c :: rest
  | SyncClient.CondSignal cond time | SyncClient.CondBroadcast cond time =>
    0 ≤ time < 2 ^ 64 ∧ ∃ k, zlookup (elems (m_conds s)) cond = Some k
  | SyncClient.BarrierInit count time =>
    0 ≤ count < 2 ^ 32 ∧ zlength (elems (m_barriers s)) + 1 < 2 ^ 31
  | SyncClient.BarrierWait i time =>
    0 ≤ time < 2 ^ 64 ∧ ∃ b, zlookup (elems (m_barriers s)) i = Some b ∧ 0 < m_count b
  end.

(** A new object may find its vector full: growing it destroys the old copies of
    the objects, and their destructors assert that nobody waits.  The assertion
    that fails, if one does. *)
Definition growing {A} (destructor : string) (idle : A → bool) (v : vector A) : option string :=
  if (zlength (elems v) <? capacity v) || forallb idle (elems v) then None else Some destructor.
Definition growth_fails (s : SyncServer) (r : SyncClient.Request) : option string :=
  match r with
  | SyncClient.MutexInit => growing "SimMutex::~SimMutex" (λ m, bool_decide (mutex_waiting m = [])) (m_mutexes s)
  | SyncClient.CondInit _ _ => growing "SimCond::~SimCond" (λ k, bool_decide (cond_waiting k = [])) (m_conds s)
  | SyncClient.BarrierInit _ _ =>
    growing "SimBarrier::~SimBarrier" (λ b, bool_decide (barrier_waiting b = [])) (m_barriers s)
  | _ => None
  end.

Lemma growing_none {A} d (idle : A → bool) (P : A → Prop) v : (∀ x, idle x = true → P x) → growing d idle v = None →
  zlength (elems v) < capacity v ∨ ∀ x, x ∈ elems v → P x.
Proof.
  intros HP. unfold growing. destruct (_ <? _) eqn:E; [left; by breflect|]. cbn. destruct (forallb _ _) eqn:F; [|done].
  intros _. right. intros x Hx. apply HP. rewrite forallb_forall in F. apply F. by apply list_elem_of_In.
Qed.
Lemma push_back_fails {A} d (idle : A → bool) (destroy : A → res unit) x v :
  (∀ e, destroy e = if idle e then Ok tt else Fail (EAssert d)) →
  ∀ site, growing d idle v = Some site → push_back destroy x v = Fail (EAssert site).
Proof.
  intros Hd site. unfold growing, push_back. destruct (_ <? _); [done|]. cbn. destruct (forallb _ _) eqn:F; [done|].
  intros [= <-]. assert (foldl (λ done e, done ;; destroy e) (Ok tt) (elems v) = Fail (EAssert d)) as ->; [|done].
  assert (∀ l, foldl (λ done e, done ;; destroy e) (Fail (EAssert d)) l = Fail (EAssert d)) as Hfail
    by (induction l; [done|by cbn]).
  revert F. generalize (elems v) as l. induction l as [|e l IH]; [done|]. cbn. rewrite (Hd e).
  destruct (idle e); [apply IH|intros _; apply Hfail].
Qed.

(** The states of the server: requests are served in any order, and between
    two requests the rest of the master may do anything that leaves the waiting
    cores stalled. *)
Inductive reachable : SyncServer → Prop :=
  | reach_make mcp : mcp_wf mcp → reachable (make mcp)
  | reach_serve s c r s' :
      reachable s → client_ok s c r → serve c (SyncClient.packet r) s = Ok (tt, s') → reachable s'
  | reach_master s mcp' :
      reachable s → mcp_wf mcp' → (∀ c, queued s c → core_blocked mcp' c) →
      reachable (s <| m_mcp := mcp' |>).

Lemma serve_kept s c r :
  sync_inv s → client_ok s c r → growth_fails s r = None →
  ∃ s', serve c (SyncClient.packet r) s = Ok (tt, s') ∧ kept s s'.
Proof.
  intros I (Hc & Hr & H) Hg. destruct r as [|mux t|mux t|x t|cond mux t|cond t|cond t|n t|i t].
  - eapply growing_none in Hg as H2; [|intros m; apply bool_decide_eq_true_1].
    destruct (mutexInit_spec s c I H H2) as (s' & ? & ? & _). by exists s'.
  - destruct H as (Ht & m & Hm). destruct (mutexLock_spec s c mux t m) as (s' & m' & ? & ? & _); [done..|]. by exists s'.
  - destruct H as (Ht & m & rest & Hm & Hh).
    destruct (mutexUnlock_spec s c mux t m rest) as (s' & m' & ? & ? & _); [done..|]. by exists s'.
  - eapply growing_none in Hg as H2; [|intros k; apply bool_decide_eq_true_1].
    destruct (condInit_spec s c x t I H H2) as (s' & ? & ? & _). by exists s'.
  - destruct H as (Ht & [k Hk] & m & rest & Hm & Hh).
    destruct (condWait_spec s c cond mux t k m rest) as (s' & m' & ? & ? & _); [done..|]. by exists s'.
  - destruct H as (Ht & k & Hk). destruct (cond_waiting k) as [|w ws] eqn:Hw.
    + destruct (condSignal_none_spec s c cond t k) as (s' & ? & ? & _); [done..|]. by exists s'.
    + destruct (condSignal_spec s c cond t k w ws) as (s' & m & m' & ? & ? & _); [done..|]. by exists s'.
  - destruct H as (Ht & k & Hk).
    destruct (condBroadcast_spec s c cond t k) as (s' & g & ? & ? & _); [done..|]. by exists s'.
  - destruct H as (Hn & H1). eapply growing_none in Hg as H2; [|intros b; apply bool_decide_eq_true_1].
    destruct (barrierInit_spec s c n t I Hn H1 H2) as (s' & ? & ? & _). by exists s'.
  - destruct H as (Ht & b & Hb & Hn). destruct (decide (zlength (barrier_waiting b) + 1 = m_count b)).
    + destruct (barrierWait_last_spec s c i t b) as (s' & ? & ? & _); [done..|]. by exists s'.
    + destruct (barrierWait_early_spec s c i t b) as (s' & ? & ? & _); [done..| |by exists s'].
      destruct (inv_barrier _ I i b Hb) as [E|]; [|lia]. rewrite E in *. unfold zlength in *. cbn in *. lia.
Qed.

Lemma growth_aborts s c r site :
  client_ok s c r → growth_fails s r = Some site → serve c (SyncClient.packet r) s = Fail (EAssert site).
Proof.
  intros (_ & _ & H) Hg. destruct r; try done.
  - erewrite serve_run; [|instantiate (1 := []); reflexivity|done].
    unfold mutexInit, gets, lift, mbind, M_bind. cbn -[push_back]. erewrite push_back_fails; [done| |exact Hg].
    intros m. unfold destroy_mutex. by case_bool_decide.
  - erewrite serve_run; [|by apply packet_arg|done]. unfold condInit, gets, lift, mbind, M_bind. cbn -[push_back].
    erewrite push_back_fails; [done| |exact Hg]. intros m. unfold destroy_cond. by destruct (cond_waiting m).
  - erewrite serve_run; [|by apply packet_arg|done]. unfold barrierInit.
    erewrite run_bind; [|apply recv_run, UnstructuredBuffer.read_u32_put; lia].
    unfold barrierInit_with, gets, lift, mbind, M_bind. cbn -[push_back]. erewrite push_back_fails; [done| |exact Hg].
    intros m. unfold destroy_barrier. by case_bool_decide.
Qed.

Lemma sync_reachable_inv s : reachable s → sync_inv s.
Proof.
  induction 1 as [mcp W|s c r s' _ IH Hok E|s mcp' _ IH W Hb].
  - by apply make_inv.
  - destruct (growth_fails s r) as [site|] eqn:G; [rewrite (growth_aborts _ _ _ _ Hok G) in E; done|].
    destruct (serve_kept s c r IH Hok G) as (s'' & E' & [I _]). congruence.
  - destruct IH as [? I2 I3 ? ? ? ?]. constructor; [done|exact I2| |done..].
    intros p c Hc. split; [by eapply I3|]. apply Hb. by exists p.
Qed.

(** ** Properties *)

(** C14: From every reachable state, the request of a running core for an object
    that exists (and, to release a mutex, by its owner; to wait at a barrier, one
    for at least one core) is served without abort, except in one case, where it
    does abort: a new mutex, condition variable or barrier while somebody waits on
    another one and their vector is full.  Afterwards no core waits in two queues or
    twice in one, the thread of every waiting core is stalled, and no core is lost:
    each one that ran or waited before runs or waits now. *)
Theorem sync_safe s c r :
  reachable s → client_ok s c r →
  match growth_fails s r with
  | Some destructor => serve c (SyncClient.packet r) s = Fail (EAssert destructor)
  | None =>
    ∃ s', serve c (SyncClient.packet r) s = Ok (tt, s') ∧ reachable s' ∧
      (∀ p, NoDup (queue_of s' p)) ∧
      (∀ p1 p2 d, d ∈ queue_of s' p1 → d ∈ queue_of s' p2 → p1 = p2) ∧
      (∀ d, queued s' d → core_blocked (m_mcp s') d) ∧
      (∀ d, isMainCore d = true → core_runs (m_mcp s) d ∨ queued s d → core_runs (m_mcp s') d ∨ queued s' d)
  end.
Proof.
  intros R Hok. pose proof (sync_reachable_inv s R) as I.
  destruct (growth_fails s r) as [site|] eqn:G; [by apply growth_aborts|].
  destruct (serve_kept s c r I Hok G) as (s' & E & I' & A).
  exists s'. split_and!; [done|by eapply reach_serve|apply I'|apply I'| |exact A].
  intros d [p Hp]. by eapply (inv_blocked _ I').
Qed.

(** What a first-in first-out lock does: its clients are in a queue whose head
    holds the lock. *)
Definition fifo_lock (q : list core_id_t) (c : core_id_t) : list core_id_t := q ++ [c].
Definition fifo_grant (time : Z) (q q' : list core_id_t) : list Sent :=
  match q' with
  | h :: _ => if decide (head q = Some h) then [] else [ToCore h (SyncReply MUTEX_LOCK_RESPONSE time)]
  | [] => []
  end.

(** C15: A mutex is a first-in first-out lock: [lock] appends the core to the
    queue of its holders and [unlock] removes the owner at its head; the head
    is told that it owns the mutex exactly when it becomes the head, and the
    releasing core is acknowledged. *)
Theorem mutex_refines_fifo s c mux time m :
  reachable s → zlookup (elems (m_mutexes s)) mux = Some m →
  (client_ok s c (SyncClient.MutexLock mux time) →
   ∃ s' m', serve c (SyncClient.packet (SyncClient.MutexLock mux time)) s = Ok (tt, s') ∧
     elems (m_mutexes s') = zinsert mux m' (elems (m_mutexes s)) ∧
     holders m' = fifo_lock (holders m) c ∧
     replies s' = replies s ++ fifo_grant time (holders m) (holders m')) ∧
  (client_ok s c (SyncClient.MutexUnlock mux time) →
   ∃ s' m', serve c (SyncClient.packet (SyncClient.MutexUnlock mux time)) s = Ok (tt, s') ∧
     elems (m_mutexes s') = zinsert mux m' (elems (m_mutexes s)) ∧
     holders m = c :: holders m' ∧
     replies s' = replies s ++ fifo_grant time [] (holders m') ++ [ToCore c (SyncAck MUTEX_UNLOCK_RESPONSE)]).
Proof.
  intros R Hm. pose proof (sync_reachable_inv s R) as I. split.
  - intros (Hc & Hr & Ht & _).
    destruct (mutexLock_spec s c mux time m) as (s' & m' & E & _ & El & Hh & Hrep & _); [done..|].
    exists s', m'. split_and!; [done..|]. rewrite Hrep, Hh. f_equal.
    destruct (holders m) as [|h q]; cbn; [done|]. by rewrite decide_True.
  - intros (Hc & Hr & Ht & m1 & rest & Hm1 & Hh). assert (m1 = m) as -> by congruence.
    destruct (mutexUnlock_spec s c mux time m rest) as (s' & m' & E & _ & El & Hh' & Hrep & _); [done..|].
    exists s', m'. split_and!; [done..|by rewrite Hh'|]. rewrite Hrep, Hh'. by destruct rest.
Qed.

(** C16: Condition variables lose no waiter: a signal moves the first waiter, a
    broadcast all of them, to the end of the queues of the mutexes they wait
    with, in order; the others keep waiting.  A signal tells the waiter that it
    owns the mutex when nobody else does, and the signaller is acknowledged. *)
Theorem cond_passes_waiters s c cond time k :
  reachable s → zlookup (elems (m_conds s)) cond = Some k →
  (client_ok s c (SyncClient.CondSignal cond time) → ∀ w ws, cond_waiting k = w :: ws →
   ∃ s' m m', serve c (SyncClient.packet (SyncClient.CondSignal cond time)) s = Ok (tt, s') ∧
     elems (m_conds s') = zinsert cond (mkSimCond ws) (elems (m_conds s)) ∧
     zlookup (elems (m_mutexes s)) (m_mutex w) = Some m ∧
     elems (m_mutexes s') = zinsert (m_mutex w) m' (elems (m_mutexes s)) ∧
     holders m' = holders m ++ [m_core_id w] ∧
     replies s' = replies s
       ++ (if bool_decide (holders m = []) then [ToCore (m_core_id w) (SyncReply COND_WAIT_RESPONSE time)] else [])
       ++ [ToCore c (SyncAck COND_SIGNAL_RESPONSE)]) ∧
  (client_ok s c (SyncClient.CondBroadcast cond time) →
   ∃ s', serve c (SyncClient.packet (SyncClient.CondBroadcast cond time)) s = Ok (tt, s') ∧
     elems (m_conds s') = zinsert cond (mkSimCond []) (elems (m_conds s)) ∧
     ∀ i m, zlookup (elems (m_mutexes s)) i = Some m → ∃ m', zlookup (elems (m_mutexes s')) i = Some m' ∧
       holders m' = holders m ++ (m_core_id <$> filter (λ w, m_mutex w = i) (cond_waiting k))).
Proof.
  intros R Hk. pose proof (sync_reachable_inv s R) as I. split.
  - intros (Hc & Hr & Ht & _) w ws Hw.
    destruct (condSignal_spec s c cond time k w ws) as (s' & m & m' & E & _ & El & Hm & Em & Hh & _ & Hrep); [done..|].
    by exists s', m, m'.
  - intros (Hc & Hr & Ht & _).
    destruct (condBroadcast_spec s c cond time k) as (s' & g & E & _ & El & Hh & _); [done..|]. by exists s'.
Qed.

(** ** Barriers *)

Definition arrive (i : Z) (a : core_id_t * Z) : M SyncServer unit :=
  serve (fst a) (SyncClient.packet (SyncClient.BarrierWait i (snd a))).
Definition latest (times : list Z) : Z := foldr Z.max 0 times.
(** The latest arrival at a barrier so far. *)
Definition barrier_time (b : SimBarrier) : Z :=
  if decide (barrier_waiting b = []) then 0 else m_max_time b.

Lemma arrival_time_max b time : 0 ≤ time → arrival_time b time = Z.max (barrier_time b) time.
Proof.
  intros Ht. unfold arrival_time, barrier_time, zlength. destruct (barrier_waiting b) as [|x l]; cbn.
  - change (Z.of_nat 0 + 1 =? 1) with true. rewrite decide_True by done. cbn. lia.
  - rewrite decide_False by done. replace (Z.of_nat (S (length l)) + 1 =? 1) with false by (symmetry; apply Z.eqb_neq; lia).
    cbn. destruct (time >? m_max_time b) eqn:E; breflect; lia.
Qed.

Lemma arrivals_early i l : ∀ s b,
  sync_inv s → zlookup (elems (m_barriers s)) i = Some b →
  NoDup l.*1 → (∀ a, a ∈ l → isMainCore a.1 = true ∧ core_runs (m_mcp s) a.1 ∧ 0 ≤ a.2 < 2 ^ 64) →
  zlength (barrier_waiting b) + zlength l < m_count b →
  ∃ s' b', mfor l (arrive i) s = Ok (tt, s') ∧ sync_inv s' ∧
    zlookup (elems (m_barriers s')) i = Some b' ∧ m_count b' = m_count b ∧
    barrier_waiting b' = barrier_waiting b ++ l.*1 ∧
    barrier_time b' = Z.max (barrier_time b) (foldr Z.max (barrier_time b) l.*2) ∧
    replies s' = replies s ∧
    (∀ d, isMainCore d = true → d ∉ l.*1 → core_runs (m_mcp s) d → core_runs (m_mcp s') d).
Proof.
  induction l as [|[c t] l IH]; intros s b I Hb Hnd Hl Hn.
  { exists s, b. split_and!; [done|done|done|done|by rewrite app_nil_r|cbn; lia|done|done]. }
  cbn in Hnd. apply NoDup_cons in Hnd as [Hni Hnd].
  destruct (Hl (c, t)) as (Hc & Hr & Ht); [apply list_elem_of_here|]. cbn in Hc, Hr, Ht.
  assert (zlength ((c, t) :: l) = zlength l + 1) as Hlen by (unfold zlength; cbn; lia).
  destruct (barrierWait_early_spec s c i t b) as (s1 & E & [I1 _] & Eb & _ & _ & Hrep & Hch); [done..| |].
  { unfold zlength in *. lia. }
  set (b1 := mkSimBarrier (barrier_waiting b ++ [c]) (m_count b) (arrival_time b t)) in *.
  assert (barrier_time b1 = Z.max (barrier_time b) t) as Hb1.
  { rewrite <- arrival_time_max by lia. unfold barrier_time. rewrite decide_False; [done|].
    cbn. by destruct (barrier_waiting b). }
  destruct (IH s1 b1) as (s' & b' & E' & I' & Hb' & Hcnt & Hwait & Htime & Hrep' & Hoth); [done| |done| | |].
  { rewrite Eb. apply zlookup_zinsert_eq. by apply zlookup_Some in Hb as [? _]. }
  { intros a Ha. destruct (Hl a) as (Ham & Har & Hat); [by apply list_elem_of_further|]. split_and!; [done| |lia..].
    apply (core_runs_other c _ _ _ Hch); [done|done| |done]. intros ->. apply Hni. by apply list_elem_of_fmap_2. }
  { unfold b1. cbn. rewrite zlength_snoc. lia. }
  exists s', b'. split_and!.
  - cbn [mfor]. by rewrite (run_bind _ _ _ _ _ E).
  - done.
  - done.
  - done.
  - rewrite Hwait. cbn. by rewrite <- app_assoc.
  - rewrite Htime, Hb1. cbn. clear. induction (l.*2); cbn in *; lia.
  - by rewrite Hrep'.
  - intros d Hd Hdl Hdr. cbn in Hdl. rewrite not_elem_of_cons in Hdl. destruct Hdl. apply Hoth; [done..|].
    apply (core_runs_other c _ _ _ Hch); [done|done|congruence|done].
Qed.

Lemma mfor_app {S A} (l1 l2 : list A) (f : A → M S unit) s s1 :
  mfor l1 f s = Ok (tt, s1) → mfor (l1 ++ l2) f s = mfor l2 f s1.
Proof.
  revert s. induction l1 as [|x l1 IH]; intros s; [by intros [= ->]|]. cbn. unfold mbind, M_bind.
  destruct (f x s) as [[? s2]|]; [|done]. apply IH.
Qed.

Lemma latest_snoc l x y : foldr Z.max y (l ++ [x]) = Z.max (foldr Z.max y l) (Z.max x y).
Proof. induction l as [|z l IH]; cbn in *; lia. Qed.

(** C17: When the cores of a barrier of [n] arrive, in any order, the first
    [n - 1] get no reply; the last arrival releases all of them with the latest
    of their arrival times, their threads run again, and the barrier is ready
    for its next use. *)
Theorem barrier_rendezvous s i b l :
  reachable s → zlookup (elems (m_barriers s)) i = Some b → barrier_waiting b = [] →
  zlength l = m_count b → 0 < m_count b → NoDup l.*1 →
  (∀ a, a ∈ l → isMainCore a.1 = true ∧ core_runs (m_mcp s) a.1 ∧ 0 ≤ a.2 < 2 ^ 64) →
  (∀ l1 a l2, l = l1 ++ a :: l2 →
     ∃ s1, mfor l1 (arrive i) s = Ok (tt, s1) ∧ replies s1 = replies s) ∧
  ∃ s' b', mfor l (arrive i) s = Ok (tt, s') ∧
    replies s' = replies s ++ ((λ c, ToCore c (SyncReply BARRIER_WAIT_RESPONSE (latest l.*2))) <$> l.*1) ∧
    (∀ c, c ∈ l.*1 → core_runs (m_mcp s') c) ∧
    zlookup (elems (m_barriers s')) i = Some b' ∧ barrier_waiting b' = [] ∧ m_count b' = m_count b.
Proof.
  intros R Hb Hw Hlen Hn Hnd Hl. pose proof (sync_reachable_inv s R) as I.
  assert (barrier_time b = 0) as Hb0 by (unfold barrier_time; by rewrite decide_True).
  assert (∀ l1 a l2, l = l1 ++ a :: l2 → zlength (barrier_waiting b) + zlength l1 < m_count b ∧ NoDup l1.*1
    ∧ ∀ x, x ∈ l1 → isMainCore x.1 = true ∧ core_runs (m_mcp s) x.1 ∧ 0 ≤ x.2 < 2 ^ 64) as Hpre.
  { intros l1 a l2 ->. rewrite Hw. rewrite fmap_app in Hnd. apply NoDup_app in Hnd as [Hnd _].
    split_and!; [|done|intros x Hx; apply Hl; set_solver].
    unfold zlength in *. rewrite length_app in Hlen. cbn in *. lia. }
  split.
  { intros l1 a l2 E. destruct (Hpre _ _ _ E) as (H1 & H2 & H3).
    destruct (arrivals_early i l1 s b I Hb H2 H3 H1) as (s1 & b1 & E1 & _ & _ & _ & _ & _ & Hr & _). by exists s1. }
  destruct (exists_last (l := l)) as (l1 & (c & t) & ->); [by intros ->; unfold zlength in Hlen; cbn in Hlen; lia|].
  destruct (Hpre l1 (c, t) [] eq_refl) as (H1 & H2 & H3).
  destruct (arrivals_early i l1 s b I Hb H2 H3 H1) as (s1 & b1 & E1 & I1 & Hb1 & Hc1 & Hw1 & Ht1 & Hr1 & Ho1).
  destruct (Hl (c, t)) as (Hc & Hcr & Ht); [set_solver|]. cbn in Hc, Hcr, Ht.
  rewrite fmap_app in Hnd. apply NoDup_app in Hnd as (_ & Hdis & _).
  destruct (barrierWait_last_spec s1 c i t b1) as (s' & E2 & _ & Eb & _ & _ & Hrun & Hrep); [done|done| |done|done| |].
  { apply Ho1; [done| |done]. intros Hin. apply (Hdis c Hin). cbn. set_solver. }
  { rewrite Hw1, Hw, Hc1. cbn. unfold zlength in *. rewrite length_app in Hlen. rewrite length_fmap. cbn in Hlen. lia. }
  rewrite Hw1, Hw in Hrun, Hrep. cbn [app] in Hrun, Hrep.
  eexists s', _. split_and!.
  - rewrite (mfor_app _ _ _ _ _ E1). cbn [mfor]. by rewrite (run_bind _ _ _ _ _ E2).
  - assert (arrival_time b1 t = latest (l1 ++ [(c, t)]).*2) as Htime.
    { rewrite arrival_time_max by lia. unfold latest. rewrite fmap_app. cbn. rewrite latest_snoc, Ht1, Hb0. lia. }
    rewrite Hrep, Hr1, Htime. do 2 f_equal. by rewrite fmap_app.
  - rewrite fmap_app. cbn. exact Hrun.
  - rewrite Eb. apply zlookup_zinsert_eq. by apply zlookup_Some in Hb1 as [? _].
  - done.
  - done.
Qed.

(** ** The clock-skew barrier *)

(** The barrier after the arrival of a tile. *)
Definition arrived (tile time : Z) (b : Mcp.LaxBarrierSyncServer) : Mcp.LaxBarrierSyncServer :=
  b <| Mcp.m_local_clock_list ::= zinsert tile time |> <| Mcp.m_barrier_acquire_list ::= zinsert tile true |>.

Lemma arrived_wf tiles tile time b :
  barrier_wf tiles b → 0 ≤ tile < Mcp.m_num_application_tiles b → Mcp.m_next_barrier_time b ≤ time < clock_bound →
  barrier_wf tiles (arrived tile time b).
Proof.
  intros [HI Hn HT HC HA HV HW] Ht Htime. constructor; cbn; [done|done|done|by rewrite zlength_zinsert..| |].
  - intros i c [(-> & -> & _)|[_ Hc]]%zlookup_zinsert; [lia|by eapply HV].
  - intros i c [(-> & -> & _)|[Hne Hc]]%zlookup_zinsert.
    + split; [lia|]. intros _. unfold waits. cbn. apply zlookup_zinsert_eq. lia.
    + unfold waits. cbn. rewrite zlookup_zinsert_ne by done. by apply HW.
Qed.

(** C18: A tile that arrives below the barrier continues at once.  Otherwise it
    waits until every running tile has arrived; then the barrier advances by
    whole quanta, releases at least one tile, and exactly those that it has
    passed: the clocks of the released tiles lie in the last quantum below the
    new barrier, and the clocks of the tiles that go on waiting at or above it. *)
Theorem clock_barrier s b core time :
  mcp_wf s → Mcp.m_clock_skew_minimization_server s = Some b →
  isMainCore core = true → 0 ≤ tile_id core < Mcp.m_num_application_tiles b → 0 ≤ time < 2 ^ 63 →
  ∃ s', Mcp.sim_barrierWait core time s = Ok (tt, s') ∧ mcp_wf s' ∧
  if decide (time < Mcp.m_next_barrier_time b) then
    s' = s <| Mcp.m_sent := Mcp.m_sent s ++ [ToCore core SimBarrierRelease] |>
  else
    let b1 := arrived (tile_id core) time b in
    (¬ reached s b1 ∧ Mcp.m_clock_skew_minimization_server s' = Some b1 ∧ Mcp.m_sent s' = Mcp.m_sent s) ∨
    (reached s b1 ∧ ∃ b' l k, Mcp.m_clock_skew_minimization_server s' = Some b' ∧
       Mcp.m_sent s' = Mcp.m_sent s ++ (release_message <$> l) ∧ l ≠ [] ∧ 1 ≤ k ∧
       Mcp.m_next_barrier_time b' = Mcp.m_next_barrier_time b + k * Mcp.m_barrier_interval b ∧
       ∀ i c, waits b1 i → clock_of b1 i = Some c →
         (i ∈ l ∧ Mcp.m_next_barrier_time b' - Mcp.m_barrier_interval b ≤ c < Mcp.m_next_barrier_time b' ∧ ¬ waits b' i) ∨
         ((i ∉ l) ∧ Mcp.m_next_barrier_time b' ≤ c ∧ waits b' i)).
Proof.
  intros W Hb Hm Ht Htime. pose proof W as [WT WB]. pose proof (WB _ Hb) as [HI Hn HT HC HA HV HW].
  unfold Mcp.sim_barrierWait, Mcp.isCoreRunning_core. rewrite Hm.
  assert (∀ (f : M Mcp.Mcp unit), (r ← Mcp.isCoreRunning (tile_id core) ;
    (if negb (r =? INVALID_THREAD_ID) then skip
     else i ← Mcp.isCoreInitializing (tile_id core) ;
          if negb (Z.b2z i =? INVALID_THREAD_ID) then skip else fail (ELog "LaxBarrierSyncServer::barrierWait")) ;; f) s
    = f s) as Hassert.
  { intros f. unfold mbind, M_bind. destruct (isCoreRunning_spec s (tile_id core) WT) as [[_ ->]|(j & Hj & _ & ->)]; [lia| |].
    - cbn. unfold Mcp.isCoreInitializing, gets, lift, mbind, M_bind, vget. cbn.
      destruct (zlookup_is_Some (Mcp.m_thread_state s) (tile_id core)) as [row ->]; [lia|]. cbn. by destruct (existsb _ row).
    - by replace (j =? INVALID_THREAD_ID) with false by (symmetry; apply Z.eqb_neq; unfold INVALID_THREAD_ID; lia). }
  rewrite Hassert. rewrite (run_bind _ _ _ _ _ (barrier_get _ _ Hb)). case_decide as Hlt.
  - rewrite (proj2 (Z.ltb_lt _ _)) by done. eexists. split; [done|]. split; [by apply mcp_wf_sent|done].
  - rewrite (proj2 (Z.ltb_ge _ _)) by lia. cbn [skip].
    set (b1 := arrived (tile_id core) time b). set (s1 := s <| Mcp.m_clock_skew_minimization_server := Some b1 |>).
    assert (barrier_wf (zlength (Mcp.m_thread_state s)) b1) as Wb1.
    { apply arrived_wf; [by apply WB|done|unfold clock_bound; lia]. }
    assert (mcp_wf s1) as W1.
    { destruct WT. split; [by split|]. cbn. intros ? [= <-]. done. }
    destruct (barrier_signal_spec s1 b1 W1 eq_refl) as (s' & E & Heff).
    exists s'. split; [|split; [by eapply signal_effect_wf|]].
    + unfold vset, lift, Mcp.set_barrier, modify, mbind, M_bind. cbn -[Mcp.barrier_signal].
      rewrite HC, HA, (proj2 (Z.leb_le 0 (tile_id core))), (proj2 (Z.ltb_lt (tile_id core) _)) by lia.
      cbn -[Mcp.barrier_signal]. rewrite Hb. exact E.
    + destruct Heff as [Hn'|b2 Hb2 Hr|b2 b' l Hb2 Hr A]; [done| |]; injection Hb2 as <-.
      * left. done.
      * right. split; [exact Hr|]. pose proof A as [_ (k & Hk & Hnext) Hl Htight]. exists b', l, k.
        split_and!; [done..|]. intros i c Hi Hc.
        pose proof (advances_released _ _ _ i (wf_acquired _ _ Wb1) A) as Hrel.
        pose proof (advances_waits _ _ _ i A) as Hwt.
        destruct (decide (c < Mcp.m_next_barrier_time b')) as [Hlt'|Hge].
        -- left. assert (i ∈ l) by (apply Hrel; split; [done|by exists c]).
           split_and!; [done|by apply (Htight i)|done|rewrite Hwt; naive_solver].
        -- right. assert (i ∉ l) as Hil.
           { intros (_ & c' & Hc' & ?)%Hrel. assert (c' = c) by congruence. lia. }
           split_and!; [done|lia|by apply Hwt].
Qed.

(** With a quantum of zero the first release of the barrier never ends:
    the barrier does not move, and the tiles that wait are at or above it. *)
Lemma zero_quantum_hangs s b fuel :
  threads_wf s → Mcp.m_clock_skew_minimization_server s = Some b →
  Mcp.m_barrier_interval b = 0 → 0 ≤ Mcp.m_next_barrier_time b < 2 ^ 64 →
  zlength (Mcp.m_local_clock_list b) = Mcp.m_num_application_tiles b →
  zlength (Mcp.m_barrier_acquire_list b) = Mcp.m_num_application_tiles b →
  0 ≤ Mcp.m_num_application_tiles b ≤ zlength (Mcp.m_thread_state s) →
  (∀ i c, waits b i → clock_of b i = Some c → Mcp.m_next_barrier_time b ≤ c) →
  Mcp.release_rounds fuel s = Fail (EFuel "LaxBarrierSyncServer::barrierRelease").
Proof.
  intros W Hb HI Hn HC HA HT Hw. induction fuel as [|fuel IH]; [done|].
  assert (all_due b = []) as Hdue.
  { apply filter_nil_iff. intros i _ (Hi & c & Hc & Hlt). specialize (Hw i c Hi Hc). lia. }
  cbn [Mcp.release_rounds]. unfold Mcp.set_barrier, modify. rewrite (run_bind _ _ s tt s).
  - rewrite (run_bind _ _ _ _ _ (barrier_get _ _ Hb)).
    erewrite run_bind; [|apply (release_from_spec _ s b); [done|done|lia..]].
    change (due_from b 0 (Z.to_nat (Mcp.m_num_application_tiles b))) with (all_due b). rewrite Hdue. cbn [negb orb].
    rewrite bool_decide_eq_true_2 by done. cbn [negb orb].
    change (clear_waits [] b) with (b <| Mcp.m_barrier_acquire_list := Mcp.m_barrier_acquire_list b |>).
    replace (b <| Mcp.m_barrier_acquire_list := Mcp.m_barrier_acquire_list b |>) with b by (by destruct b).
    by rewrite with_barrier_nil.
  - cbn. rewrite Hb. cbn. rewrite HI, Z.add_0_r, u64_small by lia. destruct s; cbn in *; subst.
    destruct b; cbn in *; by subst.
Qed.

(** ** Witnesses

    Four tiles with a running thread each, and a clock-skew barrier. *)

Definition four_tiles : SysConfig.Config := SysConfig.mkConfig SysConfig.LITE 1 4 1 [0; 0; 0; 0; 0].
Definition running_thread : Mcp.ThreadState := Mcp.idle_thread <| Mcp.status := Core.RUNNING |>.
Definition mcp4 : Mcp.Mcp :=
  Mcp.mkMcp four_tiles (replicate 5 [running_thread]) (replicate 5 ∅) (replicate 5 INVALID_THREAD_ID) 0 [] [] 0 0 false
    (replicate 5 INVALID_THREAD_ID) (replicate 5 false) (replicate 5 []) (replicate 5 [0])
    (Some (Mcp.make_barrier 1000 4)) None 0 [].
Definition core (n : Z) : core_id_t := getMainCoreId n.

Lemma mcp4_wf : mcp_wf mcp4.
Proof.
  split; [split|].
  - intros tile row Hr i j t u Hi Hj _ _. apply zlookup_replicate in Hr as ->.
    apply lookup_lt_Some in Hi, Hj. cbn in Hi, Hj. lia.
  - done.
  - cbn -[Mcp.make_barrier]. intros b [= <-]. apply make_barrier_wf; [unfold clock_bound; lia|]. split; vm_compute; congruence.
Qed.

Definition request : Type := core_id_t * SyncClient.Request.
Definition serve_request (r : request) : M SyncServer unit := serve (fst r) (SyncClient.packet (snd r)).
Definition after (l : list request) : SyncServer :=
  match mfor l serve_request (make mcp4) with Ok (_, s) => s | Fail _ => make mcp4 end.

Definition runs_check (s : SyncServer) (c : core_id_t) : bool :=
  isMainCore c && match zlookup (Mcp.m_thread_state (m_mcp s)) (tile_id c) with
                  | Some (t :: _) => bool_decide (running t)
                  | _ => false
                  end.
Lemma runs_check_ok s c : runs_check s c = true → isMainCore c = true ∧ core_runs (m_mcp s) c.
Proof.
  unfold runs_check. intros [Hc H]%andb_true_iff. split; [done|].
  destruct (zlookup _ _) as [[|t row]|] eqn:E; [done| |done]. apply bool_decide_eq_true in H.
  exists 0. by exists (t :: row), t.
Qed.

Ltac client := apply and_assoc; split; [apply runs_check_ok; vm_compute; reflexivity|];
  cbn [fst snd]; cbv beta iota; repeat lazymatch goal with |- _ ∧ _ => split | |- ∃ _, _ => eexists | |- _ ≤ _ < _ => split end;
  try (vm_compute; reflexivity); try lia.
Ltac request_step l r := apply (reach_serve (after l) (fst r) (snd r)); [|client|vm_compute; reflexivity].

Definition contended : list request :=
  [(core 0, SyncClient.MutexInit); (core 0, SyncClient.MutexLock 0 10); (core 1, SyncClient.MutexLock 0 20)].

Lemma contended_reachable : reachable (after contended).
Proof.
  request_step [(core 0, SyncClient.MutexInit); (core 0, SyncClient.MutexLock 0 10)]
    (core 1, SyncClient.MutexLock 0 20).
  request_step [(core 0, SyncClient.MutexInit)] (core 0, SyncClient.MutexLock 0 10).
  request_step (@nil request) (core 0, SyncClient.MutexInit).
  apply reach_make, mcp4_wf.
Qed.

(** The owner unlocks a mutex that another core waits for; a second mutex aborts. *)
Lemma sync_safe_witness :
  (∃ s', serve (core 0) (SyncClient.packet (SyncClient.MutexUnlock 0 30)) (after contended) = Ok (tt, s') ∧
    (core_runs (m_mcp s') (core 1) ∨ queued s' (core 1))) ∧
  serve (core 2) (SyncClient.packet SyncClient.MutexInit) (after contended) = Fail (EAssert "SimMutex::~SimMutex").
Proof.
  split.
  - destruct (sync_safe (after contended) (core 0) (SyncClient.MutexUnlock 0 30) contended_reachable)
      as (s' & E & _ & _ & _ & _ & A).
    + client.
    + exists s'. split; [exact E|]. apply A; [reflexivity|]. right. exists (PMutex 0). vm_compute. left.
  - exact (sync_safe (after contended) (core 2) SyncClient.MutexInit contended_reachable ltac:(client)).
Defined.

Lemma mutex_refines_fifo_witness : ∃ s' m',
  serve (core 0) (SyncClient.packet (SyncClient.MutexUnlock 0 30)) (after contended) = Ok (tt, s') ∧
  holders m' = [core 1] ∧
  replies s' = replies (after contended) ++ [ToCore (core 1) (SyncReply MUTEX_LOCK_RESPONSE 30);
    ToCore (core 0) (SyncAck MUTEX_UNLOCK_RESPONSE)].
Proof.
  destruct (mutex_refines_fifo (after contended) (core 0) 0 30 (mkSimMutex [core 1] (core 0)) contended_reachable)
    as [_ H]; [vm_compute; reflexivity|].
  destruct H as (s' & m' & E & _ & Hh & Hr); [client|].
  assert (holders m' = [core 1]) as Hm by (injection Hh; intros <-; reflexivity).
  exists s', m'. split; [exact E|]. split; [exact Hm|]. rewrite Hr, Hm. reflexivity.
Defined.

Definition waiting_on_cond : list request :=
  [(core 0, SyncClient.MutexInit); (core 0, SyncClient.CondInit 0 1); (core 0, SyncClient.MutexLock 0 10);
   (core 0, SyncClient.CondWait 0 0 12)].

Lemma waiting_on_cond_reachable : reachable (after waiting_on_cond).
Proof.
  request_step [(core 0, SyncClient.MutexInit); (core 0, SyncClient.CondInit 0 1); (core 0, SyncClient.MutexLock 0 10)]
    (core 0, SyncClient.CondWait 0 0 12).
  request_step [(core 0, SyncClient.MutexInit); (core 0, SyncClient.CondInit 0 1)] (core 0, SyncClient.MutexLock 0 10).
  request_step [(core 0, SyncClient.MutexInit)] (core 0, SyncClient.CondInit 0 1).
  request_step (@nil request) (core 0, SyncClient.MutexInit).
  apply reach_make, mcp4_wf.
Qed.

(** A signal gives the waiter its mutex back. *)
Lemma cond_passes_waiters_witness : ∃ s' m',
  serve (core 1) (SyncClient.packet (SyncClient.CondSignal 0 30)) (after waiting_on_cond) = Ok (tt, s') ∧
  holders m' = [core 0] ∧
  replies s' = replies (after waiting_on_cond) ++ [ToCore (core 0) (SyncReply COND_WAIT_RESPONSE 30);
    ToCore (core 1) (SyncAck COND_SIGNAL_RESPONSE)].
Proof.
  destruct (cond_passes_waiters (after waiting_on_cond) (core 1) 0 30 (mkSimCond [mkCondWaiter (core 0) 0 12])
    waiting_on_cond_reachable) as [H _]; [vm_compute; reflexivity|].
  assert (client_ok (after waiting_on_cond) (core 1) (SyncClient.CondSignal 0 30)) as Hc by client.
  pose proof (H Hc (mkCondWaiter (core 0) 0 12) [] eq_refl) as (s' & m & m' & E & _ & Hm & _ & Hh & Hr).
  assert (zlookup (elems (m_mutexes (after waiting_on_cond))) 0 = Some (mkSimMutex [] INVALID_CORE_ID)) as Hm0
    by (vm_compute; reflexivity).
  assert (m = mkSimMutex [] INVALID_CORE_ID) as -> by (cbn [m_mutex] in Hm; congruence).
  exists s', m'. split; [exact E|]. split; [exact Hh|]. exact Hr.
Defined.

Definition with_barrier3 : list request := [(core 0, SyncClient.BarrierInit 3 1)].
Definition arrivals : list (core_id_t * Z) := [(core 2, 70); (core 0, 90); (core 3, 80)].

Lemma barrier_rendezvous_witness : ∃ s', mfor arrivals (arrive 0) (after with_barrier3) = Ok (tt, s') ∧
  replies s' = replies (after with_barrier3)
    ++ [ToCore (core 2) (SyncReply BARRIER_WAIT_RESPONSE 90); ToCore (core 0) (SyncReply BARRIER_WAIT_RESPONSE 90);
        ToCore (core 3) (SyncReply BARRIER_WAIT_RESPONSE 90)].
Proof.
  assert (reachable (after with_barrier3)) as R.
  { request_step (@nil request) (core 0, SyncClient.BarrierInit 3 1).
    apply reach_make, mcp4_wf. }
  assert (zlookup (elems (m_barriers (after with_barrier3))) 0 = Some (mkSimBarrier [] 3 0)) as Hb
    by (vm_compute; reflexivity).
  assert (∀ a, a ∈ arrivals → isMainCore a.1 = true ∧ core_runs (m_mcp (after with_barrier3)) a.1 ∧ 0 ≤ a.2 < 2 ^ 64) as Ha.
  { intros a Ha. apply and_assoc. unfold arrivals in Ha. rewrite !elem_of_cons in Ha.
    destruct Ha as [->|[->|[->|Ha]]]; [| | |inversion Ha];
      (split; [apply runs_check_ok; vm_compute; reflexivity|cbn [snd]; lia]). }
  assert (NoDup arrivals.*1) as Hnd by (apply (bool_decide_unpack _); vm_compute; exact I).
  pose proof (barrier_rendezvous _ 0 _ arrivals R Hb eq_refl eq_refl eq_refl Hnd Ha) as [_ (s' & b' & E & Hr & _)].
  exists s'. split; [exact E|exact Hr].
Defined.

(** Tiles 0 and 1 wait at the barrier of time 1000, tile 3 is idle. *)
Definition mcp_at_barrier : Mcp.Mcp :=
  mcp4 <| Mcp.m_thread_state := replicate 3 [running_thread] ++ [[Mcp.idle_thread]; [running_thread]] |>
       <| Mcp.m_clock_skew_minimization_server := Some (arrived 1 3500 (arrived 0 1200 (Mcp.make_barrier 1000 4))) |>.

Lemma mcp_at_barrier_wf : mcp_wf mcp_at_barrier.
Proof.
  split; [split|].
  - intros tile row Hr i j t u Hi Hj _ _. assert (length row = 1)%nat as Hl.
    { apply zlookup_Some in Hr as [_ Hr]. apply list_elem_of_lookup_2 in Hr. revert row Hr Hi Hj.
      intros row Hr _ _. cbn in Hr. rewrite !elem_of_cons in Hr.
      destruct Hr as [->|[->|[->|[->|[->|Hr]]]]]; [reflexivity..|inversion Hr]. }
    apply lookup_lt_Some in Hi, Hj. lia.
  - done.
  - cbn -[Mcp.make_barrier]. intros b [= <-]. change (zlength _) with 5.
    apply arrived_wf; [apply arrived_wf; [apply make_barrier_wf|..]|..]; split; vm_compute; congruence.
Qed.

(** The last running tile arrives: tiles 0 and 2 are passed by the barrier,
    tile 1 goes on waiting. *)
Lemma clock_barrier_witness : ∃ s' b',
  Mcp.sim_barrierWait (core 2) 1900 mcp_at_barrier = Ok (tt, s') ∧
  Mcp.m_clock_skew_minimization_server s' = Some b' ∧ waits b' 1.
Proof.
  destruct (clock_barrier mcp_at_barrier (arrived 1 3500 (arrived 0 1200 (Mcp.make_barrier 1000 4))) (core 2) 1900
    mcp_at_barrier_wf eq_refl eq_refl) as (s' & E & _ & H); [split; vm_compute; congruence|lia|].
  exists s'. destruct (decide _) as [Hlt|_]; [vm_compute in Hlt; congruence|].
  destruct H as [(_ & Hb & _)|(_ & b' & l & k & Hb & _ & _ & _ & _ & Hw)].
  - eexists. split; [exact E|]. split; [exact Hb|]. vm_compute. reflexivity.
  - exists b'. split; [exact E|]. split; [exact Hb|].
    assert (waits (arrived 2 1900 (arrived 1 3500 (arrived 0 1200 (Mcp.make_barrier 1000 4)))) 1) as H1
      by (vm_compute; reflexivity).
    assert (s' = match Mcp.sim_barrierWait (core 2) 1900 mcp_at_barrier with Ok (_, s) => s | Fail _ => s' end) as Es
      by (rewrite E; reflexivity).
    rewrite Es in Hb. vm_compute in Hb. injection Hb as <-. vm_compute. reflexivity.
Defined.

Definition zero_quantum : Mcp.Mcp := mcp4 <| Mcp.m_clock_skew_minimization_server := Some (Mcp.make_barrier 0 4) |>.
(** The first thread that stalls hangs the master. *)
Lemma zero_quantum_hangs_witness :
  Mcp.release_rounds 1000 zero_quantum = Fail (EFuel "LaxBarrierSyncServer::barrierRelease").
Proof.
  apply (zero_quantum_hangs zero_quantum (Mcp.make_barrier 0 4) 1000).
  - destruct mcp4_wf as [[W1 W2] _]. split; assumption.
  - reflexivity.
  - reflexivity.
  - split; [vm_compute; congruence|vm_compute; reflexivity].
  - reflexivity.
  - reflexivity.
  - split; vm_compute; congruence.
  - intros i c Hi _. unfold waits in Hi. apply zlookup_replicate in Hi. discriminate Hi.
Defined.
