(* ===== verification/ThreadScheduler.v ===== *)
(** * ThreadScheduler: spawning, joining, migrating and yielding threads

    Models the rest of the master's side of system/thread_manager.cc, the
    master's side of system/thread_scheduler.cc and
    system/round_robin_thread_scheduler.cc.  A core has a queue of threads whose
    front is the one that runs. *)
From S2P Require Import Prelude ThreadManager.
Import Mcp.

Module Sched.

(** ** Thread identifiers *)

Definition thread_row (tile : Z) : M Mcp (list ThreadState) :=
  s ← gets id ; lift (vget "m_thread_state" (m_thread_state s) tile).

(** [getNewThreadId].  [resize] fills the table with zeros. *)
Definition getNewThreadId (core_id : core_id_t) (thread_index : Z) : M Mcp Z :=
  modify (λ s, s <| m_tid_counter := m_tid_counter s + 1 |>) ;;
  s ← gets id ;
  let new_thread_id := m_tid_counter s in
  let map := m_tid_to_core_map s in
  let map := if zlength map <=? u32 new_thread_id
             then map ++ replicate (Z.to_nat (2 * new_thread_id) - length map) (mkCoreId 0 0, 0)
             else map in
  map ← lift (vset "m_tid_to_core_map" map new_thread_id (core_id, thread_index)) ;
  modify (λ s, s <| m_tid_to_core_map := map |>) ;;
  if isMainCore core_id then
    set_thread (tile_id core_id) thread_index (λ t, t <| thread_id := new_thread_id |>) ;;
    mret new_thread_id
  else fail (ELog "Invalid core type!").

Definition lookupThreadIndex (tid : Z) : M Mcp (core_id_t * Z) :=
  s ← gets id ;
  (if tid <=? m_tid_counter s then skip
   else fail (ELog "A thread with this tid has not been spawned before")) ;;
  lift (vget "m_tid_to_core_map" (m_tid_to_core_map s) tid).

Definition setThreadIndex (tid : Z) (core_id : core_id_t) (thread_idx : Z) : M Mcp unit :=
  s ← gets id ;
  (if tid <? s32 (zlength (m_tid_to_core_map s)) then skip
   else fail (ELog "A thread with this tid has not been spawned before!")) ;;
  map ← lift (vset "m_tid_to_core_map" (m_tid_to_core_map s) tid (core_id, thread_idx)) ;
  modify (λ s, s <| m_tid_to_core_map := map |>).

(** The first idle thread among [n] from index [j] on. *)
Fixpoint idle_from (tile : Z) (n : nat) (j : Z) : M Mcp Z :=
  match n with
  | O => mret INVALID_THREAD_ID
  | S n =>
    t ← thread_at tile j ;
    if bool_decide (status t = Core.IDLE) then mret j else idle_from tile n (j + 1)
  end.
Definition getIdleThread (core_id : core_id_t) : M Mcp Z :=
  s ← gets id ;
  if isMainCore core_id then
    idle_from (tile_id core_id) (Z.to_nat (SysConfig.m_max_threads_per_core (config s))) 0
  else fail (ELog "Invalid core type!").

(** [setThreadState] with a status, and with a state: the address of the mask
    is copied, the process identifier is not. *)
Definition setThreadStatus (tile tidx : Z) (st : Core.State) : M Mcp unit :=
  set_thread tile tidx (λ t, t <| status := st |>).
Definition setThreadState (tile tidx : Z) (state : ThreadState) : M Mcp unit :=
  set_thread tile tidx (λ t, t <| status := status state |> <| waiter_core := waiter_core state |>
    <| waiter_tid := waiter_tid state |> <| thread_id := thread_id state |> <| cpu_set := cpu_set state |>).

Definition masterSetPid (tile tidx new_pid : Z) : M Mcp unit :=
  set_thread tile tidx (λ t, t <| pid := new_pid |>).

(** ** Affinity *)

(** The loop of [setThreadAffinity] and [getThreadAffinity] over all threads:
    the one with a process identifier. *)
Definition threads_with_pid (table : list (list ThreadState)) (p : Z) : list (Z * Z) :=
  concat (imap (λ i row, omap (λ '(j, t), if pid t =? p then Some (Z.of_nat i, j) else None)
                           (imap (λ j t, (Z.of_nat j, t)) row)) table).
Definition find_pid (p : Z) : M Mcp (option (Z * Z)) :=
  s ← gets id ;
  match threads_with_pid (m_thread_state s) p with
  | [] => mret None
  | [x] => mret (Some x)
  | _ => fail (ELog "Two threads have the same pid")
  end.

(** The masks are accessed through the address in the thread's state. *)
Definition setThreadAffinity (tile tidx : Z) (set : gset Z) : M Mcp unit :=
  t ← thread_at tile tidx ;
  s ← gets id ;
  l ← lift (vset "cpu_set" (m_cpu_sets s) (cpu_set t) set) ;
  modify (λ s, s <| m_cpu_sets := l |>).
Definition getThreadAffinity (tile tidx : Z) : M Mcp (gset Z) :=
  t ← thread_at tile tidx ;
  s ← gets id ;
  lift (vget "cpu_set" (m_cpu_sets s) (cpu_set t)).
Definition setThreadAffinity_pid (p : Z) (set : gset Z) : M Mcp Z :=
  r ← find_pid p ;
  match r with
  | Some (tile, tidx) => setThreadAffinity tile tidx set ;; mret 0
  | None => mret (-1)
  end.
Definition getThreadAffinity_pid (p : Z) : M Mcp (Z * gset Z) :=
  r ← find_pid p ;
  match r with
  | Some (tile, tidx) => set ← getThreadAffinity tile tidx ; mret (0, set)
  | None => mret (-1, ∅)
  end.

(** ** The queues of the cores *)

(** A lock that the master itself holds is never released. *)
Definition acquire (tile : Z) : M Mcp unit :=
  s ← gets id ;
  held ← lift (vget "m_core_lock" (m_core_lock s) tile) ;
  (if (held : bool) then fail (EFuel "Lock::acquire") else skip) ;;
  modify (λ s, s <| m_core_lock ::= zinsert tile true |>).
Definition release (tile : Z) : M Mcp unit :=
  modify (λ s, s <| m_core_lock ::= zinsert tile false |>).

Definition queue (tile : Z) : M Mcp (list ThreadSpawnRequest) :=
  s ← gets id ; lift (vget "m_waiter_queue" (m_waiter_queue s) tile).
Definition set_queue (tile : Z) (q : list ThreadSpawnRequest) : M Mcp unit :=
  modify (λ s, s <| m_waiter_queue ::= zinsert tile q |>).
(** [front] of an empty queue reads outside it. *)
Definition front (tile : Z) : M Mcp ThreadSpawnRequest :=
  q ← queue tile ; lift (of_option (head q) (ERange "m_waiter_queue")).
Definition push (tile : Z) (r : ThreadSpawnRequest) : M Mcp unit :=
  q ← queue tile ; set_queue tile (q ++ [r]).

Definition getNextThreadIdx (core_id : core_id_t) : M Mcp Z :=
  q ← queue (tile_id core_id) ;
  mret (match q with r :: _ => destination_tidx r | [] => INVALID_THREAD_ID end).
Definition enqueueThread (core_id : core_id_t) (r : ThreadSpawnRequest) : M Mcp unit :=
  push (tile_id core_id) r.
(** [requeueThread] of the round-robin scheduler and of the base class. *)
Definition requeueThread (core_id : core_id_t) : M Mcp unit :=
  s ← gets id ;
  if m_round_robin s then
    r ← front (tile_id core_id) ;
    q ← queue (tile_id core_id) ;
    set_queue (tile_id core_id) (tail q ++ [r])
  else fail (ELog "No scheme was set for requeuing threads!").

Definition set_next_tidx (tile tidx : Z) : M Mcp unit :=
  s ← gets id ;
  l ← lift (vset "m_local_next_tidx" (m_local_next_tidx s) tile tidx) ;
  modify (λ s, s <| m_local_next_tidx := l |>).
Definition next_tidx_of (tile : Z) : M Mcp Z :=
  s ← gets id ; lift (vget "m_local_next_tidx" (m_local_next_tidx s) tile).

Definition insertThreadSpawnRequest (r : ThreadSpawnRequest) : M Mcp unit :=
  modify (λ s, s <| m_thread_spawn_list := m_thread_spawn_list s ++ [r] |>).

(** ** Scheduling *)

Definition isCoreInitializing_core (core_id : core_id_t) : M Mcp bool :=
  if isMainCore core_id then isCoreInitializing (tile_id core_id) else fail (ELog "Invalid core type!").

Definition masterStartThread (core_id : core_id_t) : M Mcp unit :=
  q ← queue (tile_id core_id) ;
  match q with
  | [] => fail (ELog "ThreadScheduler::masterStartThread")
  | req :: q' =>
    let tile := tile_id (destination req) in
    let tidx := destination_tidx req in
    s ← gets id ;
    row ← lift (vget "m_last_start_time" (m_last_start_time s) tile) ;
    row ← lift (vset "m_last_start_time" row tidx (u32 (wall_clock s))) ;
    modify (λ s, s <| m_last_start_time ::= zinsert tile row |>) ;;
    t ← thread_at tile tidx ;
    (if bool_decide (status t = Core.INITIALIZING) then skip
     else fail (ELog "Haven't made this work for starting waiting threads yet")) ;;
    match SysConfig.m_simulation_mode (config s) with
    | SysConfig.FULL =>
      dest_proc ← lift (SysConfig.getProcessNumForTile (config s) tile) ;
      let req := req <| msg_type := LCP_SPAWN_REQUEST_FROM_MASTER |> in
      set_queue (tile_id core_id) (req :: q') ;;
      modify (λ s, s <| m_sent := m_sent s ++ [ToProcess dest_proc req] |>)
    | SysConfig.LITE =>
      insertThreadSpawnRequest req ;;
      modify (λ s, s <| m_thread_spawn_sem := m_thread_spawn_sem s + 1 |>) ;;
      netSend (requester req) (ThreadSpawnReply (destination req) tidx)
    end
  end.

Definition masterScheduleThread (req : ThreadSpawnRequest) : M Mcp unit :=
  let dest := destination req in
  acquire (tile_id dest) ;;
  s ← gets id ;
  when (negb (tile_id dest =? SysConfig.getCurrentThreadSpawnerTileNum (config s))) (push (tile_id dest) req) ;;
  is_thread_startable ←
    (if tile_id (requester req) =? tile_id dest then
       (if isMainCore (requester req) then
          _ ← thread_at (tile_id (requester req)) (requester_tidx req) ; mret false
        else mret false)
     else
       running_thread ← isCoreRunning_core dest ;
       if running_thread =? INVALID_THREAD_ID then
         i ← isCoreInitializing_core dest ; mret (negb i)
       else mret false) ;
  (if isMainCore dest then
     t ← thread_at (tile_id dest) (destination_tidx req) ;
     (if bool_decide (status t = Core.IDLE) then skip else fail (ELog "Spawning a non-idle thread")) ;;
     setThreadStatus (tile_id dest) (destination_tidx req) Core.INITIALIZING
   else fail (ELog "Invalid core type")) ;;
  when is_thread_startable (masterStartThread dest) ;;
  release (tile_id dest).

Definition sched_masterOnThreadExit (core_id : core_id_t) (thread_idx : Z) : M Mcp unit :=
  let tile := tile_id core_id in
  acquire tile ;;
  r ← isCoreRunning_core core_id ;
  assert (r =? INVALID_THREAD_ID) "ThreadScheduler::masterOnThreadExit" ;;
  s ← gets id ;
  q ← queue tile ;
  when (negb (tile =? SysConfig.getCurrentThreadSpawnerTileNum (config s))
        && negb (tile =? SysConfig.getMCPTileNum (config s))) (set_queue tile (tail q)) ;;
  q ← queue tile ;
  next_tidx ←
    match q with
    | [] => mret INVALID_THREAD_ID
    | req :: _ =>
      let next_tidx := destination_tidx req in
      when (negb (next_tidx =? INVALID_THREAD_ID)) (
        is_thread_new ← (if isMainCore core_id then isThreadInitializing tile next_tidx else mret false) ;
        if (is_thread_new : bool) then masterStartThread core_id else resumeThread_core core_id next_tidx) ;;
      mret next_tidx
    end ;
  netSend core_id (ThreadExitReply core_id next_tidx) ;;
  release tile.

(** ** Migration *)

(** The loop of [masterMigrateThread] over the queue: the others keep their
    order, the last request for the thread is taken. *)
Definition take_request (tidx : Z) (q : list ThreadSpawnRequest) : option ThreadSpawnRequest * list ThreadSpawnRequest :=
  (last (filter (λ r, destination_tidx r = tidx) q), filter (λ r, destination_tidx r ≠ tidx) q).

Definition migrate (src_thread_idx : Z) (src_core_id : core_id_t) (dst_thread_idx : Z) (dst_core_id : core_id_t)
    : M Mcp unit :=
  let src := tile_id src_core_id in
  let dst := tile_id dst_core_id in
  when (negb (dst_thread_idx =? INVALID_THREAD_ID)) (
    acquire src ;;
    acquire dst ;;
    running ← (if isMainCore src_core_id then isThreadRunning src src_thread_idx else fail (ELog "Invalid core type!")) ;
    (if (running : bool) then fail (ELog "I can't migrate threads currently running!") else skip) ;;
    q ← queue src ;
    let (found, q) := take_request src_thread_idx q in
    set_queue src q ;;
    req ← lift (of_option found (ELog "Could not find thread idx")) ;
    push dst (req <| destination := dst_core_id |> <| destination_tidx := dst_thread_idx |>) ;;
    running_thread ← isCoreRunning_core dst_core_id ;
    is_thread_startable ←
      (if running_thread =? INVALID_THREAD_ID then i ← isCoreInitializing_core dst_core_id ; mret (negb i)
       else mret false) ;
    src_state ← thread_at src src_thread_idx ;
    (if bool_decide (status src_state ≠ Core.IDLE) then skip else fail (ELog "The migrating thread is IDLE!")) ;;
    dst_state ← thread_at dst dst_thread_idx ;
    (if bool_decide (status dst_state = Core.IDLE) then skip else fail (ELog "The destination thread is not IDLE!")) ;;
    setThreadIndex (thread_id src_state) dst_core_id dst_thread_idx ;;
    setThreadState dst dst_thread_idx src_state ;;
    setThreadStatus src src_thread_idx Core.IDLE ;;
    when is_thread_startable (
      set_next_tidx dst dst_thread_idx ;;
      t ← thread_at dst dst_thread_idx ;
      if bool_decide (status t = Core.INITIALIZING) then masterStartThread dst_core_id
      else
        resumeThread_core dst_core_id dst_thread_idx ;;
        (** [getCoreFromID] knows the tiles of the master's process only. *)
        s ← gets id ;
        proc ← lift (SysConfig.getProcessNumForTile (config s) dst) ;
        (if proc =? 0 then skip else fail (ENull "TileManager::getCoreFromID")) ;;
        modify (λ s, s <| m_sent := m_sent s ++ [SetCoreState dst_core_id Core.RUNNING] |>)) ;;
    release dst ;;
    release src).

Definition masterMigrateThread (src_thread_id dst_tile_id dst_core_type : Z) : M Mcp unit :=
  let dst_core_id := mkCoreId dst_tile_id dst_core_type in
  dst_thread_idx ← getIdleThread dst_core_id ;
  when (negb (dst_thread_idx =? INVALID_THREAD_ID)) (
    src ← lookupThreadIndex src_thread_id ;
    assert (negb (snd src =? INVALID_THREAD_ID)) "ThreadScheduler::masterMigrateThread" ;;
    migrate (snd src) (fst src) dst_thread_idx dst_core_id).

(** ** Affinity requests *)

Definition masterSchedSetAffinity (tid cpusetsize : Z) (set : gset Z) : M Mcp unit :=
  s ← gets id ;
  (if cpusetsize <=? SysConfig.getTotalTiles (config s) then skip
   else fail (ELog "ThreadScheduler::masterSchedSetAffinity")) ;;
  p ← lookupThreadIndex tid ;
  assert (negb (snd p =? INVALID_THREAD_ID)) "ThreadScheduler::masterSchedSetAffinity" ;;
  setThreadAffinity (tile_id (fst p)) (snd p) set.

Definition masterSchedGetAffinity (requester : core_id_t) (tid cpusetsize : Z) : M Mcp unit :=
  p ← lookupThreadIndex tid ;
  assert (negb (snd p =? INVALID_THREAD_ID)) "ThreadScheduler::masterSchedGetAffinity" ;;
  set ← getThreadAffinity (tile_id (fst p)) (snd p) ;
  s ← gets id ;
  (if cpusetsize <=? SysConfig.getTotalTiles (config s) then skip
   else fail (ELog "ThreadScheduler::masterSchedGetAffinity")) ;;
  netSend requester (ThreadAffinityReply tid set).

(** The loop of [masterCheckAffinityAndMigrate] over the tiles of the mask:
    the first one without a running thread. *)
Fixpoint idle_core_from (n : nat) (i : Z) (set : gset Z) (dst : core_id_t) : M Mcp core_id_t :=
  match n with
  | O => mret dst
  | S n =>
    if bool_decide (i ∈ set) then
      let current := getMainCoreId i in
      r ← isCoreRunning_core current ;
      if r =? INVALID_THREAD_ID then mret current
      else if tile_id dst =? INVALID_TILE_ID then
        idle ← getIdleThread current ;
        idle_core_from n (i + 1) set (if idle =? INVALID_THREAD_ID then dst else current)
      else idle_core_from n (i + 1) set dst
    else idle_core_from n (i + 1) set dst
  end.

(** The core and the index of the thread afterwards. *)
Definition masterCheckAffinityAndMigrate (core_id : core_id_t) (thread_idx : Z) : M Mcp (bool * core_id_t * Z) :=
  s ← gets id ;
  set ← getThreadAffinity (tile_id core_id) thread_idx ;
  dst_core_id ←
    (if negb (bool_decide (set = ∅)) && negb (bool_decide (tile_id core_id ∈ set)) then
       idle_core_from (Z.to_nat (SysConfig.getTotalTiles (config s))) 0 set core_id
     else mret core_id) ;
  if negb (tile_id dst_core_id =? tile_id core_id) then
    dst_thread_idx ← getIdleThread dst_core_id ;
    release (tile_id core_id) ;;
    migrate thread_idx core_id dst_thread_idx dst_core_id ;;
    acquire (tile_id core_id) ;;
    mret (false, dst_core_id, dst_thread_idx)
  else mret (true, dst_core_id, thread_idx).

(** ** Yielding *)

Definition masterYieldThread (req_core_id : core_id_t) (req_tidx : Z) : M Mcp unit :=
  let tile := tile_id req_core_id in
  set_next_tidx tile req_tidx ;;
  acquire tile ;;
  f ← front tile ;
  assert (destination_tidx f =? req_tidx) "ThreadScheduler::masterYieldThread" ;;
  stallThread_core req_core_id req_tidx ;;
  requeueThread req_core_id ;;
  f ← front tile ;
  set_next_tidx tile (destination_tidx f) ;;
  r ← masterCheckAffinityAndMigrate req_core_id req_tidx ;
  let '(_, dst_core_id, dst_tidx) := r : bool * core_id_t * Z in
  q ← queue tile ;
  match q with
  | [] => set_next_tidx tile INVALID_THREAD_ID
  | _ =>
    next ← next_tidx_of tile ;
    is_thread_new ← (if isMainCore req_core_id then isThreadInitializing tile next else mret false) ;
    if (is_thread_new : bool) then masterStartThread req_core_id else resumeThread_core req_core_id next
  end ;;
  next ← next_tidx_of tile ;
  dst_next ← next_tidx_of (tile_id dst_core_id) ;
  netSend req_core_id
    (ThreadYieldReply (mkThreadYieldRequest req_core_id req_tidx next dst_core_id dst_tidx dst_next)) ;;
  release tile.

(** ** Starting, joining and ending threads *)

Definition masterOnThreadStart (tile tidx : Z) : M Mcp unit :=
  t ← thread_at tile tidx ;
  (if bool_decide (status t = Core.INITIALIZING) then skip
   else fail (ELog "Main thread should be in initializing state but isn't")) ;;
  setThreadStatus tile tidx Core.RUNNING.

Definition wakeUpWaiter (core_id : core_id_t) (tidx time : Z) : M Mcp unit :=
  if isMainCore core_id then
    t ← thread_at (tile_id core_id) tidx ;
    when (negb (tile_id (waiter_core t) =? INVALID_TILE_ID)) (
      let dest := waiter_core t in
      resumeThread_core dest (waiter_tid t) ;;
      netSend dest (ThreadJoinReply time) ;;
      set_thread (tile_id core_id) tidx
        (λ t, t <| waiter_core := INVALID_CORE_ID |> <| waiter_tid := INVALID_THREAD_ID |>))
  else fail (ELog "Unrecognized core type to wake up").

Definition slaveTerminateThreadSpawnerAck (tile : Z) : M Mcp unit :=
  s ← gets id ;
  mfor (seqZ 0 (SysConfig.m_num_processes (config s))) (λ i,
    when (tile =? SysConfig.getThreadSpawnerTileNum (config s) i)
      (modify (λ s, s <| m_sent := m_sent s ++ [QuitSpawnerAck] |>))).

Definition masterOnThreadExit (tile core_type tidx time : Z) : M Mcp unit :=
  s ← gets id ;
  (if u32 tile <? zlength (m_thread_state s) then skip else fail (ELog "Tile id out of range")) ;;
  t ← thread_at tile tidx ;
  (if bool_decide (status t = Core.RUNNING) then skip else fail (ELog "Exiting thread is not even running!")) ;;
  setThreadStatus tile tidx Core.IDLE ;;
  signal_server ;;
  wakeUpWaiter (mkCoreId tile core_type) tidx time ;;
  sched_masterOnThreadExit (mkCoreId tile core_type) tidx ;;
  when (bool_decide (SysConfig.m_simulation_mode (config s) = SysConfig.FULL)) (slaveTerminateThreadSpawnerAck tile).

Definition masterJoinThread (req : ThreadJoinRequest) (time : Z) : M Mcp unit :=
  s ← gets id ;
  (if receiver_tid req <? s32 (zlength (m_tid_to_core_map s)) then skip
   else fail (ELog "A thread with this tid has not been spawned before!")) ;;
  p ← lift (vget "m_tid_to_core_map" (m_tid_to_core_map s) (receiver_tid req)) ;
  let dst := tile_id (fst p) in
  let dst_tidx := snd p in
  (if negb (dst_tidx =? INVALID_THREAD_ID) then skip else fail (ELog "Could not find the thread")) ;;
  t ← thread_at dst dst_tidx ;
  (if tile_id (waiter_core t) =? INVALID_TILE_ID then skip else fail (ELog "Multiple threads joining")) ;;
  set_thread dst dst_tidx (λ t, t <| waiter_core := sender req |> <| waiter_tid := sender_tidx req |>) ;;
  stallThread (sender req) ;;
  s ← gets id ;
  (if u32 dst <? zlength (m_thread_state s) then skip else fail (ELog "Tile id out of range")) ;;
  t ← thread_at dst dst_tidx ;
  when (bool_decide (status t = Core.IDLE)) (wakeUpWaiter (fst p) dst_tidx time).

(** ** Spawning *)

(** The inner loop: the tiles after the requester's, cyclically; tile 0 is not
    used. *)
Fixpoint idle_tile_from (n : nat) (i requester_tile tiles j : Z) : M Mcp (option Z) :=
  match n with
  | O => mret None
  | S n =>
    let target_tile := u32 (requester_tile + i) `mod` tiles in
    if target_tile =? 0 then idle_tile_from n (i + 1) requester_tile tiles j
    else
      t ← thread_at target_tile j ;
      if bool_decide (status t = Core.IDLE) then mret (Some target_tile)
      else idle_tile_from n (i + 1) requester_tile tiles j
  end.
(** The outer loop over the thread indices goes on after a tile was found. *)
Fixpoint find_destination (l : list Z) (requester_tile tiles : Z) (found : core_id_t * Z) : M Mcp (core_id_t * Z) :=
  match l with
  | [] => mret found
  | j :: l =>
    t ← idle_tile_from (Z.to_nat tiles) 1 requester_tile tiles j ;
    find_destination l requester_tile tiles
      (match t with Some tile => (getMainCoreId tile, j) | None => found end)
  end.

Definition masterSpawnThreadReply (req : ThreadSpawnRequest) : M Mcp unit :=
  resumeThread (requester req) ;;
  netSend (requester req) (ThreadSpawnReply (destination req) (destination_tidx req)).

Definition masterSpawnThread (req : ThreadSpawnRequest) : M Mcp unit :=
  stallThread_core (requester req) (requester_tidx req) ;;
  s ← gets id ;
  let c := config s in
  d ← (if tile_id (destination req) =? INVALID_TILE_ID then
         find_destination (seqZ 0 (SysConfig.m_max_threads_per_core c)) (tile_id (requester req))
           (SysConfig.m_application_tiles c) (destination req, destination_tidx req)
       else
         tidx ← getIdleThread (destination req) ; mret (destination req, tidx)) ;
  let req := req <| destination := fst d |> <| destination_tidx := snd d |> in
  (if negb (tile_id (destination req) =? INVALID_TILE_ID) then skip
   else fail (ELog "No cores available for spawnThread request.")) ;;
  (if negb (destination_tidx req =? INVALID_THREAD_ID) then skip
   else fail (ELog "No threads available on destination core for spawnThread request.")) ;;
  tid ← getNewThreadId (destination req) (destination_tidx req) ;
  let req := req <| destination_tid := tid |> in
  (if negb (tid =? INVALID_THREAD_ID) then skip else fail (ELog "Problem generating new thread id.")) ;;
  masterScheduleThread req ;;
  masterSpawnThreadReply req.

Definition masterQueryThreadIndex (requester : core_id_t) (tid : Z) : M Mcp unit :=
  p ← lookupThreadIndex tid ;
  next ← getNextThreadIdx (fst p) ;
  netSend requester (ThreadQueryIndexReply (mkThreadIndexRequest requester tid (fst p) (snd p) next)).

(** ** The spawner of a process

    Its list of requests is filled by the local control process and emptied by
    the spawner and the spawned threads; [m_thread_spawn_sem] counts it. *)

Definition slaveSpawnThread (req : ThreadSpawnRequest) : M Mcp unit :=
  insertThreadSpawnRequest req ;;
  modify (λ s, s <| m_thread_spawn_sem := m_thread_spawn_sem s + 1 |>).

(** [getThreadToSpawn] blocks on an empty semaphore: it has no next state then. *)
Definition getThreadToSpawn : M Mcp (option ThreadSpawnRequest) :=
  s ← gets id ;
  if m_thread_spawn_sem s =? 0 then mret None
  else
    modify (λ s, s <| m_thread_spawn_sem := m_thread_spawn_sem s - 1 |>) ;;
    r ← lift (of_option (head (m_thread_spawn_list s)) (ERange "m_thread_spawn_list")) ;
    mret (Some r).
Definition getThreadSpawnReq : M Mcp (option ThreadSpawnRequest) :=
  s ← gets id ; mret (head (m_thread_spawn_list s)).
Definition dequeueThreadSpawnReq : M Mcp ThreadSpawnRequest :=
  s ← gets id ;
  r ← lift (of_option (head (m_thread_spawn_list s)) (ERange "m_thread_spawn_list")) ;
  modify (λ s, s <| m_thread_spawn_list ::= tail |>) ;;
  mret r.

Definition slaveTerminateThreadSpawner : M Mcp unit :=
  slaveSpawnThread (mkThreadSpawnRequest LCP_QUIT_THREAD_SPAWNER 0 0 INVALID_CORE_ID 0 INVALID_CORE_ID 0 0 0).
Definition updateTerminateThreadSpawner : M Mcp unit :=
  modify (λ s, s <| m_thread_spawners_terminated := u32 (m_thread_spawners_terminated s + 1) |>).

End Sched.
