(* ===== verification/ThreadSchedulerProofs.v ===== *)
(** * ThreadSchedulerProofs: the operations on threads and queues

    The thread table read and written by position, the well-formedness of the
    scheduler's tables, and what each operation of ThreadScheduler.v does. *)
From S2P Require Import Prelude ThreadManager ThreadManagerProofs ThreadScheduler.
Import Mcp Sched.

Lemma succeeds_Ok {S A} (m : M S A) s Q : succeeds m s Q → ∃ a s', m s = Ok (a, s') ∧ Q a s'.
Proof. unfold runs. destruct (m s) as [[a s']|]; naive_solver. Qed.
Lemma succeeds_when_true {S E} b (m : M S unit) s Q : b = true → runs E m s Q → runs E (when b m) s Q.
Proof. by intros ->. Qed.
Lemma succeeds_guard {S E} (b : bool) e (s : S) (Q : unit → S → Prop) :
  b = true → Q tt s → runs E (if b then skip else fail e) s Q.
Proof. by intros ->. Qed.

Lemma runs_total {S A} E (m : M S A) s Q : succeeds m s Q → runs E m s Q.
Proof. unfold runs. destruct (m s) as [[a s']|]; [done|by intros []]. Qed.

(** [go] runs the steps whose effect is plain. *)
Ltac go1 :=
  match goal with
  | |- _ => run1
  | |- runs _ (if _ then skip else fail _) _ _ => apply succeeds_guard
  | |- runs _ (if isMainCore (getMainCoreId ?x) then _ else _) _ _ =>
    change (isMainCore (getMainCoreId x)) with true
  end.
Ltac go := repeat (cbv beta iota delta [id]; go1); cbv beta iota delta [id].

Lemma vget_lookup {A} site (l : list A) i x : zlookup l i = Some x → vget site l i = Ok x.
Proof. apply vget_Ok. Qed.
Lemma vset_in {A} site (l : list A) i x : 0 ≤ i < zlength l → vset site l i x = Ok (zinsert i x l).
Proof. intros. by apply vset_Ok. Qed.

(** ** The thread table by position *)

Definition thread_of (s : Mcp) (tile j : Z) : option ThreadState :=
  row ← zlookup (m_thread_state s) tile ; zlookup row j.
Definition upd_thread (tile j : Z) (t : ThreadState) (s : Mcp) : Mcp :=
  s <| m_thread_state ::= λ tb, match zlookup tb tile with Some row => zinsert tile (zinsert j t row) tb | None => tb end |>.

Lemma thread_of_Some s tile j t :
  thread_of s tile j = Some t ↔ ∃ row, zlookup (m_thread_state s) tile = Some row ∧ zlookup row j = Some t.
Proof. unfold thread_of. destruct (zlookup (m_thread_state s) tile); naive_solver. Qed.

Lemma thread_of_table s s' : m_thread_state s' = m_thread_state s → thread_of s' = thread_of s.
Proof. unfold thread_of. by intros ->. Qed.

Lemma runs_thread_at {E} s tile j t Q :
  thread_of s tile j = Some t → Q t s → runs E (thread_at tile j) s Q.
Proof.
  intros (row & H1 & H2)%thread_of_Some HQ. eapply runs_Ok; [by eapply thread_at_spec|done].
Qed.
Lemma runs_set_thread {E} s tile j t f Q :
  thread_of s tile j = Some t → Q tt (upd_thread tile j (f t) s) → runs E (set_thread tile j f) s Q.
Proof.
  intros (row & H1 & H2)%thread_of_Some HQ. eapply runs_Ok; [by eapply set_thread_spec|].
  unfold upd_thread in HQ. cbn in HQ. by rewrite H1 in HQ.
Qed.

Lemma thread_of_upd s tile j t t' i k :
  thread_of s tile j = Some t →
  thread_of (upd_thread tile j t' s) i k = if decide (i = tile ∧ k = j) then Some t' else thread_of s i k.
Proof.
  intros (row & H1 & H2)%thread_of_Some. pose proof (zlookup_Some _ _ _ H1) as [Ht _].
  pose proof (zlookup_Some _ _ _ H2) as [Hj _]. unfold thread_of, upd_thread. cbn. rewrite H1.
  destruct (decide (i = tile)) as [->|Hi].
  - rewrite zlookup_zinsert_eq by done. rewrite H1. cbn. destruct (decide (k = j)) as [->|Hk].
    + rewrite decide_True by done. by apply zlookup_zinsert_eq.
    + rewrite decide_False by naive_solver. by apply zlookup_zinsert_ne.
  - rewrite decide_False by naive_solver. by rewrite zlookup_zinsert_ne.
Qed.
Lemma thread_of_upd_eq s tile j t t' :
  thread_of s tile j = Some t → thread_of (upd_thread tile j t' s) tile j = Some t'.
Proof. intros H. rewrite (thread_of_upd _ _ _ _ _ _ _ H). by rewrite decide_True. Qed.
Lemma thread_of_upd_ne s tile j t t' i k :
  thread_of s tile j = Some t → (i, k) ≠ (tile, j) → thread_of (upd_thread tile j t' s) i k = thread_of s i k.
Proof. intros H Hne. rewrite (thread_of_upd _ _ _ _ _ _ _ H). rewrite decide_False; [done|]. intros [-> ->]. done. Qed.

Lemma zlength_upd s tile j t : zlength (m_thread_state (upd_thread tile j t s)) = zlength (m_thread_state s).
Proof. unfold upd_thread. cbn. destruct (zlookup _ tile); [by rewrite zlength_zinsert|done]. Qed.

(** ** Running threads by position *)

Lemma runs_on_of s tile j : runs_on s tile j ↔ ∃ t, thread_of s tile j = Some t ∧ running t.
Proof. unfold runs_on. setoid_rewrite thread_of_Some. naive_solver. Qed.
Lemma quiet_of s tile :
  quiet s tile ↔ 0 ≤ tile < zlength (m_thread_state s) ∧ ∀ j t, thread_of s tile j = Some t → ¬ running t.
Proof.
  unfold quiet. setoid_rewrite thread_of_Some. split.
  - intros (row & H1 & HF). pose proof (zlookup_Some _ _ _ H1) as [Ht _]. split; [done|].
    intros j t (row' & ? & H2). simplify_eq. apply zlookup_Some in H2 as [_ H2].
    by eapply Forall_lookup in HF.
  - intros [[row H1]%zlookup_is_Some H]. exists row. split; [done|]. apply Forall_lookup. intros i t Hi.
    apply (H (Z.of_nat i)). exists row. split; [done|]. rewrite zlookup_nat by lia. by rewrite Nat2Z.id.
Qed.
(** At most one thread of each core runs. *)
Definition single_runner (s : Mcp) : Prop :=
  ∀ tile i j t u, thread_of s tile i = Some t → thread_of s tile j = Some u → running t → running u → i = j.

Lemma threads_wf_of s :
  threads_wf s ↔ single_runner s ∧ zlength (m_last_stalled_thread s) = zlength (m_thread_state s).
Proof.
  split.
  - intros [H1 H2]. split; [|done]. intros tile i j t u (row & Hr & Ht)%thread_of_Some (row' & ? & Hu)%thread_of_Some.
    simplify_eq. pose proof (zlookup_Some _ _ _ Ht) as [? ?]. pose proof (zlookup_Some _ _ _ Hu) as [? ?].
    intros. enough (Z.to_nat i = Z.to_nat j) by lia. by eapply (H1 tile row).
  - intros [H1 H2]. split; [|done]. intros tile row Hr i j t u Ht Hu Rt Ru.
    enough (Z.of_nat i = Z.of_nat j) by lia. apply (H1 tile _ _ t u); [| |done|done];
      apply thread_of_Some; exists row; (split; [done|]); rewrite zlookup_nat by lia; by rewrite Nat2Z.id.
Qed.

Lemma runs_isCoreRunning {E} s tile Q :
  threads_wf s → 0 ≤ tile < zlength (m_thread_state s) →
  (quiet s tile → Q INVALID_THREAD_ID s) → (∀ j, 0 ≤ j → runs_on s tile j → Q j s) →
  runs E (isCoreRunning tile) s Q.
Proof.
  intros W Ht H1 H2. destruct (isCoreRunning_spec s tile W Ht) as [[Hq EX]|(j & Hj & Hr & EX)];
    (eapply runs_Ok; [exact EX|]); auto.
Qed.
Lemma runs_isCoreRunning_quiet s tile Q :
  threads_wf s → quiet s tile → Q INVALID_THREAD_ID s → succeeds (isCoreRunning tile) s Q.
Proof.
  intros W Hq HQ. apply runs_isCoreRunning; [done|by apply quiet_of in Hq as [? _]|done|].
  intros j _ Hr. by destruct (quiet_not_running _ _ _ Hq Hr).
Qed.

(** ** The tables of the scheduler *)

(** Between two messages no lock is held; the tables have an entry for every
    tile and thread; the requests in a queue are for threads of the queue's
    core. *)
Record sched_wf (s : Mcp) : Prop := {
  wf_mcp : mcp_wf s;
  wf_locks : m_core_lock s = replicate (length (m_thread_state s)) false;
  wf_queues : zlength (m_waiter_queue s) = zlength (m_thread_state s);
  wf_next_tidx : zlength (m_local_next_tidx s) = zlength (m_thread_state s);
  wf_start_time : ∀ tile j, is_Some (thread_of s tile j) →
    ∃ row, zlookup (m_last_start_time s) tile = Some row ∧ 0 ≤ j < zlength row;
  wf_processes : ∀ tile, 0 ≤ tile < zlength (m_thread_state s) →
    is_Ok (SysConfig.getProcessNumForTile (config s) tile);
  wf_requests : ∀ tile q r, zlookup (m_waiter_queue s) tile = Some q → r ∈ q →
    destination r = getMainCoreId tile ∧ is_Some (thread_of s tile (destination_tidx r))
}.

Definition queue_of (s : Mcp) (tile : Z) : list ThreadSpawnRequest :=
  default [] (zlookup (m_waiter_queue s) tile).

Lemma thread_of_range s tile j t : thread_of s tile j = Some t → 0 ≤ tile < zlength (m_thread_state s) ∧ 0 ≤ j.
Proof. intros (row & H1%zlookup_Some & H2%zlookup_Some)%thread_of_Some. naive_solver. Qed.

Lemma runs_acquire {E} s tile Q :
  zlookup (m_core_lock s) tile = Some false → Q tt (s <| m_core_lock ::= zinsert tile true |>) →
  runs E (acquire tile) s Q.
Proof.
  intros Hl HQ. unfold acquire. go. eapply runs_lift; [by apply vget_lookup|]. go. done.
Qed.
Lemma acquire_release (n : nat) tile :
  zinsert tile false (zinsert tile true (replicate n false)) = replicate n false.
Proof.
  unfold zinsert. destruct (0 <=? tile); [|done]. rewrite list_insert_insert_eq. apply list_eq. intros i.
  destruct (decide (i = Z.to_nat tile)) as [->|Hne]; [|by rewrite list_lookup_insert_ne].
  destruct (decide (Z.to_nat tile < n)%nat).
  - rewrite list_lookup_insert_eq, lookup_replicate_2 by (rewrite ?length_replicate; lia). done.
  - by rewrite list_insert_ge by (rewrite length_replicate; lia).
Qed.
Lemma lock_free s tile : sched_wf s → 0 ≤ tile < zlength (m_thread_state s) → zlookup (m_core_lock s) tile = Some false.
Proof.
  intros W Ht. rewrite (wf_locks s W), zlookup_nat by lia. apply lookup_replicate_2. unfold zlength in Ht. lia.
Qed.

Lemma runs_queue {E} s tile q Q : zlookup (m_waiter_queue s) tile = Some q → Q q s → runs E (queue tile) s Q.
Proof. intros H HQ. unfold queue. go. eapply runs_lift; [by apply vget_lookup|done]. Qed.
Lemma runs_front s tile r q Q :
  zlookup (m_waiter_queue s) tile = Some (r :: q) → Q r s → succeeds (front tile) s Q.
Proof. intros H HQ. unfold front. go. eapply runs_queue; [done|]. by eapply runs_lift. Qed.
Lemma runs_push {E} s tile q r Q :
  zlookup (m_waiter_queue s) tile = Some q → Q tt (s <| m_waiter_queue ::= zinsert tile (q ++ [r]) |>) →
  runs E (push tile r) s Q.
Proof. intros H HQ. unfold push, set_queue. go. eapply runs_queue; [done|]. go. done. Qed.

(** A core whose first request waits to be started is started. *)
Record started (r : ThreadSpawnRequest) (s s' : Mcp) : Prop := {
  started_frame : ∃ q times l sem sent, s' = s <| m_waiter_queue := q |> <| m_last_start_time := times |>
    <| m_thread_spawn_list := l |> <| m_thread_spawn_sem := sem |> <| m_sent := m_sent s ++ sent |>;
  started_queues : ∀ tile, zlookup (m_waiter_queue s') tile = zlookup (m_waiter_queue s) tile ∨
    tile = tile_id (destination r) ∧ ∃ q, zlookup (m_waiter_queue s) tile = Some (r :: q) ∧
      zlookup (m_waiter_queue s') tile = Some (r <| msg_type := LCP_SPAWN_REQUEST_FROM_MASTER |> :: q);
  started_length : zlength (m_waiter_queue s') = zlength (m_waiter_queue s);
  started_times : ∀ tile row, zlookup (m_last_start_time s) tile = Some row →
    ∃ row', zlookup (m_last_start_time s') tile = Some row' ∧ zlength row' = zlength row;
  started_request : match SysConfig.m_simulation_mode (config s) with
    | SysConfig.FULL => ∃ proc, SysConfig.getProcessNumForTile (config s) (tile_id (destination r)) = Ok proc ∧
        m_sent s' = m_sent s ++ [ToProcess proc (r <| msg_type := LCP_SPAWN_REQUEST_FROM_MASTER |>)]
    | SysConfig.LITE => m_thread_spawn_list s' = m_thread_spawn_list s ++ [r] ∧
        m_thread_spawn_sem s' = m_thread_spawn_sem s + 1
    end
}.

Lemma masterStartThread_spec s tile r q t Q :
  zlookup (m_waiter_queue s) tile = Some (r :: q) → destination r = getMainCoreId tile →
  thread_of s tile (destination_tidx r) = Some t → status t = Core.INITIALIZING →
  (∃ row, zlookup (m_last_start_time s) tile = Some row ∧ 0 ≤ destination_tidx r < zlength row) →
  is_Ok (SysConfig.getProcessNumForTile (config s) tile) →
  (∀ s', started r s s' → Q tt s') → succeeds (masterStartThread (getMainCoreId tile)) s Q.
Proof.
  intros Hq Hd Ht Hst (row & Hrow & Hj) [proc Hproc] HQ.
  pose proof (zlookup_Some _ _ _ Hq) as [Hrange _]. pose proof (zlookup_Some _ _ _ Hrow) as [Hrr _].
  unfold masterStartThread. go. eapply runs_queue; [exact Hq|]. go. rewrite Hd. cbn [tile_id getMainCoreId].
  eapply runs_lift; [by apply vget_lookup|]. go. eapply runs_lift; [by apply vset_in|]. go.
  eapply runs_thread_at; [by rewrite (thread_of_table s)|]. go; [by apply bool_decide_eq_true|].
  destruct (SysConfig.m_simulation_mode (config s)) eqn:Hm; unfold set_queue, insertThreadSpawnRequest, netSend; go.
  - eapply runs_lift; [exact Hproc|]. go. apply HQ. constructor; cbn.
    + repeat eexists.
    + intros i. destruct (decide (i = tile)) as [->|Hi]; [|left; by rewrite zlookup_zinsert_ne].
      right. split; [by rewrite Hd|]. exists q. split; [done|]. by rewrite zlookup_zinsert_eq.
    + by rewrite zlength_zinsert.
    + intros i row' Hi. destruct (decide (i = tile)) as [->|Hne].
      * rewrite zlookup_zinsert_eq by done. simplify_eq. eexists. split; [done|]. by rewrite zlength_zinsert.
      * rewrite zlookup_zinsert_ne by done. eauto.
    + rewrite Hm. exists proc. by rewrite Hd.
  - apply HQ. constructor; cbn.
    + repeat eexists.
    + by left.
    + done.
    + intros i row' Hi. destruct (decide (i = tile)) as [->|Hne].
      * rewrite zlookup_zinsert_eq by done. simplify_eq. eexists. split; [done|]. by rewrite zlength_zinsert.
      * rewrite zlookup_zinsert_ne by done. eauto.
    + by rewrite Hm.
Qed.

(** ** Stalling and resuming by position *)

Definition with_state (st : Core.State) (t : ThreadState) : ThreadState := t <| status := st |>.

Lemma upd_thread_table s tile j t row :
  zlookup (m_thread_state s) tile = Some row →
  upd_thread tile j t s = s <| m_thread_state := zinsert tile (zinsert j t row) (m_thread_state s) |>.
Proof. intros H. unfold upd_thread. cbn. by rewrite H. Qed.

(** What a signal of the clock-skew barrier may change. *)
Definition signalled (s s' : Mcp) : Prop := ∃ srv l st,
  s' = s <| m_clock_skew_minimization_server := srv |>
         <| m_sent := m_sent s ++ (release_message <$> l) |> <| m_statistics := st |>.

Lemma mcp_wf_quiet_upd s tile j t t' :
  mcp_wf s → thread_of s tile j = Some t → (running t' → quiet s tile) → mcp_wf (upd_thread tile j t' s).
Proof.
  intros [[HS HL]%threads_wf_of WB] Ht Hr. split; [apply threads_wf_of; split|]; rewrite ?zlength_upd; [|done|done].
  intros i a b u v. rewrite !(thread_of_upd _ _ _ _ _ _ _ Ht).
  repeat case_decide; intros; destruct_and?; simplify_eq; try done.
  - apply quiet_of in Hr as [_ Hq]; [|done]. naive_solver.
  - apply quiet_of in Hr as [_ Hq]; [|done]. naive_solver.
  - by eapply HS.
Qed.

Lemma runs_stall s tile j t Q :
  mcp_wf s → thread_of s tile j = Some t →
  (∀ s', signalled (upd_thread tile j (with_state Core.STALLED t) s
                      <| m_last_stalled_thread ::= zinsert tile j |>) s' → mcp_wf s' → Q tt s') →
  succeeds (stallThread_core (getMainCoreId tile) j) s Q.
Proof.
  intros W (row & H1 & H2)%thread_of_Some HQ.
  destruct (stallThread_at_spec s tile j row t W H1 H2) as (s' & E & W' & _ & _ & _ & Heff).
  eapply runs_Ok; [exact E|]. apply HQ; [|done]. apply signal_effect_frame in Heff.
  erewrite upd_thread_table by exact H1. exact Heff.
Qed.

Lemma runs_resume s tile j t Q :
  thread_of s tile j = Some t → ¬ running t → Q tt (upd_thread tile j (with_state Core.RUNNING t) s) →
  succeeds (resumeThread_core (getMainCoreId tile) j) s Q.
Proof.
  intros Ht Hr HQ. change (resumeThread_core _ j) with (resumeThread_at tile j). unfold resumeThread_at. go.
  eapply runs_thread_at; [done|]. go; [by apply bool_decide_eq_true|]. by eapply runs_set_thread.
Qed.

Lemma quiet_upd s tile j t t' :
  threads_wf s → thread_of s tile j = Some t → running t → ¬ running t' → quiet (upd_thread tile j t' s) tile.
Proof.
  intros [HS _]%threads_wf_of Ht Hr Hr'. pose proof (thread_of_range _ _ _ _ Ht) as [Hrange _].
  apply quiet_of. rewrite zlength_upd. split; [done|]. intros k u. rewrite (thread_of_upd _ _ _ _ _ _ _ Ht).
  case_decide as Hd; intros ?; simplify_eq; [done|]. intros Hu. apply Hd. split; [done|]. by eapply HS.
Qed.
Lemma quiet_table s s' tile : m_thread_state s' = m_thread_state s → quiet s tile → quiet s' tile.
Proof. unfold quiet. by intros ->. Qed.

(** ** Yielding *)

Lemma sched_wf_frame s s' :
  sched_wf s → mcp_wf s' → zlength (m_thread_state s') = zlength (m_thread_state s) →
  (∀ tile j, is_Some (thread_of s' tile j) ↔ is_Some (thread_of s tile j)) →
  m_core_lock s' = m_core_lock s → config s' = config s →
  zlength (m_local_next_tidx s') = zlength (m_local_next_tidx s) →
  (∀ tile row, zlookup (m_last_start_time s) tile = Some row →
     ∃ row', zlookup (m_last_start_time s') tile = Some row' ∧ zlength row' = zlength row) →
  zlength (m_waiter_queue s') = zlength (m_waiter_queue s) →
  (∀ tile q r, zlookup (m_waiter_queue s') tile = Some q → r ∈ q →
     destination r = getMainCoreId tile ∧ is_Some (thread_of s tile (destination_tidx r))) →
  sched_wf s'.
Proof.
  intros W W' Hlen Hth Hlock Hc Hnext Htimes Hql Hq. split; [done| | | | | |].
  - rewrite Hlock, (wf_locks s W). f_equal. unfold zlength in Hlen. lia.
  - rewrite Hql, Hlen. apply W.
  - rewrite Hnext, Hlen. apply W.
  - intros tile j H%Hth. destruct (wf_start_time s W tile j H) as (row & H1 & H2).
    destruct (Htimes _ _ H1) as (row' & ? & E). exists row'. by rewrite E.
  - rewrite Hlen, Hc. apply W.
  - intros tile q r H1 H2. rewrite Hth. by eapply Hq.
Qed.

Lemma is_Some_upd s tile j t t' i k :
  thread_of s tile j = Some t → is_Some (thread_of (upd_thread tile j t' s) i k) ↔ is_Some (thread_of s i k).
Proof.
  intros H. rewrite (thread_of_upd _ _ _ _ _ _ _ H). case_decide as Hd; [|done]. destruct Hd as [-> ->].
  rewrite H. split; by eexists.
Qed.

(** The affinity of a thread does not ask for another core. *)
Definition stays (s : Mcp) (tile : Z) (t : ThreadState) : Prop :=
  ∃ set, zlookup (m_cpu_sets s) (cpu_set t) = Some set ∧ (set = ∅ ∨ tile ∈ set).

Lemma runs_check_affinity s tile j t Q :
  thread_of s tile j = Some t → stays s tile t → Q (true, getMainCoreId tile, j) s →
  succeeds (masterCheckAffinityAndMigrate (getMainCoreId tile) j) s Q.
Proof.
  intros Ht (set & Hset & Hs) HQ. unfold masterCheckAffinityAndMigrate, getThreadAffinity. go.
  eapply runs_thread_at; [done|]. go. eapply runs_lift; [by apply vget_lookup|]. go. cbn [tile_id getMainCoreId].
  replace (negb (bool_decide (set = ∅)) && negb (bool_decide (tile ∈ set))) with false.
  - go. cbn [tile_id getMainCoreId]. rewrite Z.eqb_refl. go. done.
  - symmetry. destruct Hs as [->|Hs]; [by rewrite bool_decide_eq_true_2|].
    rewrite (bool_decide_eq_true_2 (tile ∈ set)) by done. apply andb_false_r.
Qed.

Lemma runs_set_next s tile k Q :
  0 ≤ tile < zlength (m_local_next_tidx s) →
  Q tt (s <| m_local_next_tidx := zinsert tile k (m_local_next_tidx s) |>) → succeeds (set_next_tidx tile k) s Q.
Proof. intros Ht HQ. unfold set_next_tidx. go. eapply runs_lift; [by apply vset_in|]. go. done. Qed.
Lemma runs_next s tile k Q :
  zlookup (m_local_next_tidx s) tile = Some k → Q k s → succeeds (next_tidx_of tile) s Q.
Proof. intros Ht HQ. unfold next_tidx_of. go. eapply runs_lift; [by apply vget_lookup|done]. Qed.

(** The thread [j] of [tile] yields to thread [k]. *)
Record yielded (tile j k : Z) (t : ThreadState) (s s' : Mcp) : Prop := {
  yielded_wf : sched_wf s';
  yielded_self : j ≠ k → thread_of s' tile j = Some (with_state Core.STALLED t);
  yielded_next : ∃ u, thread_of s tile k = Some u ∧
    if bool_decide (status u = Core.INITIALIZING) then quiet s' tile
    else thread_of s' tile k = Some (with_state Core.RUNNING u);
  yielded_others : ∀ i x, i ≠ tile ∨ x ≠ j ∧ x ≠ k → thread_of s' i x = thread_of s i x;
  yielded_round_robin : m_round_robin s' = m_round_robin s;
  yielded_masks : m_cpu_sets s' = m_cpu_sets s;
  yielded_queues : ∀ i, i ≠ tile → zlookup (m_waiter_queue s') i = zlookup (m_waiter_queue s) i;
  yielded_sent : ∃ l, m_sent s' = m_sent s ++ l ++
    [ToCore (getMainCoreId tile) (ThreadYieldReply
       (mkThreadYieldRequest (getMainCoreId tile) j k (getMainCoreId tile) j k))]
}.

(** The first half of [masterYieldThread]: the thread stalls and goes to the
    end of its core's queue. *)
Definition requeued (tile j k : Z) (t : ThreadState) (q : list ThreadSpawnRequest) (s s' : Mcp) : Prop :=
  ∃ srv l st, s' = upd_thread tile j (with_state Core.STALLED t)
    (s <| m_local_next_tidx := zinsert tile k (zinsert tile j (m_local_next_tidx s)) |>
       <| m_core_lock := zinsert tile true (m_core_lock s) |>
       <| m_waiter_queue := zinsert tile q (m_waiter_queue s) |>
       <| m_last_stalled_thread := zinsert tile j (m_last_stalled_thread s) |>
       <| m_clock_skew_minimization_server := srv |>
       <| m_sent := m_sent s ++ (release_message <$> l) |> <| m_statistics := st |>).

Lemma runs_requeue s tile r q Q :
  m_round_robin s = true → zlookup (m_waiter_queue s) tile = Some (r :: q) →
  Q tt (s <| m_waiter_queue := zinsert tile (q ++ [r]) (m_waiter_queue s) |>) →
  succeeds (requeueThread (getMainCoreId tile)) s Q.
Proof.
  intros Hrr Hq HQ. unfold requeueThread, set_queue. go. rewrite Hrr. go. cbn [tile_id getMainCoreId].
  eapply runs_front; [done|]. go. eapply runs_queue; [done|]. go. done.
Qed.

Lemma head_snoc {A} (q : list A) r : ∃ n q', q ++ [r] = n :: q'.
Proof. destruct q; eauto. Qed.

Lemma mcp_wf_frame s s' :
  mcp_wf s → m_thread_state s' = m_thread_state s → m_last_stalled_thread s' = m_last_stalled_thread s →
  m_clock_skew_minimization_server s' = m_clock_skew_minimization_server s → mcp_wf s'.
Proof. intros [[H1 H2] H3] E1 E2 E3. split; [split|]; by rewrite ?E1, ?E2, ?E3. Qed.

Lemma requeued_thread s tile j k t q s' i x :
  thread_of s tile j = Some t → requeued tile j k t q s s' →
  thread_of s' i x = if decide (i = tile ∧ x = j) then Some (with_state Core.STALLED t) else thread_of s i x.
Proof.
  intros Ht (srv & l & st & ->). rewrite (thread_of_table (upd_thread tile j (with_state Core.STALLED t) s)) by done.
  by rewrite (thread_of_upd _ _ _ _ _ _ _ Ht).
Qed.

Lemma requeued_quiet s tile j k t q s' :
  sched_wf s → thread_of s tile j = Some t → running t → requeued tile j k t q s s' → quiet s' tile.
Proof.
  intros W Ht Hr (srv & l & st & ->). eapply (quiet_table (upd_thread tile j (with_state Core.STALLED t) s)); [done|].
  eapply quiet_upd; [|exact Ht|done|done]. apply W.
Qed.

(** The second half: the core's next thread starts or resumes, without the
    release of the lock. *)
Record handed_over (tile k : Z) (u : ThreadState) (s s' : Mcp) : Prop := {
  handed_next : if bool_decide (status u = Core.INITIALIZING) then thread_of s' = thread_of s
    else ∀ i x, thread_of s' i x = if decide (i = tile ∧ x = k) then Some (with_state Core.RUNNING u) else thread_of s i x;
  handed_frame : ∃ tb q times l sem sent, s' = s <| m_thread_state := tb |> <| m_waiter_queue := q |>
    <| m_last_start_time := times |> <| m_thread_spawn_list := l |> <| m_thread_spawn_sem := sem |>
    <| m_sent := m_sent s ++ sent |>;
  handed_length : zlength (m_thread_state s') = zlength (m_thread_state s) ∧
    zlength (m_waiter_queue s') = zlength (m_waiter_queue s);
  handed_queues : ∀ i, (destination <$> queue_of s' i) = (destination <$> queue_of s i) ∧
    (destination_tidx <$> queue_of s' i) = (destination_tidx <$> queue_of s i) ∧
    (i ≠ tile → zlookup (m_waiter_queue s') i = zlookup (m_waiter_queue s) i);
  handed_times : ∀ i row, zlookup (m_last_start_time s) i = Some row →
    ∃ row', zlookup (m_last_start_time s') i = Some row' ∧ zlength row' = zlength row;
  handed_wf : mcp_wf s'
}.

Lemma started_handed tile r q u s s' :
  mcp_wf s → destination r = getMainCoreId tile → zlookup (m_waiter_queue s) tile = Some (r :: q) →
  status u = Core.INITIALIZING → started r s s' → handed_over tile (destination_tidx r) u s s'.
Proof.
  intros W Hd Hq Hu S. pose proof (started_frame _ _ _ S) as (q1 & times & l & sem & sent & ->).
  destruct S as [_ SQ SL ST _]. cbn in SQ, SL, ST. rewrite Hd in SQ. cbn in SQ. constructor; cbn.
  - by rewrite bool_decide_eq_true_2.
  - exists (m_thread_state s). repeat eexists.
  - done.
  - intros i. unfold queue_of. cbn. destruct (SQ i) as [->|(-> & q2 & E1 & E2)]; [done|].
    rewrite E1, E2. cbn. rewrite Hd. split_and!; [done..|]. by intros [].
  - exact ST.
  - by eapply mcp_wf_frame.
Qed.

Lemma resumed_handed tile k u s :
  mcp_wf s → quiet s tile → thread_of s tile k = Some u → status u ≠ Core.INITIALIZING →
  handed_over tile k u s (upd_thread tile k (with_state Core.RUNNING u) s).
Proof.
  intros W Hq Hu Hst. constructor.
  - rewrite bool_decide_eq_false_2 by done. intros i x. by apply (thread_of_upd _ _ _ _ _ _ _ Hu).
  - exists (m_thread_state (upd_thread tile k (with_state Core.RUNNING u) s)), (m_waiter_queue s), (m_last_start_time s),
      (m_thread_spawn_list s), (m_thread_spawn_sem s), []. rewrite app_nil_r. by destruct s.
  - by rewrite zlength_upd.
  - done.
  - eauto.
  - by eapply mcp_wf_quiet_upd.
Qed.

Lemma runs_hand_over s tile r q u Q :
  mcp_wf s → quiet s tile → zlookup (m_waiter_queue s) tile = Some (r :: q) →
  destination r = getMainCoreId tile → thread_of s tile (destination_tidx r) = Some u →
  (∃ row, zlookup (m_last_start_time s) tile = Some row ∧ 0 ≤ destination_tidx r < zlength row) →
  is_Ok (SysConfig.getProcessNumForTile (config s) tile) →
  (∀ s', handed_over tile (destination_tidx r) u s s' → (status u = Core.INITIALIZING → started r s s') → Q tt s') →
  succeeds (is_thread_new ← isThreadInitializing tile (destination_tidx r) ;
            if (is_thread_new : bool) then masterStartThread (getMainCoreId tile)
            else resumeThread_core (getMainCoreId tile) (destination_tidx r)) s Q.
Proof.
  intros W Hquiet Hq Hd Hu Hrow Hproc HQ. unfold isThreadInitializing. go.
  eapply runs_thread_at; [done|]. go. case_bool_decide as Hst.
  - eapply masterStartThread_spec; [done..|]. intros s' Hs. apply HQ; [by eapply started_handed|done].
  - eapply runs_resume; [done| |by apply HQ; [apply resumed_handed|]].
    apply quiet_of in Hquiet as [_ H]. by eapply H.
Qed.

Lemma fmap_pair_elem {A B C} (f : A → B) (g : A → C) (l l' : list A) x :
  x ∈ l → (f <$> l) = f <$> l' → (g <$> l) = g <$> l' → ∃ y, y ∈ l' ∧ f y = f x ∧ g y = g x.
Proof.
  intros [i Hi]%list_elem_of_lookup Hf Hg.
  assert ((f <$> l') !! i = Some (f x)) as (y & Hy & Hyi)%list_lookup_fmap_Some_1
    by (rewrite <- Hf, list_lookup_fmap; by rewrite Hi).
  assert ((g <$> l') !! i = Some (g x)) as Hg' by (rewrite <- Hg, list_lookup_fmap; by rewrite Hi).
  rewrite list_lookup_fmap, Hyi in Hg'. exists y. split; [by eapply list_elem_of_lookup_2|]. naive_solver.
Qed.

Lemma handed_requests tile k u q s s4 s5 :
  sched_wf s → m_waiter_queue s4 = zinsert tile q (m_waiter_queue s) → handed_over tile k u s4 s5 →
  0 ≤ tile < zlength (m_thread_state s) →
  (∀ r, r ∈ q → destination r = getMainCoreId tile ∧ is_Some (thread_of s tile (destination_tidx r))) →
  ∀ i q' r, zlookup (m_waiter_queue s5) i = Some q' → r ∈ q' →
    destination r = getMainCoreId i ∧ is_Some (thread_of s i (destination_tidx r)).
Proof.
  intros W E4 H Hrange Hreq i q' r Hq' Hr. destruct (handed_queues _ _ _ _ _ H i) as (D1 & D2 & _). unfold queue_of in D1, D2.
  rewrite Hq' in D1, D2. cbn in D1, D2. destruct (fmap_pair_elem _ _ _ _ _ Hr D1 D2) as (r' & Hr' & <- & <-).
  rewrite E4 in Hr'. destruct (decide (i = tile)) as [->|Hi].
  - rewrite zlookup_zinsert_eq in Hr' by (rewrite (wf_queues s W); done). by apply Hreq.
  - rewrite zlookup_zinsert_ne in Hr' by done. destruct (zlookup (m_waiter_queue s) i) eqn:E; cbn in Hr'; [|set_solver].
    by eapply (wf_requests s W).
Qed.

(** A core whose next thread has been started or resumed is unlocked. *)
Lemma unlocked_wf tile k u q s s4 s5 l :
  sched_wf s → 0 ≤ tile < zlength (m_thread_state s) → handed_over tile k u s4 s5 →
  (status u ≠ Core.INITIALIZING → thread_of s4 tile k = Some u) →
  zlength (m_thread_state s4) = zlength (m_thread_state s) →
  (∀ i x, is_Some (thread_of s4 i x) ↔ is_Some (thread_of s i x)) →
  m_core_lock s4 = zinsert tile true (m_core_lock s) → config s4 = config s →
  zlength (m_local_next_tidx s4) = zlength (m_local_next_tidx s) → m_last_start_time s4 = m_last_start_time s →
  m_waiter_queue s4 = zinsert tile q (m_waiter_queue s) →
  (∀ r, r ∈ q → destination r = getMainCoreId tile ∧ is_Some (thread_of s tile (destination_tidx r))) →
  sched_wf (s5 <| m_sent := l |> <| m_core_lock ::= zinsert tile false |>).
Proof.
  intros W Hrange H Hu HL Hdom Hlock Hc Hnext Htimes Hq Hreq.
  assert (∀ i x, is_Some (thread_of s5 i x) ↔ is_Some (thread_of s i x)) as Hdom5.
  { intros i x. rewrite <- Hdom. pose proof (handed_next _ _ _ _ _ H) as Hn. case_bool_decide; rewrite Hn; [done|].
    case_decide as E; [destruct E as [-> ->]; rewrite Hu by done; split; by eexists|done]. }
  pose proof (handed_length _ _ _ _ _ H) as [HL1 HL2]. pose proof (handed_wf _ _ _ _ _ H) as HW.
  pose proof (handed_frame _ _ _ _ _ H) as (tb & q1 & times & l1 & sem & sent & E5). eapply (sched_wf_frame s).
  - done.
  - by eapply mcp_wf_frame.
  - transitivity (zlength (m_thread_state s5)); [done|]. by rewrite HL1.
  - exact Hdom5.
  - rewrite E5. cbn. rewrite Hlock, (wf_locks s W). apply acquire_release.
  - by rewrite E5.
  - rewrite E5. cbn. done.
  - intros i row Hi. apply (handed_times _ _ _ _ _ H). by rewrite Htimes.
  - transitivity (zlength (m_waiter_queue s5)); [done|]. rewrite HL2, Hq. by rewrite zlength_zinsert.
  - exact (handed_requests tile k u q s s4 s5 W Hq H Hrange Hreq).
Qed.

Lemma requeued_handed_wf s tile j k t u q s4 s5 l :
  sched_wf s → thread_of s tile j = Some t → thread_of s4 tile k = Some u →
  requeued tile j k t q s s4 → handed_over tile k u s4 s5 →
  (∀ r, r ∈ q → destination r = getMainCoreId tile ∧ is_Some (thread_of s tile (destination_tidx r))) →
  sched_wf (s5 <| m_sent := l |> <| m_core_lock ::= zinsert tile false |>).
Proof.
  intros W Ht Hu R H Hreq. pose proof (thread_of_range _ _ _ _ Ht) as [Hrange _].
  assert (∀ i x, is_Some (thread_of s4 i x) ↔ is_Some (thread_of s i x)) as Hdom.
  { intros i x. rewrite (requeued_thread _ _ _ _ _ _ _ _ _ Ht R).
    case_decide as E; [destruct E as [-> ->]; rewrite Ht; split; by eexists|done]. }
  destruct R as (srv & l2 & st & E4). eapply (unlocked_wf tile k u q s s4 s5); try done; rewrite E4; try done.
  - apply (zlength_upd s).
  - cbn. by rewrite !zlength_zinsert.
Qed.

(** Equality of two masters, field by field. *)
Ltac mcp_eq :=
  cbv [over eta eta_Mcp m_thread_state m_waiter_queue m_local_next_tidx config m_cpu_sets m_last_stalled_thread
       m_tid_counter m_tid_to_core_map m_thread_spawn_list m_thread_spawn_sem m_thread_spawners_terminated
       m_round_robin m_core_lock m_last_start_time m_clock_skew_minimization_server m_statistics wall_clock m_sent];
  reflexivity.

Lemma requeued_intro tile j k t q s s2 :
  signalled (upd_thread tile j (with_state Core.STALLED t)
      (s <| m_local_next_tidx := zinsert tile j (m_local_next_tidx s) |> <| m_core_lock ::= zinsert tile true |>
         <| m_last_stalled_thread ::= zinsert tile j |>)) s2 →
  requeued tile j k t q s (s2 <| m_waiter_queue := zinsert tile q (m_waiter_queue s2) |>
                              <| m_local_next_tidx := zinsert tile k (m_local_next_tidx s2) |>).
Proof.
  intros (srv & l & st & ->). exists srv, l, st. unfold upd_thread. destruct s. mcp_eq.
Qed.

(** The second half of [masterYieldThread] for a thread that stays. *)
Definition yield_tail (tile j : Z) : M Mcp unit :=
  (next ← next_tidx_of tile ;
   is_thread_new ← isThreadInitializing tile next ;
   if (is_thread_new : bool) then masterStartThread (getMainCoreId tile)
   else resumeThread_core (getMainCoreId tile) next) ;;
  next ← next_tidx_of tile ;
  dst_next ← next_tidx_of tile ;
  netSend (getMainCoreId tile) (ThreadYieldReply
    (mkThreadYieldRequest (getMainCoreId tile) j next (getMainCoreId tile) j dst_next)) ;;
  release tile.

Lemma runs_yield s tile j t r q n q' Q :
  sched_wf s → m_round_robin s = true → thread_of s tile j = Some t → stays s tile t →
  zlookup (m_waiter_queue s) tile = Some (r :: q) → destination_tidx r = j → q ++ [r] = n :: q' →
  (∀ s4, requeued tile j (destination_tidx n) t (n :: q') s s4 → mcp_wf s4 → succeeds (yield_tail tile j) s4 Q) →
  succeeds (masterYieldThread (getMainCoreId tile) j) s Q.
Proof.
  intros W Hrr Ht Hstay Hq Hj Hn HQ. set (k := destination_tidx n) in *.
  pose proof (thread_of_range _ _ _ _ Ht) as [Hrange _]. pose proof (wf_next_tidx s W) as Hnl.
  pose proof (zlookup_Some _ _ _ Hq) as [Hqr _].
  unfold masterYieldThread. go. cbn [tile_id getMainCoreId].
  apply runs_set_next; [lia|]. go. apply runs_acquire; [exact (lock_free s tile W Hrange)|]. go.
  eapply runs_front; [exact Hq|]. go; [by apply Z.eqb_eq|].
  eapply runs_stall; [by eapply mcp_wf_frame; [apply W|..]|exact Ht|]. intros s2 Hs2 W2. go.
  assert (m_waiter_queue s2 = m_waiter_queue s ∧ m_round_robin s2 = m_round_robin s ∧
          zlength (m_local_next_tidx s2) = zlength (m_local_next_tidx s)) as (Eq2 & Er2 & En2).
  { destruct Hs2 as (srv & l & st & ->). split_and!; [done..|]. apply zlength_zinsert. }
  eapply (runs_requeue _ tile r q); [by rewrite Er2|by rewrite Eq2|]. rewrite Hn. go.
  eapply (runs_front _ tile n q'); [cbn; rewrite Eq2; by apply zlookup_zinsert_eq|]. go.
  apply runs_set_next; [cbn; lia|]. fold k. go.
  pose proof (requeued_intro tile j k t (n :: q') s s2 Hs2) as R.
  match goal with |- runs _ _ ?s4 _ => change (requeued tile j k t (n :: q') s s4) in R;
    assert (mcp_wf s4) as W4 by (eapply mcp_wf_frame; [exact W2|reflexivity..]); revert R W4; generalize s4 end.
  intros s4 R W4. pose proof (requeued_thread _ _ _ _ _ _ _ tile j Ht R) as Ht4.
  rewrite decide_True in Ht4 by done. eapply runs_check_affinity; [exact Ht4| |].
  { destruct R as (srv & l & st & ->). exact Hstay. }
  cbv beta iota. apply runs_bind. eapply (runs_queue _ _ (n :: q')).
  { destruct R as (srv & l & st & ->). by apply zlookup_zinsert_eq. }
  cbv beta iota. exact (HQ s4 R W4).
Qed.

Lemma handed_next_tidx tile k u s s' :
  handed_over tile k u s s' → m_local_next_tidx s' = m_local_next_tidx s ∧ m_round_robin s' = m_round_robin s ∧
    m_cpu_sets s' = m_cpu_sets s ∧ ∃ l, m_sent s' = m_sent s ++ l.
Proof. intros [_ (tb & q & times & l & sem & sent & ->) _ _ _ _]. split_and!; [done..|]. by exists sent. Qed.

Lemma yielded_intro tile j k t u q s s4 s5 s' :
  sched_wf s → thread_of s tile j = Some t → running t → thread_of s tile k = Some u → 
  requeued tile j k t q s s4 → mcp_wf s4 → 
  (∀ r, r ∈ q → destination r = getMainCoreId tile ∧ is_Some (thread_of s tile (destination_tidx r))) →
  handed_over tile k (if decide (k = j) then with_state Core.STALLED t else u) s4 s5 →
  s' = s5 <| m_sent := m_sent s5 ++ [ToCore (getMainCoreId tile) (ThreadYieldReply
         (mkThreadYieldRequest (getMainCoreId tile) j k (getMainCoreId tile) j k))] |>
          <| m_core_lock ::= zinsert tile false |> →
  yielded tile j k t s s' ∧ (destination_tidx <$> queue_of s' tile) = destination_tidx <$> q.
Proof.
  intros W Ht Hr Hu R W4 Hreq H E. pose proof (thread_of_range _ _ _ _ Ht) as [Hrange _].
  set (u4 := if decide (k = j) then with_state Core.STALLED t else u) in *.
  assert (thread_of s4 tile k = Some u4) as Hu4.
  { rewrite (requeued_thread _ _ _ _ _ _ _ _ _ Ht R). unfold u4. case_decide; repeat case_decide; naive_solver. }
  assert (with_state Core.RUNNING u4 = with_state Core.RUNNING u ∧
          bool_decide (status u4 = Core.INITIALIZING) = bool_decide (status u = Core.INITIALIZING)) as [Eu Ei].
  { unfold u4. case_decide; [|done]. subst. simplify_eq. split; [done|]. rewrite Hr. done. }
  pose proof (handed_next_tidx _ _ _ _ _ H) as (_ & Hrr5 & Hm5 & l5 & Hs5).
  pose proof (handed_next _ _ _ _ _ H) as Hn. rewrite Ei, Eu in Hn.
  assert (∀ i x, i ≠ tile ∨ x ≠ k → thread_of s5 i x = thread_of s4 i x) as Hother.
  { intros i x Hix. case_bool_decide; rewrite Hn; [done|]. rewrite decide_False; [done|naive_solver]. }
  pose proof R as (srv & l & st & E4).
  rewrite E. split; [constructor|].
  - exact (requeued_handed_wf s tile j k t u4 q s4 s5 _ W Ht Hu4 R H Hreq).
  - intros Hjk. change (thread_of s5 tile j = Some (with_state Core.STALLED t)). rewrite Hother by auto.
    rewrite (requeued_thread _ _ _ _ _ _ _ _ _ Ht R). by rewrite decide_True.
  - exists u. split; [done|]. case_bool_decide as Hi.
    + eapply (quiet_table s5); [done|]. apply quiet_of. rewrite Hn.
      pose proof (handed_length _ _ _ _ _ H) as [-> _]. exact (proj1 (quiet_of s4 tile) (requeued_quiet s tile j k t q s4 W Ht Hr R)).
    + change (thread_of s5 tile k = Some (with_state Core.RUNNING u)). rewrite Hn. by rewrite decide_True.
  - intros i x Hix. change (thread_of s5 i x = thread_of s i x). rewrite Hother by naive_solver.
    rewrite (requeued_thread _ _ _ _ _ _ _ _ _ Ht R). rewrite decide_False; [done|naive_solver].
  - cbn. rewrite Hrr5. by rewrite E4.
  - cbn. rewrite Hm5. by rewrite E4.
  - intros i Hi. change (zlookup (m_waiter_queue s5) i = zlookup (m_waiter_queue s) i).
    destruct (handed_queues _ _ _ _ _ H i) as (_ & _ & ->); [|done]. rewrite E4. by apply zlookup_zinsert_ne.
  - assert (m_sent s4 = m_sent s ++ (release_message <$> l)) as Es4 by (by rewrite E4).
    exists ((release_message <$> l) ++ l5). cbn. rewrite Hs5, Es4, <- !app_assoc. reflexivity.
  - change (queue_of _ tile) with (queue_of s5 tile). destruct (handed_queues _ _ _ _ _ H tile) as (_ & -> & _).
    rewrite E4. unfold queue_of. cbn. rewrite zlookup_zinsert_eq; [done|]. by rewrite (wf_queues s W).
Qed.

Lemma masterYieldThread_spec s tile j t r q n q' u :
  sched_wf s → m_round_robin s = true → thread_of s tile j = Some t → running t → stays s tile t →
  zlookup (m_waiter_queue s) tile = Some (r :: q) → destination_tidx r = j → q ++ [r] = n :: q' →
  thread_of s tile (destination_tidx n) = Some u →
  succeeds (masterYieldThread (getMainCoreId tile) j) s (λ _ s',
    yielded tile j (destination_tidx n) t s s' ∧
    (destination_tidx <$> queue_of s' tile) = destination_tidx <$> (q ++ [r])).
Proof.
  intros W Hrr Ht Hr Hstay Hq Hj Hn Hu. set (k := destination_tidx n) in *.
  pose proof (thread_of_range _ _ _ _ Ht) as [Hrange _]. pose proof (wf_next_tidx s W) as Hnl.
  assert (∀ r', r' ∈ n :: q' → destination r' = getMainCoreId tile ∧ is_Some (thread_of s tile (destination_tidx r')))
    as Hreq.
  { rewrite <- Hn. intros r' Hr'. apply (wf_requests s W tile (r :: q)); [done|]. set_solver. }
  eapply runs_yield; [done..|]. fold k. intros s4 R W4. rewrite Hn. unfold yield_tail. apply runs_bind, runs_bind.
  pose proof R as (srv & l & st & E4).
  assert (zlookup (m_local_next_tidx s4) tile = Some k) as Hk4
    by (rewrite E4; cbn; apply zlookup_zinsert_eq; rewrite zlength_zinsert; lia).
  eapply runs_next; [exact Hk4|]. eapply (runs_hand_over _ tile n q').
  - exact W4.
  - exact (requeued_quiet s tile j k t (n :: q') s4 W Ht Hr R).
  - rewrite E4. apply zlookup_zinsert_eq. by rewrite (wf_queues s W).
  - apply Hreq. set_solver.
  - rewrite (requeued_thread _ _ _ _ _ _ _ _ _ Ht R). instantiate (1 := if decide (k = j) then with_state Core.STALLED t else u).
    fold k. repeat case_decide; naive_solver.
  - rewrite E4. apply (wf_start_time s W). by eexists.
  - rewrite E4. by apply (wf_processes s W).
  - intros s5 H _. pose proof (handed_next_tidx _ _ _ _ _ H) as (En & _ & _ & _). cbv beta.
    apply runs_bind. eapply runs_next; [by rewrite En|]. apply runs_bind. eapply runs_next; [by rewrite En|].
    unfold netSend, release. go. by eapply (yielded_intro tile j k t u (n :: q') s s4 s5).
Qed.

(** ** Preservation by simple changes *)

Lemma sched_wf_same s s' :
  sched_wf s → mcp_wf s' → m_thread_state s' = m_thread_state s → m_core_lock s' = m_core_lock s →
  config s' = config s → m_local_next_tidx s' = m_local_next_tidx s →
  m_last_start_time s' = m_last_start_time s → m_waiter_queue s' = m_waiter_queue s → sched_wf s'.
Proof.
  intros W W' E1 E2 E3 E4 E5 E6. eapply (sched_wf_frame s); rewrite ?E1, ?E2, ?E3, ?E4, ?E5, ?E6; try done.
  - by rewrite (thread_of_table s s').
  - eauto.
  - apply W.
Qed.

Lemma sched_wf_upd s tile j t t' :
  sched_wf s → thread_of s tile j = Some t → (running t' → quiet s tile) → sched_wf (upd_thread tile j t' s).
Proof.
  intros W Ht Hr. eapply (sched_wf_frame s); try done.
  - eapply mcp_wf_quiet_upd; [apply W|done..].
  - apply zlength_upd.
  - intros. by eapply is_Some_upd.
  - eauto.
  - apply W.
Qed.

Lemma quiet_upd_quiet s tile j t t' i :
  thread_of s tile j = Some t → ¬ running t' → quiet s i → quiet (upd_thread tile j t' s) i.
Proof.
  intros Ht Hr [Hi Hq]%quiet_of. apply quiet_of. rewrite zlength_upd. split; [done|]. intros x u.
  rewrite (thread_of_upd _ _ _ _ _ _ _ Ht). case_decide; [naive_solver|by apply Hq].
Qed.

(** ** Scheduling a new thread *)

(** The threads of a core all wait in its queue although they have been started:
    nobody starts the next one. *)
Definition no_new_thread (s : Mcp) (tile : Z) : Prop :=
  ∀ j t, thread_of s tile j = Some t → status t ≠ Core.INITIALIZING.
Definition all_wait (s : Mcp) (tile j : Z) : Prop :=
  quiet s tile ∧ no_new_thread s tile ∧ ∃ r, head (queue_of s tile) = Some r ∧ destination_tidx r ≠ j.

Lemma isCoreInitializing_spec {E} s tile Q :
  0 ≤ tile < zlength (m_thread_state s) →
  (∀ b : bool, (b = false ↔ no_new_thread s tile) → Q b s) →
  runs E (isCoreInitializing_core (getMainCoreId tile)) s Q.
Proof.
  intros [row Hrow]%zlookup_is_Some HQ. unfold isCoreInitializing_core, isCoreInitializing. go.
  eapply runs_lift; [by apply vget_lookup|]. go. apply HQ. rewrite <- not_true_iff_false, existsb_exists. split.
  - intros Hb j t (row' & ? & Hj)%thread_of_Some Hi. simplify_eq.
    apply zlookup_Some in Hj as [_ Hj]. apply Hb. exists t.
    split; [|by apply bool_decide_eq_true]. rewrite <- list_elem_of_In. by eapply list_elem_of_lookup_2.
  - intros Hn (t & Ht%list_elem_of_In%list_elem_of_lookup & Hi%bool_decide_eq_true). destruct Ht as [j Hj].
    apply (Hn (Z.of_nat j) t); [|done]. apply thread_of_Some. exists row. split; [done|].
    by rewrite zlookup_nat, Nat2Z.id by lia.
Qed.

(** The thread [j] of [tile] waits in the queue of its core for its start. *)
Record scheduled (tile j : Z) (t : ThreadState) (r : ThreadSpawnRequest) (s s' : Mcp) : Prop := {
  scheduled_wf : sched_wf s';
  scheduled_thread : ∀ i x, thread_of s' i x =
    if decide (i = tile ∧ x = j) then Some (with_state Core.INITIALIZING t) else thread_of s i x;
  scheduled_queue : (destination_tidx <$> queue_of s' tile) = destination_tidx <$> (queue_of s tile ++ [r]);
  scheduled_frame : ∃ tb q times l sem sent, s' = s <| m_thread_state := tb |> <| m_waiter_queue := q |>
    <| m_last_start_time := times |> <| m_thread_spawn_list := l |> <| m_thread_spawn_sem := sem |>
    <| m_sent := m_sent s ++ sent |>
}.

Definition enqueued (tile j : Z) (t : ThreadState) (q : list ThreadSpawnRequest) (s : Mcp) : Mcp :=
  upd_thread tile j (with_state Core.INITIALIZING t)
    (s <| m_core_lock ::= zinsert tile true |> <| m_waiter_queue ::= zinsert tile q |>).

Lemma handed_refl tile k u s : mcp_wf s → status u = Core.INITIALIZING → handed_over tile k u s s.
Proof.
  intros W Hu. constructor; [by rewrite bool_decide_eq_true_2| |done|done|eauto|done].
  exists (m_thread_state s), (m_waiter_queue s), (m_last_start_time s), (m_thread_spawn_list s), (m_thread_spawn_sem s), [].
  rewrite app_nil_r. by destruct s.
Qed.

Lemma scheduled_intro tile j t r s s4 :
  sched_wf s → thread_of s tile j = Some t → destination r = getMainCoreId tile → destination_tidx r = j →
  handed_over tile j (with_state Core.INITIALIZING t) (enqueued tile j t (queue_of s tile ++ [r]) s) s4 →
  scheduled tile j t r s (s4 <| m_core_lock ::= zinsert tile false |>).
Proof.
  intros W Ht Hd Hj H. pose proof (thread_of_range _ _ _ _ Ht) as [Hrange _]. set (q := queue_of s tile ++ [r]) in *.
  pose proof (handed_next _ _ _ _ _ H) as Hn. rewrite bool_decide_eq_true_2 in Hn by done.
  pose proof (handed_length _ _ _ _ _ H) as [HL1 HL2]. pose proof (handed_wf _ _ _ _ _ H) as HW.
  pose proof (handed_frame _ _ _ _ _ H) as (tb & q1 & times & l1 & sem & sent & E5).
  assert (∀ i x, thread_of s4 i x =
    if decide (i = tile ∧ x = j) then Some (with_state Core.INITIALIZING t) else thread_of s i x) as Hth.
  { intros i x. rewrite Hn. rewrite <- (thread_of_upd s tile j t _ i x Ht).
    by rewrite (thread_of_table (upd_thread tile j (with_state Core.INITIALIZING t) s)). }
  constructor.
  - eapply (sched_wf_same (s4 <| m_sent := m_sent s4 |> <| m_core_lock ::= zinsert tile false |>));
      [|eapply mcp_wf_frame; [exact HW|done..]|done..].
    eapply (unlocked_wf tile j _ q s (enqueued tile j t q s)); try done.
    + apply (zlength_upd s).
    + intros i x. by apply (is_Some_upd s tile j t).
    + unfold q. intros r' [Hr'| ->%list_elem_of_singleton]%elem_of_app.
      * unfold queue_of in Hr'. destruct (zlookup (m_waiter_queue s) tile) eqn:E; cbn in Hr'; [|set_solver].
        by eapply (wf_requests s W).
      * subst j. by rewrite Ht.
  - exact Hth.
  - destruct (handed_queues _ _ _ _ _ H tile) as (_ & E & _). transitivity (destination_tidx <$> queue_of s4 tile); [done|].
    rewrite E. unfold queue_of at 1. cbn. rewrite zlookup_zinsert_eq by (rewrite (wf_queues s W); done). done.
  - exists tb, q1, times, l1, sem, sent. rewrite E5.
    assert (zinsert tile false (zinsert tile true (m_core_lock s)) = m_core_lock s) as El
      by (rewrite (wf_locks s W); apply acquire_release).
    transitivity (s <| m_thread_state := tb |> <| m_waiter_queue := q1 |> <| m_last_start_time := times |>
      <| m_thread_spawn_list := l1 |> <| m_thread_spawn_sem := sem |> <| m_sent := m_sent s ++ sent |>
      <| m_core_lock := zinsert tile false (zinsert tile true (m_core_lock s)) |>).
    + unfold enqueued, upd_thread. destruct s. mcp_eq.
    + rewrite El. destruct s. mcp_eq.
Qed.

Lemma runs_startable {E} s rt rj tile Q :
  threads_wf s → is_Some (thread_of s rt rj) → 0 ≤ tile < zlength (m_thread_state s) →
  (∀ b : bool, (b = true ↔ rt ≠ tile ∧ quiet s tile ∧ no_new_thread s tile) → Q b s) →
  runs E (if rt =? tile then
       (if isMainCore (getMainCoreId rt) then _ ← thread_at rt rj ; mret false else mret false)
     else
       running_thread ← isCoreRunning_core (getMainCoreId tile) ;
       if running_thread =? INVALID_THREAD_ID then
         i ← isCoreInitializing_core (getMainCoreId tile) ; mret (negb i)
       else mret false) s Q.
Proof.
  intros W [t Ht] Hrange HQ. case (Z.eqb_spec rt tile) as [Hrt|Hrt]; go.
  - eapply runs_thread_at; [done|]. go. apply HQ. naive_solver.
  - change (isCoreRunning_core (getMainCoreId tile)) with (isCoreRunning tile). apply runs_isCoreRunning; [done..| |].
    + intros Hq. cbv beta. change (INVALID_THREAD_ID =? INVALID_THREAD_ID) with true. go. apply isCoreInitializing_spec; [done|].
      intros b Hb. go. apply HQ. rewrite negb_true_iff. naive_solver.
    + intros j Hj Hr. replace (j =? INVALID_THREAD_ID) with false by (symmetry; apply Z.eqb_neq; unfold INVALID_THREAD_ID; lia).
      go. apply HQ. split; [done|]. intros (_ & Hq & _). by destruct (quiet_not_running _ _ _ Hq Hr).
Qed.

(** Starting the core of a thread that was put into its queue. *)
Lemma runs_start_enqueued s tile j t r b (rt : Z) :
  sched_wf s → mcp_wf (enqueued tile j t (queue_of s tile ++ [r]) s) → thread_of s tile j = Some t →
  (b = true ↔ rt ≠ tile ∧ quiet s tile ∧ no_new_thread s tile) → destination r = getMainCoreId tile → destination_tidx r = j →
  let s3 := enqueued tile j t (queue_of s tile ++ [r]) s in
  runs (λ e, (rt ≠ tile ∧ all_wait s tile j) ∧ e = ELog "Haven't made this work for starting waiting threads yet")
    (when b (masterStartThread (getMainCoreId tile))) s3 (λ _ s4,
      ¬ (rt ≠ tile ∧ all_wait s tile j) ∧ handed_over tile j (with_state Core.INITIALIZING t) s3 s4).
Proof.
  intros W W3 Ht Hb Hd Hj s3. pose proof (thread_of_range _ _ _ _ Ht) as [Hrange _].
  assert (zlookup (m_waiter_queue s3) tile = Some (queue_of s tile ++ [r])) as Hq.
  { change (m_waiter_queue s3) with (zinsert tile (queue_of s tile ++ [r]) (m_waiter_queue s)).
    apply zlookup_zinsert_eq. by rewrite (wf_queues s W). }
  destruct b; cbn [when].
  2:{ apply runs_ret. split; [|by apply handed_refl]. intros (Hne & H1 & H2 & _). assert (false = true) by (by apply Hb). done. }
  destruct (proj1 Hb eq_refl) as (Hne & Hq2 & Hi2).
  assert (∃ r0 q0, queue_of s tile ++ [r] = r0 :: q0 ∧ destination r0 = getMainCoreId tile ∧
    is_Some (thread_of s tile (destination_tidx r0)) ∧ (destination_tidx r0 = j ↔ ¬ all_wait s tile j))
    as (r0 & q0 & Eq & Hd0 & [t0 Ht0] & Hj0).
  { destruct (queue_of s tile) as [|r0 q0] eqn:E.
    - exists r, []. split_and!; [done..|by rewrite Hj, Ht|]. split; [|done]. intros _ (_ & _ & x & Hx & _). by rewrite E in Hx.
    - exists r0, (q0 ++ [r]). unfold queue_of in E. destruct (zlookup (m_waiter_queue s) tile) as [l|] eqn:El; [|done].
      cbn in E. subst l. destruct (wf_requests s W tile _ r0 El) as [H1 H2]; [set_solver|]. split_and!; [done..|].
      unfold all_wait, queue_of. rewrite El. cbn. split; [intros H (_ & _ & x & [= <-] & ?); done|].
      intros Hn. destruct (decide (destination_tidx r0 = j)); [done|]. destruct Hn. eauto 10. }
  rewrite Eq in Hq. destruct (decide (destination_tidx r0 = j)) as [Ej|Ej].
  - apply runs_total. eapply (masterStartThread_spec _ tile r0 q0 (with_state Core.INITIALIZING t)); [exact Hq|done| |done| | |intros s' Hs].
    + rewrite Ej. by apply (thread_of_upd_eq (s <| m_core_lock ::= zinsert tile true |> <| m_waiter_queue ::= zinsert tile (queue_of s tile ++ [r]) |>) tile j t).
    + rewrite Ej. apply (wf_start_time s W). by rewrite Ht.
    + by apply (wf_processes s W).
    + split; [naive_solver|]. rewrite <- Ej at 1. by eapply started_handed.
  - unfold masterStartThread. go. eapply runs_queue; [exact Hq|]. go. rewrite Hd0. cbn [tile_id getMainCoreId].
    destruct (wf_start_time s W tile (destination_tidx r0)) as (row & Hrow & Hr0); [by eexists|].
    eapply runs_lift; [by apply vget_lookup|]. go. eapply runs_lift; [by apply vset_in|]. go.
    eapply runs_thread_at.
    { rewrite (thread_of_table s3) by done. unfold s3, enqueued.
      rewrite (thread_of_upd (s <| m_core_lock ::= zinsert tile true |> <| m_waiter_queue ::= zinsert tile (queue_of s tile ++ [r]) |>) tile j t) by done.
      rewrite decide_False by naive_solver. exact Ht0. }
    rewrite bool_decide_eq_false_2 by (by eapply Hi2). apply runs_bind, runs_fail. split; [|done]. split; [done|].
    destruct (decide (destination_tidx r0 = j)); [done|]. split_and!; [done..|].
    destruct (queue_of s tile) as [|r1 q1]; injection Eq as <- <-; [done|]. by exists r1.
Qed.

(** The new thread is put into the queue of its core, and the core is started
    when none of its threads runs or is about to; the first in the queue can only
    be started when it is new. *)
Lemma masterScheduleThread_spec s rt rj tile j t r :
  sched_wf s → is_Some (thread_of s rt rj) → thread_of s tile j = Some t → status t = Core.IDLE →
  tile ≠ SysConfig.getCurrentThreadSpawnerTileNum (config s) →
  requester r = getMainCoreId rt → requester_tidx r = rj → destination r = getMainCoreId tile → destination_tidx r = j →
  runs (λ e, (rt ≠ tile ∧ all_wait s tile j) ∧ e = ELog "Haven't made this work for starting waiting threads yet")
    (masterScheduleThread r) s (λ _ s', ¬ (rt ≠ tile ∧ all_wait s tile j) ∧ scheduled tile j t r s s').
Proof.
  intros W Hreq Ht Hidle Hsp Hr1 Hr2 Hd Hj. pose proof (thread_of_range _ _ _ _ Ht) as [Hrange _].
  assert (zlookup (m_waiter_queue s) tile = Some (queue_of s tile)) as Hq.
  { unfold queue_of. destruct (zlookup_is_Some (m_waiter_queue s) tile) as [q ->]; [rewrite (wf_queues s W); done|done]. }
  unfold masterScheduleThread. rewrite Hd, Hr1, Hr2, Hj. go. cbn [tile_id getMainCoreId]. fold (getMainCoreId tile). fold (getMainCoreId rt).
  apply runs_acquire; [by apply lock_free|]. go. apply succeeds_when_true.
  { apply negb_true_iff, Z.eqb_neq. exact Hsp. }
  eapply runs_push; [exact Hq|]. go. set (q := queue_of s tile ++ [r]).
  match goal with |- runs _ _ ?x _ => set (s2 := x) end.
  assert (mcp_wf s2) as W2 by (eapply mcp_wf_frame; [apply W|reflexivity..]).
  apply (runs_startable s2 rt rj tile); [apply W2|exact Hreq|exact Hrange|].
  intros b Hb. go. eapply (runs_thread_at _ _ _ t); [exact Ht|]. go; [by apply bool_decide_eq_true|].
  unfold setThreadStatus. eapply (runs_set_thread _ _ _ t); [exact Ht|]. cbv beta.
  change (upd_thread _ _ _ s2) with (enqueued tile j t q s).
  assert (mcp_wf (enqueued tile j t q s)) as W3
    by (apply (mcp_wf_quiet_upd s2 tile j t); [done|exact Ht|done]).
  apply runs_bind. eapply runs_mono; [by apply (runs_start_enqueued s tile j t r b rt)|].
  cbv beta. intros _ s4 [Hn H]. unfold release. go. split; [done|]. by apply scheduled_intro.
Qed.

(** ** The destination of a spawn *)

Definition idle_at (s : Mcp) (tile j : Z) : Prop := ∃ t, thread_of s tile j = Some t ∧ status t = Core.IDLE.
(** Every application tile has an entry for each of its threads. *)
Definition full_rows (s : Mcp) (tiles : Z) (j : Z) : Prop :=
  ∀ tile, 0 ≤ tile < tiles → is_Some (thread_of s tile j).

Lemma idle_tile_from_spec s rt tiles j n : ∀ i,
  0 < tiles → 0 ≤ rt → 0 ≤ i → rt + i + Z.of_nat n < 2 ^ 32 → full_rows s tiles j →
  succeeds (idle_tile_from n i rt tiles j) s (λ o s', s' = s ∧
    match o with
    | Some tile => 0 < tile < tiles ∧ idle_at s tile j
    | None => ∀ k, i ≤ k < i + Z.of_nat n → (rt + k) `mod` tiles ≠ 0 → ¬ idle_at s ((rt + k) `mod` tiles) j
    end).
Proof.
  induction n as [|n IH]; intros i Ht Hrt Hi Hb Hf; cbn [idle_tile_from].
  { apply runs_ret. split; [done|]. lia. }
  rewrite u32_small by lia. pose proof (Z.mod_pos_bound (rt + i) tiles Ht) as Hm.
  case (Z.eqb_spec ((rt + i) `mod` tiles) 0) as [H0|H0].
  - eapply runs_mono; [apply (IH (i + 1)); [lia..|done]|]. intros [tile|] s' [-> H]; split; try done.
    intros k Hk Hk0. destruct (decide (k = i)) as [->|]; [done|]. apply H; [lia|done].
  - destruct (Hf ((rt + i) `mod` tiles) Hm) as [t Hth]. go. eapply runs_thread_at; [exact Hth|]. cbv beta.
    case_bool_decide as Hs; [apply runs_ret; split; [done|]; split; [lia|by eexists]|].
    eapply runs_mono; [apply (IH (i + 1)); [lia..|done]|]. intros [tile|] s' [-> H]; split; try done.
    intros k Hk Hk0. destruct (decide (k = i)) as [->|]; [|apply H; [lia|done]].
    intros (u & Hu & Hus). naive_solver.
Qed.

(** After a full circle every tile but tile 0 has been seen. *)
Lemma circle tiles rt tile : 0 < tile < tiles → ∃ k, 1 ≤ k < 1 + Z.of_nat (Z.to_nat tiles) ∧ (rt + k) `mod` tiles = tile.
Proof.
  intros H. set (d := (tile - rt) `mod` tiles). pose proof (Z.mod_pos_bound (tile - rt) tiles ltac:(lia)) as Hd. fold d in Hd.
  assert ((rt + d) `mod` tiles = tile) as E.
  { unfold d. rewrite Zplus_mod_idemp_r. replace (rt + (tile - rt)) with tile by lia. apply Z.mod_small. lia. }
  destruct (decide (d = 0)) as [H0|H0]; [exists tiles|exists d]; (split; [lia|]); [|done].
  rewrite H0, Z.add_0_r in E. transitivity (rt `mod` tiles); [|exact E].
  replace (rt + tiles) with (rt + 1 * tiles) by lia. apply Z_mod_plus_full.
Qed.

Lemma find_destination_spec s rt tiles l : ∀ found,
  0 < tiles < 2 ^ 30 → 0 ≤ rt < 2 ^ 30 → StronglySorted Z.lt l → (∀ j, j ∈ l → full_rows s tiles j) →
  succeeds (find_destination l rt tiles found) s (λ d s', s' = s ∧
    ((∃ tile j, d = (getMainCoreId tile, j) ∧ 0 < tile < tiles ∧ j ∈ l ∧ idle_at s tile j ∧
        ∀ tile' j', 0 < tile' < tiles → j' ∈ l → idle_at s tile' j' → j' ≤ j) ∨
     (d = found ∧ ∀ tile j, 0 < tile < tiles → j ∈ l → ¬ idle_at s tile j))).
Proof.
  induction l as [|j l IH]; intros found Ht Hrt HS Hf; cbn [find_destination].
  { apply runs_ret. split; [done|]. right. split; [done|]. set_solver. }
  apply StronglySorted_inv in HS as [HS Hlt]. rewrite Forall_forall in Hlt.
  go. eapply runs_mono; [apply idle_tile_from_spec; [lia..|apply Hf; set_solver]|].
  intros o s' [-> Ho]. cbv beta. eapply runs_mono; [apply IH; [done..|set_solver]|].
  intros d s' [-> Hd]. split; [done|]. destruct Hd as [(tile & j1 & -> & H1 & H2 & H3 & H4)|[-> Hnone]].
  - left. exists tile, j1. split_and!; [done|lia|lia|set_solver|done|].
    intros tile' j' Ht' [->|Hj']%elem_of_cons Hi'; [apply Hlt in H2; lia|by eapply H4].
  - destruct o as [tile|].
    + left. exists tile, j. destruct Ho as [Ho1 Ho2]. split_and!; [done|lia|lia|set_solver|done|].
      intros tile' j' Ht' [->|Hj']%elem_of_cons Hi'; [done|]. by destruct (Hnone tile' j').
    + right. split; [done|]. intros tile j0 Htile [->|Hj0]%elem_of_cons; [|by apply Hnone].
      destruct (circle tiles rt tile Htile) as (k & Hk & E). rewrite <- E. apply Ho; [lia|lia].
Qed.
