(* ===== verification/ThreadTheorems.v ===== *)
(** * ThreadTheorems: the scheduler's properties *)
From S2P Require Import Prelude ThreadManager ThreadManagerProofs ThreadScheduler ThreadSchedulerProofs.
Import Mcp Sched.

(** ** Round-robin scheduling *)

(** The threads [js] of a core take turns: its queue holds them in order, the
    first runs, none is new and none has to move to another core. *)
Record turns (tile : Z) (js : list Z) (s : Mcp) : Prop := {
  turns_wf : sched_wf s;
  turns_round_robin : m_round_robin s = true;
  turns_queue : (destination_tidx <$> queue_of s tile) = js;
  turns_runs : ∀ j, head js = Some j → runs_on s tile j;
  turns_distinct : NoDup js;
  turns_threads : ∀ j, j ∈ js → ∃ t, thread_of s tile j = Some t ∧ status t ≠ Core.INITIALIZING ∧ stays s tile t
}.

(** The running thread of a core yields, [n] times. *)
Fixpoint yields (tile : Z) (n : nat) : M Mcp unit :=
  match n with
  | O => skip
  | S n => j ← isCoreRunning tile ; masterYieldThread (getMainCoreId tile) j ;; yields tile n
  end.

Lemma yield_turn s tile j js :
  turns tile (j :: js) s →
  succeeds (masterYieldThread (getMainCoreId tile) j) s (λ _ s', turns tile (js ++ [j]) s' ∧
    ∀ i x, i ≠ tile → thread_of s' i x = thread_of s i x).
Proof.
  intros [W Hrr Hq Hr ND Ht].
  destruct (zlookup (m_waiter_queue s) tile) as [[|r q]|] eqn:Hz; unfold queue_of in Hq; rewrite Hz in Hq;
    [done| |done]. cbn in Hq. injection Hq as Hj Hjs.
  pose proof (Hr j eq_refl) as (t & Htj & Hrun)%runs_on_of.
  destruct (Ht j) as (t' & ? & Hi & Hstay); [set_solver|]. simplify_eq.
  destruct (head_snoc q r) as (n & q' & Hn).
  assert (n ∈ r :: q) as Hnq by (assert (n ∈ q ++ [r]) by (rewrite Hn; set_solver); set_solver).
  assert (destination_tidx n ∈ destination_tidx r :: (destination_tidx <$> q)) as Hk
    by (by apply (list_elem_of_fmap_2 destination_tidx (r :: q))).
  destruct (Ht _ Hk) as (u & Hu & Hui & Hus). 
  eapply runs_mono; [by eapply masterYieldThread_spec|]. cbn. intros _ s' [Y HQ].
  destruct Y as [Y1 Y2 (u' & ? & Y3) Y4 Y5 Y6 Y7 Y8]. simplify_eq. rewrite bool_decide_eq_false_2 in Y3 by done.
  assert ((destination_tidx <$> q) ++ [destination_tidx r] = destination_tidx <$> q ++ [r]) as Ejs by (by rewrite fmap_app).
  split; [|naive_solver]. constructor.
  - done.
  - by rewrite Y5.
  - by rewrite HQ.
  - rewrite Ejs, Hn. cbn. intros ? [= <-]. apply runs_on_of. by eexists.
  - rewrite Permutation_app_comm. done.
  - intros x Hx. assert (x ∈ destination_tidx r :: (destination_tidx <$> q)) as Hx' by set_solver.
    destruct (decide (x = destination_tidx n)) as [->|Hn1]; [eexists; by split_and!; [done..|]; unfold stays; rewrite Y6|].
    destruct (decide (x = destination_tidx r)) as [->|Hn2].
    + eexists. split_and!; [by apply Y2|done|]. unfold stays. by rewrite Y6.
    + rewrite Y4 by auto. unfold stays. rewrite Y6. by apply Ht.
Qed.

Lemma yields_turns n : ∀ s tile js,
  (n ≤ length js)%nat → turns tile js s →
  succeeds (yields tile n) s (λ _ s', turns tile (drop n js ++ take n js) s' ∧
    ∀ i x, i ≠ tile → thread_of s' i x = thread_of s i x).
Proof.
  induction n as [|n IH]; intros s tile js Hn T; cbn [yields].
  - apply runs_ret. cbn. by rewrite app_nil_r.
  - destruct js as [|j js]; cbn in Hn; [lia|]. apply runs_bind. pose proof (turns_runs _ _ _ T j eq_refl) as Hrj.
    pose proof (wf_mcp s (turns_wf _ _ _ T)) as [WT _].
    pose proof Hrj as (t & Htj & Hrun)%runs_on_of. pose proof (thread_of_range _ _ _ _ Htj) as [Hrange _].
    apply runs_isCoreRunning; [done|done| |].
    + intros Hq. by destruct (quiet_not_running _ _ _ Hq Hrj).
    + intros k _ (u & Hk & Hu)%runs_on_of. cbv beta. apply threads_wf_of in WT as [HS _].
      assert (k = j) as -> by (by eapply (HS tile)). apply runs_bind.
      eapply runs_mono; [by apply yield_turn|]. intros _ s1 [T1 F1]. cbv beta.
      eapply runs_mono; [apply (IH s1 tile (js ++ [j])); [|done]; rewrite length_app; cbn; lia|].
      intros _ s' [T' F']. split; [|by intros; rewrite F', F1]. cbn [drop take]. 
      rewrite drop_app_le, take_app_le in T' by lia. by rewrite <- app_assoc in T'.
Qed.

(** C21: Under the round-robin scheduler every thread of a core gets its turn:
    when the threads [js] of a core are queued in this order, the first runs and
    none has to be started or moved, then after the running thread has yielded
    [n] times the [n]-th thread of the queue is the one that runs, the queue is
    rotated by [n], and no thread of another core has changed.  In particular
    after one round all threads have run and the first runs again. *)
Theorem round_robin_fair (tile : Z) (js : list Z) (n : nat) (s : Mcp) :
  (n ≤ length js)%nat → js ≠ [] → turns tile js s →
  ∃ s', yields tile n s = Ok (tt, s') ∧ turns tile (drop n js ++ take n js) s' ∧
    (∀ j, js !! (n mod length js)%nat = Some j → runs_on s' tile j) ∧
    ∀ i x, i ≠ tile → thread_of s' i x = thread_of s i x.
Proof.
  intros Hn Hne T. destruct (succeeds_Ok _ _ _ (yields_turns n s tile js Hn T)) as ([] & s' & E & T' & F).
  exists s'. split_and!; [done..| |done]. intros j Hj. apply (turns_runs _ _ _ T').
  destruct (decide (n = length js)) as [->|].
  - rewrite drop_all, firstn_all. destruct js as [|j0 js]; [done|]. rewrite Nat.Div0.mod_same in Hj. done.
  - rewrite Nat.mod_small in Hj by lia. rewrite head_lookup, lookup_app_l by (rewrite length_drop; lia).
    by rewrite lookup_drop, Nat.add_0_r.
Qed.

(** ** Thread identifiers *)



(** ** Spawning *)















(** ** Concrete masters *)

(** A test of [sched_wf] for masters without a clock-skew barrier. *)
Definition all_b {A} (P : Z → A → bool) (l : list A) : bool :=
  forallb (λ p, P p.1 p.2) (imap (λ i x, (Z.of_nat i, x)) l).
Lemma all_b_sound {A} (P : Z → A → bool) l i x : all_b P l = true → zlookup l i = Some x → P i x = true.
Proof.
  unfold all_b. rewrite forallb_forall. intros H [Hi Hx]%zlookup_Some. apply (H (i, x)).
  rewrite <- list_elem_of_In. apply list_elem_of_lookup. exists (Z.to_nat i).
  rewrite list_lookup_imap, Hx. cbn. by rewrite Z2Nat.id by lia.
Qed.

Definition running_b (t : ThreadState) : bool := bool_decide (running t).
Definition sched_b (s : Mcp) : bool :=
  all_b (λ _ row, all_b (λ i t, all_b (λ j u, negb (running_b t && running_b u) || (i =? j)) row) row) (m_thread_state s)
  && (zlength (m_last_stalled_thread s) =? zlength (m_thread_state s))
  && bool_decide (m_clock_skew_minimization_server s = None)
  && bool_decide (m_core_lock s = replicate (length (m_thread_state s)) false)
  && (zlength (m_waiter_queue s) =? zlength (m_thread_state s))
  && (zlength (m_local_next_tidx s) =? zlength (m_thread_state s))
  && all_b (λ i row, match zlookup (m_last_start_time s) i with Some r => zlength row <=? zlength r | None => false end)
       (m_thread_state s)
  && all_b (λ i _, match SysConfig.getProcessNumForTile (config s) i with Ok _ => true | Fail _ => false end)
       (m_thread_state s)
  && all_b (λ i q, forallb (λ r, (tile_id (destination r) =? i) && (core_type (destination r) =? MAIN_CORE_TYPE) &&
       match thread_of s i (destination_tidx r) with Some _ => true | None => false end) q) (m_waiter_queue s).

Lemma sched_b_sound s : sched_b s = true → sched_wf s.
Proof.
  unfold sched_b. rewrite !andb_true_iff, !Z.eqb_eq, !bool_decide_eq_true.
  intros ((((((((H1 & H2) & H3) & H4) & H5) & H6) & H7) & H8) & H9). split; [|done..| | |].
  - split; [|by rewrite H3]. apply threads_wf_of. split; [|done].
    intros tile i j t u (row & Hr & Ht)%thread_of_Some (row' & ? & Hu)%thread_of_Some Rt Ru. simplify_eq.
    pose proof (all_b_sound _ _ _ _ (all_b_sound _ _ _ _ (all_b_sound _ _ _ _ H1 Hr) Ht) Hu) as H.
    unfold running_b in H. rewrite !bool_decide_eq_true_2 in H by done. by apply Z.eqb_eq.
  - intros tile j [t (row & Hr & Ht)%thread_of_Some]. pose proof (all_b_sound _ _ _ _ H7 Hr) as H. cbn in H.
    destruct (zlookup (m_last_start_time s) tile) as [r|]; [|done]. exists r. split; [done|].
    apply Z.leb_le in H. apply zlookup_Some in Ht as [? _]. lia.
  - intros tile [row Hr]%zlookup_is_Some. pose proof (all_b_sound _ _ _ _ H8 Hr) as H. cbn in H.
    destruct (SysConfig.getProcessNumForTile _ _); [by eexists|done].
  - intros tile q r Hq Hr. pose proof (all_b_sound _ _ _ _ H9 Hq) as H. cbn in H. rewrite forallb_forall in H.
    specialize (H r). rewrite <- list_elem_of_In in H. specialize (H Hr). rewrite !andb_true_iff, !Z.eqb_eq in H.
    destruct H as [[E1 E2] H]. split.
    + destruct (destination r). cbn in *. by subst.
    + by destruct (thread_of s tile (destination_tidx r)).
Qed.

(** Three application tiles with two threads each; thread 0 of tile 0 is the
    main thread. *)
Definition small_config : SysConfig.Config := SysConfig.mkConfig SysConfig.LITE 1 3 2 [0; 0; 0; 0].
Definition no_mcp : Mcp := mkMcp small_config [] [] [] 0 [] [] 0 0 true [] [] [] [] None None 0 [].
Definition small_mcp : Mcp := match make small_config true None None with Ok s => s | Fail _ => no_mcp end.
Definition after (l : list (M Mcp unit)) : Mcp :=
  match mfor l id small_mcp with Ok (_, s) => s | Fail _ => no_mcp end.
Definition main_core : core_id_t := getMainCoreId 0.
Definition spawn_on (core : core_id_t) : ThreadSpawnRequest :=
  mkThreadSpawnRequest MCP_SPAWN_REQUEST_FROM_REQUESTER 64 0 main_core 0 core 0 0 0.
(** Two threads of tile 1 that have both run. *)
Definition two_threads : Mcp :=
  after [masterSpawnThread (spawn_on (getMainCoreId 1)); masterOnThreadStart 1 0;
         masterSpawnThread (spawn_on (getMainCoreId 1)); masterYieldThread (getMainCoreId 1) 0; masterOnThreadStart 1 1].

Lemma round_robin_fair_witness : ∃ s', yields 1 1 two_threads = Ok (tt, s') ∧ runs_on s' 1 0.
Proof.
  destruct (round_robin_fair 1 [1; 0] 1 two_threads) as (s' & E & _ & H & _).
  - cbn. lia.
  - done.
  - constructor.
    + apply sched_b_sound. vm_compute. reflexivity.
    + reflexivity.
    + vm_compute. reflexivity.
    + intros j [= <-]. apply runs_on_of. eexists. split; vm_compute; reflexivity.
    + apply (bool_decide_unpack _). vm_compute. exact I.
    + intros j Hj. assert (j = 1 ∨ j = 0) as [->| ->] by set_solver;
        (eexists; split; [vm_compute; reflexivity|]; split; [vm_compute; discriminate|];
         eexists; split; [vm_compute; reflexivity|by left]).
  - exists s'. split; [exact E|]. apply H. reflexivity.
Defined.

