(* ===== verification/JoinTheorems.v ===== *)
(** * JoinTheorems: the end of threads and the threads that wait for it *)
From S2P Require Import Prelude ThreadManager ThreadManagerProofs ThreadScheduler ThreadSchedulerProofs ThreadTheorems.
Import Mcp Sched.


(** ** A core whose thread has ended *)









(** ** The end of a thread *)

(** What the steps of a join and of an exit leave alone. *)
Record same_rest (s s' : Mcp) : Prop := {
  same_config : config s' = config s;
  same_queue : m_waiter_queue s' = m_waiter_queue s;
  same_map : m_tid_to_core_map s' = m_tid_to_core_map s;
  same_length : zlength (m_thread_state s') = zlength (m_thread_state s);
  same_spawns : m_thread_spawn_list s' = m_thread_spawn_list s ∧ m_thread_spawn_sem s' = m_thread_spawn_sem s;
  same_sent : ∃ l, m_sent s' = m_sent s ++ l
}.
#[global] Instance same_rest_refl : Reflexive same_rest.
Proof. intros s. constructor; [done..|]. exists []. by rewrite app_nil_r. Qed.
#[global] Instance same_rest_trans : Transitive same_rest.
Proof.
  intros s1 s2 s3 [A1 A2 A3 A4 [A6 A7] [l1 A5]] [B1 B2 B3 B4 [B6 B7] [l2 B5]]. constructor; [by etrans..|split; by etrans|].
  exists (l1 ++ l2). by rewrite B5, A5, <- app_assoc.
Qed.









(** ** Joining *)














