(* ===== verification/Syscalls.v ===== *)
(** * Syscalls: virtual memory and futexes

    Models system/vm_manager.{h,cc} and the futex calls of
    system/syscall_server.cc.  The other system calls pass their arguments to
    the host. *)
From S2P Require Import Prelude ThreadManager.

(** ** Virtual memory: system/vm_manager.cc *)
Module VMManager.

Inductive Target : Type := IA32 | X86_64.
(** [IntPtr] and [size_t]. *)
Definition ptr (target : Target) : Z → Z := match target with IA32 => u32 | X86_64 => u64 end.

Record VMManager := mkVMManager {
  target : Target;
  m_start_data_segment : Z;
  m_end_data_segment : Z;
  m_start_stack_segment : Z;
  m_end_stack_segment : Z;
  m_start_dynamic_segment : Z;
  m_end_dynamic_segment : Z
}.
#[global] Instance eta_VMManager : Eta VMManager := λ v, mkVMManager
  (target v) (m_start_data_segment v) (m_end_data_segment v) (m_start_stack_segment v)
  (m_end_stack_segment v) (m_start_dynamic_segment v) (m_end_dynamic_segment v).

Definition start_dynamic_segment (t : Target) : Z :=
  match t with IA32 => 2952790016 | X86_64 => 1030792151040 end.

(** The constructor; [data_end] is [sbrk(0)].  The size of the stacks is a
    product of two [UInt32]. *)
Definition make (t : Target) (data_end total_tiles stack_base stack_size_per_core : Z) : res VMManager :=
  let end_stack := ptr t (stack_base + u32 (total_tiles * stack_size_per_core)) in
  check (end_stack >? stack_base) (ELog "Problem with Application Stack") ;;
  check (stack_base >? data_end) (ELog "Problem with Application Stack") ;;
  check (start_dynamic_segment t >? end_stack) (ELog "Problem with Application Stack") ;;
  Ok (mkVMManager t data_end data_end stack_base end_stack (start_dynamic_segment t) (start_dynamic_segment t)).

Definition brk (end_data_segment : Z) : M VMManager Z :=
  v ← gets id ;
  if end_data_segment =? 0 then mret (m_end_data_segment v)
  else
    (if m_start_data_segment v <? end_data_segment then skip else fail (ELog "Problem with brk() system call")) ;;
    (if m_start_stack_segment v >? end_data_segment then skip
     else fail (ELog "Problem with brk() system call: No more memory to allocate!")) ;;
    modify (λ v, v <| m_end_data_segment := end_data_segment |>) ;;
    mret end_data_segment.

Definition MAP_PRIVATE : Z := 2.
Definition MAP_FIXED : Z := 16.
Definition MAP_ANONYMOUS : Z := 32.

(** [mmap]; [mmap2] of the IA32 target has the same body. *)
Definition mmap (length flags fd : Z) : M VMManager Z :=
  v ← gets id ;
  (if fd =? -1 then skip else fail (ELog "Mmap() system call, received valid file descriptor")) ;;
  (if Z.land flags MAP_ANONYMOUS =? MAP_ANONYMOUS then skip else fail (ELog "MAP_ANONYMOUS should be set in flags")) ;;
  (if Z.land flags MAP_FIXED =? 0 then skip else fail (ELog "MAP_FIXED should NOT be set in flags")) ;;
  (if Z.land flags MAP_PRIVATE =? MAP_PRIVATE then skip else fail (ELog "MAP_PRIVATE should be set in flags")) ;;
  let start := ptr (target v) (m_start_dynamic_segment v - length) in
  (if m_end_stack_segment v <? start then skip else fail (ELog "Mmap() system call: No more memory to allocate!")) ;;
  modify (λ v, v <| m_start_dynamic_segment := start |>) ;;
  mret start.
Definition mmap2 : Z → Z → Z → M VMManager Z := mmap.

Definition munmap (start : Z) : M VMManager Z :=
  v ← gets id ;
  (if m_start_dynamic_segment v <=? start then skip else fail (ELog "Munmap() system call")) ;;
  mret 0.

End VMManager.

(** ** Futexes: system/syscall_server.cc *)
Module Futex.

(** The kernel that the simulator is built for. *)
Inductive Kernel : Type := ETCH | LENNY | SQUEEZE.

Definition EWOULDBLOCK : Z := 11.
Definition ENOSYS : Z := 38.
Definition FUTEX_WAIT : Z := 0.
Definition FUTEX_WAKE : Z := 1.
Definition FUTEX_CMP_REQUEUE : Z := 4.
Definition FUTEX_WAKE_OP : Z := 5.
Definition FUTEX_WAIT_BITSET : Z := 9.
Definition FUTEX_PRIVATE_FLAG : Z := 128.
Definition FUTEX_CLOCK_REALTIME : Z := 256.

(** A reply carries a status and a time. *)
Record Reply := mkReply { receiver : core_id_t; status : Z; time : Z }.

(** [m_futexes] maps an address to the queue of a [SimFutex]; [m_memory] is
    the application's memory, which the server reads and writes as 32-bit words
    through its core. *)
Record SyscallServer := mkSyscallServer {
  m_mcp : Mcp.Mcp;
  m_futexes : gmap Z (list core_id_t);
  m_memory : gmap Z Z;
  m_replies : list Reply
}.
#[global] Instance eta_SyscallServer : Eta SyscallServer := λ s, mkSyscallServer
  (m_mcp s) (m_futexes s) (m_memory s) (m_replies s).

Definition thread_manager {A} (m : M Mcp.Mcp A) : M SyscallServer A :=
  zoom m_mcp (λ t s, s <| m_mcp := t |>) m.
Definition reply (c : core_id_t) (status time : Z) : M SyscallServer unit :=
  modify (λ s, s <| m_replies := m_replies s ++ [mkReply c status time] |>).

Definition waiting (s : SyscallServer) (addr : Z) : list core_id_t := default [] (m_futexes s !! addr).
Definition set_waiting (addr : Z) (l : list core_id_t) : M SyscallServer unit :=
  modify (λ s, s <| m_futexes := <[addr := l]> (m_futexes s) |>).
Definition read_word (addr : Z) : M SyscallServer Z := gets (λ s, default 0 (m_memory s !! addr)).
Definition write_word (addr val : Z) : M SyscallServer unit :=
  modify (λ s, s <| m_memory := <[addr := val]> (m_memory s) |>).

(** ** [SimFutex] *)

Definition enqueueWaiter (addr : Z) (core_id : core_id_t) : M SyscallServer unit :=
  thread_manager (Mcp.stallThread core_id) ;;
  s ← gets id ;
  set_waiting addr (waiting s addr ++ [core_id]).

Definition dequeueWaiter (addr : Z) : M SyscallServer core_id_t :=
  s ← gets id ;
  match waiting s addr with
  | [] => mret INVALID_CORE_ID
  | c :: l =>
    set_waiting addr l ;;
    thread_manager (Mcp.resumeThread c) ;;
    mret c
  end.

(** ** The operations *)

Definition futexWait (core_id : core_id_t) (addr val curr_time : Z) : M SyscallServer unit :=
  curr_val ← read_word addr ;
  if negb (val =? curr_val) then reply core_id (- EWOULDBLOCK) curr_time
  else enqueueWaiter addr core_id.

Definition futexWaitClockReal (core_id : core_id_t) (addr val curr_time : Z) : M SyscallServer unit :=
  curr_val ← read_word addr ;
  if negb (val =? curr_val) then reply core_id (- ENOSYS) curr_time
  else fail (ELog "FUTEX_CLOCK_REALTIME not supported").

(** [__futexWake]: the loop runs at most [n] times. *)
Fixpoint wake (n : nat) (addr curr_time woken : Z) : M SyscallServer Z :=
  match n with
  | O => mret woken
  | S n =>
    waiter ← dequeueWaiter addr ;
    if tile_id waiter =? INVALID_TILE_ID then mret woken
    else
      reply waiter 0 curr_time ;;
      wake n addr curr_time (woken + 1)
  end.
Definition __futexWake (addr val curr_time : Z) : M SyscallServer Z := wake (Z.to_nat val) addr curr_time 0.

Definition futexWake (core_id : core_id_t) (addr val curr_time : Z) : M SyscallServer unit :=
  n ← __futexWake addr val curr_time ;
  reply core_id n curr_time.

Definition futexWakeOp (core_id : core_id_t) (addr1 val1 val2 addr2 val3 curr_time : Z) : M SyscallServer unit :=
  let OP := Z.land (Z.shiftr val3 28) 15 in
  let CMP := Z.land (Z.shiftr val3 24) 15 in
  let OPARG := Z.land (Z.shiftr val3 12) 4095 in
  let CMPARG := Z.land val3 4095 in
  oldval ← read_word addr2 ;
  newval ← lift (match OP with
                 | 0 => Ok OPARG
                 | 1 => Ok (s32 (oldval + OPARG))
                 | 2 => Ok (Z.lor oldval OPARG)
                 | 3 => Ok (Z.land oldval (Z.lnot OPARG))
                 | 4 => Ok (Z.lxor oldval OPARG)
                 | _ => Fail (ELog "FUTEX_WAKE_OP: Unhandled OP")
                 end) ;
  write_word addr2 newval ;;
  n1 ← __futexWake addr1 val1 curr_time ;
  condition ← lift (match CMP with
                    | 0 => Ok (oldval =? CMPARG)
                    | 1 => Ok (negb (oldval =? CMPARG))
                    | 2 => Ok (oldval <? CMPARG)
                    | 3 => Ok (oldval <=? CMPARG)
                    | 4 => Ok (oldval >? CMPARG)
                    | 5 => Ok (oldval >=? CMPARG)
                    | _ => Fail (ELog "FUTEX_WAKE_OP: Unhandled CMP")
                    end) ;
  n2 ← (if (condition : bool) then __futexWake addr2 val2 curr_time else mret 0) ;
  reply core_id (n1 + n2) curr_time.

(** The loop of [futexCmpRequeue] that moves waiters. *)
Fixpoint requeue (n : nat) (addr1 addr2 moved : Z) : M SyscallServer Z :=
  match n with
  | O => mret moved
  | S n =>
    waiter ← dequeueWaiter addr1 ;
    if tile_id waiter =? INVALID_TILE_ID then mret moved
    else
      enqueueWaiter addr2 waiter ;;
      requeue n addr1 addr2 (moved + 1)
  end.
Definition futexCmpRequeue (core_id : core_id_t) (addr1 val1 val2 addr2 val3 curr_time : Z) : M SyscallServer unit :=
  curr_val ← read_word addr1 ;
  if negb (val3 =? curr_val) then reply core_id EWOULDBLOCK curr_time
  else
    woken ← __futexWake addr1 val1 curr_time ;
    moved ← requeue (Z.to_nat val2) addr1 addr2 0 ;
    reply core_id (woken + moved) curr_time.

(** [marshallFutexCall], with its arguments; [timeout] is also the second
    value. *)
Definition marshallFutexCall (kernel : Kernel) (core_id : core_id_t) (addr1 op val1 timeout addr2 val3 curr_time : Z)
    : M SyscallServer unit :=
  let has (code : Z) := (op =? code) || (op =? Z.lor code FUTEX_PRIVATE_FLAG) in
  let realtime := op =? Z.lor (Z.lor FUTEX_CLOCK_REALTIME FUTEX_PRIVATE_FLAG) FUTEX_WAIT_BITSET in
  let no_timeout := if timeout =? 0 then skip else fail (ELog "timeout") in
  let val2 := s32 timeout in
  match kernel with
  | ETCH =>
    if op =? FUTEX_WAIT then no_timeout ;; futexWait core_id addr1 val1 curr_time
    else if op =? FUTEX_WAKE then futexWake core_id addr1 val1 curr_time
    else fail (ELog "op")
  | LENNY | SQUEEZE =>
    if has FUTEX_WAIT then no_timeout ;; futexWait core_id addr1 val1 curr_time
    else if has FUTEX_WAKE then futexWake core_id addr1 val1 curr_time
    else if has FUTEX_WAKE_OP then futexWakeOp core_id addr1 val1 val2 addr2 val3 curr_time
    else if has FUTEX_CMP_REQUEUE then futexCmpRequeue core_id addr1 val1 val2 addr2 val3 curr_time
    else if realtime then
      match kernel with
      | SQUEEZE => futexWaitClockReal core_id addr1 val1 curr_time
      | _ => fail (ELog "op")
      end
    else fail (ELog "op")
  end.

End Futex.
