(* ===== verification/SyscallTheorems.v ===== *)
(** * SyscallTheorems: virtual memory and futexes *)
From S2P Require Import Prelude ThreadManager ThreadManagerProofs Packetize SyncServer SyncServerProofs Syscalls.
Import Futex.

(** ** Futexes *)

(** The waiting cores are in one queue each, and their threads are stalled. *)
Record futex_inv (s : SyscallServer) : Prop := {
  futex_mcp : mcp_wf (m_mcp s);
  futex_exclusive : exclusive (waiting s);
  futex_blocked : ∀ a c, c ∈ waiting s a → isMainCore c = true ∧ core_blocked (m_mcp s) c
}.

Definition with_waiting (addr : Z) (l : list core_id_t) (s : SyscallServer) : SyscallServer :=
  s <| m_futexes := <[addr := l]> (m_futexes s) |>.

Lemma waiting_with addr l s a :
  waiting (with_waiting addr l s) a = if decide (a = addr) then l else waiting s a.
Proof.
  unfold waiting, with_waiting. cbn. case_decide as E; [subst; by rewrite lookup_insert_eq|].
  by rewrite lookup_insert_ne.
Qed.

Lemma futex_thread_manager {A} (m : M Mcp.Mcp A) s a mcp' :
  m (m_mcp s) = Ok (a, mcp') → thread_manager m s = Ok (a, s <| m_mcp := mcp' |>).
Proof. unfold thread_manager, zoom. by intros ->. Qed.

Lemma running_not_waiting s c a : futex_inv s → core_runs (m_mcp s) c → c ∉ waiting s a.
Proof. intros I Hr Hc. destruct (futex_blocked _ I a c Hc) as [_ Hb]. by destruct (runs_not_blocked _ _ Hr). Qed.

Lemma enqueueWaiter_spec s addr c :
  futex_inv s → isMainCore c = true → core_runs (m_mcp s) c →
  ∃ mcp', enqueueWaiter addr c s = Ok (tt, with_waiting addr (waiting s addr ++ [c]) (s <| m_mcp := mcp' |>)) ∧
    futex_inv (with_waiting addr (waiting s addr ++ [c]) (s <| m_mcp := mcp' |>)) ∧
    core_change c (m_mcp s) mcp' ∧ core_blocked mcp' c.
Proof.
  intros I Hc Hr. pose proof Hr as [j Hj].
  destruct (stallThread_spec (m_mcp s) c j) as (mcp' & E & W & Ho & Hb); [apply I|done..|].
  exists mcp'. split_and!;
    [unfold enqueueWaiter; by rewrite (run_bind _ _ _ _ _ (futex_thread_manager _ _ _ _ E))| |by split|done].
  assert (∀ a d, d ∈ waiting s a → isMainCore d = true ∧ core_blocked mcp' d) as Hold.
  { intros a d Hd. destruct (futex_blocked _ I a d Hd) as [Hm Hdb]. split; [done|].
    unfold core_blocked. rewrite (only_tile_blocked _ _ _ _ Ho); [done|]. intros Et.
    apply (main_core_eq d c) in Et; [subst d|done|done]. by destruct (running_not_waiting s c a). }
  constructor; [done| |].
  - eapply (exclusive_enqueue _ _ addr c); [apply I| | |].
    + intros a. by apply running_not_waiting.
    + by rewrite waiting_with, decide_True.
    + intros a Ha. by rewrite waiting_with, decide_False.
  - intros a d. rewrite waiting_with. case_decide; [|apply Hold].
    rewrite elem_of_app, list_elem_of_singleton. intros [?| ->]; [by eapply Hold|done].
Qed.

Lemma dequeueWaiter_spec s addr c l :
  futex_inv s → waiting s addr = c :: l →
  ∃ mcp', dequeueWaiter addr s = Ok (c, with_waiting addr l (s <| m_mcp := mcp' |>)) ∧
    futex_inv (with_waiting addr l (s <| m_mcp := mcp' |>)) ∧
    isMainCore c = true ∧ core_change c (m_mcp s) mcp' ∧ core_runs mcp' c.
Proof.
  intros I Hw. assert (c ∈ waiting s addr) as Hin by (rewrite Hw; apply list_elem_of_here).
  destruct (futex_blocked _ I addr c Hin) as [Hc Hb]. destruct (futex_exclusive _ I) as [Hnd Hex].
  destruct (resumeThread_spec (m_mcp s) c) as (mcp' & j & E & W & Ho & Hr & _); [apply I|done..|].
  exists mcp'. split_and!; [| |done|by split|by exists j].
  - unfold dequeueWaiter, gets, mbind at 1, M_bind at 1. cbn -[waiting]. rewrite Hw.
    rewrite (run_bind _ _ _ tt (with_waiting addr l s)) by done.
    by rewrite (run_bind _ _ _ tt ((with_waiting addr l s) <| m_mcp := mcp' |>)) by (by apply futex_thread_manager).
  - assert (∀ a, sublist (waiting (with_waiting addr l (s <| m_mcp := mcp' |>)) a) (waiting s a)) as Hsub.
    { intros a. rewrite waiting_with. case_decide; [subst; rewrite Hw; by apply sublist_cons|done]. }
    constructor; [done|by eapply exclusive_sublist|].
    intros a d Hd. pose proof (elem_of_sublist _ _ _ Hd (Hsub a)) as Hd'.
    destruct (futex_blocked _ I a d Hd') as [Hm Hdb]. split; [done|].
    unfold core_blocked. cbn. rewrite (only_tile_blocked _ _ _ _ Ho); [done|]. intros Et.
    apply (main_core_eq d c) in Et; [subst d|done|done].
    assert (a = addr) as -> by (by eapply Hex). rewrite waiting_with, decide_True in Hd by done.
    specialize (Hnd addr). rewrite Hw in Hnd. by apply NoDup_cons in Hnd as [? _].
Qed.

Definition replying (l : list Reply) (s : SyscallServer) : SyscallServer := s <| m_replies := m_replies s ++ l |>.
Lemma futex_inv_replying l s : futex_inv s → futex_inv (replying l s).
Proof. by intros []. Qed.

(** [n] wake-ups. *)
Record wakes (n : nat) (addr time : Z) (s s' : SyscallServer) : Prop := {
  wakes_inv : futex_inv s';
  wakes_queue : ∀ a, waiting s' a = if decide (a = addr) then drop n (waiting s addr) else waiting s a;
  wakes_replies : m_replies s' = m_replies s ++ ((λ c, mkReply c 0 time) <$> take n (waiting s addr));
  wakes_run : ∀ c, c ∈ take n (waiting s addr) → core_runs (m_mcp s') c;
  wakes_others : ∀ d, isMainCore d = true → core_runs (m_mcp s) d → core_runs (m_mcp s') d;
  wakes_memory : m_memory s' = m_memory s
}.

Lemma add_nil {A} k : k + zlength (@nil A) = k.
Proof. unfold zlength. cbn. lia. Qed.

Lemma futex_wake_spec n : ∀ s addr time k,
  futex_inv s →
  ∃ s', wake n addr time k s = Ok (k + zlength (take n (waiting s addr)), s') ∧ wakes n addr time s s'.
Proof.
  assert (∀ s addr time, futex_inv s → waiting s addr = [] → ∀ i, wakes i addr time s s) as Hempty.
  { intros s addr time I Hw i. constructor; rewrite ?Hw, ?take_nil, ?drop_nil; [done| |by rewrite app_nil_r|set_solver|done|done].
    intros a. case_decide; [by subst|done]. }
  induction n as [|n IH]; intros s addr time k I.
  { exists s. split; [change (take 0 _) with (@nil core_id_t); by rewrite add_nil|]. constructor; [done| |by rewrite app_nil_r|cbn; set_solver|done|done].
    intros a. case_decide; [by subst|done]. }
  cbn [wake]. destruct (waiting s addr) as [|c l] eqn:Hw.
  { exists s. split; [|by apply Hempty]. unfold dequeueWaiter, gets, mbind, M_bind. cbn -[waiting]. rewrite Hw. cbn [take].
    by rewrite add_nil. }
  destruct (dequeueWaiter_spec s addr c l I Hw) as (mcp' & E & I' & Hc & Hch & Hr).
  rewrite (run_bind _ _ _ _ _ E). pose proof (runs_valid _ _ Hr) as Hv. unfold SyncServer.valid in Hv.
  apply negb_true_iff in Hv. rewrite Hv.
  set (s1 := replying [mkReply c 0 time] (with_waiting addr l (s <| m_mcp := mcp' |>))).
  rewrite (run_bind _ _ _ tt s1) by done.
  destruct (IH s1 addr time (k + 1)) as (s' & E' & W'); [by apply futex_inv_replying|].
  assert (waiting s1 addr = l) as Hl.
  { change (waiting s1 addr) with (waiting (with_waiting addr l (s <| m_mcp := mcp' |>)) addr).
    by rewrite waiting_with, decide_True. }
  exists s'. rewrite Hl in E'. split.
  - rewrite E'. cbn [take]. do 2 f_equal. unfold zlength. cbn. lia.
  - destruct W' as [V1 V2 V3 V4 V5 V6]. rewrite Hl in *. constructor.
    + done.
    + intros a. rewrite V2. case_decide; [by rewrite Hw|].
      change (waiting s1 a) with (waiting (with_waiting addr l (s <| m_mcp := mcp' |>)) a).
      by rewrite waiting_with, decide_False.
    + rewrite V3, Hw. cbn. by rewrite <- app_assoc.
    + rewrite Hw. cbn. intros d [->|Hd]%elem_of_cons; [by apply V5|by apply V4].
    + intros d Hd Hdr. apply V5; [done|]. cbn. destruct (decide (c = d)) as [->|]; [done|].
      by apply (core_runs_other c d _ _ Hch).
    + done.
Qed.

(** [n] waiters move to the end of another queue. *)
Lemma requeue_spec n : ∀ s addr1 addr2 k,
  futex_inv s → addr1 ≠ addr2 →
  ∃ s', requeue n addr1 addr2 k s = Ok (k + zlength (take n (waiting s addr1)), s') ∧ futex_inv s' ∧
    waiting s' addr1 = drop n (waiting s addr1) ∧
    waiting s' addr2 = waiting s addr2 ++ take n (waiting s addr1) ∧
    (∀ a, a ≠ addr1 → a ≠ addr2 → waiting s' a = waiting s a) ∧ m_replies s' = m_replies s ∧
    (∀ d, isMainCore d = true → core_runs (m_mcp s) d → core_runs (m_mcp s') d).
Proof.
  induction n as [|n IH]; intros s addr1 addr2 k I Hne.
  { exists s. split_and!; [change (take 0 _) with (@nil core_id_t); by rewrite add_nil|done|done|by rewrite app_nil_r|done..]. }
  cbn [requeue]. destruct (waiting s addr1) as [|c l] eqn:Hw.
  { exists s. split_and!; [|done|done|by rewrite app_nil_r|done..].
    unfold dequeueWaiter, gets, mbind, M_bind. cbn -[waiting]. rewrite Hw. cbn [take]. by rewrite add_nil. }
  destruct (dequeueWaiter_spec s addr1 c l I Hw) as (mcp1 & E & I1 & Hc & Hch1 & Hr).
  rewrite (run_bind _ _ _ _ _ E). pose proof (runs_valid _ _ Hr) as Hv. unfold SyncServer.valid in Hv.
  apply negb_true_iff in Hv. rewrite Hv. set (s1 := with_waiting addr1 l (s <| m_mcp := mcp1 |>)) in *.
  destruct (enqueueWaiter_spec s1 addr2 c I1 Hc Hr) as (mcp2 & E2 & I2 & Hch2 & Hb).
  rewrite (run_bind _ _ _ _ _ E2). set (s2 := with_waiting addr2 (waiting s1 addr2 ++ [c]) (s1 <| m_mcp := mcp2 |>)) in *.
  assert (∀ a, waiting s2 a = if decide (a = addr2) then waiting s addr2 ++ [c]
                              else if decide (a = addr1) then l else waiting s a) as H2.
  { intros a. unfold s2. rewrite waiting_with. change (waiting (s1 <| m_mcp := mcp2 |>) a) with (waiting s1 a).
    unfold s1. rewrite !waiting_with. rewrite (decide_False (P := addr2 = addr1)) by congruence.
    by repeat case_decide. }
  destruct (IH s2 addr1 addr2 (k + 1) I2 Hne) as (s' & E' & I' & Hq1 & Hq2 & Hq & Hrep & Hoth).
  rewrite (H2 addr1), decide_False, decide_True in E', Hq1, Hq2 by done.
  rewrite (H2 addr2), decide_True in Hq2 by done.
  exists s'. split_and!.
  - rewrite E'. cbn [take]. do 2 f_equal. unfold zlength. cbn. lia.
  - done.
  - done.
  - rewrite Hq2. cbn [take]. by rewrite <- app_assoc.
  - intros a H1' H2'. rewrite Hq, H2, !decide_False by done. done.
  - by rewrite Hrep.
  - intros d Hd Hdr. assert (c ≠ d) as Hcd.
    { intros ->. apply (running_not_waiting s d addr1 I Hdr). rewrite Hw. apply list_elem_of_here. }
    apply Hoth; [done|]. apply (core_runs_other c d _ _ Hch2); [done..|]. by apply (core_runs_other c d _ _ Hch1).
Qed.

Definition word (s : SyscallServer) (addr : Z) : Z := default 0 (m_memory s !! addr).
Definition granted (time : Z) (l : list core_id_t) : list Reply := (λ c, mkReply c 0 time) <$> l.

(** C34: Futexes are first-in first-out queues that lose no wake-up: a wait
    enqueues and stalls the caller exactly when the word still has the expected
    value (otherwise it returns at once); a wake resumes the first [val] waiters
    and tells the caller how many; a compare-and-requeue whose value matches
    wakes the first [val] and moves the next [val2] to the other queue.  The
    waiting cores stay stalled and in one queue each. *)
Theorem futex_refines_fifo s c addr val val2 addr2 val3 time :
  futex_inv s → isMainCore c = true → core_runs (m_mcp s) c →
  (∃ s', futexWait c addr val time s = Ok (tt, s') ∧ futex_inv s' ∧
     if val =? word s addr
     then (∀ a, waiting s' a = if decide (a = addr) then waiting s addr ++ [c] else waiting s a) ∧
          m_replies s' = m_replies s ∧ core_blocked (m_mcp s') c
     else (∀ a, waiting s' a = waiting s a) ∧ m_replies s' = m_replies s ++ [mkReply c (- EWOULDBLOCK) time]) ∧
  (∃ s', futexWake c addr val time s = Ok (tt, s') ∧ futex_inv s' ∧
     (∀ a, waiting s' a = if decide (a = addr) then drop (Z.to_nat val) (waiting s addr) else waiting s a) ∧
     let woken := take (Z.to_nat val) (waiting s addr) in
     m_replies s' = m_replies s ++ granted time woken ++ [mkReply c (zlength woken) time] ∧
     ∀ d, d ∈ woken → core_runs (m_mcp s') d) ∧
  (addr ≠ addr2 → val3 = word s addr →
   ∃ s', futexCmpRequeue c addr val val2 addr2 val3 time s = Ok (tt, s') ∧ futex_inv s' ∧
     let woken := take (Z.to_nat val) (waiting s addr) in
     let left := drop (Z.to_nat val) (waiting s addr) in
     waiting s' addr = drop (Z.to_nat val2) left ∧
     waiting s' addr2 = waiting s addr2 ++ take (Z.to_nat val2) left ∧
     (∀ a, a ≠ addr → a ≠ addr2 → waiting s' a = waiting s a) ∧
     m_replies s' = m_replies s ++ granted time woken
       ++ [mkReply c (zlength woken + zlength (take (Z.to_nat val2) left)) time]).
Proof.
  intros I Hc Hr. split_and!.
  - unfold futexWait, read_word, gets, mbind, M_bind. change (default 0 (m_memory s !! addr)) with (word s addr).
    destruct (val =? word s addr); cbn [negb].
    + destruct (enqueueWaiter_spec s addr c I Hc Hr) as (mcp' & E & I' & _ & Hb). eexists. split; [exact E|].
      split; [done|]. split; [|done]. intros a. by rewrite waiting_with.
    + exists (replying [mkReply c (- EWOULDBLOCK) time] s). split; [done|]. by split; [apply futex_inv_replying|].
  - unfold futexWake, __futexWake.
    destruct (futex_wake_spec (Z.to_nat val) s addr time 0 I) as (s1 & E & [V1 V2 V3 V4 V5 V6]).
    rewrite (run_bind _ _ _ _ _ E), Z.add_0_l. eexists (replying _ s1). split; [done|].
    split; [by apply futex_inv_replying|]. split; [exact V2|]. split; [|exact V4]. cbn. by rewrite V3, <- app_assoc.
  - intros Hne ->. unfold futexCmpRequeue, read_word, gets, mbind at 1, M_bind at 1.
    change (default 0 (m_memory s !! addr)) with (word s addr). rewrite Z.eqb_refl. cbn [negb]. unfold __futexWake.
    destruct (futex_wake_spec (Z.to_nat val) s addr time 0 I) as (s1 & E & [V1 V2 V3 V4 V5 V6]).
    rewrite (run_bind _ _ _ _ _ E), Z.add_0_l.
    destruct (requeue_spec (Z.to_nat val2) s1 addr addr2 0 V1 Hne) as (s2 & E2 & I2 & Q1 & Q2 & Q & Hrep & _).
    rewrite (run_bind _ _ _ _ _ E2), Z.add_0_l.
    rewrite (V2 addr), decide_True in E2, Q1, Q2 |- * by done. rewrite (V2 addr2), decide_False in Q2 by done.
    eexists (replying _ s2). split; [done|]. split; [by apply futex_inv_replying|].
    split; [exact Q1|]. split; [exact Q2|]. split.
    + intros a H1 H2. change (waiting (replying ?l s2) a) with (waiting s2 a). rewrite Q, V2, decide_False by done. done.
    + cbn. by rewrite Hrep, V3, <- app_assoc.
Qed.

(** A failed comparison is reported with a positive code, the code of a failed
    wait is negative. *)
Lemma cmp_requeue_error_positive s c addr val val2 addr2 val3 time :
  val3 ≠ word s addr →
  futexCmpRequeue c addr val val2 addr2 val3 time s = Ok (tt, replying [mkReply c EWOULDBLOCK time] s) ∧
  futexWait c addr val3 time s = Ok (tt, replying [mkReply c (- EWOULDBLOCK) time] s).
Proof.
  intros H. apply Z.eqb_neq in H.
  split; [unfold futexCmpRequeue|unfold futexWait]; unfold read_word, gets, mbind, M_bind;
    change (default 0 (m_memory s !! addr)) with (word s addr); by rewrite H.
Qed.

(** ** Virtual memory *)








(** ** Witnesses *)

Definition tiles4 : Mcp.Mcp :=
  Mcp.mkMcp (SysConfig.mkConfig SysConfig.LITE 1 4 1 [0; 0; 0; 0; 0])
    (replicate 5 [Mcp.idle_thread <| Mcp.status := Core.RUNNING |>]) (replicate 5 ∅) (replicate 5 INVALID_THREAD_ID)
    0 [] [] 0 0 false (replicate 5 INVALID_THREAD_ID) (replicate 5 false) (replicate 5 []) (replicate 5 [0]) None None 0 [].
Definition no_futex : SyscallServer := mkSyscallServer tiles4 ∅ {[64 := 7]} [].

Lemma no_futex_inv : futex_inv no_futex.
Proof.
  constructor.
  - split; [split|done].
    + intros tile row Hr i j t u Hi Hj _ _. apply zlookup_replicate in Hr as ->.
      apply lookup_lt_Some in Hi, Hj. cbn in Hi, Hj. lia.
    + done.
  - split; [intros a; constructor|]. intros a1 a2 c Hc. inversion Hc.
  - intros a c Hc. inversion Hc.
Qed.

Lemma tiles4_runs n : 0 ≤ n < 4 → core_runs tiles4 (getMainCoreId n).
Proof.
  intros H. exists 0. exists [Mcp.idle_thread <| Mcp.status := Core.RUNNING |>], (Mcp.idle_thread <| Mcp.status := Core.RUNNING |>).
  split_and!; [|done|done]. rewrite zlookup_nat by (cbn; lia). apply lookup_replicate_2. cbn. lia.
Qed.

(** A core waits on a word that holds 7. *)
Lemma futex_refines_fifo_witness : ∃ s',
  futexWait (getMainCoreId 1) 64 7 100 no_futex = Ok (tt, s') ∧ waiting s' 64 = [getMainCoreId 1].
Proof.
  destruct (futex_refines_fifo no_futex (getMainCoreId 1) 64 7 0 128 0 100 no_futex_inv eq_refl (tiles4_runs 1 ltac:(lia)))
    as [(s' & E & _ & H) _].
  exists s'. split; [exact E|]. destruct H as [H _]. apply H.
Defined.


