(* ===== verification/Master.v ===== *)
(** * Master: the message loop of the master control process

    Models [MCP::processPacket] of system/mcp.cc: the type of a packet selects a
    handler of the synchronisation server, of the thread manager or scheduler,
    of the clock-skew barrier, or of the futex and memory calls.  Packets are
    strings of bytes; the offsets of the fields are those of the x86-64 layout
    of the structures of user/thread_support.h. *)
From S2P Require Import Prelude ThreadManager Packetize SyncServer ThreadScheduler Syscalls.

Module Master.
Section Master.

(** What the handlers that are not modelled do: other system calls, the
    utilisation of the analytical network model, and the cache counters. *)
Context (handle_other_syscall : core_id_t → list Z → M SyncServer.SyncServer unit).
Context (handle_performance : McpMessage → core_id_t → M SyncServer.SyncServer unit).
(** The affinity mask at an address, which requests pass by reference. *)
Context (mask_at : Z → gset Z).

Record MCP := mkMCP {
  m_finished : bool;
  m_sync_server : SyncServer.SyncServer;
  m_vm_manager : VMManager.VMManager;
  m_futexes : gmap Z (list core_id_t);
  m_memory : gmap Z Z;
  m_replies : list Futex.Reply
}.
#[global] Instance eta_MCP : Eta MCP := λ m, mkMCP
  (m_finished m) (m_sync_server m) (m_vm_manager m) (m_futexes m) (m_memory m) (m_replies m).

(** Run an operation of a component. *)
Definition sync {A} (m : M SyncServer.SyncServer A) : M MCP A :=
  zoom m_sync_server (λ t s, s <| m_sync_server := t |>) m.
Definition threads {A} (m : M Mcp.Mcp A) : M MCP A := sync (SyncServer.thread_manager m).
Definition vm {A} (m : M VMManager.VMManager A) : M MCP A :=
  zoom m_vm_manager (λ t s, s <| m_vm_manager := t |>) m.
Definition futexes {A} (m : M Futex.SyscallServer A) : M MCP A :=
  zoom (λ s, Futex.mkSyscallServer (SyncServer.m_mcp (m_sync_server s)) (m_futexes s) (m_memory s) (m_replies s))
    (λ t s, s <| m_sync_server ::= λ y, y <| SyncServer.m_mcp := Futex.m_mcp t |> |>
              <| m_futexes := Futex.m_futexes t |> <| m_memory := Futex.m_memory t |> <| m_replies := Futex.m_replies t |>)
    m.

(** ** Fields of packets *)

Definition field (n : nat) (data : list Z) (offset : Z) : res Z :=
  if offset + Z.of_nat n <=? zlength data
  then Ok (UnstructuredBuffer.of_bytes (take n (drop (Z.to_nat offset) data)))
  else Fail (ERange "recv_pkt.data").
Definition s32_at (data : list Z) (offset : Z) : res Z := x ← field 4 data offset ; Ok (s32 x).
Definition u32_at : list Z → Z → res Z := field 4.
Definition u64_at : list Z → Z → res Z := field 8.
Definition core_at (data : list Z) (offset : Z) : res core_id_t :=
  tile ← s32_at data offset ; type ← u32_at data (offset + 4) ; Ok (mkCoreId tile type).

Definition spawn_request (data : list Z) : res ThreadSpawnRequest :=
  func ← u64_at data 8 ; arg ← u64_at data 16 ;
  requester ← core_at data 24 ; requester_tidx ← s32_at data 32 ;
  destination ← core_at data 36 ; destination_tidx ← s32_at data 44 ; destination_tid ← s32_at data 48 ;
  time ← u64_at data 56 ;
  Ok (mkThreadSpawnRequest MCP_SPAWN_REQUEST_FROM_REQUESTER func arg requester requester_tidx destination
        destination_tidx destination_tid time).
Definition join_request (data : list Z) : res ThreadJoinRequest :=
  sender ← core_at data 4 ; sender_tidx ← s32_at data 12 ; receiver_tid ← s32_at data 16 ;
  Ok (mkThreadJoinRequest sender sender_tidx receiver_tid).

(** ** System calls *)

Definition SYS_mmap : Z := 9.
Definition SYS_munmap : Z := 11.
Definition SYS_brk : Z := 12.
Definition SYS_futex : Z := 202.

Definition recv {A} (rd : UnstructuredBuffer.UnstructuredBuffer → res (A * UnstructuredBuffer.UnstructuredBuffer))
    : M MCP A := sync (SyncServer.recv rd).
Definition reply (core_id : core_id_t) (value : Z) : M MCP unit :=
  modify (λ s, s <| m_replies := m_replies s ++ [Futex.mkReply core_id value 0] |>).

(** [handleSyscall] and the [marshall] functions of the calls that are not
    passed to the host. *)
Definition handleSyscall (kernel : Futex.Kernel) (core_id : core_id_t) (data : list Z) : M MCP unit :=
  let u64 := recv UnstructuredBuffer.read_u64 in
  let s32 := recv UnstructuredBuffer.read_s32 in
  number ← u64 ;
  if number =? SYS_brk then
    e ← u64 ; r ← vm (VMManager.brk e) ; reply core_id r
  else if number =? SYS_mmap then
    _ ← u64 ; length ← u64 ; _ ← s32 ; flags ← s32 ; fd ← s32 ; _ ← u64 ;
    r ← vm (VMManager.mmap length flags fd) ; reply core_id r
  else if number =? SYS_munmap then
    start ← u64 ; _ ← u64 ; r ← vm (VMManager.munmap start) ; reply core_id r
  else if number =? SYS_futex then
    addr1 ← u64 ; op ← s32 ; val1 ← s32 ; timeout ← u64 ; addr2 ← u64 ; val3 ← s32 ; curr_time ← u64 ;
    futexes (Futex.marshallFutexCall kernel core_id addr1 op val1 timeout addr2 val3 curr_time)
  else sync (handle_other_syscall core_id data).

(** ** The message loop *)

(** The [switch] of [processPacket]. *)
Definition handle (kernel : Futex.Kernel) (sender : core_id_t) (pkt_time : Z) (data : list Z) (m : McpMessage)
    : M MCP unit :=
  match SyncServer.dispatch m sender with
  | Some handler => sync handler
  | None =>
    match m with
    | MCP_MESSAGE_SYS_CALL => handleSyscall kernel sender data
    | MCP_MESSAGE_QUIT => modify (λ s, s <| m_finished := true |>)
    | MCP_MESSAGE_THREAD_SPAWN_REQUEST_FROM_REQUESTER =>
      r ← lift (spawn_request data) ; threads (Sched.masterSpawnThread r)
    | MCP_MESSAGE_THREAD_SPAWN_REPLY_FROM_SLAVE =>
      r ← lift (spawn_request data) ; threads (Sched.masterSpawnThreadReply r)
    | MCP_MESSAGE_THREAD_YIELD_REQUEST =>
      c ← lift (core_at data 4) ; tidx ← lift (s32_at data 12) ; threads (Sched.masterYieldThread c tidx)
    | MCP_MESSAGE_THREAD_MIGRATE_REQUEST_FROM_REQUESTER =>
      tid ← lift (s32_at data 4) ; tile ← lift (s32_at data 8) ; type ← lift (u32_at data 12) ;
      threads (Sched.masterMigrateThread tid tile type)
    | MCP_MESSAGE_THREAD_SETAFFINITY_REQUEST =>
      tid ← lift (s32_at data 12) ; size ← lift (u32_at data 16) ; set ← lift (u64_at data 24) ;
      threads (Sched.masterSchedSetAffinity tid size (mask_at set))
    | MCP_MESSAGE_THREAD_GETAFFINITY_REQUEST =>
      c ← lift (core_at data 4) ; tid ← lift (s32_at data 12) ; size ← lift (u32_at data 16) ;
      threads (Sched.masterSchedGetAffinity c tid size)
    | MCP_MESSAGE_THREAD_SET_PID =>
      tile ← lift (s32_at data 4) ; tidx ← lift (s32_at data 8) ; pid ← lift (s32_at data 12) ;
      threads (Sched.masterSetPid tile tidx pid)
    | MCP_MESSAGE_QUERY_THREAD_INDEX =>
      c ← lift (core_at data 4) ; tid ← lift (s32_at data 12) ; threads (Sched.masterQueryThreadIndex c tid)
    | MCP_MESSAGE_THREAD_START =>
      tile ← lift (s32_at data 4) ; tidx ← lift (s32_at data 12) ; threads (Sched.masterOnThreadStart tile tidx)
    | MCP_MESSAGE_THREAD_EXIT =>
      c ← lift (core_at data 4) ; tidx ← lift (s32_at data 12) ;
      threads (Sched.masterOnThreadExit (tile_id c) (core_type c) tidx pkt_time)
    | MCP_MESSAGE_THREAD_JOIN_REQUEST =>
      r ← lift (join_request data) ; threads (Sched.masterJoinThread r pkt_time)
    | MCP_MESSAGE_CLOCK_SKEW_MINIMIZATION =>
      s ← gets id ;
      assert (bool_decide (is_Some (Mcp.m_clock_skew_minimization_server (SyncServer.m_mcp (m_sync_server s)))))
        "MCP::processPacket" ;;
      time ← recv UnstructuredBuffer.read_u64 ;
      threads (Mcp.sim_barrierWait sender time)
    | MCP_MESSAGE_UTILIZATION_UPDATE | MCP_MESSAGE_RESET_CACHE_COUNTERS | MCP_MESSAGE_DISABLE_CACHE_COUNTERS =>
      sync (handle_performance m sender)
    | _ => fail (ELog "Unhandled MCP message type")
    end
  end.

Definition processPacket (kernel : Futex.Kernel) (sender : core_id_t) (pkt_time : Z) (data : list Z) : M MCP unit :=
  sync (modify (λ s, s <| SyncServer.m_recv_buffer := UnstructuredBuffer.put_bytes data UnstructuredBuffer.clear |>)) ;;
  msg_type ← recv UnstructuredBuffer.read_s32 ;
  match message_of msg_type with
  | None => fail (ELog "Unhandled MCP message type")
  | Some m => handle kernel sender pkt_time data m
  end.

End Master.
End Master.

(** ** The packets of the threads: system/thread_manager.cc, thread_scheduler.cc *)
Module ThreadClient.

Definition words (l : list Z) : list Z := concat (UnstructuredBuffer.bytes_of 4 <$> l).
(** [onThreadStart], [onThreadExit], [setPid], [queryThreadIndex],
    [joinThread], [migrateThread] and the clients of the clock-skew barrier. *)
Definition thread_start (c : core_id_t) (tidx : Z) : list Z :=
  words [code_of MCP_MESSAGE_THREAD_START; tile_id c; core_type c; tidx].
Definition thread_exit (c : core_id_t) (tidx : Z) : list Z :=
  words [code_of MCP_MESSAGE_THREAD_EXIT; tile_id c; core_type c; tidx].
Definition set_pid (c : core_id_t) (tidx pid : Z) : list Z :=
  words [code_of MCP_MESSAGE_THREAD_SET_PID; tile_id c; core_type c; tidx; pid].
Definition query_thread_index (c : core_id_t) (tid : Z) : list Z :=
  words [code_of MCP_MESSAGE_QUERY_THREAD_INDEX; tile_id c; core_type c; tid].
Definition join_thread (c : core_id_t) (tidx tid : Z) : list Z :=
  words [code_of MCP_MESSAGE_THREAD_JOIN_REQUEST; tile_id c; core_type c; tidx; tid].
Definition migrate_thread (tid tile : Z) : list Z :=
  words [code_of MCP_MESSAGE_THREAD_MIGRATE_REQUEST_FROM_REQUESTER; tid; tile; MAIN_CORE_TYPE].
Definition barrier_wait (time : Z) : list Z :=
  words [code_of MCP_MESSAGE_CLOCK_SKEW_MINIMIZATION] ++ UnstructuredBuffer.bytes_of 8 time.
(** [yieldThread], and [spawnThread] with the two words of padding of the
    structure.  A 64-bit field is two words. *)
Definition yield_thread (c : core_id_t) (tidx : Z) : list Z :=
  words [code_of MCP_MESSAGE_THREAD_YIELD_REQUEST; tile_id c; core_type c; tidx; INVALID_THREAD_ID;
         tile_id INVALID_CORE_ID; core_type INVALID_CORE_ID; INVALID_THREAD_ID; INVALID_THREAD_ID].
Definition high (x : Z) : Z := x `div` 2 ^ 32.
Definition spawn_thread (func arg : Z) (c : core_id_t) (tidx tile time pad pad' : Z) : list Z :=
  let dest := if tile =? INVALID_TILE_ID then INVALID_CORE_ID else getMainCoreId tile in
  words [code_of MCP_MESSAGE_THREAD_SPAWN_REQUEST_FROM_REQUESTER; pad; func; high func; arg; high arg;
         tile_id c; core_type c; tidx; tile_id dest; core_type dest; INVALID_THREAD_ID; INVALID_THREAD_ID; pad';
         time; high time].

(** [schedSetAffinity] and [schedGetAffinity]: the address of the mask, after a
    word of padding. *)
Definition affinity (m : McpMessage) (c : core_id_t) (tid cpusetsize set pad : Z) : list Z :=
  words [code_of m; tile_id c; core_type c; tid; cpusetsize; pad; set; high set].
Definition set_affinity : core_id_t → Z → Z → Z → Z → list Z := affinity MCP_MESSAGE_THREAD_SETAFFINITY_REQUEST.
Definition get_affinity : core_id_t → Z → Z → Z → Z → list Z := affinity MCP_MESSAGE_THREAD_GETAFFINITY_REQUEST.

(** ** The client of the clock-skew barrier: lax_barrier_sync_client.cc *)

Record LaxBarrierSyncClient := mkLaxBarrierSyncClient { m_barrier_interval : Z; m_next_sync_time : Z }.
Definition make (quantum : Z) : LaxBarrierSyncClient := mkLaxBarrierSyncClient (u64 quantum) (u64 quantum).
(** [synchronize] at a global time: the packet that it sends, if any, and the
    client after the release. *)
Definition synchronize (k : LaxBarrierSyncClient) (curr_time : Z) : option (list Z) * LaxBarrierSyncClient :=
  if curr_time >=? m_next_sync_time k then
    (Some (barrier_wait curr_time),
     mkLaxBarrierSyncClient (m_barrier_interval k)
       (u64 (curr_time `div` m_barrier_interval k * m_barrier_interval k + m_barrier_interval k)))
  else (None, k).

End ThreadClient.
