(* ===== verification/MasterTheorems.v ===== *)
(** * MasterTheorems: requests reach their handlers *)
From S2P Require Import Prelude ThreadManager Packetize SyncServer SyncServerProofs ThreadScheduler ThreadTheorems Syscalls Master.
Import UnstructuredBuffer.

(** ** Packets of 32-bit words *)

Lemma words_cons x l : ThreadClient.words (x :: l) = bytes_of 4 x ++ ThreadClient.words l.
Proof. done. Qed.
Lemma drop_words l : ∀ i, drop (4 * i) (ThreadClient.words l) = ThreadClient.words (drop i l).
Proof.
  induction l as [|x l IH]; intros i; [by destruct i|]. destruct i as [|i]; [done|].
  rewrite words_cons, drop_app_ge by (rewrite length_bytes_of; lia). rewrite length_bytes_of.
  replace (4 * S i - 4)%nat with (4 * i)%nat by lia. apply IH.
Qed.
Lemma zlength_words l : zlength (ThreadClient.words l) = 4 * zlength l.
Proof.
  unfold zlength. induction l as [|x l IH]; [done|].
  rewrite words_cons, length_app, length_bytes_of. cbn [length]. lia.
Qed.

Lemma field_word l i x :
  zlookup l i = Some x → Master.field 4 (ThreadClient.words l) (4 * i) = Ok (x `mod` 2 ^ 32).
Proof.
  intros [Hi Hx]%zlookup_Some. unfold Master.field. rewrite zlength_words.
  replace (4 * i + Z.of_nat 4 <=? 4 * zlength l) with true by (symmetry; apply Z.leb_le; lia).
  replace (Z.to_nat (4 * i)) with (4 * Z.to_nat i)%nat by lia. rewrite drop_words.
  rewrite (drop_S l x (Z.to_nat i) Hx), words_cons, take_app_length' by (by rewrite length_bytes_of).
  by rewrite of_bytes_of.
Qed.
Lemma s32_word l i x :
  zlookup l i = Some x → -2147483648 ≤ x < 2147483648 → Master.s32_at (ThreadClient.words l) (4 * i) = Ok x.
Proof.
  intros Hx Hr. unfold Master.s32_at. rewrite (field_word _ _ _ Hx). cbn. f_equal.
  unfold s32, sint. rewrite Zplus_mod_idemp_l. by apply (sint_small 32).
Qed.
Lemma u32_word l i x :
  zlookup l i = Some x → 0 ≤ x < 4294967296 → Master.u32_at (ThreadClient.words l) (4 * i) = Ok x.
Proof. intros Hx Hr. unfold Master.u32_at. rewrite (field_word _ _ _ Hx). f_equal. by apply Z.mod_small. Qed.
(** A 64-bit field is two words. *)
Lemma bytes_of_8 x : bytes_of 8 x = bytes_of 4 x ++ bytes_of 4 (ThreadClient.high x).
Proof.
  change (bytes_of 8 x) with (bytes_of (4 + 4) x). unfold ThreadClient.high.
  cbn [bytes_of Nat.add app]. rewrite !Z.div_div by lia. done.
Qed.
Lemma u64_word l i x :
  zlookup l i = Some x → zlookup l (i + 1) = Some (ThreadClient.high x) → 0 ≤ x < 18446744073709551616 →
  Master.u64_at (ThreadClient.words l) (4 * i) = Ok x.
Proof.
  intros [Hi Hx]%zlookup_Some [Hi1 Hx1]%zlookup_Some Hr. unfold Master.u64_at, Master.field. rewrite zlength_words.
  replace (4 * i + Z.of_nat 8 <=? 4 * zlength l) with true by (symmetry; apply Z.leb_le; lia).
  replace (Z.to_nat (4 * i)) with (4 * Z.to_nat i)%nat by lia. rewrite drop_words.
  replace (Z.to_nat (i + 1)) with (S (Z.to_nat i)) in Hx1 by lia.
  rewrite (drop_S l x _ Hx), (drop_S l _ _ Hx1), !words_cons, app_assoc, <- bytes_of_8.
  rewrite take_app_length' by (by rewrite length_bytes_of). rewrite of_bytes_of. f_equal. by apply Z.mod_small.
Qed.
Lemma core_words l i c :
  zlookup l i = Some (tile_id c) → zlookup l (i + 1) = Some (core_type c) →
  -2147483648 ≤ tile_id c < 2147483648 → 0 ≤ core_type c < 4294967296 →
  Master.core_at (ThreadClient.words l) (4 * i) = Ok c.
Proof.
  intros H1 H2 H3 H4. unfold Master.core_at. rewrite (s32_word _ _ _ H1 H3). cbn.
  replace (4 * i + 4) with (4 * (i + 1)) by lia. rewrite (u32_word _ _ _ H2 H4). by destruct c.
Qed.

(** ** The message loop *)

Section loop.
Context (other : core_id_t → list Z → M SyncServer.SyncServer unit).
Context (performance : McpMessage → core_id_t → M SyncServer.SyncServer unit).
Context (mask_at : Z → gset Z) (kernel : Futex.Kernel).
Abbreviation processPacket := (Master.processPacket other performance mask_at kernel).

(** The master whose buffer holds the rest of a packet. *)
Definition received (rest : list Z) (m : Master.MCP) : Master.MCP :=
  m <| Master.m_sync_server ::= λ s, s <| SyncServer.m_recv_buffer := rest |> |>.

Lemma message_codes m : message_of (code_of m) = Some m ∧ 0 ≤ code_of m < 28.
Proof. by destruct m. Qed.

Lemma process_run m rest sender time s :
  processPacket sender time (bytes_of 4 (code_of m) ++ rest) s
  = Master.handle other performance mask_at kernel sender time (bytes_of 4 (code_of m) ++ rest) m (received rest s).
Proof.
  destruct (message_codes m) as [Hm Hr]. unfold Master.processPacket.
  set (data := bytes_of 4 (code_of m) ++ rest).
  transitivity ((msg_type ← Master.recv read_s32 ; match message_of msg_type with
    | None => fail (ELog "Unhandled MCP message type")
    | Some m => Master.handle other performance mask_at kernel sender time data m end) (received data s)); [done|].
  unfold mbind, M_bind. assert (Master.recv read_s32 (received data s) = Ok (code_of m, received rest s)) as ->.
  { unfold Master.recv, Master.sync, SyncServer.recv, zoom.
    change (SyncServer.m_recv_buffer (Master.m_sync_server (received data s))) with data. unfold data.
    rewrite read_s32_put by lia. done. }
  by rewrite Hm.
Qed.

Lemma lift_run {A B} (r : res A) (f : A → M Master.MCP B) x s : r = Ok x → (lift r ≫= f) s = f x s.
Proof. by intros ->. Qed.

(** [decode E] runs the decoding of a field, whose value [E] gives. *)
Ltac decode E :=
  match type of E with _ = Ok ?x => erewrite (lift_run _ _ x); [|exact E] end.

Lemma res_bind_run {A B} (r : res A) (f : A → res B) x : r = Ok x → (r ≫= f) = f x.
Proof. by intros ->. Qed.
Ltac decode_in E :=
  match type of E with _ = Ok ?x => erewrite (res_bind_run _ _ x); [|exact E] end.

(** The values that the fields of a packet can hold. *)
Definition s32_ok (x : Z) : Prop := -2147483648 ≤ x < 2147483648.
Definition u64_ok (x : Z) : Prop := 0 ≤ x < 18446744073709551616.
Definition core_ok (c : core_id_t) : Prop := s32_ok (tile_id c) ∧ 0 ≤ core_type c < 4294967296.

(** [arrives code args handler]: the packet made of [code] and the words [args]
    is handled by [handler]. *)
Definition arrives (msg : McpMessage) (args : list Z) (sender : core_id_t) (time : Z) (handler : M Mcp.Mcp unit) : Prop :=
  ∀ s, processPacket sender time (ThreadClient.words (code_of msg :: args)) s
       = Master.threads handler (received (ThreadClient.words args) s).

Lemma arrives_intro msg args sender time handler :
  (∀ s, Master.handle other performance mask_at kernel sender time (ThreadClient.words (code_of msg :: args)) msg s
        = Master.threads handler s) →
  arrives msg args sender time handler.
Proof. intros H s. rewrite words_cons, process_run, <- words_cons. apply H. Qed.

(** The handler of a synchronisation request on the arguments of the client, the
    fields that it leaves in the buffer, and when the arguments fit. *)
Definition sync_call (sender : core_id_t) (r : SyncClient.Request) : M SyncServer.SyncServer unit :=
  match r with
  | SyncClient.MutexInit => SyncServer.mutexInit sender
  | SyncClient.MutexLock mux time => SyncServer.mutexLock_with sender mux time
  | SyncClient.MutexUnlock mux time => SyncServer.mutexUnlock_with sender mux time
  | SyncClient.CondInit _ _ => SyncServer.condInit sender
  | SyncClient.CondWait cond mux time => SyncServer.condWait_with sender cond mux time
  | SyncClient.CondSignal cond time => SyncServer.condSignal_with sender cond time
  | SyncClient.CondBroadcast cond time => SyncServer.condBroadcast_with sender cond time
  | SyncClient.BarrierInit count _ => SyncServer.barrierInit_with sender count
  | SyncClient.BarrierWait barrier time => SyncServer.barrierWait_with sender barrier time
  end.
Definition unread (r : SyncClient.Request) : list Z :=
  match r with
  | SyncClient.CondInit x time => bytes_of 4 x ++ bytes_of 8 time
  | SyncClient.BarrierInit _ time => bytes_of 8 time
  | _ => []
  end.
Definition request_ok (r : SyncClient.Request) : Prop :=
  match r with
  | SyncClient.MutexInit | SyncClient.CondInit _ _ => True
  | SyncClient.MutexLock x time | SyncClient.MutexUnlock x time | SyncClient.CondSignal x time
  | SyncClient.CondBroadcast x time | SyncClient.BarrierWait x time => s32_ok x ∧ u64_ok time
  | SyncClient.CondWait cond mux time => s32_ok cond ∧ s32_ok mux ∧ u64_ok time
  | SyncClient.BarrierInit count _ => 0 ≤ count < 4294967296
  end.

Lemma recv_s32 {B} x l (f : Z → M SyncServer.SyncServer B) s : s32_ok x →
  (a ← SyncServer.recv read_s32 ; f a) (buffer (bytes_of 4 x ++ l) s) = f x (buffer l s).
Proof. intros Hx. by erewrite run_bind; [|apply recv_run, read_s32_put; unfold s32_ok in *; lia]. Qed.
Lemma recv_u64 {B} x (f : Z → M SyncServer.SyncServer B) s : u64_ok x →
  (a ← SyncServer.recv read_u64 ; f a) (buffer (bytes_of 8 x) s) = f x (buffer [] s).
Proof.
  intros Hx. rewrite <- (app_nil_r (bytes_of 8 x)).
  by erewrite run_bind; [|apply recv_run, read_u64_put; unfold u64_ok in *; lia].
Qed.

Ltac open_call := unfold SyncServer.mutexLock, SyncServer.mutexUnlock, SyncServer.condWait, SyncServer.condSignal,
  SyncServer.condBroadcast, SyncServer.barrierWait.
Lemma serve_call sender r s : request_ok r →
  SyncServer.serve sender (SyncClient.packet r) s = sync_call sender r (buffer (unread r) s).
Proof.
  intros Hr. destruct r as [|x t|x t|x t|x y t|x t|x t|x t|x t]; cbn [request_ok] in Hr.
  - erewrite serve_run; [|instantiate (1 := []); reflexivity|done]. done.
  - destruct Hr. erewrite serve_run; [|by apply packet_arg|done]. open_call. by rewrite recv_s32, recv_u64.
  - destruct Hr. erewrite serve_run; [|by apply packet_arg|done]. open_call. by rewrite recv_s32, recv_u64.
  - erewrite serve_run; [|by apply packet_arg|done]. done.
  - destruct Hr as (? & ? & ?). erewrite serve_run; [|instantiate (1 := bytes_of 4 x ++ (bytes_of 4 y ++ bytes_of 8 t))|done].
    + open_call. by rewrite recv_s32, recv_s32, recv_u64.
    + unfold SyncClient.packet, put, put_bytes, clear. by rewrite app_nil_l, <- !app_assoc.
  - destruct Hr. erewrite serve_run; [|by apply packet_arg|done]. open_call. by rewrite recv_s32, recv_u64.
  - destruct Hr. erewrite serve_run; [|by apply packet_arg|done]. open_call. by rewrite recv_s32, recv_u64.
  - erewrite serve_run; [|by apply packet_arg|done]. unfold SyncServer.barrierInit.
    by erewrite run_bind; [|apply recv_run, read_u32_put; lia].
  - destruct Hr. erewrite serve_run; [|by apply packet_arg|done]. open_call. by rewrite recv_s32, recv_u64.
Qed.

Lemma sync_arrives r sender time s : request_ok r →
  processPacket sender time (SyncClient.packet r) s = Master.sync (sync_call sender r) (received (unread r) s).
Proof.
  intros Hr.
  assert (∃ rest, SyncClient.packet r = bytes_of 4 (code_of (SyncClient.msg_type r)) ++ rest) as [rest E]
    by (destruct r; eexists; unfold SyncClient.packet, put, put_bytes, clear; rewrite ?app_nil_l, <- ?app_assoc;
        first [reflexivity|by rewrite app_nil_r]).
  rewrite E at 1. rewrite process_run. unfold Master.sync, zoom.
  assert (∃ handler, SyncServer.dispatch (SyncClient.msg_type r) sender = Some handler) as [handler Hd] by (destruct r; by eexists).
  pose proof (serve_call sender r (Master.m_sync_server s) Hr) as Hs. rewrite (serve_run _ _ _ _ _ E Hd) in Hs.
  change (Master.m_sync_server (received (unread r) s)) with (buffer (unread r) (Master.m_sync_server s)). rewrite <- Hs.
  unfold Master.handle. rewrite Hd. done.
Qed.

(** C33: The packets that the clients build for the synchronisation requests and
    for the threads reach the handlers of the master with the arguments that were
    sent, for all values that fit the fields.  The nine synchronisation requests
    run their handler on the sent object, time or count ([condInit] and
    [barrierInit] leave fields unread); the start and the end of a thread, spawns,
    yields, queries, joins, migrations, setting and getting an affinity mask and the
    wait at the clock-skew barrier run the corresponding operation of the thread
    manager, the scheduler or the barrier on the sent core, index, identifier, mask
    or time.  One packet does not: that of [setPid] is read one word too early, so
    that the type of the core is taken for the index of the thread, the index for
    the process identifier, and the identifier is lost.  System calls and the
    packets without arguments are not among these. *)
Theorem packets_reach_handlers (sender c : core_id_t) (time tidx tid tile clock func arg size set pid pad pad' : Z) :
  core_ok c → s32_ok tidx → s32_ok tid → s32_ok tile → u64_ok clock → u64_ok func → u64_ok arg →
  0 ≤ size < 4294967296 → u64_ok set →
  (∀ r s, request_ok r →
     processPacket sender time (SyncClient.packet r) s = Master.sync (sync_call sender r) (received (unread r) s)) ∧
  (∀ s, let p := ThreadClient.thread_start c tidx in
     processPacket sender time p s = Master.threads (Sched.masterOnThreadStart (tile_id c) tidx) (received (drop 4 p) s)) ∧
  (∀ s, let p := ThreadClient.thread_exit c tidx in
     processPacket sender time p s
     = Master.threads (Sched.masterOnThreadExit (tile_id c) (core_type c) tidx time) (received (drop 4 p) s)) ∧
  (∀ s, let p := ThreadClient.query_thread_index c tid in
     processPacket sender time p s = Master.threads (Sched.masterQueryThreadIndex c tid) (received (drop 4 p) s)) ∧
  (∀ s, let p := ThreadClient.join_thread c tidx tid in
     processPacket sender time p s
     = Master.threads (Sched.masterJoinThread (mkThreadJoinRequest c tidx tid) time) (received (drop 4 p) s)) ∧
  (∀ s, let p := ThreadClient.migrate_thread tid tile in
     processPacket sender time p s
     = Master.threads (Sched.masterMigrateThread tid tile MAIN_CORE_TYPE) (received (drop 4 p) s)) ∧
  (∀ s, let p := ThreadClient.yield_thread c tidx in
     processPacket sender time p s = Master.threads (Sched.masterYieldThread c tidx) (received (drop 4 p) s)) ∧
  (∀ s, let p := ThreadClient.spawn_thread func arg c tidx tile clock pad pad' in
     processPacket sender time p s
     = Master.threads (Sched.masterSpawnThread (mkThreadSpawnRequest MCP_SPAWN_REQUEST_FROM_REQUESTER func arg c tidx
         (if tile =? INVALID_TILE_ID then INVALID_CORE_ID else getMainCoreId tile) INVALID_THREAD_ID INVALID_THREAD_ID clock))
         (received (drop 4 p) s)) ∧
  (∀ s b, Mcp.m_clock_skew_minimization_server (SyncServer.m_mcp (Master.m_sync_server s)) = Some b →
     processPacket sender time (ThreadClient.barrier_wait clock) s
     = Master.threads (Mcp.sim_barrierWait sender clock) (received [] s)) ∧
  (∀ s, let p := ThreadClient.set_affinity c tid size set pad in
     processPacket sender time p s
     = Master.threads (Sched.masterSchedSetAffinity tid size (mask_at set)) (received (drop 4 p) s)) ∧
  (∀ s, let p := ThreadClient.get_affinity c tid size set pad in
     processPacket sender time p s = Master.threads (Sched.masterSchedGetAffinity c tid size) (received (drop 4 p) s)) ∧
  (∀ s, s32_ok (core_type c) → let p := ThreadClient.set_pid c tidx pid in
     processPacket sender time p s
     = Master.threads (Sched.masterSetPid (tile_id c) (core_type c) tidx) (received (drop 4 p) s)).
Proof.
  intros [Hc1 Hc2] Htidx Htid Htile Hclock Hfunc Harg Hsize Hset. split_and!.
  - intros. by apply sync_arrives.
  - intros s. apply (arrives_intro MCP_MESSAGE_THREAD_START [tile_id c; core_type c; tidx]). intros s'. cbv beta iota delta [Master.handle SyncServer.dispatch].
    decode (s32_word [code_of MCP_MESSAGE_THREAD_START; tile_id c; core_type c; tidx] 1 (tile_id c) eq_refl Hc1).
    decode (s32_word [code_of MCP_MESSAGE_THREAD_START; tile_id c; core_type c; tidx] 3 tidx eq_refl Htidx). done.
  - intros s. apply (arrives_intro MCP_MESSAGE_THREAD_EXIT [tile_id c; core_type c; tidx]). intros s'. cbv beta iota delta [Master.handle SyncServer.dispatch].
    decode (core_words [code_of MCP_MESSAGE_THREAD_EXIT; tile_id c; core_type c; tidx] 1 c eq_refl eq_refl Hc1 Hc2).
    decode (s32_word [code_of MCP_MESSAGE_THREAD_EXIT; tile_id c; core_type c; tidx] 3 tidx eq_refl Htidx). done.
  - intros s. apply (arrives_intro MCP_MESSAGE_QUERY_THREAD_INDEX [tile_id c; core_type c; tid]). intros s'. cbv beta iota delta [Master.handle SyncServer.dispatch].
    decode (core_words [code_of MCP_MESSAGE_QUERY_THREAD_INDEX; tile_id c; core_type c; tid] 1 c eq_refl eq_refl Hc1 Hc2).
    decode (s32_word [code_of MCP_MESSAGE_QUERY_THREAD_INDEX; tile_id c; core_type c; tid] 3 tid eq_refl Htid). done.
  - intros s. apply (arrives_intro MCP_MESSAGE_THREAD_JOIN_REQUEST [tile_id c; core_type c; tidx; tid]). intros s'.
    cbv beta iota delta [Master.handle SyncServer.dispatch]. rewrite (lift_run _ _ (mkThreadJoinRequest c tidx tid)); [done|].
    set (l := [code_of MCP_MESSAGE_THREAD_JOIN_REQUEST; tile_id c; core_type c; tidx; tid]). unfold Master.join_request.
    decode_in (core_words l 1 c eq_refl eq_refl Hc1 Hc2). decode_in (s32_word l 3 tidx eq_refl Htidx).
    decode_in (s32_word l 4 tid eq_refl Htid). done.
  - intros s. apply (arrives_intro MCP_MESSAGE_THREAD_MIGRATE_REQUEST_FROM_REQUESTER [tid; tile; MAIN_CORE_TYPE]). intros s'.
    cbv beta iota delta [Master.handle SyncServer.dispatch]. set (l := [code_of MCP_MESSAGE_THREAD_MIGRATE_REQUEST_FROM_REQUESTER; tid; tile; MAIN_CORE_TYPE]).
    decode (s32_word l 1 tid eq_refl Htid). decode (s32_word l 2 tile eq_refl Htile).
    decode (u32_word l 3 MAIN_CORE_TYPE eq_refl ltac:(unfold MAIN_CORE_TYPE; lia)). done.
  - intros s. apply (arrives_intro MCP_MESSAGE_THREAD_YIELD_REQUEST [tile_id c; core_type c; tidx; INVALID_THREAD_ID;
      tile_id INVALID_CORE_ID; core_type INVALID_CORE_ID; INVALID_THREAD_ID; INVALID_THREAD_ID]). intros s'.
    cbv beta iota delta [Master.handle SyncServer.dispatch]. set (l := code_of MCP_MESSAGE_THREAD_YIELD_REQUEST :: _).
    decode (core_words l 1 c eq_refl eq_refl Hc1 Hc2). decode (s32_word l 3 tidx eq_refl Htidx). done.
  - intros s. set (dest := if tile =? INVALID_TILE_ID then INVALID_CORE_ID else getMainCoreId tile).
    apply (arrives_intro MCP_MESSAGE_THREAD_SPAWN_REQUEST_FROM_REQUESTER [pad; func; ThreadClient.high func; arg;
      ThreadClient.high arg; tile_id c; core_type c; tidx; tile_id dest; core_type dest; INVALID_THREAD_ID; INVALID_THREAD_ID;
      pad'; clock; ThreadClient.high clock]). intros s'.
    cbv beta iota delta [Master.handle SyncServer.dispatch]. set (l := code_of _ :: _).
    assert (core_ok dest) as [Hd1 Hd2] by (unfold dest; destruct (tile =? _); (split; [|cbn; unfold MAIN_CORE_TYPE; lia]); [by unfold s32_ok; cbn|done]).
    erewrite (lift_run _ _ (mkThreadSpawnRequest MCP_SPAWN_REQUEST_FROM_REQUESTER func arg c tidx dest INVALID_THREAD_ID INVALID_THREAD_ID clock));
      [done|]. unfold Master.spawn_request.
    decode_in (u64_word l 2 func eq_refl eq_refl Hfunc). decode_in (u64_word l 4 arg eq_refl eq_refl Harg).
    decode_in (core_words l 6 c eq_refl eq_refl Hc1 Hc2). decode_in (s32_word l 8 tidx eq_refl Htidx).
    decode_in (core_words l 9 dest eq_refl eq_refl Hd1 Hd2).
    decode_in (s32_word l 11 INVALID_THREAD_ID eq_refl ltac:(unfold INVALID_THREAD_ID; lia)).
    decode_in (s32_word l 12 INVALID_THREAD_ID eq_refl ltac:(unfold INVALID_THREAD_ID; lia)).
    decode_in (u64_word l 14 clock eq_refl eq_refl Hclock). done.
  - intros s b Hb. unfold ThreadClient.barrier_wait.
    change (ThreadClient.words [code_of MCP_MESSAGE_CLOCK_SKEW_MINIMIZATION])
      with (bytes_of 4 (code_of MCP_MESSAGE_CLOCK_SKEW_MINIMIZATION)).
    rewrite process_run. cbv beta iota delta [Master.handle SyncServer.dispatch].
    transitivity ((t ← Master.recv read_u64 ; Master.threads (Mcp.sim_barrierWait sender t)) (received (bytes_of 8 clock) s)).
    + unfold mbind at 1 2, M_bind at 1 2, gets, assert. cbn -[Master.recv Master.threads read_u64 bytes_of].
      rewrite Hb. done.
    + unfold mbind, M_bind. assert (Master.recv read_u64 (received (bytes_of 8 clock) s) = Ok (clock, received [] s)) as ->; [|done].
      unfold Master.recv, Master.sync, SyncServer.recv, zoom.
      change (SyncServer.m_recv_buffer (Master.m_sync_server (received (bytes_of 8 clock) s))) with (bytes_of 8 clock).
      rewrite <- (app_nil_r (bytes_of 8 clock)) at 1. by rewrite read_u64_put.
  - intros s. apply (arrives_intro MCP_MESSAGE_THREAD_SETAFFINITY_REQUEST [tile_id c; core_type c; tid; size; pad; set; ThreadClient.high set]).
    intros s'. cbv beta iota delta [Master.handle SyncServer.dispatch]. set (l := code_of _ :: _).
    decode (s32_word l 3 tid eq_refl Htid). decode (u32_word l 4 size eq_refl Hsize).
    decode (u64_word l 6 set eq_refl eq_refl Hset). done.
  - intros s. apply (arrives_intro MCP_MESSAGE_THREAD_GETAFFINITY_REQUEST [tile_id c; core_type c; tid; size; pad; set; ThreadClient.high set]).
    intros s'. cbv beta iota delta [Master.handle SyncServer.dispatch]. set (l := code_of _ :: _).
    decode (core_words l 1 c eq_refl eq_refl Hc1 Hc2). decode (s32_word l 3 tid eq_refl Htid).
    decode (u32_word l 4 size eq_refl Hsize). done.
  - intros s Hct. apply (arrives_intro MCP_MESSAGE_THREAD_SET_PID [tile_id c; core_type c; tidx; pid]). intros s'.
    cbv beta iota delta [Master.handle SyncServer.dispatch].
    set (l := [code_of MCP_MESSAGE_THREAD_SET_PID; tile_id c; core_type c; tidx; pid]).
    decode (s32_word l 1 (tile_id c) eq_refl Hc1). decode (s32_word l 2 (core_type c) eq_refl Hct).
    decode (s32_word l 3 tidx eq_refl Htidx). done.
Qed.
End loop.

(** A concrete master, in an environment that does nothing for the messages that
    are not modelled: two threads of tile 1 have run. *)
Definition small_master : Master.MCP :=
  Master.mkMCP false (SyncServer.make two_threads)
    (VMManager.mkVMManager VMManager.X86_64 4096 8192 65536 131072 1030792151040 1030792151040) ∅ ∅ [].
Definition process_small (sender : core_id_t) (time : Z) (data : list Z) : M Master.MCP unit :=
  Master.processPacket (λ _ _, skip) (λ _ _, skip) (λ _, ∅) Futex.SQUEEZE sender time data.

Lemma packets_reach_handlers_witness :
  process_small (getMainCoreId 1) 90 (ThreadClient.thread_exit (getMainCoreId 1) 1) small_master
  = Master.threads (Sched.masterOnThreadExit 1 MAIN_CORE_TYPE 1 90)
      (received (drop 4 (ThreadClient.thread_exit (getMainCoreId 1) 1)) small_master).
Proof.
  destruct (packets_reach_handlers (λ _ _, skip) (λ _ _, skip) (λ _, ∅) Futex.SQUEEZE (getMainCoreId 1) (getMainCoreId 1) 90 1 2 1 5 64 0 4 0 7 0 0)
    as (_ & _ & H & _).
  - split; unfold s32_ok; cbn; unfold MAIN_CORE_TYPE; lia.
  - unfold s32_ok. lia.
  - unfold s32_ok. lia.
  - unfold s32_ok. lia.
  - unfold u64_ok. lia.
  - unfold u64_ok. lia.
  - unfold u64_ok. lia.
  - lia.
  - unfold u64_ok. lia.
  - exact (H small_master).
Defined.

(** ** Behaviour on concrete masters *)

(** A thread is spawned on a core whose only thread waits at a lock: the core
    counts as idle, so the front of its queue, the waiting thread, is started. *)
Lemma spawn_on_blocked_core_aborts :
  (Sched.masterSpawnThread (spawn_on (getMainCoreId 1)))
    (after [Sched.masterSpawnThread (spawn_on (getMainCoreId 1)); Sched.masterOnThreadStart 1 0; Mcp.stallThread (getMainCoreId 1)])
  = Fail (ELog "Haven't made this work for starting waiting threads yet").
Proof. vm_compute. reflexivity. Qed.

(** A thread that joins another thread of its own core waits, and its core does
    not go on to the other thread. *)
Lemma join_same_core_stalls : ∃ s,
  Sched.masterJoinThread (mkThreadJoinRequest (getMainCoreId 1) 1 1) 10 two_threads = Ok (tt, s) ∧
  Mcp.isCoreRunning 1 s = Ok (INVALID_THREAD_ID, s) ∧
  destination_tidx <$> Mcp.m_waiter_queue s !!! 1%nat = [1; 0].
Proof. eexists. split; [vm_compute; reflexivity|]. by split; vm_compute. Qed.

(** Two slots share one affinity mask after a migration: the mask of the thread
    that is spawned into the old slot next is the one of the thread that left. *)
Lemma migration_shares_mask : ∃ s s',
  Sched.masterMigrateThread 1 2 MAIN_CORE_TYPE two_threads = Ok (tt, s) ∧
  Sched.setThreadAffinity 1 0 {[ 1 ]} s = Ok (tt, s') ∧
  Sched.getThreadAffinity 2 0 s = Ok (∅, s) ∧ Sched.getThreadAffinity 2 0 s' = Ok ({[ 1 ]}, s').
Proof.
  eexists _, _. split; [vm_compute; reflexivity|]. split; [vm_compute; reflexivity|]. split; vm_compute; reflexivity.
Qed.
