(* ===== verification/Double.v ===== *)
(** * Double: the floating-point arithmetic of the performance models

    [double] is IEEE 754 binary64 and [float] binary32, as on the x86-64
    targets of the simulator; both are the Standard Library's specification
    floats, which compute with integers.  Conversions round to nearest even. *)
From S2P Require Import Prelude.
From Stdlib Require Export SpecFloat.

Definition double : Type := spec_float.
Definition float : Type := spec_float.

Definition dadd : double → double → double := SFadd 53 1024.
Definition dsub : double → double → double := SFsub 53 1024.
Definition dmul : double → double → double := SFmul 53 1024.
Definition ddiv : double → double → double := SFdiv 53 1024.
(** [x >= y]: false when one of them is not a number. *)
Definition dge (x y : double) : bool := SFleb y x.

(** The conversion of an integer. *)
Definition of_int (z : Z) : double := binary_normalize 53 1024 z 0 false.

(** The integers the value lies between. *)
Definition floor_mag (m : positive) (e : Z) : Z := Z.shiftl (Z.pos m) e.
Definition ceil_mag (m : positive) (e : Z) : Z := - Z.shiftl (- Z.pos m) e.

(** [ceil]. *)
Definition dceil (x : double) : double :=
  match x with
  | S754_finite false m e => binary_normalize 53 1024 (ceil_mag m e) 0 false
  | S754_finite true m e => binary_normalize 53 1024 (- floor_mag m e) 0 true
  | _ => x
  end.

(** The conversion to [UInt64] truncates; outside the range of the type it is
    undefined. *)
Definition to_u64 (site : string) (x : double) : res Z :=
  match x with
  | S754_zero _ => Ok 0
  | S754_finite s m e =>
    let z := if s then - floor_mag m e else floor_mag m e in
    if (0 <=? z) && (z <? 2 ^ 64) then Ok z else Fail (ERange site)
  | _ => Fail (ERange site)
  end.

(** [floor]. *)
Definition dfloor (x : double) : double :=
  match x with
  | S754_finite false m e => binary_normalize 53 1024 (floor_mag m e) 0 false
  | S754_finite true m e => binary_normalize 53 1024 (- ceil_mag m e) 0 true
  | _ => x
  end.
Definition dsqrt : double → double := SFsqrt 53 1024.

(** The conversion to [SInt32]. *)
Definition to_s32 (site : string) (x : double) : res Z :=
  match x with
  | S754_zero _ => Ok 0
  | S754_finite s m e =>
    let z := if s then - floor_mag m e else floor_mag m e in
    if (- 2 ^ 31 <=? z) && (z <? 2 ^ 31) then Ok z else Fail (ERange site)
  | _ => Fail (ERange site)
  end.

(** A [float] used as a [double] has the same value, in the format of a
    [double]. *)
Definition double_of_float (x : float) : double :=
  match x with
  | S754_finite s m e => binary_normalize 53 1024 (if s then Z.neg m else Z.pos m) e s
  | _ => x
  end.

Definition float_of_int (z : Z) : float := binary_normalize 24 128 z 0 false.
Definition fmul : float → float → float := SFmul 24 128.
Definition fdiv : float → float → float := SFdiv 24 128.

(** An integer of at most 53 bits is represented exactly. *)
Example of_int_exact : to_u64 "" (dceil (ddiv (of_int 7) (of_int 2))) = Ok 4.
Proof. vm_compute. reflexivity. Qed.
