(* ===== verification/QueueModels.v ===== *)
(** * QueueModels: contention at a shared resource

    Models common/shared_models/queue_model.{h,cc} and queue_models/: a queue
    model is asked for the delay of a packet that arrives at a time and
    occupies the resource for a processing time.  The basic model keeps the time at which
    the resource is free; the history list keeps the free intervals; the
    analytical model estimates the delay from the moments of the service
    times.  misc/moving_average.h is included. *)
From S2P Require Import Prelude Utils Double.

Definition UINT64_MAX : Z := 2 ^ 64 - 1.

(** ** Utilisation counters: the base class *)

Module QueueModel.

Inductive Type_ := BASIC | HISTORY_LIST | HISTORY_TREE.

Record QueueModel := mkQueueModel {
  _type : Type_;
  _total_utilized_cycles : Z;
  _last_request_time : Z;
  _total_requests : Z
}.
#[global] Instance eta_QueueModel : Eta QueueModel := λ q,
  mkQueueModel (_type q) (_total_utilized_cycles q) (_last_request_time q) (_total_requests q).

Definition make (type : Type_) : QueueModel := mkQueueModel type 0 0 0.

Definition updateQueueUtilizationCounters (request_time processing_time queue_delay : Z)
    (q : QueueModel) : QueueModel :=
  q <| _total_utilized_cycles ::= λ n, u64 (n + processing_time) |>
    <| _last_request_time ::= λ n, Z.max n (u64 (request_time + queue_delay + processing_time)) |>
    <| _total_requests ::= λ n, u64 (n + 1) |>.

Definition getQueueUtilization (q : QueueModel) : float :=
  let total_cycles := _last_request_time q in
  if total_cycles >? 0 then
    fdiv (float_of_int (_total_utilized_cycles q)) (float_of_int total_cycles)
  else float_of_int 0.

End QueueModel.

(** ** Moving averages *)

Module MovingAverage.

Inductive AvgType := ARITHMETIC_MEAN (mean : double) | GEOMETRIC_MEAN (mean : double) | MEDIAN.

Record MovingAverage := mkMovingAverage {
  _avg : AvgType;
  _num_list : list Z;
  _max_window_size : Z;
  _curr_window_front : ModuloNum.ModuloNum;
  _curr_window_back : ModuloNum.ModuloNum
}.
#[global] Instance eta_MovingAverage : Eta MovingAverage := λ m, mkMovingAverage
  (_avg m) (_num_list m) (_max_window_size m) (_curr_window_front m) (_curr_window_back m).

Definition make (avg : AvgType) (max_window_size : Z) : res MovingAverage :=
  n ← ModuloNum.of_int (u32 (max_window_size + 1)) 0 ;
  Ok (mkMovingAverage avg (replicate (Z.to_nat (u32 (max_window_size + 1))) 0) max_window_size n n).

Definition createAvgType (avg_type : string) (max_window_size : Z) : res (option MovingAverage) :=
  let create avg := m ← make avg max_window_size ; Ok (Some m) in
  if bool_decide (avg_type = "arithmetic_mean") then create (ARITHMETIC_MEAN (of_int 0))
  else if bool_decide (avg_type = "geometric_mean") then create (GEOMETRIC_MEAN (of_int 1))
  else if bool_decide (avg_type = "median") then create MEDIAN
  else Ok None.

Definition addToWindow (next_num : Z) : M MovingAverage unit :=
  m ← gets id ;
  l ← lift (vset "_num_list" (_num_list m) (ModuloNum._value (_curr_window_back m)) next_num) ;
  modify (λ m, m <| _num_list := l |>) ;;
  back ← lift (ModuloNum.add_int (_curr_window_back m) 1) ;
  modify (λ m, m <| _curr_window_back := back |>) ;;
  when (ModuloNum.eqb back (_curr_window_front m))
    (front ← lift (ModuloNum.add_int (_curr_window_front m) 1) ;
     modify (λ m, m <| _curr_window_front := front |>)).

Section compute.
(** The C library's [pow]. *)
Context (pow : double → double → double).

Definition compute (next_num : Z) : M MovingAverage Z :=
  m ← gets id ;
  match _avg m with
  | ARITHMETIC_MEAN mean =>
    size ← lift (ModuloNum.sub (_curr_window_back m) (_curr_window_front m)) ;
    let curr_window_size := ModuloNum._value size in
    mean' ← (if curr_window_size =? _max_window_size m then
               old_num ← lift (vget "_num_list" (_num_list m) (ModuloNum._value (_curr_window_front m))) ;
               mret (dadd mean (dsub (ddiv (of_int next_num) (of_int curr_window_size))
                                     (ddiv (of_int old_num) (of_int curr_window_size))))
             else
               mret (ddiv (dadd (dmul mean (of_int curr_window_size)) (of_int next_num))
                          (of_int (u32 (curr_window_size + 1))))) ;
    modify (λ m, m <| _avg := ARITHMETIC_MEAN mean' |>) ;;
    addToWindow next_num ;;
    lift (to_u64 "MovingArithmeticMean" mean')
  | GEOMETRIC_MEAN mean =>
    size ← lift (ModuloNum.sub (_curr_window_back m) (_curr_window_front m)) ;
    let curr_window_size := ModuloNum._value size in
    let inv_size := ddiv (of_int 1) (of_int curr_window_size) in
    mean' ← (if curr_window_size =? _max_window_size m then
               old_num ← lift (vget "_num_list" (_num_list m) (ModuloNum._value (_curr_window_front m))) ;
               mret (dmul mean (ddiv (pow (of_int next_num) inv_size) (pow (of_int old_num) inv_size)))
             else
               mret (pow (dmul (pow mean (of_int curr_window_size)) (of_int next_num))
                         (ddiv (of_int 1) (of_int (u32 (curr_window_size + 1)))))) ;
    modify (λ m, m <| _avg := GEOMETRIC_MEAN mean' |>) ;;
    addToWindow next_num ;;
    lift (to_u64 "MovingGeometricMean" mean')
  | MEDIAN =>
    addToWindow next_num ;;
    m ← gets id ;
    size ← lift (ModuloNum.sub (_curr_window_back m) (_curr_window_front m)) ;
    median_index ← lift (ModuloNum.add_int (_curr_window_front m) (ModuloNum._value size / 2)) ;
    lift (vget "_num_list" (_num_list m) (ModuloNum._value median_index))
  end.

End compute.
End MovingAverage.

(** ** The basic model *)

Module QueueModelBasic.

Record QueueModelBasic := mkQueueModelBasic {
  _queue : QueueModel.QueueModel;
  _queue_time : Z;
  _moving_average : option MovingAverage.MovingAverage
}.
#[global] Instance eta_QueueModelBasic : Eta QueueModelBasic := λ q,
  mkQueueModelBasic (_queue q) (_queue_time q) (_moving_average q).

(** The constructor; the arguments are the values of the configuration file. *)
Definition make (moving_avg_enabled : bool) (moving_avg_window_size : Z) (moving_avg_type : string) :
    res QueueModelBasic :=
  avg ← (if moving_avg_enabled then
           MovingAverage.createAvgType moving_avg_type moving_avg_window_size
         else Ok None) ;
  Ok (mkQueueModelBasic (QueueModel.make QueueModel.BASIC) 0 avg).

Definition computeQueueDelay (pow : double → double → double) (pkt_time processing_time : Z) :
    M QueueModelBasic Z :=
  q ← gets id ;
  ref_time ← match _moving_average q with
             | Some avg =>
               r ← lift (MovingAverage.compute pow pkt_time avg) ;
               modify (λ q, q <| _moving_average := Some r.2 |>) ;;
               mret r.1
             | None => mret pkt_time
             end ;
  let queue_delay := if _queue_time q >? ref_time then _queue_time q - ref_time else 0 in
  modify (λ q, q <| _queue_time := u64 (Z.max (_queue_time q) ref_time + processing_time) |>
                 <| _queue ::= QueueModel.updateQueueUtilizationCounters ref_time processing_time queue_delay |>) ;;
  mret queue_delay.

End QueueModelBasic.

(** ** The analytical model *)

Module QueueModelMG1.

Record QueueModelMG1 := mkQueueModelMG1 {
  _sigma_service_time_square : double;
  _sigma_service_time : double;
  _num_arrivals : Z;
  _newest_arrival_time : Z
}.
#[global] Instance eta_QueueModelMG1 : Eta QueueModelMG1 := λ q, mkQueueModelMG1
  (_sigma_service_time_square q) (_sigma_service_time q) (_num_arrivals q) (_newest_arrival_time q).

Definition make : QueueModelMG1 := mkQueueModelMG1 (of_int 0) (of_int 0) 0 0.

Definition square (num : double) : double := dmul num num.

Definition computeQueueDelay (q : QueueModelMG1) (pkt_time service_time : Z) : res Z :=
  check (service_time >? 0) (EAssert "QueueModelMG1::computeQueueDelay") ;;
  if negb (_num_arrivals q =? 0) then
    let n := of_int (_num_arrivals q) in
    let variance_service_time := dsub (ddiv (_sigma_service_time_square q) n)
                                      (square (ddiv (_sigma_service_time q) n)) in
    let service_rate := ddiv (of_int 1) (ddiv (_sigma_service_time q) n) in
    let arrival_rate := ddiv n (of_int (_newest_arrival_time q)) in
    let arrival_rate := if dge arrival_rate service_rate
                        then dmul (ddiv (of_int 999) (of_int 1000)) service_rate
                        else arrival_rate in
    to_u64 "QueueModelMG1::computeQueueDelay"
      (dceil (ddiv (dmul (dmul (dmul (ddiv (of_int 1) (of_int 2)) service_rate) arrival_rate)
                         (dadd (ddiv (of_int 1) (square service_rate)) variance_service_time))
                   (dsub service_rate arrival_rate)))
  else Ok 0.

Definition updateQueue (pkt_time service_time waiting_time_queue : Z) (q : QueueModelMG1) : QueueModelMG1 :=
  q <| _sigma_service_time_square ::= λ x, dadd x (square (of_int service_time)) |>
    <| _sigma_service_time ::= λ x, dadd x (of_int service_time) |>
    <| _num_arrivals ::= λ n, u64 (n + 1) |>
    <| _newest_arrival_time ::= λ n, Z.max n (u64 (pkt_time + waiting_time_queue + service_time)) |>.

End QueueModelMG1.

(** ** The list of free intervals *)

Module QueueModelHistoryList.

Record QueueModelHistoryList := mkQueueModelHistoryList {
  _queue : QueueModel.QueueModel;
  _queue_model_m_g_1 : QueueModelMG1.QueueModelMG1;
  _free_interval_list : list (Z * Z);
  _analytical_model_enabled : bool;
  _min_processing_time : Z;
  _max_free_interval_list_size : Z;
  _interleaving_enabled : bool;
  _total_requests_using_analytical_model : Z
}.
#[global] Instance eta_QueueModelHistoryList : Eta QueueModelHistoryList := λ q, mkQueueModelHistoryList
  (_queue q) (_queue_model_m_g_1 q) (_free_interval_list q) (_analytical_model_enabled q)
  (_min_processing_time q) (_max_free_interval_list_size q) (_interleaving_enabled q)
  (_total_requests_using_analytical_model q).

Definition make (min_processing_time max_list_size : Z) (analytical_model_enabled interleaving_enabled : bool) :
    QueueModelHistoryList :=
  mkQueueModelHistoryList (QueueModel.make QueueModel.HISTORY_LIST) QueueModelMG1.make [(0, UINT64_MAX)]
    analytical_model_enabled min_processing_time (u32 max_list_size) interleaving_enabled 0.

(** An interval is kept when it is long enough. *)
Definition keep (min : Z) (interval : Z * Z) : list (Z * Z) :=
  if u64 (interval.2 - interval.1) >=? min then [interval] else [].

(** The loop of [computeUsingHistoryList] from the iterator on.  When the first
    element is erased under interleaving, the iterator steps back over the
    list's end, as the circular list of the C++ library does, and the loop goes
    on with the next element. *)
Fixpoint scan (min : Z) (interleaving : bool) (pkt_time processing_time queue_delay : Z)
    (l : list (Z * Z)) : Z * list (Z * Z) :=
  match l with
  | [] => (queue_delay, [])
  | interval :: l' =>
    let next keep pkt_time processing_time queue_delay :=
      let '(d, r) := scan min interleaving pkt_time processing_time queue_delay l' in (d, keep ++ r) in
    if (pkt_time >=? interval.1) && (u64 (pkt_time + processing_time) <=? interval.2) then
      (queue_delay, keep min (interval.1, pkt_time) ++
                    keep min (u64 (pkt_time + processing_time), interval.2) ++ l')
    else if (pkt_time <? interval.1) && (u64 (interval.1 + processing_time) <=? interval.2) then
      (u64 (queue_delay + (interval.1 - pkt_time)),
       keep min (u64 (interval.1 + processing_time), interval.2) ++ l')
    else if interleaving then
      if (pkt_time >=? interval.1) && (pkt_time <? interval.2) then
        let pkt_time' := interval.2 in
        next (keep min (interval.1, pkt_time)) pkt_time'
             (u64 (processing_time - (interval.2 - pkt_time'))) queue_delay
      else if pkt_time <? interval.1 then
        next [] interval.2 (u64 (processing_time - (interval.2 - interval.1)))
             (u64 (queue_delay + (interval.1 - pkt_time)))
      else next [interval] pkt_time processing_time queue_delay
    else next [interval] pkt_time processing_time queue_delay
  end.

Definition computeUsingHistoryList (pkt_time processing_time : Z) : M QueueModelHistoryList Z :=
  q ← gets id ;
  assert (zlength (_free_interval_list q) <=? _max_free_interval_list_size q)
    "QueueModelHistoryList::computeUsingHistoryList" ;;
  let '(queue_delay, l) := scan (_min_processing_time q) (_interleaving_enabled q)
    pkt_time processing_time 0 (_free_interval_list q) in
  modify (λ q, q <| _free_interval_list :=
    if zlength l >? _max_free_interval_list_size q then tail l else l |>) ;;
  mret queue_delay.

Definition computeQueueDelay (pkt_time processing_time : Z) : M QueueModelHistoryList Z :=
  q ← gets id ;
  assert (zlength (_free_interval_list q) >=? 1) "QueueModelHistoryList::computeQueueDelay" ;;
  oldest_interval ← lift (of_option (head (_free_interval_list q)) (ERange "front")) ;
  queue_delay ←
    (if _analytical_model_enabled q && (u64 (pkt_time + processing_time) <? oldest_interval.1) then
       modify (λ q, q <| _total_requests_using_analytical_model ::= λ n, u64 (n + 1) |>) ;;
       lift (QueueModelMG1.computeQueueDelay (_queue_model_m_g_1 q) pkt_time processing_time)
     else computeUsingHistoryList pkt_time processing_time) ;
  modify (λ q, q
    <| _queue_model_m_g_1 ::= QueueModelMG1.updateQueue pkt_time processing_time queue_delay |>
    <| _queue ::= QueueModel.updateQueueUtilizationCounters pkt_time processing_time queue_delay |>) ;;
  mret queue_delay.

End QueueModelHistoryList.
