(* ===== verification/IntervalTree.v ===== *)
(** * IntervalTree: the balanced tree of free intervals

    Models misc/interval_tree.{h,cc}: an AVL tree whose nodes carry pointers to
    their parent and children.  Pointers are modelled as such: the nodes live in
    a heap, [None] is the null pointer, and every operation reads and writes the
    heap in the source's order.  Recursive functions take a fuel argument; the
    public operations start them with one more than the number of nodes. *)
From S2P Require Import Prelude.

Module IntervalTree.

(** A pointer to a node. *)
Definition ptr : Type := option nat.

Record Node := mkNode {
  parent : ptr;
  left : ptr;
  right : ptr;
  height : Z;
  key : Z;
  interval : Z * Z
}.
#[global] Instance eta_Node : Eta Node := λ n,
  mkNode (parent n) (left n) (right n) (height n) (key n) (interval n).

(** [Node()] and [Node::initialize]. *)
Definition Node_new : Node := mkNode None None None 0 0 (0, 0).
Definition initialize (interval_ : Z * Z) : Node :=
  mkNode None None None 1 interval_.1 interval_.

Record IntervalTree := mkIntervalTree {
  (** The memory the nodes are in. *)
  _nodes : gmap nat Node;
  _root_tree : ptr;
  _size : Z
}.
#[global] Instance eta_IntervalTree : Eta IntervalTree := λ t,
  mkIntervalTree (_nodes t) (_root_tree t) (_size t).

Definition make (nodes : gmap nat Node) (root_tree : ptr) : IntervalTree :=
  mkIntervalTree nodes root_tree 1.

Inductive RotationDirection := CLOCKWISE | ANTI_CLOCKWISE.
Inductive ChildDirection := INVALID | LEFT | RIGHT.

(** ** Access to the heap *)

Definition deref (p : ptr) : M IntervalTree Node :=
  t ← gets id ; lift (of_option (p ≫= λ a, _nodes t !! a) (ENull "Node")).
Definition update (p : ptr) (f : Node → Node) : M IntervalTree unit :=
  n ← deref p ;
  match p with
  | Some a => modify (λ t, t <| _nodes ::= <[a := f n]> |>)
  | None => skip
  end.

Definition non_null (p : ptr) : bool := bool_decide (p ≠ None).

(** ** Links *)

Definition updateChildPointer (node child_node : ptr) (child_direction : ChildDirection) :
    M IntervalTree unit :=
  when (non_null node)
    match child_direction with
    | INVALID =>
      assert (non_null child_node) "IntervalTree::updateChildPointer" ;;
      n ← deref node ; c ← deref child_node ;
      if key n <? key c then update node (λ n, n <| right := child_node |>)
      else update node (λ n, n <| left := child_node |>)
    | LEFT => update node (λ n, n <| left := child_node |>)
    | RIGHT => update node (λ n, n <| right := child_node |>)
    end.

Definition updateParentPointer (node parent_node : ptr) : M IntervalTree unit :=
  when (non_null node) (update node (λ n, n <| parent := parent_node |>)) ;;
  when (negb (non_null parent_node)) (modify (λ t, t <| _root_tree := node |>)).

(** ** Heights and rotations *)

Definition getHeight (root_subtree : ptr) : M IntervalTree Z :=
  if non_null root_subtree then n ← deref root_subtree ; mret (height n) else mret 0.

Definition heightBalanced (node : ptr) : M IntervalTree bool :=
  assert (non_null node) "IntervalTree::heightBalanced" ;;
  n ← deref node ;
  hl ← getHeight (left n) ; hr ← getHeight (right n) ;
  mret (Z.abs (hl - hr) <=? 1).

Definition updateHeight (node : ptr) : M IntervalTree unit :=
  assert (non_null node) "IntervalTree::updateHeight" ;;
  n ← deref node ;
  hl ← getHeight (left n) ; hr ← getHeight (right n) ;
  update node (λ n, n <| height := s32 (Z.max hl hr + 1) |>).

Definition performRotation (y : ptr) (rotation_direction : RotationDirection) :
    M IntervalTree unit :=
  n ← deref y ;
  x ← match rotation_direction with
      | CLOCKWISE =>
        let x := left n in
        updateParentPointer x (parent n) ;;
        nx ← deref x ; updateChildPointer (parent nx) x INVALID ;;
        nx ← deref x ; update y (λ n, n <| left := right nx |>) ;;
        n ← deref y ; updateParentPointer (left n) y ;;
        update x (λ n, n <| right := y |>) ;;
        updateParentPointer y x ;;
        mret x
      | ANTI_CLOCKWISE =>
        let x := right n in
        updateParentPointer x (parent n) ;;
        nx ← deref x ; updateChildPointer (parent nx) x INVALID ;;
        nx ← deref x ; update y (λ n, n <| right := left nx |>) ;;
        n ← deref y ; updateParentPointer (right n) y ;;
        update x (λ n, n <| left := y |>) ;;
        updateParentPointer y x ;;
        mret x
      end ;
  updateHeight y ;;
  updateHeight x.

Definition balanceHeight (root_subtree : ptr) : M IntervalTree ptr :=
  let z := root_subtree in
  nz ← deref z ;
  zl ← getHeight (left nz) ; zr ← getHeight (right nz) ;
  assert (negb (zl =? zr)) "IntervalTree::balanceHeight" ;;
  let y := if zl >? zr then left nz else right nz in
  let y_direction := if zl >? zr then LEFT else RIGHT in
  assert (non_null y) "IntervalTree::balanceHeight" ;;
  ny ← deref y ;
  yl ← getHeight (left ny) ; yr ← getHeight (right ny) ;
  let '(x, x_direction) :=
    if negb (yl =? yr) then
      (if yl >? yr then left ny else right ny, if yl >? yr then LEFT else RIGHT)
    else match y_direction with
         | LEFT => (left ny, LEFT)
         | _ => (right ny, RIGHT)
         end in
  assert (non_null x) "IntervalTree::balanceHeight" ;;
  match y_direction with
  | LEFT =>
    match x_direction with
    | RIGHT => performRotation y ANTI_CLOCKWISE ;; performRotation z CLOCKWISE ;; mret x
    | _ => performRotation z CLOCKWISE ;; mret y
    end
  | _ =>
    match x_direction with
    | LEFT => performRotation y CLOCKWISE ;; performRotation z ANTI_CLOCKWISE ;; mret x
    | _ => performRotation z ANTI_CLOCKWISE ;; mret y
    end
  end.

Fixpoint rebalanceAVLTree (fuel : nat) (root_subtree : ptr) : M IntervalTree unit :=
  match fuel with
  | O => fail (EFuel "IntervalTree::rebalanceAVLTree")
  | S fuel =>
    if negb (non_null root_subtree) then skip else
    n ← deref root_subtree ;
    let old_height := height n in
    b ← heightBalanced root_subtree ;
    new_root_subtree ←
      (if negb b then balanceHeight root_subtree
       else updateHeight root_subtree ;; mret root_subtree) ;
    b ← heightBalanced new_root_subtree ;
    when (negb b) (fail (ELog "Left Subtree Height, Right Subtree Height")) ;;
    n ← deref new_root_subtree ;
    when (negb (height n =? old_height)) (rebalanceAVLTree fuel (parent n))
  end.

(** ** The operations *)

(** The recursions follow paths of the tree. *)
Definition depth_bound (t : IntervalTree) : nat := S (size (_nodes t)).

Definition swap (node1 node2 : ptr) : M IntervalTree unit :=
  temp_node ← deref node1 ;
  n2 ← deref node2 ;
  update node1 (λ n, n <| key := key n2 |>) ;;
  update node1 (λ n, n <| interval := interval n2 |>) ;;
  update node2 (λ n, n <| key := key temp_node |>) ;;
  update node2 (λ n, n <| interval := interval temp_node |>).

Fixpoint findMinKeyNode (fuel : nat) (root_subtree : ptr) : M IntervalTree ptr :=
  match fuel with
  | O => fail (EFuel "IntervalTree::findMinKeyNode")
  | S fuel =>
    n ← deref root_subtree ;
    if non_null (left n) then findMinKeyNode fuel (left n) else mret root_subtree
  end.

Fixpoint insertInTree (fuel : nat) (node root_subtree : ptr) : M IntervalTree unit :=
  match fuel with
  | O => fail (EFuel "IntervalTree::insertInTree")
  | S fuel =>
    n ← deref node ; r ← deref root_subtree ;
    d ← gets depth_bound ;
    if key n <? key r then
      if non_null (left r) then insertInTree fuel node (left r)
      else
        update root_subtree (λ n, n <| left := node |>) ;;
        update node (λ n, n <| parent := root_subtree |>) ;;
        rebalanceAVLTree d root_subtree
    else if key n >? key r then
      if non_null (right r) then insertInTree fuel node (right r)
      else
        update root_subtree (λ n, n <| right := node |>) ;;
        update node (λ n, n <| parent := root_subtree |>) ;;
        rebalanceAVLTree d root_subtree
    else fail (ELog "Found 2 nodes with same key")
  end.

Definition insert (node : ptr) : M IntervalTree unit :=
  modify (λ t, t <| _size ::= λ n, u32 (n + 1) |>) ;;
  t ← gets id ;
  insertInTree (depth_bound t) node (_root_tree t).

(** The removal of a node with two children removes its successor, which has no
    left child: two levels of recursion. *)
Fixpoint removeFromTree (fuel : nat) (node : ptr) : M IntervalTree ptr :=
  match fuel with
  | O => fail (EFuel "IntervalTree::removeFromTree")
  | S fuel =>
    n ← deref node ;
    d ← gets depth_bound ;
    if negb (non_null (left n)) then
      (if non_null (parent n) then
         p ← deref (parent n) ;
         updateChildPointer (parent n) (right n) (if key p <? key n then RIGHT else LEFT)
       else skip) ;;
      updateParentPointer (right n) (parent n) ;;
      rebalanceAVLTree d (parent n) ;;
      mret node
    else if negb (non_null (right n)) then
      updateChildPointer (parent n) (left n) INVALID ;;
      updateParentPointer (left n) (parent n) ;;
      rebalanceAVLTree d (parent n) ;;
      mret node
    else
      successor_node ← findMinKeyNode d (right n) ;
      removed_node ← removeFromTree fuel successor_node ;
      assert (bool_decide (removed_node = successor_node)) "IntervalTree::removeFromTree" ;;
      swap node successor_node ;;
      mret successor_node
  end.

Definition remove (node : ptr) : M IntervalTree ptr :=
  modify (λ t, t <| _size ::= λ n, u32 (n - 1) |>) ;;
  removeFromTree 2 node.

Fixpoint searchTree (fuel : nat) (iv : Z * Z) (root_subtree : ptr) : M IntervalTree ptr :=
  match fuel with
  | O => fail (EFuel "IntervalTree::searchTree")
  | S fuel =>
    if negb (non_null root_subtree) then mret None else
    n ← deref root_subtree ;
    if (iv.1 >=? (interval n).1) && (iv.2 <=? (interval n).2) then mret root_subtree else
    found_node ←
      (if iv.2 <? (interval n).1 then searchTree fuel iv (left n) else mret None) ;
    if non_null found_node then mret found_node else
    if (iv.1 <? (interval n).1) &&
       (u64 ((interval n).2 - (interval n).1) >=? u64 (iv.2 - iv.1)) then mret root_subtree
    else searchTree fuel iv (right n)
  end.

Definition search (iv : Z * Z) : M IntervalTree ptr :=
  t ← gets id ; searchTree (depth_bound t) iv (_root_tree t).

End IntervalTree.
