(* ===== verification/IntervalTreeProofs.v ===== *)
(** * IntervalTreeProofs: the pointer structure is an AVL tree

    The heap of IntervalTree.v holds a tree with stored heights ([is_tree]); a
    node under work is reached through a context ([is_ctx]), the path to the
    root that the parent pointers follow.  Rotations and rebalancing keep the
    in-order sequence of nodes and intervals. *)
From S2P Require Import Prelude IntervalTree.
Import IntervalTree.

(** ** Trees and contexts *)

Inductive tree :=
  | Leaf
  | Nd (l : tree) (a : nat) (h : Z) (iv : Z * Z) (r : tree).

Inductive frame :=
  | FL (a : nat) (h : Z) (iv : Z * Z) (r : tree)
  | FR (l : tree) (a : nat) (h : Z) (iv : Z * Z).

Definition rootp (t : tree) : ptr := match t with Leaf => None | Nd _ a _ _ _ => Some a end.
Definition ht (t : tree) : Z := match t with Leaf => 0 | Nd _ _ h _ _ => h end.

Fixpoint inorder (t : tree) : list (nat * (Z * Z)) :=
  match t with
  | Leaf => []
  | Nd l a _ iv r => inorder l ++ (a, iv) :: inorder r
  end.

Definition addrs (t : tree) : list nat := (inorder t).*1.

Definition frame_addr (f : frame) : nat := match f with FL a _ _ _ | FR _ a _ _ => a end.
Definition ctx_par (c : list frame) : ptr := frame_addr <$> head c.

Definition plug1 (f : frame) (t : tree) : tree :=
  match f with FL a h iv r => Nd t a h iv r | FR l a h iv => Nd l a h iv t end.
Definition plug (c : list frame) (t : tree) : tree := foldl (λ t f, plug1 f t) t c.

Fixpoint before (c : list frame) : list (nat * (Z * Z)) :=
  match c with
  | [] => []
  | FL _ _ _ _ :: c => before c
  | FR l a _ iv :: c => before c ++ inorder l ++ [(a, iv)]
  end.
Fixpoint after (c : list frame) : list (nat * (Z * Z)) :=
  match c with
  | [] => []
  | FL a _ iv r :: c => (a, iv) :: inorder r ++ after c
  | FR _ _ _ _ :: c => after c
  end.

Lemma inorder_plug c t : inorder (plug c t) = before c ++ inorder t ++ after c.
Proof.
  revert t. induction c as [|f c IH]; intros t; cbn; [by rewrite app_nil_r|].
  unfold plug in IH. rewrite IH. destruct f; cbn; by rewrite <- !(assoc_L (++)).
Qed.

Lemma plug_cons f c t : plug (f :: c) t = plug c (plug1 f t).
Proof. done. Qed.

(** ** The heap holds a tree *)

Fixpoint is_tree (m : gmap nat Node) (par : ptr) (t : tree) : Prop :=
  match t with
  | Leaf => True
  | Nd l a h iv r =>
    m !! a = Some (mkNode par (rootp l) (rootp r) h iv.1 iv) ∧
    is_tree m (Some a) l ∧ is_tree m (Some a) r
  end.

Fixpoint is_ctx (m : gmap nat Node) (root : ptr) (p : ptr) (c : list frame) : Prop :=
  match c with
  | [] => root = p
  | FL a h iv r :: c =>
    m !! a = Some (mkNode (ctx_par c) p (rootp r) h iv.1 iv) ∧
    is_tree m (Some a) r ∧ is_ctx m root (Some a) c
  | FR l a h iv :: c =>
    m !! a = Some (mkNode (ctx_par c) (rootp l) p h iv.1 iv) ∧
    is_tree m (Some a) l ∧ is_ctx m root (Some a) c
  end.

Lemma is_tree_frame m m' par t :
  (∀ a, a ∈ addrs t → m' !! a = m !! a) → is_tree m par t → is_tree m' par t.
Proof.
  unfold addrs. revert par. induction t as [|l IHl a h iv r IHr]; intros par H; [done|].
  cbn in *. intros (Ha & Hl & Hr).
  split; [rewrite H; [done|set_solver]|]. split; [apply IHl|apply IHr]; set_solver.
Qed.

Lemma is_ctx_frame m m' root p c :
  (∀ a, a ∈ (before c ++ after c).*1 → m' !! a = m !! a) →
  is_ctx m root p c → is_ctx m' root p c.
Proof.
  revert p. induction c as [|[a h iv r|l a h iv] c IH]; intros p H; [done| |];
    cbn in *; intros (Ha & Ht & Hc);
    (split; [rewrite H; [done|set_solver]|]);
    (split; [eapply is_tree_frame; [|done]; unfold addrs; set_solver|]);
    apply IH; set_solver.
Qed.

(** The state holds the tree [plug c t], seen from its subtree [t]. *)
Record holds (s : IntervalTree) (c : list frame) (t : tree) : Prop := {
  holds_ctx : is_ctx (_nodes s) (_root_tree s) (rootp t) c;
  holds_tree : is_tree (_nodes s) (ctx_par c) t;
  holds_nodup : NoDup (addrs (plug c t));
  holds_sorted : StronglySorted (λ x y, x.2.1 < y.2.1) (inorder (plug c t))
}.

Lemma holds_up s f c t : holds s (f :: c) t ↔ holds s c (plug1 f t).
Proof.
  split; intros [Hc Ht Hn Hs]; destruct f; cbn in *; split; cbn; naive_solver.
Qed.

Lemma holds_plug s c t : holds s c t ↔ holds s [] (plug c t).
Proof.
  revert t. induction c as [|f c IH]; intros t; [done|].
  rewrite holds_up, IH. done.
Qed.

(** ** The heap operations on trees *)

Section heap.
Context (m : gmap nat Node) (root : ptr) (sz : Z).
Abbreviation st := (mkIntervalTree m root sz).

Lemma runs_deref a n Q : m !! a = Some n → Q n st → succeeds (deref (Some a)) st Q.
Proof.
  intros H HQ. unfold deref. repeat run1. cbn. eapply runs_lift; [by rewrite H|done].
Qed.

Lemma runs_update a n f Q :
  m !! a = Some n → Q tt (mkIntervalTree (<[a := f n]> m) root sz) → succeeds (update (Some a) f) st Q.
Proof.
  intros H HQ. unfold update. run1. eapply runs_deref; [done|]. by run1.
Qed.

Lemma runs_getHeight par t Q :
  is_tree m par t → Q (ht t) st → succeeds (getHeight (rootp t)) st Q.
Proof.
  unfold getHeight. destruct t as [|l a h iv r]; cbn; [done|]. intros (Ha & _) HQ.
  run1. eapply runs_deref; [done|]. done.
Qed.

Lemma runs_updateHeight a par l r h k iv Q :
  m !! a = Some (mkNode par (rootp l) (rootp r) h k iv) →
  is_tree m (Some a) l → is_tree m (Some a) r →
  0 ≤ ht l < 2 ^ 31 - 1 → 0 ≤ ht r < 2 ^ 31 - 1 →
  Q tt (mkIntervalTree (<[a := mkNode par (rootp l) (rootp r) (Z.max (ht l) (ht r) + 1) k iv]> m) root sz) →
  succeeds (updateHeight (Some a)) st Q.
Proof.
  intros Ha Hl Hr Bl Br HQ. unfold updateHeight. do 2 run1; [done|].
  run1. eapply runs_deref; [done|]. run1. eapply runs_getHeight; [done|].
  run1. eapply runs_getHeight; [done|]. eapply runs_update; [done|]. cbn.
  by rewrite s32_small by lia.
Qed.

Lemma runs_heightBalanced a par l r h k iv Q :
  m !! a = Some (mkNode par (rootp l) (rootp r) h k iv) →
  is_tree m (Some a) l → is_tree m (Some a) r →
  Q (Z.abs (ht l - ht r) <=? 1) st →
  succeeds (heightBalanced (Some a)) st Q.
Proof.
  intros Ha Hl Hr HQ. unfold heightBalanced. do 2 run1; [done|].
  run1. eapply runs_deref; [done|]. run1. eapply runs_getHeight; [done|].
  run1. eapply runs_getHeight; [done|]. done.
Qed.

Definition set_par (t : tree) (par : ptr) : gmap nat Node :=
  match t with
  | Leaf => m
  | Nd l a h iv r => <[a := mkNode par (rootp l) (rootp r) h iv.1 iv]> m
  end.
Definition new_root (p par : ptr) : ptr := match par with None => p | Some _ => root end.

Lemma runs_updateParentPointer_node a n par Q :
  m !! a = Some n → Q tt (mkIntervalTree (<[a := n <| parent := par |>]> m) (new_root (Some a) par) sz) →
  succeeds (updateParentPointer (Some a) par) st Q.
Proof.
  intros Ha HQ. unfold updateParentPointer. run1. eapply runs_update; [done|].
  destruct par; by repeat run1.
Qed.

Lemma runs_updateParentPointer t par0 par Q :
  is_tree m par0 t → Q tt (mkIntervalTree (set_par t par) (new_root (rootp t) par) sz) →
  succeeds (updateParentPointer (rootp t) par) st Q.
Proof.
  intros Ht HQ. destruct t as [|l a h iv r]; cbn in *.
  - destruct par; by repeat run1.
  - destruct Ht as (Ha & _). by eapply runs_updateParentPointer_node.
Qed.

Lemma is_tree_set_par t par0 par :
  NoDup (addrs t) → is_tree m par0 t → is_tree (set_par t par) par t.
Proof.
  destruct t as [|l a h iv r]; [done|]. unfold addrs. cbn. rewrite fmap_app. cbn.
  intros (N1 & N2 & N3)%NoDup_app (Ha & Hl & Hr). apply NoDup_cons in N3 as [N3 N4].
  split; [by rewrite lookup_insert_eq|].
  split; (eapply is_tree_frame; [|done]); intros b Hb; apply lookup_insert_ne; unfold addrs in Hb;
    [set_solver|naive_solver].
Qed.

Lemma set_par_ne t par a : a ∉ addrs t → set_par t par !! a = m !! a.
Proof.
  destruct t as [|l b h iv r]; [done|]. unfold addrs. cbn. intros H.
  apply lookup_insert_ne. intros ->. apply H. rewrite fmap_app. set_solver.
Qed.

Definition set_child (c : list frame) (p : ptr) : gmap nat Node :=
  match c with
  | [] => m
  | FL a h iv r :: c => <[a := mkNode (ctx_par c) p (rootp r) h iv.1 iv]> m
  | FR l a h iv :: c => <[a := mkNode (ctx_par c) (rootp l) p h iv.1 iv]> m
  end.

Definition frame_order (c : list frame) (k : Z) : Prop :=
  match c with
  | [] => True
  | FL _ _ iv _ :: _ => k < iv.1
  | FR _ _ _ iv :: _ => iv.1 < k
  end.

Lemma runs_updateChildPointer root0 c p0 x n Q :
  is_ctx m root0 p0 c → m !! x = Some n → frame_order c (key n) →
  Q tt (mkIntervalTree (set_child c (Some x)) root sz) →
  succeeds (updateChildPointer (ctx_par c) (Some x) INVALID) st Q.
Proof.
  intros Hc Hx Ho HQ. unfold updateChildPointer.
  destruct c as [|[a h iv r|l a h iv] c]; cbn in Hc, Ho; [done| |]; destruct Hc as (Ha & _);
    (apply runs_when; [intros _|done]); run1; (apply runs_assert; [done|]);
    run1; (eapply runs_deref; [done|]); run1; (eapply runs_deref; [done|]); cbn.
  - rewrite (proj2 (Z.ltb_ge _ _)) by lia. by eapply runs_update.
  - rewrite (proj2 (Z.ltb_lt _ _)) by lia. by eapply runs_update.
Qed.

Lemma set_child_ne c p a : a ∉ (before c ++ after c).*1 → set_child c p !! a = m !! a.
Proof.
  destruct c as [|[b h iv r|l b h iv] c]; cbn; [done| |]; rewrite !fmap_app; cbn;
    intros H; apply lookup_insert_ne; intros ->; set_solver.
Qed.

Lemma is_ctx_set_child c p0 p :
  NoDup (before c ++ after c).*1 → is_ctx m root p0 c →
  is_ctx (set_child c p) (new_root p (ctx_par c)) p c.
Proof.
  destruct c as [|[a h iv r|l a h iv] c]; cbn -[fmap]; [done| |]; intros N (Ha & Ht & Hc).
  - assert ((a ∉ (before c).*1) ∧ (a ∉ (inorder r).*1) ∧ (a ∉ (after c).*1)) as (N1 & N2 & N3).
    { rewrite !fmap_app, fmap_cons, fmap_app in N. apply NoDup_app in N as (_ & N & N').
      apply NoDup_cons in N'. set_solver. }
    split; [by rewrite lookup_insert_eq|]. split.
    + eapply is_tree_frame; [|done]. intros b Hb. apply lookup_insert_ne. unfold addrs in Hb. set_solver.
    + eapply is_ctx_frame; [|done]. intros b Hb. apply lookup_insert_ne. set_solver.
  - assert ((a ∉ (before c).*1) ∧ (a ∉ (inorder l).*1) ∧ (a ∉ (after c).*1)) as (N1 & N2 & N3).
    { rewrite !fmap_app, <- !(assoc_L (++)) in N. cbn in N.
      apply NoDup_app in N as (_ & N & N'). apply NoDup_app in N' as (_ & N'' & N').
      apply NoDup_cons in N'. set_solver. }
    split; [by rewrite lookup_insert_eq|]. split.
    + eapply is_tree_frame; [|done]. intros b Hb. apply lookup_insert_ne. unfold addrs in Hb. set_solver.
    + eapply is_ctx_frame; [|done]. intros b Hb. apply lookup_insert_ne. set_solver.
Qed.

Lemma is_ctx_new_root p0 p c :
  is_ctx m root p0 c → ∃ p1, is_ctx m (new_root p (ctx_par c)) p1 c.
Proof. destruct c as [|[] c]; cbn; eauto. Qed.

End heap.

Lemma new_root_idemp root p q : new_root (new_root root p q) p q = new_root root p q.
Proof. by destruct q. Qed.

(** ** Rotations *)

(** The nodes outside [X], the set of nodes and the size are unchanged. *)
Record keeps (s s' : IntervalTree) (X : list nat) : Prop := {
  keeps_nodes : ∀ a, a ∉ X → _nodes s' !! a = _nodes s !! a;
  keeps_dom : dom (_nodes s') = dom (_nodes s);
  keeps_size : _size s' = _size s
}.

Lemma keeps_refl s X : keeps s s X.
Proof. by split. Qed.
Lemma keeps_trans s1 s2 s3 X : keeps s1 s2 X → keeps s2 s3 X → keeps s1 s3 X.
Proof.
  intros [A1 B1 C1] [A2 B2 C2]. split; [|congruence|congruence].
  intros a Ha. by rewrite A2, A1.
Qed.

Definition join (l : tree) (a : nat) (iv : Z * Z) (r : tree) : tree :=
  Nd l a (Z.max (ht l) (ht r) + 1) iv r.

(** The addresses of a node with a subtree as its left child. *)
Lemma parts_disjoint c A x ivx B y ivy D :
  NoDup (before c ++ (inorder A ++ (x, ivx) :: inorder B ++ (y, ivy) :: inorder D) ++ after c).*1 →
  NoDup (before c ++ after c).*1 ∧ NoDup (addrs B) ∧ x ≠ y ∧
  (∀ a, a ∈ (before c ++ after c).*1 →
     a ≠ x ∧ a ≠ y ∧ (a ∉ addrs A) ∧ (a ∉ addrs B) ∧ a ∉ addrs D) ∧
  (∀ a, a ∈ addrs A → a ≠ x ∧ a ≠ y ∧ a ∉ addrs B) ∧
  (∀ a, a ∈ addrs B → a ≠ x ∧ a ≠ y) ∧
  (∀ a, a ∈ addrs D → a ≠ x ∧ a ≠ y ∧ a ∉ addrs B) ∧
  (∀ a, a ∉ (before c ++ (inorder A ++ (x, ivx) :: inorder B ++ (y, ivy) :: inorder D) ++ after c).*1 →
     a ≠ x ∧ a ≠ y ∧ (a ∉ addrs B) ∧ a ∉ (before c ++ after c).*1).
Proof.
  unfold addrs. rewrite !fmap_app, !fmap_cons, !fmap_app, !fmap_cons. cbn.
  generalize ((before c).*1) ((after c).*1) ((inorder A).*1) ((inorder B).*1) ((inorder D).*1).
  clear. intros P Q A B D. rewrite !NoDup_app, !NoDup_cons, !NoDup_app, !NoDup_cons.
  setoid_rewrite elem_of_app. setoid_rewrite elem_of_cons. setoid_rewrite elem_of_app.
  setoid_rewrite elem_of_cons.
  intros (N1 & H1 & (N2 & H2 & (H3 & N3 & H4 & H5 & N4)) & H6 & N5).
  setoid_rewrite elem_of_app in H1. setoid_rewrite elem_of_cons in H1.
  assert (x ≠ y) by (intros ->; apply H3; tauto).
  split_and!; try done.
  6: intros a; rewrite elem_of_app, elem_of_cons, elem_of_app, elem_of_cons; tauto.
  2-5: intros a Ha; split_and!; intros Hc; subst;
    repeat match type of Ha with _ ∨ _ => destruct Ha as [Ha|Ha] end;
    first [ tauto | eapply H1; [eassumption|tauto] | eapply H6; [|eassumption]; tauto
          | eapply H2; [eassumption|tauto] | eapply H4; [eassumption|tauto]
          | apply H3; tauto | apply H5; tauto ].
  intros a Ha Hc. eapply H1; [eassumption|tauto].
Qed.

Lemma keeps_inserts (m m' : gmap nat Node) root root' sz X :
  (∀ a, a ∉ X → m' !! a = m !! a) → (∀ a, a ∈ X → is_Some (m !! a) ∧ is_Some (m' !! a)) →
  keeps (mkIntervalTree m root sz) (mkIntervalTree m' root' sz) X.
Proof.
  intros H1 H2. split; cbn; [done| |done]. apply set_eq. intros a.
  rewrite !elem_of_dom. destruct (decide (a ∈ X)) as [Ha|Ha].
  - apply H2 in Ha. naive_solver.
  - by rewrite H1.
Qed.

Lemma is_tree_dom m par t a : is_tree m par t → a ∈ addrs t → is_Some (m !! a).
Proof.
  unfold addrs. revert par. induction t as [|l IHl b h iv r IHr]; intros par; cbn; [set_solver|].
  rewrite fmap_app. cbn. intros (Hb & Hl & Hr) [Ha|[->|Ha]%elem_of_cons]%elem_of_app; eauto.
Qed.

Lemma is_ctx_dom m root p c a : is_ctx m root p c → a ∈ (before c ++ after c).*1 → is_Some (m !! a).
Proof.
  revert p. induction c as [|[b h iv r|l b h iv] c IH]; intros p; cbn; [set_solver| |];
    intros (Hb & Ht & Hc); specialize (IH _ Hc);
    pose proof (is_tree_dom _ _ _ a Ht) as Hd; unfold addrs in Hd;
    rewrite !fmap_app; cbn; rewrite ?fmap_app, ?elem_of_app, ?elem_of_cons, ?elem_of_app;
    rewrite fmap_app, elem_of_app in IH; destruct (decide (a = b)) as [->|]; intros Ha;
    [done|tauto|done|]; rewrite ?list_elem_of_singleton, ?elem_of_nil in Ha; tauto.
Qed.

Lemma holds_dom s c t a : holds s c t → a ∈ addrs (plug c t) → is_Some (_nodes s !! a).
Proof.
  intros [Hc Ht _ _]. unfold addrs. rewrite inorder_plug, !fmap_app, !elem_of_app. intros Ha.
  pose proof (is_ctx_dom _ _ _ _ a Hc) as Hd. pose proof (is_tree_dom _ _ _ a Ht) as Hd'.
  unfold addrs in Hd'. rewrite fmap_app, elem_of_app in Hd. tauto.
Qed.

Lemma holds_keeps s s' c t t' :
  holds s c t → holds s' c t' → inorder t' = inorder t →
  (∀ a, a ∉ addrs (plug c t) → _nodes s' !! a = _nodes s !! a) → _size s' = _size s →
  keeps s s' (addrs (plug c t)).
Proof.
  intros H H' E Hn Hs. assert (addrs (plug c t') = addrs (plug c t)) as Ea.
  { unfold addrs. by rewrite !inorder_plug, E. }
  destruct s as [m root sz], s' as [m' root' sz']; cbn in *. subst sz'.
  apply keeps_inserts; [done|]. intros a Ha. split.
  - by eapply (holds_dom _ _ _ _ H).
  - eapply (holds_dom _ _ _ _ H'). by rewrite Ea.
Qed.

(** A subtree with the same in-order sequence fits the context. *)
Lemma holds_intro s s' c t t' :
  holds s c t → inorder t' = inorder t →
  is_ctx (_nodes s') (_root_tree s') (rootp t') c → is_tree (_nodes s') (ctx_par c) t' →
  holds s' c t'.
Proof.
  intros [_ _ Hn Hs] E Hc Ht. split; [done..| |]; unfold addrs in *;
    by rewrite inorder_plug, E, <- inorder_plug.
Qed.

Lemma addrs_plug c t t' : inorder t' = inorder t → addrs (plug c t') = addrs (plug c t).
Proof. unfold addrs. rewrite !inorder_plug. by intros ->. Qed.

Lemma ctx_order c t x iv :
  StronglySorted (λ x y : nat * (Z * Z), x.2.1 < y.2.1) (inorder (plug c t)) →
  (x, iv) ∈ inorder t → frame_order c iv.1.
Proof.
  rewrite inorder_plug. intros Hs Hx. destruct c as [|[a h iv' r|l a h iv'] c]; cbn in *; [done| |].
  - apply StronglySorted_app_1_r in Hs.
    apply (StronglySorted_app_1_elem_of _ _ _ (x, iv) (a, iv') Hs); [done|set_solver].
  - apply (StronglySorted_app_1_elem_of _ _ _ (a, iv') (x, iv) Hs); set_solver.
Qed.

Definition small (t : tree) : Prop := 0 ≤ ht t < 2 ^ 30.

(** [lk] computes lookups in an updated heap, with the distinctness of
    addresses in the context. *)
Ltac lk :=
  repeat first
    [ rewrite lookup_insert_eq
    | rewrite lookup_insert_ne by congruence
    | rewrite set_par_ne by assumption
    | rewrite set_child_ne by assumption ].

Lemma nodup_node c l a iv r h :
  NoDup (addrs (plug c (Nd l a h iv r))) →
  (∀ b, b ∈ (before c ++ after c).*1 → b ≠ a) ∧ (∀ b, b ∈ addrs l → b ≠ a) ∧ (∀ b, b ∈ addrs r → b ≠ a) ∧
  a ∈ addrs (plug c (Nd l a h iv r)).
Proof.
  unfold addrs. rewrite inorder_plug. cbn. rewrite !fmap_app, fmap_cons. cbn.
  generalize ((before c).*1) ((after c).*1) ((inorder l).*1) ((inorder r).*1). intros P Q A B.
  rewrite !NoDup_app, !NoDup_cons. setoid_rewrite elem_of_app. setoid_rewrite elem_of_cons.
  intros (N1 & H1 & (N2 & H2 & (H3 & N3)) & H6 & N5).
  setoid_rewrite elem_of_app in H1. setoid_rewrite elem_of_cons in H1. split_and!.
  1-3: intros b Hb ->; repeat match type of Hb with _ ∨ _ => destruct Hb as [Hb|Hb] end;
    first [ tauto | eapply H1; [eassumption|tauto] | eapply H6; [|eassumption]; tauto
          | eapply H2; [eassumption|tauto] ].
  set_solver.
Qed.

(** Writing the height, or the interval, of a node. *)
Lemma holds_set_node s c l a h iv r h' n :
  holds s c (Nd l a h iv r) → n = mkNode (ctx_par c) (rootp l) (rootp r) h' iv.1 iv →
  let s' := mkIntervalTree (<[a := n]> (_nodes s)) (_root_tree s) (_size s) in
  holds s' c (Nd l a h' iv r) ∧ keeps s s' (addrs (plug c (Nd l a h iv r))).
Proof.
  intros H -> s'. pose proof H as [Hc (Ha & Hl & Hr) Hn _].
  destruct (nodup_node _ _ _ _ _ _ Hn) as (Nc & Nl & Nr & Hin).
  assert (holds s' c (Nd l a h' iv r)) as H'.
  { eapply holds_intro; [exact H|done|..]; cbn.
    - eapply is_ctx_frame; [|done]. intros b Hb. specialize (Nc _ Hb). by lk.
    - split; [by lk|]. split; (eapply is_tree_frame; [|done]); intros b Hb;
        [specialize (Nl _ Hb)|specialize (Nr _ Hb)]; by lk. }
  split; [done|]. eapply holds_keeps; [done..| |done]. intros b Hb. cbn.
  assert (b ≠ a) by (by intros ->). by lk.
Qed.

Lemma updateHeight_spec s c l a h iv r :
  holds s c (Nd l a h iv r) → 0 ≤ ht l < 2 ^ 31 - 1 → 0 ≤ ht r < 2 ^ 31 - 1 →
  succeeds (updateHeight (Some a)) s (λ _ s',
    holds s' c (join l a iv r) ∧ keeps s s' (addrs (plug c (Nd l a h iv r)))).
Proof.
  intros H Sl Sr. pose proof H as [_ (Ha & Hl & Hr) _ _].
  destruct s as [m root sz]. eapply runs_updateHeight; [done..|lia|lia|].
  by apply (holds_set_node _ _ _ _ _ _ _ _ _ H).
Qed.

(** The heap after a rotation around [x] and [y], whose inner subtree is [B];
    the nodes [x] and [y] themselves are left open. *)
Lemma rotation_heap m root c x y B n1 n2 n3 n4 :
  let m1 := <[x := n1]> m in
  let m4 := set_par (<[y := n2]> (set_child m1 c (Some x))) B (Some y) in
  let m' := <[y := n4]> (<[x := n3]> m4) in
  is_ctx m root (Some y) c → is_tree m (Some x) B →
  NoDup (before c ++ after c).*1 → NoDup (addrs B) →
  (∀ a, a ∈ (before c ++ after c).*1 → a ≠ x ∧ a ≠ y ∧ a ∉ addrs B) →
  (∀ a, a ∈ addrs B → a ≠ x ∧ a ≠ y) →
  is_tree (<[y := n2]> (set_child m1 c (Some x))) (Some x) B ∧
  is_ctx m' (new_root root (Some x) (ctx_par c)) (Some x) c ∧ is_tree m' (Some y) B ∧
  (∀ a, a ≠ x → a ≠ y → a ∉ addrs B → a ∉ (before c ++ after c).*1 → m' !! a = m !! a).
Proof.
  intros m1 m4 m' Hc HB Nc NB Dc DB.
  assert (∀ a, a ≠ x → a ≠ y → m' !! a = m4 !! a) as Hm' by (intros; unfold m'; by lk).
  assert (is_ctx m1 root (Some y) c) as Hc1.
  { eapply is_ctx_frame; [|done]. intros a Ha. destruct (Dc a Ha) as (?&?&?). unfold m1. by lk. }
  destruct (is_ctx_new_root _ _ _ (Some x) _ Hc1) as [p1 Hc2].
  apply (is_ctx_set_child _ _ _ _ (Some x) Nc) in Hc2. rewrite new_root_idemp in Hc2.
  assert (is_tree (<[y := n2]> (set_child m1 c (Some x))) (Some x) B) as HB1.
  { eapply is_tree_frame; [|exact HB]. intros a Ha. destruct (DB a Ha).
    assert (a ∉ (before c ++ after c).*1) by (intros Hd; by destruct (Dc a Hd) as (?&?&?)).
    unfold m1. by lk. }
  split; [done|]. split; [|split].
  - eapply is_ctx_frame; [|done]. intros a Ha. destruct (Dc a Ha) as (?&?&?).
    rewrite Hm' by done. unfold m4. by lk.
  - eapply is_tree_frame; [|by eapply is_tree_set_par]. intros a Ha. destruct (DB a Ha). by apply Hm'.
  - intros a ????. rewrite Hm' by done. unfold m4, m1. by lk.
Qed.

Lemma rotate_clockwise s c A x hx ivx B y hy ivy D :
  let t := Nd (Nd A x hx ivx B) y hy ivy D in
  let t' := join A x ivx (join B y ivy D) in
  holds s c t → small A → small B → small D →
  succeeds (performRotation (Some y) CLOCKWISE) s (λ _ s',
    holds s' c t' ∧ keeps s s' (addrs (plug c t))).
Proof.
  intros t t' H SA SB SD. unfold small in *. pose proof (holds_sorted _ _ _ H) as Hs.
  pose proof (ctx_order _ _ x ivx Hs ltac:(set_solver)) as Ho.
  assert (inorder t' = inorder t) as Ei by (cbn; by rewrite <- (assoc_L (++))).
  pose proof (holds_nodup _ _ _ H) as Hn. unfold addrs in Hn. rewrite inorder_plug, <- Ei in Hn.
  apply parts_disjoint in Hn as (Nc & NB & Nxy & Dc & DA & DB & DD & Do).
  destruct s as [m root sz]. pose proof H as [Hc Ht _ _]. cbn in Hc, Ht.
  destruct Ht as (Hy & (Hx & HA & HB) & HD).
  pose proof (λ n1 n2 n3 n4, rotation_heap m root c x y B n1 n2 n3 n4 Hc HB Nc NB
    ltac:(intros a Ha; by destruct (Dc a Ha) as (?&?&?&?&?)) DB) as RH. cbv zeta in RH.
  assert ((x ∉ (before c ++ after c).*1) ∧ y ∉ (before c ++ after c).*1) as [Nx Ny].
  { split; intros Ha; by destruct (Dc _ Ha) as (?&?&_). }
  assert ((x ∉ addrs B) ∧ y ∉ addrs B) as [NxB NyB].
  { split; intros Ha; by destruct (DB _ Ha) as (?&?). }
  unfold performRotation. run1. eapply runs_deref; [done|].
  cbv beta iota. cbn [left parent]. run1. run1.
  eapply runs_updateParentPointer_node; [done|]. run1. eapply runs_deref; [by lk|]. run1.
  eapply (runs_updateChildPointer _ _ _ root c (Some y)); [|by lk|done|].
  { eapply is_ctx_frame; [|done]. intros a Ha. destruct (Dc a Ha) as (?&?&?). by lk. }
  run1. eapply runs_deref; [by lk|]. run1. eapply runs_update; [by lk|].
  run1. eapply runs_deref; [by lk|]. run1.
  eapply (runs_updateParentPointer _ _ _ B (Some x)); [by apply (RH _ _ Node_new Node_new)|].
  run1. eapply runs_update; [by lk|]. run1. eapply runs_updateParentPointer_node; [by lk|].
  run1. cbn [new_root].
  match goal with |- runs _ _ (mkIntervalTree (<[y := ?n4]> (<[x := ?n3]>
      (set_par (<[y := ?n2]> (set_child (<[x := ?n1]> m) c (Some x))) B (Some y)))) _ _) _ =>
    destruct (RH n1 n2 n3 n4) as (_&Hc'&HB'&Ho'); set (m5' := <[y := n4]> _) in * end.
  assert (is_tree m5' (Some x) A) as HA'.
  { eapply is_tree_frame; [|exact HA]. intros a Ha. destruct (DA a Ha) as (?&?&?).
    apply Ho'; [done..|]. intros Hd. by destruct (Dc a Hd) as (?&?&?&?&?). }
  assert (is_tree m5' (Some y) D) as HD'.
  { eapply is_tree_frame; [|exact HD]. intros a Ha. destruct (DD a Ha) as (?&?&?).
    apply Ho'; [done..|]. intros Hd. by destruct (Dc a Hd) as (?&?&?&?&?). }
  assert (m5' !! y = Some (mkNode (Some x) (rootp B) (rootp D) hy ivy.1 ivy)) as Hy' by (unfold m5'; by lk).
  assert (m5' !! x = Some (mkNode (ctx_par c) (rootp A) (Some y) hx ivx.1 ivx)) as Hx' by (unfold m5'; by lk).
  assert (holds (mkIntervalTree m5' (new_root root (Some x) (ctx_par c)) sz) c (Nd A x hx ivx (Nd B y hy ivy D)))
    as H' by (by eapply holds_intro).
  assert (keeps (mkIntervalTree m root sz) (mkIntervalTree m5' (new_root root (Some x) (ctx_par c)) sz)
    (addrs (plug c t))) as K'.
  { eapply holds_keeps; [done..| |done]. intros a Ha. unfold addrs in Ha. rewrite inorder_plug, <- Ei in Ha.
    destruct (Do a Ha) as (?&?&?&?). by apply Ho'. }
  run1. eapply runs_mono; [eapply (updateHeight_spec _ (FR A x hx ivx :: c)); [by apply holds_up|lia..]|].
  intros _ s6 [H6 K6]. apply holds_up in H6. cbn in H6.
  eapply runs_mono; [eapply updateHeight_spec; [done|lia|cbn; lia]|].
  intros _ s7 [H7 K7]. split; [done|]. rewrite plug_cons in K6. cbn [plug1] in K6.
  rewrite (addrs_plug c t (Nd A x hx ivx (Nd B y hy ivy D)) Ei) in K6.
  rewrite (addrs_plug c t (Nd A x hx ivx (join B y ivy D)) Ei) in K7.
  exact (keeps_trans _ _ _ _ K' (keeps_trans _ _ _ _ K6 K7)).
Qed.

Lemma rotate_anti_clockwise s c A y hy ivy B x hx ivx D :
  let t := Nd A y hy ivy (Nd B x hx ivx D) in
  let t' := join (join A y ivy B) x ivx D in
  holds s c t → small A → small B → small D →
  succeeds (performRotation (Some y) ANTI_CLOCKWISE) s (λ _ s',
    holds s' c t' ∧ keeps s s' (addrs (plug c t))).
Proof.
  intros t t' H SA SB SD. unfold small in *. pose proof (holds_sorted _ _ _ H) as Hs.
  pose proof (ctx_order _ _ x ivx Hs ltac:(set_solver)) as Ho.
  assert (inorder t' = inorder t) as Ei by (cbn; by rewrite <- (assoc_L (++))).
  pose proof (holds_nodup _ _ _ H) as Hn. unfold addrs in Hn. rewrite inorder_plug in Hn.
  apply parts_disjoint in Hn as (Nc & NB & Nyx & Dc & DA & DB & DD & Do).
  destruct s as [m root sz]. pose proof H as [Hc Ht _ _]. cbn in Hc, Ht.
  destruct Ht as (Hy & HA & (Hx & HB & HD)).
  pose proof (λ n1 n2 n3 n4, rotation_heap m root c x y B n1 n2 n3 n4 Hc HB Nc NB
    ltac:(intros a Ha; by destruct (Dc a Ha) as (?&?&?&?&?))
    ltac:(intros a Ha; by destruct (DB a Ha))) as RH. cbv zeta in RH.
  assert ((x ∉ (before c ++ after c).*1) ∧ y ∉ (before c ++ after c).*1) as [Nx Ny].
  { split; intros Ha; by destruct (Dc _ Ha) as (?&?&_). }
  assert ((x ∉ addrs B) ∧ y ∉ addrs B) as [NxB NyB].
  { split; intros Ha; by destruct (DB _ Ha) as (?&?). }
  unfold performRotation. run1. eapply runs_deref; [done|].
  cbv beta iota. cbn [right parent]. run1. run1.
  eapply runs_updateParentPointer_node; [done|]. run1. eapply runs_deref; [by lk|]. run1.
  eapply (runs_updateChildPointer _ _ _ root c (Some y)); [|by lk|done|].
  { eapply is_ctx_frame; [|done]. intros a Ha. destruct (Dc a Ha) as (?&?&?). by lk. }
  run1. eapply runs_deref; [by lk|]. run1. eapply runs_update; [by lk|].
  run1. eapply runs_deref; [by lk|]. run1.
  eapply (runs_updateParentPointer _ _ _ B (Some x)); [by apply (RH _ _ Node_new Node_new)|].
  run1. eapply runs_update; [by lk|]. run1. eapply runs_updateParentPointer_node; [by lk|].
  run1. cbn [new_root].
  match goal with |- runs _ _ (mkIntervalTree (<[y := ?n4]> (<[x := ?n3]>
      (set_par (<[y := ?n2]> (set_child (<[x := ?n1]> m) c (Some x))) B (Some y)))) _ _) _ =>
    destruct (RH n1 n2 n3 n4) as (_&Hc'&HB'&Ho'); set (m5' := <[y := n4]> _) in * end.
  assert (is_tree m5' (Some y) A) as HA'.
  { eapply is_tree_frame; [|exact HA]. intros a Ha. destruct (DA a Ha) as (?&?&?).
    apply Ho'; [done..|]. intros Hd. by destruct (Dc a Hd) as (?&?&?&?&?). }
  assert (is_tree m5' (Some x) D) as HD'.
  { eapply is_tree_frame; [|exact HD]. intros a Ha. destruct (DD a Ha) as (?&?&?).
    apply Ho'; [done..|]. intros Hd. by destruct (Dc a Hd) as (?&?&?&?&?). }
  assert (m5' !! y = Some (mkNode (Some x) (rootp A) (rootp B) hy ivy.1 ivy)) as Hy' by (unfold m5'; by lk).
  assert (m5' !! x = Some (mkNode (ctx_par c) (Some y) (rootp D) hx ivx.1 ivx)) as Hx' by (unfold m5'; by lk).
  assert (holds (mkIntervalTree m5' (new_root root (Some x) (ctx_par c)) sz) c (Nd (Nd A y hy ivy B) x hx ivx D))
    as H' by (by eapply holds_intro).
  assert (keeps (mkIntervalTree m root sz) (mkIntervalTree m5' (new_root root (Some x) (ctx_par c)) sz)
    (addrs (plug c t))) as K'.
  { eapply holds_keeps; [done..| |done]. intros a Ha. unfold addrs in Ha. rewrite inorder_plug in Ha.
    destruct (Do a Ha) as (?&?&?&?). by apply Ho'. }
  run1. eapply runs_mono; [eapply (updateHeight_spec _ (FL x hx ivx D :: c)); [by apply holds_up|lia..]|].
  intros _ s6 [H6 K6]. apply holds_up in H6. cbn in H6.
  eapply runs_mono; [eapply updateHeight_spec; [done|cbn; lia|lia]|].
  intros _ s7 [H7 K7]. split; [done|]. rewrite plug_cons in K6. cbn [plug1] in K6.
  rewrite (addrs_plug c t (Nd (Nd A y hy ivy B) x hx ivx D) Ei) in K6.
  rewrite (addrs_plug c t (Nd (join A y ivy B) x hx ivx D) Ei) in K7.
  exact (keeps_trans _ _ _ _ K' (keeps_trans _ _ _ _ K6 K7)).
Qed.

(** ** Balance *)

Ltac list_assoc := cbn; repeat (rewrite <- (assoc_L (++)); cbn); done.

Fixpoint avl (t : tree) : Prop :=
  match t with
  | Leaf => True
  | Nd l _ h _ r => avl l ∧ avl r ∧ Z.abs (ht l - ht r) ≤ 1 ∧ h = Z.max (ht l) (ht r) + 1
  end.

(** A tree of height [hh] in the context is balanced. *)
Fixpoint avl_ctx (c : list frame) (hh : Z) : Prop :=
  match c with
  | [] => True
  | FL _ h _ r :: c => avl r ∧ Z.abs (hh - ht r) ≤ 1 ∧ h = Z.max hh (ht r) + 1 ∧ avl_ctx c h
  | FR l _ h _ :: c => avl l ∧ Z.abs (ht l - hh) ≤ 1 ∧ h = Z.max (ht l) hh + 1 ∧ avl_ctx c h
  end.

Lemma avl_plug c t : avl (plug c t) ↔ avl t ∧ avl_ctx c (ht t).
Proof.
  revert t. induction c as [|f c IH]; intros t; [cbn; naive_solver|].
  rewrite plug_cons, IH. destruct f; cbn; naive_solver.
Qed.

Lemma avl_ht t : avl t → 0 ≤ ht t ≤ zlength (inorder t).
Proof.
  unfold zlength. induction t as [|l IHl a h iv r IHr]; cbn; [lia|]. intros (Hl & Hr & Hb & ->).
  rewrite length_app. cbn. specialize (IHl Hl). specialize (IHr Hr). lia.
Qed.

Lemma avl_ht_0 t : avl t → ht t ≤ 0 → t = Leaf.
Proof.
  destruct t as [|l a h iv r]; [done|]. cbn. intros (Hl & Hr & _ & ->).
  pose proof (avl_ht _ Hl). pose proof (avl_ht _ Hr). lia.
Qed.

Lemma avl_join l a iv r : avl l → avl r → Z.abs (ht l - ht r) ≤ 1 → avl (join l a iv r).
Proof. cbn. naive_solver. Qed.

(** What a balancing step promises: a balanced subtree in place of [t]. *)
Definition balanced (s : IntervalTree) (c : list frame) (t t' : tree) (s' : IntervalTree) : Prop :=
  holds s' c t' ∧ avl t' ∧ inorder t' = inorder t ∧ keeps s s' (addrs (plug c t)).

Lemma balanceHeight_left s c l a h iv r :
  holds s c (Nd l a h iv r) → avl l → avl r → ht l < 2 ^ 30 → ht l = ht r + 2 →
  succeeds (balanceHeight (Some a)) s (λ p s', ∃ t',
    p = rootp t' ∧ balanced s c (Nd l a h iv r) t' s' ∧ ht l ≤ ht t' ≤ ht l + 1).
Proof.
  intros H Al Ar Bl E. pose proof (avl_ht _ Ar) as Hr0.
  destruct l as [|yl b hy ivy yr]; [cbn in E; lia|].
  pose proof Al as (Ayl & Ayr & Hby & Ehy). pose proof (avl_ht _ Ayl) as P1. pose proof (avl_ht _ Ayr) as P2.
  cbn in E, Bl.
  pose proof H as [Hc (Ha & (Hb & Hyl & Hyr) & Hr) _ _]. destruct s as [m root sz].
  unfold balanceHeight. run1. eapply runs_deref; [done|]. cbn [left right].
  run1. eapply (runs_getHeight _ _ _ (Some a) (Nd yl b hy ivy yr)); [done|].
  run1. eapply runs_getHeight; [done|]. cbn [ht].
  run1. apply runs_assert; [rewrite negb_true_iff, Z.eqb_neq; lia|].
  rewrite (proj2 (Z.gtb_lt hy (ht r))) by lia. cbn [rootp].
  run1. apply runs_assert; [done|]. run1. eapply runs_deref; [done|]. cbn [left right].
  run1. eapply runs_getHeight; [done|]. run1. eapply runs_getHeight; [done|].
  destruct (decide (ht yl < ht yr)) as [Hlt|Hge].
  - rewrite (proj2 (Z.eqb_neq (ht yl) (ht yr))) by lia. cbn [negb].
    assert ((ht yl >? ht yr) = false) as -> by (rewrite Z.gtb_ltb; apply Z.ltb_ge; lia).
    destruct yr as [|xl x hx ivx xr]; [cbn in *; lia|].
    pose proof Ayr as (Axl & Axr & Hbx & Ehx). pose proof (avl_ht _ Axl) as P3. pose proof (avl_ht _ Axr) as P4.
    run1. apply runs_assert; [done|]. run1. cbn in Ehy, Hby, Hlt.
    eapply runs_mono; [apply (rotate_anti_clockwise _ (FL a h iv r :: c)); [by apply holds_up|unfold small; lia..]|].
    intros _ s1 [H1 K1]. apply holds_up in H1. run1.
    eapply runs_mono; [apply rotate_clockwise; [exact H1|unfold small; cbn; lia..]|].
    intros _ s2 [H2 K2]. run1. eexists. split; [|split; [split_and!; [exact H2|..]|cbn; lia]].
    + done.
    + apply avl_join; [apply avl_join; [done|done|lia]|apply avl_join; [done|done|lia]|cbn; lia].
    + list_assoc.
    + rewrite plug_cons in K1. eapply keeps_trans; [exact K1|].
      erewrite addrs_plug in K2; [exact K2|]. list_assoc.
  - assert ((if negb (ht yl =? ht yr)
             then (if ht yl >? ht yr then rootp yl else rootp yr, if ht yl >? ht yr then LEFT else RIGHT)
             else (rootp yl, LEFT)) = (rootp yl, LEFT)) as ->.
    { destruct (ht yl =? ht yr) eqn:Eq; [done|]. breflect. by rewrite (proj2 (Z.gtb_lt _ _)) by lia. }
    run1. apply runs_assert.
    { destruct yl; [cbn in *; lia|done]. }
    run1. eapply runs_mono; [apply rotate_clockwise; [exact H|unfold small; cbn; lia..]|].
    intros _ s1 [H1 K1]. run1. eexists. split; [|split; [split_and!; [exact H1|..]|cbn; lia]].
    + done.
    + apply avl_join; [done|apply avl_join; [done|done|lia]|cbn; lia].
    + list_assoc.
    + done.
Qed.

Lemma balanceHeight_right s c l a h iv r :
  holds s c (Nd l a h iv r) → avl l → avl r → ht r < 2 ^ 30 → ht r = ht l + 2 →
  succeeds (balanceHeight (Some a)) s (λ p s', ∃ t',
    p = rootp t' ∧ balanced s c (Nd l a h iv r) t' s' ∧ ht r ≤ ht t' ≤ ht r + 1).
Proof.
  intros H Al Ar Br E. pose proof (avl_ht _ Al) as Hl0.
  destruct r as [|yl b hy ivy yr]; [cbn in E; lia|].
  pose proof Ar as (Ayl & Ayr & Hby & Ehy). pose proof (avl_ht _ Ayl) as P1. pose proof (avl_ht _ Ayr) as P2.
  cbn in E, Br.
  pose proof H as [Hc (Ha & Hl & (Hb & Hyl & Hyr)) _ _]. destruct s as [m root sz].
  unfold balanceHeight. run1. eapply runs_deref; [done|]. cbn [left right].
  run1. eapply runs_getHeight; [done|].
  run1. eapply (runs_getHeight _ _ _ (Some a) (Nd yl b hy ivy yr)); [done|]. cbn [ht].
  run1. apply runs_assert; [rewrite negb_true_iff, Z.eqb_neq; lia|].
  assert ((ht l >? hy) = false) as -> by (rewrite Z.gtb_ltb; apply Z.ltb_ge; lia). cbn [rootp].
  run1. apply runs_assert; [done|]. run1. eapply runs_deref; [done|]. cbn [left right].
  run1. eapply runs_getHeight; [done|]. run1. eapply runs_getHeight; [done|].
  destruct (decide (ht yr < ht yl)) as [Hlt|Hge].
  - rewrite (proj2 (Z.eqb_neq (ht yl) (ht yr))) by lia. cbn [negb].
    rewrite (proj2 (Z.gtb_lt (ht yl) (ht yr))) by lia.
    destruct yl as [|xl x hx ivx xr]; [cbn in *; lia|].
    pose proof Ayl as (Axl & Axr & Hbx & Ehx). pose proof (avl_ht _ Axl) as P3. pose proof (avl_ht _ Axr) as P4.
    run1. apply runs_assert; [done|]. run1. cbn in Ehy, Hby, Hlt.
    eapply runs_mono; [apply (rotate_clockwise _ (FR l a h iv :: c)); [by apply holds_up|unfold small; lia..]|].
    intros _ s1 [H1 K1]. apply holds_up in H1. run1.
    eapply runs_mono; [apply rotate_anti_clockwise; [exact H1|unfold small; cbn; lia..]|].
    intros _ s2 [H2 K2]. run1. eexists. split; [|split; [split_and!; [exact H2|..]|cbn; lia]].
    + done.
    + apply avl_join; [apply avl_join; [done|done|lia]|apply avl_join; [done|done|lia]|cbn; lia].
    + list_assoc.
    + rewrite plug_cons in K1. eapply keeps_trans; [exact K1|].
      erewrite addrs_plug in K2; [exact K2|]. list_assoc.
  - assert ((if negb (ht yl =? ht yr)
             then (if ht yl >? ht yr then rootp yl else rootp yr, if ht yl >? ht yr then LEFT else RIGHT)
             else (rootp yr, RIGHT)) = (rootp yr, RIGHT)) as ->.
    { destruct (ht yl =? ht yr) eqn:Eq; [done|]. breflect.
      by replace (ht yl >? ht yr) with false by (rewrite Z.gtb_ltb; symmetry; apply Z.ltb_ge; lia). }
    run1. apply runs_assert.
    { destruct yr; [cbn in *; lia|done]. }
    run1. eapply runs_mono; [apply rotate_anti_clockwise; [exact H|unfold small; cbn; lia..]|].
    intros _ s1 [H1 K1]. run1. eexists. split; [|split; [split_and!; [exact H1|..]|cbn; lia]].
    + done.
    + apply avl_join; [apply avl_join; [done|done|lia]|done|cbn; lia].
    + list_assoc.
    + done.
Qed.

Lemma runs_assoc {S A B C} E (m : M S A) (f : A → M S B) (g : B → M S C) s Q :
  runs E (m ≫= f) s (λ b s', runs E (g b) s' Q) → runs E (m ≫= λ a, f a ≫= g) s Q.
Proof.
  unfold runs, mbind, M_bind. destruct (m s) as [[a s1]|]; [|done].
  by destruct (f a s1) as [[b s2]|].
Qed.

(** One level of [rebalanceAVLTree]: the node is balanced or rotated. *)
Lemma rebalance_node s c l a h iv r :
  holds s c (Nd l a h iv r) → avl l → avl r → ht l < 2 ^ 30 → ht r < 2 ^ 30 → Z.abs (ht l - ht r) ≤ 2 →
  succeeds (b ← heightBalanced (Some a) ;
            if negb b then balanceHeight (Some a) else updateHeight (Some a) ;; mret (Some a)) s
    (λ p s', ∃ t', p = rootp t' ∧ balanced s c (Nd l a h iv r) t' s' ∧
       Z.max (ht l) (ht r) ≤ ht t' ≤ Z.max (ht l) (ht r) + 1 ∧
       (Z.abs (ht l - ht r) ≤ 1 → ht t' = Z.max (ht l) (ht r) + 1)).
Proof.
  intros H Al Ar Bl Br Hb. pose proof (avl_ht _ Al). pose proof (avl_ht _ Ar).
  pose proof H as [_ (Ha & Hl & Hr) _ _]. run1. destruct s as [m root sz].
  eapply runs_heightBalanced; [done..|]. destruct (Z.abs (ht l - ht r) <=? 1) eqn:E; cbn [negb]; breflect.
  - run1. eapply runs_mono; [eapply updateHeight_spec; [exact H|lia..]|].
    intros _ s' [H' K']. run1. exists (join l a iv r). split; [done|]. split; [|cbn; lia].
    split_and!; [done|by apply avl_join|done|done].
  - destruct (decide (ht l < ht r)).
    + eapply runs_mono; [eapply balanceHeight_right; [exact H|done|done|lia..]|]. cbv beta. intros p s' (t' & -> & B' & ?).
      exists t'. split_and!; [done|done|lia..].
    + eapply runs_mono; [eapply balanceHeight_left; [exact H|done|done|lia..]|]. cbv beta. intros p s' (t' & -> & B' & ?).
      exists t'. split_and!; [done|done|lia..].
Qed.

Lemma length_plug c t : (length c + length (inorder t) ≤ length (inorder (plug c t)))%nat.
Proof.
  revert t. induction c as [|f c IH]; intros t; [cbn; lia|]. rewrite plug_cons.
  etrans; [|apply IH]. destruct f; cbn; rewrite length_app; cbn; lia.
Qed.

(** [rebalanceAVLTree] from the parent of a subtree whose height has changed by
    at most one makes the whole tree balanced. *)
Lemma rebalanceAVLTree_spec c : ∀ fuel s t hh,
  holds s c t → avl t → avl_ctx c hh → Z.abs (ht t - hh) ≤ 1 → (length c < fuel)%nat →
  zlength (inorder (plug c t)) < 2 ^ 30 →
  succeeds (rebalanceAVLTree fuel (ctx_par c)) s (λ _ s', ∃ T, balanced s [] (plug c t) T s').
Proof.
  induction c as [|f c IH]; intros fuel s t hh H At Ac Hh Hf Hz;
    (destruct fuel as [|fuel]; [lia|]); cbn [rebalanceAVLTree].
  - cbn. exists t. split_and!; [done..|apply keeps_refl].
  - assert (∃ l a h iv r, plug1 f t = Nd l a h iv r ∧ a = frame_addr f ∧ avl l ∧ avl r ∧ avl_ctx c h ∧
      Z.abs (ht l - ht r) ≤ 2 ∧ Z.abs (Z.max (ht l) (ht r) + 1 - h) ≤ 1 ∧
      (Z.abs (ht l - ht r) = 2 → Z.max (ht l) (ht r) ≤ h ≤ Z.max (ht l) (ht r) + 1)) as
      (l & a & h & iv & r & Ef & -> & Al & Ar & Ac' & Hb & Hd & Hd2).
    { destruct f; cbn in Ac; destruct_and!; do 5 eexists; (split; [done|]); split_and!; try done; lia. }
    apply holds_up in H. rewrite plug_cons, Ef in *.
    pose proof (length_plug c (Nd l (frame_addr f) h iv r)) as Hlen. cbn in Hlen. rewrite length_app in Hlen. cbn in Hlen.
    pose proof (avl_ht _ Al) as P1. pose proof (avl_ht _ Ar) as P2. unfold zlength in *.
    pose proof H as [_ (Ha & _) _ _]. cbn. destruct s as [m root sz]. run1. eapply runs_deref; [done|].
    apply runs_assoc. eapply runs_mono; [apply rebalance_node; [exact H|done|done|lia..]|].
    cbv beta. intros p s1 (t' & -> & (H1 & A1 & E1 & K1) & Hh' & Hh2).
    destruct t' as [|l' a' h' iv' r']; [cbn in E1; by destruct (inorder l)|].
    pose proof H1 as [_ (Ha' & Hl' & Hr') _ _]. pose proof A1 as (_ & _ & Hb' & Eh').
    destruct s1 as [m1 root1 sz1]. run1. eapply runs_heightBalanced; [done..|].
    rewrite (proj2 (Z.leb_le _ _) Hb'). cbn [negb when]. do 2 run1. run1. eapply runs_deref; [done|]. cbn [height parent].
    apply runs_when; [intros _|].
    + eapply runs_mono; [eapply (IH fuel _ _ h H1 A1 Ac')|].
      * cbn in Hh', Hh2 |- *. lia.
      * cbn in Hf; lia.
      * by rewrite inorder_plug, E1, <- inorder_plug.
      * cbv beta. intros _ s2 (T & H2 & A2 & E2 & K2). exists T. split_and!; [done|done| |].
        -- by rewrite E2, inorder_plug, E1, <- inorder_plug.
        -- change (keeps (mkIntervalTree m root sz) s2 (addrs (plug c (Nd l (frame_addr f) h iv r)))).
           eapply keeps_trans; [exact K1|]. rewrite <- (addrs_plug c _ _ E1). exact K2.
    + intros Eh. breflect. exists (plug c (Nd l' a' h' iv' r')).
      split_and!; [by apply (proj1 (holds_plug _ _ _))|apply avl_plug; cbn; by subst h| |exact K1].
      by rewrite !inorder_plug, E1.
Qed.
