(* ===== verification/IntervalTreeOps.v ===== *)
(** * IntervalTreeOps: the operations on the sequence of intervals

    The tree of IntervalTree.v stands for the sequence of its nodes in order
    ([repr]); insertion, removal and search are described on that sequence. *)
From S2P Require Import Prelude IntervalTree IntervalTreeProofs.
Import IntervalTree.

Abbreviation by_key := (λ x y : nat * (Z * Z), x.2.1 < y.2.1).

(** The tree is an AVL tree with the nodes and intervals [L]. *)
Record repr (s : IntervalTree) (L : list (nat * (Z * Z))) : Prop := {
  repr_tree : ∃ T, holds s [] T ∧ avl T ∧ inorder T = L;
  repr_size : _size s = zlength L;
  repr_bound : zlength L < 2 ^ 29
}.

Lemma repr_nodup s L : repr s L → NoDup L.*1.
Proof. intros [(T & H & _ & <-) _ _]. apply (holds_nodup _ _ _ H). Qed.
Lemma repr_sorted s L : repr s L → StronglySorted by_key L.
Proof. intros [(T & H & _ & <-) _ _]. apply (holds_sorted _ _ _ H). Qed.

Lemma tree_node m par T a iv :
  is_tree m par T → (a, iv) ∈ inorder T →
  ∃ p l r h, m !! a = Some (mkNode p l r h iv.1 iv).
Proof.
  revert par. induction T as [|l IHl b h iv' r IHr]; intros par; cbn; [set_solver|].
  intros (Hb & Hl & Hr) [Ha|[[= -> ->]|Ha]%elem_of_cons]%elem_of_app; eauto.
Qed.

(** The record of a node holds its interval. *)
Lemma repr_node s L a iv :
  repr s L → (a, iv) ∈ L → ∃ p l r h, _nodes s !! a = Some (mkNode p l r h iv.1 iv).
Proof. intros [(T & [_ H _ _] & _ & <-) _ _]. by apply tree_node with None. Qed.

(** The sequence is at most as long as the heap, so the fuel suffices. *)
Lemma repr_fuel s L : repr s L → (length L < depth_bound s)%nat.
Proof.
  intros HR. pose proof HR as [(T & H & _ & <-) _ _]. unfold depth_bound. apply Nat.lt_succ_r.
  rewrite <- (length_fmap fst). rewrite <- size_dom.
  rewrite <- (size_list_to_set (C := gset nat)) by apply (holds_nodup _ _ _ H).
  apply subseteq_size. intros a Ha%elem_of_list_to_set. apply elem_of_dom.
  by apply (holds_dom _ _ _ _ H).
Qed.

Lemma keeps_depth s s' X : keeps s s' X → depth_bound s' = depth_bound s.
Proof. intros [_ E _]. unfold depth_bound. by rewrite <- !size_dom, E. Qed.

(** ** Paths *)

Lemma split_at a T :
  a ∈ addrs T → ∃ c l h iv r, T = plug c (Nd l a h iv r).
Proof.
  unfold addrs. induction T as [|l IHl b h iv r IHr]; cbn; [set_solver|].
  rewrite fmap_app. cbn. intros [Ha|[->|Ha]%elem_of_cons]%elem_of_app.
  - destruct (IHl Ha) as (c & l' & h' & iv' & r' & ->).
    exists (c ++ [FL b h iv r]). do 4 eexists. unfold plug. rewrite foldl_app. done.
  - by exists [], l, h, iv, r.
  - destruct (IHr Ha) as (c & l' & h' & iv' & r' & ->).
    exists (c ++ [FR l b h iv]). do 4 eexists. unfold plug. rewrite foldl_app. done.
Qed.

Lemma unique_split {A} (P Q P' Q' : list (nat * A)) a x x' :
  NoDup (P ++ (a, x) :: Q).*1 → P ++ (a, x) :: Q = P' ++ (a, x') :: Q' → P = P' ∧ x = x' ∧ Q = Q'.
Proof.
  revert P'. induction P as [|p P IH]; intros [|p' P'] N E; cbn in *; simplify_eq; [done| | |].
  - apply NoDup_cons in N as [[] _]. rewrite fmap_app. apply elem_of_app. right. left.
  - apply NoDup_cons in N as [[] _]. rewrite fmap_app. apply elem_of_app. right. left.
  - apply NoDup_cons in N as [_ N]. by destruct (IH P') as (-> & -> & ->).
Qed.

(** The node of an address, with the path to it. *)
Lemma repr_at s L1 a iv L2 :
  repr s (L1 ++ (a, iv) :: L2) →
  ∃ c l h r, holds s c (Nd l a h iv r) ∧ avl (Nd l a h iv r) ∧ avl_ctx c h ∧
    L1 = before c ++ inorder l ∧ L2 = inorder r ++ after c.
Proof.
  intros HR. pose proof HR as [(T & H & A & E) _ _].
  destruct (split_at a T) as (c & l & h & iv' & r & ->).
  { unfold addrs. rewrite E, fmap_app. cbn. set_solver. }
  rewrite inorder_plug in E. cbn in E. rewrite <- (assoc_L (++)) in E. cbn in E. rewrite (assoc_L (++)) in E.
  pose proof (repr_nodup _ _ HR) as N. rewrite <- E in N.
  destruct (unique_split _ _ _ _ _ _ _ N E) as (<- & -> & <-).
  apply avl_plug in A as [A Ac]. exists c, l, h, r. split_and!; [by apply holds_plug|done..].
Qed.

(** ** Writes to nodes *)

Definition with_node (a : nat) (n : Node) (s : IntervalTree) : IntervalTree :=
  mkIntervalTree (<[a := n]> (_nodes s)) (_root_tree s) (_size s).

Lemma repr_set_interval s L1 a iv L2 n iv' :
  repr s (L1 ++ (a, iv) :: L2) → StronglySorted by_key (L1 ++ (a, iv') :: L2) →
  _nodes s !! a = Some n →
  repr (with_node a (n <| key := iv'.1 |> <| interval := iv' |>) s) (L1 ++ (a, iv') :: L2).
Proof.
  intros HR Hs Hn. destruct (repr_at _ _ _ _ _ HR) as (c & l & h & r & H & A & Ac & -> & ->).
  pose proof HR as [_ Hz Hb]. pose proof H as [Hc (Ha & Hl & Hr) N _]. simplify_eq/=.
  destruct (nodup_node _ _ _ _ _ _ N) as (Nc & Nl & Nr & _).
  assert (before c ++ (inorder l ++ (a, iv') :: inorder r) ++ after c =
          (before c ++ inorder l) ++ (a, iv') :: inorder r ++ after c) as E' by list_assoc.
  assert (addrs (plug c (Nd l a h iv' r)) = addrs (plug c (Nd l a h iv r))) as Ea.
  { unfold addrs. rewrite !inorder_plug. cbn. by rewrite !fmap_app. }
  split.
  - exists (plug c (Nd l a h iv' r)). split_and!.
    + apply (proj1 (holds_plug _ c _)). split; cbn.
      * eapply is_ctx_frame; [|exact Hc]. intros b Hb'. specialize (Nc _ Hb'). by lk.
      * split; [by lk|]. split; (eapply is_tree_frame; [|done]); intros b Hb';
          [specialize (Nl _ Hb')|specialize (Nr _ Hb')]; by lk.
      * by rewrite Ea.
      * rewrite inorder_plug. cbn. by rewrite E'.
    + by apply avl_plug.
    + rewrite inorder_plug. cbn. done.
  - cbn. rewrite Hz. unfold zlength. by rewrite !length_app.
  - revert Hb. unfold zlength. by rewrite !length_app.
Qed.

Lemma repr_frame s L b n : repr s L → b ∉ L.*1 → repr (with_node b n s) L.
Proof.
  intros [(T & [Hc Ht N Hs] & A & <-) Hz Hb] Hn. split; [|done..]. exists T. split; [|done].
  split; cbn; [done| |done..]. eapply is_tree_frame; [|exact Ht]. intros a Ha.
  assert (a ≠ b) by (by intros ->). by lk.
Qed.

(** ** Insertion *)

Lemma dom_set_child m root p c q : is_ctx m root p c → dom (set_child m c q) = dom m.
Proof.
  destruct c as [|[b h iv r|l b h iv] c]; cbn; [done| |]; intros (Hb & _); by apply dom_insert_lookup_L.
Qed.

(** A new node in an empty place of the tree. *)
Lemma holds_graft s c a iv :
  holds s c Leaf → c ≠ [] → a ∉ addrs (plug c Leaf) →
  StronglySorted by_key (before c ++ (a, iv) :: after c) →
  holds (mkIntervalTree (<[a := mkNode (ctx_par c) None None 1 iv.1 iv]> (set_child (_nodes s) c (Some a)))
           (_root_tree s) (_size s)) c (Nd Leaf a 1 iv Leaf).
Proof.
  intros [Hc _ N Hs] Hne Ha Hs'. unfold addrs in Ha, N. rewrite inorder_plug in Ha, N. cbn in Ha, N.
  pose proof (is_ctx_set_child _ _ _ _ (Some a) N Hc) as Hc'.
  assert (new_root (_root_tree s) (Some a) (ctx_par c) = _root_tree s) as Er by (by destruct c as [|[] c]).
  rewrite Er in Hc'. split; cbn.
  - eapply is_ctx_frame; [|exact Hc']. intros b Hb. assert (b ≠ a) by (by intros ->). by lk.
  - by lk.
  - unfold addrs. rewrite inorder_plug. cbn. rewrite fmap_app. cbn. rewrite <- Permutation_middle.
    apply NoDup_cons. split; [by rewrite <- fmap_app|by rewrite <- fmap_app].
  - by rewrite inorder_plug.
Qed.

Section insertion.
Context (a : nat) (iv : Z * Z).

Definition inserted (s : IntervalTree) (L : list (nat * (Z * Z))) (s' : IntervalTree) : Prop :=
  ∃ L1 L2 T, L = L1 ++ L2 ∧ Forall (λ x, x.2.1 < iv.1) L1 ∧ Forall (λ x, iv.1 < x.2.1) L2 ∧
    holds s' [] T ∧ avl T ∧ inorder T = L1 ++ (a, iv) :: L2 ∧ keeps s s' (a :: L.*1).

Lemma sorted_between L1 L2 :
  StronglySorted by_key (L1 ++ L2) → Forall (λ x, x.2.1 < iv.1) L1 → Forall (λ x, iv.1 < x.2.1) L2 →
  StronglySorted by_key (L1 ++ (a, iv) :: L2).
Proof.
  intros (H & H1 & H2)%StronglySorted_app F1 F2. rewrite Forall_forall in F1.
  apply StronglySorted_app. split_and!; [|done|by apply StronglySorted_cons].
  intros x y Hx [->|Hy]%elem_of_cons; [by apply F1|by apply H].
Qed.

(** The end of the descent: the node is linked to [c] and the tree rebalanced. *)
Lemma link_spec s c upd :
  holds s c Leaf → avl_ctx c 0 → c ≠ [] →
  _nodes s !! a = Some (initialize iv) → a ∉ addrs (plug c Leaf) →
  Forall (λ x, x.2.1 < iv.1) (before c) → Forall (λ x, iv.1 < x.2.1) (after c) →
  (length (inorder (plug c Leaf)) < depth_bound s)%nat → zlength (inorder (plug c Leaf)) < 2 ^ 29 →
  (∀ Q, Q tt (mkIntervalTree (set_child (_nodes s) c (Some a)) (_root_tree s) (_size s)) →
        succeeds (update (ctx_par c) upd) s Q) →
  succeeds (update (ctx_par c) upd ;;
            update (Some a) (λ n, n <| parent := ctx_par c |>) ;;
            rebalanceAVLTree (depth_bound s) (ctx_par c)) s
    (λ _, inserted s (inorder (plug c Leaf))).
Proof.
  intros H Ac Hne Ha Hna F1 F2 Hd Hz Hu. pose proof H as [Hc _ _ Hs].
  assert (a ∉ (before c ++ after c).*1) as Nac by (unfold addrs in Hna; by rewrite inorder_plug in Hna).
  rewrite inorder_plug in Hs. cbn in Hs. pose proof (sorted_between _ _ Hs F1 F2) as Hs'.
  run1. apply Hu. run1. eapply runs_update; [by rewrite set_child_ne|].
  pose proof (holds_graft _ _ _ _ H Hne Hna Hs') as H'.
  assert (inorder (plug c (Nd Leaf a 1 iv Leaf)) = before c ++ (a, iv) :: after c) as Ei by (by rewrite inorder_plug).
  assert (length (inorder (plug c Leaf)) = length (before c ++ after c)) as El by (by rewrite inorder_plug).
  pose proof (length_plug c Leaf) as Hlp. unfold zlength in *.
  eapply runs_mono; [eapply (rebalanceAVLTree_spec c _ _ _ 0 H'); [by cbn|done|done|lia|]|].
  { rewrite Ei. unfold zlength. rewrite length_app in *. cbn in *. lia. }
  cbv beta. intros _ s' (T & HT & AT & ET & KT). exists (before c), (after c), T.
  split_and!; [by rewrite inorder_plug|done..|by rewrite ET, Ei|].
  destruct KT as [K1 K2 K3]. cbn in K2, K3. split; cbn.
  - intros b Hb. rewrite inorder_plug in Hb. apply not_elem_of_cons in Hb as [Hb1 Hb2]. rewrite K1.
    + cbn. by rewrite lookup_insert_ne, set_child_ne.
    + change (b ∉ (inorder (plug c (Nd Leaf a 1 iv Leaf))).*1). rewrite Ei, fmap_app. cbn.
      rewrite <- Permutation_middle, <- fmap_app. by apply not_elem_of_cons.
  - rewrite K2, dom_insert_lookup_L by (by rewrite set_child_ne, Ha). by eapply dom_set_child.
  - done.
Qed.

Lemma insertInTree_spec t : ∀ c fuel s,
  holds s c t → avl t → avl_ctx c (ht t) → t ≠ Leaf →
  _nodes s !! a = Some (initialize iv) → a ∉ addrs (plug c t) →
  Forall (λ x, x.2.1 < iv.1) (before c) → Forall (λ x, iv.1 < x.2.1) (after c) →
  Forall (λ x, x.2.1 ≠ iv.1) (inorder t) → (length (inorder t) ≤ fuel)%nat →
  (length (inorder (plug c t)) < depth_bound s)%nat → zlength (inorder (plug c t)) < 2 ^ 29 →
  succeeds (insertInTree fuel (Some a) (rootp t)) s (λ _, inserted s (inorder (plug c t))).
Proof.
  induction t as [|l IHl u h ivu r IHr]; intros c fuel s H A Ac Hne Ha Hna F1 F2 Fk Hf Hd Hz; [done|].
  pose proof H as [Hc (Hu & Hl & Hr) _ Hs]. destruct A as (Al & Ar & Hb & ->).
  rewrite inorder_plug in Hs. cbn in Hs. rewrite <- (assoc_L (++)) in Hs.
  apply StronglySorted_app in Hs as (_ & _ & (Hs1 & _ & Hs2)%StronglySorted_app).
  apply StronglySorted_cons in Hs2 as [Hs2 _]. rewrite Forall_app in Hs2. destruct Hs2 as [Hs2 _].
  cbn in Fk, Hf. rewrite Forall_app, Forall_cons in Fk. destruct Fk as (Fl & Fu & Fr). cbn in Fu.
  rewrite length_app in Hf. cbn in Hf. destruct fuel as [|fuel]; [lia|]. cbn [insertInTree rootp].
  destruct s as [m root sz]. run1. eapply runs_deref; [done|]. run1. eapply runs_deref; [done|].
  run1. run1. cbn [key initialize left right].
  destruct (iv.1 <? ivu.1) eqn:E1; [|destruct (iv.1 >? ivu.1) eqn:E2; [|breflect; lia]]; breflect.
  - assert (Forall (λ x, iv.1 < x.2.1) (after (FL u (Z.max (ht l) (ht r) + 1) ivu r :: c))) as F2'.
    { cbn. apply Forall_cons. split; [done|]. apply Forall_app. split; [|done].
      eapply Forall_impl; [exact Hs2|]. intros x Hx. cbn in Hx. lia. }
    destruct l as [|ll lu lh livu lr] eqn:El.
    + apply (link_spec _ (FL u _ ivu r :: c)); try done; [by apply holds_up|].
      intros Q HQ. by eapply runs_update.
    + rewrite <- El in *. replace (non_null (rootp l)) with true by (by subst l).
      apply (IHl (FL u _ ivu r :: c)); try done; [by apply holds_up|by subst l|lia].
  - assert (Forall (λ x, x.2.1 < iv.1) (before (FR l u (Z.max (ht l) (ht r) + 1) ivu :: c))) as F1'.
    { cbn. apply Forall_app. split; [done|]. apply Forall_app. split; [|by apply Forall_singleton].
      apply Forall_forall. intros x Hx. specialize (Hs1 x (u, ivu) Hx ltac:(left)). cbn in Hs1. lia. }
    destruct r as [|rl ru rh rivu rr] eqn:Er.
    + apply (link_spec _ (FR l u _ ivu :: c)); try done; [by apply holds_up|].
      intros Q HQ. by eapply runs_update.
    + rewrite <- Er in *. replace (non_null (rootp r)) with true by (by subst r).
      apply (IHr (FR l u _ ivu :: c)); try done; [by apply holds_up|by subst r|lia].
Qed.

(** [insert] puts a node between the nodes with smaller and larger keys. *)
Lemma insert_spec s L :
  repr s L → L ≠ [] → _nodes s !! a = Some (initialize iv) → a ∉ L.*1 →
  Forall (λ x, x.2.1 ≠ iv.1) L → zlength L < 2 ^ 29 - 1 →
  succeeds (insert (Some a)) s (λ _ s', ∃ L1 L2,
    L = L1 ++ L2 ∧ Forall (λ x, x.2.1 < iv.1) L1 ∧ Forall (λ x, iv.1 < x.2.1) L2 ∧
    repr s' (L1 ++ (a, iv) :: L2) ∧
    dom (_nodes s') = dom (_nodes s) ∧ ∀ b, b ≠ a → b ∉ L.*1 → _nodes s' !! b = _nodes s !! b).
Proof.
  intros HR Hne Ha Hna Fk Hz. pose proof (repr_fuel _ _ HR) as Hf.
  pose proof HR as [(T & H & A & <-) Es Hb]. unfold insert. do 4 run1. cbv beta delta [id].
  set (s1 := over _ _ s). assert (holds s1 [] T) as H1 by (destruct H; by split).
  assert (_root_tree s1 = rootp T) as -> by apply (holds_ctx _ _ _ H1).
  eapply runs_mono; [apply (insertInTree_spec T [] _ s1 H1); try done|].
  - by intros ->.
  - change (depth_bound s1) with (depth_bound s). lia.
  - cbv beta. intros _ s' (L1 & L2 & T' & EL & F1 & F2 & H' & A' & E' & [K1 K2 K3]).
    cbn in EL. exists L1, L2. split_and!; try done.
    + split; [by exists T'|..]; unfold zlength in *; rewrite EL, length_app in *; cbn in *.
      * rewrite K3, Es. cbn. rewrite u32_small; lia.
      * lia.
    + intros b Hb1 Hb2. apply K1. by apply not_elem_of_cons.
Qed.
End insertion.

(** ** Removal *)

Lemma sublist_elem_of {A} (l k : list A) x : sublist l k → x ∈ l → x ∈ k.
Proof. induction 1; rewrite ?elem_of_cons; naive_solver. Qed.

Lemma StronglySorted_sublist {A} (R : relation A) l k :
  sublist l k → StronglySorted R k → StronglySorted R l.
Proof.
  induction 1 as [|x l k Hs IH|x l k Hs IH]; [done| |]; intros [H1 H2]%StronglySorted_cons; [|by apply IH].
  apply StronglySorted_cons. split; [|by apply IH].
  rewrite Forall_forall in *. intros y Hy. apply H1. by eapply sublist_elem_of.
Qed.

Lemma plug_app c1 c2 t : plug (c1 ++ c2) t = plug c2 (plug c1 t).
Proof. unfold plug. by rewrite foldl_app. Qed.
Lemma holds_app s c1 c2 t : holds s c2 (plug c1 t) ↔ holds s (c1 ++ c2) t.
Proof. by rewrite (holds_plug s c2), (holds_plug s (c1 ++ c2)), plug_app. Qed.
Lemma before_app c1 c2 : before (c1 ++ c2) = before c2 ++ before c1.
Proof.
  induction c1 as [|[] c1 IH]; cbn; [by rewrite app_nil_r|done|]. rewrite IH. by rewrite <- (assoc_L (++)).
Qed.
Lemma after_app c1 c2 : after (c1 ++ c2) = after c1 ++ after c2.
Proof. induction c1 as [|[] c1 IH]; cbn; [done| |done]. rewrite IH. by rewrite <- (assoc_L (++)). Qed.

(** A node with at most one child is replaced by that child. *)
Lemma holds_unlink s c l a h iv r sub :
  holds s c (Nd l a h iv r) → (l = Leaf ∧ sub = r ∨ r = Leaf ∧ sub = l) →
  let m' := set_par (set_child (_nodes s) c (rootp sub)) sub (ctx_par c) in
  let s' := mkIntervalTree m' (new_root (_root_tree s) (rootp sub) (ctx_par c)) (_size s) in
  is_tree (set_child (_nodes s) c (rootp sub)) (Some a) sub ∧ holds s' c sub ∧
  keeps s s' (addrs (plug c sub)) ∧ a ∉ addrs (plug c sub).
Proof.
  intros H Hsub m' s'. pose proof H as [Hc (Ha & Hl & Hr) N Hs].
  assert (is_tree (_nodes s) (Some a) sub) as Ht by (by destruct Hsub as [[_ ->]|[_ ->]]).
  assert (sublist (inorder (plug c sub)) (inorder (plug c (Nd l a h iv r)))) as Hsl.
  { rewrite !inorder_plug. apply sublist_app; [done|]. apply sublist_app; [|done].
    destruct Hsub as [[-> ->]|[-> ->]]; cbn; [by apply sublist_cons|by apply sublist_inserts_r]. }
  assert (NoDup (addrs (plug c sub))) as N' by (eapply sublist_NoDup; [exact N|by apply fmap_sublist]).
  assert (StronglySorted by_key (inorder (plug c sub))) as Hs' by (by eapply StronglySorted_sublist).
  assert (a ∉ addrs (plug c sub)) as Na.
  { destruct (nodup_node _ _ _ _ _ _ N) as (Nc & Nl & Nr & _). unfold addrs. rewrite inorder_plug, !fmap_app, !elem_of_app.
    rewrite fmap_app in Nc. setoid_rewrite elem_of_app in Nc. unfold addrs in Nl, Nr.
    intros [?|[?|?]]; [by apply (Nc a); [left|]| |by apply (Nc a); [right|]].
    destruct Hsub as [[-> ->]|[-> ->]]; [by apply (Nr a)|by apply (Nl a)]. }
  pose proof N' as N''. unfold addrs in N''. rewrite inorder_plug, !fmap_app in N''.
  apply NoDup_app in N'' as (N1 & N2 & (N3 & N4 & N5)%NoDup_app).
  assert (NoDup (before c ++ after c).*1) as Nc.
  { rewrite fmap_app. apply NoDup_app. split_and!; [done|set_solver|done]. }
  assert (∀ b, b ∈ addrs sub → b ∉ (before c ++ after c).*1) as Nsc.
  { unfold addrs. intros b Hb. rewrite fmap_app. set_solver. }
  assert (is_tree (set_child (_nodes s) c (rootp sub)) (Some a) sub) as Ht1.
  { eapply is_tree_frame; [|exact Ht]. intros b Hb. by rewrite set_child_ne by (by apply Nsc). }
  assert (holds s' c sub) as H'.
  { split; cbn; [| |done..].
    - eapply is_ctx_frame; [|by eapply is_ctx_set_child]. intros b Hb. unfold m'.
      rewrite set_par_ne; [done|]. intros Hb'. by apply (Nsc b).
    - by eapply is_tree_set_par. }
  split_and!; [done|done| |done]. unfold s'. destruct s as [m root sz]. apply keeps_inserts; cbn in *.
  - unfold addrs. intros b. rewrite inorder_plug, !fmap_app, !elem_of_app. intros Hb. unfold m'.
    rewrite set_par_ne by (unfold addrs; tauto). rewrite set_child_ne; [done|].
    rewrite fmap_app, elem_of_app. tauto.
  - intros b Hb. split; [|by apply (holds_dom _ _ _ _ H')]. apply (holds_dom _ _ _ _ H).
    unfold addrs in *. eapply sublist_elem_of; [by apply (fmap_sublist fst)|exact Hb].
Qed.

(** The link of the parent, by the side the node is on. *)
Lemma runs_child_side m root sz c p0 k q Q :
  is_ctx m root p0 c → frame_order c k → Q tt (mkIntervalTree (set_child m c q) root sz) →
  succeeds (if non_null (ctx_par c) then
              p ← deref (ctx_par c) ;
              updateChildPointer (ctx_par c) q (if key p <? k then RIGHT else LEFT)
            else skip) (mkIntervalTree m root sz) Q.
Proof.
  intros Hc Ho HQ. destruct c as [|[b h iv r|l b h iv] c]; cbn in Hc, Ho; [by cbn| |];
    destruct Hc as (Hb & _); cbn [ctx_par head fmap option_fmap option_map frame_addr];
    (change (non_null (Some b)) with true; cbv iota; run1; eapply runs_deref; [done|]); cbn [key].
  - rewrite (proj2 (Z.ltb_ge _ _)) by lia. apply runs_when; [intros _|done]. by eapply runs_update.
  - rewrite (proj2 (Z.ltb_lt _ _)) by lia. apply runs_when; [intros _|done]. by eapply runs_update.
Qed.

(** The tree without the node [a], which is left in the heap. *)
Definition unlinked (s : IntervalTree) (L : list (nat * (Z * Z))) (a : nat) (s' : IntervalTree) : Prop :=
  ∃ T, holds s' [] T ∧ avl T ∧ inorder T = L ∧ keeps s s' L.*1 ∧ a ∉ L.*1.

Lemma unlink_rebalance s c l a h iv r sub s' d :
  holds s c (Nd l a h iv r) → avl (Nd l a h iv r) → avl_ctx c h →
  (l = Leaf ∧ sub = r ∨ r = Leaf ∧ sub = l) →
  (length (inorder (plug c sub)) < d)%nat → zlength (inorder (plug c sub)) < 2 ^ 30 →
  s' = mkIntervalTree (set_par (set_child (_nodes s) c (rootp sub)) sub (ctx_par c))
         (new_root (_root_tree s) (rootp sub) (ctx_par c)) (_size s) →
  succeeds (rebalanceAVLTree d (ctx_par c)) s' (λ _, unlinked s (inorder (plug c sub)) a).
Proof.
  intros H A Ac Hsub Hd Hz ->. destruct (holds_unlink _ _ _ _ _ _ _ _ H Hsub) as (_ & H1 & K1 & Na).
  destruct A as (Al & Ar & Hb & ->). pose proof (avl_ht _ Al) as P1. pose proof (avl_ht _ Ar) as P2.
  assert (avl sub) as As by (by destruct Hsub as [[_ ->]|[_ ->]]).
  pose proof (length_plug c sub) as Hl.
  eapply runs_mono; [eapply (rebalanceAVLTree_spec c d _ sub _ H1 As Ac); [|lia|done]|].
  - destruct Hsub as [[-> ->]|[-> ->]]; cbn in *; lia.
  - cbv beta. intros _ s2 (T & H2 & A2 & E2 & K2). exists T. split_and!; try done.
    by eapply keeps_trans.
Qed.

Lemma removeFromTree_one fuel s c l a h iv r :
  holds s c (Nd l a h iv r) → avl (Nd l a h iv r) → avl_ctx c h → (l = Leaf ∨ r = Leaf) →
  (length (inorder (plug c (Nd l a h iv r))) < depth_bound s)%nat →
  zlength (inorder (plug c (Nd l a h iv r))) < 2 ^ 30 →
  succeeds (removeFromTree (S fuel) (Some a)) s (λ p s', p = Some a ∧
    unlinked s (before c ++ inorder l ++ inorder r ++ after c) a s').
Proof.
  intros H A Ac Hlr Hd Hz. pose proof H as [Hc (Ha & Hl & Hr) _ Hs].
  pose proof (ctx_order _ _ a iv Hs ltac:(cbn; set_solver)) as Ho.
  assert (∀ sub, (l = Leaf ∧ sub = r ∨ r = Leaf ∧ sub = l) →
    inorder (plug c sub) = before c ++ inorder l ++ inorder r ++ after c ∧
    (length (inorder (plug c sub)) < depth_bound s)%nat ∧ zlength (inorder (plug c sub)) < 2 ^ 30) as Hsz.
  { intros sub Hsub. unfold zlength in *. rewrite inorder_plug, !length_app in *. cbn in Hd, Hz.
    rewrite length_app in Hd, Hz. cbn in Hd, Hz. destruct Hsub as [[-> ->]|[-> ->]]; cbn in *; split_and!; lia || done. }
  cbn [removeFromTree]. destruct s as [m root sz]. run1. eapply runs_deref; [done|]. run1. run1.
  cbn [left right parent key]. destruct l as [|ll b hb ivb lr]; cbn [rootp non_null].
  - destruct (Hsz r) as (E & Hd' & Hz'); [by left|].
    change (negb (non_null None)) with true. cbv iota.
    run1. eapply runs_child_side; [done..|]. run1.
    destruct (holds_unlink _ _ _ _ _ _ _ r H) as (Ht & _); [by left|]. cbn [_nodes] in Ht.
    eapply runs_updateParentPointer; [exact Ht|]. run1.
    eapply runs_mono; [eapply (unlink_rebalance _ _ _ _ _ _ _ r _ _ H A Ac); [by left|done..]|].
    cbv beta. intros _ s' Hu. run1. by rewrite E in Hu.
  - destruct Hlr as [?| ->]; [done|]. set (l := Nd ll b hb ivb lr) in *.
    destruct (Hsz l) as (E & Hd' & Hz'); [by right|].
    change (negb (non_null (Some b))) with false. change (negb (non_null (rootp Leaf))) with true. cbv iota.
    run1. eapply (runs_updateChildPointer _ _ _ root); [done|apply Hl| |].
    { cbn [key]. apply (ctx_order _ _ b ivb Hs). cbn. set_solver. }
    destruct (holds_unlink _ _ _ _ _ _ _ l H) as (Ht & _); [by right|]. cbn [_nodes] in Ht.
    run1. eapply (runs_updateParentPointer _ _ _ l); [exact Ht|]. run1.
    eapply runs_mono; [eapply (unlink_rebalance _ _ _ _ _ _ _ l _ _ H A Ac); [by right|done..]|].
    cbv beta. intros _ s' Hu. run1. by rewrite E in Hu.
Qed.

Lemma findMinKeyNode_spec t : ∀ m root sz par fuel,
  is_tree m par t → t ≠ Leaf → (length (inorder t) ≤ fuel)%nat →
  ∃ c b h iv r, t = plug c (Nd Leaf b h iv r) ∧ before c = [] ∧
    findMinKeyNode fuel (rootp t) (mkIntervalTree m root sz) = Ok (Some b, mkIntervalTree m root sz).
Proof.
  induction t as [|l IHl u h iv r _]; intros m root sz par fuel Ht Hne Hf; [done|].
  cbn in Ht. destruct Ht as (Hu & Hl & Hr). cbn in Hf. rewrite length_app in Hf. cbn in Hf.
  destruct fuel as [|fuel]; [lia|]. cbn [findMinKeyNode rootp].
  assert (deref (Some u) (mkIntervalTree m root sz) =
    Ok (mkNode par (rootp l) (rootp r) h iv.1 iv, mkIntervalTree m root sz)) as Ed.
  { unfold deref, mbind, M_bind, gets, lift. cbn. by rewrite Hu. }
  unfold mbind, M_bind. rewrite Ed. cbn [left]. destruct l as [|ll b hb ivb lr].
  - by exists [], u, h, iv, r.
  - destruct (IHl m root sz (Some u) fuel Hl) as (c & b' & h' & iv' & r' & E & Hb & Ef); [done|lia|].
    exists (c ++ [FL u h iv r]), b', h', iv', r'. split_and!.
    + rewrite plug_app, <- E. done.
    + by rewrite before_app, Hb.
    + exact Ef.
Qed.

(** [swap] exchanges keys and intervals. *)
Lemma runs_swap m root sz a b na nb Q :
  m !! a = Some na → m !! b = Some nb → a ≠ b →
  Q tt (with_node b (nb <| key := key na |> <| interval := interval na |>)
         (with_node a (na <| key := key nb |> <| interval := interval nb |>) (mkIntervalTree m root sz))) →
  succeeds (swap (Some a) (Some b)) (mkIntervalTree m root sz) Q.
Proof.
  intros Ha Hb Hab HQ. unfold swap. run1. eapply runs_deref; [done|]. run1. eapply runs_deref; [done|].
  run1. eapply runs_update; [done|]. run1. eapply runs_update; [by lk|].
  run1. eapply runs_update; [by lk|]. eapply runs_update; [by lk|].
  rewrite !insert_insert_eq. exact HQ.
Qed.

(** What removal does to the sequence: the node itself is taken out, or its
    successor, whose interval the node takes over. *)
Definition taken (L1 : list (nat * (Z * Z))) (a : nat) (L2 : list (nat * (Z * Z)))
    (b : nat) (L' : list (nat * (Z * Z))) : Prop :=
  (b = a ∧ L' = L1 ++ L2) ∨ (∃ ivb L2', L2 = (b, ivb) :: L2' ∧ L' = L1 ++ (a, ivb) :: L2').

Lemma unlinked_repr s L a s' :
  unlinked s L a s' → _size s = zlength L → zlength L < 2 ^ 29 → repr s' L.
Proof.
  intros (T & H & A & E & [_ _ K] & _) Hs Hb. split; [by exists T|by rewrite K|done].
Qed.

Lemma sorted_take_over P a b x iv Q :
  StronglySorted by_key (P ++ x :: (b, iv) :: Q) → StronglySorted by_key (P ++ (a, iv) :: Q).
Proof.
  intros (H & H1 & [_ [H2 H3]%StronglySorted_cons]%StronglySorted_cons)%StronglySorted_app.
  apply StronglySorted_app. split_and!; [|done|by apply StronglySorted_cons].
  intros y z Hy [->|Hz]%elem_of_cons.
  - apply (H y (b, iv) Hy). right. left.
  - apply (H y z Hy). by do 2 right.
Qed.

(** A node with two children: its successor is unlinked, then swapped with it. *)
Lemma removeFromTree_two s c l a h iv r :
  holds s c (Nd l a h iv r) → avl (Nd l a h iv r) → avl_ctx c h → l ≠ Leaf → r ≠ Leaf →
  (length (inorder (plug c (Nd l a h iv r))) < depth_bound s)%nat →
  zlength (inorder (plug c (Nd l a h iv r))) < 2 ^ 29 →
  _size s = zlength (inorder (plug c (Nd l a h iv r))) - 1 →
  succeeds (removeFromTree 2 (Some a)) s (λ p s', ∃ b ivb L2',
    p = Some b ∧ inorder r ++ after c = (b, ivb) :: L2' ∧
    repr s' ((before c ++ inorder l) ++ (a, ivb) :: L2') ∧ dom (_nodes s') = dom (_nodes s) ∧
    ∀ d, d ∉ addrs (plug c (Nd l a h iv r)) → _nodes s' !! d = _nodes s !! d).
Proof.
  intros H A Ac Hl Hr Hd Hz Es. pose proof H as [_ (Ha & Htl & Htr) N Hs].
  destruct s as [m root sz]. cbn in Ha, Htl, Htr, Es.
  pose proof (length_plug c (Nd l a h iv r)) as Hlen. cbn in Hlen. rewrite length_app in Hlen. cbn in Hlen.
  destruct (findMinKeyNode_spec r m root sz (Some a) (depth_bound (mkIntervalTree m root sz)) Htr Hr ltac:(lia))
    as (cr & b & hb & ivb & rb & Er & Hcr & Ef).
  set (c' := cr ++ FR l a h iv :: c).
  assert (plug c (Nd l a h iv r) = plug c' (Nd Leaf b hb ivb rb)) as Ep.
  { unfold c'. by rewrite plug_app, <- Er. }
  assert (holds (mkIntervalTree m root sz) c' (Nd Leaf b hb ivb rb)) as H'.
  { apply holds_app. rewrite <- Er. by apply holds_up. }
  assert (avl (plug c' (Nd Leaf b hb ivb rb))) as [A' Ac']%avl_plug.
  { rewrite <- Ep. by apply avl_plug. }
  set (L2' := inorder rb ++ after cr ++ after c).
  assert (before c' ++ inorder Leaf ++ inorder rb ++ after c' = (before c ++ inorder l) ++ (a, iv) :: L2') as EL.
  { unfold c', L2'. rewrite before_app, after_app, Hcr. cbn. rewrite app_nil_r. list_assoc. }
  assert (inorder r ++ after c = (b, ivb) :: L2') as E2.
  { rewrite Er, inorder_plug, Hcr. unfold L2'. list_assoc. }
  assert (inorder (plug c (Nd l a h iv r)) = (before c ++ inorder l) ++ (a, iv) :: (b, ivb) :: L2') as ET.
  { rewrite inorder_plug. cbn. rewrite <- E2. list_assoc. }
  cbn [removeFromTree]. run1. eapply runs_deref; [done|]. run1. run1. cbn [left right].
  replace (negb (non_null (rootp l))) with false by (by destruct l).
  replace (negb (non_null (rootp r))) with false by (by destruct r). cbv iota.
  run1. eapply runs_Ok; [exact Ef|]. run1.
  eapply runs_mono; [apply (removeFromTree_one 0 _ _ _ _ _ _ _ H' A' Ac'); [by left|by rewrite <- Ep|rewrite <- Ep; lia]|].
  cbv beta. intros p s1 [-> Hu]. run1. apply runs_assert; [by apply bool_decide_eq_true|].
  rewrite EL in Hu. rewrite ET in Hz, Es. unfold zlength in Hz, Es. rewrite !length_app in Hz, Es. cbn in Hz, Es.
  assert (repr s1 ((before c ++ inorder l) ++ (a, iv) :: L2')) as HR1.
  { eapply unlinked_repr; [exact Hu|..]; unfold zlength; rewrite !length_app; cbn; lia. }
  destruct Hu as (T & HT & AT & E1 & [K1 K2 K3] & Nb). rewrite ET in Hs.
  destruct (repr_node _ _ a iv HR1) as (pa & la & ra & ha & Hna); [apply elem_of_app; right; left|].
  pose proof H' as [_ (Hnb & _) _ _]. cbn [_nodes] in Hnb.
  assert (a ≠ b) as Hab by (intros ->; apply Nb; rewrite fmap_app; apply elem_of_app; right; left).
  destruct s1 as [m1 root1 sz1]. rewrite <- K1 in Hnb by done. cbn [_nodes] in *.
  run1. eapply runs_swap; [done..|]. run1. cbn [key interval].
  exists b, ivb, L2'. split_and!; [done|done|..].
  - apply repr_frame.
    + eapply (repr_set_interval _ _ _ _ _ _ ivb HR1); [|exact Hna].
      by eapply sorted_take_over.
    + rewrite !fmap_app in *. cbn in *. exact Nb.
  - cbn. by rewrite !dom_insert_lookup_L by (by lk).
  - intros d Hdd. unfold addrs in Hdd. rewrite ET, fmap_app, elem_of_app in Hdd. cbn in Hdd.
    rewrite !elem_of_cons in Hdd. cbn. assert (d ≠ a ∧ d ≠ b) as [??] by tauto. lk.
    apply K1. rewrite fmap_app, elem_of_app. cbn. rewrite elem_of_cons. tauto.
Qed.

Lemma remove_spec s L1 a iv L2 :
  repr s (L1 ++ (a, iv) :: L2) →
  succeeds (remove (Some a)) s (λ p s', ∃ b L', p = Some b ∧ taken L1 a L2 b L' ∧ repr s' L' ∧
    dom (_nodes s') = dom (_nodes s) ∧
    ∀ d, d ∉ (L1 ++ (a, iv) :: L2).*1 → _nodes s' !! d = _nodes s !! d).
Proof.
  intros HR. pose proof (repr_fuel _ _ HR) as Hf. pose proof (repr_size _ _ HR) as Es.
  pose proof (repr_bound _ _ HR) as Hb.
  destruct (repr_at _ _ _ _ _ HR) as (c & l & h & r & H & A & Ac & -> & ->).
  assert (inorder (plug c (Nd l a h iv r)) = (before c ++ inorder l) ++ (a, iv) :: inorder r ++ after c) as Ei.
  { rewrite inorder_plug. list_assoc. }
  unfold remove. do 2 run1. set (s1 := over _ _ s).
  assert (holds s1 c (Nd l a h iv r)) as H1 by (destruct H; by split).
  assert (_size s1 = zlength (inorder (plug c (Nd l a h iv r))) - 1) as Es1.
  { cbn. rewrite Es, Ei. apply u32_small. unfold zlength in *. rewrite length_app in *. cbn in *. lia. }
  change (depth_bound s) with (depth_bound s1) in Hf. rewrite <- Ei in Hf, Hb.
  change (_nodes s) with (_nodes s1). clearbody s1.
  destruct (decide (rootp l = None ∨ rootp r = None)) as [Hlr|Hlr].
  - assert (l = Leaf ∨ r = Leaf) as Hlr' by (destruct l, r; naive_solver).
    eapply runs_mono; [apply (removeFromTree_one 1 s1 c l a h iv r); try done; lia|].
    cbv beta. intros p s' [-> Hu]. exists a, ((before c ++ inorder l) ++ inorder r ++ after c).
    rewrite <- (assoc_L (++)). rewrite Ei in Hb, Es1. unfold zlength in Hb, Es1.
    rewrite !length_app in Hb, Es1. cbn in Hb, Es1. rewrite length_app in Hb, Es1.
    split_and!; [done|left; by rewrite <- (assoc_L (++))|..].
    + eapply unlinked_repr; [exact Hu|..]; unfold zlength; rewrite !length_app; lia.
    + by destruct Hu as (_ & _ & _ & _ & [_ K _] & _).
    + destruct Hu as (_ & _ & _ & _ & [K _ _] & _). intros d Hd. apply K. intros Hd'. apply Hd.
      revert Hd'. rewrite !fmap_app. cbn. rewrite !fmap_app. set_solver.
  - eapply runs_mono; [apply (removeFromTree_two s1 c l a h iv r); try done; naive_solver|].
    cbv beta. intros p s' (b & ivb & L2' & -> & E & HR' & Hdom & Hout).
    eexists b, _. split_and!; [done|right; by eexists _, _|done|done|].
    intros d Hd. apply Hout. unfold addrs. by rewrite Ei.
Qed.

(** ** Search *)

(** A request for [iv] fits an interval [x] without or with a delay. *)
Definition fits (iv x : Z * Z) : Prop :=
  (x.1 ≤ iv.1 ∧ iv.2 ≤ x.2) ∨ (iv.1 < x.1 ∧ iv.2 - iv.1 ≤ x.2 - x.1).
#[global] Instance fits_dec iv x : Decision (fits iv x).
Proof. unfold fits. apply _. Defined.

Definition first_fit (iv : Z * Z) (L : list (nat * (Z * Z))) : option (nat * (Z * Z)) :=
  head (filter (λ x, fits iv x.2) L).

Definition in_range (x : Z * Z) : Prop := 0 ≤ x.1 ≤ x.2 ∧ x.2 < 2 ^ 64.
(** Intervals in order, with a gap between any two. *)
Abbreviation apart := (λ x y : nat * (Z * Z), x.2.2 < y.2.1).

Lemma first_fit_app iv L1 L2 :
  (∀ x, x ∈ L1 → ¬ fits iv x.2) → first_fit iv (L1 ++ L2) = first_fit iv L2.
Proof. intros H. unfold first_fit. rewrite filter_app, (filter_nil_iff _ L1); done. Qed.

Lemma first_fit_found iv L1 L2 x : first_fit iv L1 = Some x → first_fit iv (L1 ++ L2) = Some x.
Proof. unfold first_fit. rewrite filter_app. by destruct (filter _ L1). Qed.

Lemma first_fit_none iv L x : first_fit iv L = None → x ∈ L → ¬ fits iv x.2.
Proof.
  unfold first_fit. intros H Hx Hf. assert (x ∈ filter (λ x, fits iv x.2) L) as Hin
    by (by apply list_elem_of_filter).
  destruct (filter _ L); [set_solver|done].
Qed.

Lemma first_fit_cons iv x L :
  first_fit iv (x :: L) = if decide (fits iv x.2) then Some x else first_fit iv L.
Proof. unfold first_fit. rewrite filter_cons. by case_decide. Qed.

Lemma searchTree_spec m root sz iv t : ∀ par fuel,
  is_tree m par t → in_range iv → Forall (λ x, in_range x.2) (inorder t) →
  StronglySorted apart (inorder t) → (length (inorder t) < fuel)%nat →
  searchTree fuel iv (rootp t) (mkIntervalTree m root sz) =
    Ok (fst <$> first_fit iv (inorder t), mkIntervalTree m root sz).
Proof.
  induction t as [|l IHl u h ivu r IHr]; intros par fuel Ht Hiv Hr Hs Hf.
  { by destruct fuel; [lia|]. }
  cbn in Ht, Hf, Hr, Hs. destruct Ht as (Hu & Hl & Hrt). rewrite length_app in Hf. cbn in Hf.
  rewrite Forall_app, Forall_cons in Hr. destruct Hr as (Rl & Ru & Rr).
  apply StronglySorted_app in Hs as (Hlt & Sl & [_ Sr]%StronglySorted_cons).
  destruct fuel as [|fuel]; [lia|]. cbn [searchTree rootp inorder].
  assert (deref (Some u) (mkIntervalTree m root sz) =
    Ok (mkNode par (rootp l) (rootp r) h ivu.1 ivu, mkIntervalTree m root sz)) as Ed.
  { unfold deref, mbind, M_bind, gets, lift. cbn. by rewrite Hu. }
  change (negb (non_null (Some u))) with false. cbv iota. unfold mbind, M_bind. rewrite Ed. cbn [interval left right].
  unfold in_range in Hiv, Ru. cbn in Ru. rewrite (u64_small (ivu.2 - ivu.1)), (u64_small (iv.2 - iv.1)) by lia.
  assert (∀ x, x ∈ inorder l → ivu.1 ≤ iv.2 → ¬ fits iv x.2) as Hleft.
  { intros x Hx Hge [Hc|Hc]; pose proof (Hlt x (u, ivu) Hx ltac:(left)) as Hxu; cbn in Hxu; lia. }
  pose proof (IHl (Some u) fuel Hl Hiv Rl Sl ltac:(lia)) as El.
  pose proof (IHr (Some u) fuel Hrt Hiv Rr Sr ltac:(lia)) as Er.
  rewrite Z.geb_leb. destruct ((ivu.1 <=? iv.1) && (iv.2 <=? ivu.2)) eqn:E1.
  - breflect. rewrite first_fit_app, first_fit_cons, decide_True; [done|left; done|].
    intros x Hx. apply Hleft; [done|lia].
  - assert (¬ (ivu.1 ≤ iv.1 ∧ iv.2 ≤ ivu.2)) as E1' by (apply andb_false_iff in E1; destruct E1; breflect; lia).
    assert ((if (iv.1 <? ivu.1) && (ivu.2 - ivu.1 >=? iv.2 - iv.1) then mret (Some u)
             else searchTree fuel iv (rootp r)) (mkIntervalTree m root sz) =
       Ok (fst <$> first_fit iv ((u, ivu) :: inorder r), mkIntervalTree m root sz)) as Erest.
    { clear E1. rewrite first_fit_cons, Z.geb_leb. destruct (_ && _) eqn:E2.
      - breflect. rewrite decide_True by (right; cbn; lia). done.
      - rewrite decide_False; [exact Er|]. intros [Hc|Hc]; [done|]. cbn in Hc.
        apply andb_false_iff in E2. destruct E2; breflect; lia. }
    destruct (iv.2 <? ivu.1) eqn:E3.
    + rewrite El. destruct (first_fit iv (inorder l)) as [[a x]|] eqn:Ef.
      * by rewrite (first_fit_found _ _ _ _ Ef).
      * rewrite first_fit_app by (intros; by eapply first_fit_none). exact Erest.
    + breflect. rewrite first_fit_app by (intros; by apply Hleft). exact Erest.
Qed.

(** [search] finds the first interval the request fits. *)
Lemma search_spec s L iv :
  repr s L → in_range iv → Forall (λ x, in_range x.2) L → StronglySorted apart L →
  search iv s = Ok (fst <$> first_fit iv L, s).
Proof.
  intros HR Hiv Hr Hs. pose proof (repr_fuel _ _ HR) as Hf.
  pose proof HR as [(T & [Hc Ht _ _] & _ & <-) _ _]. cbn in Hc.
  unfold search, mbind, M_bind, gets, id. rewrite Hc. destruct s as [m root sz].
  by apply (searchTree_spec m root sz iv T None).
Qed.
