(* ===== verification/HistoryTree.v ===== *)
(** * HistoryTree: the queue model with a tree of free intervals

    Models shared_models/queue_models/queue_model_history_tree.{h,cc} and the
    choice of a model ([QueueModel::create]).  The nodes of the tree come from
    a pool: [_memory_blocks] is the heap of the tree, a node's address is its
    index, and the indices of free blocks are kept in an array used as a
    stack. *)
From S2P Require Import Prelude Utils Double QueueModels IntervalTree.

Module QueueModelHistoryTree.

Record QueueModelHistoryTree := mkQueueModelHistoryTree {
  _queue : QueueModel.QueueModel;
  _queue_model_m_g_1 : QueueModelMG1.QueueModelMG1;
  (** The tree, whose heap is [_memory_blocks]. *)
  _interval_tree : IntervalTree.IntervalTree;
  _analytical_model_enabled : bool;
  _min_processing_time : Z;
  _max_free_interval_size : Z;
  _free_memory_block_list : list Z;
  _free_memory_block_list_tail : Z;
  _total_requests_using_analytical_model : Z
}.
#[global] Instance eta_QueueModelHistoryTree : Eta QueueModelHistoryTree := λ q, mkQueueModelHistoryTree
  (_queue q) (_queue_model_m_g_1 q) (_interval_tree q) (_analytical_model_enabled q)
  (_min_processing_time q) (_max_free_interval_size q) (_free_memory_block_list q)
  (_free_memory_block_list_tail q) (_total_requests_using_analytical_model q).

Definition in_tree {A} (m : M IntervalTree.IntervalTree A) : M QueueModelHistoryTree A :=
  zoom _interval_tree (λ t q, q <| _interval_tree := t |>) m.

(** [allocateMemory]: the blocks and the stack of free blocks. *)
Definition memory_blocks (max : Z) : gmap nat IntervalTree.Node :=
  list_to_map ((λ i, (i, IntervalTree.Node_new)) <$> seq 0 (Z.to_nat max)).
Definition allocateMemory : M QueueModelHistoryTree unit :=
  modify (λ q, q
    <| _interval_tree := IntervalTree.mkIntervalTree (memory_blocks (_max_free_interval_size q)) None 0 |>
    <| _free_memory_block_list := seqZ 0 (_max_free_interval_size q) |>
    <| _free_memory_block_list_tail := _max_free_interval_size q - 1 |>).

Definition allocateNode (interval : Z * Z) : M QueueModelHistoryTree IntervalTree.ptr :=
  q ← gets id ;
  assert (_free_memory_block_list_tail q >=? 0) "QueueModelHistoryTree::allocateNode" ;;
  free_index ← lift (vget "_free_memory_block_list" (_free_memory_block_list q)
                       (_free_memory_block_list_tail q)) ;
  let node := Some (Z.to_nat free_index) in
  in_tree (IntervalTree.update node (λ _, IntervalTree.initialize (interval.1, interval.2))) ;;
  modify (λ q, q <| _free_memory_block_list_tail ::= λ n, n - 1 |>) ;;
  mret node.

Definition releaseNode (node : IntervalTree.ptr) : M QueueModelHistoryTree unit :=
  index ← lift (of_option (Z.of_nat <$> node) (ENull "QueueModelHistoryTree::releaseNode")) ;
  q ← gets id ;
  assert ((index >=? 0) && (index <? _max_free_interval_size q)) "QueueModelHistoryTree::releaseNode" ;;
  modify (λ q, q <| _free_memory_block_list_tail ::= λ n, n + 1 |>) ;;
  q ← gets id ;
  assert (_free_memory_block_list_tail q <? _max_free_interval_size q) "QueueModelHistoryTree::releaseNode" ;;
  l ← lift (vset "_free_memory_block_list" (_free_memory_block_list q)
              (_free_memory_block_list_tail q) index) ;
  modify (λ q, q <| _free_memory_block_list := l |>).

(** The constructor: the pool and the tree with the one interval of all times. *)
Definition initialize_tree : M QueueModelHistoryTree unit :=
  allocateMemory ;;
  start_node ← allocateNode (0, UINT64_MAX) ;
  modify (λ q, q <| _interval_tree ::= λ t, IntervalTree.make (IntervalTree._nodes t) start_node |>).
Definition make (min_processing_time max_list_size : Z) (analytical_model_enabled : bool) :
    res QueueModelHistoryTree :=
  r ← initialize_tree (mkQueueModelHistoryTree (QueueModel.make QueueModel.HISTORY_TREE) QueueModelMG1.make
        (IntervalTree.mkIntervalTree ∅ None 0) analytical_model_enabled min_processing_time
        max_list_size [] 0 0) ;
  Ok r.2.

Definition set_interval (node : IntervalTree.ptr) (f : Z * Z → Z * Z) : M IntervalTree.IntervalTree unit :=
  IntervalTree.update node (λ n, n <| IntervalTree.interval ::= f |>).
Definition set_key (node : IntervalTree.ptr) : M IntervalTree.IntervalTree unit :=
  IntervalTree.update node (λ n, n <| IntervalTree.key := (IntervalTree.interval n).1 |>).

(** The part of [computeQueueDelay] that takes the packet's slot out of the free
    interval [node]. *)
Definition occupy (node : IntervalTree.ptr) (pkt_time processing_time : Z) : M QueueModelHistoryTree Z :=
  q ← gets id ;
  let min := _min_processing_time q in
  let pkt_end := u64 (pkt_time + processing_time) in
  n ← in_tree (IntervalTree.deref node) ;
  let interval := IntervalTree.interval n in
  assert (pkt_end <=? interval.2) "QueueModelHistoryTree::computeQueueDelay" ;;
  if pkt_time >=? interval.1 then
    (if u64 (pkt_time - interval.1) >=? min then
       when (u64 (interval.2 - pkt_end) >=? min)
         (next_node ← allocateNode (pkt_end, interval.2) ;
          in_tree (IntervalTree.insert next_node)) ;;
       in_tree (set_interval node (λ i, (i.1, pkt_time)))
     else if u64 (interval.2 - pkt_end) >=? min then
       in_tree (set_interval node (λ i, (pkt_end, i.2)) ;; set_key node)
     else
       p ← in_tree (IntervalTree.remove node) ; releaseNode p) ;;
    mret 0
  else
    (if u64 (interval.2 - u64 (interval.1 + processing_time)) >=? min then
       in_tree (set_interval node (λ i, (u64 (i.1 + processing_time), i.2)) ;; set_key node)
     else
       p ← in_tree (IntervalTree.remove node) ; releaseNode p) ;;
    mret (interval.1 - pkt_time).

Definition computeQueueDelay (pkt_time processing_time : Z) : M QueueModelHistoryTree Z :=
  let pkt_end := u64 (pkt_time + processing_time) in
  min_node ← in_tree (IntervalTree.search (0, 1)) ;
  q ← gets id ;
  when (IntervalTree._size (_interval_tree q) >=? u32 (_max_free_interval_size q))
    (p ← in_tree (IntervalTree.remove min_node) ; releaseNode p) ;;
  min_node ← in_tree (IntervalTree.search (0, 1)) ;
  old ← (if _analytical_model_enabled q then
           n ← in_tree (IntervalTree.deref min_node) ;
           mret ((IntervalTree.interval n).1 >? pkt_end)
         else mret false) ;
  queue_delay ←
    (if old : bool then
       modify (λ q, q <| _total_requests_using_analytical_model ::= λ n, u64 (n + 1) |>) ;;
       lift (QueueModelMG1.computeQueueDelay (_queue_model_m_g_1 q) pkt_time processing_time)
     else
       node ← in_tree (IntervalTree.search (pkt_time, pkt_end)) ;
       (if IntervalTree.non_null node then skip else fail (ELog "node = (NULL)")) ;;
       occupy node pkt_time processing_time) ;
  assert (negb (queue_delay =? UINT64_MAX)) "queue_delay != UINT64_MAX" ;;
  modify (λ q, q
    <| _queue_model_m_g_1 ::= QueueModelMG1.updateQueue pkt_time processing_time queue_delay |>
    <| _queue ::= QueueModel.updateQueueUtilizationCounters pkt_time processing_time queue_delay |>) ;;
  mret queue_delay.

End QueueModelHistoryTree.

(** ** The queue models behind their base class *)

Module Queue.

Inductive Queue :=
  | Basic (q : QueueModelBasic.QueueModelBasic)
  | HistoryList (q : QueueModelHistoryList.QueueModelHistoryList)
  | HistoryTree (q : QueueModelHistoryTree.QueueModelHistoryTree).

(** The values of the configuration file the constructors read. *)
Record Cfg := mkCfg {
  basic_moving_avg_enabled : bool;
  basic_moving_avg_window_size : Z;
  basic_moving_avg_type : string;
  history_list_max_list_size : Z;
  history_list_analytical_model_enabled : bool;
  history_list_interleaving_enabled : bool;
  history_tree_max_list_size : Z;
  history_tree_analytical_model_enabled : bool
}.

(** [QueueModel::create]. *)
Definition create (cfg : Cfg) (model_type : string) (min_processing_time : Z) : res Queue :=
  if bool_decide (model_type = "basic") then
    q ← QueueModelBasic.make (basic_moving_avg_enabled cfg) (basic_moving_avg_window_size cfg)
          (basic_moving_avg_type cfg) ;
    Ok (Basic q)
  else if bool_decide (model_type = "history_list") then
    Ok (HistoryList (QueueModelHistoryList.make min_processing_time (history_list_max_list_size cfg)
          (history_list_analytical_model_enabled cfg) (history_list_interleaving_enabled cfg)))
  else if bool_decide (model_type = "history_tree") then
    q ← QueueModelHistoryTree.make min_processing_time (history_tree_max_list_size cfg)
          (history_tree_analytical_model_enabled cfg) ;
    Ok (HistoryTree q)
  else Fail (ELog "Unrecognized Queue Model Type").

(** The virtual [computeQueueDelay]. *)
Definition computeQueueDelay (pow : double → double → double) (pkt_time processing_time : Z)
    (q : Queue) : res (Z * Queue) :=
  match q with
  | Basic q =>
    r ← QueueModelBasic.computeQueueDelay pow pkt_time processing_time q ; Ok (r.1, Basic r.2)
  | HistoryList q =>
    r ← QueueModelHistoryList.computeQueueDelay pkt_time processing_time q ; Ok (r.1, HistoryList r.2)
  | HistoryTree q =>
    r ← QueueModelHistoryTree.computeQueueDelay pkt_time processing_time q ; Ok (r.1, HistoryTree r.2)
  end.

End Queue.
