(* ===== verification/QueueProofs.v ===== *)
(** * QueueProofs: the queue models as allocators of time slots

    [allocate] is the reference: the first free interval that holds the packet
    gives it a slot.  [HistoryQueue] is what the history models promise: one
    step of [allocate], up to forgetting the oldest interval.  The list and the
    tree are its instances. *)
From S2P Require Import Prelude Utils Double QueueModels IntervalTree HistoryTree.
From S2P Require Import IntervalTreeProofs IntervalTreeOps.

(** ** The reference allocator *)

(** A free interval is worth keeping when a packet of the least length fits. *)
Definition kept (min : Z) (x : Z * Z) : list (Z * Z) := if min <=? x.2 - x.1 then [x] else [].

Definition carve (min pkt proc : Z) (x : Z * Z) : list (Z * Z) :=
  kept min (x.1, Z.max pkt x.1) ++ kept min (Z.max pkt x.1 + proc, x.2).

Fixpoint allocate (min pkt proc : Z) (F : list (Z * Z)) : option (Z * list (Z * Z)) :=
  match F with
  | [] => None
  | x :: F =>
    if decide (fits (pkt, pkt + proc) x) then Some (Z.max pkt x.1 - pkt, carve min pkt proc x ++ F)
    else '(d, F') ← allocate min pkt proc F ; Some (d, x :: F')
  end.

Lemma allocate_Some min pkt proc F d F' :
  allocate min pkt proc F = Some (d, F') ↔
  ∃ F1 x F2, F = F1 ++ x :: F2 ∧ Forall (λ y, ¬ fits (pkt, pkt + proc) y) F1 ∧
    fits (pkt, pkt + proc) x ∧ d = Z.max pkt x.1 - pkt ∧ F' = F1 ++ carve min pkt proc x ++ F2.
Proof.
  revert d F'. induction F as [|x F IH]; intros d F'; cbn [allocate].
  - split; [done|]. intros ([|] & x & F2 & E & _); done.
  - case_decide as Hf.
    + split.
      * intros [= <- <-]. exists [], x, F. by split_and!.
      * intros ([|y F1] & x' & F2 & E & Hn & Hx & -> & ->); cbn in E; simplify_eq; [done|].
        by apply Forall_cons in Hn as [? _].
    + split.
      * intros ([d0 F0] & E & [= <- <-])%bind_Some. apply IH in E as (F1 & y & F2 & -> & Hn & Hx & -> & ->).
        exists (x :: F1), y, F2. split_and!; try done. by apply Forall_cons.
      * intros ([|y F1] & x' & F2 & E & Hn & Hx & -> & ->); cbn in E; simplify_eq; [done|].
        apply Forall_cons in Hn as [_ Hn].
        rewrite (proj2 (IH (Z.max pkt x'.1 - pkt) (F1 ++ carve min pkt proc x' ++ F2))); [done|].
        exists F1, x', F2. by split_and!.
Qed.

(** ** Free intervals *)

Abbreviation gap := (λ x y : Z * Z, x.2 < y.1).

(** The free intervals are apart and long enough, and the last one never ends;
    it starts no later than [B]. *)
Record free_ok (min B : Z) (F : list (Z * Z)) : Prop := {
  free_min : 1 ≤ min < 2 ^ 62;
  free_bound : 0 ≤ B < 2 ^ 62;
  free_gaps : StronglySorted gap F;
  free_long : Forall (λ x, 0 ≤ x.1 ∧ x.1 + min ≤ x.2 ≤ UINT64_MAX) F;
  free_last : ∃ b, last F = Some (b, UINT64_MAX) ∧ b ≤ B
}.

Lemma free_start min B F x : free_ok min B F → x ∈ F → x.1 ≤ B.
Proof.
  intros [Hm _ Hs Hl (b & Hlast & Hb)] Hx. apply last_Some in Hlast as [F0 ->].
  apply elem_of_app in Hx as [Hx| ->%list_elem_of_singleton]; [|done].
  pose proof (StronglySorted_app_1_elem_of _ _ _ x (b, UINT64_MAX) Hs Hx ltac:(left)) as Hg. cbn in Hg.
  rewrite Forall_app, Forall_forall in Hl. destruct Hl as [Hl _]. specialize (Hl x Hx). lia.
Qed.

Lemma free_tail min B F : free_ok min B F → (1 < length F)%nat → free_ok min B (tail F).
Proof.
  intros [Hm HB Hs Hl (b & Hlast & Hb)] Hlen. destruct F as [|x [|y F]]; cbn in Hlen; [lia..|].
  split; [done|done|by apply StronglySorted_cons in Hs as [_ ?]|by apply Forall_cons in Hl as [_ ?]|].
  by exists b.
Qed.

(** A slot and a free interval have no common time. *)
Definition disjoint (s x : Z * Z) : Prop := s.2 ≤ x.1 ∨ x.2 ≤ s.1.

Lemma carve_in min pkt proc x y :
  y ∈ carve min pkt proc x → 0 < proc → fits (pkt, pkt + proc) x → 1 ≤ min →
  y.1 + min ≤ y.2 ∧ x.1 ≤ y.1 ∧ y.2 ≤ x.2 ∧
  (y.2 ≤ Z.max pkt x.1 ∨ Z.max pkt x.1 + proc ≤ y.1).
Proof.
  intros Hy Hp Hf Hm. unfold carve, kept, fits in *. cbn in *.
  apply elem_of_app in Hy as [Hy|Hy]; destruct (_ <=? _) eqn:E; breflect;
    apply list_elem_of_singleton in Hy || (by apply elem_of_nil in Hy); subst y; cbn; lia.
Qed.

Section allocate.
Context (min B pkt proc : Z) (F : list (Z * Z)).
Context (Hok : free_ok min B F) (Hpkt : 0 ≤ pkt) (Hproc : 0 < proc) (HB : Z.max B pkt + proc < 2 ^ 62).

(** The endless last interval holds every packet. *)
Lemma allocate_total : is_Some (allocate min pkt proc F).
Proof.
  destruct Hok as [Hm _ _ _ (b & Hlast & Hb)]. apply last_Some in Hlast as [F0 ->].
  clear Hok. induction F0 as [|x F0 IH]; cbn [allocate app].
  - rewrite decide_True; [done|]. unfold fits, UINT64_MAX. cbn. lia.
  - case_decide; [done|]. destruct IH as [[d F'] ->]. done.
Qed.

Lemma carve_sorted x : fits (pkt, pkt + proc) x → StronglySorted gap (carve min pkt proc x).
Proof.
  intros _. unfold carve, kept. cbn.
  destruct (_ <=? _), (_ <=? _); cbn; repeat constructor; cbn; lia.
Qed.

(** What remains free after an allocation. *)
Lemma allocate_ok d F' :
  allocate min pkt proc F = Some (d, F') → free_ok min (Z.max B pkt + proc) F'.
Proof.
  intros (F1 & x & F2 & E & _ & Hx & -> & ->)%allocate_Some.
  pose proof Hok as [Hm HB0 Hs Hl (b & Hlast & Hb)]. rewrite E in Hs, Hl, Hlast.
  apply StronglySorted_app in Hs as (G1 & S1 & [G2 S2]%StronglySorted_cons).
  rewrite Forall_app, Forall_cons in Hl. destruct Hl as (L1 & Lx & L2). rewrite Forall_forall in G2.
  split; [done|lia|..].
  - apply StronglySorted_app. split_and!; [|done|].
    + intros y z Hy [Hz|Hz]%elem_of_app; [|apply (G1 y z Hy); by right].
      specialize (G1 y x Hy ltac:(left)). apply carve_in in Hz; [|done|done|lia]. lia.
    + apply StronglySorted_app. split_and!; [|by apply carve_sorted|done].
      intros y z Hy Hz. apply carve_in in Hy; [|done|done|lia]. specialize (G2 z Hz). lia.
  - rewrite !Forall_app. split_and!; [done| |done]. apply Forall_forall. intros y Hy.
    apply carve_in in Hy; [|done|done|lia]. lia.
  - destruct F2 as [|z F2].
    + rewrite last_snoc in Hlast. injection Hlast as ->. exists (Z.max pkt b + proc).
      split; [|lia]. rewrite app_nil_r. unfold carve, kept. cbn.
      rewrite (proj2 (Z.leb_le min (UINT64_MAX - _))) by (unfold UINT64_MAX; lia).
      by rewrite (assoc_L (++)), last_snoc.
    + exists b. split; [|lia]. rewrite !last_app, last_cons_cons in *. cbn in *.
      destruct (last (z :: F2)) eqn:El; [done|]. by apply last_None in El.
Qed.

(** The slot lies in the free time, and the rest of the free time avoids it. *)
Lemma allocate_slot d F' :
  allocate min pkt proc F = Some (d, F') →
  0 ≤ d ∧ (∃ x, x ∈ F ∧ x.1 ≤ pkt + d ∧ pkt + d + proc ≤ x.2) ∧
  (∀ y, y ∈ F' → disjoint (pkt + d, pkt + d + proc) y) ∧
  (∀ y, y ∈ F' → ∃ x, x ∈ F ∧ x.1 ≤ y.1 ∧ y.2 ≤ x.2).
Proof.
  intros (F1 & x & F2 & E & _ & Hx & -> & ->)%allocate_Some.
  pose proof Hok as [Hm _ Hs Hl _]. rewrite E in Hs, Hl.
  apply StronglySorted_app in Hs as (G1 & _ & [G2 _]%StronglySorted_cons). rewrite Forall_forall in G2.
  rewrite Forall_app, Forall_cons in Hl. destruct Hl as (_ & Lx & _).
  replace (pkt + (Z.max pkt x.1 - pkt)) with (Z.max pkt x.1) by lia.
  unfold fits in Hx. cbn in Hx. split_and!; [lia| | |].
  - exists x. split; [rewrite E; apply elem_of_app; right; left|lia].
  - intros y [Hy|[Hy|Hy]%elem_of_app]%elem_of_app; unfold disjoint; cbn.
    + specialize (G1 y x Hy ltac:(left)). lia.
    + apply carve_in in Hy; [|done|done|lia]. lia.
    + specialize (G2 y Hy). lia.
  - intros y [Hy|[Hy|Hy]%elem_of_app]%elem_of_app.
    + exists y. split; [rewrite E; apply elem_of_app; by left|lia].
    + exists x. split; [rewrite E; apply elem_of_app; right; left|].
      apply carve_in in Hy; [|done|done|lia]. lia.
    + exists y. split; [rewrite E; apply elem_of_app; right; by right|lia].
Qed.
End allocate.

Lemma free_mono min B B' F : free_ok min B F → B ≤ B' < 2 ^ 62 → free_ok min B' F.
Proof. intros [Hm HB Hs Hl (b & Hlast & Hb)] ?. split; [done|lia|done|done|]. exists b. split; [done|lia]. Qed.

(** ** The contract of the history models *)

Definition analytical_error (e : error) : Prop :=
  e = ERange "QueueModelMG1::computeQueueDelay" ∨ e = EAssert "queue_delay != UINT64_MAX".

(** A request served: the oldest interval may be forgotten before or after; a
    slot is reserved, or the request is old and the delay is an estimate. *)
Definition served (min cap pkt proc : Z) (F : list (Z * Z)) (d : Z) (reserved : bool)
    (F' : list (Z * Z)) : Prop :=
  ∃ F0, (F0 = F ∨ (1 < length F)%nat ∧ cap ≤ zlength F + 1 ∧ F0 = tail F) ∧
    if reserved then
      ∃ F1, allocate min pkt proc F0 = Some (d, F1) ∧
        (F' = F1 ∨ (1 < length F1)%nat ∧ cap ≤ zlength F + 1 ∧ F' = tail F1)
    else F' = F0.

Class HistoryQueue (Q : Type) := {
  hq_delay : Z → Z → M Q Z;
  hq_min : Q → Z;
  hq_cap : Q → Z;
  hq_analytical : Q → bool;
  (** The number of requests answered by the analytical model. *)
  hq_count : Q → Z;
  (** The state has the free intervals of the list. *)
  hq_free : Q → Z → list (Z * Z) → Prop;
  hq_ok q B F : hq_free q B F → free_ok (hq_min q) B F;
  hq_serve q B F pkt proc :
    hq_free q B F → 0 ≤ pkt → 0 < proc → Z.max B pkt + proc < 2 ^ 62 →
    runs (λ e, hq_analytical q = true ∧ analytical_error e) (hq_delay pkt proc) q (λ d q',
      let reserved := hq_count q' =? hq_count q in
      (hq_analytical q = false → reserved = true) ∧
      hq_min q' = hq_min q ∧ hq_cap q' = hq_cap q ∧ hq_analytical q' = hq_analytical q ∧
      ∃ F', hq_free q' (Z.max B pkt + proc) F' ∧
        served (hq_min q) (hq_cap q) pkt proc F d reserved F')
}.

Lemma to_u64_error site x e : to_u64 site x = Fail e → e = ERange site.
Proof. unfold to_u64. destruct x; try naive_solver. destruct (_ && _); naive_solver. Qed.

Lemma mg1_error q pkt proc e :
  0 < proc → QueueModelMG1.computeQueueDelay q pkt proc = Fail e →
  e = ERange "QueueModelMG1::computeQueueDelay".
Proof.
  intros Hp. unfold QueueModelMG1.computeQueueDelay. rewrite (proj2 (Z.gtb_lt proc 0)) by lia. cbn.
  destruct (negb _); [|done]. apply to_u64_error.
Qed.

(** ** The list *)

Section list.
Import QueueModelHistoryList.

Lemma keep_kept min x : 0 ≤ x.2 - x.1 < 2 ^ 64 → keep min x = kept min x.
Proof. intros H. unfold keep, kept. by rewrite u64_small, Z.geb_leb by lia. Qed.

Lemma scan_spec min B pkt proc F d F' :
  free_ok min B F → 0 ≤ pkt → 0 < proc → Z.max B pkt + proc < 2 ^ 62 →
  allocate min pkt proc F = Some (d, F') → scan min false pkt proc 0 F = (d, F').
Proof.
  intros Hok Hp Hpr HB. pose proof (λ x, free_start _ _ _ x Hok) as Hst.
  pose proof Hok as [Hm HB0 _ Hl _]. rewrite Forall_forall in Hl. clear Hok. revert d F'.
  induction F as [|x F IH]; intros d F'; cbn [allocate scan]; [done|].
  pose proof (Hst x ltac:(left)) as Hx. pose proof (Hl x ltac:(left)) as Lx. unfold UINT64_MAX in Lx.
  rewrite (u64_small (pkt + proc)), (u64_small (x.1 + proc)) by lia.
  rewrite Z.geb_leb. case_decide as Hf.
  - intros [= <- <-]. unfold fits in Hf. cbn in Hf. unfold carve. destruct (x.1 <=? pkt) eqn:E; cbn [andb]; breflect.
    + rewrite (proj2 (Z.leb_le _ _)) by lia. rewrite !Z.max_l, !keep_kept by (cbn; lia).
      f_equal; [lia|by rewrite <- (assoc_L (++))].
    + rewrite (proj2 (Z.ltb_lt _ _)), (proj2 (Z.leb_le _ _)) by lia. cbn [andb].
      rewrite !Z.max_r, keep_kept, u64_small by (cbn; lia). f_equal.
      unfold kept at 2. cbn. by rewrite (proj2 (Z.leb_gt _ _)) by lia.
  - intros ([d0 F0] & E & [= <- <-])%bind_Some.
    assert ((x.1 <=? pkt) && (pkt + proc <=? x.2) = false) as ->.
    { apply andb_false_iff. unfold fits in Hf. cbn in Hf. rewrite !Z.leb_gt. lia. }
    assert ((pkt <? x.1) && (x.1 + proc <=? x.2) = false) as ->.
    { apply andb_false_iff. unfold fits in Hf. cbn in Hf. rewrite Z.leb_gt, Z.ltb_ge. lia. }
    rewrite (IH ltac:(intros; apply Hst; by right) ltac:(intros; apply Hl; by right) _ _ E). done.
Qed.

Lemma allocate_length min pkt proc F d F' :
  allocate min pkt proc F = Some (d, F') → (length F' ≤ S (length F))%nat.
Proof.
  intros (F1 & x & F2 & -> & _ & _ & _ & ->)%allocate_Some. unfold carve, kept.
  destruct (_ <=? _), (_ <=? _); rewrite !length_app; cbn; rewrite ?length_app; cbn; lia.
Qed.

Definition list_free (q : QueueModelHistoryList) (B : Z) (F : list (Z * Z)) : Prop :=
  _free_interval_list q = F ∧ free_ok (_min_processing_time q) B F ∧ _interleaving_enabled q = false ∧
  1 ≤ zlength F ≤ _max_free_interval_list_size q ∧
  0 ≤ _total_requests_using_analytical_model q < 2 ^ 64.

Lemma incr_neq n : 0 ≤ n < 2 ^ 64 → (u64 (n + 1) =? n) = false.
Proof.
  intros H. apply Z.eqb_neq. unfold u64, uint. destruct (decide (n + 1 = 2 ^ 64)) as [E|].
  - rewrite E. change (2 ^ 64 `mod` 2 ^ 64) with 0. lia.
  - rewrite Z.mod_small; lia.
Qed.

Lemma computeUsingHistoryList_spec q B F pkt proc :
  list_free q B F → 0 ≤ pkt → 0 < proc → Z.max B pkt + proc < 2 ^ 62 →
  succeeds (computeUsingHistoryList pkt proc) q (λ d q', ∃ F',
    q' = q <| _free_interval_list := F' |> ∧ list_free q' (Z.max B pkt + proc) F' ∧
    served (_min_processing_time q) (_max_free_interval_list_size q + 1) pkt proc F d true F').
Proof.
  intros (EF & Hok & Hi & Hlen & Hcnt) Hp Hpr HB.
  destruct (allocate_total _ _ pkt proc _ Hok HB) as [[d F1] Ea].
  pose proof (allocate_ok _ _ pkt proc _ Hok Hp Hpr HB _ _ Ea) as Hok1.
  pose proof (allocate_length _ _ _ _ _ _ Ea) as Hl1.
  unfold computeUsingHistoryList. do 2 run1. cbv beta delta [id]. run1.
  rewrite EF, Hi. apply runs_assert; [apply Z.leb_le; lia|].
  rewrite (scan_spec _ _ _ _ _ _ _ Hok Hp Hpr HB Ea). do 2 run1. run1.
  destruct (free_last _ _ _ Hok1) as (b & Hlast & _).
  assert (1 ≤ length F1)%nat as Hne by (destruct F1; [done|cbn; lia]). unfold zlength in *.
  destruct (_ >? _) eqn:E; breflect.
  - exists (tail F1). split_and!; [done| |].
    + split_and!; try done; cbn; [by apply free_tail; [|lia]|..];
        destruct F1; cbn in *; unfold zlength in *; cbn in *; lia.
    + exists F. split; [by left|]. exists F1. split; [done|]. right. split_and!; [lia|unfold zlength; lia|done].
  - exists F1. split_and!; [done| |].
    + split_and!; try done; cbn; unfold zlength; lia.
    + exists F. split; [by left|]. exists F1. split; [done|]. by left.
Qed.

#[global, program] Instance HistoryList_queue : HistoryQueue QueueModelHistoryList := {|
  hq_delay := computeQueueDelay;
  hq_min := _min_processing_time;
  hq_cap := λ q, _max_free_interval_list_size q + 1;
  hq_analytical := _analytical_model_enabled;
  hq_count := _total_requests_using_analytical_model;
  hq_free := list_free
|}.
Next Obligation. by intros q B F (_ & ? & _). Qed.
Next Obligation.
  intros q B F pkt proc Hq Hp Hpr HB. pose proof Hq as (EF & Hok & Hi & Hlen & Hcnt).
  unfold computeQueueDelay. do 2 run1. cbv beta delta [id]. rewrite EF.
  run1. apply runs_assert; [rewrite Z.geb_leb; apply Z.leb_le; lia|].
  destruct F as [|x F]; [unfold zlength in Hlen; cbn in Hlen; lia|].
  run1. eapply runs_lift; [done|]. run1. destruct (_ && _) eqn:E.
  - breflect. run1. run1. destruct (QueueModelMG1.computeQueueDelay _ _ _) as [d|e] eqn:Ed.
    + eapply runs_lift; [done|]. do 2 run1. run1. cbn. rewrite incr_neq by done.
      split_and!; [naive_solver|done..|]. exists (x :: F). split.
      * split_and!; cbn; try done; try (apply u64_range); try lia.
        eapply free_mono; [done|]. pose proof (free_bound _ _ _ Hok). lia.
      * exists (x :: F). split; [by left|done].
    + cbn. split; [done|]. left. by eapply mg1_error.
  - eapply runs_weaken; [by eapply computeUsingHistoryList_spec|done|]. cbv beta.
    intros d q' (F' & -> & Hq' & Hs). do 2 run1. cbn. rewrite Z.eqb_refl.
    split_and!; [done..|]. by exists F'.
Qed.
(** With interleaving a packet takes the rest of the free intervals it passes. *)
Lemma free_cons min B C x F z r :
  free_ok min B (x :: F) → free_ok min C r → (∀ y, y ∈ r → ∃ w, w ∈ F ∧ w.1 ≤ y.1) →
  x.1 ≤ z.1 ≤ z.2 → z.2 ≤ x.2 → free_ok min C (keep min z ++ r).
Proof.
  intros [Hm _ [Hg _]%StronglySorted_cons [Lx _]%Forall_cons _] [_ HC Hs Hl (b & Hlast & Hb)] Hr Hz1 Hz2.
  rewrite Forall_forall in Hg. unfold UINT64_MAX in Lx. rewrite keep_kept by lia. unfold kept.
  destruct (min <=? z.2 - z.1) eqn:E; [|by split; eauto]. breflect. cbn. split; [done|done|..].
  - apply StronglySorted_cons. split; [|done]. apply Forall_forall. intros y Hy. destruct (Hr y Hy) as (w & Hw & ?).
    specialize (Hg w Hw). lia.
  - apply Forall_cons. unfold UINT64_MAX. split; [lia|done].
  - exists b. split; [|done]. destruct r; [done|]. by rewrite last_cons_cons.
Qed.

Lemma scan_interleaved min B C F : ∀ pkt proc d,
  free_ok min B F → 0 ≤ pkt → 0 < proc → Z.max B pkt + proc ≤ C < 2 ^ 62 →
  let r := (scan min true pkt proc d F).2 in
  free_ok min C r ∧ (length r ≤ S (length F))%nat ∧ ∀ y, y ∈ r → ∃ x, x ∈ F ∧ x.1 ≤ y.1 ∧ y.2 ≤ x.2.
Proof.
  induction F as [|x F IH]; intros pkt proc d Hok Hp Hpr HC; [by destruct (free_last _ _ _ Hok) as (? & ? & _)|].
  pose proof (free_start _ _ _ x Hok ltac:(left)) as Hx. pose proof (free_min _ _ _ Hok) as Hm.
  pose proof (free_long _ _ _ Hok) as [Lx _]%Forall_cons. unfold UINT64_MAX in Lx.
  destruct (decide (fits (pkt, pkt + proc) x)) as [Hf|Hf].
  { assert (allocate min pkt proc (x :: F) = Some (Z.max pkt x.1 - pkt, carve min pkt proc x ++ F)) as Ea
      by (cbn; by rewrite decide_True).
    assert ((scan min true pkt proc d (x :: F)).2 = (scan min false pkt proc 0 (x :: F)).2) as ->.
    { cbn [scan]. rewrite (u64_small (pkt + proc)), (u64_small (x.1 + proc)), Z.geb_leb by lia.
      unfold fits in Hf. cbn in Hf. destruct (x.1 <=? pkt) eqn:E; breflect; cbn [andb].
      - by rewrite (proj2 (Z.leb_le (pkt + proc) _)) by lia.
      - by rewrite (proj2 (Z.ltb_lt _ _)), (proj2 (Z.leb_le (x.1 + proc) _)) by lia. }
    rewrite (scan_spec min B pkt proc (x :: F) _ _ Hok Hp Hpr ltac:(lia) Ea). cbn [snd].
    split_and!; [|by eapply allocate_length|by eapply allocate_slot].
    eapply free_mono; [apply (allocate_ok min B pkt proc _ Hok Hp Hpr ltac:(lia) _ _ Ea)|lia]. }
  assert (F ≠ []) as HF.
  { intros ->. destruct (free_last _ _ _ Hok) as (b & [= ->] & Hb). apply Hf. unfold fits, UINT64_MAX. cbn in *. lia. }
  assert (free_ok min B F) as Hok1 by (apply (free_tail _ _ (x :: F) Hok); destruct F; [done|cbn; lia]).
  assert (x.2 < B) as Hx2.
  { destruct F as [|y F]; [done|]. pose proof (free_start _ _ _ y Hok1 ltac:(left)).
    pose proof (free_gaps _ _ _ Hok) as [Hg _]%StronglySorted_cons. apply Forall_cons in Hg as [Hg _]. lia. }
  assert (∀ z pkt' proc' d', 0 ≤ pkt' → 0 < proc' → Z.max B pkt' + proc' ≤ C → x.1 ≤ z.1 ≤ z.2 → z.2 ≤ x.2 →
    let r := (keep min z ++ (scan min true pkt' proc' d' F).2) in
    free_ok min C r ∧ (length r ≤ S (length (x :: F)))%nat ∧ ∀ y, y ∈ r → ∃ w, w ∈ x :: F ∧ w.1 ≤ y.1 ∧ y.2 ≤ w.2) as Hnext.
  { intros z pkt' proc' d' H1 H2 H3 Hz1 Hz2. destruct (IH pkt' proc' d' Hok1 H1 H2 ltac:(lia)) as (I1 & I2 & I3). split_and!.
    - eapply free_cons; [exact Hok|exact I1| |done..]. intros y Hy. destruct (I3 y Hy) as (w & Hw & ? & _). by exists w.
    - rewrite length_app. unfold keep. destruct (_ >=? _); cbn in *; lia.
    - intros y [Hy|Hy]%elem_of_app.
      + exists x. unfold keep in Hy. destruct (_ >=? _); [|by apply elem_of_nil in Hy].
        apply list_elem_of_singleton in Hy as ->. split; [left|lia].
      + destruct (I3 y Hy) as (w & Hw & ?). exists w. split; [by right|done]. }
  cbn [scan]. rewrite (u64_small (pkt + proc)), (u64_small (x.1 + proc)), !Z.geb_leb by lia. unfold fits in Hf. cbn in Hf.
  assert ((x.1 <=? pkt) && (pkt + proc <=? x.2) = false) as -> by (apply andb_false_iff; rewrite !Z.leb_gt; lia).
  assert ((pkt <? x.1) && (x.1 + proc <=? x.2) = false) as -> by (apply andb_false_iff; rewrite Z.leb_gt, Z.ltb_ge; lia).
  destruct (x.1 <=? pkt) eqn:E1; cbn [andb]; breflect; [destruct (pkt <? x.2) eqn:E2; breflect|].
  - rewrite Z.sub_diag, Z.sub_0_r, u64_small by lia.
    specialize (Hnext (x.1, pkt) x.2 proc d ltac:(lia) Hpr ltac:(lia)). cbn [fst snd] in Hnext.
    specialize (Hnext ltac:(lia) ltac:(lia)). by destruct (scan _ _ _ _ _ F).
  - rewrite (proj2 (Z.ltb_ge _ _)) by lia.
    specialize (Hnext x pkt proc d Hp Hpr ltac:(lia) ltac:(lia) ltac:(lia)).
    rewrite keep_kept in Hnext by lia. unfold kept in Hnext. rewrite (proj2 (Z.leb_le _ _)) in Hnext by lia.
    by destruct (scan _ _ _ _ _ F).
  - rewrite (proj2 (Z.ltb_lt _ _)) by lia. rewrite (u64_small (proc - _)) by lia.
    specialize (Hnext (x.1, x.1) x.2 (proc - (x.2 - x.1)) (u64 (d + (x.1 - pkt))) ltac:(lia) ltac:(lia) ltac:(lia)).
    cbn [fst snd] in Hnext. specialize (Hnext ltac:(lia) ltac:(lia)).
    unfold keep in Hnext. cbn [fst snd] in Hnext. rewrite Z.sub_diag, u64_small, Z.geb_leb, (proj2 (Z.leb_gt min 0)) in Hnext by lia.
    by destruct (scan _ _ _ _ _ F).
Qed.

Definition interleaved_free (q : QueueModelHistoryList) (B : Z) : Prop :=
  free_ok (_min_processing_time q) B (_free_interval_list q) ∧ _interleaving_enabled q = true ∧
  1 ≤ zlength (_free_interval_list q) ≤ _max_free_interval_list_size q.

Lemma interleaved_serve q B pkt proc :
  interleaved_free q B → 0 ≤ pkt → 0 < proc → Z.max B pkt + proc < 2 ^ 62 →
  runs (λ e, _analytical_model_enabled q = true ∧ analytical_error e) (computeQueueDelay pkt proc) q (λ _ q',
    interleaved_free q' (Z.max B pkt + proc) ∧ _analytical_model_enabled q' = _analytical_model_enabled q ∧
    _min_processing_time q' = _min_processing_time q).
Proof.
  intros (Hok & Hi & Hlen) Hp Hpr HB. unfold computeQueueDelay. do 2 run1. cbv beta delta [id].
  run1. apply runs_assert; [rewrite Z.geb_leb; apply Z.leb_le; lia|].
  destruct (_free_interval_list q) as [|x F] eqn:EF; [unfold zlength in Hlen; cbn in Hlen; lia|].
  run1. eapply runs_lift; [done|]. run1. destruct (_ && _) eqn:E.
  - breflect. run1. run1. destruct (QueueModelMG1.computeQueueDelay _ _ _) as [d|e] eqn:Ed.
    + eapply runs_lift; [done|]. do 2 run1. run1. split; [|done]. unfold interleaved_free. cbn. rewrite EF.
      split_and!; [|done|lia..]. eapply free_mono; [done|]. pose proof (free_bound _ _ _ Hok). lia.
    + cbn. split; [done|]. left. by eapply mg1_error.
  - unfold computeUsingHistoryList. do 2 run1. cbv beta delta [id]. rewrite EF, Hi. run1.
    apply runs_assert; [apply Z.leb_le; lia|].
    destruct (scan_interleaved _ B (Z.max B pkt + proc) _ pkt proc 0 Hok Hp Hpr ltac:(lia)) as (H1 & H2 & _).
    destruct (scan _ _ _ _ _ _) as [d r]. cbn [snd] in H1, H2. do 5 run1. split; [|done]. unfold interleaved_free. cbn.
    destruct (free_last _ _ _ H1) as (b & Hlast & _). assert (1 ≤ length r)%nat as Hne by (destruct r; [done|cbn; lia]).
    unfold zlength in *. cbn [length] in *. destruct (_ >? _) eqn:E1; breflect; (split_and!; [|done|..]).
    + apply free_tail; [done|lia].
    + destruct r; cbn in *; lia.
    + destruct r; cbn in *; lia.
    + done.
    + lia.
    + lia.
Qed.
End list.

(** ** The tree *)

Section tree.
Import QueueModelHistoryTree.

(** The pool: the blocks of the stack up to its top are those not in the tree. *)
Record pool (q : QueueModelHistoryTree) (X : list nat) : Prop := {
  pool_length : zlength (_free_memory_block_list q) = _max_free_interval_size q;
  pool_tail : _free_memory_block_list_tail q = _max_free_interval_size q - 1 - zlength X;
  pool_nodup : NoDup (take (Z.to_nat (_free_memory_block_list_tail q + 1)) (_free_memory_block_list q));
  pool_free i : i ∈ take (Z.to_nat (_free_memory_block_list_tail q + 1)) (_free_memory_block_list q) →
    0 ≤ i < _max_free_interval_size q ∧ Z.to_nat i ∉ X;
  pool_used a : a ∈ X → Z.of_nat a < _max_free_interval_size q;
  pool_size : zlength X ≤ _max_free_interval_size q;
  pool_blocks a : is_Some (IntervalTree._nodes (_interval_tree q) !! a) ↔ Z.of_nat a < _max_free_interval_size q
}.

Definition tree_inv (q : QueueModelHistoryTree) (L : list (nat * (Z * Z))) : Prop :=
  repr (_interval_tree q) L ∧ pool q L.*1 ∧ 2 ≤ _max_free_interval_size q < 2 ^ 29.

(** The fields that the operations on the tree leave alone. *)
Record same (q q' : QueueModelHistoryTree) : Prop := {
  same_queue : _queue q' = _queue q;
  same_mg1 : _queue_model_m_g_1 q' = _queue_model_m_g_1 q;
  same_analytical : _analytical_model_enabled q' = _analytical_model_enabled q;
  same_min : _min_processing_time q' = _min_processing_time q;
  same_max : _max_free_interval_size q' = _max_free_interval_size q;
  same_count : _total_requests_using_analytical_model q' = _total_requests_using_analytical_model q
}.
Lemma same_refl q : same q q.
Proof. by split. Qed.
Lemma same_trans q1 q2 q3 : same q1 q2 → same q2 q3 → same q1 q3.
Proof. intros [] []. split; congruence. Qed.

Lemma taken_perm L1 a iv L2 b L' :
  taken L1 a L2 b L' → b :: L'.*1 ≡ₚ (L1 ++ (a, iv) :: L2).*1 ∧ L'.*2 = L1.*2 ++ L2.*2.
Proof.
  intros [[-> ->]|(ivb & L2' & -> & ->)]; rewrite !fmap_app; cbn; split; try done.
  - by rewrite Permutation_middle.
  - rewrite Permutation_middle. apply Permutation_app_head. apply Permutation_swap.
Qed.

Lemma take_push (l : list Z) t x :
  0 ≤ t < zlength l → take (Z.to_nat (t + 1)) (zinsert t x l) = take (Z.to_nat t) l ++ [x].
Proof.
  unfold zlength. intros H. unfold zinsert. rewrite (proj2 (Z.leb_le 0 t)) by lia.
  replace (Z.to_nat (t + 1)) with (S (Z.to_nat t)) by lia.
  rewrite (take_S_r _ _ x) by (apply list_lookup_insert_eq; lia). by rewrite take_insert_ge by lia.
Qed.

(** A block returned to the pool. *)
Lemma releaseNode_spec q X b X' :
  pool q X → b :: X' ≡ₚ X → NoDup X →
  succeeds (releaseNode (Some b)) q (λ _ q',
    pool q' X' ∧ _interval_tree q' = _interval_tree q ∧ same q q').
Proof.
  intros [P1 P2 P3 P4 P5 P6 P7] HX HN. assert (b ∈ X) as Hb by (rewrite <- HX; left).
  pose proof (P5 b Hb) as Hbm. rewrite <- HX in HN. apply NoDup_cons in HN as [HbX HN].
  assert (zlength X = zlength X' + 1) as Hlen by (unfold zlength; rewrite <- HX; cbn; lia).
  assert (0 ≤ zlength X') by (unfold zlength; lia).
  unfold releaseNode. run1. eapply runs_lift; [done|]. do 2 run1. cbv beta delta [id].
  run1. apply runs_assert; [rewrite andb_true_iff, Z.geb_leb, Z.leb_le, Z.ltb_lt; lia|].
  do 4 run1. cbv beta delta [id]. run1. apply runs_assert; [cbn; apply Z.ltb_lt; lia|].
  run1. eapply runs_lift; [apply vset_Ok; split; [cbn; lia|done]|]. run1.
  assert (take (Z.to_nat (_free_memory_block_list_tail q + 1 + 1))
            (zinsert (_free_memory_block_list_tail q + 1) (Z.of_nat b) (_free_memory_block_list q)) =
          take (Z.to_nat (_free_memory_block_list_tail q + 1)) (_free_memory_block_list q) ++ [Z.of_nat b]) as Et.
  { apply take_push. lia. }
  split_and!; [|done|by split]. split; cbn.
  - by rewrite zlength_zinsert.
  - lia.
  - rewrite Et. apply NoDup_app. split_and!; [done| |apply NoDup_singleton].
    intros i Hi ->%list_elem_of_singleton. apply P4 in Hi as [_ []]. by rewrite Nat2Z.id.
  - rewrite Et. intros i [Hi| ->%list_elem_of_singleton]%elem_of_app.
    + apply P4 in Hi as [? Hi]. split; [done|]. rewrite <- HX, elem_of_cons in Hi. tauto.
    + rewrite Nat2Z.id. split; [lia|done].
  - intros a Ha. apply P5. rewrite <- HX. by right.
  - lia.
  - done.
Qed.

Lemma runs_in_tree {A} (m : M IntervalTree.IntervalTree A) q (Q : A → QueueModelHistoryTree → Prop) :
  succeeds m (_interval_tree q) (λ a t, Q a (q <| _interval_tree := t |>)) → succeeds (in_tree m) q Q.
Proof. intros H. by apply runs_zoom. Qed.

Lemma pool_tree q X t :
  pool q X → dom (IntervalTree._nodes t) = dom (IntervalTree._nodes (_interval_tree q)) →
  pool (q <| _interval_tree := t |>) X.
Proof.
  intros [P1 P2 P3 P4 P5 P6 P7] E. split; cbn; try done. intros a.
  by rewrite <- elem_of_dom, E, elem_of_dom.
Qed.

(** A node taken out of the tree and returned to the pool. *)
Lemma remove_release q L1 a iv L2 :
  tree_inv q (L1 ++ (a, iv) :: L2) →
  succeeds (p ← in_tree (IntervalTree.remove (Some a)) ; releaseNode p) q (λ _ q', ∃ L',
    tree_inv q' L' ∧ L'.*2 = L1.*2 ++ L2.*2 ∧ same q q').
Proof.
  intros (HR & HP & Hmax). pose proof (repr_nodup _ _ HR) as HN. run1. apply runs_in_tree.
  eapply runs_mono; [by apply remove_spec|]. cbv beta. intros p t (b & L' & -> & Ht & HR' & Hd & _).
  destruct (taken_perm _ _ iv _ _ _ Ht) as [Hp E2].
  eapply runs_mono; [eapply releaseNode_spec; [by apply pool_tree|exact Hp|exact HN]|].
  cbv beta. intros _ q' (HP' & Et & Hs). exists L'. destruct Hs. cbn in *. split_and!; [|done|by split].
  split_and!; [by rewrite Et|done|lia..].
Qed.

Lemma partition_unique {A} (P Q : A → Prop) (L1 L2 K1 K2 : list A) :
  (∀ x, P x → Q x → False) → L1 ++ L2 = K1 ++ K2 →
  Forall P L1 → Forall Q L2 → Forall P K1 → Forall Q K2 → L1 = K1 ∧ L2 = K2.
Proof.
  intros Hd. revert K1. induction L1 as [|x L1 IH]; intros [|y K1] E F1 F2 G1 G2; cbn in E; simplify_eq.
  - done.
  - apply Forall_cons in G1 as [? _], F2 as [? _]. by destruct (Hd y).
  - apply Forall_cons in G2 as [? _], F1 as [? _]. by destruct (Hd x).
  - apply Forall_cons in F1 as [_ ?], G1 as [_ ?]. by destruct (IH K1) as [-> ->].
Qed.

(** A new node between two others. *)
Lemma allocate_insert q L1 L2 iv :
  tree_inv q (L1 ++ L2) → L1 ≠ [] → zlength (L1 ++ L2) < _max_free_interval_size q →
  Forall (λ x, x.2.1 < iv.1) L1 → Forall (λ x, iv.1 < x.2.1) L2 →
  succeeds (p ← allocateNode iv ; in_tree (IntervalTree.insert p)) q (λ _ q', ∃ a,
    tree_inv q' (L1 ++ (a, iv) :: L2) ∧ same q q').
Proof.
  intros (HR & [P1 P2 P3 P4 P5 P6 P7] & Hmax) Hne Hlen F1 F2. unfold allocateNode.
  assert (zlength (L1 ++ L2).*1 = zlength (L1 ++ L2)) as El by (unfold zlength; by rewrite length_fmap).
  assert (0 ≤ zlength (L1 ++ L2)) by (unfold zlength; lia).
  run1. do 2 run1. cbv beta delta [id]. run1. apply runs_assert; [rewrite Z.geb_leb; apply Z.leb_le; lia|].
  destruct (zlookup_is_Some (_free_memory_block_list q) (_free_memory_block_list_tail q)) as [i Hi]; [lia|].
  run1. eapply runs_lift; [by apply vget_Ok|].
  destruct (zlookup_Some _ _ _ Hi) as [Hti Hin].
  assert (take (Z.to_nat (_free_memory_block_list_tail q + 1)) (_free_memory_block_list q) =
    take (Z.to_nat (_free_memory_block_list_tail q)) (_free_memory_block_list q) ++ [i]) as Et.
  { replace (Z.to_nat (_free_memory_block_list_tail q + 1)) with (S (Z.to_nat (_free_memory_block_list_tail q))) by lia.
    by apply take_S_r. }
  rewrite Et in P3, P4. destruct (P4 i) as [Hir Hif]; [apply elem_of_app; right; left|].
  set (a := Z.to_nat i) in *.
  destruct (proj2 (P7 a)) as [n Hn]; [lia|].
  run1. apply runs_in_tree. destruct (_interval_tree q) as [m root sz] eqn:Etree.
  eapply runs_update; [exact Hn|]. do 2 run1. run1. apply runs_in_tree. cbn [_interval_tree over].
  apply (repr_frame _ _ a (IntervalTree.initialize (iv.1, iv.2))) in HR; [|done]. rewrite <- surjective_pairing in HR |- *.
  eapply runs_mono; [eapply (insert_spec a iv _ (L1 ++ L2)); [exact HR|by destruct L1|apply lookup_insert_eq|done|..]|].
  { apply Forall_app. split; [eapply Forall_impl; [exact F1|]|eapply Forall_impl; [exact F2|]]; cbn; lia. }
  { lia. }
  cbv beta. intros _ t (K1 & K2 & EK & G1 & G2 & HR' & Hd & _).
  destruct (partition_unique (λ x, x.2.1 < iv.1) (λ x, iv.1 < x.2.1) L1 L2 K1 K2) as [<- <-]; try done; [intros; lia|].
  exists a. split; [|by split]. split_and!; [exact HR'| |cbn; lia..].
  assert (zlength (L1 ++ (a, iv) :: L2).*1 = zlength (L1 ++ L2) + 1) as El'.
  { unfold zlength. rewrite length_fmap, !length_app. cbn. lia. }
  apply NoDup_app in P3 as (N1 & N2 & _).
  assert (∀ b, b ∈ (L1 ++ (a, iv) :: L2).*1 ↔ b = a ∨ b ∈ (L1 ++ L2).*1) as Hmem.
  { intros b. rewrite !fmap_app, !elem_of_app. cbn. rewrite elem_of_cons. tauto. }
  split; cbn; [done|lia|..].
  - by replace (_free_memory_block_list_tail q - 1 + 1) with (_free_memory_block_list_tail q) by lia.
  - replace (_free_memory_block_list_tail q - 1 + 1) with (_free_memory_block_list_tail q) by lia.
    intros j Hj. destruct (P4 j) as [? Hjn]; [apply elem_of_app; by left|]. split; [done|].
    rewrite Hmem. intros [Hja|?]; [|done]. apply (N2 j Hj). assert (j = i) as -> by lia. left.
  - intros b [->|?]%Hmem; [lia|by apply P5].
  - lia.
  - intros b. rewrite <- P7. rewrite <- !elem_of_dom, Hd. cbn. rewrite dom_insert_lookup_L by done. done.
Qed.

Lemma tree_inv_set q L1 a iv L2 iv' t n :
  tree_inv q (L1 ++ (a, iv) :: L2) → StronglySorted by_key (L1 ++ (a, iv') :: L2) →
  IntervalTree._nodes (_interval_tree q) !! a = Some n →
  t = with_node a (n <| IntervalTree.key := iv'.1 |> <| IntervalTree.interval := iv' |>) (_interval_tree q) →
  tree_inv (q <| _interval_tree := t |>) (L1 ++ (a, iv') :: L2) ∧ same q (q <| _interval_tree := t |>).
Proof.
  intros (HR & HP & Hmax) Hs Hn ->. split; [|by split]. split_and!; [| |cbn; lia..].
  - by eapply repr_set_interval.
  - replace (L1 ++ (a, iv') :: L2).*1 with (L1 ++ (a, iv) :: L2).*1 by (by rewrite !fmap_app).
    apply pool_tree; [done|]. cbn. by apply dom_insert_lookup_L.
Qed.

(** The end of a free interval moves. *)
Lemma set_interval_spec q L1 a iv L2 f :
  tree_inv q (L1 ++ (a, iv) :: L2) → (f iv).1 = iv.1 →
  succeeds (in_tree (set_interval (Some a) f)) q (λ _ q',
    tree_inv q' (L1 ++ (a, f iv) :: L2) ∧ same q q').
Proof.
  intros HT Hf. pose proof HT as (HR & _). pose proof (repr_sorted _ _ HR) as Hs.
  destruct (repr_node _ _ a iv HR) as (p & l & r & h & Hn); [apply elem_of_app; right; left|].
  apply runs_in_tree. unfold set_interval. destruct (_interval_tree q) as [m root sz] eqn:E.
  eapply runs_update; [exact Hn|]. eapply tree_inv_set; [exact HT| |by rewrite E|].
  - apply StronglySorted_app in Hs as (H1 & H2 & [H3 H4]%StronglySorted_cons). apply StronglySorted_app.
    split_and!; [|done|apply StronglySorted_cons; cbn; by rewrite Hf].
    intros x y Hx [->|Hy]%elem_of_cons; [|apply H1; [done|by right]].
    cbn. rewrite Hf. by apply (H1 x (a, iv) Hx ltac:(left)).
  - rewrite E. unfold with_node. cbn. by rewrite Hf.
Qed.

(** The start of a free interval, and with it its key, moves. *)
Lemma set_interval_key_spec q L1 a iv L2 f :
  tree_inv q (L1 ++ (a, iv) :: L2) → StronglySorted by_key (L1 ++ (a, f iv) :: L2) →
  succeeds (in_tree (set_interval (Some a) f ;; set_key (Some a))) q (λ _ q',
    tree_inv q' (L1 ++ (a, f iv) :: L2) ∧ same q q').
Proof.
  intros HT Hs. pose proof HT as (HR & _).
  destruct (repr_node _ _ a iv HR) as (p & l & r & h & Hn); [apply elem_of_app; right; left|].
  apply runs_in_tree. unfold set_interval, set_key. destruct (_interval_tree q) as [m root sz] eqn:E.
  run1. eapply runs_update; [exact Hn|]. eapply runs_update; [by lk|]. rewrite insert_insert_eq.
  eapply tree_inv_set; [exact HT|done|by rewrite E|by rewrite E].
Qed.

Lemma first_fit_Some iv L x :
  first_fit iv L = Some x →
  ∃ L1 L2, L = L1 ++ x :: L2 ∧ Forall (λ y, ¬ fits iv y.2) L1 ∧ fits iv x.2.
Proof.
  induction L as [|y L IH]; [done|]. rewrite first_fit_cons. case_decide as Hf.
  - intros [= ->]. by exists [], L.
  - intros (L1 & L2 & -> & F1 & Hx)%IH. exists (y :: L1), L2. split_and!; try done. by apply Forall_cons.
Qed.

Lemma Forall_snd (P : Z * Z → Prop) (L : list (nat * (Z * Z))) : Forall P L.*2 ↔ Forall (λ x, P x.2) L.
Proof. by rewrite Forall_fmap. Qed.

Lemma gaps_keys (L : list (nat * (Z * Z))) :
  StronglySorted gap L.*2 → Forall (λ x, x.1 ≤ x.2) L.*2 → StronglySorted by_key L.
Proof.
  induction L as [|x L IH]; cbn; [constructor|]. intros [H1 H2]%StronglySorted_cons [H3 H4]%Forall_cons.
  apply StronglySorted_cons. split; [|by apply IH]. rewrite Forall_fmap in H1.
  eapply Forall_impl; [exact H1|]. intros y Hy. cbn in *. lia.
Qed.

Lemma free_keys min B (L : list (nat * (Z * Z))) : free_ok min B L.*2 → StronglySorted by_key L.
Proof.
  intros [Hm _ Hg Hl _]. apply gaps_keys; [done|]. eapply Forall_impl; [exact Hl|]. cbn. lia.
Qed.

(** The interval of a node is cut at its start, or given up. *)
Lemma shrink_spec q L1 a iv L2 min B s f :
  tree_inv q (L1 ++ (a, iv) :: L2) → f iv = (s, iv.2) →
  free_ok min B (L1.*2 ++ kept min (s, iv.2) ++ L2.*2) →
  succeeds (if min <=? iv.2 - s then in_tree (set_interval (Some a) f ;; set_key (Some a))
            else p ← in_tree (IntervalTree.remove (Some a)) ; releaseNode p) q (λ _ q', ∃ L',
    tree_inv q' L' ∧ L'.*2 = L1.*2 ++ kept min (s, iv.2) ++ L2.*2 ∧ same q q').
Proof.
  intros HT Ef Hok. unfold kept in *. cbn in *. destruct (_ <=? _) eqn:E.
  - eapply runs_mono; [eapply set_interval_key_spec; [exact HT|]|].
    + rewrite Ef. eapply free_keys. rewrite fmap_app. exact Hok.
    + cbv beta. intros _ q' [HT' Hs]. eexists. split_and!; [exact HT'| |done]. rewrite Ef, fmap_app. done.
  - eapply runs_mono; [by eapply remove_release|]. cbv beta. intros _ q' (L' & HT' & E' & Hs).
    by exists L'.
Qed.

(** The rest of an interval behind a slot becomes a node of its own. *)
Lemma insert_rest q L1 a iv L2 min B e :
  tree_inv q (L1 ++ (a, iv) :: L2) → free_ok min B (L1 ++ (a, iv) :: L2).*2 →
  iv.1 < e → e ≤ iv.2 → zlength (L1 ++ (a, iv) :: L2) < _max_free_interval_size q →
  succeeds (when (min <=? iv.2 - e) (p ← allocateNode (e, iv.2) ; in_tree (IntervalTree.insert p))) q
    (λ _ q', ∃ K, tree_inv q' (L1 ++ (a, iv) :: K ++ L2) ∧ K.*2 = kept min (e, iv.2) ∧ same q q').
Proof.
  intros HT [Hm _ Hg Hl _] H1 H2 Hlen. rewrite fmap_app in Hg, Hl. cbn in Hg, Hl.
  apply StronglySorted_app in Hg as (Hg1 & _ & [Hg2 _]%StronglySorted_cons).
  rewrite Forall_app in Hl. destruct Hl as [Hl1 _]. rewrite Forall_forall in Hl1. rewrite Forall_fmap in Hg2.
  unfold kept. cbn. apply runs_when; intros E; rewrite E.
  - eapply runs_mono; [apply (allocate_insert q (L1 ++ [(a, iv)]) L2)|].
    + by rewrite <- (assoc_L (++)).
    + by destruct L1.
    + by rewrite <- (assoc_L (++)).
    + apply Forall_app. split; [|by apply Forall_singleton]. apply Forall_forall. intros x Hx. cbn.
      apply (list_elem_of_fmap_2 snd) in Hx. specialize (Hg1 _ iv Hx ltac:(left)). specialize (Hl1 _ Hx). lia.
    + eapply Forall_impl; [exact Hg2|]. cbn. intros x Hx. lia.
    + cbv beta. intros _ q' (b & HT' & Hs). exists [(b, (e, iv.2))]. split_and!; [|done..].
      by rewrite <- (assoc_L (++)) in HT'.
  - exists []. split_and!; [done|done|apply same_refl].
Qed.

(** [occupy] gives the packet the slot the reference allocator gives it. *)
Lemma occupy_spec q L B pkt proc a iv :
  tree_inv q L → free_ok (_min_processing_time q) B L.*2 →
  0 ≤ pkt → 0 < proc → Z.max B pkt + proc < 2 ^ 62 → zlength L < _max_free_interval_size q →
  first_fit (pkt, pkt + proc) L = Some (a, iv) →
  succeeds (occupy (Some a) pkt proc) q (λ d q', ∃ L',
    tree_inv q' L' ∧ allocate (_min_processing_time q) pkt proc L.*2 = Some (d, L'.*2) ∧ same q q').
Proof.
  intros HT Hok Hp Hpr HB Hlen Hff.
  destruct (first_fit_Some _ _ _ Hff) as (L1 & L2 & -> & FL1 & Hfit). cbn in Hfit.
  set (min := _min_processing_time q) in *.
  assert (iv ∈ (L1 ++ (a, iv) :: L2).*2) as Hin by (rewrite fmap_app; apply elem_of_app; right; left).
  pose proof (free_start _ _ _ iv Hok Hin) as Hst. pose proof (free_min _ _ _ Hok) as Hmin.
  pose proof (free_long _ _ _ Hok) as Hl. rewrite Forall_forall in Hl. specialize (Hl _ Hin). unfold UINT64_MAX in Hl.
  assert (∀ d F', d = Z.max pkt iv.1 - pkt → F' = L1.*2 ++ carve min pkt proc iv ++ L2.*2 →
    allocate min pkt proc (L1 ++ (a, iv) :: L2).*2 = Some (d, F')) as Ha.
  { intros d F' -> ->. apply allocate_Some. exists L1.*2, iv, L2.*2.
    split_and!; [by rewrite fmap_app|by apply Forall_snd|done..]. }
  pose proof (λ d F' E1 E2, allocate_ok _ _ pkt proc _ Hok Hp Hpr HB d F' (Ha d F' E1 E2)) as Hok'.
  unfold fits in Hfit. cbn in Hfit. unfold carve, kept in Ha, Hok'. cbn in Ha, Hok'.
  pose proof HT as (HR & _).
  destruct (repr_node _ _ a iv HR) as (np & nl & nr & nh & Hn); [apply elem_of_app; right; left|].
  unfold occupy. do 2 run1. cbv beta delta [id]. run1. apply runs_in_tree.
  destruct (_interval_tree q) as [m root sz] eqn:Et. eapply runs_deref; [exact Hn|]. cbn [IntervalTree.interval].
  rewrite <- Et. replace (q <| _interval_tree := _interval_tree q |>) with q by (by destruct q).
  rewrite (u64_small (pkt + proc)) by lia.
  run1. apply runs_assert; [apply Z.leb_le; lia|]. fold min.
  rewrite !Z.geb_leb. destruct (iv.1 <=? pkt) eqn:E1; breflect.
  - rewrite (Z.max_l pkt iv.1) in Ha, Hok' by lia. rewrite (u64_small (pkt - iv.1)), (u64_small (iv.2 - _)) by lia.
    destruct (min <=? pkt - iv.1) eqn:E2; [run1; run1|].
    + eapply runs_mono; [eapply insert_rest; [done|exact Hok|lia|lia|done]|]. cbv beta. intros _ q1 (K & HT1 & EK & Hs1).
      eapply runs_mono; [by eapply set_interval_spec|]. cbv beta. intros _ q2 [HT2 Hs2]. run1.
      eexists. split_and!; [exact HT2| |by eapply same_trans]. apply Ha; [lia|].
      rewrite !fmap_app. cbn. rewrite fmap_app, EK. unfold kept. cbn. done.
    + run1. eapply runs_mono; [eapply (shrink_spec q L1 a iv L2 min _ (pkt + proc)); [exact HT|done|]|].
      * eapply Hok'; [reflexivity|]. unfold kept. cbn. done.
      * cbv beta. intros _ q' (L' & HT' & E' & Hs). run1. exists L'. split_and!; [done| |done].
        apply Ha; [lia|]. rewrite E'. unfold kept. cbn. done.
  - rewrite (Z.max_r pkt iv.1) in Ha, Hok' by lia. rewrite (proj2 (Z.leb_gt min (iv.1 - iv.1))) in Ha, Hok' by lia.
    rewrite (u64_small (iv.1 + proc)), (u64_small (iv.2 - _)) by lia.
    run1. eapply runs_mono; [eapply (shrink_spec q L1 a iv L2 min _ (iv.1 + proc)); [exact HT| |]|].
    + cbn. by rewrite u64_small by lia.
    + eapply Hok'; [reflexivity|]. unfold kept. cbn. done.
    + cbv beta. intros _ q' (L' & HT' & E' & Hs). run1. exists L'. split_and!; [done| |done].
      apply Ha; [lia|]. rewrite E'. unfold kept. cbn. done.
Qed.

Definition tree_free (q : QueueModelHistoryTree) (B : Z) (F : list (Z * Z)) : Prop :=
  ∃ L, tree_inv q L ∧ L.*2 = F ∧ free_ok (_min_processing_time q) B F ∧
    0 ≤ _total_requests_using_analytical_model q < 2 ^ 64.

Lemma free_apart min B (L : list (nat * (Z * Z))) :
  free_ok min B L.*2 → Forall (λ x, in_range x.2) L ∧ StronglySorted apart L.
Proof.
  intros [Hm _ Hg Hl _]. split.
  - apply Forall_snd. eapply Forall_impl; [exact Hl|]. unfold in_range, UINT64_MAX. cbn. lia.
  - clear Hl. induction L as [|x L IH]; [constructor|]. cbn in Hg.
    apply StronglySorted_cons in Hg as [H1 H2]. apply StronglySorted_cons.
    split; [by rewrite Forall_fmap in H1|by apply IH].
Qed.

(** The oldest interval is found by searching for the first cycle. *)
Lemma search_oldest q L B :
  tree_inv q L → free_ok (_min_processing_time q) B L.*2 →
  in_tree (IntervalTree.search (0, 1)) q = Ok (fst <$> head L, q).
Proof.
  intros (HR & _) Hok. destruct (free_apart _ _ _ Hok) as [Hr Hs].
  pose proof (free_long _ _ _ Hok) as Hl. pose proof (free_min _ _ _ Hok) as Hm.
  unfold in_tree, zoom. rewrite (search_spec _ L) by (unfold in_range; cbn; (done || lia)).
  replace (q <| _interval_tree := _interval_tree q |>) with q by (by destruct q).
  destruct L as [|x L]; [done|]. rewrite first_fit_cons, decide_True; [done|].
  cbn in Hl. apply Forall_cons in Hl as [Hx _]. unfold fits. cbn. lia.
Qed.

(** The oldest interval is forgotten when the tree is full. *)
Lemma prune_spec q L B p :
  tree_inv q L → free_ok (_min_processing_time q) B L.*2 → p = fst <$> head L →
  succeeds (when (IntervalTree._size (_interval_tree q) >=? u32 (_max_free_interval_size q))
    (p ← in_tree (IntervalTree.remove p) ; releaseNode p)) q (λ _ q', ∃ L',
    tree_inv q' L' ∧ free_ok (_min_processing_time q) B L'.*2 ∧ same q q' ∧
    zlength L' < _max_free_interval_size q ∧
    (L'.*2 = L.*2 ∨ (1 < length L)%nat ∧ _max_free_interval_size q ≤ zlength L ∧ L'.*2 = tail L.*2)).
Proof.
  intros HT Hok ->. pose proof HT as (HR & HP & Hmax). rewrite (repr_size _ _ HR), u32_small by lia.
  pose proof (pool_size _ _ HP) as Hsz.
  assert (zlength L.*1 = zlength L) as El by (unfold zlength; by rewrite length_fmap). rewrite El in Hsz.
  apply runs_when; rewrite Z.geb_leb; intros E; breflect.
  - destruct L as [|[a iv] L]; [unfold zlength in E; cbn in E; lia|].
    assert (1 < length ((a, iv) :: L))%nat as Hlen by (unfold zlength in E; lia).
    eapply runs_mono; [apply (remove_release q [] a iv L); exact HT|].
    cbv beta. intros _ q' (L' & HT' & E' & Hs). cbn in E'. exists L'.
    assert (length L' = length L) as Hl' by (rewrite <- (length_fmap snd L'), E'; apply length_fmap).
    unfold zlength in *. cbn in *. split_and!; [done| |done|lia|right; split_and!; [lia|lia|done]].
    rewrite E'. apply (free_tail _ _ _ Hok). cbn. rewrite length_fmap. lia.
  - exists L. split_and!; [done|done|apply same_refl|lia|by left].
Qed.

Lemma search_fit q L B pkt proc :
  tree_inv q L → free_ok (_min_processing_time q) B L.*2 → 0 ≤ pkt → 0 < proc → Z.max B pkt + proc < 2 ^ 62 →
  ∃ a iv, first_fit (pkt, pkt + proc) L = Some (a, iv) ∧
    in_tree (IntervalTree.search (pkt, pkt + proc)) q = Ok (Some a, q).
Proof.
  intros (HR & _) Hok Hp Hpr HB. destruct (free_apart _ _ _ Hok) as [Hr Hs].
  destruct (allocate_total _ _ pkt proc _ Hok HB) as [[d F'] (F1 & x & F2 & EF & _ & Hx & _)%allocate_Some].
  pose proof (free_bound _ _ _ Hok).
  assert (search_ok : in_tree (IntervalTree.search (pkt, pkt + proc)) q =
    Ok (fst <$> first_fit (pkt, pkt + proc) L, q)).
  { unfold in_tree, zoom. rewrite (search_spec _ L) by (unfold in_range; cbn; (done || lia)).
    by destruct q. }
  destruct (first_fit _ L) as [[a iv]|] eqn:Ef; [by exists a, iv|]. exfalso.
  assert (x ∈ L.*2) as (y & -> & Hy)%list_elem_of_fmap by (rewrite EF; apply elem_of_app; right; left).
  by apply (first_fit_none _ _ _ Ef Hy).
Qed.

Lemma tree_inv_eq q q' L :
  tree_inv q L → _interval_tree q' = _interval_tree q →
  _max_free_interval_size q' = _max_free_interval_size q →
  _free_memory_block_list q' = _free_memory_block_list q →
  _free_memory_block_list_tail q' = _free_memory_block_list_tail q → tree_inv q' L.
Proof.
  intros (HR & [P1 P2 P3 P4 P5 P6 P7] & Hm) E1 E2 E3 E4. unfold tree_inv.
  rewrite E1, E2. split_and!; [done|split; by rewrite ?E1, ?E2, ?E3, ?E4|lia..].
Qed.

Lemma in_tree_deref q a n :
  IntervalTree._nodes (_interval_tree q) !! a = Some n →
  in_tree (IntervalTree.deref (Some a)) q = Ok (n, q).
Proof.
  intros Hn. unfold in_tree, zoom. destruct q as [q1 q2 t q4 q5 q6 q7 q8 q9]. cbn in *.
  assert (IntervalTree.deref (Some a) t = Ok (n, t)) as ->; [|done].
  apply M_bind_Ok. exists t, t. split; [done|]. cbn. by rewrite Hn.
Qed.

Lemma served_tree q (L L1 : list (nat * (Z * Z))) pkt proc d F1 (reserved : bool) :
  (L1.*2 = L.*2 ∨ (1 < length L)%nat ∧ _max_free_interval_size q ≤ zlength L ∧ L1.*2 = tail L.*2) →
  (if reserved then allocate (_min_processing_time q) pkt proc L1.*2 = Some (d, F1) else F1 = L1.*2) →
  served (_min_processing_time q) (_max_free_interval_size q) pkt proc L.*2 d reserved F1.
Proof.
  intros HL Ha. exists L1.*2. split.
  - destruct HL as [->|(? & ? & ->)]; [by left|right]. unfold zlength in *. rewrite length_fmap. split_and!; [done|lia|done].
  - destruct reserved; [|done]. exists F1. split; [done|by left].
Qed.

#[global, program] Instance HistoryTree_queue : HistoryQueue QueueModelHistoryTree := {|
  hq_delay := computeQueueDelay;
  hq_min := _min_processing_time;
  hq_cap := _max_free_interval_size;
  hq_analytical := _analytical_model_enabled;
  hq_count := _total_requests_using_analytical_model;
  hq_free := tree_free
|}.
Next Obligation. by intros q B F (L & _ & _ & ? & _). Qed.
Next Obligation.
  intros q B F pkt proc (L & HT & <- & Hok & Hcnt) Hp Hpr HB. unfold computeQueueDelay.
  run1. eapply runs_Ok; [by eapply search_oldest|]. do 2 run1. cbv beta delta [id]. run1.
  eapply runs_weaken; [by eapply prune_spec|done|]. cbv beta.
  intros _ q1 (L1 & HT1 & Hok1 & Hs1 & Hlen1 & HL1). pose proof Hs1 as [S1 S2 S3 S4 S5 S6].
  rewrite <- S4 in Hok1. run1. eapply runs_Ok; [by eapply search_oldest|].
  destruct (free_last _ _ _ Hok1) as (bl & Hlast & _).
  assert (∃ old : bool, (old = true → _analytical_model_enabled q = true) ∧
    (if _analytical_model_enabled q then
       n ← in_tree (IntervalTree.deref (fst <$> head L1)) ;
       mret ((IntervalTree.interval n).1 >? u64 (pkt + proc))
     else mret false) q1 = Ok (old, q1)) as (old & Hold & Eold).
  { destruct L1 as [|[a0 iv0] L1]; [done|]. destruct (_analytical_model_enabled q); [|by exists false].
    pose proof HT1 as (HR1 & _). destruct (repr_node _ _ a0 iv0 HR1) as (p & l & r & h & Hn); [left|].
    exists (iv0.1 >? u64 (pkt + proc)). split; [done|]. unfold mbind at 1, M_bind. cbn [head fmap option_fmap option_map fst].
    rewrite (in_tree_deref _ _ _ Hn). done. }
  run1. eapply runs_Ok; [exact Eold|]. destruct old.
  - specialize (Hold eq_refl). run1. do 2 run1.
    destruct (QueueModelMG1.computeQueueDelay _ _ _) as [d|e] eqn:Ed.
    + eapply runs_lift; [done|]. run1. unfold assert. destruct (negb _); [|cbn; split; [done|by right]].
      do 3 run1. run1. cbn. rewrite S6, incr_neq by done. split_and!; [naive_solver|done..|].
      exists L1.*2. split; [|by apply (served_tree q L L1 _ _ _ _ false)].
      exists L1. split_and!; cbn; [by eapply tree_inv_eq|done| |apply u64_range|apply u64_range].
      eapply free_mono; [exact Hok1|]. pose proof (free_bound _ _ _ Hok). lia.
    + cbn. split; [done|]. left. by eapply mg1_error.
  - run1. pose proof (free_bound _ _ _ Hok). rewrite u64_small by lia.
    destruct (search_fit q1 L1 B pkt proc) as (a & iv & Hff & Es); [done..|].
    run1. eapply runs_Ok; [exact Es|]. change (IntervalTree.non_null (Some a)) with true. cbv iota. do 2 run1.
    eapply runs_weaken; [eapply occupy_spec; try done; by rewrite S5|done|]. cbv beta.
    intros d q2 (L2 & HT2 & Ha & Hs2). pose proof Hs2 as [U1 U2 U3 U4 U5 U6].
    pose proof (allocate_ok _ _ _ _ _ Hok1 Hp Hpr HB _ _ Ha) as Hok2.
    destruct (allocate_slot _ _ _ _ _ Hok1 Hpr _ _ Ha) as (Hd0 & (x & Hx & Hd1 & Hd2) & _).
    run1. apply runs_assert.
    { pose proof Ha as (F1 & y & F2 & EF & _ & _ & -> & _)%allocate_Some.
      assert (y.1 ≤ B) by (apply (free_start _ _ _ _ Hok1); rewrite EF; apply elem_of_app; right; left).
      rewrite negb_true_iff, Z.eqb_neq. unfold UINT64_MAX. lia. }
    do 3 run1. cbn. rewrite U6, S6, Z.eqb_refl. split_and!; [done|congruence..|].
    exists L2.*2. split; [|rewrite S4 in Ha; by apply (served_tree q L L1 _ _ _ _ true)].
    exists L2. split_and!; cbn; [by eapply tree_inv_eq|done| |lia..]. by rewrite U4.
Qed.
End tree.
