(* ===== verification/QueueTheorems.v ===== *)
(** * QueueTheorems: the queue models

    The pointer tree behaves as a sorted sequence of intervals and stays
    balanced; the history models give packets slots that never overlap, and the
    tree gives the same slots as the list. *)
From S2P Require Import Prelude Utils Double QueueModels IntervalTree HistoryTree.
From S2P Require Import IntervalTreeProofs IntervalTreeOps QueueProofs.

(** ** Sequences of requests *)

Section serve.
Context {Q : Type} `{HistoryQueue Q}.

(** The slots of a sequence of packets, with whether they were reserved. *)
Fixpoint serve_all (reqs : list (Z * Z)) : M Q (list ((Z * Z) * bool)) :=
  match reqs with
  | [] => mret []
  | (pkt, proc) :: reqs =>
    n ← gets hq_count ;
    d ← hq_delay pkt proc ;
    n' ← gets hq_count ;
    slots ← serve_all reqs ;
    mret (((pkt + d, pkt + d + proc), n' =? n) :: slots)
  end.

(** Packets arrive before 2^60 and occupy less than 2^60 cycles in total. *)
Definition requests_ok (T : Z) (reqs : list (Z * Z)) : Prop :=
  Forall (λ r, 0 ≤ r.1 ≤ 2 ^ 60 ∧ 0 < r.2) reqs ∧ T + foldr (λ r s, r.2 + s) 0 reqs ≤ 2 ^ 60.

Lemma requests_ok_cons T pkt proc reqs :
  requests_ok T ((pkt, proc) :: reqs) →
  0 ≤ pkt ≤ 2 ^ 60 ∧ 0 < proc ∧ T + proc ≤ 2 ^ 60 ∧ requests_ok (T + proc) reqs.
Proof.
  intros [[Hp Hr]%Forall_cons Hs]. cbn in *. unfold requests_ok.
  assert (0 ≤ foldr (λ r s, r.2 + s) 0 reqs).
  { clear Hs. induction Hr as [|r reqs Hr _ IH]; cbn; lia. }
  split_and!; try lia; done.
Qed.

Definition slots_apart (slots : list ((Z * Z) * bool)) : Prop :=
  ∀ i j s t, (i < j)%nat → slots !! i = Some (s, true) → slots !! j = Some (t, true) → disjoint s t.

(** A reserved slot lies in one of the intervals that were free. *)
Definition within (F : list (Z * Z)) (s : (Z * Z) * bool) : Prop :=
  s.2 = true → ∃ x, x ∈ F ∧ x.1 ≤ s.1.1 ∧ s.1.2 ≤ x.2.

Lemma served_within min B cap pkt proc F d F' reserved slots :
  free_ok min B F → 0 < proc → served min cap pkt proc F d reserved F' →
  Forall (within F') slots → Forall (within F) slots.
Proof.
  intros Hok Hp (F0 & HF0 & HF') Hw. eapply Forall_impl; [exact Hw|]. intros s Hs Hr.
  destruct (Hs Hr) as (x & Hx & H1 & H2).
  assert (∀ A (l : list A) y, y ∈ tail l → y ∈ l) as Htl by (intros A [|? l] y Hy; [done|by right]).
  assert (free_ok min B F0) as Hok0.
  { destruct HF0 as [->|(? & _ & ->)]; [done|by apply free_tail]. }
  assert (∀ y, y ∈ F0 → y ∈ F) as H0 by (destruct HF0 as [->|(_ & _ & ->)]; eauto).
  destruct reserved.
  - destruct HF' as (F1 & Ha & HF1).
    assert (x ∈ F1) as Hx1 by (destruct HF1 as [->|(_ & _ & ->)]; eauto).
    destruct (allocate_slot _ _ _ _ _ Hok0 Hp _ _ Ha) as (_ & _ & _ & Hsub).
    destruct (Hsub x Hx1) as (y & Hy & ? & ?). exists y. split; [auto|lia].
  - subst F'. exists x. auto.
Qed.

Lemma served_apart min B cap pkt proc F d F' slots :
  free_ok min B F → 0 < proc → served min cap pkt proc F d true F' →
  Forall (within F') slots → ∀ t, (t, true) ∈ slots → disjoint (pkt + d, pkt + d + proc) t.
Proof.
  intros Hok Hp (F0 & HF0 & F1 & Ha & HF1) Hw t Ht. rewrite Forall_forall in Hw.
  destruct (Hw _ Ht eq_refl) as (x & Hx & H1 & H2). cbn in H1, H2.
  assert (free_ok min B F0) as Hok0.
  { destruct HF0 as [->|(? & _ & ->)]; [done|by apply free_tail]. }
  assert (x ∈ F1) as Hx1.
  { destruct HF1 as [->|(_ & _ & ->)]; [done|]. destruct F1; [done|by right]. }
  destruct (allocate_slot _ _ _ _ _ Hok0 Hp _ _ Ha) as (_ & _ & Hd & _).
  specialize (Hd x Hx1). unfold disjoint in *. cbn in *. lia.
Qed.

Lemma serve_all_apart reqs : ∀ q B F T,
  hq_free q B F → B ≤ 2 ^ 60 + T → 0 ≤ T → requests_ok T reqs →
  runs (λ e, hq_analytical q = true ∧ analytical_error e) (serve_all reqs) q (λ slots _,
    slots_apart slots ∧ Forall (within F) slots).
Proof.
  induction reqs as [|[pkt proc] reqs IH]; intros q B F T Hq HB HT Hr.
  { cbn. split; [by intros ????? ?|constructor]. }
  apply requests_ok_cons in Hr as (Hp & Hpr & Hs & Hr). pose proof (hq_ok _ _ _ Hq) as Hok.
  cbn [serve_all]. do 3 run1. eapply runs_mono; [apply (hq_serve q B F pkt proc Hq); lia|].
  cbv beta zeta. intros d q1 (_ & E1 & E2 & E3 & F' & Hq1 & Hserved). do 3 run1.
  rewrite <- E3. eapply runs_mono; [apply (IH q1 _ F' (T + proc) Hq1); [lia|lia|done]|].
  cbv beta. intros slots q2 [Hap Hw]. run1. split.
  - intros [|i] [|j] s t Hij; [lia|..|lia|]; cbn.
    + intros [= <- E] Ht. rewrite E in Hserved. eapply served_apart; [exact Hok|done|done|exact Hw|].
      by eapply list_elem_of_lookup_2.
    + intros Hi Hj. by eapply (Hap i j); [lia|..].
  - apply Forall_cons. split; [|by eapply served_within].
    unfold within. cbn. intros E. rewrite E in Hserved.
    destruct Hserved as (F0 & HF0 & F1 & Ha & _).
    assert (free_ok (hq_min q) B F0) as Hok0.
    { destruct HF0 as [->|(? & _ & ->)]; [done|by apply free_tail]. }
    destruct (allocate_slot _ _ _ _ _ Hok0 Hpr _ _ Ha) as (_ & (x & Hx & H1 & H2) & _).
    exists x. split; [|lia]. destruct HF0 as [->|(_ & _ & ->)]; [done|]. destruct F; [done|by right].
Qed.

(** ** The reference *)

Fixpoint reference (min : Z) (reqs : list (Z * Z)) (F : list (Z * Z)) : list ((Z * Z) * bool) :=
  match reqs with
  | [] => []
  | (pkt, proc) :: reqs =>
    match allocate min pkt proc F with
    | Some (d, F') => ((pkt + d, pkt + d + proc), true) :: reference min reqs F'
    | None => []
    end
  end.

Lemma serve_all_reference reqs : ∀ q B F T,
  hq_free q B F → B ≤ 2 ^ 60 + T → 0 ≤ T → requests_ok T reqs → hq_analytical q = false →
  zlength F + zlength reqs + 1 < hq_cap q →
  succeeds (serve_all reqs) q (λ slots _, slots = reference (hq_min q) reqs F).
Proof.
  induction reqs as [|[pkt proc] reqs IH]; intros q B F T Hq HB HT Hr Ha Hc; [done|].
  apply requests_ok_cons in Hr as (Hp & Hpr & Hs & Hr). pose proof (hq_ok _ _ _ Hq) as Hok.
  cbn [serve_all reference]. unfold zlength in *. cbn [length] in Hc.
  do 3 run1. eapply runs_weaken; [apply (hq_serve q B F pkt proc Hq); lia|intros e [? _]; congruence|].
  cbv beta zeta. intros d q1 (Hres & E1 & E2 & E3 & F' & Hq1 & (F0 & HF0 & Hserved)). do 3 run1.
  rewrite (Hres Ha) in Hserved |- *. destruct Hserved as (F1 & Hal & HF1). unfold zlength in *.
  destruct HF0 as [->|(_ & ? & _)]; [|lia]. destruct HF1 as [->|(_ & ? & _)]; [|lia]. rewrite Hal.
  pose proof (allocate_length _ _ _ _ _ _ Hal) as Hl.
  eapply runs_mono; [apply (IH q1 _ F1 (T + proc) Hq1); [lia|lia|done|congruence|]|].
  - rewrite E2. lia.
  - cbv beta. intros slots q2 ->. run1. by rewrite E1.
Qed.
End serve.

(** The list with interleaving. *)
Lemma serve_all_interleaved reqs : ∀ (q : QueueModelHistoryList.QueueModelHistoryList) B T,
  interleaved_free q B → B ≤ 2 ^ 60 + T → 0 ≤ T → requests_ok T reqs →
  runs (λ e, QueueModelHistoryList._analytical_model_enabled q = true ∧ analytical_error e) (serve_all reqs) q
    (λ _ q', ∃ B', interleaved_free q' B' ∧
      QueueModelHistoryList._min_processing_time q' = QueueModelHistoryList._min_processing_time q).
Proof.
  induction reqs as [|[pkt proc] reqs IH]; intros q B T Hq HB HT Hr; [by exists B|].
  apply requests_ok_cons in Hr as (Hp & Hpr & Hs & Hr).
  cbn [serve_all]. do 3 run1. eapply runs_mono; [apply (interleaved_serve q B pkt proc Hq); lia|].
  cbv beta. intros d q1 (Hq1 & Ea & Em). do 3 run1.
  rewrite <- Ea, <- Em. eapply runs_mono; [apply (IH q1 _ (T + proc) Hq1); [lia|lia|done]|]. done.
Qed.

(** ** The initial queues *)

Lemma free_initial min : 1 ≤ min < 2 ^ 62 → free_ok min 0 [(0, UINT64_MAX)].
Proof.
  intros Hm. split; [done|lia|repeat constructor| |by exists 0].
  apply Forall_singleton. unfold UINT64_MAX. cbn. lia.
Qed.

Lemma list_make_interleaved min max analytical :
  1 ≤ min < 2 ^ 62 → 2 ≤ max < 2 ^ 29 → interleaved_free (QueueModelHistoryList.make min max analytical true) 0.
Proof.
  intros Hm Hx. split_and!; cbn; try done; [by apply free_initial|].
  unfold zlength. cbn. rewrite u32_small; lia.
Qed.

Lemma list_make_free min max analytical :
  1 ≤ min < 2 ^ 62 → 2 ≤ max < 2 ^ 29 →
  list_free (QueueModelHistoryList.make min max analytical false) 0 [(0, UINT64_MAX)].
Proof.
  intros Hm Hx. split_and!; cbn; try done; [by apply free_initial|].
  unfold zlength. cbn. rewrite u32_small; lia.
Qed.

Lemma memory_blocks_lookup max a :
  QueueModelHistoryTree.memory_blocks max !! a =
    if decide (Z.of_nat a < max) then Some IntervalTree.Node_new else None.
Proof.
  unfold QueueModelHistoryTree.memory_blocks. case_decide as Ha.
  - apply elem_of_list_to_map_1.
    + rewrite <- list_fmap_compose. cbn. rewrite list_fmap_id. apply NoDup_seq.
    + apply list_elem_of_fmap. exists a. split; [done|]. apply elem_of_seq. lia.
  - apply not_elem_of_list_to_map_1. rewrite <- list_fmap_compose. cbn. rewrite list_fmap_id, elem_of_seq. lia.
Qed.

Section tree_make.
Import QueueModelHistoryTree.
Lemma tree_make_free min max analytical :
  1 ≤ min < 2 ^ 62 → 2 ≤ max < 2 ^ 29 →
  ∃ q, make min max analytical = Ok q ∧ tree_free q 0 [(0, UINT64_MAX)] ∧
    _min_processing_time q = min ∧ _max_free_interval_size q = max ∧ _analytical_model_enabled q = analytical.
Proof.
  intros Hm Hx. set (iv := (0, UINT64_MAX)). set (a := Z.to_nat (max - 1)).
  set (t0 := IntervalTree.mkIntervalTree (<[a := IntervalTree.initialize iv]> (memory_blocks max)) (Some a) 1).
  set (q0 := mkQueueModelHistoryTree (QueueModel.make QueueModel.HISTORY_TREE) QueueModelMG1.make t0
    analytical min max (seqZ 0 max) (max - 1 - 1) 0).
  assert (succeeds initialize_tree (mkQueueModelHistoryTree (QueueModel.make QueueModel.HISTORY_TREE)
    QueueModelMG1.make (IntervalTree.mkIntervalTree ∅ None 0) analytical min max [] 0 0) (λ _ q, q = q0)) as E.
  { unfold initialize_tree, allocateMemory, allocateNode. do 5 run1. cbv beta delta [id]. cbn.
    run1. apply runs_assert; [rewrite Z.geb_leb; apply Z.leb_le; lia|].
    run1. eapply runs_lift; [apply vget_Ok; rewrite zlookup_nat by lia; apply lookup_seqZ_lt; lia|].
    replace (0 + Z.of_nat (Z.to_nat (max - 1))) with (max - 1) by lia. fold a.
    run1. apply runs_in_tree. cbn. eapply runs_update; [rewrite memory_blocks_lookup, decide_True by lia; done|].
    repeat run1. done. }
  exists q0. split_and!; [|..|done|done|done].
  { unfold make, runs in *. destruct (initialize_tree _) as [[u q]|]; [by subst|done]. }
  assert (IntervalTree._nodes t0 !! a = Some (IntervalTree.initialize iv)) as Hn by apply lookup_insert_eq.
  exists [(a, iv)]. split_and!; [|done|by apply free_initial|done..]. split_and!; [| |cbn; lia..].
  - split; [|done|done]. exists (Nd Leaf a 1 iv Leaf). split_and!; [|done|done..].
    split; cbn; [done|by split_and!|repeat constructor; set_solver|repeat constructor].
  - split; cbn.
    + unfold zlength. rewrite length_seqZ. lia.
    + unfold zlength. cbn. lia.
    + replace (max - 1 - 1 + 1) with (max - 1) by lia. eapply sublist_NoDup; [apply (NoDup_seqZ 0 max)|].
      apply sublist_take.
    + intros i Hi. replace (max - 1 - 1 + 1) with (max - 1) in Hi by lia.
      apply list_elem_of_lookup in Hi as [k Hk]. apply lookup_take_Some in Hk as [Hk Hlt].
      apply lookup_seqZ in Hk. rewrite list_elem_of_singleton. lia.
    + intros b ->%list_elem_of_singleton. lia.
    + unfold zlength. cbn. lia.
    + intros b. destruct (decide (b = a)) as [->|].
      * rewrite lookup_insert_eq. split; [lia|done].
      * rewrite lookup_insert_ne, memory_blocks_lookup by done. case_decide; [done|]. split; [by intros []|done].
Qed.
End tree_make.

Lemma avl_pow t : avl t → 2 ^ ht t ≤ (zlength (inorder t) + 1) * (zlength (inorder t) + 1).
Proof.
  unfold zlength. induction t as [|l IHl a h iv r IHr]; cbn [avl inorder ht]; [cbn; lia|].
  intros (Al & Ar & Hb & ->). rewrite length_app. cbn [length].
  specialize (IHl Al). specialize (IHr Ar). pose proof (avl_ht _ Al). pose proof (avl_ht _ Ar).
  assert (∃ k, 0 ≤ k ∧ Z.max (ht l) (ht r) = k ∧ (ht l = k ∨ ht r = k) ∧ k - 1 ≤ ht l ∧ k - 1 ≤ ht r)
    as (k & Hk & -> & Hlr & Hl & Hr) by (exists (Z.max (ht l) (ht r)); lia).
  set (x := Z.of_nat (length (inorder l)) + 1) in *. set (y := Z.of_nat (length (inorder r)) + 1) in *.
  replace (Z.of_nat (length (inorder l) + S (length (inorder r))) + 1) with (x + y) by lia.
  rewrite Z.pow_add_r by lia. change (2 ^ 1) with 2.
  destruct (decide (k = 0)) as [->|].
  { change (2 ^ 0) with 1. assert (1 ≤ x ∧ 1 ≤ y) by lia. nia. }
  assert (2 ^ k = 2 * 2 ^ (k - 1)) as Ek by (rewrite <- Z.pow_succ_r by lia; f_equal; lia).
  set (K := 2 ^ (k - 1)) in *. assert (1 ≤ K) by (subst K; pose proof (Z.pow_pos_nonneg 2 (k - 1)); lia).
  assert (K ≤ 2 ^ ht l ∧ K ≤ 2 ^ ht r) as [Kl Kr] by (split; apply Z.pow_le_mono_r; lia).
  assert ((2 * K ≤ x * x ∧ K ≤ y * y) ∨ (K ≤ x * x ∧ 2 * K ≤ y * y)) as Hxy.
  { rewrite <- Ek. destruct Hlr as [E|E]; [left|right]; rewrite <- E; lia. }
  assert (1 ≤ x ∧ 1 ≤ y) by lia. assert (K ≤ x * y) by (destruct Hxy as [[]|[]]; nia).
  rewrite Ek. nia.
Qed.

(** C22: the pointer-linked AVL tree of free intervals behaves as a sorted
    sequence of intervals.  From a tree that holds the sequence [L]: inserting a
    new node puts it between the smaller and the larger keys; removing a node
    takes its interval out of the sequence and returns the node that became
    free, which is the node itself or its successor; searching finds the first
    interval that holds the request.  No assertion fails, no null pointer is
    followed, nodes outside the tree are not touched, the result is again such
    a tree, and the height of the root is at most twice the logarithm of the
    number of nodes. *)
Theorem interval_tree_refines s L :
  repr s L →
  (∀ a iv, L ≠ [] → IntervalTree._nodes s !! a = Some (IntervalTree.initialize iv) → a ∉ L.*1 →
     Forall (λ x, x.2.1 ≠ iv.1) L → zlength L < 2 ^ 29 - 1 →
     succeeds (IntervalTree.insert (Some a)) s (λ _ s', ∃ L1 L2,
       L = L1 ++ L2 ∧ Forall (λ x, x.2.1 < iv.1) L1 ∧ Forall (λ x, iv.1 < x.2.1) L2 ∧
       repr s' (L1 ++ (a, iv) :: L2) ∧
       ∀ b, b ≠ a → b ∉ L.*1 → IntervalTree._nodes s' !! b = IntervalTree._nodes s !! b)) ∧
  (∀ L1 a iv L2, L = L1 ++ (a, iv) :: L2 →
     succeeds (IntervalTree.remove (Some a)) s (λ p s', ∃ b L',
       p = Some b ∧ b :: L'.*1 ≡ₚ L.*1 ∧ L'.*2 = L1.*2 ++ L2.*2 ∧ repr s' L' ∧
       ∀ d, d ∉ L.*1 → IntervalTree._nodes s' !! d = IntervalTree._nodes s !! d)) ∧
  (∀ iv, in_range iv → Forall (λ x, in_range x.2) L → StronglySorted apart L →
     IntervalTree.search iv s = Ok (fst <$> first_fit iv L, s)) ∧
  (∀ r n, IntervalTree._root_tree s = Some r → IntervalTree._nodes s !! r = Some n →
     2 ^ IntervalTree.height n ≤ (zlength L + 1) * (zlength L + 1)).
Proof.
  intros HR. split_and!.
  - intros a iv Hne Hn Ha Hk Hl. eapply runs_mono; [by apply insert_spec|].
    cbv beta. intros _ s' (L1 & L2 & ? & ? & ? & ? & _ & ?). by exists L1, L2.
  - intros L1 a iv L2 ->. eapply runs_mono; [by apply remove_spec|].
    cbv beta. intros p s' (b & L' & -> & Ht & HR' & _ & Hout). exists b, L'.
    destruct (taken_perm _ _ iv _ _ _ Ht). by split_and!.
  - intros iv H1 H2 H3. by apply search_spec.
  - intros r n Hr Hn. pose proof HR as [(T & [Hc Ht _ _] & A & <-) _ _]. cbn in Hc.
    destruct T as [|l a h iv r']; [by rewrite Hc in Hr|]. destruct Ht as (Ha & _).
    rewrite Hc in Hr. injection Hr as ->. rewrite Ha in Hn. injection Hn as <-. exact (avl_pow _ A).
Qed.

Definition one_node : IntervalTree.IntervalTree :=
  IntervalTree.make {[0%nat := IntervalTree.initialize (0, 100); 1%nat := IntervalTree.initialize (200, 300)]} (Some 0%nat).

Lemma one_node_repr : repr one_node [(0%nat, (0, 100))].
Proof.
  split; [|done|done]. exists (Nd Leaf 0 1 (0, 100) Leaf). split_and!; [|done..].
  split; cbn; [done|by split_and!|repeat constructor; set_solver|repeat constructor].
Qed.

Lemma interval_tree_refines_witness :
  IntervalTree.search (50, 60) one_node = Ok (Some 0%nat, one_node) ∧
  succeeds (IntervalTree.insert (Some 1%nat)) one_node (λ _ s', repr s' [(0%nat, (0, 100)); (1%nat, (200, 300))]).
Proof.
  destruct (interval_tree_refines one_node _ one_node_repr) as (Hi & _ & Hs & _). split.
  - rewrite Hs; [reflexivity|unfold in_range; cbn; lia| |repeat constructor].
    apply Forall_singleton. unfold in_range. cbn. lia.
  - eapply runs_mono; [apply (Hi 1%nat (200, 300)); [done|reflexivity|cbn; set_solver|by apply Forall_singleton|by vm_compute]|].
    cbv beta. intros _ s' ([|x L1] & L2 & E & F1 & F2 & HR & _).
    + cbn in E. subst L2. exfalso. apply Forall_cons in F2 as [F2 _]. cbn in F2. lia.
    + cbn in E. injection E as <- E. destruct L1; [|done]. cbn in E. by subst L2.
Defined.

(** C23: For every sequence of packets whose arrival times and total processing
    time stay below 2^60, served from the initial state by a history model with
    room for at least two intervals, no assertion fails.  The tree, and the list
    without interleaving, never give two packets the same time: the slots the
    packets get ([arrival + delay] to [arrival + delay + processing time]) are
    pairwise disjoint; packets older than the remembered intervals, which the
    analytical model answers, reserve no slot.  With interleaving the slots of the
    list may overlap (it charges a packet for more time than it needs,
    [interleaving_charges_twice]); its free intervals stay in order, apart and long
    enough, and the last one never ends.  The only error is the conversion of an
    estimate outside the range of the integers, with the analytical model switched
    on. *)
Theorem queue_slots_disjoint min max analytical reqs :
  1 ≤ min < 2 ^ 62 → 2 ≤ max < 2 ^ 29 → requests_ok 0 reqs →
  (∃ q, QueueModelHistoryTree.make min max analytical = Ok q ∧
     runs (λ e, analytical = true ∧ analytical_error e) (serve_all reqs) q (λ slots _, slots_apart slots)) ∧
  runs (λ e, analytical = true ∧ analytical_error e) (serve_all reqs)
    (QueueModelHistoryList.make min max analytical false) (λ slots _, slots_apart slots) ∧
  runs (λ e, analytical = true ∧ analytical_error e) (serve_all reqs)
    (QueueModelHistoryList.make min max analytical true)
    (λ _ q, ∃ B, free_ok min B (QueueModelHistoryList._free_interval_list q)).
Proof.
  intros Hm Hx Hr. split_and!.
  - destruct (tree_make_free min max analytical Hm Hx) as (q & E & Hq & _ & _ & Ea). exists q. split; [done|].
    pose proof (serve_all_apart reqs q 0 [(0, UINT64_MAX)] 0 Hq ltac:(lia) ltac:(lia) Hr) as H.
    cbn in H. rewrite Ea in H. eapply runs_mono; [exact H|]. by intros slots q' [? _].
  - pose proof (serve_all_apart reqs (QueueModelHistoryList.make min max analytical false) 0
      [(0, UINT64_MAX)] 0 (list_make_free _ _ _ Hm Hx) ltac:(lia) ltac:(lia) Hr) as H.
    eapply runs_mono; [exact H|]. by intros slots q [? _].
  - pose proof (serve_all_interleaved reqs _ 0 0 (list_make_interleaved min max analytical Hm Hx)
      ltac:(lia) ltac:(lia) Hr) as H.
    eapply runs_mono; [exact H|]. cbv beta. intros _ q (B & (H1 & _) & Em). rewrite Em in H1. by exists B.
Qed.

Definition some_packets : list (Z * Z) :=
  [(10, 5); (3, 4); (100, 10); (12, 3); (50, 20); (0, 30); (7, 2); (60, 5); (100, 1)].

Lemma some_packets_ok : requests_ok 0 some_packets.
Proof.
  split; [|by vm_compute]. unfold some_packets. rewrite !Forall_cons. cbn.
  split_and!; try lia. constructor.
Qed.

Lemma queue_slots_disjoint_witness :
  runs (λ e, true = true ∧ analytical_error e) (serve_all some_packets)
    (QueueModelHistoryList.make 1 4 true false) (λ slots _, slots_apart slots).
Proof.
  destruct (queue_slots_disjoint 1 4 true some_packets) as (_ & H & _); [lia|lia|apply some_packets_ok|exact H].
Defined.

(** C24: The tree and the list compute the same delays.  For every sequence of
    packets that is shorter than the capacity, with arrival times and total
    processing time below 2^60, with the analytical model off and, for the list,
    without interleaving, both models give exactly the slots of the reference
    allocator, which takes the first free interval that holds the packet; neither
    fails. *)
Theorem tree_matches_list min max reqs :
  1 ≤ min < 2 ^ 62 → max < 2 ^ 29 → requests_ok 0 reqs → zlength reqs + 2 < max →
  succeeds (serve_all reqs) (QueueModelHistoryList.make min max false false)
    (λ slots _, slots = reference min reqs [(0, UINT64_MAX)]) ∧
  (∃ q, QueueModelHistoryTree.make min max false = Ok q ∧
     succeeds (serve_all reqs) q (λ slots _, slots = reference min reqs [(0, UINT64_MAX)])).
Proof.
  intros Hm Hx Hr Hl. assert (0 ≤ zlength reqs) by (unfold zlength; lia). split.
  - refine (serve_all_reference reqs (QueueModelHistoryList.make min max false false) 0
      [(0, UINT64_MAX)] 0 _ _ _ _ _ _); [apply list_make_free; lia|lia|lia|done|done|].
    cbn. change (zlength [(0, UINT64_MAX)]) with 1. rewrite u32_small; lia.
  - destruct (tree_make_free min max false) as (q & E & Hq & <- & <- & Ea); [lia|lia|].
    exists q. split; [done|]. refine (serve_all_reference reqs q 0 [(0, UINT64_MAX)] 0 Hq _ _ _ _ _); [lia|lia|done|done|].
    change (zlength [(0, UINT64_MAX)]) with 1. cbn. lia.
Qed.

Lemma tree_matches_list_witness :
  succeeds (serve_all some_packets) (QueueModelHistoryList.make 1 100 false false)
    (λ slots _, slots = reference 1 some_packets [(0, UINT64_MAX)]) ∧
  fst <$> reference 1 some_packets [(0, UINT64_MAX)] =
    [(10, 15); (3, 7); (100, 110); (15, 18); (50, 70); (18, 48); (7, 9); (70, 75); (110, 111)].
Proof.
  split; [|vm_compute; reflexivity].
  apply (tree_matches_list 1 100 some_packets); [lia|lia|apply some_packets_ok|by vm_compute].
Defined.

(** With interleaving, the part of a packet that fits before the next busy time
    is served, but the remaining time is not reduced by it: a packet of 10
    cycles that gets the 5 free cycles [0, 5) then still asks for 10. *)
Lemma interleaving_charges_twice :
  QueueModelHistoryList.scan 1 true 0 10 0 [(0, 5); (8, 30)] = (3, [(18, 30)]).
Proof. vm_compute. reflexivity. Qed.

(** A tree with room for one interval loses its only node and follows a null
    pointer. *)
Lemma tree_of_one_crashes :
  (q ← QueueModelHistoryTree.make 1 1 true ; QueueModelHistoryTree.computeQueueDelay 0 1 q) = Fail (ENull "Node").
Proof. vm_compute. reflexivity. Qed.
