(* ===== verification/NetPacket.v ===== *)
(** * NetPacket: packets, networks and clocks of the interconnect

    Models network/packet_type.h, the packets and matches of
    network/network.{h,cc}, the part of the memory managers the network calls
    (tile/memory_subsystem/memory_manager.h) and misc/clock_converter.cc. *)
From S2P Require Import Prelude Utils Double CacheSet Cache Shmem ThreadManager.

(** ** Packet types and static networks: network/packet_type.h *)

Module PacketType.
Inductive PacketType : Type :=
  | INVALID_PACKET_TYPE
  | USER_1
  | USER_2
  | SHARED_MEM_1
  | SHARED_MEM_2
  | SIM_THREAD_TERMINATE_THREADS
  | MCP_REQUEST_TYPE
  | MCP_RESPONSE_TYPE
  | MCP_UTILIZATION_UPDATE_TYPE
  | MCP_SYSTEM_TYPE
  | MCP_SYSTEM_RESPONSE_TYPE
  | MCP_THREAD_SPAWN_REPLY_FROM_MASTER_TYPE
  | MCP_THREAD_YIELD_REPLY_FROM_MASTER_TYPE
  | MCP_THREAD_EXIT_REPLY_FROM_MASTER_TYPE
  | MCP_THREAD_GETAFFINITY_REPLY_FROM_MASTER_TYPE
  | MCP_THREAD_QUERY_INDEX_REPLY_FROM_MASTER_TYPE
  | MCP_THREAD_JOIN_REPLY
  | LCP_COMM_ID_UPDATE_REPLY
  | SYSTEM_INITIALIZATION_NOTIFY
  | SYSTEM_INITIALIZATION_ACK
  | SYSTEM_INITIALIZATION_FINI
  | CLOCK_SKEW_MINIMIZATION
  | RESET_CACHE_COUNTERS
  | DISABLE_CACHE_COUNTERS.
#[global] Instance PacketType_eq_dec : EqDecision PacketType.
Proof. solve_decision. Defined.

(** The types in the order of their codes. *)
Definition packet_types : list PacketType :=
  [INVALID_PACKET_TYPE; USER_1; USER_2; SHARED_MEM_1; SHARED_MEM_2; SIM_THREAD_TERMINATE_THREADS;
   MCP_REQUEST_TYPE; MCP_RESPONSE_TYPE; MCP_UTILIZATION_UPDATE_TYPE; MCP_SYSTEM_TYPE;
   MCP_SYSTEM_RESPONSE_TYPE; MCP_THREAD_SPAWN_REPLY_FROM_MASTER_TYPE;
   MCP_THREAD_YIELD_REPLY_FROM_MASTER_TYPE; MCP_THREAD_EXIT_REPLY_FROM_MASTER_TYPE;
   MCP_THREAD_GETAFFINITY_REPLY_FROM_MASTER_TYPE; MCP_THREAD_QUERY_INDEX_REPLY_FROM_MASTER_TYPE;
   MCP_THREAD_JOIN_REPLY; LCP_COMM_ID_UPDATE_REPLY; SYSTEM_INITIALIZATION_NOTIFY;
   SYSTEM_INITIALIZATION_ACK; SYSTEM_INITIALIZATION_FINI; CLOCK_SKEW_MINIMIZATION;
   RESET_CACHE_COUNTERS; DISABLE_CACHE_COUNTERS].

Inductive EStaticNetwork : Type :=
  | STATIC_NETWORK_USER_1
  | STATIC_NETWORK_USER_2
  | STATIC_NETWORK_MEMORY_1
  | STATIC_NETWORK_MEMORY_2
  | STATIC_NETWORK_SYSTEM.
#[global] Instance EStaticNetwork_eq_dec : EqDecision EStaticNetwork.
Proof. solve_decision. Defined.

Definition static_networks : list EStaticNetwork :=
  [STATIC_NETWORK_USER_1; STATIC_NETWORK_USER_2; STATIC_NETWORK_MEMORY_1; STATIC_NETWORK_MEMORY_2;
   STATIC_NETWORK_SYSTEM].

Definition g_static_network_name_list (n : EStaticNetwork) : string :=
  match n with
  | STATIC_NETWORK_USER_1 => "user_1"
  | STATIC_NETWORK_USER_2 => "user_2"
  | STATIC_NETWORK_MEMORY_1 => "memory_1"
  | STATIC_NETWORK_MEMORY_2 => "memory_2"
  | STATIC_NETWORK_SYSTEM => "system"
  end.

Definition g_type_to_static_network_map (t : PacketType) : EStaticNetwork :=
  match t with
  | USER_1 | MCP_REQUEST_TYPE | MCP_RESPONSE_TYPE => STATIC_NETWORK_USER_1
  | USER_2 => STATIC_NETWORK_USER_2
  | SHARED_MEM_1 => STATIC_NETWORK_MEMORY_1
  | SHARED_MEM_2 => STATIC_NETWORK_MEMORY_2
  | _ => STATIC_NETWORK_SYSTEM
  end.
End PacketType.

(** ** What the network asks the memory manager about a packet

    [MemoryManager] is an abstract class of the source; every protocol reads its
    own messages. *)
Class MemoryManager (Msg : Type) := {
  getShmemRequester : Msg → Z;
  isModeled : Msg → bool;
  getModeledLength_of : Msg → res Z;
  (** The number of bytes of the message with its data. *)
  getMsgLen : Msg → Z
}.

(** The memory manager of pr_l1_pr_l2_dram_directory_msi; its messages have
    40 bytes and their data. *)
#[global] Instance MSI_MemoryManager : MemoryManager ShmemMsg.MsgBuf := {|
  getShmemRequester b := ShmemMsg._requester (ShmemMsg.object b);
  isModeled b := ShmemMsg._modeled (ShmemMsg.object b);
  getModeledLength_of b := ShmemMsg.getModeledLength (ShmemMsg.object b);
  getMsgLen b := 40 + ShmemMsg._data_length (ShmemMsg.object b)
|}.

(** ** Packets *)

Module NetPacket.
Import PacketType.

(** What [data] points to. *)
Inductive Payload (Msg : Type) : Type :=
  | NULL
  | Bytes (bytes : list Z)
  | Message (msg : Msg).
Arguments NULL {Msg}.
Arguments Bytes {Msg} bytes.
Arguments Message {Msg} msg.

Record NetPacket (Msg : Type) := mkNetPacket {
  time : Z;
  type : PacketType;
  sender : core_id_t;
  receiver : core_id_t;
  node_type : Z;
  length : Z;
  data : Payload Msg;
  zero_load_delay : Z;
  contention_delay : Z;
  found : bool;
  init_time : Z
}.
Arguments mkNetPacket {Msg}.
Arguments time {Msg}.
Arguments type {Msg}.
Arguments sender {Msg}.
Arguments receiver {Msg}.
Arguments node_type {Msg}.
Arguments length {Msg}.
Arguments data {Msg}.
Arguments zero_load_delay {Msg}.
Arguments contention_delay {Msg}.
Arguments found {Msg}.
Arguments init_time {Msg}.
#[global] Instance eta_NetPacket Msg : Eta (NetPacket Msg) := λ p, mkNetPacket
  (time p) (type p) (sender p) (receiver p) (node_type p) (length p) (data p) (zero_load_delay p)
  (contention_delay p) (found p) (init_time p).

Definition BROADCAST : Z := s32 0xDEADBABE.
Definition SEND_TILE : Z := 0.
Definition RECEIVE_TILE : Z := 1.

(** The constructors; they leave [found] and [init_time] unset. *)
Definition empty {Msg} : NetPacket Msg :=
  mkNetPacket 0 INVALID_PACKET_TYPE INVALID_CORE_ID INVALID_CORE_ID SEND_TILE 0 NULL 0 0 false 0.
Definition make {Msg} (t : Z) (ty : PacketType) (s r : core_id_t) (l : Z) (d : Payload Msg) :
    NetPacket Msg :=
  mkNetPacket t ty s r SEND_TILE l d 0 0 false 0.
Definition make_main {Msg} (t : Z) (ty : PacketType) (s r : Z) (l : Z) (d : Payload Msg) :
    NetPacket Msg :=
  make t ty (getMainCoreId s) (getMainCoreId r) l d.

(** The bytes of a packet on the wire: those of the object and those of its
    data.  The object has 80 bytes. *)
Definition sizeof : Z := 80.
Record Buffer (Msg : Type) := mkBuffer { object : NetPacket Msg; payload : Payload Msg }.
Arguments mkBuffer {Msg}.
Arguments object {Msg}.
Arguments payload {Msg}.
#[global] Instance eta_Buffer Msg : Eta (Buffer Msg) := λ b, mkBuffer (object b) (payload b).

Definition bufferSize {Msg} (p : NetPacket Msg) : Z := u32 (sizeof + length p).

Section buffers.
Context {Msg : Type} `{MemoryManager Msg}.

(** [memcpy] of [n] bytes of a payload. *)
Definition copy (d : Payload Msg) (n : Z) : res (Payload Msg) :=
  if n =? 0 then Ok (Bytes []) else
  match d with
  | NULL => Fail (ENull "NetPacket::data")
  | Bytes bytes => b ← mem_read bytes 0 n ; Ok (Bytes b)
  | Message msg => check (n =? getMsgLen msg) (ERange "NetPacket::data") ;; Ok (Message msg)
  end.

Definition makeBuffer (p : NetPacket Msg) : res (Buffer Msg) :=
  check (bufferSize p >=? sizeof) (EAssert "NetPacket::makeBuffer") ;;
  d ← copy (data p) (length p) ;
  Ok (mkBuffer p d).

(** The constructor from the bytes of a packet. *)
Definition of_buffer (b : Buffer Msg) : res (NetPacket Msg) :=
  let p := object b in
  if length p >? 0 then d ← copy (payload b) (length p) ; Ok (p <| data := d |>)
  else Ok p.

(** A packet whose data is as long as it says. *)
Definition wf (p : NetPacket Msg) : Prop :=
  0 ≤ length p < 2 ^ 32 - sizeof ∧
  match data p with
  | NULL => length p = 0
  | Bytes bytes => zlength bytes = length p
  | Message msg => getMsgLen msg = length p ∧ 0 < length p
  end.

Lemma copy_wf p : wf p → 0 < length p → copy (data p) (length p) = Ok (data p).
Proof.
  intros [_ Hd] Hl. unfold copy. rewrite (proj2 (Z.eqb_neq _ _)) by lia.
  destruct (data p) as [|bytes|msg]; [lia| |].
  - rewrite mem_read_ok by lia. cbn. by rewrite drop_0, take_ge by (unfold zlength in *; lia).
  - destruct Hd as [-> _]. by rewrite Z.eqb_refl.
Qed.

Lemma of_buffer_makeBuffer p : wf p → (b ← makeBuffer p ; of_buffer b) = Ok p.
Proof.
  intros Hp. pose proof Hp as [Hl Hd]. unfold makeBuffer, bufferSize. unfold sizeof in *.
  rewrite u32_small by lia. rewrite Z.geb_leb, (proj2 (Z.leb_le _ _)) by lia. cbn.
  destruct (decide (length p = 0)) as [E|E].
  - unfold copy. rewrite E. cbn. unfold of_buffer. cbn. by rewrite E.
  - rewrite (copy_wf p Hp) by lia. cbn. unfold of_buffer. cbn.
    rewrite Z.gtb_ltb, (proj2 (Z.ltb_lt _ _)) by lia. rewrite (copy_wf p Hp) by lia. cbn.
    by destruct p.
Qed.
End buffers.
End NetPacket.
Export NetPacket (NetPacket).

(** ** Matches: what [netRecv] looks for *)

Module NetMatch.
Record NetMatch := mkNetMatch {
  senders : list core_id_t;
  types : list PacketType.PacketType;
  receiver : core_id_t
}.
Definition make : NetMatch := mkNetMatch [] [] INVALID_CORE_ID.
End NetMatch.

(** ** Clock conversion: misc/clock_converter.cc *)

(** The quotient of the frequencies is a [float]. *)
Definition convertCycleCount (cycle_count : Z) (from_frequency to_frequency : float) : res Z :=
  to_u64 "convertCycleCount"
    (dceil (dmul (of_int cycle_count) (double_of_float (fdiv to_frequency from_frequency)))).

(** A tile identifier in bytes: [Config::computeTileIDLength]. *)
Definition computeTileIDLength (tile_count : Z) : Z :=
  let num_bits := u32 (Utils.ceilLog2 tile_count) in
  if num_bits `mod` 8 =? 0 then num_bits `div` 8 else num_bits `div` 8 + 1.
