(* ===== verification/NetworkModel.v ===== *)
(** * NetworkModel: the base class of the network models, routers and links

    Models network/network_model.{h,cc} (the base class: hops, counters, the
    cases every model shares), network/components/router/router_model.{h,cc}
    and network/components/link/{electrical,optical}_link_model.{h,cc}.  The
    power models behind the routers and links are not part of the state. *)
From S2P Require Import Prelude Utils Double CacheSet Cache Shmem ThreadManager QueueModels HistoryTree NetPacket.

(** ** Hops *)

Module Hop.
Record Hop := mkHop {
  _next_tile_id : Z;
  _next_node_type : Z;
  _time : Z;
  _zero_load_delay : Z;
  _contention_delay : Z
}.
Definition make {Msg} (pkt : NetPacket Msg) (next_tile_id next_node_type zero_load_delay contention_delay : Z) : Hop :=
  mkHop next_tile_id next_node_type
    (u64 (NetPacket.time pkt + contention_delay + zero_load_delay))
    (u64 (NetPacket.zero_load_delay pkt + zero_load_delay))
    (u64 (NetPacket.contention_delay pkt + contention_delay)).

(** [forwardPacket] writes the hop into the packet. *)
Definition apply {Msg} (hop : Hop) (pkt : NetPacket Msg) : NetPacket Msg := pkt
  <| NetPacket.node_type := _next_node_type hop |>
  <| NetPacket.time := _time hop |>
  <| NetPacket.zero_load_delay := _zero_load_delay hop |>
  <| NetPacket.contention_delay := _contention_delay hop |>.
End Hop.

(** ** The base class *)

Module NetworkModel.
Import PacketType.

Record NetworkModel := mkNetworkModel {
  _network_id : EStaticNetwork;
  _tile_id : Z;
  _enabled : bool;
  _frequency : float;
  _flit_width : Z;
  _has_broadcast_capability : bool;
  _total_packets_sent : Z;
  _total_flits_sent : Z;
  _total_bytes_sent : Z;
  _total_packets_broadcasted : Z;
  _total_flits_broadcasted : Z;
  _total_bytes_broadcasted : Z;
  _total_packets_received : Z;
  _total_flits_received : Z;
  _total_bytes_received : Z;
  _total_packet_latency : Z;
  _total_contention_delay : Z;
  _total_flits_sent_in_current_interval : Z;
  _total_flits_broadcasted_in_current_interval : Z;
  _total_flits_received_in_current_interval : Z
}.
#[global] Instance eta_NetworkModel : Eta NetworkModel := λ m, mkNetworkModel
  (_network_id m) (_tile_id m) (_enabled m) (_frequency m) (_flit_width m) (_has_broadcast_capability m)
  (_total_packets_sent m) (_total_flits_sent m) (_total_bytes_sent m)
  (_total_packets_broadcasted m) (_total_flits_broadcasted m) (_total_bytes_broadcasted m)
  (_total_packets_received m) (_total_flits_received m) (_total_bytes_received m)
  (_total_packet_latency m) (_total_contention_delay m)
  (_total_flits_sent_in_current_interval m) (_total_flits_broadcasted_in_current_interval m)
  (_total_flits_received_in_current_interval m).

(** The constructor and the members the derived classes set in theirs. *)
Definition make (network_id : EStaticNetwork) (tile_id : Z) (frequency : float) (flit_width : Z)
    (has_broadcast_capability : bool) : NetworkModel :=
  mkNetworkModel network_id tile_id false frequency flit_width has_broadcast_capability
    0 0 0 0 0 0 0 0 0 0 0 0 0 0.

Definition enable (m : NetworkModel) : NetworkModel := m <| _enabled := true |>.
Definition disable (m : NetworkModel) : NetworkModel := m <| _enabled := false |>.

Definition initializeCurrentUtilizationStatistics (m : NetworkModel) : NetworkModel := m
  <| _total_flits_sent_in_current_interval := 0 |>
  <| _total_flits_broadcasted_in_current_interval := 0 |>
  <| _total_flits_received_in_current_interval := 0 |>.
Definition popCurrentUtilizationStatistics : M NetworkModel (Z * Z * Z) :=
  m ← gets id ;
  modify initializeCurrentUtilizationStatistics ;;
  mret (_total_flits_sent_in_current_interval m, _total_flits_broadcasted_in_current_interval m,
        _total_flits_received_in_current_interval m).

Definition computeNumFlits (m : NetworkModel) (packet_length : Z) : res Z :=
  if _flit_width m =? -1 then Ok 0 else
  let num_bits := s32 (packet_length * 8) in
  check (negb (_flit_width m =? 0)) (EDivZero "NetworkModel::computeNumFlits") ;;
  if Z.rem num_bits (_flit_width m) =? 0 then Ok (Z.quot num_bits (_flit_width m))
  else Ok (Z.quot num_bits (_flit_width m) + 1).

Section model.
Context {Msg : Type} `{MemoryManager Msg} (cfg : SysConfig.Config).
Implicit Types pkt : NetPacket Msg.

Definition isApplicationTile (tile_id : Z) : bool :=
  (0 <=? tile_id) && (tile_id <? SysConfig.m_application_tiles cfg).
Definition isSystemTile (tile_id : Z) : bool :=
  (tile_id >=? SysConfig.m_application_tiles cfg) && (tile_id <? SysConfig.getTotalTiles cfg).

Definition isMemoryNetwork (n : EStaticNetwork) : bool :=
  bool_decide (n = STATIC_NETWORK_MEMORY_1) || bool_decide (n = STATIC_NETWORK_MEMORY_2).

(** The message of a packet that the memory manager reads. *)
Definition message (pkt : NetPacket Msg) : res Msg :=
  match NetPacket.data pkt with
  | NetPacket.Message msg => Ok msg
  | NetPacket.NULL => Fail (ENull "pkt.data")
  | NetPacket.Bytes _ => Fail (ERange "pkt.data")
  end.

Definition getRequester (m : NetworkModel) (pkt : NetPacket Msg) : res Z :=
  check (isMemoryNetwork (_network_id m)) (EAssert "NetworkModel::getRequester") ;;
  msg ← message pkt ; Ok (getShmemRequester msg).

Definition isModelEnabled (m : NetworkModel) (pkt : NetPacket Msg) : res bool :=
  if isMemoryNetwork (_network_id m) then
    if _enabled m then
      requester ← getRequester m pkt ;
      if negb (isSystemTile requester) then msg ← message pkt ; Ok (isModeled msg) else Ok false
    else Ok false
  else Ok (_enabled m).

Definition getModeledLength (pkt : NetPacket Msg) : res Z :=
  match NetPacket.type pkt with
  | SHARED_MEM_1 | SHARED_MEM_2 =>
    let metadata_size := 1 + 2 * computeTileIDLength (SysConfig.getTotalTiles cfg) + 2 in
    msg ← message pkt ;
    data_size ← getModeledLength_of msg ;
    Ok (u32 (metadata_size + data_size))
  | _ => Ok (NetPacket.bufferSize pkt)
  end.

Definition updateSendCounters (pkt : NetPacket Msg) : M NetworkModel unit :=
  m ← gets id ;
  assert (tile_id (NetPacket.sender pkt) =? _tile_id m) "NetworkModel::updateSendCounters" ;;
  packet_length ← lift (getModeledLength pkt) ;
  num_flits ← lift (computeNumFlits m packet_length) ;
  modify (λ m, m
    <| _total_packets_sent ::= λ n, u64 (n + 1) |>
    <| _total_flits_sent ::= λ n, u64 (n + num_flits) |>
    <| _total_bytes_sent ::= λ n, u64 (n + packet_length) |>
    <| _total_flits_sent_in_current_interval ::= λ n, u64 (n + num_flits) |>) ;;
  when (tile_id (NetPacket.receiver pkt) =? NetPacket.BROADCAST)
    (modify (λ m, m
      <| _total_packets_broadcasted ::= λ n, u64 (n + 1) |>
      <| _total_flits_broadcasted ::= λ n, u64 (n + num_flits) |>
      <| _total_bytes_broadcasted ::= λ n, u64 (n + packet_length) |>
      <| _total_flits_broadcasted_in_current_interval ::= λ n, u64 (n + num_flits) |>)).

Definition updateReceiveCounters (pkt : NetPacket Msg) : M NetworkModel unit :=
  m ← gets id ;
  let receiver := tile_id (NetPacket.receiver pkt) in
  assert ((receiver =? NetPacket.BROADCAST) || (receiver =? _tile_id m)) "NetworkModel::updateReceiveCounters" ;;
  packet_length ← lift (getModeledLength pkt) ;
  num_flits ← lift (computeNumFlits m packet_length) ;
  modify (λ m, m
    <| _total_packets_received ::= λ n, u64 (n + 1) |>
    <| _total_flits_received ::= λ n, u64 (n + num_flits) |>
    <| _total_bytes_received ::= λ n, u64 (n + packet_length) |>
    <| _total_flits_received_in_current_interval ::= λ n, u64 (n + num_flits) |>
    <| _total_packet_latency ::= λ n,
         u64 (n + (NetPacket.zero_load_delay pkt + NetPacket.contention_delay pkt)) |>
    <| _total_contention_delay ::= λ n, u64 (n + NetPacket.contention_delay pkt) |>).

Definition isPacketReadyToBeReceived (m : NetworkModel) (pkt : NetPacket Msg) : res bool :=
  if bool_decide (_network_id m = STATIC_NETWORK_SYSTEM) then
    check (tile_id (NetPacket.receiver pkt) =? _tile_id m) (EAssert "NetworkModel::isPacketReadyToBeReceived") ;;
    Ok true
  else Ok (NetPacket.node_type pkt =? NetPacket.RECEIVE_TILE).

(** The serialization latency of the last link; the models of the source do not
    override [processReceivedPacket]. *)
Definition processReceivedPacket (m : NetworkModel) (pkt : NetPacket Msg) : res (NetPacket Msg) :=
  packet_length ← getModeledLength pkt ;
  num_flits ← computeNumFlits m packet_length ;
  Ok (pkt <| NetPacket.time ::= λ t, u64 (t + num_flits) |>
          <| NetPacket.zero_load_delay ::= λ t, u64 (t + num_flits) |>).

Definition __processReceivedPacket (pkt : NetPacket Msg) : M NetworkModel (NetPacket Msg) :=
  m ← gets id ;
  let pkt_sender := tile_id (NetPacket.sender pkt) in
  let pkt_receiver := tile_id (NetPacket.receiver pkt) in
  when (negb (bool_decide (_network_id m = STATIC_NETWORK_SYSTEM)))
    (assert (NetPacket.node_type pkt =? NetPacket.RECEIVE_TILE) "NetworkModel::__processReceivedPacket") ;;
  if isSystemTile pkt_sender || isSystemTile (_tile_id m) || (pkt_sender =? pkt_receiver) then mret pkt else
  enabled ← lift (isModelEnabled m pkt) ;
  if negb enabled then mret pkt else
  pkt ← lift (processReceivedPacket m pkt) ;
  updateReceiveCounters pkt ;;
  mret pkt.

(** [processCornerCases]: the hops it adds and whether nothing is left to do. *)
Definition processCornerCases (m : NetworkModel) (pkt : NetPacket Msg) : res (list Hop.Hop * bool) :=
  let pkt_sender := tile_id (NetPacket.sender pkt) in
  let pkt_receiver := tile_id (NetPacket.receiver pkt) in
  let receive i := Hop.make pkt i NetPacket.RECEIVE_TILE 0 0 in
  check (pkt_sender =? _tile_id m) (EAssert "NetworkModel::processCornerCases") ;;
  if pkt_sender =? pkt_receiver then Ok ([receive pkt_receiver], true)
  else if isSystemTile pkt_sender then
    if pkt_receiver =? NetPacket.BROADCAST then
      Ok (receive <$> seqZ 0 (SysConfig.getTotalTiles cfg), true)
    else Ok ([receive pkt_receiver], true)
  else if isSystemTile pkt_receiver then Ok ([receive pkt_receiver], true)
  else
    check (negb (pkt_sender =? pkt_receiver) && isApplicationTile pkt_sender &&
           (isApplicationTile pkt_receiver || (pkt_receiver =? NetPacket.BROADCAST)))
      (EAssert "NetworkModel::processCornerCases") ;;
    if pkt_receiver =? NetPacket.BROADCAST then
      Ok (receive <$> seqZ (SysConfig.m_application_tiles cfg)
            (SysConfig.getTotalTiles cfg - SysConfig.m_application_tiles cfg), false)
    else Ok ([], false).

End model.
End NetworkModel.

(** ** Routers *)

Module RouterModel.

Record RouterModel := mkRouterModel {
  _num_output_ports : Z;
  _delay : Z;
  _contention_model_enabled : bool;
  _contention_model_list : list Queue.Queue;
  _total_buffer_writes : Z;
  _total_buffer_reads : Z;
  _total_switch_allocator_requests : Z;
  _total_crossbar_traversals : list Z;
  _total_contention_delay : list Z;
  _total_packets : list Z
}.
#[global] Instance eta_RouterModel : Eta RouterModel := λ r, mkRouterModel
  (_num_output_ports r) (_delay r) (_contention_model_enabled r) (_contention_model_list r)
  (_total_buffer_writes r) (_total_buffer_reads r) (_total_switch_allocator_requests r)
  (_total_crossbar_traversals r) (_total_contention_delay r) (_total_packets r).

(** The constructor: one queue model for each output port, all in the state
    [QueueModel::create] returns. *)
Definition make (queue_cfg : Queue.Cfg) (num_output_ports delay : Z) (contention_model_enabled : bool)
    (contention_model_type : string) : res RouterModel :=
  let zeros := replicate (Z.to_nat num_output_ports) 0 in
  queues ← (if contention_model_enabled then
              q ← Queue.create queue_cfg contention_model_type 1 ;
              Ok (replicate (Z.to_nat num_output_ports) q)
            else Ok []) ;
  Ok (mkRouterModel num_output_ports delay contention_model_enabled queues 0 0 0 zeros zeros zeros).

Definition OUTPUT_PORT_ALL : Z := s32 0xbabecafe.

Definition updateEventCounters (num_flits : Z) (output_port_list : list Z) : M RouterModel unit :=
  r ← gets id ;
  let i := zlength output_port_list - 1 in
  n ← lift (vget "_total_crossbar_traversals" (_total_crossbar_traversals r) i) ;
  l ← lift (vset "_total_crossbar_traversals" (_total_crossbar_traversals r) i (u64 (n + num_flits))) ;
  modify (λ r, r
    <| _total_buffer_writes ::= λ n, u64 (n + num_flits) |>
    <| _total_buffer_reads ::= λ n, u64 (n + num_flits) |>
    <| _total_switch_allocator_requests ::= λ n, u64 (n + 1) |>
    <| _total_crossbar_traversals := l |>).

Definition updateContentionCounters (contention_delay : Z) (output_port_list : list Z) : M RouterModel unit :=
  mfor output_port_list (λ port,
    r ← gets id ;
    d ← lift (vget "_total_contention_delay" (_total_contention_delay r) port) ;
    ds ← lift (vset "_total_contention_delay" (_total_contention_delay r) port (u64 (d + contention_delay))) ;
    n ← lift (vget "_total_packets" (_total_packets r) port) ;
    ns ← lift (vset "_total_packets" (_total_packets r) port (u64 (n + 1))) ;
    modify (λ r, r <| _total_contention_delay := ds |> <| _total_packets := ns |>)).

Section router.
Context {Msg : Type} `{MemoryManager Msg} (cfg : SysConfig.Config) (pow : double → double → double).
Implicit Types pkt : NetPacket Msg.

(** The largest delay of the queues of the output ports. *)
Fixpoint queue_delays (time num_flits : Z) (output_port_list : list Z) (max_queue_delay : Z) : M RouterModel Z :=
  match output_port_list with
  | [] => mret max_queue_delay
  | port :: ports =>
    r ← gets id ;
    q ← lift (vget "_contention_model_list" (_contention_model_list r) port) ;
    dq ← lift (Queue.computeQueueDelay pow time (u64 num_flits) q) ;
    qs ← lift (vset "_contention_model_list" (_contention_model_list r) port dq.2) ;
    modify (λ r, r <| _contention_model_list := qs |>) ;;
    queue_delays time num_flits ports (Z.max max_queue_delay dq.1)
  end.

(** [processPacket] returns the delays it adds to its arguments. *)
Definition processPacket_list (model : NetworkModel.NetworkModel) (pkt : NetPacket Msg) (output_port_list : list Z)
    (zero_load_delay contention_delay : Z) : M RouterModel (Z * Z) :=
  enabled ← lift (NetworkModel.isModelEnabled cfg model pkt) ;
  if negb enabled then mret (zero_load_delay, contention_delay) else
  r ← gets id ;
  assert ((1 <=? zlength output_port_list) && (_num_output_ports r >=? zlength output_port_list))
    "RouterModel::processPacket" ;;
  packet_length ← lift (NetworkModel.getModeledLength cfg pkt) ;
  num_flits ← lift (NetworkModel.computeNumFlits model packet_length) ;
  contention_delay ←
    (if _contention_model_enabled r then
       max_queue_delay ← queue_delays (NetPacket.time pkt) num_flits output_port_list 0 ;
       updateContentionCounters max_queue_delay output_port_list ;;
       mret (u64 (contention_delay + max_queue_delay))
     else mret contention_delay) ;
  updateEventCounters num_flits output_port_list ;;
  mret (u64 (zero_load_delay + _delay r), contention_delay).

Definition processPacket (model : NetworkModel.NetworkModel) (pkt : NetPacket Msg) (output_port : Z)
    (zero_load_delay contention_delay : Z) : M RouterModel (Z * Z) :=
  r ← gets id ;
  processPacket_list model pkt
    (if output_port =? OUTPUT_PORT_ALL then seqZ 0 (_num_output_ports r) else [output_port])
    zero_load_delay contention_delay.
End router.
End RouterModel.

(** ** Links *)

Module ElectricalLinkModel.

Record ElectricalLinkModel := mkElectricalLinkModel {
  _net_link_delay : Z;
  _total_link_traversals : Z
}.
#[global] Instance eta_ElectricalLinkModel : Eta ElectricalLinkModel := λ l, mkElectricalLinkModel
  (_net_link_delay l) (_total_link_traversals l).

(** The constructor: signals travel 1 mm in 0.01 ns. *)
Definition propagation_speed : float := fdiv (float_of_int 1) (float_of_int 100).
Definition make (link_frequency : float) (link_length : double) : res ElectricalLinkModel :=
  net_link_delay ← to_u64 "ElectricalLinkModel::_net_link_delay"
    (dceil (dmul (double_of_float (fmul link_frequency propagation_speed)) link_length)) ;
  Ok (mkElectricalLinkModel net_link_delay 0).

Definition processPacket {Msg} `{MemoryManager Msg} (cfg : SysConfig.Config) (model : NetworkModel.NetworkModel)
    (pkt : NetPacket Msg) (zero_load_delay : Z) : M ElectricalLinkModel Z :=
  enabled ← lift (NetworkModel.isModelEnabled cfg model pkt) ;
  if negb enabled then mret zero_load_delay else
  pkt_length ← lift (NetworkModel.getModeledLength cfg pkt) ;
  num_flits ← lift (NetworkModel.computeNumFlits model pkt_length) ;
  l ← gets id ;
  modify (λ l, l <| _total_link_traversals ::= λ n, u64 (n + num_flits) |>) ;;
  mret (u64 (zero_load_delay + _net_link_delay l)).
End ElectricalLinkModel.

Module OpticalLinkModel.

Record LaserModes := mkLaserModes { idle : bool; unicast : bool; broadcast : bool }.
#[global] Instance eta_LaserModes : Eta LaserModes := λ l, mkLaserModes (idle l) (unicast l) (broadcast l).

Record OpticalLinkModel := mkOpticalLinkModel {
  _net_link_delay : Z;
  _laser_modes : LaserModes;
  _total_link_unicasts : Z;
  _total_link_broadcasts : Z
}.
#[global] Instance eta_OpticalLinkModel : Eta OpticalLinkModel := λ l, mkOpticalLinkModel
  (_net_link_delay l) (_laser_modes l) (_total_link_unicasts l) (_total_link_broadcasts l).

Definition make (waveguide_delay_per_mm : double) (e_o_conversion_delay o_e_conversion_delay : Z)
    (laser_modes : LaserModes) (frequency : float) (waveguide_length : double) : res OpticalLinkModel :=
  net_link_delay ← to_u64 "OpticalLinkModel::_net_link_delay"
    (dceil (dadd (dadd (dmul (dmul waveguide_delay_per_mm waveguide_length) (double_of_float frequency))
                       (of_int e_o_conversion_delay)) (of_int o_e_conversion_delay))) ;
  Ok (mkOpticalLinkModel net_link_delay laser_modes 0 0).

Definition ENDPOINT_ALL : Z := -1.

Definition processPacket {Msg} `{MemoryManager Msg} (cfg : SysConfig.Config) (model : NetworkModel.NetworkModel)
    (pkt : NetPacket Msg) (num_endpoints zero_load_delay : Z) : M OpticalLinkModel Z :=
  enabled ← lift (NetworkModel.isModelEnabled cfg model pkt) ;
  if negb enabled then mret zero_load_delay else
  pkt_length ← lift (NetworkModel.getModeledLength cfg pkt) ;
  num_flits ← lift (NetworkModel.computeNumFlits model pkt_length) ;
  l ← gets id ;
  (if num_endpoints =? ENDPOINT_ALL then
     assert (broadcast (_laser_modes l)) "OpticalLinkModel::processPacket" ;;
     modify (λ l, l <| _total_link_broadcasts ::= λ n, u64 (n + num_flits) |>)
   else if num_endpoints =? 1 then
     if unicast (_laser_modes l) then modify (λ l, l <| _total_link_unicasts ::= λ n, u64 (n + num_flits) |>)
     else modify (λ l, l <| _total_link_broadcasts ::= λ n, u64 (n + num_flits) |>)
   else fail (ELog "Unrecognized number of endpoints")) ;;
  mret (u64 (zero_load_delay + _net_link_delay l)).
End OpticalLinkModel.
