(* ===== verification/MeshModels.v ===== *)
(** * MeshModels: the magic and the electrical mesh networks

    Models network/models/network_model_magic.cc,
    network_model_emesh_hop_counter.{h,cc} and
    network_model_emesh_hop_by_hop.{h,cc}.  The topology of the mesh, static in
    the source, is a field of each model.  Routers and links exist on
    application tiles only. *)
From S2P Require Import Prelude Utils Double CacheSet Cache Shmem ThreadManager QueueModels HistoryTree NetPacket NetworkModel.

(** ** Magic *)

Module NetworkModelMagic.

Record NetworkModelMagic := mkNetworkModelMagic {
  _model : NetworkModel.NetworkModel;
  (** atac/design/delay_optical_network of the configuration file. *)
  _latency : Z
}.
#[global] Instance eta_NetworkModelMagic : Eta NetworkModelMagic := λ m, mkNetworkModelMagic (_model m) (_latency m).

Definition make (network_id : PacketType.EStaticNetwork) (tile_id latency : Z) : NetworkModelMagic :=
  mkNetworkModelMagic (NetworkModel.make network_id tile_id (float_of_int 1) (-1) false) latency.

Definition routePacket {Msg} (pkt : NetPacket Msg) : M NetworkModelMagic (list Hop.Hop) :=
  m ← gets id ;
  mret [Hop.make pkt (tile_id (NetPacket.receiver pkt)) NetPacket.RECEIVE_TILE (u64 (_latency m)) 0].

End NetworkModelMagic.

(** ** Meshes *)

Module Mesh.

(** [floor(sqrt(n))] and [ceil(1.0 * n / width)]. *)
Definition floor_sqrt (n : Z) : res Z := to_s32 "floor(sqrt(n))" (dfloor (dsqrt (of_int n))).
Definition ceil_div (n d : Z) : res Z :=
  to_s32 "ceil(1.0 * n / d)" (dceil (ddiv (dmul (of_int 1) (of_int n)) (of_int d))).

Definition computePosition (mesh_width tile_id : Z) : Z * Z :=
  (Z.rem tile_id mesh_width, Z.quot tile_id mesh_width).
Definition computeTileID (mesh_width mesh_height x y : Z) : Z :=
  if (x <? 0) || (y <? 0) || (x >=? mesh_width) || (y >=? mesh_height) then INVALID_TILE_ID
  else y * mesh_width + x.

End Mesh.

(** ** The hop counter: one hop to the receiver *)

Module NetworkModelEMeshHopCounter.

Record NetworkModelEMeshHopCounter := mkNetworkModelEMeshHopCounter {
  _model : NetworkModel.NetworkModel;
  _mesh_width : Z;
  _mesh_height : Z;
  _hop_latency : Z;
  _buffer_writes : Z;
  _buffer_reads : Z;
  _switch_allocator_traversals : Z;
  _crossbar_traversals : Z;
  _link_traversals : Z
}.
#[global] Instance eta_NetworkModelEMeshHopCounter : Eta NetworkModelEMeshHopCounter := λ m,
  mkNetworkModelEMeshHopCounter (_model m) (_mesh_width m) (_mesh_height m) (_hop_latency m)
    (_buffer_writes m) (_buffer_reads m) (_switch_allocator_traversals m) (_crossbar_traversals m) (_link_traversals m).

(** The constructor and [createRouterAndLinkModels], which leaves the hop latency
    of system tiles unset. *)
Definition make (cfg : SysConfig.Config) (network_id : PacketType.EStaticNetwork) (tile_id : Z)
    (frequency : float) (flit_width router_delay link_delay : Z) : res NetworkModelEMeshHopCounter :=
  let num_application_tiles := SysConfig.m_application_tiles cfg in
  mesh_width ← Mesh.floor_sqrt num_application_tiles ;
  mesh_height ← Mesh.ceil_div num_application_tiles mesh_width ;
  check (num_application_tiles <=? mesh_width * mesh_height) (EAssert "NetworkModelEMeshHopCounter") ;;
  check (num_application_tiles >? (mesh_width - 1) * mesh_height) (EAssert "NetworkModelEMeshHopCounter") ;;
  check (num_application_tiles >? mesh_width * (mesh_height - 1)) (EAssert "NetworkModelEMeshHopCounter") ;;
  hop_latency ← (if NetworkModel.isSystemTile cfg tile_id then Ok 0 else
    check (u64 link_delay =? 1) (EAssert "NetworkModelEMeshHopCounter::link_delay") ;;
    Ok (u64 (router_delay + link_delay))) ;
  Ok (mkNetworkModelEMeshHopCounter (NetworkModel.make network_id tile_id frequency flit_width false)
        mesh_width mesh_height hop_latency 0 0 0 0 0).

Definition computeDistance (x1 y1 x2 y2 : Z) : Z := Z.abs (x1 - x2) + Z.abs (y1 - y2).

(** The products are computed in 32 bits. *)
Definition updateEventCounters (num_flits num_hops : Z) : M NetworkModelEMeshHopCounter unit :=
  let n := u32 (num_flits * num_hops) in
  modify (λ m, m
    <| _buffer_writes ::= λ c, u64 (c + n) |>
    <| _buffer_reads ::= λ c, u64 (c + n) |>
    <| _switch_allocator_traversals ::= λ c, u64 (c + num_hops) |>
    <| _crossbar_traversals ::= λ c, u64 (c + n) |>
    <| _link_traversals ::= λ c, u64 (c + n) |>).

Section counter.
Context {Msg : Type} `{MemoryManager Msg} (cfg : SysConfig.Config).

Definition updateDynamicEnergy (pkt : NetPacket Msg) (num_hops : Z) : M NetworkModelEMeshHopCounter unit :=
  m ← gets _model ;
  enabled ← lift (NetworkModel.isModelEnabled cfg m pkt) ;
  if negb enabled then skip else
  packet_length ← lift (NetworkModel.getModeledLength cfg pkt) ;
  num_flits ← lift (NetworkModel.computeNumFlits m packet_length) ;
  updateEventCounters (u32 num_flits) num_hops.

Definition routePacket (pkt : NetPacket Msg) : M NetworkModelEMeshHopCounter (list Hop.Hop) :=
  m ← gets id ;
  let '(sx, sy) := Mesh.computePosition (_mesh_width m) (tile_id (NetPacket.sender pkt)) in
  let '(dx, dy) := Mesh.computePosition (_mesh_width m) (tile_id (NetPacket.receiver pkt)) in
  let num_hops := u32 (computeDistance sx sy dx dy) in
  enabled ← lift (NetworkModel.isModelEnabled cfg (_model m) pkt) ;
  let latency := if enabled : bool then u64 (num_hops * _hop_latency m) else 0 in
  updateDynamicEnergy pkt num_hops ;;
  mret [Hop.make pkt (tile_id (NetPacket.receiver pkt)) NetPacket.RECEIVE_TILE latency 0].
End counter.

End NetworkModelEMeshHopCounter.

(** ** Hop by hop *)

Module NetworkModelEMeshHopByHop.

Definition EMESH : Z := 2.

Definition SELF : Z := 0.
Definition LEFT : Z := 1.
Definition RIGHT : Z := 2.
Definition DOWN : Z := 3.
Definition UP : Z := 4.

(** Objects of the routers and links of an application tile. *)
Record Routers := mkRouters {
  _injection_router : RouterModel.RouterModel;
  _mesh_router : RouterModel.RouterModel;
  _mesh_link_list : list ElectricalLinkModel.ElectricalLinkModel
}.
#[global] Instance eta_Routers : Eta Routers := λ r, mkRouters
  (_injection_router r) (_mesh_router r) (_mesh_link_list r).

Record NetworkModelEMeshHopByHop := mkNetworkModelEMeshHopByHop {
  _model : NetworkModel.NetworkModel;
  _mesh_width : Z;
  _mesh_height : Z;
  _routers : option Routers
}.
#[global] Instance eta_NetworkModelEMeshHopByHop : Eta NetworkModelEMeshHopByHop := λ m,
  mkNetworkModelEMeshHopByHop (_model m) (_mesh_width m) (_mesh_height m) (_routers m).

(** [NextDest] of the base class. *)
Record NextDest := mkNextDest { _tile_id : Z; _output_port : Z; _node_type : Z }.

Definition initializeEMeshTopologyParams (num_application_tiles : Z) : res (Z * Z) :=
  mesh_width ← Mesh.floor_sqrt num_application_tiles ;
  mesh_height ← Mesh.ceil_div num_application_tiles mesh_width ;
  check (num_application_tiles =? mesh_width * mesh_height) (EAssert "initializeEMeshTopologyParams") ;;
  Ok (mesh_width, mesh_height).

(** The parameters read from the configuration file. *)
Record Params := mkParams {
  p_frequency : float;
  p_flit_width : Z;
  p_broadcast_tree_enabled : bool;
  p_router_delay : Z;
  p_link_delay : Z;
  p_tile_width : double;
  p_contention_model_enabled : bool;
  p_contention_model_type : string
}.

Definition num_mesh_router_ports : Z := 5.

Definition createRouterAndLinkModels (queue_cfg : Queue.Cfg) (p : Params) : res Routers :=
  injection_router ← RouterModel.make queue_cfg 1 0 (p_contention_model_enabled p) (p_contention_model_type p) ;
  mesh_router ← RouterModel.make queue_cfg num_mesh_router_ports (u64 (p_router_delay p))
                  (p_contention_model_enabled p) (p_contention_model_type p) ;
  link ← ElectricalLinkModel.make (p_frequency p) (p_tile_width p) ;
  check (ElectricalLinkModel._net_link_delay link =? u64 (p_link_delay p)) (EAssert "createRouterAndLinkModels") ;;
  Ok (mkRouters injection_router mesh_router (replicate (Z.to_nat num_mesh_router_ports) link)).

Definition make (cfg : SysConfig.Config) (queue_cfg : Queue.Cfg) (p : Params)
    (network_id : PacketType.EStaticNetwork) (tile_id : Z) : res NetworkModelEMeshHopByHop :=
  wh ← initializeEMeshTopologyParams (SysConfig.m_application_tiles cfg) ;
  routers ← (if NetworkModel.isSystemTile cfg tile_id then Ok None
             else r ← createRouterAndLinkModels queue_cfg p ; Ok (Some r)) ;
  Ok (mkNetworkModelEMeshHopByHop
        (NetworkModel.make network_id tile_id (p_frequency p) (p_flit_width p) (p_broadcast_tree_enabled p))
        wh.1 wh.2 routers).

Section mesh.
Context {Msg : Type} `{MemoryManager Msg} (cfg : SysConfig.Config) (pow : double → double → double).
Implicit Types pkt : NetPacket Msg.

Definition in_routers {A} (op : M Routers A) : M NetworkModelEMeshHopByHop A := λ m,
  match _routers m with
  | Some r => match op r with Ok (a, r') => Ok (a, m <| _routers := Some r' |>) | Fail e => Fail e end
  | None => Fail (ENull "_mesh_router")
  end.
Definition injection_router {A} (op : M RouterModel.RouterModel A) : M NetworkModelEMeshHopByHop A :=
  in_routers (zoom _injection_router (λ x r, r <| _injection_router := x |>) op).
Definition mesh_router {A} (op : M RouterModel.RouterModel A) : M NetworkModelEMeshHopByHop A :=
  in_routers (zoom _mesh_router (λ x r, r <| _mesh_router := x |>) op).
Definition mesh_link (port : Z) {A} (op : M ElectricalLinkModel.ElectricalLinkModel A) :
    M NetworkModelEMeshHopByHop A :=
  in_routers (
    r ← gets id ;
    l ← lift (vget "_mesh_link_list" (_mesh_link_list r) port) ;
    al ← lift (op l) ;
    ls ← lift (vset "_mesh_link_list" (_mesh_link_list r) port al.2) ;
    modify (λ r, r <| _mesh_link_list := ls |>) ;;
    mret al.1).

(** The destinations of a broadcast from the tile at [(sx, sy)], seen from the
    tile at [(cx, cy)]: along the row of the sender, and up and down from it. *)
Definition broadcast_dests (m : NetworkModelEMeshHopByHop) (sx sy cx cy : Z) : list NextDest :=
  let computeTileID := Mesh.computeTileID (_mesh_width m) (_mesh_height m) in
  (if cy >=? sy then [mkNextDest (computeTileID cx (cy + 1)) UP EMESH] else []) ++
  (if cy <=? sy then [mkNextDest (computeTileID cx (cy - 1)) DOWN EMESH] else []) ++
  (if cy =? sy then
     (if cx >=? sx then [mkNextDest (computeTileID (cx + 1) cy) RIGHT EMESH] else []) ++
     (if cx <=? sx then [mkNextDest (computeTileID (cx - 1) cy) LEFT EMESH] else [])
   else []) ++
  [mkNextDest (NetworkModel._tile_id (_model m)) SELF NetPacket.RECEIVE_TILE].

Definition unicast_dest (m : NetworkModelEMeshHopByHop) (cx cy dx dy : Z) : NextDest :=
  let computeTileID := Mesh.computeTileID (_mesh_width m) (_mesh_height m) in
  if cx >? dx then mkNextDest (computeTileID (cx - 1) cy) LEFT EMESH
  else if cx <? dx then mkNextDest (computeTileID (cx + 1) cy) RIGHT EMESH
  else if cy >? dy then mkNextDest (computeTileID cx (cy - 1)) DOWN EMESH
  else if cy <? dy then mkNextDest (computeTileID cx (cy + 1)) UP EMESH
  else mkNextDest (NetworkModel._tile_id (_model m)) SELF NetPacket.RECEIVE_TILE.

(** The links of the destinations and the largest of their delays. *)
Fixpoint link_delays (model : NetworkModel.NetworkModel) (pkt : NetPacket Msg) (dests : list NextDest)
    (max_link_delay : Z) : M NetworkModelEMeshHopByHop Z :=
  match dests with
  | [] => mret max_link_delay
  | d :: dests =>
    link_delay ← mesh_link (_output_port d) (ElectricalLinkModel.processPacket cfg model pkt 0) ;
    link_delays model pkt dests (Z.max max_link_delay link_delay)
  end.

Definition routePacket (pkt : NetPacket Msg) : M NetworkModelEMeshHopByHop (list Hop.Hop) :=
  m ← gets id ;
  let model := _model m in
  let pkt_sender := tile_id (NetPacket.sender pkt) in
  let pkt_receiver := tile_id (NetPacket.receiver pkt) in
  let current := NetworkModel._tile_id model in
  if NetPacket.node_type pkt =? NetPacket.SEND_TILE then
    d ← injection_router (RouterModel.processPacket cfg pow model pkt 0 0 0) ;
    mret [Hop.make pkt current EMESH 0 d.2]
  else if NetPacket.node_type pkt =? EMESH then
    let '(cx, cy) := Mesh.computePosition (_mesh_width m) current in
    if pkt_receiver =? NetPacket.BROADCAST then
      let '(sx, sy) := Mesh.computePosition (_mesh_width m) pkt_sender in
      let dests := filter (λ d, _tile_id d ≠ INVALID_TILE_ID) (broadcast_dests m sx sy cx cy) in
      max_link_delay ← link_delays model pkt dests 0 ;
      d ← mesh_router (RouterModel.processPacket_list cfg pow model pkt (_output_port <$> dests) max_link_delay 0) ;
      mret ((λ dest, Hop.make pkt (_tile_id dest) (_node_type dest) d.1 d.2) <$> dests)
    else
      let '(dx, dy) := Mesh.computePosition (_mesh_width m) pkt_receiver in
      let dest := unicast_dest m cx cy dx dy in
      num_links ← in_routers (gets (λ r, zlength (_mesh_link_list r))) ;
      assert ((_output_port dest >=? 0) && (_output_port dest <? num_links)) "routePacket: output port" ;;
      d ← mesh_router (RouterModel.processPacket cfg pow model pkt (_output_port dest) 0 0) ;
      zero_load_delay ← mesh_link (_output_port dest) (ElectricalLinkModel.processPacket cfg model pkt d.1) ;
      assert (negb (_tile_id dest =? INVALID_TILE_ID)) "routePacket: next tile" ;;
      mret [Hop.make pkt (_tile_id dest) (_node_type dest) zero_load_delay d.2]
  else fail (ELog "Unrecognized Node Type").
End mesh.

(** ** Placement *)

Definition computeDistance (num_application_tiles sender receiver : Z) : res Z :=
  mesh_width ← Mesh.floor_sqrt num_application_tiles ;
  let '(sx, sy) := Mesh.computePosition mesh_width sender in
  let '(dx, dy) := Mesh.computePosition mesh_width receiver in
  Ok (Z.abs (sx - dx) + Z.abs (sy - dy)).

Definition isTileCountPermissible (tile_count : Z) : res bool :=
  mesh_width ← Mesh.floor_sqrt tile_count ;
  mesh_height ← Mesh.ceil_div tile_count mesh_width ;
  Ok (tile_count =? mesh_width * mesh_height).

(** The tile of the memory controller in cell [(i, j)] of the mesh of memory
    controllers: the middle of the part of the mesh the cell stands for. *)
Definition memory_controller_tile (mesh_width mesh_height mc_width mc_height i j : Z) : Z :=
  let size_x := Z.quot mesh_width mc_width in
  let size_y := Z.quot mesh_height mc_height in
  let base_x := i * size_x in
  let base_y := j * size_y in
  let size_x := if i =? mc_width - 1 then mesh_width - (mc_width - 1) * size_x else size_x in
  let size_y := if j =? mc_height - 1 then mesh_height - (mc_height - 1) * size_y else size_y in
  let pos_x := base_x + Z.quot size_x 2 in
  let pos_y := base_y + Z.quot size_y 2 in
  pos_x + pos_y * mesh_width.

Definition computeMemoryControllerPositions (num_application_tiles num_memory_controllers : Z) : res (list Z) :=
  wh ← initializeEMeshTopologyParams num_application_tiles ;
  mc_width ← Mesh.floor_sqrt num_memory_controllers ;
  mc_height ← Mesh.ceil_div num_memory_controllers mc_width ;
  Ok (take (Z.to_nat num_memory_controllers)
        (j ← seqZ 0 mc_height ; i ← seqZ 0 mc_width ;
         [memory_controller_tile wh.1 wh.2 mc_width mc_height i j])).

(** The tiles of a rectangle, column by column. *)
Definition rectangle (mesh_width base_x size_x base_y size_y : Z) : list Z :=
  ii ← seqZ 0 size_x ; jj ← seqZ 0 size_y ; [(base_x + ii) + (base_y + jj) * mesh_width].

(** The tiles of each process: a mesh of processes covers the rows below
    [mesh_height_l]; the processes left share the rows above. *)
Definition process_tiles (mesh_width mesh_height proc_mesh_width proc_mesh_height mesh_height_l process_count p : Z) :
    list Z :=
  if p <? proc_mesh_width * proc_mesh_height then
    let i := p `mod` proc_mesh_width in
    let j := p `div` proc_mesh_width in
    let size_x := Z.quot mesh_width proc_mesh_width in
    let size_y := Z.quot mesh_height_l proc_mesh_height in
    let base_x := i * size_x in
    let base_y := j * size_y in
    let size_x := if i =? proc_mesh_width - 1 then mesh_width - (proc_mesh_width - 1) * size_x else size_x in
    let size_y := if j =? proc_mesh_height - 1 then mesh_height_l - (proc_mesh_height - 1) * size_y else size_y in
    rectangle mesh_width base_x size_x base_y size_y
  else
    let procs_left := process_count - proc_mesh_width * proc_mesh_height in
    let size_x := Z.quot mesh_width procs_left in
    let size_y := mesh_height - mesh_height_l in
    let base_x := (p - proc_mesh_width * proc_mesh_height) * size_x in
    let size_x := if p =? process_count - 1 then mesh_width - (procs_left - 1) * size_x else size_x in
    rectangle mesh_width base_x size_x mesh_height_l size_y.

Definition computeProcessToTileMapping (num_application_tiles process_count : Z) : res (list (list Z)) :=
  wh ← initializeEMeshTopologyParams num_application_tiles ;
  proc_mesh_width ← Mesh.floor_sqrt process_count ;
  proc_mesh_height ← to_s32 "proc_mesh_height"
    (dfloor (ddiv (dmul (of_int 1) (of_int process_count)) (of_int proc_mesh_width))) ;
  mesh_height_l ← to_s32 "mesh_height_l"
    (ddiv (dmul (dmul (dmul (of_int 1) (of_int wh.2)) (of_int proc_mesh_width)) (of_int proc_mesh_height))
          (of_int process_count)) ;
  Ok (process_tiles wh.1 wh.2 proc_mesh_width proc_mesh_height mesh_height_l process_count
        <$> seqZ 0 process_count).

End NetworkModelEMeshHopByHop.
