(* ===== verification/AtacModel.v ===== *)
(** * AtacModel: the optical network of clusters

    Models network/models/network_model_atac.{h,cc}.  Tiles form a mesh (the
    ENet) that is divided into clusters; a packet for another cluster goes over
    the mesh to an access point of its own cluster, from there to the optical
    hub, over the optical link to the hubs of the receiving clusters, and over
    their receive networks to the tiles.  The topology, static in the source,
    is a record; routers and links exist on the tiles the source creates them
    on. *)
From S2P Require Import Prelude Utils Double CacheSet Cache Shmem ThreadManager QueueModels HistoryTree NetPacket NetworkModel MeshModels.

Module NetworkModelAtac.

Definition EMESH : Z := 2.
Definition SEND_HUB : Z := 3.
Definition RECEIVE_HUB : Z := 4.

Definition SELF : Z := 0.
Definition LEFT : Z := 1.
Definition RIGHT : Z := 2.
Definition DOWN : Z := 3.
Definition UP : Z := 4.

Inductive GlobalRoutingStrategy := CLUSTER_BASED | DISTANCE_BASED.
Inductive GlobalRoute := GLOBAL_ENET | GLOBAL_ONET.
Inductive ReceiveNetType := HTREE | STAR.
#[global] Instance ReceiveNetType_eq_dec : EqDecision ReceiveNetType.
Proof. solve_decision. Defined.

Record Boundary := mkBoundary { minX : Z; maxX : Z; minY : Z; maxY : Z }.
Record ClusterInfo := mkClusterInfo { _boundary : Boundary; _access_point_list : list Z }.

Record Topology := mkTopology {
  _enet_width : Z;
  _enet_height : Z;
  _num_clusters : Z;
  _cluster_size : Z;
  _numX_clusters : Z;
  _numY_clusters : Z;
  _cluster_width : Z;
  _cluster_height : Z;
  _num_access_points_per_cluster : Z;
  _num_sub_clusters : Z;
  _numX_sub_clusters : Z;
  _numY_sub_clusters : Z;
  _sub_cluster_width : Z;
  _sub_cluster_height : Z;
  _cluster_info_list : list ClusterInfo;
  _receive_net_type : ReceiveNetType;
  _num_receive_networks_per_cluster : Z;
  _global_routing_strategy : GlobalRoutingStrategy;
  _unicast_distance_threshold : Z
}.

(** The parameters read from the configuration file. *)
Record Params := mkParams {
  p_frequency : float;
  p_flit_width : Z;
  p_cluster_size : Z;
  p_num_access_points_per_cluster : Z;
  p_receive_net_type : string;
  p_num_receive_networks_per_cluster : Z;
  p_global_routing_strategy : string;
  p_unicast_distance_threshold : Z;
  p_contention_model_enabled : bool;
  p_contention_model_type : string;
  p_laser_modes : list string;
  p_enet_router_delay : Z;
  p_send_hub_router_delay : Z;
  p_receive_hub_router_delay : Z;
  p_star_net_router_delay : Z;
  p_tile_width : double;
  p_waveguide_delay_per_mm : double;
  p_e_o_conversion : Z;
  p_o_e_conversion : Z
}.

Definition parseGlobalRoutingStrategy (strategy : string) : res GlobalRoutingStrategy :=
  if bool_decide (strategy = "cluster_based") then Ok CLUSTER_BASED
  else if bool_decide (strategy = "distance_based") then Ok DISTANCE_BASED
  else Fail (ELog "Unrecognized Global Routing Strategy").
Definition parseReceiveNetType (str : string) : res ReceiveNetType :=
  if bool_decide (str = "htree") then Ok HTREE
  else if bool_decide (str = "star") then Ok STAR
  else Fail (ELog "Unrecognized Receive Net Type").

(** [initializeLaserModes], from the tokens of the configuration. *)
Definition initializeLaserModes (modes : list string) : res OpticalLinkModel.LaserModes :=
  foldl (λ acc s,
    l ← acc ;
    if bool_decide (s = "idle") then Ok (l <| OpticalLinkModel.idle := true |>)
    else if bool_decide (s = "unicast") then Ok (l <| OpticalLinkModel.unicast := true |>)
    else if bool_decide (s = "broadcast") then Ok (l <| OpticalLinkModel.broadcast := true |>)
    else Fail (ELog "Unrecognized Laser Mode"))
    (Ok (OpticalLinkModel.mkLaserModes false false false)) modes.

(** ** Topology *)

(** [sqrt] converted to an integer. *)
Definition int_sqrt (n : Z) : res Z := to_s32 "sqrt" (dsqrt (of_int n)).

(** [initializeAccessPointList]: the middle of each sub-cluster. *)
Definition initializeAccessPointList (enet_width numX numY width height : Z) (b : Boundary) : list Z :=
  y ← seqZ 0 numY ; x ← seqZ 0 numX ;
  [(minY b + y * height + Z.quot height 2) * enet_width + (minX b + x * width + Z.quot width 2)].

(** [initializeClusters]. *)
Definition initializeClusters (p : Params) (rnt : ReceiveNetType) (strategy : GlobalRoutingStrategy)
    (enet_width num_clusters : Z) : res Topology :=
  let num_sub_clusters := p_num_access_points_per_cluster p in
  xy ← (if Utils.isEven (Utils.floorLog2 num_clusters) then
          x ← int_sqrt num_clusters ; Ok (x, x)
        else
          x ← int_sqrt (Z.quot num_clusters 2) ; y ← int_sqrt (num_clusters * 2) ; Ok (x, y)) ;
  let '(numX, numY) := xy in
  check (negb (numX =? 0) && negb (numY =? 0)) (EDivZero "initializeClusters") ;;
  let cluster_width := Z.quot enet_width numX in
  let cluster_height := Z.quot enet_width numY in
  sxy ← (if Utils.isEven (Utils.floorLog2 num_sub_clusters) then
           x ← int_sqrt num_sub_clusters ; Ok (x, x)
         else
           x ← int_sqrt (num_sub_clusters * 2) ; y ← int_sqrt (Z.quot num_sub_clusters 2) ; Ok (x, y)) ;
  let '(snumX, snumY) := sxy in
  check (negb (snumX =? 0) && negb (snumY =? 0)) (EDivZero "initializeClusters") ;;
  let sub_width := Z.quot cluster_width snumX in
  let sub_height := Z.quot cluster_height snumY in
  let boundary x y := mkBoundary (x * cluster_width) ((x + 1) * cluster_width)
                                 (y * cluster_height) ((y + 1) * cluster_height) in
  let info b := mkClusterInfo b (initializeAccessPointList enet_width snumX snumY sub_width sub_height b) in
  check (numX * numY =? num_clusters) (ERange "_cluster_info_list") ;;
  Ok (mkTopology enet_width enet_width num_clusters (p_cluster_size p) numX numY cluster_width cluster_height
        (p_num_access_points_per_cluster p) num_sub_clusters snumX snumY sub_width sub_height
        (y ← seqZ 0 numY ; x ← seqZ 0 numX ; [info (boundary x y)])
        rnt (p_num_receive_networks_per_cluster p) strategy (p_unicast_distance_threshold p)).

Definition isPerfectSquare (n : Z) : res bool :=
  sqrtn ← to_u64 "isPerfectSquare" (dfloor (dsqrt (double_of_float (float_of_int n)))) ;
  Ok (n =? u32 (sqrtn * sqrtn)).

Definition initializeANetTopologyParams (num_application_tiles : Z) (p : Params) : res Topology :=
  rnt ← parseReceiveNetType (p_receive_net_type p) ;
  strategy ← parseGlobalRoutingStrategy (p_global_routing_strategy p) ;
  check (p_num_access_points_per_cluster p <=? p_cluster_size p) (EAssert "num_access_points_per_cluster") ;;
  square ← isPerfectSquare num_application_tiles ;
  check square (EAssert "num_application_tiles: perfect square") ;;
  check (Utils.isPower2 num_application_tiles) (EAssert "num_application_tiles: power of 2") ;;
  check (Utils.isPower2 (p_cluster_size p)) (EAssert "cluster_size: power of 2") ;;
  check (negb (p_cluster_size p =? 0)) (EDivZero "cluster_size") ;;
  check (Z.rem num_application_tiles (p_cluster_size p) =? 0) (EAssert "cluster_size: multiple") ;;
  let num_clusters := Z.quot num_application_tiles (p_cluster_size p) in
  check (num_clusters >? 1) (EAssert "num_clusters") ;;
  check (Utils.isPower2 (p_num_access_points_per_cluster p)) (EAssert "num_access_points_per_cluster: power of 2") ;;
  enet_width ← Mesh.floor_sqrt num_application_tiles ;
  initializeClusters p rnt strategy enet_width num_clusters.

Section topology.
Context (t : Topology).

Definition computePositionOnENet (tile_id : Z) : Z * Z := Mesh.computePosition (_enet_width t) tile_id.
Definition computeTileIDOnENet (x y : Z) : Z := Mesh.computeTileID (_enet_width t) (_enet_height t) x y.

Definition cluster_mesh_width : Z := Z.quot (_enet_width t) (_cluster_width t).
Definition getClusterID (tile_id : Z) : Z :=
  let '(tile_x, tile_y) := computePositionOnENet tile_id in
  Z.quot tile_y (_cluster_height t) * cluster_mesh_width + Z.quot tile_x (_cluster_width t).

Definition getSubClusterID (tile_id : Z) : res Z :=
  let '(cx, cy) := computePositionOnENet tile_id in
  info ← vget "_cluster_info_list" (_cluster_info_list t) (getClusterID tile_id) ;
  let pos_x := Z.quot (cx - minX (_boundary info)) (_sub_cluster_width t) in
  let pos_y := Z.quot (cy - minY (_boundary info)) (_sub_cluster_height t) in
  Ok (pos_y * _numX_sub_clusters t + pos_x).

Definition getNearestAccessPoint (tile_id : Z) : res Z :=
  sub_cluster_id ← getSubClusterID tile_id ;
  info ← vget "_cluster_info_list" (_cluster_info_list t) (getClusterID tile_id) ;
  vget "_access_point_list" (_access_point_list info) sub_cluster_id.

Definition isAccessPoint (tile_id : Z) : res bool :=
  a ← getNearestAccessPoint tile_id ; Ok (tile_id =? a).

Definition getTileIDWithOpticalHub (cluster_id : Z) : Z :=
  let cluster_pos_x := Z.rem cluster_id cluster_mesh_width in
  let cluster_pos_y := Z.quot cluster_id cluster_mesh_width in
  let optical_hub_x := cluster_pos_x * _cluster_width t + Z.quot (_cluster_width t) 2 in
  let optical_hub_y := cluster_pos_y * _cluster_height t + Z.quot (_cluster_height t) 2 in
  optical_hub_y * _enet_width t + optical_hub_x.

(** The tiles of a cluster, column by column. *)
Definition cluster_tiles (cluster_id : Z) : list Z :=
  let core_x := Z.rem cluster_id cluster_mesh_width * _cluster_width t in
  let core_y := Z.quot cluster_id cluster_mesh_width * _cluster_height t in
  i ← seqZ core_x (_cluster_width t) ; j ← seqZ core_y (_cluster_height t) ; [j * _enet_width t + i].
Definition getTileIDListInCluster (num_application_tiles cluster_id : Z) : res (list Z) :=
  check (forallb (λ tile, tile <? num_application_tiles) (cluster_tiles cluster_id))
    (EAssert "getTileIDListInCluster") ;;
  Ok (cluster_tiles cluster_id).

Definition getIndexInList (tile_id : Z) (tile_id_list : list Z) : res Z :=
  match list_find (λ x, tile_id = x) tile_id_list with
  | Some (i, _) => Ok (Z.of_nat i)
  | None => Fail (ELog "Could not find")
  end.

Definition computeNumHopsOnENet (sender receiver : Z) : Z :=
  let '(sx, sy) := computePositionOnENet sender in
  let '(dx, dy) := computePositionOnENet receiver in
  Z.abs (sx - dx) + Z.abs (sy - dy).

Definition computeReceiveNetID (sender : Z) : Z :=
  Z.rem (getClusterID sender) (_num_receive_networks_per_cluster t).

Definition computeGlobalRoute (sender receiver : Z) : GlobalRoute :=
  if receiver =? NetPacket.BROADCAST then GLOBAL_ONET
  else if getClusterID sender =? getClusterID receiver then GLOBAL_ENET
  else
    match _global_routing_strategy t with
    | CLUSTER_BASED => GLOBAL_ONET
    | DISTANCE_BASED =>
      if computeNumHopsOnENet sender receiver <=? _unicast_distance_threshold t then GLOBAL_ENET else GLOBAL_ONET
    end.

(** [computeOpticalLinkLength]. *)
Definition computeOpticalLinkLength (tile_width : double) : double :=
  let w k := dmul (of_int k) tile_width in
  if _num_clusters t =? 2 then w (_cluster_height t)
  else if _num_clusters t =? 4 then dmul (w (_cluster_width t)) (w (_cluster_height t))
  else if _num_clusters t =? 8 then dmul (w (_cluster_width t)) (w (2 * _cluster_height t))
  else
    let length_rectangle := w ((_numX_clusters t - 2) * _cluster_width t) in
    let height_rectangle := w (_cluster_height t * 2) in
    let num_rectangles := Z.quot (_numY_clusters t) 4 in
    dmul (of_int (num_rectangles * 2)) (dadd length_rectangle height_rectangle).

End topology.

(** ** The model of a tile *)

(** The objects of a tile with an optical hub. *)
Record Hub := mkHub {
  _send_hub_router : RouterModel.RouterModel;
  _receive_hub_router : RouterModel.RouterModel;
  _optical_link : OpticalLinkModel.OpticalLinkModel;
  _htree_link_list : list ElectricalLinkModel.ElectricalLinkModel;
  _star_net_router_list : list RouterModel.RouterModel;
  _star_net_link_list : list (list ElectricalLinkModel.ElectricalLinkModel)
}.
#[global] Instance eta_Hub : Eta Hub := λ h, mkHub (_send_hub_router h) (_receive_hub_router h) (_optical_link h)
  (_htree_link_list h) (_star_net_router_list h) (_star_net_link_list h).

(** The objects of an application tile. *)
Record Routers := mkRouters {
  _injection_router : RouterModel.RouterModel;
  _enet_router : RouterModel.RouterModel;
  _enet_link_list : list ElectricalLinkModel.ElectricalLinkModel
}.
#[global] Instance eta_Routers : Eta Routers := λ r, mkRouters (_injection_router r) (_enet_router r) (_enet_link_list r).

Record NetworkModelAtac := mkNetworkModelAtac {
  _model : NetworkModel.NetworkModel;
  _topology : Topology;
  _laser_modes : OpticalLinkModel.LaserModes;
  _routers : option Routers;
  _hub : option Hub
}.
#[global] Instance eta_NetworkModelAtac : Eta NetworkModelAtac := λ m, mkNetworkModelAtac
  (_model m) (_topology m) (_laser_modes m) (_routers m) (_hub m).

Definition num_enet_router_ports : Z := 5.

Fixpoint repeat_res {A} (n : nat) (r : res A) : res (list A) :=
  match n with 0%nat => Ok [] | S n => a ← r ; l ← repeat_res n r ; Ok (a :: l) end.
Fixpoint map_res {A B} (f : A → res B) (l : list A) : res (list B) :=
  match l with [] => Ok [] | a :: l => b ← f a ; bs ← map_res f l ; Ok (b :: bs) end.

(** A link of one cycle. *)
Definition unit_link (p : Params) (link_length : double) : res ElectricalLinkModel.ElectricalLinkModel :=
  link ← ElectricalLinkModel.make (p_frequency p) link_length ;
  check (ElectricalLinkModel._net_link_delay link =? 1) (EAssert "link delay") ;;
  Ok link.

Definition createHub (cfg : SysConfig.Config) (queue_cfg : Queue.Cfg) (p : Params) (t : Topology)
    (laser_modes : OpticalLinkModel.LaserModes) (tile_id : Z) : res Hub :=
  let router ports delay := RouterModel.make queue_cfg ports (u64 delay) (p_contention_model_enabled p)
                              (p_contention_model_type p) in
  let networks := _num_receive_networks_per_cluster t in
  send_hub ← router 1 (p_send_hub_router_delay p) ;
  optical ← OpticalLinkModel.make (p_waveguide_delay_per_mm p) (p_e_o_conversion p) (p_o_e_conversion p) laser_modes
              (p_frequency p) (computeOpticalLinkLength t (p_tile_width p)) ;
  check (OpticalLinkModel._net_link_delay optical =? 3) (EAssert "optical link delay") ;;
  receive_hub ← router networks (p_receive_hub_router_delay p) ;
  match _receive_net_type t with
  | HTREE =>
    links ← repeat_res (Z.to_nat networks) (unit_link p (dmul (p_tile_width p) (of_int (_cluster_size t)))) ;
    Ok (mkHub send_hub receive_hub optical links [] [])
  | STAR =>
    tiles ← getTileIDListInCluster t (SysConfig.m_application_tiles cfg) (getClusterID t tile_id) ;
    check (_cluster_size t =? zlength tiles) (EAssert "_cluster_size") ;;
    let link tile :=
      let length := dmul (of_int (computeNumHopsOnENet t tile_id tile)) (p_tile_width p) in
      unit_link p (if SFeqb length (of_int 0) then ddiv (of_int 1) (of_int 10) else length) in
    routers ← repeat_res (Z.to_nat networks) (router (_cluster_size t) (p_star_net_router_delay p)) ;
    links ← repeat_res (Z.to_nat networks) (map_res link tiles) ;
    Ok (mkHub send_hub receive_hub optical [] routers links)
  end.

(** [createANetRouterAndLinkModels]. *)
Definition createRouters (queue_cfg : Queue.Cfg) (p : Params) (t : Topology) (tile_id : Z) : res Routers :=
  let router ports delay := RouterModel.make queue_cfg ports delay (p_contention_model_enabled p)
                              (p_contention_model_type p) in
  injection ← router 1 0 ;
  access ← isAccessPoint t tile_id ;
  let ports := if access : bool then num_enet_router_ports + 1 else num_enet_router_ports in
  enet ← router ports (u64 (p_enet_router_delay p)) ;
  links ← repeat_res (Z.to_nat ports) (unit_link p (p_tile_width p)) ;
  Ok (mkRouters injection enet links).

Definition make (cfg : SysConfig.Config) (queue_cfg : Queue.Cfg) (p : Params)
    (network_id : PacketType.EStaticNetwork) (tile_id : Z) : res NetworkModelAtac :=
  t ← initializeANetTopologyParams (SysConfig.m_application_tiles cfg) p ;
  laser_modes ← initializeLaserModes (p_laser_modes p) ;
  let model := NetworkModel.make network_id tile_id (p_frequency p) (p_flit_width p) true in
  if NetworkModel.isSystemTile cfg tile_id then Ok (mkNetworkModelAtac model t laser_modes None None) else
  routers ← createRouters queue_cfg p t tile_id ;
  hub ← (if tile_id =? getTileIDWithOpticalHub t (getClusterID t tile_id) then
           h ← createHub cfg queue_cfg p t laser_modes tile_id ; Ok (Some h)
         else Ok None) ;
  Ok (mkNetworkModelAtac model t laser_modes (Some routers) hub).

(** ** Routing *)

Section atac.
Context {Msg : Type} `{MemoryManager Msg} (cfg : SysConfig.Config) (pow : double → double → double).
Implicit Types pkt : NetPacket Msg.

Definition in_routers {A} (op : M Routers A) : M NetworkModelAtac A := λ m,
  match _routers m with
  | Some r => match op r with Ok (a, r') => Ok (a, m <| _routers := Some r' |>) | Fail e => Fail e end
  | None => Fail (ENull "_enet_router")
  end.
Definition in_hub {A} (op : M Hub A) : M NetworkModelAtac A := λ m,
  match _hub m with
  | Some h => match op h with Ok (a, h') => Ok (a, m <| _hub := Some h' |>) | Fail e => Fail e end
  | None => Fail (ENull "_send_hub_router")
  end.

Definition injection_router {A} (op : M RouterModel.RouterModel A) : M NetworkModelAtac A :=
  in_routers (zoom _injection_router (λ x r, r <| _injection_router := x |>) op).
Definition enet_router {A} (op : M RouterModel.RouterModel A) : M NetworkModelAtac A :=
  in_routers (zoom _enet_router (λ x r, r <| _enet_router := x |>) op).
Definition send_hub_router {A} (op : M RouterModel.RouterModel A) : M NetworkModelAtac A :=
  in_hub (zoom _send_hub_router (λ x h, h <| _send_hub_router := x |>) op).
Definition receive_hub_router {A} (op : M RouterModel.RouterModel A) : M NetworkModelAtac A :=
  in_hub (zoom _receive_hub_router (λ x h, h <| _receive_hub_router := x |>) op).
Definition optical_link {A} (op : M OpticalLinkModel.OpticalLinkModel A) : M NetworkModelAtac A :=
  in_hub (zoom _optical_link (λ x h, h <| _optical_link := x |>) op).

(** An operation on the element [i] of an array. *)
Definition at_index {T A} (site : string) (i : Z) (op : M T A) : M (list T) A :=
  l ← gets id ;
  x ← lift (vget site l i) ;
  ax ← lift (op x) ;
  l' ← lift (vset site l i ax.2) ;
  modify (λ _, l') ;;
  mret ax.1.

Definition enet_link (port : Z) {A} (op : M ElectricalLinkModel.ElectricalLinkModel A) : M NetworkModelAtac A :=
  in_routers (zoom _enet_link_list (λ x r, r <| _enet_link_list := x |>) (at_index "_enet_link_list" port op)).
Definition htree_link (i : Z) {A} (op : M ElectricalLinkModel.ElectricalLinkModel A) : M NetworkModelAtac A :=
  in_hub (zoom _htree_link_list (λ x h, h <| _htree_link_list := x |>) (at_index "_htree_link_list" i op)).
Definition star_net_router (i : Z) {A} (op : M RouterModel.RouterModel A) : M NetworkModelAtac A :=
  in_hub (zoom _star_net_router_list (λ x h, h <| _star_net_router_list := x |>) (at_index "_star_net_router_list" i op)).
Definition star_net_link (i j : Z) {A} (op : M ElectricalLinkModel.ElectricalLinkModel A) : M NetworkModelAtac A :=
  in_hub (zoom _star_net_link_list (λ x h, h <| _star_net_link_list := x |>)
    (at_index "_star_net_link_list" i (at_index "_star_net_link_list" j op))).

Definition enet_dest (t : Topology) (current cx cy dx dy : Z) : NetworkModelEMeshHopByHop.NextDest :=
  if cx >? dx then NetworkModelEMeshHopByHop.mkNextDest (computeTileIDOnENet t (cx - 1) cy) LEFT EMESH
  else if cx <? dx then NetworkModelEMeshHopByHop.mkNextDest (computeTileIDOnENet t (cx + 1) cy) RIGHT EMESH
  else if cy >? dy then NetworkModelEMeshHopByHop.mkNextDest (computeTileIDOnENet t cx (cy - 1)) DOWN EMESH
  else if cy <? dy then NetworkModelEMeshHopByHop.mkNextDest (computeTileIDOnENet t cx (cy + 1)) UP EMESH
  else NetworkModelEMeshHopByHop.mkNextDest current SELF NetPacket.RECEIVE_TILE.

Definition routePacketOnENet (pkt : NetPacket Msg) (pkt_receiver : Z) : M NetworkModelAtac (list Hop.Hop) :=
  m ← gets id ;
  let model := _model m in
  let t := _topology m in
  let current := NetworkModel._tile_id model in
  assert (negb (pkt_receiver =? NetPacket.BROADCAST)) "Cannot broadcast packets on ENet" ;;
  let '(cx, cy) := computePositionOnENet t current in
  let '(dx, dy) := computePositionOnENet t pkt_receiver in
  let dest := enet_dest t current cx cy dx dy in
  let port := NetworkModelEMeshHopByHop._output_port dest in
  num_links ← in_routers (gets (λ r, zlength (_enet_link_list r))) ;
  assert ((0 <=? port) && (port <? num_links)) "routePacketOnENet" ;;
  d ← enet_router (RouterModel.processPacket cfg pow model pkt port 0 0) ;
  zero_load_delay ← enet_link port (ElectricalLinkModel.processPacket cfg model pkt d.1) ;
  mret [Hop.make pkt (NetworkModelEMeshHopByHop._tile_id dest) (NetworkModelEMeshHopByHop._node_type dest)
          zero_load_delay d.2].

(** The send hub of a sender that can light one receiver at a time. *)
Fixpoint send_to_clusters (model : NetworkModel.NetworkModel) (t : Topology) (pkt : NetPacket Msg)
    (clusters : list Z) : M NetworkModelAtac (list Hop.Hop) :=
  match clusters with
  | [] => mret []
  | i :: clusters =>
    d ← send_hub_router (RouterModel.processPacket cfg pow model pkt 0 0 0) ;
    z ← optical_link (OpticalLinkModel.processPacket cfg model pkt 1 d.1) ;
    hops ← send_to_clusters model t pkt clusters ;
    mret (Hop.make pkt (getTileIDWithOpticalHub t i) RECEIVE_HUB z d.2 :: hops)
  end.

(** The largest delay of the star-net links. *)
Fixpoint star_link_delays (model : NetworkModel.NetworkModel) (pkt : NetPacket Msg) (net : Z) (links : list Z)
    (max_link_delay : Z) : M NetworkModelAtac Z :=
  match links with
  | [] => mret max_link_delay
  | i :: links =>
    link_delay ← star_net_link net i (ElectricalLinkModel.processPacket cfg model pkt 0) ;
    star_link_delays model pkt net links (Z.max max_link_delay link_delay)
  end.

Definition routePacketFromSendHub (pkt : NetPacket Msg) (pkt_receiver : Z) : M NetworkModelAtac (list Hop.Hop) :=
  m ← gets id ;
  let model := _model m in
  let t := _topology m in
  if pkt_receiver =? NetPacket.BROADCAST then
    if OpticalLinkModel.broadcast (_laser_modes m) then
      d ← send_hub_router (RouterModel.processPacket cfg pow model pkt 0 0 0) ;
      z ← optical_link (OpticalLinkModel.processPacket cfg model pkt OpticalLinkModel.ENDPOINT_ALL d.1) ;
      mret ((λ i, Hop.make pkt (getTileIDWithOpticalHub t i) RECEIVE_HUB z d.2) <$> seqZ 0 (_num_clusters t))
    else if OpticalLinkModel.unicast (_laser_modes m) then
      send_to_clusters model t pkt (seqZ 0 (_num_clusters t))
    else fail (ELog "Laser must support either unicast or broadcast modes")
  else
    d ← send_hub_router (RouterModel.processPacket cfg pow model pkt 0 0 0) ;
    z ← optical_link (OpticalLinkModel.processPacket cfg model pkt 1 d.1) ;
    mret [Hop.make pkt (getTileIDWithOpticalHub t (getClusterID t pkt_receiver)) RECEIVE_HUB z d.2].

Definition routePacketFromReceiveHub (pkt : NetPacket Msg) (pkt_sender pkt_receiver : Z) :
    M NetworkModelAtac (list Hop.Hop) :=
  m ← gets id ;
  let model := _model m in
  let t := _topology m in
  tiles ← lift (getTileIDListInCluster t (SysConfig.m_application_tiles cfg)
                  (getClusterID t (NetworkModel._tile_id model))) ;
  assert (_cluster_size t =? zlength tiles) "_cluster_size" ;;
  let net := computeReceiveNetID t pkt_sender in
  d ← receive_hub_router (RouterModel.processPacket cfg pow model pkt net 0 0) ;
  d ← match _receive_net_type t with
      | HTREE =>
        z ← htree_link net (ElectricalLinkModel.processPacket cfg model pkt d.1) ; mret (z, d.2)
      | STAR =>
        if pkt_receiver =? NetPacket.BROADCAST then
          d ← star_net_router net (RouterModel.processPacket cfg pow model pkt RouterModel.OUTPUT_PORT_ALL d.1 d.2) ;
          max_link_delay ← star_link_delays model pkt net (seqZ 0 (_cluster_size t)) 0 ;
          mret (u64 (d.1 + max_link_delay), d.2)
        else
          idx ← lift (getIndexInList pkt_receiver tiles) ;
          assert ((idx >=? 0) && (idx <? _cluster_size t)) "idx" ;;
          d ← star_net_router net (RouterModel.processPacket cfg pow model pkt idx d.1 d.2) ;
          z ← star_net_link net idx (ElectricalLinkModel.processPacket cfg model pkt d.1) ;
          mret (z, d.2)
      end ;
  if pkt_receiver =? NetPacket.BROADCAST then
    mret ((λ tile, Hop.make pkt tile NetPacket.RECEIVE_TILE d.1 d.2) <$> tiles)
  else mret [Hop.make pkt pkt_receiver NetPacket.RECEIVE_TILE d.1 d.2].

Definition routePacketOnONet (pkt : NetPacket Msg) (pkt_sender pkt_receiver : Z) : M NetworkModelAtac (list Hop.Hop) :=
  m ← gets id ;
  let model := _model m in
  let t := _topology m in
  let current := NetworkModel._tile_id model in
  if NetPacket.node_type pkt =? EMESH then
    assert (getClusterID t pkt_sender =? getClusterID t current) "routePacketOnONet" ;;
    access ← lift (isAccessPoint t current) ;
    if access : bool then
      d ← enet_router (RouterModel.processPacket cfg pow model pkt num_enet_router_ports 0 0) ;
      z ← enet_link num_enet_router_ports (ElectricalLinkModel.processPacket cfg model pkt d.1) ;
      mret [Hop.make pkt (getTileIDWithOpticalHub t (getClusterID t current)) SEND_HUB z d.2]
    else
      access_point ← lift (getNearestAccessPoint t pkt_sender) ;
      routePacketOnENet pkt access_point
  else if NetPacket.node_type pkt =? SEND_HUB then routePacketFromSendHub pkt pkt_receiver
  else if NetPacket.node_type pkt =? RECEIVE_HUB then routePacketFromReceiveHub pkt pkt_sender pkt_receiver
  else fail (ELog "Unrecognized Node Type").

Definition routePacket (pkt : NetPacket Msg) : M NetworkModelAtac (list Hop.Hop) :=
  m ← gets id ;
  let pkt_sender := tile_id (NetPacket.sender pkt) in
  let pkt_receiver := tile_id (NetPacket.receiver pkt) in
  if NetPacket.node_type pkt =? NetPacket.SEND_TILE then
    assert (pkt_sender =? NetworkModel._tile_id (_model m)) "NetworkModelAtac::routePacket" ;;
    d ← injection_router (RouterModel.processPacket cfg pow (_model m) pkt 0 0 0) ;
    mret [Hop.make pkt (NetworkModel._tile_id (_model m)) EMESH d.1 d.2]
  else
    match computeGlobalRoute (_topology m) pkt_sender pkt_receiver with
    | GLOBAL_ENET => routePacketOnENet pkt pkt_receiver
    | GLOBAL_ONET => routePacketOnONet pkt pkt_sender pkt_receiver
    end.
End atac.

(** ** Placement *)

Definition isTileCountPermissible (tile_count : Z) : res bool :=
  enet_width ← Mesh.floor_sqrt tile_count ;
  enet_height ← Mesh.ceil_div tile_count enet_width ;
  Ok (tile_count =? enet_width * enet_height).

Definition computeMemoryControllerPositions (num_application_tiles num_memory_controllers : Z) (p : Params) :
    res (list Z) :=
  t ← initializeANetTopologyParams num_application_tiles p ;
  check (num_memory_controllers <=? _num_clusters t) (EAssert "num_memory_controllers") ;;
  Ok (getTileIDWithOpticalHub t <$> seqZ 0 num_memory_controllers).

(** Clusters are dealt to the processes in turn. *)
Definition computeProcessToTileMapping (num_application_tiles process_count : Z) (p : Params) :
    res (list (list Z)) :=
  t ← initializeANetTopologyParams num_application_tiles p ;
  check (negb (process_count =? 0)) (EDivZero "process_count") ;;
  foldl (λ acc i,
    m ← acc ;
    tiles ← getTileIDListInCluster t num_application_tiles i ;
    let process_num := i `mod` process_count in
    l ← vget "process_to_tile_mapping" m process_num ;
    vset "process_to_tile_mapping" m process_num (l ++ tiles))
    (Ok (replicate (Z.to_nat process_count) [])) (seqZ 0 (_num_clusters t)).

End NetworkModelAtac.
