(* ===== verification/Network.v ===== *)
(** * Network: sending, routing and receiving packets

    Models the choice of a model ([NetworkModel::createModel] and the static
    functions of network/network_model.cc), [__routePacket], and
    network/network.{h,cc}: the network of a tile with its queue of received
    packets, its callbacks and the transport between the tiles.  [World] holds
    the networks of all tiles and, for each tile, the packets the transport has
    not delivered yet.  A callback is recorded with the packet it gets; the
    instructions [netRecv] queues are recorded with their latency. *)
From S2P Require Import Prelude Utils Double CacheSet Cache Shmem ThreadManager QueueModels HistoryTree NetPacket NetworkModel MeshModels AtacModel.

(** ** The network models behind their base class *)

Module Model.
Import PacketType.

Inductive Model :=
  | Magic (m : NetworkModelMagic.NetworkModelMagic)
  | EMeshHopCounter (m : NetworkModelEMeshHopCounter.NetworkModelEMeshHopCounter)
  | EMeshHopByHop (m : NetworkModelEMeshHopByHop.NetworkModelEMeshHopByHop)
  | Atac (m : NetworkModelAtac.NetworkModelAtac).

Definition base (m : Model) : NetworkModel.NetworkModel :=
  match m with
  | Magic m => NetworkModelMagic._model m
  | EMeshHopCounter m => NetworkModelEMeshHopCounter._model m
  | EMeshHopByHop m => NetworkModelEMeshHopByHop._model m
  | Atac m => NetworkModelAtac._model m
  end.
Definition set_base (b : NetworkModel.NetworkModel) (m : Model) : Model :=
  match m with
  | Magic m => Magic (m <| NetworkModelMagic._model := b |>)
  | EMeshHopCounter m => EMeshHopCounter (m <| NetworkModelEMeshHopCounter._model := b |>)
  | EMeshHopByHop m => EMeshHopByHop (m <| NetworkModelEMeshHopByHop._model := b |>)
  | Atac m => Atac (m <| NetworkModelAtac._model := b |>)
  end.
Definition in_base {A} (op : M NetworkModel.NetworkModel A) : M Model A := zoom base set_base op.

(** network/network_types.h *)
Inductive NetworkType := NETWORK_MAGIC | NETWORK_EMESH_HOP_COUNTER | NETWORK_ANALYTICAL_MESH
  | NETWORK_EMESH_HOP_BY_HOP | NETWORK_ECLOS | NETWORK_ATAC.

(** [None] is the code -1. *)
Definition parseNetworkType (str : string) : option NetworkType :=
  if bool_decide (str = "magic") then Some NETWORK_MAGIC
  else if bool_decide (str = "emesh_hop_counter") then Some NETWORK_EMESH_HOP_COUNTER
  else if bool_decide (str = "analytical") then Some NETWORK_ANALYTICAL_MESH
  else if bool_decide (str = "emesh_hop_by_hop") then Some NETWORK_EMESH_HOP_BY_HOP
  else if bool_decide (str = "eclos") then Some NETWORK_ECLOS
  else if bool_decide (str = "atac") then Some NETWORK_ATAC
  else None.

(** The parameters of the models, read from the configuration file. *)
Record Params := mkParams {
  queue_cfg : Queue.Cfg;
  magic_latency : Z;
  hop_counter_frequency : float;
  hop_counter_flit_width : Z;
  hop_counter_router_delay : Z;
  hop_counter_link_delay : Z;
  hop_by_hop : NetworkModelEMeshHopByHop.Params;
  atac : NetworkModelAtac.Params
}.

Definition createModel (cfg : SysConfig.Config) (p : Params) (network_id : EStaticNetwork) (tile_id : Z)
    (model_type : option NetworkType) : res Model :=
  match model_type with
  | Some NETWORK_MAGIC => Ok (Magic (NetworkModelMagic.make network_id tile_id (magic_latency p)))
  | Some NETWORK_EMESH_HOP_COUNTER =>
    m ← NetworkModelEMeshHopCounter.make cfg network_id tile_id (hop_counter_frequency p)
          (hop_counter_flit_width p) (hop_counter_router_delay p) (hop_counter_link_delay p) ;
    Ok (EMeshHopCounter m)
  | Some NETWORK_EMESH_HOP_BY_HOP =>
    m ← NetworkModelEMeshHopByHop.make cfg (queue_cfg p) (hop_by_hop p) network_id tile_id ;
    Ok (EMeshHopByHop m)
  | Some NETWORK_ATAC =>
    m ← NetworkModelAtac.make cfg (queue_cfg p) (atac p) network_id tile_id ; Ok (Atac m)
  | _ => Fail (ELog "Unrecognized Network Model")
  end.

Definition isTileCountPermissible (network_type : option NetworkType) (tile_count : Z) : res bool :=
  match network_type with
  | Some NETWORK_MAGIC | Some NETWORK_EMESH_HOP_COUNTER => Ok true
  | Some NETWORK_EMESH_HOP_BY_HOP => NetworkModelEMeshHopByHop.isTileCountPermissible tile_count
  | Some NETWORK_ATAC => NetworkModelAtac.isTileCountPermissible tile_count
  | _ => Fail (ELog "Unrecognized network type")
  end.

(** The positions and whether they are the model's own. *)
Definition computeMemoryControllerPositions (cfg : SysConfig.Config) (p : Params) (network_type : option NetworkType)
    (num_memory_controllers tile_count : Z) : res (bool * list Z) :=
  match network_type with
  | Some NETWORK_MAGIC | Some NETWORK_EMESH_HOP_COUNTER =>
    check (negb (num_memory_controllers =? 0)) (EDivZero "num_memory_controllers") ;;
    let spacing_between_memory_controllers := Z.quot tile_count num_memory_controllers in
    let positions := (λ i, i * spacing_between_memory_controllers) <$> seqZ 0 num_memory_controllers in
    check (forallb (λ i, i <? tile_count) positions) (EAssert "computeMemoryControllerPositions") ;;
    Ok (false, positions)
  | Some NETWORK_EMESH_HOP_BY_HOP =>
    l ← NetworkModelEMeshHopByHop.computeMemoryControllerPositions (SysConfig.m_application_tiles cfg) num_memory_controllers ;
    Ok (true, l)
  | Some NETWORK_ATAC =>
    l ← NetworkModelAtac.computeMemoryControllerPositions (SysConfig.m_application_tiles cfg) num_memory_controllers (atac p) ;
    Ok (true, l)
  | _ => Fail (ELog "Unrecognized network type")
  end.

Definition computeProcessToTileMapping (cfg : SysConfig.Config) (p : Params) (network_type : option NetworkType) :
    res (bool * list (list Z)) :=
  match network_type with
  | Some NETWORK_MAGIC | Some NETWORK_EMESH_HOP_COUNTER => Ok (false, [])
  | Some NETWORK_EMESH_HOP_BY_HOP =>
    l ← NetworkModelEMeshHopByHop.computeProcessToTileMapping (SysConfig.m_application_tiles cfg) (SysConfig.m_num_processes cfg) ;
    Ok (true, l)
  | Some NETWORK_ATAC =>
    l ← NetworkModelAtac.computeProcessToTileMapping (SysConfig.m_application_tiles cfg) (SysConfig.m_num_processes cfg) (atac p) ;
    Ok (true, l)
  | _ => Fail (ELog "Unrecognized network type")
  end.

Section model.
Context {Msg : Type} `{MemoryManager Msg} (cfg : SysConfig.Config) (pow : double → double → double).
Implicit Types pkt : NetPacket Msg.

(** The virtual [routePacket]; it returns the hops it adds. *)
Definition routePacket (pkt : NetPacket Msg) : M Model (list Hop.Hop) := λ m,
  match m with
  | Magic m => r ← NetworkModelMagic.routePacket pkt m ; Ok (r.1, Magic r.2)
  | EMeshHopCounter m => r ← NetworkModelEMeshHopCounter.routePacket cfg pkt m ; Ok (r.1, EMeshHopCounter r.2)
  | EMeshHopByHop m => r ← NetworkModelEMeshHopByHop.routePacket cfg pow pkt m ; Ok (r.1, EMeshHopByHop r.2)
  | Atac m => r ← NetworkModelAtac.routePacket cfg pow pkt m ; Ok (r.1, Atac r.2)
  end.

Definition __routePacket (pkt : NetPacket Msg) : M Model (list Hop.Hop) :=
  m ← gets base ;
  let pkt_sender := tile_id (NetPacket.sender pkt) in
  let pkt_receiver := tile_id (NetPacket.receiver pkt) in
  corner ←
    (if NetPacket.node_type pkt =? NetPacket.SEND_TILE then
       assert (pkt_sender =? NetworkModel._tile_id m) "NetworkModel::__routePacket" ;;
       corner ← lift (NetworkModel.processCornerCases cfg m pkt) ;
       (if negb corner.2 then
          enabled ← lift (NetworkModel.isModelEnabled cfg m pkt) ;
          when enabled (in_base (NetworkModel.updateSendCounters cfg pkt))
        else skip) ;;
       mret corner
     else mret ([], false)) ;
  if corner.2 : bool then mret corner.1 else
  assert (NetworkModel.isApplicationTile cfg pkt_sender &&
          (NetworkModel.isApplicationTile cfg pkt_receiver || (pkt_receiver =? NetPacket.BROADCAST)) &&
          negb (pkt_sender =? pkt_receiver)) "NetworkModel::__routePacket" ;;
  hops ← routePacket pkt ;
  mret (corner.1 ++ hops).
End model.
End Model.

(** ** The network of a tile *)

Module Network.
Import PacketType.

Record Network (Msg : Type) := mkNetwork {
  _models : list Model.Model;
  _callbacks : list PacketType;
  _tid : Z;
  _numMod : Z;
  _netQueue : list (NetPacket Msg);
  _sharedMemoryShortcutEnabled : bool;
  (** The clock of the core of the tile. *)
  _frequency : float;
  _cycle_count : Z;
  (** The packets the callbacks got, and the latencies of the instructions
      queued by [netRecv], oldest first. *)
  _called : list (NetPacket Msg);
  _recv_instructions : list Z
}.
Arguments mkNetwork {Msg}.
Arguments _models {Msg}.
Arguments _callbacks {Msg}.
Arguments _tid {Msg}.
Arguments _numMod {Msg}.
Arguments _netQueue {Msg}.
Arguments _sharedMemoryShortcutEnabled {Msg}.
Arguments _frequency {Msg}.
Arguments _cycle_count {Msg}.
Arguments _called {Msg}.
Arguments _recv_instructions {Msg}.
#[global] Instance eta_Network Msg : Eta (Network Msg) := λ n, mkNetwork
  (_models n) (_callbacks n) (_tid n) (_numMod n) (_netQueue n) (_sharedMemoryShortcutEnabled n)
  (_frequency n) (_cycle_count n) (_called n) (_recv_instructions n).

Definition network_index (n : EStaticNetwork) : nat :=
  match n with
  | STATIC_NETWORK_USER_1 => 0
  | STATIC_NETWORK_USER_2 => 1
  | STATIC_NETWORK_MEMORY_1 => 2
  | STATIC_NETWORK_MEMORY_2 => 3
  | STATIC_NETWORK_SYSTEM => 4
  end.

Section network.
Context {Msg : Type}.

(** The constructor. *)
Definition make (cfg : SysConfig.Config) (p : Model.Params) (network_types : EStaticNetwork → string)
    (shortcut : bool) (core_frequency : float) (tile_id : Z) : res (Network Msg) :=
  models ← NetworkModelAtac.map_res (λ i,
    Model.createModel cfg p i tile_id (Model.parseNetworkType (network_types i))) static_networks ;
  check (negb shortcut || (SysConfig.m_num_processes cfg =? 1)) (EAssert "Cannot Enable Shared Memory Shortcut") ;;
  Ok (mkNetwork models [] tile_id (SysConfig.getTotalTiles cfg) [] shortcut core_frequency 0 [] []).

Definition registerCallback (type : PacketType) (n : Network Msg) : Network Msg :=
  n <| _callbacks ::= λ l, type :: filter (λ t, t ≠ type) l |>.
Definition unregisterCallback (type : PacketType) (n : Network Msg) : Network Msg :=
  n <| _callbacks ::= filter (λ t, t ≠ type) |>.

Definition getNetworkModelFromPacketType (type : PacketType) (n : Network Msg) : res Model.Model :=
  of_option (_models n !! network_index (g_type_to_static_network_map type)) (ERange "_models").
(** An operation of the model of a packet type. *)
Definition in_model {A} (type : PacketType) (op : M Model.Model A) : M (Network Msg) A := λ n,
  m ← getNetworkModelFromPacketType type n ;
  am ← op m ;
  Ok (am.1, n <| _models ::= <[network_index (g_type_to_static_network_map type) := am.2]> |>).

Definition enableModels (n : Network Msg) : Network Msg :=
  n <| _models ::= fmap (λ m, Model.set_base (NetworkModel.enable (Model.base m)) m) |>.
Definition disableModels (n : Network Msg) : Network Msg :=
  n <| _models ::= fmap (λ m, Model.set_base (NetworkModel.disable (Model.base m)) m) |>.

(** *** Receiving *)

(** [NetRecvIterator]: the senders and types to look for. *)
Definition match_senders (numMod : Z) (m : NetMatch.NetMatch) : list core_id_t :=
  match NetMatch.senders m with [] => getMainCoreId <$> seqZ 0 numMod | l => l end.
Definition match_types (m : NetMatch.NetMatch) : list PacketType :=
  match NetMatch.types m with [] => packet_types | l => l end.
Definition match_receiver (tid : Z) (m : NetMatch.NetMatch) : core_id_t :=
  if tile_id (NetMatch.receiver m) =? INVALID_TILE_ID then getMainCoreId tid else NetMatch.receiver m.

Definition core_eqb (a b : core_id_t) : bool :=
  (tile_id a =? tile_id b) && (core_type a =? core_type b).

Definition matches (senders : list core_id_t) (types : list PacketType) (receiver : core_id_t)
    (p : NetPacket Msg) : bool :=
  (core_eqb (NetPacket.receiver p) receiver || (tile_id (NetPacket.receiver p) =? NetPacket.BROADCAST)) &&
  existsb (core_eqb (NetPacket.sender p)) senders &&
  existsb (λ t, bool_decide (NetPacket.type p = t)) types.

(** The first packet of the queue that matches, and the queue without it. *)
Fixpoint take_first (f : NetPacket Msg → bool) (q : list (NetPacket Msg)) : option (NetPacket Msg * list (NetPacket Msg)) :=
  match q with
  | [] => None
  | p :: q =>
    if f p then Some (p, q)
    else match take_first f q with Some (p', q') => Some (p', p :: q') | None => None end
  end.

Definition queue_recv_instruction (p : NetPacket Msg) : M (Network Msg) unit :=
  n ← gets id ;
  when (NetPacket.time p >? _cycle_count n)
    (modify (λ n, n <| _recv_instructions ::= λ l, l ++ [NetPacket.time p - _cycle_count n] |>)).

(** [netRecv]; [None] is the wait for a packet, which leaves the queue as it
    is. *)
Definition netRecv (m : NetMatch.NetMatch) : M (Network Msg) (option (NetPacket Msg)) :=
  n ← gets id ;
  match take_first (matches (match_senders (_numMod n) m) (match_types m) (match_receiver (_tid n) m)) (_netQueue n) with
  | None => mret None
  | Some (p, q) =>
    let sender := tile_id (NetPacket.sender p) in
    let receiver := tile_id (NetPacket.receiver p) in
    assert ((0 <=? sender) && (sender <? _numMod n)) "netRecv: sender" ;;
    assert ((receiver =? _tid n) || (receiver =? NetPacket.BROADCAST)) "netRecv: receiver" ;;
    modify (λ n, n <| _netQueue := q |>) ;;
    queue_recv_instruction p ;;
    mret (Some p)
  end.

(** The position of the earliest packet that matches, the first of those with
    the same time. *)
Fixpoint earliest (f : NetPacket Msg → bool) (i : nat) (q : list (NetPacket Msg)) (best : option (nat * NetPacket Msg)) :
    option (nat * NetPacket Msg) :=
  match q with
  | [] => best
  | p :: q =>
    let better := match best with None => true | Some (_, b) => NetPacket.time b >? NetPacket.time p end in
    earliest f (S i) q (if f p && better then Some (i, p) else best)
  end.

(** [netRecvNonBlock] reads the packet before it asks whether there is one: with
    no match it reads behind the end of the queue. *)
Definition netRecvNonBlock (m : NetMatch.NetMatch) : M (Network Msg) (NetPacket Msg) :=
  n ← gets id ;
  match earliest (matches (match_senders (_numMod n) m) (match_types m) (match_receiver (_tid n) m)) 0 (_netQueue n) None with
  | None => fail (ERange "netRecvNonBlock: *_netQueue.end()")
  | Some (i, p) =>
    modify (λ n, n <| _netQueue ::= delete i |>) ;;
    queue_recv_instruction p ;;
    mret (p <| NetPacket.found := true |>)
  end.

Definition netRecv_from (src recv : core_id_t) (type : PacketType) : M (Network Msg) (option (NetPacket Msg)) :=
  netRecv (NetMatch.mkNetMatch [src] [type] recv).
Definition netRecvFrom (src recv : core_id_t) : M (Network Msg) (option (NetPacket Msg)) :=
  netRecv (NetMatch.mkNetMatch [src] [] recv).
Definition netRecvType (type : PacketType) (recv : core_id_t) : M (Network Msg) (option (NetPacket Msg)) :=
  netRecv (NetMatch.mkNetMatch [] [type] recv).
Definition netRecvTypeNonBlock (type : PacketType) : M (Network Msg) (NetPacket Msg) :=
  netRecvNonBlock (NetMatch.mkNetMatch [] [type] INVALID_CORE_ID).
Definition netRecvNonBlock_from (src : core_id_t) (type : PacketType) : M (Network Msg) (NetPacket Msg) :=
  netRecvNonBlock (NetMatch.mkNetMatch [src] [type] INVALID_CORE_ID).
End network.
End Network.

(** ** All tiles *)

Module World.
Import PacketType.

Record World (Msg : Type) := mkWorld {
  _networks : list (Network.Network Msg);
  (** The packets on their way to each tile, oldest first. *)
  _transport : list (list (NetPacket.Buffer Msg))
}.
Arguments mkWorld {Msg}.
Arguments _networks {Msg}.
Arguments _transport {Msg}.
#[global] Instance eta_World Msg : Eta (World Msg) := λ w, mkWorld (_networks w) (_transport w).

Section world.
Context {Msg : Type} `{MemoryManager Msg} (cfg : SysConfig.Config) (pow : double → double → double).
Implicit Types pkt : NetPacket Msg.

(** [TileManager::initializeThread] and the constructors of the tiles: each
    tile builds its network, and nothing is on its way. *)
Definition make (p : Model.Params) (network_types : EStaticNetwork → string) (shortcut : bool) (core_frequency : float) :
    res (World Msg) :=
  networks ← NetworkModelAtac.map_res (Network.make cfg p network_types shortcut core_frequency)
               (seqZ 0 (SysConfig.getTotalTiles cfg)) ;
  Ok (mkWorld networks (replicate (length networks) [])).

(** An operation of the network of tile [t]. *)
Definition on {A} (t : Z) (op : M (Network.Network Msg) A) : M (World Msg) A :=
  w ← gets id ;
  n ← lift (vget "getTileFromID" (_networks w) t) ;
  an ← lift (op n) ;
  modify (λ w, w <| _networks ::= zinsert t an.2 |>) ;;
  mret an.1.

(** [Transport::Node::send]. *)
Definition transport_send (dest : Z) (b : NetPacket.Buffer Msg) : M (World Msg) unit :=
  w ← gets id ;
  q ← lift (vget "transport" (_transport w) dest) ;
  modify (λ w, w <| _transport ::= zinsert dest (q ++ [b]) |>).

(** The loop of [forwardPacket] over the queue of hops; [b] is the buffer the
    hops are written into. *)
Fixpoint forward_hops (fuel : nat) (shortcut : bool) (b : NetPacket.Buffer Msg) (hops : list Hop.Hop) : M (World Msg) unit :=
  match fuel, hops with
  | _, [] => skip
  | 0%nat, _ => fail (EFuel "forwardPacket")
  | S fuel, hop :: hops =>
    let b := b <| NetPacket.object ::= Hop.apply hop |> in
    if negb (Hop._next_node_type hop =? NetPacket.RECEIVE_TILE) && shortcut then
      new ← on (Hop._next_tile_id hop)
              (Network.in_model (NetPacket.type (NetPacket.object b)) (Model.__routePacket cfg pow (NetPacket.object b))) ;
      forward_hops fuel shortcut b (hops ++ new)
    else
      transport_send (Hop._next_tile_id hop) b ;;
      forward_hops fuel shortcut b hops
  end.

(** At most [hop_bound] hops are made for one packet. *)
Definition hop_bound : nat := Z.to_nat (8 * SysConfig.getTotalTiles cfg + 16).

Definition forwardPacket (t : Z) (pkt : NetPacket Msg) : M (World Msg) Z :=
  b ← lift (NetPacket.makeBuffer pkt) ;
  shortcut ← on t (gets Network._sharedMemoryShortcutEnabled) ;
  hops ← on t (Network.in_model (NetPacket.type pkt) (Model.__routePacket cfg pow (NetPacket.object b))) ;
  forward_hops hop_bound shortcut b hops ;;
  mret (NetPacket.length pkt).

Definition netSend (t : Z) (pkt : NetPacket Msg) : M (World Msg) Z :=
  n ← on t (gets id) ;
  model ← lift (Network.getNetworkModelFromPacketType (NetPacket.type pkt) n) ;
  time ← lift (convertCycleCount (NetPacket.time pkt) (Network._frequency n)
                 (NetworkModel._frequency (Model.base model))) ;
  let pkt := pkt <| NetPacket.time := time |> in
  (if (tile_id (NetPacket.receiver pkt) =? NetPacket.BROADCAST) &&
      negb (NetworkModel._has_broadcast_capability (Model.base model)) then
     mfor (seqZ 0 (SysConfig.getTotalTiles cfg)) (λ i,
       ret ← forwardPacket t (pkt <| NetPacket.receiver := getMainCoreId i |>) ;
       assert (s32 ret =? s32 (NetPacket.length pkt)) "Network::netSend")
   else
     ret ← forwardPacket t pkt ;
     assert (s32 ret =? s32 (NetPacket.length pkt)) "Network::netSend") ;;
  mret (NetPacket.length pkt).

(** The wrappers build the packet from the clock of the core. *)
Definition netSend_to (t : Z) (dest : core_id_t) (type : PacketType) (buf : NetPacket.Payload Msg) (len : Z) :
    M (World Msg) Z :=
  n ← on t (gets id) ;
  let time := Network._cycle_count n in
  netSend t ((NetPacket.empty (Msg := Msg))
    <| NetPacket.time := time |> <| NetPacket.sender := getMainCoreId (Network._tid n) |>
    <| NetPacket.receiver := dest |> <| NetPacket.length := len |> <| NetPacket.type := type |>
    <| NetPacket.data := buf |> <| NetPacket.init_time := time |>).
Definition netBroadcast (t : Z) (type : PacketType) (buf : NetPacket.Payload Msg) (len : Z) : M (World Msg) Z :=
  netSend_to t (mkCoreId NetPacket.BROADCAST (u32 (-1))) type buf len.

(** [Transport::Node::recv] takes the oldest packet for the tile; with none it
    waits. *)
Definition transport_recv (t : Z) : M (World Msg) (option (NetPacket.Buffer Msg)) :=
  w ← gets id ;
  q ← lift (vget "transport" (_transport w) t) ;
  match q with
  | [] => mret None
  | b :: q => modify (λ w, w <| _transport ::= zinsert t q |>) ;; mret (Some b)
  end.

(** What [netPullFromTransport] does with a packet it has accepted. *)
Definition accept (t : Z) (pkt : NetPacket Msg) : M (World Msg) unit :=
  on t (
    pkt ← Network.in_model (NetPacket.type pkt) (Model.in_base (NetworkModel.__processReceivedPacket cfg pkt)) ;
    n ← gets id ;
    model ← lift (Network.getNetworkModelFromPacketType (NetPacket.type pkt) n) ;
    time ← lift (convertCycleCount (NetPacket.time pkt) (NetworkModel._frequency (Model.base model))
                   (Network._frequency n)) ;
    let pkt := pkt <| NetPacket.time := time |> in
    if bool_decide (NetPacket.type pkt ∈ Network._callbacks n) then
      modify (λ n, n <| Network._called ::= λ l, l ++ [pkt] |>)
    else modify (λ n, n <| Network._netQueue ::= λ l, l ++ [pkt] |>)).

(** One round of the loop of [netPullFromTransport]. *)
Definition pull (t : Z) : M (World Msg) unit :=
  ob ← transport_recv t ;
  match ob with
  | None => skip
  | Some b =>
    pkt ← lift (NetPacket.of_buffer b) ;
    n ← on t (gets id) ;
    let sender := tile_id (NetPacket.sender pkt) in
    assert ((0 <=? sender) && (sender <? Network._numMod n)) "Invalid Packet Sender" ;;
    model ← lift (Network.getNetworkModelFromPacketType (NetPacket.type pkt) n) ;
    ready ← lift (NetworkModel.isPacketReadyToBeReceived (Model.base model) pkt) ;
    if ready : bool then accept t pkt
    else _ ← forwardPacket t pkt ; skip
  end.

(** [netPullFromTransport]: until the transport has nothing more for the
    tile. *)
Fixpoint netPullFromTransport (fuel : nat) (t : Z) : M (World Msg) unit :=
  match fuel with
  | 0%nat => fail (EFuel "netPullFromTransport")
  | S fuel =>
    pull t ;;
    w ← gets id ;
    q ← lift (vget "transport" (_transport w) t) ;
    match q with [] => skip | _ => netPullFromTransport fuel t end
  end.

(** *** Runs: sends and pulls of the tiles in any order *)

Inductive Event :=
  | Send (t : Z) (pkt : NetPacket Msg)
  | Pull (t : Z).
Definition step (e : Event) : M (World Msg) unit :=
  match e with
  | Send t pkt => _ ← netSend t pkt ; skip
  | Pull t => pull t
  end.
End world.
End World.
