(* ===== verification/NetworkProofs.v ===== *)
(** * NetworkProofs: what the parts of the network promise

    Lemmas on the base class, routers and links, the interface [Scheme] of a
    routing algorithm to the network, and the invariant of the world of tiles:
    every packet in flight will be delivered to its receivers, once each. *)
From S2P Require Import Prelude Utils Double CacheSet Cache Shmem ThreadManager QueueModels HistoryTree NetPacket NetworkModel MeshModels AtacModel Network.
Import PacketType.

Lemma BROADCAST_neg : NetPacket.BROADCAST < 0.
Proof. by vm_compute. Qed.

(** ** Failures

    The modelled network stops only where a queue model fails or where a time
    does not fit into 64 bits when it is converted to another clock. *)
Definition queue_error (pow : double → double → double) (e : error) : Prop :=
  ∃ time n q, Queue.computeQueueDelay pow time n q = Fail e.
Definition net_error (pow : double → double → double) (e : error) : Prop :=
  queue_error pow e ∨ e = ERange "convertCycleCount".

Lemma convert_error pow c f g e : convertCycleCount c f g = Fail e → net_error pow e.
Proof.
  unfold convertCycleCount, to_u64. intros Hf. right.
  destruct (dceil _) as [| | |s m ex]; try done; [injection Hf; congruence..|].
  destruct (_ && _); [done|]. injection Hf. congruence.
Qed.

Section parts.
Context {Msg : Type} `{MemoryManager Msg} (cfg : SysConfig.Config) (pow : double → double → double).
Abbreviation E := (net_error pow).
Implicit Types (pkt : NetPacket Msg) (m : NetworkModel.NetworkModel).

Lemma runs_lift_error {S A} (r : res A) (s : S) (Q : A → S → Prop) :
  (∀ a, r = Ok a → Q a s) → (∀ e, r = Fail e → E e) → runs E (lift r) s Q.
Proof. unfold runs, lift. destruct r; auto. Qed.

(** An operation of a derived class, seen from the base class. *)
Lemma runs_inj {S T A} (P : error → Prop) (C : S → T) (op : M S A) (F : M T A) s (Q : A → T → Prop) :
  F (C s) = (r ← op s ; Ok (r.1, C r.2)) → runs P op s (λ a s', Q a (C s')) → runs P F (C s) Q.
Proof. intros HF. unfold runs. rewrite HF. by destruct (op s) as [[a s']|e]. Qed.

(** ** Packets *)

(** A packet a tile may send: its data is as long as it says, and a packet of
    the memory system carries a message that is modelled. *)
Record sendable pkt : Prop := {
  sendable_wf : NetPacket.wf pkt;
  sendable_sender : 0 ≤ tile_id (NetPacket.sender pkt) < SysConfig.getTotalTiles cfg;
  sendable_message :
    NetworkModel.isMemoryNetwork (g_type_to_static_network_map (NetPacket.type pkt)) = true →
    ∃ msg k, NetPacket.data pkt = NetPacket.Message msg ∧ getModeledLength_of msg = Ok k
}.

Lemma memory_type (t : PacketType) :
  NetworkModel.isMemoryNetwork (g_type_to_static_network_map t) = true ↔ t = SHARED_MEM_1 ∨ t = SHARED_MEM_2.
Proof. destruct t; cbn; split; intros; try done; try (by destruct_or!); auto. Qed.

Record base_ok (nid : EStaticNetwork) (t : Z) m : Prop := {
  base_id : NetworkModel._network_id m = nid;
  base_tile : NetworkModel._tile_id m = t;
  base_flit : NetworkModel._flit_width m ≠ 0
}.

Lemma modeled_length pkt : sendable pkt → ∃ n, NetworkModel.getModeledLength cfg pkt = Ok n.
Proof.
  intros [_ _ Hm]. unfold NetworkModel.getModeledLength.
  destruct (NetPacket.type pkt) eqn:Et; eauto;
    (destruct Hm as (msg & k & Ed & Ek); [done|]; unfold NetworkModel.message; rewrite Ed; cbn;
     rewrite Ek; cbn; eauto).
Qed.

Lemma num_flits m n : NetworkModel._flit_width m ≠ 0 → ∃ k, NetworkModel.computeNumFlits m n = Ok k.
Proof.
  intros Hw. unfold NetworkModel.computeNumFlits. destruct (_ =? -1); [eauto|].
  rewrite (proj2 (Z.eqb_neq _ _) Hw). cbn. destruct (_ =? 0); eauto.
Qed.

Lemma model_enabled t m pkt :
  sendable pkt → base_ok (g_type_to_static_network_map (NetPacket.type pkt)) t m →
  ∃ b, NetworkModel.isModelEnabled cfg m pkt = Ok b.
Proof.
  intros [_ _ Hm] [Hid _ _]. unfold NetworkModel.isModelEnabled, NetworkModel.getRequester.
  rewrite Hid. destruct (NetworkModel.isMemoryNetwork _) eqn:Ei; [|eauto].
  destruct (NetworkModel._enabled m); [|eauto]. destruct (Hm eq_refl) as (msg & k & Ed & _).
  unfold NetworkModel.message. rewrite Ed. cbn. destruct (negb _); eauto.
Qed.

(** ** Routers and links *)

Record router_ok (ports : Z) (r : RouterModel.RouterModel) : Prop := {
  router_ports : RouterModel._num_output_ports r = ports;
  router_queues : RouterModel._contention_model_enabled r = true → zlength (RouterModel._contention_model_list r) = ports;
  router_crossbar : zlength (RouterModel._total_crossbar_traversals r) = ports;
  router_delays : zlength (RouterModel._total_contention_delay r) = ports;
  router_packets : zlength (RouterModel._total_packets r) = ports
}.

Lemma vget_in_range {A} site (l : list A) i : 0 ≤ i < zlength l → ∃ x, vget site l i = Ok x.
Proof. intros Hi. unfold vget. destruct (zlookup_is_Some l i Hi) as [x ->]. by exists x. Qed.
Lemma vset_in_range {A} site (l : list A) i x : 0 ≤ i < zlength l → vset site l i x = Ok (zinsert i x l).
Proof. intros Hi. unfold vset. rewrite (proj2 (Z.leb_le _ _)), (proj2 (Z.ltb_lt _ _)) by lia. done. Qed.

Lemma queue_delays_spec time n l : ∀ d ports r,
  router_ok ports r → RouterModel._contention_model_enabled r = true → Forall (λ p, 0 ≤ p < ports) l →
  runs E (RouterModel.queue_delays pow time n l d) r (λ _ r', router_ok ports r').
Proof.
  induction l as [|p l IH]; intros d ports r Hr He Hl; [done|].
  apply Forall_cons in Hl as [Hp Hl]. pose proof Hr as [H1 H2 H3 H4 H5]. specialize (H2 He).
  cbn [RouterModel.queue_delays]. do 2 run1.
  destruct (vget_in_range "_contention_model_list" (RouterModel._contention_model_list r) p) as [q Eq]; [unfold id; lia|].
  apply runs_bind, (runs_lift _ _ q); [done|]. apply runs_bind, runs_lift_error.
  - intros [dq q'] _. apply runs_bind.
    eapply runs_lift; [apply vset_in_range; unfold id; lia|]. do 2 run1.
    apply IH; [|done..]. split; cbn; try done. intros _. by rewrite zlength_zinsert.
  - intros e Hq. left. by exists time, (u64 n), q.
Qed.

Lemma contention_counters_spec d l : ∀ ports r,
  router_ok ports r → Forall (λ p, 0 ≤ p < ports) l →
  runs E (RouterModel.updateContentionCounters d l) r (λ _ r', router_ok ports r').
Proof.
  unfold RouterModel.updateContentionCounters.
  induction l as [|p l IH]; intros ports r Hr Hl; [done|].
  apply Forall_cons in Hl as [Hp Hl]. pose proof Hr as [H1 H2 H3 H4 H5]. cbn [mfor].
  run1. do 2 run1. unfold id.
  destruct (vget_in_range "_total_contention_delay" (RouterModel._total_contention_delay r) p) as [x Ex]; [lia|].
  apply runs_bind, (runs_lift _ _ x); [done|].
  apply runs_bind. eapply runs_lift; [apply vset_in_range; lia|].
  destruct (vget_in_range "_total_packets" (RouterModel._total_packets r) p) as [y Ey]; [lia|].
  apply runs_bind, (runs_lift _ _ y); [done|].
  apply runs_bind. eapply runs_lift; [apply vset_in_range; lia|].
  run1. apply IH; [|done]. split; cbn; rewrite ?zlength_zinsert; done.
Qed.

Lemma event_counters_spec n l ports r :
  router_ok ports r → 1 ≤ zlength l ≤ ports →
  runs E (RouterModel.updateEventCounters n l) r (λ _ r', router_ok ports r').
Proof.
  intros [H1 H2 H3 H4 H5] Hl. unfold RouterModel.updateEventCounters. do 2 run1. unfold id.
  destruct (vget_in_range "_total_crossbar_traversals" (RouterModel._total_crossbar_traversals r) (zlength l - 1)) as [x Ex]; [lia|].
  apply runs_bind, (runs_lift _ _ x); [done|].
  apply runs_bind. eapply runs_lift; [apply vset_in_range; lia|].
  run1. split; cbn; rewrite ?zlength_zinsert; done.
Qed.

(** A router adds its delay and the delay of its queues, or nothing when the
    packet is not modelled. *)
Lemma router_list_spec t m pkt l z c ports r :
  sendable pkt → base_ok (g_type_to_static_network_map (NetPacket.type pkt)) t m →
  router_ok ports r → Forall (λ p, 0 ≤ p < ports) l → 1 ≤ zlength l ≤ ports →
  runs E (RouterModel.processPacket_list cfg pow m pkt l z c) r (λ _ r', router_ok ports r').
Proof.
  intros Hs Hb Hr Hl Hn. pose proof Hr as [H1 _ _ _ _].
  unfold RouterModel.processPacket_list. destruct (model_enabled t m pkt Hs Hb) as [b Eb].
  apply runs_bind, (runs_lift _ _ b); [done|]. destruct b; [|done]. cbn [negb]. do 2 run1. unfold id.
  run1. run1.
  { rewrite H1. apply andb_true_iff. rewrite Z.geb_leb, !Z.leb_le. lia. }
  destruct (modeled_length pkt Hs) as [n En]. apply runs_bind, (runs_lift _ _ n); [done|].
  destruct (num_flits m n) as [k Ek]; [apply Hb|]. apply runs_bind, (runs_lift _ _ k); [done|].
  apply runs_bind, (runs_mono _ _ _ (λ _ r', router_ok ports r')).
  - destruct (RouterModel._contention_model_enabled r) eqn:Ec; [|by apply runs_ret].
    apply runs_bind. eapply runs_mono; [by apply queue_delays_spec|]. intros d r1 Hr1. cbv beta in *.
    apply runs_bind. eapply runs_mono; [by apply contention_counters_spec|]. intros [] r2 Hr2. by apply runs_ret.
  - intros d r1 Hr1. apply runs_bind. eapply runs_mono; [by apply event_counters_spec|].
    intros [] r2 Hr2. by apply runs_ret.
Qed.

Lemma router_spec t m pkt port z c ports r :
  sendable pkt → base_ok (g_type_to_static_network_map (NetPacket.type pkt)) t m →
  router_ok ports r → 0 ≤ port < ports →
  runs E (RouterModel.processPacket cfg pow m pkt port z c) r (λ _ r', router_ok ports r').
Proof.
  intros Hs Hb Hr Hp. unfold RouterModel.processPacket. do 2 run1.
  rewrite (proj2 (Z.eqb_neq port _)).
  - apply (router_list_spec t); try done; [by apply Forall_singleton|]. unfold zlength. cbn. lia.
  - assert (RouterModel.OUTPUT_PORT_ALL < 0) by by vm_compute. lia.
Qed.

Lemma router_all_spec t m pkt z c ports r :
  sendable pkt → base_ok (g_type_to_static_network_map (NetPacket.type pkt)) t m →
  router_ok ports r → 1 ≤ ports →
  runs E (RouterModel.processPacket cfg pow m pkt RouterModel.OUTPUT_PORT_ALL z c) r (λ _ r', router_ok ports r').
Proof.
  intros Hs Hb Hr Hp. unfold RouterModel.processPacket. do 2 run1. rewrite Z.eqb_refl.
  rewrite (router_ports _ _ Hr : RouterModel._num_output_ports (id r) = ports).
  apply (router_list_spec t); try done.
  - apply Forall_forall. intros p ?%elem_of_seqZ. lia.
  - unfold zlength. rewrite length_seqZ. lia.
Qed.

Lemma elink_spec t m pkt z l (Q : Z → ElectricalLinkModel.ElectricalLinkModel → Prop) :
  sendable pkt → base_ok (g_type_to_static_network_map (NetPacket.type pkt)) t m → (∀ z' l', Q z' l') →
  runs E (ElectricalLinkModel.processPacket cfg m pkt z) l Q.
Proof.
  intros Hs Hb HQ. unfold ElectricalLinkModel.processPacket. destruct (model_enabled t m pkt Hs Hb) as [b Eb].
  apply runs_bind, (runs_lift _ _ b); [done|]. destruct b; [|apply HQ]. cbn [negb].
  destruct (modeled_length pkt Hs) as [n En]. apply runs_bind, (runs_lift _ _ n); [done|].
  destruct (num_flits m n) as [k Ek]; [apply Hb|]. apply runs_bind, (runs_lift _ _ k); [done|].
  do 4 run1. apply HQ.
Qed.

Lemma optical_spec t m pkt e z l (Q : Z → OpticalLinkModel.OpticalLinkModel → Prop) :
  sendable pkt → base_ok (g_type_to_static_network_map (NetPacket.type pkt)) t m →
  (e = 1 ∨ e = OpticalLinkModel.ENDPOINT_ALL ∧ OpticalLinkModel.broadcast (OpticalLinkModel._laser_modes l) = true) →
  (∀ z' l', OpticalLinkModel._laser_modes l' = OpticalLinkModel._laser_modes l → Q z' l') →
  runs E (OpticalLinkModel.processPacket cfg m pkt e z) l Q.
Proof.
  intros Hs Hb He HQ. unfold OpticalLinkModel.processPacket. destruct (model_enabled t m pkt Hs Hb) as [b Eb].
  apply runs_bind, (runs_lift _ _ b); [done|]. destruct b; [|by apply HQ]. cbn [negb].
  destruct (modeled_length pkt Hs) as [n En]. apply runs_bind, (runs_lift _ _ n); [done|].
  destruct (num_flits m n) as [k Ek]; [apply Hb|]. apply runs_bind, (runs_lift _ _ k); [done|].
  do 2 run1. apply runs_bind. destruct He as [->|[-> Hl]].
  - cbn. destruct (OpticalLinkModel.unicast _); run1; by apply HQ.
  - unfold OpticalLinkModel.ENDPOINT_ALL. cbn [Z.eqb Pos.eqb]. apply runs_bind, runs_assert; [done|].
    run1. by apply HQ.
Qed.
End parts.
