(* ===== verification/DeliveryProofs.v ===== *)
(** * DeliveryProofs: packets reach their receivers

    A [Scheme] is what the network asks of a routing algorithm: the tiles a
    packet in flight will still reach ([sc_goals]) and how many hops it may
    still make ([sc_cost]); a router must pass the goals on to its hops and
    lower the cost.  The world of tiles then delivers every packet once to each
    receiver, for every order in which the tiles send and receive. *)
From S2P Require Import Prelude Utils Double CacheSet Cache Shmem ThreadManager QueueModels HistoryTree NetPacket NetworkModel MeshModels AtacModel Network NetworkProofs.
Import PacketType.

(** ** Collecting over an array *)

Section collect.
Context {A B : Type} (f : nat → A → list B).

Lemma imap_insert_perm (l : list A) (i : nat) (x : A) :
  l !! i = Some x →
  ∃ R, concat (imap f l) ≡ₚ f i x ++ R ∧ ∀ y, concat (imap f (<[i := y]> l)) ≡ₚ f i y ++ R.
Proof.
  intros Hx. exists (concat (imap f (take i l)) ++ concat (imap (f ∘ (λ k, (S i + k)%nat)) (drop (S i) l))).
  pose proof (lookup_lt_Some _ _ _ Hx) as Hi.
  assert (∀ y, concat (imap f (<[i := y]> l)) ≡ₚ
    f i y ++ concat (imap f (take i l)) ++ concat (imap (f ∘ (λ k, (S i + k)%nat)) (drop (S i) l))) as Hy.
  { intros y. rewrite (insert_take_drop l i y) by done. rewrite imap_app. cbn. rewrite concat_app. cbn.
    rewrite length_take, Nat.min_l by lia. rewrite Nat.add_0_r.
    assert (imap ((λ k : nat, f (i + k)%nat) ∘ S) (drop (S i) l) =
            imap (f ∘ (λ k, S (i + k)%nat)) (drop (S i) l)) as E.
    { apply imap_ext. intros k z _. cbn. by rewrite Nat.add_succ_r. }
    cbn in E. rewrite E. rewrite !app_assoc. apply Permutation_app_tail, Permutation_app_comm. }
  split; [|exact Hy]. rewrite <- (Hy x). by rewrite list_insert_id.
Qed.
End collect.

(** ** Schemes *)

Section schemes.
Context {Msg : Type} `{MemoryManager Msg} (cfg : SysConfig.Config) (pow : double → double → double).
Abbreviation napp := (SysConfig.m_application_tiles cfg).
Abbreviation total := (SysConfig.getTotalTiles cfg).
Abbreviation E := (net_error pow).
Implicit Types (pkt : NetPacket Msg).

Definition app_tile (t : Z) : Prop := 0 ≤ t < napp.

(** Senders and receivers of the packets the models route: the base class
    handles those of a tile to itself and those of system tiles. *)
Definition routed (s r : Z) : Prop := app_tile s ∧ (r = NetPacket.BROADCAST ∨ app_tile r ∧ r ≠ s).

(** A hop of a packet from [s] to [r] leads to an application tile, where the
    packet is received or routed on. *)
Definition hop_ok (valid : Z → Z → Z → Z → Prop) (s r : Z) (h : Hop.Hop) : Prop :=
  app_tile (Hop._next_tile_id h) ∧ Hop._next_node_type h ≠ NetPacket.SEND_TILE ∧
  if Hop._next_node_type h =? NetPacket.RECEIVE_TILE then r = NetPacket.BROADCAST ∨ r = Hop._next_tile_id h
  else valid (Hop._next_tile_id h) (Hop._next_node_type h) s r.

Definition goals_at (goals : Z → Z → Z → Z → list Z) (t node s r : Z) : list Z :=
  if node =? NetPacket.RECEIVE_TILE then [t] else goals t node s r.
Definition cost_at (cost : Z → Z → Z → Z → nat) (t node s r : Z) : nat :=
  if node =? NetPacket.RECEIVE_TILE then 1 else cost t node s r.
Definition hop_goals (goals : Z → Z → Z → Z → list Z) (s r : Z) (h : Hop.Hop) : list Z :=
  goals_at goals (Hop._next_tile_id h) (Hop._next_node_type h) s r.
Definition hop_cost (cost : Z → Z → Z → Z → nat) (s r : Z) (h : Hop.Hop) : nat :=
  cost_at cost (Hop._next_tile_id h) (Hop._next_node_type h) s r.

(** The functions of a scheme take the tile and the node type a packet is at,
    its sender and its receiver. *)
Class Scheme := {
  sc_broadcast : bool;
  sc_ok : Z → Model.Model → Prop;
  sc_valid : Z → Z → Z → Z → Prop;
  sc_goals : Z → Z → Z → Z → list Z;
  sc_cost : Z → Z → Z → Z → nat;
  sc_ok_base t m b : sc_ok t m → sc_ok t (Model.set_base b m);
  sc_send s r : routed s r → (r = NetPacket.BROADCAST → sc_broadcast = true) →
    sc_valid s NetPacket.SEND_TILE s r ∧
    sc_goals s NetPacket.SEND_TILE s r ≡ₚ (if r =? NetPacket.BROADCAST then seqZ 0 napp else [r]);
  sc_bound t node s r : app_tile t → routed s r → sc_valid t node s r → (sc_cost t node s r <= Z.to_nat (7 * napp + 8))%nat;
  sc_positive t node s r : sc_valid t node s r → (1 <= sc_cost t node s r)%nat;
  sc_route t m pkt :
    app_tile t → sendable cfg pkt →
    let s := tile_id (NetPacket.sender pkt) in
    let r := tile_id (NetPacket.receiver pkt) in
    routed s r → base_ok (g_type_to_static_network_map (NetPacket.type pkt)) t (Model.base m) → sc_ok t m →
    sc_valid t (NetPacket.node_type pkt) s r →
    runs E (Model.routePacket cfg pow pkt) m (λ hops m',
      sc_ok t m' ∧ Model.base m' = Model.base m ∧ Forall (hop_ok sc_valid s r) hops ∧
      concat (hop_goals sc_goals s r <$> hops) ≡ₚ sc_goals t (NetPacket.node_type pkt) s r ∧
      (sum_list (hop_cost sc_cost s r <$> hops) < sc_cost t (NetPacket.node_type pkt) s r)%nat)
}.

(** A scheme that routes every packet in one hop and has no broadcast. *)
Definition direct (S : Scheme) : Prop :=
  @sc_broadcast S = false ∧ ∀ t node s r, @sc_valid S t node s r → node = NetPacket.SEND_TILE.

(** ** The magic network and the hop counter *)

Lemma hop_cost_sum_app (c : Hop.Hop → nat) l k : sum_list (c <$> (l ++ k)) = (sum_list (c <$> l) + sum_list (c <$> k))%nat.
Proof. induction l; cbn; lia. Qed.

Definition one_hop (m : Model.Model) : Prop :=
  match m with Model.Magic _ | Model.EMeshHopCounter _ => True | _ => False end.

#[program] Definition direct_scheme : Scheme := {|
  sc_broadcast := false;
  sc_ok t m := one_hop m;
  sc_valid t node s r := node = NetPacket.SEND_TILE ∧ app_tile r;
  sc_goals t node s r := [r];
  sc_cost t node s r := 2%nat
|}.
Next Obligation. by intros t [] b ?. Qed.
Next Obligation.
  intros s r [_ Hr] Hb. destruct Hr as [Hr|[Hr _]]; [by specialize (Hb Hr)|]. split; [done|].
  rewrite (proj2 (Z.eqb_neq _ _)); [done|]. pose proof BROADCAST_neg. destruct Hr. lia.
Qed.
Next Obligation. intros t node s r Ht _ _. unfold app_tile in Ht. cbn. lia. Qed.
Next Obligation. intros. cbn. lia. Qed.
Next Obligation.
  intros t m pkt Ht Hs s r Hr Hb Hm [_ Hv].
  assert (∀ z, Forall (hop_ok (λ t node s r, node = NetPacket.SEND_TILE ∧ app_tile r) s r)
                 [Hop.make pkt r NetPacket.RECEIVE_TILE z 0]) as Hh.
  { intros z. apply Forall_singleton. split_and!; cbn; [done|done|auto]. }
  destruct m as [m|m|m|m]; [| |by destruct Hm|by destruct Hm].
  - unfold runs. cbn. split_and!; [done..|apply Hh|done|cbn; lia].
  - eapply runs_inj; [reflexivity|]. unfold NetworkModelEMeshHopCounter.routePacket. do 2 run1. unfold id.
    destruct (Mesh.computePosition _ _) as [sx sy], (Mesh.computePosition _ _) as [dx dy].
    destruct (model_enabled cfg t _ pkt Hs Hb) as [b Eb]. apply runs_bind, (runs_lift _ _ b); [done|].
    apply runs_bind, (runs_mono _ _ _ (λ _ m', NetworkModelEMeshHopCounter._model m' = NetworkModelEMeshHopCounter._model m)).
    + unfold NetworkModelEMeshHopCounter.updateDynamicEnergy. do 2 run1.
      apply runs_bind, (runs_lift _ _ b); [done|]. destruct b; [|done]. cbn [negb].
      destruct (modeled_length cfg pkt Hs) as [n En]. apply runs_bind, (runs_lift _ _ n); [done|].
      destruct (num_flits (NetworkModelEMeshHopCounter._model m) n) as [k Ek]; [apply Hb|].
      apply runs_bind, (runs_lift _ _ k); [done|]. done.
    + intros [] m' Em'. run1. split_and!; [done|exact Em'|apply Hh|done|cbn; lia].
Qed.

Lemma direct_direct : direct direct_scheme.
Proof. split; [done|]. by intros t node s r [? _]. Qed.

(** ** Packets in flight *)

Context (S : EStaticNetwork → Scheme) (system_direct : direct (S STATIC_NETWORK_SYSTEM)).

Abbreviation nid pkt := (g_type_to_static_network_map (NetPacket.type pkt)).
Abbreviation sender pkt := (tile_id (NetPacket.sender pkt)).
Abbreviation receiver pkt := (tile_id (NetPacket.receiver pkt)).
Abbreviation node pkt := (NetPacket.node_type pkt).

Record in_flight (t : Z) (pkt : NetPacket Msg) : Prop := {
  flight_sendable : sendable cfg pkt;
  flight_place :
    (node pkt = NetPacket.RECEIVE_TILE ∧ 0 ≤ t < total ∧ (receiver pkt = NetPacket.BROADCAST ∨ receiver pkt = t)) ∨
    (app_tile t ∧ routed (sender pkt) (receiver pkt) ∧ node pkt ≠ NetPacket.SEND_TILE ∧
     node pkt ≠ NetPacket.RECEIVE_TILE ∧ @sc_valid (S (nid pkt)) t (node pkt) (sender pkt) (receiver pkt));
  flight_system : nid pkt = STATIC_NETWORK_SYSTEM → node pkt = NetPacket.RECEIVE_TILE ∧ receiver pkt = t
}.

(** What identifies a packet from end to end. *)
Definition ident (pkt : NetPacket Msg) : PacketType * core_id_t * Z * NetPacket.Payload Msg :=
  (NetPacket.type pkt, NetPacket.sender pkt, NetPacket.length pkt, NetPacket.data pkt).

Definition goals (t : Z) (pkt : NetPacket Msg) : list Z :=
  goals_at (@sc_goals (S (nid pkt))) t (node pkt) (sender pkt) (receiver pkt).
Definition cost (t : Z) (pkt : NetPacket Msg) : nat :=
  cost_at (@sc_cost (S (nid pkt))) t (node pkt) (sender pkt) (receiver pkt).
(** The deliveries a packet at [t] will make. *)
Definition entries (t : Z) (pkt : NetPacket Msg) := (λ g, (g, ident pkt)) <$> goals t pkt.

Definition packet (b : NetPacket.Buffer Msg) : NetPacket Msg :=
  match NetPacket.of_buffer b with Ok p => p | Fail _ => NetPacket.empty end.

Definition collect {A} (f : Z → NetPacket Msg → list A) (w : World.World Msg) : list A :=
  concat (imap (λ t q, concat ((λ b, f (Z.of_nat t) (packet b)) <$> q)) (World._transport w)).
Definition pending (w : World.World Msg) := collect entries w.
Definition burden (w : World.World Msg) : nat := length (collect (λ t p, replicate (cost t p) ()) w).
Definition delivered (w : World.World Msg) :=
  concat (imap (λ t n, (λ p, (Z.of_nat t, ident p)) <$> (Network._netQueue n ++ Network._called n)) (World._networks w)).

(** ** The state of the tiles *)

Definition model_ok (t : Z) (i : EStaticNetwork) (m : Model.Model) : Prop :=
  base_ok i t (Model.base m) ∧
  NetworkModel._has_broadcast_capability (Model.base m) = @sc_broadcast (S i) ∧
  (app_tile t → @sc_ok (S i) t m).

Record network_ok (t : Z) (n : Network.Network Msg) : Prop := {
  network_numMod : Network._numMod n = total;
  network_models i : ∃ m, Network._models n !! Network.network_index i = Some m ∧ model_ok t i m
}.

Record world_ok (w : World.World Msg) : Prop := {
  world_tiles : napp ≤ total;
  world_networks : zlength (World._networks w) = total;
  world_transport : zlength (World._transport w) = total;
  world_network t n : World._networks w !! t = Some n → network_ok (Z.of_nat t) n;
  world_flight t q : World._transport w !! t = Some q →
    Forall (λ b, NetPacket.of_buffer b = Ok (packet b) ∧ in_flight (Z.of_nat t) (packet b)) q
}.

Lemma network_index_inj i j : Network.network_index i = Network.network_index j → i = j.
Proof. by destruct i, j. Qed.

Lemma network_ok_set t n i m :
  network_ok t n → model_ok t i m →
  network_ok t (n <| Network._models ::= <[Network.network_index i := m]> |>).
Proof.
  intros [Hn Hm] Hi. split; [done|]. intros j. cbn. destruct (decide (i = j)) as [<-|Hij].
  - exists m. split; [|done]. destruct (Hm i) as (m0 & Hm0 & _).
    by apply list_lookup_insert_eq, (lookup_lt_Some _ _ m0).
  - rewrite list_lookup_insert_ne; [apply Hm|]. intros ?%network_index_inj. done.
Qed.

Lemma runs_on {A} (t : Z) (op : M (Network.Network Msg) A) w n (Q : A → World.World Msg → Prop) :
  World._networks w !! Z.to_nat t = Some n → 0 ≤ t →
  runs E op n (λ a n', Q a (w <| World._networks ::= zinsert t n' |>)) → runs E (World.on t op) w Q.
Proof.
  intros Hn Ht Hop. unfold World.on. do 2 run1. apply runs_bind, (runs_lift _ _ n).
  { unfold vget, id. by rewrite zlookup_nat, Hn by done. }
  unfold runs, lift, mbind, M_bind in *. destruct (op n) as [[a n']|e]; done.
Qed.

Lemma runs_in_model {A} ty (op : M Model.Model A) (n : Network.Network Msg) m (Q : A → Network.Network Msg → Prop) :
  Network._models n !! Network.network_index (g_type_to_static_network_map ty) = Some m →
  runs E op m (λ a m', Q a (n <| Network._models ::= <[Network.network_index (g_type_to_static_network_map ty) := m']> |>)) →
  runs E (Network.in_model ty op) n Q.
Proof.
  intros Hm Hop. unfold Network.in_model, Network.getNetworkModelFromPacketType, runs. rewrite Hm. cbn.
  unfold runs in Hop. by destruct (op m) as [[a m']|e].
Qed.

(** A tile of the world. *)
Lemma world_lookup w t : world_ok w → 0 ≤ t < total →
  ∃ n, World._networks w !! Z.to_nat t = Some n ∧ network_ok t n.
Proof.
  intros Hw Ht. destruct (lookup_lt_is_Some_2 (World._networks w) (Z.to_nat t)) as [n Hn].
  { pose proof (world_networks w Hw). unfold zlength in *. lia. }
  exists n. split; [done|]. rewrite <- (Z2Nat.id t) by lia. by apply (world_network w Hw).
Qed.
Lemma mailbox_lookup w t : world_ok w → 0 ≤ t < total → ∃ q, World._transport w !! Z.to_nat t = Some q.
Proof.
  intros Hw Ht. apply lookup_lt_is_Some_2. pose proof (world_transport w Hw). unfold zlength in *. lia.
Qed.

(** Updating one tile keeps the rest. *)
Lemma world_ok_network w t n n' :
  world_ok w → 0 ≤ t < total → World._networks w !! Z.to_nat t = Some n → network_ok t n' →
  world_ok (w <| World._networks ::= zinsert t n' |>).
Proof.
  intros [H0 H1 H2 H3 H4] Ht Hn Hn'. split; cbn; try done; [by rewrite zlength_zinsert|].
  intros k n0. unfold zinsert. rewrite (proj2 (Z.leb_le 0 t)) by lia.
  destruct (decide (k = Z.to_nat t)) as [->|Hk].
  - rewrite list_lookup_insert_eq by by eapply lookup_lt_Some. intros [= <-]. by rewrite Z2Nat.id by lia.
  - rewrite list_lookup_insert_ne by done. apply H3.
Qed.
Lemma world_ok_mailbox w t q q' :
  world_ok w → 0 ≤ t < total → World._transport w !! Z.to_nat t = Some q →
  Forall (λ b, NetPacket.of_buffer b = Ok (packet b) ∧ in_flight t (packet b)) q' →
  world_ok (w <| World._transport ::= zinsert t q' |>).
Proof.
  intros [H0 H1 H2 H3 H4] Ht Hq Hq'. split; cbn; try done; [by rewrite zlength_zinsert|].
  intros k n0. unfold zinsert. rewrite (proj2 (Z.leb_le 0 t)) by lia.
  destruct (decide (k = Z.to_nat t)) as [->|Hk].
  - rewrite list_lookup_insert_eq by by eapply lookup_lt_Some. intros [= <-]. by rewrite Z2Nat.id by lia.
  - rewrite list_lookup_insert_ne by done. apply H4.
Qed.

Lemma collect_mailbox {A} (f : Z → NetPacket Msg → list A) w t q :
  0 ≤ t → World._transport w !! Z.to_nat t = Some q →
  ∃ R, collect f w ≡ₚ concat ((λ b, f t (packet b)) <$> q) ++ R ∧
    ∀ q', collect f (w <| World._transport ::= zinsert t q' |>) ≡ₚ concat ((λ b, f t (packet b)) <$> q') ++ R.
Proof.
  intros Ht Hq.
  destruct (imap_insert_perm (λ t q, concat ((λ b, f (Z.of_nat t) (packet b)) <$> q)) _ _ _ Hq) as (R & H1 & H2).
  rewrite Z2Nat.id in * by done. exists R. split; [exact H1|]. intros q'. unfold collect, zinsert. cbn.
  rewrite (proj2 (Z.leb_le 0 t)) by lia. exact (H2 q').
Qed.
Lemma delivered_network w t n :
  0 ≤ t → World._networks w !! Z.to_nat t = Some n →
  ∃ R, delivered w ≡ₚ ((λ p, (t, ident p)) <$> (Network._netQueue n ++ Network._called n)) ++ R ∧
    ∀ n', delivered (w <| World._networks ::= zinsert t n' |>) ≡ₚ
          ((λ p, (t, ident p)) <$> (Network._netQueue n' ++ Network._called n')) ++ R.
Proof.
  intros Ht Hn.
  destruct (imap_insert_perm (λ t n, (λ p, (Z.of_nat t, ident p)) <$> (Network._netQueue n ++ Network._called n)) _ _ _ Hn)
    as (R & H1 & H2).
  rewrite Z2Nat.id in * by done. exists R. split; [exact H1|]. intros n'. unfold delivered, zinsert. cbn.
  rewrite (proj2 (Z.leb_le 0 t)) by lia. exact (H2 n').
Qed.

(** ** Routing one packet *)

Definition hop_flight (pkt : NetPacket Msg) (h : Hop.Hop) : Prop :=
  in_flight (Hop._next_tile_id h) (Hop.apply h pkt).

Lemma sendable_apply h pkt : sendable cfg pkt → sendable cfg (Hop.apply h pkt).
Proof. intros [H1 H2 H3]. by split. Qed.

Abbreviation sgoals pkt := (hop_goals (@sc_goals (S (nid pkt))) (sender pkt) (receiver pkt)).
Abbreviation scost pkt := (hop_cost (@sc_cost (S (nid pkt))) (sender pkt) (receiver pkt)).

Lemma goals_apply h pkt : goals (Hop._next_tile_id h) (Hop.apply h pkt) = sgoals pkt h.
Proof. done. Qed.
Lemma cost_apply h pkt : cost (Hop._next_tile_id h) (Hop.apply h pkt) = scost pkt h.
Proof. done. Qed.

(** A packet of the system network goes to one tile. *)
Definition system_unicast (pkt : NetPacket Msg) : Prop :=
  nid pkt = STATIC_NETWORK_SYSTEM → receiver pkt ≠ NetPacket.BROADCAST.

Lemma hop_ok_flight pkt h :
  napp ≤ total → sendable cfg pkt → routed (sender pkt) (receiver pkt) → system_unicast pkt →
  hop_ok (@sc_valid (S (nid pkt))) (sender pkt) (receiver pkt) h → hop_flight pkt h.
Proof.
  intros Htot Hs Hr Hsys (Hh & Hsend & Hn). unfold app_tile in Hh. split; [by apply sendable_apply| |].
  - cbn. destruct (Hop._next_node_type h =? NetPacket.RECEIVE_TILE) eqn:En; breflect.
    + left. split_and!; [done|lia..|done].
    + right. by split_and!.
  - cbn. intros Hid. specialize (Hsys Hid).
    destruct (Hop._next_node_type h =? NetPacket.RECEIVE_TILE) eqn:En; breflect.
    + split; [done|]. by destruct Hn.
    + destruct system_direct as [_ Hd]. rewrite Hid in Hn. by apply Hd in Hn.
Qed.

Lemma receive_flight pkt z c t :
  sendable cfg pkt → 0 ≤ t < total → (receiver pkt = t ∨ receiver pkt = NetPacket.BROADCAST) → system_unicast pkt →
  hop_flight pkt (Hop.make pkt t NetPacket.RECEIVE_TILE z c).
Proof.
  intros Hs Ht Hr Hsys. split; [by apply sendable_apply| |]; cbn.
  - left. split_and!; [done|lia..|tauto].
  - intros Hid. split; [done|]. destruct Hr; [done|]. by destruct (Hsys Hid).
Qed.

Lemma system_flight t pkt : in_flight t pkt → system_unicast pkt.
Proof.
  intros [_ Hp Hsys] Hid. destruct (Hsys Hid) as [Hn ->]. pose proof BROADCAST_neg.
  destruct Hp as [(_ & ? & _)|(_ & _ & _ & ? & _)]; [lia|done].
Qed.

Lemma isApplicationTile_app t : app_tile t → NetworkModel.isApplicationTile cfg t = true.
Proof. intros [? ?]. apply andb_true_iff. rewrite Z.leb_le, Z.ltb_lt. lia. Qed.
Lemma isSystemTile_spec t :
  NetworkModel.isSystemTile cfg t = if decide (napp ≤ t < total) then true else false.
Proof.
  unfold NetworkModel.isSystemTile. destruct (decide _) as [Hd|Hd].
  - apply andb_true_iff. rewrite Z.geb_leb, Z.leb_le, Z.ltb_lt. lia.
  - apply andb_false_iff. rewrite Z.geb_leb, Z.leb_gt, Z.ltb_ge. lia.
Qed.

(** The assertion of [__routePacket]. *)
Lemma routed_assert s r : routed s r →
  NetworkModel.isApplicationTile cfg s && (NetworkModel.isApplicationTile cfg r || (r =? NetPacket.BROADCAST)) &&
  negb (s =? r) = true.
Proof.
  intros [Hs Hr]. rewrite (isApplicationTile_app s Hs). cbn. apply andb_true_iff. pose proof BROADCAST_neg.
  destruct Hr as [->|[Hr Hne]].
  - rewrite Z.eqb_refl, orb_true_r. split; [done|]. apply negb_true_iff, Z.eqb_neq. destruct Hs. lia.
  - rewrite (isApplicationTile_app r Hr). split; [done|]. apply negb_true_iff, Z.eqb_neq. done.
Qed.

(** What a model does with a packet that is routed from [t]. *)
Lemma scheme_route t m pkt :
  napp ≤ total → app_tile t → sendable cfg pkt → routed (sender pkt) (receiver pkt) → system_unicast pkt →
  model_ok t (nid pkt) m → @sc_valid (S (nid pkt)) t (node pkt) (sender pkt) (receiver pkt) →
  runs E (Model.routePacket cfg pow pkt) m (λ hops m',
    model_ok t (nid pkt) m' ∧ Forall (hop_flight pkt) hops ∧
    concat (sgoals pkt <$> hops) ≡ₚ @sc_goals (S (nid pkt)) t (node pkt) (sender pkt) (receiver pkt) ∧
    (sum_list (scost pkt <$> hops) < @sc_cost (S (nid pkt)) t (node pkt) (sender pkt) (receiver pkt))%nat).
Proof.
  intros Htot Ht Hs Hr Hsys (Hb & Hcap & Hm) Hv. eapply runs_mono; [exact (@sc_route (S (nid pkt)) t m pkt Ht Hs Hr Hb (Hm Ht) Hv)|].
  cbv beta. intros hops m' (Hok & Eb & Hh & Hg & Hc). split_and!; [unfold model_ok; by rewrite Eb| |done|done].
  eapply Forall_impl; [exact Hh|]. intros h. by apply hop_ok_flight.
Qed.

Lemma route_intermediate t m pkt :
  napp ≤ total → in_flight t pkt → node pkt ≠ NetPacket.RECEIVE_TILE → model_ok t (nid pkt) m →
  runs E (Model.__routePacket cfg pow pkt) m (λ hops m',
    model_ok t (nid pkt) m' ∧ Forall (hop_flight pkt) hops ∧
    concat (sgoals pkt <$> hops) ≡ₚ goals t pkt ∧ (sum_list (scost pkt <$> hops) < cost t pkt)%nat).
Proof.
  intros Htot Hf Hn Hm. pose proof (system_flight _ _ Hf) as Hsys.
  destruct Hf as [Hs [[? _]|(Ht & Hr & Hsend & _ & Hv)] _]; [done|].
  unfold Model.__routePacket, goals, cost, goals_at, cost_at. rewrite (proj2 (Z.eqb_neq _ _) Hn).
  do 2 run1. rewrite (proj2 (Z.eqb_neq _ _) Hsend). apply runs_bind, runs_ret. cbn [fst snd].
  apply runs_bind, runs_assert; [by apply routed_assert|]. apply runs_bind.
  eapply runs_mono; [by apply (scheme_route t m)|]. cbv beta. intros hops m' Hpost. by run1.
Qed.

(** The tiles that get a packet of a sender. *)
Definition receivers (pkt : NetPacket Msg) : list Z :=
  if receiver pkt =? NetPacket.BROADCAST then seqZ 0 total else [receiver pkt].

(** A packet the network of tile [t] may be asked to send. *)
Record send_ok (t : Z) (pkt : NetPacket Msg) : Prop := {
  send_sendable : sendable cfg pkt;
  send_from : sender pkt = t;
  send_node : node pkt = NetPacket.SEND_TILE;
  send_to : receiver pkt = NetPacket.BROADCAST ∨ 0 ≤ receiver pkt < total
}.

Lemma receive_hops pkt l :
  sendable cfg pkt → system_unicast pkt →
  Forall (λ t, 0 ≤ t < total ∧ (receiver pkt = t ∨ receiver pkt = NetPacket.BROADCAST)) l →
  let hops := (λ i, Hop.make pkt i NetPacket.RECEIVE_TILE 0 0) <$> l in
  Forall (hop_flight pkt) hops ∧ concat (sgoals pkt <$> hops) = l ∧ sum_list (scost pkt <$> hops) = length l.
Proof.
  intros Hs Hsys Hl. induction Hl as [|i l [Hi Hr] Hl IH]; [done|]. destruct IH as (H1 & H2 & H3).
  cbn. rewrite H2, H3. split_and!; [|done|done]. apply Forall_cons. split; [by apply receive_flight|done].
Qed.

Lemma send_counters t m pkt :
  sendable cfg pkt → sender pkt = t → model_ok t (nid pkt) m →
  runs E (Model.in_base (NetworkModel.updateSendCounters cfg pkt)) m (λ _ m', model_ok t (nid pkt) m').
Proof.
  intros Hs Ht (Hb & Hcap & Hm). apply runs_zoom. unfold NetworkModel.updateSendCounters. do 2 run1. unfold id.
  pose proof Hb as [Hid Htile Hflit].
  apply runs_bind, runs_assert; [rewrite Htile; by apply Z.eqb_eq|].
  destruct (modeled_length cfg pkt Hs) as [n En]. apply runs_bind, (runs_lift _ _ n); [done|].
  destruct (num_flits (Model.base m) n Hflit) as [k Ek]. apply runs_bind, (runs_lift _ _ k); [done|].
  run1. run1. apply runs_when; intros _; [run1|];
    (split_and!; [destruct m; by split|by destruct m|intros Hat; exact (@sc_ok_base (S (nid pkt)) t m _ (Hm Hat))]).
Qed.

Lemma corner_cases t m pkt :
  napp ≤ total → 0 ≤ t < total → send_ok t pkt → system_unicast pkt → base_ok (nid pkt) t m →
  ∃ hops done, NetworkModel.processCornerCases cfg m pkt = Ok (hops, done) ∧
    Forall (hop_flight pkt) hops ∧ sum_list (scost pkt <$> hops) = length hops ∧
    (done = true → concat (sgoals pkt <$> hops) = receivers pkt ∧ (length hops <= Z.to_nat total)%nat) ∧
    (done = false → app_tile t ∧ routed t (receiver pkt) ∧
       concat (sgoals pkt <$> hops) = (if receiver pkt =? NetPacket.BROADCAST then seqZ napp (total - napp) else []) ∧
       (length hops <= Z.to_nat (total - napp))%nat).
Proof.
  intros Htot Ht [Hs <- Hnode Hto] Hsys [_ Htile _]. pose proof BROADCAST_neg as Hneg.
  unfold NetworkModel.processCornerCases, receivers. rewrite Htile, Z.eqb_refl. cbn.
  assert (∀ i, 0 ≤ i < total → receiver pkt = i ∨ receiver pkt = NetPacket.BROADCAST →
    Forall (hop_flight pkt) [Hop.make pkt i NetPacket.RECEIVE_TILE 0 0]) as H1.
  { intros i Hi Hr. apply Forall_singleton, receive_flight; auto. }
  assert (receiver pkt ≠ NetPacket.BROADCAST → 0 ≤ receiver pkt < total ∧ (receiver pkt =? NetPacket.BROADCAST) = false) as Hu.
  { intros Hne. split; [by destruct Hto|by apply Z.eqb_neq]. }
  assert (∀ a n, 0 ≤ a → a + n ≤ total → receiver pkt = NetPacket.BROADCAST →
    let hops := (λ i, Hop.make pkt i NetPacket.RECEIVE_TILE 0 0) <$> seqZ a n in
    Forall (hop_flight pkt) hops ∧ concat (sgoals pkt <$> hops) = seqZ a n ∧ sum_list (scost pkt <$> hops) = length hops) as Hall.
  { intros a n Ha Hn Hr. cbn zeta. rewrite length_fmap. apply receive_hops; [done..|]. apply Forall_forall.
    intros i ?%elem_of_seqZ. split; [lia|auto]. }
  destruct (sender pkt =? receiver pkt) eqn:Eself; breflect.
  { exists [Hop.make pkt (receiver pkt) NetPacket.RECEIVE_TILE 0 0], true.
    assert (receiver pkt ≠ NetPacket.BROADCAST) as Hne by lia. destruct (Hu Hne) as [Hr ->].
    split_and!; try done; [apply H1; auto|]. intros _. cbn. split; [done|lia]. }
  rewrite !isSystemTile_spec. destruct (decide (napp ≤ sender pkt < total)) as [Hsys1|Happ].
  { destruct (receiver pkt =? NetPacket.BROADCAST) eqn:Eb; breflect.
    - destruct (Hall 0 total) as (A1 & A2 & A3); [lia..|done|]. eexists _, true. split_and!; [done|exact A1|exact A3| |done].
      intros _. split; [exact A2|]. rewrite length_fmap, length_seqZ. lia.
    - exists [Hop.make pkt (receiver pkt) NetPacket.RECEIVE_TILE 0 0], true. destruct (Hu Eb) as [Hr _].
      split_and!; try done; [apply H1; auto|]. intros _. cbn. split; [done|lia]. }
  assert (app_tile (sender pkt)) as Hat by (unfold app_tile; lia).
  destruct (decide (napp ≤ receiver pkt < total)) as [Hsys2|Hsys2].
  { exists [Hop.make pkt (receiver pkt) NetPacket.RECEIVE_TILE 0 0], true.
    destruct (Hu ltac:(lia)) as [Hr ->]. split_and!; try done; [apply H1; auto|]. intros _. cbn. split; [done|lia]. }
  assert (routed (sender pkt) (receiver pkt)) as Hrt.
  { split; [done|]. destruct Hto as [?|?]; [by left|right]. unfold app_tile. lia. }
  rewrite (isApplicationTile_app _ Hat). cbn.
  destruct (receiver pkt =? NetPacket.BROADCAST) eqn:Eb; breflect.
  - rewrite orb_true_r. cbn. destruct (Hall napp (total - napp)) as (A1 & A2 & A3); [unfold app_tile in *; lia..|done|].
    eexists _, false. split_and!; [done|exact A1|exact A3|done|]. intros _. split_and!; [done|done|exact A2|].
    rewrite length_fmap, length_seqZ. lia.
  - rewrite isApplicationTile_app by (unfold app_tile; destruct Hto; [done|lia]). cbn.
    exists [], false. split_and!; try done. intros _. split_and!; [done|done|done|cbn; lia].
Qed.

Lemma seqZ_split : 0 ≤ napp ≤ total → seqZ napp (total - napp) ++ seqZ 0 napp ≡ₚ seqZ 0 total.
Proof.
  intros Hn. replace (seqZ 0 total) with (seqZ 0 napp ++ seqZ (0 + napp) (total - napp)).
  - apply Permutation_app_comm.
  - rewrite <- seqZ_app by lia. f_equal. lia.
Qed.

Lemma route_send t m pkt :
  napp ≤ total → 0 ≤ t < total → send_ok t pkt →
  (receiver pkt = NetPacket.BROADCAST → @sc_broadcast (S (nid pkt)) = true) → model_ok t (nid pkt) m →
  runs E (Model.__routePacket cfg pow pkt) m (λ hops m',
    model_ok t (nid pkt) m' ∧ Forall (hop_flight pkt) hops ∧
    concat (sgoals pkt <$> hops) ≡ₚ receivers pkt ∧
    (sum_list (scost pkt <$> hops) <= Z.to_nat (8 * total + 16))%nat).
Proof.
  intros Htot Ht Hok Hcap Hm.
  assert (system_unicast pkt) as Hsys.
  { intros Hid Hr. specialize (Hcap Hr). rewrite Hid in Hcap. destruct system_direct as [Hd _]. congruence. }
  destruct (corner_cases t (Model.base m) pkt Htot Ht Hok Hsys (proj1 Hm)) as (hops & b & Ec & Hh & Hsum & Hd & Hnd).
  pose proof Hok as [Hs Hfrom Hnode Hto].
  unfold Model.__routePacket. do 2 run1. rewrite Hnode. cbn. apply runs_bind, runs_bind.
  apply runs_assert; [rewrite Hfrom; apply Z.eqb_eq; symmetry; apply Hm|].
  apply runs_bind, (runs_lift _ _ (hops, b)); [done|]. cbn [fst snd]. apply runs_bind. destruct b; cbn [negb].
  { do 2 run1. cbn [fst snd]. run1. destruct (Hd eq_refl) as [Hg Hl].
    split_and!; [done|done|by rewrite Hg|]. rewrite Hsum. lia. }
  destruct (Hnd eq_refl) as (Hat & Hrt & Hg & Hl). rewrite <- Hfrom in Hrt.
  destruct (model_enabled cfg t _ pkt Hs (proj1 Hm)) as [en Een].
  apply runs_bind, (runs_lift _ _ en); [done|].
  apply (runs_mono _ _ _ (λ _ m', model_ok t (nid pkt) m')).
  { apply runs_when; intros _; [by apply send_counters|done]. }
  intros [] m1 Hm1. run1. apply runs_bind, runs_assert; [by apply routed_assert|]. apply runs_bind.
  destruct (@sc_send (S (nid pkt)) _ _ Hrt Hcap) as [Hv Hgoals].
  assert (@sc_valid (S (nid pkt)) t (node pkt) (sender pkt) (receiver pkt)) as Hv' by (by rewrite Hnode, <- Hfrom at 1).
  pose proof (@sc_bound (S (nid pkt)) _ _ _ _ Hat Hrt Hv') as Hbound.
  eapply runs_mono; [by apply (scheme_route t m1)|]. cbv beta. intros hops' m2 (Hm2 & Hh2 & Hg2 & Hc2). run1.
  cbn [fst]. rewrite Hnode, <- Hfrom in Hg2 at 1. split_and!; [done|by apply Forall_app|..].
  - rewrite fmap_app, concat_app, Hg, Hg2, Hgoals. unfold receivers.
    destruct (receiver pkt =? NetPacket.BROADCAST); [|done]. apply seqZ_split. destruct Hat. lia.
  - rewrite hop_cost_sum_app, Hsum. destruct Hat. lia.
Qed.

(** ** Forwarding *)

(** The world after a tile has passed packets on: they are pending, nothing is
    delivered yet. *)
Definition passes (w : World.World Msg) (l : list (Z * (PacketType * core_id_t * Z * NetPacket.Payload Msg))) (c : nat)
    (w' : World.World Msg) : Prop :=
  world_ok w' ∧ pending w' ≡ₚ pending w ++ l ∧ delivered w' ≡ₚ delivered w ∧ (burden w' <= burden w + c)%nat.

Lemma passes_send w t b :
  world_ok w → 0 ≤ t < total → NetPacket.of_buffer b = Ok (packet b) → in_flight t (packet b) →
  runs E (World.transport_send t b) w (λ _ w', passes w (entries t (packet b)) (cost t (packet b)) w').
Proof.
  intros Hw Ht Hb Hf. destruct (mailbox_lookup w t Hw Ht) as [q Hq].
  unfold World.transport_send. do 2 run1. apply runs_bind, (runs_lift _ _ q).
  { unfold vget, id. by rewrite zlookup_nat, Hq by lia. }
  run1. split_and!.
  - eapply world_ok_mailbox; [done..|]. apply Forall_app. split; [|by apply Forall_singleton].
    pose proof (world_flight w Hw _ _ Hq) as HF. by rewrite Z2Nat.id in HF by lia.
  - destruct (collect_mailbox entries w t q) as (R & H1 & H2); [lia|done|]. unfold pending.
    rewrite H2, H1, fmap_app, concat_app. cbn. rewrite app_nil_r, <- !app_assoc.
    apply Permutation_app_head, Permutation_app_comm.
  - done.
  - destruct (collect_mailbox (λ t p, replicate (cost t p) ()) w t q) as (R & H1 & H2); [lia|done|].
    unfold burden. rewrite (Permutation_length (H2 _)), (Permutation_length H1), fmap_app, concat_app.
    cbn. rewrite !length_app, length_replicate. cbn. lia.
Qed.

Lemma passes_refl w : world_ok w → passes w [] 0 w.
Proof. intros Hw. split_and!; [done|by rewrite app_nil_r|done|lia]. Qed.
Lemma passes_trans w1 w2 w3 l1 l2 c1 c2 :
  passes w1 l1 c1 w2 → passes w2 l2 c2 w3 → passes w1 (l1 ++ l2) (c1 + c2)%nat w3.
Proof.
  intros (_ & Hp1 & Hd1 & Hc1) (Hw & Hp2 & Hd2 & Hc2). split_and!; [done|..].
  - by rewrite Hp2, Hp1, app_assoc.
  - by rewrite Hd2.
  - lia.
Qed.
Lemma passes_perm w l l' c c' w' : l ≡ₚ l' → (c <= c')%nat → passes w l c w' → passes w l' c' w'.
Proof. intros Hl Hc (H1 & H2 & H3 & H4). split_and!; [done|by rewrite <- Hl|done|lia]. Qed.

(** Routing at tile [t] changes the state of the model only. *)
Lemma on_route {P : list Hop.Hop → Prop} t w ty pkt :
  world_ok w → 0 ≤ t < total →
  (∀ m, model_ok t (g_type_to_static_network_map ty) m →
     runs E (Model.__routePacket cfg pow pkt) m (λ hops m', model_ok t (g_type_to_static_network_map ty) m' ∧ P hops)) →
  runs E (World.on t (Network.in_model ty (Model.__routePacket cfg pow pkt))) w (λ hops w', passes w [] 0 w' ∧ P hops).
Proof.
  intros Hw Ht Hop. destruct (world_lookup w t Hw Ht) as (n & Hn & Hnok).
  destruct (network_models t n Hnok (g_type_to_static_network_map ty)) as (m & Hm & Hmok).
  eapply runs_on; [done|lia|]. eapply runs_in_model; [done|]. eapply runs_mono; [by apply Hop|].
  cbv beta. intros hops m' [Hm' HP]. split; [|done]. split_and!.
  - eapply world_ok_network; [done..|]. by apply network_ok_set.
  - by rewrite app_nil_r.
  - destruct (delivered_network w t n) as (R & H1 & H2); [lia|done|]. by rewrite H2, H1.
  - rewrite Nat.add_0_r. apply Nat.le_refl.
Qed.

(** A buffer that becomes [pkt] with a hop when the hop is written into it. *)
Definition buffer_of (pkt : NetPacket Msg) (b : NetPacket.Buffer Msg) : Prop :=
  ∀ h, Hop.apply h (NetPacket.object b) = Hop.apply h pkt ∧
       NetPacket.of_buffer (b <| NetPacket.object ::= Hop.apply h |>) = Ok (Hop.apply h pkt).

Lemma buffer_of_make pkt b :
  NetPacket.wf pkt → NetPacket.makeBuffer pkt = Ok b → NetPacket.object b = pkt ∧ buffer_of pkt b.
Proof.
  intros Hwf Hb. unfold NetPacket.makeBuffer in Hb. run_inv. split; [done|]. intros h. split; [done|].
  unfold NetPacket.of_buffer. cbn. destruct (NetPacket.length pkt >? 0) eqn:El; [|done]. breflect.
  match goal with Hc : NetPacket.copy _ _ = Ok ?d |- _ => rewrite (NetPacket.copy_wf _ Hwf) in Hc by lia;
    injection Hc as <- end.
  rewrite (NetPacket.copy_wf _ Hwf) by lia. done.
Qed.
Lemma buffer_of_apply pkt b h : buffer_of pkt b → buffer_of pkt (b <| NetPacket.object ::= Hop.apply h |>).
Proof. intros Hb h'. destruct (Hb h') as [H1 H2]. split; [exact H1|exact H2]. Qed.

Lemma hop_cost_positive pkt h : hop_flight pkt h → (1 <= scost pkt h)%nat.
Proof.
  intros [_ Hp _]. unfold hop_cost, cost_at. destruct (_ =? _) eqn:E1; [done|]. breflect.
  destruct Hp as [[? _]|(_ & _ & _ & _ & Hv)]; [done|]. exact (@sc_positive (S (nid pkt)) _ _ _ _ Hv).
Qed.

Lemma forward_hops_spec shortcut pkt : ∀ fuel hops b w,
  world_ok w → sendable cfg pkt → buffer_of pkt b →
  Forall (hop_flight pkt) hops → (sum_list (scost pkt <$> hops) <= fuel)%nat →
  runs E (World.forward_hops cfg pow fuel shortcut b hops) w (λ _ w',
    passes w ((λ g, (g, ident pkt)) <$> concat (sgoals pkt <$> hops)) (sum_list (scost pkt <$> hops)) w').
Proof.
  induction fuel as [|fuel IH]; intros [|h hops] b w Hw Hs Hb Hh Hf; try by apply runs_ret, passes_refl.
  { apply Forall_cons in Hh as [Hh _]. pose proof (hop_cost_positive _ _ Hh). cbn in Hf. lia. }
  apply Forall_cons in Hh as [Hh Hhs]. change (scost pkt h + sum_list (scost pkt <$> hops) <= Datatypes.S fuel)%nat in Hf.
  pose proof (hop_cost_positive _ _ Hh) as Hpos. destruct (Hb h) as [Eobj Ebuf].
  assert (0 ≤ Hop._next_tile_id h < total) as Ht.
  { pose proof (world_tiles w Hw). unfold app_tile in *. destruct Hh as [_ [(_ & ? & _)|(Ha & _)] _]; [done|].
    destruct Ha. lia. }
  cbn [World.forward_hops]. change (NetPacket.object (b <| NetPacket.object ::= Hop.apply h |>))
    with (Hop.apply h (NetPacket.object b)). rewrite Eobj.
  destruct (negb (Hop._next_node_type h =? NetPacket.RECEIVE_TILE) && shortcut) eqn:Ecase; breflect.
  - apply runs_bind. eapply runs_mono.
    { apply (on_route (P := λ new, Forall (hop_flight (Hop.apply h pkt)) new ∧
        concat (sgoals pkt <$> new) ≡ₚ sgoals pkt h ∧ (sum_list (scost pkt <$> new) < scost pkt h)%nat) _ _ _ _ Hw Ht).
      intros m Hm. apply (route_intermediate _ m (Hop.apply h pkt)); [apply Hw|done|done|done]. }
    cbv beta. intros new w1 [Hp1 (Hnew & Hg & Hc)].
    eapply runs_mono; [apply (IH (hops ++ new)); [apply Hp1|done|by apply buffer_of_apply|..]|].
    + apply Forall_app. split; [done|]. eapply Forall_impl; [exact Hnew|]. intros k Hk. exact Hk.
    + rewrite hop_cost_sum_app. lia.
    + cbv beta. intros [] w2 Hp2. pose proof (passes_trans _ _ _ _ _ _ _ Hp1 Hp2) as Hp. cbn [app Nat.add] in Hp.
      eapply passes_perm; [..|exact Hp].
      * apply fmap_Permutation. rewrite fmap_app, concat_app, Hg. cbn. apply Permutation_app_comm.
      * rewrite hop_cost_sum_app. cbn. lia.
  - assert (packet (b <| NetPacket.object ::= Hop.apply h |>) = Hop.apply h pkt) as Epk by (unfold packet; by rewrite Ebuf).
    apply runs_bind. eapply runs_mono; [apply passes_send; [done|done|by rewrite Epk|by rewrite Epk]|].
    cbv beta. intros [] w1 Hp1. rewrite Epk in Hp1.
    eapply runs_mono; [apply (IH hops); [apply Hp1|done|by apply buffer_of_apply|done|lia]|].
    cbv beta. intros [] w2 Hp2. cbn. rewrite fmap_app. exact (passes_trans _ _ _ _ _ _ _ Hp1 Hp2).
Qed.

Lemma makeBuffer_ok pkt : NetPacket.wf pkt → ∃ b, NetPacket.makeBuffer pkt = Ok b.
Proof.
  intros Hwf. pose proof (NetPacket.of_buffer_makeBuffer pkt Hwf) as Hrt.
  apply res_bind_Ok in Hrt as (b & Hb & _). by exists b.
Qed.

(** [forwardPacket], given what routing the packet at [t] yields. *)
Lemma forwardPacket_spec (P : list Hop.Hop → Prop) t pkt w :
  world_ok w → 0 ≤ t < total → sendable cfg pkt →
  (∀ m, model_ok t (nid pkt) m → runs E (Model.__routePacket cfg pow pkt) m (λ hops m', model_ok t (nid pkt) m' ∧ P hops)) →
  (∀ hops, P hops → Forall (hop_flight pkt) hops ∧ (sum_list (scost pkt <$> hops) <= Z.to_nat (8 * total + 16))%nat) →
  runs E (World.forwardPacket cfg pow t pkt) w (λ len w', len = NetPacket.length pkt ∧ ∃ hops, P hops ∧
    passes w ((λ g, (g, ident pkt)) <$> concat (sgoals pkt <$> hops)) (sum_list (scost pkt <$> hops)) w').
Proof.
  intros Hw Ht Hs Hroute HP. destruct (makeBuffer_ok pkt (sendable_wf _ _ Hs)) as [b Hb].
  destruct (buffer_of_make pkt b (sendable_wf _ _ Hs) Hb) as [Eobj Hbuf].
  unfold World.forwardPacket. apply runs_bind, (runs_lift _ _ b); [done|].
  destruct (world_lookup w t Hw Ht) as (n & Hn & Hnok). apply runs_bind.
  eapply runs_on; [done|lia|]. apply runs_gets.
  assert (w <| World._networks ::= zinsert t n |> = w) as ->.
  { destruct w as [ns tr]. cbn in *. f_equal. unfold zinsert. rewrite (proj2 (Z.leb_le 0 t)) by lia.
    by apply list_insert_id. }
  rewrite Eobj. apply runs_bind. eapply runs_mono; [by apply (on_route (P := P) t w)|].
  cbv beta. intros hops w1 [Hp1 Hhops]. destruct (HP hops Hhops) as [Hh Hc]. apply runs_bind.
  eapply runs_mono; [apply forward_hops_spec; [apply Hp1|done|done|done|exact Hc]|].
  cbv beta. intros [] w2 Hp2. run1. split; [done|]. exists hops. split; [done|].
  exact (passes_trans _ _ _ _ _ _ _ Hp1 Hp2).
Qed.

Lemma forward_intermediate t pkt w :
  world_ok w → in_flight t pkt → node pkt ≠ NetPacket.RECEIVE_TILE →
  runs E (World.forwardPacket cfg pow t pkt) w (λ _ w', ∃ c, (c < cost t pkt)%nat ∧ passes w (entries t pkt) c w').
Proof.
  intros Hw Hf Hn. pose proof (world_tiles w Hw) as Htot.
  assert (app_tile t ∧ (cost t pkt <= Z.to_nat (7 * napp + 8))%nat) as [Ht Hb].
  { destruct Hf as [_ [[? _]|(Ht & Hr & _ & _ & Hv)] _]; [done|]. split; [done|]. unfold cost, cost_at.
    rewrite (proj2 (Z.eqb_neq _ _) Hn). exact (@sc_bound (S (nid pkt)) _ _ _ _ Ht Hr Hv). }
  unfold app_tile in Ht.
  eapply runs_mono; [apply (forwardPacket_spec (λ hops, Forall (hop_flight pkt) hops ∧
    concat (sgoals pkt <$> hops) ≡ₚ goals t pkt ∧ (sum_list (scost pkt <$> hops) < cost t pkt)%nat)); [done|lia|apply Hf|..]|].
  - intros m Hm. by apply route_intermediate.
  - intros hops (H1 & _ & H2). split; [done|lia].
  - cbv beta. intros len w' (_ & hops & (_ & Hg & Hc) & Hp). exists (sum_list (scost pkt <$> hops)). split; [done|].
    eapply passes_perm; [..|exact Hp]; [|lia]. unfold entries. by rewrite Hg.
Qed.

(** The deliveries a sent packet stands for. *)
Definition sent (pkt : NetPacket Msg) := (λ g, (g, ident pkt)) <$> receivers pkt.

Lemma forward_send t pkt w :
  world_ok w → 0 ≤ t < total → send_ok t pkt →
  (receiver pkt = NetPacket.BROADCAST → @sc_broadcast (S (nid pkt)) = true) →
  runs E (World.forwardPacket cfg pow t pkt) w (λ len w', len = NetPacket.length pkt ∧
    passes w (sent pkt) (Z.to_nat (8 * total + 16)) w').
Proof.
  intros Hw Ht Hok Hcap. pose proof (world_tiles w Hw) as Htot.
  eapply runs_mono; [apply (forwardPacket_spec (λ hops, Forall (hop_flight pkt) hops ∧
    concat (sgoals pkt <$> hops) ≡ₚ receivers pkt ∧ (sum_list (scost pkt <$> hops) <= Z.to_nat (8 * total + 16))%nat));
    [done|done|apply Hok|..]|].
  - intros m Hm. by apply route_send.
  - intros hops (H1 & _ & H2). done.
  - cbv beta. intros len w' (Hl & hops & (_ & Hg & Hc) & Hp). split; [done|].
    eapply passes_perm; [..|exact Hp]; [|lia]. unfold sent. by rewrite Hg.
Qed.

(** ** Sending *)

Lemma runs_on_get {A} t w n (f : Network.Network Msg → A) (Q : A → World.World Msg → Prop) :
  World._networks w !! Z.to_nat t = Some n → 0 ≤ t → Q (f n) w → runs E (World.on t (gets f)) w Q.
Proof.
  intros Hn Ht HQ. eapply runs_on; [done|lia|]. apply runs_gets.
  assert (w <| World._networks ::= zinsert t n |> = w) as ->; [|done].
  destruct w as [ns tr]. cbn in *. f_equal. unfold zinsert. rewrite (proj2 (Z.leb_le 0 t)) by lia.
  by apply list_insert_id.
Qed.

Lemma send_unicasts t pkt : ∀ l w,
  world_ok w → 0 ≤ t < total → send_ok t pkt → Forall (λ i, 0 ≤ i < total) l →
  runs E (mfor l (λ i,
     ret ← World.forwardPacket cfg pow t (pkt <| NetPacket.receiver := getMainCoreId i |>) ;
     assert (s32 ret =? s32 (NetPacket.length pkt)) "Network::netSend")) w (λ _ w',
    passes w ((λ g, (g, ident pkt)) <$> l) (length l * Z.to_nat (8 * total + 16)) w').
Proof.
  induction l as [|i l IH]; intros w Hw Ht Hok Hl; [by apply runs_ret, passes_refl|].
  apply Forall_cons in Hl as [Hi Hl]. cbn [mfor]. apply runs_bind, runs_bind. pose proof BROADCAST_neg.
  assert (i ≠ NetPacket.BROADCAST) as Hne by lia.
  eapply runs_mono; [apply forward_send; [done|done| |]|].
  - destruct Hok as [[H1 H2 H3] H4 H5 _]. split; [by split|done|done|by right].
  - cbn. intros ->. lia.
  - cbv beta. intros len w1 [-> Hp1]. apply runs_assert; [cbn; by apply Z.eqb_eq|].
    eapply runs_mono; [by apply IH; [apply Hp1|..]|]. cbv beta. intros [] w2 Hp2.
    pose proof (passes_trans _ _ _ _ _ _ _ Hp1 Hp2) as Hp. unfold sent, receivers in Hp. cbn in Hp.
    rewrite (proj2 (Z.eqb_neq _ _) Hne) in Hp. cbn in Hp. exact Hp.
Qed.

Lemma netSend_spec t pkt w :
  world_ok w → 0 ≤ t < total → send_ok t pkt →
  runs E (World.netSend cfg pow t pkt) w (λ len w', len = NetPacket.length pkt ∧ ∃ c, passes w (sent pkt) c w').
Proof.
  intros Hw Ht Hok. destruct (world_lookup w t Hw Ht) as (n & Hn & Hnok).
  destruct (network_models t n Hnok (nid pkt)) as (m & Hm & Hb & Hcap & _).
  unfold World.netSend. apply runs_bind, (runs_on_get _ _ _ _ _ Hn); [lia|]. unfold id.
  apply runs_bind, (runs_lift _ _ m).
  { unfold Network.getNetworkModelFromPacketType. by rewrite Hm. }
  apply runs_bind, runs_lift_error; [|intros e; apply convert_error].
  intros time _. set (p := pkt <| NetPacket.time := time |>).
  assert (send_ok t p) as Hp by (destruct Hok as [[? ? ?] ? ? ?]; split; [by split|done|done|done]).
  apply runs_bind. change (ident pkt) with (ident p).
  destruct ((receiver p =? NetPacket.BROADCAST) && _) eqn:Eb; breflect.
  - eapply runs_mono; [apply (send_unicasts t p); [done|done|done|]|].
    { apply Forall_forall. intros i ?%elem_of_seqZ. lia. }
    cbv beta. intros [] w' Hw'. run1. split; [done|]. eexists. unfold sent, receivers.
    change (receiver pkt) with (receiver p). match goal with E1 : receiver p = _ |- _ => rewrite E1 end.
    rewrite Z.eqb_refl. exact Hw'.
  - apply runs_bind. eapply runs_mono; [apply (forward_send t p w Hw Ht Hp)|].
    + intros Er. transitivity (NetworkModel._has_broadcast_capability (Model.base m)); [symmetry; exact Hcap|].
      apply andb_false_iff in Eb as [Eb|Eb]; [|by apply negb_false_iff]. apply Z.eqb_neq in Eb. done.
    + cbv beta. intros len w' [-> Hp']. apply runs_assert; [by apply Z.eqb_eq|]. run1. split; [done|]. by eexists.
Qed.

(** ** Receiving *)

Lemma receive_spec t m pkt :
  in_flight t pkt → node pkt = NetPacket.RECEIVE_TILE → model_ok t (nid pkt) m →
  runs E (Model.in_base (NetworkModel.__processReceivedPacket cfg pkt)) m (λ pkt' m',
    model_ok t (nid pkt) m' ∧ ident pkt' = ident pkt).
Proof.
  intros Hf Hn Hm. pose proof Hm as (Hb & Hcap & Hok). pose proof Hb as [Hid Htile Hflit].
  pose proof (flight_sendable _ _ Hf) as Hs.
  assert (receiver pkt = NetPacket.BROADCAST ∨ receiver pkt = t) as Hr.
  { destruct Hf as [_ [(_ & _ & ?)|(_ & _ & _ & ? & _)] _]; done. }
  apply runs_zoom. unfold NetworkModel.__processReceivedPacket. do 2 run1. unfold id. apply runs_bind.
  apply (runs_mono _ _ _ (λ _ m', m' = Model.base m)).
  { apply runs_when; [|done]. intros _. run1; [rewrite Hn; done|done]. }
  intros [] m1 ->. assert (model_ok t (nid pkt) (Model.set_base (Model.base m) m)) as Hm'.
  { split_and!; [by destruct m|by destruct m|]. intros Hat. exact (@sc_ok_base (S (nid pkt)) t m _ (Hok Hat)). }
  destruct (_ || _ || _); [by run1|].
  destruct (model_enabled cfg t _ pkt Hs Hb) as [b Eb]. apply runs_bind, (runs_lift _ _ b); [done|].
  destruct b; cbn [negb]; [|by run1].
  destruct (modeled_length cfg pkt Hs) as [n En]. destruct (num_flits (Model.base m) n Hflit) as [k Ek].
  apply runs_bind. eapply runs_lift.
  { unfold NetworkModel.processReceivedPacket. rewrite En. cbn. rewrite Ek. done. }
  match goal with |- runs _ (NetworkModel.updateReceiveCounters cfg ?x ≫= _) _ _ => set (p := x) end.
  assert (sendable cfg p) as Hs' by (by destruct Hs). unfold NetworkModel.updateReceiveCounters.
  apply runs_bind. do 2 run1. unfold id. apply runs_bind, runs_assert.
  { change (receiver p) with (receiver pkt). rewrite Htile. apply orb_true_iff. rewrite !Z.eqb_eq. done. }
  destruct (modeled_length cfg p Hs') as [n' En']. apply runs_bind, (runs_lift _ _ n'); [done|].
  destruct (num_flits (Model.base m) n' Hflit) as [k' Ek']. apply runs_bind, (runs_lift _ _ k'); [done|].
  run1. run1. split; [|done].
  split_and!; [destruct m; by split|by destruct m|]. intros Hat. exact (@sc_ok_base (S (nid pkt)) t m _ (Hok Hat)).
Qed.

Lemma accept_spec t pkt w :
  world_ok w → in_flight t pkt → node pkt = NetPacket.RECEIVE_TILE →
  runs E (World.accept cfg t pkt) w (λ _ w', world_ok w' ∧ pending w' = pending w ∧ burden w' = burden w ∧
    delivered w' ≡ₚ (t, ident pkt) :: delivered w).
Proof.
  intros Hw Hf Hn.
  assert (0 ≤ t < total) as Ht by (destruct Hf as [_ [(_ & ? & _)|(_ & _ & _ & ? & _)] _]; done).
  destruct (world_lookup w t Hw Ht) as (n & Hnet & Hnok).
  destruct (network_models t n Hnok (nid pkt)) as (m & Hm & Hmok).
  unfold World.accept. eapply runs_on; [done|lia|]. apply runs_bind.
  eapply runs_in_model; [done|]. eapply runs_mono; [by apply (receive_spec t)|].
  cbv beta. intros pkt' m' [Hm' Hident]. pose proof (network_ok_set t n (nid pkt) m' Hnok Hm') as Hnok'.
  do 2 run1. unfold id. pose proof Hident as [= Ety _ _ _]. rewrite Ety.
  destruct (network_models _ _ Hnok' (nid pkt)) as (m2 & Hm2 & _).
  apply runs_bind, (runs_lift _ _ m2); [unfold Network.getNetworkModelFromPacketType; by rewrite Hm2|].
  apply runs_bind, runs_lift_error; [|intros e; apply convert_error]. intros time _.
  destruct (delivered_network w t n) as (R & H1 & H2); [lia|done|].
  destruct (bool_decide _); run1; (split_and!;
    [eapply world_ok_network; [done|done|done|]; destruct Hnok' as [A B]; by split|done|done|
     rewrite H2, H1; cbn -[ident]; rewrite !fmap_app; cbn -[ident]]).
  - match goal with |- context [[(t, ident ?x)]] => change (ident x) with (ident pkt') end. rewrite Hident.
    rewrite <- !app_assoc. cbn. rewrite !app_assoc. by rewrite <- Permutation_middle.
  - match goal with |- context [[(t, ident ?x)]] => change (ident x) with (ident pkt') end. rewrite Hident.
    rewrite <- !app_assoc. cbn. by rewrite <- Permutation_middle.
Qed.

(** One round of a tile with a packet waiting. *)
Definition progresses (w w' : World.World Msg) : Prop :=
  world_ok w' ∧ pending w' ++ delivered w' ≡ₚ pending w ++ delivered w ∧ (burden w' < burden w)%nat.

Lemma pull_spec t w q b :
  world_ok w → 0 ≤ t < total → World._transport w !! Z.to_nat t = Some (b :: q) →
  runs E (World.pull cfg pow t) w (λ _ w', progresses w w').
Proof.
  intros Hw Ht Hq. pose proof (world_flight w Hw _ _ Hq) as HF. rewrite Z2Nat.id in HF by lia.
  apply Forall_cons in HF as [[Hb Hf] HF].
  set (w1 := w <| World._transport ::= zinsert t q |>).
  assert (world_ok w1) as Hw1 by by eapply world_ok_mailbox.
  assert (pending w ≡ₚ entries t (packet b) ++ pending w1) as Hpend.
  { destruct (collect_mailbox entries w t (b :: q)) as (R & H1 & H2); [lia|done|].
    unfold pending, w1. rewrite H1, H2. cbn. by rewrite app_assoc. }
  assert (burden w = cost t (packet b) + burden w1)%nat as Hburd.
  { destruct (collect_mailbox (λ t p, replicate (cost t p) ()) w t (b :: q)) as (R & H1 & H2); [lia|done|].
    unfold burden, w1. rewrite (Permutation_length H1), (Permutation_length (H2 _)). cbn.
    rewrite !length_app, length_replicate. lia. }
  unfold World.pull. apply runs_bind. unfold World.transport_recv. do 2 run1. unfold id.
  apply runs_bind, (runs_lift _ _ (b :: q)). { unfold vget. by rewrite zlookup_nat, Hq by lia. }
  do 2 run1. run1. fold w1. apply runs_bind, (runs_lift _ _ (packet b)); [done|].
  destruct (world_lookup w1 t Hw1 Ht) as (n & Hnet & Hnok). apply runs_bind, (runs_on_get _ _ _ _ _ Hnet); [lia|].
  unfold id. pose proof (flight_sendable _ _ Hf) as [_ Hsnd _]. apply runs_bind, runs_assert.
  { rewrite (network_numMod _ _ Hnok). apply andb_true_iff. rewrite Z.leb_le, Z.ltb_lt. lia. }
  destruct (network_models t n Hnok (nid (packet b))) as (m & Hm & Hbase & _).
  apply runs_bind, (runs_lift _ _ m); [unfold Network.getNetworkModelFromPacketType; by rewrite Hm|].
  set (ready := node (packet b) =? NetPacket.RECEIVE_TILE).
  apply runs_bind, (runs_lift _ _ ready).
  { unfold NetworkModel.isPacketReadyToBeReceived. rewrite (base_id _ _ _ Hbase), (base_tile _ _ _ Hbase).
    destruct (bool_decide _) eqn:Es; [|done]. breflect. destruct (flight_system _ _ Hf Es) as [E1 ->].
    rewrite Z.eqb_refl. cbn. unfold ready. by rewrite E1. }
  destruct ready eqn:Er; unfold ready in Er; breflect.
  - eapply runs_mono; [by apply accept_spec|]. cbv beta. intros [] w2 (Hw2 & Hp & Hbu & Hd).
    split_and!; [done| |]. 
    + rewrite Hp, Hd, Hpend. unfold entries, goals, goals_at. rewrite Er. cbn. by rewrite <- Permutation_middle.
    + rewrite Hbu, Hburd. unfold cost, cost_at. rewrite Er. cbn. lia.
  - apply runs_bind. eapply runs_mono; [by apply forward_intermediate|]. cbv beta.
    intros len w2 (c & Hc & Hw2 & Hp & Hd & Hbu). run1. split_and!; [done| |lia].
    rewrite Hp, Hd, Hpend. by rewrite (Permutation_app_comm (pending w1)).
Qed.

Lemma pull_empty t w : World._transport w !! Z.to_nat t = Some [] → 0 ≤ t → World.pull cfg pow t w = Ok (tt, w).
Proof.
  intros Hq Ht. unfold World.pull, World.transport_recv, vget, lift, gets, mbind, M_bind.
  rewrite zlookup_nat by lia. unfold id. by rewrite Hq.
Qed.

(** ** Runs *)

Definition event_ok (e : World.Event (Msg := Msg)) : Prop :=
  match e with
  | World.Send t pkt => 0 ≤ t < total ∧ send_ok t pkt
  | World.Pull t => 0 ≤ t < total
  end.
Definition sent_by (e : World.Event (Msg := Msg)) :=
  match e with World.Send _ pkt => sent pkt | World.Pull _ => [] end.

Lemma step_spec e w :
  world_ok w → event_ok e →
  runs E (World.step cfg pow e) w (λ _ w', world_ok w' ∧
    pending w' ++ delivered w' ≡ₚ (pending w ++ delivered w) ++ sent_by e).
Proof.
  intros Hw He. destruct e as [t pkt|t]; cbn in He |- *.
  - destruct He as [Ht Hs]. apply runs_bind. eapply runs_mono; [by apply netSend_spec|]. cbv beta.
    intros len w' (_ & c & Hw' & Hp & Hd & _). run1. split; [done|]. rewrite Hp, Hd, <- !app_assoc.
    apply Permutation_app_head, Permutation_app_comm.
  - destruct (mailbox_lookup w t Hw He) as [[|b q] Hq].
    + unfold runs. rewrite pull_empty by (done || lia). by rewrite app_nil_r.
    + eapply runs_mono; [by eapply pull_spec|]. cbv beta. intros [] w' (Hw' & Hp & _). by rewrite app_nil_r.
Qed.

Lemma run_spec : ∀ evs w, world_ok w → Forall event_ok evs →
  runs E (mfor evs (World.step cfg pow)) w (λ _ w', world_ok w' ∧
    pending w' ++ delivered w' ≡ₚ (pending w ++ delivered w) ++ (evs ≫= sent_by)).
Proof.
  induction evs as [|e evs IH]; intros w Hw He; [apply runs_ret; by rewrite app_nil_r|].
  apply Forall_cons in He as [He Hes]. cbn [mfor]. apply runs_bind. eapply runs_mono; [by apply step_spec|].
  cbv beta. intros [] w1 [Hw1 Hp1]. eapply runs_mono; [by apply IH|]. cbv beta. intros [] w2 [Hw2 Hp2].
  split; [done|]. rewrite Hp2, Hp1. cbn. by rewrite !app_assoc.
Qed.

(** Nothing is in flight. *)
Definition quiet (w : World.World Msg) : Prop := Forall (λ q, q = []) (World._transport w).

Lemma pending_quiet w : quiet w → pending w = [].
Proof.
  unfold quiet, pending, collect. generalize (World._transport w). intros l Hl.
  assert (∀ f : nat → list (NetPacket.Buffer Msg) → list (Z * (PacketType * core_id_t * Z * NetPacket.Payload Msg)),
    (∀ i, f i [] = []) → concat (imap f l) = []) as Hg.
  { induction Hl as [|q l -> Hl IH]; intros f Hf; [done|]. cbn. rewrite Hf. cbn. apply IH. intros i. apply Hf. }
  by apply Hg.
Qed.

(** Tiles that receive one after another. *)
Inductive pulls : World.World Msg → nat → World.World Msg → Prop :=
  | pulls_none w : pulls w 0 w
  | pulls_one w t b q w1 n w2 :
      0 ≤ t → World._transport w !! Z.to_nat t = Some (b :: q) →
      World.pull cfg pow t w = Ok (tt, w1) → pulls w1 n w2 → pulls w (Datatypes.S n) w2.

Lemma pulls_spec w n w' : pulls w n w' → world_ok w →
  world_ok w' ∧ pending w' ++ delivered w' ≡ₚ pending w ++ delivered w ∧ (n + burden w' <= burden w)%nat.
Proof.
  induction 1 as [w|w t b q w1 n w2 Ht Hq Hp Hps IH]; intros Hw; [done|].
  assert (0 ≤ t < total) as Htt.
  { pose proof (world_transport w Hw) as Hl. apply lookup_lt_Some in Hq. unfold zlength in Hl. lia. }
  pose proof (pull_spec t w q b Hw Htt Hq) as Hpull. unfold runs in Hpull. rewrite Hp in Hpull.
  destruct Hpull as (Hw1 & Hp1 & Hb1). destruct (IH Hw1) as (Hw2 & Hp2 & Hb2). split_and!; [done|by rewrite Hp2|lia].
Qed.
End schemes.
