(* ===== verification/MeshProofs.v ===== *)
(** * MeshProofs: routing on the electrical mesh

    The hop-by-hop model is a scheme: a unicast goes along the row and then
    along the column of its receiver, and the tree of a broadcast covers every
    tile of the mesh once. *)
From S2P Require Import Prelude Utils Double CacheSet Cache Shmem ThreadManager QueueModels HistoryTree NetPacket NetworkModel MeshModels AtacModel Network NetworkProofs DeliveryProofs.
Import PacketType.

(** ** Splitting a list by predicates *)

(** When every element satisfies [P] as often as it satisfies one of [Ps], the
    elements of [P] are those of [Ps] together. *)
Lemma filter_partition {A} (l : list A) (P : A → bool) (Ps : list (A → bool)) :
  (∀ x, x ∈ l → Nat.b2n (P x) = sum_list ((λ p : A → bool, Nat.b2n (p x)) <$> Ps)) →
  List.filter P l ≡ₚ concat ((λ p, List.filter p l) <$> Ps).
Proof.
  induction l as [|x l IH]; intros HP; cbn.
  { clear HP. by induction Ps as [|p Ps IH]; cbn. }
  assert (concat ((λ p : A → bool, if p x then x :: List.filter p l else List.filter p l) <$> Ps) ≡ₚ
          replicate (sum_list ((λ p : A → bool, Nat.b2n (p x)) <$> Ps)) x ++ concat ((λ p, List.filter p l) <$> Ps)) as ->.
  { clear. induction Ps as [|p Ps IH]; cbn; [done|]. rewrite IH. destruct (p x); cbn.
    - apply Permutation_skip. rewrite !app_assoc. apply Permutation_app_tail, Permutation_app_comm.
    - rewrite !app_assoc. apply Permutation_app_tail, Permutation_app_comm. }
  rewrite <- HP by by left. rewrite <- IH by (intros y Hy; apply HP; by right). by destruct (P x).
Qed.

Lemma sum_list_app (l k : list nat) : sum_list (l ++ k) = (sum_list l + sum_list k)%nat.
Proof. induction l; cbn; lia. Qed.

Lemma filter_eqb_seqZ n c : 0 ≤ c < n → List.filter (λ x, x =? c) (seqZ 0 n) = [c].
Proof.
  intros Hc. replace (seqZ 0 n) with (seqZ 0 c ++ c :: seqZ (c + 1) (n - c - 1)).
  - rewrite List.filter_app. cbn. rewrite Z.eqb_refl.
    assert (∀ a k, (∀ x, a ≤ x < a + k → x ≠ c) → List.filter (λ x, x =? c) (seqZ a k) = []) as Hnil.
    { intros a k Hx. assert (Forall (λ x, x ≠ c) (seqZ a k)) as HF by (apply Forall_forall; intros x ?%elem_of_seqZ; auto).
      induction HF as [|x l Hxc _ IH]; [done|]. cbn. by rewrite (proj2 (Z.eqb_neq _ _) Hxc). }
    rewrite !Hnil by lia. done.
  - replace n with (c + (1 + (n - c - 1))) at 2 by lia. rewrite !seqZ_app by lia. done.
Qed.

(** [resolve_test] replaces a comparison whose result follows from the
    context. *)
Ltac resolve_test :=
  match goal with
  | |- context [?a <=? ?b] => first [rewrite (proj2 (Z.leb_le a b)) by lia|rewrite (proj2 (Z.leb_gt a b)) by lia]
  | |- context [?a <? ?b] => first [rewrite (proj2 (Z.ltb_lt a b)) by lia|rewrite (proj2 (Z.ltb_ge a b)) by lia]
  | |- context [?a =? ?b] => first [rewrite (proj2 (Z.eqb_eq a b)) by lia|rewrite (proj2 (Z.eqb_neq a b)) by lia]
  end.

(** ** Positions *)

Section mesh.
Context (w h : Z) (w_pos : 0 < w) (h_pos : 0 < h).
Abbreviation pos := (Mesh.computePosition w).
Abbreviation tid := (Mesh.computeTileID w h).

Lemma pos_div t : 0 ≤ t → pos t = (t `mod` w, t `div` w).
Proof. intros Ht. unfold Mesh.computePosition. by rewrite Z.rem_mod_nonneg, Z.quot_div_nonneg by lia. Qed.

Lemma pos_range t : 0 ≤ t < w * h → 0 ≤ (pos t).1 < w ∧ 0 ≤ (pos t).2 < h ∧ t = (pos t).2 * w + (pos t).1.
Proof.
  intros Ht. rewrite pos_div by lia. cbn. pose proof (Z.mod_pos_bound t w w_pos).
  pose proof (Z.div_mod t w ltac:(lia)). split_and!; [lia|lia| |nia|nia].
  apply Z.div_pos; lia.
Qed.

Lemma pos_inj s t : 0 ≤ s < w * h → 0 ≤ t < w * h → (pos s).1 = (pos t).1 → (pos s).2 = (pos t).2 → s = t.
Proof.
  intros Hs Ht H1 H2. destruct (pos_range s Hs) as (_ & _ & ->), (pos_range t Ht) as (_ & _ & ->). by rewrite H1, H2.
Qed.

Definition inside (x y : Z) : Prop := 0 ≤ x < w ∧ 0 ≤ y < h.

Lemma tid_inside x y : inside x y → tid x y = y * w + x ∧ 0 ≤ tid x y < w * h ∧ pos (tid x y) = (x, y).
Proof.
  intros [Hx Hy]. unfold Mesh.computeTileID.
  destruct (x <? 0) eqn:E1; breflect; [lia|]. destruct (y <? 0) eqn:E2; breflect; [lia|]. cbn.
  rewrite Z.geb_leb, (proj2 (Z.leb_gt _ _)) by lia. rewrite Z.geb_leb, (proj2 (Z.leb_gt _ _)) by lia. cbn.
  assert (0 ≤ y * w + x < w * h) as Hr by nia. split_and!; [done|lia|lia|].
  rewrite pos_div by lia. rewrite Z.add_comm, Z_mod_plus_full, Z.div_add by lia.
  by rewrite Z.mod_small, Z.div_small by lia.
Qed.
Lemma tid_outside x y : ¬ inside x y → tid x y = INVALID_TILE_ID.
Proof.
  intros Hn. unfold Mesh.computeTileID. destruct (_ || _) eqn:E1; [done|]. breflect.
  rewrite Z.geb_leb in *. breflect. destruct Hn. unfold inside. lia.
Qed.

(** ** The broadcast tree *)

(** The tiles a broadcast from [(sx, sy)] reaches through [(cx, cy)]. *)
Definition under (sx sy cx cy : Z) (t : Z) : bool :=
  let '(x, y) := pos t in
  if cy =? sy then
    if cx =? sx then true else if cx >? sx then x >=? cx else x <=? cx
  else (x =? cx) && (if cy >? sy then y >=? cy else y <=? cy).
Definition cover (sx sy cx cy : Z) : list Z := List.filter (under sx sy cx cy) (seqZ 0 (w * h)).

(** The tiles [(cx, cy)] passes the broadcast on to, with its output ports. *)
Definition neighbours (sx sy cx cy : Z) : list (Z * Z * Z) :=
  (if cy >=? sy then [(cx, cy + 1, NetworkModelEMeshHopByHop.UP)] else []) ++
  (if cy <=? sy then [(cx, cy - 1, NetworkModelEMeshHopByHop.DOWN)] else []) ++
  (if cy =? sy then
     (if cx >=? sx then [(cx + 1, cy, NetworkModelEMeshHopByHop.RIGHT)] else []) ++
     (if cx <=? sx then [(cx - 1, cy, NetworkModelEMeshHopByHop.LEFT)] else [])
   else []).

Lemma cover_outside sx sy x y : inside sx sy → ¬ inside x y → cover sx sy x y = [].
Proof.
  intros Hs Hn. unfold cover.
  assert (Forall (λ t, under sx sy x y t = false) (seqZ 0 (w * h))) as HF.
  { apply Forall_forall. intros t Ht%elem_of_seqZ. unfold under.
    destruct (pos_range t) as (H1 & H2 & _); [lia|]. destruct (pos t) as [tx ty]. cbn in *.
    unfold inside in *. rewrite !Z.geb_leb, !Z.gtb_ltb.
    destruct (y =? sy) eqn:E1, (x =? sx) eqn:E2, (sx <? x) eqn:E3, (sy <? y) eqn:E4; breflect;
      try (apply Z.leb_gt); try (apply andb_false_iff; rewrite Z.eqb_neq, Z.leb_gt); lia. }
  induction HF as [|t l Ht _ IH]; [done|]. cbn [List.filter]. by rewrite Ht.
Qed.

Lemma cover_root s : 0 ≤ s < w * h → cover (pos s).1 (pos s).2 (pos s).1 (pos s).2 = seqZ 0 (w * h).
Proof.
  intros Hs. unfold cover. generalize (seqZ 0 (w * h)). intros l. induction l as [|t l IH]; [done|].
  cbn [List.filter]. rewrite IH. unfold under. destruct (pos t). by rewrite !Z.eqb_refl.
Qed.

Lemma cover_split s c :
  0 ≤ s < w * h → 0 ≤ c < w * h →
  let '(sx, sy) := pos s in let '(cx, cy) := pos c in
  cover sx sy cx cy ≡ₚ concat ((λ n, cover sx sy n.1.1 n.1.2) <$> neighbours sx sy cx cy) ++ [c].
Proof.
  intros Hs Hc. destruct (pos s) as [sx sy] eqn:Es, (pos c) as [cx cy] eqn:Ec.
  rewrite <- (filter_eqb_seqZ (w * h) c Hc).
  transitivity (concat ((λ p, List.filter p (seqZ 0 (w * h))) <$>
    (((λ n : Z * Z * Z, under sx sy n.1.1 n.1.2) <$> neighbours sx sy cx cy) ++ [λ x, x =? c]))).
  2: { rewrite fmap_app, concat_app, <- list_fmap_compose. cbn. by rewrite app_nil_r. }
  apply filter_partition. intros t Ht%elem_of_seqZ. rewrite fmap_app, sum_list_app. cbn [fmap list_fmap sum_list].
  assert ((t =? c) = ((pos t).1 =? cx) && ((pos t).2 =? cy)) as ->.
  { destruct (t =? c) eqn:E1; breflect; symmetry.
    - subst t. rewrite Ec. cbn. by rewrite !Z.eqb_refl.
    - apply andb_false_iff. rewrite !Z.eqb_neq. destruct (decide ((pos t).1 = cx)) as [Hx|]; [|by left]. right. intros Hy.
      apply E1, pos_inj; [lia|lia|by rewrite Ec|by rewrite Ec]. }
  unfold neighbours. rewrite !Z.geb_leb.
  destruct (Z.lt_trichotomy cy sy) as [Hy|[Hy|Hy]]; destruct (Z.lt_trichotomy cx sx) as [Hx|[Hx|Hx]];
    repeat resolve_test; cbn [app fmap list_fmap sum_list sum_list_with fst snd];
    unfold under; destruct (pos t) as [x y]; cbn [fst snd]; rewrite ?Z.geb_leb, ?Z.gtb_ltb;
    repeat resolve_test; cbn [andb];
    repeat match goal with
    | |- context [?a <=? ?b] => destruct (Z.leb_spec a b)
    | |- context [?a =? ?b] => destruct (Z.eqb_spec a b)
    end; cbn; lia.
Qed.

(** ** The scheme *)

Context {Msg : Type} `{MemoryManager Msg} (cfg : SysConfig.Config) (pow : double → double → double).
Context (tiles : SysConfig.m_application_tiles cfg = w * h) (broadcast : bool).
Abbreviation E := (net_error pow).
Abbreviation HBH := NetworkModelEMeshHopByHop.NetworkModelEMeshHopByHop.
Abbreviation EMESH := NetworkModelEMeshHopByHop.EMESH.
Abbreviation SEND := NetPacket.SEND_TILE.
Import NetworkModelEMeshHopByHop.

Record routers_ok (r : Routers) : Prop := {
  ro_injection : router_ok 1 (_injection_router r);
  ro_mesh : router_ok num_mesh_router_ports (_mesh_router r);
  ro_links : zlength (_mesh_link_list r) = num_mesh_router_ports
}.

Definition mesh_ok (m : HBH) : Prop :=
  _mesh_width m = w ∧ _mesh_height m = h ∧ ∃ r, _routers m = Some r ∧ routers_ok r.

Definition dist (s r : Z) : Z := Z.abs ((pos s).1 - (pos r).1) + Z.abs ((pos s).2 - (pos r).2).

Definition mesh_goals (t node s r : Z) : list Z :=
  if r =? NetPacket.BROADCAST then
    if node =? SEND then seqZ 0 (w * h) else cover (pos s).1 (pos s).2 (pos t).1 (pos t).2
  else [r].
Definition mesh_cost (t node s r : Z) : nat :=
  if r =? NetPacket.BROADCAST then
    if node =? SEND then (2 * length (seqZ 0 (w * h)) + 1)%nat
    else (2 * length (cover (pos s).1 (pos s).2 (pos t).1 (pos t).2))%nat
  else if node =? SEND then Z.to_nat (dist s r + 3) else Z.to_nat (dist t r + 2).
Definition mesh_valid (t node s r : Z) : Prop := (node = SEND ∧ t = s) ∨ node = EMESH ∧ app_tile cfg t ∧ app_tile cfg s.

(** The state of an operation on the routers. *)
Lemma runs_in_routers {A} (op : M Routers A) (m : HBH) (Q : A → HBH → Prop) :
  mesh_ok m →
  (∀ r, routers_ok r → runs E op r (λ a r', routers_ok r' ∧ ∀ m', mesh_ok m' → _model m' = _model m → Q a m')) →
  runs E (in_routers op) m Q.
Proof.
  intros (Hw & Hh & r & Hr & Hok) Hop. unfold runs, in_routers. rewrite Hr. specialize (Hop r Hok). unfold runs in Hop.
  destruct (op r) as [[a r']|e]; [|done]. destruct Hop as [Hr' HQ]. apply HQ; [|done]. split_and!; [done|done|]. by exists r'.
Qed.

Lemma runs_router (inj : bool) {A} (op : M RouterModel.RouterModel A) (m : HBH) (Q : A → HBH → Prop) :
  mesh_ok m →
  (∀ r, router_ok (if inj then 1 else num_mesh_router_ports) r →
     runs E op r (λ a r', router_ok (if inj then 1 else num_mesh_router_ports) r' ∧
       ∀ m', mesh_ok m' → _model m' = _model m → Q a m')) →
  runs E (if inj then injection_router op else mesh_router op) m Q.
Proof.
  intros Hm Hop. destruct inj; (apply runs_in_routers; [done|]; intros r [H1 H2 H3]; apply runs_zoom;
    (eapply runs_mono; [by apply Hop|]); cbv beta; intros a r' [Hr' HQ]; split; [by split|done]).
Qed.

Lemma runs_link port {A} (op : M ElectricalLinkModel.ElectricalLinkModel A) (m : HBH) (Q : A → HBH → Prop) :
  mesh_ok m → 0 ≤ port < num_mesh_router_ports →
  (∀ l, runs E op l (λ a _, ∀ m', mesh_ok m' → _model m' = _model m → Q a m')) →
  runs E (mesh_link port op) m Q.
Proof.
  intros Hm Hp Hop. apply runs_in_routers; [done|]. intros r [H1 H2 H3]. do 2 run1. unfold id.
  destruct (vget_in_range "_mesh_link_list" (_mesh_link_list r) port) as [l El]; [lia|].
  apply runs_bind, (runs_lift _ _ l); [done|]. specialize (Hop l). unfold runs in Hop.
  apply runs_bind. unfold runs, lift. destruct (op l) as [[a l']|e]; [|done]. cbn [fst snd].
  apply runs_bind. eapply runs_lift; [apply vset_in_range; lia|].
  do 2 run1. run1. split; [split; cbn; [done|done|by rewrite zlength_zinsert]|done].
Qed.

(** ** Unicast *)

(** The next hop from [(cx, cy)] to [(dx, dy)]. *)
Definition xy_dest (c cx cy dx dy : Z) : NextDest :=
  if cx >? dx then mkNextDest (tid (cx - 1) cy) LEFT EMESH
  else if cx <? dx then mkNextDest (tid (cx + 1) cy) RIGHT EMESH
  else if cy >? dy then mkNextDest (tid cx (cy - 1)) DOWN EMESH
  else if cy <? dy then mkNextDest (tid cx (cy + 1)) UP EMESH
  else mkNextDest c SELF NetPacket.RECEIVE_TILE.

Definition between (a x b : Z) : Prop := Z.min a b ≤ x ≤ Z.max a b.

Lemma xy_step c r :
  0 ≤ c < w * h → 0 ≤ r < w * h →
  let d := xy_dest c (pos c).1 (pos c).2 (pos r).1 (pos r).2 in
  0 ≤ _output_port d < num_mesh_router_ports ∧ 0 ≤ _tile_id d < w * h ∧
  (c = r ∧ _tile_id d = c ∧ _node_type d = NetPacket.RECEIVE_TILE ∨
   _node_type d = EMESH ∧ dist (_tile_id d) r = dist c r - 1 ∧ 0 < dist c r ∧
   between (pos c).1 (pos (_tile_id d)).1 (pos r).1 ∧ between (pos c).2 (pos (_tile_id d)).2 (pos r).2).
Proof.
  intros Hc Hr. unfold xy_dest, dist.
  destruct (pos_range c Hc) as (Hcx & Hcy & _), (pos_range r Hr) as (Hrx & Hry & _).
  pose proof (pos_inj c r Hc Hr) as Hinj.
  destruct (pos c) as [cx cy], (pos r) as [rx ry]. cbn [fst snd] in *.
  assert (∀ x y p, inside x y → 0 ≤ p < num_mesh_router_ports → between cx x rx → between cy y ry →
    Z.abs (x - rx) + Z.abs (y - ry) = Z.abs (cx - rx) + Z.abs (cy - ry) - 1 →
    let d := mkNextDest (tid x y) p EMESH in
    0 ≤ _output_port d < num_mesh_router_ports ∧ 0 ≤ _tile_id d < w * h ∧
    (c = r ∧ _tile_id d = c ∧ _node_type d = NetPacket.RECEIVE_TILE ∨
     _node_type d = EMESH ∧ Z.abs ((pos (_tile_id d)).1 - rx) + Z.abs ((pos (_tile_id d)).2 - ry) =
       Z.abs (cx - rx) + Z.abs (cy - ry) - 1 ∧ 0 < Z.abs (cx - rx) + Z.abs (cy - ry) ∧
     between cx (pos (_tile_id d)).1 rx ∧ between cy (pos (_tile_id d)).2 ry)) as Hstep.
  { intros x y p Hin Hp Hbx Hby Hd. cbn [_tile_id _output_port _node_type].
    destruct (tid_inside x y Hin) as (_ & Hr2 & Epos). rewrite Epos. cbn [fst snd].
    split_and!; [lia|lia|lia|lia|]. right. split_and!; [done|done|lia|done|done]. }
  unfold num_mesh_router_ports, LEFT, RIGHT, DOWN, UP, SELF in *. rewrite !Z.gtb_ltb.
  destruct (rx <? cx) eqn:E1; breflect; [apply Hstep; unfold inside, between; lia|].
  destruct (cx <? rx) eqn:E2; breflect; [apply Hstep; unfold inside, between; lia|].
  destruct (ry <? cy) eqn:E3; breflect; [apply Hstep; unfold inside, between; lia|].
  destruct (cy <? ry) eqn:E4; breflect; [apply Hstep; unfold inside, between; lia|].
  cbn. split_and!; [lia|lia|lia|lia|]. left. split_and!; [apply Hinj; lia|done|done].
Qed.

Lemma unicast_xy (m : HBH) c cx cy dx dy :
  mesh_ok m → NetworkModel._tile_id (_model m) = c → unicast_dest m cx cy dx dy = xy_dest c cx cy dx dy.
Proof. intros (Hw & Hh & _) Ht. unfold unicast_dest. by rewrite Hw, Hh, Ht. Qed.

Lemma dist_nonneg s r : 0 ≤ dist s r.
Proof. unfold dist. lia. Qed.
Lemma dist_bound s r : 0 ≤ s < w * h → 0 ≤ r < w * h → dist s r < w * h.
Proof.
  intros Hs Hr. unfold dist. destruct (pos_range s Hs) as (? & ? & _), (pos_range r Hr) as (? & ? & _). nia.
Qed.

(** ** Broadcast *)

Definition dest_of (n : Z * Z * Z) : NextDest := mkNextDest (tid n.1.1 n.1.2) n.2 EMESH.

Lemma broadcast_dests_neighbours (m : HBH) sx sy cx cy :
  mesh_ok m →
  broadcast_dests m sx sy cx cy =
    (dest_of <$> neighbours sx sy cx cy) ++ [mkNextDest (NetworkModel._tile_id (_model m)) SELF NetPacket.RECEIVE_TILE].
Proof.
  intros (Hw & Hh & _). unfold broadcast_dests, neighbours. rewrite Hw, Hh.
  destruct (cy >=? sy), (cy <=? sy), (cy =? sy), (cx >=? sx), (cx <=? sx); done.
Qed.

Abbreviation valid_dests l := (filter (λ d, _tile_id d ≠ INVALID_TILE_ID) l).

Lemma hop_ok_receive (pkt : NetPacket Msg) t s r z c :
  0 ≤ t < w * h → (r = NetPacket.BROADCAST ∨ r = t) → hop_ok cfg mesh_valid s r (Hop.make pkt t NetPacket.RECEIVE_TILE z c).
Proof. intros Ht Hr. split; [unfold app_tile; by rewrite tiles|]. by split. Qed.
Lemma hop_ok_emesh (pkt : NetPacket Msg) t s r z c :
  0 ≤ t < w * h → 0 ≤ s < w * h → hop_ok cfg mesh_valid s r (Hop.make pkt t EMESH z c).
Proof.
  intros Ht Hs. split; [unfold app_tile; by rewrite tiles|]. split; [done|]. cbn. right.
  unfold app_tile. by rewrite tiles.
Qed.

Lemma neighbour_hops (pkt : NetPacket Msg) s z cd l :
  0 ≤ s < w * h →
  let hops := (λ d, Hop.make pkt (_tile_id d) (_node_type d) z cd) <$> valid_dests (dest_of <$> l) in
  let covers := concat ((λ n : Z * Z * Z, cover (pos s).1 (pos s).2 n.1.1 n.1.2) <$> l) in
  Forall (hop_ok cfg mesh_valid s NetPacket.BROADCAST) hops ∧
  concat (hop_goals mesh_goals s NetPacket.BROADCAST <$> hops) = covers ∧
  sum_list (hop_cost mesh_cost s NetPacket.BROADCAST <$> hops) = (2 * length covers)%nat.
Proof.
  intros Hs. destruct (pos_range s Hs) as (Hsx & Hsy & _).
  induction l as [|[[x y] p] l IH]; [done|]. cbn zeta in *. destruct IH as (H1 & H2 & H3).
  cbn [fmap list_fmap concat]. rewrite filter_cons. cbn [fst snd].
  destruct (decide (inside x y)) as [Hin|Hout].
  - destruct (tid_inside x y Hin) as (_ & Hr & Epos).
    rewrite decide_True by (cbn; unfold INVALID_TILE_ID; lia). cbn [fmap list_fmap concat].
    assert (∀ z cd, hop_goals mesh_goals s NetPacket.BROADCAST (Hop.make pkt (tid x y) EMESH z cd) =
      cover (pos s).1 (pos s).2 x y) as Eg.
    { intros. unfold hop_goals, goals_at, mesh_goals. rewrite Z.eqb_refl.
      change (cover (pos s).1 (pos s).2 (pos (tid x y)).1 (pos (tid x y)).2 = cover (pos s).1 (pos s).2 x y). by rewrite Epos. }
    assert (∀ z cd, hop_cost mesh_cost s NetPacket.BROADCAST (Hop.make pkt (tid x y) EMESH z cd) =
      (2 * length (cover (pos s).1 (pos s).2 x y))%nat) as Ec.
    { intros. unfold hop_cost, cost_at, mesh_cost. rewrite Z.eqb_refl.
      change (2 * length (cover (pos s).1 (pos s).2 (pos (tid x y)).1 (pos (tid x y)).2) = 2 * length (cover (pos s).1 (pos s).2 x y))%nat.
      by rewrite Epos. }
    cbn [dest_of _tile_id _node_type fst snd]. rewrite Eg, H2, length_app. cbn [sum_list sum_list_with]. unfold id. rewrite Ec.
    change (sum_list_with (λ x, x)) with sum_list. rewrite H3.
    split_and!; [|done|lia]. apply Forall_cons. split; [|exact H1].
    by apply hop_ok_emesh.
  - rewrite decide_False by (cbn; rewrite tid_outside by done; naive_solver).
    rewrite cover_outside by done. cbn [app]. split_and!; [exact H1|exact H2|exact H3].
Qed.

Lemma link_delays_spec model (pkt : NetPacket Msg) : ∀ l d (m : HBH),
  sendable cfg pkt → base_ok (g_type_to_static_network_map (NetPacket.type pkt)) (NetworkModel._tile_id model) model →
  mesh_ok m → Forall (λ d, 0 ≤ _output_port d < num_mesh_router_ports) l →
  runs E (link_delays cfg model pkt l d) m (λ _ m', mesh_ok m' ∧ _model m' = _model m).
Proof.
  induction l as [|x l IH]; intros d m Hs Hb Hm Hl; [by apply runs_ret|].
  apply Forall_cons in Hl as [Hx Hl]. cbn [link_delays]. apply runs_bind. apply runs_link; [done|done|].
  intros lk. eapply elink_spec; [done|done|]. intros z' _ m' Hm' Em'.
  eapply runs_mono; [by apply IH|]. cbv beta. intros _ m2 [? ?]. split; [done|congruence].
Qed.

Lemma neighbours_ports sx sy cx cy :
  Forall (λ d, 0 ≤ _output_port d < num_mesh_router_ports) (dest_of <$> neighbours sx sy cx cy) ∧
  (length (neighbours sx sy cx cy) <= 4)%nat.
Proof.
  unfold neighbours, num_mesh_router_ports, UP, DOWN, RIGHT, LEFT.
  destruct (cy >=? sy), (cy <=? sy), (cy =? sy), (cx >=? sx), (cx <=? sx); cbn; (split; [|lia]);
    repeat (apply Forall_cons; split; [cbn; lia|]); apply Forall_nil_2.
Qed.

Lemma valid_dests_self c l : 0 ≤ c → valid_dests (l ++ [mkNextDest c SELF NetPacket.RECEIVE_TILE]) =
  valid_dests l ++ [mkNextDest c SELF NetPacket.RECEIVE_TILE].
Proof.
  intros Hc. rewrite filter_app. f_equal. rewrite filter_cons, decide_True; [done|].
  cbn. unfold INVALID_TILE_ID. lia.
Qed.

(** ** What routing at a tile does *)

Lemma emesh_goals (pkt : NetPacket Msg) t s r z c :
  hop_goals mesh_goals s r (Hop.make pkt t EMESH z c) =
  if r =? NetPacket.BROADCAST then cover (pos s).1 (pos s).2 (pos t).1 (pos t).2 else [r].
Proof. reflexivity. Qed.
Lemma emesh_cost (pkt : NetPacket Msg) t s r z c :
  hop_cost mesh_cost s r (Hop.make pkt t EMESH z c) =
  if r =? NetPacket.BROADCAST then (2 * length (cover (pos s).1 (pos s).2 (pos t).1 (pos t).2))%nat
  else Z.to_nat (dist t r + 2).
Proof. reflexivity. Qed.
Lemma receive_goals (pkt : NetPacket Msg) t s r z c : hop_goals mesh_goals s r (Hop.make pkt t NetPacket.RECEIVE_TILE z c) = [t].
Proof. reflexivity. Qed.
Lemma receive_cost (pkt : NetPacket Msg) t s r z c : hop_cost mesh_cost s r (Hop.make pkt t NetPacket.RECEIVE_TILE z c) = 1%nat.
Proof. reflexivity. Qed.
Lemma sum_list_singleton n : sum_list [n] = n.
Proof. cbn. unfold id. lia. Qed.

Section route.
Context (t : Z) (m : HBH) (pkt : NetPacket Msg).
Abbreviation s := (tile_id (NetPacket.sender pkt)).
Abbreviation r := (tile_id (NetPacket.receiver pkt)).
Context (Ht : 0 ≤ t < w * h) (Hs : sendable cfg pkt) (Hr : routed cfg s r).
Context (Hb : base_ok (g_type_to_static_network_map (NetPacket.type pkt)) t (_model m)) (Hm : mesh_ok m).

Definition routes (hops : list Hop.Hop) : Prop :=
  Forall (hop_ok cfg mesh_valid s r) hops ∧
  concat (hop_goals mesh_goals s r <$> hops) ≡ₚ mesh_goals t (NetPacket.node_type pkt) s r ∧
  (sum_list (hop_cost mesh_cost s r <$> hops) < mesh_cost t (NetPacket.node_type pkt) s r)%nat.

Lemma sender_range : 0 ≤ s < w * h.
Proof. destruct Hr as [Hs' _]. unfold app_tile in Hs'. by rewrite tiles in Hs'. Qed.

Lemma route_injection :
  NetPacket.node_type pkt = SEND → t = s →
  runs E (routePacket cfg pow pkt) m (λ hops m', mesh_ok m' ∧ _model m' = _model m ∧ routes hops).
Proof.
  intros Hn Hts. unfold routePacket. do 2 run1. unfold id. rewrite Hn, Z.eqb_refl.
  rewrite (base_tile _ _ _ Hb). apply runs_bind.
  refine (runs_router true _ _ _ Hm _). intros rt Hrt. eapply runs_mono.
  { eapply (router_spec cfg pow t); [done|done|exact Hrt|lia]. }
  cbv beta. intros d rt' Hrt'. split; [done|]. intros m' Hm' Em'. run1. split_and!; [done|done|].
  pose proof sender_range as Hsr. unfold routes. rewrite Hn. split_and!.
  - apply Forall_singleton. by apply hop_ok_emesh.
  - cbn [fmap list_fmap concat]. rewrite app_nil_r, emesh_goals. unfold mesh_goals.
    destruct (r =? NetPacket.BROADCAST); [|done]. rewrite Hts. by rewrite cover_root.
  - cbn [fmap list_fmap]. rewrite sum_list_singleton, emesh_cost. unfold mesh_cost. rewrite Z.eqb_refl.
    destruct (r =? NetPacket.BROADCAST); rewrite Hts.
    + rewrite cover_root by done. lia.
    + pose proof (dist_nonneg s r). lia.
Qed.

Lemma route_broadcast :
  NetPacket.node_type pkt = EMESH → r = NetPacket.BROADCAST →
  runs E (routePacket cfg pow pkt) m (λ hops m', mesh_ok m' ∧ _model m' = _model m ∧ routes hops).
Proof.
  intros Hn Hbr. unfold routePacket. do 2 run1. unfold id. rewrite Hn.
  change (EMESH =? SEND) with false. change (EMESH =? EMESH) with true. cbv iota.
  rewrite (base_tile _ _ _ Hb), Hbr, Z.eqb_refl.
  pose proof Hm as (Hw & Hh & _). rewrite Hw.
  pose proof (cover_split s t sender_range Ht) as Hsplit.
  pose proof (neighbour_hops pkt s) as Hnh.
  destruct (pos t) as [cx cy] eqn:Ec, (pos s) as [sx sy] eqn:Es. cbn [fst snd] in Hnh.
  rewrite (broadcast_dests_neighbours m sx sy cx cy Hm), (base_tile _ _ _ Hb), valid_dests_self by lia.
  destruct (neighbours_ports sx sy cx cy) as [Hports Hlen].
  set (self := mkNextDest t SELF NetPacket.RECEIVE_TILE) in *. set (ds := valid_dests (dest_of <$> neighbours sx sy cx cy)) in *.
  assert (Forall (λ d, 0 ≤ _output_port d < num_mesh_router_ports) (ds ++ [self])) as HF.
  { apply Forall_app. split; [|apply Forall_singleton; by vm_compute].
    apply Forall_forall. intros d [_ Hd]%list_elem_of_filter. rewrite Forall_forall in Hports. by apply Hports. }
  assert (1 ≤ zlength (_output_port <$> (ds ++ [self])) ≤ num_mesh_router_ports) as Hlen2.
  { unfold zlength. rewrite length_fmap, length_app. cbn. unfold num_mesh_router_ports.
    pose proof (length_filter (λ d, _tile_id d ≠ INVALID_TILE_ID) (dest_of <$> neighbours sx sy cx cy)) as Hl.
    rewrite length_fmap in Hl. unfold ds. lia. }
  apply runs_bind. eapply runs_mono; [apply link_delays_spec; [done| |done|done]|].
  { by rewrite (base_tile _ _ _ Hb). }
  cbv beta. intros z m1 [Hm1 Em1]. apply runs_bind.
  refine (runs_router false _ _ _ Hm1 _). intros rt Hrt. eapply runs_mono.
  { eapply (router_list_spec cfg pow t); [done|done|exact Hrt| |exact Hlen2]. by apply Forall_fmap. }
  cbv beta. intros d rt' Hrt'. split; [done|]. intros m2 Hm2 Em2. run1. split_and!; [done|congruence|].
  destruct (Hnh d.1 d.2 (neighbours sx sy cx cy) sender_range) as (H1 & H2 & H3). fold ds in H1, H2, H3.
  unfold routes. rewrite Hn, Hbr. unfold mesh_goals at 2, mesh_cost at 2. rewrite Z.eqb_refl.
  change (EMESH =? SEND) with false. cbv iota. rewrite Ec, Es. cbn [fst snd].
  rewrite !fmap_app, concat_app, sum_list_app. cbn [fmap list_fmap concat]. rewrite sum_list_singleton.
  unfold self. cbn [_tile_id _node_type]. rewrite receive_goals, receive_cost.
  rewrite H2, H3, (Permutation_length Hsplit), length_app. split_and!; [|by rewrite Hsplit|cbn; lia].
  apply Forall_app. split; [exact H1|]. apply Forall_singleton, hop_ok_receive; auto.
Qed.

Lemma route_unicast :
  NetPacket.node_type pkt = EMESH → r ≠ NetPacket.BROADCAST →
  runs E (routePacket cfg pow pkt) m (λ hops m', mesh_ok m' ∧ _model m' = _model m ∧ routes hops).
Proof.
  intros Hn Hbr. assert (0 ≤ r < w * h) as Hrr.
  { destruct Hr as [_ [?|[Hr' _]]]; [done|]. unfold app_tile in Hr'. by rewrite tiles in Hr'. }
  unfold routePacket. do 2 run1. unfold id. rewrite Hn.
  change (EMESH =? SEND) with false. change (EMESH =? EMESH) with true. cbv iota.
  rewrite (base_tile _ _ _ Hb), (proj2 (Z.eqb_neq _ _) Hbr).
  pose proof (xy_step t r Ht Hrr) as Hstep.
  pose proof Hm as (Hw & Hh & _). rewrite Hw.
  destruct (pos t) as [cx cy] eqn:Ec, (pos r) as [dx dy] eqn:Ed. cbn [fst snd] in Hstep.
  rewrite (unicast_xy m t) by (done || apply Hb). set (dest := xy_dest t cx cy dx dy) in *.
  destruct Hstep as (Hport & Htile & Hcase).
  apply runs_bind, runs_in_routers; [done|]. intros rs Hrs. apply runs_gets. split; [done|]. intros m0 Hm0 Em0.
  apply runs_bind, runs_assert.
  { rewrite (ro_links _ Hrs). apply andb_true_iff. rewrite Z.geb_leb, Z.leb_le, Z.ltb_lt. lia. }
  apply runs_bind. refine (runs_router false _ _ _ Hm0 _). intros rt Hrt. eapply runs_mono.
  { eapply (router_spec cfg pow t); [done|done|exact Hrt|exact Hport]. }
  cbv beta. intros d rt' Hrt'. split; [done|]. intros m1 Hm1 Em1.
  apply runs_bind, runs_link; [done|done|]. intros lk. eapply (elink_spec cfg pow t); [done|done|]. intros z _ m2 Hm2 Em2.
  apply runs_bind, runs_assert; [apply negb_true_iff, Z.eqb_neq; unfold INVALID_TILE_ID; lia|]. run1.
  split_and!; [done|congruence|]. unfold routes. rewrite Hn. unfold mesh_goals at 2, mesh_cost at 2.
  rewrite (proj2 (Z.eqb_neq _ _) Hbr). change (EMESH =? SEND) with false. cbv iota.
  cbn [fmap list_fmap concat]. rewrite app_nil_r, sum_list_singleton. pose proof (dist_nonneg t r).
  destruct Hcase as [(E1 & E2 & E3)|(E1 & E2 & E3 & _)].
  - rewrite E3, E2, receive_goals, receive_cost, E1. split_and!; [|done|pose proof (dist_nonneg r r); lia].
    apply Forall_singleton, hop_ok_receive; [lia|auto].
  - rewrite E1, emesh_goals, emesh_cost, (proj2 (Z.eqb_neq _ _) Hbr), E2. split_and!; [|done|lia].
    apply Forall_singleton. by apply hop_ok_emesh, sender_range.
Qed.
End route.

#[program] Definition mesh_scheme : Scheme cfg pow := {|
  sc_broadcast := broadcast;
  sc_ok t m := ∃ m', m = Model.EMeshHopByHop m' ∧ mesh_ok m';
  sc_valid := mesh_valid;
  sc_goals := mesh_goals;
  sc_cost := mesh_cost
|}.
Next Obligation. intros t m b (m' & -> & Hm). cbn. by eexists. Qed.
Next Obligation.
  intros s r Hr _. split; [by left|]. unfold mesh_goals. rewrite Z.eqb_refl, tiles. done.
Qed.
Next Obligation.
  intros t node s r Ht [Hs Hr] _. unfold app_tile in *. rewrite tiles in *. unfold mesh_cost.
  destruct (r =? NetPacket.BROADCAST) eqn:Eb; breflect.
  - destruct (node =? SEND).
    + rewrite length_seqZ. lia.
    + pose proof (filter_length_le (under (pos s).1 (pos s).2 (pos t).1 (pos t).2) (seqZ 0 (w * h))) as Hl.
      rewrite length_seqZ in Hl. unfold cover. lia.
  - destruct Hr as [?|[Hr _]]; [done|]. pose proof (dist_bound s r Hs Hr). pose proof (dist_bound t r Ht Hr).
    destruct (node =? SEND); lia.
Qed.
Next Obligation.
  intros t node s r Hv. unfold mesh_cost. pose proof (dist_nonneg s r). pose proof (dist_nonneg t r).
  destruct (r =? NetPacket.BROADCAST), (node =? SEND) eqn:En; try lia. breflect.
  destruct Hv as [[? _]|(_ & Ht & Hs)]; [done|]. unfold app_tile in *. rewrite tiles in *.
  pose proof (cover_split s t Hs Ht) as Hsplit. destruct (pos s), (pos t). cbn.
  rewrite (Permutation_length Hsplit), length_app. cbn. lia.
Qed.
Next Obligation.
  intros t m pkt Ht Hs s r Hr Hb (m' & -> & Hm) Hv. cbn in Hb. pose proof Ht as Ht'. unfold app_tile in Ht'. rewrite tiles in Ht'.
  eapply runs_inj; [reflexivity|].
  assert (runs E (routePacket cfg pow pkt) m' (λ hops m2, mesh_ok m2 ∧ _model m2 = _model m' ∧ routes t pkt hops)) as Hroute.
  { destruct Hv as [[Hn Hts]|[Hn _]]; [by apply route_injection|].
    destruct (decide (r = NetPacket.BROADCAST)); [by apply route_broadcast|by apply route_unicast]. }
  eapply runs_mono; [exact Hroute|]. cbv beta. intros hops m2 (Hm2 & Em2 & H1 & H2 & H3).
  split_and!; [by eexists|done|done|done|done].
Qed.
End mesh.
