(* ===== verification/AtacProofs.v ===== *)
(** * AtacProofs: routing on the optical network

    The geometry of clusters, sub-clusters, access points and hubs, and the
    scheme of the ATAC model: every packet that leaves its cluster goes through
    the access point and the hub of its cluster, and a broadcast reaches the
    tiles of every cluster once. *)
From S2P Require Import Prelude Utils Double CacheSet Cache Shmem ThreadManager QueueModels HistoryTree NetPacket NetworkModel MeshModels AtacModel Network NetworkProofs DeliveryProofs MeshProofs.
Import PacketType NetworkModelAtac.

(** ** Topologies *)

(** What the constructor establishes: the clusters divide the mesh and the
    sub-clusters divide the clusters. *)
Record topology_ok (napp : Z) (T : Topology) : Prop := {
  to_height : _enet_height T = _enet_width T;
  to_tiles : napp = _enet_width T * _enet_width T;
  to_width_pos : 0 < _enet_width T;
  to_cluster_width : 0 < _cluster_width T ∧ _enet_width T = _numX_clusters T * _cluster_width T;
  to_cluster_height : 0 < _cluster_height T ∧ _enet_width T = _numY_clusters T * _cluster_height T;
  to_num_clusters : _num_clusters T = _numX_clusters T * _numY_clusters T;
  to_cluster_size : _cluster_size T = _cluster_width T * _cluster_height T;
  to_sub_width : 0 < _sub_cluster_width T ∧ _cluster_width T = _numX_sub_clusters T * _sub_cluster_width T;
  to_sub_height : 0 < _sub_cluster_height T ∧ _cluster_height T = _numY_sub_clusters T * _sub_cluster_height T;
  to_networks : 0 < _num_receive_networks_per_cluster T;
  to_info : _cluster_info_list T =
    y ← seqZ 0 (_numY_clusters T) ; x ← seqZ 0 (_numX_clusters T) ;
    let b := mkBoundary (x * _cluster_width T) ((x + 1) * _cluster_width T)
                        (y * _cluster_height T) ((y + 1) * _cluster_height T) in
    [mkClusterInfo b (initializeAccessPointList (_enet_width T) (_numX_sub_clusters T) (_numY_sub_clusters T)
       (_sub_cluster_width T) (_sub_cluster_height T) b)]
}.

(** The elements of a table filled row by row. *)
Lemma grid_lookup {A} (f : Z → Z → A) nx : 0 ≤ nx → ∀ ny x y, 0 ≤ x < nx → 0 ≤ y < ny →
  (y ← seqZ 0 ny ; x ← seqZ 0 nx ; [f x y]) !! Z.to_nat (y * nx + x) = Some (f x y).
Proof.
  intros Hnx ny x y Hx Hy.
  assert (∀ (l : list Z) g, (∀ a, length (g a) = Z.to_nat nx) → ∀ i b (z : A), l !! i = Some b →
    g b !! Z.to_nat x = Some z → (l ≫= g) !! (i * Z.to_nat nx + Z.to_nat x)%nat = Some z) as Hbind.
  { intros l g Hlen. induction l as [|a l IH]; intros [|i] b z Hl Hg; cbn in *; try done.
    - injection Hl as ->. rewrite lookup_app_l; [done|]. apply lookup_lt_Some in Hg. lia.
    - rewrite lookup_app_r by (rewrite Hlen; lia). rewrite Hlen.
      replace (Z.to_nat nx + i * Z.to_nat nx + Z.to_nat x - Z.to_nat nx)%nat with (i * Z.to_nat nx + Z.to_nat x)%nat by lia.
      by eapply IH. }
  assert (∀ (l : list Z) (g : Z → A) i a, l !! i = Some a → (l ≫= (λ x, [g x])) !! i = Some (g a)) as Hone.
  { intros l g. induction l as [|a l IH]; intros [|i] b Hl; cbn in *; try done; [congruence|by apply IH]. }
  replace (Z.to_nat (y * nx + x)) with (Z.to_nat y * Z.to_nat nx + Z.to_nat x)%nat by nia.
  eapply Hbind.
  - intros a. assert (∀ l : list Z, length (l ≫= (λ x, [f x a])) = length l) as -> by (induction l; cbn; auto).
    rewrite length_seqZ. lia.
  - apply (lookup_seqZ _ _ _ y). lia.
  - apply (Hone _ (λ x, f x y)), lookup_seqZ. lia.
Qed.

(** ** Clusters *)

Section geometry.
Context (napp : Z) (T : Topology) (HT : topology_ok napp T).
Abbreviation W := (_enet_width T).
Abbreviation cw := (_cluster_width T).
Abbreviation ch := (_cluster_height T).
Abbreviation nx := (_numX_clusters T).
Abbreviation ny := (_numY_clusters T).
Abbreviation pos := (Mesh.computePosition W).

Lemma nx_pos : 0 < nx ∧ 0 < ny.
Proof. destruct HT as [_ _ Hw [? H1] [? H2] _ _ _ _ _ _]. nia. Qed.

Lemma cluster_mesh_width_nx : cluster_mesh_width T = nx.
Proof.
  unfold cluster_mesh_width. destruct (to_cluster_width _ _ HT) as [Hc ->]. by rewrite Z.quot_mul by lia.
Qed.

(** A tile is a column and a row; its cluster is their quotients. *)
Lemma tile_pos t : 0 ≤ t < napp → 0 ≤ (pos t).1 < W ∧ 0 ≤ (pos t).2 < W ∧ t = (pos t).2 * W + (pos t).1.
Proof. intros Ht. rewrite (to_tiles _ _ HT) in Ht. apply (pos_range W W); [apply HT|done]. Qed.
Lemma pos_tile x y : 0 ≤ x < W → 0 ≤ y < W → 0 ≤ y * W + x < napp ∧ pos (y * W + x) = (x, y).
Proof.
  intros Hx Hy. pose proof (to_width_pos _ _ HT). rewrite (to_tiles _ _ HT).
  assert (inside W W x y) as Hin by done. destruct (tid_inside W W (to_width_pos _ _ HT) x y Hin) as (E1 & E2 & E3).
  by rewrite <- E1.
Qed.

Lemma getClusterID_div t : 0 ≤ t < napp → getClusterID T t = (pos t).2 `div` ch * nx + (pos t).1 `div` cw.
Proof.
  intros Ht. destruct (tile_pos t Ht) as (Hx & Hy & _). unfold getClusterID, computePositionOnENet.
  destruct (pos t) as [x y]. cbn in *. rewrite cluster_mesh_width_nx.
  destruct HT as [_ _ Hw [? H1] [? H2] _ _ _ _ _ _]. by rewrite !Z.quot_div_nonneg by lia.
Qed.

Lemma div_range x c n : 0 < c → 0 ≤ x < n * c → 0 ≤ x `div` c < n.
Proof. intros Hc Hx. split; [apply Z.div_pos; lia|]. apply Z.div_lt_upper_bound; lia. Qed.

Lemma div_offset q c i : 0 ≤ i < c → (q * c + i) `div` c = q.
Proof. intros Hi. rewrite Z.add_comm, Z.div_add, Z.div_small by lia. lia. Qed.
Lemma mod_offset q c i : 0 ≤ i < c → (q * c + i) `mod` c = i.
Proof. intros Hi. rewrite Z.add_comm, Z_mod_plus_full. by apply Z.mod_small. Qed.

Lemma cluster_range t : 0 ≤ t < napp → 0 ≤ getClusterID T t < _num_clusters T.
Proof.
  intros Ht. rewrite getClusterID_div by done. destruct (tile_pos t Ht) as (Hx & Hy & _).
  destruct HT as [_ _ Hw [? H1] [? H2] Hnc _ _ _ _ _].
  pose proof (div_range (pos t).1 cw nx ltac:(lia) ltac:(lia)). pose proof (div_range (pos t).2 ch ny ltac:(lia) ltac:(lia)).
  rewrite Hnc. nia.
Qed.

(** A cluster is a column and a row of the mesh of clusters. *)
Lemma cluster_pos k : 0 ≤ k < _num_clusters T →
  Z.rem k (cluster_mesh_width T) = k `mod` nx ∧ Z.quot k (cluster_mesh_width T) = k `div` nx ∧
  0 ≤ k `mod` nx < nx ∧ 0 ≤ k `div` nx < ny.
Proof.
  intros Hk. pose proof nx_pos as [Hx Hy]. rewrite cluster_mesh_width_nx, Z.rem_mod_nonneg, Z.quot_div_nonneg by lia.
  pose proof (Z.mod_pos_bound k nx Hx). rewrite (to_num_clusters _ _ HT) in Hk.
  pose proof (div_range k nx ny Hx ltac:(lia)). done.
Qed.

(** The tile in column [i] and row [j] of cluster [k]. *)
Lemma cluster_of k i j :
  0 ≤ k < _num_clusters T → 0 ≤ i < cw → 0 ≤ j < ch →
  let t := (k `div` nx * ch + j) * W + (k `mod` nx * cw + i) in
  0 ≤ t < napp ∧ pos t = (k `mod` nx * cw + i, k `div` nx * ch + j) ∧ getClusterID T t = k.
Proof.
  intros Hk Hi Hj. destruct (cluster_pos k Hk) as (_ & _ & Hkx & Hky). pose proof nx_pos as [Hnx Hny].
  destruct HT as [_ _ Hw [Hcw H1] [Hch H2] _ _ _ _ _ _].
  assert (0 ≤ k `mod` nx * cw + i < W ∧ 0 ≤ k `div` nx * ch + j < W) as [Hx Hy] by nia.
  destruct (pos_tile _ _ Hx Hy) as [Ht Ep]. cbv zeta. split_and!; [lia|lia|done|].
  rewrite getClusterID_div by done. rewrite Ep. cbn.
  rewrite !div_offset by lia. pose proof (Z.div_mod k nx ltac:(lia)). lia.
Qed.

Lemma elem_of_cluster_tiles k t :
  0 ≤ k < _num_clusters T → t ∈ cluster_tiles T k ↔ 0 ≤ t < napp ∧ getClusterID T t = k.
Proof.
  intros Hk. destruct (cluster_pos k Hk) as (Er & Eq & Hkx & Hky). unfold cluster_tiles. rewrite Er, Eq.
  pose proof nx_pos as [Hnx Hny].
  rewrite list_elem_of_bind. split.
  - intros (i & Hj & Hi%elem_of_seqZ). apply list_elem_of_bind in Hj as (j & ->%list_elem_of_singleton & Hj%elem_of_seqZ).
    destruct (cluster_of k (i - k `mod` nx * cw) (j - k `div` nx * ch)) as (H1 & _ & H2); [done|lia..|].
    replace ((k `div` nx * ch + (j - k `div` nx * ch)) * W + (k `mod` nx * cw + (i - k `mod` nx * cw)))
      with (j * W + i) in * by lia. done.
  - intros [Ht Hc]. destruct (tile_pos t Ht) as (Hx & Hy & Et). rewrite getClusterID_div in Hc by done.
    destruct HT as [_ _ Hw [Hcw H1] [Hch H2] _ _ _ _ _ _].
    pose proof (div_range (pos t).1 cw nx Hcw ltac:(lia)) as Dx. pose proof (div_range (pos t).2 ch ny Hch ltac:(lia)) as Dy.
    assert (k `mod` nx = (pos t).1 `div` cw ∧ k `div` nx = (pos t).2 `div` ch) as [-> ->].
    { rewrite <- Hc. by rewrite mod_offset, div_offset by lia. }
    exists (pos t).1. pose proof (Z.div_mod (pos t).1 cw ltac:(lia)). pose proof (Z.mod_pos_bound (pos t).1 cw Hcw).
    pose proof (Z.div_mod (pos t).2 ch ltac:(lia)). pose proof (Z.mod_pos_bound (pos t).2 ch Hch). split.
    + apply list_elem_of_bind. exists (pos t).2. split; [by apply list_elem_of_singleton|]. apply elem_of_seqZ. lia.
    + apply elem_of_seqZ. lia.
Qed.

Lemma NoDup_cluster_tiles k : 0 ≤ k < _num_clusters T → NoDup (cluster_tiles T k).
Proof.
  intros Hk. destruct (cluster_pos k Hk) as (Er & Eq & Hkx & Hky). unfold cluster_tiles. rewrite Er, Eq.
  pose proof nx_pos as [Hnx Hny]. destruct HT as [_ _ Hw [Hcw H1] [Hch H2] _ _ _ _ _ _].
  apply NoDup_bind; [|intros i Hi; apply NoDup_bind|apply NoDup_seqZ].
  - intros i i' t Hi%elem_of_seqZ Hi'%elem_of_seqZ Ht Ht'.
    apply list_elem_of_bind in Ht as (j & ->%list_elem_of_singleton & Hj%elem_of_seqZ).
    apply list_elem_of_bind in Ht' as (j' & E%list_elem_of_singleton & Hj'%elem_of_seqZ).
    assert (0 ≤ i < W ∧ 0 ≤ i' < W ∧ 0 ≤ j < W ∧ 0 ≤ j' < W) by nia.
    destruct (pos_tile i j) as [_ P1]; [lia..|]. destruct (pos_tile i' j') as [_ P2]; [lia..|].
    rewrite E, P2 in P1. congruence.
  - intros j j' t Hj%elem_of_seqZ Hj'%elem_of_seqZ ->%list_elem_of_singleton E%list_elem_of_singleton. nia.
  - intros j _. apply NoDup_singleton.
  - apply NoDup_seqZ.
Qed.

(** The clusters partition the tiles. *)
Lemma clusters_partition : (seqZ 0 (_num_clusters T) ≫= cluster_tiles T) ≡ₚ seqZ 0 napp.
Proof.
  apply NoDup_Permutation.
  - apply NoDup_bind; [|intros k Hk%elem_of_seqZ; apply NoDup_cluster_tiles; lia|apply NoDup_seqZ].
    intros k k' t Hk%elem_of_seqZ Hk'%elem_of_seqZ Ht%elem_of_cluster_tiles Ht'%elem_of_cluster_tiles; [|lia..].
    destruct Ht, Ht'. congruence.
  - apply NoDup_seqZ.
  - intros t. rewrite list_elem_of_bind, elem_of_seqZ. split.
    + intros (k & Ht & Hk%elem_of_seqZ). apply elem_of_cluster_tiles in Ht; lia.
    + intros Ht. exists (getClusterID T t). pose proof (cluster_range t ltac:(lia)).
      rewrite elem_of_cluster_tiles, elem_of_seqZ by lia. split_and!; lia.
Qed.

Lemma length_cluster_tiles k : 0 ≤ k < _num_clusters T → zlength (cluster_tiles T k) = _cluster_size T.
Proof.
  intros Hk. rewrite (to_cluster_size _ _ HT). destruct HT as [_ _ Hw [Hcw H1] [Hch H2] _ _ _ _ _ _]. unfold cluster_tiles, zlength.
  assert (∀ (l : list Z) (g : Z → list Z) n, (∀ a, length (g a) = n) → length (l ≫= g) = (length l * n)%nat) as Hlen.
  { intros l g n Hg. induction l as [|a l IH]; cbn; [done|]. rewrite length_app, Hg, IH. lia. }
  rewrite (Hlen _ _ (Z.to_nat ch)).
  - rewrite length_seqZ. nia.
  - intros i. rewrite (Hlen _ _ 1%nat) by done. rewrite length_seqZ. lia.
Qed.

(** ** Hubs and access points *)

Lemma hub_spec k : 0 ≤ k < _num_clusters T →
  0 ≤ getTileIDWithOpticalHub T k < napp ∧ getClusterID T (getTileIDWithOpticalHub T k) = k.
Proof.
  intros Hk. destruct (cluster_pos k Hk) as (Er & Eq & _). unfold getTileIDWithOpticalHub. rewrite Er, Eq.
  destruct (to_cluster_width _ _ HT) as [Hcw _], (to_cluster_height _ _ HT) as [Hch _].
  rewrite !Z.quot_div_nonneg by lia.
  destruct (cluster_of k (cw `div` 2) (ch `div` 2)) as (H1 & _ & H2); [done|..].
  - split; [apply Z.div_pos; lia|]. apply Z.div_lt_upper_bound; lia.
  - split; [apply Z.div_pos; lia|]. apply Z.div_lt_upper_bound; lia.
  - done.
Qed.

Abbreviation sw := (_sub_cluster_width T).
Abbreviation sh := (_sub_cluster_height T).
Abbreviation snx := (_numX_sub_clusters T).
Abbreviation sny := (_numY_sub_clusters T).

(** The access point of a tile is in the middle of its sub-cluster. *)
Definition access_x (x : Z) : Z := x `div` cw * cw + (x `mod` cw) `div` sw * sw + sw `div` 2.
Definition access_y (y : Z) : Z := y `div` ch * ch + (y `mod` ch) `div` sh * sh + sh `div` 2.

Lemma access_point t : 0 ≤ t < napp →
  getNearestAccessPoint T t = Ok (access_y (pos t).2 * W + access_x (pos t).1).
Proof.
  intros Ht. destruct (tile_pos t Ht) as (Hx & Hy & _).
  unfold getNearestAccessPoint, getSubClusterID, computePositionOnENet. rewrite getClusterID_div by done.
  destruct (pos t) as [x y]. cbn [fst snd] in *. pose proof nx_pos as [Hnx Hny].
  destruct HT as [_ _ Hw [Hcw H1] [Hch H2] _ _ [Hsw H3] [Hsh H4] _ Hinfo].
  pose proof (div_range x cw nx Hcw ltac:(lia)) as Dx. pose proof (div_range y ch ny Hch ltac:(lia)) as Dy.
  set (b := mkBoundary (x `div` cw * cw) ((x `div` cw + 1) * cw) (y `div` ch * ch) ((y `div` ch + 1) * ch)).
  set (info := mkClusterInfo b (initializeAccessPointList W snx sny sw sh b)).
  assert (vget "_cluster_info_list" (_cluster_info_list T) (y `div` ch * nx + x `div` cw) = Ok info) as Evget.
  { unfold vget. rewrite zlookup_nat by nia. rewrite Hinfo.
    rewrite (grid_lookup (λ x y, _) nx ltac:(lia) ny (x `div` cw) (y `div` ch)) by lia. done. }
  rewrite Evget. cbn [mbind res_bind _boundary minX minY info b _access_point_list].
  pose proof (Z.div_mod x cw ltac:(lia)) as Ex. pose proof (Z.mod_pos_bound x cw Hcw).
  pose proof (Z.div_mod y ch ltac:(lia)) as Ey. pose proof (Z.mod_pos_bound y ch Hch).
  replace (x - x `div` cw * cw) with (x `mod` cw) by lia. replace (y - y `div` ch * ch) with (y `mod` ch) by lia.
  rewrite !Z.quot_div_nonneg by lia.
  pose proof (div_range (x `mod` cw) sw snx Hsw ltac:(lia)) as Sx. pose proof (div_range (y `mod` ch) sh sny Hsh ltac:(lia)) as Sy.
  unfold vget. rewrite zlookup_nat by nia. unfold initializeAccessPointList.
  rewrite (grid_lookup (λ x y, _) snx ltac:(lia) sny ((x `mod` cw) `div` sw) ((y `mod` ch) `div` sh)) by lia.
  cbn. unfold access_x, access_y. by rewrite !Z.quot_div_nonneg by lia.
Qed.

Lemma access_coordinate c s n x : 0 < s → c = n * s → 0 < c → 0 ≤ x →
  let a := x `div` c * c + (x `mod` c) `div` s * s + s `div` 2 in
  a `div` c = x `div` c ∧ (a `mod` c) `div` s = (x `mod` c) `div` s ∧ 0 ≤ a.
Proof.
  intros Hs Hc Hcp Hx. cbv zeta. pose proof (Z.mod_pos_bound x c Hcp) as Hm.
  pose proof (div_range (x `mod` c) s n Hs ltac:(lia)) as Hd.
  assert (0 ≤ s `div` 2 < s) as H2 by (split; [apply Z.div_pos; lia|apply Z.div_lt_upper_bound; lia]).
  assert (0 ≤ (x `mod` c) `div` s * s + s `div` 2 < c) as Hr by nia.
  assert (0 ≤ x `div` c) by (apply Z.div_pos; lia).
  rewrite <- Z.add_assoc, div_offset, mod_offset, div_offset by lia. split_and!; [done|done|nia].
Qed.

Definition access (t : Z) : Z := access_y (pos t).2 * W + access_x (pos t).1.

Lemma access_spec t : 0 ≤ t < napp →
  0 ≤ access t < napp ∧ getClusterID T (access t) = getClusterID T t ∧ access (access t) = access t.
Proof.
  intros Ht. destruct (tile_pos t Ht) as (Hx & Hy & _). pose proof nx_pos as [Hnx Hny].
  pose proof HT as [_ _ Hw [Hcw H1] [Hch H2] _ _ [Hsw H3] [Hsh H4] _ _].
  destruct (access_coordinate cw sw snx (pos t).1) as (X1 & X2 & X3); [lia..|].
  destruct (access_coordinate ch sh sny (pos t).2) as (Y1 & Y2 & Y3); [lia..|].
  fold (access_x (pos t).1) in *. fold (access_y (pos t).2) in *.
  pose proof (div_range (pos t).1 cw nx Hcw ltac:(lia)) as Dx. pose proof (div_range (pos t).2 ch ny Hch ltac:(lia)) as Dy.
  assert (access_x (pos t).1 < W).
  { pose proof (Z.div_mod (access_x (pos t).1) cw ltac:(lia)). pose proof (Z.mod_pos_bound (access_x (pos t).1) cw Hcw). nia. }
  assert (access_y (pos t).2 < W).
  { pose proof (Z.div_mod (access_y (pos t).2) ch ltac:(lia)). pose proof (Z.mod_pos_bound (access_y (pos t).2) ch Hch). nia. }
  destruct (pos_tile (access_x (pos t).1) (access_y (pos t).2)) as [Ha Ep]; [lia..|].
  fold (access t) in Ha, Ep. split_and!; [lia|lia|..].
  - rewrite !getClusterID_div by done. rewrite Ep. cbn [fst snd]. by rewrite X1, Y1.
  - unfold access at 1. rewrite Ep. cbn [fst snd]. unfold access_x at 1, access_y at 1. rewrite X1, X2, Y1, Y2. done.
Qed.

Lemma isAccessPoint_spec t : 0 ≤ t < napp → isAccessPoint T t = Ok (t =? access t).
Proof. intros Ht. unfold isAccessPoint. by rewrite access_point. Qed.

(** A step towards a tile of the same cluster stays in the cluster. *)
Lemma between_div c a x b : 0 < c → between a x b → a `div` c = b `div` c → x `div` c = b `div` c.
Proof.
  intros Hc Hb E1. unfold between in Hb.
  pose proof (Z.div_le_mono (Z.min a b) x c Hc ltac:(lia)). pose proof (Z.div_le_mono x (Z.max a b) c Hc ltac:(lia)).
  destruct (Z.min_spec a b) as [[_ E2]|[_ E2]], (Z.max_spec a b) as [[_ E3]|[_ E3]]; rewrite E2, E3 in *; lia.
Qed.

Lemma cluster_div t : 0 ≤ t < napp → ∀ k, getClusterID T t = k → (pos t).1 `div` cw = k `mod` nx ∧ (pos t).2 `div` ch = k `div` nx.
Proof.
  intros Ht k <-. destruct (tile_pos t Ht) as (Hx & Hy & _). rewrite getClusterID_div by done.
  pose proof HT as [_ _ Hw [Hcw H1] [Hch H2] _ _ _ _ _ _].
  pose proof (div_range (pos t).1 cw nx Hcw ltac:(lia)). by rewrite mod_offset, div_offset by lia.
Qed.

Lemma same_cluster_step c x r :
  0 ≤ c < napp → 0 ≤ x < napp → 0 ≤ r < napp → getClusterID T c = getClusterID T r →
  between (pos c).1 (pos x).1 (pos r).1 → between (pos c).2 (pos x).2 (pos r).2 → getClusterID T x = getClusterID T r.
Proof.
  intros Hc Hx Hr E1 B1 B2. destruct (cluster_div c Hc _ E1) as [X1 Y1], (cluster_div r Hr _ eq_refl) as [X2 Y2].
  destruct (to_cluster_width _ _ HT) as [Hcw _], (to_cluster_height _ _ HT) as [Hch _].
  rewrite !(getClusterID_div x), !(getClusterID_div r) by done.
  rewrite (between_div cw _ _ _ Hcw B1), (between_div ch _ _ _ Hch B2) by congruence. done.
Qed.

Lemma enet_dest_xy current cx cy dx dy :
  enet_dest T current cx cy dx dy = xy_dest W W current cx cy dx dy.
Proof. unfold enet_dest, xy_dest, computeTileIDOnENet. by rewrite (to_height _ _ HT). Qed.

Lemma num_hops_dist s r : computeNumHopsOnENet T s r = dist W s r.
Proof.
  unfold computeNumHopsOnENet, computePositionOnENet, dist. by destruct (pos s), (pos r).
Qed.

Lemma cluster_list k : 0 ≤ k < _num_clusters T → getTileIDListInCluster T napp k = Ok (cluster_tiles T k).
Proof.
  intros Hk. unfold getTileIDListInCluster.
  assert (forallb (λ tile, tile <? napp) (cluster_tiles T k) = true) as ->; [|done].
  apply forallb_forall. intros t Ht%list_elem_of_In. apply elem_of_cluster_tiles in Ht; [|done]. apply Z.ltb_lt. lia.
Qed.

Lemma index_in_list t l : t ∈ l → ∃ i, getIndexInList t l = Ok i ∧ 0 ≤ i < zlength l.
Proof.
  intros Ht. unfold getIndexInList. destruct (list_find_elem_of (λ x, t = x) l t Ht eq_refl) as [[i x] Ei].
  rewrite Ei. apply list_find_Some in Ei as (Hi & _ & _). exists (Z.of_nat i). split; [done|].
  apply lookup_lt_Some in Hi. unfold zlength. lia.
Qed.
End geometry.
