(* ===== verification/AtacScheme.v ===== *)
(** * AtacScheme: the optical network as a routing scheme

    The state of the ATAC model of a tile, and the proof that its routing passes
    the goals of a packet on to its hops. *)
From S2P Require Import Prelude Utils Double CacheSet Cache Shmem ThreadManager QueueModels HistoryTree NetPacket NetworkModel MeshModels AtacModel Network NetworkProofs DeliveryProofs MeshProofs AtacProofs.
Import PacketType NetworkModelAtac.

Section atac.
Context {Msg : Type} `{MemoryManager Msg} (cfg : SysConfig.Config) (pow : double → double → double).
Context (T : Topology) (HT : topology_ok (SysConfig.m_application_tiles cfg) T).
Context (lasers : OpticalLinkModel.LaserModes)
        (lasers_ok : OpticalLinkModel.broadcast lasers || OpticalLinkModel.unicast lasers = true).
Abbreviation E := (net_error pow).
Abbreviation napp := (SysConfig.m_application_tiles cfg).
Abbreviation W := (_enet_width T).
Abbreviation SEND := NetPacket.SEND_TILE.
Abbreviation cl := (getClusterID T).
Abbreviation hub := (getTileIDWithOpticalHub T).
Abbreviation networks := (_num_receive_networks_per_cluster T).

(** ** The state of a tile *)

(** An access point has a sixth port, to the hub. *)
Definition ports (t : Z) : Z := if t =? access T t then num_enet_router_ports + 1 else num_enet_router_ports.

Record routers_ok (t : Z) (r : Routers) : Prop := {
  ao_injection : router_ok 1 (_injection_router r);
  ao_enet : router_ok (ports t) (_enet_router r);
  ao_links : zlength (_enet_link_list r) = ports t
}.

Record hub_ok (h : Hub) : Prop := {
  ho_send : router_ok 1 (_send_hub_router h);
  ho_receive : router_ok networks (_receive_hub_router h);
  ho_optical : OpticalLinkModel._laser_modes (_optical_link h) = lasers;
  ho_htree : _receive_net_type T = HTREE → zlength (_htree_link_list h) = networks;
  ho_star : _receive_net_type T = STAR →
    zlength (_star_net_router_list h) = networks ∧ Forall (router_ok (_cluster_size T)) (_star_net_router_list h) ∧
    zlength (_star_net_link_list h) = networks ∧ Forall (λ l, zlength l = _cluster_size T) (_star_net_link_list h)
}.

Definition atac_ok (t : Z) (m : NetworkModelAtac) : Prop :=
  _topology m = T ∧ _laser_modes m = lasers ∧
  (∃ r, _routers m = Some r ∧ routers_ok t r) ∧ (t = hub (cl t) → ∃ h, _hub m = Some h ∧ hub_ok h).

(** ** Operations on the parts *)

Section parts.
Context (t : Z) (m : NetworkModelAtac) (Hm : atac_ok t m).

Lemma atac_routers {A} (op : M Routers A) (Q : A → NetworkModelAtac → Prop) :
  (∀ r, routers_ok t r → runs E op r (λ a r', routers_ok t r' ∧ ∀ m', atac_ok t m' → _model m' = _model m → Q a m')) →
  runs E (in_routers op) m Q.
Proof.
  destruct Hm as (H1 & H2 & (r & Hr & Hok) & H3). intros Hop. unfold runs, in_routers. rewrite Hr.
  specialize (Hop r Hok). unfold runs in Hop. destruct (op r) as [[a r']|e]; [|done]. destruct Hop as [Hr' HQ].
  apply HQ; [|done]. split_and!; [done|done| |done]. by exists r'.
Qed.

Lemma atac_hub {A} (op : M Hub A) (Q : A → NetworkModelAtac → Prop) :
  t = hub (cl t) →
  (∀ h, hub_ok h → runs E op h (λ a h', hub_ok h' ∧ ∀ m', atac_ok t m' → _model m' = _model m → Q a m')) →
  runs E (in_hub op) m Q.
Proof.
  destruct Hm as (H1 & H2 & H3 & H4). intros Ht Hop. destruct (H4 Ht) as (h & Hh & Hok). unfold runs, in_hub. rewrite Hh.
  specialize (Hop h Hok). unfold runs in Hop. destruct (op h) as [[a h']|e]; [|done]. destruct Hop as [Hh' HQ].
  apply HQ; [|done]. split_and!; [done..|]. intros _. by exists h'.
Qed.

(** An operation that keeps [P] of the object it works on, and may be followed
    by anything that holds in every state of the tile. *)
Definition keeps_part {S A} (P : S → Prop) (op : M S A) (Q : A → NetworkModelAtac → Prop) : Prop :=
  ∀ x, P x → runs E op x (λ a x', P x' ∧ ∀ m', atac_ok t m' → _model m' = _model m → Q a m').

Lemma runs_injection {A} (op : M RouterModel.RouterModel A) Q :
  keeps_part (router_ok 1) op Q → runs E (injection_router op) m Q.
Proof.
  intros Hop. apply atac_routers. intros r [H1 H2 H3]. apply runs_zoom. eapply runs_mono; [by apply Hop|].
  cbv beta. intros a x [Hx HQ]. split; [by split|done].
Qed.
Lemma runs_enet {A} (op : M RouterModel.RouterModel A) Q :
  keeps_part (router_ok (ports t)) op Q → runs E (enet_router op) m Q.
Proof.
  intros Hop. apply atac_routers. intros r [H1 H2 H3]. apply runs_zoom. eapply runs_mono; [by apply Hop|].
  cbv beta. intros a x [Hx HQ]. split; [by split|done].
Qed.
Lemma runs_send_hub {A} (op : M RouterModel.RouterModel A) Q :
  t = hub (cl t) → keeps_part (router_ok 1) op Q → runs E (send_hub_router op) m Q.
Proof.
  intros Ht Hop. apply atac_hub; [done|]. intros h [H1 H2 H3 H4 H5]. apply runs_zoom. eapply runs_mono; [by apply Hop|].
  cbv beta. intros a x [Hx HQ]. split; [by split|done].
Qed.
Lemma runs_receive_hub {A} (op : M RouterModel.RouterModel A) Q :
  t = hub (cl t) → keeps_part (router_ok networks) op Q → runs E (receive_hub_router op) m Q.
Proof.
  intros Ht Hop. apply atac_hub; [done|]. intros h [H1 H2 H3 H4 H5]. apply runs_zoom. eapply runs_mono; [by apply Hop|].
  cbv beta. intros a x [Hx HQ]. split; [by split|done].
Qed.
Lemma runs_optical {A} (op : M OpticalLinkModel.OpticalLinkModel A) Q :
  t = hub (cl t) → keeps_part (λ l, OpticalLinkModel._laser_modes l = lasers) op Q → runs E (optical_link op) m Q.
Proof.
  intros Ht Hop. apply atac_hub; [done|]. intros h [H1 H2 H3 H4 H5]. apply runs_zoom. eapply runs_mono; [by apply Hop|].
  cbv beta. intros a x [Hx HQ]. split; [by split|done].
Qed.

Lemma runs_at_index {X A} site i (op : M X A) l (P : X → Prop) (R : A → list X → Prop) :
  0 ≤ i < zlength l → Forall P l →
  (∀ x, P x → runs E op x (λ a x', P x' ∧ ∀ l', zlength l' = zlength l → Forall P l' → R a l')) →
  runs E (at_index site i op) l R.
Proof.
  intros Hi HP Hop. unfold at_index. do 2 run1. unfold id.
  destruct (zlookup_is_Some l i Hi) as [x Ex].
  apply runs_bind, (runs_lift _ _ x); [unfold vget; by rewrite Ex|].
  assert (P x) as Hx. { rewrite zlookup_nat in Ex by lia. by eapply (Forall_lookup_1 P). }
  specialize (Hop x Hx). unfold runs in Hop. apply runs_bind. unfold runs, lift. destruct (op x) as [[a x']|e]; [|done].
  destruct Hop as [Hx' HR]. cbn [fst snd]. apply runs_bind. eapply runs_lift; [by apply vset_in_range|].
  do 3 run1. apply HR; [by rewrite zlength_zinsert|]. unfold zinsert. destruct (0 <=? i); [by apply Forall_insert|done].
Qed.

Lemma runs_enet_link port {A} (op : M ElectricalLinkModel.ElectricalLinkModel A) Q :
  0 ≤ port < ports t → keeps_part (λ _, True) op Q → runs E (enet_link port op) m Q.
Proof.
  intros Hp Hop. apply atac_routers. intros r [H1 H2 H3]. apply runs_zoom.
  apply (runs_at_index _ _ _ _ (λ _, True)); [lia|by apply Forall_true|]. intros x _. eapply runs_mono; [by apply Hop|].
  cbv beta. intros a x' [_ HQ]. split; [done|]. intros l' Hl _. split; [split; cbn; [done|done|lia]|done].
Qed.
Lemma runs_htree_link net {A} (op : M ElectricalLinkModel.ElectricalLinkModel A) Q :
  t = hub (cl t) → _receive_net_type T = HTREE → 0 ≤ net < networks → keeps_part (λ _, True) op Q →
  runs E (htree_link net op) m Q.
Proof.
  intros Ht Hty Hn Hop. apply atac_hub; [done|]. intros h [H1 H2 H3 H4 H5]. apply runs_zoom. specialize (H4 Hty).
  apply (runs_at_index _ _ _ _ (λ _, True)); [lia|by apply Forall_true|]. intros x _. eapply runs_mono; [by apply Hop|].
  cbv beta. intros a x' [_ HQ]. split; [done|]. intros l' Hl _. split; [split; cbn; [done|done|done|lia|done]|done].
Qed.
Lemma runs_star_router net {A} (op : M RouterModel.RouterModel A) Q :
  t = hub (cl t) → _receive_net_type T = STAR → 0 ≤ net < networks → keeps_part (router_ok (_cluster_size T)) op Q →
  runs E (star_net_router net op) m Q.
Proof.
  intros Ht Hty Hn Hop. apply atac_hub; [done|]. intros h [H1 H2 H3 H4 H5]. apply runs_zoom.
  destruct (H5 Hty) as (S1 & S2 & S3 & S4).
  eapply runs_at_index; [lia|exact S2|]. intros x Hx. eapply runs_mono; [by apply Hop|].
  cbv beta. intros a x' [Hx' HQ]. split; [done|]. intros l' Hl HF. split; [|done].
  split; cbn; [done|done|done|done|]. intros _. split_and!; [lia|done..].
Qed.
Lemma runs_star_link net i {A} (op : M ElectricalLinkModel.ElectricalLinkModel A) Q :
  t = hub (cl t) → _receive_net_type T = STAR → 0 ≤ net < networks → 0 ≤ i < _cluster_size T → keeps_part (λ _, True) op Q →
  runs E (star_net_link net i op) m Q.
Proof.
  intros Ht Hty Hn Hi Hop. apply atac_hub; [done|]. intros h [H1 H2 H3 H4 H5]. apply runs_zoom.
  destruct (H5 Hty) as (S1 & S2 & S3 & S4).
  eapply runs_at_index; [lia|exact S4|]. intros l Hl. cbv beta in Hl. apply (runs_at_index _ _ _ _ (λ _, True)); [lia|by apply Forall_true|].
  intros x _. eapply runs_mono; [by apply Hop|].
  cbv beta. intros a x' [_ HQ]. split; [done|]. intros l' Hl' _. split; [lia|]. intros ls Hls HF. split; [|done].
  split; cbn; [done|done|done|done|]. intros _. split_and!; [done..|lia|done].
Qed.
End parts.

(** ** The scheme *)

Abbreviation route := (computeGlobalRoute T).
Abbreviation BROADCAST := NetPacket.BROADCAST.

Definition receive_hub_cost (r : Z) : nat := if r =? BROADCAST then Z.to_nat (_cluster_size T + 1) else 2.
Definition send_hub_cost (r : Z) : nat :=
  if r =? BROADCAST then (Z.to_nat (_num_clusters T) * Z.to_nat (_cluster_size T + 1) + 1)%nat else 3.
Definition enet_cost (t s r : Z) : nat :=
  match route s r with
  | GLOBAL_ENET => Z.to_nat (dist W t r + 2)
  | GLOBAL_ONET => (Z.to_nat (dist W t (access T s) + 1) + send_hub_cost r)%nat
  end.
Definition atac_cost (t node s r : Z) : nat :=
  if node =? SEND then (enet_cost s s r + 1)%nat
  else if node =? SEND_HUB then send_hub_cost r
  else if node =? RECEIVE_HUB then receive_hub_cost r
  else enet_cost t s r.
Definition atac_goals (t node s r : Z) : list Z :=
  if r =? BROADCAST then if node =? RECEIVE_HUB then cluster_tiles T (cl t) else seqZ 0 napp else [r].
Definition atac_valid (t node s r : Z) : Prop :=
  node = SEND ∧ t = s ∨
  node = EMESH ∧ (route s r = GLOBAL_ONET → cl t = cl s) ∨
  node = SEND_HUB ∧ route s r = GLOBAL_ONET ∧ t = hub (cl s) ∨
  node = RECEIVE_HUB ∧ route s r = GLOBAL_ONET ∧ t = hub (cl t) ∧ (r = BROADCAST ∨ cl r = cl t).

Lemma clusters_count : 0 < _num_clusters T ∧ 0 < _cluster_size T ∧ _num_clusters T * _cluster_size T = napp.
Proof.
  pose proof (nx_pos _ _ HT) as [Hx Hy]. pose proof HT as [_ Ht Hw [Hcw H1] [Hch H2] Hn Hc _ _ _ _].
  rewrite Ht, Hn, Hc. rewrite H1 at 1. rewrite H2. nia.
Qed.

Lemma atac_bound t node s r :
  app_tile cfg t → routed cfg s r → (atac_cost t node s r <= Z.to_nat (7 * napp + 8))%nat.
Proof.
  intros Ht [Hs Hr]. unfold app_tile in *. pose proof clusters_count as (Hnc & Hcs & Hprod).
  pose proof (to_width_pos _ _ HT) as Hw. pose proof (to_tiles _ _ HT) as Etiles.
  assert (_num_clusters T ≤ napp) as Hle by nia.
  assert (send_hub_cost r <= Z.to_nat (2 * napp + 3))%nat as Hsend.
  { unfold send_hub_cost. destruct (r =? BROADCAST); [|lia]. rewrite <- Z2Nat.inj_mul by lia. lia. }
  assert (receive_hub_cost r <= Z.to_nat (2 * napp + 3))%nat by (unfold receive_hub_cost; destruct (r =? BROADCAST); nia).
  assert (∀ a b, 0 ≤ a < napp → 0 ≤ b < napp → dist W a b < napp) as Hdist.
  { intros a b Ha Hb. rewrite Etiles in *. by apply (dist_bound W W). }
  destruct (access_spec _ _ HT s Hs) as [Hacc _].
  assert (∀ a, 0 ≤ a < napp → (enet_cost a s r <= Z.to_nat (3 * napp + 6))%nat) as Henet.
  { intros a Ha. unfold enet_cost. destruct (route s r) eqn:Er.
    - destruct Hr as [->|[Hr _]]; [by unfold computeGlobalRoute in Er; rewrite Z.eqb_refl in Er|].
      specialize (Hdist a r Ha Hr). lia.
    - specialize (Hdist a (access T s) Ha Hacc). lia. }
  pose proof (Henet s Hs). pose proof (Henet t Ht). unfold atac_cost.
  destruct (node =? SEND), (node =? SEND_HUB), (node =? RECEIVE_HUB); lia.
Qed.

Lemma atac_positive t node s r : (1 <= atac_cost t node s r)%nat.
Proof.
  pose proof clusters_count as (Hnc & Hcs & Hprod).
  assert (1 <= receive_hub_cost r)%nat by (unfold receive_hub_cost; destruct (r =? BROADCAST); lia).
  assert (1 <= send_hub_cost r)%nat by (unfold send_hub_cost; destruct (r =? BROADCAST); lia).
  assert (∀ a, 1 <= enet_cost a s r)%nat.
  { intros a. unfold enet_cost. pose proof (dist_nonneg W a r). destruct (route s r); lia. }
  unfold atac_cost. destruct (node =? SEND), (node =? SEND_HUB), (node =? RECEIVE_HUB); auto; lia.
Qed.

(** ** Routing at a tile *)

Section route.
Context (t : Z) (m : NetworkModelAtac) (pkt : NetPacket Msg).
Abbreviation s := (tile_id (NetPacket.sender pkt)).
Abbreviation r := (tile_id (NetPacket.receiver pkt)).
Context (Ht : 0 ≤ t < napp) (Hs : sendable cfg pkt) (Hr : routed cfg s r).
Context (Hb : base_ok (g_type_to_static_network_map (NetPacket.type pkt)) t (_model m)) (Hm : atac_ok t m).

Definition atac_routes (hops : list Hop.Hop) : Prop :=
  Forall (hop_ok cfg atac_valid s r) hops ∧
  concat (hop_goals atac_goals s r <$> hops) ≡ₚ atac_goals t (NetPacket.node_type pkt) s r ∧
  (sum_list (hop_cost atac_cost s r <$> hops) < atac_cost t (NetPacket.node_type pkt) s r)%nat.
Definition atac_post (hops : list Hop.Hop) (m' : NetworkModelAtac) : Prop :=
  atac_ok t m' ∧ _model m' = _model m ∧ atac_routes hops.

Lemma sender_app : 0 ≤ s < napp.
Proof. by destruct Hr. Qed.

(** One hop. *)
Lemma one_hop_routes x node z c :
  0 ≤ x < napp → node ≠ SEND → node ≠ NetPacket.RECEIVE_TILE → atac_valid x node s r →
  atac_goals x node s r ≡ₚ atac_goals t (NetPacket.node_type pkt) s r →
  (atac_cost x node s r < atac_cost t (NetPacket.node_type pkt) s r)%nat →
  atac_routes [Hop.make pkt x node z c].
Proof.
  intros Hx H1 H2 Hv Hg Hc. split_and!.
  - apply Forall_singleton. split; [done|]. split; [done|]. cbn. by rewrite (proj2 (Z.eqb_neq _ _) H2).
  - cbn. rewrite app_nil_r. unfold hop_goals, goals_at. cbn. by rewrite (proj2 (Z.eqb_neq _ _) H2).
  - cbn [fmap list_fmap]. rewrite sum_list_singleton. unfold hop_cost, cost_at. cbn.
    by rewrite (proj2 (Z.eqb_neq _ _) H2).
Qed.

(** The last hop of a unicast. *)
Lemma deliver_routes z c :
  r ≠ BROADCAST → app_tile cfg r →
  (1 < atac_cost t (NetPacket.node_type pkt) s r)%nat → atac_routes [Hop.make pkt r NetPacket.RECEIVE_TILE z c].
Proof.
  intros Hbr Happ Hc. split_and!.
  - apply Forall_singleton. split; [done|]. split; [done|]. cbn. auto.
  - cbn. unfold atac_goals. by rewrite (proj2 (Z.eqb_neq _ _) Hbr).
  - cbn [fmap list_fmap]. by rewrite sum_list_singleton.
Qed.

Lemma atac_injection :
  NetPacket.node_type pkt = SEND → t = s → runs E (NetworkModelAtac.routePacket cfg pow pkt) m atac_post.
Proof.
  intros Hn Hts. unfold routePacket. do 2 run1. unfold id. rewrite Hn, Z.eqb_refl, (base_tile _ _ _ Hb).
  apply runs_bind, runs_assert; [by apply Z.eqb_eq|]. apply runs_bind, (runs_injection t m Hm). intros rt Hrt.
  eapply runs_mono; [eapply (router_spec cfg pow t); [done|done|exact Hrt|lia]|].
  cbv beta. intros d rt' Hrt'. split; [done|]. intros m' Hm' Em'. run1. split_and!; [done|done|].
  apply one_hop_routes; [done|done|done| |..].
  - right. left. split; [done|]. by rewrite Hts.
  - rewrite Hn. done.
  - rewrite Hn. unfold atac_cost. change (EMESH =? SEND) with false. change (EMESH =? SEND_HUB) with false.
    change (EMESH =? RECEIVE_HUB) with false. rewrite Z.eqb_refl, Hts. lia.
Qed.

(** *** On the mesh *)

Lemma ports_range p : 0 ≤ p < num_enet_router_ports → 0 ≤ p < ports t.
Proof. unfold ports. destruct (t =? _); unfold num_enet_router_ports in *; lia. Qed.

Lemma enet_route d : 0 ≤ d < napp →
  runs E (routePacketOnENet cfg pow pkt d) m (λ hops m', atac_ok t m' ∧ _model m' = _model m ∧ ∃ z c,
    (t = d ∧ hops = [Hop.make pkt t NetPacket.RECEIVE_TILE z c]) ∨
    (∃ x, hops = [Hop.make pkt x EMESH z c] ∧ 0 ≤ x < napp ∧ dist W x d = dist W t d - 1 ∧ 0 < dist W t d ∧
          (cl t = cl d → cl x = cl d))).
Proof.
  intros Hd. unfold routePacketOnENet. do 2 run1. unfold id. rewrite (base_tile _ _ _ Hb).
  pose proof Hm as (ET & _ & _ & _). rewrite ET. apply runs_bind, runs_assert.
  { apply negb_true_iff, Z.eqb_neq. pose proof BROADCAST_neg. lia. }
  pose proof (to_tiles _ _ HT) as Etiles.
  pose proof (xy_step W W (to_width_pos _ _ HT) t d ltac:(lia) ltac:(lia)) as Hstep.
  pose proof (same_cluster_step _ _ HT t) as Hsame. unfold computePositionOnENet.
  destruct (Mesh.computePosition W t) as [cx cy] eqn:Ec, (Mesh.computePosition W d) as [dx dy] eqn:Ed.
  cbn [fst snd] in Hstep, Hsame. rewrite (enet_dest_xy _ _ HT). set (dest := xy_dest W W t cx cy dx dy) in *.
  destruct Hstep as (Hport & Htile & Hcase). rewrite <- Etiles in Htile.
  apply runs_bind, (atac_routers t m Hm). intros rs Hrs. apply runs_gets. split; [done|]. intros m0 Hm0 Em0.
  apply runs_bind, runs_assert.
  { rewrite (ao_links _ _ Hrs). pose proof (ports_range _ Hport). apply andb_true_iff. rewrite Z.leb_le, Z.ltb_lt. lia. }
  apply runs_bind, (runs_enet t m0 Hm0). intros rt Hrt. eapply runs_mono.
  { eapply (router_spec cfg pow t); [done|done|exact Hrt|by apply ports_range]. }
  cbv beta. intros dl rt' Hrt'. split; [done|]. intros m1 Hm1 Em1.
  apply runs_bind, (runs_enet_link t m1 Hm1); [by apply ports_range|]. intros lk _.
  eapply (elink_spec cfg pow t); [done|done|]. intros z _. split; [done|]. intros m2 Hm2 Em2.
  run1. split_and!; [done|congruence|]. exists z, dl.2. destruct Hcase as [(E1 & E2 & E3)|(E1 & E2 & E3 & B1 & B2)].
  - left. rewrite E2, E3. done.
  - right. exists (NetworkModelEMeshHopByHop._tile_id dest). rewrite E1. split_and!; [done|lia|lia|done|done|].
    intros Ecl. apply (Hsame _ d); [done|done|done|done| |]; by rewrite Ed.
Qed.

Lemma onet_not_enet : route s r = GLOBAL_ENET → r ≠ BROADCAST.
Proof. intros Er Hbr. unfold computeGlobalRoute in Er. by rewrite Hbr, (Z.eqb_refl BROADCAST) in Er. Qed.

Lemma enet_cost_EMESH x : atac_cost x EMESH s r = enet_cost x s r.
Proof. done. Qed.

Lemma atac_enet :
  NetPacket.node_type pkt = EMESH → route s r = GLOBAL_ENET → runs E (routePacketOnENet cfg pow pkt r) m atac_post.
Proof.
  intros Hn Er. pose proof (onet_not_enet Er) as Hbr. destruct Hr as [_ [?|[Happ _]]]; [done|].
  eapply runs_mono; [by apply enet_route|]. cbv beta. intros hops m' (Hm' & Em' & z & c & Hcase). split_and!; [done|done|].
  pose proof (dist_nonneg W t r). destruct Hcase as [[E1 ->]|(x & -> & Hx & Hdx & Hpos & _)].
  - rewrite E1. apply deliver_routes; [done|done|]. rewrite Hn, enet_cost_EMESH. unfold enet_cost. rewrite Er. lia.
  - apply one_hop_routes; [done|done|done| |..].
    + right. left. split; [done|]. intros E2. by rewrite E2 in Er.
    + unfold atac_goals. by rewrite (proj2 (Z.eqb_neq _ _) Hbr).
    + rewrite Hn, !enet_cost_EMESH. unfold enet_cost. rewrite Er. lia.
Qed.

(** *** To the hub of the own cluster *)

Lemma emesh_goals_eq x node : node ≠ RECEIVE_HUB → atac_goals x node s r = atac_goals t EMESH s r.
Proof. intros Hn. unfold atac_goals. by rewrite (proj2 (Z.eqb_neq _ _) Hn). Qed.

Lemma atac_to_hub :
  NetPacket.node_type pkt = EMESH → route s r = GLOBAL_ONET → cl t = cl s →
  runs E (routePacketOnONet cfg pow pkt s r) m atac_post.
Proof.
  intros Hn Er Ecl. unfold routePacketOnONet. do 2 run1. unfold id. rewrite Hn.
  change (EMESH =? EMESH) with true. cbv iota. rewrite (base_tile _ _ _ Hb).
  pose proof Hm as (ET & _ & _ & _). rewrite ET. apply runs_bind, runs_assert; [by apply Z.eqb_eq|].
  apply runs_bind. eapply runs_lift; [by apply (isAccessPoint_spec _ _ HT)|].
  destruct (access_spec _ _ HT s sender_app) as (Hacc & Eacc & Eidem).
  destruct (t =? access T t) eqn:Eap; breflect.
  - assert (0 ≤ num_enet_router_ports < ports t) as Hp.
    { unfold ports. rewrite (proj2 (Z.eqb_eq _ _) Eap). unfold num_enet_router_ports. lia. }
    apply runs_bind, (runs_enet t m Hm). intros rt Hrt. eapply runs_mono.
    { eapply (router_spec cfg pow t); [done|done|exact Hrt|done]. }
    cbv beta. intros dl rt' Hrt'. split; [done|]. intros m1 Hm1 Em1.
    apply runs_bind, (runs_enet_link t m1 Hm1); [done|]. intros lk _.
    eapply (elink_spec cfg pow t); [done|done|]. intros z _. split; [done|]. intros m2 Hm2 Em2.
    run1. split_and!; [done|congruence|].
    destruct (hub_spec _ _ HT (cl t) (cluster_range _ _ HT t Ht)) as [Hh1 Hh2].
    apply one_hop_routes; [done|done|done| |..].
    + right. right. left. by rewrite Ecl.
    + rewrite Hn. by rewrite emesh_goals_eq.
    + rewrite Hn, enet_cost_EMESH. unfold enet_cost. rewrite Er. unfold atac_cost.
      change (SEND_HUB =? SEND) with false. change (SEND_HUB =? SEND_HUB) with true. cbv iota.
      pose proof (dist_nonneg W t (access T s)). lia.
  - apply runs_bind. eapply runs_lift; [apply (access_point _ _ HT s sender_app)|]. fold (access T s).
    eapply runs_mono; [by apply enet_route|]. cbv beta. intros hops m' (Hm' & Em' & z & c & Hcase). split_and!; [done|done|].
    pose proof (dist_nonneg W t (access T s)). destruct Hcase as [[E1 ->]|(x & -> & Hx & Hdx & Hpos & Hcl)].
    + destruct Eap. rewrite E1. by rewrite Eidem.
    + apply one_hop_routes; [done|done|done| |..].
      * right. left. split; [done|]. intros _. rewrite Hcl; [done|]. congruence.
      * rewrite Hn. by rewrite emesh_goals_eq.
      * rewrite Hn, !enet_cost_EMESH. unfold enet_cost. rewrite Er. lia.
Qed.

(** *** From the hub to the hubs of the receivers *)

Lemma hubs_routes hops :
  NetPacket.node_type pkt = SEND_HUB → r = BROADCAST → route s r = GLOBAL_ONET →
  Forall2 (λ i h, ∃ z c, h = Hop.make pkt (hub i) RECEIVE_HUB z c) (seqZ 0 (_num_clusters T)) hops →
  atac_routes hops.
Proof.
  intros Hn Hbr Er HF. pose proof clusters_count as (Hnc & Hcs & _).
  assert (∀ l hs, Forall (λ k, 0 ≤ k < _num_clusters T) l →
    Forall2 (λ i h, ∃ z c, h = Hop.make pkt (hub i) RECEIVE_HUB z c) l hs →
    Forall (hop_ok cfg atac_valid s r) hs ∧ concat (hop_goals atac_goals s r <$> hs) = (l ≫= cluster_tiles T) ∧
    sum_list (hop_cost atac_cost s r <$> hs) = (length l * Z.to_nat (_cluster_size T + 1))%nat) as Hind.
  { intros l hs Hl HF2. induction HF2 as [|i h l hs (z & c & ->) HF2 IH]; [done|].
    apply Forall_cons in Hl as [Hi Hl]. destruct (IH Hl) as (I1 & I2 & I3).
    destruct (hub_spec _ _ HT i Hi) as [H1 H2].
    split_and!.
    - apply Forall_cons. split; [|done]. split; [done|]. split; [done|]. cbn. right. right. right.
      split_and!; [done|done|by rewrite H2|by left].
    - cbn [fmap list_fmap concat mbind list_bind]. rewrite I2. f_equal.
      unfold hop_goals, goals_at, atac_goals. rewrite Hbr, (Z.eqb_refl BROADCAST).
      change (cluster_tiles T (cl (hub i)) = cluster_tiles T i). by rewrite H2.
    - cbn [fmap list_fmap sum_list sum_list_with length]. unfold id. change (sum_list_with (λ x, x)) with sum_list. rewrite I3.
      unfold hop_cost, cost_at, atac_cost, receive_hub_cost. rewrite Hbr, (Z.eqb_refl BROADCAST). reflexivity. }
  destruct (Hind (seqZ 0 (_num_clusters T)) hops) as (I1 & I2 & I3).
  { apply Forall_forall. intros k ?%elem_of_seqZ. lia. }
  { done. }
  unfold atac_routes. rewrite Hn, I2, I3. split_and!; [done|..].
  - rewrite (clusters_partition _ _ HT). unfold atac_goals. by rewrite Hbr, (Z.eqb_refl BROADCAST).
  - rewrite length_seqZ. unfold atac_cost, send_hub_cost. rewrite Hbr, (Z.eqb_refl BROADCAST).
    change (SEND_HUB =? SEND) with false. change (SEND_HUB =? SEND_HUB) with true. cbv iota. lia.
Qed.

(** The send hub and the optical link, for one receiver or for all. *)
Lemma send_spec m0 e {A} (k : Z → Z → M NetworkModelAtac A) (Q : A → NetworkModelAtac → Prop) :
  atac_ok t m0 → t = hub (cl t) → e = 1 ∨ e = OpticalLinkModel.ENDPOINT_ALL ∧ OpticalLinkModel.broadcast lasers = true →
  (∀ z c m', atac_ok t m' → _model m' = _model m0 → runs E (k z c) m' Q) →
  runs E (d ← send_hub_router (RouterModel.processPacket cfg pow (_model m) pkt 0 0 0) ;
          z ← optical_link (OpticalLinkModel.processPacket cfg (_model m) pkt e d.1) ; k z d.2) m0 Q.
Proof.
  intros Hm0 Hhub He Hk. apply runs_bind, (runs_send_hub t m0 Hm0); [done|]. intros rt Hrt.
  eapply runs_mono; [eapply (router_spec cfg pow t); [done|done|exact Hrt|lia]|].
  cbv beta. intros d rt' Hrt'. split; [done|]. intros m1 Hm1 Em1.
  apply runs_bind, (runs_optical t m1 Hm1); [done|]. intros l Hl.
  eapply (optical_spec cfg pow t); [done|done|by rewrite Hl|]. intros z l' El'. split; [congruence|].
  intros m2 Hm2 Em2. apply Hk; [done|congruence].
Qed.

Lemma send_to_clusters_spec : ∀ l m0, atac_ok t m0 → t = hub (cl t) →
  runs E (send_to_clusters cfg pow (_model m) T pkt l) m0 (λ hops m', atac_ok t m' ∧ _model m' = _model m0 ∧
    Forall2 (λ i h, ∃ z c, h = Hop.make pkt (hub i) RECEIVE_HUB z c) l hops).
Proof.
  induction l as [|i l IH]; intros m0 Hm0 Hhub; [by apply runs_ret|]. cbn [send_to_clusters].
  apply (send_spec m0 1 (λ z c, hops ← send_to_clusters cfg pow (_model m) T pkt l ;
    mret (Hop.make pkt (hub i) RECEIVE_HUB z c :: hops))); [done|done|by left|].
  intros z c m' Hm' Em'. apply runs_bind. eapply runs_mono; [by apply IH|]. cbv beta. intros hops m2 (? & ? & ?).
  run1. split_and!; [done|congruence|]. constructor; [by exists z, c|done].
Qed.

Lemma atac_send_hub :
  NetPacket.node_type pkt = SEND_HUB → route s r = GLOBAL_ONET → t = hub (cl s) →
  runs E (routePacketFromSendHub cfg pow pkt r) m atac_post.
Proof.
  intros Hn Er Hts. unfold routePacketFromSendHub. do 2 run1. unfold id.
  pose proof Hm as (ET & EL & _ & _). rewrite ET, EL.
  assert (t = hub (cl t)) as Hhub.
  { destruct (hub_spec _ _ HT (cl s) (cluster_range _ _ HT s sender_app)) as [_ E2]. rewrite Hts at 2. by rewrite E2. }
  destruct (r =? BROADCAST) eqn:Ebr; breflect.
  - destruct (OpticalLinkModel.broadcast lasers) eqn:El.
    + apply (send_spec m OpticalLinkModel.ENDPOINT_ALL (λ z c,
        mret ((λ i, Hop.make pkt (hub i) RECEIVE_HUB z c) <$> seqZ 0 (_num_clusters T)))); [done|done|by right|].
      intros z c m' Hm' Em'. run1. split_and!; [done|done|]. apply hubs_routes; [done|done|done|].
      apply Forall2_fmap_r, Forall_Forall2_diag, Forall_forall. intros i _. by exists z, c.
    + cbn in lasers_ok. rewrite lasers_ok. eapply runs_mono; [by apply send_to_clusters_spec|].
      cbv beta. intros hops m' (? & ? & ?). split_and!; [done|done|]. by apply hubs_routes.
  - apply (send_spec m 1 (λ z c, mret [Hop.make pkt (hub (cl r)) RECEIVE_HUB z c])); [done|done|by left|].
    intros z c m' Hm' Em'. run1. split_and!; [done|done|]. destruct Hr as [_ [?|[Happ _]]]; [done|].
    destruct (hub_spec _ _ HT (cl r) (cluster_range _ _ HT r Happ)) as [H1 H2].
    apply one_hop_routes; [done|done|done| |..].
    + right. right. right. split_and!; [done|done|by rewrite H2|]. right. by rewrite H2.
    + unfold atac_goals. by rewrite (proj2 (Z.eqb_neq _ _) Ebr).
    + rewrite Hn. unfold atac_cost, receive_hub_cost, send_hub_cost. rewrite (proj2 (Z.eqb_neq _ _) Ebr). cbn. lia.
Qed.

(** *** From the hub to the receivers *)

Lemma star_link_delays_spec net : _receive_net_type T = STAR → 0 ≤ net < networks → t = hub (cl t) →
  ∀ l d m0, atac_ok t m0 → Forall (λ i, 0 ≤ i < _cluster_size T) l →
  runs E (star_link_delays cfg (_model m) pkt net l d) m0 (λ _ m', atac_ok t m' ∧ _model m' = _model m0).
Proof.
  intros Hty Hnet Hhub. induction l as [|i l IH]; intros d m0 Hm0 Hl; [by apply runs_ret|].
  apply Forall_cons in Hl as [Hi Hl]. cbn [star_link_delays].
  apply runs_bind, (runs_star_link t m0 Hm0); [done..|]. intros lk _.
  eapply (elink_spec cfg pow t); [done|done|]. intros z _. split; [done|]. intros m1 Hm1 Em1.
  eapply runs_mono; [by apply IH|]. cbv beta. intros _ m2 [? ?]. split; [done|congruence].
Qed.

Lemma receive_net_range : 0 ≤ computeReceiveNetID T s < networks.
Proof.
  unfold computeReceiveNetID. pose proof (cluster_range _ _ HT s sender_app). pose proof (to_networks _ _ HT).
  rewrite Z.rem_mod_nonneg by lia. apply Z.mod_pos_bound. lia.
Qed.

Lemma cluster_routes z c :
  NetPacket.node_type pkt = RECEIVE_HUB → r = BROADCAST →
  atac_routes ((λ tile, Hop.make pkt tile NetPacket.RECEIVE_TILE z c) <$> cluster_tiles T (cl t)).
Proof.
  intros Hn Hbr. pose proof (length_cluster_tiles _ _ HT (cl t) (cluster_range _ _ HT t Ht)) as Hlen.
  assert (∀ l, Forall (λ x, 0 ≤ x < napp) l →
    let hs := (λ tile, Hop.make pkt tile NetPacket.RECEIVE_TILE z c) <$> l in
    Forall (hop_ok cfg atac_valid s r) hs ∧ concat (hop_goals atac_goals s r <$> hs) = l ∧
    sum_list (hop_cost atac_cost s r <$> hs) = length l) as Hind.
  { intros l Hl. induction Hl as [|x l Hx Hl (I1 & I2 & I3)]; [done|]. cbn. rewrite I2. unfold id.
    change (sum_list_with (λ x, x)) with sum_list. rewrite I3. split_and!; [|done|done].
    apply Forall_cons. split; [|done]. split; [done|]. split; [done|]. cbn. auto. }
  destruct (Hind (cluster_tiles T (cl t))) as (I1 & I2 & I3).
  { apply Forall_forall. intros x Hx. apply (elem_of_cluster_tiles _ _ HT) in Hx; [by destruct Hx|by apply (cluster_range _ _ HT)]. }
  unfold atac_routes. rewrite Hn, I2, I3. split_and!; [done|..].
  - unfold atac_goals. by rewrite Hbr, (Z.eqb_refl BROADCAST).
  - unfold atac_cost, receive_hub_cost. rewrite Hbr, (Z.eqb_refl BROADCAST). unfold zlength in Hlen.
    change (length (cluster_tiles T (cl t)) < Z.to_nat (_cluster_size T + 1))%nat. lia.
Qed.

Lemma atac_receive_hub :
  NetPacket.node_type pkt = RECEIVE_HUB → t = hub (cl t) → (r = BROADCAST ∨ cl r = cl t) →
  runs E (routePacketFromReceiveHub cfg pow pkt s r) m atac_post.
Proof.
  intros Hn Hhub Hrt. unfold routePacketFromReceiveHub. do 2 run1. unfold id. rewrite (base_tile _ _ _ Hb).
  pose proof Hm as (ET & _ & _ & _). rewrite ET. pose proof (cluster_range _ _ HT t Ht) as Hk.
  apply runs_bind. eapply runs_lift; [by apply (cluster_list _ _ HT)|].
  pose proof (length_cluster_tiles _ _ HT (cl t) Hk) as Hlen.
  apply runs_bind, runs_assert; [apply Z.eqb_eq; done|]. pose proof receive_net_range as Hnet. pose proof clusters_count as (_ & Hcs & _).
  apply runs_bind, (runs_receive_hub t m Hm); [done|]. intros rt Hrt'.
  eapply runs_mono; [eapply (router_spec cfg pow t); [done|done|exact Hrt'|done]|].
  cbv beta. intros d rt2 Hrt2. split; [done|]. intros m1 Hm1 Em1.
  apply runs_bind, (runs_mono _ _ _ (λ _ m', atac_ok t m' ∧ _model m' = _model m)).
  - destruct (_receive_net_type T) eqn:Ety.
    + apply runs_bind, (runs_htree_link t m1 Hm1); [done..|]. intros lk _.
      eapply (elink_spec cfg pow t); [done|done|]. intros z _. split; [done|]. intros m2 Hm2 Em2. run1. split; [done|congruence].
    + destruct (r =? BROADCAST) eqn:Ebr; breflect.
      * apply runs_bind, (runs_star_router t m1 Hm1); [done..|]. intros r1 Hr1.
        eapply runs_mono; [eapply (router_all_spec cfg pow t); [done|done|exact Hr1|lia]|].
        cbv beta. intros d2 r2 Hr2. split; [done|]. intros m2 Hm2 Em2. apply runs_bind.
        eapply runs_mono; [apply star_link_delays_spec; [done|done|done|done|]|].
        { apply Forall_forall. intros i ?%elem_of_seqZ. lia. }
        cbv beta. intros mx m3 [Hm3 Em3]. run1. split; [done|congruence].
      * destruct Hrt as [?|Ecl]; [done|]. destruct Hr as [_ [?|[Happ _]]]; [done|].
        destruct (index_in_list r (cluster_tiles T (cl t))) as (i & Ei & Hi).
        { apply (elem_of_cluster_tiles _ _ HT); [done|]. by split. }
        apply runs_bind, (runs_lift _ _ i); [done|]. apply runs_bind, runs_assert.
        { apply andb_true_iff. rewrite Z.geb_leb, Z.leb_le, Z.ltb_lt. lia. }
        apply runs_bind, (runs_star_router t m1 Hm1); [done..|]. intros r1 Hr1.
        eapply runs_mono; [eapply (router_spec cfg pow t); [done|done|exact Hr1|lia]|].
        cbv beta. intros d2 r2 Hr2. split; [done|]. intros m2 Hm2 Em2.
        apply runs_bind, (runs_star_link t m2 Hm2); [done|done|done|lia|]. intros lk _.
        eapply (elink_spec cfg pow t); [done|done|]. intros z _. split; [done|]. intros m3 Hm3 Em3. run1. split; [done|congruence].
  - intros d2 m2 [Hm2 Em2]. destruct (r =? BROADCAST) eqn:Ebr; breflect; run1; (split_and!; [done|done|]).
    + by apply cluster_routes.
    + destruct Hr as [_ [?|[Happ _]]]; [done|]. apply deliver_routes; [done|done|].
      rewrite Hn. unfold atac_cost, receive_hub_cost. rewrite (proj2 (Z.eqb_neq _ _) Ebr). cbn. lia.
Qed.
End route.

Lemma atac_route_spec t m (pkt : NetPacket Msg) :
  0 ≤ t < napp → sendable cfg pkt → routed cfg (tile_id (NetPacket.sender pkt)) (tile_id (NetPacket.receiver pkt)) →
  base_ok (g_type_to_static_network_map (NetPacket.type pkt)) t (_model m) → atac_ok t m →
  atac_valid t (NetPacket.node_type pkt) (tile_id (NetPacket.sender pkt)) (tile_id (NetPacket.receiver pkt)) →
  runs E (NetworkModelAtac.routePacket cfg pow pkt) m (atac_post t m pkt).
Proof.
  intros Ht Hs Hr Hb Hm Hv. pose proof Hm as (ET & _ & _ & _).
  destruct Hv as [[Hn Hts]|[[Hn Hcl]|[(Hn & Er & Hts)|(Hn & Er & Hts & Hrt)]]]; [by apply atac_injection|..];
    (unfold NetworkModelAtac.routePacket; do 2 run1; unfold id; rewrite ET, Hn).
  - change (EMESH =? SEND) with false. cbv iota. destruct (route _ _) eqn:Er; [by apply atac_enet|by apply atac_to_hub; auto].
  - change (SEND_HUB =? SEND) with false. cbv iota. rewrite Er. unfold routePacketOnONet. do 2 run1. rewrite Hn.
    by apply atac_send_hub.
  - change (RECEIVE_HUB =? SEND) with false. cbv iota. rewrite Er. unfold routePacketOnONet. do 2 run1. rewrite Hn.
    by apply atac_receive_hub.
Qed.

#[program] Definition atac_scheme : Scheme cfg pow := {|
  sc_broadcast := true;
  sc_ok t m := ∃ m', m = Model.Atac m' ∧ atac_ok t m';
  sc_valid := atac_valid;
  sc_goals := atac_goals;
  sc_cost := atac_cost
|}.
Next Obligation. intros t m b (m' & -> & Hm). cbn. by eexists. Qed.
Next Obligation. intros s r Hr _. split; [by left|]. unfold atac_goals. by destruct (r =? _). Qed.
Next Obligation. intros t node s r Ht Hr _. by apply atac_bound. Qed.
Next Obligation. intros t node s r _. apply atac_positive. Qed.
Next Obligation.
  intros t m pkt Ht Hs s r Hr Hb (m' & -> & Hm) Hv. cbn in Hb. eapply runs_inj; [reflexivity|].
  eapply runs_mono; [by apply (atac_route_spec t m')|]. cbv beta. intros hops m2 (Hm2 & Em2 & H1 & H2 & H3).
  split_and!; [by eexists|done|done|done|done].
Qed.
End atac.
