(* ===== verification/NetworkInit.v ===== *)
(** * NetworkInit: the networks the constructors build

    The constructors of the network models establish the states the routing
    schemes start from, whatever the configuration, as soon as they succeed. *)
From S2P Require Import Prelude Utils Double CacheSet Cache Shmem ThreadManager QueueModels HistoryTree NetPacket NetworkModel MeshModels AtacModel Network NetworkProofs DeliveryProofs MeshProofs AtacProofs AtacScheme.
Import PacketType.

(** ** Square roots *)

(** Not negative: zero, or a positive sign. *)
Definition nonneg (x : double) : Prop :=
  match x with S754_finite s _ _ => s = false | S754_zero _ => True | S754_infinity s => s = false | S754_nan => True end.

Lemma round_aux_nonneg prec emax mx ex lx : nonneg (binary_round_aux prec emax false mx ex lx).
Proof.
  unfold binary_round_aux. destruct (shr_fexp _ _ mx ex lx) as [mrs e]. destruct (shr_fexp _ _ _ e _) as [mrs' e'].
  destruct (shr_m mrs'); [done| |done]. by destruct (_ <=? _).
Qed.
Lemma normalize_nonneg prec emax m e : 0 ≤ m → nonneg (binary_normalize prec emax m e false).
Proof.
  intros Hm. unfold binary_normalize. destruct m as [|m|m]; [done| |lia].
  unfold binary_round. match goal with |- context [let '(_, _) := ?q in _] => destruct q as [mz ez] end. apply round_aux_nonneg.
Qed.
Lemma sqrt_nonneg x : nonneg (dsqrt x).
Proof.
  unfold dsqrt, SFsqrt. destruct x as [s|s| |s m e]; [done|by destruct s|done|]. destruct s; [done|].
  match goal with |- context [let '(_, _) := ?q in _] => destruct q as [[mz ez] lz] end. apply round_aux_nonneg.
Qed.
Lemma floor_nonneg x : nonneg x → nonneg (dfloor x).
Proof.
  destruct x as [s|s| |s m e]; cbn; [done|done|done|]. intros ->. apply normalize_nonneg.
  unfold floor_mag. apply Z.shiftl_nonneg. lia.
Qed.
Lemma to_s32_nonneg site x z : nonneg x → to_s32 site x = Ok z → 0 ≤ z.
Proof.
  destruct x as [s|s| |s m e]; cbn; [by intros _ [= <-]|done|done|]. intros ->. destruct (_ && _); [|done].
  intros [= <-]. unfold floor_mag. apply Z.shiftl_nonneg. lia.
Qed.
Lemma floor_sqrt_nonneg n w : Mesh.floor_sqrt n = Ok w → 0 ≤ w.
Proof. apply to_s32_nonneg, floor_nonneg, sqrt_nonneg. Qed.

Lemma topology_mesh n w h :
  0 < n → NetworkModelEMeshHopByHop.initializeEMeshTopologyParams n = Ok (w, h) → 0 < w ∧ 0 < h ∧ n = w * h.
Proof.
  intros Hn Hi. unfold NetworkModelEMeshHopByHop.initializeEMeshTopologyParams in Hi. run_inv. breflect.
  match goal with Hs : Mesh.floor_sqrt n = Ok _ |- _ => apply floor_sqrt_nonneg in Hs end.
  assert (w ≠ 0) by (intros ->; lia). assert (0 < h) by (apply (Zmult_gt_0_lt_reg_r 0 h w); lia). lia.
Qed.

(** ** The clusters of the optical network *)

Lemma isPower2_inv n : 0 < n < 2 ^ 32 → Utils.isPower2 n = true → n = 2 ^ Z.log2 n.
Proof.
  intros Hn Hp. unfold Utils.isPower2 in Hp. breflect. pose proof (Z.log2_spec n ltac:(lia)) as Hl.
  destruct (decide (n = 2 ^ Z.log2 n)) as [|Hne]; [done|]. exfalso.
  assert (Z.log2 (n - 1) = Z.log2 n) as El by (apply Z.log2_unique; [apply Z.log2_nonneg|lia]).
  assert (0 < 2 ^ Z.log2 n) by (apply Z.pow_pos_nonneg; [lia|apply Z.log2_nonneg]).
  rewrite u32_small in Hp by lia. apply (f_equal (λ z, Z.testbit z (Z.log2 n))) in Hp.
  rewrite Z.land_spec, Z.bit_log2, <- El, Z.bit_log2, Z.bits_0 in Hp by lia. done.
Qed.

(** [compute_all] evaluates a test on each element of a list. *)
Ltac compute_all := repeat (apply Forall_cons; split; [vm_compute; reflexivity|]); try apply Forall_nil.

(** The square roots of the even powers of two of an [int] are exact. *)
Definition sqrt_exact (i : Z) : bool :=
  match NetworkModelAtac.int_sqrt (2 ^ (2 * i)), Mesh.floor_sqrt (2 ^ (2 * i)) with
  | Ok x, Ok y => (x =? 2 ^ i) && (y =? 2 ^ i)
  | _, _ => false
  end.
Lemma sqrt_pow2 i : 0 ≤ i < 16 →
  NetworkModelAtac.int_sqrt (2 ^ (2 * i)) = Ok (2 ^ i) ∧ Mesh.floor_sqrt (2 ^ (2 * i)) = Ok (2 ^ i).
Proof.
  intros Hi. assert (Forall (λ i, sqrt_exact i = true) (seqZ 0 16)) as Hall.
  { by compute_all. }
  rewrite Forall_forall in Hall. specialize (Hall i). rewrite elem_of_seqZ in Hall. specialize (Hall ltac:(lia)).
  unfold sqrt_exact in Hall. destruct (NetworkModelAtac.int_sqrt _), (Mesh.floor_sqrt _); try done. breflect. by subst.
Qed.
(** No other power of two passes [isPerfectSquare]. *)
Lemma square_even i : 0 ≤ i < 31 → NetworkModelAtac.isPerfectSquare (2 ^ i) = Ok true → i = 2 * (i / 2).
Proof.
  intros Hi Hs.
  assert (Forall (λ i, match NetworkModelAtac.isPerfectSquare (2 ^ i) with Ok b => b | _ => false end = (i =? 2 * (i / 2)))
    (seqZ 0 31)) as Hall by by compute_all.
  rewrite Forall_forall in Hall. specialize (Hall i). rewrite elem_of_seqZ in Hall. specialize (Hall ltac:(lia)).
  rewrite Hs in Hall. by apply Z.eqb_eq.
Qed.

(** The number of clusters or access points per row and column. *)
Lemma quot_pow2 a b : 0 ≤ b ≤ a → Z.quot (2 ^ a) (2 ^ b) = 2 ^ (a - b) ∧ 2 ^ a = 2 ^ b * 2 ^ (a - b).
Proof.
  intros Hab. assert (2 ^ a = 2 ^ b * 2 ^ (a - b)) as E by (rewrite <- Z.pow_add_r by lia; f_equal; lia).
  split; [|done]. rewrite E, Z.mul_comm, Z.quot_mul; [done|]. assert (0 < 2 ^ b) by (apply Z.pow_pos_nonneg; lia). lia.
Qed.
Lemma pow2_pos k : 0 ≤ k → 0 < 2 ^ k.
Proof. intros Hk. apply Z.pow_pos_nonneg; lia. Qed.

Lemma even_log2 k : 0 ≤ k < 31 → Utils.isEven (Utils.floorLog2 (2 ^ k)) = (k =? 2 * (k / 2)).
Proof.
  intros Hk. assert (2 ^ k < 2 ^ 32) by (apply Z.pow_lt_mono_r; lia). pose proof (pow2_pos k ltac:(lia)).
  rewrite Utils.floorLog2_spec, Z.log2_pow2 by lia. unfold Utils.isEven. apply eq_bool_prop_intro.
  rewrite !Is_true_true, !Z.eqb_eq. pose proof (Z.div_mod k 2). lia.
Qed.

(** The smaller and the greater half of an exponent. *)
Abbreviation low k := (k / 2).
Abbreviation high k := (k - k / 2).

(** One dimension has as many powers of two as the other, or one more. *)
Lemma split_pow2 k : 0 ≤ k < 31 →
  (if Utils.isEven (Utils.floorLog2 (2 ^ k)) then x ← NetworkModelAtac.int_sqrt (2 ^ k) ; Ok (x, x)
   else x ← NetworkModelAtac.int_sqrt (Z.quot (2 ^ k) 2) ; y ← NetworkModelAtac.int_sqrt (2 ^ k * 2) ; Ok (x, y)) =
  Ok (2 ^ low k, 2 ^ high k).
Proof.
  intros Hk. rewrite even_log2 by done. pose proof (Z.div_mod k 2). pose proof (Z.mod_pos_bound k 2).
  destruct (k =? 2 * (k / 2)) eqn:Ek; breflect.
  - rewrite Ek at 1. rewrite (proj1 (sqrt_pow2 (k / 2) ltac:(lia))). cbn. repeat f_equal. lia.
  - assert (Z.quot (2 ^ k) 2 = 2 ^ (k - 1)) as -> by exact (proj1 (quot_pow2 k 1 ltac:(lia))).
    assert (2 ^ k * 2 = 2 ^ (2 * (k - k / 2))) as -> by (replace (2 * (k - k / 2)) with (k + 1) by lia; by rewrite Z.pow_add_r by lia).
    replace (k - 1) with (2 * (k / 2)) by lia.
    rewrite (proj1 (sqrt_pow2 (k / 2) ltac:(lia))). cbn. by rewrite (proj1 (sqrt_pow2 (k - k / 2) ltac:(lia))).
Qed.

(** The grid of access points has its greater side in the other dimension. *)
Lemma split_pow2_swap k : 0 ≤ k < 31 →
  (if Utils.isEven (Utils.floorLog2 (2 ^ k)) then x ← NetworkModelAtac.int_sqrt (2 ^ k) ; Ok (x, x)
   else x ← NetworkModelAtac.int_sqrt (2 ^ k * 2) ; y ← NetworkModelAtac.int_sqrt (Z.quot (2 ^ k) 2) ; Ok (x, y)) =
  Ok (2 ^ high k, 2 ^ low k).
Proof.
  intros Hk. pose proof (split_pow2 k Hk) as Hs. destruct (Utils.isEven _); run_inv.
  - repeat match goal with Hs : _ = Ok _ |- _ => rewrite Hs; cbn end. congruence.
  - repeat match goal with Hs : _ = Ok _ |- _ => rewrite Hs; clear Hs; cbn end. done.
Qed.

Lemma clusters_ok p rnt strategy h c k T :
  0 ≤ h < 16 → 0 ≤ k ≤ c → c ≤ 2 * h →
  NetworkModelAtac.p_cluster_size p = 2 ^ c → NetworkModelAtac.p_num_access_points_per_cluster p = 2 ^ k →
  0 < NetworkModelAtac.p_num_receive_networks_per_cluster p →
  NetworkModelAtac.initializeClusters p rnt strategy (2 ^ h) (2 ^ (2 * h - c)) = Ok T → topology_ok (2 ^ (2 * h)) T.
Proof.
  intros Hh Hk Hc Ec Ek Hnet Hi. unfold NetworkModelAtac.initializeClusters in Hi. rewrite Ek in Hi.
  assert (2 * h < 31 ∧ k < 31) as [? ?] by lia. set (n := 2 * h - c) in *.
  rewrite split_pow2, split_pow2_swap in Hi by lia. cbn in Hi.
  pose proof (Z.div_mod n 2 ltac:(lia)). pose proof (Z.mod_pos_bound n 2 ltac:(lia)).
  pose proof (Z.div_mod k 2 ltac:(lia)). pose proof (Z.mod_pos_bound k 2 ltac:(lia)).
  destruct (quot_pow2 h (low n) ltac:(lia)) as [Ew1 Ew2]. destruct (quot_pow2 h (high n) ltac:(lia)) as [Eh1 Eh2].
  destruct (quot_pow2 (h - low n) (high k) ltac:(lia)) as [Es1 Es2].
  destruct (quot_pow2 (h - high n) (low k) ltac:(lia)) as [Et1 Et2].
  run_inv. rewrite ?Ew1, ?Eh1, ?Es1, ?Et1 in *.
  split; cbn; try done; try (split; [apply pow2_pos; lia|done]).
  - rewrite <- Z.pow_add_r by lia. f_equal. lia.
  - apply pow2_pos. lia.
  - rewrite <- Z.pow_add_r by lia. f_equal. lia.
  - rewrite Ec, <- Z.pow_add_r by lia. f_equal. lia.
Qed.

Lemma topology_init napp p T :
  0 < napp < 2 ^ 31 → 0 < NetworkModelAtac.p_cluster_size p < 2 ^ 31 →
  0 < NetworkModelAtac.p_num_access_points_per_cluster p < 2 ^ 31 →
  0 < NetworkModelAtac.p_num_receive_networks_per_cluster p →
  NetworkModelAtac.initializeANetTopologyParams napp p = Ok T → topology_ok napp T.
Proof.
  intros Hn Hc Ha Hnet Hi. unfold NetworkModelAtac.initializeANetTopologyParams in Hi. run_inv. breflect.
  repeat match goal with Hp : Utils.isPower2 _ = true |- _ => apply isPower2_inv in Hp; [|lia] end.
  set (a := Z.log2 napp) in *. set (c := Z.log2 (NetworkModelAtac.p_cluster_size p)) in *.
  set (k := Z.log2 (NetworkModelAtac.p_num_access_points_per_cluster p)) in *.
  match goal with Hp : napp = 2 ^ a |- _ => rename Hp into En end.
  match goal with Hp : _ = 2 ^ c |- _ => rename Hp into Ec end.
  match goal with Hp : _ = 2 ^ k |- _ => rename Hp into Ek end.
  assert (0 ≤ a ∧ 0 ≤ c ∧ 0 ≤ k) as (Ha0 & Hc0 & Hk0) by (split_and!; apply Z.log2_nonneg).
  clearbody a c k. subst napp. rewrite ?Ek, ?Ec in *.
  assert (a < 31) as Ha31 by (apply (Z.pow_lt_mono_r_iff 2); lia).
  assert (k ≤ c) by (apply (Z.pow_le_mono_r_iff 2); lia).
  match goal with Hs : NetworkModelAtac.isPerfectSquare _ = _ |- _ => apply square_even in Hs; [|done]; rename Hs into Ea end.
  assert (c ≤ a) as Hca.
  { apply (Z.pow_le_mono_r_iff 2); [lia..|]. destruct (decide (2 ^ a < 2 ^ c)) as [Hlt|]; [|lia].
    rewrite (Z.quot_small (2 ^ a) (2 ^ c)) in * by (pose proof (pow2_pos a Ha0); lia). lia. }
  rewrite (proj1 (quot_pow2 a c ltac:(lia))) in *. set (h := a / 2) in Ea. clearbody h. subst a.
  rewrite (proj2 (sqrt_pow2 h ltac:(lia))) in *. run_inv. subst.
  by eapply (clusters_ok p _ _ h c k); try lia.
Qed.

(** ** Routers *)

Lemma router_make_ok qc ports delay enabled type r :
  0 ≤ ports → RouterModel.make qc ports delay enabled type = Ok r → router_ok ports r.
Proof.
  intros Hp Hmk. unfold RouterModel.make in Hmk. run_inv.
  assert (zlength (replicate (Z.to_nat ports) 0) = ports) as Hz by (unfold zlength; rewrite length_replicate; lia).
  split; cbn; try done. intros ->. run_inv. unfold zlength. rewrite length_replicate. lia.
Qed.

Section init.
Context {Msg : Type} `{MemoryManager Msg} (cfg : SysConfig.Config) (pow : double → double → double).
Context (p : Model.Params).
Abbreviation napp := (SysConfig.m_application_tiles cfg).
Abbreviation total := (SysConfig.getTotalTiles cfg).

(** ** The mesh *)

Lemma mesh_make_ok nid t m w h :
  NetworkModelEMeshHopByHop.initializeEMeshTopologyParams napp = Ok (w, h) →
  NetworkModelEMeshHopByHop.p_flit_width (Model.hop_by_hop p) ≠ 0 →
  NetworkModelEMeshHopByHop.make cfg (Model.queue_cfg p) (Model.hop_by_hop p) nid t = Ok m →
  base_ok nid t (NetworkModelEMeshHopByHop._model m) ∧
  NetworkModel._has_broadcast_capability (NetworkModelEMeshHopByHop._model m) =
    NetworkModelEMeshHopByHop.p_broadcast_tree_enabled (Model.hop_by_hop p) ∧
  (app_tile cfg t → mesh_ok w h m).
Proof.
  intros Htop Hflit Hmk. unfold NetworkModelEMeshHopByHop.make in Hmk. rewrite Htop in Hmk. cbn in Hmk. run_inv.
  split_and!; [by split|done|]. intros Ht. split_and!; [done|done|]. cbn.
  match goal with Hr : (if _ then _ else _) = Ok ?ro |- _ => rename Hr into Hro end.
  assert (NetworkModel.isSystemTile cfg t = false) as Es.
  { unfold NetworkModel.isSystemTile. apply andb_false_iff. left. rewrite Z.geb_leb. apply Z.leb_gt. by destruct Ht. }
  rewrite Es in Hro. run_inv. unfold NetworkModelEMeshHopByHop.createRouterAndLinkModels in *. run_inv.
  eexists. split; [done|]. split; cbn.
  - eapply router_make_ok; [|done]. lia.
  - eapply router_make_ok; [|done]. unfold NetworkModelEMeshHopByHop.num_mesh_router_ports. lia.
  - done.
Qed.

(** ** The optical network *)

Lemma repeat_res_spec {A} n (r : res A) l : NetworkModelAtac.repeat_res n r = Ok l →
  length l = n ∧ Forall (λ a, r = Ok a) l.
Proof.
  revert l. induction n as [|n IH]; intros l Hl; cbn in Hl; run_inv; [done|].
  match goal with Hr : NetworkModelAtac.repeat_res _ _ = Ok _ |- _ => destruct (IH _ Hr) as [<- ?] end. by split; [|constructor].
Qed.
Lemma map_res_spec {A B} (f : A → res B) l k : NetworkModelAtac.map_res f l = Ok k → Forall2 (λ a b, f a = Ok b) l k.
Proof.
  revert k. induction l as [|a l IH]; intros k Hk; cbn in Hk; run_inv; [done|]. by constructor; [|apply IH].
Qed.

Lemma system_app t : app_tile cfg t → NetworkModel.isSystemTile cfg t = false.
Proof.
  intros [_ Ht]. unfold NetworkModel.isSystemTile. apply andb_false_iff. left. rewrite Z.geb_leb. by apply Z.leb_gt.
Qed.

Section atac_init.
Context (T : NetworkModelAtac.Topology) (HT : topology_ok napp T).

Lemma routers_make_ok qc pa t r :
  app_tile cfg t → NetworkModelAtac.createRouters qc pa T t = Ok r → AtacScheme.routers_ok T t r.
Proof.
  intros Ht Hr. unfold NetworkModelAtac.createRouters in Hr. rewrite (isAccessPoint_spec napp T HT t Ht) in Hr. run_inv.
  change (if t =? access T t then _ else _) with (ports T t) in *. assert (0 ≤ ports T t) by (unfold ports; by destruct (_ =? _)).
  split; cbn; [by eapply router_make_ok; [|done]|by eapply router_make_ok; [|done]|].
  match goal with Hl : NetworkModelAtac.repeat_res _ _ = Ok _ |- _ => apply repeat_res_spec in Hl as [Hl _] end.
  unfold zlength. lia.
Qed.

Lemma hub_make_ok qc pa lasers t h :
  app_tile cfg t → NetworkModelAtac.createHub cfg qc pa T lasers t = Ok h → hub_ok T lasers h.
Proof.
  intros Ht Hh. pose proof (to_networks _ _ HT) as Hn. pose proof (cluster_range napp T HT t Ht) as Hc.
  pose proof (length_cluster_tiles napp T HT _ Hc) as Hlen.
  unfold NetworkModelAtac.createHub in Hh. rewrite (cluster_list napp T HT _ Hc) in Hh. run_inv.
  assert (OpticalLinkModel._laser_modes x0 = lasers) as Hlas by (unfold OpticalLinkModel.make in *; by run_inv).
  destruct (NetworkModelAtac._receive_net_type T) eqn:Er; run_inv;
    repeat match goal with Hl : NetworkModelAtac.repeat_res _ _ = Ok _ |- _ => apply repeat_res_spec in Hl as [? ?] end;
    split; cbn; try done; try (eapply router_make_ok; [|done]; lia); intros ?; try congruence.
  - unfold zlength. lia.
  - split_and!; [unfold zlength; lia| |unfold zlength; lia|].
    + eapply Forall_impl; [done|]. intros r Hr. eapply router_make_ok; [|exact Hr]. unfold zlength in *. lia.
    + eapply Forall_impl; [done|]. intros l Hl%map_res_spec%Forall2_length. unfold zlength in *. lia.
Qed.

Lemma atac_make_ok nid t m lasers :
  app_tile cfg t → NetworkModelAtac.initializeANetTopologyParams napp (Model.atac p) = Ok T →
  NetworkModelAtac.initializeLaserModes (NetworkModelAtac.p_laser_modes (Model.atac p)) = Ok lasers →
  NetworkModelAtac.make cfg (Model.queue_cfg p) (Model.atac p) nid t = Ok m → atac_ok T lasers t m.
Proof.
  intros Ht Htop Hl Hm. unfold NetworkModelAtac.make in Hm. rewrite Htop, Hl, system_app in Hm by done. cbn [mbind res_bind] in Hm. run_inv.
  split_and!; [done|done| |].
  - eexists. split; [done|]. by eapply routers_make_ok.
  - intros Eh. cbn [NetworkModelAtac._hub]. rewrite (proj2 (Z.eqb_eq t _) Eh) in *. run_inv. eexists. split; [done|]. by eapply hub_make_ok.
Qed.
End atac_init.

(** ** All networks *)

(** The values the models rely on but do not check. *)
Record params_ok : Prop := {
  po_tiles : 0 < napp < 2 ^ 31;
  po_total : napp ≤ total;
  po_hop_counter : Model.hop_counter_flit_width p ≠ 0;
  po_mesh : NetworkModelEMeshHopByHop.p_flit_width (Model.hop_by_hop p) ≠ 0;
  po_atac : NetworkModelAtac.p_flit_width (Model.atac p) ≠ 0;
  po_cluster : 0 < NetworkModelAtac.p_cluster_size (Model.atac p) < 2 ^ 31;
  po_access : 0 < NetworkModelAtac.p_num_access_points_per_cluster (Model.atac p) < 2 ^ 31;
  po_networks : 0 < NetworkModelAtac.p_num_receive_networks_per_cluster (Model.atac p);
  po_lasers : "unicast" ∈ NetworkModelAtac.p_laser_modes (Model.atac p) ∨
              "broadcast" ∈ NetworkModelAtac.p_laser_modes (Model.atac p)
}.

Lemma laser_modes_ok modes l :
  NetworkModelAtac.initializeLaserModes modes = Ok l →
  "unicast" ∈ modes ∨ "broadcast" ∈ modes → OpticalLinkModel.broadcast l || OpticalLinkModel.unicast l = true.
Proof.
  unfold NetworkModelAtac.initializeLaserModes. revert l. induction modes as [|s modes IH] using rev_ind; intros l Hl Hm.
  { by destruct Hm as [?%elem_of_nil|?%elem_of_nil]. }
  rewrite foldl_app in Hl. cbn in Hl. run_inv.
  match goal with Hf : foldl _ _ _ = Ok ?l0 |- _ => specialize (IH _ Hf); rename l0 into l' end.
  rewrite !elem_of_app, !list_elem_of_singleton in Hm.
  repeat case_bool_decide; run_inv; subst; cbn; rewrite ?orb_true_r; try done; apply IH; naive_solver.
Qed.

(** What a scheme says of a model of tile [t]. *)
Definition serves (Sc : Scheme cfg pow) (i : EStaticNetwork) (t : Z) (m : Model.Model) : Prop :=
  base_ok i t (Model.base m) ∧ NetworkModel._has_broadcast_capability (Model.base m) = @sc_broadcast _ _ _ _ Sc ∧
  (app_tile cfg t → @sc_ok _ _ _ _ Sc t m).

(** Each type of network follows one scheme on all tiles. *)
Lemma scheme_of_type i type m0 :
  params_ok → Model.createModel cfg p i 0 type = Ok m0 →
  ∃ Sc : Scheme cfg pow,
    (type = Some Model.NETWORK_MAGIC ∨ type = Some Model.NETWORK_EMESH_HOP_COUNTER → direct cfg pow Sc) ∧
    ∀ t m, Model.createModel cfg p i t type = Ok m → serves Sc i t m.
Proof.
  intros [Ht _ Hc Hm Ha Hcl Hac Hnet Hlas] H0. assert (app_tile cfg 0) as H00 by (split; lia).
  destruct type as [[]|]; try done; cbn in H0.
  - exists (direct_scheme cfg pow). split; [intros _; apply direct_direct|]. intros t m [= <-]. by split_and!.
  - exists (direct_scheme cfg pow). split; [intros _; apply direct_direct|]. intros t m Hmk. cbn in Hmk. run_inv.
    unfold NetworkModelEMeshHopCounter.make in *. run_inv. by split_and!.
  - destruct (NetworkModelEMeshHopByHop.initializeEMeshTopologyParams napp) as [[w h]|] eqn:Etop;
      [|unfold NetworkModelEMeshHopByHop.make in H0; by rewrite Etop in H0].
    destruct (topology_mesh napp w h (proj1 Ht) Etop) as (Hw & Hh & Htiles).
    exists (mesh_scheme w h Hw Hh cfg pow Htiles (NetworkModelEMeshHopByHop.p_broadcast_tree_enabled (Model.hop_by_hop p))).
    split; [by intros [|]|]. intros t m Hmk. cbn in Hmk. run_inv.
    match goal with Hq : NetworkModelEMeshHopByHop.make _ _ _ _ t = Ok _ |- _ =>
      destruct (mesh_make_ok _ _ _ _ _ Etop Hm Hq) as (Hb & Hcap & Hok) end.
    split_and!; [done|done|]. intros Happ. eexists. split; [done|]. by apply Hok.
  - destruct (NetworkModelAtac.initializeANetTopologyParams napp (Model.atac p)) as [T|] eqn:Etop;
      [|unfold NetworkModelAtac.make in H0; by rewrite Etop in H0].
    pose proof (topology_init _ _ _ Ht Hcl Hac Hnet Etop) as HT.
    destruct (NetworkModelAtac.initializeLaserModes (NetworkModelAtac.p_laser_modes (Model.atac p))) as [las|] eqn:El;
      [|unfold NetworkModelAtac.make in H0; by rewrite Etop, El in H0].
    exists (atac_scheme cfg pow T HT las (laser_modes_ok _ _ El Hlas)).
    split; [by intros [|]|]. intros t m Hmk. cbn [Model.createModel] in Hmk. run_inv.
    match goal with Hq : NetworkModelAtac.make _ _ _ _ _ = Ok ?x |- _ => rename x into ma; rename Hq into Hmake end.
    assert (NetworkModelAtac._model ma = NetworkModel.make i t (NetworkModelAtac.p_frequency (Model.atac p))
      (NetworkModelAtac.p_flit_width (Model.atac p)) true) as Eb.
    { unfold NetworkModelAtac.make in Hmake. rewrite Etop, El in Hmake. cbn [mbind res_bind] in Hmake.
      destruct (NetworkModel.isSystemTile cfg t); run_inv; done. }
    unfold serves. cbn [Model.base]. rewrite Eb. split_and!; [done|done|]. intros Happ. eexists. split; [done|].
    by eapply atac_make_ok.
Qed.

Context (types : EStaticNetwork → string) (shortcut : bool) (frequency : float).
(** The system network has no intermediate tiles. *)
Definition system_ok : Prop := types STATIC_NETWORK_SYSTEM = "magic" ∨ types STATIC_NETWORK_SYSTEM = "emesh_hop_counter".

Lemma network_make_ok t (n : Network.Network Msg) :
  Network.make cfg p types shortcut frequency t = Ok n →
  Network._numMod n = total ∧ Network._netQueue n = [] ∧ Network._called n = [] ∧
  ∀ i, ∃ m, Network._models n !! Network.network_index i = Some m ∧
    Model.createModel cfg p i t (Model.parseNetworkType (types i)) = Ok m.
Proof.
  intros Hn. unfold Network.make in Hn. run_inv. split_and!; [done..|]. cbn.
  match goal with Hm : NetworkModelAtac.map_res _ _ = _ |- _ => apply map_res_spec in Hm; rename Hm into Hms end.
  intros i. destruct (Forall2_lookup_l _ _ _ (Network.network_index i) i Hms) as (m & Hm & Hmk); [by destruct i|].
  by exists m.
Qed.

(** One scheme for each network. *)
Lemma network_choice (P : EStaticNetwork → Scheme cfg pow → Prop) : (∀ i, ∃ Sc, P i Sc) → ∃ S, ∀ i, P i (S i).
Proof.
  intros HP. destruct (HP STATIC_NETWORK_USER_1) as [S1 ?], (HP STATIC_NETWORK_USER_2) as [S2 ?],
    (HP STATIC_NETWORK_MEMORY_1) as [S3 ?], (HP STATIC_NETWORK_MEMORY_2) as [S4 ?], (HP STATIC_NETWORK_SYSTEM) as [S5 ?].
  exists (λ i, match i with STATIC_NETWORK_USER_1 => S1 | STATIC_NETWORK_USER_2 => S2 | STATIC_NETWORK_MEMORY_1 => S3
    | STATIC_NETWORK_MEMORY_2 => S4 | STATIC_NETWORK_SYSTEM => S5 end). by intros [].
Qed.

Lemma concat_imap_nil {A B} (f : nat → A → list B) l :
  (∀ i a, l !! i = Some a → f i a = []) → concat (imap f l) = [].
Proof.
  revert f. induction l as [|a l IH]; intros f Hf; [done|]. cbn. rewrite (Hf 0%nat a) by done. cbn.
  apply IH. intros i b Hb. by apply (Hf (S i)).
Qed.

Lemma world_make_ok (w : World.World Msg) :
  params_ok → system_ok → World.make cfg p types shortcut frequency = Ok w →
  ∃ S, direct cfg pow (S STATIC_NETWORK_SYSTEM) ∧ world_ok cfg pow S w ∧ quiet w ∧ delivered w = [].
Proof.
  intros Hp Hsys Hw. pose proof (po_tiles Hp). pose proof (po_total Hp) as Htot.
  unfold World.make in Hw. run_inv. rename x into ns.
  match goal with Hm : NetworkModelAtac.map_res _ _ = _ |- _ => apply map_res_spec in Hm; rename Hm into Hns end.
  assert (∀ k n, ns !! k = Some n → Network.make cfg p types shortcut frequency (Z.of_nat k) = Ok n) as Hmk.
  { intros k n Hk. destruct (Forall2_lookup_r _ _ _ _ _ Hns Hk) as (t & [-> _]%lookup_seqZ & Hn). exact Hn. }
  assert (zlength ns = total) as Hlen by (apply Forall2_length in Hns; rewrite length_seqZ in Hns; unfold zlength; lia).
  destruct (lookup_lt_is_Some_2 ns 0) as [n0 Hn0]; [unfold zlength in Hlen; lia|].
  destruct (network_make_ok _ _ (Hmk _ _ Hn0)) as (_ & _ & _ & Hm0).
  destruct (network_choice (λ i Sc,
    (Model.parseNetworkType (types i) = Some Model.NETWORK_MAGIC ∨
     Model.parseNetworkType (types i) = Some Model.NETWORK_EMESH_HOP_COUNTER → direct cfg pow Sc) ∧
    ∀ t m, Model.createModel cfg p i t (Model.parseNetworkType (types i)) = Ok m → serves Sc i t m)) as [S HS].
  { intros i. destruct (Hm0 i) as (m & _ & Hm). by eapply scheme_of_type. }
  exists S. split_and!.
  - apply HS. destruct Hsys as [-> | ->]; auto.
  - split; cbn; [done|done|unfold zlength; rewrite length_replicate; done| |].
    + intros t n Hn. destruct (network_make_ok _ _ (Hmk _ _ Hn)) as (Hnum & _ & _ & Hms). split; [done|].
      intros i. destruct (Hms i) as (m & Hm & Hc). exists m. split; [done|]. by apply HS.
    + intros t q [-> _]%lookup_replicate. done.
  - unfold quiet. cbn. by apply Forall_replicate.
  - apply concat_imap_nil. cbn. intros k n Hn. destruct (network_make_ok _ _ (Hmk _ _ Hn)) as (_ & -> & -> & _). done.
Qed.
End init.
