(* ===== verification/NetworkTheorems.v ===== *)
(** * NetworkTheorems: what the networks guarantee

    Every packet reaches exactly its receivers, whatever the order in which the
    tiles send and pull; receiving takes the packets in order; the placement
    functions give every tile to one process. *)
From S2P Require Import Prelude Utils Double CacheSet Cache Shmem ThreadManager QueueModels HistoryTree NetPacket NetworkModel MeshModels AtacModel Network NetworkProofs DeliveryProofs MeshProofs AtacProofs AtacScheme NetworkInit.
Import PacketType.

(** ** Delivery *)

Section delivery.
Context {Msg : Type} `{MemoryManager Msg} (cfg : SysConfig.Config) (pow : double → double → double).
Implicit Types w : World.World Msg.

Lemma pulls_snoc w n w1 t b q w2 :
  pulls cfg pow w n w1 → 0 ≤ t → World._transport w1 !! Z.to_nat t = Some (b :: q) →
  World.pull cfg pow t w1 = Ok (tt, w2) → pulls cfg pow w (S n) w2.
Proof.
  induction 1 as [w|w t' b' q' w1 n w' Ht' Hq' Hp' Hps IH]; intros Ht Hq Hp.
  - by eapply pulls_one; [..|apply pulls_none].
  - eapply pulls_one; [exact Ht'|exact Hq'|exact Hp'|]. by apply IH.
Qed.

Lemma not_quiet w : ¬ quiet w → ∃ t b q, 0 ≤ t ∧ World._transport w !! Z.to_nat t = Some (b :: q).
Proof.
  unfold quiet. intros Hq. apply not_Forall_Exists in Hq; [|intros []; [by left|by right]].
  apply Exists_exists in Hq as ([|b q] & Hl & Hne); [by destruct Hne|].
  apply list_elem_of_lookup in Hl as [i Hi]. exists (Z.of_nat i), b, q. rewrite Nat2Z.id. split; [lia|done].
Qed.

(** [netPullFromTransport] with more rounds than the packets on their way can
    take. *)
Lemma pull_all_spec S t : direct cfg pow (S STATIC_NETWORK_SYSTEM) → ∀ fuel w,
  world_ok cfg pow S w → 0 ≤ t < SysConfig.getTotalTiles cfg → (burden cfg pow S w < fuel)%nat →
  runs (net_error pow) (World.netPullFromTransport cfg pow fuel t) w (λ _ w',
    World._transport w' !! Z.to_nat t = Some [] ∧
    pending cfg pow S w' ++ delivered w' ≡ₚ pending cfg pow S w ++ delivered w).
Proof.
  intros Hsys fuel. induction fuel as [|fuel IH]; intros w Hw Ht Hb; [lia|]. cbn [World.netPullFromTransport].
  destruct (mailbox_lookup cfg pow S w t Hw Ht) as [q Hq]. apply runs_bind.
  eapply (runs_mono _ _ _ (λ _ w', world_ok cfg pow S w' ∧
    pending cfg pow S w' ++ delivered w' ≡ₚ pending cfg pow S w ++ delivered w ∧
    (World._transport w' !! Z.to_nat t = Some [] ∨ burden cfg pow S w' < burden cfg pow S w)%nat)).
  { destruct q as [|b q].
    - unfold runs. rewrite (pull_empty cfg pow t w Hq) by lia. split_and!; [done|done|by left].
    - eapply runs_mono; [by eapply pull_spec|]. cbv beta. intros _ w' (H1 & H2 & H3). split_and!; [done|done|by right]. }
  cbv beta. intros _ w' (Hw' & Hp & Hlt). do 2 run1. unfold id.
  destruct (mailbox_lookup cfg pow S w' t Hw' Ht) as [q' Hq']. apply runs_bind, (runs_lift _ _ q').
  { unfold vget. by rewrite zlookup_nat, Hq' by lia. }
  destruct q' as [|b q']; [run1; done|].
  eapply runs_mono; [apply IH; [done|done|]|cbv beta; intros _ w'' [H1 H2]; split; [done|by rewrite H2]].
  destruct Hlt as [He|Hlt]; [|lia]. rewrite Hq' in He. done.
Qed.

Context (p : Model.Params) (types : EStaticNetwork → string) (shortcut : bool) (frequency : float).

(** C10: From the networks the constructors build, under any sequence of sends
    and pulls of the tiles, the networks fail only where a queue model or the
    clock conversion fails; every delivered packet was sent to its tile, no
    packet is delivered twice, and after finitely many pulls, which can go on as
    long as a packet is on its way, each packet has reached each of its receivers
    (all tiles for a broadcast) exactly once, with the type, sender, length and
    data it was sent with.  One tile's [netPullFromTransport] always returns. *)
Theorem network_delivers (w0 : World.World Msg) (evs : list (World.Event (Msg := Msg))) :
  params_ok cfg p → system_ok types → World.make cfg p types shortcut frequency = Ok w0 →
  Forall (event_ok cfg) evs →
  match mfor evs (World.step cfg pow) w0 with
  | Fail e => net_error pow e
  | Ok (_, w) =>
    (∃ rest, delivered w ++ rest ≡ₚ evs ≫= sent_by cfg) ∧
    (∃ bound, ∀ n w', pulls cfg pow w n w' →
       (n <= bound)%nat ∧
       (quiet w' → delivered w' ≡ₚ evs ≫= sent_by cfg) ∧
       (¬ quiet w' → ∃ t, 0 ≤ t ∧
          match World.pull cfg pow t w' with
          | Ok (_, w'') => pulls cfg pow w (S n) w''
          | Fail e => net_error pow e
          end)) ∧
    (∀ t, 0 ≤ t < SysConfig.getTotalTiles cfg → ∃ fuel,
       runs (net_error pow) (World.netPullFromTransport cfg pow fuel t) w (λ _ w', World._transport w' !! Z.to_nat t = Some []))
  end.
Proof.
  intros Hp Hsys Hmk Hevs.
  destruct (world_make_ok cfg pow p types shortcut frequency w0 Hp Hsys Hmk) as (S & Hd & Hw0 & Hq0 & Hdel0).
  pose proof (run_spec cfg pow S Hd evs w0 Hw0 Hevs) as Hrun. unfold runs in Hrun.
  destruct (mfor evs (World.step cfg pow) w0) as [[[] w]|e]; [|done]. destruct Hrun as [Hw Hpend].
  rewrite (pending_quiet cfg pow S w0 Hq0), Hdel0 in Hpend. cbn [app] in Hpend. split_and!.
  - exists (pending cfg pow S w). by rewrite Permutation_app_comm.
  - exists (burden cfg pow S w). intros n w' Hpulls.
    destruct (pulls_spec cfg pow S Hd w n w' Hpulls Hw) as (Hw' & Hp' & Hb'). split_and!; [lia| |].
    + intros Hq. rewrite (pending_quiet cfg pow S w' Hq) in Hp'. cbn in Hp'. by rewrite Hp'.
    + intros (t & b & q & Ht & Hq)%not_quiet. exists t. split; [done|].
      assert (0 ≤ t < SysConfig.getTotalTiles cfg) as Htt.
      { pose proof (world_transport cfg pow S w' Hw') as Hl. apply lookup_lt_Some in Hq. unfold zlength in Hl. lia. }
      pose proof (pull_spec cfg pow S Hd t w' q b Hw' Htt Hq) as Hpull. unfold runs in Hpull.
      destruct (World.pull cfg pow t w') as [[[] w'']|e] eqn:Ep; [|done]. by eapply pulls_snoc.
  - intros t Ht. exists (1 + burden cfg pow S w)%nat. eapply runs_mono; [apply (pull_all_spec S t Hd _ w Hw Ht); lia|].
    cbv beta. by intros _ w' [? _].
Qed.
End delivery.

(** *** A machine of sixteen tiles

    One network of each kind: the optical network for the requests of the
    memory system, the mesh with a broadcast tree for its replies. *)
Definition sample_cfg : SysConfig.Config := SysConfig.mkConfig SysConfig.FULL 1 16 1 [].
Definition sample_params : Model.Params :=
  Model.mkParams (Queue.mkCfg false 1 "arithmetic_mean" 100 false false 100 false) 1 (float_of_int 1) 64 1 1
    (NetworkModelEMeshHopByHop.mkParams (float_of_int 1) 64 true 1 1 (of_int 1) true "history_tree")
    (NetworkModelAtac.mkParams (float_of_int 1) 64 4 1 "star" 2 "cluster_based" 0 true "history_list" ["unicast"; "broadcast"]
       1 1 1 1 (of_int 1) (ddiv (of_int 1) (of_int 100)) 1 1).
Definition sample_types (n : EStaticNetwork) : string :=
  match n with
  | STATIC_NETWORK_USER_1 | STATIC_NETWORK_USER_2 => "emesh_hop_counter"
  | STATIC_NETWORK_MEMORY_1 => "atac"
  | STATIC_NETWORK_MEMORY_2 => "emesh_hop_by_hop"
  | STATIC_NETWORK_SYSTEM => "magic"
  end.
Definition sample_make := World.make (Msg := ShmemMsg.MsgBuf) sample_cfg sample_params sample_types false (float_of_int 1).
Definition sample_world : World.World ShmemMsg.MsgBuf :=
  match sample_make with Ok w => w | Fail _ => World.mkWorld [] [] end.
Definition succeeded {A} (r : res A) : bool := match r with Ok _ => true | Fail _ => false end.
Lemma sample_make_ok : sample_make = Ok sample_world.
Proof.
  assert (succeeded sample_make = true) as Hs by (vm_compute; reflexivity). unfold sample_world.
  destruct sample_make; [done|]. discriminate Hs.
Qed.
Lemma sample_params_ok : params_ok sample_cfg sample_params.
Proof. split; try done. left. by left. Qed.

(** An invalidation to all tiles, a packet between two tiles and a broadcast on
    a network that cannot broadcast. *)
Definition sample_packet (ty : PacketType) (s r : Z) : NetPacket ShmemMsg.MsgBuf :=
  NetPacket.make_main 0 ty s r 3 (NetPacket.Bytes [1; 2; 3]).
Definition sample_invalidation : NetPacket ShmemMsg.MsgBuf :=
  NetPacket.make_main 0 SHARED_MEM_1 6 NetPacket.BROADCAST 40
    (NetPacket.Message (ShmemMsg.mkMsgBuf
       (ShmemMsg.make ShmemMsg.INV_REQ MemComponent.DRAM_DIRECTORY MemComponent.L2_CACHE 6 64 true) [])).
Definition sample_events : list (World.Event (Msg := ShmemMsg.MsgBuf)) :=
  [World.Send 6 sample_invalidation; World.Send 2 (sample_packet USER_1 2 9);
   World.Send 3 (sample_packet USER_2 3 NetPacket.BROADCAST); World.Pull 9].
Lemma sample_events_ok : Forall (event_ok sample_cfg) sample_events.
Proof.
  assert (∀ ty s r, NetworkModel.isMemoryNetwork (g_type_to_static_network_map ty) = false →
    0 ≤ s < 18 → r = NetPacket.BROADCAST ∨ 0 ≤ r < 18 → event_ok sample_cfg (World.Send s (sample_packet ty s r))) as Hp.
  { intros ty s r Hty Hs Hr. split; [done|]. split; [|done..]. split; [done|done|]. change (NetPacket.type (sample_packet ty s r)) with ty. rewrite Hty. discriminate. }
  repeat (apply Forall_cons; split); try apply Forall_nil; try done; try (apply Hp; [done|lia|]); [|by right|by left].
  split; [done|]. split; [|done|done|by left]. split; [done|done|]. intros _. by do 2 eexists.
Qed.

(** The events, then pulls of all tiles, give every packet to its receivers. *)
Example sample_network_run :
  match mfor (sample_events ++ concat (replicate 12 (World.Pull <$> seqZ 0 18))) (World.step sample_cfg dadd) sample_world with
  | Ok (_, w) => length (delivered w) = 37%nat ∧ quiet w
  | Fail _ => False
  end.
Proof. vm_compute. split; [reflexivity|]. repeat constructor. Qed.

Lemma network_delivers_witness :
  match mfor sample_events (World.step sample_cfg dadd) sample_world with
  | Fail e => False
  | Ok (_, w) => ∃ rest, delivered w ++ rest ≡ₚ sample_events ≫= sent_by sample_cfg
  end.
Proof.
  pose proof (network_delivers sample_cfg dadd sample_params sample_types false (float_of_int 1) sample_world sample_events
    sample_params_ok (or_introl eq_refl) sample_make_ok sample_events_ok) as Hd.
  destruct (mfor sample_events _ _) as [[[] w]|e] eqn:Er; [apply Hd|].
  assert (succeeded (mfor sample_events (World.step sample_cfg dadd) sample_world) = true) as Hok by (vm_compute; reflexivity).
  rewrite Er in Hok. discriminate Hok.
Defined.

(** ** Receiving *)

Section receive.
Context {Msg : Type}.
Implicit Types (n : Network.Network Msg) (pkt : NetPacket Msg) (q : list (NetPacket Msg)).

Lemma take_first_spec f q :
  match Network.take_first f q with
  | Some (pkt, rest) => ∃ q1 q2, q = q1 ++ pkt :: q2 ∧ rest = q1 ++ q2 ∧ f pkt = true ∧ Forall (λ p, f p = false) q1
  | None => Forall (λ p, f p = false) q
  end.
Proof.
  induction q as [|p q IH]; cbn; [done|]. destruct (f p) eqn:Ef; [by exists [], q|].
  destruct (Network.take_first f q) as [[p' q']|]; [|by constructor].
  destruct IH as (q1 & q2 & -> & -> & H1 & H2). exists (p :: q1), q2. split_and!; [done|done|done|by constructor].
Qed.

(** The best packet so far is earlier than those after it and strictly earlier
    than those before it. *)
Lemma earliest_spec f q0 q best :
  match best with
  | None => Forall (λ p, f p = false) q0
  | Some (i, p) => q0 !! i = Some p ∧ f p = true ∧
      ∀ j p', q0 !! j = Some p' → f p' = true → NetPacket.time p ≤ NetPacket.time p' ∧ ((j < i)%nat → NetPacket.time p < NetPacket.time p')
  end →
  match Network.earliest f (length q0) q best with
  | None => Forall (λ p, f p = false) (q0 ++ q)
  | Some (i, p) => (q0 ++ q) !! i = Some p ∧ f p = true ∧
      ∀ j p', (q0 ++ q) !! j = Some p' → f p' = true →
        NetPacket.time p ≤ NetPacket.time p' ∧ ((j < i)%nat → NetPacket.time p < NetPacket.time p')
  end.
Proof.
  revert q0 best. induction q as [|p q IH]; intros q0 best Hb; cbn [Network.earliest]; [by rewrite app_nil_r|].
  specialize (IH (q0 ++ [p])). rewrite length_app, Nat.add_1_r, <- app_assoc in IH. apply IH. clear IH.
  assert (∀ j p', (q0 ++ [p]) !! j = Some p' → q0 !! j = Some p' ∨ j = length q0 ∧ p' = p) as Hj.
  { intros j p' [?|[? Hl]]%lookup_app_Some; [by left|]. right.
    apply list_lookup_singleton_Some in Hl as [? <-]. split; [lia|done]. }
  destruct (f p) eqn:Ef; cbn [andb].
  - destruct best as [[i b]|].
    + destruct Hb as (H1 & H2 & H3). pose proof (lookup_lt_Some _ _ _ H1).
      destruct (NetPacket.time b >? NetPacket.time p) eqn:Et; breflect.
      * rewrite lookup_app_r, Nat.sub_diag by lia. split_and!; [done|done|]. intros j p' [Hp|[-> ->]]%Hj Hf; [|lia].
        destruct (H3 j p' Hp Hf). lia.
      * rewrite lookup_app_l by lia. split_and!; [done|done|]. intros j p' [Hp|[-> ->]]%Hj Hf; [by apply (H3 j)|lia].
    + rewrite lookup_app_r, Nat.sub_diag by lia. split_and!; [done|done|]. intros j p' [Hp|[-> ->]]%Hj Hf; [|lia].
      rewrite Forall_lookup in Hb. rewrite (Hb _ _ Hp) in Hf. done.
  - destruct best as [[i b]|]; [|apply Forall_app; split; [done|by constructor]].
    destruct Hb as (H1 & H2 & H3). pose proof (lookup_lt_Some _ _ _ H1). rewrite lookup_app_l by lia.
    split_and!; [done|done|]. intros j p' [Hp|[-> ->]]%Hj Hf; [by apply (H3 j)|congruence].
Qed.

(** The packets [netRecv] looks for. *)
Definition wanted n (m : NetMatch.NetMatch) : NetPacket Msg → bool :=
  Network.matches (Network.match_senders (Network._numMod n) m) (Network.match_types m)
    (Network.match_receiver (Network._tid n) m).

(** A queue as [netPullFromTransport] leaves it: packets for this tile, from
    tiles that exist. *)
Definition queue_ok n : Prop :=
  Forall (λ pkt, 0 ≤ tile_id (NetPacket.sender pkt) < Network._numMod n ∧
    (tile_id (NetPacket.receiver pkt) = Network._tid n ∨ tile_id (NetPacket.receiver pkt) = NetPacket.BROADCAST))
    (Network._netQueue n).

(** The latency that receiving a packet costs the core. *)
Definition recv_latency n pkt : list Z :=
  if NetPacket.time pkt >? Network._cycle_count n then [NetPacket.time pkt - Network._cycle_count n] else [].

Lemma queue_recv_spec pkt n :
  Network.queue_recv_instruction pkt n =
  Ok (tt, n <| Network._recv_instructions ::= λ l, l ++ recv_latency n pkt |>).
Proof.
  unfold Network.queue_recv_instruction, recv_latency, when, gets, mbind, M_bind, id.
  destruct (NetPacket.time pkt >? Network._cycle_count n); [done|]. destruct n. cbn. by rewrite app_nil_r.
Qed.

(** C36: [netRecv] returns the first packet of the queue that matches and removes
    only it, keeping the order of the others, and waits exactly when none
    matches; [netRecvNonBlock] returns a matching packet of the least time, the
    first of those, and removes only it, but reads behind the end of the queue
    when none matches.  Both charge the core the time until the packet arrives. *)
Theorem receive_order n (m : NetMatch.NetMatch) :
  queue_ok n →
  match Network.netRecv m n with
  | Ok (None, n') => n' = n ∧ Forall (λ pkt, wanted n m pkt = false) (Network._netQueue n)
  | Ok (Some pkt, n') => ∃ q1 q2, Network._netQueue n = q1 ++ pkt :: q2 ∧ wanted n m pkt = true ∧
      Forall (λ p, wanted n m p = false) q1 ∧
      n' = n <| Network._netQueue := q1 ++ q2 |> <| Network._recv_instructions ::= λ l, l ++ recv_latency n pkt |>
  | Fail _ => False
  end ∧
  match Network.netRecvNonBlock m n with
  | Ok (pkt, n') => ∃ i p, pkt = p <| NetPacket.found := true |> ∧ Network._netQueue n !! i = Some p ∧ wanted n m p = true ∧
      (∀ j p', Network._netQueue n !! j = Some p' → wanted n m p' = true →
         NetPacket.time p ≤ NetPacket.time p' ∧ ((j < i)%nat → NetPacket.time p < NetPacket.time p')) ∧
      n' = n <| Network._netQueue ::= delete i |> <| Network._recv_instructions ::= λ l, l ++ recv_latency n p |>
  | Fail e => e = ERange "netRecvNonBlock: *_netQueue.end()" ∧ Forall (λ pkt, wanted n m pkt = false) (Network._netQueue n)
  end.
Proof.
  intros Hq. split.
  - unfold Network.netRecv, gets, mbind, M_bind. pose proof (take_first_spec (wanted n m) (Network._netQueue n)) as Hf.
    unfold wanted, id in *. destruct (Network.take_first _ _) as [[p q]|]; [|done].
    destruct Hf as (q1 & q2 & E1 & -> & H1 & H2).
    unfold queue_ok in Hq. rewrite E1 in Hq. apply Forall_app in Hq as [_ [[Hs Hr] _]%Forall_cons].
    unfold assert. rewrite (proj2 (Z.leb_le _ _)), (proj2 (Z.ltb_lt _ _)) by lia. cbn [andb].
    assert ((tile_id (NetPacket.receiver p) =? Network._tid n) ||
            (tile_id (NetPacket.receiver p) =? NetPacket.BROADCAST) = true) as ->.
    { destruct Hr as [-> | ->]; rewrite Z.eqb_refl; [done|apply orb_true_r]. }
    unfold modify, mret, M_ret. rewrite queue_recv_spec. by exists q1, q2.
  - unfold Network.netRecvNonBlock, gets, mbind, M_bind.
    pose proof (earliest_spec (wanted n m) [] (Network._netQueue n) None (Forall_nil_2 _)) as Hf. cbn in Hf.
    unfold wanted, id in *. destruct (Network.earliest _ _ _ _) as [[i p]|]; [|done].
    destruct Hf as (H1 & H2 & H3). unfold modify, mret, M_ret. rewrite queue_recv_spec. by exists i, p.
Qed.
End receive.

(** Two packets in the queue of tile 9; the second has the earlier time. *)
Definition sample_queue : Network.Network ShmemMsg.MsgBuf :=
  Network.mkNetwork [] [] 9 18
    [(sample_packet USER_1 2 9) <| NetPacket.time := 7 |>; (sample_packet USER_2 3 9) <| NetPacket.time := 5 |>]
    false (float_of_int 1) 6 [] [].
Lemma receive_order_witness :
  queue_ok sample_queue ∧
  match Network.netRecv NetMatch.make sample_queue with Ok (Some p, _) => NetPacket.time p = 7 | _ => False end ∧
  match Network.netRecvNonBlock NetMatch.make sample_queue with Ok (p, _) => NetPacket.time p = 5 | _ => False end.
Proof.
  assert (queue_ok sample_queue) as Hq.
  { apply Forall_cons. split; [split; [done|by left]|]. apply Forall_cons. split; [split; [done|by left]|]. by apply Forall_nil. }
  destruct (receive_order sample_queue NetMatch.make Hq) as [_ _]. split; [exact Hq|]. vm_compute. split; reflexivity.
Defined.

(** ** Placement *)

(** Appending to one list of a table appends to the table's contents. *)
Lemma concat_zinsert {A} (m : list (list A)) i l k :
  zlookup m i = Some l → concat (zinsert i (l ++ k) m) ≡ₚ concat m ++ k.
Proof.
  unfold zlookup, zinsert. destruct (0 <=? i) eqn:Ei; [|done]. intros Hl.
  rewrite <- (take_drop_middle m _ _ Hl) at 2. rewrite insert_take_drop by by eapply lookup_lt_Some.
  rewrite !concat_app. cbn. rewrite <- !app_assoc. do 2 apply Permutation_app_head. apply Permutation_app_comm.
Qed.

(** Dealing out the clusters of a list. *)
Lemma deal_clusters napp T count : topology_ok napp T → ∀ l m mapping,
  Forall (λ i, 0 ≤ i < NetworkModelAtac._num_clusters T) l →
  foldl (λ acc i,
    m ← acc ;
    tiles ← NetworkModelAtac.getTileIDListInCluster T napp i ;
    let process_num := i `mod` count in
    l ← vget "process_to_tile_mapping" m process_num ;
    vset "process_to_tile_mapping" m process_num (l ++ tiles)) m l = Ok mapping →
  ∃ m0, m = Ok m0 ∧ zlength mapping = zlength m0 ∧
    concat mapping ≡ₚ concat m0 ++ (l ≫= NetworkModelAtac.cluster_tiles T).
Proof.
  intros HT l. induction l as [|i l IH]; intros m mapping Hl Hf; cbn in Hf.
  { exists mapping. split_and!; [done|done|]. by rewrite app_nil_r. }
  apply Forall_cons in Hl as [Hi Hl]. destruct (IH _ _ Hl Hf) as (m1 & Hm1 & Hlen & Hp). clear Hf.
  rewrite (cluster_list napp T HT i Hi) in Hm1. apply res_bind_Ok in Hm1 as (m0 & -> & Hm1). cbn in Hm1.
  apply res_bind_Ok in Hm1 as (k & Hk%vget_Ok & [_ ->]%vset_Ok). exists m0.
  rewrite zlength_zinsert in Hlen. split_and!; [done|done|].
  rewrite Hp, (concat_zinsert _ _ _ _ Hk). cbn. by rewrite app_assoc.
Qed.

(** The ATAC network gives every application tile to exactly one process: it
    has an entry for each process, and the entries together are the tiles, each
    once. *)
Lemma atac_processes_partition napp count (p : NetworkModelAtac.Params) mapping :
  0 < napp < 2 ^ 31 → 0 < NetworkModelAtac.p_cluster_size p < 2 ^ 31 →
  0 < NetworkModelAtac.p_num_access_points_per_cluster p < 2 ^ 31 →
  0 < NetworkModelAtac.p_num_receive_networks_per_cluster p →
  NetworkModelAtac.computeProcessToTileMapping napp count p = Ok mapping →
  zlength mapping = Z.max 0 count ∧ concat mapping ≡ₚ seqZ 0 napp.
Proof.
  intros Hn Hc Ha Hnet Hm. unfold NetworkModelAtac.computeProcessToTileMapping in Hm.
  apply res_bind_Ok in Hm as (T & HT & (u & _ & Hm)%res_bind_Ok). apply topology_init in HT; [|done..].
  apply (deal_clusters napp T count HT) in Hm as (m0 & [= <-] & Hlen & Hp).
  2: { apply Forall_forall. intros i ?%elem_of_seqZ. lia. }
  split; [rewrite Hlen; unfold zlength; rewrite length_replicate; lia|].
  rewrite Hp, (clusters_partition napp T HT). clear. induction (Z.to_nat count) as [|k IH]; [done|exact IH].
Qed.

(** Sixteen tiles in clusters of four, for two processes. *)
Lemma atac_processes_partition_witness :
  match NetworkModelAtac.computeProcessToTileMapping 16 2 (Model.atac sample_params) with
  | Ok m => zlength m = 2 ∧ concat m ≡ₚ seqZ 0 16
  | Fail _ => False
  end.
Proof.
  destruct (NetworkModelAtac.computeProcessToTileMapping 16 2 (Model.atac sample_params)) as [m|e] eqn:Em.
  - apply (atac_processes_partition 16 2 (Model.atac sample_params) m); solve [exact Em | vm_compute; done].
  - assert (succeeded (NetworkModelAtac.computeProcessToTileMapping 16 2 (Model.atac sample_params)) = true) as Hs
      by (vm_compute; reflexivity). rewrite Em in Hs. discriminate Hs.
Defined.

(** Three memory controllers on four tiles: two of them share tile 1. *)
Example memory_controllers_collide :
  NetworkModelEMeshHopByHop.computeMemoryControllerPositions 4 3 = Ok [1; 1; 3].
Proof. vm_compute. reflexivity. Qed.
