(* ===== verification/Instruction.v ===== *)
(** * Instruction: instructions, branch prediction and the core model

    Models tile/core/instruction.{h,cc}, dynamic_instruction_info.h,
    basic_block.h, branch_predictor.cc with one_bit_branch_predictor.cc, and the
    base class of the core models, core_model.{h,cc}.  The two exceptions the
    core models throw keep the changes made before them: [X] is the state monad
    with an [outcome] that is a value or an exception.  A core model runs on its
    own core, so the current core of [getCost] is the core of the model. *)
From S2P Require Import Prelude Utils Double CacheSet Cache Shmem ThreadManager.

(** ** Exceptions *)

Inductive outcome (A : Type) : Type :=
  | Returned (a : A)
  | AbortInstruction
  | InfoNotAvailable.
Arguments Returned {A} a.
Arguments AbortInstruction {A}.
Arguments InfoNotAvailable {A}.

Definition X (S A : Type) : Type := M S (outcome A).
#[export] Instance X_ret S : MRet (X S) := λ A a s, Ok (Returned a, s).
#[export] Instance X_bind S : MBind (X S) := λ A B f m s,
  match m s with
  | Ok (Returned a, s') => f a s'
  | Ok (AbortInstruction, s') => Ok (AbortInstruction, s')
  | Ok (InfoNotAvailable, s') => Ok (InfoNotAvailable, s')
  | Fail e => Fail e
  end.
Definition throw {S A} (o : outcome A) : X S A := λ s, Ok (o, s).
(** An operation that throws nothing. *)
Definition plain {S A} (m : M S A) : X S A := λ s,
  match m s with Ok (a, s') => Ok (Returned a, s') | Fail e => Fail e end.

(** ** Instructions *)

Module Instruction.

Inductive InstructionType :=
  | INST_GENERIC | INST_ADD | INST_SUB | INST_MUL | INST_DIV | INST_FADD | INST_FSUB | INST_FMUL | INST_FDIV
  | INST_JMP | INST_DYNAMIC_MISC | INST_RECV | INST_CKBUFFER | INST_SYNC | INST_SPAWN | INST_STRING | INST_BRANCH.
#[global] Instance InstructionType_eq_dec : EqDecision InstructionType.
Proof. solve_decision. Defined.

Definition INSTRUCTION_NAMES (t : InstructionType) : string :=
  match t with
  | INST_GENERIC => "generic" | INST_ADD => "add" | INST_SUB => "sub" | INST_MUL => "mul" | INST_DIV => "div"
  | INST_FADD => "fadd" | INST_FSUB => "fsub" | INST_FMUL => "fmul" | INST_FDIV => "fdiv" | INST_JMP => "jmp"
  | INST_DYNAMIC_MISC => "dynamic_misc" | INST_RECV => "recv" | INST_CKBUFFER => "ckbuffer" | INST_SYNC => "sync"
  | INST_SPAWN => "spawn" | INST_STRING => "string" | INST_BRANCH => "branch"
  end.

Inductive OperandType := REG | MEMORY | IMMEDIATE.
#[global] Instance OperandType_eq_dec : EqDecision OperandType.
Proof. solve_decision. Defined.
Inductive Direction := READ | WRITE.
#[global] Instance Direction_eq_dec : EqDecision Direction.
Proof. solve_decision. Defined.

Record Operand := mkOperand { m_otype : OperandType; m_value : Z; m_direction : Direction }.
Definition is_operand (t : OperandType) (d : Direction) (o : Operand) : bool :=
  bool_decide (m_otype o = t) && bool_decide (m_direction o = d).

(** The classes derived from [Instruction] that override [getCost]. *)
Inductive Kind :=
  | Static
  | Dynamic (m_cost : Z)
  | Spawn (m_time : Z)
  | Branch.

Record Instruction := mkInstruction {
  m_kind : Kind;
  m_type : InstructionType;
  m_opcode : Z;
  m_address : Z;
  m_size : Z;
  m_operands : list Operand
}.

Definition GenericInstruction (opcode : Z) (ops : list Operand) : Instruction := mkInstruction Static INST_GENERIC opcode 0 0 ops.
Definition ArithInstruction (type : InstructionType) (opcode : Z) (ops : list Operand) : Instruction :=
  mkInstruction Static type opcode 0 0 ops.
Definition JmpInstruction (opcode : Z) (dest : list Operand) : Instruction := mkInstruction Static INST_JMP opcode 0 0 dest.
Definition DynamicInstruction (cost : Z) (type : InstructionType) : Instruction := mkInstruction (Dynamic cost) type 0 0 0 [].
Definition RecvInstruction (cost : Z) : Instruction := DynamicInstruction cost INST_RECV.
Definition CheckBufferInstruction (cost : Z) : Instruction := DynamicInstruction cost INST_CKBUFFER.
Definition SyncInstruction (cost : Z) : Instruction := DynamicInstruction cost INST_SYNC.
Definition SpawnInstruction (time : Z) : Instruction := mkInstruction (Spawn time) INST_SPAWN 0 0 0 [].
Definition BranchInstruction (opcode : Z) (l : list Operand) : Instruction := mkInstruction Branch INST_BRANCH opcode 0 0 l.

(** [setAddress] and [setSize]. *)
Definition placed (address size : Z) (i : Instruction) : Instruction :=
  mkInstruction (m_kind i) (m_type i) (m_opcode i) address size (m_operands i).

Definition isSimpleMemoryLoad (i : Instruction) : bool :=
  let memory_read := existsb (is_operand MEMORY READ) (m_operands i) in
  let reg_write := existsb (is_operand REG WRITE) (m_operands i) in
  match length (m_operands i) with
  | 1%nat => memory_read
  | 2%nat => memory_read && reg_write
  | _ => false
  end.
Definition isDynamic (i : Instruction) : bool :=
  match m_type i with INST_DYNAMIC_MISC | INST_RECV | INST_SYNC | INST_CKBUFFER => true | _ => false end.

(** [initializeStaticInstructionModel]: the table of costs; [getInt] reads the
    configuration file, with 0 for a missing key. *)
Definition initializeStaticInstructionModel (getInt : string → Z) (t : InstructionType) : Z :=
  u32 (getInt (String.append "core/static_instruction_costs/" (INSTRUCTION_NAMES t))).

(** [BasicBlock]. *)
Record BasicBlock := mkBasicBlock { m_dynamic : bool; instructions : list Instruction }.

End Instruction.
Export Instruction (Instruction, mkInstruction, BasicBlock, mkBasicBlock).

Module DynamicInstructionInfo.
Inductive DynamicInstructionInfo :=
  | MEMORY_READ (latency addr num_misses : Z)
  | MEMORY_WRITE (latency addr num_misses : Z)
  | STRING (num_ops : Z)
  | BRANCH (taken : bool) (target : Z).
Definition createMemoryInfo (l a : Z) (dir : Instruction.Direction) (num_misses : Z) : DynamicInstructionInfo :=
  match dir with Instruction.READ => MEMORY_READ l a num_misses | Instruction.WRITE => MEMORY_WRITE l a num_misses end.
Definition createStringInfo (count : Z) : DynamicInstructionInfo := STRING count.
Definition createBranchInfo (taken : bool) (target : Z) : DynamicInstructionInfo := BRANCH taken target.
End DynamicInstructionInfo.
Export DynamicInstructionInfo (DynamicInstructionInfo).

(** ** Branch prediction *)

Module BranchPredictor.

(** [OneBitBranchPredictor] with the counters of its base class. *)
Record BranchPredictor := mkBranchPredictor {
  m_bits : list bool;
  m_correct_predictions : Z;
  m_incorrect_predictions : Z
}.
#[global] Instance eta_BranchPredictor : Eta BranchPredictor := λ b,
  mkBranchPredictor (m_bits b) (m_correct_predictions b) (m_incorrect_predictions b).

(** [BranchPredictor::create]: [None] when branches are not predicted. *)
Definition create (type : string) (size : Z) : res (option BranchPredictor) :=
  if bool_decide (type = "none") then Ok None
  else if bool_decide (type = "one_bit") then Ok (Some (mkBranchPredictor (replicate (Z.to_nat (u32 size)) false) 0 0))
  else Fail (ELog "Invalid branch predictor type.").

Definition index (b : BranchPredictor) (ip : Z) : res Z :=
  check (negb (zlength (m_bits b) =? 0)) (EDivZero "OneBitBranchPredictor") ;;
  Ok (u32 (ip `mod` zlength (m_bits b))).

Definition predict (ip : Z) (b : BranchPredictor) : res bool :=
  i ← index b ip ; vget "m_bits" (m_bits b) i.

Definition updateCounters (predicted actual : bool) (b : BranchPredictor) : BranchPredictor :=
  if Bool.eqb predicted actual then b <| m_correct_predictions ::= λ n, u64 (n + 1) |>
  else b <| m_incorrect_predictions ::= λ n, u64 (n + 1) |>.

Definition update (predicted actual : bool) (ip : Z) (b : BranchPredictor) : res BranchPredictor :=
  let b := updateCounters predicted actual b in
  i ← index b ip ;
  bits ← vset "m_bits" (m_bits b) i actual ;
  Ok (b <| m_bits := bits |>).

End BranchPredictor.

(** ** The base class of the core models *)

Module CoreModel.
Import Instruction.

Record CoreModel := mkCoreModel {
  m_cycle_count : Z;
  m_instruction_count : Z;
  m_frequency : float;
  m_average_frequency : float;
  m_total_time : Z;
  m_checkpointed_cycle_count : Z;
  m_enabled : bool;
  m_basic_block_queue : list BasicBlock;
  m_dynamic_info_queue : list DynamicInstructionInfo;
  m_current_ins_index : Z;
  m_bp : option BranchPredictor.BranchPredictor;
  m_total_recv_instructions : Z;
  m_total_sync_instructions : Z;
  m_total_recv_instruction_stall_cycles : Z;
  m_total_sync_instruction_stall_cycles : Z;
  m_total_memory_stall_cycles : Z;
  m_total_execution_unit_stall_cycles : Z;
  m_total_check_buffer_instructions : Z;
  m_total_check_buffer_instruction_costs : Z;
  m_total_packet_through_chip : Z;
  m_total_packet_transport_delay : Z
}.
#[global] Instance eta_CoreModel : Eta CoreModel := λ c, mkCoreModel
  (m_cycle_count c) (m_instruction_count c) (m_frequency c) (m_average_frequency c) (m_total_time c)
  (m_checkpointed_cycle_count c) (m_enabled c) (m_basic_block_queue c) (m_dynamic_info_queue c)
  (m_current_ins_index c) (m_bp c) (m_total_recv_instructions c) (m_total_sync_instructions c)
  (m_total_recv_instruction_stall_cycles c) (m_total_sync_instruction_stall_cycles c)
  (m_total_memory_stall_cycles c) (m_total_execution_unit_stall_cycles c) (m_total_check_buffer_instructions c)
  (m_total_check_buffer_instruction_costs c) (m_total_packet_through_chip c) (m_total_packet_transport_delay c).

(** The constructor, with the branch predictor of the configuration. *)
Definition make (frequency : float) (bp : option BranchPredictor.BranchPredictor) : CoreModel :=
  mkCoreModel 0 0 frequency (float_of_int 0) 0 0 false [] [] 0 bp 0 0 0 0 0 0 0 0 0 0.

(** The models of the MCP and of the thread spawners stay disabled. *)
Definition enable (tile_id application_tiles : Z) (c : CoreModel) : CoreModel :=
  if tile_id >=? application_tiles then c else c <| m_enabled := true |>.
Definition disable (c : CoreModel) : CoreModel := c <| m_enabled := false |>.

Definition setCycleCount (cycle_count : Z) (c : CoreModel) : CoreModel :=
  c <| m_checkpointed_cycle_count := cycle_count |> <| m_cycle_count := cycle_count |>.

(** *** Frequency *)

(** A number of cycles at [old] as a number of cycles at [new]. *)
Definition rescale (old new : float) (cycles : Z) : res Z :=
  to_u64 "updateInternalVariablesOnFrequencyChange"
    (dmul (ddiv (of_int cycles) (double_of_float old)) (double_of_float new)).

Definition float_of_double (x : double) : float :=
  match x with
  | S754_finite s m e => binary_normalize 24 128 (if s then Z.neg m else Z.pos m) e s
  | _ => x
  end.

(** The product of the average frequency and the time is a [float]. *)
Definition recomputeAverageFrequency (c : CoreModel) : res CoreModel :=
  let cycles_elapsed := of_int (u64 (m_cycle_count c - m_checkpointed_cycle_count c)) in
  let total_cycles_executed :=
    dadd (double_of_float (fmul (m_average_frequency c) (float_of_int (m_total_time c)))) cycles_elapsed in
  let total_time_taken := dadd (of_int (m_total_time c)) (ddiv cycles_elapsed (double_of_float (m_frequency c))) in
  total_time ← to_u64 "recomputeAverageFrequency" total_time_taken ;
  Ok (c <| m_average_frequency := float_of_double (ddiv total_cycles_executed total_time_taken) |>
        <| m_total_time := total_time |>).

Definition updateInternalVariablesOnFrequencyChange (frequency : float) (c : CoreModel) : res CoreModel :=
  c ← recomputeAverageFrequency c ;
  let scale := rescale (m_frequency c) frequency in
  cycles ← scale (m_cycle_count c) ;
  memory ← scale (m_total_memory_stall_cycles c) ;
  execution ← scale (m_total_execution_unit_stall_cycles c) ;
  recv ← scale (m_total_recv_instruction_stall_cycles c) ;
  sync ← scale (m_total_sync_instruction_stall_cycles c) ;
  Ok (c <| m_checkpointed_cycle_count := cycles |> <| m_cycle_count := cycles |> <| m_frequency := frequency |>
        <| m_total_memory_stall_cycles := memory |> <| m_total_execution_unit_stall_cycles := execution |>
        <| m_total_recv_instruction_stall_cycles := recv |> <| m_total_sync_instruction_stall_cycles := sync |>).

(** *** Counters *)

Definition increment_packet_processed_count (c : CoreModel) : CoreModel :=
  c <| m_total_packet_through_chip ::= λ n, u64 (n + 1) |>.
Definition increment_packet_delay (delay : Z) (c : CoreModel) : CoreModel :=
  c <| m_total_packet_transport_delay ::= λ n, u64 (n + delay) |>.

Section model.
(** [Config::getEnablePerformanceModeling], the table of costs and the penalty
    of a wrong prediction. *)
Context (performance_modeling : bool) (costs : InstructionType → Z) (mispredict_penalty : Z).

Definition active (c : CoreModel) : bool := m_enabled c && performance_modeling.

(** *** Queues *)

Definition queueDynamicInstruction (i : Instruction) (c : CoreModel) : CoreModel :=
  if active c then c <| m_basic_block_queue ::= λ q, q ++ [mkBasicBlock true [i]] |> else c.
Definition queueBasicBlock (bb : BasicBlock) (c : CoreModel) : CoreModel :=
  if active c then c <| m_basic_block_queue ::= λ q, q ++ [bb] |> else c.
Definition pushDynamicInstructionInfo (i : DynamicInstructionInfo) (c : CoreModel) : CoreModel :=
  if active c then c <| m_dynamic_info_queue ::= λ q, q ++ [i] |> else c.

Definition popDynamicInstructionInfo : M CoreModel unit :=
  c ← gets id ;
  when (active c)
    (assert (zlength (m_dynamic_info_queue c) >? 0) "popDynamicInstructionInfo" ;;
     assert (zlength (m_dynamic_info_queue c) <? 5000) "Dynamic info queue is growing too big." ;;
     modify (λ c, c <| m_dynamic_info_queue ::= tail |>)).

Definition getDynamicInstructionInfo : X CoreModel DynamicInstructionInfo := λ c,
  match m_dynamic_info_queue c with
  | [] => Ok (InfoNotAvailable, c)
  | i :: _ =>
    if zlength (m_dynamic_info_queue c) <? 5000 then Ok (Returned i, c)
    else Fail (EAssert "Dynamic info queue is growing too big.")
  end.

(** *** The cost of an instruction *)

Definition branch_cost (ip : Z) (taken : bool) : M CoreModel Z :=
  c ← gets id ;
  match m_bp c with
  | None => popDynamicInstructionInfo ;; mret 1
  | Some bp =>
    prediction ← lift (BranchPredictor.predict ip bp) ;
    bp' ← lift (BranchPredictor.update prediction taken ip bp) ;
    modify (λ c, c <| m_bp := Some bp' |>) ;;
    popDynamicInstructionInfo ;;
    mret (if Bool.eqb prediction taken then 1 else mispredict_penalty)
  end.

Definition getCost (i : Instruction) : X CoreModel Z :=
  match m_kind i with
  | Static => plain (mret (costs (m_type i)))
  | Dynamic cost => plain (mret cost)
  | Spawn time => plain (modify (setCycleCount time)) ;; throw AbortInstruction
  | Branch =>
    info ← getDynamicInstructionInfo ;
    match info with
    | DynamicInstructionInfo.BRANCH taken _ => plain (branch_cost (m_address i) taken)
    | _ => plain (fail (EAssert "BranchInstruction::getCost"))
    end
  end.

(** [i->getCost()] again, for the counters: only the types below reach it, whose
    cost is fixed. *)
Definition counted_cost (i : Instruction) : Z :=
  match m_kind i with Dynamic cost => cost | _ => costs (m_type i) end.
Definition updatePipelineStallCounters (i : Instruction) (memory_stall_cycles execution_unit_stall_cycles : Z)
    (c : CoreModel) : CoreModel :=
  let cost := counted_cost i in
  let c :=
    match m_type i with
    | INST_RECV => c <| m_total_recv_instructions ::= λ n, u64 (n + 1) |>
                     <| m_total_recv_instruction_stall_cycles ::= λ n, u64 (n + cost) |>
    | INST_SYNC => c <| m_total_sync_instructions ::= λ n, u64 (n + 1) |>
                     <| m_total_sync_instruction_stall_cycles ::= λ n, u64 (n + cost) |>
    | INST_CKBUFFER => c <| m_total_check_buffer_instructions ::= λ n, u64 (n + 1) |>
                         <| m_total_check_buffer_instruction_costs ::= λ n, u64 (n + cost) |>
    | _ => c
    end in
  c <| m_total_memory_stall_cycles ::= λ n, u64 (n + memory_stall_cycles) |>
    <| m_total_execution_unit_stall_cycles ::= λ n, u64 (n + execution_unit_stall_cycles) |>.
End model.
End CoreModel.
