(* ===== verification/CoreModels.v ===== *)
(** * CoreModels: the simple and the out-of-order-memory core model

    Models tile/core/models/simple_core_model.{h,cc} and iocoom_core_model.{h,cc}
    and, against the interface [PerformanceModel], [CoreModel::iterate].  [Mem]
    is the memory system below the core; [readInstructionMemory] fetches an
    instruction at a cycle count and returns the latency.  The event counters for
    the power model (McPAT) are not part of the model. *)
From S2P Require Import Prelude Utils Double CacheSet Cache Shmem ThreadManager Instruction.
Import Instruction.

(** A core model and the memory system it fetches instructions from. *)
Record CoreState (Mod Mem : Type) := mkCoreState { model : Mod; memory : Mem }.
Arguments mkCoreState {Mod Mem}.
Arguments model {Mod Mem}.
Arguments memory {Mod Mem}.
#[global] Instance eta_CoreState Mod Mem : Eta (CoreState Mod Mem) := λ s, mkCoreState (model s) (memory s).

(** The memory system as the core models see it: [Core::readInstructionMemory]
    at a cycle count. *)
Class InstructionMemory (Mem : Type) := {
  readInstructionMemory : Z → Z → Z → M Mem Z
}.

(** The parts of the configuration the models read. *)
Class CoreConfig := {
  performance_modeling : bool;
  instruction_costs : InstructionType → Z;
  mispredict_penalty : Z
}.

(** The interface of [CoreModel] that derived classes implement. *)
Class PerformanceModel (Mod Mem : Type) := {
  base : Mod → CoreModel.CoreModel;
  set_base : CoreModel.CoreModel → Mod → Mod;
  handleInstruction : Instruction → X (CoreState Mod Mem) unit
}.

(** An operation of the base class inside a derived one. *)
Section in_base.
Context {Mod Mem : Type} (get : Mod → CoreModel.CoreModel) (put : CoreModel.CoreModel → Mod → Mod).
Definition in_core_model {A} (op : M CoreModel.CoreModel A) : M (CoreState Mod Mem) A :=
  zoom (λ s, get (model s)) (λ c s, s <| model ::= put c |>) op.
End in_base.

(** *** [modelICache] *)
Section fetch.
Context {Mod Mem : Type} `{InstructionMemory Mem} (get : Mod → CoreModel.CoreModel).
Definition modelICache (ins_address ins_size : Z) : M (CoreState Mod Mem) Z :=
  s ← gets id ;
  zoom memory (λ m s, s <| memory := m |>)
    (readInstructionMemory (CoreModel.m_cycle_count (get (model s))) ins_address ins_size).
End fetch.

(** ** The simple model *)

Module SimpleCoreModel.

Record SimpleCoreModel := mkSimpleCoreModel {
  _base : CoreModel.CoreModel;
  m_total_l1icache_stall_cycles : Z;
  m_total_l1dcache_read_stall_cycles : Z;
  m_total_l1dcache_write_stall_cycles : Z
}.
#[global] Instance eta_SimpleCoreModel : Eta SimpleCoreModel := λ m, mkSimpleCoreModel
  (_base m) (m_total_l1icache_stall_cycles m) (m_total_l1dcache_read_stall_cycles m)
  (m_total_l1dcache_write_stall_cycles m).

Definition make (c : CoreModel.CoreModel) : SimpleCoreModel := mkSimpleCoreModel c 0 0 0.

Definition updateInternalVariablesOnFrequencyChange (frequency : float) (m : SimpleCoreModel) : res SimpleCoreModel :=
  let scale := CoreModel.rescale (CoreModel.m_frequency (_base m)) frequency in
  i ← scale (m_total_l1icache_stall_cycles m) ;
  r ← scale (m_total_l1dcache_read_stall_cycles m) ;
  w ← scale (m_total_l1dcache_write_stall_cycles m) ;
  c ← CoreModel.updateInternalVariablesOnFrequencyChange frequency (_base m) ;
  Ok (mkSimpleCoreModel c i r w).

Section simple.
Context {Mem : Type} `{InstructionMemory Mem} `{CoreConfig}.
Abbreviation St := (CoreState SimpleCoreModel Mem).
Definition with_base {A} (op : M CoreModel.CoreModel A) : M St A := in_core_model _base (λ c m, m <| _base := c |>) op.
Definition count (f : SimpleCoreModel → SimpleCoreModel) : M St unit := modify (λ s, s <| model ::= f |>).

(** The loop over the operands; returns the stall cycles. *)
Fixpoint operands (ops : list Operand) (memory_stall_cycles : Z) : X St Z :=
  match ops with
  | [] => mret memory_stall_cycles
  | o :: ops =>
    if bool_decide (m_otype o = MEMORY) then
      info ← (with_base CoreModel.getDynamicInstructionInfo : X St _) ;
      latency ← plain (
        match m_direction o, info with
        | READ, DynamicInstructionInfo.MEMORY_READ latency _ _ =>
          count (λ m, m <| m_total_l1dcache_read_stall_cycles ::= λ n, u64 (n + latency) |>) ;; mret latency
        | READ, _ => fail (EAssert "Expected memory read info")
        | WRITE, DynamicInstructionInfo.MEMORY_WRITE latency _ _ =>
          count (λ m, m <| m_total_l1dcache_write_stall_cycles ::= λ n, u64 (n + latency) |>) ;; mret latency
        | WRITE, _ => fail (EAssert "Expected memory write info")
        end) ;
      plain (with_base (CoreModel.popDynamicInstructionInfo performance_modeling)) ;;
      operands ops (u64 (memory_stall_cycles + latency))
    else operands ops memory_stall_cycles
  end.

Definition handleInstruction_ (i : Instruction) : X St unit :=
  cost ← (with_base (CoreModel.getCost performance_modeling instruction_costs mispredict_penalty i) : X St _) ;
  latency ← plain (modelICache _base (m_address i) (m_size i)) ;
  plain (count (λ m, m <| m_total_l1icache_stall_cycles ::= λ n, u64 (n + latency) |>)) ;;
  memory_stall_cycles ← operands (m_operands i) (u64 latency) ;
  plain (
    execution_unit_stall_cycles ←
      (if isDynamic i then
         assert (memory_stall_cycles =? 0) "SimpleCoreModel::handleInstruction" ;;
         with_base (modify (λ c, c <| CoreModel.m_cycle_count ::= λ n, u64 (n + cost) |>)) ;;
         mret 0
       else
         with_base (modify (λ c, c <| CoreModel.m_cycle_count ::= λ n, u64 (n + u64 (memory_stall_cycles + cost)) |>)) ;;
         mret cost) ;
    with_base (modify (λ c,
      CoreModel.updatePipelineStallCounters instruction_costs i memory_stall_cycles execution_unit_stall_cycles
        (c <| CoreModel.m_instruction_count ::= λ n, u64 (n + 1) |>)))).
End simple.

#[global] Instance simple_model {Mem} `{InstructionMemory Mem} `{CoreConfig} : PerformanceModel SimpleCoreModel Mem := {|
  base := _base;
  set_base c m := m <| _base := c |>;
  handleInstruction := handleInstruction_
|}.
End SimpleCoreModel.

(** ** In-order core, out-of-order memory *)

Module IOCOOMCoreModel.

(** The unit with the earliest time; [i] is the position of the first element. *)
Fixpoint earliest_unit (l : list Z) (i unit best : Z) : Z :=
  match l with
  | [] => unit
  | x :: l => if x <? best then earliest_unit l (i + 1) i x else earliest_unit l (i + 1) unit best
  end.

(** The first unit that is free at [time]. *)
Definition free_unit (time : Z) (l : list Z) : option Z :=
  (λ p, Z.of_nat p.1) <$> list_find (λ x, x ≤ time) l.

(** The unit a request at [time] gets, and when it gets it. *)
Definition allocate_unit (site : string) (time : Z) (scoreboard : list Z) : res (Z * Z) :=
  match free_unit time scoreboard with
  | Some i => Ok (i, time)
  | None =>
    first ← vget site scoreboard 0 ;
    let unit := earliest_unit scoreboard 0 0 first in
    start ← vget site scoreboard unit ;
    Ok (unit, start)
  end.

Module LoadBuffer.
Record LoadBuffer := mkLoadBuffer { m_scoreboard : list Z }.
Definition make (num_units : Z) : LoadBuffer := mkLoadBuffer (replicate (Z.to_nat (u32 num_units)) 0).
Definition execute (time occupancy : Z) (b : LoadBuffer) : res (Z * LoadBuffer) :=
  us ← allocate_unit "LoadBuffer" time (m_scoreboard b) ;
  l ← vset "LoadBuffer" (m_scoreboard b) us.1 (u64 (us.2 + occupancy)) ;
  Ok (us.2, mkLoadBuffer l).
End LoadBuffer.

Module StoreBuffer.
Inductive Status := VALID | COMPLETED | NOT_FOUND.
#[global] Instance Status_eq_dec : EqDecision Status.
Proof. solve_decision. Defined.
Record StoreBuffer := mkStoreBuffer { m_scoreboard : list Z; m_addresses : list Z }.
Definition make (num_entries : Z) : StoreBuffer :=
  mkStoreBuffer (replicate (Z.to_nat (u32 num_entries)) 0) (replicate (Z.to_nat (u32 num_entries)) 0).

Definition executeStore (time occupancy addr : Z) (b : StoreBuffer) : res (Z * StoreBuffer) :=
  match list_find (λ a, a = addr) (m_addresses b) with
  | Some (i, _) =>
    l ← vset "StoreBuffer" (m_scoreboard b) (Z.of_nat i) (u64 (time + occupancy)) ;
    Ok (time, mkStoreBuffer l (m_addresses b))
  | None =>
    us ← allocate_unit "StoreBuffer" time (m_scoreboard b) ;
    l ← vset "StoreBuffer" (m_scoreboard b) us.1 (u64 (us.2 + occupancy)) ;
    a ← vset "StoreBuffer" (m_addresses b) us.1 addr ;
    Ok (us.2, mkStoreBuffer l a)
  end.

Definition isAddressAvailable (time addr : Z) (b : StoreBuffer) : Status :=
  if existsb (λ p, (p.2 =? addr) && (p.1 >=? time)) (zip (m_scoreboard b) (m_addresses b)) then VALID else NOT_FOUND.
End StoreBuffer.

Inductive CoreUnit := INVALID_UNIT | LOAD_UNIT | STORE_UNIT | EXECUTION_UNIT.
#[global] Instance CoreUnit_eq_dec : EqDecision CoreUnit.
Proof. solve_decision. Defined.

Record IOCOOMCoreModel := mkIOCOOMCoreModel {
  _base : CoreModel.CoreModel;
  m_register_scoreboard : list Z;
  m_register_wait_unit_list : list CoreUnit;
  m_store_buffer : StoreBuffer.StoreBuffer;
  m_load_buffer : LoadBuffer.LoadBuffer;
  m_total_load_buffer_stall_cycles : Z;
  m_total_store_buffer_stall_cycles : Z;
  m_total_l1icache_stall_cycles : Z;
  m_total_intra_ins_l1dcache_read_stall_cycles : Z;
  m_total_inter_ins_l1dcache_read_stall_cycles : Z;
  m_total_l1dcache_write_stall_cycles : Z;
  m_total_intra_ins_execution_unit_stall_cycles : Z;
  m_total_inter_ins_execution_unit_stall_cycles : Z
}.
#[global] Instance eta_IOCOOMCoreModel : Eta IOCOOMCoreModel := λ m, mkIOCOOMCoreModel
  (_base m) (m_register_scoreboard m) (m_register_wait_unit_list m) (m_store_buffer m) (m_load_buffer m)
  (m_total_load_buffer_stall_cycles m) (m_total_store_buffer_stall_cycles m) (m_total_l1icache_stall_cycles m)
  (m_total_intra_ins_l1dcache_read_stall_cycles m) (m_total_inter_ins_l1dcache_read_stall_cycles m)
  (m_total_l1dcache_write_stall_cycles m) (m_total_intra_ins_execution_unit_stall_cycles m)
  (m_total_inter_ins_execution_unit_stall_cycles m).

Definition make (c : CoreModel.CoreModel) (num_store_buffer_entries num_outstanding_loads : Z) : IOCOOMCoreModel :=
  mkIOCOOMCoreModel c (replicate 512 0) (replicate 512 INVALID_UNIT)
    (StoreBuffer.make num_store_buffer_entries) (LoadBuffer.make num_outstanding_loads) 0 0 0 0 0 0 0 0.

Definition updateInternalVariablesOnFrequencyChange (frequency : float) (m : IOCOOMCoreModel) : res IOCOOMCoreModel :=
  let scale := CoreModel.rescale (CoreModel.m_frequency (_base m)) frequency in
  a ← scale (m_total_load_buffer_stall_cycles m) ;
  b ← scale (m_total_store_buffer_stall_cycles m) ;
  c ← scale (m_total_l1icache_stall_cycles m) ;
  d ← scale (m_total_intra_ins_l1dcache_read_stall_cycles m) ;
  e ← scale (m_total_inter_ins_l1dcache_read_stall_cycles m) ;
  f ← scale (m_total_l1dcache_write_stall_cycles m) ;
  g ← scale (m_total_intra_ins_execution_unit_stall_cycles m) ;
  h ← scale (m_total_inter_ins_execution_unit_stall_cycles m) ;
  base ← CoreModel.updateInternalVariablesOnFrequencyChange frequency (_base m) ;
  Ok (mkIOCOOMCoreModel base (m_register_scoreboard m) (m_register_wait_unit_list m) (m_store_buffer m)
        (m_load_buffer m) a b c d e f g h).

(** The times the register operands are ready, for those that wait for the load
    unit and for those that wait for the execution unit. *)
Fixpoint register_reads (m : IOCOOMCoreModel) (instruction_ready : Z) (ops : list Operand) (load_wait execution_wait : Z) :
    res (Z * Z) :=
  match ops with
  | [] => Ok (load_wait, execution_wait)
  | o :: ops =>
    if is_operand REG READ o then
      check (m_value o <? zlength (m_register_scoreboard m)) (EAssert "Register value out of range") ;;
      time ← vget "m_register_scoreboard" (m_register_scoreboard m) (m_value o) ;
      unit ← vget "m_register_wait_unit_list" (m_register_wait_unit_list m) (m_value o) ;
      match unit with
      | LOAD_UNIT => register_reads m instruction_ready ops (Z.max load_wait time) execution_wait
      | EXECUTION_UNIT => register_reads m instruction_ready ops load_wait (Z.max execution_wait time)
      | _ =>
        check (time <=? instruction_ready) (EAssert "Unrecognized Core Unit") ;;
        register_reads m instruction_ready ops load_wait execution_wait
      end
    else register_reads m instruction_ready ops load_wait execution_wait
  end.

Section iocoom.
Context {Mem : Type} `{InstructionMemory Mem} `{CoreConfig}.
Abbreviation St := (CoreState IOCOOMCoreModel Mem).
Definition with_base {A} (op : M CoreModel.CoreModel A) : M St A := in_core_model _base (λ c m, m <| _base := c |>) op.
Definition on_model {A} (op : M IOCOOMCoreModel A) : M St A := zoom model (λ m s, s <| model := m |>) op.

(** The time a load starts and its latency: a store that is still in the buffer
    serves it at once. *)
Definition executeLoad (time latency addr : Z) : M IOCOOMCoreModel (Z * Z) :=
  m ← gets id ;
  if bool_decide (StoreBuffer.isAddressAvailable time addr (m_store_buffer m) = StoreBuffer.VALID) then mret (time, 0)
  else
    sb ← lift (LoadBuffer.execute time latency (m_load_buffer m)) ;
    modify (λ m, m <| m_load_buffer := sb.2 |>) ;;
    mret (sb.1, latency).

Definition executeStore (time latency addr : Z) : M IOCOOMCoreModel Z :=
  m ← gets id ;
  sb ← lift (StoreBuffer.executeStore time latency addr (m_store_buffer m)) ;
  modify (λ m, m <| m_store_buffer := sb.2 |>) ;;
  mret sb.1.

(** The memory operands: when the load buffer and the read operands are ready,
    and the information about the writes. *)
Fixpoint memory_operands (ops : list Operand) (ready load_buffer_ready operands_ready : Z) (write_info : list (Z * Z)) :
    X St (Z * Z * list (Z * Z)) :=
  match ops with
  | [] => mret (load_buffer_ready, operands_ready, write_info)
  | o :: ops =>
    if bool_decide (m_otype o = MEMORY) then
      info ← (with_base CoreModel.getDynamicInstructionInfo : X St _) ;
      match m_direction o, info with
      | READ, DynamicInstructionInfo.MEMORY_READ latency addr _ =>
        load ← plain (on_model (executeLoad ready latency addr)) ;
        plain (with_base (CoreModel.popDynamicInstructionInfo performance_modeling)) ;;
        memory_operands ops ready (Z.max load_buffer_ready load.1) (Z.max operands_ready (u64 (load.1 + load.2))) write_info
      | WRITE, DynamicInstructionInfo.MEMORY_WRITE latency addr _ =>
        plain (with_base (CoreModel.popDynamicInstructionInfo performance_modeling)) ;;
        memory_operands ops ready load_buffer_ready operands_ready (write_info ++ [(latency, addr)])
      | _, _ => plain (fail (EAssert "Expected memory info"))
      end
    else memory_operands ops ready load_buffer_ready operands_ready write_info
  end.

(** The registers an instruction writes. *)
Definition register_writes (i : Instruction) (time : Z) : M IOCOOMCoreModel unit :=
  mfor (m_operands i) (λ o,
    when (is_operand REG WRITE o)
      (m ← gets id ;
       l ← lift (vset "m_register_scoreboard" (m_register_scoreboard m) (m_value o) time) ;
       u ← lift (vset "m_register_wait_unit_list" (m_register_wait_unit_list m) (m_value o)
                   (if isSimpleMemoryLoad i then LOAD_UNIT else EXECUTION_UNIT)) ;
       modify (λ m, m <| m_register_scoreboard := l |> <| m_register_wait_unit_list := u |>))).

(** The memory locations an instruction writes: when the store buffer is ready,
    whether there is one, and the information left over. *)
Fixpoint memory_writes (ops : list Operand) (time store_buffer_ready : Z) (has_write : bool) (write_info : list (Z * Z)) :
    M IOCOOMCoreModel (Z * bool * list (Z * Z)) :=
  match ops with
  | [] => mret (store_buffer_ready, has_write, write_info)
  | o :: ops =>
    if is_operand MEMORY WRITE o then
      match write_info with
      | [] => fail (ERange "write_info.front()")
      | (latency, addr) :: write_info =>
        store_time ← executeStore time latency addr ;
        memory_writes ops time (Z.max store_buffer_ready store_time) true write_info
      end
    else memory_writes ops time store_buffer_ready has_write write_info
  end.

(** The points in time of a static instruction, in their order. *)
Record Times := mkTimes {
  t_instruction_ready : Z;
  t_execution_wait : Z;
  t_registers_ready : Z;
  t_load_buffer_ready : Z;
  t_operands_ready : Z;
  t_write_ready : Z;
  t_store_buffer_ready : Z;
  t_has_write : bool
}.

(** The cycle count after the instruction and the stall cycles of memory and
    execution unit; each interval is charged to one of them and counted. *)
Definition account (i : Instruction) (t : Times) : M IOCOOMCoreModel (Z * Z) :=
  let l1icache now := u64 (t_instruction_ready t - now) in
  let inter_execution := u64 (t_execution_wait t - t_instruction_ready t) in
  let inter_l1dcache := u64 (t_registers_ready t - t_execution_wait t) in
  let load_buffer := u64 (t_load_buffer_ready t - t_registers_ready t) in
  let intra_l1dcache := u64 (t_operands_ready t - t_load_buffer_ready t) in
  let intra_execution := u64 (t_write_ready t - t_operands_ready t) in
  let store_buffer := u64 (t_store_buffer_ready t - t_write_ready t) in
  now ← gets (λ m, CoreModel.m_cycle_count (_base m)) ;
  let advance time := modify (λ m, m <| _base ::= λ c, c <| CoreModel.m_cycle_count := u64 (time + 1) |> |>) in
  modify (λ m, m
    <| m_total_l1icache_stall_cycles ::= λ n, u64 (n + l1icache now) |>
    <| m_total_inter_ins_execution_unit_stall_cycles ::= λ n, u64 (n + inter_execution) |>
    <| m_total_inter_ins_l1dcache_read_stall_cycles ::= λ n, u64 (n + inter_l1dcache) |>
    <| m_total_load_buffer_stall_cycles ::= λ n, u64 (n + load_buffer) |>) ;;
  let memory := u64 (l1icache now + inter_l1dcache + load_buffer) in
  advance (t_load_buffer_ready t) ;;
  if isSimpleMemoryLoad i then mret (memory, inter_execution) else
  modify (λ m, m <| m_total_intra_ins_l1dcache_read_stall_cycles ::= λ n, u64 (n + intra_l1dcache) |>) ;;
  let memory := u64 (memory + intra_l1dcache) in
  advance (t_operands_ready t) ;;
  if negb (t_has_write t) then mret (memory, inter_execution) else
  modify (λ m, m
    <| m_total_intra_ins_execution_unit_stall_cycles ::= λ n, u64 (n + intra_execution) |>
    <| m_total_store_buffer_stall_cycles ::= λ n, u64 (n + store_buffer) |>) ;;
  advance (t_store_buffer_ready t) ;;
  mret (u64 (memory + store_buffer), u64 (inter_execution + intra_execution)).

Definition handleInstruction_ (i : Instruction) : X St unit :=
  cost ← (with_base (CoreModel.getCost performance_modeling instruction_costs mispredict_penalty i) : X St _) ;
  now ← plain (gets (λ s, CoreModel.m_cycle_count (_base (model s)))) ;
  latency ← plain (modelICache _base (m_address i) (m_size i)) ;
  let instruction_ready := u64 (now + u64 (latency - 1)) in
  s ← plain (gets id) ;
  waits ← plain (lift (register_reads (model s) instruction_ready (m_operands i) instruction_ready instruction_ready)) ;
  let registers_ready := Z.max waits.1 waits.2 in
  mem ← memory_operands (m_operands i) registers_ready registers_ready registers_ready [] ;
  let '(load_buffer_ready, operands_ready, write_info) := mem in
  plain (
    assert (operands_ready >=? load_buffer_ready) "IOCOOMCoreModel::handleInstruction" ;;
    let write_ready := u64 (operands_ready + cost) in
    on_model (register_writes i write_ready) ;;
    stores ← on_model (memory_writes (m_operands i) write_ready write_ready false write_info) ;
    let '(store_buffer_ready, has_write, rest) := stores in
    stalls ←
      (if isDynamic i then
         with_base (modify (λ c, c <| CoreModel.m_cycle_count ::= λ n, u64 (n + cost) |>)) ;; mret (0, 0)
       else
         on_model (account i (mkTimes instruction_ready waits.2 registers_ready load_buffer_ready operands_ready
                                write_ready store_buffer_ready has_write))) ;
    assert (bool_decide (rest = [])) "Some write info left over?" ;;
    with_base (modify (λ c,
      CoreModel.updatePipelineStallCounters instruction_costs i stalls.1 stalls.2
        (c <| CoreModel.m_instruction_count ::= λ n, u64 (n + 1) |>)))).
End iocoom.

#[global] Instance iocoom_model {Mem} `{InstructionMemory Mem} `{CoreConfig} : PerformanceModel IOCOOMCoreModel Mem := {|
  base := _base;
  set_base c m := m <| _base := c |>;
  handleInstruction := handleInstruction_
|}.
End IOCOOMCoreModel.

(** ** Running the instructions that are queued *)

Module Iterate.
Section iterate.
Context {Mod Mem : Type} `{PerformanceModel Mod Mem}.
Abbreviation St := (CoreState Mod Mem).
Definition on_base (f : CoreModel.CoreModel → CoreModel.CoreModel) : M St unit :=
  modify (λ s, s <| model ::= λ m, set_base (f (base m)) m |>).

(** The rest of a basic block; [false] when information is missing. *)
Fixpoint run_block (instrs : list Instruction) : M St bool :=
  match instrs with
  | [] => mret true
  | i :: instrs =>
    o ← handleInstruction i ;
    match o with
    | InfoNotAvailable => mret false
    | _ => on_base (λ c, c <| CoreModel.m_current_ins_index ::= λ n, u32 (n + 1) |>) ;; run_block instrs
    end
  end.

Fixpoint iterate_loop (fuel : nat) : M St unit :=
  s ← gets id ;
  let c := base (model s) in
  match CoreModel.m_basic_block_queue c with
  | bb :: _ :: _ =>
    match fuel with
    | 0%nat => fail (EFuel "iterate")
    | S fuel =>
      done ← run_block (drop (Z.to_nat (CoreModel.m_current_ins_index c)) (instructions bb)) ;
      if done : bool then
        on_base (λ c, c <| CoreModel.m_basic_block_queue ::= tail |> <| CoreModel.m_current_ins_index := 0 |>) ;;
        iterate_loop fuel
      else skip
    end
  | _ => skip
  end.

(** Every round takes a block off the queue. *)
Definition iterate : M St unit := λ s,
  iterate_loop (length (CoreModel.m_basic_block_queue (base (model s)))) s.
End iterate.
End Iterate.
