(* ===== verification/CoreProofs.v ===== *)
(** * CoreProofs: what the parts of a core model leave alone

    [keeps f op]: the operation [op] does not change [f], whatever its outcome;
    inversion of the exception monad; the units of the load and store buffers. *)
From S2P Require Import Prelude Utils Double CacheSet Cache Shmem ThreadManager Instruction CoreModels.
Import Instruction.

(** ** The exception monad *)

Lemma X_bind_Returned {S A B} (m : X S A) (k : A → X S B) s b s' :
  (m ≫= k) s = Ok (Returned b, s') ↔ ∃ a s1, m s = Ok (Returned a, s1) ∧ k a s1 = Ok (Returned b, s').
Proof. unfold mbind, X_bind. destruct (m s) as [[[a| |] s1]|e]; naive_solver. Qed.
Lemma plain_Returned {S A} (m : M S A) s a s' : plain m s = Ok (Returned a, s') → m s = Ok (a, s').
Proof. unfold plain. destruct (m s) as [[b s1]|e]; naive_solver. Qed.
Lemma X_ret_Returned {S A} (a b : A) (s s' : S) : (mret a : X S A) s = Ok (Returned b, s') ↔ b = a ∧ s' = s.
Proof. unfold mret, X_ret. naive_solver. Qed.

(** [xrun_inv] decomposes an instruction that has returned. *)
Ltac xrun_inv :=
  repeat match goal with
  | H : (@mbind (X _) _ _ _ _ _) _ = Ok (Returned _, _) |- _ => apply X_bind_Returned in H as (? & ? & ? & ?)
  | H : plain _ _ = Ok (Returned _, _) |- _ => apply plain_Returned in H
  | H : (@mret (X _) _ _ _) _ = Ok (Returned _, _) |- _ => apply X_ret_Returned in H as [? ?]
  end.

Section keeps.
Context {S B : Type} (f : S → B).
Definition keeps {A} (m : M S A) : Prop := ∀ s a s', m s = Ok (a, s') → f s' = f s.

Lemma keep_ret {A} (a : A) : keeps (mret a : M S A).
Proof. intros s b s' Hs. by run_inv. Qed.
Lemma keep_xret {A} (a : A) : keeps (mret a : X S A).
Proof. intros s b s' [= _ <-]. done. Qed.
Lemma keep_bind {A A'} (m : M S A) (k : A → M S A') : keeps m → (∀ a, keeps (k a)) → keeps (m ≫= k).
Proof. intros Hm Hk s b s' Hs. apply M_bind_Ok in Hs as (a & s1 & H1 & H2). by rewrite (Hk _ _ _ _ H2), (Hm _ _ _ H1). Qed.
Lemma keep_xbind {A A'} (m : X S A) (k : A → X S A') : keeps m → (∀ a, keeps (k a)) → keeps (m ≫= k).
Proof.
  intros Hm Hk s b s' Hs. unfold mbind, X_bind in Hs. destruct (m s) as [[[a| |] s1]|e] eqn:E1; [| | |done].
  - by rewrite (Hk _ _ _ _ Hs), (Hm _ _ _ E1).
  - injection Hs as <- <-. by apply (Hm _ _ _ E1).
  - injection Hs as <- <-. by apply (Hm _ _ _ E1).
Qed.
Lemma keep_plain {A} (m : M S A) : keeps m → keeps (plain m).
Proof. intros Hm s o s' Hs. unfold plain in Hs. destruct (m s) as [[a s1]|e] eqn:E; [|done]. injection Hs as <- <-. by apply (Hm _ _ _ E). Qed.
Lemma keep_throw {A} (o : outcome A) : keeps (throw o).
Proof. intros s b s' [= _ <-]. done. Qed.
Lemma keep_gets {A} (g : S → A) : keeps (gets g).
Proof. intros s b s' Hs. by run_inv. Qed.
Lemma keep_lift {A} (r : res A) : keeps (lift r).
Proof. intros s b s' Hs. by run_inv. Qed.
Lemma keep_assert b site : keeps (assert b site).
Proof. intros s u s' Hs. by run_inv. Qed.
Lemma keep_fail {A} e : keeps (fail e : M S A).
Proof. by intros s u s' Hs. Qed.
Lemma keep_modify (g : S → S) : (∀ s, f (g s) = f s) → keeps (modify g).
Proof. intros Hg s u s' Hs. run_inv. by subst. Qed.
Lemma keep_when b (m : M S unit) : keeps m → keeps (when b m).
Proof. intros Hm. destruct b; [done|]. apply keep_ret. Qed.
Lemma keep_mfor {A} (body : A → M S unit) l : (∀ a, keeps (body a)) → keeps (mfor l body).
Proof. intros Hb. induction l as [|a l IH]; [apply keep_ret|]. apply keep_bind; [done|]. by intros _. Qed.
End keeps.
(** An operation of a part keeps [f] of the whole when it keeps [g] of the part,
    from which, with the rest, [f] is computed. *)
Lemma keep_zoom {S T B C A} (f : S → B) (g : T → C) (get : S → T) put (m : M T A) :
  (∀ s t, g t = g (get s) → f (put t s) = f s) → keeps g m → keeps f (zoom get put m).
Proof.
  intros Hf Hm s a s' Hs. apply zoom_Ok in Hs as (t & Ht & ->). apply Hf. by apply (Hm _ _ _ Ht).
Qed.

Create HintDb keep.
#[export] Hint Resolve keep_ret keep_xret keep_throw keep_gets keep_lift keep_assert keep_fail : keep.
(** [keep] follows the structure of an operation. *)
Ltac keep :=
  repeat first
  [ progress intros
  | solve [eauto with keep]
  | lazymatch goal with
    | |- keeps _ (@mbind (X _) _ _ _ _ _) => apply keep_xbind
    | |- keeps _ (@mbind _ _ _ _ _ _) => apply keep_bind
    end
  | apply keep_plain
  | apply keep_when
  | apply keep_mfor
  | apply keep_modify; reflexivity
  | case_match ].

(** ** The base class *)

(** What the queues and the branch predictor have no part in. *)
Definition base_counts (c : CoreModel.CoreModel) : list Z :=
  [CoreModel.m_cycle_count c; CoreModel.m_instruction_count c; CoreModel.m_total_memory_stall_cycles c;
   CoreModel.m_total_execution_unit_stall_cycles c].

Section base.
Context (pm : bool) (costs : InstructionType → Z) (penalty : Z).
Lemma pop_keeps : keeps base_counts (CoreModel.popDynamicInstructionInfo pm).
Proof. unfold CoreModel.popDynamicInstructionInfo. keep. Qed.
Lemma get_info_keeps : keeps base_counts CoreModel.getDynamicInstructionInfo.
Proof.
  intros c a c' Hc. unfold CoreModel.getDynamicInstructionInfo in Hc. repeat case_match; try done; by injection Hc as <- <-.
Qed.
Hint Resolve pop_keeps get_info_keeps : keep.
Lemma branch_cost_keeps ip taken : keeps base_counts (CoreModel.branch_cost pm penalty ip taken).
Proof. unfold CoreModel.branch_cost. keep. Qed.
Hint Resolve branch_cost_keeps : keep.
(** An instruction with a cost leaves the clock alone: a spawn, which sets it,
    has none. *)
Lemma getCost_keeps i c cost c' :
  CoreModel.getCost pm costs penalty i c = Ok (Returned cost, c') → base_counts c' = base_counts c.
Proof.
  unfold CoreModel.getCost. destruct (m_kind i).
  - by intros [= _ <-].
  - by intros [= _ <-].
  - intros (? & ? & _ & H)%X_bind_Returned. done.
  - intros (info & c1 & H1 & H2)%X_bind_Returned. rewrite <- (get_info_keeps _ _ _ H1).
    destruct info; apply plain_Returned in H2; try done. by apply (branch_cost_keeps _ _ _ _ _ H2).
Qed.
End base.
#[export] Hint Resolve pop_keeps get_info_keeps : keep.

(** ** Arithmetic modulo 2^64 *)

(** Equal as 64-bit numbers. *)
Definition eq64 (x y : Z) : Prop := u64 x = u64 y.
Infix "≡64" := eq64 (at level 70).

#[export] Instance eq64_equivalence : Equivalence eq64.
Proof. split; unfold eq64; congruence. Qed.
Lemma u64_offset x : ∃ k, u64 x = x + k * 2 ^ 64.
Proof. exists (- (x / 2 ^ 64)). unfold u64, uint. pose proof (Z.div_mod x (2 ^ 64) ltac:(lia)). lia. Qed.
Lemma eq64_offset x y k : x = y + k * 2 ^ 64 → x ≡64 y.
Proof. intros ->. unfold eq64, u64, uint. by rewrite Z.mod_add by lia. Qed.
Lemma eq64_mod x y : (x - y) `mod` 2 ^ 64 = 0 → x ≡64 y.
Proof.
  intros Hm. apply (eq64_offset _ _ ((x - y) / 2 ^ 64)). pose proof (Z.div_mod (x - y) (2 ^ 64) ltac:(lia)). lia.
Qed.
(** [modular] proves that two sums are equal as 64-bit numbers. *)
Ltac modular :=
  repeat match goal with
  | |- context [u64 ?e] =>
    lazymatch e with
    | context [u64 _] => fail
    | _ => let k := fresh "k" in let E := fresh "E" in destruct (u64_offset e) as [k E]; rewrite E; clear E
    end
  end;
  apply eq64_mod; Z.to_euclidean_division_equations; lia.

(** ** The out-of-order-memory model *)

Module IOCOOMProofs.
Import IOCOOMCoreModel.

Definition details (m : IOCOOMCoreModel) : list Z :=
  [m_total_load_buffer_stall_cycles m; m_total_store_buffer_stall_cycles m; m_total_l1icache_stall_cycles m;
   m_total_intra_ins_l1dcache_read_stall_cycles m; m_total_inter_ins_l1dcache_read_stall_cycles m;
   m_total_intra_ins_execution_unit_stall_cycles m; m_total_inter_ins_execution_unit_stall_cycles m].
Definition counts (m : IOCOOMCoreModel) : list Z * list Z := (base_counts (_base m), details m).

Section iocoom.
Context {Mem : Type} `{InstructionMemory Mem} `{CoreConfig}.
Abbreviation St := (CoreState IOCOOMCoreModel Mem).
Abbreviation totals := (λ s : St, counts (model s)).

Lemma with_base_keeps {A} (op : M CoreModel.CoreModel A) : keeps base_counts op → keeps totals (with_base op).
Proof. apply keep_zoom. intros s c Hc. unfold counts. f_equal. exact Hc. Qed.
Lemma on_model_keeps {A} (op : M IOCOOMCoreModel A) : keeps counts op → keeps totals (on_model op).
Proof. apply keep_zoom. by intros s m Hm. Qed.
Hint Resolve with_base_keeps on_model_keeps : keep.
Lemma executeLoad_keeps time l a : keeps counts (executeLoad time l a).
Proof. unfold executeLoad. keep. Qed.
Lemma executeStore_keeps time l a : keeps counts (executeStore time l a).
Proof. unfold executeStore. keep. Qed.
Hint Resolve executeLoad_keeps executeStore_keeps : keep.
Lemma memory_operands_keeps : ∀ ops r lb op wi, keeps totals (memory_operands ops r lb op wi).
Proof. induction ops as [|o ops IH]; intros; cbn [memory_operands]; keep. Qed.
Lemma register_writes_keeps i time : keeps counts (register_writes i time).
Proof. unfold register_writes. keep. Qed.
Lemma memory_writes_keeps : ∀ ops t r h wi, keeps counts (memory_writes ops t r h wi).
Proof. induction ops as [|o ops IH]; intros; cbn [memory_writes]; keep. Qed.
Lemma fetch_keeps a z : keeps totals (modelICache (Mem := Mem) _base a z).
Proof.
  unfold modelICache. apply keep_bind; [apply keep_gets|]. intros s0. eapply (keep_zoom _ (λ _, tt)); [done|].
  by intros ? ? ?.
Qed.
End iocoom.

(** The first of the earliest units. *)
Lemma earliest_unit_spec l : ∀ i unit best,
  let u := earliest_unit l i unit best in
  (u = unit ∧ Forall (λ x, best ≤ x) l) ∨
  (∃ k y, u = i + Z.of_nat k ∧ l !! k = Some y ∧ y < best ∧ Forall (λ x, y ≤ x) l).
Proof.
  induction l as [|x l IH]; intros i unit best; [by left|]. cbn. destruct (Z.ltb_spec x best) as [Hx|Hx].
  - right. destruct (IH (i + 1) i x) as [[-> Hl]|(k & y & -> & Hy & Hlt & Hl)].
    + exists 0%nat, x. split_and!; [lia|done|done|]. by constructor.
    + exists (S k), y. split_and!; [lia|done|lia|]. constructor; [lia|done].
  - destruct (IH (i + 1) unit best) as [[-> Hl]|(k & y & -> & Hy & Hlt & Hl)].
    + left. split; [done|]. by constructor.
    + right. exists (S k), y. split_and!; [lia|done|done|]. constructor; [lia|done].
Qed.

(** A request gets a unit as soon as any unit is free. *)
Lemma allocate_unit_spec site time l : l ≠ [] →
  ∃ u free, allocate_unit site time l = Ok (Z.of_nat u, Z.max time free) ∧ l !! u = Some free ∧
    Forall (λ x, Z.max time free ≤ Z.max time x) l.
Proof.
  intros Hne. unfold allocate_unit, free_unit. destruct (list_find _ l) as [[u free]|] eqn:Hf; cbn.
  - apply list_find_Some in Hf as (Hu & Hle & _). exists u, free. rewrite Z.max_l by lia. split_and!; [done|done|].
    apply Forall_forall. lia.
  - apply list_find_None in Hf. destruct l as [|x l]; [done|].
    change (vget site (x :: l) 0) with (Ok x). unfold mbind, res_bind.
    destruct (earliest_unit_spec (x :: l) 0 0 x) as [[E Hl]|(k & y & E & Hy & Hlt & Hl)]; rewrite E.
    + exists 0%nat, x. cbn. apply Forall_cons in Hf as [Hx Hf]. rewrite Z.max_r by lia. split_and!; [done|done|].
      eapply Forall_impl; [exact Hl|]. cbn. lia.
    + exists k, y. rewrite Forall_lookup in Hf. pose proof (Hf _ _ Hy). rewrite Z.max_r by lia.
      unfold vget. rewrite zlookup_nat by lia. rewrite Z.add_0_l, Nat2Z.id, Hy. cbn. split_and!; [done|done|].
      eapply Forall_impl; [exact Hl|]. cbn. lia.
Qed.

End IOCOOMProofs.
