(* ===== verification/CoreTables.v ===== *)
(** * CoreTables: the tables of the out-of-order-memory model

    The register scoreboard, the load and store buffers and the branch predictor
    keep their sizes, and an instruction reads or writes outside them only where
    the code does not test the number of a register that is written. *)
From S2P Require Import Prelude Utils Double CacheSet Cache Shmem ThreadManager Instruction CoreModels CoreProofs.
Import Instruction IOCOOMCoreModel IOCOOMProofs.

(** ** Running with exceptions *)

Section runs.
Context {S : Type} (E : error → Prop).
Lemma runs_xbind {A B} (m : X S A) (k : A → X S B) s Q :
  runs E m s (λ o s', match o with
    | Returned a => runs E (k a) s' Q
    | AbortInstruction => Q AbortInstruction s'
    | InfoNotAvailable => Q InfoNotAvailable s' end) → runs E (m ≫= k) s Q.
Proof. unfold runs, mbind, X_bind. by destruct (m s) as [[[a| |] s']|e]. Qed.
Lemma runs_plain {A} (m : M S A) s (Q : outcome A → S → Prop) :
  runs E m s (λ a s', Q (Returned a) s') → runs E (plain m) s Q.
Proof. unfold runs, plain. by destruct (m s) as [[a s']|e]. Qed.
Lemma runs_xret {A} (a : A) s (Q : outcome A → S → Prop) : Q (Returned a) s → runs E (mret a : X S A) s Q.
Proof. done. Qed.
(** A test of the code that may fail. *)
Lemma runs_test b site s (Q : unit → S → Prop) : E (EAssert site) → (b = true → Q tt s) → runs E (assert b site) s Q.
Proof. intros He HQ. destruct b; [by apply HQ|done]. Qed.
End runs.

(** The table of the branch predictor has a bit. *)
Definition bits_ok (c : CoreModel.CoreModel) : Prop :=
  match CoreModel.m_bp c with Some b => BranchPredictor.m_bits b ≠ [] | None => True end.

Record tables_ok (m : IOCOOMCoreModel) : Prop := mkTablesOk {
  ok_bits : bits_ok (_base m);
  ok_registers : zlength (m_register_scoreboard m) = 512;
  ok_waits : zlength (m_register_wait_unit_list m) = 512;
  ok_loads : LoadBuffer.m_scoreboard (m_load_buffer m) ≠ [];
  ok_stores : StoreBuffer.m_scoreboard (m_store_buffer m) ≠ [];
  ok_addresses : length (StoreBuffer.m_addresses (m_store_buffer m)) = length (StoreBuffer.m_scoreboard (m_store_buffer m))
}.

(** The values of operands are unsigned. *)
Definition unsigned_operands (i : Instruction) : Prop := Forall (λ o, 0 ≤ m_value o) (m_operands i).

Section tables.
Context {Mem : Type} `{InstructionMemory Mem} `{CoreConfig}.
Abbreviation St := (CoreState IOCOOMCoreModel Mem).
Context (i : Instruction).

(** An instruction fails with a test of the code, other than the one that all
    writes were used, with an error of the memory, or when it writes a register
    outside the scoreboard. *)
Inductive expected : error → Prop :=
  | expected_test site : site ≠ "Some write info left over?" → expected (EAssert site)
  | expected_memory t a z m e : readInstructionMemory (Mem := Mem) t a z m = Fail e → expected e
  | expected_write o : o ∈ m_operands i → is_operand REG WRITE o = true → 512 ≤ m_value o →
      expected (ERange "m_register_scoreboard").

Lemma index_in_table b ip : BranchPredictor.m_bits b ≠ [] →
  ∃ k, BranchPredictor.index b ip = Ok k ∧ 0 ≤ k < zlength (BranchPredictor.m_bits b).
Proof.
  intros Hb. assert (Hl : 0 < zlength (BranchPredictor.m_bits b)) by (unfold zlength; destruct (BranchPredictor.m_bits b); cbn; [done|lia]).
  unfold BranchPredictor.index. rewrite (proj2 (Z.eqb_neq _ _)) by lia. cbn. eexists. split; [done|].
  pose proof (Z.mod_pos_bound ip _ Hl). unfold u32, uint.
  pose proof (Z.mod_le (ip `mod` zlength (BranchPredictor.m_bits b)) (2 ^ 32)). pose proof (Z.mod_pos_bound (ip `mod` zlength (BranchPredictor.m_bits b)) (2 ^ 32)). lia.
Qed.
Lemma predict_in_table b ip : BranchPredictor.m_bits b ≠ [] → is_Ok (BranchPredictor.predict ip b).
Proof.
  intros Hb. unfold BranchPredictor.predict. destruct (index_in_table b ip Hb) as (k & -> & Hk). by apply vget_ok.
Qed.
Lemma update_in_table b p t ip : BranchPredictor.m_bits b ≠ [] →
  ∃ b', BranchPredictor.update p t ip b = Ok b' ∧ BranchPredictor.m_bits b' ≠ [].
Proof.
  intros Hb. unfold BranchPredictor.update. set (b1 := BranchPredictor.updateCounters p t b).
  assert (E : BranchPredictor.m_bits b1 = BranchPredictor.m_bits b) by (unfold b1, BranchPredictor.updateCounters; by case_match).
  rewrite <- E in Hb. destruct (index_in_table b1 ip Hb) as (k & -> & Hk). cbn.
  rewrite (proj2 (vset_Ok _ _ _ _ (zinsert k t (BranchPredictor.m_bits b1)))) by done. cbn. eexists. split; [done|]. cbn.
  intros Hn. apply (f_equal zlength) in Hn. rewrite zlength_zinsert in Hn. unfold zlength in *. cbn in *. lia.
Qed.

Lemma vset_outside {A} site (l : list A) k x : zlength l ≤ k → vset site l k x = Fail (ERange site).
Proof. intros Hk. unfold vset. by rewrite (proj2 (Z.ltb_ge k (zlength l))), andb_false_r by lia. Qed.

Section base.
Context (pm : bool) (costs : InstructionType → Z) (penalty : Z).
Lemma pop_tables c : bits_ok c → runs expected (CoreModel.popDynamicInstructionInfo pm) c (λ _ c', bits_ok c').
Proof.
  intros Hc. unfold CoreModel.popDynamicInstructionInfo. do 2 run1. apply runs_when; [|done]. intros _.
  run1. apply runs_test; [by constructor|]. intros _. run1. apply runs_test; [by constructor|]. intros _. by run1.
Qed.
Lemma get_info_tables c (Q : outcome DynamicInstructionInfo → CoreModel.CoreModel → Prop) : (∀ o, Q o c) →
  runs expected CoreModel.getDynamicInstructionInfo c Q.
Proof. intros Hc. unfold runs, CoreModel.getDynamicInstructionInfo. repeat case_match; simplify_eq; try apply Hc. by constructor. Qed.
Lemma branch_cost_tables ip taken c : bits_ok c →
  runs expected (CoreModel.branch_cost pm penalty ip taken) c (λ _ c', bits_ok c').
Proof.
  intros Hc. unfold CoreModel.branch_cost. do 2 run1. unfold id. unfold bits_ok in Hc. destruct (CoreModel.m_bp c) as [b|] eqn:Hb.
  - destruct (predict_in_table b ip Hc) as [p Hp]. run1. eapply runs_lift; [exact Hp|].
    destruct (update_in_table b p taken ip Hc) as (b' & Hu & Hb'). run1. eapply runs_lift; [exact Hu|].
    do 2 run1. run1. eapply runs_mono; [by apply pop_tables|]. intros [] c' Hc'. by run1.
  - run1. eapply runs_mono; [apply pop_tables; unfold bits_ok; by rewrite Hb|]. intros [] c' Hc'. by run1.
Qed.
Lemma getCost_tables ins c : bits_ok c → runs expected (CoreModel.getCost pm costs penalty ins) c (λ _ c', bits_ok c').
Proof.
  intros Hc. unfold CoreModel.getCost. destruct (m_kind ins); [by apply runs_plain..| |].
  - done.
  - apply runs_xbind, get_info_tables. intros [info| |]; [|done..].
    destruct info; try (apply runs_plain, runs_fail; by constructor). apply runs_plain. by apply branch_cost_tables.
Qed.
End base.

(** An operation of the base class that keeps the table of the predictor. *)
Lemma with_base_tables {A} (op : M CoreModel.CoreModel A) (s : St) (Q : A → CoreModel.CoreModel → Prop) :
  tables_ok (model s) → runs expected op (_base (model s)) (λ a c, bits_ok c ∧ Q a c) →
  runs expected (with_base op) s (λ a s', tables_ok (model s') ∧ Q a (_base (model s'))).
Proof.
  intros Hs Hop. apply runs_zoom. eapply runs_mono; [exact Hop|]. cbv beta. intros a c [Hc HQ]. split; [|done].
  destruct Hs. by constructor.
Qed.
Lemma with_base_kept {A} (op : M CoreModel.CoreModel A) (s : St) :
  tables_ok (model s) → runs expected op (_base (model s)) (λ _ c, bits_ok c) →
  runs expected (with_base op) s (λ _ s', tables_ok (model s')).
Proof.
  intros Hs Hop. eapply runs_mono; [apply (with_base_tables op s (λ _ _, True)); [done|]|by intros ? ? []].
  eapply runs_mono; [exact Hop|done].
Qed.

(** *** The buffers *)

Lemma allocate_in_table site time l : l ≠ [] → ∃ u start, allocate_unit site time l = Ok (u, start) ∧ 0 ≤ u < zlength l.
Proof.
  intros Hl. destruct (allocate_unit_spec site time l Hl) as (u & free & He & Hu & _). apply lookup_lt_Some in Hu.
  eexists _, _. split; [exact He|]. unfold zlength. lia.
Qed.
Lemma zinsert_nonempty {A} k (x : A) l : l ≠ [] → zinsert k x l ≠ [].
Proof. intros Hl Hn. apply (f_equal zlength) in Hn. rewrite zlength_zinsert in Hn. unfold zlength in *. destruct l; cbn in *; [done|lia]. Qed.
Lemma vset_run {A} site (l : list A) k x : 0 ≤ k < zlength l → vset site l k x = Ok (zinsert k x l).
Proof. intros Hi. by apply vset_Ok. Qed.

Lemma load_in_table time occ b : LoadBuffer.m_scoreboard b ≠ [] →
  ∃ start b', LoadBuffer.execute time occ b = Ok (start, b') ∧ LoadBuffer.m_scoreboard b' ≠ [].
Proof.
  intros Hb. unfold LoadBuffer.execute. destruct (allocate_in_table "LoadBuffer" time _ Hb) as (u & start & He & Hu).
  rewrite He. cbn. rewrite vset_run by done. cbn. eexists _, _. split; [done|]. by apply zinsert_nonempty.
Qed.
Definition stores_ok (b : StoreBuffer.StoreBuffer) : Prop :=
  StoreBuffer.m_scoreboard b ≠ [] ∧ length (StoreBuffer.m_addresses b) = length (StoreBuffer.m_scoreboard b).
Lemma store_in_table time occ addr b : stores_ok b →
  ∃ start b', StoreBuffer.executeStore time occ addr b = Ok (start, b') ∧ stores_ok b'.
Proof.
  intros [Hb Hl]. assert (Hlen : zlength (StoreBuffer.m_addresses b) = zlength (StoreBuffer.m_scoreboard b)) by (unfold zlength; lia).
  assert (Hz : ∀ A k (x : A) l, length (zinsert k x l) = length l) by (intros A k x l; unfold zinsert; case_match; by rewrite ?length_insert).
  unfold StoreBuffer.executeStore. destruct (list_find _ _) as [[k a]|] eqn:Hf.
  - apply list_find_Some in Hf as (Hi & _). apply lookup_lt_Some in Hi. rewrite vset_run by (unfold zlength in *; lia). cbn.
    eexists _, _. split; [done|]. split; cbn; [by apply zinsert_nonempty|by rewrite Hz].
  - destruct (allocate_in_table "StoreBuffer" time _ Hb) as (u & start & He & Hu). rewrite He. cbn.
    rewrite !vset_run by lia. cbn. eexists _, _. split; [done|]. split; cbn; [by apply zinsert_nonempty|by rewrite !Hz].
Qed.

Lemma executeLoad_tables time l a m : tables_ok m → runs expected (executeLoad time l a) m (λ _ m', tables_ok m').
Proof.
  intros Hm. unfold executeLoad. do 2 run1. unfold id. case_match; [by run1|].
  destruct (load_in_table time l (m_load_buffer m)) as (start & b' & Hb & Hb'); [by apply Hm|].
  run1. eapply runs_lift; [exact Hb|]. do 2 run1. run1. destruct Hm. by constructor.
Qed.
Lemma executeStore_tables time l a m : tables_ok m → runs expected (executeStore time l a) m (λ _ m', tables_ok m').
Proof.
  intros Hm. unfold executeStore. do 2 run1. unfold id.
  destruct (store_in_table time l a (m_store_buffer m)) as (start & b' & Hb & H1 & H2); [by destruct Hm|].
  run1. eapply runs_lift; [exact Hb|]. do 2 run1. run1. destruct Hm. by constructor.
Qed.

(** *** The instruction *)

Definition writes (ops : list Operand) : nat := length (filter (λ o, is_operand MEMORY WRITE o) ops).

Lemma register_reads_tables m ready ops : tables_ok m → Forall (λ o, 0 ≤ m_value o) ops →
  ∀ lw ew (s : St) Q, (∀ r, Q r s) → runs expected (lift (register_reads m ready ops lw ew)) s Q.
Proof.
  intros Hm. induction 1 as [|o ops Ho Hops IH]; intros lw ew s Q HQ; [apply HQ|]. cbn [register_reads].
  destruct (is_operand REG READ o) eqn:Er; [|by apply IH].
  rewrite ok_registers by done. destruct (m_value o <? 512) eqn:Hr; [|by constructor]. breflect.
  destruct (vget_ok "m_register_scoreboard" (m_register_scoreboard m) (m_value o)) as [t Ht]; [by rewrite ok_registers|].
  destruct (vget_ok "m_register_wait_unit_list" (m_register_wait_unit_list m) (m_value o)) as [u Hu]; [by rewrite ok_waits|].
  cbn. rewrite Ht. cbn. rewrite Hu. cbn.
  destruct u; try by apply IH.
  - destruct (t <=? ready); cbn; [by apply IH|]. by constructor.
  - destruct (t <=? ready); cbn; [by apply IH|]. by constructor.
Qed.

Lemma memory_operands_tables ops : ∀ r lb op wi (s : St), tables_ok (model s) →
  runs expected (memory_operands ops r lb op wi) s (λ o s', tables_ok (model s') ∧
    match o with Returned (_, wi') => length wi' = (length wi + writes ops)%nat | _ => True end).
Proof.
  induction ops as [|o ops IH]; intros r lb op wi s Hs.
  { apply runs_xret. split; [done|]. cbn. lia. }
  cbn [memory_operands]. unfold writes. rewrite filter_cons. case_bool_decide as Hm.
  2: { rewrite decide_False; [by apply IH|]. unfold is_operand. rewrite (bool_decide_eq_false_2 _ Hm). by intros []. }
  apply runs_xbind. eapply runs_mono.
  { apply (with_base_kept CoreModel.getDynamicInstructionInfo); [done|]. apply get_info_tables. intros _. by apply Hs. }
  intros [info| |] s1 Hs1; [|done..].
  assert (Hpop : ∀ s2 : St, tables_ok (model s2) →
    runs expected (with_base (CoreModel.popDynamicInstructionInfo performance_modeling)) s2 (λ _ s', tables_ok (model s'))).
  { intros s2 Hs2. apply with_base_kept; [done|]. apply pop_tables. by apply Hs2. }
  destruct (m_direction o) eqn:Hd, info; try (apply runs_plain, runs_fail; by constructor).
  - apply runs_xbind, runs_plain, runs_zoom. eapply runs_mono; [by apply executeLoad_tables|]. intros load m Hm'.
    apply runs_xbind, runs_plain. eapply runs_mono; [by apply Hpop|]. intros [] s2 Hs2. rewrite decide_False; [by apply IH|].
    unfold is_operand. rewrite Hd, andb_false_r. by intros [].
  - apply runs_xbind, runs_plain. eapply runs_mono; [by apply Hpop|]. intros [] s2 Hs2.
    eapply runs_mono; [by apply IH|]. cbv beta. intros [[? wi']| |] s3 [Ht Hw]; (split; [done|]); [|done..].
    rewrite Hw, decide_True by (unfold is_operand; by rewrite Hm, Hd, !bool_decide_eq_true_2). rewrite length_app. cbn. unfold writes. lia.
Qed.

Lemma register_writes_tables time m : unsigned_operands i → tables_ok m →
  runs expected (register_writes i time) m (λ _ m', tables_ok m').
Proof.
  unfold unsigned_operands, register_writes. rewrite Forall_forall. intros Hi.
  match goal with |- _ → runs _ (mfor _ ?F) _ _ =>
    enough (∀ ops, (∀ o, o ∈ ops → o ∈ m_operands i) → ∀ m, tables_ok m → runs expected (mfor ops F) m (λ _ m', tables_ok m'))
      as Hall by (intros Hm; by apply Hall) end.
  clear m. induction ops as [|o ops IH]; intros Hsub m Hm; [by apply runs_ret|]. cbn [mfor].
  pose proof (Hi o (Hsub o ltac:(left))) as Ho.
  apply runs_bind, runs_when; [|intros _; apply IH; [by intros x Hx; apply Hsub; right|done]].
  intros Er. do 2 run1. unfold id. destruct (decide (m_value o < 512)) as [Hv|Hv].
  - run1. eapply runs_lift; [apply vset_run; by rewrite ok_registers|].
    run1. eapply runs_lift; [apply vset_run; by rewrite ok_waits|]. run1.
    apply IH; [by intros x Hx; apply Hsub; right|]. destruct Hm. constructor; cbn; rewrite ?zlength_zinsert; done.
  - pose proof (ok_registers m Hm). run1. rewrite vset_outside by lia. cbv beta.
    apply (expected_write o); [apply Hsub; left|done|lia].
Qed.

Lemma memory_writes_tables ops : ∀ time ready hw wi m, tables_ok m → (writes ops <= length wi)%nat →
  runs expected (memory_writes ops time ready hw wi) m (λ r m', tables_ok m' ∧ length r.2 = (length wi - writes ops)%nat).
Proof.
  induction ops as [|o ops IH]; intros time ready hw wi m Hm Hw.
  { cbn [memory_writes]. run1. split; [done|]. cbn. lia. }
  cbn [memory_writes]. unfold writes in *. rewrite filter_cons in Hw |- *.
  destruct (decide (is_operand MEMORY WRITE o)) as [Eo|Eo].
  2: { apply Is_true_false in Eo. rewrite Eo. by apply IH. }
  apply Is_true_true in Eo. rewrite Eo. cbn [length] in Hw. destruct wi as [|[l a] wi]; cbn [length] in Hw; [lia|]. run1. eapply runs_mono; [by apply executeStore_tables|]. intros st m' Hm'.
  eapply runs_mono; [apply IH; [done|lia]|]. done.
Qed.

(** What the tables are. *)
Definition buffers (m : IOCOOMCoreModel) :=
  (CoreModel.m_bp (_base m), m_register_scoreboard m, m_register_wait_unit_list m, m_load_buffer m, m_store_buffer m).
Lemma buffers_tables m m' : buffers m' = buffers m → tables_ok m → tables_ok m'.
Proof.
  unfold buffers. intros [= E1 E2 E3 E4 E5] []. constructor; unfold bits_ok in *; by rewrite ?E1, ?E2, ?E3, ?E4, ?E5.
Qed.
Lemma account_tables t m : tables_ok m → runs expected (account i t) m (λ _ m', tables_ok m').
Proof.
  intros Hm. assert (Hk : keeps buffers (account i t)) by (unfold account; keep).
  assert (Hr : runs expected (account i t) m (λ _ _, True)).
  { unfold account. repeat run1. destruct (isSimpleMemoryLoad i); [done|]. repeat run1. destruct (t_has_write t); [|done]. cbn [negb].
    by repeat run1. }
  unfold runs in *. destruct (account i t m) as [[r m']|e] eqn:Ha; [|done]. apply (buffers_tables m); [|done]. by apply (Hk _ _ _ Ha).
Qed.
Lemma stalls_bits ins mem exe c : bits_ok c → bits_ok (CoreModel.updatePipelineStallCounters instruction_costs ins mem exe c).
Proof. unfold bits_ok, CoreModel.updatePipelineStallCounters. destruct c. by destruct (m_type ins). Qed.

(** C28: Every instruction, whatever its operands, its outcome and the information
    in the queue, keeps the sizes of the tables of a core model: the scoreboard of
    the registers, the load and store buffers, the predictor.  It reads none of them
    outside and writes only one outside: a register that it writes and that does not
    exist (512 or above), which the code does not test; a register that is read is
    tested.  Every write finds its information and uses all of it.  Otherwise an
    instruction fails only where the code tests for it or where the memory fails. *)
Theorem tables_preserved (s : St) :
  tables_ok (model s) → unsigned_operands i →
  runs expected (handleInstruction_ i) s (λ _ s', tables_ok (model s')).
Proof.
  intros Hs Hi. unfold handleInstruction_. apply runs_xbind. eapply runs_mono.
  { apply with_base_kept; [done|]. apply getCost_tables, Hs. }
  intros [cost| |] s1 Hs1; [|done..]. apply runs_xbind, runs_plain. run1. apply runs_xbind, runs_plain.
  eapply runs_mono.
  { instantiate (1 := λ _ s', model s' = model s1). unfold modelICache. do 2 run1. apply runs_zoom. unfold runs, id.
    destruct (readInstructionMemory _ _ _ _) as [[l m]|e] eqn:Hf; [done|]. by eapply expected_memory. }
  intros latency s2 E2. apply runs_xbind, runs_plain. run1. unfold id. apply runs_xbind, runs_plain.
  rewrite <- E2 in Hs1. apply register_reads_tables; [done|done|]. intros waits.
  apply runs_xbind. eapply runs_mono; [by apply memory_operands_tables|]. cbv beta.
  intros [[[lb op] wi]| |] s3 [Hs3 Hw]; [|done..]. apply runs_plain. run1. apply runs_test; [by constructor|]. intros _.
  run1. apply runs_zoom. eapply runs_mono; [by apply register_writes_tables|]. intros [] m4 Hm4.
  run1. apply runs_zoom. eapply runs_mono; [apply memory_writes_tables; [done|cbn in Hw; lia]|]. cbv beta.
  intros [[sb hw] rest] m5 [Hm5 Hrest]. cbn in Hrest, Hw. run1. eapply (runs_mono _ _ _ (λ _ s', tables_ok (model s'))).
  { destruct (isDynamic i).
    - run1. eapply runs_mono; [apply with_base_kept; [done|]; run1; by apply Hm5|]. intros [] s6 Hs6. by run1.
    - apply runs_zoom. by apply account_tables. }
  intros stalls s6 Hs6. run1. run1. { apply bool_decide_eq_true. destruct rest; [done|]. cbn in Hrest. lia. }
  apply with_base_kept; [done|]. run1. by apply stalls_bits, Hs6.
Qed.
End tables.

(** An instruction with all kinds of operands on a new core; and one that writes
    a register that does not exist, which the code does not test. *)
#[local] Instance sample_memory : InstructionMemory unit := {| readInstructionMemory _ _ _ := mret 1 |}.
#[local] Instance sample_config : CoreConfig :=
  {| performance_modeling := true; instruction_costs _ := 1; mispredict_penalty := 14 |}.
Definition sample_base : CoreModel.CoreModel :=
  (CoreModel.make (float_of_int 1) None) <| CoreModel.m_enabled := true |>
    <| CoreModel.m_dynamic_info_queue := [DynamicInstructionInfo.MEMORY_READ 3 64 0; DynamicInstructionInfo.MEMORY_WRITE 5 64 0] |>.
Definition sample : CoreState IOCOOMCoreModel unit := mkCoreState (make sample_base 2 2) tt.
Definition sample_instruction : Instruction :=
  ArithInstruction INST_ADD 0 [mkOperand REG 511 READ; mkOperand MEMORY 0 READ; mkOperand MEMORY 0 WRITE; mkOperand REG 511 WRITE].

Lemma tables_preserved_witness :
  tables_ok (model sample) ∧ unsigned_operands sample_instruction ∧
  runs (expected (Mem := unit) sample_instruction) (handleInstruction_ sample_instruction) sample (λ _ s', tables_ok (model s')).
Proof.
  assert (Hs : tables_ok (model sample)) by (constructor; try done; vm_compute; reflexivity).
  assert (Hi : unsigned_operands sample_instruction) by (repeat (apply Forall_cons; split; [by cbn; try lia|]); by apply Forall_nil_2).
  split; [exact Hs|]. split; [exact Hi|]. exact (tables_preserved sample_instruction sample Hs Hi).
Defined.
Lemma unchecked_register_write :
  handleInstruction_ (ArithInstruction INST_ADD 0 [mkOperand REG 512 WRITE]) sample = Fail (ERange "m_register_scoreboard").
Proof. reflexivity. Qed.
