(* ===== verification/CoreOrder.v ===== *)
(** * CoreOrder: instructions run in program order

    What [iterate] needs of a core model, as an interface with its laws; both
    models have them; [iterate] runs the queued instructions in their order, each
    once, and stops before an instruction whose information is missing. *)
From S2P Require Import Prelude Utils Double CacheSet Cache Shmem ThreadManager Instruction CoreModels CoreProofs.
Import Instruction.

(** The program: the blocks and the position in the first of them. *)
Definition program (c : CoreModel.CoreModel) : list BasicBlock * Z :=
  (CoreModel.m_basic_block_queue c, CoreModel.m_current_ins_index c).

(** The laws of a core model: its base class is a field of it, and an
    instruction does not change the program. *)
Class PerformanceModelLaws (Mod Mem : Type) `{!PerformanceModel Mod Mem} := {
  base_set_base c m : base (set_base c m) = c;
  handle_keeps_program i : keeps (λ s, program (base (model s))) (handleInstruction i)
}.

(** ** The laws hold *)

Section base.
Context (pm : bool) (costs : InstructionType → Z) (penalty : Z).
Lemma pop_program : keeps program (CoreModel.popDynamicInstructionInfo pm).
Proof. unfold CoreModel.popDynamicInstructionInfo. keep. Qed.
Lemma get_info_program : keeps program CoreModel.getDynamicInstructionInfo.
Proof.
  intros c a c' Hc. unfold CoreModel.getDynamicInstructionInfo in Hc. repeat case_match; try done; by injection Hc as <- <-.
Qed.
Hint Resolve pop_program get_info_program : keep.
Lemma getCost_program i : keeps program (CoreModel.getCost pm costs penalty i).
Proof. unfold CoreModel.getCost, CoreModel.branch_cost. keep. Qed.
Lemma stalls_program i mem exe c : program (CoreModel.updatePipelineStallCounters costs i mem exe c) = program c.
Proof. unfold CoreModel.updatePipelineStallCounters, program. destruct c. by destruct (m_type i). Qed.
End base.
#[export] Hint Resolve pop_program get_info_program getCost_program : keep.

Section fetch.
Context {Mod Mem B : Type} `{InstructionMemory Mem} (get : Mod → CoreModel.CoreModel) (f : Mod → B).
Lemma modelICache_keeps a z : keeps (λ s : CoreState Mod Mem, f (model s)) (modelICache get a z).
Proof.
  unfold modelICache. apply keep_bind; [apply keep_gets|]. intros s0. eapply (keep_zoom _ (λ _, tt)); [done|].
  by intros ? ? ?.
Qed.
End fetch.

Module SimpleLaws.
Import SimpleCoreModel.
Section simple.
Context {Mem : Type} `{InstructionMemory Mem} `{CoreConfig}.
Abbreviation text := (λ s : CoreState SimpleCoreModel Mem, program (_base (model s))).
Lemma with_base_text {A} (op : M CoreModel.CoreModel A) : keeps program op → keeps text (with_base op).
Proof. apply keep_zoom. by intros s c Hc. Qed.
Lemma fetch_text a z : keeps text (modelICache _base a z).
Proof. apply (modelICache_keeps _base (λ m, program (_base m))). Qed.
Hint Resolve with_base_text fetch_text : keep.
Lemma operands_text : ∀ ops stall, keeps text (operands ops stall).
Proof. induction ops as [|o ops IH]; intros; cbn [operands]; unfold count; keep. Qed.
Hint Resolve operands_text : keep.
Lemma handle_text i : keeps text (handleInstruction_ i).
Proof.
  unfold handleInstruction_, count. keep; apply with_base_text, keep_modify; intros c; by rewrite ?stalls_program.
Qed.
End simple.
#[global] Instance simple_laws {Mem} `{InstructionMemory Mem} `{CoreConfig} : PerformanceModelLaws SimpleCoreModel Mem.
Proof. split; [done|]. apply handle_text. Qed.
End SimpleLaws.

Module IOCOOMLaws.
Import IOCOOMCoreModel.
Section iocoom.
Context {Mem : Type} `{InstructionMemory Mem} `{CoreConfig}.
Abbreviation text := (λ s : CoreState IOCOOMCoreModel Mem, program (_base (model s))).
Abbreviation own := (λ m : IOCOOMCoreModel, program (_base m)).
Lemma iocoom_base_text {A} (op : M CoreModel.CoreModel A) : keeps program op → keeps text (with_base op).
Proof. apply keep_zoom. by intros s c Hc. Qed.
Lemma on_model_text {A} (op : M IOCOOMCoreModel A) : keeps own op → keeps text (on_model op).
Proof. apply keep_zoom. by intros s m Hm. Qed.
Lemma iocoom_fetch_text a z : keeps text (modelICache _base a z).
Proof. apply (modelICache_keeps _base own). Qed.
Hint Resolve iocoom_base_text on_model_text iocoom_fetch_text : keep.
Lemma executeLoad_text time l a : keeps own (executeLoad time l a).
Proof. unfold executeLoad. keep. Qed.
Lemma executeStore_text time l a : keeps own (executeStore time l a).
Proof. unfold executeStore. keep. Qed.
Hint Resolve executeLoad_text executeStore_text : keep.
Lemma memory_operands_text : ∀ ops r lb op wi, keeps text (memory_operands ops r lb op wi).
Proof. induction ops as [|o ops IH]; intros; cbn [memory_operands]; keep. Qed.
Lemma register_writes_text i time : keeps own (register_writes i time).
Proof. unfold register_writes. keep. Qed.
Lemma memory_writes_text : ∀ ops t r h wi, keeps own (memory_writes ops t r h wi).
Proof. induction ops as [|o ops IH]; intros; cbn [memory_writes]; keep. Qed.
Lemma account_text i t : keeps own (account i t).
Proof. unfold account. keep. Qed.
Hint Resolve memory_operands_text register_writes_text memory_writes_text account_text : keep.
Lemma iocoom_handle_text i : keeps text (handleInstruction_ i).
Proof.
  unfold handleInstruction_. keep; apply iocoom_base_text, keep_modify; intros c; by rewrite ?stalls_program.
Qed.
End iocoom.
#[global] Instance iocoom_laws {Mem} `{InstructionMemory Mem} `{CoreConfig} : PerformanceModelLaws IOCOOMCoreModel Mem.
Proof. split; [done|]. apply iocoom_handle_text. Qed.
End IOCOOMLaws.

(** ** The order *)

Module Order.
Import Iterate.

Section order.
Context {Mod Mem : Type} `{PerformanceModelLaws Mod Mem}.
Abbreviation St := (CoreState Mod Mem).
Implicit Types s : St.

(** [s'] is [s] at another position in the program. *)
Definition moved s s' : Prop := ∃ queue index,
  s' = s <| model ::= λ m, set_base ((base m) <| CoreModel.m_basic_block_queue := queue |> <| CoreModel.m_current_ins_index := index |>) m |>.

(** The instructions of [l] take [s] to [s'], one after the other; none of them
    lacks information. *)
Inductive ran : list Instruction → St → St → Prop :=
  | ran_nil s : ran [] s s
  | ran_moved l s s1 s' : moved s s1 → ran l s1 s' → ran l s s'
  | ran_instruction i l o s s1 s' :
      handleInstruction i s = Ok (o, s1) → o ≠ InfoNotAvailable → ran l s1 s' → ran (i :: l) s s'.

Lemma ran_app l1 l2 s s1 s2 : ran l1 s s1 → ran l2 s1 s2 → ran (l1 ++ l2) s s2.
Proof. induction 1; intros Hr; cbn; eauto using ran. Qed.
Lemma ran_then_moved l s s1 s2 : ran l s s1 → moved s1 s2 → ran l s s2.
Proof. intros Hr Hm. rewrite <- (app_nil_r l). eapply ran_app; [done|]. eauto using ran. Qed.

Definition program_of s : list BasicBlock * Z := program (base (model s)).

(** The instructions that can run: the block at the end may still grow. *)
Definition todo s : list Instruction :=
  let '(queue, index) := program_of s in
  drop (Z.to_nat index) (mjoin (instructions <$> take (pred (length queue)) queue)).

(** The position is inside the first block; a block has fewer than 2^32
    instructions. *)
Definition position_ok s : Prop :=
  let '(queue, index) := program_of s in
  0 ≤ index ∧ (∀ bb, head queue = Some bb → index ≤ zlength (instructions bb)) ∧
  Forall (λ bb, zlength (instructions bb) < 2 ^ 32) queue.

Lemma on_base_moved f s s' :
  (∃ queue index, f (base (model s)) = (base (model s)) <| CoreModel.m_basic_block_queue := queue |> <| CoreModel.m_current_ins_index := index |>) →
  on_base f s = Ok (tt, s') → moved s s' ∧ program_of s' = program (f (base (model s))).
Proof.
  intros (queue & index & Hf) Hs. apply modify_Ok in Hs as ->. split.
  - exists queue, index. cbn. by rewrite Hf.
  - unfold program_of. cbn. by rewrite base_set_base.
Qed.

(** [done] ran from [s] to a state where [i] follows. *)
Definition upto (l : list Instruction) s (Q : list Instruction → Instruction → St → Prop) : Prop :=
  ∃ done i more s1, l = done ++ i :: more ∧ ran done s s1 ∧ Q done i s1.

Lemma upto_cons i l o s s1 s2 Q Q' : handleInstruction i s = Ok (o, s1) → o ≠ InfoNotAvailable → moved s1 s2 →
  (∀ done j s', Q done j s' → Q' (i :: done) j s') → upto l s2 Q → upto (i :: l) s Q'.
Proof.
  intros Hi Ho Hm HQ (done & j & more & s3 & -> & Hr & Hq). exists (i :: done), j, more, s3. split_and!; [done| |auto].
  eauto using ran.
Qed.
Lemma upto_app l1 l2 s s1 Q Q' : ran l1 s s1 → (∀ done j s', Q done j s' → Q' (l1 ++ done) j s') →
  upto l2 s1 Q → upto (l1 ++ l2) s Q'.
Proof.
  intros Hr HQ (done & j & more & s3 & -> & Hr' & Hq). exists (l1 ++ done), j, more, s3.
  split_and!; [by rewrite app_assoc|by eapply ran_app|auto].
Qed.

Lemma advance_position c queue n : program c = (queue, n) →
  c <| CoreModel.m_current_ins_index ::= λ n, u32 (n + 1) |> =
  c <| CoreModel.m_basic_block_queue := queue |> <| CoreModel.m_current_ins_index := u32 (n + 1) |>.
Proof. destruct c. unfold program. cbn. by intros [= -> ->]. Qed.

Lemma run_block_cons i l o s s1 : handleInstruction i s = Ok (o, s1) → o ≠ InfoNotAvailable →
  run_block (i :: l) s = (on_base (λ c, c <| CoreModel.m_current_ins_index ::= λ n, u32 (n + 1) |>) ;; run_block l) s1.
Proof. intros Hi Ho. cbn [run_block]. unfold mbind at 1, M_bind at 1. rewrite Hi. by destruct o. Qed.

Lemma pop_position c bb queue n : program c = (bb :: queue, n) →
  c <| CoreModel.m_basic_block_queue ::= tail |> <| CoreModel.m_current_ins_index := 0 |> =
  c <| CoreModel.m_basic_block_queue := queue |> <| CoreModel.m_current_ins_index := 0 |>.
Proof. destruct c. unfold program. cbn. by intros [= -> ->]. Qed.
Lemma upto_more l more s Q : upto l s Q → upto (l ++ more) s Q.
Proof.
  intros (done & j & rest & s1 & -> & Hr). exists done, j, (rest ++ more), s1. by rewrite <- app_assoc.
Qed.

Lemma run_block_spec bb queue l : ∀ pre s,
  program_of s = (bb :: queue, zlength pre) → instructions bb = pre ++ l → zlength (instructions bb) < 2 ^ 32 →
  match run_block l s with
  | Fail e => upto l s (λ _ i s1, handleInstruction i s1 = Fail e)
  | Ok (true, s') => ran l s s' ∧ program_of s' = (bb :: queue, zlength (instructions bb))
  | Ok (false, s') => upto l s (λ done i s1, handleInstruction i s1 = Ok (InfoNotAvailable, s') ∧
                        program_of s' = (bb :: queue, zlength (pre ++ done)))
  end.
Proof.
  induction l as [|i l IH]; intros pre s Hp Hbb Hlen.
  { cbn. rewrite Hbb, app_nil_r. eauto using ran. }
  destruct (handleInstruction i s) as [[o s1]|e] eqn:Hi.
  2: { cbn [run_block]. unfold mbind, M_bind. rewrite Hi. exists [], i, l, s. eauto using ran. }
  pose proof (handle_keeps_program i s o s1 Hi) as Hk. cbn in Hk. change (program_of s1 = program_of s) in Hk. rewrite Hp in Hk.
  assert (o = InfoNotAvailable ∨ o ≠ InfoNotAvailable) as [->|Ho] by (destruct o; [by right|by right|by left]).
  { cbn [run_block]. unfold mbind, M_bind. rewrite Hi. exists [], i, l, s. rewrite app_nil_r. eauto using ran. }
  rewrite (run_block_cons i l o s s1 Hi Ho). unfold mbind, M_bind.
  destruct (on_base _ s1) as [[[] s2]|e] eqn:Hs2; [|done].
  assert (Hz : u32 (zlength pre + 1) = zlength (pre ++ [i])).
  { unfold zlength in *. rewrite Hbb in Hlen. rewrite length_app in *. cbn in *. unfold u32, uint. rewrite Z.mod_small; lia. }
  apply on_base_moved in Hs2 as [Hm Hp2].
  2: { exists (bb :: queue), (u32 (zlength pre + 1)). by apply advance_position. }
  assert (Hp2' : program_of s2 = (bb :: queue, zlength (pre ++ [i]))).
  { rewrite Hp2, (advance_position _ _ _ Hk), <- Hz. done. }
  specialize (IH (pre ++ [i]) s2 Hp2'). rewrite <- app_assoc in IH. specialize (IH Hbb Hlen).
  destruct (run_block l s2) as [[[] s']|e].
  - destruct IH as [Hr Hp']. split; [|done]. eauto using ran.
  - eapply upto_cons; [done..| |exact IH]. intros d j s3 [H1' H2']. split; [done|]. by rewrite <- app_assoc in H2'.
  - eapply upto_cons; [done..| |exact IH]. done.
Qed.

Lemma todo_split s bb b2 queue pre l :
  program_of s = (bb :: b2 :: queue, zlength pre) → instructions bb = pre ++ l →
  todo s = l ++ mjoin (instructions <$> take (length queue) (b2 :: queue)).
Proof.
  intros Hp Hbb. unfold todo. rewrite Hp. cbn [length pred take fmap list_fmap mjoin list_join]. rewrite Hbb, <- app_assoc.
  unfold zlength. rewrite Nat2Z.id. by rewrite drop_app_length.
Qed.
Lemma todo_start s b2 queue :
  program_of s = (b2 :: queue, 0) → todo s = mjoin (instructions <$> take (length queue) (b2 :: queue)).
Proof. intros Hp. unfold todo. by rewrite Hp. Qed.

(** How [iterate] stops. *)
Definition stopped s1 s' : Prop :=
  (s' = s1 ∧ todo s' = [] ∧ (length (program_of s').1 <= 1)%nat) ∨
  (∃ i more, todo s' = i :: more ∧ handleInstruction i s1 = Ok (InfoNotAvailable, s')).

Lemma stop_short s : (length (program_of s).1 <= 1)%nat → stopped s s.
Proof.
  intros Hl. left. split_and!; [done| |done]. unfold todo. destruct (program_of s) as [[|bb [|b2 queue]] n]; cbn in *; [..|lia]; by rewrite drop_nil.
Qed.

Lemma iterate_loop_spec fuel : ∀ s, position_ok s → (length (program_of s).1 <= fuel)%nat →
  match iterate_loop fuel s with
  | Fail e => upto (todo s) s (λ _ i s1, handleInstruction i s1 = Fail e)
  | Ok (_, s') => position_ok s' ∧ ∃ done s1, todo s = done ++ todo s' ∧ ran done s s1 ∧ stopped s1 s'
  end.
Proof.
  induction fuel as [|fuel IH]; intros s Hok Hf.
  all: cbn [iterate_loop]; unfold mbind at 1, M_bind at 1; unfold gets, id.
  all: destruct (program_of s) as [[|bb [|b2 queue]] n] eqn:Hp; cbn in Hf; try lia.
  all: assert (Hq : CoreModel.m_basic_block_queue (base (model s)) = (program_of s).1) by done; rewrite Hq, Hp; cbn [fst].
  1-3: split; [done|]; exists [], s; split_and!; [done|constructor|]; apply stop_short; rewrite Hp; cbn; lia.
  assert (Hn : CoreModel.m_current_ins_index (base (model s)) = n) by exact (f_equal snd Hp).
  rewrite Hn. pose proof Hok as Hok'. unfold position_ok in Hok'. rewrite Hp in Hok'. destruct Hok' as (H0 & Hlt & Hall).
  specialize (Hlt bb eq_refl). apply Forall_cons in Hall as [Hbb Hall].
  set (pre := take (Z.to_nat n) (instructions bb)). set (l := drop (Z.to_nat n) (instructions bb)).
  assert (Hsplit : instructions bb = pre ++ l) by (symmetry; apply take_drop).
  assert (Hpre : n = zlength pre). { unfold pre, zlength in *. rewrite length_take. lia. }
  rewrite Hpre in Hp. rewrite (todo_split s bb b2 queue pre l Hp Hsplit).
  pose proof (run_block_spec bb (b2 :: queue) l pre s Hp Hsplit Hbb) as Hrun. unfold mbind, M_bind.
  destruct (run_block l s) as [[[] s1]|e].
  - destruct Hrun as [Hr Hp1]. destruct (on_base _ s1) as [[[] s2]|e] eqn:Hs2; [|done].
      apply on_base_moved in Hs2 as [Hm Hp2]; [|exists (b2 :: queue), 0; by apply pop_position with bb (zlength (instructions bb))].
      assert (Hp2' : program_of s2 = (b2 :: queue, 0)).
      { rewrite Hp2. by rewrite (pop_position _ _ _ _ Hp1). }
      rewrite <- (todo_start s2 b2 queue Hp2').
      specialize (IH s2). destruct (iterate_loop fuel s2) as [[[] s']|e].
    + destruct IH as (Hok2 & done & s3 & Ht & Hr' & Hst).
        { unfold position_ok. rewrite Hp2'. split_and!; [lia|unfold zlength; lia|done]. }
        { rewrite Hp2'. cbn. lia. }
        split; [done|]. exists (l ++ done), s3. rewrite Ht, app_assoc. split_and!; [done| |done].
        eapply ran_app; [by eapply ran_then_moved|done].
    + eapply upto_app; [by eapply ran_then_moved| |apply IH]; [done| |].
        { unfold position_ok. rewrite Hp2'. split_and!; [lia|unfold zlength; lia|done]. }
        { rewrite Hp2'. cbn. lia. }
  - destruct Hrun as (done & i & more & s2 & Hl & Hr & Hi & Hp1). cbn [skip]. split.
      { unfold position_ok. rewrite Hp1. split_and!; [unfold zlength; lia| |by constructor].
        intros ? [= <-]. rewrite Hsplit, Hl. unfold zlength. rewrite !length_app. lia. }
      exists done, s2. assert (Ht : todo s1 = (i :: more) ++ mjoin (instructions <$> take (length queue) (b2 :: queue))).
      { eapply todo_split; [exact Hp1|]. by rewrite Hsplit, Hl, <- app_assoc. }
      split_and!; [by rewrite Ht, Hl, <- app_assoc|done|]. right. exists i. by eexists.
  - by apply upto_more.
Qed.

(** C27: [iterate] always returns, unless an instruction fails: it runs the
    instructions of all blocks but the last in program order, each once, from
    where it stopped the last time, and goes on until only one block is left or
    until the next instruction lacks information.  The instructions that have not
    run are the ones that the next [iterate] starts with. *)
Theorem iterate_in_order s : position_ok s →
  match iterate s with
  | Fail e => upto (todo s) s (λ _ i s1, handleInstruction i s1 = Fail e)
  | Ok (_, s') => position_ok s' ∧ ∃ done s1, todo s = done ++ todo s' ∧ ran done s s1 ∧ stopped s1 s'
  end.
Proof. intros Hs. by apply iterate_loop_spec. Qed.
End order.

(** Three blocks: two loads; a branch and an addition; an addition.  The outcome of the
    branch is missing. *)
#[local] Instance sample_memory : InstructionMemory unit := {| readInstructionMemory _ _ _ := mret 1 |}.
#[local] Instance sample_config : CoreConfig :=
  {| performance_modeling := true; instruction_costs _ := 1; mispredict_penalty := 14 |}.
Definition sample_load : Instruction := placed 100 4 (GenericInstruction 0 [mkOperand MEMORY 0 READ; mkOperand REG 1 WRITE]).
Definition sample_add : Instruction := placed 104 4 (ArithInstruction INST_ADD 0 [mkOperand REG 1 READ; mkOperand REG 2 WRITE]).
Definition sample_branch : Instruction := placed 108 2 (BranchInstruction 0 []).
Definition sample_base : CoreModel.CoreModel :=
  (CoreModel.make (float_of_int 1) None) <| CoreModel.m_enabled := true |>
    <| CoreModel.m_dynamic_info_queue := [DynamicInstructionInfo.MEMORY_READ 3 64 0; DynamicInstructionInfo.MEMORY_READ 3 128 0] |>
    <| CoreModel.m_basic_block_queue := [mkBasicBlock false [sample_load; sample_load];
         mkBasicBlock false [sample_branch; sample_add]; mkBasicBlock false [sample_add]] |>.
Definition sample : CoreState IOCOOMCoreModel.IOCOOMCoreModel unit := mkCoreState (IOCOOMCoreModel.make sample_base 2 2) tt.
Definition after {A S} (r : res (A * S)) (s : S) : S := match r with Ok (_, s') => s' | _ => s end.
Definition succeeded {A} (r : res A) : bool := match r with Ok _ => true | _ => false end.

Lemma iterate_in_order_witness :
  succeeded (iterate sample) = true ∧ todo sample = [sample_load; sample_load; sample_branch; sample_add] ∧
  todo (after (iterate sample) sample) = [sample_branch; sample_add] ∧
  ∃ done s1, todo sample = done ++ todo (after (iterate sample) sample) ∧ ran done sample s1 ∧
    stopped s1 (after (iterate sample) sample).
Proof.
  split; [reflexivity|]. split; [reflexivity|]. split; [reflexivity|].
  pose proof (iterate_in_order sample) as Hi. unfold after.
  assert (Hs : succeeded (iterate sample) = true) by reflexivity.
  destruct (iterate sample) as [[u s']|e]; [|discriminate Hs].
  apply Hi. split; [vm_compute; discriminate|]. split; [intros ? [= <-]; vm_compute; discriminate|].
  repeat (apply Forall_cons; split; [reflexivity|]). by apply Forall_nil.
Defined.
End Order.

(** An instruction that stops for missing information starts again from its
    fetch: the simple model counts the stall of the instruction cache twice, the
    memory stall once. *)
Module Restart.
Import SimpleCoreModel.
#[local] Instance sample_memory : InstructionMemory unit := {| readInstructionMemory _ _ _ := mret 10 |}.
#[local] Instance sample_config : CoreConfig :=
  {| performance_modeling := true; instruction_costs _ := 1; mispredict_penalty := 14 |}.
Definition core (info : list DynamicInstructionInfo) : CoreState SimpleCoreModel unit :=
  mkCoreState (make ((CoreModel.make (float_of_int 1) None) <| CoreModel.m_enabled := true |>
    <| CoreModel.m_dynamic_info_queue := info |>)) tt.
Definition load : Instruction := placed 100 4 (GenericInstruction 0 [mkOperand MEMORY 0 READ]).
(** The instruction runs, its information arrives and it runs again. *)
Definition twice : res (outcome unit * CoreState SimpleCoreModel unit) :=
  match handleInstruction_ load (core []) with
  | Ok (InfoNotAvailable, s) =>
    handleInstruction_ load (s <| model ::= λ m, m <| _base ::= CoreModel.pushDynamicInstructionInfo true (DynamicInstructionInfo.MEMORY_READ 3 64 0) |> |>)
  | r => r
  end.
Lemma fetch_counted_twice :
  match twice with
  | Ok (Returned _, s) => (m_total_l1icache_stall_cycles (model s) =? 20) && (CoreModel.m_total_memory_stall_cycles (_base (model s)) =? 13)
  | _ => false
  end = true.
Proof. vm_compute. reflexivity. Qed.
(** Before the first cycle the average frequency becomes 0/0, and stays it. *)
Definition is_nan (x : float) : bool := match x with S754_nan => true | _ => false end.
Lemma average_frequency_undefined :
  match CoreModel.recomputeAverageFrequency (CoreModel.make (float_of_int 1) None) with
  | Ok c => is_nan (CoreModel.m_average_frequency c) &&
      match CoreModel.recomputeAverageFrequency (c <| CoreModel.m_cycle_count := 1000 |>) with
      | Ok c => is_nan (CoreModel.m_average_frequency c) | _ => false end
  | _ => false
  end = true.
Proof. vm_compute. reflexivity. Qed.
End Restart.
