(* ===== verification/CoreTheorems.v ===== *)
(** * CoreTheorems: the accounts, the buffers and the order of the core models

    Every cycle a core spends is charged to exactly one cause; the load buffer
    never holds more loads than it has entries; the branch predictor is the table
    of the last outcomes; queued instructions run in program order. *)
From S2P Require Import Prelude Utils Double CacheSet Cache Shmem ThreadManager Instruction CoreModels CoreProofs.
Import Instruction.

(** ** Accounts of the out-of-order-memory model *)

Module Accounts.
Import IOCOOMCoreModel IOCOOMProofs.

Section accounts.
Context {Mem : Type} `{InstructionMemory Mem} `{CoreConfig}.
Abbreviation St := (CoreState IOCOOMCoreModel Mem).

(** The accounts of a model: the totals are the sums of the detailed counters. *)
Definition total_memory (m : IOCOOMCoreModel) : Z := CoreModel.m_total_memory_stall_cycles (_base m).
Definition total_execution (m : IOCOOMCoreModel) : Z := CoreModel.m_total_execution_unit_stall_cycles (_base m).
Definition detailed_memory (m : IOCOOMCoreModel) : Z :=
  m_total_l1icache_stall_cycles m + m_total_inter_ins_l1dcache_read_stall_cycles m +
  m_total_load_buffer_stall_cycles m + m_total_intra_ins_l1dcache_read_stall_cycles m +
  m_total_store_buffer_stall_cycles m.
Definition detailed_execution (m : IOCOOMCoreModel) : Z :=
  m_total_inter_ins_execution_unit_stall_cycles m + m_total_intra_ins_execution_unit_stall_cycles m.
Definition cycles (m : IOCOOMCoreModel) : Z := CoreModel.m_cycle_count (_base m).

(** What [account] does to a model with the counters of [m]. *)
Lemma account_sums i t m mem exe m' :
  account i t m = Ok ((mem, exe), m') →
  cycles m' - cycles m ≡64 1 + mem + exe ∧
  detailed_memory m' - detailed_memory m ≡64 mem ∧
  detailed_execution m' - detailed_execution m ≡64 exe ∧
  total_memory m' = total_memory m ∧ total_execution m' = total_execution m ∧
  CoreModel.m_instruction_count (_base m') = CoreModel.m_instruction_count (_base m).
Proof.
  unfold account. intros Ha. destruct t as [t1 t2 t3 t4 t5 t6 t7 hw]. cbn in Ha.
  destruct m as [[] ]. unfold cycles, detailed_memory, detailed_execution, total_memory, total_execution.
  destruct (isSimpleMemoryLoad i); [|destruct hw]; cbn in Ha; injection Ha as <- <- <-; cbn;
    (split_and!; [modular|modular|modular|done|done|done]).
Qed.

(** The part of an instruction before the clock moves keeps the counters; the
    rest charges the stall cycles. *)
Lemma handle_inv i (s s' : St) :
  handleInstruction_ i s = Ok (Returned tt, s') →
  ∃ cost c1 (s1 : St) mem exe (s2 : St),
    CoreModel.getCost performance_modeling instruction_costs mispredict_penalty i (_base (model s)) = Ok (Returned cost, c1) ∧
    counts (model s1) = counts (model s) ∧
    (if isDynamic i then with_base (modify (λ c, c <| CoreModel.m_cycle_count ::= λ n, u64 (n + cost) |>)) s1 = Ok (tt, s2) ∧ mem = 0 ∧ exe = 0
     else ∃ t, on_model (account i t) s1 = Ok ((mem, exe), s2)) ∧
    model s' = (model s2) <| _base ::= λ c, CoreModel.updatePipelineStallCounters instruction_costs i mem exe
                             (c <| CoreModel.m_instruction_count ::= λ n, u64 (n + 1) |>) |>.
Proof.
  unfold handleInstruction_. intros Hs.
  apply X_bind_Returned in Hs as (cost & s1 & Hcost & Hs). apply zoom_Ok in Hcost as (c1 & Hcost & ->).
  apply X_bind_Returned in Hs as (now & s2 & H2 & Hs). apply plain_Returned, gets_Ok in H2 as [-> ->].
  apply X_bind_Returned in Hs as (latency & s2 & H2%plain_Returned & Hs).
  apply X_bind_Returned in Hs as (s3 & s3' & H3%plain_Returned & Hs). apply gets_Ok in H3 as [-> ->].
  apply X_bind_Returned in Hs as (waits & s3 & H3%plain_Returned & Hs). apply lift_Ok in H3 as [_ ->].
  apply X_bind_Returned in Hs as ([[lb op] wi] & s3 & H3 & Hs). apply plain_Returned in Hs.
  apply M_bind_Ok in Hs as ([] & s4 & H4 & Hs). apply assert_Ok in H4 as [_ ->].
  apply M_bind_Ok in Hs as ([] & s4 & H4 & Hs).
  apply M_bind_Ok in Hs as ([[sb hw] rest] & s5 & H5 & Hs).
  apply M_bind_Ok in Hs as ([mem exe] & s6 & H6 & Hs).
  apply M_bind_Ok in Hs as ([] & s7 & H7 & Hs). apply assert_Ok in H7 as [_ ->].
  apply zoom_Ok in Hs as (c8 & Hs & ->).
  exists cost, c1, s5, mem, exe, s6. split; [done|]. split.
  { etrans; [apply (on_model_keeps _ (memory_writes_keeps _ _ _ _ _) _ _ _ H5)|].
    etrans; [apply (on_model_keeps _ (register_writes_keeps _ _) _ _ _ H4)|].
    etrans; [apply (memory_operands_keeps _ _ _ _ _ _ _ _ H3)|].
    etrans; [apply (fetch_keeps _ _ _ _ _ H2)|]. cbv beta. unfold counts. f_equal.
    by apply (getCost_keeps _ _ _ _ _ _ _ Hcost). }
  split; [|apply modify_Ok in Hs as ->; done]. destruct (isDynamic i); [|by eexists].
  apply M_bind_Ok in H6 as ([] & s6' & H6 & H7). apply mret_Ok in H7 as [H7 ->]. injection H7 as -> ->. done.
Qed.

Lemma counts_sums m m' : counts m' = counts m →
  cycles m' = cycles m ∧ detailed_memory m' = detailed_memory m ∧ detailed_execution m' = detailed_execution m ∧
  total_memory m' = total_memory m ∧ total_execution m' = total_execution m ∧
  CoreModel.m_instruction_count (_base m') = CoreModel.m_instruction_count (_base m).
Proof.
  unfold counts, base_counts, details. intros Hc. injection Hc as E1 E2 E3 E4 E5 E6 E7 E8 E9 E10 E11.
  unfold cycles, detailed_memory, detailed_execution, total_memory, total_execution. split_and!; congruence.
Qed.

(** The pipeline counters of the base class. *)
Lemma pipeline_sums i mem exe m :
  let m' := m <| _base ::= λ c, CoreModel.updatePipelineStallCounters instruction_costs i mem exe
                   (c <| CoreModel.m_instruction_count ::= λ n, u64 (n + 1) |>) |> in
  cycles m' = cycles m ∧ detailed_memory m' = detailed_memory m ∧ detailed_execution m' = detailed_execution m ∧
  total_memory m' = u64 (total_memory m + mem) ∧ total_execution m' = u64 (total_execution m + exe) ∧
  CoreModel.m_instruction_count (_base m') = u64 (CoreModel.m_instruction_count (_base m) + 1).
Proof. destruct m as [[] ]. unfold CoreModel.updatePipelineStallCounters. cbn. destruct (m_type i); done. Qed.

Lemma advance_sums cost (s s' : St) :
  with_base (modify (λ c, c <| CoreModel.m_cycle_count ::= λ n, u64 (n + cost) |>)) s = Ok (tt, s') →
  let m := model s in let m' := model s' in
  cycles m' = u64 (cycles m + cost) ∧ detailed_memory m' = detailed_memory m ∧
  detailed_execution m' = detailed_execution m ∧ total_memory m' = total_memory m ∧ total_execution m' = total_execution m ∧
  CoreModel.m_instruction_count (_base m') = CoreModel.m_instruction_count (_base m).
Proof. intros Ha. apply zoom_Ok in Ha as (c & Ha & ->). apply modify_Ok in Ha as ->. by destruct s as [[[] ] ?]. Qed.

(** C25: Of an instruction that returns, the out-of-order-memory model counts one
    instruction and charges each cycle once: the cycles that pass are the cost of
    a dynamic instruction, which stalls nothing, and otherwise one plus the stall
    cycles of the memory and of the execution unit, which are the sums of the
    detailed stall counters; all of them as 64-bit numbers. *)
Theorem cycles_accounted i (s s' : St) :
  handleInstruction_ i s = Ok (Returned tt, s') →
  let m := model s in let m' := model s' in
  CoreModel.m_instruction_count (_base m') = u64 (CoreModel.m_instruction_count (_base m) + 1) ∧
  total_memory m' - total_memory m ≡64 detailed_memory m' - detailed_memory m ∧
  total_execution m' - total_execution m ≡64 detailed_execution m' - detailed_execution m ∧
  if isDynamic i then
    total_memory m' ≡64 total_memory m ∧ total_execution m' ≡64 total_execution m ∧
    (∀ cost, m_kind i = Dynamic cost → cycles m' - cycles m ≡64 cost)
  else cycles m' - cycles m ≡64 1 + (total_memory m' - total_memory m) + (total_execution m' - total_execution m).
Proof.
  intros (cost & c1 & s1 & mem & exe & s2 & Hcost & Hc & Ha & Hm')%handle_inv. cbv zeta.
  apply counts_sums in Hc as (C1 & C2 & C3 & C4 & C5 & C6). rewrite Hm'.
  destruct (pipeline_sums i mem exe (model s2)) as (P1 & P2 & P3 & P4 & P5 & P6).
  rewrite P1, P2, P3, P4, P5, P6. clear P1 P2 P3 P4 P5 P6 Hm'. destruct (isDynamic i).
  - destruct Ha as ((A1 & A2 & A3 & A4 & A5 & A6)%advance_sums & -> & ->).
    rewrite A1, A2, A3, A4, A5, A6, C1, C2, C3, C4, C5, C6. split_and!; [done|modular..|].
    intros k Hk. unfold CoreModel.getCost in Hcost. rewrite Hk in Hcost. injection Hcost as <- _. modular.
  - destruct Ha as [t Ha]. apply zoom_Ok in Ha as (m2 & Ha & ->). apply account_sums in Ha as (A1 & A2 & A3 & A4 & A5 & A6).
    rewrite C1 in A1. rewrite C2 in A2. rewrite C3 in A3. change (model (s1 <| model := m2 |>)) with m2.
    rewrite A4, A5, A6, C4, C5, C6. split_and!; [done|..]; symmetry.
    + etrans; [exact A2|]. modular.
    + etrans; [exact A3|]. modular.
    + symmetry. etrans; [exact A1|]. modular.
Qed.
End accounts.

(** A machine with one core: instructions take one cycle to fetch, the branch
    predictor has four bits, the first register waits for a load. *)
#[local] Instance sample_memory : InstructionMemory unit := {| readInstructionMemory _ _ _ := mret 1 |}.
#[local] Instance sample_config : CoreConfig :=
  {| performance_modeling := true; instruction_costs t := if bool_decide (t = INST_MUL) then 3 else 1; mispredict_penalty := 14 |}.
Definition sample_base : CoreModel.CoreModel :=
  CoreModel.pushDynamicInstructionInfo true (DynamicInstructionInfo.createMemoryInfo 8 64 WRITE 1)
    (CoreModel.pushDynamicInstructionInfo true (DynamicInstructionInfo.createMemoryInfo 20 128 READ 1)
      (CoreModel.enable 0 4 (CoreModel.make (float_of_int 1) (Some (BranchPredictor.mkBranchPredictor (replicate 4 false) 0 0))))).
Definition sample : CoreState IOCOOMCoreModel unit := mkCoreState
  ((make sample_base 2 2) <| m_register_scoreboard ::= λ l, <[0%nat := 7]> l |>
     <| m_register_wait_unit_list ::= λ l, <[0%nat := LOAD_UNIT]> l |>) tt.
Definition sample_instruction : Instruction := placed 1000 4
  (ArithInstruction INST_MUL 0 [mkOperand REG 0 READ; mkOperand MEMORY 0 READ; mkOperand MEMORY 0 WRITE; mkOperand REG 1 WRITE]).
Definition returned {A S} (r : res (outcome A * S)) (s : S) : S :=
  match r with Ok (Returned _, s') => s' | _ => s end.
Definition sample_after : CoreState IOCOOMCoreModel unit := Eval vm_compute in returned (handleInstruction_ sample_instruction sample) sample.

(** The multiplication waits seven cycles for its register, twenty for its
    operand in memory and three for its result. *)
Lemma cycles_accounted_witness :
  handleInstruction_ sample_instruction sample = Ok (Returned tt, sample_after) ∧
  total_memory (model sample_after) = 27 ∧ total_execution (model sample_after) = 3 ∧ cycles (model sample_after) = 31 ∧
  cycles (model sample_after) - cycles (model sample) ≡64
    1 + (total_memory (model sample_after) - total_memory (model sample)) +
    (total_execution (model sample_after) - total_execution (model sample)).
Proof.
  assert (Hs : handleInstruction_ sample_instruction sample = Ok (Returned tt, sample_after)) by reflexivity.
  split_and!; [exact Hs|reflexivity..|]. exact (proj2 (proj2 (proj2 (cycles_accounted sample_instruction sample sample_after Hs)))).
Defined.
End Accounts.

(** ** Branch prediction *)

Module Branches.
Import BranchPredictor CoreModel.

(** The last outcome of the branches that share a bit with the branch at [ip]. *)
Definition last_outcome (n : Z) (history : list (Z * bool)) (ip : Z) : bool :=
  default false (snd <$> last (filter (λ h, h.1 `mod` n = ip `mod` n) history)).

(** The bits are the last outcomes. *)
Definition remembers (n : Z) (history : list (Z * bool)) (b : BranchPredictor) : Prop :=
  zlength (m_bits b) = n ∧ ∀ ip, zlookup (m_bits b) (ip `mod` n) = Some (last_outcome n history ip).

Lemma last_outcome_snoc n history ip taken jp :
  last_outcome n (history ++ [(ip, taken)]) jp = if decide (ip `mod` n = jp `mod` n) then taken else last_outcome n history jp.
Proof.
  unfold last_outcome. rewrite filter_app. case_decide as Hd.
  - rewrite filter_cons_True, filter_nil by done. by rewrite last_snoc.
  - rewrite filter_cons_False by done. by rewrite filter_nil, app_nil_r.
Qed.

Lemma bit_index_ok n history b ip : 0 < n < 2 ^ 32 → remembers n history b → index b ip = Ok (ip `mod` n).
Proof.
  intros Hn [Hl _]. unfold index. rewrite Hl. rewrite (proj2 (Z.eqb_neq n 0)) by lia. cbn. f_equal.
  pose proof (Z.mod_pos_bound ip n). unfold u32, uint. rewrite (Z.mod_small (ip `mod` n)); lia.
Qed.
Lemma predict_spec n history b ip : 0 < n < 2 ^ 32 → remembers n history b →
  predict ip b = Ok (last_outcome n history ip).
Proof.
  intros Hn Hb. unfold predict. rewrite (bit_index_ok n history b ip Hn Hb). cbn. unfold vget. by rewrite (proj2 Hb ip).
Qed.
Lemma update_spec n history b ip predicted taken : 0 < n < 2 ^ 32 → remembers n history b →
  ∃ b', update predicted taken ip b = Ok b' ∧ remembers n (history ++ [(ip, taken)]) b' ∧
    m_correct_predictions b' = (if Bool.eqb predicted taken then u64 (m_correct_predictions b + 1) else m_correct_predictions b) ∧
    m_incorrect_predictions b' = (if Bool.eqb predicted taken then m_incorrect_predictions b else u64 (m_incorrect_predictions b + 1)).
Proof.
  intros Hn Hb. unfold update. set (b1 := updateCounters predicted taken b).
  assert (Hbits : m_bits b1 = m_bits b) by (unfold b1, updateCounters; by case_match).
  assert (Hb1 : remembers n history b1) by (unfold remembers; by rewrite Hbits).
  rewrite (bit_index_ok n history b1 ip Hn Hb1). cbn. pose proof (Z.mod_pos_bound ip n ltac:(lia)).
  destruct Hb1 as [Hl Hbit]. erewrite (proj2 (vset_Ok _ _ _ _ _)) by (split; [lia|reflexivity]). cbn.
  eexists. split; [done|]. split; [|unfold b1, updateCounters; by case_match].
  split; cbn; [by rewrite zlength_zinsert|]. intros jp. rewrite last_outcome_snoc. case_decide as Hd.
  - rewrite Hd, zlookup_zinsert_eq; [done|]. pose proof (Z.mod_pos_bound jp n ltac:(lia)). lia.
  - by rewrite zlookup_zinsert_ne by done.
Qed.

(** The costs of a sequence of instructions. *)
Section costs.
Context (pm : bool) (costs : InstructionType → Z) (penalty : Z).
Fixpoint getCosts (l : list Instruction) : X CoreModel (list Z) :=
  match l with
  | [] => mret []
  | i :: l => cost ← getCost pm costs penalty i ; rest ← getCosts l ; mret (cost :: rest)
  end.

(** What the branches of [todo] cost after those of [history]. *)
Fixpoint branch_costs (n : Z) (history todo : list (Z * bool)) : list Z :=
  match todo with
  | [] => []
  | (ip, taken) :: todo =>
    (if Bool.eqb (last_outcome n history ip) taken then 1 else penalty) :: branch_costs n (history ++ [(ip, taken)]) todo
  end.
(** The number of branches predicted right. *)
Fixpoint right_predictions (n : Z) (history todo : list (Z * bool)) : Z :=
  match todo with
  | [] => 0
  | (ip, taken) :: todo =>
    (if Bool.eqb (last_outcome n history ip) taken then 1 else 0) + right_predictions n (history ++ [(ip, taken)]) todo
  end.

Definition branch_at (ip : Z) : Instruction := placed ip 4 (BranchInstruction 0 []).
Definition outcomes (l : list (Z * bool)) : list DynamicInstructionInfo :=
  (λ h, DynamicInstructionInfo.createBranchInfo h.2 0) <$> l.

Lemma branch_cost_spec n history c b ip taken queue b' :
  0 < n < 2 ^ 32 → m_bp c = Some b → remembers n history b → active pm c = true →
  m_dynamic_info_queue c = DynamicInstructionInfo.BRANCH taken 0 :: queue → zlength (m_dynamic_info_queue c) < 5000 →
  update (last_outcome n history ip) taken ip b = Ok b' →
  getCost pm costs penalty (branch_at ip) c =
    Ok (Returned (if Bool.eqb (last_outcome n history ip) taken then 1 else penalty),
        c <| m_bp := Some b' |> <| m_dynamic_info_queue := queue |>).
Proof.
  intros Hn Hbp Hb Ha Hq Hlen Hu. rewrite Hq in Hlen.
  assert (Hinfo : getDynamicInstructionInfo c = Ok (Returned (DynamicInstructionInfo.BRANCH taken 0), c)).
  { unfold getDynamicInstructionInfo. rewrite Hq. by rewrite (proj2 (Z.ltb_lt _ _)). }
  unfold getCost. cbn [branch_at placed m_kind BranchInstruction m_address]. unfold mbind at 1, X_bind at 1. rewrite Hinfo.
  unfold plain, branch_cost, popDynamicInstructionInfo. unfold gets, id, mbind, M_bind. rewrite Hbp.
  rewrite (predict_spec n history b ip Hn Hb). cbn [lift]. unfold lift. rewrite Hu. unfold modify.
  change (active pm (c <| m_bp := Some b' |>)) with (active pm c). rewrite Ha. cbn [when].
  change (m_dynamic_info_queue (c <| m_bp := Some b' |>)) with (m_dynamic_info_queue c). rewrite Hq.
  unfold assert. rewrite (proj2 (Z.ltb_lt _ _)) by done.
  rewrite (proj2 (Z.gtb_lt _ _)) by (unfold zlength; cbn; lia). cbn. by rewrite Hq.
Qed.

Lemma branches_run n : 0 < n < 2 ^ 32 → ∀ todo history c b rest,
  m_bp c = Some b → remembers n history b → active pm c = true →
  m_dynamic_info_queue c = outcomes todo ++ rest → zlength (m_dynamic_info_queue c) < 5000 →
  ∃ c' b', getCosts (branch_at ∘ fst <$> todo) c = Ok (Returned (branch_costs n history todo), c') ∧
    m_bp c' = Some b' ∧ remembers n (history ++ todo) b' ∧ m_dynamic_info_queue c' = rest ∧
    m_correct_predictions b' ≡64 m_correct_predictions b + right_predictions n history todo ∧
    m_incorrect_predictions b' ≡64 m_incorrect_predictions b + (zlength todo - right_predictions n history todo).
Proof.
  intros Hn todo. induction todo as [|[ip taken] todo IH]; intros history c b rest Hbp Hb Ha Hq Hlen.
  { exists c, b. rewrite app_nil_r. split_and!; try done; unfold zlength; cbn; modular. }
  destruct (update_spec n history b ip (last_outcome n history ip) taken Hn Hb) as (b1 & Hu & Hb1 & Hok & Hko).
  set (c1 := c <| m_bp := Some b1 |> <| m_dynamic_info_queue := outcomes todo ++ rest |>).
  assert (Hcost : getCost pm costs penalty (branch_at ip) c =
    Ok (Returned (if Bool.eqb (last_outcome n history ip) taken then 1 else penalty), c1)).
  { by apply (branch_cost_spec n history c b). }
  destruct (IH (history ++ [(ip, taken)]) c1 b1 rest) as (c' & b' & H1 & H2 & H3 & H4 & H5 & H6); [done..| |].
  { change (m_dynamic_info_queue c1) with (outcomes todo ++ rest). rewrite Hq in Hlen.
    unfold zlength, outcomes in *. rewrite length_app, length_fmap in *. cbn [length] in *. lia. }
  exists c', b'. split_and!; [|done|by rewrite <- app_assoc in H3|done|..].
  - cbn [fmap list_fmap getCosts branch_costs]. unfold mbind, X_bind. cbn [compose fst]. rewrite Hcost. by rewrite H1.
  - etrans; [exact H5|]. rewrite Hok. cbn. destruct (Bool.eqb _ _); modular.
  - etrans; [exact H6|]. rewrite Hko. unfold zlength. cbn. destruct (Bool.eqb _ _); modular.
Qed.

Lemma create_remembers size b : 0 < size < 2 ^ 32 → create "one_bit" size = Ok (Some b) →
  remembers size [] b ∧ m_correct_predictions b = 0 ∧ m_incorrect_predictions b = 0.
Proof.
  intros Hs Hc. injection Hc as <-. cbn. unfold u32, uint. rewrite Z.mod_small by lia. split; [|done]. split.
  - unfold zlength. cbn. rewrite length_replicate. lia.
  - intros ip. cbn [m_bits]. pose proof (Z.mod_pos_bound ip size). rewrite zlookup_nat by lia. apply lookup_replicate. split; [done|lia].
Qed.

(** With the one-bit predictor of the configuration a branch costs one cycle
    when the last branch that shares its bit went the same way (a branch that is
    the first of its bit when it is not taken) and the penalty when not, whatever
    the sequence of branches; each takes its own outcome from the queue, and the
    two counters are the numbers of branches predicted right and wrong. *)
Lemma one_bit_prediction size b c branches rest :
  0 < size < 2 ^ 32 → create "one_bit" size = Ok (Some b) → m_bp c = Some b → active pm c = true →
  m_dynamic_info_queue c = outcomes branches ++ rest → zlength (m_dynamic_info_queue c) < 5000 →
  ∃ c' b', getCosts (branch_at ∘ fst <$> branches) c = Ok (Returned (branch_costs size [] branches), c') ∧
    m_bp c' = Some b' ∧ m_dynamic_info_queue c' = rest ∧
    m_correct_predictions b' ≡64 right_predictions size [] branches ∧
    m_incorrect_predictions b' ≡64 zlength branches - right_predictions size [] branches.
Proof.
  intros Hs Hc Hbp Ha Hq Hl. destruct (create_remembers size b Hs Hc) as (Hr & E1 & E2).
  destruct (branches_run size Hs branches [] c b rest Hbp Hr Ha Hq Hl) as (c' & b' & H1 & H2 & _ & H3 & H4 & H5).
  exists c', b'. rewrite E1 in H4. rewrite E2 in H5. done.
Qed.
End costs.

(** With two bits, a loop at address 8 and a branch at 10 that shares its bit. *)
Definition sample_branches : list (Z * bool) := [(8, true); (8, true); (8, false); (10, true); (8, true); (8, false)].
Definition sample_core : CoreModel :=
  (CoreModel.make (float_of_int 1) (Some (mkBranchPredictor [false; false] 0 0))) <| m_enabled := true |>
    <| m_dynamic_info_queue := outcomes sample_branches |>.
Lemma one_bit_prediction_witness :
  branch_costs 14 2 [] sample_branches = [14; 1; 14; 14; 1; 14] ∧ right_predictions 2 [] sample_branches = 2 ∧
  ∃ c' b', getCosts true (λ _, 1) 14 (branch_at ∘ fst <$> sample_branches) sample_core =
      Ok (Returned [14; 1; 14; 14; 1; 14], c') ∧
    m_bp c' = Some b' ∧ m_dynamic_info_queue c' = [] ∧ m_correct_predictions b' ≡64 2 ∧ m_incorrect_predictions b' ≡64 6 - 2.
Proof.
  split; [reflexivity|]. split; [reflexivity|].
  apply (one_bit_prediction true (λ _, 1) 14 2 (mkBranchPredictor [false; false] 0 0) sample_core sample_branches []);
    [lia|reflexivity|reflexivity|reflexivity|by rewrite app_nil_r|vm_compute; reflexivity].
Defined.
End Branches.

(** ** The load buffer *)

Module Buffers.
Import IOCOOMCoreModel IOCOOMProofs.

(** A load that was served: its unit, and when it held it. *)
Definition Service : Type := nat * (Z * Z).
Definition holds (time : Z) (iv : Z * Z) : Prop := iv.1 ≤ time < iv.2.
#[global] Instance holds_dec time iv : Decision (holds time iv).
Proof. unfold holds. apply _. Defined.
(** The number of loads that hold a unit at [time]. *)
Definition in_service (time : Z) (l : list (Z * Z)) : nat := length (filter (holds time) l).

(** What the scoreboard says of the loads served so far, the latest first; [T]
    is the time of the latest request. *)
Record consistent (n : nat) (T B : Z) (past : list Service) (sb : list Z) : Prop := mkConsistent {
  con_length : length sb = n;
  con_bound : Forall (λ f, 0 ≤ f ≤ B) sb;
  con_past : Forall (λ s : Service, ∃ free, sb !! s.1 = Some free ∧ s.2.2 ≤ free) past;
  con_apart : StronglySorted (λ s' s : Service, s.1 = s'.1 → s.2.2 ≤ s'.2.1) past;
  con_busy : ∀ u free time, sb !! u = Some free → T ≤ time < free → ∃ s, s ∈ past ∧ s.1 = u ∧ holds time s.2
}.

Lemma in_service_units time past :
  in_service time (snd <$> past) = length (fst <$> filter (λ s : Service, holds time s.2) past).
Proof. unfold in_service. rewrite length_fmap. induction past as [|s past IH]; [done|]. rewrite fmap_cons, !filter_cons. by case_decide; cbn; rewrite ?IH. Qed.

Lemma units_distinct time past :
  StronglySorted (λ s' s : Service, s.1 = s'.1 → s.2.2 ≤ s'.2.1) past →
  NoDup (fst <$> filter (λ s : Service, holds time s.2) past).
Proof.
  induction 1 as [|s past Hs IH Hall]; [constructor|]. rewrite filter_cons. case_decide as Hh; [|done]. cbn. constructor; [|done].
  intros ([u iv] & Hu & Hin)%list_elem_of_fmap. apply list_elem_of_filter in Hin as [Hiv Hin].
  rewrite Forall_forall in Hall. specialize (Hall _ Hin (eq_sym Hu)). unfold holds in *. cbn in *. lia.
Qed.

Lemma capacity n T B past sb time : consistent n T B past sb → (in_service time (snd <$> past) <= n)%nat.
Proof.
  intros [Hl _ Hp Ha _]. rewrite in_service_units. replace n with (length (seq 0 n)) by apply length_seq. apply submseteq_length, NoDup_submseteq.
  { by apply units_distinct. }
  intros u ([u' iv] & -> & Hin)%list_elem_of_fmap. apply list_elem_of_filter in Hin as [_ Hin].
  rewrite Forall_forall in Hp. destruct (Hp _ Hin) as (free & Hf & _). apply lookup_lt_Some in Hf. apply elem_of_seq. cbn in *. lia.
Qed.
Lemma full n T B past sb time : consistent n T B past sb → T ≤ time → Forall (λ f, time < f) sb →
  in_service time (snd <$> past) = n.
Proof.
  intros Hc HT Hall. apply Nat.le_antisymm; [by eapply capacity|]. destruct Hc as [Hl _ _ _ Hb].
  rewrite in_service_units. replace n with (length (seq 0 n)) by apply length_seq. apply submseteq_length, NoDup_submseteq; [apply NoDup_seq|].
  intros u Hu%elem_of_seq. destruct (lookup_lt_is_Some_2 sb u ltac:(lia)) as [f Hf].
  rewrite Forall_lookup in Hall. destruct (Hb u f time Hf) as (s & Hs & <- & Hh); [split; [done|by apply (Hall u)]|].
  apply list_elem_of_fmap. exists s. split; [done|]. by apply list_elem_of_filter.
Qed.

(** One load: it gets a unit as soon as fewer than [n] loads are in service. *)
Lemma execute_spec n T B past sb time occupancy :
  (0 < n)%nat → consistent n T B past sb → T ≤ time → time ≤ B → 0 ≤ time → 0 ≤ occupancy → B + occupancy < 2 ^ 64 →
  ∃ u start sb', LoadBuffer.execute time occupancy (LoadBuffer.mkLoadBuffer sb) = Ok (start, LoadBuffer.mkLoadBuffer sb') ∧
    consistent n time (B + occupancy) ((u, (start, start + occupancy)) :: past) sb' ∧ time ≤ start ∧
    ∀ t, time ≤ t < start → in_service t (snd <$> past) = n.
Proof.
  intros Hn Hc HT HB H0 Hocc Hmax. pose proof Hc as [Hl Hb Hp Ha Hbusy].
  destruct (allocate_unit_spec "LoadBuffer" time sb) as (u & free & Hu & Hfree & Hmin); [by destruct sb; cbn in *; [lia|]|].
  pose proof (lookup_lt_Some _ _ _ Hfree) as Hlt. rewrite Forall_lookup in Hb. pose proof (Hb _ _ Hfree) as Hfb.
  set (start := Z.max time free) in *. exists u, start, (<[u := start + occupancy]> sb). split_and!; [| |lia|].
  - unfold LoadBuffer.execute. cbn. rewrite Hu. cbn. unfold u64, uint. rewrite Z.mod_small by lia. unfold vset, zlength, zinsert.
    rewrite !(proj2 (Z.leb_le _ _)), (proj2 (Z.ltb_lt _ _)) by lia. cbn. by rewrite Nat2Z.id.
  - split.
    + by rewrite length_insert.
    + apply Forall_insert; [|lia]. apply Forall_lookup. intros v f Hf. specialize (Hb _ _ Hf). lia.
    + constructor; [exists (start + occupancy); split; [by apply list_lookup_insert_eq|done]|].
      eapply Forall_impl; [exact Hp|]. cbn. intros [v [a b]] (f & Hf & Hle). cbn in *. destruct (decide (v = u)) as [->|Hne].
      * exists (start + occupancy). rewrite list_lookup_insert_eq by done. split; [done|]. simplify_eq. lia.
      * exists f. by rewrite list_lookup_insert_ne.
    + constructor; [done|]. eapply Forall_impl; [exact Hp|]. cbn. intros [v [a b]] (f & Hf & Hle) E. cbn in *. simplify_eq. lia.
    + intros v f t Hf Ht. destruct (decide (v = u)) as [->|Hne].
      * rewrite list_lookup_insert_eq in Hf by done. injection Hf as <-. destruct (decide (start ≤ t)) as [Hs|Hs].
        -- exists (u, (start, start + occupancy)). split_and!; [by left|done|]. unfold holds. cbn. lia.
        -- destruct (Hbusy u free t Hfree) as (s & Hs' & H1 & H2); [lia|]. exists s. split_and!; [by right|done|done].
      * rewrite list_lookup_insert_ne in Hf by done. destruct (Hbusy v f t Hf) as (s & Hs' & H1 & H2); [lia|].
        exists s. split_and!; [by right|done|done].
  - intros t Ht. apply (full n T B past sb t Hc); [lia|]. eapply Forall_impl; [exact Hmin|]. cbn. lia.
Qed.

(** A sequence of loads: when each holds its unit. *)
Fixpoint serve (requests : list (Z * Z)) (b : LoadBuffer.LoadBuffer) : res (list (Z * Z) * LoadBuffer.LoadBuffer) :=
  match requests with
  | [] => Ok ([], b)
  | (time, occupancy) :: requests =>
    r ← LoadBuffer.execute time occupancy b ;
    rest ← serve requests r.2 ;
    Ok ((r.1, r.1 + occupancy) :: rest.1, rest.2)
  end.
Definition occupancies (requests : list (Z * Z)) : Z := foldr (λ r n, r.2 + n) 0 requests.
(** The [k]th load starts when it asks or, when all [n] units are held, as soon
    as one is free. *)
Definition prompt (n : nat) (before : list (Z * Z)) (requests served : list (Z * Z)) : Prop :=
  ∀ k time occupancy, requests !! k = Some (time, occupancy) → ∃ start,
    served !! k = Some (start, start + occupancy) ∧ time ≤ start ∧
    ∀ t, time ≤ t < start → in_service t (before ++ take k served) = n.

Lemma in_service_perm t l l' : l ≡ₚ l' → in_service t l = in_service t l'.
Proof. intros Hp. unfold in_service. by rewrite Hp. Qed.

Lemma serve_spec n : (0 < n)%nat → ∀ requests T B past sb,
  consistent n T B past sb → Forall (λ r, 0 ≤ r.1 ≤ B ∧ 0 ≤ r.2) requests → Sorted Z.le (T :: requests.*1) →
  B + occupancies requests < 2 ^ 64 →
  ∃ served b, serve requests (LoadBuffer.mkLoadBuffer sb) = Ok (served, b) ∧
    (∀ t, (in_service t (reverse past.*2 ++ served) <= n)%nat) ∧ prompt n (reverse past.*2) requests served.
Proof.
  intros Hn requests. induction requests as [|[time occ] requests IH]; intros T B past sb Hc Hr Hs Hmax.
  { exists [], (LoadBuffer.mkLoadBuffer sb). split_and!; [done| |by intros k ? ? ?].
    intros t. rewrite app_nil_r, (in_service_perm t _ past.*2) by apply reverse_Permutation. by eapply capacity. }
  apply Forall_cons in Hr as [[H1 H2] Hr]. cbn in H1, H2. cbn in Hmax. change (foldr _ 0 requests) with (occupancies requests) in Hmax.
  assert (Hocc : 0 ≤ occupancies requests).
  { clear -Hr. unfold occupancies. induction Hr as [|r l [? ?] _ IH]; cbn; lia. }
  cbn in Hs. apply Sorted_inv in Hs as [Hs HT]. apply HdRel_inv in HT.
  destruct (execute_spec n T B past sb time occ) as (u & start & sb' & He & Hc' & Hst & Hwait); [done|done|lia..|].
  destruct (IH _ _ _ _ Hc') as (served & b & Hsv & Hcap & Hpr); [|done|lia|].
  { eapply Forall_impl; [exact Hr|]. cbn. lia. }
  cbn [fmap list_fmap] in Hcap, Hpr. cbn [snd] in Hcap, Hpr. rewrite reverse_cons in Hcap, Hpr.
  exists ((start, start + occ) :: served), b. split_and!.
  - cbn. rewrite He. cbn. by rewrite Hsv.
  - intros t. specialize (Hcap t). by rewrite <- app_assoc in Hcap.
  - intros [|k] time' occ' Hk; cbn in Hk.
    + injection Hk as <- <-. exists start. split_and!; [done|done|]. intros t Ht. cbn. rewrite app_nil_r.
      rewrite (in_service_perm t _ past.*2) by apply reverse_Permutation. by apply Hwait.
    + destruct (Hpr k time' occ' Hk) as (st & Hst' & Hle & Hw). exists st. split_and!; [done|done|]. intros t Ht.
      specialize (Hw t Ht). by rewrite <- app_assoc in Hw.
Qed.

(** C26: The load buffer serves loads that ask in the order of their times like
    [n] units do: at no time do more than [n] loads hold a unit, each load holds
    one for as long as it occupies it, and it waits only while all [n] units are
    held by the loads before it. *)
Theorem load_buffer_service num_units requests B :
  0 < num_units < 2 ^ 32 → Sorted Z.le requests.*1 → Forall (λ r, 0 ≤ r.1 ≤ B ∧ 0 ≤ r.2) requests →
  0 ≤ B → B + occupancies requests < 2 ^ 64 →
  ∃ served b, serve requests (LoadBuffer.make num_units) = Ok (served, b) ∧
    (∀ t, (in_service t served <= Z.to_nat num_units)%nat) ∧ prompt (Z.to_nat num_units) [] requests served.
Proof.
  intros Hn Hs Hr HB Hmax. unfold LoadBuffer.make, u32, uint. rewrite Z.mod_small by lia.
  apply (serve_spec (Z.to_nat num_units) ltac:(lia) requests 0 B [] _); [|done| |done].
  - split; [by rewrite length_replicate|by apply Forall_replicate; lia|constructor..|].
    intros u free t Hf Ht. apply lookup_replicate in Hf as [-> _]. lia.
  - constructor; [done|]. destruct Hr as [|[time occ] requests [H1 _] _]; cbn; constructor. cbn in H1. lia.
Qed.
(** The third load waits for the first of two units to be free. *)
Lemma load_buffer_service_witness :
  ∃ served b, serve [(0, 10); (2, 10); (3, 5); (30, 1)] (LoadBuffer.make 2) = Ok (served, b) ∧
    served = [(0, 10); (2, 12); (10, 15); (30, 31)] ∧ (∀ t, (in_service t served <= 2)%nat).
Proof.
  destruct (load_buffer_service 2 [(0, 10); (2, 10); (3, 5); (30, 1)] 30) as (served & b & Hs & Hc & _);
    [lia|repeat first [apply Sorted_cons|apply Sorted_nil|apply HdRel_cons|apply HdRel_nil|cbn; lia]
     |repeat first [apply Forall_nil_2|apply Forall_cons; split; [cbn; lia|]]|lia|cbn; lia|].
  exists served, b. split; [exact Hs|]. split; [|exact Hc]. vm_compute in Hs. injection Hs as <- _. reflexivity.
Defined.
End Buffers.
