(* ===== verification/Messages.v ===== *)
(** * Messages: virtual channels, filters and the message interface of a core

    Models user/message.cc, user/chip.cc, user/virtual_channel.cc and
    user/capi.cc, atac/filtered_ingestor.cc and atac/message_buffer.cc, and the
    messages of tile/core/core.cc: sending with the counters of the queues at the
    receivers, receiving, filtering and buffering by channel. *)
From S2P Require Import Prelude Utils Double CacheSet Cache Shmem ThreadManager Packetize QueueModels HistoryTree NetPacket NetworkModel MeshModels AtacModel Network Instruction.
Import PacketType.

(** ** Messages *)

Module Message.
Record Message := mkMessage {
  tag : Z;
  size : Z;
  payload : Z;
  signature : Z;
  vc_id : Z;
  wavelength_id : Z
}.
(** [Message(int, int)]: what stands for no message. *)
Definition no_message (vc_id wavelength_id : Z) : Message := mkMessage 0 0 (-999) 0 vc_id wavelength_id.

(** The six words of the object. *)
Definition sizeof : Z := 24.
Definition to_bytes (m : Message) : list Z :=
  UnstructuredBuffer.bytes_of 4 (tag m) ++ UnstructuredBuffer.bytes_of 4 (size m) ++
  UnstructuredBuffer.bytes_of 4 (payload m) ++ UnstructuredBuffer.bytes_of 4 (signature m) ++
  UnstructuredBuffer.bytes_of 4 (vc_id m) ++ UnstructuredBuffer.bytes_of 4 (wavelength_id m).
(** The cast of [data] to a message reads its words. *)
Definition word (l : list Z) (i : nat) : Z := s32 (UnstructuredBuffer.of_bytes (take 4 (drop (4 * i) l))).
Definition of_bytes (bytes : list Z) : res Message :=
  l ← mem_read bytes 0 sizeof ;
  Ok (mkMessage (word l 0) (word l 1) (word l 2) (word l 3) (word l 4) (word l 5)).
Definition of_payload {Msg} (d : NetPacket.Payload Msg) : res Message :=
  match d with
  | NetPacket.Bytes bytes => of_bytes bytes
  | NetPacket.NULL => Fail (ENull "packet.data")
  | NetPacket.Message _ => Fail (EAssert "packet.data is no message of the user")
  end.
End Message.

(** ** The names of the virtual channels *)

Module Chip.
Definition MAX_VIRTUAL_CHANNELS : Z := 1024.
Definition NUMBER_OF_WAVELENGTHS : Z := 100.

(** The static members; a name counts by its first character alone
    (CHAR_HACK), 0 for the empty name. *)
Record Chip := mkChip { next_vc_id : Z; active_virtual_channels : gmap Z Z }.
Definition initial : Chip := mkChip 10 ∅.
Definition key (name : string) : Z :=
  match name with EmptyString => 0 | String c _ => Z.of_nat (Ascii.nat_of_ascii c) end.

Definition register_virtual_channel (name : string) : M Chip Z := λ c,
  if next_vc_id c <? MAX_VIRTUAL_CHANNELS then
    let new_vc_id := next_vc_id c in
    Ok (new_vc_id, mkChip (next_vc_id c + 1) (<[key name := new_vc_id]> (active_virtual_channels c)))
  else Ok (-1, c).
Definition find_vc_id (name : string) (c : Chip) : Z :=
  match active_virtual_channels c !! key name with
  | None => -1
  | Some id => if id =? 0 then -1 else id
  end.
End Chip.

(** ** The filter of a tile *)

Module FilteredIngestor.

(** [FilterOperations::e]. *)
Definition ALL : Z := 0.
Definition NONE : Z := 1.
Definition AND : Z := 2.
Definition OR : Z := 3.
Definition XOR : Z := 4.

Record FilteredIngestor := mkFilteredIngestor {
  filter_mask : Z;
  filter_match_operation : Z;
  filter_match_signature : Z;
  virtual_channel_memberships : list bool
}.
#[global] Instance eta_FilteredIngestor : Eta FilteredIngestor := λ f, mkFilteredIngestor
  (filter_mask f) (filter_match_operation f) (filter_match_signature f) (virtual_channel_memberships f).

Definition make : FilteredIngestor :=
  mkFilteredIngestor 0 ALL 0 (replicate (Z.to_nat Chip.MAX_VIRTUAL_CHANNELS) false).
Definition set_filter (mask operation signature : Z) (f : FilteredIngestor) : FilteredIngestor :=
  f <| filter_mask := u32 mask |> <| filter_match_operation := u32 operation |> <| filter_match_signature := u32 signature |>.
Definition subscribe_to_virtual_channel (vc_id : Z) (f : FilteredIngestor) : res FilteredIngestor :=
  l ← vset "virtual_channel_memberships" (virtual_channel_memberships f) vc_id true ;
  Ok (f <| virtual_channel_memberships := l |>).
Definition unsubscribe_from_virtual_channel (vc_id : Z) (f : FilteredIngestor) : res FilteredIngestor :=
  l ← vset "virtual_channel_memberships" (virtual_channel_memberships f) vc_id false ;
  Ok (f <| virtual_channel_memberships := l |>).
Definition subscribed_to_channel (m : Message.Message) (f : FilteredIngestor) : res bool :=
  vget "virtual_channel_memberships" (virtual_channel_memberships f) (Message.vc_id m).

Section filter.
Context {Msg : Type}.
Implicit Types packet : NetPacket Msg.

Definition passes_filter (f : FilteredIngestor) packet : res bool :=
  let op := filter_match_operation f in
  if op =? ALL then Ok true else if op =? NONE then Ok false else
  msg ← Message.of_payload (NetPacket.data packet) ;
  let masked_message_signature := Z.land (u32 (Message.signature msg)) (filter_mask f) in
  let signature := filter_match_signature f in
  if op =? AND then Ok (negb (Z.land masked_message_signature signature =? 0))
  else if op =? OR then Ok (negb (Z.lor masked_message_signature signature =? 0))
  else if op =? XOR then Ok (negb (Z.lxor masked_message_signature signature =? 0))
  else Fail (ELog "BAD FILTER STATE").
End filter.
End FilteredIngestor.

(** ** Receiving through the filter *)

Module Ingest.
Import FilteredIngestor.
Section ingest.
Context {Msg : Type}.
(** The bytes that lie behind the end of the queue of a network, read as a
    packet. *)
Context (behind_end : NetPacket Msg).

(** [netRecvNonBlock] with the packet it reads when there is none. *)
Definition netRecvNonBlock (m : NetMatch.NetMatch) : M (Network.Network Msg) (NetPacket Msg) :=
  n ← gets id ;
  match Network.earliest (Network.matches (Network.match_senders (Network._numMod n) m) (Network.match_types m)
          (Network.match_receiver (Network._tid n) m)) 0 (Network._netQueue n) None with
  | Some _ => Network.netRecvNonBlock m
  | None =>
    Network.queue_recv_instruction behind_end ;;
    mret (behind_end <| NetPacket.data := NetPacket.Bytes (Message.to_bytes (Message.no_message 0 0)) |>
                     <| NetPacket.found := false |>)
  end.

(** Packets that do not pass are dropped. *)
Fixpoint receive_loop (fuel : nat) (f : FilteredIngestor) (m : NetMatch.NetMatch) :
    M (Network.Network Msg) (NetPacket Msg) :=
  match fuel with
  | 0%nat => fail (EFuel "receive_filtered")
  | S fuel =>
    packet ← netRecvNonBlock m ;
    if negb (NetPacket.found packet) then mret packet else
    pass ← lift (passes_filter f packet) ;
    if pass : bool then mret packet else receive_loop fuel f m
  end.
(** Every round but the last takes a packet off the queue. *)
Definition receive (f : FilteredIngestor) (m : NetMatch.NetMatch) : M (Network.Network Msg) (NetPacket Msg) :=
  λ n, receive_loop (S (length (Network._netQueue n))) f m n.
Definition receive_filtered (f : FilteredIngestor) (pkt_type : PacketType) : M (Network.Network Msg) (NetPacket Msg) :=
  receive f (NetMatch.mkNetMatch [] [pkt_type] INVALID_CORE_ID).
Definition receive_filtered_from (f : FilteredIngestor) (src : core_id_t) (pkt_type : PacketType) :
    M (Network.Network Msg) (NetPacket Msg) :=
  receive f (NetMatch.mkNetMatch [src] [pkt_type] INVALID_CORE_ID).
End ingest.
End Ingest.

(** ** The buffer of a core *)

Module MessageBuffer.
Section buffer.
Context {Msg : Type}.
(** [message_queues]: a queue for each channel. *)
Definition MessageBuffer : Type := list (list (NetPacket Msg)).
Definition make : MessageBuffer := replicate (Z.to_nat Chip.MAX_VIRTUAL_CHANNELS) [].

Definition enqueue_message (packet : NetPacket Msg) : M MessageBuffer bool :=
  msg ← lift (Message.of_payload (NetPacket.data packet)) ;
  let vc_id := Message.vc_id msg in
  assert (0 <=? vc_id) "enqueue_message" ;;
  assert (vc_id <? Chip.MAX_VIRTUAL_CHANNELS) "enqueue_message" ;;
  queues ← gets id ;
  queue ← lift (vget "message_queues" queues vc_id) ;
  modify (zinsert vc_id (queue ++ [packet])) ;;
  mret true.

Definition dequeue_filtered_message (virtual_channel_id : Z) : M MessageBuffer (NetPacket Msg) :=
  queues ← gets id ;
  queue ← lift (vget "message_queues" queues virtual_channel_id) ;
  match queue with
  | packet :: queue => modify (zinsert virtual_channel_id queue) ;; mret packet
  | [] => mret NetPacket.empty
  end.
End buffer.
Arguments MessageBuffer : clear implicits.
End MessageBuffer.

(** ** The counters of the queues at the receivers *)

Module Flow.

(** The static members of [Core]: [s_rambda_buffer_count], by receiver and
    sender, and [s_block_send]. *)
Definition MAX_CORES : Z := 65.
Record Flow := mkFlow { s_rambda_buffer_count : list (list Z); s_block_send : list bool }.
#[global] Instance eta_Flow : Eta Flow := λ f, mkFlow (s_rambda_buffer_count f) (s_block_send f).
Definition initial : Flow :=
  let n := Z.to_nat MAX_CORES in mkFlow (replicate n (replicate n 0)) (replicate n false).

(** Adds to the counter of a receiver and a sender and returns it. *)
Definition count (receiver sender delta : Z) : M Flow Z :=
  f ← gets id ;
  row ← lift (vget "s_rambda_buffer_count" (s_rambda_buffer_count f) receiver) ;
  n ← lift (vget "s_rambda_buffer_count" row sender) ;
  row ← lift (vset "s_rambda_buffer_count" row sender (s32 (n + delta))) ;
  modify (λ f, f <| s_rambda_buffer_count ::= zinsert receiver row |>) ;;
  mret (s32 (n + delta)).
Definition set_block (i : Z) (b : bool) : M Flow unit :=
  f ← gets id ;
  l ← lift (vset "s_block_send" (s_block_send f) i b) ;
  modify (λ f, f <| s_block_send := l |>).

Section limit.
Context (LAMBDA_QUEUE_LENGTH : Z).

(** Before a broadcast: [false] when it is refused. *)
Definition before_broadcast (sender : Z) : M Flow bool :=
  f ← gets id ;
  blocked ← lift (vget "s_block_send" (s_block_send f) sender) ;
  if blocked : bool then mret false else
  mfor (seqZ 0 MAX_CORES) (λ i,
    n ← count i sender 1 ;
    when (n >=? s32 (LAMBDA_QUEUE_LENGTH - 4)) (set_block i true)) ;;
  mret true.

(** Before a packet is received. *)
Definition before_receive (receiver sender : Z) : M Flow unit :=
  n ← count receiver sender (-1) ;
  when (n =? s32 (LAMBDA_QUEUE_LENGTH - 4 - 1)) (set_block sender false).
End limit.
End Flow.

(** ** The message interface of the cores *)

Module Core.

Definition CAPI_ENDPOINT_ALL : Z := 0x10000000.
Definition CAPI_ENDPOINT_ANY : Z := 0x20000000.
Inductive carbon_network_t := CARBON_NET_USER_1 | CARBON_NET_USER_2.
Definition getPktTypeFromUserNetType (net_type : carbon_network_t) : PacketType :=
  match net_type with CARBON_NET_USER_1 => USER_1 | CARBON_NET_USER_2 => USER_2 end.

(** What a tile has beside its network. *)
Record Node (Msg : Type) := mkNode {
  m_filtered_ingestor : FilteredIngestor.FilteredIngestor;
  message_buffer : MessageBuffer.MessageBuffer Msg;
  m_queue_model : Queue.Queue;
  m_core_model : CoreModel.CoreModel
}.
Arguments mkNode {Msg}.
Arguments m_filtered_ingestor {Msg}.
Arguments message_buffer {Msg}.
Arguments m_queue_model {Msg}.
Arguments m_core_model {Msg}.
#[global] Instance eta_Node Msg : Eta (Node Msg) := λ n, mkNode
  (m_filtered_ingestor n) (message_buffer n) (m_queue_model n) (m_core_model n).

(** The tiles with their networks, the static members, and the table of
    communication identifiers. *)
Record Machine (Msg : Type) := mkMachine {
  world : World.World Msg;
  nodes : list (Node Msg);
  flow : Flow.Flow;
  chip : Chip.Chip;
  m_comm_to_tile_map : gmap Z Z
}.
Arguments mkMachine {Msg}.
Arguments world {Msg}.
Arguments nodes {Msg}.
Arguments flow {Msg}.
Arguments chip {Msg}.
Arguments m_comm_to_tile_map {Msg}.
#[global] Instance eta_Machine Msg : Eta (Machine Msg) := λ s, mkMachine
  (world s) (nodes s) (flow s) (chip s) (m_comm_to_tile_map s).

(** The values of the configuration file. *)
Class MessageConfig := {
  CHECKBUFFER_COST : Z;
  LAMBDA_QUEUE_LENGTH : Z;
  performance_modeling : bool
}.

Section core.
Context {Msg : Type} `{MemoryManager Msg} `{MessageConfig} (cfg : SysConfig.Config) (pow : double → double → double).
Context (behind_end : NetPacket Msg).
Abbreviation St := (Machine Msg).

Definition in_world {A} (op : M (World.World Msg) A) : M St A := zoom world (λ w s, s <| world := w |>) op.
Definition in_flow {A} (op : M Flow.Flow A) : M St A := zoom flow (λ f s, s <| flow := f |>) op.
Definition in_node {A} (t : Z) (op : M (Node Msg) A) : M St A :=
  s ← gets id ;
  n ← lift (vget "getTileFromID" (nodes s) t) ;
  an ← lift (op n) ;
  modify (λ s, s <| nodes ::= zinsert t an.2 |>) ;;
  mret an.1.
Definition in_buffer {A} (op : M (MessageBuffer.MessageBuffer Msg) A) : M (Node Msg) A :=
  zoom message_buffer (λ b n, n <| message_buffer := b |>) op.

(** [receive_filtered_from] of the tile. *)
Definition ingest (t : Z) (sender : core_id_t) (pkt_type : PacketType) : M St (NetPacket Msg) :=
  f ← in_node t (gets m_filtered_ingestor) ;
  in_world (World.on t (Ingest.receive_filtered_from behind_end f sender pkt_type)).

(** What [filter_incoming_messages] does with a packet it found. *)
Definition buffer_packet (packet : NetPacket Msg) : M (Node Msg) unit :=
  n ← gets id ;
  dq ← lift (Queue.computeQueueDelay pow (NetPacket.time packet) 10 (m_queue_model n)) ;
  let packet := packet <| NetPacket.time ::= λ t, u64 (t + dq.1) |> in
  modify (λ n, n <| m_queue_model := dq.2 |>
    <| m_core_model ::= λ c, CoreModel.increment_packet_delay (u64 (NetPacket.time packet - NetPacket.init_time packet))
                               (CoreModel.increment_packet_processed_count c) |>) ;;
  _ ← in_buffer (MessageBuffer.enqueue_message packet) ; skip.

Definition filter_incoming_messages (t : Z) (net_type : carbon_network_t) : M St Z :=
  let pkt_type := getPktTypeFromUserNetType net_type in
  foldr (λ i (next : Z → M St Z) total_incoming,
      packet ← ingest t (getMainCoreId i) pkt_type ;
      if NetPacket.found packet then in_node t (buffer_packet packet) ;; next (total_incoming + 1)
      else next total_incoming)
    mret (seqZ 0 Chip.NUMBER_OF_WAVELENGTHS) 0.

(** The bytes are copied to [msg_to_receive]; [None] is the result 0. *)
Definition dequeue_filtered_message (t virtual_channel_id msg_size : Z) : M St (option (list Z)) :=
  packet ← in_node t (in_buffer (MessageBuffer.dequeue_filtered_message virtual_channel_id)) ;
  in_node t (modify (λ n, n <| m_core_model ::=
    CoreModel.queueDynamicInstruction performance_modeling (Instruction.CheckBufferInstruction (u64 CHECKBUFFER_COST)) |>)) ;;
  match NetPacket.data packet with
  | NetPacket.NULL => mret None
  | NetPacket.Bytes bytes => l ← lift (mem_read bytes 0 msg_size) ; mret (Some l)
  | NetPacket.Message _ => fail (EAssert "packet.data is no message of the user")
  end.

(** [coreSendW] on tile [t]; the result is 0, or -1 for a broadcast that is
    refused. *)
Definition coreSendW (t sender receiver : Z) (buffer : list Z) (size : Z) (net_type : carbon_network_t) : M St Z :=
  let pkt_type := getPktTypeFromUserNetType net_type in
  admitted ← (if receiver =? CAPI_ENDPOINT_ALL then in_flow (Flow.before_broadcast LAMBDA_QUEUE_LENGTH sender) else mret true) ;
  if negb admitted then mret (-1) else
  sent ← in_world (
    if receiver =? CAPI_ENDPOINT_ALL then World.netBroadcast cfg pow t pkt_type (NetPacket.Bytes buffer) (u32 size)
    else World.netSend_to cfg pow t (getMainCoreId receiver) pkt_type (NetPacket.Bytes buffer) (u32 size)) ;
  assert (s32 sent =? size) "Bytes Sent" ;;
  mret 0.

(** The second half of [coreRecvW], where it waits: [None] while there is no
    packet. *)
Definition take_packet (t sender : Z) (size : Z) (net_type : carbon_network_t) : M St (option (list Z)) :=
  let pkt_type := getPktTypeFromUserNetType net_type in
  packet ← (if sender =? CAPI_ENDPOINT_ANY then
      f ← in_node t (gets m_filtered_ingestor) ;
      p ← in_world (World.on t (Ingest.receive_filtered behind_end f pkt_type)) ; mret (Some p)
    else in_world (World.on t (Network.netRecv_from (getMainCoreId sender) (getMainCoreId t) pkt_type))) ;
  match packet with
  | None => mret None
  | Some p =>
    assert (u32 size =? NetPacket.length p) "User thread requested packet of size" ;;
    match NetPacket.data p with
    | NetPacket.Bytes bytes => l ← lift (mem_read bytes 0 size) ; mret (Some l)
    | _ => fail (EAssert "packet.data is no buffer of the user")
    end
  end.
Definition coreRecvW (t sender receiver size : Z) (net_type : carbon_network_t) : M St (option (list Z)) :=
  in_flow (Flow.before_receive LAMBDA_QUEUE_LENGTH receiver sender) ;;
  take_packet t sender size net_type.
End core.
End Core.

(** ** The functions the application calls *)

Module CAPI.
Import Core.
Definition CAPI_StatusOk : Z := 0.
Definition CAPI_SenderNotInitialized : Z := 1.
Definition CAPI_ReceiverNotInitialized : Z := 2.

Section capi.
Context {Msg : Type} `{MemoryManager Msg} `{MessageConfig} (cfg : SysConfig.Config) (pow : double → double → double).
Context (behind_end : NetPacket Msg).
Abbreviation St := (Machine Msg).

(** [Config]: the table of communication identifiers. *)
Definition updateCommToTileMap (comm_id tile_id : Z) (s : St) : St :=
  s <| m_comm_to_tile_map ::= <[u32 comm_id := tile_id]> |>.
Definition getTileFromCommId (comm_id : Z) (s : St) : Z :=
  match m_comm_to_tile_map s !! u32 comm_id with Some t => t | None => INVALID_TILE_ID end.

(** [t] is the tile of the thread that calls. *)
Definition message_send_w_ex (t sender receiver : Z) (buffer : list Z) (size : Z) (net_type : carbon_network_t) : M St Z :=
  s ← gets id ;
  let sending_tile := getTileFromCommId sender s in
  let receiving_tile := if receiver =? CAPI_ENDPOINT_ALL then CAPI_ENDPOINT_ALL else getTileFromCommId receiver s in
  if sending_tile =? INVALID_TILE_ID then mret CAPI_SenderNotInitialized
  else if receiving_tile =? INVALID_TILE_ID then mret CAPI_ReceiverNotInitialized
  else coreSendW cfg pow t sending_tile receiving_tile buffer size net_type.
Definition message_send_w (t sender receiver : Z) (buffer : list Z) (size : Z) : M St Z :=
  message_send_w_ex t sender receiver buffer size CARBON_NET_USER_1.

(** The result and the bytes received; no result while the caller waits. *)
Definition message_receive_w_ex (t sender receiver size : Z) (net_type : carbon_network_t) :
    M St (option (Z * list Z)) :=
  s ← gets id ;
  let sending_tile := if sender =? CAPI_ENDPOINT_ANY then CAPI_ENDPOINT_ANY else getTileFromCommId sender s in
  let receiving_tile := getTileFromCommId receiver s in
  if sending_tile =? INVALID_TILE_ID then mret (Some (CAPI_SenderNotInitialized, []))
  else if receiving_tile =? INVALID_TILE_ID then mret (Some (CAPI_ReceiverNotInitialized, []))
  else
    r ← coreRecvW behind_end t sending_tile receiving_tile size net_type ;
    mret ((λ bytes, (CAPI_StatusOk, bytes)) <$> r).
Definition message_receive_w (t sender receiver size : Z) : M St (option (Z * list Z)) :=
  message_receive_w_ex t sender receiver size CARBON_NET_USER_1.

(** The functions below replace their argument by the tile of the caller and
    look that up as a communication identifier. *)
Definition current_tile (t : Z) : M St Z := gets (getTileFromCommId t).
Definition set_filter (t filter_mask filter_match_operation filter_match_signature : Z) : M St Z :=
  tile ← current_tile t ;
  in_node tile (modify (λ n, n <| m_filtered_ingestor ::=
    FilteredIngestor.set_filter filter_mask filter_match_operation filter_match_signature |>)) ;;
  mret 1.
Definition subscribe_to_virtual_channel (t vc_id : Z) : M St unit :=
  tile ← current_tile t ;
  in_node tile (n ← gets id ;
    f ← lift (FilteredIngestor.subscribe_to_virtual_channel vc_id (m_filtered_ingestor n)) ;
    modify (λ n, n <| m_filtered_ingestor := f |>)).
Definition unsubscribe_from_virtual_channel (t vc_id : Z) : M St unit :=
  tile ← current_tile t ;
  in_node tile (n ← gets id ;
    f ← lift (FilteredIngestor.unsubscribe_from_virtual_channel vc_id (m_filtered_ingestor n)) ;
    modify (λ n, n <| m_filtered_ingestor := f |>)).
Definition CAPI_filter_incoming_messages (t : Z) : M St Z :=
  tile ← current_tile t ;
  _ ← filter_incoming_messages pow behind_end tile CARBON_NET_USER_1 ;
  mret 1.
Definition CAPI_dequeue_filtered_message (t id msg_size : Z) : M St (option (list Z)) :=
  tile ← current_tile t ;
  dequeue_filtered_message tile id msg_size.
End capi.
End CAPI.

(** ** Virtual channels *)

Module VirtualChannel.
Import Core.
Record VirtualChannel := mkVirtualChannel {
  id : Z;
  owner_tile_id : Z;
  active : bool;
  member_ranks : gset Z
}.
#[global] Instance eta_VirtualChannel : Eta VirtualChannel := λ v, mkVirtualChannel
  (id v) (owner_tile_id v) (active v) (member_ranks v).
Definition UNINITIALIZED_VC_ID : Z := -1.

(** The constructors; the one without an owner leaves the member unset, with
    the value [unset]. *)
Definition make (unset : Z) : VirtualChannel := mkVirtualChannel UNINITIALIZED_VC_ID unset false ∅.
Definition make_owned (tile_id : Z) : VirtualChannel := mkVirtualChannel UNINITIALIZED_VC_ID tile_id false ∅.

Definition create (unset : Z) (name : string) : M Chip.Chip VirtualChannel :=
  vc_id ← Chip.register_virtual_channel name ;
  mret ((make unset) <| id := vc_id |> <| active := negb (vc_id =? -1) |>).
Definition createFromRegistered (unset : Z) (name : string) (c : Chip.Chip) : option VirtualChannel :=
  let vc_id := Chip.find_vc_id name c in
  if vc_id =? -1 then None else Some ((make unset) <| id := vc_id |>).
Definition set_active_status (b : bool) (v : VirtualChannel) : VirtualChannel := v <| active := b |>.
Definition add_member (rank : Z) (v : VirtualChannel) : VirtualChannel := v <| member_ranks ::= λ s, {[rank]} ∪ s |>.
Definition remove_member (rank : Z) (v : VirtualChannel) : VirtualChannel := v <| member_ranks ::= λ s, s ∖ {[rank]} |>.

Section channel.
Context {Msg : Type} `{MemoryManager Msg} `{MessageConfig} (cfg : SysConfig.Config) (pow : double → double → double).
Context (behind_end : NetPacket Msg).

(** On tile [t]: the next message of the channel, if there is one. *)
Definition receive_message (t : Z) (v : VirtualChannel) : M (Machine Msg) (option Message.Message) :=
  _ ← CAPI.CAPI_filter_incoming_messages pow behind_end t ;
  found ← CAPI.CAPI_dequeue_filtered_message t (id v) Message.sizeof ;
  match found with
  | None => mret None
  | Some bytes => m ← lift (Message.of_bytes bytes) ; mret (Some m)
  end.

Definition send_message (t : Z) (payload_byte message_signature_byte tag_buffer : Z) (v : VirtualChannel) : M (Machine Msg) bool :=
  let msg := Message.mkMessage tag_buffer 4 payload_byte message_signature_byte (id v) (owner_tile_id v) in
  ret ← CAPI.message_send_w_ex cfg pow t (owner_tile_id v) CAPI_ENDPOINT_ALL (Message.to_bytes msg) Message.sizeof
          CARBON_NET_USER_1 ;
  mret (ret =? 0).
End channel.
End VirtualChannel.
