(* ===== verification/MessageProofs.v ===== *)
(** * MessageProofs: one round of the filter

    Messages in bytes; what one call of [receive_filtered_from] takes off the
    queue of the network; operations of one tile. *)
From S2P Require Import Prelude Utils Double CacheSet Cache Shmem ThreadManager Packetize QueueModels HistoryTree NetPacket NetworkModel MeshModels AtacModel Network Instruction Messages.
From S2P Require Import NetworkProofs DeliveryProofs MeshProofs AtacProofs AtacScheme NetworkInit NetworkTheorems.
Import PacketType.

(** ** Messages in bytes *)

Definition int32 (x : Z) : Prop := -2147483648 ≤ x < 2147483648.
Definition message_ok (m : Message.Message) : Prop :=
  int32 (Message.tag m) ∧ int32 (Message.size m) ∧ int32 (Message.payload m) ∧ int32 (Message.signature m) ∧
  int32 (Message.vc_id m) ∧ int32 (Message.wavelength_id m).

Lemma word_here x l : int32 x → Message.word (UnstructuredBuffer.bytes_of 4 x ++ l) 0 = x.
Proof.
  intros Hx. pose proof (UnstructuredBuffer.read_s32_put x l Hx) as Hr. unfold UnstructuredBuffer.read_s32, UnstructuredBuffer.read in Hr.
  rewrite UnstructuredBuffer.get_put in Hr. injection Hr as Hr. unfold Message.word.
  change (drop (4 * 0) ?l) with l. rewrite take_app_length' by by rewrite UnstructuredBuffer.length_bytes_of.
  by rewrite UnstructuredBuffer.of_bytes_of.
Qed.
Lemma word_next x l i : Message.word (UnstructuredBuffer.bytes_of 4 x ++ l) (S i) = Message.word l i.
Proof.
  unfold Message.word. do 3 f_equal. replace (4 * S i)%nat with (length (UnstructuredBuffer.bytes_of 4 x) + 4 * i)%nat.
  - by rewrite drop_app_add.
  - rewrite UnstructuredBuffer.length_bytes_of. lia.
Qed.
Lemma length_to_bytes m : length (Message.to_bytes m) = 24%nat.
Proof. unfold Message.to_bytes. by rewrite !length_app, !UnstructuredBuffer.length_bytes_of. Qed.
Lemma message_of_bytes m : message_ok m → Message.of_bytes (Message.to_bytes m) = Ok m.
Proof.
  intros (H1 & H2 & H3 & H4 & H5 & H6). unfold Message.of_bytes.
  rewrite mem_read_ok by (unfold Message.sizeof, zlength; rewrite ?length_to_bytes; lia). cbn [mbind res_bind].
  rewrite take_ge by (rewrite length_drop, length_to_bytes; unfold Message.sizeof; lia). rewrite drop_0. unfold Message.to_bytes.
  rewrite <- (app_nil_r (UnstructuredBuffer.bytes_of 4 (Message.wavelength_id m))).
  rewrite ?word_next, !word_here by done. by destruct m.
Qed.

(** ** Receiving through the filter *)

Section receive.
Context {Msg : Type} (behind_end : NetPacket Msg).
Implicit Types (n : Network.Network Msg) (p : NetPacket Msg).
Import FilteredIngestor.

Definition passes (f : FilteredIngestor) p : Prop := passes_filter f p = Ok true.
Definition fails (f : FilteredIngestor) p : Prop := passes_filter f p = Ok false.
(** The filter can decide on the packet. *)
Definition readable (f : FilteredIngestor) p : Prop := ∃ b, passes_filter f p = Ok b.

(** The same network but for its queue and the latencies. *)
Definition same_network n n' : Prop :=
  Network._tid n' = Network._tid n ∧ Network._numMod n' = Network._numMod n ∧
  Network._models n' = Network._models n ∧ Network._cycle_count n' = Network._cycle_count n.
Lemma wanted_same n n' m p : same_network n n' → wanted n' m p = wanted n m p.
Proof. unfold wanted. by intros (-> & -> & _). Qed.

(** What a call of the filter with the packets [m] takes. *)
Definition received (f : FilteredIngestor) (m : NetMatch.NetMatch) n (pkt : NetPacket Msg) n' : Prop :=
  same_network n n' ∧ ∃ dropped,
    Forall (λ p, wanted n m p = true ∧ fails f p) dropped ∧
    if NetPacket.found pkt then ∃ p,
      pkt = p <| NetPacket.found := true |> ∧ wanted n m p = true ∧ passes f p ∧
      Network._netQueue n ≡ₚ dropped ++ p :: Network._netQueue n' ∧
      Forall (λ p', NetPacket.time p' ≤ NetPacket.time p) dropped ∧
      Forall (λ p', wanted n m p' = true → NetPacket.time p ≤ NetPacket.time p') (Network._netQueue n')
    else Network._netQueue n ≡ₚ dropped ++ Network._netQueue n' ∧
      Forall (λ p', wanted n m p' = false) (Network._netQueue n').

Lemma passes_found f p b : passes_filter f (p <| NetPacket.found := b |>) = passes_filter f p.
Proof. by destruct p. Qed.

(** One call of the network. *)
Lemma netRecvNonBlock_spec n m :
  (∃ n', Ingest.netRecvNonBlock behind_end m n = Ok (behind_end
       <| NetPacket.data := NetPacket.Bytes (Message.to_bytes (Message.no_message 0 0)) |> <| NetPacket.found := false |>, n') ∧
     same_network n n' ∧ Network._netQueue n' = Network._netQueue n ∧ Forall (λ p, wanted n m p = false) (Network._netQueue n)) ∨
  (∃ p n', Ingest.netRecvNonBlock behind_end m n = Ok (p <| NetPacket.found := true |>, n') ∧ same_network n n' ∧
     wanted n m p = true ∧ Network._netQueue n ≡ₚ p :: Network._netQueue n' ∧
     Forall (λ p', wanted n m p' = true → NetPacket.time p ≤ NetPacket.time p') (Network._netQueue n)).
Proof.
  unfold Ingest.netRecvNonBlock, gets, mbind, M_bind, id.
  pose proof (earliest_spec (wanted n m) [] (Network._netQueue n) None (Forall_nil_2 _)) as Hf. cbn in Hf.
  unfold wanted in *. destruct (Network.earliest _ _ _ _) as [[i p]|] eqn:E.
  - destruct Hf as (H1 & H2 & H3). right.
    unfold Network.netRecvNonBlock, gets, mbind, M_bind, id. rewrite E. unfold modify, mret, M_ret. rewrite queue_recv_spec. eexists p, _. split; [done|].
    split; [done|]. split; [done|]. split; [by apply delete_Permutation|]. apply Forall_lookup. intros j p' Hj Hw. by apply (H3 j).
  - left. rewrite queue_recv_spec. eexists. split; [done|]. by split_and!.
Qed.

Lemma receive_loop_spec f m fuel : ∀ n,
  (length (Network._netQueue n) < fuel)%nat →
  Forall (λ p, wanted n m p = true → readable f p) (Network._netQueue n) →
  succeeds (Ingest.receive_loop behind_end fuel f m) n (received f m n).
Proof.
  induction fuel as [|fuel IH]; intros n Hl Hr; [lia|]. cbn [Ingest.receive_loop]. run1.
  destruct (netRecvNonBlock_spec n m) as [(n' & E & Hs & Hq & Hnone)|(p & n' & E & Hs & Hw & Hq & Hmin)].
  - eapply runs_Ok; [exact E|]. split; [done|]. exists []. split; [constructor|]. cbn. by rewrite Hq.
  - eapply runs_Ok; [exact E|]. cbn [NetPacket.found negb]. change (negb (NetPacket.found (p <| NetPacket.found := true |>))) with false.
    cbv iota. rewrite Hq in Hr, Hl, Hmin. apply Forall_cons in Hr as [Hrp Hr]. destruct (Hrp Hw) as [b Hb]. apply Forall_cons in Hmin as [_ Hmin].
    run1. eapply runs_lift; [by rewrite passes_found|]. destruct b.
    + run1. split; [done|]. exists []. split; [constructor|]. cbn. exists p. split_and!; try done.
    + cbn in Hl. eapply runs_mono; [apply IH; [lia|]|].
      { eapply Forall_impl; [exact Hr|]. cbv beta. intros p' Hp' Hw'. apply Hp'. by rewrite <- (wanted_same n n' m p' Hs). }
      intros pkt n2 (Hs2 & dropped & Hd & Hpkt). split.
      { destruct Hs as (?&?&?&?), Hs2 as (?&?&?&?). unfold same_network. split_and!; congruence. }
      exists (p :: dropped). assert (Hd' : Forall (λ p, wanted n m p = true ∧ fails f p) dropped).
      { eapply Forall_impl; [exact Hd|]. cbv beta. intros p' [? ?]. by rewrite <- (wanted_same n n' m p' Hs). }
      split; [by constructor|]. destruct (NetPacket.found pkt).
      * destruct Hpkt as (p2 & -> & Hw2 & Hp2 & Hq2 & Ht2 & Hmin2). exists p2. rewrite (wanted_same n n' m p2 Hs) in Hw2.
        split_and!; [done|done|done|by rewrite Hq, Hq2| |].
        -- constructor; [|done]. rewrite Hq2 in Hmin. apply Forall_app in Hmin as [_ [Hmin _]%Forall_cons]. by apply Hmin.
        -- eapply Forall_impl; [exact Hmin2|]. cbv beta. intros p' Hp' Hw'. apply Hp'. by rewrite (wanted_same n n' m p' Hs).
      * destruct Hpkt as [Hq2 Hnone]. split; [by rewrite Hq, Hq2|]. eapply Forall_impl; [exact Hnone|]. cbv beta.
        intros p' Hp'. by rewrite <- (wanted_same n n' m p' Hs).
Qed.
End receive.

(** ** One tile of the machine *)

Section tile.
Context {Msg : Type}.
Import Core.
Implicit Types (s : Machine Msg) (n : Network.Network Msg) (nd : Node Msg).

Record at_tile (t : Z) n nd s : Prop := mkAtTile {
  at_network : zlookup (World._networks (world s)) t = Some n;
  at_node : zlookup (nodes s) t = Some nd
}.
Definition put (t : Z) n nd s : Machine Msg :=
  s <| world ::= λ w, w <| World._networks ::= zinsert t n |> |> <| nodes ::= zinsert t nd |>.

Lemma zinsert_id {A} (l : list A) i x : zlookup l i = Some x → zinsert i x l = l.
Proof. unfold zlookup, zinsert. case_match; [|done]. apply list_insert_id. Qed.

Lemma put_same t n nd s : at_tile t n nd s → put t n nd s = s.
Proof. intros [H1 H2]. unfold put. cbn. rewrite !zinsert_id by done. by destruct s as [[] ]. Qed.
Lemma put_put t n nd n' nd' s : put t n' nd' (put t n nd s) = put t n' nd' s.
Proof. unfold put. cbn. by rewrite !zinsert_zinsert. Qed.
Lemma at_put t n nd n' nd' s : at_tile t n nd s → at_tile t n' nd' (put t n' nd' s).
Proof. intros [[H1 _]%zlookup_Some [H2 _]%zlookup_Some]. split; cbn; by apply zlookup_zinsert_eq. Qed.

Context (E : error → Prop).
Lemma runs_in_node {A} t n nd s (op : M (Node Msg) A) Q : at_tile t n nd s →
  runs E op nd (λ a nd', Q a (put t n nd' s)) → runs E (in_node t op) s Q.
Proof.
  intros [H1 H2] Hop. unfold in_node. do 2 run1. run1. eapply runs_lift; [by apply vget_Ok|].
  run1. unfold runs, lift. unfold runs in Hop. destruct (op nd) as [[a nd']|e]; [|done].
  assert (Hs : s <| nodes ::= zinsert t nd' |> = put t n nd' s).
  { destruct s as [[] ]. unfold put. cbn in *. by rewrite (zinsert_id _ _ n). }
  unfold modify, mret, M_ret, mbind, M_bind. cbn [snd fst]. by rewrite Hs.
Qed.
Lemma runs_in_network {A} t n nd s (op : M (Network.Network Msg) A) Q : at_tile t n nd s →
  runs E op n (λ a n', Q a (put t n' nd s)) → runs E (in_world (World.on t op)) s Q.
Proof.
  intros [H1 H2] Hop. apply runs_zoom. unfold World.on. do 2 run1. run1. eapply runs_lift; [by apply vget_Ok|].
  run1. unfold runs, lift. unfold runs in Hop. destruct (op n) as [[a n']|e]; [|done].
  assert (Hs : s <| world := (world s) <| World._networks ::= zinsert t n' |> |> = put t n' nd s).
  { destruct s as [[] ]. unfold put. cbn in *. by rewrite (zinsert_id _ _ nd). }
  unfold modify, mret, M_ret, mbind, M_bind. cbn [snd fst]. by rewrite Hs.
Qed.
End tile.

(** ** One round *)

Section round.
Context {Msg : Type} `{MemoryManager Msg} (pow : double → double → double) (behind_end : NetPacket Msg).
Import Core FilteredIngestor.
Implicit Types (s : Machine Msg) (n : Network.Network Msg) (nd : Node Msg) (p d : NetPacket Msg) (f : FilteredIngestor).

(** The packets of one sender; the message in a packet. *)
Definition from (type : PacketType) (i : Z) : NetMatch.NetMatch := NetMatch.mkNetMatch [getMainCoreId i] [type] INVALID_CORE_ID.
Definition carries p (m : Message.Message) : Prop := Message.of_payload (NetPacket.data p) = Ok m.
Definition sound p : Prop := ∃ m, carries p m ∧ 0 ≤ Message.vc_id m < Chip.MAX_VIRTUAL_CHANNELS.
Definition operation_ok f : Prop := 0 ≤ filter_match_operation f ≤ XOR.

Lemma sound_readable f p : operation_ok f → sound p → readable f p.
Proof.
  intros Hf (m & Hm & _). unfold readable, passes_filter. unfold operation_ok, XOR in Hf. unfold ALL, NONE, AND, OR, XOR.
  destruct (Z.eqb_spec (filter_match_operation f) 0); [by eexists|].
  destruct (Z.eqb_spec (filter_match_operation f) 1); [by eexists|]. rewrite Hm. cbn.
  destruct (Z.eqb_spec (filter_match_operation f) 2); [by eexists|].
  destruct (Z.eqb_spec (filter_match_operation f) 3); [by eexists|].
  destruct (Z.eqb_spec (filter_match_operation f) 4); [by eexists|]. lia.
Qed.

(** The only error of a round: a queue model that fails. *)
Definition queue_error (e : error) : Prop := ∃ t q, Queue.computeQueueDelay pow t 10 q = Fail e.

(** A packet that was found and delayed. *)
Definition delayed (pd : NetPacket Msg * NetPacket Msg) : Prop := ∃ delay,
  pd.2 = pd.1 <| NetPacket.found := true |> <| NetPacket.time ::= λ t, u64 (t + delay) |>.
Definition on_channel (vc : Z) p : bool :=
  match Message.of_payload (NetPacket.data p) with Ok m => Message.vc_id m =? vc | Fail _ => false end.
(** The buffer after the packets [ds] have come in. *)
Definition buffered (b b' : MessageBuffer.MessageBuffer Msg) (ds : list (NetPacket Msg)) : Prop :=
  zlength b' = zlength b ∧
  ∀ vc q, zlookup b vc = Some q → zlookup b' vc = Some (q ++ filter (λ d, on_channel vc d) ds).

Lemma buffered_nil b : buffered b b [].
Proof. split; [done|]. intros vc q Hq. by rewrite filter_nil, app_nil_r. Qed.
Lemma buffered_app b b1 b2 ds1 ds2 : buffered b b1 ds1 → buffered b1 b2 ds2 → buffered b b2 (ds1 ++ ds2).
Proof.
  intros [H1 H2] [H3 H4]. split; [by rewrite H3|]. intros vc q Hq. by rewrite (H4 _ _ (H2 _ _ Hq)), filter_app, app_assoc.
Qed.

Lemma enqueue_spec (E : error → Prop) b d : zlength b = Chip.MAX_VIRTUAL_CHANNELS → sound d →
  runs E (MessageBuffer.enqueue_message d) b (λ _ b', buffered b b' [d]).
Proof.
  intros Hlen (m & Hm & Hvc). destruct (vget_ok "message_queues" b (Message.vc_id m)) as [queue Hqueue]; [lia|].
  unfold MessageBuffer.enqueue_message. run1. eapply runs_lift; [exact Hm|].
  run1. run1; [apply Z.leb_le; lia|]. run1. run1; [apply Z.ltb_lt; lia|]. do 2 run1. run1. eapply runs_lift; [exact Hqueue|].
  do 2 run1. run1. split; [by rewrite zlength_zinsert|]. intros vc q Hq. rewrite filter_cons, filter_nil. unfold on_channel. rewrite Hm.
  apply vget_Ok in Hqueue. destruct (Z.eqb_spec (Message.vc_id m) vc) as [<-|Hne].
  - rewrite decide_True by done. rewrite zlookup_zinsert_eq by lia. congruence.
  - rewrite decide_False by (by intros []). rewrite app_nil_r. by rewrite zlookup_zinsert_ne.
Qed.

Lemma buffer_packet_spec nd p :
  zlength (message_buffer nd) = Chip.MAX_VIRTUAL_CHANNELS → sound p →
  runs queue_error (buffer_packet pow (p <| NetPacket.found := true |>)) nd (λ _ nd', ∃ d, delayed (p, d) ∧
    m_filtered_ingestor nd' = m_filtered_ingestor nd ∧ buffered (message_buffer nd) (message_buffer nd') [d]).
Proof.
  intros Hlen Hs. unfold buffer_packet. do 2 run1. unfold id. run1.
  destruct (Queue.computeQueueDelay pow (NetPacket.time (p <| NetPacket.found := true |>)) 10 (m_queue_model nd)) as [[delay q']|e] eqn:Hq.
  2: { by eexists _, _. }
  apply (runs_lift _ _ (delay, q')); [done|]. do 2 run1. run1. apply runs_zoom. eapply runs_mono; [by apply enqueue_spec|].
  cbv beta. intros _ b' Hb'. run1. exists (p <| NetPacket.found := true |> <| NetPacket.time ::= λ t, u64 (t + delay) |>).
  split; [by exists delay|]. by split.
Qed.

(** The rounds of [filter_incoming_messages] for the senders [l]. *)
Definition rounds t type (l : list Z) : Z → M (Machine Msg) Z :=
  foldr (λ i (next : Z → M (Machine Msg) Z) total_incoming,
      packet ← ingest behind_end t (getMainCoreId i) type ;
      if NetPacket.found packet then in_node t (buffer_packet pow packet) ;; next (total_incoming + 1)
      else next total_incoming) mret l.

(** The packets of a network that a sender of [l] has sent carry messages. *)
Definition sound_from type (l : list Z) n : Prop :=
  Forall (λ p, ∀ i, i ∈ l → wanted n (from type i) p = true → sound p) (Network._netQueue n).

(** What the rounds leave of a sender: nothing, or later packets than the one
    that was taken. *)
Definition served type n n' (taken : list (NetPacket Msg * NetPacket Msg)) (i : Z) : Prop :=
  Forall (λ p', wanted n (from type i) p' = false) (Network._netQueue n') ∨
  ∃ pd, pd ∈ taken ∧ wanted n (from type i) pd.1 = true ∧
    Forall (λ p', wanted n (from type i) p' = true → NetPacket.time pd.1 ≤ NetPacket.time p') (Network._netQueue n').

(** The result of the rounds. *)
Record round_result t type l n nd s (total total' : Z) (s' : Machine Msg) (n' : Network.Network Msg) (nd' : Node Msg)
    (taken : list (NetPacket Msg * NetPacket Msg)) (dropped : list (NetPacket Msg)) : Prop := mkRound {
  r_state : s' = put t n' nd' s;
  r_network : same_network n n';
  r_filter : m_filtered_ingestor nd' = m_filtered_ingestor nd;
  r_packets : Network._netQueue n ≡ₚ dropped ++ taken.*1 ++ Network._netQueue n';
  r_total : total' = total + zlength taken;
  r_dropped : Forall (λ p, fails (m_filtered_ingestor nd) p ∧ ∃ i, i ∈ l ∧ wanted n (from type i) p = true) dropped;
  r_taken : Forall (λ pd, passes (m_filtered_ingestor nd) pd.1 ∧ delayed pd) taken;
  r_senders : ∃ senders, sublist senders l ∧ Forall2 (λ i pd, wanted n (from type i) pd.1 = true) senders taken;
  r_served : ∀ i, i ∈ l → served type n n' taken i;
  r_buffer : buffered (message_buffer nd) (message_buffer nd') taken.*2
}.

Lemma same_network_trans n n1 n2 : same_network n n1 → same_network n1 n2 → same_network n n2.
Proof. intros (?&?&?&?) (?&?&?&?). unfold same_network. split_and!; congruence. Qed.

Lemma served_later type n n1 n' taken pd i : same_network n n1 → served type n1 n' taken i → served type n n' (pd :: taken) i.
Proof.
  intros Hs [Hn|(pd' & Hin & Hw & Hl)].
  - left. eapply Forall_impl; [exact Hn|]. cbv beta. intros p' Hp'. by rewrite <- (wanted_same n n1 _ _ Hs).
  - right. exists pd'. split; [by right|]. rewrite (wanted_same n n1 _ _ Hs) in Hw. split; [done|].
    eapply Forall_impl; [exact Hl|]. cbv beta. intros p' Hp'. by rewrite (wanted_same n n1 _ _ Hs) in Hp'.
Qed.
Lemma served_same type n n1 n' taken i : same_network n n1 → served type n1 n' taken i → served type n n' taken i.
Proof.
  intros Hs [Hn|(pd' & Hin & Hw & Hl)].
  - left. eapply Forall_impl; [exact Hn|]. cbv beta. intros p' Hp'. by rewrite <- (wanted_same n n1 _ _ Hs).
  - right. exists pd'. split; [done|]. rewrite (wanted_same n n1 _ _ Hs) in Hw. split; [done|].
    eapply Forall_impl; [exact Hl|]. cbv beta. intros p' Hp'. by rewrite (wanted_same n n1 _ _ Hs) in Hp'.
Qed.

(** The queue that is left is part of the queue there was. *)
Lemma left_over (P : NetPacket Msg → Prop) q dr q' : q ≡ₚ dr ++ q' → Forall P q → Forall P q'.
Proof. intros Hq. rewrite Hq. by intros [_ ?]%Forall_app. Qed.

(** A round without a packet, and one with a packet, before the rounds of the
    other senders. *)
Lemma round_without t type i l n nd s n1 total total' s' n' nd' taken dropped pkt :
  received (m_filtered_ingestor nd) (from type i) n pkt n1 → NetPacket.found pkt = false →
  round_result t type l n1 nd (put t n1 nd s) total total' s' n' nd' taken dropped →
  ∃ dropped', round_result t type (i :: l) n nd s total total' s' n' nd' taken dropped'.
Proof.
  intros (Hs & dr & Hdr & Hpkt) Hf []. rewrite Hf in Hpkt. destruct Hpkt as [Hq Hnone].
  exists (dr ++ dropped). split.
  - by rewrite r_state0, put_put.
  - by eapply same_network_trans.
  - done.
  - rewrite Hq, r_packets0. by rewrite app_assoc.
  - done.
  - apply Forall_app. split.
    + eapply Forall_impl; [exact Hdr|]. cbv beta. intros p [Hw Hp]. split; [done|]. exists i. split; [by left|done].
    + eapply Forall_impl; [exact r_dropped0|]. cbv beta. intros p [Hp (j & Hj & Hw)]. split; [done|]. exists j.
      split; [by right|]. by rewrite <- (wanted_same n n1 _ _ Hs).
  - done.
  - destruct r_senders0 as (senders & Hl & H2). exists senders. split; [by apply sublist_cons|].
    eapply Forall2_impl; [exact H2|]. cbv beta. intros j pd Hw. by rewrite <- (wanted_same n n1 _ _ Hs).
  - intros j [->|Hj]%elem_of_cons.
    + left. apply (left_over _ (Network._netQueue n1) (dropped ++ taken.*1)); [by rewrite <- app_assoc|].
      eapply Forall_impl; [exact Hnone|]. cbv beta. intros p Hp. done.
    + eapply served_same; [exact Hs|]. by apply r_served0.
  - done.
Qed.

Lemma round_with t type i l n nd s n1 nd1 d total total' s' n' nd' taken dropped pkt :
  received (m_filtered_ingestor nd) (from type i) n pkt n1 → NetPacket.found pkt = true →
  (∃ p, pkt = p <| NetPacket.found := true |> ∧ delayed (p, d)) →
  m_filtered_ingestor nd1 = m_filtered_ingestor nd → buffered (message_buffer nd) (message_buffer nd1) [d] →
  round_result t type l n1 nd1 (put t n1 nd1 s) (total + 1) total' s' n' nd' taken dropped →
  ∃ taken' dropped', round_result t type (i :: l) n nd s total total' s' n' nd' taken' dropped'.
Proof.
  intros (Hs & dr & Hdr & Hpkt) Hf (p0 & Hp0 & Hd) Hfil Hbuf []. rewrite Hf in Hpkt. destruct Hpkt as (p & Hp & Hw & Hpass & Hq & Ht & Hmin).
  assert (Hdp : delayed (p, d)).
  { destruct Hd as [delay Hd]. exists delay. cbn [fst snd] in *. rewrite Hd. by rewrite <- Hp0, Hp. }
  exists ((p, d) :: taken), (dr ++ dropped). rewrite Hfil in *. split.
  - by rewrite r_state0, put_put.
  - by eapply same_network_trans.
  - done.
  - rewrite Hq, r_packets0. cbn. rewrite <- app_assoc. apply Permutation_app_head. apply Permutation_middle.
  - rewrite r_total0. unfold zlength. cbn. lia.
  - apply Forall_app. split.
    + eapply Forall_impl; [exact Hdr|]. cbv beta. intros p' [Hw' Hp']. split; [done|]. exists i. split; [by left|done].
    + eapply Forall_impl; [exact r_dropped0|]. cbv beta. intros p' [Hp' (j & Hj & Hw')]. split; [done|]. exists j.
      split; [by right|]. by rewrite <- (wanted_same n n1 _ _ Hs).
  - by constructor.
  - destruct r_senders0 as (senders & Hl & H2). exists (i :: senders). split; [by apply sublist_skip|]. constructor; [done|].
    eapply Forall2_impl; [exact H2|]. cbv beta. intros j pd Hw'. by rewrite <- (wanted_same n n1 _ _ Hs).
  - intros j [->|Hj]%elem_of_cons.
    + right. exists (p, d). split; [by left|]. split; [done|].
      by apply (left_over _ (Network._netQueue n1) (dropped ++ taken.*1)); [rewrite <- app_assoc|].
    + eapply served_later; [exact Hs|]. by apply r_served0.
  - cbn. by apply (buffered_app _ (message_buffer nd1) _ [d]).
Qed.

Lemma ingest_spec t type i n nd s Q : at_tile t n nd s → operation_ok (m_filtered_ingestor nd) →
  Forall (λ p, wanted n (from type i) p = true → sound p) (Network._netQueue n) →
  (∀ pkt n1, received (m_filtered_ingestor nd) (from type i) n pkt n1 → Q pkt (put t n1 nd s)) →
  runs queue_error (ingest behind_end t (getMainCoreId i) type) s Q.
Proof.
  intros Hat Hop Hq HQ. unfold ingest. apply runs_bind. eapply runs_in_node; [exact Hat|]. run1.
  rewrite put_same by done. eapply runs_in_network; [exact Hat|]. unfold Ingest.receive_filtered_from, Ingest.receive.
  eapply (runs_weaken (λ _, False)); [|done|intros pkt n1 H1; exact H1].
  pose proof (receive_loop_spec behind_end (m_filtered_ingestor nd) (from type i) (S (length (Network._netQueue n))) n) as Hr.
  unfold runs in *. fold (from type i).
  destruct (Ingest.receive_loop _ _ _ _ n) as [[pkt n1]|e].
  - apply HQ, Hr; [lia|]. eapply Forall_impl; [exact Hq|]. cbv beta. intros p Hp Hw. apply sound_readable; auto.
  - apply Hr; [lia|]. eapply Forall_impl; [exact Hq|]. cbv beta. intros p Hp Hw. apply sound_readable; auto.
Qed.

Lemma received_queue f type i n pkt n1 : received f (from type i) n pkt n1 → ∃ dr, Network._netQueue n ≡ₚ dr ++ Network._netQueue n1.
Proof.
  intros (_ & dr & _ & Hp). destruct (NetPacket.found pkt).
  - destruct Hp as (p & _ & _ & _ & Hq & _). exists (dr ++ [p]). by rewrite Hq, <- app_assoc.
  - destruct Hp as [Hq _]. by exists dr.
Qed.
Lemma sound_later type l n n1 dr : same_network n n1 → Network._netQueue n ≡ₚ dr ++ Network._netQueue n1 →
  sound_from type l n → sound_from type l n1.
Proof.
  intros Hs Hq Hso. unfold sound_from in *. apply (left_over _ _ dr _ Hq) in Hso. eapply Forall_impl; [exact Hso|]. cbv beta.
  intros p Hp j Hj Hw. apply (Hp j Hj). by rewrite <- (wanted_same n n1 _ _ Hs).
Qed.

Lemma rounds_spec t type : ∀ l s n nd total,
  at_tile t n nd s → operation_ok (m_filtered_ingestor nd) →
  zlength (message_buffer nd) = Chip.MAX_VIRTUAL_CHANNELS → sound_from type l n →
  runs queue_error (rounds t type l total) s (λ total' s', ∃ n' nd' taken dropped,
    round_result t type l n nd s total total' s' n' nd' taken dropped).
Proof.
  induction l as [|i l IH]; intros s n nd total Hat Hop Hlen Hso.
  { apply (runs_ret _ total). exists n, nd, [], []. split; try done.
    - by rewrite put_same.
    - unfold zlength. cbn. lia.
    - by exists [].
    - intros i Hi. by apply not_elem_of_nil in Hi.
    - apply buffered_nil. }
  cbn [rounds foldr]. run1. apply (ingest_spec t type i n nd); [done|done| |].
  { eapply Forall_impl; [exact Hso|]. cbv beta. intros p Hp. apply Hp. by left. }
  intros pkt n1 Hr. pose proof (received_queue _ _ _ _ _ _ Hr) as [dr Hdr]. pose proof Hr as (Hs & _).
  assert (Hso1 : sound_from type l n1).
  { apply (sound_later type l n n1 dr Hs Hdr). eapply Forall_impl; [exact Hso|]. cbv beta. intros p Hp j Hj. apply Hp. by right. }
  destruct (NetPacket.found pkt) eqn:Hf.
  - pose proof Hr as (_ & dr' & _ & Hp). rewrite Hf in Hp. destruct Hp as (p & -> & Hw & Hpass & Hq & _).
    assert (Hsp : sound p).
    { rewrite Hq in Hdr. unfold sound_from in Hso. rewrite Hq in Hso. apply Forall_app in Hso as [_ [Hsp _]%Forall_cons].
      apply (Hsp i); [by left|done]. }
    cbv iota. run1. eapply runs_in_node; [by eapply at_put|]. eapply runs_mono; [by apply buffer_packet_spec|]. cbv beta.
    intros _ nd1 (d & Hd & Hfil & Hbuf). rewrite put_put. fold (rounds t type l (total + 1)).
    eapply runs_mono; [apply (IH _ n1 nd1)|].
    + by eapply at_put.
    + by rewrite Hfil.
    + destruct Hbuf as [-> _]. done.
    + done.
    + cbv beta. intros total' s' (n' & nd' & taken & dropped & Hres). exists n', nd'.
      eapply round_with; [exact Hr|done|by exists p|done|done|exact Hres].
  - cbv iota. fold (rounds t type l total). eapply runs_mono; [apply (IH _ n1 nd); [by eapply at_put|done..]|]. cbv beta.
    intros total' s' (n' & nd' & taken & dropped & Hres). exists n', nd', taken. eapply round_without; [exact Hr|done|exact Hres].
Qed.
End round.
