(* ===== verification/MessageTheorems.v ===== *)
(** * MessageTheorems: filtered channels and the limits of a broadcast

    One call of the filter takes at most one packet of each sender, the earliest
    that passes, and loses nothing else; a channel is a queue of the messages that
    passed; the limit on the packets a receiver has not taken stops the receiver
    from sending; the sender it stops for its own copies only. *)
From S2P Require Import Prelude Utils Double CacheSet Cache Shmem ThreadManager Packetize QueueModels HistoryTree NetPacket NetworkModel MeshModels AtacModel Network Instruction Messages.
From S2P Require Import NetworkProofs DeliveryProofs MeshProofs AtacProofs AtacScheme NetworkInit NetworkTheorems MessageProofs.
Import PacketType.

(** ** Counters and blocks *)

Module FlowProofs.
Import Flow.

(** The counter of a receiver and a sender; whether a tile is blocked. *)
Definition counter (f : Flow) (r s : Z) : option Z := row ← zlookup (s_rambda_buffer_count f) r ; zlookup row s.
Definition blocked (f : Flow) (i : Z) : option bool := zlookup (s_block_send f) i.

Lemma count_spec f r s delta n : counter f r s = Some n →
  ∃ f', count r s delta f = Ok (s32 (n + delta), f') ∧ counter f' r s = Some (s32 (n + delta)) ∧
    (∀ r' s', r' ≠ r ∨ s' ≠ s → counter f' r' s' = counter f r' s') ∧ s_block_send f' = s_block_send f.
Proof.
  unfold counter. intros (row & Hrow & Hn)%bind_Some. unfold count, gets, mbind, M_bind, id, lift, vget. rewrite Hrow. cbn. rewrite Hn. cbn.
  pose proof (zlookup_Some _ _ _ Hrow) as [Hr _]. pose proof (zlookup_Some _ _ _ Hn) as [Hs _].
  erewrite (proj2 (vset_Ok _ _ _ _ _)) by (split; [exact Hs|reflexivity]).
  eexists. split; [done|]. cbn. rewrite zlookup_zinsert_eq by done. cbn. split; [by apply zlookup_zinsert_eq|]. split; [|done].
  intros r' s' Hne. destruct (decide (r' = r)) as [->|Hr'].
  - rewrite zlookup_zinsert_eq by done. cbn. rewrite Hrow. cbn. destruct Hne as [?|Hne]; [done|]. by rewrite zlookup_zinsert_ne.
  - by rewrite zlookup_zinsert_ne.
Qed.
Lemma set_block_spec f i b b0 : blocked f i = Some b0 →
  ∃ f', set_block i b f = Ok (tt, f') ∧ blocked f' i = Some b ∧ (∀ j, j ≠ i → blocked f' j = blocked f j) ∧
    ∀ r s, counter f' r s = counter f r s.
Proof.
  unfold blocked. intros Hb. pose proof (zlookup_Some _ _ _ Hb) as [Hi _]. unfold set_block, gets, mbind, M_bind, id, lift.
  erewrite (proj2 (vset_Ok _ _ _ _ _)) by (split; [exact Hi|reflexivity]). eexists. split; [done|]. cbn.
  split; [by apply zlookup_zinsert_eq|]. split; [|done]. intros j Hj. by apply zlookup_zinsert_ne.
Qed.

Section limit.
Context (L : Z) (Hlimit : 5 ≤ L < 2 ^ 31).

(** What a broadcast of [s] does to the counters [n] and blocks [b] of the
    receivers [l]. *)
Lemma broadcast_loop s (n : Z → Z) (b : Z → bool) l : NoDup l → ∀ f,
  (∀ i, i ∈ l → counter f i s = Some (n i) ∧ blocked f i = Some (b i) ∧ - 2 ^ 31 ≤ n i < 2 ^ 31 - 1) →
  ∃ f', mfor l (λ i, n ← count i s 1 ; when (n >=? s32 (L - 4)) (set_block i true)) f = Ok (tt, f') ∧
    (∀ i, i ∈ l → counter f' i s = Some (n i + 1) ∧ blocked f' i = Some (b i || (L - 4 <=? n i + 1))) ∧
    (∀ i, i ∉ l → counter f' i s = counter f i s ∧ blocked f' i = blocked f i).
Proof.
  induction 1 as [|i l Hi Hl IH]; intros f Hf.
  { exists f. split; [done|]. split; [|done]. intros i Hi. by apply not_elem_of_nil in Hi. }
  destruct (Hf i) as (Hc & Hb & Hn); [by left|]. destruct (count_spec f i s 1 (n i) Hc) as (f1 & E1 & C1 & C2 & B1).
  assert (Hs : s32 (n i + 1) = n i + 1) by (apply (sint_small 32); lia). rewrite Hs in *.
  assert (HL : s32 (L - 4) = L - 4) by (apply (sint_small 32); lia).
  assert (∃ f2, when (n i + 1 >=? s32 (L - 4)) (set_block i true) f1 = Ok (tt, f2) ∧ (∀ r s, counter f2 r s = counter f1 r s) ∧
    blocked f2 i = Some (b i || (L - 4 <=? n i + 1)) ∧ ∀ j, j ≠ i → blocked f2 j = blocked f1 j) as (f2 & E2 & C3 & B2 & B3).
  { rewrite HL, Z.geb_leb. assert (Hb1 : blocked f1 i = Some (b i)) by (unfold blocked in *; by rewrite B1).
    destruct (L - 4 <=? n i + 1).
    - destruct (set_block_spec f1 i true (b i) Hb1) as (f2 & E & H1 & H2 & H3). exists f2. by rewrite orb_true_r.
    - exists f1. by rewrite orb_false_r. }
  assert (Hf1 : ∀ j, j ≠ i → counter f2 j s = counter f j s ∧ blocked f2 j = blocked f j).
  { intros j Hj. rewrite C3, C2, B3 by auto. unfold blocked. by rewrite B1. }
  destruct (IH f2) as (f' & E3 & D1 & D2).
  { intros j Hj. assert (j ≠ i) by (by intros ->). destruct (Hf1 j) as [-> ->]; [done|]. apply Hf. by right. }
  exists f'. split; [|split].
  - cbn [mfor]. unfold mbind, M_bind. rewrite E1, E2. exact E3.
  - intros j [->|Hj]%elem_of_cons; [|by apply D1]. destruct (D2 i Hi) as [-> ->]. by rewrite C3, C1.
  - intros j [Hj Hj']%not_elem_of_cons. destruct (D2 j Hj') as [-> ->]. by apply Hf1.
Qed.

(** What tile [a] and the receivers of its packets do: [a] broadcasts, a tile
    receives a packet of [a]; and how it went. *)
Inductive event := Broadcast | Receive (r : Z).
Inductive outcome := Sent | Refused | Taken (r : Z).
#[global] Instance outcome_eq_dec : EqDecision outcome.
Proof. solve_decision. Defined.

Definition step (a : Z) (e : event) : M Flow outcome :=
  match e with
  | Broadcast => admitted ← before_broadcast L a ; mret (if admitted : bool then Sent else Refused)
  | Receive r => before_receive L r a ;; mret (Taken r)
  end.
Fixpoint run (a : Z) (es : list event) : M Flow (list outcome) :=
  match es with
  | [] => mret []
  | e :: es => o ← step a e ; log ← run a es ; mret (o :: log)
  end.

(** The packets of [a] that wait at a tile after these outcomes: those that were
    sent less those the tile took. *)
Definition weight (i : Z) (o : outcome) : Z :=
  match o with Sent => 1 | Refused => 0 | Taken r => if decide (i = r) then -1 else 0 end.
Definition waiting (log : list outcome) (i : Z) : Z := foldr Z.add 0 (weight i <$> log).

(** The last outcome is a broadcast that brings the own copies of [a] to the
    limit; a receipt that brings a tile just below it. *)
Definition fills (a : Z) (log : list outcome) : Prop := last log = Some Sent ∧ L - 4 ≤ waiting log a.
Definition frees (log : list outcome) : Prop := ∃ r, last log = Some (Taken r) ∧ waiting log r = L - 5.
(** The own copies have reached the limit and no receipt has come just below it
    since; the packets at tile [i] have been at the limit. *)
Definition held (a : Z) (log : list outcome) : Prop :=
  ∃ p, p `prefix_of` log ∧ fills a p ∧ ∀ p', p `prefix_of` p' → p' `prefix_of` log → ¬ frees p'.
Definition peaked (i : Z) (log : list outcome) : Prop := ∃ p, p `prefix_of` log ∧ L - 4 ≤ waiting p i.

Lemma waiting_snoc log o i : waiting (log ++ [o]) i = waiting log i + weight i o.
Proof. unfold waiting. induction log as [|o' log IH]; cbn in *; lia. Qed.
Lemma waiting_bound log i : - zlength log ≤ waiting log i ≤ zlength log.
Proof.
  unfold waiting, zlength. induction log as [|o log IH]; cbn in *; [lia|].
  assert (-1 ≤ weight i o ≤ 1) by (destruct o; cbn; try case_decide; lia). lia.
Qed.
Lemma prefix_snoc (p log : list outcome) o : p `prefix_of` log ++ [o] ↔ p = log ++ [o] ∨ p `prefix_of` log.
Proof.
  split.
  - intros [k Hk]. destruct k as [|o' k _] using rev_ind; [left; by rewrite app_nil_r in Hk|]. right.
    rewrite app_assoc in Hk. apply app_inj_tail in Hk as [-> _]. by exists k.
  - intros [->|Hp]; [done|]. by apply prefix_app_r.
Qed.
Lemma held_snoc a log o : held a (log ++ [o]) ↔ fills a (log ++ [o]) ∨ (held a log ∧ ¬ frees (log ++ [o])).
Proof.
  split.
  - intros (p & [->|Hp]%prefix_snoc & Hf & Hno); [by left|]. right. split.
    + exists p. split; [done|]. split; [done|]. intros p' H1 H2. apply Hno; [done|]. by apply prefix_app_r.
    + apply Hno; [|done]. by apply prefix_app_r.
  - intros [Hf|((p & Hp & Hf & Hno) & Hlast)].
    + exists (log ++ [o]). split; [done|]. split; [done|]. intros p' H1 H2.
      assert (p' = log ++ [o]) as -> by (by apply (anti_symm prefix)). intros (r & Hr & _). destruct Hf as [Hs _]. congruence.
    + exists p. split; [by apply prefix_app_r|]. split; [done|]. intros p' H1 [->|H2]%prefix_snoc; [done|]. by apply Hno.
Qed.
Lemma peaked_snoc i log o : peaked i (log ++ [o]) ↔ peaked i log ∨ L - 4 ≤ waiting (log ++ [o]) i.
Proof.
  split.
  - intros (p & [->|Hp]%prefix_snoc & Hw); [by right|]. left. by exists p.
  - intros [(p & Hp & Hw)|Hw]; [exists p; split; [by apply prefix_app_r|done]|]. by exists (log ++ [o]).
Qed.

(** The counters and the blocks after these outcomes. *)
Definition logged (a : Z) (log : list outcome) (f : Flow) : Prop :=
  ∀ i, 0 ≤ i < MAX_CORES → counter f i a = Some (waiting log i) ∧
    ∃ b : bool, blocked f i = Some b ∧ (b ↔ if decide (i = a) then held a log else peaked i log).

Lemma refused_iff f i b : blocked f i = Some b →
  (before_broadcast L i f = Ok (false, f) ↔ b) ∧ (before_broadcast L i f = Ok (false, f) ∨ b = false).
Proof.
  intros Hb. unfold before_broadcast, gets, mbind, M_bind, id, lift, vget. unfold blocked in Hb. rewrite Hb. cbn [of_option].
  destruct b; [by split; [|left]|]. split; [|by right]. split; [|done]. cbn.
  destruct (mfor _ _ f) as [[? ?]|]; [intros [=]|done].
Qed.

Lemma logged_step a e log f : 0 ≤ a < MAX_CORES → zlength log < 2 ^ 31 - 1 →
  match e with Broadcast => True | Receive r => 0 ≤ r < MAX_CORES end → logged a log f →
  ∃ o f', step a e f = Ok (o, f') ∧ logged a (log ++ [o]) f'.
Proof.
  intros Ha Hlen He Hf. destruct (Hf a Ha) as (Hca & b & Hba & Hheld). rewrite decide_True in Hheld by done. destruct e as [|r].
  - destruct b.
    + exists Refused, f. split.
      { cbn [step]. apply M_bind_Ok. exists false, f. split; [|done]. by apply (refused_iff f a true Hba). }
      intros i Hi. destruct (Hf i Hi) as (Hc & b' & Hb & Hiff). rewrite waiting_snoc. cbn [weight]. rewrite Z.add_0_r. split; [done|].
      exists b'. split; [done|]. rewrite Hiff. case_decide.
      * rewrite held_snoc. split; [intros Hh; right; split; [done|]|intros [[Hs _]|[? _]]; [|done]].
        -- intros (r & Hr & _). rewrite last_snoc in Hr. done.
        -- rewrite last_snoc in Hs. done.
      * rewrite peaked_snoc, waiting_snoc. cbn [weight]. rewrite Z.add_0_r. split; [by left|intros [?|Hw]; [done|by exists log]].
    + assert (∃ bl, ∀ i, 0 ≤ i < MAX_CORES → blocked f i = Some (bl i)) as [bl Hbl].
      { exists (λ i, default false (blocked f i)). intros i Hi. destruct (Hf i Hi) as (_ & b' & -> & _). done. }
      destruct (broadcast_loop a (waiting log) bl (seqZ 0 MAX_CORES) (NoDup_seqZ _ _) f) as (f1 & E1 & C1 & _).
      { intros i Hi%elem_of_seqZ. destruct (Hf i) as (Hci & _); [lia|]. split; [exact Hci|]. split; [apply Hbl; lia|].
        pose proof (waiting_bound log i). lia. }
      exists Sent, f1. split.
      { cbn [step]. apply M_bind_Ok. exists true, f1. split; [|done]. unfold before_broadcast. apply M_bind_Ok. exists f, f. split; [done|].
        apply M_bind_Ok. exists false, f. split; [by apply lift_Ok; split; [apply vget_Ok|]|]. apply M_bind_Ok. by exists tt, f1. }
      intros i Hi. destruct (C1 i) as [Hc Hb]; [apply elem_of_seqZ; lia|]. rewrite waiting_snoc. cbn [weight]. split; [done|].
      eexists. split; [exact Hb|]. destruct (Hf i Hi) as (_ & b' & Hb' & Hiff). rewrite Hbl in Hb' by done. injection Hb' as Hb'. rewrite Hb'.
      case_decide as Hia.
      * subst i. rewrite Hbl in Hba by done. injection Hba as Hba. rewrite held_snoc, <- Hheld. unfold fills. rewrite last_snoc, waiting_snoc. cbn [weight].
        assert (b' = false) as -> by congruence. rewrite orb_false_l, Is_true_true, Z.leb_le. split; [by left|]. by intros [[_ ?]|[[] _]].
      * rewrite peaked_snoc, waiting_snoc, <- Hiff. cbn [weight]. rewrite !Is_true_true, orb_true_iff, Z.leb_le. done.
  - destruct (Hf r He) as (Hcr & _). destruct (count_spec f r a (-1) _ Hcr) as (f2 & E2 & C2 & C3 & B2).
    pose proof (waiting_bound log r). assert (Hs : s32 (waiting log r + -1) = waiting log r - 1) by (apply (sint_small 32); lia). rewrite Hs in *.
    assert (HL : s32 (L - 4 - 1) = L - 5) by (rewrite <- Z.sub_add_distr; apply (sint_small 32); lia).
    assert (Hb2 : blocked f2 a = Some b) by (by unfold blocked in *; rewrite B2).
    assert (∃ f3, when (waiting log r - 1 =? s32 (L - 4 - 1)) (set_block a false) f2 = Ok (tt, f3) ∧ (∀ r s, counter f3 r s = counter f2 r s) ∧
      blocked f3 a = Some (b && negb (waiting log r - 1 =? L - 5)) ∧ ∀ j, j ≠ a → blocked f3 j = blocked f2 j) as (f3 & E3 & C4 & B3 & B4).
    { rewrite HL. destruct (Z.eqb_spec (waiting log r - 1) (L - 5)) as [HL0|HL0].
      - destruct (set_block_spec f2 a false _ Hb2) as (f3 & E & H1 & H2 & H3). exists f3. by rewrite andb_false_r.
      - exists f2. by rewrite andb_true_r. }
    exists (Taken r), f3. split.
    { cbn [step]. apply M_bind_Ok. exists tt, f3. split; [|done]. unfold before_receive. apply M_bind_Ok. by exists (waiting log r - 1), f2. }
    intros i Hi. destruct (Hf i Hi) as (Hc & b' & Hb & Hiff). rewrite C4, waiting_snoc. cbn [weight]. split.
    { destruct (decide (i = r)) as [->|Hir]; [by rewrite C2|]. rewrite C3 by auto. by rewrite Hc, Z.add_0_r. }
    case_decide as Hia.
    + subst i. eexists. split; [exact B3|]. rewrite held_snoc, <- Hheld. unfold fills, frees. rewrite last_snoc.
      rewrite andb_True, negb_True, Is_true_true. rewrite Is_true_true, Z.eqb_eq. split.
      * intros [Hbt Hne]. right. split; [done|]. intros (r' & [= <-] & Hw). rewrite waiting_snoc in Hw. cbn [weight] in Hw. rewrite decide_True in Hw by done. lia.
      * intros [[? _]|[Hbt Hno]]; [done|]. split; [done|]. intros Hw. apply Hno. exists r. split; [done|]. rewrite waiting_snoc. cbn [weight]. rewrite decide_True by done. lia.
    + exists b'. split; [rewrite B4 by done; by unfold blocked in *; rewrite B2|]. rewrite peaked_snoc, waiting_snoc, <- Hiff. cbn [weight].
      split; [by left|]. intros [?|Hw]; [done|]. apply Hiff. exists log. split; [done|]. case_decide; lia.
Qed.

Lemma logged_initial a : 0 ≤ a < MAX_CORES → logged a [] initial.
Proof.
  intros Ha i Hi. unfold counter, blocked, initial. cbn [s_rambda_buffer_count s_block_send].
  rewrite zlookup_nat by lia. rewrite lookup_replicate_2 by (unfold MAX_CORES in *; lia). cbn.
  rewrite !zlookup_nat by lia. rewrite !lookup_replicate_2 by (unfold MAX_CORES in *; lia). split; [done|]. exists false. split; [done|].
  split; [done|]. case_decide.
  - intros (p & ->%prefix_nil_inv & [Hl _] & _). done.
  - intros (p & ->%prefix_nil_inv & Hw). unfold waiting in Hw. cbn in Hw. lia.
Qed.

Lemma run_logged a es : 0 ≤ a < MAX_CORES →
  Forall (λ e, match e with Broadcast => True | Receive r => 0 ≤ r < MAX_CORES end) es → ∀ log f,
  zlength log + zlength es < 2 ^ 31 → logged a log f →
  ∃ log' f', run a es f = Ok (log', f') ∧ logged a (log ++ log') f'.
Proof.
  intros Ha. induction 1 as [|e es He Hes IH]; intros log f Hlen Hf.
  { exists [], f. by rewrite app_nil_r. }
  unfold zlength in *. cbn [length] in Hlen.
  destruct (logged_step a e log f) as (o & f1 & E1 & H1); [done|unfold zlength; lia|done|done|].
  destruct (IH (log ++ [o]) f1) as (log' & f' & E2 & H2); [rewrite length_app; cbn; lia|done|].
  exists (o :: log'), f'. rewrite <- app_assoc in H2. split; [|done]. cbn [run]. apply M_bind_Ok. exists o, f1. split; [done|].
  apply M_bind_Ok. by exists log', f'.
Qed.

(** C39: Tile [a] broadcasts, and the tiles receive its packets, in any order,
    from the initial state, no other tile having sent anything.  Nothing fails; a
    tile's counter is the number of packets sent that it has not taken.  A
    broadcast of [a] is refused exactly when its OWN copies have reached the limit
    (four below the size of the queue) and no receipt has since brought some tile
    just below it, so the packets that wait at the other tiles never stop [a]; it
    is those tiles, once the packets of [a] at them have been at the limit, whose
    broadcasts are refused, whatever they take afterwards. *)
Theorem sender_not_throttled (a : Z) (es : list event) :
  0 ≤ a < MAX_CORES → zlength es < 2 ^ 31 →
  Forall (λ e, match e with Broadcast => True | Receive r => 0 ≤ r < MAX_CORES end) es →
  ∃ log f, run a es initial = Ok (log, f) ∧
    (∀ i, 0 ≤ i < MAX_CORES → counter f i a = Some (waiting log i)) ∧
    (before_broadcast L a f = Ok (false, f) ↔ held a log) ∧
    ((∀ p, p `prefix_of` log → waiting p a < L - 4) → before_broadcast L a f ≠ Ok (false, f)) ∧
    (∀ i, 0 ≤ i < MAX_CORES → i ≠ a → before_broadcast L i f = Ok (false, f) ↔ peaked i log).
Proof.
  intros Ha Hlen Hes. destruct (run_logged a es Ha Hes [] initial) as (log & f & E & Hf); [done|by apply logged_initial|].
  exists log, f. split; [done|]. rewrite app_nil_l in Hf. destruct (Hf a Ha) as (_ & b & Hb & Hheld). rewrite decide_True in Hheld by done.
  split_and!; [intros i Hi; by apply Hf| | |].
  - rewrite (proj1 (refused_iff f a b Hb)). done.
  - intros Hfew [p (Hp & [_ Hw] & _)]%(proj1 (refused_iff f a b Hb)) % Hheld. specialize (Hfew p Hp). lia.
  - intros i Hi Hne. destruct (Hf i Hi) as (_ & b' & Hb' & Hiff). rewrite decide_False in Hiff by done.
    rewrite (proj1 (refused_iff f i b' Hb')). done.
Qed.
End limit.

(** With room for 10 packets, tile 0 sends 20 broadcasts and takes each of its own
    copies; then it sends 9 more and takes none: the last three are refused. *)
Definition sample_events : list event := mjoin (replicate 20 [Broadcast; Receive 0]) ++ replicate 9 Broadcast.
Lemma sender_not_throttled_witness :
  ∃ log f, run 10 0 sample_events initial = Ok (log, f) ∧ list_filter (λ o, o = Refused) _ log = replicate 3 Refused ∧
    (before_broadcast 10 0 f = Ok (false, f) ↔ held 10 0 log) ∧ counter f 1 0 = Some 26.
Proof.
  destruct (sender_not_throttled 10 ltac:(lia) 0 sample_events) as (log & f & E & H1 & H2 & _); [unfold MAX_CORES; lia|vm_compute; reflexivity| |].
  { apply Forall_app. split; [|apply Forall_replicate; done]. cbn. repeat constructor; unfold MAX_CORES; lia. }
  assert (Hlog : match run 10 0 sample_events initial with Ok (log, _) => log | Fail _ => [] end =
    mjoin (replicate 20 [Sent; Taken 0]) ++ replicate 6 Sent ++ replicate 3 Refused) by (vm_compute; reflexivity).
  rewrite E in Hlog. subst log. eexists _, f. split; [exact E|]. split; [reflexivity|]. split; [exact H2|].
  rewrite (H1 1) by (unfold MAX_CORES; lia). reflexivity.
Defined.

(** Receiving from any sender uses the constant that stands for it as an index;
    so does a broadcast of a tile beyond the 65th. *)
Lemma receive_any_out_of_range :
  before_receive 100 0 Core.CAPI_ENDPOINT_ANY initial = Fail (ERange "s_rambda_buffer_count").
Proof.
  unfold before_receive, count, gets, mbind, M_bind, id, lift, vget, initial. cbn [s_rambda_buffer_count].
  rewrite zlookup_nat by lia. rewrite lookup_replicate_2 by (unfold MAX_CORES; lia). cbn [of_option mbind res_bind].
  rewrite zlookup_nat by (unfold Core.CAPI_ENDPOINT_ANY; lia).
  rewrite (lookup_ge_None_2 (replicate _ 0)); [done|]. rewrite length_replicate. unfold MAX_CORES, Core.CAPI_ENDPOINT_ANY. lia.
Qed.
Lemma tile_65_out_of_range : before_broadcast 100 65 initial = Fail (ERange "s_block_send").
Proof. vm_compute. reflexivity. Qed.
End FlowProofs.

(** Two names with the same first character are one name: the second channel
    replaces the first. *)
Lemma names_share_initial :
  match (_ ← Chip.register_virtual_channel "alpha" ; Chip.register_virtual_channel "apple") Chip.initial with
  | Ok (_, c) => Chip.find_vc_id "alpha" c
  | Fail _ => 0
  end = 11.
Proof. vm_compute. reflexivity. Qed.

(** ** One call of the filter *)

Section filter.
Context {Msg : Type} `{MemoryManager Msg} `{Core.MessageConfig} (pow : double → double → double) (behind_end : NetPacket Msg).
Import Core.
Implicit Types (s : Machine Msg) (n : Network.Network Msg) (nd : Node Msg).

(** C13: When the packets of the user carry messages on channels that exist, a
    call of the filter returns unless the queue model fails.  It takes at most one
    packet of each sender, in the order of the senders, the earliest of those that
    pass; it drops only packets that do not pass; every other packet stays in the
    queue of the network, and each packet taken goes, delayed, to the end of the
    queue of its channel.  The result is the number of packets taken. *)
Theorem filter_round t net_type s n nd :
  at_tile t n nd s → operation_ok (m_filtered_ingestor nd) →
  zlength (message_buffer nd) = Chip.MAX_VIRTUAL_CHANNELS →
  sound_from (getPktTypeFromUserNetType net_type) (seqZ 0 Chip.NUMBER_OF_WAVELENGTHS) n →
  runs (queue_error pow) (filter_incoming_messages pow behind_end t net_type) s (λ total s', ∃ n' nd' taken dropped,
    round_result t (getPktTypeFromUserNetType net_type) (seqZ 0 Chip.NUMBER_OF_WAVELENGTHS) n nd s 0 total s' n' nd' taken dropped).
Proof. intros. by apply rounds_spec. Qed.

(** *** A channel *)

Lemma of_bytes_prefix bytes m : Message.of_bytes bytes = Ok m →
  ∃ l, mem_read bytes 0 Message.sizeof = Ok l ∧ Message.of_bytes l = Ok m.
Proof.
  unfold Message.of_bytes. intros (l & Hl & Hm)%res_bind_Ok. exists l. split; [done|].
  assert (Hlen : zlength l = Message.sizeof).
  { unfold mem_read in Hl. destruct (_ && _) eqn:Hc; [|done]. injection Hl as <-. breflect.
    unfold zlength, Message.sizeof in *. rewrite drop_0, length_take. lia. }
  rewrite mem_read_ok by (unfold Message.sizeof in *; lia). cbn [mbind res_bind]. rewrite drop_0, take_ge; [done|].
  unfold zlength in Hlen. lia.
Qed.

Lemma taken_sound t type l n nd s total total' s' n' nd' taken dropped :
  sound_from type l n → round_result t type l n nd s total total' s' n' nd' taken dropped → Forall sound taken.*2.
Proof.
  intros Hso [_ _ _ Hpackets _ _ Htaken (senders & Hsub & H2) _ _]. unfold sound_from in Hso. rewrite Hpackets in Hso.
  apply Forall_app in Hso as [_ [Hso _]%Forall_app]. apply Forall_fmap, Forall_lookup. intros k [p d] Hk. cbn.
  rewrite Forall_lookup in Htaken. destruct (Htaken _ _ Hk) as [_ [delay Hd]]. cbn in Hd.
  destruct (Forall2_lookup_r _ _ _ _ _ H2 Hk) as (i & Hi & Hw). rewrite Forall_lookup in Hso.
  assert (Hp : taken.*1 !! k = Some p) by (by rewrite list_lookup_fmap, Hk).
  destruct (Hso _ _ Hp i) as (m & Hm & Hvc).
  - eapply elem_of_sublist; [|exact Hsub]. by eapply list_elem_of_lookup_2.
  - exact Hw.
  - exists m. split; [|done]. unfold carries in *. by rewrite Hd.
Qed.

Lemma dequeue_spec (E : error → Prop) t vc s n nd waiting :
  at_tile t n nd s → zlookup (message_buffer nd) vc = Some waiting → Forall sound waiting →
  runs E (dequeue_filtered_message t vc Message.sizeof) s (λ received s', ∃ nd', s' = put t n nd' s ∧
    (∀ vc', vc' ≠ vc → zlookup (message_buffer nd') vc' = zlookup (message_buffer nd) vc') ∧
    zlookup (message_buffer nd') vc = Some (tail waiting) ∧
    match received with
    | None => waiting = []
    | Some bytes => ∃ packet m, head waiting = Some packet ∧ carries packet m ∧ Message.of_bytes bytes = Ok m
    end).
Proof.
  intros Hat Hvc Hw. pose proof (zlookup_Some _ _ _ Hvc) as [Hin _]. unfold dequeue_filtered_message. run1.
  eapply runs_in_node; [exact Hat|]. apply runs_zoom. unfold MessageBuffer.dequeue_filtered_message. do 2 run1.
  run1. eapply runs_lift; [by apply vget_Ok|]. destruct waiting as [|packet waiting].
  - run1. run1. eapply runs_in_node; [by eapply at_put|]. run1. rewrite put_put. cbn. eexists. split; [reflexivity|]. by split_and!.
  - run1. run1. run1. run1. eapply runs_in_node; [by eapply at_put|]. run1. rewrite put_put.
    apply Forall_cons in Hw as [(m & Hm & _) _]. pose proof Hm as Hp. unfold carries, Message.of_payload in Hp.
    destruct (NetPacket.data packet) as [|bytes|msg] eqn:Hd; [done| |done].
    destruct (of_bytes_prefix bytes m Hp) as (l & Hl & Hlm). run1. eapply runs_lift; [exact Hl|]. run1.
    eexists. split; [reflexivity|]. cbn. split_and!.
    + intros vc' Hne. by rewrite zlookup_zinsert_ne.
    + by apply zlookup_zinsert_eq.
    + by exists packet, m.
Qed.

(** C12: [receive_message] on a channel first runs the filter and then takes the
    oldest packet of the channel, those that waited before those that just came
    in, and returns the message it was sent with; the other packets and channels
    stay as they are.  There is no message exactly when the channel is empty. *)
Theorem channel_is_fifo t (v : VirtualChannel.VirtualChannel) s n nd queue :
  at_tile t n nd s → CAPI.getTileFromCommId t s = t → operation_ok (m_filtered_ingestor nd) →
  zlength (message_buffer nd) = Chip.MAX_VIRTUAL_CHANNELS →
  sound_from USER_1 (seqZ 0 Chip.NUMBER_OF_WAVELENGTHS) n →
  zlookup (message_buffer nd) (VirtualChannel.id v) = Some queue → Forall sound queue →
  runs (queue_error pow) (VirtualChannel.receive_message pow behind_end t v) s (λ received s', ∃ n' nd1 nd' taken dropped s1 total,
    round_result t USER_1 (seqZ 0 Chip.NUMBER_OF_WAVELENGTHS) n nd s 0 total s1 n' nd1 taken dropped ∧
    s' = put t n' nd' s ∧
    let waiting := queue ++ filter (λ d, on_channel (VirtualChannel.id v) d) taken.*2 in
    (∀ vc, vc ≠ VirtualChannel.id v → zlookup (message_buffer nd') vc = zlookup (message_buffer nd1) vc) ∧
    zlookup (message_buffer nd') (VirtualChannel.id v) = Some (tail waiting) ∧
    match received with
    | None => waiting = []
    | Some m => ∃ packet, head waiting = Some packet ∧ carries packet m
    end).
Proof.
  intros Hat Hcomm Hop Hlen Hso Hq Hsound. unfold VirtualChannel.receive_message, CAPI.CAPI_filter_incoming_messages.
  run1. run1. unfold CAPI.current_tile. run1. rewrite Hcomm. run1.
  eapply runs_mono; [by apply (rounds_spec pow behind_end t USER_1 _ s n nd 0)|].
  cbv beta. intros total s1 (n' & nd1 & taken & dropped & Hr). pose proof (taken_sound _ _ _ _ _ _ _ _ _ _ _ _ _ Hso Hr) as Htk.
  pose proof Hr as [Hs1 _ _ _ _ _ _ _ _ [Hlen1 Hbuf]]. run1. run1. unfold CAPI.CAPI_dequeue_filtered_message, CAPI.current_tile.
  run1. run1. assert (Hcomm1 : CAPI.getTileFromCommId t s1 = t) by (by rewrite Hs1). rewrite Hcomm1.
  specialize (Hbuf _ _ Hq). set (waiting := queue ++ _) in Hbuf.
  assert (Hw : Forall sound waiting) by (apply Forall_app; split; [done|]; apply Forall_forall; intros d [_ Hd]%list_elem_of_filter; rewrite Forall_forall in Htk; by apply Htk).
  assert (Hat1 : at_tile t n' nd1 s1) by (rewrite Hs1; by eapply at_put).
  eapply runs_mono; [by apply (dequeue_spec (queue_error pow) t _ s1 n' nd1 waiting)|]. cbv beta.
  intros received s2 (nd' & Hs2 & Hothers & Htail & Hrec). rewrite Hs1, put_put in Hs2.
  destruct received as [bytes|].
  - destruct Hrec as (packet & m & Hhead & Hm & Hbytes). run1. eapply runs_lift; [exact Hbytes|]. run1.
    exists n', nd1, nd', taken, dropped, s1, total. split_and!; [done|done|done|done|]. by exists packet.
  - run1. exists n', nd1, nd', taken, dropped, s1, total. by split_and!.
Qed.
End filter.

(** Tile 1 listens to messages with an odd signature.  Tile 2 has sent it three
    messages on channel 10, the first with an even signature, and tile 3 one on
    channel 11. *)
Definition sample_message (signature vc : Z) : Message.Message := Message.mkMessage 7 4 42 signature vc 2.
Definition sample_packet (time sender signature vc : Z) : NetPacket ShmemMsg.MsgBuf :=
  NetPacket.mkNetPacket time USER_1 (getMainCoreId sender) (mkCoreId NetPacket.BROADCAST (u32 (-1))) NetPacket.SEND_TILE
    Message.sizeof (NetPacket.Bytes (Message.to_bytes (sample_message signature vc))) 0 0 false 0.
Definition sample_queue : list (NetPacket ShmemMsg.MsgBuf) :=
  [sample_packet 5 2 2 10; sample_packet 9 2 3 10; sample_packet 7 2 1 10; sample_packet 6 3 1 11].
Definition sample_network (tid : Z) : Network.Network ShmemMsg.MsgBuf :=
  Network.mkNetwork [] [] tid 4 sample_queue false (float_of_int 1) 0 [] [].
Definition sample_node : Core.Node ShmemMsg.MsgBuf := Core.mkNode
  (FilteredIngestor.set_filter 1 FilteredIngestor.AND 1 FilteredIngestor.make) MessageBuffer.make
  (Queue.HistoryList (QueueModelHistoryList.make 1 100 false false)) (CoreModel.make (float_of_int 1) None).
Definition sample_machine : Core.Machine ShmemMsg.MsgBuf := Core.mkMachine
  (World.mkWorld (sample_network <$> [0; 1; 2; 3]) (replicate 4 [])) (replicate 4 sample_node) Flow.initial Chip.initial
  (list_to_map [(0, 0); (1, 1); (2, 2); (3, 3)]).
Definition sample_channel : VirtualChannel.VirtualChannel := VirtualChannel.mkVirtualChannel 10 1 true ∅.
#[local] Instance sample_config : Core.MessageConfig :=
  {| Core.CHECKBUFFER_COST := 1; Core.LAMBDA_QUEUE_LENGTH := 100; Core.performance_modeling := true |}.

Definition messages (node : Core.Node ShmemMsg.MsgBuf) (vc : Z) : list Z :=
  match zlookup (Core.message_buffer node) vc with
  | Some q => (λ p, match Message.of_payload (NetPacket.data p) with Ok m => Message.signature m | Fail _ => -1 end) <$> q
  | None => []
  end.

Lemma sample_sound : sound_from USER_1 (seqZ 0 Chip.NUMBER_OF_WAVELENGTHS) (sample_network 1).
Proof.
  unfold sound_from, sample_network, sample_queue. cbn [Network._netQueue].
  repeat (apply Forall_cons; split; [intros i _ _; eexists; split; [vm_compute; reflexivity|vm_compute; split; [discriminate|reflexivity]]|]).
  by apply Forall_nil.
Qed.
Lemma sample_at : at_tile 1 (sample_network 1) sample_node sample_machine.
Proof. split; vm_compute; reflexivity. Qed.
Lemma sample_operation : operation_ok (Core.m_filtered_ingestor sample_node).
Proof. vm_compute. split; discriminate. Qed.
Lemma sample_buffers : zlength (Core.message_buffer sample_node) = Chip.MAX_VIRTUAL_CHANNELS.
Proof. vm_compute. reflexivity. Qed.

(** Two packets are taken: the second of tile 2, whose first is dropped, and that
    of tile 3. *)
Lemma filter_round_witness :
  match Core.filter_incoming_messages (λ x _, x) NetPacket.empty 1 Core.CARBON_NET_USER_1 sample_machine with
  | Ok (total, s') => total =? 2 | Fail _ => false end = true ∧
  runs (queue_error (λ x _, x)) (Core.filter_incoming_messages (λ x _, x) NetPacket.empty 1 Core.CARBON_NET_USER_1) sample_machine
    (λ total s', ∃ n' nd' taken dropped, round_result 1 (Core.getPktTypeFromUserNetType Core.CARBON_NET_USER_1)
       (seqZ 0 Chip.NUMBER_OF_WAVELENGTHS) (sample_network 1) sample_node sample_machine 0 total s' n' nd' taken dropped).
Proof.
  split; [vm_compute; reflexivity|].
  exact (filter_round (λ x _, x) NetPacket.empty 1 Core.CARBON_NET_USER_1 sample_machine (sample_network 1) sample_node
           sample_at sample_operation sample_buffers sample_sound).
Defined.

(** The message of tile 2 with signature 1, sent with time 7. *)
Lemma channel_is_fifo_witness :
  match VirtualChannel.receive_message (λ x _, x) NetPacket.empty 1 sample_channel sample_machine with
  | Ok (Some m, s') => (Message.signature m =? 1) && (Message.payload m =? 42) | _ => false end = true ∧
  runs (queue_error (λ x _, x)) (VirtualChannel.receive_message (λ x _, x) NetPacket.empty 1 sample_channel) sample_machine
    (λ received s', received ≠ None).
Proof.
  split; [vm_compute; reflexivity|].
  assert (Hsome : match VirtualChannel.receive_message (λ x _, x) NetPacket.empty 1 sample_channel sample_machine with
    | Ok (Some m, s') => true | _ => false end = true) by (vm_compute; reflexivity).
  pose proof (channel_is_fifo (λ x _, x) NetPacket.empty 1 sample_channel sample_machine (sample_network 1) sample_node []
           sample_at eq_refl sample_operation sample_buffers sample_sound eq_refl (Forall_nil_2 _)) as Hr.
  unfold runs in *. destruct (VirtualChannel.receive_message _ _ 1 sample_channel sample_machine) as [[received s']|e]; [|exact Hr].
  by destruct received.
Defined.
