(* ===== verification/MainCore.v ===== *)
(** * MainCore: accesses of a core to its memory

    Models tile/core/main_core.{h,cc}: an access of any size is split at the
    boundaries of the cache lines.  The memory manager below is an interface with
    its laws; the theorem shows that over any memory that keeps them an access
    reads or writes exactly its bytes. *)
From S2P Require Import Prelude Utils Double CacheSet Cache Shmem ThreadManager Instruction CoreModels.
Import Instruction.

(** What a core needs of [MemoryManager] and [ShmemPerfModel]: an access inside
    one line, which returns whether it hit and the bytes of the buffer
    afterwards. *)
Class LineMemory (Mem : Type) := {
  getCacheLineSize : Mem → Z;
  coreInitiateMemoryAccess : MemComponent.Type_ → MemOp.lock_signal_t → MemOp.mem_op_t → Z → Z → list Z → Z → bool →
    M Mem (bool * list Z);
  getShmemPerfModel : Mem → ShmemPerfModel.ShmemPerfModel;
  setShmemPerfModel : ShmemPerfModel.ShmemPerfModel → Mem → Mem
}.

Module MainCore.

Section memory.
Context {Mem : Type} `{LineMemory Mem}.
Definition cycle_count (m : Mem) : Z := ShmemPerfModel.getCycleCount ShmemPerfModel.APP_THREAD (getShmemPerfModel m).
Definition on_perf (f : ShmemPerfModel.ShmemPerfModel → ShmemPerfModel.ShmemPerfModel) : M Mem unit :=
  modify (λ m, setShmemPerfModel (f (getShmemPerfModel m)) m).

(** The offset and the size of the access to the line [curr]. *)
Definition curr_offset (line begin_addr curr : Z) : Z :=
  if curr =? u64 (begin_addr - begin_addr `mod` line) then u32 (begin_addr `mod` line) else 0.
Definition curr_size (line begin_addr end_addr curr : Z) : Z :=
  if curr =? u64 (end_addr - end_addr `mod` line) then u32 (end_addr `mod` line - curr_offset line begin_addr curr)
  else u32 (line - curr_offset line begin_addr curr).

(** The loop over the lines from [curr] on; [head] is the position in the
    buffer. *)
Fixpoint access_lines (fuel : nat) (comp : MemComponent.Type_) (lock : MemOp.lock_signal_t) (op : MemOp.mem_op_t)
    (push_info : bool) (begin_addr end_addr curr head : Z) (buf : list Z) (num_misses : Z) : M Mem (Z * list Z) :=
  m ← gets id ;
  let line := getCacheLineSize m in
  if negb (curr <=? u64 (end_addr - end_addr `mod` line)) then mret (num_misses, buf) else
  match fuel with
  | 0%nat => fail (EFuel "initiateMemoryAccess")
  | S fuel =>
    let next := access_lines fuel comp lock op push_info begin_addr end_addr (u64 (curr + line)) in
    let offset := curr_offset line begin_addr curr in
    let size := curr_size line begin_addr end_addr curr in
    if (curr =? u64 (end_addr - end_addr `mod` line)) && (size =? 0) then next head buf num_misses
    else
      part ← lift (mem_read buf head size) ;
      r ← coreInitiateMemoryAccess comp lock op curr offset part size push_info ;
      let '(hit, bytes) := r : bool * list Z in
      buf ← lift (mem_write buf head bytes) ;
      next (head + size) buf (if hit then num_misses else u32 (num_misses + 1))
  end.

(** As many rounds as the access can touch lines. *)
Definition line_bound (line data_size : Z) : nat := Z.to_nat (data_size `div` line + 2).

(** The part of [initiateMemoryAccess] for at least one byte: the misses, the
    latency and the buffer. *)
Definition access (initial_time : Z) (comp : MemComponent.Type_) (lock : MemOp.lock_signal_t) (op : MemOp.mem_op_t)
    (address : Z) (data_buf : list Z) (data_size : Z) (push_info : bool) : M Mem (Z * Z * list Z) :=
  on_perf (ShmemPerfModel.setCycleCount ShmemPerfModel.APP_THREAD initial_time) ;;
  line ← gets getCacheLineSize ;
  assert (negb (line =? 0)) "cache_line_size" ;;
  let end_addr := u64 (address + data_size) in
  r ← access_lines (line_bound line data_size) comp lock op push_info address end_addr
        (u64 (address - address `mod` line)) 0 data_buf 0 ;
  final_time ← gets cycle_count ;
  assert (final_time >=? initial_time) "final_time < initial_time" ;;
  let memory_access_latency := u64 (final_time - initial_time) in
  on_perf (ShmemPerfModel.incrTotalMemoryAccessLatency memory_access_latency) ;;
  mret (r.1, memory_access_latency, r.2).
End memory.

Section core.
Context {Mod Mem : Type} `{LineMemory Mem} `{!PerformanceModel Mod Mem} `{CoreConfig}.
Context (isSimulatingSharedMemory : bool).
Abbreviation St := (CoreState Mod Mem).

Definition push (op : MemOp.mem_op_t) (latency address num_misses : Z) : M St unit :=
  modify (λ s, s <| model ::= λ m, set_base (CoreModel.pushDynamicInstructionInfo performance_modeling
    (DynamicInstructionInfo.createMemoryInfo latency address
       (if bool_decide (op = MemOp.WRITE) then WRITE else READ) num_misses) (base m)) m |>).

Definition initiateMemoryAccess (comp : MemComponent.Type_) (lock : MemOp.lock_signal_t) (op : MemOp.mem_op_t)
    (address : Z) (data_buf : list Z) (data_size : Z) (push_info : bool) (time : Z) : M St (Z * Z * list Z) :=
  assert isSimulatingSharedMemory "Shared Memory Disabled" ;;
  if data_size <=? 0 then when push_info (push op 0 address 0) ;; mret (0, 0, data_buf) else
  s ← gets id ;
  let initial_time := if time =? 0 then CoreModel.m_cycle_count (base (model s)) else time in
  r ← zoom memory (λ m s, s <| memory := m |>) (access initial_time comp lock op address data_buf data_size push_info) ;
  when push_info (push op r.1.2 address r.1.1) ;;
  mret r.

Definition accessMemory (lock : MemOp.lock_signal_t) (op : MemOp.mem_op_t) (address : Z) (data_buffer : list Z)
    (data_size : Z) (push_info : bool) : M St (Z * Z * list Z) :=
  initiateMemoryAccess MemComponent.L1_DCACHE lock op address data_buffer data_size push_info 0.
End core.

(** [readInstructionMemory] pushes no information, so that it needs nothing of
    the core but its cycle count; the bytes are not used. *)
Definition instruction_memory {Mem} `{LineMemory Mem} (isSimulatingSharedMemory : bool) : InstructionMemory Mem := {|
  readInstructionMemory time address size :=
    assert isSimulatingSharedMemory "Shared Memory Disabled" ;;
    if size <=? 0 then mret 0 else
    r ← access time MemComponent.L1_ICACHE MemOp.NONE MemOp.READ address (replicate (Z.to_nat size) 0) size false ;
    mret r.1.2
|}.
End MainCore.

(** ** Memory below *)

(** The laws of a memory: [contents] is the byte at an address; an access inside
    a line reads its bytes and leaves the memory, or stores them and nothing else;
    the clock does not go back. *)
Class LineMemoryLaws (Mem : Type) `{LineMemory Mem} := {
  contents : Mem → Z → Z;
  usable : Mem → Prop;
  line_size m : usable m → 0 < getCacheLineSize m < 2 ^ 32;
  perf_contents p m : usable m → usable (setShmemPerfModel p m) ∧
    (∀ x, contents (setShmemPerfModel p m) x = contents m x) ∧
    getCacheLineSize (setShmemPerfModel p m) = getCacheLineSize m ∧ getShmemPerfModel (setShmemPerfModel p m) = p;
  access_line comp lock op ca offset buf size modeled m :
    usable m → ca `mod` getCacheLineSize m = 0 → 0 ≤ ca → ca + getCacheLineSize m ≤ 2 ^ 64 →
    0 ≤ offset → 0 < size → offset + size ≤ getCacheLineSize m → zlength buf = size →
    ∃ hit bytes m', coreInitiateMemoryAccess comp lock op ca offset buf size modeled m = Ok ((hit, bytes), m') ∧
      usable m' ∧ getCacheLineSize m' = getCacheLineSize m ∧ MainCore.cycle_count m ≤ MainCore.cycle_count m' ∧
      match op with
      | MemOp.WRITE => bytes = buf ∧ ∀ x, contents m' x =
          if decide (ca + offset ≤ x < ca + offset + size) then default 0 (zlookup buf (x - (ca + offset))) else contents m x
      | _ => zlength bytes = size ∧ (∀ i, 0 ≤ i < size → zlookup bytes i = Some (contents m (ca + offset + i))) ∧
          ∀ x, contents m' x = contents m x
      end
}.

Module MainCoreProofs.
Import MainCore.
Section access.
Context {Mem : Type} `{LineMemoryLaws Mem}.
Context (comp : MemComponent.Type_) (lock : MemOp.lock_signal_t) (op : MemOp.mem_op_t) (push_info : bool).
(** The access: its address, its size, the line and the lines it begins and ends
    in. *)
Context (line address size : Z) (Hline : 0 < line < 2 ^ 32) (Haddr : 0 ≤ address) (Hsize : 0 < size < 2 ^ 32)
  (Hend : address + size + line < 2 ^ 64).

Definition begins : Z := address - address `mod` line.
Definition ends : Z := address + size - (address + size) `mod` line.

Lemma aligned_bounds : begins `mod` line = 0 ∧ ends `mod` line = 0 ∧ 0 ≤ begins ≤ address ∧ address < begins + line ∧
  ends ≤ address + size < ends + line ∧ begins ≤ ends.
Proof.
  unfold begins, ends. pose proof (Z.div_mod address line). pose proof (Z.mod_pos_bound address line).
  pose proof (Z.div_mod (address + size) line). pose proof (Z.mod_pos_bound (address + size) line).
  assert (E1 : address - address `mod` line = address `div` line * line) by lia.
  assert (E2 : address + size - (address + size) `mod` line = (address + size) `div` line * line) by lia.
  assert (address `div` line ≤ (address + size) `div` line) by (apply Z.div_le_mono; lia).
  assert (0 ≤ address `div` line) by (apply Z.div_pos; lia).
  rewrite E1, E2, !Z_mod_mult. split_and!; try done; nia.
Qed.

Lemma aligned_next x y : x `mod` line = 0 → y `mod` line = 0 → x < y → x + line ≤ y.
Proof using Hline.
  intros Hx Hy Hxy. apply Z.mod_divide in Hx as [a ->], Hy as [b ->]; [|lia..].
  assert (a < b) by (apply (Z.mul_lt_mono_pos_r line); lia). nia.
Qed.

(** The part of the access inside the line [curr]. *)
Lemma part_of_line curr : curr `mod` line = 0 → begins ≤ curr ≤ ends →
  let lo := Z.max address curr in let hi := Z.min (address + size) (curr + line) in
  curr_offset line address curr = lo - curr ∧ curr_size line address (address + size) curr = hi - lo ∧
  (curr = ends → curr + line > address + size) ∧ (curr ≠ ends → curr + line ≤ ends).
Proof.
  intros Hc Hb. destruct aligned_bounds as (B1 & B2 & B3 & B4 & B5 & B6).
  assert (Ub : u64 (address - address `mod` line) = begins) by (apply u64_small; unfold begins in *; lia).
  assert (Ue : u64 (address + size - (address + size) `mod` line) = ends) by (apply u64_small; unfold ends in *; lia).
  assert (Ho : curr_offset line address curr = Z.max address curr - curr).
  { unfold curr_offset. rewrite Ub. pose proof (Z.mod_pos_bound address line). destruct (Z.eqb_spec curr begins) as [->|Hne].
    - rewrite u32_small by lia. unfold begins in *. lia.
    - pose proof (aligned_next begins curr B1 Hc). lia. }
  split; [done|]. assert (Hlast : curr ≠ ends → curr + line ≤ ends) by (intros Hne; apply aligned_next; [done|done|lia]).
  split; [|split; [intros ->; lia|done]].
  unfold curr_size. rewrite Ue, Ho. destruct (Z.eqb_spec curr ends) as [->|Hne].
  - pose proof (Z.mod_pos_bound (address + size) line). rewrite u32_small; unfold ends in *; lia.
  - specialize (Hlast Hne). rewrite u32_small; lia.
Qed.

(** What the part of the access between two addresses does. *)
Definition performed (lo hi : Z) (buf buf' : list Z) (m m' : Mem) : Prop :=
  usable m' ∧ getCacheLineSize m' = line ∧ cycle_count m ≤ cycle_count m' ∧
  match op with
  | MemOp.WRITE => buf' = buf ∧ ∀ x, contents m' x =
      if decide (lo ≤ x < hi) then default 0 (zlookup buf (x - address)) else contents m x
  | _ => zlength buf' = zlength buf ∧ (∀ x, zlookup buf' (x - address) =
      if decide (lo ≤ x < hi) then Some (contents m x) else zlookup buf (x - address)) ∧
      ∀ x, contents m' x = contents m x
  end.

Lemma performed_none lo buf m m' : usable m' → getCacheLineSize m' = line → cycle_count m ≤ cycle_count m' →
  (∀ x, contents m' x = contents m x) → performed lo lo buf buf m m'.
Proof.
  intros Hu Hl Ht Hm. unfold performed. split_and!; try done.
  destruct op; split_and?; try done; intros x; rewrite ?Hm; by rewrite decide_False by lia.
Qed.
Lemma performed_nothing lo buf m : usable m → getCacheLineSize m = line → performed lo lo buf buf m m.
Proof. intros Hu Hl. by apply performed_none. Qed.

Lemma performed_app lo mid hi b b1 b2 m m1 m2 : lo ≤ mid ≤ hi →
  performed lo mid b b1 m m1 → performed mid hi b1 b2 m1 m2 → performed lo hi b b2 m m2.
Proof.
  intros Hb (U1 & L1 & T1 & P1) (U2 & L2 & T2 & P2). unfold performed. split_and!; [done|done|lia|].
  destruct op.
  1,2: destruct P1 as (S1 & R1 & C1), P2 as (S2 & R2 & C2); split_and!; [congruence| |intros x; by rewrite C2, C1];
    intros x; rewrite R2, R1, C1; repeat case_decide; try done; lia.
  destruct P1 as (-> & C1), P2 as (-> & C2). split; [done|]. intros x. rewrite C2, C1.
  repeat case_decide; try done; lia.
Qed.

Lemma zlookup_splice (buf : list Z) off data i : 0 ≤ off → off + zlength data ≤ zlength buf →
  zlookup (splice buf (Z.to_nat off) data) i =
  if decide (off ≤ i < off + zlength data) then zlookup data (i - off) else zlookup buf i.
Proof.
  unfold zlength. intros Ho Hl. destruct (decide (0 ≤ i)) as [Hi|Hi].
  - rewrite zlookup_nat, lookup_splice by lia. repeat case_decide; try lia.
    + rewrite zlookup_nat by lia. f_equal. lia.
    + by rewrite zlookup_nat by lia.
  - unfold zlookup. rewrite (proj2 (Z.leb_gt 0 i)) by lia. by rewrite decide_False by lia.
Qed.

(** One round of the loop: the access to a line and the update of the buffer. *)
Lemma access_part curr buf m : curr `mod` line = 0 → begins ≤ curr ≤ ends → usable m → getCacheLineSize m = line →
  size ≤ zlength buf →
  let lo := Z.max address curr in let hi := Z.min (address + size) (curr + line) in
  lo < hi → ∃ part hit bytes m' buf', mem_read buf (lo - address) (hi - lo) = Ok part ∧
    coreInitiateMemoryAccess comp lock op curr (lo - curr) part (hi - lo) push_info m = Ok ((hit, bytes), m') ∧
    mem_write buf (lo - address) bytes = Ok buf' ∧ performed lo hi buf buf' m m' ∧ zlength buf' = zlength buf.
Proof.
  intros Hc Hb Hu Hl Hs lo hi Hlt. destruct aligned_bounds as (B1 & B2 & B3 & B4 & B5 & B6).
  eexists. rewrite mem_read_ok by lia. set (part := take _ _).
  assert (Hp : zlength part = hi - lo).
  { unfold part, zlength in *. rewrite length_take, length_drop. lia. }
  assert (Hk : ∀ i, 0 ≤ i < hi - lo → zlookup part i = zlookup buf (i + (lo - address))).
  { intros i Hi. unfold part. rewrite !zlookup_nat by lia. rewrite lookup_take_lt, lookup_drop by lia. f_equal. lia. }
  destruct (access_line comp lock op curr (lo - curr) part (hi - lo) push_info m) as
    (hit & bytes & m' & -> & Hu' & Hl' & Ht & Hop); rewrite ?Hl; try done; try lia.
  exists hit, bytes, m'. replace (curr + (lo - curr)) with lo in Hop by lia.
  assert (Hlen : zlength bytes = hi - lo) by (destruct op; [by destruct Hop..|by destruct Hop as [-> _]]).
  eexists. split_and!; [done|done|apply mem_write_ok; lia| |].
  2: { unfold zlength in *. by rewrite length_splice by lia. }
  unfold performed. rewrite Hl', Hl. split_and!; [done|done|done|].
  assert (Hw : ∀ x, lo ≤ x < hi → zlookup buf (x - address) = zlookup part (x - lo)).
  { intros x Hx. rewrite Hk by lia. f_equal. lia. }
  destruct op.
  1,2: destruct Hop as (_ & Hr & Hm); split_and!;
    [unfold zlength in *; by rewrite length_splice by lia| |done]; intros x; rewrite zlookup_splice by lia;
    repeat case_decide; try lia; try done; replace (x - address - (lo - address)) with (x - lo) by lia;
    rewrite Hr by lia; do 2 f_equal; lia.
  destruct Hop as (-> & Hm). split.
  - apply list_eq. intros i.
    assert (E : ∀ l : list Z, l !! i = zlookup l (Z.of_nat i)) by (intros; by rewrite zlookup_nat, Nat2Z.id by lia).
    rewrite !E, zlookup_splice by lia. case_decide as Hi; [|done]. rewrite Hk by lia. f_equal. lia.
  - intros x. rewrite Hm. replace (lo + (hi - lo)) with hi by lia. case_decide; [|done]. by rewrite Hw.
Qed.

(** The loop, by the line it is at. *)
Lemma access_lines_stop fuel curr head buf n m : getCacheLineSize m = line → ends < curr →
  access_lines fuel comp lock op push_info address (address + size) curr head buf n m = Ok ((n, buf), m).
Proof.
  intros Hl He. destruct aligned_bounds as (_ & _ & B3 & _ & B5 & B6).
  assert (Ue : u64 (address + size - (address + size) `mod` line) = ends) by (apply u64_small; unfold ends in *; lia).
  destruct fuel; cbn [access_lines]; unfold mbind, M_bind, gets, id; rewrite Hl, Ue;
    by rewrite (proj2 (Z.leb_gt curr ends)) by lia.
Qed.

Lemma access_lines_skip fuel curr head buf n m : getCacheLineSize m = line → curr = ends →
  curr_size line address (address + size) curr = 0 →
  access_lines (S fuel) comp lock op push_info address (address + size) curr head buf n m = Ok ((n, buf), m).
Proof.
  intros Hl He Hz. destruct aligned_bounds as (_ & _ & B3 & _ & B5 & B6).
  assert (Ue : u64 (address + size - (address + size) `mod` line) = ends) by (apply u64_small; unfold ends in *; lia).
  cbn [access_lines]. unfold mbind at 1, M_bind at 1, gets, id. rewrite Hl, Ue, Hz.
  rewrite (proj2 (Z.leb_le curr ends)), (proj2 (Z.eqb_eq curr ends)) by lia. cbn [negb andb Z.eqb].
  apply access_lines_stop; [done|]. rewrite u64_small; lia.
Qed.

Lemma access_lines_next fuel curr head buf n m part hit bytes m' buf' : getCacheLineSize m = line → curr ≤ ends →
  curr_size line address (address + size) curr ≠ 0 → 0 ≤ curr →
  mem_read buf head (curr_size line address (address + size) curr) = Ok part →
  coreInitiateMemoryAccess comp lock op curr (curr_offset line address curr) part
    (curr_size line address (address + size) curr) push_info m = Ok ((hit, bytes), m') →
  mem_write buf head bytes = Ok buf' →
  access_lines (S fuel) comp lock op push_info address (address + size) curr head buf n m =
  access_lines fuel comp lock op push_info address (address + size) (curr + line)
    (head + curr_size line address (address + size) curr) buf' (if hit then n else u32 (n + 1)) m'.
Proof.
  intros Hl He Hz Hnn Hr Ha Hw. destruct aligned_bounds as (_ & _ & B3 & _ & B5 & B6).
  assert (Ue : u64 (address + size - (address + size) `mod` line) = ends) by (apply u64_small; unfold ends in *; lia).
  cbn [access_lines]. unfold mbind at 1, M_bind at 1, gets, id. rewrite Hl, Ue.
  rewrite (proj2 (Z.leb_le curr ends)), (proj2 (Z.eqb_neq _ 0) Hz), andb_false_r by lia. cbn [negb].
  rewrite (u64_small (curr + line)) by lia.
  unfold mbind, M_bind, lift. by rewrite Hr, Ha, Hw.
Qed.

(** The loop from the line [curr] on does the rest of the access. *)
Lemma access_lines_performed fuel curr buf n m :
  curr `mod` line = 0 → begins ≤ curr ≤ ends + line → ends + line - curr ≤ Z.of_nat fuel * line →
  usable m → getCacheLineSize m = line → size ≤ zlength buf →
  let lo := Z.min (address + size) (Z.max address curr) in
  ∃ n' buf' m', access_lines fuel comp lock op push_info address (address + size) curr (lo - address) buf n m =
    Ok ((n', buf'), m') ∧ performed lo (address + size) buf buf' m m'.
Proof.
  destruct aligned_bounds as (B1 & B2 & B3 & B4 & B5 & B6).
  revert curr buf n m. induction fuel as [|fuel IH]; intros curr buf n m Hc Hb Hf Hu Hl Hs lo;
    destruct (Z.le_gt_cases curr ends) as [Hle|Hgt]; try pose proof (aligned_next ends curr B2 Hc Hgt).
  - lia.
  - exists n, buf, m. split; [by apply access_lines_stop|].
    replace lo with (address + size) by lia. by apply performed_nothing.
  - destruct (part_of_line curr Hc) as (Eo & Es & Hlast & Hnot); [lia|].
    set (a := Z.max address curr) in *. set (b := Z.min (address + size) (curr + line)) in *.
    destruct (decide (a = b)) as [Hab|Hab].
    { exists n, buf, m. assert (curr = ends) by (destruct (decide (curr = ends)); [done|specialize (Hnot ltac:(done)); lia]).
      split; [apply access_lines_skip; [done|done|rewrite Es; lia]|].
      replace lo with (address + size) by lia. by apply performed_nothing. }
    assert (a < b) by (destruct (decide (curr = ends)) as [->|Hne]; [lia|specialize (Hnot Hne); lia]).
    destruct (access_part curr buf m Hc) as (part & hit & bytes & m1 & buf1 & R & A & W & P & L); [lia|done..|].
    fold a b in R, A, W, P. replace lo with a by lia.
    destruct (IH (curr + line) buf1 (if hit then n else u32 (n + 1)) m1) as (n2 & buf2 & m2 & E & P2);
      [rewrite <- Zplus_mod_idemp_r, Z_mod_same_full, Z.add_0_r; done|
       lia|lia|apply P|apply P|lia|].
    exists n2, buf2, m2. split.
    + erewrite access_lines_next; [|done|done|rewrite Es; lia|lia|rewrite Es; exact R|rewrite Es, Eo; exact A|exact W].
      rewrite <- E, Es. f_equal. lia.
    + eapply performed_app; [|exact P|]; [lia|]. by replace b with (Z.min (address + size) (Z.max address (curr + line))) by lia.
  - exists n, buf, m. split; [by apply access_lines_stop|].
    replace lo with (address + size) by lia. by apply performed_nothing.
Qed.

Lemma enough_rounds : ends + line - begins ≤ Z.of_nat (line_bound line size) * line.
Proof.
  destruct aligned_bounds as (B1 & B2 & B3 & B4 & B5 & B6). unfold line_bound.
  apply Z.mod_divide in B1 as [a Ea], B2 as [b Eb]; [|lia..].
  assert (size < line * (size `div` line) + line).
  { pose proof (Z.div_mod size line). pose proof (Z.mod_pos_bound size line). lia. }
  assert (0 ≤ size `div` line) by (apply Z.div_pos; lia).
  rewrite Z2Nat.id by lia. rewrite Ea, Eb in *. enough (b - a ≤ size `div` line + 1) by nia.
  assert (b * line - a * line < line * (size `div` line) + 2 * line) by lia. nia.
Qed.

(** An access of at least one byte, from a time on. *)
Lemma access_performed time buf m : usable m → getCacheLineSize m = line → size ≤ zlength buf →
  ∃ n buf' m1 m', access time comp lock op address buf size push_info m =
      Ok ((n, u64 (cycle_count m' - time), buf'), m') ∧
    performed address (address + size) buf buf' m1 m' ∧ cycle_count m1 = time ∧ (∀ x, contents m1 x = contents m x).
Proof.
  intros Hu Hl Hs. destruct aligned_bounds as (B1 & B2 & B3 & B4 & B5 & B6).
  unfold access, on_perf, modify, gets, assert, mbind, M_bind.
  set (m1 := setShmemPerfModel (ShmemPerfModel.setCycleCount ShmemPerfModel.APP_THREAD time (getShmemPerfModel m)) m).
  destruct (perf_contents (ShmemPerfModel.setCycleCount ShmemPerfModel.APP_THREAD time (getShmemPerfModel m)) m Hu)
    as (U1 & C1 & L1 & G1). fold m1 in U1, C1, L1, G1. rewrite L1, Hl.
  rewrite (proj2 (Z.eqb_neq line 0)) by lia. cbn [negb].
  rewrite (u64_small (address + size)), (u64_small (address - address `mod` line)) by (unfold begins in *; lia). fold begins.
  assert (T1 : cycle_count m1 = time) by (unfold cycle_count; by rewrite G1).
  destruct (access_lines_performed (line_bound line size) begins buf 0 m1) as (n & buf2 & m2 & E & P);
    [done|lia|apply enough_rounds|done|congruence|done|].
  replace (Z.min (address + size) (Z.max address begins)) with address in E, P by lia.
  rewrite Z.sub_diag in E. unfold mret, M_ret. rewrite E. cbn [fst snd].
  pose proof P as (U2 & L2 & T2 & _). rewrite T1 in T2. rewrite (proj2 (Z.geb_le (cycle_count m2) time)) by lia.
  set (p := ShmemPerfModel.incrTotalMemoryAccessLatency _ _).
  destruct (perf_contents p m2 U2) as (U3 & C3 & L3 & G3).
  assert (T3 : cycle_count (setShmemPerfModel p m2) = cycle_count m2).
  { unfold cycle_count, p, ShmemPerfModel.incrTotalMemoryAccessLatency in *. rewrite G3. by case_match. }
  exists n, buf2, m1, (setShmemPerfModel p m2). rewrite T3. split_and!; [done| |done|done].
  eapply performed_app; [|exact P|apply performed_none]; [lia|done|congruence|lia|done].
Qed.
End access.
End MainCoreProofs.

(** ** Accesses split at the lines *)
Module MainCoreTheorems.
Import MainCore MainCoreProofs.
Section theorems.
Context {Mod Mem : Type} `{LineMemoryLaws Mem} `{!PerformanceModel Mod Mem} `{CoreConfig}.

(** The clock a memory access starts from. *)
Definition start_time (time : Z) (s : CoreState Mod Mem) : Z :=
  if time =? 0 then CoreModel.m_cycle_count (base (model s)) else time.

Lemma access_outcome comp lock op address size buf push_info time (s : CoreState Mod Mem) :
  usable (memory s) → 0 ≤ address → 0 < size < 2 ^ 32 →
  address + size + getCacheLineSize (memory s) < 2 ^ 64 → zlength buf = size →
  ∃ num_misses buf' s',
    initiateMemoryAccess true comp lock op address buf size push_info time s =
      Ok ((num_misses, u64 (cycle_count (memory s') - start_time time s), buf'), s') ∧
    (push_info = false → model s' = model s) ∧ start_time time s ≤ cycle_count (memory s') ∧
    usable (memory s') ∧ getCacheLineSize (memory s') = getCacheLineSize (memory s) ∧
    match op with
    | MemOp.WRITE => buf' = buf ∧ ∀ x, contents (memory s') x =
        if decide (address ≤ x < address + size) then default 0 (zlookup buf (x - address)) else contents (memory s) x
    | _ => zlength buf' = size ∧ (∀ i, 0 ≤ i < size → zlookup buf' i = Some (contents (memory s) (address + i))) ∧
        ∀ x, contents (memory s') x = contents (memory s) x
    end.
Proof.
  intros Hu Ha Hs He Hb. unfold initiateMemoryAccess, mbind, M_bind, assert, gets, id, zoom, mret, M_ret.
  rewrite (proj2 (Z.leb_gt size 0)) by lia. fold (start_time time s).
  destruct (access_performed comp lock op push_info (getCacheLineSize (memory s)) address size (line_size _ Hu) Ha Hs He
    (start_time time s) buf (memory s) Hu eq_refl) as (n & buf' & m1 & m' & -> & (U & L & T & P) & T1 & C1); [lia|].
  rewrite T1 in T. assert (Hk : ∃ s' : CoreState Mod Mem, memory s' = m' ∧ (push_info = false → model s' = model s) ∧
    (when push_info (push op (u64 (cycle_count m' - start_time time s)) address n) ;;
     mret (n, u64 (cycle_count m' - start_time time s), buf')) (s <| memory := m' |>) =
    Ok ((n, u64 (cycle_count m' - start_time time s), buf'), s'))
    by (destruct push_info; eexists; (split_and!; [| |reflexivity]); reflexivity || done).
  destruct Hk as (s' & Em & Eb & Es). exists n, buf', s'. rewrite Em. split_and!; [exact Es|exact Eb|lia|done|done|].
  destruct op.
  1,2: destruct P as (P1 & P2 & P3); split_and!; [lia| |intros x; by rewrite P3, C1]; intros i Hi;
    specialize (P2 (address + i)); replace (address + i - address) with i in P2 by lia;
    by rewrite P2, decide_True, C1 by lia.
  destruct P as (-> & P). split; [done|]. intros x. rewrite P. case_decide; [done|]. apply C1.
Qed.

(** C9: an access of any size to a memory that keeps the laws of an access inside
    one line, that does not come within a line of the end of the 64-bit address
    space, ends, however many lines it touches and wherever in a line it begins
    and ends.  A read fills the buffer with exactly the bytes from [address] on
    and leaves memory as it is; a write stores exactly the bytes of the buffer
    there, and every other byte keeps its value.  Its latency is the time the
    memory's clock advanced. *)
Theorem access_splits comp lock op address size buf push_info time (s : CoreState Mod Mem) :
  usable (memory s) → 0 ≤ address → 0 < size < 2 ^ 32 →
  address + size + getCacheLineSize (memory s) < 2 ^ 64 → zlength buf = size →
  ∃ num_misses buf' s',
    initiateMemoryAccess true comp lock op address buf size push_info time s =
      Ok ((num_misses, u64 (cycle_count (memory s') - start_time time s), buf'), s') ∧
    start_time time s ≤ cycle_count (memory s') ∧
    usable (memory s') ∧ getCacheLineSize (memory s') = getCacheLineSize (memory s) ∧
    match op with
    | MemOp.WRITE => buf' = buf ∧ ∀ x, contents (memory s') x =
        if decide (address ≤ x < address + size) then default 0 (zlookup buf (x - address)) else contents (memory s) x
    | _ => zlength buf' = size ∧ (∀ i, 0 ≤ i < size → zlookup buf' i = Some (contents (memory s) (address + i))) ∧
        ∀ x, contents (memory s') x = contents (memory s) x
    end.
Proof.
  intros Hu Ha Hs He Hb.
  destruct (access_outcome comp lock op address size buf push_info time s) as (n & b & s' & E & _ & T & U & L & P); [done..|].
  by exists n, b, s'.
Qed.
End theorems.

(** A flat memory whose lines have 64 bytes; every access to a line takes two
    cycles. *)
Record FlatMemory := mkFlatMemory { bytes_of : Z → Z; perf_of : ShmemPerfModel.ShmemPerfModel }.
#[global] Instance flat_memory : LineMemory FlatMemory := {|
  getCacheLineSize _ := 64;
  coreInitiateMemoryAccess comp lock op ca offset buf size modeled m :=
    let p := ShmemPerfModel.setCycleCount ShmemPerfModel.APP_THREAD
      (ShmemPerfModel.getCycleCount ShmemPerfModel.APP_THREAD (perf_of m) + 2) (perf_of m) in
    Ok (match op with
        | MemOp.WRITE => ((true, buf), mkFlatMemory (λ x,
            if decide (ca + offset ≤ x < ca + offset + size) then default 0 (zlookup buf (x - (ca + offset)))
            else bytes_of m x) p)
        | _ => ((false, map (λ i, bytes_of m (ca + offset + Z.of_nat i)) (seq 0 (Z.to_nat size))), mkFlatMemory (bytes_of m) p)
        end);
  getShmemPerfModel := perf_of;
  setShmemPerfModel p m := mkFlatMemory (bytes_of m) p
|}.
#[global] Instance flat_laws : LineMemoryLaws FlatMemory.
Proof.
  refine {| contents := bytes_of; usable _ := True |}.
  - done.
  - done.
  - intros comp lock op ca offset buf size modeled m _ _ _ _ Ho Hz _ Hb.
    destruct op; cbn; eexists _, _, _; split_and!; try done; unfold cycle_count; cbn; try lia.
    all: rewrite ?length_map, ?length_seq; unfold zlength; rewrite ?length_map, ?length_seq; try lia.
    all: intros i Hi; rewrite zlookup_nat by lia; rewrite list_lookup_fmap, lookup_seq_lt by lia; cbn; do 2 f_equal; lia.
Defined.

#[local] Instance sample_config : CoreConfig :=
  {| performance_modeling := true; instruction_costs _ := 1; mispredict_penalty := 14 |}.
#[local] Instance sample_instructions : InstructionMemory FlatMemory := instruction_memory true.
Definition sample : CoreState SimpleCoreModel.SimpleCoreModel FlatMemory :=
  mkCoreState (SimpleCoreModel.make (CoreModel.make (float_of_int 1) None))
    (mkFlatMemory (λ x, x `mod` 256) ShmemPerfModel.make).

Lemma access_splits_witness :
  ∃ num_misses buf' s',
    initiateMemoryAccess true MemComponent.L1_DCACHE MemOp.NONE MemOp.READ 60 (replicate 100 0) 100 true 7 sample =
      Ok ((num_misses, u64 (cycle_count (memory s') - start_time 7 sample), buf'), s') ∧
    zlength buf' = 100 ∧ ∀ i, 0 ≤ i < 100 → zlookup buf' i = Some ((60 + i) `mod` 256).
Proof.
  destruct (access_splits MemComponent.L1_DCACHE MemOp.NONE MemOp.READ 60 100 (replicate 100 0) true 7 sample)
    as (n & b & s' & E & _ & _ & _ & L & R & _); [done|lia|lia|cbn; lia|done|].
  exists n, b, s'. split; [exact E|]. split; [exact L|exact R].
Defined.

(** Three lines are touched. *)
Lemma access_counts_lines :
  (λ r, match r with Ok (a, _) => Some a.1 | Fail _ => None end)
    (initiateMemoryAccess true MemComponent.L1_DCACHE MemOp.NONE MemOp.READ 60 (replicate 100 0) 100 true 7 sample) =
  Some (3, 6).
Proof. reflexivity. Qed.
(** In the last line of the address space the address of the next line is zero,
    which is before the end: the loop goes on there, past the end of the buffer. *)
Lemma last_line_overruns :
  initiateMemoryAccess true MemComponent.L1_DCACHE MemOp.NONE MemOp.READ (2 ^ 64 - 32) (replicate 16 0) 16 true 7 sample =
  Fail (ERange "memcpy").
Proof. reflexivity. Qed.
End MainCoreTheorems.
