(* ===== verification/HostCalls.v ===== *)
(** * HostCalls: system calls forwarded to the host

    Models the calls of system/syscall_server.cc that the master passes to the
    host and their clients in tile/syscall_model.cc (x86-64): the client copies the
    arguments out of the simulated memory into a packet, the server unpacks them,
    makes the call and packs the results, and the client copies these back.  The
    host is an interface with its laws.  A field that the source takes off a buffer
    without a test ([get]) is read like one with a test ([>>]); no packet of the
    two sides is short. *)
From S2P Require Import Prelude Utils Double CacheSet Cache Shmem ThreadManager Packetize NetPacket Instruction CoreModels MainCore.
Import Instruction.

(** ** The host *)

(** The calls, with the bytes of what their pointers point to.  [HStat] is [stat]
    or [lstat], by its number. *)
Inductive HostCall : Type :=
  | HOpen (path : list Z) (flags mode : Z)
  | HRead (fd count : Z)
  | HWrite (fd : Z) (buf : list Z) (count : Z)
  | HClose (fd : Z)
  | HLseek (fd offset whence : Z)
  | HAccess (path : list Z) (mode : Z)
  | HStat (number : Z) (path stat_buf : list Z)
  | HFstat (fd : Z) (buf : list Z)
  | HIoctl (fd request : Z) (buf : list Z)
  | HGetpid
  | HReadahead (fd offset count : Z)
  | HPipe
  | HRmdir (path : list Z)
  | HUnlink (path : list Z).

(** [syscall] returns a value and the bytes of the buffer the call fills:
    [read_buf], the [struct stat], the [struct termios] or the two descriptors. *)
Class HostSystem (Host : Type) := {
  sizeof_stat : Z;
  sizeof_termios : Z;
  syscall : HostCall → Host → Z * list Z * Host
}.

(** The numbers of sys/syscall.h. *)
Definition SYS_read : Z := 0.
Definition SYS_write : Z := 1.
Definition SYS_open : Z := 2.
Definition SYS_close : Z := 3.
Definition SYS_stat : Z := 4.
Definition SYS_fstat : Z := 5.
Definition SYS_lstat : Z := 6.
Definition SYS_lseek : Z := 8.
Definition SYS_mmap : Z := 9.
Definition SYS_munmap : Z := 11.
Definition SYS_brk : Z := 12.
Definition SYS_ioctl : Z := 16.
Definition SYS_writev : Z := 20.
Definition SYS_access : Z := 21.
Definition SYS_pipe : Z := 22.
Definition SYS_getpid : Z := 39.
Definition SYS_getcwd : Z := 79.
Definition SYS_rmdir : Z := 84.
Definition SYS_unlink : Z := 87.
Definition SYS_readahead : Z := 187.
Definition SYS_futex : Z := 202.
Definition SYS_sched_setaffinity : Z := 203.
Definition SYS_sched_getaffinity : Z := 204.
Definition SYS_clock_gettime : Z := 228.
Definition TCGETS : Z := 21505.

Definition s64 : Z → Z := sint 64.
Abbreviation Buffer := UnstructuredBuffer.UnstructuredBuffer.

(** ** The server: system/syscall_server.cc *)
Module HostServer.

(** The buffers, which the server shares with the master, and the host. *)
Record Server (Host : Type) := mkServer { m_recv_buff : Buffer; m_send_buff : Buffer; host : Host }.
Arguments mkServer {Host}.
Arguments m_recv_buff {Host}.
Arguments m_send_buff {Host}.
Arguments host {Host}.
#[global] Instance eta_Server Host : Eta (Server Host) := λ s, mkServer (m_recv_buff s) (m_send_buff s) (host s).

Section server.
Context {Host : Type} `{HostSystem Host}.
Abbreviation Sv := (Server Host).
(** The calls that are handled inside the master: memory, futexes, the current
    directory and affinity. *)
Context (handle_other : Z → M Sv unit).

Definition recv {A} (rd : Buffer → res (A * Buffer)) : M Sv A := λ s,
  match rd (m_recv_buff s) with
  | Ok (x, b) => Ok (x, s <| m_recv_buff := b |>)
  | Fail e => Fail e
  end.
Definition int_ : M Sv Z := recv UnstructuredBuffer.read_s32.
Definition uint32 : M Sv Z := recv UnstructuredBuffer.read_u32.
Definition uint64 : M Sv Z := recv UnstructuredBuffer.read_u64.
Definition off_t : M Sv Z := recv (UnstructuredBuffer.read s64 8).
(** [operator>>] of a buffer: its size is converted to [int]. *)
Definition buffer (size : Z) : M Sv (list Z) := recv (UnstructuredBuffer.read_buffer (s32 size)).
Definition put (n : nat) (x : Z) : M Sv unit := modify (λ s, s <| m_send_buff ::= UnstructuredBuffer.put n x |>).
Definition put_buffer (data : list Z) (size : Z) : M Sv unit :=
  assert (0 <=? s32 size) "UnstructuredBuffer::operator<<" ;;
  b ← lift (mem_read data 0 (s32 size)) ;
  modify (λ s, s <| m_send_buff ::= UnstructuredBuffer.put_bytes b |>).
Definition call (c : HostCall) : M Sv (Z * list Z) := λ s,
  let '(ret, out, h) := syscall c (host s) in Ok ((ret, out), s <| host := h |>).
Definition recv_size (n : Z) (site : string) : M Sv unit :=
  s ← gets id ; assert (UnstructuredBuffer.size (m_recv_buff s) =? n) site.

(** The path is copied to the scratch space, or to a new buffer when it is
    longer. *)
Definition marshallOpenCall : M Sv unit :=
  len_fname ← uint32 ; path ← buffer len_fname ; flags ← int_ ; mode ← uint64 ;
  r ← call (HOpen path flags mode) ; put 4 r.1.

Definition marshallReadCall : M Sv unit :=
  recv_size 12 "SyscallServer::marshallReadCall" ;;
  fd ← int_ ; count ← uint64 ;
  r ← call (HRead fd count) ;
  let bytes := s32 r.1 in
  put 4 bytes ;;
  if bytes =? -1 then skip else put_buffer r.2 bytes.

Definition marshallWriteCall : M Sv unit :=
  fd ← int_ ; count ← uint64 ; buf ← buffer count ;
  r ← call (HWrite fd buf count) ; put 4 r.1.

(** The data of the [iovec]s are already gathered: this is a [write]. *)
Definition marshallWritevCall : M Sv unit :=
  fd ← int_ ; count ← uint64 ; buf ← buffer count ;
  r ← call (HWrite fd buf count) ; put 8 r.1.

Definition marshallCloseCall : M Sv unit := fd ← int_ ; r ← call (HClose fd) ; put 4 r.1.

Definition marshallLseekCall : M Sv unit :=
  fd ← int_ ; offset ← off_t ; whence ← int_ ; r ← call (HLseek fd offset whence) ; put 8 r.1.

Definition marshallAccessCall : M Sv unit :=
  len_fname ← uint32 ; path ← buffer len_fname ; mode ← int_ ; r ← call (HAccess path mode) ; put 4 r.1.

Definition marshallStatCall (syscall_number : Z) : M Sv unit :=
  len_fname ← uint32 ;
  recv_size (s32 (u64 (len_fname + sizeof_stat))) "SyscallServer::marshallStatCall" ;;
  path ← buffer len_fname ; stat_buf ← buffer sizeof_stat ;
  r ← call (HStat syscall_number path stat_buf) ;
  put 4 r.1 ;; put_buffer r.2 sizeof_stat.

Definition marshallFstatCall : M Sv unit :=
  recv_size (4 + sizeof_stat) "SyscallServer::marshallFstatCall" ;;
  fd ← int_ ; buf ← buffer sizeof_stat ;
  r ← call (HFstat fd buf) ;
  put 4 r.1 ;; put_buffer r.2 sizeof_stat.

Definition marshallIoctlCall : M Sv unit :=
  fd ← int_ ; request ← int_ ; buf ← buffer sizeof_termios ;
  r ← call (HIoctl fd request buf) ;
  put 4 r.1 ;; put_buffer r.2 sizeof_termios.

Definition marshallGetpidCall : M Sv unit := r ← call HGetpid ; put 4 r.1.

Definition marshallReadaheadCall : M Sv unit :=
  fd ← int_ ; offset ← off_t ; count ← uint64 ; r ← call (HReadahead fd offset count) ; put 4 r.1.

Definition marshallPipeCall : M Sv unit := r ← call HPipe ; put 4 r.1 ;; put_buffer r.2 8.

Definition marshallRmdirCall : M Sv unit :=
  len_fname ← uint32 ; path ← buffer len_fname ; r ← call (HRmdir path) ; put 4 r.1.
Definition marshallUnlinkCall : M Sv unit :=
  len_fname ← uint32 ; path ← buffer len_fname ; r ← call (HUnlink path) ; put 4 r.1.

Definition handleSyscall : M Sv unit :=
  syscall_number ← uint64 ;
  if syscall_number =? SYS_open then marshallOpenCall
  else if syscall_number =? SYS_read then marshallReadCall
  else if syscall_number =? SYS_write then marshallWriteCall
  else if syscall_number =? SYS_writev then marshallWritevCall
  else if syscall_number =? SYS_close then marshallCloseCall
  else if syscall_number =? SYS_lseek then marshallLseekCall
  else if syscall_number =? SYS_access then marshallAccessCall
  else if (syscall_number =? SYS_stat) || (syscall_number =? SYS_lstat) then marshallStatCall syscall_number
  else if syscall_number =? SYS_fstat then marshallFstatCall
  else if syscall_number =? SYS_ioctl then marshallIoctlCall
  else if syscall_number =? SYS_getpid then marshallGetpidCall
  else if syscall_number =? SYS_readahead then marshallReadaheadCall
  else if syscall_number =? SYS_pipe then marshallPipeCall
  else if syscall_number =? SYS_rmdir then marshallRmdirCall
  else if syscall_number =? SYS_unlink then marshallUnlinkCall
  else if bool_decide (syscall_number ∈ [SYS_mmap; SYS_munmap; SYS_brk; SYS_futex; SYS_getcwd; SYS_sched_getaffinity])
  then handle_other syscall_number
  else fail (ELog "Unhandled syscall number").

(** [processPacket] of a system call: the reply is what is in the buffer at the
    end. *)
Definition serve (data : list Z) : M Sv (list Z) :=
  modify (λ s, s <| m_send_buff := UnstructuredBuffer.clear |>
    <| m_recv_buff := UnstructuredBuffer.put_bytes data UnstructuredBuffer.clear |>) ;;
  msg_type ← int_ ;
  assert (msg_type =? code_of MCP_MESSAGE_SYS_CALL) "MCP_MESSAGE_SYS_CALL" ;;
  handleSyscall ;;
  gets m_send_buff.
End server.
End HostServer.

(** ** The client: tile/syscall_model.cc *)
Module SyscallMdl.

Record syscall_args_t := mkArgs { arg0 : Z; arg1 : Z; arg2 : Z; arg3 : Z; arg4 : Z; arg5 : Z }.

Record SyscallMdl := mkSyscallMdl {
  m_syscall_number : Z;
  m_called_enter : bool;
  m_ret_val : Z;
  m_saved_args : syscall_args_t;
  m_scratchpad : list (list Z);
  m_send_buff : Buffer;
  m_recv_buff : Buffer
}.
#[global] Instance eta_SyscallMdl : Eta SyscallMdl := λ m, mkSyscallMdl
  (m_syscall_number m) (m_called_enter m) (m_ret_val m) (m_saved_args m) (m_scratchpad m) (m_send_buff m) (m_recv_buff m).

Definition m_scratchpad_size : Z := 512.
Definition m_num_syscall_args : Z := 6.

(** The constructor; the members it leaves out have no value yet. *)
Definition make (number : Z) (args : syscall_args_t) (scratchpad : list (list Z)) : SyscallMdl :=
  mkSyscallMdl number false 0 args scratchpad UnstructuredBuffer.clear UnstructuredBuffer.clear.

Definition saveSyscallNumber (n : Z) (m : SyscallMdl) : SyscallMdl := m <| m_syscall_number := n |>.
Definition retrieveSyscallNumber (m : SyscallMdl) : Z := m_syscall_number m.
Definition saveSyscallArgs (args : syscall_args_t) (m : SyscallMdl) : SyscallMdl := m <| m_saved_args := args |>.
Definition retrieveSyscallArgs (m : SyscallMdl) : syscall_args_t := m_saved_args m.

(** [runExit] replaces the result of the call by the one of the model. *)
Definition runExit (old_return : Z) : M SyscallMdl Z :=
  m ← gets id ;
  if m_called_enter m then modify (λ m, m <| m_called_enter := false |>) ;; mret (m_ret_val m)
  else mret old_return.

(** The client, its core with its state, and the master. *)
Record System (Mod Mem Srv : Type) := mkSystem {
  mdl : SyscallMdl; core : CoreState Mod Mem; state : Core.State; server : Srv
}.
Arguments mkSystem {Mod Mem Srv}.
Arguments mdl {Mod Mem Srv}.
Arguments core {Mod Mem Srv}.
Arguments state {Mod Mem Srv}.
Arguments server {Mod Mem Srv}.
#[global] Instance eta_System Mod Mem Srv : Eta (System Mod Mem Srv) := λ s, mkSystem (mdl s) (core s) (state s) (server s).

Section client.
Context {Mod Mem Srv : Type} `{LineMemory Mem} `{!PerformanceModel Mod Mem} `{CoreConfig}.
Context (isSimulatingSharedMemory : bool).
(** The master: a packet and the packet it answers with. *)
Context (serve : list Z → M Srv (list Z)).
(** The sizes of the structures of the system's headers. *)
Context (sizeof_stat sizeof_termios : Z).
(** A bound for the length of strings; the bytes of a variable that is not set. *)
Context (max_string : nat) (indeterminate : list Z).
(** A call the simulator makes itself, without shared memory; the two calls that
    pass addresses of the master's process. *)
Context (host_syscall : Z → list Z → M (System Mod Mem Srv) Z)
  (marshallGetCwdCall marshallSchedGetAffinityCall : syscall_args_t → M (System Mod Mem Srv) Z).
Abbreviation Sy := (System Mod Mem Srv).

Definition with_mdl {A} (m : M SyscallMdl A) : M Sy A := zoom mdl (λ m s, s <| mdl := m |>) m.
(** [accessMemory] with a buffer of [size] bytes; its size is an [UInt32]. *)
Definition read_memory (addr size : Z) : M Sy (list Z) :=
  r ← zoom core (λ c s, s <| core := c |>)
        (MainCore.accessMemory isSimulatingSharedMemory MemOp.NONE MemOp.READ addr
           (replicate (Z.to_nat size) 0) (u32 size) false) ;
  mret r.2.
Definition write_memory (addr : Z) (data : list Z) (size : Z) : M Sy unit :=
  zoom core (λ c s, s <| core := c |>)
    (MainCore.accessMemory isSimulatingSharedMemory MemOp.NONE MemOp.WRITE addr data (u32 size) false) ;; skip.

(** [operator<<] and [operator>>] on the two buffers. *)
Definition put (n : nat) (x : Z) : M Sy unit :=
  with_mdl (modify (λ m, m <| m_send_buff ::= UnstructuredBuffer.put n x |>)).
Definition put_buffer (data : list Z) (size : Z) : M Sy unit :=
  assert (0 <=? s32 size) "UnstructuredBuffer::operator<<" ;;
  b ← lift (mem_read data 0 (s32 size)) ;
  with_mdl (modify (λ m, m <| m_send_buff ::= UnstructuredBuffer.put_bytes b |>)).
Definition recv {A} (rd : Buffer → res (A * Buffer)) : M Sy A :=
  with_mdl (λ m, match rd (m_recv_buff m) with
                 | Ok (x, b) => Ok (x, m <| m_recv_buff := b |>)
                 | Fail e => Fail e
                 end).
Definition int_ : M Sy Z := recv UnstructuredBuffer.read_s32.
Definition uint64 : M Sy Z := recv UnstructuredBuffer.read_u64.
Definition buffer (size : Z) : M Sy (list Z) := recv (UnstructuredBuffer.read_buffer (s32 size)).
Definition recv_size : M Sy Z := gets (λ s, UnstructuredBuffer.size (m_recv_buff (mdl s))).

(** [netSend] to the master and [netRecv] of its reply, whose data are put into
    the receive buffer; the length of the reply. *)
Definition exchange : M Sy Z :=
  s ← gets id ;
  data ← zoom server (λ v s, s <| server := v |>) (serve (m_send_buff (mdl s))) ;
  with_mdl (modify (λ m, m <| m_recv_buff ::= UnstructuredBuffer.put_bytes data |>)) ;;
  mret (zlength data).

(** [getStrLen]. *)
Fixpoint str_len (fuel : nat) (ptr len : Z) : M Sy Z :=
  match fuel with
  | O => fail (EFuel "getStrLen")
  | S fuel =>
    c ← read_memory ptr 1 ;
    if bool_decide (c = [0]) then mret len else str_len fuel (u64 (ptr + 1)) (u32 (len + 1))
  end.
Definition getStrLen (str : Z) : M Sy Z := str_len max_string str 0.
(** The name of a file: its length with the terminator, and its bytes. *)
Definition read_path (path : Z) : M Sy (Z * list Z) :=
  n ← getStrLen path ;
  let len_fname := u32 (n + 1) in
  path_buf ← read_memory path len_fname ;
  mret (len_fname, path_buf).

(** *** The calls *)

Definition marshallOpenCall (args : syscall_args_t) : M Sy Z :=
  let flags := s32 (arg1 args) in let mode := u64 (arg2 args) in
  p ← read_path (arg0 args) ;
  put 4 p.1 ;; put_buffer p.2 p.1 ;; put 4 flags ;; put 8 mode ;;
  len ← exchange ;
  assert (len =? 4) "SyscallMdl::marshallOpenCall" ;;
  status ← int_ ; mret (u64 status).

Definition marshallReadCall (args : syscall_args_t) : M Sy Z :=
  put 4 (s32 (arg0 args)) ;; put 8 (arg2 args) ;;
  len ← exchange ;
  assert (len >=? 4) "SyscallMdl::marshallReadCall" ;;
  bytes ← int_ ;
  n ← recv_size ;
  (if bytes =? -1 then assert (n =? 0) "SyscallMdl::marshallReadCall"
   else
     assert (n =? bytes) "SyscallMdl::marshallReadCall" ;;
     read_buf ← buffer bytes ;
     write_memory (arg1 args) read_buf bytes) ;;
  mret (u64 bytes).

Definition marshallWriteCall (args : syscall_args_t) : M Sy Z :=
  let count := arg2 args in
  write_buf ← read_memory (arg1 args) count ;
  put 4 (s32 (arg0 args)) ;; put 8 count ;; put_buffer write_buf count ;;
  len ← exchange ;
  assert (len =? 4) "SyscallMdl::marshallWriteCall" ;;
  status ← int_ ; mret (u64 status).

(** The loop of [marshallWritevCall] that gathers the data; an [iovec] is an
    address and a length. *)
Fixpoint gather (iov : list (Z * Z)) (buf : list Z) (running_count : Z) : M Sy (list Z) :=
  match iov with
  | [] => mret buf
  | (iov_base, iov_len) :: iov =>
    part ← read_memory iov_base (u32 iov_len) ;
    buf ← lift (mem_write buf running_count part) ;
    gather iov buf (s32 (running_count + iov_len))
  end.
Definition iovec (bytes : list Z) (i : nat) : Z * Z :=
  (UnstructuredBuffer.of_bytes (take 8 (drop (16 * i) bytes)), UnstructuredBuffer.of_bytes (take 8 (drop (16 * i + 8) bytes))).
Definition marshallWritevCall (args : syscall_args_t) : M Sy Z :=
  let iovcnt := s32 (arg2 args) in
  assert (0 <=? iovcnt) "new struct iovec [iovcnt]" ;;
  iov_bytes ← read_memory (arg1 args) (u64 (iovcnt * 16)) ;
  let iov := map (iovec iov_bytes) (seq 0 (Z.to_nat iovcnt)) in
  let count := foldl (λ c v, u64 (c + v.2)) 0 iov in
  buf ← gather iov (replicate (Z.to_nat count) 0) 0 ;
  put 4 (s32 (arg0 args)) ;; put 8 count ;; put_buffer buf count ;;
  len ← exchange ;
  assert (len =? 8) "SyscallMdl::marshallWritevCall" ;;
  uint64.

Definition marshallCloseCall (args : syscall_args_t) : M Sy Z :=
  put 4 (s32 (arg0 args)) ;;
  len ← exchange ;
  assert (len =? 4) "SyscallMdl::marshallCloseCall" ;;
  status ← int_ ; mret (u64 status).

Definition marshallLseekCall (args : syscall_args_t) : M Sy Z :=
  put 4 (s32 (arg0 args)) ;; put 8 (s64 (arg1 args)) ;; put 4 (s32 (arg2 args)) ;;
  len ← exchange ;
  assert (len =? 8) "SyscallMdl::marshallLseekCall" ;;
  ret_val ← recv (UnstructuredBuffer.read s64 8) ; mret (u64 ret_val).

Definition marshallAccessCall (args : syscall_args_t) : M Sy Z :=
  p ← read_path (arg0 args) ;
  put 4 p.1 ;; put_buffer p.2 p.1 ;; put 4 (s32 (arg1 args)) ;;
  exchange ;;
  result ← int_ ; mret (u64 result).

(** The replies with a structure that is written to memory. *)
Definition structure_reply (addr size : Z) : M Sy Z :=
  result ← int_ ;
  b ← buffer size ;
  write_memory addr b size ;;
  mret (u64 result).

Definition marshallStatCall (args : syscall_args_t) : M Sy Z :=
  p ← read_path (arg0 args) ;
  stat_buf ← read_memory (arg1 args) sizeof_stat ;
  put 4 p.1 ;; put_buffer p.2 p.1 ;; put_buffer stat_buf sizeof_stat ;;
  exchange ;;
  n ← recv_size ;
  assert (n =? 4 + sizeof_stat) "SyscallMdl::marshallStatCall" ;;
  structure_reply (arg1 args) sizeof_stat.

Definition marshallFstatCall (args : syscall_args_t) : M Sy Z :=
  buf ← read_memory (arg1 args) sizeof_stat ;
  put 4 (s32 (arg0 args)) ;; put_buffer buf sizeof_stat ;;
  exchange ;;
  n ← recv_size ;
  assert (n =? 4 + sizeof_stat) "SyscallMdl::marshallFstatCall" ;;
  structure_reply (arg1 args) sizeof_stat.

Definition marshallIoctlCall (args : syscall_args_t) : M Sy Z :=
  let request := s32 (arg1 args) in
  (if request =? TCGETS then skip else fail (ELog "ioctl() system call, only TCGETS request supported")) ;;
  buf ← read_memory (arg2 args) sizeof_termios ;
  put 4 (s32 (arg0 args)) ;; put 4 request ;; put_buffer buf sizeof_termios ;;
  exchange ;;
  structure_reply (arg2 args) sizeof_termios.

Definition marshallGetpidCall (args : syscall_args_t) : M Sy Z :=
  exchange ;; result ← int_ ; mret (u64 result).

(** The offset is put together from the low halves of two arguments. *)
Definition marshallReadaheadCall (args : syscall_args_t) : M Sy Z :=
  let offset := s64 (Z.shiftl (u32 (arg1 args)) 32 + u32 (arg2 args)) in
  put 4 (s32 (arg0 args)) ;; put 8 offset ;; put 8 (arg3 args) ;;
  exchange ;;
  result ← int_ ; mret (u64 result).

(** The descriptors are written even when there are none. *)
Definition marshallPipeCall (args : syscall_args_t) : M Sy Z :=
  exchange ;;
  result ← int_ ;
  fd_buff ← (if result =? 0 then buffer 8 else mret indeterminate) ;
  write_memory (arg0 args) fd_buff 8 ;;
  mret (u64 result).

Definition marshallUnlinkCall (args : syscall_args_t) : M Sy Z :=
  p ← read_path (arg0 args) ;
  put 4 p.1 ;; put_buffer p.2 p.1 ;;
  len ← exchange ;
  assert (len =? 4) "SyscallMdl::marshallUnlinkCall" ;;
  status ← int_ ; mret (u64 status).
Definition marshallRmdirCall : syscall_args_t → M Sy Z := marshallUnlinkCall.

(** *** Memory and futexes *)

Definition marshallMmapCall (args : syscall_args_t) : M Sy Z :=
  if isSimulatingSharedMemory then
    put 8 (arg0 args) ;; put 8 (arg1 args) ;; put 4 (s32 (arg2 args)) ;; put 4 (s32 (arg3 args)) ;;
    put 4 (s32 (arg4 args)) ;; put 8 (s64 (arg5 args)) ;;
    exchange ;; uint64
  else host_syscall SYS_mmap [arg0 args; arg1 args; s32 (arg2 args); s32 (arg3 args); s32 (arg4 args); s64 (arg5 args)].

Definition marshallMunmapCall (args : syscall_args_t) : M Sy Z :=
  if isSimulatingSharedMemory then
    put 8 (arg0 args) ;; put 8 (arg1 args) ;;
    exchange ;; ret_val ← int_ ; mret (u64 ret_val)
  else host_syscall SYS_munmap [arg0 args; arg1 args].

Definition marshallBrkCall (args : syscall_args_t) : M Sy Z :=
  if isSimulatingSharedMemory then put 8 (arg0 args) ;; exchange ;; uint64
  else host_syscall SYS_brk [arg0 args].

Definition set_state (st : Core.State) : M Sy unit := modify (λ s, s <| state := st |>).
Definition marshallFutexCall (args : syscall_args_t) : M Sy Z :=
  if isSimulatingSharedMemory then
    s ← gets id ;
    let core_frequency := CoreModel.m_frequency (base (model (core s))) in
    start_time ← lift (convertCycleCount (CoreModel.m_cycle_count (base (model (core s)))) core_frequency (float_of_int 1)) ;
    put 8 (arg0 args) ;; put 4 (s32 (arg1 args)) ;; put 4 (s32 (arg2 args)) ;; put 8 (arg3 args) ;;
    put 8 (arg4 args) ;; put 4 (s32 (arg5 args)) ;; put 8 start_time ;;
    set_state Core.STALLED ;;
    exchange ;;
    set_state Core.WAKING_UP ;;
    ret_val ← int_ ; end_time ← uint64 ;
    (if end_time >? start_time then
       cycles_elapsed ← lift (convertCycleCount (end_time - start_time) (float_of_int 1) core_frequency) ;
       modify (λ s, s <| core ::= λ c, c <| model ::= λ m, set_base
         (CoreModel.queueDynamicInstruction performance_modeling (SyncInstruction cycles_elapsed) (base m)) m |> |>)
     else skip) ;;
    mret (u64 ret_val)
  else host_syscall SYS_futex [arg0 args; s32 (arg1 args); s32 (arg2 args); arg3 args; arg4 args; s32 (arg5 args)].

(** *** Time *)

(** The conversion to [long]. *)
Definition to_s64 (x : double) : res Z :=
  match x with
  | S754_zero _ => Ok 0
  | S754_finite s m e =>
    let z := if s then - floor_mag m e else floor_mag m e in
    if (- 2 ^ 63 <=? z) && (z <? 2 ^ 63) then Ok z else Fail (ERange "handleClockGettimeCall")
  | _ => Fail (ERange "handleClockGettimeCall")
  end.
(** The seconds and nanoseconds after some cycles: the product is one of
    [float]s. *)
Definition elapsed (cycles : Z) (frequency : float) : res (Z * Z) :=
  let elapsed_time := double_of_float
    (fmul (fdiv (float_of_int 1) (fmul frequency (float_of_int 1000000000))) (float_of_int cycles)) in
  tv_sec ← to_s64 (dfloor elapsed_time) ;
  tv_nsec ← to_s64 (dmul (dsub elapsed_time (dfloor elapsed_time)) (of_int 1000000000)) ;
  Ok (tv_sec, tv_nsec).
Definition handleClockGettimeCall (args : syscall_args_t) : M Sy Z :=
  if negb (s32 (arg0 args) =? 0) then mret (u64 (-1))
  else
    s ← gets id ;
    t ← lift (elapsed (CoreModel.m_cycle_count (base (model (core s)))) (CoreModel.m_frequency (base (model (core s))))) ;
    write_memory (arg1 args) (UnstructuredBuffer.bytes_of 8 t.1 ++ UnstructuredBuffer.bytes_of 8 t.2) 16 ;;
    mret 0.

(** *** Entry and exit *)

Definition marshallSchedSetAffinityCall (args : syscall_args_t) : M Sy Z := fail (EAssert "false").

Definition handler (number : Z) : option (syscall_args_t → M Sy Z) :=
  if number =? SYS_open then Some marshallOpenCall
  else if number =? SYS_read then Some marshallReadCall
  else if number =? SYS_write then Some marshallWriteCall
  else if number =? SYS_writev then Some marshallWritevCall
  else if number =? SYS_close then Some marshallCloseCall
  else if number =? SYS_lseek then Some marshallLseekCall
  else if number =? SYS_access then Some marshallAccessCall
  else if (number =? SYS_stat) || (number =? SYS_lstat) then Some marshallStatCall
  else if number =? SYS_fstat then Some marshallFstatCall
  else if number =? SYS_ioctl then Some marshallIoctlCall
  else if number =? SYS_getpid then Some marshallGetpidCall
  else if number =? SYS_readahead then Some marshallReadaheadCall
  else if number =? SYS_pipe then Some marshallPipeCall
  else if number =? SYS_mmap then Some marshallMmapCall
  else if number =? SYS_munmap then Some marshallMunmapCall
  else if number =? SYS_brk then Some marshallBrkCall
  else if number =? SYS_futex then Some marshallFutexCall
  else if number =? SYS_rmdir then Some marshallRmdirCall
  else if number =? SYS_unlink then Some marshallUnlinkCall
  else if number =? SYS_clock_gettime then Some handleClockGettimeCall
  else if number =? SYS_getcwd then Some marshallGetCwdCall
  else if number =? SYS_sched_setaffinity then Some marshallSchedSetAffinityCall
  else if number =? SYS_sched_getaffinity then Some marshallSchedGetAffinityCall
  else None.

(** [runEnter] makes the call and returns the number of the call the program
    shall make instead. *)
Definition runEnter (syscall_number : Z) (args : syscall_args_t) : M Sy Z :=
  with_mdl (modify (λ m, m <| m_recv_buff := UnstructuredBuffer.clear |> <| m_send_buff := UnstructuredBuffer.clear |>)) ;;
  put 4 (code_of MCP_MESSAGE_SYS_CALL) ;; put 8 syscall_number ;;
  match handler syscall_number with
  | Some h =>
    with_mdl (modify (λ m, m <| m_called_enter := true |>)) ;;
    ret ← h args ;
    with_mdl (modify (λ m, m <| m_ret_val := ret |>))
  | None => skip
  end ;;
  s ← gets id ;
  mret (if m_called_enter (mdl s) then SYS_getpid else syscall_number).

(** Arguments in the scratch pad. *)
Definition copyArgToBuffer (arg_num arg_addr size : Z) : M Sy unit :=
  assert (arg_num <? m_num_syscall_args) "SyscallMdl::copyArgToBuffer" ;;
  assert (size <? m_scratchpad_size) "SyscallMdl::copyArgToBuffer" ;;
  s ← gets id ;
  scratchpad ← lift (vget "m_scratchpad" (m_scratchpad (mdl s)) arg_num) ;
  data ← read_memory arg_addr size ;
  scratchpad ← lift (mem_write scratchpad 0 data) ;
  l ← lift (vset "m_scratchpad" (m_scratchpad (mdl s)) arg_num scratchpad) ;
  with_mdl (modify (λ m, m <| m_scratchpad := l |>)).
Definition copyArgFromBuffer (arg_num arg_addr size : Z) : M Sy unit :=
  assert (arg_num <? m_num_syscall_args) "SyscallMdl::copyArgFromBuffer" ;;
  assert (size <? m_scratchpad_size) "SyscallMdl::copyArgFromBuffer" ;;
  s ← gets id ;
  scratchpad ← lift (vget "m_scratchpad" (m_scratchpad (mdl s)) arg_num) ;
  data ← lift (mem_read scratchpad 0 size) ;
  write_memory arg_addr data size.
End client.
End SyscallMdl.
