(* ===== verification/HostProofs.v ===== *)
(** * HostProofs: packets of forwarded system calls

    The laws of the host, the packets of every call and the proof that the server
    makes the call a packet asks for; memory operations of the client. *)
From S2P Require Import Prelude Utils Double CacheSet Cache Shmem ThreadManager Packetize NetPacket Instruction CoreModels MainCore HostCalls.
Import Instruction.
Import UnstructuredBuffer (bytes_of, of_bytes).

(** ** What the host promises *)

(** The values a call returns and the length of what it fills. *)
Definition result_ok (c : HostCall) (r : Z) : Prop :=
  match c with
  | HLseek _ _ _ => - 2 ^ 63 ≤ r < 2 ^ 63
  | HRead _ count | HWrite _ _ count => 0 ≤ count → -1 ≤ r ≤ count ∧ r < 2 ^ 31
  | _ => - 2 ^ 31 ≤ r < 2 ^ 31
  end.
Definition filled_ok (stat termios : Z) (c : HostCall) (r : Z) (out : list Z) : Prop :=
  match c with
  | HRead _ _ => r ≤ zlength out
  | HStat _ _ _ | HFstat _ _ => zlength out = stat
  | HIoctl _ _ _ => zlength out = termios
  | HPipe => zlength out = 8
  | _ => True
  end.
Class HostLaws (Host : Type) `{HostSystem Host} := {
  stat_size : 0 < sizeof_stat (Host := Host) < 65536;
  termios_size : 0 < sizeof_termios (Host := Host) < 65536;
  host_result c (h : Host) : result_ok c (syscall c h).1.1;
  host_filled c (h : Host) : filled_ok (sizeof_stat (Host := Host)) (sizeof_termios (Host := Host)) c (syscall c h).1.1 (syscall c h).1.2
}.

(** ** Packets *)

(** The arguments in a request, and when they fit their fields. *)
Definition body (c : HostCall) : list Z :=
  match c with
  | HOpen p flags mode => bytes_of 4 (zlength p) ++ p ++ bytes_of 4 flags ++ bytes_of 8 mode
  | HRead fd count => bytes_of 4 fd ++ bytes_of 8 count
  | HWrite fd b count => bytes_of 4 fd ++ bytes_of 8 count ++ b
  | HClose fd => bytes_of 4 fd
  | HLseek fd offset whence => bytes_of 4 fd ++ bytes_of 8 offset ++ bytes_of 4 whence
  | HAccess p mode => bytes_of 4 (zlength p) ++ p ++ bytes_of 4 mode
  | HStat _ p b => bytes_of 4 (zlength p) ++ p ++ b
  | HFstat fd b => bytes_of 4 fd ++ b
  | HIoctl fd request b => bytes_of 4 fd ++ bytes_of 4 request ++ b
  | HReadahead fd offset count => bytes_of 4 fd ++ bytes_of 8 offset ++ bytes_of 8 count
  | HRmdir p | HUnlink p => bytes_of 4 (zlength p) ++ p
  | HGetpid | HPipe => []
  end.
Definition is_int (x : Z) : Prop := - 2147483648 ≤ x < 2147483648.
Definition is_u64 (x : Z) : Prop := 0 ≤ x < 18446744073709551616.
Definition is_s64 (x : Z) : Prop := - 9223372036854775808 ≤ x < 9223372036854775808.
(** A file name, short enough for its packet. *)
Definition is_name (p : list Z) : Prop := zlength p < 2147400000.
Definition fits (stat termios : Z) (c : HostCall) : Prop :=
  match c with
  | HOpen p flags mode => is_name p ∧ is_int flags ∧ is_u64 mode
  | HRead fd count => is_int fd ∧ is_u64 count
  | HWrite fd b count => is_int fd ∧ count = zlength b ∧ count < 2147483648
  | HClose fd => is_int fd
  | HLseek fd offset whence => is_int fd ∧ is_s64 offset ∧ is_int whence
  | HAccess p mode => is_name p ∧ is_int mode
  | HStat _ p b => is_name p ∧ zlength b = stat
  | HFstat fd b => is_int fd ∧ zlength b = stat
  | HIoctl fd request b => is_int fd ∧ is_int request ∧ zlength b = termios
  | HReadahead fd offset count => is_int fd ∧ is_s64 offset ∧ is_u64 count
  | HRmdir p | HUnlink p => is_name p
  | HGetpid | HPipe => True
  end.
(** The number of a call; [HWrite] is also what [writev] becomes. *)
Definition numbered (number : Z) (c : HostCall) : Prop :=
  match c with
  | HOpen _ _ _ => number = SYS_open | HRead _ _ => number = SYS_read
  | HWrite _ _ _ => number = SYS_write ∨ number = SYS_writev
  | HClose _ => number = SYS_close | HLseek _ _ _ => number = SYS_lseek | HAccess _ _ => number = SYS_access
  | HStat n _ _ => number = n ∧ (n = SYS_stat ∨ n = SYS_lstat) | HFstat _ _ => number = SYS_fstat
  | HIoctl _ _ _ => number = SYS_ioctl | HGetpid => number = SYS_getpid | HReadahead _ _ _ => number = SYS_readahead
  | HPipe => number = SYS_pipe | HRmdir _ => number = SYS_rmdir | HUnlink _ => number = SYS_unlink
  end.
Definition request (number : Z) (c : HostCall) : list Z :=
  bytes_of 4 (code_of MCP_MESSAGE_SYS_CALL) ++ bytes_of 8 number ++ body c.
Definition answer (number : Z) (c : HostCall) (r : Z) (out : list Z) : list Z :=
  match c with
  | HRead _ _ => bytes_of 4 r ++ (if r =? -1 then [] else take (Z.to_nat r) out)
  | HLseek _ _ _ => bytes_of 8 r
  | HWrite _ _ _ => if number =? SYS_writev then bytes_of 8 r else bytes_of 4 r
  | HStat _ _ _ | HFstat _ _ | HIoctl _ _ _ | HPipe => bytes_of 4 r ++ out
  | _ => bytes_of 4 r
  end.

(** ** Fields *)
Module HostServerProofs.
Import HostServer.

Lemma read_s64_put x l : is_s64 x → UnstructuredBuffer.read s64 8 (bytes_of 8 x ++ l) = Ok (x, l).
Proof.
  intros Hx. unfold UnstructuredBuffer.read. rewrite UnstructuredBuffer.get_put. do 2 f_equal.
  change (256 ^ Z.of_nat 8) with (2 ^ 64). unfold s64, sint. rewrite Zplus_mod_idemp_l. by apply (sint_small 64).
Qed.
Lemma read_buffer_put n data l : zlength data = n → n < 2147483648 →
  UnstructuredBuffer.read_buffer (s32 n) (data ++ l) = Ok (data, l).
Proof.
  intros <- Hn. rewrite s32_small by (unfold zlength in *; lia).
  unfold UnstructuredBuffer.read_buffer, UnstructuredBuffer.get_bytes.
  rewrite (proj2 (Z.leb_le 0 _)) by (unfold zlength; lia). cbn.
  rewrite (proj2 (Z.ltb_ge _ _)) by (unfold zlength; rewrite length_app; lia). cbn.
  unfold zlength. rewrite Nat2Z.id, take_app_length, drop_app_length. done.
Qed.
Lemma zlength_bytes_of n x : zlength (bytes_of n x) = Z.of_nat n.
Proof. unfold zlength. by rewrite UnstructuredBuffer.length_bytes_of. Qed.
Lemma zlength_app {A} (l k : list A) : zlength (l ++ k) = zlength l + zlength k.
Proof. unfold zlength. rewrite length_app. lia. Qed.

Section server.
Context {Host : Type} `{HostLaws Host}.
Context (handle_other : Z → M (Server Host) unit).
Implicit Types s : Server Host.

(** Reading a value off the front of the request. *)
Lemma runs_recv {A} (rd : Buffer → res (A * Buffer)) x b s (Q : A → Server Host → Prop) :
  rd (m_recv_buff s) = Ok (x, b) → Q x (s <| m_recv_buff := b |>) → succeeds (recv rd) s Q.
Proof. intros E HQ. unfold runs, recv. by rewrite E. Qed.
Lemma runs_int x b s (Q : Z → Server Host → Prop) :
  m_recv_buff s = bytes_of 4 x ++ b → is_int x → Q x (s <| m_recv_buff := b |>) → succeeds int_ s Q.
Proof. intros E Hx. apply runs_recv. rewrite E. by apply UnstructuredBuffer.read_s32_put. Qed.
Lemma runs_uint32 x b s (Q : Z → Server Host → Prop) :
  m_recv_buff s = bytes_of 4 x ++ b → 0 ≤ x < 4294967296 → Q x (s <| m_recv_buff := b |>) → succeeds uint32 s Q.
Proof. intros E Hx. apply runs_recv. rewrite E. by apply UnstructuredBuffer.read_u32_put. Qed.
Lemma runs_uint64 x b s (Q : Z → Server Host → Prop) :
  m_recv_buff s = bytes_of 8 x ++ b → is_u64 x → Q x (s <| m_recv_buff := b |>) → succeeds uint64 s Q.
Proof. intros E Hx. apply runs_recv. rewrite E. by apply UnstructuredBuffer.read_u64_put. Qed.
Lemma runs_off_t x b s (Q : Z → Server Host → Prop) :
  m_recv_buff s = bytes_of 8 x ++ b → is_s64 x → Q x (s <| m_recv_buff := b |>) → succeeds off_t s Q.
Proof. intros E Hx. apply runs_recv. rewrite E. by apply read_s64_put. Qed.
Lemma runs_buffer n data b s (Q : list Z → Server Host → Prop) :
  m_recv_buff s = data ++ b → zlength data = n → n < 2147483648 → Q data (s <| m_recv_buff := b |>) →
  succeeds (buffer n) s Q.
Proof. intros E Hl Hn. apply runs_recv. rewrite E. by apply read_buffer_put. Qed.
Lemma runs_recv_size n site s (Q : unit → Server Host → Prop) :
  zlength (m_recv_buff s) = n → n < 2147483648 → Q tt s → succeeds (recv_size n site) s Q.
Proof.
  intros E Hn HQ. unfold recv_size. run1. run1. apply runs_assert; [|done].
  unfold UnstructuredBuffer.size, id. rewrite E, s32_small by (unfold zlength in *; lia). apply Z.eqb_refl.
Qed.
Lemma runs_call c h s (Q : Z * list Z → Server Host → Prop) : host s = h →
  Q (syscall c h).1 (s <| host := (syscall c h).2 |>) → succeeds (call c) s Q.
Proof. intros <-. unfold runs, call. by destruct (syscall c (host s)) as [[r out] h]. Qed.
Lemma runs_put_buffer data n s (Q : unit → Server Host → Prop) : 0 ≤ n ≤ zlength data → n < 2147483648 →
  Q tt (s <| m_send_buff ::= λ b, b ++ take (Z.to_nat n) data |>) → succeeds (put_buffer data n) s Q.
Proof.
  intros Hn Hb HQ. unfold put_buffer. rewrite s32_small by lia. run1. apply runs_assert; [apply Z.leb_le; lia|].
  run1. eapply runs_lift; [by apply mem_read_ok; lia|]. by run1.
Qed.

(** One step of a handler: the next field of the request, the call, or a field of
    the reply. *)
Ltac small := unfold is_name, zlength in *; lia.
Ltac serve_step :=
  match goal with
  | |- runs _ (mbind _ _) _ _ => apply runs_bind
  | h : Host |- runs _ (call _) _ _ => apply (runs_call _ h); [reflexivity|]
  | |- runs _ (put _ _) ?s _ => apply runs_modify
  | |- runs _ (put_buffer _ _) _ _ => apply runs_put_buffer; [small|small|]
  | _ =>
    first [ eapply runs_int; [reflexivity|done|] | eapply runs_uint64; [reflexivity|done|]
      | eapply runs_off_t; [reflexivity|done|] | eapply runs_uint32; [reflexivity|small|]
      | eapply runs_buffer; [reflexivity|done|small|] ]
  end.

(** The handler of a call makes it and answers with its results. *)
Definition serves (number : Z) (c : HostCall) (h : M (Server Host) unit) : Prop := ∀ s rest,
  fits (sizeof_stat (Host := Host)) (sizeof_termios (Host := Host)) c → rest = [] →
  m_recv_buff s = body c ++ rest → m_send_buff s = [] →
  succeeds h s (λ _ s', host s' = (syscall c (host s)).2 ∧
    m_send_buff s' = answer number c (syscall c (host s)).1.1 (syscall c (host s)).1.2).

Ltac serve_handler :=
  intros [rb sb hs] rest Hf Hrest Hr Hs;
  cbn [fits body m_recv_buff m_send_buff host numbered answer] in *; destruct_and?; subst; rewrite <- ?app_assoc;
  unfold marshallOpenCall, marshallReadCall, marshallWriteCall, marshallWritevCall, marshallCloseCall, marshallLseekCall,
    marshallAccessCall, marshallStatCall, marshallFstatCall, marshallIoctlCall, marshallGetpidCall,
    marshallReadaheadCall, marshallPipeCall, marshallRmdirCall, marshallUnlinkCall.

Lemma serves_open p flags mode : serves SYS_open (HOpen p flags mode) marshallOpenCall.
Proof. serve_handler. repeat serve_step. done. Qed.
Lemma serves_close fd : serves SYS_close (HClose fd) marshallCloseCall.
Proof. serve_handler. repeat serve_step. done. Qed.
Lemma serves_lseek fd offset whence : serves SYS_lseek (HLseek fd offset whence) marshallLseekCall.
Proof. serve_handler. repeat serve_step. done. Qed.
Lemma serves_access p mode : serves SYS_access (HAccess p mode) marshallAccessCall.
Proof. serve_handler. repeat serve_step. done. Qed.
Lemma serves_getpid : serves SYS_getpid HGetpid marshallGetpidCall.
Proof. serve_handler. repeat serve_step. done. Qed.
Lemma serves_readahead fd offset count : serves SYS_readahead (HReadahead fd offset count) marshallReadaheadCall.
Proof. serve_handler. repeat serve_step. done. Qed.
Lemma serves_rmdir p : serves SYS_rmdir (HRmdir p) marshallRmdirCall.
Proof. serve_handler. repeat serve_step. done. Qed.
Lemma serves_unlink p : serves SYS_unlink (HUnlink p) marshallUnlinkCall.
Proof. serve_handler. repeat serve_step. done. Qed.
Lemma serves_write fd b count : serves SYS_write (HWrite fd b count) marshallWriteCall.
Proof.
  serve_handler. assert (is_u64 (zlength b)) by (unfold is_u64; small). repeat serve_step. done.
Qed.
Lemma serves_writev fd b count : serves SYS_writev (HWrite fd b count) marshallWritevCall.
Proof.
  serve_handler. assert (is_u64 (zlength b)) by (unfold is_u64; small). repeat serve_step. done.
Qed.

(** The calls that fill a structure. *)
Lemma take_filled (out : list Z) n : zlength out = n → take (Z.to_nat n) out = out.
Proof. intros <-. unfold zlength. by rewrite Nat2Z.id, take_ge by lia. Qed.
Ltac filled c h :=
  let Hc := fresh in pose proof (host_filled c h) as Hc; cbn [filled_ok] in Hc;
  pose proof (stat_size (Host := Host)); pose proof (termios_size (Host := Host)).

Lemma serves_pipe : serves SYS_pipe HPipe marshallPipeCall.
Proof.
  serve_handler. filled HPipe hs. repeat serve_step. split; [done|].
  by apply (f_equal (app (bytes_of 4 _))), take_filled.
Qed.
Lemma serves_fstat fd b : serves SYS_fstat (HFstat fd b) marshallFstatCall.
Proof.
  serve_handler. filled (HFstat fd b) hs.
  apply runs_bind, runs_recv_size.
  { cbn [m_recv_buff]. rewrite !zlength_app, zlength_bytes_of. change (zlength (@nil Z)) with 0. lia. }
  { lia. }
  repeat serve_step. split; [done|]. by apply (f_equal (app (bytes_of 4 _))), take_filled.
Qed.
Lemma serves_ioctl fd rq b : serves SYS_ioctl (HIoctl fd rq b) marshallIoctlCall.
Proof.
  serve_handler. filled (HIoctl fd rq b) hs. repeat serve_step. split; [done|].
  by apply (f_equal (app (bytes_of 4 _))), take_filled.
Qed.
Lemma serves_stat n p b : serves n (HStat n p b) (marshallStatCall n).
Proof.
  serve_handler. filled (HStat n p b) hs. do 2 serve_step. apply runs_bind, runs_recv_size.
  { rewrite u64_small, s32_small by small. transitivity (zlength (p ++ b ++ [])); [done|]. rewrite !zlength_app. change (zlength (@nil Z)) with 0. lia. }
  { rewrite u64_small, s32_small; small. }
  repeat serve_step. split; [done|]. by apply (f_equal (app (bytes_of 4 _))), take_filled.
Qed.
Lemma serves_read fd count : serves SYS_read (HRead fd count) marshallReadCall.
Proof.
  serve_handler. filled (HRead fd count) hs.
  destruct (host_result (HRead fd count) hs) as [Hr1 Hr2]; [unfold is_u64 in *; lia|].
  apply runs_bind, runs_recv_size.
  { cbn [m_recv_buff]. by rewrite !zlength_app, !zlength_bytes_of. }
  { lia. }
  do 6 serve_step. rewrite s32_small by lia. do 2 serve_step.
  cbn [fst]. destruct (Z.eqb_spec (syscall (HRead fd count) hs).1.1 (-1)) as [->|Hne]; [by rewrite app_nil_r|].
  by serve_step.
Qed.

(** The server makes the call that a request asks for and answers with its
    results. *)
Lemma serve_request number c s : numbered number c →
  fits (sizeof_stat (Host := Host)) (sizeof_termios (Host := Host)) c →
  succeeds (serve handle_other (request number c)) s (λ reply s', host s' = (syscall c (host s)).2 ∧
    reply = answer number c (syscall c (host s)).1.1 (syscall c (host s)).1.2).
Proof.
  intros Hn Hf. destruct s as [rb sb h]. unfold serve, request.
  apply runs_bind, runs_modify. apply runs_bind. eapply runs_int; [reflexivity|by vm_compute|].
  apply runs_bind, runs_assert; [done|]. apply runs_bind.
  eapply (runs_mono _ _ _ (λ _ s', host s' = (syscall c h).2 ∧ m_send_buff s' = answer number c (syscall c h).1.1 (syscall c h).1.2));
    [|intros _ s' [E1 E2]; run1; done].
  unfold handleSyscall. apply runs_bind. eapply runs_uint64; [reflexivity| |].
  { destruct c; cbn in Hn; destruct_and?; destruct_or?; subst; by vm_compute. }
  assert (Hk : ∀ k, serves number c k → succeeds k (mkServer (body c) [] h)
    (λ _ s', host s' = (syscall c h).2 ∧ m_send_buff s' = answer number c (syscall c h).1.1 (syscall c h).1.2)).
  { intros k Hk. by apply (Hk (mkServer (body c) [] h) []); [..|symmetry; apply app_nil_r|]. }
  destruct c; cbn [numbered] in Hn; destruct_and?; destruct_or?; subst.
  - apply Hk, serves_open.
  - apply Hk, serves_read.
  - apply Hk, serves_write.
  - apply Hk, serves_writev.
  - apply Hk, serves_close.
  - apply Hk, serves_lseek.
  - apply Hk, serves_access.
  - apply Hk, serves_stat.
  - apply Hk, serves_stat.
  - apply Hk, serves_fstat.
  - apply Hk, serves_ioctl.
  - apply Hk, serves_getpid.
  - apply Hk, serves_readahead.
  - apply Hk, serves_pipe.
  - apply Hk, serves_rmdir.
  - apply Hk, serves_unlink.
Qed.
End server.
End HostServerProofs.
