(* ===== verification/HostTheorems.v ===== *)
(** * HostTheorems: a forwarded system call is the call on the host

    The client of a forwarded call, over any memory and any host that keep their
    laws: the program sees the result of the call made on the host with the bytes
    its arguments point to. *)
From S2P Require Import Prelude Utils Double CacheSet Cache Shmem ThreadManager Packetize NetPacket Instruction CoreModels MainCore HostCalls HostProofs.
Import Instruction.
Import UnstructuredBuffer (bytes_of, of_bytes).
Import SyscallMdl.
Import HostServerProofs (zlength_app, zlength_bytes_of, read_s64_put, read_buffer_put).

(** ** Memory as a function *)

(** The bytes at an address, and memory with some bytes stored. *)
Definition bytes (mem : Z → Z) (a n : Z) : list Z := map (λ i, mem (a + Z.of_nat i)) (seq 0 (Z.to_nat n)).
Definition stored (mem : Z → Z) (a : Z) (data : list Z) (x : Z) : Z :=
  if decide (a ≤ x < a + zlength data) then default 0 (zlookup data (x - a)) else mem x.
(** A range of addresses below the last line. *)
Definition inside (line a n : Z) : Prop := 0 ≤ a ∧ 0 ≤ n < 4294967296 ∧ a + n + line < 18446744073709551616.
(** A string of [n] bytes and its terminator. *)
Definition string_at (mem : Z → Z) (a n : Z) : Prop := mem (a + n) = 0 ∧ ∀ i, 0 ≤ i < n → mem (a + i) ≠ 0.

Lemma zlength_bytes mem a n : 0 ≤ n → zlength (bytes mem a n) = n.
Proof. intros Hn. unfold zlength, bytes. rewrite length_map, length_seq. lia. Qed.
Lemma bytes_eq mem a n l : zlength l = n → (∀ i, 0 ≤ i < n → zlookup l i = Some (mem (a + i))) → l = bytes mem a n.
Proof.
  intros Hl Hi. apply list_eq. intros i. unfold bytes. destruct (decide (Z.of_nat i < n)) as [Hlt|Hge].
  - specialize (Hi (Z.of_nat i)). rewrite zlookup_nat, Nat2Z.id in Hi by lia. rewrite Hi by lia.
    rewrite list_lookup_fmap, lookup_seq_lt by lia. done.
  - unfold zlength in Hl. rewrite !lookup_ge_None_2; [done|rewrite length_map, length_seq; lia|lia].
Qed.

Lemma bytes_slice mem a n j k : 0 ≤ j → 0 ≤ k → j + k ≤ n →
  take (Z.to_nat k) (drop (Z.to_nat j) (bytes mem a n)) = bytes mem (a + j) k.
Proof.
  intros Hj Hk Hn. apply list_eq. intros i. unfold bytes. destruct (decide (i < Z.to_nat k)%nat) as [Hi|Hi].
  - rewrite lookup_take_lt, lookup_drop, !list_lookup_fmap, !lookup_seq_lt by lia. cbn. do 2 f_equal. lia.
  - rewrite !lookup_ge_None_2; [done|rewrite length_map, length_seq; lia|rewrite length_take; lia].
Qed.

(** The vectors of [writev]: addresses and lengths. *)
Definition iov_at (mem : Z → Z) (a : Z) (i : nat) : Z * Z :=
  (of_bytes (bytes mem (a + 16 * Z.of_nat i) 8), of_bytes (bytes mem (a + 16 * Z.of_nat i + 8) 8)).
Definition iovs_at (mem : Z → Z) (a n : Z) : list (Z * Z) := map (iov_at mem a) (seq 0 (Z.to_nat n)).
Definition gathered (mem : Z → Z) (iov : list (Z * Z)) : list Z := concat (map (λ v, bytes mem v.1 v.2) iov).

Lemma iovec_at mem a n : 0 ≤ n → map (iovec (bytes mem a (n * 16))) (seq 0 (Z.to_nat n)) = iovs_at mem a n.
Proof.
  intros Hn. apply map_ext_in. intros i Hi%in_seq. unfold iovec, iov_at. f_equal; f_equal.
  - rewrite <- (bytes_slice mem a (n * 16)) by lia. f_equal. f_equal. lia.
  - rewrite <- Z.add_assoc, <- (bytes_slice mem a (n * 16)) by lia. f_equal. f_equal. lia.
Qed.
Lemma length_of_all mem iov c : Forall (λ v, 0 ≤ v.2) iov → 0 ≤ c → c + zlength (gathered mem iov) < 18446744073709551616 →
  foldl (λ c v, u64 (c + v.2)) c iov = c + zlength (gathered mem iov).
Proof.
  intros Hi. revert c. induction Hi as [|v iov Hv Hi IH]; intros c Hc Hl; [unfold gathered, zlength; cbn; lia|].
  unfold gathered in *. cbn [map concat foldl] in *. rewrite zlength_app, zlength_bytes in * by done.
  rewrite u64_small by (unfold zlength in *; lia). rewrite IH by lia. lia.
Qed.
Lemma mem_write_next (pre post part : list Z) : zlength part ≤ zlength post →
  mem_write (pre ++ post) (zlength pre) part = Ok ((pre ++ part) ++ drop (length part) post).
Proof.
  intros Hl. rewrite mem_write_ok by (rewrite ?zlength_app; unfold zlength in *; lia). unfold splice, zlength.
  rewrite Nat2Z.id, take_app_length, <- drop_drop, drop_app_length. by rewrite app_assoc.
Qed.

Section client.
Context {Mod Mem Srv : Type} `{LineMemoryLaws Mem} `{!PerformanceModel Mod Mem} `{CoreConfig}.
Abbreviation Sy := (System Mod Mem Srv).
Implicit Types s : Sy.

Record good (line : Z) (mem : Z → Z) (s : Sy) : Prop := {
  good_usable : usable (memory (core s));
  good_line : getCacheLineSize (memory (core s)) = line;
  good_contents x : contents (memory (core s)) x = mem x
}.

Lemma runs_read_memory line mem a n s (Q : list Z → Sy → Prop) : good line mem s → inside line a n →
  (∀ s', good line mem s' → mdl s' = mdl s → server s' = server s → Q (bytes mem a n) s') →
  succeeds (read_memory true a n) s Q.
Proof.
  intros [Hu Hl Hm] (Ha & Hn & He) HQ. unfold read_memory, MainCore.accessMemory. rewrite u32_small by lia.
  run1. apply runs_zoom. destruct (decide (n = 0)) as [->|Hne].
  { eapply runs_Ok; [reflexivity|]. run1. by apply (HQ (s <| core := core s |>)). }
  destruct (MainCoreTheorems.access_outcome MemComponent.L1_DCACHE MemOp.NONE MemOp.READ a n
    (replicate (Z.to_nat n) 0) false 0 (core s)) as (k & b & c & E & _ & _ & U & L & Z1 & Z2 & Z3); [done|lia|lia|lia| |].
  { unfold zlength. rewrite length_replicate. lia. }
  eapply runs_Ok; [exact E|]. run1. cbn [snd]. rewrite (bytes_eq mem a n b Z1) by (intros i Hi; by rewrite Z2, Hm).
  apply HQ; [|done|done]. split; cbn; [done|congruence|intros x; by rewrite Z3, Hm].
Qed.

Lemma runs_write_memory line mem a data s (Q : unit → Sy → Prop) : good line mem s → inside line a (zlength data) →
  (∀ s', good line (stored mem a data) s' → mdl s' = mdl s → server s' = server s → Q tt s') →
  succeeds (write_memory true a data (zlength data)) s Q.
Proof.
  intros [Hu Hl Hm] (Ha & Hn & He) HQ. unfold write_memory, MainCore.accessMemory. rewrite u32_small by lia.
  run1. apply runs_zoom. destruct (decide (zlength data = 0)) as [Hz|Hne].
  { rewrite Hz. eapply runs_Ok; [reflexivity|]. run1.
    apply (HQ (s <| core := core s |>)); [|done|done]. split; cbn; [done|done|]. intros x. unfold stored.
    by rewrite decide_False by lia. }
  destruct (MainCoreTheorems.access_outcome MemComponent.L1_DCACHE MemOp.NONE MemOp.WRITE a (zlength data)
    data false 0 (core s)) as (k & b & c & E & _ & _ & U & L & Z1 & Z2); [done|lia|lia|lia|done|].
  eapply runs_Ok; [exact E|]. run1. apply HQ; [|done|done]. split; cbn; [done|congruence|].
  intros x. rewrite Z2. unfold stored. case_decide; [done|]. apply Hm.
Qed.
End client.

(** ** The steps of a client *)
Section host.
Context {Mod Mem Host : Type} `{LineMemoryLaws Mem} `{!PerformanceModel Mod Mem} `{CoreConfig} `{HostLaws Host}.
Context (handle_other : Z → M (HostServer.Server Host) unit).
(** The two descriptors before anything is stored in them: eight bytes. *)
Context (max_string : nat) (indeterminate : list Z) (indeterminate_size : zlength indeterminate = 8).
Abbreviation Sy := (System Mod Mem (HostServer.Server Host)).
Context (host_syscall : Z → list Z → M Sy Z) (marshallGetCwdCall marshallSchedGetAffinityCall : syscall_args_t → M Sy Z).
Context (line : Z).
Implicit Types s : Sy.

(** A client inside a call: memory, the two buffers and the host. *)
Record ready (mem : Z → Z) (sent received : list Z) (h : Host) (s : Sy) : Prop := {
  ready_good : good line mem s;
  ready_sent : m_send_buff (mdl s) = sent;
  ready_received : m_recv_buff (mdl s) = received;
  ready_entered : m_called_enter (mdl s) = true;
  ready_host : HostServer.host (server s) = h
}.

Lemma ready_read mem b r h a n s (Q : list Z → Sy → Prop) : ready mem b r h s → inside line a n →
  (∀ s', ready mem b r h s' → Q (bytes mem a n) s') → succeeds (read_memory true a n) s Q.
Proof.
  intros [Hg Hb Hr He Hh] Hi HQ. eapply runs_read_memory; [done|done|]. intros s' Hg' Em Es. apply HQ.
  by split; rewrite ?Em, ?Es.
Qed.
Lemma ready_write mem b r h a data n s (Q : unit → Sy → Prop) : ready mem b r h s → zlength data = n → inside line a n →
  (∀ s', ready (stored mem a data) b r h s' → Q tt s') → succeeds (write_memory true a data n) s Q.
Proof.
  intros [Hg Hb Hr He Hh] <- Hi HQ. eapply runs_write_memory; [done|done|]. intros s' Hg' Em Es. apply HQ.
  by split; rewrite ?Em, ?Es.
Qed.
Lemma ready_put mem b r h n x s (Q : unit → Sy → Prop) : ready mem b r h s →
  (∀ s', ready mem (b ++ bytes_of n x) r h s' → Q tt s') → succeeds (put n x) s Q.
Proof.
  intros [[Hu Hl Hm] Hb Hr He Hh] HQ. unfold put, with_mdl. apply runs_zoom. run1. apply HQ.
  split; cbn; [split; done| |done..]. by rewrite Hb.
Qed.
Lemma ready_put_buffer mem b r h data n s (Q : unit → Sy → Prop) : ready mem b r h s →
  zlength data = n → n < 2147483648 → (∀ s', ready mem (b ++ data) r h s' → Q tt s') → succeeds (put_buffer data n) s Q.
Proof.
  intros [[Hu Hl Hm] Hb Hr He Hh] Hn Hs HQ. unfold put_buffer. rewrite s32_small by (unfold zlength in *; lia).
  run1. apply runs_assert; [apply Z.leb_le; unfold zlength in *; lia|]. run1.
  eapply runs_lift; [apply mem_read_ok; unfold zlength in *; lia|]. unfold with_mdl. apply runs_zoom. run1. apply HQ.
  split; cbn; [split; done| |done..]. rewrite Hb, drop_0, take_ge; [done|unfold zlength in *; lia].
Qed.
Lemma ready_recv {A} mem b r h (rd : Buffer → res (A * Buffer)) x rest s (Q : A → Sy → Prop) : ready mem b r h s →
  rd r = Ok (x, rest) → (∀ s', ready mem b rest h s' → Q x s') → succeeds (recv rd) s Q.
Proof.
  intros [[Hu Hl Hm] Hb Hr He Hh] Ed HQ. unfold recv, with_mdl. apply runs_zoom. unfold runs. rewrite Hr, Ed.
  apply HQ. split; cbn; [split; done|done..].
Qed.
Lemma ready_int mem b r rest h x s (Q : Z → Sy → Prop) : ready mem b r h s → r = bytes_of 4 x ++ rest → is_int x →
  (∀ s', ready mem b rest h s' → Q x s') → succeeds int_ s Q.
Proof. intros Hs -> Hx. eapply ready_recv; [done|]. by apply UnstructuredBuffer.read_s32_put. Qed.
Lemma ready_buffer mem b r data rest h n s (Q : list Z → Sy → Prop) : ready mem b r h s → r = data ++ rest →
  zlength data = n → n < 2147483648 → (∀ s', ready mem b rest h s' → Q data s') → succeeds (buffer n) s Q.
Proof. intros Hs -> Hn Hl. eapply ready_recv; [done|]. by apply read_buffer_put. Qed.
Lemma ready_size mem b r h s (Q : Z → Sy → Prop) : ready mem b r h s → zlength r < 2147483648 →
  Q (zlength r) s → succeeds recv_size s Q.
Proof.
  intros [_ _ Hr _ _] Hl HQ. unfold recv_size. run1. unfold UnstructuredBuffer.size. rewrite Hr.
  by rewrite s32_small by (unfold zlength in *; lia).
Qed.

(** The exchange of a request for the results of the call. *)
Lemma ready_exchange number c mem b h s (Q : Z → Sy → Prop) : ready mem b [] h s → b = request number c →
  numbered number c → fits (sizeof_stat (Host := Host)) (sizeof_termios (Host := Host)) c →
  let reply := answer number c (syscall c h).1.1 (syscall c h).1.2 in
  (∀ s', ready mem b reply (syscall c h).2 s' → Q (zlength reply) s') →
  succeeds (exchange (HostServer.serve handle_other)) s Q.
Proof.
  intros [[Hu Hl Hm] Hb Hr He Hh] Hq Hn Hf reply HQ. unfold exchange. run1. run1. run1. apply runs_zoom.
  unfold id. rewrite Hb, Hq. eapply runs_mono; [by apply HostServerProofs.serve_request|].
  intros rp sv [E1 E2]. rewrite Hh in E1, E2. subst rp. run1. unfold with_mdl. apply runs_zoom. run1. run1.
  apply HQ. split; cbn; [split; done|done| |done|done]. by rewrite Hr.
Qed.

(** ** Strings *)

Lemma ready_str_len mem b r h a n fuel : ∀ k s (Q : Z → Sy → Prop), ready mem b r h s → string_at mem a n →
  inside line a (n + 1) → 0 ≤ k ≤ n → (Z.to_nat (n - k) < fuel)%nat →
  (∀ s', ready mem b r h s' → Q n s') → succeeds (str_len true fuel (a + k) k) s Q.
Proof.
  induction fuel as [|fuel IH]; intros k s Q Hs Hstr Hi Hk Hf HQ; [lia|]. destruct Hi as (Ha & Hn & He).
  pose proof (line_size _ (good_usable _ _ _ (ready_good _ _ _ _ _ Hs))) as Hl.
  rewrite (good_line _ _ _ (ready_good _ _ _ _ _ Hs)) in Hl.
  cbn [str_len]. run1. eapply ready_read; [exact Hs|split_and!; lia|]. intros s' Hs'.
  change (bytes mem (a + k) 1) with [mem (a + k + 0)]. rewrite Z.add_0_r. destruct Hstr as [Hz Hnz]. destruct (decide (k = n)) as [->|Hne].
  - rewrite Hz, bool_decide_eq_true_2 by done. run1. by apply HQ.
  - rewrite bool_decide_eq_false_2 by (intros [= E]; by apply (Hnz k); [lia|]).
    rewrite u64_small, u32_small, <- Z.add_assoc by lia. apply IH; try done; lia.
Qed.
Lemma ready_path mem b r h a n s (Q : Z * list Z → Sy → Prop) : ready mem b r h s → string_at mem a n →
  inside line a (n + 1) → 0 ≤ n < Z.of_nat max_string →
  (∀ s', ready mem b r h s' → Q (n + 1, bytes mem a (n + 1)) s') → succeeds (read_path true max_string a) s Q.
Proof.
  intros Hs Hstr Hi Hn HQ. unfold read_path, getStrLen. run1. rewrite <- (Z.add_0_r a) at 1.
  eapply ready_str_len; [exact Hs|exact Hstr|exact Hi|lia|lia|]. intros s1 Hs1.
  rewrite u32_small by (destruct Hi as (_ & ? & _); lia).
  run1. eapply ready_read; [exact Hs1|exact Hi|]. intros s2 Hs2. run1. by apply HQ.
Qed.

(** ** The call a program asks for *)

(** A name in memory, short enough for the client's loop and for a packet. *)
Definition names (mem : Z → Z) (a n : Z) : Prop :=
  string_at mem a n ∧ inside line a (n + 1) ∧ 0 ≤ n < Z.of_nat max_string ∧ n < 2147000000.

(** The offset of [readahead] is put together from the low halves of two
    arguments, and its count is the fourth one: the convention of IA32, where the
    program has put the offset into the second argument and the count into the
    third ([readahead_misread]). *)
Definition readahead_offset (a : syscall_args_t) : Z := s64 (Z.shiftl (u32 (arg1 a)) 32 + u32 (arg2 a)).

(** The host call of a number and its arguments, with the bytes of memory that
    the arguments point to. *)
Inductive asks (mem : Z → Z) (a : syscall_args_t) : Z → HostCall → Prop :=
  | asks_open n : names mem (arg0 a) n → is_u64 (arg2 a) →
      asks mem a SYS_open (HOpen (bytes mem (arg0 a) (n + 1)) (s32 (arg1 a)) (arg2 a))
  | asks_read : is_u64 (arg2 a) → inside line (arg1 a) (Z.min (arg2 a) 2147483647) →
      asks mem a SYS_read (HRead (s32 (arg0 a)) (arg2 a))
  | asks_write : inside line (arg1 a) (arg2 a) → arg2 a < 2147483648 →
      asks mem a SYS_write (HWrite (s32 (arg0 a)) (bytes mem (arg1 a) (arg2 a)) (arg2 a))
  | asks_writev : let iov := iovs_at mem (arg1 a) (s32 (arg2 a)) in
      0 ≤ s32 (arg2 a) → inside line (arg1 a) (s32 (arg2 a) * 16) → Forall (λ v, inside line v.1 v.2) iov →
      zlength (gathered mem iov) < 2147483648 →
      asks mem a SYS_writev (HWrite (s32 (arg0 a)) (gathered mem iov) (zlength (gathered mem iov)))
  | asks_close : asks mem a SYS_close (HClose (s32 (arg0 a)))
  | asks_lseek : asks mem a SYS_lseek (HLseek (s32 (arg0 a)) (s64 (arg1 a)) (s32 (arg2 a)))
  | asks_access n : names mem (arg0 a) n → asks mem a SYS_access (HAccess (bytes mem (arg0 a) (n + 1)) (s32 (arg1 a)))
  | asks_stat number n : number = SYS_stat ∨ number = SYS_lstat → names mem (arg0 a) n →
      inside line (arg1 a) (sizeof_stat (Host := Host)) →
      asks mem a number (HStat number (bytes mem (arg0 a) (n + 1)) (bytes mem (arg1 a) (sizeof_stat (Host := Host))))
  | asks_fstat : inside line (arg1 a) (sizeof_stat (Host := Host)) →
      asks mem a SYS_fstat (HFstat (s32 (arg0 a)) (bytes mem (arg1 a) (sizeof_stat (Host := Host))))
  | asks_ioctl : s32 (arg1 a) = TCGETS → inside line (arg2 a) (sizeof_termios (Host := Host)) →
      asks mem a SYS_ioctl (HIoctl (s32 (arg0 a)) TCGETS (bytes mem (arg2 a) (sizeof_termios (Host := Host))))
  | asks_getpid : asks mem a SYS_getpid HGetpid
  | asks_readahead : is_u64 (arg3 a) →
      asks mem a SYS_readahead (HReadahead (s32 (arg0 a)) (readahead_offset a) (arg3 a))
  | asks_pipe : inside line (arg0 a) 8 → asks mem a SYS_pipe HPipe
  | asks_rmdir n : names mem (arg0 a) n → asks mem a SYS_rmdir (HRmdir (bytes mem (arg0 a) (n + 1)))
  | asks_unlink n : names mem (arg0 a) n → asks mem a SYS_unlink (HUnlink (bytes mem (arg0 a) (n + 1))).

(** Memory after the call: where its results go.  A [pipe] that fails stores the
    bytes that its descriptors had before the call. *)
Definition memory_after (mem : Z → Z) (a : syscall_args_t) (c : HostCall) (r : Z) (out : list Z) : Z → Z :=
  match c with
  | HRead _ _ => if r =? -1 then mem else stored mem (arg1 a) (take (Z.to_nat r) out)
  | HStat _ _ _ | HFstat _ _ => stored mem (arg1 a) out
  | HIoctl _ _ _ => stored mem (arg2 a) out
  | HPipe => stored mem (arg0 a) (if r =? 0 then out else indeterminate)
  | _ => mem
  end.

(** ** Every call *)

Lemma int_range x : is_int (s32 x).
Proof. unfold is_int, s32, sint. pose proof (Z.mod_pos_bound (x + 2 ^ (32 - 1)) (2 ^ 32)). lia. Qed.
Lemma s64_range x : is_s64 (s64 x).
Proof. unfold is_s64, s64, sint. pose proof (Z.mod_pos_bound (x + 2 ^ (64 - 1)) (2 ^ 64)). lia. Qed.
Lemma name_ok mem a n : names mem a n → zlength (bytes mem a (n + 1)) = n + 1 ∧ is_name (bytes mem a (n + 1)).
Proof. intros (_ & _ & ? & ?). unfold is_name. rewrite zlength_bytes; lia. Qed.
Hint Resolve int_range s64_range : core.

(** The client of a call returns its result and stores what it filled. *)
Definition performs (number : Z) (c : HostCall) (a : syscall_args_t) (k : syscall_args_t → M Sy Z) : Prop :=
  ∀ mem h s, asks mem a number c →
  ready mem (bytes_of 4 (code_of MCP_MESSAGE_SYS_CALL) ++ bytes_of 8 number) [] h s →
  succeeds (k a) s (λ v s', v = u64 (syscall c h).1.1 ∧ ∃ b r,
    ready (memory_after mem a c (syscall c h).1.1 (syscall c h).1.2) b r (syscall c h).2 s').

Ltac next Hs := let s' := fresh "s" in intros s' Hs'; clear Hs; rename Hs' into Hs.
Ltac client_step Hs :=
  match goal with
  | |- runs _ (mbind _ _) _ _ => apply runs_bind
  | |- runs _ (put _ _) _ _ => eapply ready_put; [exact Hs|next Hs]
  | |- runs _ (put_buffer _ _) _ _ => eapply ready_put_buffer; [exact Hs| | |next Hs]
  | |- runs _ (read_path _ _ _) _ _ => eapply ready_path; [exact Hs| | | |next Hs]
  | |- runs _ (read_memory _ _ _) _ _ => eapply ready_read; [exact Hs| |next Hs]
  | |- runs _ (assert _ _) _ _ => apply runs_assert
  | |- runs _ int_ _ _ => eapply ready_int; [exact Hs| | |next Hs]
  end.

(** The last part of the clients whose calls return a number only, and of those
    that store a structure. *)
Lemma int_reply mem b x h s : ready mem b (bytes_of 4 x) h s → is_int x →
  succeeds (status ← int_ ; mret (u64 status)) s (λ v s', v = u64 x ∧ ∃ b r, ready mem b r h s').
Proof.
  intros Hs Hx. do 2 client_step Hs; [symmetry; apply app_nil_r|done|]. run1. split; [done|]. by eexists _, _.
Qed.
Lemma structure_reply_runs mem b x out h addr n s : ready mem b (bytes_of 4 x ++ out) h s → is_int x →
  zlength out = n → n < 65536 → inside line addr n →
  succeeds (structure_reply true addr n) s (λ v s', v = u64 x ∧ ∃ b r, ready (stored mem addr out) b r h s').
Proof.
  intros Hs Hx Hn Hl Hi. unfold structure_reply. do 2 client_step Hs; [done|done|]. run1.
  eapply ready_buffer; [exact Hs|symmetry; apply app_nil_r|done|lia|next Hs]. run1.
  eapply ready_write; [exact Hs|done|done|next Hs]. run1. split; [done|]. by eexists _, _.
Qed.

(** The beginning of a client up to its reply. *)
Ltac client_call c :=
  intros mem h s Ha Hs; pose proof (host_result c h) as Hres; pose proof (host_filled c h) as Hfill;
  cbn [result_ok filled_ok] in Hres, Hfill; inversion Ha; subst;
  pose proof (stat_size (Host := Host)); pose proof (termios_size (Host := Host)).
Ltac exchanged number c Hs :=
  run1; eapply (ready_exchange number c); [exact Hs|unfold request; cbn [body]; rewrite <- ?app_assoc; try done| | |next Hs].

Lemma performs_close a : performs SYS_close (HClose (s32 (arg0 a))) a (marshallCloseCall (HostServer.serve handle_other)).
Proof.
  client_call (HClose (s32 (arg0 a))). unfold marshallCloseCall. do 2 client_step Hs.
  exchanged SYS_close (HClose (s32 (arg0 a))) Hs; [done|apply int_range|].
  do 2 client_step Hs; [done|]. by eapply int_reply.
Qed.
Lemma performs_getpid a : performs SYS_getpid HGetpid a (marshallGetpidCall (HostServer.serve handle_other)).
Proof.
  client_call HGetpid. unfold marshallGetpidCall. exchanged SYS_getpid HGetpid Hs; [done|done|].
  by eapply int_reply.
Qed.
Lemma performs_lseek a : performs SYS_lseek (HLseek (s32 (arg0 a)) (s64 (arg1 a)) (s32 (arg2 a))) a
  (marshallLseekCall (HostServer.serve handle_other)).
Proof.
  client_call (HLseek (s32 (arg0 a)) (s64 (arg1 a)) (s32 (arg2 a))). unfold marshallLseekCall. do 6 client_step Hs.
  exchanged SYS_lseek (HLseek (s32 (arg0 a)) (s64 (arg1 a)) (s32 (arg2 a))) Hs; [done|by split_and!|].
  do 2 client_step Hs; [done|]. run1. eapply ready_recv; [exact Hs| |next Hs].
  { cbn [answer]. rewrite <- (app_nil_r (bytes_of 8 _)). by apply read_s64_put. }
  run1. split; [done|]. by eexists _, _.
Qed.
Lemma performs_write a b : performs SYS_write (HWrite (s32 (arg0 a)) b (arg2 a)) a
  (marshallWriteCall true (HostServer.serve handle_other)).
Proof.
  client_call (HWrite (s32 (arg0 a)) b (arg2 a)). unfold marshallWriteCall. do 2 client_step Hs; [done|].
  assert (zlength (bytes mem (arg1 a) (arg2 a)) = arg2 a) by (apply zlength_bytes; unfold inside in *; lia).
  do 6 client_step Hs; [done|done|].
  exchanged SYS_write (HWrite (s32 (arg0 a)) (bytes mem (arg1 a) (arg2 a)) (arg2 a)) Hs; [by left|by split_and!|].
  do 2 client_step Hs; [done|]. eapply int_reply; [exact Hs|unfold is_int, inside in *; lia].
Qed.

(** The calls with the name of a file. *)
Ltac path_step Hs n :=
  match goal with Hn : names ?mem ?p n |- _ =>
    let Hz := fresh "Hz" in let Hnm := fresh "Hnm" in
    destruct (name_ok mem p n Hn) as [Hz Hnm]; pose proof Hn as (? & ? & ? & ?);
    do 2 client_step Hs; [done|done|lia|]; do 4 client_step Hs; [done|cbn [fst]; lia|]; cbn [fst snd]
  end.
Lemma performs_open a p : performs SYS_open (HOpen p (s32 (arg1 a)) (arg2 a)) a
  (marshallOpenCall true (HostServer.serve handle_other) max_string).
Proof.
  client_call (HOpen p (s32 (arg1 a)) (arg2 a)). unfold marshallOpenCall. path_step Hs n. do 4 client_step Hs.
  rewrite u64_small in Hs by done.
  exchanged SYS_open (HOpen (bytes mem (arg0 a) (n + 1)) (s32 (arg1 a)) (arg2 a)) Hs; [by rewrite Hz|done|by split_and!|].
  do 2 client_step Hs; [done|]. by eapply int_reply.
Qed.
Lemma performs_access a p : performs SYS_access (HAccess p (s32 (arg1 a))) a
  (marshallAccessCall true (HostServer.serve handle_other) max_string).
Proof.
  client_call (HAccess p (s32 (arg1 a))). unfold marshallAccessCall. path_step Hs n. do 2 client_step Hs.
  exchanged SYS_access (HAccess (bytes mem (arg0 a) (n + 1)) (s32 (arg1 a))) Hs; [by rewrite Hz|done|by split_and!|].
  by eapply int_reply.
Qed.
Lemma performs_unlink a p : performs SYS_unlink (HUnlink p) a
  (marshallUnlinkCall true (HostServer.serve handle_other) max_string).
Proof.
  client_call (HUnlink p). unfold marshallUnlinkCall. path_step Hs n.
  exchanged SYS_unlink (HUnlink (bytes mem (arg0 a) (n + 1))) Hs; [by rewrite Hz|done|done|].
  do 2 client_step Hs; [done|]. by eapply int_reply.
Qed.
Lemma performs_rmdir a p : performs SYS_rmdir (HRmdir p) a
  (marshallRmdirCall true (HostServer.serve handle_other) max_string).
Proof.
  client_call (HRmdir p). unfold marshallRmdirCall, marshallUnlinkCall. path_step Hs n.
  exchanged SYS_rmdir (HRmdir (bytes mem (arg0 a) (n + 1))) Hs; [by rewrite Hz|done|done|].
  do 2 client_step Hs; [done|]. by eapply int_reply.
Qed.

(** The calls that fill a structure. *)
Lemma performs_stat number a p st : performs number (HStat number p st) a
  (marshallStatCall true (HostServer.serve handle_other) (sizeof_stat (Host := Host)) max_string).
Proof.
  client_call (HStat number p st).
  assert (Hst : zlength (bytes mem (arg1 a) (sizeof_stat (Host := Host))) = sizeof_stat (Host := Host))
    by (apply zlength_bytes; lia).
  match goal with Hn : names _ _ _ |- _ => destruct (name_ok _ _ _ Hn) as [Hz Hnm]; destruct Hn as (? & ? & ? & ?) end.
  unfold marshallStatCall. do 2 client_step Hs; [done|done|lia|]. do 2 client_step Hs; [done|].
  do 4 client_step Hs; [done|cbn [fst]; lia|]. do 2 client_step Hs; [done|lia|]. cbn [fst snd] in Hs.
  set (st := bytes mem (arg1 a) (sizeof_stat (Host := Host))) in *. set (p := bytes mem (arg0 a) (n + 1)) in *.
  exchanged number (HStat number p st) Hs; [by rewrite Hz|by split|by split|].
  run1. eapply ready_size; [exact Hs|cbn [answer]; rewrite zlength_app, zlength_bytes_of; lia|].
  do 2 client_step Hs. { apply Z.eqb_eq. cbn [answer]. rewrite zlength_app, zlength_bytes_of. lia. }
  by eapply structure_reply_runs; [exact Hs|..]; [|done|lia|].
Qed.
Lemma performs_fstat a st : performs SYS_fstat (HFstat (s32 (arg0 a)) st) a
  (marshallFstatCall true (HostServer.serve handle_other) (sizeof_stat (Host := Host))).
Proof.
  client_call (HFstat (s32 (arg0 a)) st). unfold marshallFstatCall. do 2 client_step Hs; [done|].
  assert (Hz : zlength (bytes mem (arg1 a) (sizeof_stat (Host := Host))) = sizeof_stat (Host := Host))
    by (apply zlength_bytes; lia).
  do 4 client_step Hs; [done|lia|].
  exchanged SYS_fstat (HFstat (s32 (arg0 a)) (bytes mem (arg1 a) (sizeof_stat (Host := Host)))) Hs; [done|by split_and!|].
  run1. eapply ready_size; [exact Hs|cbn [answer]; rewrite zlength_app, zlength_bytes_of; lia|].
  do 2 client_step Hs. { apply Z.eqb_eq. cbn [answer]. rewrite zlength_app, zlength_bytes_of. lia. }
  by eapply structure_reply_runs; [exact Hs|..]; [|done|lia|].
Qed.
Lemma performs_ioctl a st : performs SYS_ioctl (HIoctl (s32 (arg0 a)) TCGETS st) a
  (marshallIoctlCall true (HostServer.serve handle_other) (sizeof_termios (Host := Host))).
Proof.
  client_call (HIoctl (s32 (arg0 a)) TCGETS st). unfold marshallIoctlCall.
  match goal with E : s32 (arg1 a) = TCGETS |- _ => rewrite E end. rewrite Z.eqb_refl. run1. run1. do 2 client_step Hs; [done|].
  assert (Hz : zlength (bytes mem (arg2 a) (sizeof_termios (Host := Host))) = sizeof_termios (Host := Host))
    by (apply zlength_bytes; lia).
  do 6 client_step Hs; [done|lia|].
  exchanged SYS_ioctl (HIoctl (s32 (arg0 a)) TCGETS (bytes mem (arg2 a) (sizeof_termios (Host := Host)))) Hs; [done|by split_and!|].
  by eapply structure_reply_runs; [exact Hs|..]; [|done|lia|].
Qed.
Lemma performs_pipe a : performs SYS_pipe HPipe a (marshallPipeCall true (HostServer.serve handle_other) indeterminate).
Proof.
  client_call HPipe. unfold marshallPipeCall. exchanged SYS_pipe HPipe Hs; [done|done|].
  do 2 client_step Hs; [done|done|]. run1. unfold memory_after.
  destruct (Z.eqb_spec (syscall HPipe h).1.1 0) as [E|E].
  - eapply ready_buffer; [exact Hs|symmetry; apply app_nil_r|done|lia|next Hs]. run1.
    eapply ready_write; [exact Hs|done|done|next Hs]. run1. split; [done|]. by eexists _, _.
  - do 2 run1. eapply ready_write; [exact Hs|done|done|next Hs]. run1. split; [done|]. by eexists _, _.
Qed.
Lemma performs_readahead a : performs SYS_readahead (HReadahead (s32 (arg0 a)) (readahead_offset a) (arg3 a)) a
  (marshallReadaheadCall (HostServer.serve handle_other)).
Proof.
  client_call (HReadahead (s32 (arg0 a)) (readahead_offset a) (arg3 a)). unfold marshallReadaheadCall. do 6 client_step Hs.
  exchanged SYS_readahead (HReadahead (s32 (arg0 a)) (readahead_offset a) (arg3 a)) Hs; [done|split_and!; [apply int_range|apply s64_range|done]|].
  by eapply int_reply.
Qed.
Lemma performs_read a : performs SYS_read (HRead (s32 (arg0 a)) (arg2 a)) a (marshallReadCall true (HostServer.serve handle_other)).
Proof.
  client_call (HRead (s32 (arg0 a)) (arg2 a)). unfold marshallReadCall. do 4 client_step Hs.
  exchanged SYS_read (HRead (s32 (arg0 a)) (arg2 a)) Hs; [done|by split_and!|].
  destruct Hres as [Hr1 Hr2]; [unfold is_u64 in *; lia|]. set (r := (syscall (HRead (s32 (arg0 a)) (arg2 a)) h).1.1) in *.
  set (out := (syscall (HRead (s32 (arg0 a)) (arg2 a)) h).1.2) in *. cbn [answer] in Hs |- *.
  assert (Ho : r ≠ -1 → zlength (take (Z.to_nat r) out) = r) by (unfold zlength in *; rewrite length_take; lia).
  do 2 client_step Hs. { apply Z.geb_le. rewrite zlength_app, zlength_bytes_of. unfold zlength. lia. }
  do 2 client_step Hs; [done|unfold is_int; lia|]. run1. unfold memory_after.
  eapply ready_size; [exact Hs|destruct (r =? -1) eqn:E; [done|rewrite Ho; lia]|].
  destruct (Z.eqb_spec r (-1)) as [E|E].
  - do 2 client_step Hs; [done|]. run1. split; [done|]. by eexists _, _.
  - specialize (Ho E). run1. run1. apply runs_assert; [by apply Z.eqb_eq|].
    run1. eapply ready_buffer; [exact Hs|symmetry; apply app_nil_r|done|lia|next Hs].
    eapply ready_write; [exact Hs|done|unfold inside in *; lia|next Hs].
    run1. split; [done|]. by eexists _, _.
Qed.

(** Gathering the vectors of [writev]. *)
Lemma ready_gather mem b r h : ∀ iov pre post s (Q : list Z → Sy → Prop), ready mem b r h s →
  Forall (λ v, inside line v.1 v.2) iov → zlength post = zlength (gathered mem iov) →
  zlength pre + zlength post < 2147483648 → (∀ s', ready mem b r h s' → Q (pre ++ gathered mem iov) s') →
  succeeds (gather true iov (pre ++ post) (zlength pre)) s Q.
Proof.
  induction iov as [|[p n] iov IH]; intros pre post s Q Hs Hi Hl Ht HQ.
  - destruct post; [|unfold gathered, zlength in Hl; cbn in Hl; lia]. cbn [gather]. run1. by apply HQ.
  - apply Forall_cons in Hi as [Hv Hi]. pose proof Hv as (Hv1 & Hv2 & Hv3). cbn [fst snd] in *.
    unfold gathered in Hl. cbn [map concat fst snd] in Hl.
    rewrite zlength_app, zlength_bytes in Hl by lia. cbn [gather].
    rewrite u32_small by lia. do 2 client_step Hs; [done|]. run1.
    assert (Hb : zlength (bytes mem p n) = n) by (apply zlength_bytes; lia).
    eapply runs_lift; [apply mem_write_next; unfold zlength in *; lia|].
    replace (s32 (zlength pre + n)) with (zlength (pre ++ bytes mem p n))
      by (rewrite zlength_app, s32_small; unfold zlength in *; lia).
    assert (Hd : zlength (drop (length (bytes mem p n)) post) = zlength (gathered mem iov)).
    { unfold gathered, zlength in *. rewrite length_drop. lia. }
    eapply IH; [exact Hs|done|done| |].
    { rewrite zlength_app, Hd. unfold gathered. lia. }
    intros s' Hs'. rewrite <- app_assoc. by apply (HQ s').
Qed.

Lemma read_u64_mod x l : UnstructuredBuffer.read_u64 (bytes_of 8 x ++ l) = Ok (u64 x, l).
Proof. unfold UnstructuredBuffer.read_u64, UnstructuredBuffer.read. by rewrite UnstructuredBuffer.get_put. Qed.

Lemma performs_writev a b n : performs SYS_writev (HWrite (s32 (arg0 a)) b n) a
  (marshallWritevCall true (HostServer.serve handle_other)).
Proof.
  client_call (HWrite (s32 (arg0 a)) b n). unfold marshallWritevCall. do 2 client_step Hs; [by apply Z.leb_le|].
  assert (is_int (s32 (arg2 a))) by apply int_range.
  assert (Hnn : Forall (λ v, 0 ≤ v.2) iov) by (eapply Forall_impl; [eassumption|unfold inside; intros; lia]).
  rewrite u64_small by (unfold inside, is_int in *; lia). do 2 client_step Hs; [done|]. rewrite iovec_at by done.
  fold iov. rewrite (length_of_all mem iov 0) by (try done; lia). rewrite Z.add_0_l.
  set (g := gathered mem iov) in *. run1.
  eapply (ready_gather mem _ _ _ iov [] (replicate (Z.to_nat (zlength g)) 0)); [exact Hs|done| | |next Hs].
  { unfold zlength. rewrite length_replicate. fold g. lia. }
  { unfold zlength in *. rewrite length_replicate. cbn. lia. }
  rewrite app_nil_l. fold g. do 6 client_step Hs; [done|done|].
  exchanged SYS_writev (HWrite (s32 (arg0 a)) g (zlength g)) Hs; [by right|by split_and!|].
  do 2 client_step Hs; [done|]. eapply ready_recv; [exact Hs| |next Hs; split; [done|by eexists _, _]].
  rewrite <- (app_nil_r (answer _ _ _ _)). apply read_u64_mod.
Qed.

(** The handler the client chooses for a call. *)
Abbreviation enter := (runEnter true (HostServer.serve handle_other) (sizeof_stat (Host := Host)) (sizeof_termios (Host := Host))
  max_string indeterminate host_syscall marshallGetCwdCall marshallSchedGetAffinityCall).
Abbreviation handler_of := (handler true (HostServer.serve handle_other) (sizeof_stat (Host := Host)) (sizeof_termios (Host := Host))
  max_string indeterminate host_syscall marshallGetCwdCall marshallSchedGetAffinityCall).

Lemma chosen_handler mem a number c : asks mem a number c → ∃ k, handler_of number = Some k ∧ performs number c a k.
Proof.
  intros Ha. inversion Ha; subst.
  - eexists. split; [reflexivity|apply performs_open].
  - eexists. split; [reflexivity|apply performs_read].
  - eexists. split; [reflexivity|apply performs_write].
  - eexists. split; [reflexivity|apply performs_writev].
  - eexists. split; [reflexivity|apply performs_close].
  - eexists. split; [reflexivity|apply performs_lseek].
  - eexists. split; [reflexivity|apply performs_access].
  - eexists. split; [|apply performs_stat]. by destruct_or?; subst.
  - eexists. split; [reflexivity|apply performs_fstat].
  - eexists. split; [reflexivity|apply performs_ioctl].
  - eexists. split; [reflexivity|apply performs_getpid].
  - eexists. split; [reflexivity|apply performs_readahead].
  - eexists. split; [reflexivity|by apply performs_pipe].
  - eexists. split; [reflexivity|apply performs_rmdir].
  - eexists. split; [reflexivity|apply performs_unlink].
Qed.

(** C11: a call of one of the sixteen kinds that are forwarded with their data
    (open, read, write, writev, close, lseek, access, stat, lstat, fstat, ioctl with
    TCGETS, getpid, readahead, pipe, rmdir, unlink; getcwd and the affinity calls
    pass addresses of the master's process and are parameters here), forwarded to
    the master and answered, is one call on the host with the bytes its arguments
    point to in the simulated memory: the program gets the host's result, memory
    changes only where the call stores its results, to the bytes the host filled in,
    and the host is in the state after that call.  No assertion of the client or the
    server fails on the way, for any host and any memory that keep their laws.  The
    arguments are the ones the client sends: those of [readahead] are not the
    program's on x86-64 ([readahead_offset]), and a [pipe] that fails stores what its
    descriptors held before.  The ranges and names the arguments point to lie in
    memory below the last line, names have less than [max_string] bytes, and the
    bytes written are fewer than 2^31. *)
Theorem forwarded_call_is_host_call number c a mem old h s :
  good line mem s → HostServer.host (server s) = h → asks mem a number c →
  succeeds (n ← enter number a ; r ← with_mdl (runExit old) ; mret (n, r)) s (λ p s',
    p = (SYS_getpid, u64 (syscall c h).1.1) ∧ m_called_enter (mdl s') = false ∧
    HostServer.host (server s') = (syscall c h).2 ∧
    good line (memory_after mem a c (syscall c h).1.1 (syscall c h).1.2) s').
Proof.
  intros Hg Hh Ha. destruct (chosen_handler mem a number c Ha) as (k & Ek & Hk).
  unfold runEnter, put, with_mdl. rewrite Ek. do 2 run1. apply runs_zoom, runs_modify. run1. apply runs_zoom, runs_modify.
  run1. apply runs_zoom, runs_modify. do 2 run1. apply runs_zoom, runs_modify. run1.
  eapply runs_mono; [apply (Hk mem h); [done|]|].
  { destruct Hg as [Hu Hl Hm]. split; cbn; [by split|done..]. }
  intros v s1 (-> & b & r & [[Hu Hl Hm] Hb Hr He Hx]). apply runs_zoom, runs_modify. do 3 run1. run1. apply runs_zoom.
  unfold runExit. do 2 run1. unfold id. cbn -[u64]. rewrite He. do 3 run1. split_and!; [done|done|done|by split].
Qed.
End host.

(** ** A read on a small system *)

(** A host with one file: the bytes that were not read yet.  Other calls fill in
    zeros. *)
#[global] Instance file_host : HostSystem (list Z) := {|
  sizeof_stat := 144;
  sizeof_termios := 60;
  syscall c file :=
    match c with
    | HRead _ count =>
      let n := Z.min (Z.max 0 count) (Z.min (zlength file) 2147479552) in (n, take (Z.to_nat n) file, drop (Z.to_nat n) file)
    | HWrite _ _ count => (Z.min (Z.max 0 count) 2147479552, [], file)
    | HStat _ _ _ | HFstat _ _ => (0, replicate 144 0, file)
    | HIoctl _ _ _ => (0, replicate 60 0, file)
    | HPipe => (0, replicate 8 0, file)
    | _ => (0, [], file)
    end
|}.
#[global] Instance file_host_laws : HostLaws (list Z).
Proof.
  split; [done|done| |].
  - intros c h. destruct c; cbn -[Z.min Z.max]; try done; unfold zlength; lia.
  - intros c h. destruct c; cbn -[Z.min Z.max]; try done. unfold zlength. rewrite length_take. lia.
Defined.

#[local] Instance sample_config : CoreConfig :=
  {| performance_modeling := true; instruction_costs _ := 1; mispredict_penalty := 14 |}.
#[local] Instance sample_instructions : InstructionMemory MainCoreTheorems.FlatMemory := MainCore.instruction_memory true.
Definition sample : System SimpleCoreModel.SimpleCoreModel MainCoreTheorems.FlatMemory (HostServer.Server (list Z)) :=
  mkSystem (make 0 (mkArgs 0 0 0 0 0 0) []) MainCoreTheorems.sample Core.RUNNING (HostServer.mkServer [] [] [72; 105; 33]).
(** [read(0, 63, 2)]: two bytes on both sides of the end of a line. *)
Definition sample_args : syscall_args_t := mkArgs 0 63 2 0 0 0.

Lemma forwarded_call_is_host_call_witness :
  succeeds (n ← runEnter true (HostServer.serve (λ _, skip)) 144 60 10 (replicate 8 0) (λ _ _, mret 0) (λ _, mret 0) (λ _, mret 0) SYS_read sample_args ;
            r ← with_mdl (runExit 7) ; mret (n, r)) sample (λ p s',
    p = (SYS_getpid, 2) ∧ m_called_enter (mdl s') = false ∧ HostServer.host (server s') = [33] ∧
    good 64 (stored (λ x, x `mod` 256) 63 [72; 105]) s').
Proof.
  exact (forwarded_call_is_host_call (λ _, skip) 10 (replicate 8 0) eq_refl (λ _ _, mret 0) (λ _, mret 0) (λ _, mret 0) 64 SYS_read (HRead 0 2)
    sample_args (λ x, x `mod` 256) 7 [72; 105; 33] sample ltac:(by split) eq_refl
    ltac:(apply asks_read; cbn; unfold is_u64, inside; cbn; lia)).
Defined.

(** ** Calls that differ from the host's *)

(** The elapsed time is a product of [float]s: after ten seconds at 1 GHz the clock
    stands still for four hundred cycles, and a thousand cycles are 999 ns. *)
Lemma clock_stands_still :
  elapsed 10000000000 (float_of_int 1) = Ok (10, 0) ∧ elapsed 10000000400 (float_of_int 1) = Ok (10, 0) ∧
  elapsed 1000 (float_of_int 1) = Ok (0, 999).
Proof. by vm_compute. Qed.
(** A [pipe] that fails still stores eight bytes, which nobody has set. *)
Lemma failed_pipe_stores :
  match marshallPipeCall true (λ _, mret (bytes_of 4 (-1) ++ replicate 8 0)) [7; 7; 7; 7; 7; 7; 7; 7]
          (mkArgs 100 0 0 0 0 0) sample with
  | Ok (v, s) => v = u64 (-1) ∧ contents (memory (core s)) 100 = 7
  | Fail _ => False
  end.
Proof. by vm_compute. Qed.
(** [readahead(3, 4096, 8192)] of x86-64 is sent with another offset and count. *)
Lemma readahead_misread :
  match marshallReadaheadCall (λ _, mret (bytes_of 4 0)) (mkArgs 3 4096 8192 0 0 0) sample with
  | Ok (_, s) => m_send_buff (mdl s) = bytes_of 4 3 ++ bytes_of 8 (4096 * 2 ^ 32 + 8192) ++ bytes_of 8 0
  | Fail _ => False
  end.
Proof. by vm_compute. Qed.
